(* ===== verification/_CoqProject ===== *)
-Q . S2P
Prelude.v
RustStd.v
BTree.v
Bencode.v
BencodeFacts.v
BencodeGrammar.v
BencodeCanon.v
BencodeSpec.v
Words.v
UtilSha.v
UtilConvert.v
Chrono.v
DhtNode.v
DhtTable.v
DhtTableSpec.v
DhtClosest.v
DhtClosestSpec.v
DhtToken.v
UtilTrans.v
DhtTransaction.v
DhtStorage.v
UtpPacket.v
UtpPacketSpec.v
DhtBencode.v
DhtBencodeSpec.v
DhtCompact.v
DhtSecurity.v
UtilContiguous.v
DhtMessage.v
DhtMessageSpec.v
Paths.v
UtpWorld.v
UtpSocket.v
UtpSocketInv.v
UtpSocketSpec.v
UtpDelivery.v
Nom.v
TrackerMessage.v
TrackerMessageSpec.v
TrackerClient.v
TrackerClientFacts.v
TrackerClientSpec.v
BencodeAccess.v
PeerMessage.v
PeerMessageSpec.v
Handshake.v
HandshakeSpec.v
HandshakeExchange.v
DhtWorker.v
DhtLookup.v
DhtLookupSpec.v
DhtLookupRuns.v
DhtBootstrap.v
DhtBootstrapSpec.v
DhtHandler.v
DhtHandlerFacts.v
DhtHandlerEvents.v
DhtHandlerSpec.v
BencodeEntries.v
Metainfo.v
MetainfoHasher.v
MetainfoHasherInv.v
MetainfoHasherSpec.v
MetainfoBuilder.v
MetainfoFacts.v
MetainfoRoundtrip.v
DiskRegions.v
DiskFs.v
DiskPieces.v
DiskManager.v
DiskManagerFacts.v
DiskManagerSpec.v
DiskDownload.v
PeerManager.v
PeerManagerSpec.v
Select.v
SelectSpec.v
UtMetadata.v
UtMetadataSpec.v
Magnet.v
