(* ===== verification/Prelude.v ===== *)
(** * A verification of the bittorrent-protocol crate

    The crate implements the parts of a BitTorrent client: bencode ([src/bencode]),
    utilities ([src/util]), the mainline DHT ([src/dht]), the uTorrent transport
    protocol ([src/utp]), UDP trackers ([src/utracker]), peer handshakes and wire
    messages ([src/handshake], [src/peer]), torrent files and magnet links
    ([src/metainfo], [src/magnet]), piece storage ([src/disk]) and piece selection
    ([src/select]). Bencode and the utilities are used by all other parts; the
    DHT's worker composes its routing table, announce storage, token store,
    transaction ids and messages; the peer manager runs the codec of the wire messages
    in two threads per peer; the disk manager writes the blocks of a torrent parsed by
    [metainfo]; the modules of [select] exchange messages about the peers of the peer
    manager and the torrents of [metainfo].

    This development translates the crate's self-contained algorithms into
    executable definitions and proves what makes them correct. Paths below are
    relative to the crate's [src] directory.

    ** Conventions

    A Rust function that can fail yields a [res]: [Ok], [Err], [Panic] (a failed
    [unwrap], an index or slice out of range, an explicit [panic!]) or, for
    recursion the model bounds by fuel, [OutOfFuel]. [let?] is the [?] operator.
    Arithmetic that would overflow is a [Panic] where the source uses plain operators
    on machine integers (overflow checks are on) and wraps where it says so.
    Machine integers are values of [Z] with their truncations ([wrap], [as_u8], ...)
    written out; lengths and positions ([usize]) are [nat], since they index
    allocated data. Byte strings are lists of [Z] below 256, [bytes_ok] states it.
    A [&mut self] method maps the state before to the state after. The time an
    operation reads from the clock and the numbers it draws from a random generator
    are arguments; the clock is read once per operation. Code of other crates is a
    parameter: the SHA-1 digest and the CRC-32C checksum are function parameters,
    the date arithmetic of [chrono] is the class [Chrono] of file [Chrono] with the
    laws the code relies on and an integer instance that satisfies them; the parser
    combinators of [nom] and the writers of [byteorder] are the class [Nom] with its
    laws [NomLaws] and the instance [nom_reference]; the order in which a hash map is
    walked is the class [HashOrder], binary search the class [BinarySearch]. The uTP
    socket runs in a monad over a world that has a script of what each receive returns
    and each clock reading. A handshake runs over any socket (the class [Socket]) and
    any filters (the class [HandshakeFilter]). The DHT worker runs in a monad over a
    world with the routing table and the effects so far; the class [DhtEnv] says how
    each call to the event loop, the channels and the random generator ends. Files to
    hash are read through the class [Accessor], a torrent is stored through the class
    [FileSystem] with its laws (the crate's file systems are instances, the cache over the
    class [LruCache]), sets of pieces are the class [BitSet], the modules of [select] the
    class [DiscoveryTrait], and the [url] and [base32] crates the classes [UrlCrate] and
    [Base32Crate]. The threads that hash pieces, the tasks of the disk manager and the
    threads of peers are steps on a shared state that interleave in any order; a panic
    that poisons a lock is part of the state.

    ** Files

    - [Prelude]: the outcome type and its notation, machine integers, slices, the
      tactics [res_inv] and [destruct_ex], the hint databases.
    - [RustStd], [BTree], [Words]: what the sources use of the standard library:
      decimal printing and parsing, UTF-8 validation, iterator searches, ordered
      byte-string maps, big-endian words and the bit lemmas on them.
    - [Bencode]: [bencode/reference/decode.rs], [decode_opt.rs], [bencode_ref.rs]
      and [bencode/mutable/encode.rs], [bencode_mut.rs]. [BencodeFacts],
      [BencodeGrammar] and [BencodeCanon] hold its lemmas: single steps, termination, the inductive grammar [gram] the decoder is shown to
      accept exactly, and canonical texts. [BencodeSpec] has its properties: round
      trip, refinement of the grammar, termination, well-formed and canonical
      results, self-contained buffers, the recursion limit, and the inputs that
      make it panic.
    - [DhtBencode], [DhtBencodeSpec]: [dht/bencode], the second bencode
      implementation, whose decoder is a loop over an explicit stack; it is shown
      equal to a recursive reading of itself, errors included, equivalent to the
      first decoder on accepted inputs, and free of panics.
    - [UtilSha], [UtilConvert]: [util/sha], [util/error.rs], [util/convert.rs] and
      [util/net.rs]: hashes, their bit iterator and common prefixes, socket
      addresses and their compact forms.
    - [DhtNode], [DhtTable], [DhtClosest]: [dht/routing]. The table's
      invariant (node and bucket counts, every node in the bucket of its common
      prefix with the local id) is proved for every history of insertions in
      [DhtTableSpec]; [DhtClosestSpec] characterises the
      closest-nodes iterator: which nodes it yields, and in which order of buckets.
    - [DhtToken], [DhtTransaction], [DhtStorage], [DhtCompact], [DhtSecurity]:
      [dht/token.rs], [dht/transaction.rs], [dht/storage.rs],
      [dht/message/compact_info.rs] and [dht/security.rs]. Tokens are accepted and
      refused by age over arbitrary histories of the store; transaction ids are
      unique; the storage refines an abstract set of timed announcements; compact
      node lists round-trip; generated ids pass the compliance check.
    - [DhtMessage], [DhtMessageSpec]: [dht/bencode/convert.rs], [dht/error.rs] and
      [dht/message]: the conversion trait as a class over the validators, all
      queries, responses and errors with their parsing and encoding. Every message
      survives encoding, the stack decoder and parsing; parsing never panics.
    - [DhtWorker]: the tasks, effects and calls of [dht/worker], and
      total correctness of the monad. [DhtLookup] ([dht/worker/lookup.rs]) with
      [DhtLookupSpec] and [DhtLookupRuns]: the nodes a lookup asks,
      how many messages it sends, that it ends when nobody answers, and whom it
      announces to. [DhtBootstrap] ([dht/worker/bootstrap.rs], [refresh.rs]) with
      [DhtBootstrapSpec]: a bootstrap visits the buckets in order and ends.
    - [DhtHandler]: [dht/worker/handler.rs] and [dht/router.rs], every event of the
      loop. [DhtHandlerFacts] (what parsing a datagram can yield, the invariant),
      [DhtHandlerEvents] and [DhtHandlerSpec]: the handler's invariant over all runs, the
      answers to queries, tokens and announcements over runs of the handler, and two ways
      to make it fail.
    - [UtilTrans]: [util/mod.rs] and [util/trans]: shuffles and id generators.
    - [UtpPacket], [UtpPacketSpec]: [utp/packet.rs] and [utp/error.rs]: packets as
      raw bytes with their header fields and extension chain, parsing as the
      refinement of an inductive chain of extensions.
    - [UtpWorld], [UtpSocket]: [utp/time.rs], [utp/util.rs],
      [utp/bit_iterator.rs], [utp/socket.rs] and [utp/stream.rs]: the socket with its
      buffers, congestion control, retransmission and public calls. [UtpSocketInv]
      and [UtpSocketSpec] have its lemmas, its invariant over all histories, the
      termination of its calls and the relation of selective acknowledgements to the
      receive buffer; [UtpDelivery] shows that data is cut into packets and delivered in
      order, and where it is not.
    - [Nom]: parser combinators as a class with laws. [TrackerMessage],
      [TrackerMessageSpec]: the messages of [utracker] (announce,
      scrape, errors, options, compact peers), their round trips and the absence of
      panics. [TrackerClient] with [TrackerClientFacts] and [TrackerClientSpec]:
      [utracker/client] and [utracker/server]: the client's
      dispatcher (attempts, connection ids, timeouts, the request limiter) and the
      server's; every request is answered once, and client and server composed
      exchange an announce.
    - [BencodeAccess]: [bencode/access], the accessors as a class over both value
      types, lists with their iterator, and the conversions with their errors. [BencodeEntries]: dictionaries under
      construction that can be encoded and read back.
    - [PeerMessage], [PeerMessageSpec]: [peer/message],
      [peer/message_codec] and the reading loop of [peer/manager/task_split.rs]: all
      messages round-trip, and the reader cuts a stream into its messages.
    - [PeerManager], [PeerManagerSpec]: [peer/manager]: peers, the sink, the stream and
      the threads of each peer. Over all interleavings messages are answered once and in
      order and the stream never panics; a misuse of the sink stops the manager for good.
    - [Handshake], [HandshakeSpec], [HandshakeExchange]: [handshake]: messages, frames,
      filters, the handlers and the threads of the manager; both sides of a handshake
      agree, and what the manager yields has passed the filters.
    - [UtilContiguous]: [util/contiguous.rs], the buffer trait as a class of
      operations and a class of laws, with lawful instances; and [util/send], where
      threads that share a split sender never exceed its capacity.
    - [Paths]: paths of the standard library. [Metainfo], [MetainfoBuilder]:
      [metainfo/metainfo.rs], [parse.rs], [error.rs], [accessor.rs] and [builder]: parsing
      a torrent file, accessing files and building one. [MetainfoHasher] with
      [MetainfoHasherInv] and [MetainfoHasherSpec]: [builder/worker.rs] and [buffer.rs]:
      every schedule of the hashing threads ends and gives the hashes of sequential
      reading. [MetainfoFacts], [MetainfoRoundtrip]: what was built, and what was parsed
      and encoded again, is read back.
    - [DiskRegions], [DiskPieces]: [disk/memory/block.rs] and
      [disk/tasks/helpers]: blocks mapped to regions of the torrent's files, shown
      to act on one contiguous byte array, and the merging of received blocks,
      shown to report only pieces that were received completely.
    - [DiskFs]: [disk/fs]: the file system trait with its laws, and the native and the
      caching file system as lawful instances. [DiskManager]: [disk/manager.rs],
      [disk/builder.rs], [disk/tasks]: the sink with its capacity, the tasks (those on a
      torrent that is there run under its lock, adding one takes three steps without a lock)
      and the stream. [DiskManagerFacts], [DiskManagerSpec] and
      [DiskDownload]: pieces reported good are on disk in every interleaving, a torrent
      whose blocks arrive is downloaded, how capacity leaks and how a torrent is lost.
    - [Select], [SelectSpec]: [select/base], [select/extended], [select/uber.rs] and
      [select/revelation]: a connected peer is told exactly the pieces that the history
      of inputs says were found; the uber module passes a message to all its modules in order, unless one fails.
    - [UtMetadata], [UtMetadataSpec]: [select/discovery/ut_metadata.rs]: over all
      histories only what was asked for is reported and nothing panics on lawful input;
      a download with an honest peer completes; which inputs break it.
    - [Magnet]: [magnet/mod.rs]: topics and parameters of a link are read back.

    ** Fuel

    Each bound is a definition used by the modelled entry point, and a theorem
    shows it is never reached. [decode_fuel] (twice the input length plus two):
    every nested call and every loop iteration of the decoder is charged to an
    unread byte ([decode_terminates]). [loop_fuel]: an iteration of the stack
    decoder reads a byte and pushes at most one entry or removes one, so twice the
    unread bytes plus the stack height decreases ([dht_decode_reports]).
    [TABLE_FUEL] (160 buckets plus five): an insertion retries only after a split,
    which adds a bucket ([routing_table_invariant]). [NEXT_FUEL] and
    [COLLECT_FUEL]: the closest-nodes iterator visits each of 161 indices once and
    yields at most eight nodes per bucket ([closest_nodes_spec]). [ext_fuel]: the
    extension chain of a packet advances by at least two bytes per step
    ([packet_parse_spec]). [DEC_FUEL]: twenty digits print every 64-bit number.
    The id generators recurse at most once after a refill. [BUCKET_FUEL]: a bootstrap
    skips each of 160 buckets at most once ([silent_bootstrap_completes]);
    [ATTEMPT_FUEL]: three attempts at a bootstrap ([handler_never_panics]);
    [POLL_FUEL]: a frame reads a byte of a message of bounded length per step. The loops of the uTP
    socket are charged to the events of the world ([utp_calls_end]). The options of an
    announce, the peers of a compact list, the expiry of connection ids and the
    messages of a read each consume a byte or an entry per step ([reader_loop_fuel]). The
    threads that hash pieces are charged to a measure of the bytes and messages left
    ([hashing_matches_sequential_reading]). [uber_fuel]: the uber module visits each of its
    modules once ([uber_delivers_in_order]). A poll of the metadata module removes a
    download per retry ([metadata_exchange_is_safe]).

    ** Not modelled

    Sockets, operating-system threads, channels and timers themselves, and the event loops
    of [umio] and [mio]: the models say what the crate does between two calls to them.
    The single-threaded task of a peer ([peer/manager/task_one_thread.rs]) is not used by
    the crate. The builder and the threads that start the DHT ([dht/builder.rs],
    [dht/worker/messenger.rs]) and the TCP and uTP transports of handshakes only pass values
    on. The commented-out data messages of the DHT, logging (but for the log line of a
    peer's reading thread that can panic), formatting and hashing implementations, the
    crate's tests and its examples are left out. *)

From Stdlib Require Export ZArith Lia.
From stdpp Require Export base tactics numbers option list.
From Stdlib Require Import Ascii.
From Stdlib Require String.
Export String.StringSyntax.

#[global] Open Scope Z_scope.
#[global] Open Scope list_scope.

(** ** Outcomes of Rust functions *)

(** [Ok] and [Err] are the constructors of [Result]; [Panic] is a Rust panic
    (a failed [unwrap], an index or slice out of range, a failed [assert!]).
    [OutOfFuel] is produced only by the model's bounded recursion, when the
    bound is reached; the components prove it unreachable for the bound they use. *)
Inductive res (E A : Type) : Type :=
| Ok (a : A)
| Err (e : E)
| Panic
| OutOfFuel.
Arguments Ok {E A} a.
Arguments Err {E A} e.
Arguments Panic {E A}.
Arguments OutOfFuel {E A}.

(** The [?] operator. *)
Definition res_bind {E A B} (m : res E A) (k : A -> res E B) : res E B :=
  match m with
  | Ok a => k a
  | Err e => Err e
  | Panic => Panic
  | OutOfFuel => OutOfFuel
  end.

(** [Result::unwrap]: an [Err] becomes a panic. *)
Definition res_unwrap {E E' A} (m : res E A) : res E' A :=
  match m with
  | Ok a => Ok a
  | Err _ => Panic
  | Panic => Panic
  | OutOfFuel => OutOfFuel
  end.

(** [Result::map_err]. *)
Definition map_err {E E' A} (m : res E A) (f : E -> E') : res E' A :=
  match m with
  | Ok a => Ok a
  | Err e => Err (f e)
  | Panic => Panic
  | OutOfFuel => OutOfFuel
  end.

(** [Option::ok_or]. *)
Definition ok_or {E A} (o : option A) (e : E) : res E A :=
  match o with Some a => Ok a | None => Err e end.

(** Indexing and [Option::unwrap]: [None] panics. *)
Definition or_panic {E A} (o : option A) : res E A :=
  match o with Some a => Ok a | None => Panic end.

Declare Scope rust_scope.
Delimit Scope rust_scope with rust.
#[global] Open Scope rust_scope.

Notation "'let?' x := m 'in' k" := (res_bind m (fun x => k))
  (at level 10, x pattern, m at level 200, k at level 200,
   format "'[v' 'let?'  x  :=  m  'in'  '/' k ']'") : rust_scope.

Definition is_ok {E A} (m : res E A) : bool :=
  match m with Ok _ => true | _ => false end.

Ltac destruct_ex :=
  repeat match goal with
  | H : exists _, _ |- _ => destruct H as [? H]
  | H : _ /\ _ |- _ => destruct H
  | H : _ \/ _ |- _ => destruct H
  end.

Section ResFacts.
Context {E A B : Type}.

Lemma res_bind_Ok (m : res E A) (k : A -> res E B) b :
  res_bind m k = Ok b <-> exists a, m = Ok a /\ k a = Ok b.
Proof. destruct m; simpl; split; intros; destruct_ex; simplify_eq; eauto. Qed.

Lemma res_bind_Panic (m : res E A) (k : A -> res E B) :
  res_bind m k = Panic <-> m = Panic \/ exists a, m = Ok a /\ k a = Panic.
Proof. destruct m; simpl; split; intros; destruct_ex; simplify_eq; eauto. Qed.

Lemma res_bind_OutOfFuel (m : res E A) (k : A -> res E B) :
  res_bind m k = OutOfFuel <-> m = OutOfFuel \/ exists a, m = Ok a /\ k a = OutOfFuel.
Proof. destruct m; simpl; split; intros; destruct_ex; simplify_eq; eauto. Qed.

Lemma res_bind_Err (m : res E A) (k : A -> res E B) e :
  res_bind m k = Err e <-> m = Err e \/ exists a, m = Ok a /\ k a = Err e.
Proof. destruct m; simpl; split; intros; destruct_ex; simplify_eq; eauto. Qed.

Lemma map_err_Ok E' (m : res E A) (f : E -> E') a : map_err m f = Ok a <-> m = Ok a.
Proof. destruct m; simpl; split; congruence. Qed.

Lemma reports_map_err E' (m : res E A) (f : E -> E') :
  m <> Panic -> m <> OutOfFuel -> map_err m f <> Panic /\ map_err m f <> OutOfFuel.
Proof. by destruct m. Qed.

Lemma res_unwrap_Ok E' (m : res E A) a : res_unwrap (E' := E') m = Ok a -> m = Ok a.
Proof. destruct m; simpl; congruence. Qed.

Lemma res_unwrap_Panic E' (m : res E A) :
  res_unwrap (E' := E') m = Panic -> m = Panic \/ exists e, m = Err e.
Proof. destruct m; simpl; intros; simplify_eq; eauto. Qed.

Lemma res_unwrap_OutOfFuel E' (m : res E A) :
  res_unwrap (E' := E') m = OutOfFuel -> m = OutOfFuel.
Proof. destruct m; simpl; congruence. Qed.

End ResFacts.

(** Invert a successful (or failing) monadic computation in a hypothesis. *)
Ltac res_inv :=
  repeat match goal with
  | H : res_bind _ _ = Ok _ |- _ =>
      let x := fresh "x" in let E := fresh "Hm" in
      apply res_bind_Ok in H as (x & E & H);
      lazymatch type of x with
      | prod _ _ => destruct x
      | unit => destruct x
      | _ => idtac
      end; simpl in H
  | H : res_unwrap _ = Ok _ |- _ => apply res_unwrap_Ok in H
  | H : Ok (_, _) = Ok (_, _) |- _ => injection H as ? ?; subst
  | H : Ok _ = Ok _ |- _ => injection H as H; subst
  | H : (_, _) = (_, _) |- _ => injection H as H ?; subst
  | H : Err _ = Ok _ |- _ => discriminate H
  | H : Panic = Ok _ |- _ => discriminate H
  | H : OutOfFuel = Ok _ |- _ => discriminate H
  end.

(** ** Machine integers *)

(** Unsigned and signed integers of [w] bits are values of [Z] in range. *)
Definition in_unsigned (w : Z) (n : Z) : Prop := 0 <= n < 2 ^ w.
Definition in_signed (w : Z) (n : Z) : Prop := - 2 ^ (w - 1) <= n < 2 ^ (w - 1).

Abbreviation is_u8 := (in_unsigned 8).
Abbreviation is_u16 := (in_unsigned 16).
Abbreviation is_u32 := (in_unsigned 32).
Abbreviation is_u64 := (in_unsigned 64).
Abbreviation is_i64 := (in_signed 64).

(** [as u8], [as u16], ...: truncation to [w] bits. *)
Definition wrap (w : Z) (n : Z) : Z := n mod 2 ^ w.

(** [as i64] from a wider or unsigned value: two's complement reinterpretation. *)
Definition swrap (w : Z) (n : Z) : Z := (n + 2 ^ (w - 1)) mod 2 ^ w - 2 ^ (w - 1).

Abbreviation as_u8 := (wrap 8).
Abbreviation as_u16 := (wrap 16).
Abbreviation as_u32 := (wrap 32).
Abbreviation as_u64 := (wrap 64).

#[global] Instance in_unsigned_dec w n : Decision (in_unsigned w n).
Proof. unfold in_unsigned. apply _. Defined.
#[global] Instance in_signed_dec w n : Decision (in_signed w n).
Proof. unfold in_signed. apply _. Defined.

Lemma wrap_in_unsigned w n : 0 <= w -> in_unsigned w (wrap w n).
Proof. intros Hw. apply Z.mod_pos_bound. lia. Qed.

Lemma wrap_id w n : in_unsigned w n -> wrap w n = n.
Proof. apply Z.mod_small. Qed.

(** ** Bytes *)

(** A byte buffer is the list of its bytes, each a [Z] in [0, 256). *)
Abbreviation bytes := (list Z) (only parsing).
Definition bytes_ok (b : list Z) : Prop := Forall is_u8 b.

#[global] Instance bytes_ok_dec b : Decision (bytes_ok b).
Proof. unfold bytes_ok. apply _. Defined.

(** The byte string of an ASCII literal: [bs "d1:ae"] is Rust's [b"d1:ae"]. *)
Fixpoint bs (s : String.string) : list Z :=
  match s with
  | String.EmptyString => []
  | String.String c s => Z.of_N (N_of_ascii c) :: bs s
  end.
Arguments bs s%_string_scope.

(** [&b[i..j]] for [i <= j <= b.len()]. *)
Definition slice {A} (b : list A) (i j : nat) : list A := take (j - i) (drop i b).

Create HintDb rust discriminated.
Create Rewrite HintDb rust_rew.

#[export] Hint Resolve wrap_in_unsigned : rust.
#[export] Hint Rewrite @length_app @length_take @length_drop @length_map : rust_rew.

Section SliceFacts.
Context {A : Type}.
Implicit Types b : list A.

Lemma length_slice b i j : (j <= length b)%nat -> length (slice b i j) = (j - i)%nat.
Proof. unfold slice. autorewrite with rust_rew. lia. Qed.


End SliceFacts.

Section DropFacts.
Context {A : Type}.
Implicit Types b l : list A.

Lemma drop_cons_lookup b i x l : drop i b = x :: l -> b !! i = Some x /\ drop (S i) b = l.
Proof.
  intros H. split.
  - rewrite <- (Nat.add_0_r i), <- lookup_drop, H. done.
  - replace (S i) with (i + 1)%nat by lia. by rewrite <- drop_drop, H.
Qed.

Lemma drop_app_shift b i l k : drop i b = l ++ k -> drop (i + length l) b = k.
Proof. intros H. rewrite <- drop_drop, H. apply drop_app_length. Qed.

Lemma drop_length_le b i l : drop i b = l -> l <> [] -> (i < length b)%nat.
Proof. intros H Hl. destruct (decide (i < length b)%nat); [done|]. by rewrite drop_ge in H by lia. Qed.

Lemma lookup_drop_cons b i x : b !! i = Some x -> drop i b = x :: drop (S i) b.
Proof. intros H. by rewrite (drop_S b x i). Qed.

Lemma slice_drop_app b i l k : drop i b = l ++ k -> slice b i (i + length l) = l.
Proof.
  intros H. unfold slice. rewrite H. replace (i + length l - i)%nat with (length l) by lia.
  apply take_app_length.
Qed.

Lemma drop_slice_app b i j : (i <= j)%nat -> drop i b = slice b i j ++ drop j b.
Proof.
  intros H. unfold slice. rewrite <- (take_drop (j - i) (drop i b)) at 1.
  f_equal. rewrite drop_drop. f_equal. lia.
Qed.

End DropFacts.
