(* ===== verification/RustStd.v ===== *)
(** * Parts of the Rust standard library the sources use

    Decimal printing and parsing of integers ([i64::to_string],
    [i64::from_str_radix]), UTF-8 validation ([str::from_utf8]), slice ordering
    and searching, and [BTreeMap] with byte-string keys as its sorted list of
    entries. Each function follows the documented behaviour of the standard
    library; the lemmas are the facts the components share. *)

From stdpp Require Import gmap.
From Stdlib Require Import Sorted.
From S2P Require Import Prelude.

(** ** Iterators *)

(** [Iterator::position]. *)
Fixpoint position {A} (p : A -> bool) (l : list A) : option nat :=
  match l with
  | [] => None
  | x :: l => if p x then Some 0%nat else S <$> position p l
  end.

Section Position.
Context {A : Type} (p : A -> bool).
Implicit Types l : list A.

Lemma position_app_hit l x k :
  Forall (fun y => p y = false) l -> p x = true ->
  position p (l ++ x :: k) = Some (length l).
Proof.
  intros Hl Hx. induction Hl as [|y l Hy Hl IH]; simpl; [by rewrite Hx|].
  by rewrite Hy, IH.
Qed.

Lemma position_Some l i :
  position p l = Some i ->
  exists x, l = take i l ++ x :: drop (S i) l /\ p x = true /\
            Forall (fun y => p y = false) (take i l) /\ (i < length l)%nat.
Proof.
  revert i; induction l as [|y l IH]; intros i; simpl; [done|].
  destruct (p y) eqn:Hy.
  - intros [= <-]. exists y. repeat split; simpl; auto with lia.
  - destruct (position p l) as [j|] eqn:Hj; simpl; [|done].
    intros [= <-]. destruct (IH j eq_refl) as (x & Heq & Hx & Hf & Hl).
    exists x. simpl. rewrite <- Heq. repeat split; auto with lia.
Qed.

Lemma position_None l : position p l = None <-> Forall (fun y => p y = false) l.
Proof.
  induction l as [|y l IH]; simpl; [by split; auto|].
  destruct (p y) eqn:Hy.
  - split; [done|]. intros H. inversion H; congruence.
  - rewrite fmap_None, IH. split; [by constructor|]. by inversion 1.
Qed.
End Position.

(** ** Decimal integers *)

Definition ASCII_PLUS : Z := 43.
Definition ASCII_MINUS : Z := 45.
Definition ASCII_0 : Z := 48.

(** [char::to_digit(10)] on an ASCII byte. *)
Definition digit_val (c : Z) : option Z :=
  if (48 <=? c) && (c <=? 57) then Some (c - 48) else None.

Definition is_digit (c : Z) : Prop := 48 <= c <= 57.

(** The result of a checked [i64] operation. *)
Definition checked_i64 (n : Z) : option Z :=
  if (- 2 ^ 63 <=? n) && (n <? 2 ^ 63) then Some n else None.

(** The digit loop of [from_str_radix]: [acc.checked_mul(10)] and then
    [checked_add] (sign [1]) or [checked_sub] (sign [-1]). *)
Fixpoint parse_digits (sgn acc : Z) (s : list Z) : option Z :=
  match s with
  | [] => Some acc
  | c :: s =>
      d ← digit_val c;
      m ← checked_i64 (acc * 10);
      acc' ← checked_i64 (m + sgn * d);
      parse_digits sgn acc' s
  end.

(** [i64::from_str_radix(s, 10)]: an optional sign, then at least one digit;
    [None] stands for any [ParseIntError]. *)
Definition i64_from_str_radix (s : list Z) : option Z :=
  match s with
  | [] => None
  | c :: rest =>
      if ((c =? ASCII_PLUS) || (c =? ASCII_MINUS)) && (length rest =? 0)%nat then None
      else if c =? ASCII_PLUS then parse_digits 1 0 rest
      else if c =? ASCII_MINUS then parse_digits (-1) 0 rest
      else parse_digits 1 0 s
  end.

(** The decimal digits of a natural number, most significant first. *)
Fixpoint dec_digits (fuel : nat) (n : Z) (acc : list Z) : list Z :=
  match fuel with
  | O => acc
  | S f =>
      let acc' := (48 + n mod 10) :: acc in
      if n / 10 =? 0 then acc' else dec_digits f (n / 10) acc'
  end.

(** Every 64-bit integer has at most twenty decimal digits. *)
Definition DEC_FUEL : nat := 20.

(** [usize::to_string] and [i64::to_string], as bytes. *)
Definition usize_to_string (n : Z) : list Z := dec_digits DEC_FUEL n [].
Definition i64_to_string (n : Z) : list Z :=
  if n <? 0 then ASCII_MINUS :: dec_digits DEC_FUEL (- n) [] else dec_digits DEC_FUEL n [].

(** The number a digit string denotes, after the prefix [acc]. *)
Fixpoint horner (acc : Z) (s : list Z) : Z :=
  match s with
  | [] => acc
  | c :: s => horner (acc * 10 + (c - 48)) s
  end.

Lemma digit_val_Some c d : digit_val c = Some d <-> is_digit c /\ d = c - 48.
Proof.
  unfold digit_val, is_digit.
  destruct (Z.leb_spec 48 c); simpl; [|split; [done|lia]].
  destruct (Z.leb_spec c 57); [|split; [done|lia]].
  split; [intros [= <-]; lia|]. intros [_ ->]; done.
Qed.

Lemma checked_i64_Some n m : checked_i64 n = Some m <-> is_i64 n /\ m = n.
Proof.
  unfold checked_i64, in_signed. change (64 - 1) with 63.
  destruct (Z.leb_spec (- 2 ^ 63) n); simpl; [|split; [done|lia]].
  destruct (Z.ltb_spec n (2 ^ 63)); [|split; [done|lia]].
  split; [intros [= <-]; lia|]. intros [_ ->]; done.
Qed.

Lemma horner_ge acc s : Forall is_digit s -> 0 <= acc -> acc <= horner acc s.
Proof.
  intros Hs; revert acc; induction Hs as [|c s Hc Hs IH]; simpl; intros acc Ha; [lia|].
  unfold is_digit in Hc. etrans; [|apply IH]; lia.
Qed.

Lemma horner_snoc acc s c : horner acc (s ++ [c]) = horner acc s * 10 + (c - 48).
Proof. revert acc; induction s; simpl; auto. Qed.

Lemma horner_nonneg s : Forall is_digit s -> 0 <= horner 0 s.
Proof. intros. by apply horner_ge. Qed.

(** The digit loop computes the signed value of the digits whenever the final
    value is representable: no intermediate product or sum overflows. *)
Lemma parse_digits_complete sgn a s :
  sgn = 1 \/ sgn = -1 -> Forall is_digit s -> 0 <= a ->
  is_i64 (sgn * horner a s) -> parse_digits sgn (sgn * a) s = Some (sgn * horner a s).
Proof.
  intros Hsgn Hs. revert a; induction Hs as [|c s Hc Hs IH]; simpl; intros a Ha Hr; [done|].
  assert (Hc' := Hc). unfold is_digit in Hc'.
  assert (Hge := horner_ge (a * 10 + (c - 48)) s Hs ltac:(lia)).
  rewrite (proj2 (digit_val_Some c (c - 48))) by done. simpl.
  rewrite (proj2 (checked_i64_Some (sgn * a * 10) (sgn * a * 10))) by
    (split; [unfold in_signed in *; change (64 - 1) with 63 in *; lia|done]).
  simpl.
  rewrite (proj2 (checked_i64_Some (sgn * a * 10 + sgn * (c - 48)) (sgn * (a * 10 + (c - 48))))) by
    (split; [unfold in_signed in *; change (64 - 1) with 63 in *; lia|lia]).
  simpl. apply IH; [lia|done].
Qed.

Lemma parse_digits_sound sgn a s v :
  sgn = 1 \/ sgn = -1 -> is_i64 (sgn * a) -> parse_digits sgn (sgn * a) s = Some v ->
  Forall is_digit s /\ v = sgn * horner a s /\ is_i64 v.
Proof.
  intros Hsgn. revert a; induction s as [|c s IH]; simpl; intros a Ha H.
  { injection H as <-. auto. }
  apply bind_Some in H as (d & Hd & H). apply digit_val_Some in Hd as [Hc ->].
  apply bind_Some in H as (m & Hm & H). apply checked_i64_Some in Hm as [_ ->].
  apply bind_Some in H as (b & Hb & H). apply checked_i64_Some in Hb as [Hb ->].
  replace (sgn * a * 10 + sgn * (c - 48)) with (sgn * (a * 10 + (c - 48))) in * by lia.
  destruct (IH _ Hb H) as (? & ? & ?). auto.
Qed.

(** ** Printing *)

Lemma horner_dec_digits f n acc :
  0 <= n < 10 ^ Z.of_nat f -> horner 0 (dec_digits f n acc) = horner n acc.
Proof.
  revert n acc; induction f as [|f IH]; intros n acc Hn; simpl.
  - simpl in Hn. by replace n with 0 by lia.
  - rewrite Nat2Z.inj_succ, Z.pow_succ_r in Hn by lia.
    assert (Hd := Z.div_mod n 10 ltac:(lia)).
    destruct (Z.eqb_spec (n / 10) 0) as [H0|H0]; simpl.
    + f_equal; lia.
    + rewrite IH by (split; [apply Z.div_pos; lia|apply Z.div_lt_upper_bound; lia]).
      simpl. f_equal; lia.
Qed.

Lemma dec_digits_are_digits f n acc :
  Forall is_digit acc -> Forall is_digit (dec_digits f n acc).
Proof.
  revert n acc; induction f as [|f IH]; intros n acc Ha; simpl; [done|].
  assert (Hc : is_digit (48 + n mod 10)).
  { unfold is_digit. pose proof (Z.mod_pos_bound n 10 ltac:(lia)). lia. }
  destruct (n / 10 =? 0); [by constructor|]. apply IH. by constructor.
Qed.

(** A digit string without a leading zero. *)
Definition no_leading_zero (s : list Z) : Prop :=
  match s with [] => False | c :: _ => c <> 48 end.

Lemma horner_pos s : Forall is_digit s -> no_leading_zero s -> 0 < horner 0 s.
Proof.
  destruct 1 as [|c s Hc Hs]; simpl; [done|]. intros Hnz.
  unfold is_digit in Hc. pose proof (horner_ge (0 * 10 + (c - 48)) s Hs ltac:(lia)). lia.
Qed.

(** Printing the value of a digit string gives the string back. *)
Lemma dec_digits_horner f s acc :
  Forall is_digit s -> no_leading_zero s -> (length s <= f)%nat ->
  dec_digits f (horner 0 s) acc = s ++ acc.
Proof.
  revert f acc. induction s as [|c s IH] using rev_ind; [done|].
  intros f acc Hs Hnz Hl. rewrite length_app in Hl; simpl in Hl.
  apply Forall_app in Hs as [Hs Hc]. inversion Hc as [|? ? Hc' _]; subst.
  unfold is_digit in Hc'.
  destruct f as [|f]; [lia|]. simpl. rewrite horner_snoc.
  pose proof (horner_nonneg s Hs).
  replace ((horner 0 s * 10 + (c - 48)) mod 10) with (c - 48)
    by (Z.div_mod_to_equations; lia).
  replace ((horner 0 s * 10 + (c - 48)) / 10) with (horner 0 s)
    by (Z.div_mod_to_equations; lia).
  replace (48 + (c - 48)) with c by lia.
  destruct s as [|d s]; [done|].
  pose proof (horner_pos (d :: s) Hs Hnz).
  destruct (Z.eqb_spec (horner 0 (d :: s)) 0); [lia|].
  rewrite IH; [by rewrite <- app_assoc|done|done|lia].
Qed.

Lemma horner_length s : Forall is_digit s -> no_leading_zero s ->
  10 ^ (Z.of_nat (length s) - 1) <= horner 0 s.
Proof.
  induction s as [|c s IH] using rev_ind; [done|]. intros Hs Hnz.
  apply Forall_app in Hs as [Hs Hc]. inversion Hc as [|? ? Hc' _]; subst.
  unfold is_digit in Hc'. rewrite horner_snoc, length_app. simpl.
  destruct s as [|d s]; [simpl in *; lia|].
  specialize (IH Hs Hnz). simpl length in *.
  replace (Z.of_nat (S (length s) + 1) - 1) with (Z.succ (Z.of_nat (S (length s)) - 1)) by lia.
  rewrite Z.pow_succ_r by lia. lia.
Qed.

Lemma usize_to_string_horner s :
  Forall is_digit s -> no_leading_zero s -> horner 0 s < 10 ^ 19 ->
  usize_to_string (horner 0 s) = s.
Proof.
  intros Hs Hnz Hb. unfold usize_to_string. rewrite dec_digits_horner; [apply app_nil_r|done|done|].
  pose proof (horner_length s Hs Hnz). unfold DEC_FUEL.
  assert (Z.of_nat (length s) - 1 < 19) by (apply (Z.pow_lt_mono_r_iff 10); lia). lia.
Qed.

Lemma dec_digits_head f n acc c s :
  0 < n -> dec_digits f n acc = c :: s -> (f <> 0%nat) -> n < 10 ^ Z.of_nat f -> c <> 48.
Proof.
  revert n acc; induction f as [|f IH]; intros n acc Hn H Hf Hb; [done|].
  simpl in H. rewrite Nat2Z.inj_succ, Z.pow_succ_r in Hb by lia.
  assert (Hd := Z.div_mod n 10 ltac:(lia)). pose proof (Z.mod_pos_bound n 10 ltac:(lia)).
  destruct (Z.eqb_spec (n / 10) 0); [injection H as <- _; lia|].
  assert (0 <= n / 10) by (apply Z.div_pos; lia).
  assert (n / 10 < 10 ^ Z.of_nat f) by (apply Z.div_lt_upper_bound; lia).
  apply (IH (n / 10) _ ltac:(lia) H); [|lia].
  intros ->. simpl in *. lia.
Qed.

Lemma dec_digits_length f n acc : (f <> 0)%nat -> (length acc < length (dec_digits f n acc))%nat.
Proof.
  revert n acc; induction f as [|f IH]; intros n acc Hf; [done|]. simpl.
  destruct (n / 10 =? 0); [simpl; lia|]. destruct f as [|f]; [simpl; lia|].
  specialize (IH (n / 10) ((48 + n mod 10) :: acc) ltac:(lia)). simpl in *. lia.
Qed.

(** ** Parsing what was printed, and back *)

Lemma i64_from_str_digits d : d <> [] -> Forall is_digit d -> horner 0 d < 2 ^ 63 ->
  i64_from_str_radix d = Some (horner 0 d).
Proof.
  intros Hne Hd Hb. destruct d as [|c d]; [done|].
  pose proof (horner_nonneg _ Hd).
  assert (Hc : is_digit c) by (by inversion Hd). unfold is_digit in Hc.
  unfold i64_from_str_radix, ASCII_PLUS, ASCII_MINUS.
  destruct (Z.eqb_spec c 43); [lia|]. destruct (Z.eqb_spec c 45); [lia|]. simpl orb. cbn [andb].
  pose proof (parse_digits_complete 1 0 (c :: d)) as Hp. rewrite !Z.mul_1_l in Hp.
  apply Hp; [auto|done|lia|]. unfold in_signed. change (64 - 1) with 63. lia.
Qed.

Lemma i64_from_str_minus d : d <> [] -> Forall is_digit d -> horner 0 d <= 2 ^ 63 ->
  i64_from_str_radix (ASCII_MINUS :: d) = Some (- horner 0 d).
Proof.
  intros Hne Hd Hb. pose proof (horner_nonneg _ Hd).
  unfold i64_from_str_radix. replace (length d =? 0)%nat with false by (by destruct d).
  rewrite andb_false_r. change (ASCII_MINUS =? ASCII_PLUS) with false.
  change (ASCII_MINUS =? ASCII_MINUS) with true. cbv iota.
  pose proof (parse_digits_complete (-1) 0 d) as Hp.
  replace (- horner 0 d) with (-1 * horner 0 d) by lia. change 0 with (-1 * 0) at 1.
  apply Hp; [auto|done|lia|]. unfold in_signed. change (64 - 1) with 63. lia.
Qed.

(** What [from_str_radix] accepts: digits, possibly after one sign. *)
Lemma i64_from_str_sound s n : i64_from_str_radix s = Some n ->
  is_i64 n /\ exists d, d <> [] /\ Forall is_digit d /\
  (s = d /\ n = horner 0 d \/ s = ASCII_PLUS :: d /\ n = horner 0 d \/
   s = ASCII_MINUS :: d /\ n = - horner 0 d).
Proof.
  destruct s as [|c s]; [done|]. unfold i64_from_str_radix.
  assert (H0 : is_i64 0) by (unfold in_signed; lia).
  destruct (Z.eqb_spec c ASCII_PLUS) as [->|Hp]; [|destruct (Z.eqb_spec c ASCII_MINUS) as [->|Hm]];
    simpl orb; cbn [andb].
  1,2: destruct (Nat.eqb_spec (length s) 0) as [|Hl]; [done|].
  - intros H. apply (parse_digits_sound 1 0) in H as (Hd & -> & Hr); [|auto|done].
    rewrite Z.mul_1_l in *. split; [done|]. exists s. split; [by destruct s|auto].
  - intros H. apply (parse_digits_sound (-1) 0) in H as (Hd & -> & Hr); [|auto|done].
    replace (-1 * horner 0 s) with (- horner 0 s) in * by lia.
    split; [done|]. exists s. split; [by destruct s|auto 10].
  - intros H. apply (parse_digits_sound 1 0) in H as (Hd & -> & Hr); [|auto|done].
    rewrite Z.mul_1_l in *. split; [done|]. exists (c :: s). auto.
Qed.

Lemma dec_digits_nonempty n : dec_digits DEC_FUEL n [] <> [].
Proof.
  intros H. pose proof (dec_digits_length DEC_FUEL n [] ltac:(done)) as Hl.
  rewrite H in Hl. simpl in Hl. lia.
Qed.

Lemma usize_to_string_digits n : Forall is_digit (usize_to_string n).
Proof. by apply dec_digits_are_digits. Qed.

Lemma horner_usize_to_string n : 0 <= n < 2 ^ 64 -> horner 0 (usize_to_string n) = n.
Proof.
  intros Hn. unfold usize_to_string. rewrite horner_dec_digits; [done|].
  unfold DEC_FUEL. simpl Z.of_nat. lia.
Qed.

Lemma usize_to_string_head n c s : 0 <= n < 2 ^ 64 -> usize_to_string n = c :: s ->
  c = 48 -> n = 0 /\ s = [].
Proof.
  intros Hn H Hc. destruct (Z.eq_dec n 0) as [->|Hz].
  - unfold usize_to_string in H. vm_compute in H. by simplify_eq.
  - apply dec_digits_head in H; [done|lia|done|]. unfold DEC_FUEL. simpl Z.of_nat. lia.
Qed.

Lemma i64_to_string_neg n : n < 0 -> i64_to_string n = ASCII_MINUS :: usize_to_string (- n).
Proof. intros. unfold i64_to_string. destruct (Z.ltb_spec n 0); [done|lia]. Qed.

Lemma i64_to_string_nonneg n : 0 <= n -> i64_to_string n = usize_to_string n.
Proof. intros. unfold i64_to_string. destruct (Z.ltb_spec n 0); [lia|done]. Qed.

(** [n.to_string().parse() == Ok(n)]. *)
Lemma i64_from_to_string n : is_i64 n -> i64_from_str_radix (i64_to_string n) = Some n.
Proof.
  unfold in_signed. change (64 - 1) with 63. intros Hn. destruct (Z.lt_ge_cases n 0).
  - rewrite i64_to_string_neg by done. pose proof (horner_usize_to_string (- n) ltac:(lia)) as Hh.
    rewrite i64_from_str_minus; [f_equal; lia|apply dec_digits_nonempty|apply usize_to_string_digits|lia].
  - rewrite i64_to_string_nonneg by done. pose proof (horner_usize_to_string n ltac:(lia)) as Hh.
    rewrite i64_from_str_digits; [f_equal; lia|apply dec_digits_nonempty|apply usize_to_string_digits|lia].
Qed.

(** ** UTF-8 *)

Definition in_range (lo hi b : Z) : bool := (lo <=? b) && (b <=? hi).
Definition utf8_cont (b : Z) : bool := in_range 128 191 b.

(** The second byte allowed after the first byte of a three-byte and of a
    four-byte sequence (no overlong forms, no surrogates, at most U+10FFFF). *)
Definition utf8_second3 (b0 b1 : Z) : bool :=
  if b0 =? 224 then in_range 160 191 b1
  else if b0 =? 237 then in_range 128 159 b1
  else utf8_cont b1.
Definition utf8_second4 (b0 b1 : Z) : bool :=
  if b0 =? 240 then in_range 144 191 b1
  else if b0 =? 244 then in_range 128 143 b1
  else utf8_cont b1.

(** [str::from_utf8(s).is_ok()]. *)
Fixpoint utf8_valid (s : list Z) : bool :=
  match s with
  | [] => true
  | b0 :: s1 =>
      if b0 <? 128 then utf8_valid s1
      else if in_range 194 223 b0 then
        match s1 with b1 :: s2 => utf8_cont b1 && utf8_valid s2 | _ => false end
      else if in_range 224 239 b0 then
        match s1 with
        | b1 :: b2 :: s3 => utf8_second3 b0 b1 && utf8_cont b2 && utf8_valid s3
        | _ => false
        end
      else if in_range 240 244 b0 then
        match s1 with
        | b1 :: b2 :: b3 :: s4 =>
            utf8_second4 b0 b1 && utf8_cont b2 && utf8_cont b3 && utf8_valid s4
        | _ => false
        end
      else false
  end.

Lemma utf8_valid_ascii s : Forall (fun b => b < 128) s -> utf8_valid s = true.
Proof.
  induction 1 as [|b s Hb Hs IH]; simpl; [done|]. by destruct (Z.ltb_spec b 128); [|lia].
Qed.

(** ** Chunks *)

(** [slice::chunks]. *)
Fixpoint chunks_fuel {A} (fuel size : nat) (l : list A) : list (list A) :=
  match fuel, l with
  | S fuel, _ :: _ => take size l :: chunks_fuel fuel size (drop size l)
  | _, _ => []
  end.
Definition chunks {A} (size : nat) (l : list A) : list (list A) := chunks_fuel (length l) size l.

Lemma chunks_fuel_bound {A} fuel size (l : list A) : Forall (fun c => length c <= size)%nat (chunks_fuel fuel size l).
Proof.
  revert l. induction fuel as [|fuel IH]; intros l; cbn [chunks_fuel]; [constructor|]. destruct l; [constructor|].
  constructor; [rewrite length_take; lia|apply IH].
Qed.

Lemma chunks_fuel_concat {A} size fuel (l : list A) : (0 < size)%nat -> (length l <= fuel)%nat ->
  concat (chunks_fuel fuel size l) = l.
Proof.
  intros Hs. revert l. induction fuel as [|fuel IH]; intros l Hf; destruct l as [|x l]; cbn [length] in Hf; try done; [lia|].
  cbn [chunks_fuel concat]. rewrite IH; [apply take_drop|]. rewrite length_drop. cbn [length]. lia.
Qed.

Lemma chunks_fuel_sizes {A} size fuel (l : list A) : (0 < size)%nat ->
  Forall (fun c => 1 <= length c <= size)%nat (chunks_fuel fuel size l).
Proof.
  intros Hs. revert l. induction fuel as [|fuel IH]; intros l; cbn [chunks_fuel]; [constructor|]. destruct l; [constructor|].
  constructor; [rewrite length_take; cbn [length]; lia|apply IH].
Qed.

(** ** Hash maps *)

(** The order in which a [HashMap] yields its entries. *)
Class HashOrder (K A : Type) `{Countable K} : Type := {
  hash_entries : gmap K A -> list (K * A);
  hash_entries_perm m : hash_entries m ≡ₚ map_to_list m
}.

(** ** Binary search *)

Definition cmp_rank (c : comparison) : nat := match c with Lt => 0 | Eq => 1 | Gt => 2 end.

(** The order [slice::binary_search_by] asks for: smaller elements first. *)
Definition partitioned {A} (f : A -> comparison) (l : list A) : Prop :=
  StronglySorted (fun x y => cmp_rank (f x) <= cmp_rank (f y))%nat l.

(** [binary_search_by]: on a sorted slice, [inl] is the index of some match and [inr]
    the place where a match could be inserted; which match is found is not specified. *)
Class BinarySearch : Type := {
  binary_search_by {A : Type} : (A -> comparison) -> list A -> nat + nat;
  binary_search_found {A} (f : A -> comparison) l i : partitioned f l ->
    binary_search_by f l = inl i -> exists x, l !! i = Some x /\ f x = Eq;
  binary_search_absent {A} (f : A -> comparison) l i : partitioned f l ->
    binary_search_by f l = inr i ->
    (i <= length l)%nat /\ Forall (fun x => f x = Lt) (take i l) /\ Forall (fun x => f x = Gt) (drop i l)
}.

(** A search that finds the first match. *)
Fixpoint linear_search {A} (f : A -> comparison) (l : list A) : nat + nat :=
  match l with
  | [] => inr 0%nat
  | x :: l =>
      match f x with
      | Lt => match linear_search f l with inl i => inl (S i) | inr i => inr (S i) end
      | Eq => inl 0%nat
      | Gt => inr 0%nat
      end
  end.

#[export] Instance first_match_search : BinarySearch.
Proof.
  refine {| binary_search_by := @linear_search |}; intros A f l.
  - induction l as [|x l IH]; intros i Hs; [done|]. inversion Hs as [|? ? Hs' _]. cbn. destruct (f x) eqn:E; [|destruct (linear_search f l)|done].
    + intros [= <-]. by exists x.
    + intros [= <-]. by apply IH.
    + done.
  - induction l as [|x l IH]; intros i Hs; cbn; [by intros [= <-]|]. inversion Hs as [|? ? Hs' Hx]. subst.
    destruct (f x) eqn:E; [done|destruct (linear_search f l); [done|]|]; intros [= <-].
    + destruct (IH _ Hs' eq_refl) as (Hl & H1 & H2). split; [lia|]. split; [by constructor|done].
    + split; [lia|]. split; [constructor|]. cbn. constructor; [done|]. revert Hx. rewrite !Forall_forall. intros Hx y Hy. specialize (Hx y Hy).
      destruct (f y); cbn in Hx; [lia|lia|done].
Defined.

(** ** Vectors *)

(** [Vec::swap_remove]: the last element takes the place of the removed one. *)
Definition swap_remove {A} (i : nat) (l : list A) : list A :=
  match last l with
  | Some x => take (length l - 1) (<[i := x]> l)
  | None => l
  end.

Lemma swap_remove_perm {A} (l : list A) i x : l !! i = Some x -> l ≡ₚ x :: swap_remove i l.
Proof.
  intros Hi. unfold swap_remove. destruct (last l) as [y|] eqn:El; [|apply last_None in El; by subst].
  apply last_Some in El as [k ->]. rewrite length_app. cbn [length]. replace (length k + 1 - 1)%nat with (length k) by lia.
  destruct (decide (i = length k)) as [->|Hne].
  - rewrite list_lookup_middle in Hi by done. injection Hi as ->. rewrite insert_app_r_alt, Nat.sub_diag by lia. cbn [insert list_insert].
    rewrite take_app_length. by rewrite Permutation_app_comm.
  - assert (i < length k)%nat by (apply lookup_lt_Some in Hi; rewrite length_app in Hi; cbn in Hi; lia). rewrite lookup_app_l in Hi by done.
    rewrite insert_app_l, take_app_le, take_ge by (rewrite ?length_insert; done).
    rewrite <- (list_insert_id k i x) at 1 by done. rewrite (insert_take_drop k i x), (insert_take_drop k i y) by done. solve_Permutation.
Qed.
