(* ===== verification/BTree.v ===== *)
(** * Byte-string keys: ordering, sorting, and [BTreeMap]

    The derived [Ord] of [[u8]] (lexicographic), the stable [sort_by] the
    encoder applies to dictionary entries, and [BTreeMap<&[u8], V>] represented
    by its entries in iteration order, that is, strictly increasing keys. *)

From Stdlib Require Import Sorted.
From S2P Require Import Prelude RustStd.

(** [Ord::cmp] on byte slices. *)
Fixpoint bytes_cmp (a b : list Z) : comparison :=
  match a, b with
  | [], [] => Eq
  | [], _ :: _ => Lt
  | _ :: _, [] => Gt
  | x :: a, y :: b => match Z.compare x y with Eq => bytes_cmp a b | c => c end
  end.

Definition bytes_ltb (a b : list Z) : bool :=
  match bytes_cmp a b with Lt => true | _ => false end.

Definition bytes_lt (a b : list Z) : Prop := bytes_cmp a b = Lt.

Lemma bytes_cmp_eq a b : bytes_cmp a b = Eq <-> a = b.
Proof.
  revert b; induction a as [|x a IH]; intros [|y b]; simpl; try done.
  destruct (Z.compare_spec x y); simplify_eq; [rewrite IH|..]; naive_solver lia.
Qed.

Lemma bytes_cmp_refl a : bytes_cmp a a = Eq.
Proof. by apply bytes_cmp_eq. Qed.

Lemma bytes_cmp_antisym a b : bytes_cmp b a = CompOpp (bytes_cmp a b).
Proof.
  revert b; induction a as [|x a IH]; intros [|y b]; simpl; try done.
  rewrite (Z.compare_antisym x y). destruct (x ?= y); simpl; auto.
Qed.

Lemma bytes_lt_trans a b c : bytes_lt a b -> bytes_lt b c -> bytes_lt a c.
Proof.
  unfold bytes_lt. revert b c; induction a as [|x a IH]; intros [|y b] [|z c]; simpl; try done.
  destruct (Z.compare_spec x y), (Z.compare_spec y z), (Z.compare_spec x z);
    try done; subst; try lia; eauto.
Qed.

Lemma bytes_lt_irrefl a : ~ bytes_lt a a.
Proof. unfold bytes_lt. by rewrite bytes_cmp_refl. Qed.

Lemma bytes_lt_asym a b : bytes_lt a b -> bytes_cmp b a = Gt.
Proof. unfold bytes_lt. intros H. by rewrite bytes_cmp_antisym, H. Qed.

Lemma bytes_cmp_Gt a b : bytes_cmp a b = Gt -> bytes_lt b a.
Proof. unfold bytes_lt. intros H. by rewrite bytes_cmp_antisym, H. Qed.

Lemma bytes_ltb_spec a b : reflect (bytes_lt a b) (bytes_ltb a b).
Proof. unfold bytes_ltb, bytes_lt. destruct (bytes_cmp a b); constructor; congruence. Qed.

#[export] Instance bytes_lt_Transitive : Transitive bytes_lt.
Proof. intros a b c. apply bytes_lt_trans. Qed.
#[export] Instance bytes_lt_Irreflexive : Irreflexive bytes_lt.
Proof. intros a. apply bytes_lt_irrefl. Qed.
#[export] Instance bytes_lt_dec a b : Decision (bytes_lt a b).
Proof. unfold bytes_lt. apply _. Defined.

Section BTreeMap.
Context {V : Type}.
Implicit Types (m : list (list Z * V)) (k : list Z) (v : V).

(** Entries in strictly increasing key order: the representation invariant. *)
Definition bt_sorted m : Prop := StronglySorted bytes_lt (map fst m).

(** [BTreeMap::get]. *)
Fixpoint bt_lookup k m : option V :=
  match m with
  | [] => None
  | (k', v) :: m =>
      match bytes_cmp k k' with Eq => Some v | _ => bt_lookup k m end
  end.

(** [BTreeMap::insert] (and [VacantEntry::insert]): replaces the value of an
    existing key. *)
Fixpoint bt_insert k v m : list (list Z * V) :=
  match m with
  | [] => [(k, v)]
  | (k', v') :: m =>
      match bytes_cmp k k' with
      | Lt => (k, v) :: (k', v') :: m
      | Eq => (k, v) :: m
      | Gt => (k', v') :: bt_insert k v m
      end
  end.

(** [BTreeMap::remove] (the map after it). *)
Fixpoint bt_remove k m : list (list Z * V) :=
  match m with
  | [] => []
  | (k', v') :: m =>
      match bytes_cmp k k' with
      | Eq => m
      | _ => (k', v') :: bt_remove k m
      end
  end.

(** [keys().last()]. *)
Definition bt_last_key m : option (list Z) := last (map fst m).

(** [entries.sort_by(|a, b| a.0.cmp(b.0))]: a stable sort by key. *)
Fixpoint sort_insert (e : list Z * V) m : list (list Z * V) :=
  match m with
  | [] => [e]
  | e' :: m =>
      match bytes_cmp (fst e) (fst e') with
      | Gt => e' :: sort_insert e m
      | _ => e :: e' :: m
      end
  end.
Fixpoint sort_by_key m : list (list Z * V) :=
  match m with
  | [] => []
  | e :: m => sort_insert e (sort_by_key m)
  end.

Lemma bt_lookup_insert_eq k v m : bt_lookup k (bt_insert k v m) = Some v.
Proof.
  induction m as [|[k' v'] m IH]; simpl; [by rewrite bytes_cmp_refl|].
  destruct (bytes_cmp k k') eqn:E; simpl; rewrite ?bytes_cmp_refl, ?E; done.
Qed.

Lemma bt_lookup_insert_ne k k' v m : k <> k' -> bt_lookup k' (bt_insert k v m) = bt_lookup k' m.
Proof.
  intros Hne. assert (Hc : bytes_cmp k' k <> Eq) by (rewrite bytes_cmp_eq; congruence).
  induction m as [|[j w] m IH]; simpl.
  - by destruct (bytes_cmp k' k).
  - destruct (bytes_cmp k j) eqn:E; simpl.
    + apply bytes_cmp_eq in E as ->. by destruct (bytes_cmp k' j).
    + by destruct (bytes_cmp k' k).
    + by rewrite IH.
Qed.

Lemma bt_sorted_cons k v m :
  bt_sorted ((k, v) :: m) <-> bt_sorted m /\ Forall (fun e => bytes_lt k (fst e)) m.
Proof.
  unfold bt_sorted; simpl. rewrite <- Forall_map. split.
  - intros H. by apply StronglySorted_inv in H.
  - intros []. by constructor.
Qed.

Lemma bt_insert_Forall (P : list Z * V -> Prop) k v m :
  P (k, v) -> Forall P m -> Forall P (bt_insert k v m).
Proof.
  intros Hp. induction 1 as [|[k' v'] m Hx Hm IH]; simpl; [by constructor|].
  destruct (bytes_cmp k k'); repeat constructor; auto.
Qed.

Lemma bt_insert_sorted k v m : bt_sorted m -> bt_sorted (bt_insert k v m).
Proof.
  induction m as [|[k' v'] m IH]; simpl; intros Hs.
  { apply bt_sorted_cons. split; [constructor|done]. }
  apply bt_sorted_cons in Hs as [Hs Hf]. destruct (bytes_cmp k k') eqn:E.
  - apply bytes_cmp_eq in E as ->. by apply bt_sorted_cons.
  - assert (bytes_lt k k') by done. apply bt_sorted_cons; split; [by apply bt_sorted_cons|].
    constructor; [done|]. eapply Forall_impl; [done|]. intros [] ?; simpl in *. by transitivity k'.
  - apply bt_sorted_cons; split; [auto|]. apply bt_insert_Forall; [|done]. by apply bytes_cmp_Gt.
Qed.

(** Inserting a key above all present ones appends the entry. *)
Lemma bt_insert_snoc k v m :
  Forall (fun e => bytes_lt (fst e) k) m -> bt_insert k v m = m ++ [(k, v)].
Proof.
  induction 1 as [|[k' v'] m Hx Hm IH]; simpl in *; [done|].
  rewrite (bytes_lt_asym _ _ Hx). by rewrite IH.
Qed.

Lemma bt_lookup_None_lt k m : Forall (fun e => bytes_lt (fst e) k) m -> bt_lookup k m = None.
Proof.
  induction 1 as [|[k' v'] m Hx Hm IH]; simpl in *; [done|]. by rewrite (bytes_lt_asym _ _ Hx).
Qed.

Lemma bt_lookup_elem k v m : bt_lookup k m = Some v -> (k, v) ∈ m.
Proof.
  induction m as [|[k' v'] m IH]; simpl; [done|].
  destruct (bytes_cmp k k') eqn:E; [apply bytes_cmp_eq in E as -> |..];
    rewrite elem_of_cons; intros; simplify_eq; auto.
Qed.

Lemma bt_elem_lookup k v m : bt_sorted m -> (k, v) ∈ m -> bt_lookup k m = Some v.
Proof.
  induction m as [|[k' v'] m IH]; simpl; intros Hs Hin; [by apply not_elem_of_nil in Hin|].
  apply bt_sorted_cons in Hs as [Hs Hf].
  apply elem_of_cons in Hin as [[= -> ->]|Hin]; [by rewrite bytes_cmp_refl|].
  rewrite Forall_forall in Hf. specialize (Hf _ Hin); simpl in Hf.
  rewrite (bytes_lt_asym _ _ Hf). auto.
Qed.

Lemma bt_last_key_app m k v : bt_last_key (m ++ [(k, v)]) = Some k.
Proof. unfold bt_last_key. rewrite map_app. simpl. apply last_snoc. Qed.

(** In a sorted map the last key bounds every key. *)
Lemma bt_sorted_last m k : bt_sorted m -> bt_last_key m = Some k ->
  Forall (fun e => fst e = k \/ bytes_lt (fst e) k) m.
Proof.
  unfold bt_last_key. induction m as [|[k' v'] m IH]; intros Hs Hl; [done|].
  apply bt_sorted_cons in Hs as [Hs Hf]. destruct m as [|[k2 v2] m].
  - simpl in Hl. simplify_eq. constructor; [by left|done].
  - specialize (IH Hs Hl). constructor; [|done]. simpl. right.
    inversion IH as [|? ? H _]; inversion Hf as [|? ? H' _]; subst; simpl in *.
    destruct H as [->|]; [done|]. by transitivity k2.
Qed.

Lemma sort_insert_head e m : Forall (fun e' => bytes_lt (fst e) (fst e')) m ->
  sort_insert e m = e :: m.
Proof. destruct 1 as [|e' m H]; simpl; [done|]. unfold bytes_lt in H. by rewrite H. Qed.

(** Sorting the entries of a [BTreeMap] does nothing: iteration order is
    already key order. *)
Lemma sort_by_key_sorted m : bt_sorted m -> sort_by_key m = m.
Proof.
  induction m as [|[k v] m IH]; simpl; [done|]. intros [Hs Hf]%bt_sorted_cons.
  rewrite IH by done. by apply sort_insert_head.
Qed.

End BTreeMap.

#[export] Hint Resolve bt_insert_sorted : rust.
