(* ===== verification/Bencode.v ===== *)
(** * The bencode module: values, decoder and encoder

    Model of [bencode/reference/{bencode_ref,decode,decode_opt}.rs],
    [bencode/mutable/{bencode_mut,encode}.rs], [bencode/error.rs] and the
    constants of [bencode/mod.rs]. Positions and lengths ([usize]) are [nat]:
    they index slices, whose length never exceeds [isize::MAX], so [pos + 1]
    cannot overflow. The decoder recurses through [decode], the loop of
    [decode_list] and the loop of [decode_dict]; the model bounds the nesting
    of these calls and loop iterations by [fuel]. *)

From S2P Require Import Prelude RustStd BTree.

Definition BEN_END : Z := 101.
Definition DICT_START : Z := 100.
Definition LIST_START : Z := 108.
Definition INT_START : Z := 105.
Definition BYTE_LEN_LOW : Z := 48.
Definition BYTE_LEN_HIGH : Z := 57.
Definition BYTE_LEN_END : Z := 58.

(** ** Values *)

(** [InnerBencodeRef] with its [BencodeRef] wrapper: every constructor carries
    the slice of the input it was decoded from. *)
Inductive BencodeRef : Type :=
| RInt (n : Z) (buffer : list Z)
| RBytes (b : list Z) (buffer : list Z)
| RList (l : list BencodeRef) (buffer : list Z)
| RDict (d : list (list Z * BencodeRef)) (buffer : list Z).

(** [InnerBencodeMut] with its [BencodeMut] wrapper. *)
Inductive BencodeMut : Type :=
| MInt (n : Z)
| MBytes (b : list Z)
| MList (l : list BencodeMut)
| MDict (d : list (list Z * BencodeMut)).

(** [BencodeRef::buffer]. *)
Definition ref_buffer (r : BencodeRef) : list Z :=
  match r with
  | RInt _ buffer => buffer
  | RBytes _ buffer => buffer
  | RList _ buffer => buffer
  | RDict _ buffer => buffer
  end.

(** [BencodeParseErrorKind]. *)
Inductive BencodeParseErrorKind : Type :=
| BytesEmpty (pos : nat)
| InvalidByte (pos : nat)
| InvalidIntNoDelimiter (pos : nat)
| InvalidIntNegativeZero (pos : nat)
| InvalidIntZeroPadding (pos : nat)
| InvalidIntParseError (pos : nat)
| InvalidKeyOrdering (pos : nat) (key : list Z)
| InvalidKeyDuplicates (pos : nat) (key : list Z)
| InvalidLengthNegative (pos : nat)
| InvalidLengthOverflow (pos : nat)
| InvalidRecursionExceeded (pos : nat) (max : nat).

Record BDecodeOpt : Type := BDecodeOpt_new {
  max_recursion : nat;
  check_key_sort : bool;
  enforce_full_decode : bool
}.

Definition DEFAULT_MAX_RECURSION : nat := 50.
Definition DEFAULT_CHECK_KEY_SORT : bool := false.
Definition DEFAULT_ENFORCE_FULL_DECODE : bool := true.

Definition BDecodeOpt_default : BDecodeOpt :=
  BDecodeOpt_new DEFAULT_MAX_RECURSION DEFAULT_CHECK_KEY_SORT DEFAULT_ENFORCE_FULL_DECODE.

Abbreviation parse_res := (res BencodeParseErrorKind).

(** ** Decoder *)

Definition peek_byte (bytes : list Z) (pos : nat) : parse_res Z :=
  ok_or (bytes !! pos) (BytesEmpty pos).

(** The two checks on the raw integer text; both only apply to more than one byte. *)
Definition decode_int_check (int_byte_slice : list Z) (pos : nat) : parse_res unit :=
  match int_byte_slice with
  | c0 :: c1 :: _ =>
      if (c0 =? ASCII_MINUS) && (c1 =? ASCII_0) then Err (InvalidIntNegativeZero pos)
      else if c0 =? ASCII_0 then Err (InvalidIntZeroPadding pos)
      else Ok tt
  | _ => Ok tt
  end.

Definition decode_int (bytes : list Z) (pos : nat) (delim : Z) : parse_res (Z * nat) :=
  if (length bytes <? pos)%nat then Panic else
  let begin_decode := drop pos bytes in
  match position (fun n => n =? delim) begin_decode with
  | None => Err (InvalidIntNoDelimiter pos)
  | Some relative_end_pos =>
      let int_byte_slice := take relative_end_pos begin_decode in
      let? _ := decode_int_check int_byte_slice pos in
      if utf8_valid int_byte_slice then
        let absolute_end_pos := (pos + relative_end_pos)%nat in
        let next_pos := (absolute_end_pos + 1)%nat in
        match i64_from_str_radix int_byte_slice with
        | Some n => Ok (n, next_pos)
        | None => Err (InvalidIntParseError pos)
        end
      else Err (InvalidIntParseError pos)
  end.

Definition decode_bytes (bytes : list Z) (pos : nat) : parse_res (list Z * nat) :=
  let? (num_bytes, start_pos) := decode_int bytes pos BYTE_LEN_END in
  if num_bytes <? 0 then Err (InvalidLengthNegative pos) else
  if (length bytes <? start_pos)%nat then Panic else
  if Z.of_nat (length (drop start_pos bytes)) <? num_bytes then Err (InvalidLengthOverflow pos)
  else
    let next_pos := (start_pos + Z.to_nat num_bytes)%nat in
    Ok (slice bytes start_pos next_pos, next_pos).

(** The key-order test of [decode_dict]: [(Some(last_key), true) if key < last_key]. *)
Definition key_out_of_order (opts : BDecodeOpt) (dict : list (list Z * BencodeRef))
    (key_bytes : list Z) : bool :=
  match bt_last_key dict, check_key_sort opts with
  | Some last_key, true => bytes_ltb key_bytes last_key
  | _, _ => false
  end.

Fixpoint decode (fuel : nat) (bytes : list Z) (pos : nat) (opts : BDecodeOpt) (depth : nat)
    {struct fuel} : parse_res (BencodeRef * nat) :=
  match fuel with
  | O => OutOfFuel
  | S fuel =>
      if (max_recursion opts <=? depth)%nat then Err (InvalidRecursionExceeded pos depth) else
      let? curr_byte := peek_byte bytes pos in
      if curr_byte =? INT_START then
        let? (bencode, next_pos) := decode_int bytes (pos + 1) BEN_END in
        Ok (RInt bencode (slice bytes pos next_pos), next_pos)
      else if curr_byte =? LIST_START then
        let? (bencode, next_pos) := decode_list fuel bytes (pos + 1) opts depth [] in
        Ok (RList bencode (slice bytes pos next_pos), next_pos)
      else if curr_byte =? DICT_START then
        let? (bencode, next_pos) := decode_dict fuel bytes (pos + 1) opts depth [] in
        Ok (RDict bencode (slice bytes pos next_pos), next_pos)
      else if (BYTE_LEN_LOW <=? curr_byte) && (curr_byte <=? BYTE_LEN_HIGH) then
        let? (bencode, next_pos) := decode_bytes bytes pos in
        Ok (RBytes bencode (slice bytes pos next_pos), next_pos)
      else Err (InvalidByte pos)
  end

(** The [while] loop of [decode_list], from [curr_pos] with the elements decoded so far. *)
with decode_list (fuel : nat) (bytes : list Z) (curr_pos : nat) (opts : BDecodeOpt) (depth : nat)
    (bencode_list : list BencodeRef) {struct fuel} : parse_res (list BencodeRef * nat) :=
  match fuel with
  | O => OutOfFuel
  | S fuel =>
      let? curr_byte := peek_byte bytes curr_pos in
      if curr_byte =? BEN_END then Ok (bencode_list, (curr_pos + 1)%nat) else
      let? (bencode, next_pos) := decode fuel bytes curr_pos opts (depth + 1) in
      decode_list fuel bytes next_pos opts depth (bencode_list ++ [bencode])
  end

(** The [while] loop of [decode_dict]; the value is decoded with [.unwrap()]. *)
with decode_dict (fuel : nat) (bytes : list Z) (curr_pos : nat) (opts : BDecodeOpt) (depth : nat)
    (bencode_dict : list (list Z * BencodeRef)) {struct fuel}
    : parse_res (list (list Z * BencodeRef) * nat) :=
  match fuel with
  | O => OutOfFuel
  | S fuel =>
      let? curr_byte := peek_byte bytes curr_pos in
      if curr_byte =? BEN_END then Ok (bencode_dict, (curr_pos + 1)%nat) else
      let? (key_bytes, key_end) := decode_bytes bytes curr_pos in
      if key_out_of_order opts bencode_dict key_bytes
      then Err (InvalidKeyOrdering curr_pos key_bytes) else
      let? (value, next_pos) := res_unwrap (decode fuel bytes key_end opts (depth + 1)) in
      match bt_lookup key_bytes bencode_dict with
      | None => decode_dict fuel bytes next_pos opts depth (bt_insert key_bytes value bencode_dict)
      | Some _ => Err (InvalidKeyDuplicates key_end key_bytes)
      end
  end.

(** Every call of [decode] consumes a byte before the next one, so twice the
    input length bounds the nesting of calls and iterations. *)
Definition decode_fuel (bytes : list Z) : nat := 2 * length bytes + 2.

(** [BencodeRef::decode]. *)
Definition BencodeRef_decode (bytes : list Z) (opts : BDecodeOpt) : parse_res BencodeRef :=
  let? (bencode, end_pos) := decode (decode_fuel bytes) bytes 0 opts 0 in
  if negb (end_pos =? length bytes)%nat && enforce_full_decode opts
  then Err (BytesEmpty end_pos) else Ok bencode.

(** ** Encoder *)

(** The encoder appends to a buffer; each function maps the buffer before to
    the buffer after. *)
Definition encode_int (val : Z) (buf : list Z) : list Z :=
  ((buf ++ [INT_START]) ++ i64_to_string val) ++ [BEN_END].

Definition encode_bytes (b : list Z) (buf : list Z) : list Z :=
  ((buf ++ usize_to_string (Z.of_nat (length b))) ++ [BYTE_LEN_END]) ++ b.

(** [elems] and [dict] hold the encoders of the elements, applied in order. *)
Definition encode_list (elems : list (list Z -> list Z)) (buf : list Z) : list Z :=
  fold_left (fun buf enc => enc buf) elems (buf ++ [LIST_START]) ++ [BEN_END].

Definition encode_dict (dict : list (list Z * (list Z -> list Z))) (buf : list Z) : list Z :=
  let sort_dict := sort_by_key dict in
  fold_left (fun buf kv => (snd kv) (encode_bytes (fst kv) buf)) sort_dict (buf ++ [DICT_START])
  ++ [BEN_END].

Fixpoint encode (val : BencodeMut) : list Z -> list Z :=
  match val with
  | MInt n => encode_int n
  | MBytes n => encode_bytes n
  | MList n => encode_list (map encode n)
  | MDict n => encode_dict (map (fun kv => (fst kv, encode (snd kv))) n)
  end.

(** [BencodeMut::encode]. *)
Definition BencodeMut_encode (b : BencodeMut) : list Z := encode b [].

(** [new_int], [new_bytes], [new_list], [new_dict]. *)
Definition new_int (value : Z) : BencodeMut := MInt value.
Definition new_bytes (value : list Z) : BencodeMut := MBytes value.
Definition new_list : BencodeMut := MList [].
Definition new_dict : BencodeMut := MDict [].

(** ** Examples from the unit tests *)

Example decode_int_example :
  decode_int (bs "i-500e") 1 BEN_END = Ok (-500, 6%nat).
Proof. reflexivity. Qed.

Example decode_general_example :
  BencodeRef_decode (bs "d0:12:zero_len_key8:location17:udp://test.com:806:numberi500500ee")
    BDecodeOpt_default =
  Ok (RDict [([], RBytes (bs "zero_len_key") (bs "12:zero_len_key"));
             (bs "location", RBytes (bs "udp://test.com:80") (bs "17:udp://test.com:80"));
             (bs "number", RInt 500500 (bs "i500500e"))]
       (bs "d0:12:zero_len_key8:location17:udp://test.com:806:numberi500500ee")).
Proof. vm_compute. reflexivity. Qed.

Example encode_dict_example :
  BencodeMut_encode (MDict [(bs "lucky_number", MInt 7); (bs "lucky_string", MBytes (bs "7"))]) =
  bs "d12:lucky_numberi7e12:lucky_string1:7e".
Proof. vm_compute. reflexivity. Qed.
