(* ===== verification/BencodeFacts.v ===== *)
(** * Facts about single steps of the decoder

    What [decode_int] and [decode_bytes] accept and where they stop, shared by
    the termination, safety, locality and round-trip proofs.

    Then the decoder's termination, progress and panic freedom. *)

From S2P Require Import Prelude RustStd BTree Bencode.

(** Unfold a decoder hypothesis along its guards. *)
Ltac decode_cases H :=
  repeat match type of H with
  | context [if ?b then _ else _] => let E := fresh "E" in destruct b eqn:E
  end.

(** ** [decode_int] *)

Lemma decode_int_check_pos s p p' : decode_int_check s p = Ok tt -> decode_int_check s p' = Ok tt.
Proof. destruct s as [|c0 [|c1 s]]; simpl; auto. repeat case_match; done. Qed.

Lemma decode_int_check_fail s p : decode_int_check s p <> Panic /\ decode_int_check s p <> OutOfFuel.
Proof. destruct s as [|c0 [|c1 s]]; simpl; auto. repeat case_match; done. Qed.

Lemma digits_ascii d : Forall is_digit d -> Forall (fun b => b < 128) d.
Proof. intros H. eapply Forall_impl; [done|]. unfold is_digit. intros; lia. Qed.

Lemma from_str_utf8 s n : i64_from_str_radix s = Some n -> utf8_valid s = true.
Proof.
  intros (_ & d & _ & Hd & Hs)%i64_from_str_sound. apply utf8_valid_ascii.
  apply digits_ascii in Hd.
  destruct Hs as [[-> _]|[[-> _]|[-> _]]]; [done|..]; by constructor.
Qed.

(** [decode_int] succeeds exactly on an integer text followed by the
    delimiter, and stops after the delimiter. *)
Lemma decode_int_Ok bytes pos delim n next :
  decode_int bytes pos delim = Ok (n, next) <->
  exists s post, drop pos bytes = s ++ delim :: post /\ Forall (fun c => c <> delim) s /\
    decode_int_check s pos = Ok tt /\ i64_from_str_radix s = Some n /\
    next = (pos + length s + 1)%nat.
Proof.
  unfold decode_int. split.
  - destruct (Nat.ltb_spec (length bytes) pos) as [|Hp]; [done|].
    destruct (position _ _) as [i|] eqn:Hpos; [|done]. intros H. res_inv.
    destruct (utf8_valid _); [|done]. destruct (i64_from_str_radix _) eqn:Hr; [|done].
    injection H as -> <-. apply position_Some in Hpos as (x & Heq & Hx & Hf & Hl).
    apply Z.eqb_eq in Hx as ->. exists (take i (drop pos bytes)), (drop (S i) (drop pos bytes)).
    repeat split; auto.
    + eapply Forall_impl; [apply Hf|]. simpl. intros c Hc. by apply Z.eqb_neq.
    + rewrite length_take. lia.
  - intros (s & post & Hd & Hs & Hchk & Hn & ->).
    assert (pos < length bytes)%nat by (eapply drop_length_le; [done|by destruct s]).
    destruct (Nat.ltb_spec (length bytes) pos) as [|_]; [lia|].
    rewrite Hd, (position_app_hit _ s delim post); [|eapply Forall_impl; [done|]; intros; by apply Z.eqb_neq|apply Z.eqb_refl].
    rewrite take_app_length, Hchk. simpl. by rewrite (from_str_utf8 _ _ Hn), Hn.
Qed.

Lemma decode_int_pos bytes pos delim n next :
  decode_int bytes pos delim = Ok (n, next) -> (pos < next <= length bytes)%nat /\ is_i64 n.
Proof.
  intros (s & post & Hd & _ & _ & Hn & ->)%decode_int_Ok.
  apply i64_from_str_sound in Hn as [Hn _]. split; [|done].
  apply (f_equal length) in Hd. rewrite length_drop, length_app in Hd. simpl in Hd. lia.
Qed.

Lemma decode_int_safe bytes pos delim : (pos <= length bytes)%nat ->
  decode_int bytes pos delim <> Panic /\ decode_int bytes pos delim <> OutOfFuel.
Proof.
  intros Hp. unfold decode_int. destruct (Nat.ltb_spec (length bytes) pos); [lia|].
  destruct (position _ _) as [i|]; [|done].
  pose proof (decode_int_check_fail (take i (drop pos bytes)) pos) as [].
  destruct (decode_int_check _ _); try done. simpl. repeat case_match; done.
Qed.

Lemma decode_int_not_fuel bytes pos delim : decode_int bytes pos delim <> OutOfFuel.
Proof.
  destruct (decide (pos <= length bytes)%nat); [by apply decode_int_safe|].
  unfold decode_int. destruct (Nat.ltb_spec (length bytes) pos); [done|lia].
Qed.

(** ** [decode_bytes] *)

(** [decode_bytes] succeeds exactly on a length text, [:] and that many bytes. *)
Lemma decode_bytes_Ok bytes pos b next :
  decode_bytes bytes pos = Ok (b, next) <->
  exists s post, drop pos bytes = s ++ BYTE_LEN_END :: b ++ post /\
    Forall (fun c => c <> BYTE_LEN_END) s /\ decode_int_check s pos = Ok tt /\
    i64_from_str_radix s = Some (Z.of_nat (length b)) /\
    next = (pos + length s + 1 + length b)%nat.
Proof.
  unfold decode_bytes. split.
  - intros H. res_inv. rename z into num, n into start.
    apply decode_int_Ok in Hm as (s & post & Hd & Hs & Hchk & Hn & ->).
    destruct (Z.ltb_spec num 0); [done|]. case_match; [done|].
    destruct (Z.ltb_spec (Z.of_nat (length (drop (pos + length s + 1) bytes))) num) as [|Hlen]; [done|].
    injection H as <- <-.
    assert (Hd2 : drop (pos + length s + 1) bytes = post).
    { rewrite <- Nat.add_assoc, <- drop_drop, Hd.
      rewrite (app_assoc s [BYTE_LEN_END] post : s ++ BYTE_LEN_END :: post = _).
      rewrite drop_app_length'; [done|]. by rewrite length_app. }
    rewrite Hd2 in Hlen. unfold slice. rewrite Hd2.
    set (k := Z.to_nat num).
    replace (pos + length s + 1 + k - (pos + length s + 1))%nat with k by lia.
    exists s, (drop k post). rewrite take_drop, length_take.
    assert (Hk : (k `min` length post)%nat = k) by lia. rewrite Hk.
    repeat split; auto. rewrite Hn. f_equal. lia.
  - intros (s & post & Hd & Hs & Hchk & Hn & ->).
    assert (Hi : decode_int bytes pos BYTE_LEN_END = Ok (Z.of_nat (length b), (pos + length s + 1)%nat)).
    { apply decode_int_Ok. exists s, (b ++ post). auto. }
    rewrite Hi. simpl. destruct (Z.ltb_spec (Z.of_nat (length b)) 0); [lia|].
    pose proof (decode_int_pos _ _ _ _ _ Hi) as [Hle _].
    destruct (Nat.ltb_spec (length bytes) (pos + length s + 1)); [lia|].
    assert (Hd2 : drop (pos + length s + 1) bytes = b ++ post).
    { rewrite <- Nat.add_assoc, <- drop_drop, Hd.
      rewrite (app_assoc s [BYTE_LEN_END] (b ++ post) : s ++ BYTE_LEN_END :: b ++ post = _).
      rewrite drop_app_length'; [done|]. by rewrite length_app. }
    rewrite Hd2, length_app. destruct (Z.ltb_spec (Z.of_nat (length b + length post)) (Z.of_nat (length b))); [lia|].
    rewrite Nat2Z.id, (slice_drop_app _ _ b post) by done. done.
Qed.

Lemma decode_bytes_pos bytes pos b next :
  decode_bytes bytes pos = Ok (b, next) -> (pos < next <= length bytes)%nat.
Proof.
  intros (s & post & Hd & _ & _ & _ & ->)%decode_bytes_Ok.
  apply (f_equal length) in Hd. rewrite length_drop, length_app in Hd. simpl in Hd.
  rewrite length_app in Hd. lia.
Qed.

Lemma decode_bytes_safe bytes pos : (pos <= length bytes)%nat ->
  decode_bytes bytes pos <> Panic /\ decode_bytes bytes pos <> OutOfFuel.
Proof.
  intros Hp. unfold decode_bytes. pose proof (decode_int_safe bytes pos BYTE_LEN_END Hp) as [].
  destruct (decode_int bytes pos BYTE_LEN_END) as [[n next]| | |] eqn:Hi; try done. simpl.
  apply decode_int_pos in Hi as [Hle _].
  destruct (n <? 0); [done|]. destruct (Nat.ltb_spec (length bytes) next); [lia|].
  case_match; done.
Qed.

Lemma decode_bytes_not_fuel bytes pos : decode_bytes bytes pos <> OutOfFuel.
Proof.
  unfold decode_bytes. pose proof (decode_int_not_fuel bytes pos BYTE_LEN_END).
  destruct (decode_int bytes pos BYTE_LEN_END) as [[n next]| | |]; try done. simpl.
  repeat case_match; done.
Qed.

(** ** [peek_byte] *)

Lemma peek_byte_Ok bytes pos c : peek_byte bytes pos = Ok c <-> bytes !! pos = Some c.
Proof. unfold peek_byte, ok_or. destruct (bytes !! pos); split; congruence. Qed.

Lemma peek_byte_drop bytes pos c l : drop pos bytes = c :: l -> peek_byte bytes pos = Ok c.
Proof. intros [H _]%drop_cons_lookup. by apply peek_byte_Ok. Qed.

Lemma peek_byte_safe bytes pos : peek_byte bytes pos <> Panic /\ peek_byte bytes pos <> OutOfFuel.
Proof. unfold peek_byte, ok_or. by destruct (bytes !! pos). Qed.

(** * Termination, progress and panic freedom of the bencode decoder *)

(** A decoder that is positioned at [pos] stops strictly after it, inside the input. *)
Definition advances (bytes : list Z) (pos : nat) {A} (m : parse_res (A * nat)) : Prop :=
  forall a next, m = Ok (a, next) -> (pos < next <= length bytes)%nat.

(** Case analysis on the byte [decode] dispatches on. *)
Lemma decode_step fuel bytes pos opts depth :
  decode (S fuel) bytes pos opts depth =
  (if (max_recursion opts <=? depth)%nat then Err (InvalidRecursionExceeded pos depth) else
   let? c := peek_byte bytes pos in
   if c =? INT_START then
     let? (n, next) := decode_int bytes (pos + 1) BEN_END in
     Ok (RInt n (slice bytes pos next), next)
   else if c =? LIST_START then
     let? (l, next) := decode_list fuel bytes (pos + 1) opts depth [] in
     Ok (RList l (slice bytes pos next), next)
   else if c =? DICT_START then
     let? (d, next) := decode_dict fuel bytes (pos + 1) opts depth [] in
     Ok (RDict d (slice bytes pos next), next)
   else if (BYTE_LEN_LOW <=? c) && (c <=? BYTE_LEN_HIGH) then
     let? (b, next) := decode_bytes bytes pos in
     Ok (RBytes b (slice bytes pos next), next)
   else Err (InvalidByte pos)).
Proof. reflexivity. Qed.

Lemma decode_advances_all fuel bytes opts :
  (forall pos depth, advances bytes pos (decode fuel bytes pos opts depth)) /\
  (forall pos depth acc, advances bytes pos (decode_list fuel bytes pos opts depth acc)) /\
  (forall pos depth acc, advances bytes pos (decode_dict fuel bytes pos opts depth acc)).
Proof.
  unfold advances. induction fuel as [|fuel (IHv & IHl & IHd)]; [done|].
  split; [|split]; simpl; intros pos depth.
  - intros r next H. case_match; [done|]. res_inv. decode_cases H; res_inv.
    + apply decode_int_pos in Hm0 as [? _]. lia.
    + apply IHl in Hm0. lia.
    + apply IHd in Hm0. lia.
    + apply decode_bytes_pos in Hm0. lia.
  - intros acc l next H. res_inv. apply peek_byte_Ok, lookup_lt_Some in Hm.
    decode_cases H; res_inv; [lia|]. apply IHv in Hm0. apply IHl in H. lia.
  - intros acc d next H. res_inv. apply peek_byte_Ok, lookup_lt_Some in Hm.
    decode_cases H; res_inv; [lia|]. apply decode_bytes_pos in Hm0.
    decode_cases H; res_inv. apply IHv in Hm1. apply IHd in H. lia.
Qed.

Lemma decode_advances fuel bytes pos opts depth r next :
  decode fuel bytes pos opts depth = Ok (r, next) -> (pos < next <= length bytes)%nat.
Proof. apply decode_advances_all. Qed.

(** ** Termination *)

(** The fuel that suffices at [pos]: each nested call or loop iteration is
    charged to a byte still to be read. *)
Lemma decode_total_all fuel bytes opts :
  (forall pos depth, (pos <= length bytes)%nat -> (2 * (length bytes - pos) + 1 <= fuel)%nat ->
     decode fuel bytes pos opts depth <> OutOfFuel) /\
  (forall pos depth acc, (pos <= length bytes)%nat -> (2 * (length bytes - pos) + 2 <= fuel)%nat ->
     decode_list fuel bytes pos opts depth acc <> OutOfFuel) /\
  (forall pos depth acc, (pos <= length bytes)%nat -> (2 * (length bytes - pos) + 2 <= fuel)%nat ->
     decode_dict fuel bytes pos opts depth acc <> OutOfFuel).
Proof.
  induction fuel as [|fuel (IHv & IHl & IHd)]; [split; [|split]; intros; lia|].
  split; [|split]; simpl; intros pos depth.
  - intros Hp Hf H. case_match; [done|].
    apply res_bind_OutOfFuel in H as [H|(c & Hc & H)]; [by apply peek_byte_safe in H|].
    apply peek_byte_Ok, lookup_lt_Some in Hc.
    repeat (case_match; [apply res_bind_OutOfFuel in H as [H|([] & _ & H)]; [|done]|]); [..|done].
    + by apply decode_int_not_fuel in H.
    + apply IHl in H; [done|lia|lia].
    + apply IHd in H; [done|lia|lia].
    + by apply decode_bytes_not_fuel in H.
  - intros acc Hp Hf H. apply res_bind_OutOfFuel in H as [H|(c & Hc & H)]; [by apply peek_byte_safe in H|].
    apply peek_byte_Ok, lookup_lt_Some in Hc. case_match; [done|].
    apply res_bind_OutOfFuel in H as [H|([r next] & Hr & H)]; [apply IHv in H; [done|lia|lia]|].
    apply decode_advances in Hr. apply IHl in H; [done|lia|lia].
  - intros acc Hp Hf H. apply res_bind_OutOfFuel in H as [H|(c & Hc & H)]; [by apply peek_byte_safe in H|].
    apply peek_byte_Ok, lookup_lt_Some in Hc. case_match; [done|].
    apply res_bind_OutOfFuel in H as [H|([k kend] & Hk & H)]; [by apply decode_bytes_not_fuel in H|].
    apply decode_bytes_pos in Hk. case_match; [done|].
    apply res_bind_OutOfFuel in H as [H|([r next] & Hr & H)].
    + apply res_unwrap_OutOfFuel in H. apply IHv in H; [done|lia|lia].
    + apply res_unwrap_Ok, decode_advances in Hr. case_match; [done|]. apply IHd in H; [done|lia|lia].
Qed.

(** ** Panic freedom *)

(** No [d] byte at or after [pos]: the input holds no dictionary there. *)
Definition no_dict_from (bytes : list Z) (pos : nat) : Prop :=
  forall i, (pos <= i)%nat -> bytes !! i <> Some DICT_START.

Lemma no_dict_from_mono bytes pos pos' :
  (pos <= pos')%nat -> no_dict_from bytes pos -> no_dict_from bytes pos'.
Proof. intros H Hd i Hi. apply Hd. lia. Qed.

Lemma decode_no_panic_all fuel bytes opts :
  (forall pos depth, (pos <= length bytes)%nat -> no_dict_from bytes pos ->
     decode fuel bytes pos opts depth <> Panic) /\
  (forall pos depth acc, (pos <= length bytes)%nat -> no_dict_from bytes pos ->
     decode_list fuel bytes pos opts depth acc <> Panic).
Proof.
  induction fuel as [|fuel (IHv & IHl)]; [done|]. split; simpl; intros pos depth.
  - intros Hp Hnd H. case_match; [done|].
    apply res_bind_Panic in H as [H|(c & Hc & H)]; [by apply peek_byte_safe in H|].
    apply peek_byte_Ok in Hc. assert (Hlt := lookup_lt_Some _ _ _ Hc).
    repeat (case_match; [apply res_bind_Panic in H as [H|([] & _ & H)]; [|done]|]); [..|done].
    + apply decode_int_safe in H; [done|lia].
    + apply IHl in H; [done|lia|]. eapply no_dict_from_mono; [|done]. lia.
    + destruct (Hnd pos); [lia|]. by rewrite Hc, (proj1 (Z.eqb_eq _ _) ltac:(eassumption)).
    + apply decode_bytes_safe in H; [done|lia].
  - intros acc Hp Hnd H.
    apply res_bind_Panic in H as [H|(c & Hc & H)]; [by apply peek_byte_safe in H|].
    case_match; [done|].
    apply res_bind_Panic in H as [H|([r next] & Hr & H)]; [by apply IHv in H|].
    apply decode_advances in Hr. apply IHl in H; [done|lia|].
    eapply no_dict_from_mono; [|done]. lia.
Qed.
