(* ===== verification/BencodeGrammar.v ===== *)
(** * The language the bencode decoder accepts

    An inductive grammar of bencoded text with its meaning, independent of
    positions, buffers and fuel, and the proof that the decoder accepts exactly
    this language: it succeeds on a text of the grammar whatever follows it,
    and what it succeeds on is a text of the grammar. *)

From S2P Require Import Prelude RustStd BTree Bencode BencodeFacts.

(** The value of a decoded object, without the buffers. *)
Fixpoint ref_erase (r : BencodeRef) : BencodeMut :=
  match r with
  | RInt n _ => MInt n
  | RBytes b _ => MBytes b
  | RList l _ => MList (map ref_erase l)
  | RDict d _ => MDict (map (fun kv => (fst kv, ref_erase (snd kv))) d)
  end.

Definition erase_entries (d : list (list Z * BencodeRef)) : list (list Z * BencodeMut) :=
  map (fun kv => (fst kv, ref_erase (snd kv))) d.

(** Decimal integers: zero, digits that do not start with a zero, such digits after a
    minus sign, and any digits after a plus sign, if the value ([horner], most significant
    digit first) is one of a 64-bit integer. A plus sign, after which zeros may lead, is not
    part of bencode. *)
Inductive int_text : list Z -> Z -> Prop :=
| IT_zero : int_text [ASCII_0] 0
| IT_positive d : Forall is_digit d -> no_leading_zero d -> horner 0 d < 2 ^ 63 -> int_text d (horner 0 d)
| IT_negative d : Forall is_digit d -> no_leading_zero d -> horner 0 d <= 2 ^ 63 -> int_text (ASCII_MINUS :: d) (- horner 0 d)
| IT_plus d : d <> [] -> Forall is_digit d -> horner 0 d < 2 ^ 63 -> int_text (ASCII_PLUS :: d) (horner 0 d).

(** The text of a byte string: its length, a colon, the bytes. *)
Definition bytes_text (w b : list Z) : Prop :=
  exists s, w = s ++ BYTE_LEN_END :: b /\ int_text s (Z.of_nat (length b)).

(** With [check_key_sort], a key may not be below the last key read. *)
Definition key_in_order {V} (opts : BDecodeOpt) (acc : list (list Z * V)) (k : list Z) : Prop :=
  check_key_sort opts = true -> forall k', bt_last_key acc = Some k' -> ~ bytes_lt k k'.

(** [gram opts d w v]: at nesting depth [d], [w] is a text for the value [v].
    [gram_dict opts d acc ws m] reads entries [ws] into the map [acc], giving [m]. *)
Inductive gram (opts : BDecodeOpt) : nat -> list Z -> BencodeMut -> Prop :=
| G_int d s n :
    (d < max_recursion opts)%nat -> int_text s n ->
    gram opts d (INT_START :: s ++ [BEN_END]) (MInt n)
| G_bytes d c w b :
    (d < max_recursion opts)%nat -> is_digit c -> bytes_text (c :: w) b ->
    gram opts d (c :: w) (MBytes b)
| G_list d ws l :
    (d < max_recursion opts)%nat -> gram_list opts (d + 1) ws l ->
    gram opts d (LIST_START :: ws ++ [BEN_END]) (MList l)
| G_dict d ws m :
    (d < max_recursion opts)%nat -> gram_dict opts (d + 1) [] ws m ->
    gram opts d (DICT_START :: ws ++ [BEN_END]) (MDict m)
with gram_list (opts : BDecodeOpt) : nat -> list Z -> list BencodeMut -> Prop :=
| GL_nil d : gram_list opts d [] []
| GL_cons d w v ws l :
    gram opts d w v -> gram_list opts d ws l -> gram_list opts d (w ++ ws) (v :: l)
with gram_dict (opts : BDecodeOpt)
    : nat -> list (list Z * BencodeMut) -> list Z -> list (list Z * BencodeMut) -> Prop :=
| GD_nil d acc : gram_dict opts d acc [] acc
| GD_cons d acc wk k w v ws m :
    bytes_text wk k -> key_in_order opts acc k -> bt_lookup k acc = None ->
    gram opts d w v -> gram_dict opts d (bt_insert k v acc) ws m ->
    gram_dict opts d acc (wk ++ w ++ ws) m.

Scheme gram_mind := Induction for gram Sort Prop
with gram_list_mind := Induction for gram_list Sort Prop
with gram_dict_mind := Induction for gram_dict Sort Prop.
Combined Scheme gram_mutind from gram_mind, gram_list_mind, gram_dict_mind.

(** ** Texts *)

(** What the decoder takes before the delimiter. *)
Definition int_accepted (delim : Z) (s : list Z) (n : Z) : Prop :=
  Forall (fun c => c <> delim) s /\ decode_int_check s 0 = Ok tt /\ i64_from_str_radix s = Some n.

Definition int_delim (delim : Z) : Prop := delim = BEN_END \/ delim = BYTE_LEN_END.

Lemma digits_not_delim delim d : int_delim delim -> Forall is_digit d -> Forall (fun c => c <> delim) d.
Proof. intros Hdel Hd. eapply Forall_impl; [exact Hd|]. cbn. unfold int_delim, BEN_END, BYTE_LEN_END, is_digit in *. lia. Qed.

Lemma int_text_accepted delim s n : int_delim delim -> int_text s n -> int_accepted delim s n.
Proof.
  intros Hdel Ht. assert (Hsign : ASCII_MINUS <> delim /\ ASCII_PLUS <> delim /\ ASCII_0 <> delim) by (unfold int_delim, BEN_END, BYTE_LEN_END, ASCII_MINUS, ASCII_PLUS, ASCII_0 in *; lia).
  destruct Ht as [|d Hd Hz Hb|d Hd Hz Hb|d Hne Hd Hb].
  - split; [constructor; [apply Hsign|constructor]|]. by split.
  - split; [by apply digits_not_delim|]. destruct d as [|c d]; [done|]. split; [|by apply i64_from_str_digits].
    cbn in Hz. assert (is_digit c) by (by inversion Hd). destruct d; [done|]. cbn. unfold is_digit, ASCII_MINUS, ASCII_0 in *.
    destruct (Z.eqb_spec c 45); [lia|]. by destruct (Z.eqb_spec c 48).
  - split; [constructor; [apply Hsign|by apply digits_not_delim]|]. destruct d as [|c d]; [done|]. split; [|by apply i64_from_str_minus].
    cbn in Hz |- *. by destruct (Z.eqb_spec c ASCII_0).
  - split; [constructor; [apply Hsign|by apply digits_not_delim]|]. split; [by destruct d|].
    pose proof (parse_digits_complete 1 0 d) as Hp. rewrite !Z.mul_1_l in Hp. pose proof (horner_nonneg d Hd). cbn. destruct d as [|c d]; [done|].
    apply Hp; [auto|done|lia|]. unfold in_signed. change (64 - 1) with 63. lia.
Qed.

Lemma accepted_int_text delim s n : int_accepted delim s n -> int_text s n.
Proof.
  intros (_ & Hchk & (Hn & d & Hne & Hd & Hs)%i64_from_str_sound). unfold in_signed in Hn. change (64 - 1) with 63 in Hn.
  destruct d as [|c d]; [done|]. destruct Hs as [[-> ->]|[[-> ->]|[-> ->]]].
  - destruct (Z.eq_dec c ASCII_0) as [->|Hc]; [|apply IT_positive; [done|done|lia]]. destruct d; [apply IT_zero|done].
  - apply IT_plus; [done|done|lia].
  - cbn in Hchk. destruct (Z.eqb_spec c ASCII_0) as [|Hc]; [done|]. apply IT_negative; [done|done|lia].
Qed.

Lemma int_text_first s n : int_text s n ->
  exists c s', s = c :: s' /\ (is_digit c \/ c = ASCII_PLUS \/ c = ASCII_MINUS).
Proof.
  destruct 1 as [|d Hd Hz _|d _ _ _|d _ _ _]; eauto 10; [by eexists _, _; split; [|left]|].
  destruct d as [|c d]; [done|]. inversion Hd; subst. eauto.
Qed.

(** Neither a value text nor a key text starts with the end marker. *)
Lemma bytes_text_first w b : bytes_text w b -> exists c w', w = c :: w' /\ c <> BEN_END.
Proof.
  intros (s & -> & Hs). apply int_text_first in Hs as (c & s' & -> & Hc).
  exists c, (s' ++ BYTE_LEN_END :: b). split; [done|].
  unfold is_digit, ASCII_PLUS, ASCII_MINUS, BEN_END in *. lia.
Qed.

Lemma gram_first opts d w v : gram opts d w v -> exists c w', w = c :: w' /\ c <> BEN_END.
Proof.
  destruct 1; try by (eexists _, _; split; [reflexivity|]; done).
  eexists _, _. split; [reflexivity|]. unfold is_digit, BEN_END in *. lia.
Qed.

Lemma decode_bytes_text bytes pos b next :
  decode_bytes bytes pos = Ok (b, next) <->
  exists w post, drop pos bytes = w ++ post /\ bytes_text w b /\ next = (pos + length w)%nat.
Proof.
  rewrite decode_bytes_Ok. split.
  - intros (s & post & Hd & Hs & Hchk & Hn & ->). exists (s ++ BYTE_LEN_END :: b), post.
    rewrite <- app_assoc. split; [done|]. split.
    + exists s. split; [done|]. apply (accepted_int_text BYTE_LEN_END). split; [done|]. split; [|done]. by eapply decode_int_check_pos.
    + rewrite length_app. simpl. lia.
  - intros (w & post & Hd & (s & -> & (Hs & Hchk & Hn)%(int_text_accepted BYTE_LEN_END)) & ->); [|by right]. exists s, post.
    rewrite Hd, <- app_assoc. repeat split; auto; [by eapply decode_int_check_pos|].
    rewrite length_app. simpl. lia.
Qed.

Lemma decode_int_text bytes pos delim n next : int_delim delim ->
  decode_int bytes pos delim = Ok (n, next) <->
  exists s post, drop pos bytes = s ++ delim :: post /\ int_text s n /\
    next = (pos + length s + 1)%nat.
Proof.
  intros Hdel. rewrite decode_int_Ok. split; intros (s & post & H).
  - destruct H as (? & ? & ? & ? & ->). exists s, post. split; [done|]. split; [|done].
    apply (accepted_int_text delim). repeat split; auto. by eapply decode_int_check_pos.
  - destruct H as (? & (? & ? & ?)%(int_text_accepted delim) & ->); [|done]. exists s, post. repeat split; auto.
    by eapply decode_int_check_pos.
Qed.

(** ** Entries with and without buffers *)

Lemma erase_entries_keys d : map fst (erase_entries d) = map fst d.
Proof. unfold erase_entries. rewrite map_map. done. Qed.

Lemma erase_last_key d : bt_last_key (erase_entries d) = bt_last_key d.
Proof. unfold bt_last_key. by rewrite erase_entries_keys. Qed.

Lemma erase_lookup k d : bt_lookup k (erase_entries d) = ref_erase <$> bt_lookup k d.
Proof. induction d as [|[k' v] d IH]; simpl; [done|]. by destruct (bytes_cmp k k'). Qed.

Lemma erase_insert k v d :
  erase_entries (bt_insert k v d) = bt_insert k (ref_erase v) (erase_entries d).
Proof.
  induction d as [|[k' v'] d IH]; simpl; [done|].
  destruct (bytes_cmp k k'); simpl; [done|done|]. by rewrite <- IH.
Qed.

Lemma key_in_order_spec opts acc k :
  key_out_of_order opts acc k = false <-> key_in_order opts (erase_entries acc) k.
Proof.
  unfold key_out_of_order, key_in_order. rewrite erase_last_key.
  destruct (bt_last_key acc) as [k'|]; [|split; [naive_solver|done]].
  destruct (check_key_sort opts); [|naive_solver].
  destruct (bytes_ltb_spec k k'); naive_solver.
Qed.

(** ** The decoder accepts every text of the grammar *)

Section Complete.
Variable opts : BDecodeOpt.

Definition accepts_value (d : nat) (w : list Z) (v : BencodeMut) : Prop :=
  forall fuel bytes pos post, drop pos bytes = w ++ post ->
  (2 * (length bytes - pos) + 1 <= fuel)%nat ->
  exists r, decode fuel bytes pos opts d = Ok (r, (pos + length w)%nat) /\ ref_erase r = v.

Definition accepts_list (d : nat) (ws : list Z) (l : list BencodeMut) : Prop :=
  forall fuel bytes pos post depth acc, d = (depth + 1)%nat ->
  drop pos bytes = ws ++ BEN_END :: post -> (2 * (length bytes - pos) + 2 <= fuel)%nat ->
  exists rs, decode_list fuel bytes pos opts depth acc = Ok (acc ++ rs, (pos + length ws + 1)%nat) /\
    map ref_erase rs = l.

Definition accepts_dict (d : nat) (acc : list (list Z * BencodeMut)) (ws : list Z)
    (m : list (list Z * BencodeMut)) : Prop :=
  forall fuel bytes pos post depth racc, d = (depth + 1)%nat -> erase_entries racc = acc ->
  drop pos bytes = ws ++ BEN_END :: post -> (2 * (length bytes - pos) + 2 <= fuel)%nat ->
  exists rm, decode_dict fuel bytes pos opts depth racc = Ok (rm, (pos + length ws + 1)%nat) /\
    erase_entries rm = m.

(** The first byte of a text, and the fuel left after reading it. *)
Lemma decode_enter fuel bytes pos c w post :
  drop pos bytes = c :: w ++ post -> (2 * (length bytes - pos) + 1 <= fuel)%nat ->
  exists fuel', fuel = S fuel' /\ peek_byte bytes pos = Ok c /\
    drop (pos + 1) bytes = w ++ post /\ (2 * (length bytes - (pos + 1)) + 2 <= fuel')%nat.
Proof.
  intros Hd Hf. assert (Hl := drop_length_le _ _ _ Hd ltac:(done)).
  destruct fuel as [|fuel]; [lia|]. exists fuel.
  apply drop_cons_lookup in Hd as [Hc Hd].
  split; [done|]. split; [by apply peek_byte_Ok|]. split; [by rewrite Nat.add_1_r|lia].
Qed.

Lemma max_recursion_guard d : (d < max_recursion opts)%nat -> (max_recursion opts <=? d)%nat = false.
Proof. intros. apply Nat.leb_gt. lia. Qed.

Lemma accepts_int d s n : (d < max_recursion opts)%nat -> int_text s n ->
  accepts_value d (INT_START :: s ++ [BEN_END]) (MInt n).
Proof.
  intros Hd Hs fuel bytes pos post Hdrop Hf.
  destruct (decode_enter _ _ _ _ (s ++ [BEN_END]) _ Hdrop Hf) as (f & -> & Hp & Hdrop' & _).
  rewrite <- app_assoc in Hdrop'. rewrite decode_step, max_recursion_guard, Hp by done.
  assert (Hi : decode_int bytes (pos + 1) BEN_END = Ok (n, (pos + 1 + length s + 1)%nat)).
  { apply decode_int_text; [by left|]. eauto. }
  simpl. rewrite Hi. simpl. eexists. split; [do 2 f_equal; rewrite length_app; simpl; lia|done].
Qed.

Lemma accepts_bytes d c w b : (d < max_recursion opts)%nat -> is_digit c ->
  bytes_text (c :: w) b -> accepts_value d (c :: w) (MBytes b).
Proof.
  intros Hd Hc Hw fuel bytes pos post Hdrop Hf.
  assert (Hb : decode_bytes bytes pos = Ok (b, (pos + length (c :: w))%nat)).
  { apply decode_bytes_text. eauto. }
  destruct (decode_enter _ _ _ _ w _ Hdrop Hf) as (f & -> & Hp & _ & _).
  unfold is_digit in Hc. rewrite decode_step, max_recursion_guard, Hp by done. simpl res_bind.
  unfold INT_START, LIST_START, DICT_START, BYTE_LEN_LOW, BYTE_LEN_HIGH.
  destruct (Z.eqb_spec c 105); [lia|]. destruct (Z.eqb_spec c 108); [lia|].
  destruct (Z.eqb_spec c 100); [lia|]. destruct (Z.leb_spec 48 c); [|lia].
  destruct (Z.leb_spec c 57); [|lia]. rewrite Hb. simpl. eauto.
Qed.

Lemma accepts_list_value d ws l : (d < max_recursion opts)%nat -> accepts_list (d + 1) ws l ->
  accepts_value d (LIST_START :: ws ++ [BEN_END]) (MList l).
Proof.
  intros Hd Hl fuel bytes pos post Hdrop Hf.
  destruct (decode_enter _ _ _ _ (ws ++ [BEN_END]) _ Hdrop Hf) as (f & -> & Hp & Hdrop' & Hf').
  rewrite <- app_assoc in Hdrop'. rewrite decode_step, max_recursion_guard, Hp by done.
  destruct (Hl f bytes (pos + 1)%nat post d [] eq_refl Hdrop' Hf') as (rs & Hrs & <-).
  simpl. rewrite Hrs. simpl. eexists. split; [do 2 f_equal; rewrite length_app; simpl; lia|done].
Qed.

Lemma accepts_dict_value d ws m : (d < max_recursion opts)%nat -> accepts_dict (d + 1) [] ws m ->
  accepts_value d (DICT_START :: ws ++ [BEN_END]) (MDict m).
Proof.
  intros Hd Hl fuel bytes pos post Hdrop Hf.
  destruct (decode_enter _ _ _ _ (ws ++ [BEN_END]) _ Hdrop Hf) as (f & -> & Hp & Hdrop' & Hf').
  rewrite <- app_assoc in Hdrop'. rewrite decode_step, max_recursion_guard, Hp by done.
  destruct (Hl f bytes (pos + 1)%nat post d [] eq_refl eq_refl Hdrop' Hf') as (rm & Hrm & <-).
  simpl. rewrite Hrm. simpl. eexists. split; [do 2 f_equal; rewrite length_app; simpl; lia|done].
Qed.

Lemma accepts_list_cons d w v ws l : gram opts d w v -> accepts_value d w v ->
  accepts_list d ws l -> accepts_list d (w ++ ws) (v :: l).
Proof.
  intros Hg Hv Hl fuel bytes pos post depth acc -> Hdrop Hf. destruct fuel as [|f]; [lia|]. simpl.
  rewrite <- app_assoc in Hdrop. destruct (gram_first _ _ _ _ Hg) as (c & w' & Hw & Hc).
  rewrite (peek_byte_drop bytes pos c (w' ++ ws ++ BEN_END :: post)) by (by rewrite Hdrop, Hw).
  simpl. rewrite (proj2 (Z.eqb_neq c BEN_END)) by done.
  assert (Hlt := drop_length_le _ _ _ Hdrop ltac:(by rewrite Hw)).
  destruct (Hv f bytes pos (ws ++ BEN_END :: post) Hdrop ltac:(lia)) as (r & Hr & <-).
  rewrite Hr. simpl. apply drop_app_shift in Hdrop.
  destruct (Hl f bytes (pos + length w)%nat post depth (acc ++ [r]) eq_refl Hdrop)
    as (rs & Hrs & <-); [rewrite Hw; simpl; lia|].
  rewrite Hrs. exists (r :: rs). rewrite <- app_assoc, length_app. split; [|done]. do 2 f_equal. lia.
Qed.

Lemma accepts_dict_cons d acc wk k w v ws m :
  bytes_text wk k -> key_in_order opts acc k -> bt_lookup k acc = None ->
  accepts_value d w v -> accepts_dict d (bt_insert k v acc) ws m ->
  accepts_dict d acc (wk ++ w ++ ws) m.
Proof.
  intros Hk Hord Hnew Hv Hm fuel bytes pos post depth racc -> <- Hdrop Hf.
  destruct fuel as [|f]; [lia|]. simpl. rewrite <- !app_assoc in Hdrop.
  destruct (bytes_text_first _ _ Hk) as (c & w' & Hw & Hc).
  rewrite (peek_byte_drop bytes pos c (w' ++ w ++ ws ++ BEN_END :: post)) by (by rewrite Hdrop, Hw).
  simpl. rewrite (proj2 (Z.eqb_neq c BEN_END)) by done.
  assert (Hlt := drop_length_le _ _ _ Hdrop ltac:(by rewrite Hw)).
  assert (Hb : decode_bytes bytes pos = Ok (k, (pos + length wk)%nat)).
  { apply decode_bytes_text. eauto. }
  rewrite Hb. simpl. rewrite (proj2 (key_in_order_spec _ _ _) Hord).
  apply drop_app_shift in Hdrop. assert (length wk <> 0)%nat by (by rewrite Hw).
  destruct (Hv f bytes (pos + length wk)%nat (ws ++ BEN_END :: post) Hdrop) as (r & Hr & <-); [lia|].
  rewrite Hr. simpl. rewrite erase_lookup, fmap_None in Hnew. rewrite Hnew.
  apply drop_app_shift in Hdrop.
  destruct (Hm f bytes (pos + length wk + length w)%nat post depth (bt_insert k r racc) eq_refl)
    as (rm & Hrm & <-); [apply erase_insert|done|lia|].
  rewrite Hrm. exists rm. rewrite !length_app. split; [|done]. do 2 f_equal. lia.
Qed.

Lemma accepts_list_nil d : accepts_list d [] [].
Proof.
  intros fuel bytes pos post depth acc _ Hdrop Hf. destruct fuel as [|f]; [lia|]. simpl.
  rewrite (peek_byte_drop _ _ _ _ Hdrop). simpl. exists []. rewrite app_nil_r, Nat.add_0_r. auto.
Qed.

Lemma accepts_dict_nil d acc : accepts_dict d acc [] acc.
Proof.
  intros fuel bytes pos post depth racc _ Her Hdrop Hf. destruct fuel as [|f]; [lia|]. simpl.
  rewrite (peek_byte_drop _ _ _ _ Hdrop). simpl. exists racc. rewrite Nat.add_0_r. auto.
Qed.

Lemma decode_complete_all :
  (forall d w v, gram opts d w v -> accepts_value d w v) /\
  (forall d ws l, gram_list opts d ws l -> accepts_list d ws l) /\
  (forall d acc ws m, gram_dict opts d acc ws m -> accepts_dict d acc ws m).
Proof.
  apply gram_mutind; intros;
    eauto using accepts_int, accepts_bytes, accepts_list_value, accepts_dict_value,
      accepts_list_nil, accepts_list_cons, accepts_dict_nil, accepts_dict_cons.
Qed.
End Complete.

(** ** The decoder accepts only texts of the grammar *)

Section Sound.
Variables (bytes : list Z) (opts : BDecodeOpt).

Definition sound_value (fuel : nat) : Prop := forall pos depth r next,
  decode fuel bytes pos opts depth = Ok (r, next) ->
  exists w post, drop pos bytes = w ++ post /\ next = (pos + length w)%nat /\
    gram opts depth w (ref_erase r).
Definition sound_list (fuel : nat) : Prop := forall pos depth acc rs next,
  decode_list fuel bytes pos opts depth acc = Ok (rs, next) ->
  exists ws post rl, drop pos bytes = ws ++ BEN_END :: post /\
    next = (pos + length ws + 1)%nat /\ rs = acc ++ rl /\
    gram_list opts (depth + 1) ws (map ref_erase rl).
Definition sound_dict (fuel : nat) : Prop := forall pos depth acc rm next,
  decode_dict fuel bytes pos opts depth acc = Ok (rm, next) ->
  exists ws post, drop pos bytes = ws ++ BEN_END :: post /\
    next = (pos + length ws + 1)%nat /\
    gram_dict opts (depth + 1) (erase_entries acc) ws (erase_entries rm).

Lemma sound_value_step fuel : sound_list fuel -> sound_dict fuel -> sound_value (S fuel).
Proof.
  intros IHl IHd pos depth. simpl.
  intros r next H. destruct (Nat.leb_spec (max_recursion opts) depth) as [|Hd]; [done|].
  res_inv. apply peek_byte_Ok, lookup_drop_cons in Hm. rewrite <- (Nat.add_1_r pos) in Hm.
  destruct (Z.eqb_spec x INT_START) as [->|_]; [|destruct (Z.eqb_spec x LIST_START) as [->|_];
    [|destruct (Z.eqb_spec x DICT_START) as [->|_]; [|case_match; [|done]]]]; res_inv.
  + apply decode_int_text in Hm0 as (s & post & Hs & Ht & ->); [|by left].
    exists (INT_START :: s ++ [BEN_END]), post. rewrite Hm, Hs. simpl. rewrite <- app_assoc, length_app.
    split; [done|]. split; [simpl; lia|]. by constructor.
  + apply IHl in Hm0 as (ws & post & rl & Hw & -> & -> & Hg).
    exists (LIST_START :: ws ++ [BEN_END]), post. rewrite Hm, Hw. simpl. rewrite <- app_assoc, length_app.
    split; [done|]. split; [simpl; lia|]. by constructor.
  + apply IHd in Hm0 as (ws & post & Hw & -> & Hg).
    exists (DICT_START :: ws ++ [BEN_END]), post. rewrite Hm, Hw. simpl. rewrite <- app_assoc, length_app.
    split; [done|]. split; [simpl; lia|]. by constructor.
  + apply decode_bytes_text in Hm0 as (w & post & Hw & Ht & ->).
    destruct (bytes_text_first _ _ Ht) as (c & w' & -> & _). exists (c :: w'), post.
    split; [done|]. split; [done|]. constructor; [done| |done].
    unfold is_digit, BYTE_LEN_LOW, BYTE_LEN_HIGH in *.
    rewrite Hm in Hw. injection Hw as -> _. lia.
Qed.

Lemma sound_list_step fuel : sound_value fuel -> sound_list fuel -> sound_list (S fuel).
Proof.
  intros IHv IHl pos depth. simpl.
  intros acc rs next H. res_inv. apply peek_byte_Ok, lookup_drop_cons in Hm.
  destruct (Z.eqb_spec x BEN_END) as [->|_]; res_inv.
  + exists [], (drop (S pos) bytes), []. rewrite app_nil_r, Nat.add_0_r. repeat split; [done|constructor].
  + apply IHv in Hm0 as (w & post & Hw & -> & Hg).
    apply IHl in H as (ws & post' & rl & Hws & -> & -> & Hgl).
    exists (w ++ ws), post', (b :: rl). rewrite (drop_app_shift _ _ _ _ Hw) in Hws. subst post.
    rewrite Hw, <- !app_assoc, length_app. repeat split; [lia|]. by constructor.
Qed.

Lemma sound_dict_step fuel : sound_value fuel -> sound_dict fuel -> sound_dict (S fuel).
Proof.
  intros IHv IHd pos depth. simpl.
  intros acc rm next H. res_inv. apply peek_byte_Ok, lookup_drop_cons in Hm.
  destruct (Z.eqb_spec x BEN_END) as [->|_]; res_inv.
  { exists [], (drop (S pos) bytes). rewrite Nat.add_0_r. repeat split; [done|constructor]. }
  apply decode_bytes_text in Hm0 as (wk & post & Hk & Htk & ->).
  destruct (key_out_of_order opts acc l) eqn:Hord; [done|]. res_inv.
  destruct (bt_lookup l acc) eqn:Hnew; [done|].
  apply IHv in Hm0 as (w & post' & Hw & -> & Hg).
  apply IHd in H as (ws & post'' & Hws & -> & Hgd).
  exists (wk ++ w ++ ws), post''.
  rewrite (drop_app_shift _ _ _ _ Hw) in Hws. subst post'.
  rewrite (drop_app_shift _ _ _ _ Hk) in Hw. subst post.
  rewrite Hk, <- !app_assoc, !length_app. repeat split; [lia|].
  rewrite erase_insert in Hgd. eapply GD_cons; [done| | |done|done].
  + by apply key_in_order_spec.
  + by rewrite erase_lookup, Hnew.
Qed.

Lemma decode_sound_all fuel : sound_value fuel /\ sound_list fuel /\ sound_dict fuel.
Proof.
  induction fuel as [|fuel (IHv & IHl & IHd)]; [done|].
  auto using sound_value_step, sound_list_step, sound_dict_step.
Qed.
End Sound.
