(* ===== verification/BencodeCanon.v ===== *)
(** * Encoded values and the grammar

    The bytes the encoder appends for a value, the proof that they are a text
    of the decoder's grammar, and that a canonical text is the encoding of its
    value. *)

From Stdlib Require Import Sorted.
From S2P Require Import Prelude RustStd BTree Bencode BencodeFacts BencodeGrammar.

(** Induction on values, with the hypothesis for every element and every entry. *)
Section MutInd.
Variable P : BencodeMut -> Prop.
Hypothesis Hint : forall n, P (MInt n).
Hypothesis Hbytes : forall b, P (MBytes b).
Hypothesis Hlist : forall l, Forall P l -> P (MList l).
Hypothesis Hdict : forall d, Forall (fun kv => P (snd kv)) d -> P (MDict d).

Fixpoint BencodeMut_nested_ind (v : BencodeMut) : P v :=
  match v with
  | MInt n => Hint n
  | MBytes b => Hbytes b
  | MList l =>
      Hlist l ((fix go l : Forall P l :=
        match l with
        | [] => Forall_nil_2 _
        | v :: l => Forall_cons_2 _ _ _ (BencodeMut_nested_ind v) (go l)
        end) l)
  | MDict d =>
      Hdict d ((fix go d : Forall (fun kv => P (snd kv)) d :=
        match d with
        | [] => Forall_nil_2 _
        | kv :: d => Forall_cons_2 _ _ _ (BencodeMut_nested_ind (snd kv)) (go d)
        end) d)
  end.
End MutInd.

(** ** What the encoder appends *)

Definition enc_bytes (b : list Z) : list Z :=
  usize_to_string (Z.of_nat (length b)) ++ BYTE_LEN_END :: b.

Fixpoint enc (v : BencodeMut) : list Z :=
  match v with
  | MInt n => INT_START :: i64_to_string n ++ [BEN_END]
  | MBytes b => enc_bytes b
  | MList l => LIST_START :: concat (map enc l) ++ [BEN_END]
  | MDict d =>
      DICT_START :: concat (map (fun kv => enc_bytes (fst kv) ++ enc (snd kv)) d) ++ [BEN_END]
  end.

(** A value Rust can hold: [i64] integers, slices of at most [isize::MAX]
    bytes, and maps with their entries in key order. *)
Inductive mut_ok : BencodeMut -> Prop :=
| ok_int n : is_i64 n -> mut_ok (MInt n)
| ok_bytes b : Z.of_nat (length b) < 2 ^ 63 -> mut_ok (MBytes b)
| ok_list l : Forall mut_ok l -> mut_ok (MList l)
| ok_dict d :
    bt_sorted d -> Forall (fun kv => Z.of_nat (length (fst kv)) < 2 ^ 63) d ->
    Forall (fun kv => mut_ok (snd kv)) d -> mut_ok (MDict d).

(** The nesting a value needs from the decoder. *)
Fixpoint mut_depth (v : BencodeMut) : nat :=
  match v with
  | MInt _ | MBytes _ => 1
  | MList l => S (list_max (map mut_depth l))
  | MDict d => S (list_max (map (fun kv => mut_depth (snd kv)) d))
  end.

Lemma encode_bytes_enc b buf : encode_bytes b buf = buf ++ enc_bytes b.
Proof. unfold encode_bytes, enc_bytes. by rewrite <- !app_assoc. Qed.

Lemma sort_by_key_map {V W} (f : V -> W) (d : list (list Z * V)) :
  sort_by_key (map (fun kv => (fst kv, f (snd kv))) d) =
  map (fun kv => (fst kv, f (snd kv))) (sort_by_key d).
Proof.
  induction d as [|e d IH]; simpl; [done|]. rewrite IH. clear IH.
  induction (sort_by_key d) as [|e' d' IH']; simpl; [done|].
  destruct (bytes_cmp (fst e) (fst e')); simpl; [done|done|]. by rewrite <- IH'.
Qed.

(** [encode] appends exactly [enc]; sorting the entries of a [BTreeMap] changes nothing. *)
Lemma encode_enc v : mut_ok v -> forall buf, encode v buf = buf ++ enc v.
Proof.
  induction v as [n|b|l IH|d IH] using BencodeMut_nested_ind; intros Hok buf; simpl.
  - unfold encode_int. by rewrite <- !app_assoc.
  - apply encode_bytes_enc.
  - inversion Hok as [| |? Hl|]; subst. unfold encode_list.
    assert (H : forall b0, fold_left (fun buf enc => enc buf) (map encode l) b0 = b0 ++ concat (map enc l)).
    { clear Hok buf. induction Hl as [|v l Hv Hl IHl]; simpl; intros b0; [by rewrite app_nil_r|].
      inversion IH; subst. rewrite IHl by done. rewrite H1 by done. by rewrite <- app_assoc. }
    rewrite H, <- !app_assoc. done.
  - inversion Hok as [| | |? Hs Hk Hd]; subst. unfold encode_dict.
    rewrite sort_by_key_map, sort_by_key_sorted by done.
    assert (H : forall b0, fold_left (fun buf kv => (snd kv) (encode_bytes (fst kv) buf))
        (map (fun kv => (fst kv, encode (snd kv))) d) b0 =
        b0 ++ concat (map (fun kv => enc_bytes (fst kv) ++ enc (snd kv)) d)).
    { clear Hok Hs Hk buf. induction Hd as [|kv d Hv Hd IHd]; simpl; intros b0; [by rewrite app_nil_r|].
      inversion IH; subst. rewrite IHd by done. rewrite encode_bytes_enc, H1 by done.
      by rewrite <- !app_assoc. }
    rewrite H, <- !app_assoc. done.
Qed.

(** ** The encoding is a text of the grammar *)

Lemma is_digit_not c : is_digit c -> c <> BEN_END /\ c <> BYTE_LEN_END /\ c <> ASCII_MINUS.
Proof. unfold is_digit, BEN_END, BYTE_LEN_END, ASCII_MINUS. lia. Qed.

Lemma usize_to_string_check n p : 0 <= n < 2 ^ 64 -> decode_int_check (usize_to_string n) p = Ok tt.
Proof.
  intros Hn. destruct (usize_to_string n) as [|c [|c1 s]] eqn:E; [done..|]. simpl.
  assert (Hd := usize_to_string_digits n). rewrite E in Hd. inversion Hd as [|? ? Hc Hd']; subst.
  destruct (Z.eqb_spec c ASCII_MINUS) as [->|_]; [by apply is_digit_not in Hc as (_ & _ & Hc)|]. simpl.
  destruct (Z.eqb_spec c ASCII_0) as [->|_]; [|done].
  by destruct (usize_to_string_head _ _ _ Hn E eq_refl).
Qed.

Lemma enc_bytes_text b : Z.of_nat (length b) < 2 ^ 63 -> bytes_text (enc_bytes b) b.
Proof.
  intros Hb. exists (usize_to_string (Z.of_nat (length b))). split; [done|].
  assert (Hd := usize_to_string_digits (Z.of_nat (length b))). apply (accepted_int_text BYTE_LEN_END).
  split; [eapply Forall_impl; [done|]; intros c Hc; apply (is_digit_not c Hc)|].
  split; [apply usize_to_string_check; lia|].
  rewrite <- i64_to_string_nonneg by lia. apply i64_from_to_string.
  unfold in_signed. change (64 - 1) with 63. lia.
Qed.

Lemma enc_int_text n : is_i64 n -> int_text (i64_to_string n) n.
Proof.
  intros Hn. apply (accepted_int_text BEN_END). split; [|split; [|by apply i64_from_to_string]].
  all: unfold in_signed in Hn; change (64 - 1) with 63 in Hn.
  - destruct (Z.lt_ge_cases n 0).
    + rewrite i64_to_string_neg by done. constructor; [done|].
      eapply Forall_impl; [apply usize_to_string_digits|]. intros c Hc. apply (is_digit_not c Hc).
    + rewrite i64_to_string_nonneg by done.
      eapply Forall_impl; [apply usize_to_string_digits|]. intros c Hc. apply (is_digit_not c Hc).
  - destruct (Z.lt_ge_cases n 0).
    + rewrite i64_to_string_neg by done.
      destruct (usize_to_string (- n)) as [|c s] eqn:E; [done|]. simpl.
      destruct (Z.eqb_spec c ASCII_0) as [->|]; [|done].
      destruct (usize_to_string_head (- n) _ _ ltac:(lia) E eq_refl). lia.
    + rewrite i64_to_string_nonneg by done. apply usize_to_string_check. lia.
Qed.

Lemma enc_bytes_first b : Z.of_nat (length b) < 2 ^ 63 ->
  exists c w, enc_bytes b = c :: w /\ is_digit c.
Proof.
  intros Hb. unfold enc_bytes.
  destruct (usize_to_string (Z.of_nat (length b))) as [|c s] eqn:E; [by apply dec_digits_nonempty in E|].
  exists c, (s ++ BYTE_LEN_END :: b). split; [done|].
  assert (Hd := usize_to_string_digits (Z.of_nat (length b))). rewrite E in Hd. by inversion Hd.
Qed.

Lemma list_max_le l n : (list_max l <= n)%nat <-> Forall (fun k => (k <= n)%nat) l.
Proof. apply list_max_le. Qed.

(** Reading the encoded entries in key order into a map of smaller keys. *)
Lemma enc_gram_dict opts d acc l :
  bt_sorted (acc ++ l) -> Forall (fun kv => Z.of_nat (length (fst kv)) < 2 ^ 63) l ->
  Forall (fun kv => gram opts d (enc (snd kv)) (snd kv)) l ->
  gram_dict opts d acc (concat (map (fun kv => enc_bytes (fst kv) ++ enc (snd kv)) l)) (acc ++ l).
Proof.
  revert acc; induction l as [|[k v] l IH]; intros acc Hs Hk Hl; simpl.
  { rewrite app_nil_r. constructor. }
  inversion Hk; inversion Hl; subst; simpl in *.
  assert (Hlt : Forall (fun e => bytes_lt (fst e) k) acc).
  { unfold bt_sorted in Hs. rewrite map_app in Hs. simpl in Hs.
    clear -Hs. induction acc as [|[k' v'] acc IH]; simpl in *; [done|].
    apply StronglySorted_inv in Hs as [Hs Hf]. constructor; [|by apply IH].
    apply Forall_app in Hf as [_ Hf]. by inversion Hf. }
  rewrite <- app_assoc. apply (GD_cons _ _ _ _ k _ v); [by apply enc_bytes_text| | |done|].
  - intros _ k' Hl' Hc. apply (bytes_lt_irrefl k). transitivity k'; [done|].
    apply (Forall_map fst (fun k' => bytes_lt k' k)) in Hlt.
    rewrite Forall_forall in Hlt. apply Hlt. by apply last_Some_elem_of.
  - by apply bt_lookup_None_lt.
  - rewrite bt_insert_snoc by done.
    replace (acc ++ (k, v) :: l) with ((acc ++ [(k, v)]) ++ l) in * by (by rewrite <- app_assoc).
    by apply IH.
Qed.

Lemma enc_gram opts v : mut_ok v -> forall d, (d + mut_depth v <= max_recursion opts)%nat ->
  gram opts d (enc v) v.
Proof.
  induction v as [n|b|l IH|m IH] using BencodeMut_nested_ind; intros Hok d Hd; simpl in Hd.
  - inversion Hok; subst. constructor; [lia|]. by apply enc_int_text.
  - inversion Hok; subst. simpl. destruct (enc_bytes_first b) as (c & w & E & Hc); [done|].
    rewrite E. constructor; [lia|done|]. rewrite <- E. by apply enc_bytes_text.
  - inversion Hok as [| |? Hl|]; subst. constructor; [lia|].
    assert (Hm : (list_max (map mut_depth l) <= max_recursion opts - (d + 1))%nat) by lia.
    apply list_max_le in Hm. clear Hd Hok.
    induction Hl as [|v l Hv Hl IHl]; simpl; [constructor|].
    inversion IH as [|? ? IHv IH']; inversion Hm; subst. constructor; [apply IHv; [done|]|by apply IHl].
    assert (mut_depth v <> 0)%nat by (by destruct v). lia.
  - inversion Hok as [| | |? Hs Hk Hm]; subst. constructor; [lia|].
    apply (enc_gram_dict opts (d + 1) [] m); [done|done|].
    assert (Hx : (list_max (map (fun kv => mut_depth (snd kv)) m) <= max_recursion opts - (d + 1))%nat) by lia.
    apply list_max_le in Hx. clear Hd Hok Hs Hk.
    induction Hm as [|kv m Hv Hm IHm]; simpl; [constructor|].
    inversion IH as [|? ? IHv IH']; inversion Hx; subst. constructor; [apply IHv; [done|]|by apply IHm].
    assert (mut_depth (snd kv) <> 0)%nat by (by destruct (snd kv)). lia.
Qed.

(** ** Decoded values are well formed *)

Definition entries_ok (m : list (list Z * BencodeMut)) : Prop :=
  bt_sorted m /\ Forall (fun kv => Z.of_nat (length (fst kv)) < 2 ^ 63) m /\
  Forall (fun kv => mut_ok (snd kv)) m.

Lemma int_text_i64 s n : int_text s n -> is_i64 n.
Proof. by intros (_ & _ & [Hn _]%i64_from_str_sound)%(int_text_accepted BEN_END _ _ (or_introl eq_refl)). Qed.

Lemma bytes_text_length w b : bytes_text w b -> Z.of_nat (length b) < 2 ^ 63.
Proof.
  intros (s & _ & Hi%int_text_i64). unfold in_signed in Hi. change (64 - 1) with 63 in Hi. lia.
Qed.

Lemma gram_ok opts :
  (forall d w v, gram opts d w v -> mut_ok v) /\
  (forall d ws l, gram_list opts d ws l -> Forall mut_ok l) /\
  (forall d acc ws m, gram_dict opts d acc ws m -> entries_ok acc -> entries_ok m).
Proof.
  apply gram_mutind.
  - intros d s n _ Hs. constructor. by eapply int_text_i64.
  - intros d c w b _ _ Hw. constructor. by eapply bytes_text_length.
  - intros. by constructor.
  - intros d ws m _ _ IH. destruct IH as (? & ? & ?); [|by constructor].
    split; [constructor|auto].
  - constructor.
  - intros. by constructor.
  - done.
  - intros d acc wk k w v ws m Hk _ _ _ Hv _ IH (Hs & Hl & Hm). apply IH.
    split; [by apply bt_insert_sorted|]. split; apply bt_insert_Forall; auto.
    by eapply bytes_text_length.
Qed.

(** ** Canonical texts *)

Definition no_plus (w : list Z) : Prop := Forall (fun c => c <> ASCII_PLUS) w.

Lemma digits_canonical d : d <> [] -> Forall is_digit d -> horner 0 d < 10 ^ 19 ->
  decode_int_check d 0 = Ok tt -> usize_to_string (horner 0 d) = d.
Proof.
  intros Hne Hd Hb Hchk. destruct d as [|c d]; [done|].
  destruct (Z.eq_dec c 48) as [->|Hc]; [|by apply usize_to_string_horner].
  destruct d as [|c1 d]; [reflexivity|]. simpl in Hchk. done.
Qed.

Lemma int_text_canonical s n : int_text s n -> no_plus s -> s = i64_to_string n.
Proof.
  intros (_ & Hchk & (Hn & d & Hne & Hd & Hs)%i64_from_str_sound)%(int_text_accepted BEN_END) Hp; [|by left].
  assert (H0 := horner_nonneg d Hd). unfold in_signed in Hn. change (64 - 1) with 63 in Hn.
  destruct Hs as [[-> ->]|[[-> ->]|[-> ->]]].
  - rewrite i64_to_string_nonneg by done. symmetry. apply digits_canonical; auto. lia.
  - by inversion Hp.
  - destruct d as [|c d]; [done|]. simpl in Hchk.
    destruct (Z.eqb_spec c ASCII_0) as [|Hc]; [done|].
    assert (Hpos := horner_pos (c :: d) Hd Hc).
    rewrite i64_to_string_neg, Z.opp_involutive by lia.
    rewrite usize_to_string_horner; [done|done|done|lia].
Qed.

Lemma bytes_text_canonical w b : bytes_text w b -> no_plus w -> w = enc_bytes b.
Proof.
  intros (s & -> & Hs) Hp. unfold enc_bytes. f_equal.
  rewrite <- i64_to_string_nonneg by lia. eapply int_text_canonical; [done|].
  by apply Forall_app in Hp as [Hp _].
Qed.

(** A key that is in order and not yet present is above every key read. *)
Lemma key_above opts acc k :
  check_key_sort opts = true -> @bt_sorted BencodeMut acc -> key_in_order opts acc k ->
  bt_lookup k acc = None -> Forall (fun e => bytes_lt (fst e) k) acc.
Proof.
  intros Hc Hs Hord Hnone. destruct (bt_last_key acc) as [k'|] eqn:Hl.
  - specialize (Hord Hc k' Hl). assert (Hf := bt_sorted_last _ _ Hs Hl).
    assert (Hlt : bytes_lt k' k).
    { destruct (bytes_cmp k k') eqn:E; [apply bytes_cmp_eq in E as ->|done|by apply bytes_cmp_Gt].
      apply last_Some_elem_of, list_elem_of_In, in_map_iff in Hl as ([k2 v] & <- & Hin).
      simpl in *. apply list_elem_of_In in Hin. by rewrite (bt_elem_lookup _ _ _ Hs Hin) in Hnone. }
    eapply Forall_impl; [done|]. intros e [->|]; [done|]. by transitivity k'.
  - unfold bt_last_key in Hl. apply last_None in Hl. by destruct acc.
Qed.

(** With the key order checked and no [+] in the text, the text is the encoding of its value. *)
Lemma gram_canonical opts : check_key_sort opts = true ->
  (forall d w v, gram opts d w v -> no_plus w -> w = enc v) /\
  (forall d ws l, gram_list opts d ws l -> no_plus ws -> ws = concat (map enc l)) /\
  (forall d acc ws m, gram_dict opts d acc ws m -> no_plus ws -> bt_sorted acc ->
     exists l, m = acc ++ l /\
       ws = concat (map (fun kv => enc_bytes (fst kv) ++ enc (snd kv)) l)).
Proof.
  intros Hsort. unfold no_plus. apply gram_mutind.
  - intros d s n _ Hs [_ [Hp _]%Forall_app]%Forall_cons. simpl.
    by rewrite <- (int_text_canonical _ _ Hs Hp).
  - intros d c w b _ _ Hw Hp. by apply bytes_text_canonical.
  - intros d ws l _ _ IH [_ [Hp _]%Forall_app]%Forall_cons. simpl. by rewrite (IH Hp).
  - intros d ws m _ _ IH [_ [Hp _]%Forall_app]%Forall_cons. simpl.
    destruct (IH Hp) as (l & -> & ->); [constructor|done].
  - done.
  - intros d w v ws l _ IHv _ IHl [Hp Hp']%Forall_app. simpl. by rewrite <- (IHv Hp), <- (IHl Hp').
  - intros d acc _ _. exists []. by rewrite app_nil_r.
  - intros d acc wk k w v ws m Hk Hord Hnone _ IHv _ IHd [Hpk [Hp Hp']%Forall_app]%Forall_app Hs.
    assert (Hlt := key_above _ _ _ Hsort Hs Hord Hnone).
    destruct (IHd Hp') as (l & -> & ->); [by apply bt_insert_sorted|].
    exists ((k, v) :: l). rewrite bt_insert_snoc, <- app_assoc by done. split; [done|]. simpl.
    by rewrite <- (IHv Hp), <- (bytes_text_canonical _ _ Hk Hpk), <- app_assoc.
Qed.

(** The recursion limit bounds the nesting of what is accepted. *)
Lemma gram_depth opts :
  (forall d w v, gram opts d w v -> (d + mut_depth v <= max_recursion opts)%nat) /\
  (forall d ws l, gram_list opts d ws l ->
     Forall (fun v => (d + mut_depth v <= max_recursion opts)%nat) l) /\
  (forall d acc ws m, gram_dict opts d acc ws m ->
     Forall (fun kv => (d + mut_depth (snd kv) <= max_recursion opts)%nat) acc ->
     Forall (fun kv => (d + mut_depth (snd kv) <= max_recursion opts)%nat) m).
Proof.
  apply gram_mutind; intros; simpl; try lia; auto.
  - assert (list_max (map mut_depth l) <= max_recursion opts - (d + 1))%nat; [|lia].
    apply list_max_le, Forall_map. eapply Forall_impl; [done|]. simpl. intros; lia.
  - assert (list_max (map (fun kv => mut_depth (snd kv)) m) <= max_recursion opts - (d + 1))%nat; [|lia].
    apply list_max_le, Forall_map. eapply Forall_impl; [by apply H|]. simpl. intros; lia.
  - apply H0. by apply bt_insert_Forall.
Qed.

Lemma gram_depth_mono opts :
  (forall d w v, gram opts d w v -> forall d', (d' <= d)%nat -> gram opts d' w v) /\
  (forall d ws l, gram_list opts d ws l -> forall d', (d' <= d)%nat -> gram_list opts d' ws l) /\
  (forall d acc ws m, gram_dict opts d acc ws m ->
     forall d', (d' <= d)%nat -> gram_dict opts d' acc ws m).
Proof.
  apply gram_mutind; intros; try (constructor; eauto with lia; fail).
  econstructor; eauto.
Qed.
