(* ===== verification/BencodeSpec.v ===== *)
(** * Properties of the bencode module

    The contract of [BencodeRef::decode] and [BencodeMut::encode]: the round
    trip, the refinement of the grammar, termination, well-formedness of what is
    decoded, canonicity, the meaning of buffers, the recursion limit, and where
    the decoder panics. *)

From Stdlib Require Import Sorted.
From S2P Require Import Prelude RustStd BTree Bencode BencodeFacts BencodeGrammar BencodeCanon.

(** ** Helper lemmas on the entry point *)

Lemma BencodeRef_decode_Ok bytes opts r :
  BencodeRef_decode bytes opts = Ok r <->
  exists n, decode (decode_fuel bytes) bytes 0 opts 0 = Ok (r, n) /\
    (enforce_full_decode opts = true -> n = length bytes).
Proof.
  unfold BencodeRef_decode. rewrite res_bind_Ok. split.
  - intros ([r' n] & Hd & H). exists n.
    destruct (Nat.eqb_spec n (length bytes)), (enforce_full_decode opts); simpl in H; by simplify_eq.
  - intros (n & Hd & H). exists (r, n). split; [done|].
    destruct (Nat.eqb_spec n (length bytes)), (enforce_full_decode opts); simpl; try done.
    by destruct n0; apply H.
Qed.

Lemma decode_buffer fuel bytes pos opts depth r next :
  decode fuel bytes pos opts depth = Ok (r, next) -> ref_buffer r = slice bytes pos next.
Proof.
  destruct fuel; [done|]. rewrite decode_step. intros H. case_match; [done|]. res_inv.
  decode_cases H; by res_inv.
Qed.

(** The consumed text, in terms of the grammar. *)
Lemma decode_text fuel bytes pos opts depth r next :
  decode fuel bytes pos opts depth = Ok (r, next) ->
  gram opts depth (slice bytes pos next) (ref_erase r) /\ ref_buffer r = slice bytes pos next.
Proof.
  intros H. split; [|by eapply decode_buffer].
  apply decode_sound_all in H as (w & post & Hd & -> & Hg). by rewrite (slice_drop_app _ _ _ _ Hd).
Qed.

Lemma decode_gram bytes opts w post v : bytes = w ++ post -> gram opts 0 w v ->
  exists r, decode (decode_fuel bytes) bytes 0 opts 0 = Ok (r, length w) /\ ref_erase r = v.
Proof.
  intros Hw Hg. apply (proj1 (decode_complete_all opts)) in Hg.
  apply (Hg (decode_fuel bytes) bytes 0%nat post Hw). unfold decode_fuel. lia.
Qed.

Lemma slice_0 {A} (b : list A) n : slice b 0 n = take n b.
Proof. unfold slice. by rewrite Nat.sub_0_r. Qed.

(** A text of the grammar decodes as a whole input. *)
Lemma BencodeRef_decode_gram opts d w v : gram opts d w v ->
  exists r, BencodeRef_decode w opts = Ok r /\ ref_erase r = v /\ ref_buffer r = w.
Proof.
  intros Hg. apply gram_depth_mono with (d' := 0%nat) in Hg; [|lia].
  destruct (decode_gram w opts w [] v) as (r & Hr & Hv); [by rewrite app_nil_r|done|].
  exists r. split; [apply BencodeRef_decode_Ok; eauto|]. split; [done|].
  rewrite (decode_buffer _ _ _ _ _ _ _ Hr), slice_0. by rewrite take_ge.
Qed.

(** ** Round trip *)

(** C1: decoding what [BencodeMut::encode] wrote gives the value back, under any
    options whose recursion limit admits its nesting, and the decoded object's
    buffer is the whole encoding. *)
Theorem decode_encode_roundtrip (v : BencodeMut) (opts : BDecodeOpt) :
  mut_ok v -> (mut_depth v <= max_recursion opts)%nat ->
  exists r, BencodeRef_decode (BencodeMut_encode v) opts = Ok r /\
    ref_erase r = v /\ ref_buffer r = BencodeMut_encode v.
Proof.
  intros Hok Hd. unfold BencodeMut_encode. rewrite encode_enc by done.
  apply (BencodeRef_decode_gram _ 0), enc_gram; [done|lia].
Qed.

Definition sample_mut : BencodeMut :=
  MDict [(bs "id", MInt (-7)); (bs "nodes", MList [MBytes (bs "ab"); MList []; MInt 0])].

(** Closed goals about well-formed values. *)
Ltac mut_ok_tac :=
  repeat first
    [ apply ok_int | apply ok_bytes | apply ok_list | apply ok_dict
    | apply Forall_cons_2 | apply Forall_nil_2
    | apply bt_sorted_cons; split | apply SSorted_nil ];
  simpl; try (unfold in_signed; lia); try reflexivity.

Lemma sample_mut_ok : mut_ok sample_mut.
Proof. mut_ok_tac. Qed.

Lemma decode_encode_roundtrip_witness :
  exists r, BencodeRef_decode (BencodeMut_encode sample_mut) BDecodeOpt_default = Ok r /\
    ref_erase r = sample_mut /\ ref_buffer r = BencodeMut_encode sample_mut.
Proof.
  apply (decode_encode_roundtrip sample_mut BDecodeOpt_default sample_mut_ok). vm_compute. lia.
Defined.

(** ** Refinement of the grammar *)

(** C2: the decoder accepts exactly the grammar [gram]. It stops after [n] bytes with
    value [v] if and only if the first [n] bytes are a text for [v]. The grammar is that of
    bencode (integers without leading zeros or a negative zero, in 64 bits; keys distinct,
    and in order if the options ask for it; nesting up to the limit of the options),
    extended by one thing the code accepts: an integer, or the length of a key, may have a
    plus sign, after which zeros may lead. *)
Theorem decode_refines_grammar (bytes : list Z) (opts : BDecodeOpt) (v : BencodeMut) (n : nat) :
  (exists r, decode (decode_fuel bytes) bytes 0 opts 0 = Ok (r, n) /\ ref_erase r = v) <->
  ((n <= length bytes)%nat /\ gram opts 0 (take n bytes) v).
Proof.
  split.
  - intros (r & Hr & <-). split; [apply decode_advances in Hr; lia|].
    apply decode_text in Hr as [Hg _]. by rewrite slice_0 in Hg.
  - intros [Hn Hg]. destruct (decode_gram bytes opts (take n bytes) (drop n bytes) v) as (r & Hr & Hv).
    + by rewrite take_drop.
    + done.
    + exists r. rewrite length_take, Nat.min_l in Hr by done. auto.
Qed.

(** ** Termination *)

(** [BencodeRef::decode] returns on every input: the recursion bound used by
    the model is never reached. *)
Lemma decode_terminates (bytes : list Z) (opts : BDecodeOpt) :
  BencodeRef_decode bytes opts <> OutOfFuel.
Proof.
  unfold BencodeRef_decode. intros H. apply res_bind_OutOfFuel in H as [H|([r n] & _ & H)].
  - apply (proj1 (decode_total_all (decode_fuel bytes) bytes opts)) in H; [done|lia|].
    unfold decode_fuel. lia.
  - case_match; done.
Qed.

(** ** Well-formed results *)

(** Every decoded value is well formed (integers fit [i64], byte strings
    are addressable, the keys of every dictionary are strictly increasing and so
    pairwise distinct) and nested at most [max_recursion] deep, whatever the options. *)
Lemma decode_well_formed (bytes : list Z) (opts : BDecodeOpt) (r : BencodeRef) :
  BencodeRef_decode bytes opts = Ok r ->
  mut_ok (ref_erase r) /\ (mut_depth (ref_erase r) <= max_recursion opts)%nat.
Proof.
  intros (n & [Hg _]%decode_text & _)%BencodeRef_decode_Ok. split.
  - by apply (proj1 (gram_ok opts)) in Hg.
  - by apply (proj1 (gram_depth opts)) in Hg.
Qed.

Lemma decode_well_formed_witness :
  let r := RDict [(bs "a", RInt 1 (bs "i1e")); (bs "b", RBytes (bs "x") (bs "1:x"))]
             (bs "d1:b1:x1:ai1ee") in
  BencodeRef_decode (bs "d1:b1:x1:ai1ee") BDecodeOpt_default = Ok r /\ mut_ok (ref_erase r).
Proof.
  split; [vm_compute; reflexivity|].
  apply (decode_well_formed (bs "d1:b1:x1:ai1ee") BDecodeOpt_default). vm_compute. reflexivity.
Defined.

(** ** Canonicity *)

(** With [check_key_sort], an accepted input in which no [+] byte occurs is
    the encoding of the decoded value, so such inputs and values are in
    one-to-one correspondence. *)
Lemma decode_canonical (bytes : list Z) (opts : BDecodeOpt) (r : BencodeRef) :
  check_key_sort opts = true -> no_plus bytes -> BencodeRef_decode bytes opts = Ok r ->
  ref_buffer r = BencodeMut_encode (ref_erase r).
Proof.
  intros Hs Hp (n & [Hg Hb]%decode_text & _)%BencodeRef_decode_Ok. rewrite Hb, slice_0 in *.
  unfold BencodeMut_encode. rewrite encode_enc by (by apply (proj1 (gram_ok opts)) in Hg).
  apply (gram_canonical opts Hs) in Hg; [done|]. by apply Forall_take.
Qed.

Lemma decode_canonical_witness :
  let opts := BDecodeOpt_new 5 true true in
  let r := RList [RInt (-3) (bs "i-3e"); RBytes (bs "hi") (bs "2:hi")] (bs "li-3e2:hie") in
  BencodeRef_decode (bs "li-3e2:hie") opts = Ok r /\
  ref_buffer r = BencodeMut_encode (ref_erase r).
Proof.
  split; [vm_compute; reflexivity|].
  apply (decode_canonical (bs "li-3e2:hie") (BDecodeOpt_new 5 true true));
    [reflexivity| |vm_compute; reflexivity].
  unfold no_plus. repeat (constructor; [vm_compute; discriminate|]). constructor.
Defined.

(** ** Buffers *)

(** [ref_sub r' r]: [r'] is [r] or an object nested in it. *)
Inductive ref_sub : BencodeRef -> BencodeRef -> Prop :=
| sub_refl r : ref_sub r r
| sub_list r r' l b : r' ∈ l -> ref_sub r r' -> ref_sub r (RList l b)
| sub_dict r r' k d b : (k, r') ∈ d -> ref_sub r r' -> ref_sub r (RDict d b).

(** Every object nested in [r] carries a text of its own value. *)
Definition buffers_sound (opts : BDecodeOpt) (r : BencodeRef) : Prop :=
  forall r', ref_sub r' r -> exists d, gram opts d (ref_buffer r') (ref_erase r').

Lemma buffers_sound_all fuel bytes opts :
  (forall pos depth r next, decode fuel bytes pos opts depth = Ok (r, next) -> buffers_sound opts r) /\
  (forall pos depth acc rs next, decode_list fuel bytes pos opts depth acc = Ok (rs, next) ->
     Forall (buffers_sound opts) acc -> Forall (buffers_sound opts) rs) /\
  (forall pos depth acc rm next, decode_dict fuel bytes pos opts depth acc = Ok (rm, next) ->
     Forall (fun kv => buffers_sound opts (snd kv)) acc ->
     Forall (fun kv => buffers_sound opts (snd kv)) rm).
Proof.
  induction fuel as [|fuel (IHv & IHl & IHd)]; [done|].
  split; [|split]; intros pos depth.
  - intros r next H r' Hsub. destruct (decode_text _ _ _ _ _ _ _ H) as [Hg Hb].
    inversion Hsub as [|? r1 l b Hin Hs|? r1 k d b Hin Hs]; subst; [rewrite Hb; eauto|..];
      rewrite decode_step in H; case_match; [done| |done|]; res_inv; decode_cases H; res_inv; simplify_eq.
    + apply IHl in Hm0; [|constructor]. rewrite Forall_forall in Hm0. by apply (Hm0 _ Hin).
    + apply IHd in Hm0; [|constructor]. rewrite Forall_forall in Hm0. by apply (Hm0 _ Hin).
  - intros acc rs next H Hacc. simpl in H. res_inv. decode_cases H; res_inv; [done|].
    apply IHl in H; [done|]. apply Forall_app. split; [done|]. constructor; [by eapply IHv|done].
  - intros acc rm next H Hacc. simpl in H. res_inv. decode_cases H; res_inv; [done|].
    decode_cases H; res_inv. apply IHd in H; [done|].
    apply bt_insert_Forall; [|done]. simpl. by eapply IHv.
Qed.

(** The buffer of every decoded object, nested ones included, is a bencode
    text on its own: decoding it under the same options gives an object with the
    same value and the same buffer. The info-hash computation relies on this. *)
Lemma decode_buffer_redecodes (bytes : list Z) (opts : BDecodeOpt) (r r' : BencodeRef) :
  BencodeRef_decode bytes opts = Ok r -> ref_sub r' r ->
  exists r'', BencodeRef_decode (ref_buffer r') opts = Ok r'' /\
    ref_erase r'' = ref_erase r' /\ ref_buffer r'' = ref_buffer r'.
Proof.
  intros (n & Hd & _)%BencodeRef_decode_Ok Hsub.
  apply (proj1 (buffers_sound_all _ _ _)) in Hd. destruct (Hd r' Hsub) as [d Hg].
  by apply BencodeRef_decode_gram in Hg.
Qed.

Lemma decode_buffer_redecodes_witness :
  exists r'', BencodeRef_decode (bs "d1:xi5ee") BDecodeOpt_default = Ok r'' /\
    ref_erase r'' = MDict [(bs "x", MInt 5)] /\ ref_buffer r'' = bs "d1:xi5ee".
Proof.
  set (info := RDict [(bs "x", RInt 5 (bs "i5e"))] (bs "d1:xi5ee")).
  apply (decode_buffer_redecodes (bs "d4:infod1:xi5eee") BDecodeOpt_default
           (RDict [(bs "info", info)] (bs "d4:infod1:xi5eee")) info).
  - vm_compute. reflexivity.
  - apply (sub_dict _ info (bs "info")); [left|apply sub_refl].
Defined.

(** ** The recursion limit *)

Lemma decode_nested_lists k : forall fuel bytes opts pos depth rest c,
  drop pos bytes = replicate k LIST_START ++ c :: rest -> c <> BEN_END ->
  (depth + k = max_recursion opts)%nat -> (2 * k < fuel)%nat ->
  decode fuel bytes pos opts depth =
    Err (InvalidRecursionExceeded (pos + k) (max_recursion opts)).
Proof.
  induction k as [|k IH]; intros fuel bytes opts pos depth rest c Hd Hc Hk Hf;
    (destruct fuel as [|fuel]; [lia|]); rewrite decode_step.
  - destruct (Nat.leb_spec (max_recursion opts) depth); [|lia]. do 2 f_equal; lia.
  - destruct (Nat.leb_spec (max_recursion opts) depth); [lia|].
    rewrite (peek_byte_drop _ _ _ _ Hd). simpl. destruct fuel as [|fuel]; [lia|]. simpl.
    apply (drop_app_shift _ _ [LIST_START]) in Hd. simpl in Hd.
    assert (Hp : exists c', peek_byte bytes (pos + 1) = Ok c' /\ c' <> BEN_END).
    { destruct k; simpl in Hd; rewrite (peek_byte_drop _ _ _ _ Hd); eauto. }
    destruct Hp as (c' & -> & Hc'). simpl. rewrite (proj2 (Z.eqb_neq c' BEN_END)) by done.
    rewrite (IH fuel bytes opts (pos + 1)%nat (depth + 1)%nat rest c); [simpl|done|done|lia|lia].
    do 2 f_equal. lia.
Qed.

(** Input nested one list deeper than the limit is refused with
    [InvalidRecursionExceeded] at the offending position, however long it is:
    recursion never goes deeper than [max_recursion] calls of [decode]. *)
Lemma decode_recursion_limit (rest : list Z) (opts : BDecodeOpt) (c : Z) :
  c <> BEN_END ->
  BencodeRef_decode (replicate (max_recursion opts) LIST_START ++ c :: rest) opts =
    Err (InvalidRecursionExceeded (max_recursion opts) (max_recursion opts)).
Proof.
  intros Hc. unfold BencodeRef_decode.
  rewrite (decode_nested_lists (max_recursion opts) _ _ _ _ _ rest c); [done|done|done|done|].
  unfold decode_fuel. rewrite length_app, length_replicate. lia.
Qed.

Lemma decode_recursion_limit_witness :
  BencodeRef_decode (bs "lllli1eeeee") (BDecodeOpt_new 3 false true) =
    Err (InvalidRecursionExceeded 3 3).
Proof.
  apply (decode_recursion_limit (bs "i1eeeee") (BDecodeOpt_new 3 false true) LIST_START).
  vm_compute. discriminate.
Defined.

(** ** Panics *)

(** An input without a [d] byte never makes the decoder panic: every
    malformed integer, byte string or list is reported as an error. *)
Lemma decode_no_panic_without_dict (bytes : list Z) (opts : BDecodeOpt) :
  DICT_START ∉ bytes -> BencodeRef_decode bytes opts <> Panic.
Proof.
  intros Hnd. unfold BencodeRef_decode. intros H.
  apply res_bind_Panic in H as [H|([r n] & _ & H)]; [|case_match; done].
  apply (proj1 (decode_no_panic_all _ _ _)) in H; [done|lia|].
  intros i _ Hi. apply Hnd. by eapply list_elem_of_lookup_2.
Qed.

Lemma decode_no_panic_without_dict_witness :
  BencodeRef_decode (bs "li00ee") BDecodeOpt_default <> Panic.
Proof.
  apply decode_no_panic_without_dict. apply (bool_decide_unpack _). vm_compute. exact I.
Defined.

(** A byte no value starts with. *)
Definition invalid_start (c : Z) : bool :=
  negb ((c =? INT_START) || (c =? LIST_START) || (c =? DICT_START) ||
        ((BYTE_LEN_LOW <=? c) && (c <=? BYTE_LEN_HIGH))).

(** Malformed content inside a dictionary makes [BencodeRef::decode] panic
    instead of returning an error: for every key and every following input, if the
    value does not start like a bencode value, the [unwrap] in [decode_dict]
    aborts. A list with the same element reports [InvalidByte]. *)
Lemma decode_dict_value_panics (k rest : list Z) (c : Z) (opts : BDecodeOpt) :
  (2 <= max_recursion opts)%nat -> Z.of_nat (length k) < 2 ^ 63 -> invalid_start c = true ->
  BencodeRef_decode (DICT_START :: enc_bytes k ++ c :: rest) opts = Panic.
Proof.
  intros Hmax Hk Hc. unfold BencodeRef_decode.
  set (bytes := DICT_START :: enc_bytes k ++ c :: rest).
  destruct (decode_fuel bytes) as [|[|[|fuel]]] eqn:Ef;
    [unfold decode_fuel, bytes in Ef; rewrite length_cons, length_app in Ef; simpl in Ef; lia..|].
  rewrite decode_step. destruct (Nat.leb_spec (max_recursion opts) 0); [lia|].
  change (peek_byte bytes 0) with (@Ok BencodeParseErrorKind Z DICT_START). cbn [res_bind].
  change (DICT_START =? INT_START) with false. change (DICT_START =? LIST_START) with false.
  change (DICT_START =? DICT_START) with true. cbv iota. change (0 + 1)%nat with 1%nat.
  destruct (enc_bytes_first k Hk) as (c0 & w & Ek & Hc0).
  assert (Hb : decode_bytes bytes 1 = Ok (k, (1 + length (enc_bytes k))%nat)).
  { apply decode_bytes_text. exists (enc_bytes k), (c :: rest).
    split; [done|]. split; [by apply enc_bytes_text|done]. }
  assert (Hv : decode (S fuel) bytes (1 + length (enc_bytes k)) opts 1 =
               Err (InvalidByte (1 + length (enc_bytes k)))).
  { rewrite decode_step. destruct (Nat.leb_spec (max_recursion opts) 1); [lia|].
    rewrite (peek_byte_drop bytes _ c rest) by (unfold bytes; simpl; apply drop_app_length).
    unfold invalid_start in Hc. rewrite !negb_orb in Hc. simpl.
    repeat match type of Hc with context [negb (?a =? ?b)] => destruct (a =? b); [done|] end.
    simpl in Hc. by destruct ((BYTE_LEN_LOW <=? c) && (c <=? BYTE_LEN_HIGH)). }
  remember (S fuel) as f. cbn [decode_dict].
  rewrite (peek_byte_drop bytes 1 c0 (w ++ c :: rest)) by (unfold bytes; simpl; by rewrite Ek).
  cbn [res_bind]. rewrite (proj2 (Z.eqb_neq c0 BEN_END)) by (apply is_digit_not in Hc0; tauto).
  rewrite Hb. cbn [res_bind]. change (0 + 1)%nat with 1%nat. unfold key_out_of_order. simpl bt_last_key. cbv iota. by rewrite Hv.
Qed.

Lemma decode_dict_value_panics_witness :
  BencodeRef_decode (bs "d3:keye") BDecodeOpt_default = Panic /\
  BencodeRef_decode (bs "l3:keyX") BDecodeOpt_default = Err (InvalidByte 6).
Proof.
  split; [|vm_compute; reflexivity].
  apply (decode_dict_value_panics (bs "key") [] 101 BDecodeOpt_default);
    [vm_compute; lia|vm_compute; reflexivity|reflexivity].
Defined.

(** The integer parser takes a sign [+] before any digits, zero padding
    included, although the decoder means to refuse zero padding: the check looks
    only at the first byte. *)
Lemma decode_int_plus_padding (d : list Z) (opts : BDecodeOpt) :
  (1 <= max_recursion opts)%nat -> d <> [] -> Forall is_digit d -> horner 0 d < 2 ^ 63 ->
  exists r, BencodeRef_decode (INT_START :: (ASCII_PLUS :: d) ++ [BEN_END]) opts = Ok r /\
    ref_erase r = MInt (horner 0 d).
Proof.
  intros Hm Hne Hd Hb.
  destruct (BencodeRef_decode_gram opts 0 (INT_START :: (ASCII_PLUS :: d) ++ [BEN_END]) (MInt (horner 0 d)))
    as (r & Hr & Hv & _); [|eauto].
  constructor; [lia|]. by apply IT_plus.
Qed.

Lemma decode_int_plus_padding_witness :
  (exists r, BencodeRef_decode (bs "i+007e") BDecodeOpt_default = Ok r /\ ref_erase r = MInt 7) /\
  BencodeRef_decode (bs "i007e") BDecodeOpt_default = Err (InvalidIntZeroPadding 1).
Proof.
  split; [|vm_compute; reflexivity].
  apply (decode_int_plus_padding (bs "007") BDecodeOpt_default);
    [vm_compute; lia|discriminate| |vm_compute; reflexivity].
  repeat (constructor; [unfold is_digit; vm_compute; split; discriminate|]). constructor.
Defined.
