(* ===== verification/Words.v ===== *)
(** * Big-endian words

    The network byte order shared by the packet formats: the bytes of a word,
    the word of a byte string, and the arithmetic of shifts and masks that the
    sources use to convert between the two.

    Then [f64], on the Standard Library's [SpecFloat]. *)

From Stdlib Require Import SpecFloat.
From S2P Require Import Prelude.

(** ** Shifts, masks and truncation *)

Lemma wrap_div_pow (w n : Z) : 0 <= w -> wrap w n = n - 2 ^ w * (n / 2 ^ w).
Proof. intros. unfold wrap. rewrite Z.mod_eq; lia. Qed.

Lemma in_unsigned_mono (v w n : Z) : 0 <= v <= w -> in_unsigned v n -> in_unsigned w n.
Proof.
  unfold in_unsigned. intros Hw Hn. split; [lia|].
  eapply Z.lt_le_trans; [apply Hn|]. apply Z.pow_le_mono_r; lia.
Qed.

Lemma testbit_above (b k n : Z) : 0 <= k <= n -> in_unsigned k b -> Z.testbit b n = false.
Proof.
  intros Hk Hb. destruct (decide (b = 0)) as [->|]; [apply Z.bits_0|].
  unfold in_unsigned in Hb. apply Z.bits_above_log2; [lia|]. apply Z.log2_lt_pow2; [lia|].
  eapply Z.lt_le_trans; [apply Hb|]. apply Z.pow_le_mono_r; lia.
Qed.

Lemma lor_shiftl_add (a b k : Z) : 0 <= k -> in_unsigned k b ->
  Z.lor (Z.shiftl a k) b = a * 2 ^ k + b.
Proof.
  intros Hk Hb. rewrite Z.shiftl_mul_pow2 by done. symmetry. rewrite Z.add_nocarry_lxor.
  - apply Z.bits_inj'. intros n Hn. rewrite Z.lxor_spec, Z.lor_spec. destruct (decide (n < k)).
    + rewrite Z.mul_pow2_bits_low by lia. by destruct (Z.testbit b n).
    + rewrite (testbit_above b k n) by (done || lia). by destruct (Z.testbit _ n).
  - apply Z.bits_inj'. intros n Hn. rewrite Z.land_spec, Z.bits_0. destruct (decide (n < k)).
    + by rewrite Z.mul_pow2_bits_low by lia.
    + rewrite (testbit_above b k n) by (done || lia). apply andb_false_r.
Qed.

Lemma lor_in_unsigned w a b : 0 <= w -> in_unsigned w a -> in_unsigned w b -> in_unsigned w (Z.lor a b).
Proof.
  intros Hw Ha Hb. assert (H : Z.lor a b = Z.lor a b mod 2 ^ w).
  { rewrite <- Z.land_ones, Z.land_lor_distr_l, !Z.land_ones by lia. by rewrite !Z.mod_small. }
  rewrite H. apply Z.mod_pos_bound. lia.
Qed.

Lemma wrap_shiftr (w n k : Z) : 0 <= w -> 0 <= k ->
  wrap w (Z.shiftr n k) = n / 2 ^ k mod 2 ^ w.
Proof. intros. unfold wrap. by rewrite Z.shiftr_div_pow2. Qed.

Lemma wrap_shiftl_small (w n k m : Z) : 0 <= m -> 0 <= k -> in_unsigned m n -> m + k <= w ->
  wrap w (Z.shiftl n k) = n * 2 ^ k.
Proof.
  intros Hm Hk Hn Hw. rewrite Z.shiftl_mul_pow2 by done. apply wrap_id. unfold in_unsigned in *.
  assert (0 < 2 ^ k) by lia. split; [nia|].
  apply Z.lt_le_trans with (2 ^ m * 2 ^ k); [nia|].
  rewrite <- Z.pow_add_r by lia. apply Z.pow_le_mono_r; lia.
Qed.

(** ** Big-endian byte strings *)

(** The [n] low bytes of [v], most significant first. *)
Fixpoint be_bytes (n : nat) (v : Z) : list Z :=
  match n with
  | O => []
  | S n => be_bytes n (v / 256) ++ [v mod 256]
  end.

(** The word whose bytes are [l]. *)
Definition be_int (l : list Z) : Z := foldl (fun acc b => acc * 256 + b) 0 l.

Lemma length_be_bytes n v : length (be_bytes n v) = n.
Proof. revert v. induction n as [|n IH]; intros v; simpl; [done|]. rewrite length_app, IH. simpl. lia. Qed.

Lemma be_bytes_ok n v : bytes_ok (be_bytes n v).
Proof.
  revert v. induction n as [|n IH]; intros v; simpl; [constructor|].
  apply Forall_app. split; [apply IH|]. repeat constructor; apply Z.mod_pos_bound; lia.
Qed.

Lemma be_int_snoc l b : be_int (l ++ [b]) = be_int l * 256 + b.
Proof. unfold be_int. by rewrite foldl_app. Qed.

Lemma pow_8_S n : 2 ^ (8 * Z.of_nat (S n)) = 256 * 2 ^ (8 * Z.of_nat n).
Proof. rewrite Nat2Z.inj_succ. replace (8 * Z.succ (Z.of_nat n)) with (8 + 8 * Z.of_nat n) by lia.
  by rewrite Z.pow_add_r by lia. Qed.

Lemma be_int_be_bytes n v : be_int (be_bytes n v) = wrap (8 * Z.of_nat n) v.
Proof.
  revert v. induction n as [|n IH]; intros v; simpl be_bytes.
  - unfold wrap. simpl. by rewrite Z.mod_1_r.
  - rewrite be_int_snoc, IH. unfold wrap. rewrite pow_8_S, Z.rem_mul_r; [|lia|apply Z.pow_pos_nonneg; lia].
    rewrite Z.add_comm. f_equal. lia.
Qed.

Lemma be_int_bound l : bytes_ok l -> in_unsigned (8 * Z.of_nat (length l)) (be_int l).
Proof.
  induction l as [|b l IH] using rev_ind; intros Hl.
  - split; [done|]. by vm_compute.
  - apply Forall_app in Hl as [Hl Hb]. inversion Hb as [|? ? Hb' ?]; subst.
    specialize (IH Hl). rewrite be_int_snoc, length_app. simpl length.
    replace (length l + 1)%nat with (S (length l)) by lia. unfold in_unsigned in *.
    rewrite pow_8_S. lia.
Qed.

Lemma be_bytes_be_int l : bytes_ok l -> be_bytes (length l) (be_int l) = l.
Proof.
  induction l as [|b l IH] using rev_ind; intros Hl; [done|].
  apply Forall_app in Hl as [Hl Hb]. inversion Hb as [|? ? Hb' ?]; subst. unfold in_unsigned in Hb'.
  rewrite be_int_snoc, length_app. simpl length. replace (length l + 1)%nat with (S (length l)) by lia.
  simpl be_bytes. rewrite Z.div_add_l by lia. rewrite (Z.div_small b) by lia. rewrite Z.add_0_r, IH by done.
  rewrite Z.add_comm, Z.mod_add by lia. by rewrite (Z.mod_small b) by lia.
Qed.

Lemma be_int_be_bytes_id n v : in_unsigned (8 * Z.of_nat n) v -> be_int (be_bytes n v) = v.
Proof. intros. rewrite be_int_be_bytes. by apply wrap_id. Qed.

Lemma be_bytes_inj n v w : in_unsigned (8 * Z.of_nat n) v -> in_unsigned (8 * Z.of_nat n) w ->
  be_bytes n v = be_bytes n w -> v = w.
Proof. intros Hv Hw H. rewrite <- (be_int_be_bytes_id n v), H by done. by apply be_int_be_bytes_id. Qed.

Lemma be_int_inj l k : bytes_ok l -> bytes_ok k -> length l = length k -> be_int l = be_int k -> l = k.
Proof. intros Hl Hk Hlen H. rewrite <- (be_bytes_be_int l), Hlen, H by done. by apply be_bytes_be_int. Qed.

#[export] Hint Resolve length_be_bytes be_bytes_ok : rust.
#[export] Hint Rewrite length_be_bytes be_int_be_bytes_id using done : rust_rew.

(** * Floating point

    Rust's [f64] is the binary64 format of the Standard Library's executable
    [SpecFloat], with the saturating conversions of [as]. *)

Definition f64 : Type := spec_float.
Definition F64_PREC : Z := 53.
Definition F64_EMAX : Z := 1024.

(** [n as f64] and [to_f64]: round to nearest even. *)
Definition f64_from (n : Z) : f64 := binary_normalize F64_PREC F64_EMAX n 0 false.
Definition f64_add : f64 -> f64 -> f64 := SFadd F64_PREC F64_EMAX.
Definition f64_sub : f64 -> f64 -> f64 := SFsub F64_PREC F64_EMAX.
Definition f64_mul : f64 -> f64 -> f64 := SFmul F64_PREC F64_EMAX.
Definition f64_div : f64 -> f64 -> f64 := SFdiv F64_PREC F64_EMAX.

(** The literals [0.333] and [0.5]. *)
Definition F64_0_333 : f64 := S754_finite false 5998794703657501 (-54).
Definition F64_0_5 : f64 := S754_finite false 4503599627370496 (-53).

(** [f64::ceil]. *)
Definition f64_ceil (x : f64) : f64 :=
  match x with
  | S754_finite s m e =>
      if 0 <=? e then x
      else let c := if s then - (Z.pos m / 2 ^ (- e)) else - (- Z.pos m / 2 ^ (- e)) in
           if c =? 0 then S754_zero s else f64_from c
  | _ => x
  end.

Definition clamp (lo hi n : Z) : Z := Z.max lo (Z.min hi n).

(** [x as T] for the integer type with the given bounds: truncation towards zero,
    saturation, and zero for NaN. *)
Definition f64_as (lo hi : Z) (x : f64) : Z :=
  match x with
  | S754_zero _ | S754_nan => 0
  | S754_infinity s => if s then lo else hi
  | S754_finite s m e =>
      let magnitude := if 0 <=? e then Z.pos m * 2 ^ e else Z.pos m / 2 ^ (- e) in
      clamp lo hi (if s then - magnitude else magnitude)
  end.

Definition f64_as_u32 : f64 -> Z := f64_as 0 (2 ^ 32 - 1).
Definition f64_as_i64 : f64 -> Z := f64_as (- 2 ^ 63) (2 ^ 63 - 1).
Definition f64_as_u64 : f64 -> Z := f64_as 0 (2 ^ 64 - 1).

Lemma f64_as_bounds lo hi x : lo <= 0 <= hi -> lo <= f64_as lo hi x <= hi.
Proof. intros H. unfold f64_as, clamp. destruct x as [|[]| |]; lia. Qed.

Example ceil_samples : map (fun n => f64_as_u64 (f64_ceil (f64_div (f64_from n) (f64_from 4)))) [0; 1; 4; 5; 8; 9] = [0; 1; 1; 2; 2; 3].
Proof. vm_compute. reflexivity. Qed.
