(* ===== verification/UtilSha.v ===== *)
(** * Hashes and their bits

    Model of [util/sha/mod.rs], [util/sha/builder.rs], [util/bt.rs] and
    [util/error.rs]: the twenty-byte [ShaHash], construction, comparison with a
    slice, exclusive or, and the bit iterator. The SHA-1 digest itself is code of
    the [crypto] crate and is a parameter. *)

From stdpp Require Import countable.
From S2P Require Import Prelude RustStd.

(** ** Length errors ([util/error.rs]) *)

Inductive LengthErrorKind : Type :=
| LengthExceeded
| LengthExpected
| LengthMultipleExpected.

Record LengthError : Type := mkLengthError {
  le_kind : LengthErrorKind;
  le_length : nat;
  le_index : option nat
}.

Definition LengthError_new (kind : LengthErrorKind) (length : nat) : LengthError :=
  mkLengthError kind length None.
Definition LengthError_with_index (kind : LengthErrorKind) (length index : nat) : LengthError :=
  mkLengthError kind length (Some index).

(** ** [ShaHash] *)

Definition SHA_HASH_LEN : nat := 20.

(** The array [hash : [u8; SHA_HASH_LEN]]; [NodeId], [PeerId] and [InfoHash] are aliases. *)
Record ShaHash : Type := mkShaHash { sha_bytes : list Z }.

(** The type invariant of the array. *)
Definition sha_ok (h : ShaHash) : Prop :=
  length (sha_bytes h) = SHA_HASH_LEN /\ bytes_ok (sha_bytes h).

#[export] Instance ShaHash_eq_dec : EqDecision ShaHash.
Proof. solve_decision. Defined.
#[export] Instance ShaHash_countable : Countable ShaHash.
Proof. by refine (inj_countable' sha_bytes mkShaHash _); intros []. Defined.

(** [dst.iter_mut().zip(src)] copying element by element. *)
Fixpoint zip_copy (dst src : list Z) : list Z :=
  match dst, src with
  | _ :: dst, s :: src => s :: zip_copy dst src
  | dst, _ => dst
  end.

Definition ShaHash_from_hash (hash : list Z) : res LengthError ShaHash :=
  if negb (length hash =? SHA_HASH_LEN)%nat
  then Err (LengthError_new LengthExpected SHA_HASH_LEN)
  else Ok (mkShaHash (zip_copy (replicate SHA_HASH_LEN 0) hash)).

(** [ShaHashBuilder::new().add_bytes(bytes).build()], for the digest function [sha1]. *)
Definition ShaHash_from_bytes (sha1 : list Z -> list Z) (bytes : list Z) : ShaHash :=
  mkShaHash (zip_copy (replicate SHA_HASH_LEN 0) (sha1 bytes)).

(** [PartialEq<[u8]>]: the length test folded with the comparison of the common prefix. *)
Definition ShaHash_eq_slice (h : ShaHash) (other : list Z) : bool :=
  fold_left (fun prev ho => prev && (fst ho =? snd ho)) (zip (sha_bytes h) other)
    (length other =? length (sha_bytes h))%nat.

(** [BitXor]: every byte of [self] replaced by its exclusive or with that of [rhs]. *)
Definition ShaHash_bitxor (self rhs : ShaHash) : ShaHash :=
  mkShaHash (zip_with Z.lxor (sha_bytes rhs) (sha_bytes self)).

(** ** Bit iterator *)

Inductive XorRep : Type := Diff | Same.
Inductive BitRep : Type := BitSet | BitUnset.

(** [PartialEq<XorRep> for BitRep]. *)
Definition BitRep_eq_xor (b : BitRep) (x : XorRep) : bool :=
  match b, x with
  | BitSet, Diff => true
  | BitUnset, Same => true
  | _, _ => false
  end.

Record Bits : Type := mkBits { bits_bytes : list Z; bit_pos : nat }.

Definition ShaHash_bits (h : ShaHash) : Bits := mkBits (sha_bytes h) 0.

(** [Bits::next]: the byte shifted right, compared with one. *)
Definition Bits_next (s : Bits) : res unit (option (BitRep * Bits)) :=
  if (bit_pos s <? length (bits_bytes s) * 8)%nat then
    let byte_index := (bit_pos s / 8)%nat in
    let bit_offset := (7 - bit_pos s mod 8)%nat in
    let? byte := or_panic (bits_bytes s !! byte_index) in
    let bit_value := Z.shiftr byte (Z.of_nat bit_offset) in
    Ok (Some (if bit_value =? 1 then BitSet else BitUnset, mkBits (bits_bytes s) (bit_pos s + 1)))
  else Ok None.

(** [bits.take_while(|&x| x == XorRep::Same).count()]. *)
Fixpoint count_same (fuel : nat) (s : Bits) : res unit nat :=
  match fuel with
  | O => OutOfFuel
  | S fuel =>
      let? o := Bits_next s in
      match o with
      | Some (b, s') =>
          if BitRep_eq_xor b Same then let? n := count_same fuel s' in Ok (S n) else Ok 0%nat
      | None => Ok 0%nat
      end
  end.

(** [dht/routing/table.rs], [leading_bit_count]. *)
Definition leading_bit_count (local_node remote_node : ShaHash) : res unit nat :=
  let diff_id := ShaHash_bitxor local_node remote_node in
  count_same (length (sha_bytes diff_id) * 8 + 1) (ShaHash_bits diff_id).

(** ** Reference: the bits of a hash, most significant first *)

Definition byte_bits (b : Z) : list bool :=
  map (fun k => Z.testbit b (Z.of_nat (7 - k))) (seq 0 8).
Definition bytes_bits (l : list Z) : list bool := concat (map byte_bits l).

(** The length of the common prefix of two bit strings. *)
Fixpoint common_prefix (a b : list bool) : nat :=
  match a, b with
  | x :: a, y :: b => if eqb x y then S (common_prefix a b) else 0
  | _, _ => 0
  end.

(** ** Facts *)

Lemma zip_copy_full dst src : length src = length dst -> zip_copy dst src = src.
Proof.
  revert src; induction dst as [|d dst IH]; intros [|s src]; simpl; try done.
  intros [= H]. by rewrite IH.
Qed.

Lemma length_zip_copy dst src : length (zip_copy dst src) = length dst.
Proof. revert src. induction dst as [|d dst IH]; intros [|s src]; cbn; auto. Qed.

Lemma ShaHash_from_hash_ok hash h : ShaHash_from_hash hash = Ok h <->
  length hash = SHA_HASH_LEN /\ h = mkShaHash hash.
Proof.
  unfold ShaHash_from_hash. destruct (Nat.eqb_spec (length hash) SHA_HASH_LEN) as [E|E]; cbn [negb].
  - rewrite zip_copy_full by (by rewrite length_replicate). split; [intros H; injection H as <-; auto|by intros [_ ->]].
  - split; [done|by intros []].
Qed.

Lemma lxor_u8 x y : is_u8 x -> is_u8 y -> is_u8 (Z.lxor x y).
Proof.
  unfold in_unsigned. intros Hx Hy. split; [apply Z.lxor_nonneg; lia|].
  destruct (Z.eq_dec (Z.lxor x y) 0) as [->|Hz]; [lia|].
  assert (0 <= Z.lxor x y) by (apply Z.lxor_nonneg; lia).
  apply Z.log2_lt_pow2; [lia|]. eapply Z.le_lt_trans; [apply Z.log2_lxor; lia|].
  apply Z.max_lub_lt.
  - destruct (Z.eq_dec x 0) as [->|]; [done|]. apply Z.log2_lt_pow2; lia.
  - destruct (Z.eq_dec y 0) as [->|]; [done|]. apply Z.log2_lt_pow2; lia.
Qed.

Lemma bitxor_ok a b : sha_ok a -> sha_ok b -> sha_ok (ShaHash_bitxor a b).
Proof.
  intros [La Ha] [Lb Hb]. unfold sha_ok, ShaHash_bitxor, bytes_ok in *. simpl.
  rewrite length_zip_with, La, Lb. split; [done|]. clear La Lb.
  revert Ha; generalize (sha_bytes a) as l. induction Hb as [|x m Hx Hm IH]; intros [|y l] Hl;
    simpl; try constructor; inversion Hl; subst; [|by apply IH].
  by apply lxor_u8.
Qed.

(** For one byte: the first position at which the shifted byte is one is the
    first set bit. Checked on all 256 bytes. *)
Lemma byte_first_set b : is_u8 b ->
  position (fun k => Z.shiftr b (Z.of_nat (7 - k)) =? 1) (seq 0 8) =
  position (fun k => Z.testbit b (Z.of_nat (7 - k))) (seq 0 8).
Proof.
  intros Hb.
  assert (Hall : forallb (fun n => bool_decide (
    position (fun k => Z.shiftr (Z.of_nat n) (Z.of_nat (7 - k)) =? 1) (seq 0 8) =
    position (fun k => Z.testbit (Z.of_nat n) (Z.of_nat (7 - k))) (seq 0 8))) (seq 0 256) = true)
    by (vm_compute; reflexivity).
  rewrite forallb_forall in Hall. specialize (Hall (Z.to_nat b)).
  rewrite bool_decide_eq_true, Z2Nat.id in Hall by (unfold in_unsigned in Hb; lia).
  apply Hall, in_seq. unfold in_unsigned in Hb. lia.
Qed.

Lemma Bits_next_at l i k b : l !! i = Some b -> (k < 8)%nat ->
  Bits_next (mkBits l (i * 8 + k)) =
  Ok (Some (if Z.shiftr b (Z.of_nat (7 - k)) =? 1 then BitSet else BitUnset, mkBits l (i * 8 + k + 1))).
Proof.
  intros Hi Hk. assert (Hl := lookup_lt_Some _ _ _ Hi). unfold Bits_next. cbn [bits_bytes bit_pos].
  destruct (Nat.ltb_spec (i * 8 + k) (length l * 8)); [|lia].
  replace ((i * 8 + k) / 8)%nat with i by (symmetry; rewrite Nat.add_comm, Nat.div_add, Nat.div_small; lia).
  replace ((i * 8 + k) mod 8)%nat with k by (rewrite Nat.add_comm, Nat.Div0.mod_add, Nat.mod_small; lia).
  by rewrite Hi.
Qed.

(** The rest of a byte: the count stops at the first set bit, or goes on with
    the next byte. *)
Lemma count_same_byte l i b f m : l !! i = Some b -> (m <= 8)%nat ->
  count_same (m + f) (mkBits l (i * 8 + (8 - m))) =
  match position (fun k => Z.shiftr b (Z.of_nat (7 - k)) =? 1) (seq (8 - m) m) with
  | Some j => Ok j
  | None => let? n := count_same f (mkBits l (S i * 8)) in Ok (m + n)%nat
  end.
Proof.
  intros Hi. induction m as [|m IH]; intros Hm.
  - simpl. replace (i * 8 + 8)%nat with (S i * 8)%nat by lia. by destruct (count_same f _).
  - cbn [Nat.add count_same]. rewrite (Bits_next_at l i (8 - S m) b Hi) by lia. cbn [res_bind seq position].
    destruct (Z.shiftr b _ =? 1); [done|]. cbn [BitRep_eq_xor].
    replace (i * 8 + (8 - S m) + 1)%nat with (i * 8 + (8 - m))%nat by lia.
    rewrite IH by lia. replace (S (8 - S m)) with (8 - m)%nat by lia.
    destruct (position _ (seq (8 - m) m)); simpl; [done|]. by destruct (count_same f _).
Qed.

(** The number of leading unset bits. *)
Fixpoint leading_false (l : list bool) : nat :=
  match l with
  | false :: l => S (leading_false l)
  | _ => 0
  end.

Lemma leading_false_position l : leading_false l = default (length l) (position id l).
Proof. induction l as [|[] l IH]; simpl; [done..|]. rewrite IH. by destruct (position id l). Qed.

Lemma position_map {A B} (f : A -> B) p l : position p (map f l) = position (p ∘ f) l.
Proof. induction l; simpl; [done|]. rewrite IHl. done. Qed.

Lemma position_app {A} (p : A -> bool) l k :
  position p (l ++ k) = match position p l with Some i => Some i | None => Nat.add (length l) <$> position p k end.
Proof.
  induction l as [|x l IH]; simpl; [by destruct (position p k)|]. destruct (p x); [done|].
  rewrite IH. destruct (position p l); simpl; [done|]. by destruct (position p k).
Qed.

Lemma position_byte_bits b :
  position id (byte_bits b) = position (fun k => Z.testbit b (Z.of_nat (7 - k))) (seq 0 8).
Proof. unfold byte_bits. by rewrite position_map. Qed.

Lemma length_byte_bits b : length (byte_bits b) = 8%nat.
Proof. reflexivity. Qed.

Lemma count_same_leading l i : bytes_ok l -> (i <= length l)%nat ->
  count_same ((length l - i) * 8 + 1) (mkBits l (i * 8)) = Ok (leading_false (bytes_bits (drop i l))).
Proof.
  intros Hl Hi. remember (length l - i)%nat as n eqn:Hn. revert i Hi Hn.
  induction n as [|n IH]; intros i Hi Hn.
  - rewrite drop_ge by lia. simpl. unfold Bits_next. simpl.
    destruct (Nat.ltb_spec (i * 8) (length l * 8)); [lia|done].
  - destruct (lookup_lt_is_Some_2 l i) as [b Hb]; [lia|].
    replace (S n * 8 + 1)%nat with (8 + (n * 8 + 1))%nat by lia.
    assert (Hc := count_same_byte l i b (n * 8 + 1) 8 Hb ltac:(lia)).
    change (8 - 8)%nat with 0%nat in Hc. rewrite Nat.add_0_r in Hc. rewrite Hc.
    rewrite byte_first_set by (by eapply Forall_lookup_1).
    rewrite (lookup_drop_cons _ _ _ Hb). unfold bytes_bits. cbn [map concat].
    rewrite leading_false_position, position_app, length_app.
    rewrite position_byte_bits, length_byte_bits.
    clear Hc. destruct (position (fun k => Z.testbit b (Z.of_nat (7 - k))) (seq 0 8)) as [j|]; [done|].
    rewrite (IH (S i)) by lia.
    simpl res_bind. rewrite leading_false_position. unfold bytes_bits.
    by destruct (position id _).
Qed.

Lemma byte_bits_lxor x y : byte_bits (Z.lxor x y) = zip_with xorb (byte_bits x) (byte_bits y).
Proof. unfold byte_bits. cbn [seq map zip_with]. by rewrite !Z.lxor_spec. Qed.

Lemma bytes_bits_lxor l m : length l = length m ->
  bytes_bits (zip_with Z.lxor l m) = zip_with xorb (bytes_bits l) (bytes_bits m).
Proof.
  revert m; induction l as [|x l IH]; intros [|y m] H; try done. injection H as H.
  unfold bytes_bits in *. cbn [zip_with map concat]. rewrite IH, byte_bits_lxor by done.
  by rewrite zip_with_app.
Qed.

Lemma leading_false_xorb a b : leading_false (zip_with xorb a b) = common_prefix a b.
Proof. revert b; induction a as [|x a IH]; intros [|y b]; simpl; try done. rewrite <- IH. by destruct x, y. Qed.

Lemma common_prefix_comm a b : common_prefix a b = common_prefix b a.
Proof. revert b; induction a as [|x a IH]; intros [|y b]; simpl; try done. rewrite IH. by destruct x, y. Qed.

Lemma leading_bit_count_prefix a b : sha_ok a -> sha_ok b ->
  leading_bit_count a b = Ok (common_prefix (bytes_bits (sha_bytes a)) (bytes_bits (sha_bytes b))).
Proof.
  intros Ha Hb. destruct (bitxor_ok a b Ha Hb) as [Hl Hk]. unfold leading_bit_count, ShaHash_bits.
  pose proof (count_same_leading _ 0 Hk ltac:(lia)) as Hc. rewrite Nat.sub_0_r in Hc. simpl Nat.mul in Hc at 2.
  rewrite Hc, drop_0. unfold ShaHash_bitxor. simpl. f_equal.
  rewrite (bytes_bits_lxor (sha_bytes b) (sha_bytes a)) by (destruct Ha, Hb; congruence).
  by rewrite leading_false_xorb, common_prefix_comm.
Qed.

Lemma common_prefix_le a b : (common_prefix a b <= length a)%nat.
Proof.
  revert b; induction a as [|x a IH]; intros [|y b]; simpl; try lia.
  destruct (eqb x y); [|lia]. specialize (IH b). lia.
Qed.

Lemma common_prefix_full a b : length a = length b ->
  common_prefix a b = length a <-> a = b.
Proof.
  revert b; induction a as [|x a IH]; intros [|y b]; simpl; try done. intros [= H].
  destruct (eqb_spec x y) as [->|Hne]; [|by split; [|intros [= ->]]].
  split; [intros [= Hc]; f_equal; by apply IH|intros [= ->]; f_equal; by apply IH].
Qed.

Lemma length_bytes_bits l : length (bytes_bits l) = (length l * 8)%nat.
Proof. induction l as [|x l IH]; [done|]. unfold bytes_bits in *. simpl. by rewrite IH. Qed.

Lemma byte_bits_inj x y : is_u8 x -> is_u8 y -> byte_bits x = byte_bits y -> x = y.
Proof.
  unfold in_unsigned. intros Hx Hy H. unfold byte_bits in H. cbn [seq map] in H. injection H as H7 H6 H5 H4 H3 H2 H1 H0.
  apply Z.bits_inj'. intros n Hn. destruct (Z.lt_ge_cases n 8) as [Hlt|Hge].
  - assert (n = 0 \/ n = 1 \/ n = 2 \/ n = 3 \/ n = 4 \/ n = 5 \/ n = 6 \/ n = 7) as Hc by lia.
    destruct_or! Hc; subst n; assumption.
  - rewrite <- (Z.mod_small x (2 ^ 8)), <- (Z.mod_small y (2 ^ 8)) by lia.
    by rewrite !Z.mod_pow2_bits_high by lia.
Qed.

Lemma bytes_bits_inj l m : bytes_ok l -> bytes_ok m -> length l = length m ->
  bytes_bits l = bytes_bits m -> l = m.
Proof.
  intros Hl. revert m; induction Hl as [|x l Hx Hl IH]; intros [|y m] Hm Hlen H; try done.
  inversion Hm; subst. injection Hlen as Hlen. unfold bytes_bits in H. cbn [map concat] in H.
  apply app_inj_1 in H as [Hb Hr]; [|done]. f_equal; [by apply byte_bits_inj|by apply IH].
Qed.

(** ** Properties *)

(** [leading_bit_count] is the length of the common bit prefix of the two
    ids, most significant bit first, it never panics, and it is 160 exactly for
    equal ids. *)
Lemma leading_bit_count_spec (a b : ShaHash) : sha_ok a -> sha_ok b ->
  exists n, leading_bit_count a b = Ok n /\ (n <= SHA_HASH_LEN * 8)%nat /\
    n = common_prefix (bytes_bits (sha_bytes a)) (bytes_bits (sha_bytes b)) /\
    (n = SHA_HASH_LEN * 8 <-> a = b)%nat.
Proof.
  intros Ha Hb. eexists. split; [by apply leading_bit_count_prefix|].
  destruct a as [a], b as [b], Ha as [La Ha], Hb as [Lb Hb]. cbn [sha_bytes] in *.
  assert (Hlen : length (bytes_bits a) = (SHA_HASH_LEN * 8)%nat) by (by rewrite length_bytes_bits, La).
  split; [rewrite <- Hlen; apply common_prefix_le|]. split; [done|]. rewrite <- Hlen.
  rewrite common_prefix_full by (by rewrite !length_bytes_bits, La, Lb).
  split; [|by intros [= ->]]. intros H. f_equal. apply bytes_bits_inj; auto. congruence.
Qed.

Lemma leading_bit_count_spec_witness :
  let a := mkShaHash (replicate 20 0) in
  let b := mkShaHash (0 :: 31 :: replicate 18 255) in
  exists n, leading_bit_count a b = Ok n /\ (n <= SHA_HASH_LEN * 8)%nat /\
    n = common_prefix (bytes_bits (sha_bytes a)) (bytes_bits (sha_bytes b)) /\
    (n = SHA_HASH_LEN * 8 <-> a = b)%nat.
Proof.
  apply leading_bit_count_spec; (split; [reflexivity|]);
    apply (bool_decide_unpack _); vm_compute; exact I.
Defined.

(** The iterator does not enumerate the bits of a hash: the byte is shifted
    but not masked, so the only bit of a byte it reports as set is the most
    significant set one. *)
Lemma Bits_next_reports_top_bit (l : list Z) (i k : nat) (b : Z) :
  l !! i = Some b -> is_u8 b -> (k < 8)%nat ->
  exists r, Bits_next (mkBits l (i * 8 + k)) = Ok (Some (r, mkBits l (i * 8 + k + 1))) /\
    (r = BitSet <-> b <> 0 /\ Z.log2 b = Z.of_nat (7 - k)).
Proof.
  intros Hi Hb Hk. eexists. split; [by apply Bits_next_at|]. unfold in_unsigned in Hb.
  assert (Hs : Z.shiftr b (Z.of_nat (7 - k)) = 1 <-> b <> 0 /\ Z.log2 b = Z.of_nat (7 - k)).
  { rewrite Z.shiftr_div_pow2 by lia. set (p := Z.of_nat (7 - k)).
    assert (0 < 2 ^ p) by (apply Z.pow_pos_nonneg; lia). split.
    - intros Hd. assert (Hn : 2 ^ p <= b < 2 ^ (Z.succ p)).
      { rewrite Z.pow_succ_r by lia. Z.div_mod_to_equations. nia. }
      split; [lia|]. by apply Z.log2_unique; [lia|].
    - intros [Hz Hlog]. destruct (Z.log2_spec b ltac:(lia)) as [H1 H2]. rewrite Hlog in H1, H2.
      rewrite Z.pow_succ_r in H2 by lia.
      symmetry. apply (Z.div_unique _ _ _ (b - 2 ^ p)); lia. }
  rewrite <- Hs. destruct (Z.eqb_spec (Z.shiftr b (Z.of_nat (7 - k))) 1); split; done.
Qed.

Lemma Bits_next_reports_top_bit_witness :
  exists r, Bits_next (mkBits [255] 1) = Ok (Some (r, mkBits [255] 2)) /\
    (r = BitSet <-> 255 <> 0 /\ Z.log2 255 = Z.of_nat (7 - 1)).
Proof.
  apply (Bits_next_reports_top_bit [255] 0 1 255);
    [reflexivity|unfold in_unsigned; lia|lia].
Defined.
