(* ===== verification/UtilConvert.v ===== *)
(** * Addresses and their compact byte form

    Model of [util/convert.rs] and [util/net.rs]: socket addresses of the standard
    library and the conversions between them and big-endian byte arrays, written
    with the shifts and loops of the source. A fixed-size array [[u8; n]] is a list
    of length [n]; [!!!] is its indexing, used below [n] only. *)

From stdpp Require Import countable.
From S2P Require Import Prelude Words.

(** ** Addresses of the standard library *)

Record Ipv4Addr : Type := Ipv4Addr_new { octet_a : Z; octet_b : Z; octet_c : Z; octet_d : Z }.

(** The eight 16-bit segments. *)
Record Ipv6Addr : Type := mkIpv6Addr { segments : list Z }.

Record SocketAddrV4 : Type := SocketAddrV4_new { v4_ip : Ipv4Addr; v4_port : Z }.
Record SocketAddrV6 : Type := SocketAddrV6_new {
  v6_ip : Ipv6Addr; v6_port : Z; flowinfo : Z; scope_id : Z }.

Inductive SocketAddr : Type :=
| V4 (a : SocketAddrV4)
| V6 (a : SocketAddrV6).

#[export] Instance Ipv4Addr_eq_dec : EqDecision Ipv4Addr.
Proof. solve_decision. Defined.
#[export] Instance Ipv6Addr_eq_dec : EqDecision Ipv6Addr.
Proof. solve_decision. Defined.
#[export] Instance SocketAddrV4_eq_dec : EqDecision SocketAddrV4.
Proof. solve_decision. Defined.
#[export] Instance SocketAddrV6_eq_dec : EqDecision SocketAddrV6.
Proof. solve_decision. Defined.
#[export] Instance SocketAddr_eq_dec : EqDecision SocketAddr.
Proof. solve_decision. Defined.

(** Addresses as the keys of a map. *)
#[export] Instance Ipv4Addr_countable : Countable Ipv4Addr.
Proof.
  refine (inj_countable' (fun a => (octet_a a, octet_b a, octet_c a, octet_d a)) (fun '(a, b, c, d) => Ipv4Addr_new a b c d) _).
  by intros [].
Defined.
#[export] Instance Ipv6Addr_countable : Countable Ipv6Addr.
Proof. refine (inj_countable' segments mkIpv6Addr _). by intros []. Defined.
#[export] Instance SocketAddrV4_countable : Countable SocketAddrV4.
Proof. refine (inj_countable' (fun a => (v4_ip a, v4_port a)) (fun '(i, p) => SocketAddrV4_new i p) _). by intros []. Defined.
#[export] Instance SocketAddrV6_countable : Countable SocketAddrV6.
Proof.
  refine (inj_countable' (fun a => (v6_ip a, v6_port a, flowinfo a, scope_id a)) (fun '(i, p, f, s) => SocketAddrV6_new i p f s) _).
  by intros [].
Defined.
#[export] Instance SocketAddr_countable : Countable SocketAddr.
Proof.
  refine (inj_countable' (fun a => match a with V4 a => inl a | V6 a => inr a end)
    (fun s => match s with inl a => V4 a | inr a => V6 a end) _).
  by intros [].
Defined.

(** Type invariants: every field has its machine width. *)
Definition ipv4_ok (a : Ipv4Addr) : Prop :=
  is_u8 (octet_a a) /\ is_u8 (octet_b a) /\ is_u8 (octet_c a) /\ is_u8 (octet_d a).
Definition ipv6_ok (a : Ipv6Addr) : Prop := length (segments a) = 8%nat /\ Forall is_u16 (segments a).
Definition sock_v4_ok (s : SocketAddrV4) : Prop := ipv4_ok (v4_ip s) /\ is_u16 (v4_port s).
Definition sock_v6_ok (s : SocketAddrV6) : Prop :=
  ipv6_ok (v6_ip s) /\ is_u16 (v6_port s) /\ is_u32 (flowinfo s) /\ is_u32 (scope_id s).
Definition sock_ok (s : SocketAddr) : Prop :=
  match s with V4 a => sock_v4_ok a | V6 a => sock_v6_ok a end.

(** ** [util/net.rs] *)

Inductive IpAddr : Type :=
| IpV4 (a : Ipv4Addr)
| IpV6 (a : Ipv6Addr).

#[export] Instance IpAddr_eq_dec : EqDecision IpAddr.
Proof. solve_decision. Defined.

Definition IpAddr_from_socket_addr (sock_addr : SocketAddr) : IpAddr :=
  match sock_addr with
  | V4 v4_sock_addr => IpV4 (v4_ip v4_sock_addr)
  | V6 v6_sock_addr => IpV6 (v6_ip v6_sock_addr)
  end.

Definition default_route_v4 : SocketAddr := V4 (SocketAddrV4_new (Ipv4Addr_new 0 0 0 0) 0).

(** ** Words to arrays *)

Definition eight_bytes_to_array (bytes : Z) : list Z :=
  [as_u8 (Z.shiftr bytes 56); as_u8 (Z.shiftr bytes 48); as_u8 (Z.shiftr bytes 40);
   as_u8 (Z.shiftr bytes 32); as_u8 (Z.shiftr bytes 24); as_u8 (Z.shiftr bytes 16);
   as_u8 (Z.shiftr bytes 8); as_u8 bytes].

Definition four_bytes_to_array (bytes : Z) : list Z :=
  let eight_bytes := eight_bytes_to_array bytes in
  [eight_bytes !!! 4%nat; eight_bytes !!! 5%nat; eight_bytes !!! 6%nat; eight_bytes !!! 7%nat].

(** ** Addresses to arrays *)

Definition ipv4_to_bytes_be (a : Ipv4Addr) : list Z := [octet_a a; octet_b a; octet_c a; octet_d a].

Definition ipv6_to_bytes_be (a : Ipv6Addr) : list Z :=
  foldl (fun bytes index =>
      let segment_index := (index / 2)%nat in
      let segment_byte_index := (index mod 2)%nat in
      let byte_shift_bits := (8 - segment_byte_index * 8)%nat in
      let byte := as_u8 (Z.shiftr (segments a !!! segment_index) (Z.of_nat byte_shift_bits)) in
      <[index := byte]> bytes)
    (replicate 16 0) (seq 0 16).

Definition port_to_bytes_be (port : Z) : list Z := [as_u8 (Z.shiftr port 8); as_u8 (Z.shiftr port 0)].

(** [for (src, dst) in srcs.zip(dsts.iter_mut()) { *dst = *src }]. *)
Fixpoint copy_into (src dst : list Z) : list Z :=
  match src, dst with
  | s :: src, _ :: dst => s :: copy_into src dst
  | _, dst => dst
  end.

Definition sock_v4_to_bytes_be (v4_sock : SocketAddrV4) : list Z :=
  copy_into (ipv4_to_bytes_be (v4_ip v4_sock) ++ port_to_bytes_be (v4_port v4_sock)) (replicate 6 0).

Definition sock_v6_to_bytes_be (v6_sock : SocketAddrV6) : list Z :=
  copy_into (ipv6_to_bytes_be (v6_ip v6_sock) ++ port_to_bytes_be (v6_port v6_sock)) (replicate 18 0).

(** ** Arrays to addresses *)

Definition bytes_be_to_ipv4 (bytes : list Z) : Ipv4Addr :=
  Ipv4Addr_new (bytes !!! 0%nat) (bytes !!! 1%nat) (bytes !!! 2%nat) (bytes !!! 3%nat).

Definition bytes_be_to_ipv6 (bytes : list Z) : Ipv6Addr :=
  let combined_bytes :=
    foldl (fun combined '(index, value) =>
        let combined_index := (index / 2)%nat in
        let should_shift := (index mod 2 =? 0)%nat in
        let adjusted_value := if should_shift then as_u16 (Z.shiftl value 8) else value in
        <[combined_index := Z.lor (combined !!! combined_index) adjusted_value]> combined)
      (replicate 8 0) (zip (seq 0 (length bytes)) bytes) in
  mkIpv6Addr (map (fun i => combined_bytes !!! i) (seq 0 8)).

Definition bytes_be_to_port (bytes : list Z) : Z :=
  let high_byte := bytes !!! 0%nat in
  let low_byte := bytes !!! 1%nat in
  Z.lor (as_u16 (Z.shiftl high_byte 8)) low_byte.

Definition bytes_be_to_sock_v4 (bytes : list Z) : SocketAddrV4 :=
  let ip_bytes := [bytes !!! 0%nat; bytes !!! 1%nat; bytes !!! 2%nat; bytes !!! 3%nat] in
  let port_bytes := [bytes !!! 4%nat; bytes !!! 5%nat] in
  SocketAddrV4_new (bytes_be_to_ipv4 ip_bytes) (bytes_be_to_port port_bytes).

Definition bytes_be_to_sock_v6 (bytes : list Z) : SocketAddrV6 :=
  let port_bytes := [bytes !!! 16%nat; bytes !!! 17%nat] in
  let ip_bytes := copy_into (take 16 bytes) (replicate 16 0) in
  SocketAddrV6_new (bytes_be_to_ipv6 ip_bytes) (bytes_be_to_port port_bytes) 0 0.

(** ** Facts *)

Lemma length_0_nil {A} (l : list A) : length l = 0%nat -> l = [].
Proof. by destruct l. Qed.

Lemma length_S_cons {A} (l : list A) n : length l = S n -> exists x l', l = x :: l' /\ length l' = n.
Proof. destruct l; [done|]. intros [= H]. eauto. Qed.

(** Destruct a list of known length into its elements. *)
Ltac destruct_length H :=
  repeat (apply length_S_cons in H; let x := fresh "x" in destruct H as (x & ? & -> & H));
  apply length_0_nil in H; subst.

Lemma four_bytes_to_array_be v : four_bytes_to_array v = be_bytes 4 v.
Proof.
  unfold four_bytes_to_array, eight_bytes_to_array. cbn [lookup_total list_lookup_total be_bytes app].
  rewrite !wrap_shiftr by lia. unfold wrap. rewrite !Z.div_div by lia. done.
Qed.

Lemma eight_bytes_to_array_be v : eight_bytes_to_array v = be_bytes 8 v.
Proof.
  unfold eight_bytes_to_array. cbn [be_bytes app].
  rewrite !wrap_shiftr by lia. unfold wrap. rewrite !Z.div_div by lia. done.
Qed.

Lemma port_to_bytes_be_be v : port_to_bytes_be v = be_bytes 2 v.
Proof. unfold port_to_bytes_be. cbn [be_bytes app]. rewrite !wrap_shiftr by lia. by rewrite Z.div_1_r. Qed.

Lemma join_bytes h l : is_u8 h -> is_u8 l -> Z.lor (as_u16 (Z.shiftl h 8)) l = be_int [h; l].
Proof.
  intros Hh Hl. rewrite (wrap_shiftl_small 16 h 8 8) by (done || lia).
  rewrite <- Z.shiftl_mul_pow2, lor_shiftl_add by (done || lia). unfold be_int. cbn [foldl]. lia.
Qed.

Lemma bytes_be_to_port_be h l : is_u8 h -> is_u8 l -> bytes_be_to_port [h; l] = be_int [h; l].
Proof. apply join_bytes. Qed.

Lemma copy_into_full src dst : length src = length dst -> copy_into src dst = src.
Proof. revert dst. induction src as [|s src IH]; intros [|d dst] H; simpl in *; try done. f_equal. auto. Qed.

Lemma ipv6_to_bytes_be_be a : length (segments a) = 8%nat ->
  ipv6_to_bytes_be a = concat (map (be_bytes 2) (segments a)).
Proof.
  destruct a as [s]. cbn [segments]. intros H. destruct_length H.
  unfold ipv6_to_bytes_be. cbn -[wrap Z.shiftr Z.modulo Z.div].
  rewrite !wrap_shiftr by lia. change (Z.of_nat 0) with 0. change (Z.of_nat 8) with 8.
  by rewrite !Z.div_1_r.
Qed.

Lemma Forall_pair_u8 a b : is_u8 a -> is_u8 b -> bytes_ok [a; b].
Proof. intros. apply Forall_cons. split; [done|]. apply Forall_cons. split; [done|constructor]. Qed.

Lemma bytes_be_to_ipv6_be bytes : length bytes = 16%nat -> bytes_ok bytes ->
  exists s, bytes_be_to_ipv6 bytes = mkIpv6Addr s /\ length s = 8%nat /\ Forall is_u16 s /\
    concat (map (be_bytes 2) s) = bytes.
Proof.
  intros H Hb. destruct_length H. unfold bytes_ok in Hb. repeat rewrite Forall_cons in Hb. destruct_ex.
  unfold bytes_be_to_ipv6. eexists. split; [cbn -[wrap Z.shiftl Z.lor]; reflexivity|].
  rewrite !Z.lor_0_l. rewrite !join_bytes by done. split; [done|]. split.
  - repeat (apply Forall_cons; split; [apply (be_int_bound [_; _]); by apply Forall_pair_u8|]). constructor.
  - cbn [map concat]. repeat (rewrite (be_bytes_be_int [_; _]) by (by apply Forall_pair_u8)). done.
Qed.

Lemma sock_v4_bytes a b c d h l : bytes_ok [a; b; c; d; h; l] ->
  bytes_be_to_sock_v4 [a; b; c; d; h; l] = SocketAddrV4_new (Ipv4Addr_new a b c d) (be_int [h; l]).
Proof.
  intros Hb. unfold bytes_ok in Hb. repeat rewrite Forall_cons in Hb. destruct_ex.
  unfold bytes_be_to_sock_v4. cbn [lookup_total list_lookup_total]. by rewrite bytes_be_to_port_be.
Qed.

Lemma sock_v4_to_bytes_be_app s :
  sock_v4_to_bytes_be s = ipv4_to_bytes_be (v4_ip s) ++ be_bytes 2 (v4_port s).
Proof. unfold sock_v4_to_bytes_be. rewrite port_to_bytes_be_be. by apply copy_into_full. Qed.

Lemma length_concat_be2 l : length (concat (map (be_bytes 2) l)) = (2 * length l)%nat.
Proof. induction l as [|x l IH]; [done|]. cbn [map concat]. rewrite length_app, IH, length_be_bytes. simpl. lia. Qed.

Lemma concat_be2_ok l : bytes_ok (concat (map (be_bytes 2) l)).
Proof. induction l; [constructor|]. apply Forall_app. split; [apply be_bytes_ok|done]. Qed.

Lemma concat_be2_inj l k : Forall is_u16 l -> Forall is_u16 k ->
  concat (map (be_bytes 2) l) = concat (map (be_bytes 2) k) -> l = k.
Proof.
  intros Hl. revert k. induction Hl as [|x l Hx Hl IH]; intros k Hk H.
  - destruct k; [done|]. apply (f_equal length) in H. rewrite !length_concat_be2 in H. simpl in H. lia.
  - destruct Hk as [|y k Hy Hk].
    { apply (f_equal length) in H. rewrite !length_concat_be2 in H. simpl in H. lia. }
    cbn [map concat] in H. apply app_inj_1 in H as [H1 H2]; [|by rewrite !length_be_bytes].
    f_equal; [by apply (be_bytes_inj 2)|auto].
Qed.

Lemma sock_v6_to_bytes_be_app s : length (segments (v6_ip s)) = 8%nat ->
  sock_v6_to_bytes_be s = concat (map (be_bytes 2) (segments (v6_ip s))) ++ be_bytes 2 (v6_port s).
Proof.
  intros H. unfold sock_v6_to_bytes_be. rewrite port_to_bytes_be_be, ipv6_to_bytes_be_be by done.
  apply copy_into_full. by rewrite length_app, length_concat_be2, H, length_be_bytes.
Qed.

Lemma sock_v6_bytes ip h l : length ip = 16%nat -> bytes_ok ip -> is_u8 h -> is_u8 l ->
  bytes_be_to_sock_v6 (ip ++ [h; l]) = SocketAddrV6_new (bytes_be_to_ipv6 ip) (be_int [h; l]) 0 0.
Proof.
  intros H Hb Hh Hl. unfold bytes_be_to_sock_v6.
  rewrite take_app_length' by done. rewrite copy_into_full by done.
  rewrite !lookup_total_app_r, H by lia. cbn [Nat.sub lookup_total list_lookup_total].
  by rewrite bytes_be_to_port_be.
Qed.

Lemma be_bytes_2 v : exists h l, be_bytes 2 v = [h; l] /\ is_u8 h /\ is_u8 l.
Proof. eexists _, _. cbn [be_bytes app]. split; [done|]. split; apply Z.mod_pos_bound; lia. Qed.

Lemma port_join v h l : is_u16 v -> be_bytes 2 v = [h; l] -> be_int [h; l] = v.
Proof. intros Hv <-. by apply (be_int_be_bytes_id 2). Qed.

(** ** Round trips *)

(** What the eighteen-byte form keeps of an address: flow label and scope are dropped. *)
Definition strip_v6 (s : SocketAddrV6) : SocketAddrV6 := SocketAddrV6_new (v6_ip s) (v6_port s) 0 0.

Lemma sock_v4_from_to a : sock_v4_ok a -> bytes_be_to_sock_v4 (sock_v4_to_bytes_be a) = a.
Proof.
  intros Ha. destruct a as [[a1 a2 a3 a4] p], Ha as [(H1 & H2 & H3 & H4) Hp]. cbn in H1, H2, H3, H4, Hp.
  rewrite sock_v4_to_bytes_be_app. cbn [v4_ip v4_port ipv4_to_bytes_be app octet_a octet_b octet_c octet_d].
  destruct (be_bytes_2 p) as (h & q & Eq & Hh & Hq). rewrite Eq, sock_v4_bytes.
  - by rewrite (port_join p h q).
  - unfold bytes_ok. repeat rewrite Forall_cons. repeat (split; [done|]). constructor.
Qed.

Lemma ipv6_from_to a : ipv6_ok a -> bytes_be_to_ipv6 (ipv6_to_bytes_be a) = a.
Proof.
  destruct a as [s]. intros [Hs Hs16]. cbn in Hs, Hs16. rewrite ipv6_to_bytes_be_be by done. cbn [segments].
  assert (Hlen : length (concat (map (be_bytes 2) s)) = 16%nat) by (by rewrite length_concat_be2, Hs).
  destruct (bytes_be_to_ipv6_be _ Hlen (concat_be2_ok s)) as (s' & -> & _ & Hs' & Hcat).
  by apply concat_be2_inj in Hcat as ->.
Qed.

Lemma sock_v6_from_to b : sock_v6_ok b -> bytes_be_to_sock_v6 (sock_v6_to_bytes_be b) = strip_v6 b.
Proof.
  intros Hb. destruct b as [[s] p f c], Hb as [[Hs Hs16] [Hp _]]. cbn in Hs, Hs16, Hp. rewrite sock_v6_to_bytes_be_app by done.
  cbn [v6_ip v6_port segments]. destruct (be_bytes_2 p) as (h & q & Eq & Hh & Hq). rewrite Eq.
  assert (Hlen : length (concat (map (be_bytes 2) s)) = 16%nat) by (by rewrite length_concat_be2, Hs).
  rewrite sock_v6_bytes by (done || apply concat_be2_ok).
  destruct (bytes_be_to_ipv6_be _ Hlen (concat_be2_ok s)) as (s' & -> & _ & Hs' & Hcat).
  apply concat_be2_inj in Hcat as ->; [|done|done]. by rewrite (port_join p h q).
Qed.

(** The compact forms are exact: an IPv4 socket address survives the six-byte
    form, an IPv6 one the eighteen-byte form up to its flow label and scope id, and
    every six- or eighteen-byte array survives the way through an address. *)
Lemma sock_compact_roundtrip (a : SocketAddrV4) (b : SocketAddrV6) (l k : list Z) :
  sock_v4_ok a -> sock_v6_ok b -> length l = 6%nat -> bytes_ok l -> length k = 18%nat -> bytes_ok k ->
  bytes_be_to_sock_v4 (sock_v4_to_bytes_be a) = a /\
  bytes_be_to_sock_v6 (sock_v6_to_bytes_be b) = strip_v6 b /\
  sock_v4_to_bytes_be (bytes_be_to_sock_v4 l) = l /\
  sock_v6_to_bytes_be (bytes_be_to_sock_v6 k) = k.
Proof.
  intros Ha Hb Hl Hlok Hk Hkok. split; [by apply sock_v4_from_to|split; [by apply sock_v6_from_to|split]].
  - destruct_length Hl. rewrite sock_v4_bytes by done. rewrite sock_v4_to_bytes_be_app.
    cbn [v4_ip v4_port ipv4_to_bytes_be app octet_a octet_b octet_c octet_d].
    unfold bytes_ok in Hlok. repeat rewrite Forall_cons in Hlok. destruct_ex.
    by rewrite (be_bytes_be_int [_; _]) by (by apply Forall_pair_u8).
  - rewrite <- (take_drop 16 k) in Hkok |- *.
    assert (H16 : length (take 16 k) = 16%nat) by (rewrite length_take; lia).
    assert (H2 : length (drop 16 k) = 2%nat) by (rewrite length_drop; lia).
    remember (take 16 k) as ip eqn:E1. remember (drop 16 k) as pt eqn:E2. clear E1 E2.
    destruct_length H2. apply Forall_app in Hkok as [Hip Hpt].
    repeat rewrite Forall_cons in Hpt. destruct_ex. rewrite sock_v6_bytes by done.
    destruct (bytes_be_to_ipv6_be _ H16 Hip) as (s & -> & Hs8 & _ & Hcat).
    rewrite sock_v6_to_bytes_be_app by done. cbn [v6_ip v6_port segments]. rewrite Hcat.
    by rewrite (be_bytes_be_int [_; _]) by (by apply Forall_pair_u8).
Qed.

Lemma sock_compact_roundtrip_witness :
  let a := SocketAddrV4_new (Ipv4Addr_new 127 0 0 1) 6881 in
  let b := SocketAddrV6_new (mkIpv6Addr [8193; 3512; 0; 0; 0; 0; 255; 65535]) 80 7 9 in
  bytes_be_to_sock_v4 (sock_v4_to_bytes_be a) = a /\
  bytes_be_to_sock_v6 (sock_v6_to_bytes_be b) = strip_v6 b /\
  sock_v4_to_bytes_be (bytes_be_to_sock_v4 [1; 2; 3; 4; 5; 6]) = [1; 2; 3; 4; 5; 6] /\
  sock_v6_to_bytes_be (bytes_be_to_sock_v6 (be_bytes 18 12345678901234567890)) =
    be_bytes 18 12345678901234567890.
Proof.
  apply sock_compact_roundtrip; try done; try apply be_bytes_ok;
    try (apply (bool_decide_unpack _); vm_compute; exact I).
Defined.
