(* ===== verification/Chrono.v ===== *)
(** * The clock interface

    The sources take dates and durations from the [chrono] crate. [Chrono] states
    what they rely on: a date and a duration have a value in nanoseconds, and the
    operations compute with these values as the crate documents. Subtraction of a
    duration from a date may fail (it leaves the representable range).
    The components are proved against the class; [chrono_Z] shows that it can be
    implemented. *)

From S2P Require Import Prelude.

Definition NS_PER_MILLISECOND : Z := 1000000.
Definition NS_PER_MINUTE : Z := 60 * 1000000000.
Definition NS_PER_HOUR : Z := 60 * NS_PER_MINUTE.

Class Chrono : Type := {
  DateTime : Type;
  Duration : Type;
  dt_ns : DateTime -> Z;
  dur_ns : Duration -> Z;
  (** [Duration::milliseconds], [Duration::minutes], [Duration::hours] *)
  milliseconds : Z -> Duration;
  minutes : Z -> Duration;
  hours : Z -> Duration;
  (** [DateTime - DateTime] *)
  dt_since : DateTime -> DateTime -> Duration;
  (** [checked_sub_signed] *)
  dt_checked_sub : DateTime -> Duration -> option DateTime;
  (** [Duration < Duration] and [Duration >= Duration] *)
  dur_ltb : Duration -> Duration -> bool;
  dur_geb : Duration -> Duration -> bool;
  (** [Duration::num_minutes]: whole minutes, rounded toward zero *)
  num_minutes : Duration -> Z;

  dur_ns_milliseconds n : dur_ns (milliseconds n) = n * NS_PER_MILLISECOND;
  dur_ns_minutes n : dur_ns (minutes n) = n * NS_PER_MINUTE;
  dur_ns_hours n : dur_ns (hours n) = n * NS_PER_HOUR;
  dur_ns_since a b : dur_ns (dt_since a b) = dt_ns a - dt_ns b;
  dt_checked_sub_ns a d t : dt_checked_sub a d = Some t -> dt_ns t = dt_ns a - dur_ns d;
  dur_ltb_ns a b : dur_ltb a b = (dur_ns a <? dur_ns b);
  dur_geb_ns a b : dur_geb a b = (dur_ns b <=? dur_ns a);
  num_minutes_ns d : num_minutes d = Z.quot (dur_ns d) NS_PER_MINUTE;
}.

(** A clock whose dates and durations are the nanosecond counts themselves. *)
#[refine, export] Instance chrono_Z : Chrono := {|
  DateTime := Z; Duration := Z; dt_ns t := t; dur_ns d := d;
  milliseconds n := n * NS_PER_MILLISECOND; minutes n := n * NS_PER_MINUTE; hours n := n * NS_PER_HOUR;
  dt_since a b := a - b;
  dt_checked_sub a d := Some (a - d);
  dur_ltb := Z.ltb; dur_geb a b := b <=? a;
  num_minutes d := Z.quot d NS_PER_MINUTE
|}.
Proof. all: try done. by intros a d t [= <-]. Defined.
