(* ===== verification/DhtNode.v ===== *)
(** * DHT nodes

    Model of [dht/routing/node.rs]: a contact with the times of its last request
    and response and the number of our unanswered requests, from which its status
    is computed. Each operation takes the time [now] that [Utc::now()] returns. *)

From S2P Require Import Prelude RustStd Words UtilSha UtilConvert Chrono.

Section Node.
Context `{Chrono}.

Definition MAX_LAST_SEEN_MINS : Z := 15.
Definition MAX_REFRESH_REQUESTS : nat := 2.

Inductive NodeStatus : Type := Bad | Questionable | Good.

#[export] Instance NodeStatus_eq_dec : EqDecision NodeStatus.
Proof. solve_decision. Defined.

(** The derived order: variants higher up are less than those further down. *)
Definition status_rank (s : NodeStatus) : nat :=
  match s with Bad => 0 | Questionable => 1 | Good => 2 end.
Definition status_ltb (a b : NodeStatus) : bool := (status_rank a <? status_rank b)%nat.
Definition status_geb (a b : NodeStatus) : bool := (status_rank b <=? status_rank a)%nat.

Record Node : Type := mkNode {
  id : ShaHash;
  addr : SocketAddr;
  last_request : option DateTime;
  last_response : option DateTime;
  refresh_requests : nat
}.

Definition as_good (now : DateTime) (i : ShaHash) (a : SocketAddr) : Node :=
  mkNode i a None (Some now) 0.

(** Panics when the clock is too close to its minimum. *)
Definition as_questionable (now : DateTime) (i : ShaHash) (a : SocketAddr) : res unit Node :=
  let last_response_offset := minutes MAX_LAST_SEEN_MINS in
  let? last_response := or_panic (dt_checked_sub now last_response_offset) in
  Ok (mkNode i a None (Some last_response) 0).

Definition as_bad (i : ShaHash) (a : SocketAddr) : Node := mkNode i a None None 0.

(** First scenario: [Good] after a recent response, [Questionable] after an old one. *)
Definition recently_responded (node : Node) (curr_time : DateTime) : NodeStatus :=
  match last_response node with
  | None => Bad
  | Some response_time =>
      let since_response := dt_since curr_time response_time in
      let max_last_response := minutes MAX_LAST_SEEN_MINS in
      if dur_ltb since_response max_last_response then Good else Questionable
  end.

(** Second scenario, for a node that responded before but not recently. *)
Definition recently_requested (node : Node) (curr_time : DateTime) : NodeStatus :=
  let max_last_request := minutes MAX_LAST_SEEN_MINS in
  let requested :=
    match last_request node with
    | Some request_time => dur_ltb (dt_since curr_time request_time) max_last_request
    | None => false
    end in
  if requested then Good
  else if (refresh_requests node <? MAX_REFRESH_REQUESTS)%nat then Questionable else Bad.

Definition status (now : DateTime) (node : Node) : NodeStatus :=
  match recently_responded node now with
  | Good => Good
  | Bad => Bad
  | Questionable => recently_requested node now
  end.

Definition local_request (now : DateTime) (node : Node) : Node :=
  if decide (status now node = Good) then node
  else mkNode (id node) (addr node) (last_request node) (last_response node) (refresh_requests node + 1).

Definition remote_request (now : DateTime) (node : Node) : Node :=
  mkNode (id node) (addr node) (Some now) (last_response node) (refresh_requests node).

Definition remote_response (now : DateTime) (node : Node) : Node :=
  mkNode (id node) (addr node) (last_request node) (Some now) 0.

(** [PartialEq]: the id and the address decide, not the times. *)
Definition node_eqb (a b : Node) : bool :=
  bool_decide (id a = id b) && bool_decide (addr a = addr b).

(** [encode]: id, then address, copied through one iterator over the array; an
    IPv6 address panics. *)
Definition Node_encode (node : Node) : res unit (list Z) :=
  match addr node with
  | V4 v4 =>
      let encoded := copy_into (sha_bytes (id node) ++ ipv4_to_bytes_be (v4_ip v4)) (replicate 26 0) in
      let port := v4_port v4 in
      Ok (<[25%nat := as_u8 port]> (<[24%nat := as_u8 (Z.shiftr port 8)]> encoded))
  | V6 _ => Panic
  end.

(** ** Facts *)

Definition node_key (n : Node) : ShaHash * SocketAddr := (id n, addr n).

Lemma node_eqb_key a b : node_eqb a b = true <-> node_key a = node_key b.
Proof.
  unfold node_eqb, node_key. rewrite andb_true_iff, !bool_decide_eq_true.
  split; [by intros [-> ->]|]. by intros [= -> ->].
Qed.

Lemma status_ltb_geb a b : status_geb a b = negb (status_ltb a b).
Proof. by destruct a, b. Qed.

Lemma status_as_bad now i a : status now (as_bad i a) = Bad.
Proof. done. Qed.

Lemma status_not_bad now n : status now n <> Bad -> exists t, last_response n = Some t.
Proof. unfold status, recently_responded. destruct (last_response n); [eauto|done]. Qed.

Lemma status_remote_response now n : status now (remote_response now n) = Good.
Proof.
  unfold status, recently_responded, remote_response. cbn [last_response].
  rewrite dur_ltb_ns, dur_ns_since, dur_ns_minutes, Z.sub_diag. done.
Qed.

(** ** The status rules *)

(** Seen less than fifteen minutes before [now]. *)
Definition seen_recently (now : DateTime) (o : option DateTime) : Prop :=
  exists t, o = Some t /\ dt_ns now - dt_ns t < 15 * NS_PER_MINUTE.

Lemma recent_ltb now t :
  dur_ltb (dt_since now t) (minutes MAX_LAST_SEEN_MINS) = true <-> dt_ns now - dt_ns t < 15 * NS_PER_MINUTE.
Proof. by rewrite dur_ltb_ns, dur_ns_since, dur_ns_minutes, Z.ltb_lt. Qed.

Lemma seen_recently_Some now t : seen_recently now (Some t) <-> dt_ns now - dt_ns t < 15 * NS_PER_MINUTE.
Proof. split; [by intros (? & [= ->] & ?)|by exists t]. Qed.

Lemma seen_recently_None now : ~ seen_recently now None.
Proof. by intros (? & ? & _). Qed.

Lemma seen_recently_mono now now' o :
  dt_ns now <= dt_ns now' -> ~ seen_recently now o -> ~ seen_recently now' o.
Proof. intros Hle Hn (t & -> & Ht). apply Hn. exists t. split; [done|lia]. Qed.

Lemma recently_responded_spec n now :
  (recently_responded n now = Good <-> seen_recently now (last_response n)) /\
  (recently_responded n now = Bad <-> last_response n = None).
Proof.
  unfold recently_responded. destruct (last_response n) as [t|].
  - rewrite seen_recently_Some, <- recent_ltb. by destruct (dur_ltb _ _).
  - split; [|done]. split; [done|]. by intros ?%seen_recently_None.
Qed.

Lemma recently_requested_spec n now :
  (recently_requested n now = Good <-> seen_recently now (last_request n)) /\
  (recently_requested n now = Bad <->
     ~ seen_recently now (last_request n) /\ (MAX_REFRESH_REQUESTS <= refresh_requests n)%nat).
Proof.
  unfold recently_requested. destruct (last_request n) as [t|].
  - rewrite !seen_recently_Some, <- recent_ltb. destruct (dur_ltb _ _).
    + split; [done|]. split; [done|]. by intros [[] _].
    + destruct (Nat.ltb_spec (refresh_requests n) MAX_REFRESH_REQUESTS); split; try done; split; try done; lia.
  - pose proof (seen_recently_None now).
    destruct (Nat.ltb_spec (refresh_requests n) MAX_REFRESH_REQUESTS); split; try done; split; try done; lia.
Qed.

Lemma status_Good now n : status now n = Good <->
  seen_recently now (last_response n) \/
  (last_response n <> None /\ seen_recently now (last_request n)).
Proof.
  unfold status. destruct (recently_responded_spec n now) as [HG HB], (recently_requested_spec n now) as [HG' _].
  destruct (recently_responded n now).
  - rewrite (proj1 HB eq_refl) in *. split; [done|]. intros [?%seen_recently_None|[? _]]; done.
  - rewrite HG'. split; [|by intros [?%HG|[_ ?]]]. intros Hr. right. split; [|done]. by intros ?%HB.
  - split; [|done]. intros _. left. by apply HG.
Qed.

Lemma status_Bad now n : status now n = Bad <->
  last_response n = None \/
  (~ seen_recently now (last_response n) /\ ~ seen_recently now (last_request n) /\
   (MAX_REFRESH_REQUESTS <= refresh_requests n)%nat).
Proof.
  unfold status. destruct (recently_responded_spec n now) as [HG HB], (recently_requested_spec n now) as [_ HB'].
  destruct (recently_responded n now).
  - split; [|done]. intros _. left. by apply HB.
  - rewrite HB'. split.
    + intros [? ?]. right. split; [|done]. by intros ?%HG.
    + intros [?%HB|(_ & ? & ?)]; done.
  - split; [done|]. intros [?%HB|(Hn & _)]; [done|]. by destruct Hn; apply HG.
Qed.

(** The status is decided by the fifteen-minute rules: a node is good when it
    responded recently, or responded once and made a recent request; it is bad when
    it never responded, or neither happened recently and two requests to it are
    unanswered; and it is questionable in every other case. *)
Lemma status_rules (now : DateTime) (n : Node) :
  let responded := seen_recently now (last_response n) in
  let requested := seen_recently now (last_request n) in
  (status now n = Good <-> responded \/ (last_response n <> None /\ requested)) /\
  (status now n = Bad <->
     last_response n = None \/ (~ responded /\ ~ requested /\ (2 <= refresh_requests n)%nat)) /\
  (status now n = Questionable <->
     last_response n <> None /\ ~ responded /\ ~ requested /\ (refresh_requests n < 2)%nat).
Proof.
  intros responded requested.
  pose proof (status_Good now n) as HG. pose proof (status_Bad now n) as HB.
  unfold MAX_REFRESH_REQUESTS in HB. split; [exact HG|]. split; [exact HB|].
  fold responded requested in HG, HB. clearbody responded requested.
  destruct (status now n).
  - destruct (proj1 HB eq_refl) as [->|(? & ? & ?)]; (split; [done|]); intros (? & ? & ? & ?); (done || lia).
  - split; [intros _|done].
    assert (last_response n <> None) by (intros ?; by assert (Questionable = Bad) by tauto).
    repeat split; [done|intros ?; by assert (Questionable = Good) by tauto..|].
    apply Nat.nle_gt. intros ?. assert (Questionable = Bad); [|done]. apply HB. right.
    repeat split; [intros ?; by assert (Questionable = Good) by tauto..|done].
  - split; [done|]. intros (? & ? & ? & ?). destruct (proj1 HG eq_refl) as [?|[? ?]]; done.
Qed.

Lemma local_request_fields now n :
  last_request (local_request now n) = last_request n /\
  last_response (local_request now n) = last_response n /\
  refresh_requests (local_request now n) =
    (refresh_requests n + if decide (status now n = Good) then 0 else 1)%nat.
Proof. unfold local_request. destruct (decide _); simpl; repeat split; lia. Qed.

Lemma status_not_Good_mono now now' n :
  dt_ns now <= dt_ns now' -> status now n <> Good -> status now' n <> Good.
Proof.
  rewrite !status_Good. intros Hle Hn Hg. apply Hn.
  destruct Hg as [(t & Ht & Hr)|[Hne (t & Ht & Hr)]]; [left|right; split; [done|]]; exists t; (split; [done|lia]).
Qed.

Lemma status_local_request_not_Good now n t :
  status now (local_request t n) = Good <-> status now n = Good.
Proof.
  rewrite !status_Good. destruct (local_request_fields t n) as (-> & -> & _). done.
Qed.

(** A node that stopped answering becomes bad: after two of our requests at
    times when it was not good, with no message from it in between, it is bad and
    stays bad however much time passes; its own response makes it good again. *)
Lemma silent_node_goes_bad (n : Node) (t1 t2 t3 : DateTime) :
  dt_ns t1 <= dt_ns t2 -> dt_ns t2 <= dt_ns t3 -> status t1 n <> Good ->
  status t3 (local_request t2 (local_request t1 n)) = Bad /\
  status t3 (remote_response t3 (local_request t2 (local_request t1 n))) = Good.
Proof.
  intros H12 H23 Hn. split; [|apply status_remote_response].
  assert (Hn2 : status t2 n <> Good) by (by apply (status_not_Good_mono t1)).
  assert (Hn3 : status t3 n <> Good) by (by apply (status_not_Good_mono t2)).
  destruct (local_request_fields t1 n) as (Ereq1 & Eres1 & Er1).
  destruct (local_request_fields t2 (local_request t1 n)) as (Ereq2 & Eres2 & Er2).
  apply status_Bad. rewrite Ereq2, Ereq1, Eres2, Eres1, Er2, Er1.
  destruct (decide (status t1 n = Good)); [done|].
  destruct (decide (status t2 (local_request t1 n) = Good)) as [Hg|];
    [by apply status_local_request_not_Good in Hg|].
  destruct (last_response n) as [t|] eqn:El; [right|by left].
  rewrite status_Good, El in Hn3.
  split; [intros ?; apply Hn3; by left|]. split; [intros ?; apply Hn3; by right|].
  unfold MAX_REFRESH_REQUESTS. lia.
Qed.

(** The compact node info is the twenty bytes of the id followed by the six-byte
    form of the address; an IPv6 node panics. *)
Lemma Node_encode_layout (n : Node) : sha_ok (id n) ->
  match addr n with
  | V4 a => Node_encode n = Ok (sha_bytes (id n) ++ sock_v4_to_bytes_be a)
  | V6 _ => Node_encode n = Panic
  end.
Proof.
  intros [Hlen _]. unfold Node_encode. destruct (addr n) as [[[a b c d] p]|]; [|done].
  rewrite sock_v4_to_bytes_be_app. cbn [v4_ip v4_port ipv4_to_bytes_be].
  unfold SHA_HASH_LEN in Hlen. revert Hlen. generalize (sha_bytes (id n)). intros l Hlen.
  destruct_length Hlen. rewrite <- port_to_bytes_be_be. unfold port_to_bytes_be.
  cbn -[wrap Z.shiftr]. by rewrite Z.shiftr_0_r.
Qed.
End Node.

Lemma silent_node_goes_bad_witness :
  let n := @as_good chrono_Z 0 (mkShaHash (replicate 20 7)) default_route_v4 in
  let t1 : @DateTime chrono_Z := 20 * NS_PER_MINUTE in
  let t2 : @DateTime chrono_Z := 21 * NS_PER_MINUTE in
  let t3 : @DateTime chrono_Z := 60 * NS_PER_MINUTE in
  status t3 (local_request t2 (local_request t1 n)) = Bad /\
  status t3 (remote_response t3 (local_request t2 (local_request t1 n))) = Good.
Proof. apply silent_node_goes_bad; vm_compute; done. Defined.
