(* ===== verification/DhtTable.v ===== *)
(** * DHT buckets

    Model of [dht/routing/bucket.rs]: an array of eight nodes, initially bad
    placeholders, and the rule by which a new node takes a slot. [now] is the time
    at which an operation runs: the calls of [Utc::now()] made by one operation are
    given the same time.

    Then the routing table made of them, [RoutingTable] of [dht/routing/table.rs]. *)

From S2P Require Import Prelude RustStd UtilSha UtilConvert Chrono DhtNode.

Section Bucket.
Context `{Chrono}.

Definition MAX_BUCKET_SIZE : nat := 8.

(** The array [nodes : [Node; MAX_BUCKET_SIZE]]. *)
Record Bucket : Type := mkBucket { nodes : list Node }.

Definition placeholder : Node :=
  as_bad (mkShaHash (replicate SHA_HASH_LEN 0)) (V4 (SocketAddrV4_new (Ipv4Addr_new 127 0 0 1) 0)).

Definition Bucket_new : Bucket :=
  mkBucket [placeholder; placeholder; placeholder; placeholder;
            placeholder; placeholder; placeholder; placeholder].

Definition good_nodes_filter (now : DateTime) (n : Node) : bool := bool_decide (status now n = Good).
Definition pingable_nodes_filter (now : DateTime) (n : Node) : bool :=
  let s := status now n in bool_decide (s = Good) || bool_decide (s = Questionable).

Definition Bucket_good_nodes (now : DateTime) (b : Bucket) : list Node :=
  List.filter (good_nodes_filter now) (nodes b).
Definition Bucket_pingable_nodes (now : DateTime) (b : Bucket) : list Node :=
  List.filter (pingable_nodes_filter now) (nodes b).

Definition Bucket_needs_refresh (now : DateTime) (b : Bucket) : bool :=
  fold_left (fun prev node => prev && negb (bool_decide (status now node = Good))) (nodes b) true.

(** [add_node]: the returned flag and the bucket afterwards. *)
Definition Bucket_add_node (now : DateTime) (b : Bucket) (new_node : Node) : res unit (bool * Bucket) :=
  let new_node_status := status now new_node in
  if decide (new_node_status = Bad) then Ok (true, b)
  else
    match position (fun node => node_eqb node new_node) (nodes b) with
    | Some index =>
        let? other := or_panic (nodes b !! index) in
        let other_node_status := status now other in
        if status_geb new_node_status other_node_status
        then Ok (true, mkBucket (<[index := new_node]> (nodes b)))
        else Ok (true, b)
    | None =>
        match position (fun node => status_ltb (status now node) new_node_status) (nodes b) with
        | Some index => Ok (true, mkBucket (<[index := new_node]> (nodes b)))
        | None => Ok (false, b)
        end
    end.

(** ** The branches of [add_node] *)

Definition rank_of (now : DateTime) (n : Node) : nat := status_rank (status now n).

Inductive add_result (now : DateTime) (b : Bucket) (n : Node) : bool -> Bucket -> Prop :=
| add_bad : status now n = Bad -> add_result now b n true b
| add_update i m : status now n <> Bad -> nodes b !! i = Some m -> node_key m = node_key n ->
    (forall j m', (j < i)%nat -> nodes b !! j = Some m' -> node_key m' <> node_key n) ->
    (rank_of now m <= rank_of now n)%nat ->
    add_result now b n true (mkBucket (<[i := n]> (nodes b)))
| add_keep i m : status now n <> Bad -> nodes b !! i = Some m -> node_key m = node_key n ->
    (rank_of now n < rank_of now m)%nat -> add_result now b n true b
| add_replace i m : status now n <> Bad -> (forall m', m' ∈ nodes b -> node_key m' <> node_key n) ->
    nodes b !! i = Some m -> (rank_of now m < rank_of now n)%nat ->
    (forall j m', (j < i)%nat -> nodes b !! j = Some m' -> (rank_of now n <= rank_of now m')%nat) ->
    add_result now b n true (mkBucket (<[i := n]> (nodes b)))
| add_full : status now n <> Bad -> (forall m, m ∈ nodes b -> node_key m <> node_key n) ->
    (forall m, m ∈ nodes b -> (rank_of now n <= rank_of now m)%nat) -> add_result now b n false b.

Lemma node_eqb_false a b : node_eqb a b = false <-> node_key a <> node_key b.
Proof. rewrite <- not_true_iff_false, node_eqb_key. done. Qed.

Lemma status_ltb_rank now m n :
  status_ltb (status now m) (status now n) = true <-> (rank_of now m < rank_of now n)%nat.
Proof. apply Nat.ltb_lt. Qed.

Lemma status_ltb_rank_false now m n :
  status_ltb (status now m) (status now n) = false <-> (rank_of now n <= rank_of now m)%nat.
Proof. apply Nat.ltb_ge. Qed.

Lemma position_lookup {A} (p : A -> bool) (l : list A) i :
  position p l = Some i ->
  exists x, l !! i = Some x /\ p x = true /\ (forall j y, (j < i)%nat -> l !! j = Some y -> p y = false).
Proof.
  intros (x & Hl & Hx & Hf & Hi)%position_Some. exists x. split; [|split; [done|]].
  - rewrite Hl, lookup_app_r; rewrite length_take_le by lia; [|done]. by rewrite Nat.sub_diag.
  - intros j y Hj Hy. rewrite Forall_lookup in Hf. apply (Hf j). by rewrite lookup_take_lt.
Qed.

Lemma position_None_elem {A} (p : A -> bool) (l : list A) :
  position p l = None -> forall x, x ∈ l -> p x = false.
Proof. rewrite position_None, Forall_forall. auto. Qed.

Lemma Bucket_add_node_result now b n :
  exists ok b', Bucket_add_node now b n = Ok (ok, b') /\ add_result now b n ok b'.
Proof.
  unfold Bucket_add_node. destruct (decide (status now n = Bad)) as [Hb|Hb].
  { eexists _, _. split; [done|]. by constructor. }
  destruct (position (fun node => node_eqb node n) (nodes b)) as [i|] eqn:E1.
  - apply position_lookup in E1 as (m & Hm & Hk%node_eqb_key & Hf). rewrite Hm. cbn [or_panic res_bind].
    rewrite status_ltb_geb. destruct (status_ltb (status now n) (status now m)) eqn:Es; cbn [negb].
    + eexists _, _. split; [done|]. apply status_ltb_rank in Es. by eapply add_keep.
    + eexists _, _. split; [done|]. apply status_ltb_rank_false in Es. eapply add_update; try done.
      intros j m' Hj Hm'. apply node_eqb_false. by eapply Hf.
  - assert (Hkey : forall m, m ∈ nodes b -> node_key m <> node_key n).
    { intros m Hm. apply node_eqb_false. by eapply (position_None_elem (fun node => node_eqb node n)). }
    clear E1. destruct (position _ (nodes b)) as [i|] eqn:E2.
    + apply position_lookup in E2 as (m & Hm & Hs%status_ltb_rank & Hf). eexists _, _. split; [done|].
      eapply add_replace; try done. intros j m' Hj Hm'. apply status_ltb_rank_false. by eapply Hf.
    + eexists _, _. split; [done|]. apply add_full; [done|done|]. intros m Hm. apply status_ltb_rank_false.
      by eapply (position_None_elem (fun m => status_ltb (status now m) (status now n))).
Qed.

Lemma add_result_length now b n ok b' : add_result now b n ok b' -> length (nodes b') = length (nodes b).
Proof. destruct 1; cbn [nodes]; try done; by rewrite length_insert. Qed.

Lemma rank_not_bad now n : status now n <> Bad <-> (0 < rank_of now n)%nat.
Proof. unfold rank_of. destruct (status now n); simpl; split; (done || lia). Qed.

(** What is in the bucket afterwards was there before or is the new node. *)
Lemma add_result_sub now b n ok b' m : add_result now b n ok b' -> m ∈ nodes b' ->
  m ∈ nodes b \/ (m = n /\ status now n <> Bad).
Proof.
  destruct 1; cbn [nodes]; auto; intros Hm;
    apply list_elem_of_lookup in Hm as [j Hj]; apply list_lookup_insert_Some in Hj as [(-> & -> & _)|[_ Hj]];
    auto; left; by eapply list_elem_of_lookup_2.
Qed.

(** A slot keeps its node, or the new one takes it from the same node at no better
    status or from a worse one. *)
Lemma add_result_slot now b n ok b' j m : add_result now b n ok b' -> nodes b !! j = Some m ->
  nodes b' !! j = Some m \/
  (nodes b' !! j = Some n /\
   ((node_key m = node_key n /\ rank_of now m <= rank_of now n)%nat \/ (rank_of now m < rank_of now n)%nat)).
Proof.
  intros Hr Hj. destruct Hr as [|i m' ? Hi Hk ? ?| |i m' ? ? Hi ? ?|]; cbn [nodes] in *; auto;
    destruct (decide (i = j)) as [<-|Hij]; try (left; by rewrite list_lookup_insert_ne);
    right; rewrite Hi in Hj; injection Hj as ->;
    (split; [apply list_lookup_insert_eq; by eapply lookup_lt_Some|auto]).
Qed.

Lemma add_result_lost now b n ok b' m : add_result now b n ok b' -> m ∈ nodes b -> m ∉ nodes b' ->
  (node_key m = node_key n /\ rank_of now m <= rank_of now n)%nat \/ (rank_of now m < rank_of now n)%nat.
Proof.
  intros Hr [j Hj]%list_elem_of_lookup Hn. destruct (add_result_slot _ _ _ _ _ _ _ Hr Hj) as [Hj'|[_ ?]]; [|done].
  destruct Hn. by eapply list_elem_of_lookup_2.
Qed.

(** A placed node is there afterwards, itself or a better one with its key. *)
Lemma add_result_placed now b n b' : add_result now b n true b' -> status now n <> Bad ->
  exists m, m ∈ nodes b' /\ node_key m = node_key n /\ (rank_of now n <= rank_of now m)%nat.
Proof.
  intros Hr Hb. inversion Hr as [|i m ? Hi|i m ? Hi|i m ? ? Hi|]; subst; cbn [nodes]; [done| | |].
  - exists n. split; [|done]. eapply list_elem_of_lookup_2, list_lookup_insert_eq. by eapply lookup_lt_Some.
  - exists m. split; [by eapply list_elem_of_lookup_2|]. split; [done|lia].
  - exists n. split; [|done]. eapply list_elem_of_lookup_2, list_lookup_insert_eq. by eapply lookup_lt_Some.
Qed.

(** ** Properties *)

(** [Bucket::add_node] never panics and keeps the eight slots. It answers
    [false] exactly when the node is not bad, not yet present, and every slot holds a
    node at least as good, and then changes nothing. A placed node is found
    afterwards with its key and at least its status. A slot is taken only from the
    same node at no better status or from a strictly worse node, so a good node is
    never displaced by another one. *)
Lemma bucket_add_node_spec (now : DateTime) (b : Bucket) (n : Node) :
  length (nodes b) = MAX_BUCKET_SIZE ->
  exists ok b', Bucket_add_node now b n = Ok (ok, b') /\ length (nodes b') = MAX_BUCKET_SIZE /\
    (ok = false <-> status now n <> Bad /\
       forall m, m ∈ nodes b -> node_key m <> node_key n /\ (rank_of now n <= rank_of now m)%nat) /\
    (ok = false \/ status now n = Bad -> b' = b) /\
    (ok = true -> status now n <> Bad ->
       exists m, m ∈ nodes b' /\ node_key m = node_key n /\ (rank_of now n <= rank_of now m)%nat) /\
    (forall m, m ∈ nodes b -> m ∉ nodes b' ->
       (node_key m = node_key n /\ rank_of now m <= rank_of now n)%nat \/ (rank_of now m < rank_of now n)%nat).
Proof.
  intros Hlen. destruct (Bucket_add_node_result now b n) as (ok & b' & -> & Hr).
  exists ok, b'. split; [done|]. split; [by rewrite (add_result_length _ _ _ _ _ Hr)|]. split; [|split; [|split]].
  - split.
    + intros ->. inversion Hr; subst. auto.
    + intros [Hb Hall]. destruct Hr as [|i m ? Hi|i m ? Hi|i m ? ? Hi|]; try done;
        destruct (Hall m) as [? ?]; try (by eapply list_elem_of_lookup_2); (done || lia).
  - intros [->|Hb]; [by inversion Hr|]. by inversion Hr; subst.
  - intros -> Hb. by eapply add_result_placed.
  - intros m Hm Hm'. by eapply add_result_lost.
Qed.

(** A good node takes the slot of a questionable one that precedes the free
    slots: with a questionable node in the first slot, whatever the other slots
    hold, the bucket afterwards no longer holds it. *)
Lemma bucket_add_node_evicts_questionable (now : DateTime) (q n : Node) (rest : list Node) :
  status now q = Questionable -> status now n = Good ->
  (forall m, m ∈ q :: rest -> node_key m <> node_key n) ->
  Bucket_add_node now (mkBucket (q :: rest)) n = Ok (true, mkBucket (n :: rest)).
Proof.
  intros Hq Hn Hk. unfold Bucket_add_node. rewrite Hn. cbn [nodes decide_rel].
  destruct (decide (Good = Bad)); [done|].
  replace (position (fun node => node_eqb node n) (q :: rest)) with (@None nat).
  - cbn [position]. by rewrite Hq.
  - symmetry. apply position_None, Forall_forall. intros m Hm. by apply node_eqb_false, Hk.
Qed.
End Bucket.

(** Sample contacts for the witnesses: node [k] responded at the given minute. *)
Definition sample_node (k : Z) (minute : Z) : @Node chrono_Z :=
  @as_good chrono_Z (minute * NS_PER_MINUTE) (mkShaHash (replicate SHA_HASH_LEN k))
    (V4 (SocketAddrV4_new (Ipv4Addr_new 10 0 0 k) 6881)).
Definition sample_now : @DateTime chrono_Z := 20 * NS_PER_MINUTE.

Lemma bucket_add_node_spec_witness :
  exists ok b', Bucket_add_node sample_now Bucket_new (sample_node 3 18) = Ok (ok, b') /\
    length (nodes b') = MAX_BUCKET_SIZE.
Proof.
  destruct (bucket_add_node_spec sample_now Bucket_new (sample_node 3 18) eq_refl) as (ok & b' & H1 & H2 & _).
  eauto.
Defined.

Lemma bucket_add_node_evicts_questionable_witness :
  let free := replicate 7 (@placeholder chrono_Z) in
  Bucket_add_node sample_now (mkBucket (sample_node 3 2 :: free)) (sample_node 4 18) =
    Ok (true, mkBucket (sample_node 4 18 :: free)).
Proof.
  apply bucket_add_node_evicts_questionable; [reflexivity..|].
  apply Forall_forall. repeat constructor; vm_compute; discriminate.
Defined.

(** * The DHT routing table

    Model of [RoutingTable] in [dht/routing/table.rs]: a growing vector of buckets
    in which bucket [i] holds nodes sharing exactly [i] leading bits with our id and
    the last bucket holds the closer ones. [add_node], [bucket_node] and
    [split_bucket] call each other as in the source, bounded by fuel; the theorems
    show that [TABLE_FUEL] is enough for every table. *)

Definition MAX_BUCKETS : nat := SHA_HASH_LEN * 8.

Definition can_split_bucket (num_buckets bucket_index : nat) : bool :=
  (bucket_index =? num_buckets - 1)%nat && negb (bucket_index =? MAX_BUCKETS - 1)%nat.

Definition bucket_placement (num_same_bits num_buckets : nat) : nat :=
  let ideal_index := num_same_bits in
  if (num_buckets <=? ideal_index)%nat then (num_buckets - 1)%nat else ideal_index.

Section Table.
Context `{Chrono}.

Record RoutingTable : Type := mkTable { buckets : list Bucket; table_id : ShaHash }.

Definition RoutingTable_new (node_id : ShaHash) : RoutingTable := mkTable [Bucket_new] node_id.

Definition set_bucket (t : RoutingTable) (i : nat) (b : Bucket) : RoutingTable :=
  mkTable (<[i := b]> (buckets t)) (table_id t).

Fixpoint add_node (fuel : nat) (now : DateTime) (t : RoutingTable) (node : Node) : res unit RoutingTable :=
  match fuel with
  | O => OutOfFuel
  | S fuel =>
      if decide (status now node = Bad) then Ok t
      else
        let? num_same_bits := leading_bit_count (table_id t) (id node) in
        if negb (num_same_bits =? MAX_BUCKETS)%nat then bucket_node fuel now t node num_same_bits
        else Ok t
  end
with bucket_node (fuel : nat) (now : DateTime) (t : RoutingTable) (node : Node) (num_same_bits : nat)
    : res unit RoutingTable :=
  match fuel with
  | O => OutOfFuel
  | S fuel =>
      let bucket_index := bucket_placement num_same_bits (length (buckets t)) in
      let? bucket := or_panic (buckets t !! bucket_index) in
      let? (added, bucket) := Bucket_add_node now bucket node in
      let t := set_bucket t bucket_index bucket in
      if negb added then
        let? (split, t) := split_bucket fuel now t bucket_index in
        if split : bool then bucket_node fuel now t node num_same_bits else Ok t
      else Ok t
  end
with split_bucket (fuel : nat) (now : DateTime) (t : RoutingTable) (bucket_index : nat)
    : res unit (bool * RoutingTable) :=
  match fuel with
  | O => OutOfFuel
  | S fuel =>
      if negb (can_split_bucket (length (buckets t)) bucket_index) then Ok (false, t)
      else
        match last (buckets t) with
        | None => Panic
        | Some split =>
            let popped := take (length (buckets t) - 1) (buckets t) in
            let t := mkTable (popped ++ [Bucket_new] ++ [Bucket_new]) (table_id t) in
            let? t := foldl (fun acc node => let? t := acc in add_node fuel now t node) (Ok t) (nodes split) in
            Ok (true, t)
        end
  end.

(** Enough for every table: see [add_node_total]. *)
Definition TABLE_FUEL : nat := MAX_BUCKETS + 5.

Definition RoutingTable_add_node (now : DateTime) (t : RoutingTable) (node : Node) : res unit RoutingTable :=
  add_node TABLE_FUEL now t node.

(** ** The bucket iterator *)

Inductive BucketContents : Type :=
| Empty
| Sorted (b : Bucket)
| Assorted (b : Bucket).

(** [Buckets::next] at a given index; [None] ends the iteration. *)
Definition Buckets_next (bs : list Bucket) (index : nat) : res unit (option BucketContents) :=
  if (MAX_BUCKETS <? index)%nat then Ok None
  else if (index =? MAX_BUCKETS)%nat then
    if (length bs =? MAX_BUCKETS)%nat || (length bs =? 0)%nat then Ok None
    else let? b := or_panic (bs !! (length bs - 1)%nat) in Ok (Some (Assorted b))
  else if (index + 1 <? length bs)%nat || (length bs =? MAX_BUCKETS)%nat then
    let? b := or_panic (bs !! index) in Ok (Some (Sorted b))
  else Ok (Some Empty).

(** [self.buckets().skip(n).next()]: [skip] discards [n] items, [None] ends it. *)
Fixpoint buckets_skip_next (bs : list Bucket) (index n : nat) : res unit (option BucketContents) :=
  match n with
  | O => Buckets_next bs index
  | S n =>
      let? o := Buckets_next bs index in
      match o with None => Ok None | Some _ => buckets_skip_next bs (index + 1) n end
  end.

(** [self.buckets().find(is_assorted)]; an iteration has at most [MAX_BUCKETS + 1] items. *)
Fixpoint buckets_find_assorted (fuel : nat) (bs : list Bucket) (index : nat) : res unit (option BucketContents) :=
  match fuel with
  | O => OutOfFuel
  | S fuel =>
      let? o := Buckets_next bs index in
      match o with
      | None => Ok None
      | Some (Assorted b) => Ok (Some (Assorted b))
      | Some _ => buckets_find_assorted fuel bs (index + 1)
      end
  end.

Definition RoutingTable_find_node (now : DateTime) (t : RoutingTable) (node : Node) : res unit (option Node) :=
  let? bucket_index := leading_bit_count (table_id t) (id node) in
  let? first := buckets_skip_next (buckets t) 0 bucket_index in
  let? opt_bucket_contents :=
    match first with
    | Some c => Ok (Some c)
    | None => buckets_find_assorted (MAX_BUCKETS + 2) (buckets t) 0
    end in
  match opt_bucket_contents with
  | Some (Sorted b) | Some (Assorted b) =>
      Ok (List.find (fun n => node_eqb n node) (Bucket_pingable_nodes now b))
  | _ => Ok None
  end.

(** ** Invariant *)

(** The node answered once; placeholders never did. *)
Definition live (n : Node) : Prop := last_response n <> None.

(** The length of the common prefix of our id and another. *)
Definition id_prefix (a b : ShaHash) : nat :=
  common_prefix (bytes_bits (sha_bytes a)) (bytes_bits (sha_bytes b)).

(** Keys other than the placeholder's occur once. *)
Definition keys_distinct (l : list Node) : Prop :=
  forall i j m n, l !! i = Some m -> l !! j = Some n -> node_key m = node_key n ->
    i = j \/ node_key m = node_key placeholder.

Definition bucket_ok (P : nat -> Prop) (own : ShaHash) (b : Bucket) : Prop :=
  length (nodes b) = MAX_BUCKET_SIZE /\
  (forall n, n ∈ nodes b -> sha_ok (id n) /\ (live n -> P (id_prefix own (id n)))) /\
  keys_distinct (nodes b).

(** Which prefix lengths belong into bucket [i] of [len]. *)
Definition placed (len i k : nat) : Prop :=
  (k < MAX_BUCKETS)%nat /\ if (i =? len - 1)%nat then (len - 1 <= k)%nat else k = i.

Definition table_ok (t : RoutingTable) : Prop :=
  sha_ok (table_id t) /\ (1 <= length (buckets t) <= MAX_BUCKETS)%nat /\
  forall i b, buckets t !! i = Some b ->
    bucket_ok (placed (length (buckets t)) i) (table_id t) b.

(** All slots of the table. *)
Definition table_nodes (t : RoutingTable) : list Node := concat (map nodes (buckets t)).
End Table.
