(* ===== verification/DhtTableSpec.v ===== *)
(** * Facts about the routing table

    Preservation of the bucket and table invariants by the operations of
    [DhtTable], the redistribution of a split bucket, and the induction over the
    number of buckets that shows [bucket_node] returns. *)

From S2P Require Import Prelude RustStd UtilSha UtilConvert Chrono DhtNode DhtTable.

Section Facts.
Context `{Chrono}.
Implicit Types (t : RoutingTable) (b : Bucket) (n m : Node).

(** ** Buckets *)

Lemma bucket_new_nodes n : n ∈ nodes Bucket_new -> n = placeholder.
Proof. unfold Bucket_new. cbn [nodes]. rewrite !elem_of_cons, elem_of_nil. naive_solver. Qed.

Lemma keys_distinct_new : keys_distinct (nodes Bucket_new).
Proof.
  intros i j m n Hi Hj _. right. apply list_elem_of_lookup_2, bucket_new_nodes in Hi. by subst.
Qed.

Lemma placeholder_sha : sha_ok (id placeholder).
Proof. split; [done|]. apply (bool_decide_unpack _). vm_compute. exact I. Qed.

Lemma bucket_ok_new P own : bucket_ok P own Bucket_new.
Proof.
  split; [done|]. split; [|apply keys_distinct_new].
  intros n ->%bucket_new_nodes. split; [apply placeholder_sha|]. by intros [].
Qed.

Lemma bucket_ok_impl (P Q : nat -> Prop) own b : (forall k, P k -> Q k) -> bucket_ok P own b -> bucket_ok Q own b.
Proof. intros HPQ (Hl & Hn & Hk). split; [done|]. split; [|done]. intros n Hin. destruct (Hn n Hin). auto. Qed.

Lemma status_live now n : status now n <> Bad -> live n.
Proof. intros [t Ht]%status_not_bad. unfold live. by rewrite Ht. Qed.

Lemma keys_distinct_insert_fresh l i n : keys_distinct l ->
  (forall m, m ∈ l -> node_key m <> node_key n) -> keys_distinct (<[i := n]> l).
Proof.
  intros Hd Hf a c m k Ha Hc Hk.
  apply list_lookup_insert_Some in Ha as [(<- & <- & _)|[Hia Ha]];
    apply list_lookup_insert_Some in Hc as [(<- & <- & _)|[Hic Hc]].
  - by left.
  - destruct (Hf k); [by eapply list_elem_of_lookup_2|done].
  - destruct (Hf m); [by eapply list_elem_of_lookup_2|done].
  - by eapply Hd.
Qed.

Lemma keys_distinct_insert_same l i m n : keys_distinct l -> l !! i = Some m ->
  node_key m = node_key n -> keys_distinct (<[i := n]> l).
Proof.
  intros Hd Hi Hmn a c x y Ha Hc Hxy.
  apply list_lookup_insert_Some in Ha as [(<- & <- & _)|[Hia Ha]];
    apply list_lookup_insert_Some in Hc as [(<- & <- & _)|[Hic Hc]].
  - by left.
  - rewrite <- Hmn in Hxy |- *. by eapply Hd.
  - destruct (Hd i a m x Hi Ha) as [->|Hp]; [congruence|by left|]. right. congruence.
  - by eapply Hd.
Qed.

Lemma add_result_bucket_ok P own now b n ok b' : add_result now b n ok b' -> bucket_ok P own b ->
  sha_ok (id n) -> P (id_prefix own (id n)) -> bucket_ok P own b'.
Proof.
  intros Hr (Hl & Hn & Hk) Hid HP. split; [by rewrite (add_result_length _ _ _ _ _ Hr)|]. split.
  - intros m Hm. destruct (add_result_sub _ _ _ _ _ _ Hr Hm) as [Hin|[-> Hs]]; [auto|].
    split; [done|]. done.
  - destruct Hr; cbn [nodes]; try done; [by eapply keys_distinct_insert_same|by eapply keys_distinct_insert_fresh].
Qed.

(** Slots that hold a bad node. *)
Definition bad_slots (now : DateTime) (b : Bucket) : nat :=
  length (List.filter (fun n => bool_decide (status now n = Bad)) (nodes b)).

Lemma filter_insert_count {A} (p : A -> bool) (l : list A) i x :
  (length (List.filter p l) <= S (length (List.filter p (<[i := x]> l))))%nat.
Proof.
  revert i. induction l as [|y l IH]; intros [|i]; simpl; try lia.
  - destruct (p y), (p x); simpl; lia.
  - specialize (IH i). destruct (p y); simpl; lia.
Qed.

Lemma bad_slots_new now : bad_slots now Bucket_new = MAX_BUCKET_SIZE.
Proof.
  assert (Hp : bool_decide (status now placeholder = Bad) = true) by (by apply bool_decide_eq_true).
  unfold bad_slots, Bucket_new. cbn [nodes List.filter]. by rewrite !Hp.
Qed.

Lemma bad_slots_Some now b k : (S k <= bad_slots now b)%nat -> exists m, m ∈ nodes b /\ status now m = Bad.
Proof.
  unfold bad_slots. destruct (List.filter _ (nodes b)) as [|m l] eqn:E; [simpl; lia|]. intros _. exists m.
  assert (Hin : List.In m (m :: l)) by (by left). rewrite <- E in Hin.
  apply List.filter_In in Hin as [Hin Hb]. apply list_elem_of_In in Hin.
  split; [done|]. by apply bool_decide_eq_true in Hb.
Qed.

(** With a bad slot, a node is always placed and at most one bad slot is used. *)
Lemma add_result_bad_slots now b n ok b' k : add_result now b n ok b' -> (S k <= bad_slots now b)%nat ->
  ok = true /\ (k <= bad_slots now b')%nat.
Proof.
  intros Hr Hk. assert (Hok : ok = true).
  { destruct Hr as [| | | |Hn _ Hall]; try done. destruct (bad_slots_Some _ _ _ Hk) as (m & Hm & Hs).
    apply Hall in Hm. apply rank_not_bad in Hn. unfold rank_of in *. rewrite Hs in Hm. simpl in Hm. lia. }
  split; [done|]. destruct Hr as [|i m| |i m|]; unfold bad_slots in *; cbn [nodes] in *; try lia;
    pose proof (filter_insert_count (fun n => bool_decide (status now n = Bad)) (nodes b) i n); lia.
Qed.

(** ** Good nodes stay *)

(** A good node with the key of [m] is among the slots of [t]. *)
Definition keeps now m t : Prop :=
  exists m', m' ∈ table_nodes t /\ node_key m' = node_key m /\ status now m' = Good.

Lemma elem_table_nodes n t : n ∈ table_nodes t <-> exists i b, buckets t !! i = Some b /\ n ∈ nodes b.
Proof.
  unfold table_nodes. rewrite list_elem_of_In, List.in_concat. split.
  - intros (l & Hl & Hn). apply List.in_map_iff in Hl as (b & <- & Hb).
    apply list_elem_of_In, list_elem_of_lookup in Hb as [i Hi]. exists i, b. split; [done|]. by apply list_elem_of_In.
  - intros (i & b & Hi & Hn). exists (nodes b). split; [|by apply list_elem_of_In].
    apply List.in_map, list_elem_of_In. by eapply list_elem_of_lookup_2.
Qed.

Lemma rank_Good now n : (2 <= rank_of now n)%nat <-> status now n = Good.
Proof. unfold rank_of. destruct (status now n); simpl; split; (done || lia). Qed.

Lemma set_bucket_elem t i b n : (i < length (buckets t))%nat -> n ∈ nodes b -> n ∈ table_nodes (set_bucket t i b).
Proof. intros Hi Hn. apply elem_table_nodes. exists i, b. split; [|done]. by apply list_lookup_insert_eq. Qed.

Lemma keeps_set_bucket now m t i b n ok b' : buckets t !! i = Some b -> add_result now b n ok b' ->
  keeps now m t -> keeps now m (set_bucket t i b').
Proof.
  intros Hi Hr (m' & Hm & Hk & Hg). apply elem_table_nodes in Hm as (j & c & Hj & Hm).
  assert (Hlt : (i < length (buckets t))%nat) by (by eapply lookup_lt_Some).
  destruct (decide (i = j)) as [<-|Hne].
  - rewrite Hi in Hj. injection Hj as <-. apply list_elem_of_lookup in Hm as [s Hs].
    destruct (add_result_slot _ _ _ _ _ _ _ Hr Hs) as [Hin|[Hin Hrank]]; apply list_elem_of_lookup_2 in Hin.
    + exists m'. split; [by apply set_bucket_elem|done].
    + exists n. split; [by apply set_bucket_elem|]. apply rank_Good in Hg. destruct Hrank as [[Hkey Hrank]|Hrank].
      * split; [congruence|]. apply rank_Good. lia.
      * unfold rank_of in Hrank at 2. destruct (status now n); simpl in Hrank; lia.
  - exists m'. split; [|done]. apply elem_table_nodes. exists j, c. split; [|done].
    cbn [set_bucket buckets]. by rewrite list_lookup_insert_ne.
Qed.

(** ** One placement *)

Lemma bucket_placement_lt k len : (1 <= len)%nat -> (bucket_placement k len < len)%nat.
Proof. unfold bucket_placement. intros. destruct (Nat.leb_spec len k); lia. Qed.

Lemma bucket_placement_placed k len : (1 <= len)%nat -> (k < MAX_BUCKETS)%nat ->
  placed len (bucket_placement k len) k.
Proof.
  intros Hl Hk. split; [done|]. unfold bucket_placement.
  destruct (Nat.leb_spec len k); [rewrite Nat.eqb_refl; lia|].
  destruct (Nat.eqb_spec k (len - 1)); lia.
Qed.

Lemma length_set_bucket t i b : length (buckets (set_bucket t i b)) = length (buckets t).
Proof. apply length_insert. Qed.

Lemma set_bucket_ok t i b : table_ok t -> (i < length (buckets t))%nat ->
  bucket_ok (placed (length (buckets t)) i) (table_id t) b -> table_ok (set_bucket t i b).
Proof.
  intros (Hid & Hlen & Hb) Hi Hnew. split; [done|]. rewrite length_set_bucket. split; [done|].
  intros j c Hj. apply list_lookup_insert_Some in Hj as [(<- & <- & _)|[_ Hj]]; [done|by apply Hb].
Qed.

(** The bucket a node goes to exists; the outcome of the attempt. *)
Lemma placement_step now t n : table_ok t -> sha_ok (id n) ->
  (id_prefix (table_id t) (id n) < MAX_BUCKETS)%nat ->
  let i := bucket_placement (id_prefix (table_id t) (id n)) (length (buckets t)) in
  exists b ok b', buckets t !! i = Some b /\ Bucket_add_node now b n = Ok (ok, b') /\
    add_result now b n ok b' /\ table_ok (set_bucket t i b').
Proof.
  intros Ht Hn Hk i. pose proof Ht as (Hid & Hlen & Hb).
  assert (Hi : (i < length (buckets t))%nat) by (apply bucket_placement_lt; lia).
  destruct (lookup_lt_is_Some_2 (buckets t) i Hi) as [b Eb].
  destruct (Bucket_add_node_result now b n) as (ok & b' & Ha & Hr). exists b, ok, b'.
  split; [done|]. split; [done|]. split; [done|]. apply set_bucket_ok; [done|done|].
  eapply add_result_bucket_ok; [done|by apply Hb|done|]. apply bucket_placement_placed; lia.
Qed.

Lemma leading_bit_count_id_prefix (x y : ShaHash) :
  sha_ok x -> sha_ok y -> leading_bit_count x y = Ok (id_prefix x y).
Proof. apply leading_bit_count_prefix. Qed.

Lemma bucket_node_step fuel now t n k :
  bucket_node (S fuel) now t n k =
    let bucket_index := bucket_placement k (length (buckets t)) in
    let? bucket := or_panic (buckets t !! bucket_index) in
    let? (added, bucket) := Bucket_add_node now bucket n in
    let t := set_bucket t bucket_index bucket in
    if negb added then
      let? (split, t) := split_bucket fuel now t bucket_index in
      if split : bool then bucket_node fuel now t n k else Ok t
    else Ok t.
Proof. done. Qed.

Lemma add_node_step fuel now t n :
  add_node (S fuel) now t n =
    if decide (status now n = Bad) then Ok t
    else
      let? num_same_bits := leading_bit_count (table_id t) (id n) in
      if negb (num_same_bits =? MAX_BUCKETS)%nat then bucket_node fuel now t n num_same_bits else Ok t.
Proof. done. Qed.

(** ** Redistribution of a split bucket *)

(** The last two buckets still have [k] bad slots each. *)
Definition room now t k : Prop :=
  forall i b, (length (buckets t) - 2 <= i)%nat -> buckets t !! i = Some b -> (k <= bad_slots now b)%nat.

(** What is required of the nodes to distribute over the last two of [len] buckets. *)
Definition spreadable (own : ShaHash) (len : nat) (n : Node) : Prop :=
  sha_ok (id n) /\ (live n -> (len - 2 <= id_prefix own (id n) < MAX_BUCKETS)%nat).

Lemma readd_one fuel now t n k : table_ok t -> (2 <= length (buckets t))%nat -> room now t (S k) ->
  spreadable (table_id t) (length (buckets t)) n -> status now n <> Bad ->
  exists t', add_node (S (S fuel)) now t n = Ok t' /\ table_ok t' /\ table_id t' = table_id t /\
    length (buckets t') = length (buckets t) /\ room now t' k /\
    (forall m, keeps now m t -> keeps now m t') /\ (status now n = Good -> keeps now n t').
Proof.
  intros Ht H2 Hroom [Hn Hpre] Hs. rewrite add_node_step. destruct (decide _); [done|].
  pose proof Ht as (Hid & _). rewrite leading_bit_count_id_prefix by done. cbn [res_bind].
  destruct (Hpre (status_live _ _ Hs)) as [Hlo Hhi].
  destruct (Nat.eqb_spec (id_prefix (table_id t) (id n)) MAX_BUCKETS); [lia|]. cbn [negb].
  destruct (placement_step now t n Ht Hn Hhi) as (b & ok & b' & Eb & Ha & Hr & Hok).
  set (i := bucket_placement _ _) in *.
  assert (Hi : (length (buckets t) - 2 <= i)%nat).
  { unfold i, bucket_placement. destruct (Nat.leb_spec (length (buckets t)) (id_prefix (table_id t) (id n))); lia. }
  destruct (add_result_bad_slots _ _ _ _ _ k Hr) as [-> Hk]; [by eapply Hroom|].
  exists (set_bucket t i b'). rewrite bucket_node_step. cbv zeta. fold i. rewrite Eb. cbn [or_panic res_bind].
  rewrite Ha. cbn [res_bind negb]. split; [done|]. split; [done|]. split; [done|].
  split; [apply length_set_bucket|]. split; [|split].
  - intros j c Hj Hc. rewrite length_set_bucket in Hj.
    apply list_lookup_insert_Some in Hc as [(<- & <- & _)|[_ Hc]]; [done|]. specialize (Hroom j c Hj Hc). lia.
  - intros m. by eapply keeps_set_bucket.
  - intros Hg. destruct (add_result_placed _ _ _ _ Hr Hs) as (m & Hm & Hkey & Hrank). exists m.
    split; [apply set_bucket_elem; [by eapply lookup_lt_Some|done]|]. split; [done|].
    apply rank_Good. apply rank_Good in Hg. lia.
Qed.

Lemma foldl_res_stop {A B} (f : A -> B -> res unit A) (l : list B) (r : res unit A) :
  (forall a, r <> Ok a) -> foldl (fun acc x => res_bind acc (fun a => f a x)) r l = r.
Proof. intros Hr. induction l as [|x l IH]; [done|]. simpl. destruct r; simpl; auto. by destruct (Hr a). Qed.

Lemma readd_all fuel now l : forall t, table_ok t -> (2 <= length (buckets t))%nat ->
  room now t (length l) -> Forall (spreadable (table_id t) (length (buckets t))) l ->
  exists t', foldl (fun acc node => let? t := acc in add_node (S (S fuel)) now t node) (Ok t) l = Ok t' /\
    table_ok t' /\ table_id t' = table_id t /\ length (buckets t') = length (buckets t) /\
    (forall m, keeps now m t -> keeps now m t') /\
    (forall m, m ∈ l -> status now m = Good -> keeps now m t').
Proof.
  induction l as [|n l IH]; intros t Ht H2 Hroom Hl.
  { exists t. split_and!; auto. by intros m ?%elem_of_nil. }
  apply Forall_cons in Hl as [Hn Hl]. cbn [foldl res_bind].
  destruct (decide (status now n = Bad)) as [Hb|Hb].
  - rewrite add_node_step. destruct (decide _); [|done].
    destruct (IH t) as (t' & E & Ht' & Hid & Hlen & Hk & Hg); try done.
    { intros i b Hi Eb. specialize (Hroom i b Hi Eb). simpl in Hroom. lia. }
    exists t'. rewrite E. split_and!; auto. intros m [->|Hm]%elem_of_cons Hgood; [congruence|auto].
  - destruct (readd_one fuel now t n (length l)) as (t1 & -> & Ht1 & Hid1 & Hlen1 & Hroom1 & Hk1 & Hg1); try done.
    destruct (IH t1) as (t' & E & Ht' & Hid & Hlen & Hk & Hg); try done; [lia|by rewrite Hid1, Hlen1|].
    exists t'. rewrite E. split; [done|]. split; [done|]. split; [congruence|]. split; [congruence|]. split; [auto|].
    intros m [->|Hm]%elem_of_cons Hgood; auto.
Qed.

(** The table right after the split, before the nodes are added again. *)
Definition split_table t : RoutingTable :=
  mkTable (take (length (buckets t) - 1) (buckets t) ++ [Bucket_new] ++ [Bucket_new]) (table_id t).

Lemma length_split_table t : (1 <= length (buckets t))%nat ->
  length (buckets (split_table t)) = S (length (buckets t)).
Proof. intros. unfold split_table. cbn [buckets]. rewrite length_app, length_take. simpl. lia. Qed.

Lemma split_table_lookup t i b : (1 <= length (buckets t))%nat -> buckets (split_table t) !! i = Some b ->
  ((i < length (buckets t) - 1)%nat /\ buckets t !! i = Some b) \/
  ((length (buckets t) - 1 <= i)%nat /\ b = Bucket_new).
Proof.
  intros Hl. unfold split_table. cbn [buckets]. intros Hi.
  assert (Hlen : length (take (length (buckets t) - 1) (buckets t)) = (length (buckets t) - 1)%nat)
    by (rewrite length_take; lia).
  apply lookup_app_Some in Hi as [Hi|[Hge Hi]].
  - apply lookup_take_Some in Hi as [Hi Hlt]. by left.
  - right. rewrite Hlen in *. split; [done|].
    apply list_elem_of_lookup_2 in Hi. cbn [app] in Hi. rewrite !elem_of_cons, elem_of_nil in Hi. naive_solver.
Qed.

Lemma split_table_ok t : table_ok t -> (length (buckets t) < MAX_BUCKETS)%nat -> table_ok (split_table t).
Proof.
  intros (Hid & Hlen & Hb) Hlt. split; [done|]. rewrite length_split_table by lia. split; [lia|].
  intros i b Hi. apply split_table_lookup in Hi as [[Hi Eb]|[Hi ->]]; [|apply bucket_ok_new|lia].
  eapply bucket_ok_impl; [|by apply Hb]. intros k [Hk Hp]. split; [done|].
  destruct (Nat.eqb_spec i (length (buckets t) - 1)); [lia|].
  destruct (Nat.eqb_spec i (S (length (buckets t)) - 1)); lia.
Qed.

Lemma split_table_room now t : (1 <= length (buckets t))%nat -> room now (split_table t) MAX_BUCKET_SIZE.
Proof.
  intros Hl i b Hi Eb. rewrite length_split_table in Hi by done.
  apply split_table_lookup in Eb as [[? _]|[_ ->]]; [lia| |done]. by rewrite bad_slots_new.
Qed.

Lemma split_bucket_total fuel now t : table_ok t -> (length (buckets t) < MAX_BUCKETS)%nat ->
  exists t', split_bucket (S (S (S fuel))) now t (length (buckets t) - 1) = Ok (true, t') /\
    table_ok t' /\ table_id t' = table_id t /\ length (buckets t') = S (length (buckets t)) /\
    (forall m, status now m = Good -> m ∈ table_nodes t -> keeps now m t').
Proof.
  intros Ht Hlt. pose proof Ht as (Hid & Hlen & Hb).
  destruct (last (buckets t)) as [b|] eqn:El; [|apply last_None in El; rewrite El in Hlen; simpl in Hlen; lia].
  rewrite last_lookup in El. replace (pred (length (buckets t))) with (length (buckets t) - 1)%nat in El by lia.
  destruct (Hb _ _ El) as (H8 & Hin & _).
  destruct (readd_all fuel now (nodes b) (split_table t)) as (t' & E & Ht' & Hid' & Hlen' & Hk & Hg).
  - by apply split_table_ok.
  - rewrite length_split_table; lia.
  - rewrite H8. apply split_table_room. lia.
  - rewrite length_split_table by lia. apply Forall_forall. intros n Hn. destruct (Hin n Hn) as [Hs Hp].
    split; [done|]. intros Hlive. destruct (Hp Hlive) as [Hmax Hpl]. rewrite Nat.eqb_refl in Hpl. simpl. lia.
  - exists t'. split; [|split; [done|split; [done|split]]].
    + cbn [split_bucket]. unfold can_split_bucket. rewrite Nat.eqb_refl.
      destruct (Nat.eqb_spec (length (buckets t) - 1) (MAX_BUCKETS - 1)); [lia|]. cbn [negb andb].
      rewrite last_lookup. replace (pred (length (buckets t))) with (length (buckets t) - 1)%nat by lia.
      rewrite El. fold (split_table t). rewrite E. done.
    + rewrite Hlen'. apply length_split_table. lia.
    + intros m Hgood Hm. apply elem_table_nodes in Hm as (i & c & Hi & Hm).
      destruct (decide (i = length (buckets t) - 1)%nat) as [->|Hne]; [rewrite El in Hi; injection Hi as ->; auto|].
      apply Hk. exists m. split; [|done]. apply elem_table_nodes. exists i, c. split; [|done].
      apply lookup_lt_Some in Hi as Hi'. unfold split_table. cbn [buckets].
      rewrite lookup_app_l by (rewrite length_take; lia). by rewrite lookup_take_lt by lia.
Qed.

(** ** [bucket_node] *)

(** Where a node that was not stored would have gone: a bucket that cannot be split
    and whose every slot holds a node at least as good. *)
Definition refused now t n : Prop :=
  exists i b, buckets t !! i = Some b /\
    i = bucket_placement (id_prefix (table_id t) (id n)) (length (buckets t)) /\
    can_split_bucket (length (buckets t)) i = false /\
    forall m, m ∈ nodes b -> node_key m <> node_key n /\ (rank_of now n <= rank_of now m)%nat.

Definition stored now t n : Prop :=
  exists m, m ∈ table_nodes t /\ node_key m = node_key n /\ (rank_of now n <= rank_of now m)%nat.

(** The outcome of adding [n] to [t]. *)
Definition added now t n t' : Prop :=
  table_ok t' /\ table_id t' = table_id t /\ (length (buckets t) <= length (buckets t'))%nat /\
  (forall m, status now m = Good -> m ∈ table_nodes t -> keeps now m t') /\
  (stored now t' n \/ refused now t' n).

Lemma keeps_of_elem now m t : m ∈ table_nodes t -> status now m = Good -> keeps now m t.
Proof. intros. by exists m. Qed.

Lemma added_placed now t n i b b' : table_ok (set_bucket t i b') -> buckets t !! i = Some b ->
  add_result now b n true b' -> status now n <> Bad -> added now t n (set_bucket t i b').
Proof.
  intros Hok Hi Hr Hs. split_and!; [done|done|by rewrite length_set_bucket| |left].
  - intros m Hg Hm. by eapply keeps_set_bucket, keeps_of_elem.
  - destruct (add_result_placed _ _ _ _ Hr Hs) as (m & Hm & Hkey & Hrank). exists m.
    split; [|done]. apply set_bucket_elem; [by eapply lookup_lt_Some|done].
Qed.

Lemma added_refused now t n b b' : let i := bucket_placement (id_prefix (table_id t) (id n)) (length (buckets t)) in
  table_ok (set_bucket t i b') -> buckets t !! i = Some b -> add_result now b n false b' ->
  can_split_bucket (length (buckets t)) i = false -> added now t n (set_bucket t i b').
Proof.
  intros i Hok Hi Hr Hc. split_and!; [done|done|by rewrite length_set_bucket| |right].
  - intros m Hg Hm. by eapply keeps_set_bucket, keeps_of_elem.
  - exists i, b'. rewrite length_set_bucket. cbn [set_bucket buckets table_id]. split_and!; [|done|done|].
    + apply list_lookup_insert_eq. by eapply lookup_lt_Some.
    + inversion Hr; subst. auto.
Qed.

(** Adding after a step that kept the good nodes. *)
Lemma added_after now t t1 n t' : table_id t1 = table_id t -> (length (buckets t) <= length (buckets t1))%nat ->
  (forall m, status now m = Good -> m ∈ table_nodes t -> keeps now m t1) ->
  added now t1 n t' -> added now t n t'.
Proof.
  intros Hid Hlen Hkeep (Hok & Hid' & Hlen' & Hkeep' & Hst). split_and!; [done|congruence|lia| |done].
  intros m Hg Hm. destruct (Hkeep m Hg Hm) as (m1 & Hm1 & Hkey1 & Hg1).
  destruct (Hkeep' m1 Hg1 Hm1) as (m2 & Hm2 & Hkey2 & Hg2). exists m2. split_and!; [done|congruence|done].
Qed.

Lemma split_bucket_refuses fuel now t i : can_split_bucket (length (buckets t)) i = false ->
  split_bucket (S fuel) now t i = Ok (false, t).
Proof. intros Hc. cbn [split_bucket]. by rewrite Hc. Qed.

Lemma can_split_bucket_true len i : can_split_bucket len i = true -> (1 <= len <= MAX_BUCKETS)%nat ->
  i = (len - 1)%nat /\ (len < MAX_BUCKETS)%nat.
Proof.
  unfold can_split_bucket. intros [Ei%Nat.eqb_eq Em%negb_true_iff%Nat.eqb_neq]%andb_true_iff Hl.
  split; [done|]. unfold MAX_BUCKETS, SHA_HASH_LEN in *. lia.
Qed.

Lemma bucket_node_total now n (d : nat) : forall fuel t, table_ok t -> sha_ok (id n) -> status now n <> Bad ->
  (id_prefix (table_id t) (id n) < MAX_BUCKETS)%nat ->
  (MAX_BUCKETS - length (buckets t) <= d)%nat -> (d + 4 <= fuel)%nat ->
  exists t', bucket_node fuel now t n (id_prefix (table_id t) (id n)) = Ok t' /\ added now t n t'.
Proof.
  induction d as [d IH] using lt_wf_ind. intros [|fuel] t Ht Hn Hs Hk Hd Hfuel; [lia|]. rewrite bucket_node_step. cbv zeta.
  destruct (placement_step now t n Ht Hn Hk) as (b & ok & b' & Eb & Ha & Hr & Hok).
  set (i := bucket_placement _ _) in *. rewrite Eb. cbn [or_panic res_bind]. rewrite Ha. cbn [res_bind].
  destruct ok; cbn [negb]; [eexists; split; [done|by eapply added_placed]|].
  pose proof Ht as (_ & Hlen & _). assert (El : length (buckets (set_bucket t i b')) = length (buckets t)) by apply length_set_bucket.
  destruct (can_split_bucket (length (buckets t)) i) eqn:Ec.
  - destruct (can_split_bucket_true _ _ Ec Hlen) as [Ei Hlt].
    destruct fuel as [|[|[|fuel]]]; try lia.
    destruct (split_bucket_total fuel now (set_bucket t i b')) as (t1 & Es & Ht1 & Hid1 & Hl1 & Hk1); [done|lia|].
    rewrite El, <- Ei in Es. rewrite Es. cbn [res_bind]. cbn [set_bucket table_id] in Hid1. rewrite <- Hid1.
    destruct (IH (d - 1)%nat ltac:(lia) (S (S (S fuel))) t1) as (t' & Et & Hadd); try done; try lia; [by rewrite Hid1|].
    exists t'. split; [done|]. eapply added_after; [done|lia| |done].
    intros m Hg Hm. destruct (keeps_set_bucket now m t i b n false b') as (m1 & Hm1 & Hkey1 & Hg1);
      [done|done|by apply keeps_of_elem|].
    destruct (Hk1 m1 Hg1 Hm1) as (m2 & Hm2 & Hkey2 & Hg2). exists m2. split_and!; [done|congruence|done].
  - destruct fuel as [|fuel]; [lia|]. rewrite split_bucket_refuses by (by rewrite El). cbn [res_bind].
    eexists. split; [done|]. by eapply added_refused.
Qed.

Lemma id_prefix_le (x y : ShaHash) : sha_ok x -> (id_prefix x y <= MAX_BUCKETS)%nat.
Proof.
  intros [Hl _]. unfold id_prefix. etransitivity; [apply common_prefix_le|]. by rewrite length_bytes_bits, Hl.
Qed.

Lemma add_node_total now t n : table_ok t -> sha_ok (id n) ->
  exists t', RoutingTable_add_node now t n = Ok t' /\
    ((t' = t /\ (status now n = Bad \/ id_prefix (table_id t) (id n) = MAX_BUCKETS)) \/
     (status now n <> Bad /\ (id_prefix (table_id t) (id n) < MAX_BUCKETS)%nat /\ added now t n t')).
Proof.
  intros Ht Hn. unfold RoutingTable_add_node, TABLE_FUEL. rewrite Nat.add_comm. cbn [Nat.add].
  rewrite add_node_step. destruct (decide (status now n = Bad)) as [Hb|Hb]; [exists t; auto|].
  pose proof Ht as (Hid & Hlen & _). rewrite leading_bit_count_id_prefix by done. cbn [res_bind].
  destruct (Nat.eqb_spec (id_prefix (table_id t) (id n)) MAX_BUCKETS) as [He|He]; cbn [negb]; [exists t; auto|].
  pose proof (id_prefix_le (table_id t) (id n) Hid).
  destruct (bucket_node_total now n (MAX_BUCKETS - length (buckets t)) (S (S (S (S MAX_BUCKETS)))) t)
    as (t' & Et & Hadd); try done; try lia.
  exists t'. split; [done|]. right. split; [done|]. split; [lia|done].
Qed.
End Facts.

(** * Properties of the routing table

    The invariant along every history of insertions, the fate of good and of new
    nodes in one insertion, and what [find_node] finds. *)

Section Spec.
Context `{Chrono}.

(** A history of insertions, each with the time at which it runs. *)
Fixpoint run_adds (t : RoutingTable) (ops : list (DateTime * Node)) : res unit RoutingTable :=
  match ops with
  | [] => Ok t
  | (now, n) :: ops => let? t := RoutingTable_add_node now t n in run_adds t ops
  end.

Lemma add_node_keeps_ok now t n : table_ok t -> sha_ok (id n) ->
  exists t', RoutingTable_add_node now t n = Ok t' /\ table_ok t' /\ table_id t' = table_id t /\
    (length (buckets t) <= length (buckets t'))%nat.
Proof.
  intros Ht Hn. destruct (add_node_total now t n Ht Hn) as (t' & -> & [[-> _]|(_ & _ & Hok & Hid & Hlen & _)]); eauto 6.
Qed.

Lemma run_adds_ok ops : forall t, table_ok t -> Forall (fun o => sha_ok (id (snd o))) ops ->
  exists t', run_adds t ops = Ok t' /\ table_ok t' /\ table_id t' = table_id t.
Proof.
  induction ops as [|[now n] ops IH]; intros t Ht Ho; [by exists t|]. apply Forall_cons in Ho as [Hn Ho]. cbn [run_adds snd] in *.
  destruct (add_node_keeps_ok now t n Ht Hn) as (t1 & -> & Ht1 & Hid1 & _). cbn [res_bind].
  destruct (IH t1 Ht1 Ho) as (t' & -> & Ht' & Hid'). exists t'. split_and!; [done|done|congruence].
Qed.

Lemma RoutingTable_new_ok own : sha_ok own -> table_ok (RoutingTable_new own).
Proof.
  intros Ho. split; [done|]. split; [unfold MAX_BUCKETS, SHA_HASH_LEN; simpl; lia|].
  intros [|i] b Hi; [|done]. injection Hi as <-. apply bucket_ok_new.
Qed.

Lemma placed_inj len i j k : placed len i k -> placed len j k -> (i < len)%nat -> (j < len)%nat -> i = j.
Proof.
  intros [_ Hi] [_ Hj] Hil Hjl. destruct (Nat.eqb_spec i (len - 1)), (Nat.eqb_spec j (len - 1)); lia.
Qed.

(** The slot [p] of bucket [i] holds [m]. *)
Definition slot (t : RoutingTable) (i p : nat) (m : Node) : Prop :=
  exists b, buckets t !! i = Some b /\ nodes b !! p = Some m.

Lemma table_unique t i j p q m n : table_ok t -> slot t i p m -> slot t j q n -> live m -> live n ->
  node_key m = node_key n -> node_key m <> node_key placeholder -> i = j /\ p = q.
Proof.
  intros (_ & _ & Hb) (b & Hi & Hp) (c & Hj & Hq) Hm Hn Hk Hne.
  destruct (Hb _ _ Hi) as (_ & Hin & Hd), (Hb _ _ Hj) as (_ & Hjn & _).
  destruct (Hin m) as [_ Hpm]; [by eapply list_elem_of_lookup_2|].
  destruct (Hjn n) as [_ Hpn]; [by eapply list_elem_of_lookup_2|].
  assert (id m = id n) as E by (by injection Hk). rewrite E in Hpm.
  assert (i = j) as <- by (eapply placed_inj; eauto using lookup_lt_Some).
  split; [done|]. rewrite Hi in Hj. injection Hj as <-. by destruct (Hd _ _ _ _ Hp Hq Hk).
Qed.

(** C21: every history of insertions into a new table runs to the end, without a
    panic and within the recursion bound, and gives a table in which there are at
    most 160 buckets of eight slots, every contact sits in the bucket given by the
    number of leading bits it shares with our id (the last bucket taking all closer
    ones), our own id is never stored, and no contact is stored twice. *)
Theorem routing_table_invariant (own : ShaHash) (ops : list (DateTime * Node)) :
  sha_ok own -> Forall (fun o => sha_ok (id (snd o))) ops ->
  exists t, run_adds (RoutingTable_new own) ops = Ok t /\ table_id t = own /\
    (1 <= length (buckets t) <= MAX_BUCKETS)%nat /\
    (forall i b, buckets t !! i = Some b -> length (nodes b) = MAX_BUCKET_SIZE) /\
    (forall i p m, slot t i p m -> live m ->
       placed (length (buckets t)) i (id_prefix own (id m)) /\ id m <> own) /\
    (forall i j p q m n, slot t i p m -> slot t j q n -> live m -> live n ->
       node_key m = node_key n -> node_key m <> node_key placeholder -> i = j /\ p = q).
Proof.
  intros Hown Hops. destruct (run_adds_ok ops (RoutingTable_new own)) as (t & Et & Ht & Hid); [by apply RoutingTable_new_ok|done|].
  exists t. cbn in Hid. pose proof Ht as (_ & Hlen & Hb). split; [done|]. split; [done|]. split; [done|]. split; [|split].
  - intros i b Hi. by destruct (Hb i b Hi) as [? _].
  - intros i p m (b & Hi & Hp) Hm. destruct (Hb i b Hi) as (_ & Hn & _).
    destruct (Hn m) as [Hsm Hpm]; [by eapply list_elem_of_lookup_2|]. rewrite Hid in Hpm. specialize (Hpm Hm).
    split; [done|]. intros Heq. rewrite Heq in Hpm. destruct Hpm as [Hlt _]. revert Hlt. unfold id_prefix.
    rewrite (proj2 (common_prefix_full _ _ eq_refl) eq_refl), length_bytes_bits. destruct Hown as [-> _]. apply Nat.lt_irrefl.
  - intros. by eapply table_unique.
Qed.

Lemma id_prefix_lt x y : sha_ok x -> sha_ok y -> y <> x -> (id_prefix x y < MAX_BUCKETS)%nat.
Proof.
  intros Hx [Hl' Hb'] Hne. pose proof (id_prefix_le x y Hx) as Hle. destruct Hx as [Hl Hb].
  apply Nat.le_lteq in Hle as [?|Hc]; [done|]. destruct Hne. unfold id_prefix in Hc.
  replace MAX_BUCKETS with (length (bytes_bits (sha_bytes x))) in Hc by (by rewrite length_bytes_bits, Hl).
  rewrite common_prefix_full in Hc by (by rewrite !length_bytes_bits, Hl, Hl').
  apply bytes_bits_inj in Hc; [|done|done|congruence]. by destruct x, y; simpl in *; subst.
Qed.

(** Inserting a node never loses a good one: every contact that is good at that
    time is still in the table afterwards and good, also when the insertion splits
    buckets and redistributes their nodes. The new node itself, unless bad or with
    our own id, is stored with at least its status, or the bucket it belongs to
    cannot be split and holds eight other nodes that are at least as good. *)
Lemma table_add_node_keeps_good (now : DateTime) (t : RoutingTable) (n : Node) :
  table_ok t -> sha_ok (id n) ->
  exists t', RoutingTable_add_node now t n = Ok t' /\ table_ok t' /\
    (forall m, m ∈ table_nodes t -> status now m = Good ->
       exists m', m' ∈ table_nodes t' /\ node_key m' = node_key m /\ status now m' = Good) /\
    (status now n <> Bad -> id n <> table_id t -> stored now t' n \/ refused now t' n).
Proof.
  intros Ht Hn. destruct (add_node_total now t n Ht Hn) as (t' & -> & Hcase). exists t'. split; [done|].
  destruct Hcase as [[-> Hc]|(Hs & Hk & Hok & Hid & Hlen & Hkeep & Hst)].
  - split; [done|]. split; [eauto|]. intros Hs Hne. destruct Hc as [?|Hc]; [done|].
    pose proof (id_prefix_lt (table_id t) (id n) (proj1 Ht) Hn Hne). lia.
  - split; [done|]. split; [|auto]. intros m Hm Hg. by apply Hkeep.
Qed.

(** ** [find_node] *)

(** Whether the bucket for prefix length [k] is split out of the last one. *)
Definition split_out (len k : nat) : bool := (k + 1 <? len)%nat || (len =? MAX_BUCKETS)%nat.

Lemma Buckets_next_below bs i : (i < MAX_BUCKETS)%nat ->
  (length bs <= MAX_BUCKETS)%nat ->
  exists c, Buckets_next bs i = Ok (Some c) /\
    match c with
    | Sorted b => split_out (length bs) i = true /\ bs !! i = Some b
    | Empty => split_out (length bs) i = false
    | Assorted _ => False
    end.
Proof.
  intros Hi Hl. unfold Buckets_next. destruct (Nat.ltb_spec MAX_BUCKETS i); [lia|].
  destruct (Nat.eqb_spec i MAX_BUCKETS); [lia|]. fold (split_out (length bs) i).
  destruct (split_out (length bs) i) eqn:Es; [|by eexists].
  assert (Hlt : (i < length bs)%nat).
  { unfold split_out in Es. apply orb_true_iff in Es as [?%Nat.ltb_lt|?%Nat.eqb_eq]; lia. }
  destruct (lookup_lt_is_Some_2 bs i Hlt) as [b Eb]. rewrite Eb. by exists (Sorted b).
Qed.

Lemma buckets_skip_below bs k : forall i, (i + k < MAX_BUCKETS)%nat -> (length bs <= MAX_BUCKETS)%nat ->
  buckets_skip_next bs i k = Buckets_next bs (i + k).
Proof.
  induction k as [|k IH]; intros i Hi Hl; [by rewrite Nat.add_0_r|]. cbn [buckets_skip_next].
  destruct (Buckets_next_below bs i) as (c & -> & _); [lia|done|]. cbn [res_bind].
  rewrite IH by lia. f_equal. lia.
Qed.

(** [find_node] looks only into buckets that were split out: for a node whose
    bucket exists on its own it finds the pingable node with the same id and address,
    if there is one; for a node whose place is the shared last bucket it answers
    [None], whatever that bucket holds. *)
Lemma find_node_only_split_out (now : DateTime) (t : RoutingTable) (n : Node) :
  table_ok t -> sha_ok (id n) -> id n <> table_id t ->
  let k := id_prefix (table_id t) (id n) in
  if split_out (length (buckets t)) k
  then exists b, buckets t !! k = Some b /\
    RoutingTable_find_node now t n = Ok (List.find (fun m => node_eqb m n) (Bucket_pingable_nodes now b))
  else RoutingTable_find_node now t n = Ok None.
Proof.
  intros (Hid & Hlen & _) Hn Hne k. unfold RoutingTable_find_node.
  rewrite leading_bit_count_id_prefix by done. fold k. cbn [res_bind].
  assert (Hk : (k < MAX_BUCKETS)%nat) by (by apply id_prefix_lt).
  rewrite buckets_skip_below, Nat.add_0_l by lia. destruct (Buckets_next_below (buckets t) k) as (c & -> & Hc); [done|lia|].
  cbn [res_bind]. destruct c as [|b|b]; [by rewrite Hc| |done].
  destruct Hc as [-> Hb]. by exists b.
Qed.
End Spec.

(** Ids for the witnesses: ours is all ones, [k] bytes of it are shared. *)
Definition sample_id (k : nat) (x : Z) : ShaHash := mkShaHash (replicate k 255 ++ replicate (20 - k) x).
Definition sample_contact (k : nat) (x : Z) (minute : Z) : @Node chrono_Z :=
  @as_good chrono_Z (minute * NS_PER_MINUTE) (sample_id k x) (V4 (SocketAddrV4_new (Ipv4Addr_new 10 0 0 x) 6881)).
Definition sample_own : ShaHash := sample_id 20 0.

(** Ten good contacts: nine in the lower half of the id space, one close to us. *)
Definition sample_ops : list (@DateTime chrono_Z * @Node chrono_Z) :=
  map (fun x => (sample_now, sample_contact 0 x 18)) [1; 2; 3; 4; 5; 6; 7; 8; 9] ++ [(sample_now, sample_contact 1 3 18)].

Lemma sample_ids_ok : Forall (fun o => sha_ok (id (snd o))) sample_ops.
Proof. repeat constructor; apply (bool_decide_unpack _); vm_compute; exact I. Defined.

Lemma sample_own_ok : sha_ok sample_own.
Proof. split; [reflexivity|]. apply (bool_decide_unpack _). vm_compute. exact I. Defined.

Lemma routing_table_invariant_witness :
  exists t, run_adds (RoutingTable_new sample_own) sample_ops = Ok t /\ table_id t = sample_own.
Proof.
  destruct (routing_table_invariant sample_own sample_ops sample_own_ok sample_ids_ok) as (t & H1 & H2 & _). eauto.
Defined.

Lemma table_add_node_keeps_good_witness :
  exists t', RoutingTable_add_node sample_now (RoutingTable_new sample_own) (sample_contact 1 3 18) = Ok t' /\ table_ok t'.
Proof.
  destruct (table_add_node_keeps_good sample_now (RoutingTable_new sample_own) (sample_contact 1 3 18)) as (t' & H1 & H2 & _).
  - apply RoutingTable_new_ok, sample_own_ok.
  - split; [reflexivity|]. apply (bool_decide_unpack _). vm_compute. exact I.
  - eauto.
Defined.

(** A table with one bucket that holds one contact. *)
Definition sample_table : @RoutingTable chrono_Z :=
  mkTable [mkBucket (sample_contact 1 3 18 :: replicate 7 (@placeholder chrono_Z))] sample_own.

Lemma sample_table_ok : table_ok sample_table.
Proof.
  split; [apply sample_own_ok|]. split; [vm_compute; lia|].
  intros [|i] b Hi; [|done]. injection Hi as <-. split; [done|]. split.
  - intros m Hm. cbn [nodes] in Hm. repeat (apply elem_of_cons in Hm as [->|Hm]); [..|by apply elem_of_nil in Hm].
    1: split; [split; [reflexivity|apply (bool_decide_unpack _); vm_compute; exact I]|]; intros _; split; vm_compute; lia.
    all: split; [apply placeholder_sha|]; intros []; done.
  - intros i j x y Hi Hj Hk. destruct i as [|i]; [injection Hi as <-|right].
    2: change (replicate 7 (@placeholder chrono_Z) !! i = Some x) in Hi; by apply lookup_replicate in Hi as [-> _].
    destruct j as [|j]; [by left|].
    change (replicate 7 (@placeholder chrono_Z) !! j = Some y) in Hj. apply lookup_replicate in Hj as [-> _].
    by vm_compute in Hk.
Qed.

(** A contact stored in the only bucket of a table is not found. *)
Lemma find_node_only_split_out_witness :
  let n := sample_contact 1 3 18 in
  RoutingTable_find_node sample_now sample_table n = Ok None /\ n ∈ table_nodes sample_table.
Proof.
  intros n. split; [|by left]. apply (find_node_only_split_out sample_now sample_table n).
  - apply sample_table_ok.
  - split; [reflexivity|]. apply (bool_decide_unpack _). vm_compute. exact I.
  - vm_compute. discriminate.
Defined.

(** The ten sample contacts: the ninth splits the first bucket, so that the table has
    a sorted bucket of eight and the close contact stays findable only by iteration. *)
Example sample_run :
  match run_adds (RoutingTable_new sample_own) sample_ops with
  | Ok t => map (fun b => length (Bucket_pingable_nodes sample_now b)) (buckets t) = [8%nat; 1%nat]
  | _ => False
  end.
Proof. vm_compute. reflexivity. Qed.
