(* ===== verification/DhtClosest.v ===== *)
(** * The closest-nodes iterator

    Model of [ClosestNodes] in [dht/routing/table.rs]: the iterator that hands out
    the nodes of the routing table bucket by bucket, starting at the bucket of the
    target and alternating to the right and to the left, with the nodes of the
    shared last bucket interleaved where they would belong. The recursion of
    [next] is bounded by fuel. *)

From Stdlib Require Import Permutation.
From S2P Require Import Prelude RustStd UtilSha UtilConvert Chrono DhtNode DhtTable DhtTableSpec.

(** [usize::checked_add] and [usize::checked_sub]. *)
Definition checked_add (a b : nat) : option nat :=
  if Z.of_nat (a + b) <? 2 ^ 64 then Some (a + b)%nat else None.
Definition checked_sub (a b : nat) : option nat := if (b <=? a)%nat then Some (a - b)%nat else None.

Definition index_is_in_bounds (length : nat) (checked_index : option nat) : bool :=
  match checked_index with Some index => (index <? length)%nat | None => false end.

(** The results are always taken from an index known to be in bounds, so the
    [unwrap]s give the checked value itself. *)
Definition next_bucket_index (num_buckets start_index curr_index : nat) : option nat :=
  if (curr_index =? start_index)%nat then
    let right_index := checked_add start_index 1 in
    let left_index := checked_sub start_index 1 in
    if index_is_in_bounds num_buckets right_index then right_index
    else if index_is_in_bounds num_buckets left_index then left_index
    else None
  else if (start_index <? curr_index)%nat then
    let offset := (curr_index - start_index)%nat in
    let left_index := checked_sub start_index offset in
    let right_index := checked_add curr_index 1 in
    if index_is_in_bounds num_buckets left_index then left_index
    else if index_is_in_bounds num_buckets right_index then right_index
    else None
  else
    let offset := (start_index - curr_index + 1)%nat in
    let right_index := checked_add start_index offset in
    let left_index := checked_sub curr_index 1 in
    if index_is_in_bounds num_buckets right_index then right_index
    else if index_is_in_bounds num_buckets left_index then left_index
    else None.

(** (bucket index, node, returned before) *)
Abbreviation assorted_entry := (nat * Node * bool)%type.

Section Closest.
Context `{Chrono}.

Definition is_good_node (now : DateTime) (n : Node) : bool :=
  let s := status now n in bool_decide (s = Good) || bool_decide (s = Questionable).

(** An iterator over a slice is the list of what is left of it. *)
Definition bucket_iterator (bs : list Bucket) (index : nat) : option (list Node) :=
  let visible := if (length bs =? MAX_BUCKETS)%nat then bs else take (length bs - 1) bs in
  nodes <$> visible !! index.

(** One round of the loop that fills the array. *)
Definition precompute_step (self_node_id : ShaHash) (acc : res unit (list assorted_entry))
    (p : nat * Node) : res unit (list assorted_entry) :=
  let '(index, node) := p in
  let? assorted := acc in
  let? bucket_index := leading_bit_count self_node_id (id node) in
  if (index <? length assorted)%nat then Ok (<[index := (bucket_index, node, false)]> assorted) else Panic.

Definition precompute_assorted_nodes (bs : list Bucket) (self_node_id : ShaHash)
    : res unit (option (list assorted_entry)) :=
  if (length bs =? MAX_BUCKETS)%nat then Ok None
  else
    let? assorted_bucket := or_panic (bs !! (length bs - 1)%nat) in
    match nodes assorted_bucket with
    | [] => Ok None
    | init_reference :: _ =>
        let? assorted_nodes :=
          foldl (precompute_step self_node_id)
            (Ok (replicate MAX_BUCKET_SIZE (0%nat, init_reference, true)))
            (imap pair (nodes assorted_bucket)) in
        Ok (Some assorted_nodes)
    end.

Record ClosestNodes : Type := mkClosest {
  cn_buckets : list Bucket;
  current_iter : option (list Node);
  current_index : nat;
  start_index : nat;
  assorted_nodes : option (list assorted_entry)
}.

Definition ClosestNodes_new (bs : list Bucket) (self_node_id other_node_id : ShaHash) : res unit ClosestNodes :=
  let? start_index := leading_bit_count self_node_id other_node_id in
  let current_iter := bucket_iterator bs start_index in
  let? assorted_nodes := precompute_assorted_nodes bs self_node_id in
  Ok (mkClosest bs current_iter start_index start_index assorted_nodes).

(** [next] of the filtered slice iterator: the next good node and what is left. *)
Fixpoint filter_next (now : DateTime) (l : list Node) : option Node * list Node :=
  match l with
  | [] => (None, [])
  | n :: l => if is_good_node now n then (Some n, l) else filter_next now l
  end.

(** The first good entry of the given bucket that was not returned, now marked. *)
Fixpoint take_assorted (now : DateTime) (index : nat) (l : list assorted_entry)
    : option (Node * list assorted_entry) :=
  match l with
  | [] => None
  | (i, n, ret) :: l =>
      if is_good_node now n && ((i =? index)%nat && negb ret) then Some (n, (i, n, true) :: l)
      else match take_assorted now index l with
           | Some (m, l) => Some (m, (i, n, ret) :: l)
           | None => None
           end
  end.

Fixpoint ClosestNodes_next (fuel : nat) (now : DateTime) (s : ClosestNodes) : res unit (option Node * ClosestNodes) :=
  match fuel with
  | O => OutOfFuel
  | S fuel =>
      let '(found, iter) :=
        match current_iter s with
        | Some l => let '(o, l) := filter_next now l in (o, Some l)
        | None => (None, None)
        end in
      let s := mkClosest (cn_buckets s) iter (current_index s) (start_index s) (assorted_nodes s) in
      match found with
      | Some node => Ok (Some node, s)
      | None =>
          match (match assorted_nodes s with
                 | Some l => take_assorted now (current_index s) l
                 | None => None
                 end) with
          | Some (node, l) =>
              Ok (Some node, mkClosest (cn_buckets s) (current_iter s) (current_index s) (start_index s) (Some l))
          | None =>
              match next_bucket_index MAX_BUCKETS (start_index s) (current_index s) with
              | Some new_index =>
                  ClosestNodes_next fuel now
                    (mkClosest (cn_buckets s) (bucket_iterator (cn_buckets s) new_index) new_index
                       (start_index s) (assorted_nodes s))
              | None => Ok (None, s)
              end
          end
      end
  end.

(** An iterator visits at most [MAX_BUCKETS + 1] buckets. *)
Definition NEXT_FUEL : nat := MAX_BUCKETS + 2.

(** All items of the iterator, for at most [fuel] of them. *)
Fixpoint ClosestNodes_collect (fuel : nat) (now : DateTime) (s : ClosestNodes) : res unit (list Node) :=
  match fuel with
  | O => OutOfFuel
  | S fuel =>
      let? (o, s) := ClosestNodes_next NEXT_FUEL now s in
      match o with
      | Some n => let? l := ClosestNodes_collect fuel now s in Ok (n :: l)
      | None => Ok []
      end
  end.

(** A table has at most [MAX_BUCKETS] buckets of [MAX_BUCKET_SIZE] nodes. *)
Definition COLLECT_FUEL : nat := MAX_BUCKETS * MAX_BUCKET_SIZE + 1.

Definition closest_nodes (now : DateTime) (t : RoutingTable) (node_id : ShaHash) : res unit (list Node) :=
  let? s := ClosestNodes_new (buckets t) (table_id t) node_id in
  ClosestNodes_collect COLLECT_FUEL now s.
End Closest.

(** ** The order in which buckets are visited *)

(** [l] is the sequence of indices visited after [c]. *)
Fixpoint chain (N s c : nat) (l : list nat) : Prop :=
  match l with
  | [] => next_bucket_index N s c = None
  | c' :: l => next_bucket_index N s c = Some c' /\ chain N s c' l
  end.

Section Order.
Context (N s : nat) (HN : Z.of_nat N < 2 ^ 32) (Hs : (s <= N)%nat).

Lemma checked_add_small a b : (a + b <= 3 * N)%nat -> checked_add a b = Some (a + b)%nat.
Proof. intros Hab. unfold checked_add. destruct (Z.ltb_spec (Z.of_nat (a + b)) (2 ^ 64)); [done|lia]. Qed.

Lemma next_start : next_bucket_index N s s =
  if (s + 1 <? N)%nat then Some (s + 1)%nat else if (1 <=? s)%nat then Some (s - 1)%nat else None.
Proof.
  unfold next_bucket_index. rewrite Nat.eqb_refl.
  unfold index_is_in_bounds at 1. unfold checked_add at 1.
  destruct (decide (s + 1 <= 3 * N)%nat).
  - rewrite checked_add_small by done. destruct (Z.ltb_spec (Z.of_nat (s + 1)) (2 ^ 64)); [|lia].
    destruct (Nat.ltb_spec (s + 1) N); [done|]. unfold checked_sub. destruct (Nat.leb_spec 1 s); [|done].
    cbn [index_is_in_bounds]. destruct (Nat.ltb_spec (s - 1) N); [done|lia].
  - assert (N = 0%nat) by lia. assert (s = 0%nat) by lia. subst. done.
Qed.

Lemma next_right d : (1 <= d)%nat -> (s + d < N)%nat -> next_bucket_index N s (s + d) =
  if (d <=? s)%nat then Some (s - d)%nat else if (s + d + 1 <? N)%nat then Some (s + d + 1)%nat else None.
Proof.
  intros Hd Hlt. unfold next_bucket_index. destruct (Nat.eqb_spec (s + d) s); [lia|].
  destruct (Nat.ltb_spec s (s + d)); [|lia]. replace (s + d - s)%nat with d by lia.
  rewrite checked_add_small by lia. unfold checked_sub. destruct (Nat.leb_spec d s); cbn [index_is_in_bounds].
  - destruct (Nat.ltb_spec (s - d) N); [done|lia].
  - destruct (Nat.ltb_spec (s + d + 1) N); done.
Qed.

Lemma next_left d : (1 <= d <= s)%nat -> next_bucket_index N s (s - d) =
  if (s + d + 1 <? N)%nat then Some (s + d + 1)%nat else if (d + 1 <=? s)%nat then Some (s - d - 1)%nat else None.
Proof.
  intros Hd. unfold next_bucket_index. destruct (Nat.eqb_spec (s - d) s); [lia|].
  destruct (Nat.ltb_spec s (s - d)); [lia|]. replace (s - (s - d) + 1)%nat with (d + 1)%nat by lia.
  rewrite checked_add_small by lia. rewrite Nat.add_assoc. cbn [index_is_in_bounds].
  destruct (Nat.ltb_spec (s + d + 1) N); [done|]. unfold checked_sub.
  destruct (Nat.leb_spec 1 (s - d)), (Nat.leb_spec (d + 1) s); try lia; [|done]. cbn [index_is_in_bounds].
  destruct (Nat.ltb_spec (s - d - 1) N); [done|lia].
Qed.

(** The indices still to visit from [s + d], and from [s - d], both included. *)
Definition todo_right (d : nat) : list nat := seq (s + d) (N - s - d) ++ seq 0 (s + 1 - d).
Definition todo_left (d : nat) : list nat := seq 0 (s - d + 1) ++ seq (s + d + 1) (N - s - d - 1).

Lemma todo_right_flip d : (1 <= d <= s)%nat -> (s + d < N)%nat -> (s + d)%nat :: todo_left d ≡ₚ todo_right d.
Proof.
  intros Hd Hlt. unfold todo_left, todo_right. rewrite Permutation_app_comm.
  replace (N - s - d)%nat with (S (N - s - d - 1)) at 2 by lia. cbn [seq app].
  replace (S (s + d)) with (s + d + 1)%nat by lia.
  by replace (s + 1 - d)%nat with (s - d + 1)%nat by lia.
Qed.

Lemma todo_right_go d : (s < d)%nat -> (s + d + 1 < N)%nat -> (s + d)%nat :: todo_right (d + 1) = todo_right d.
Proof.
  intros Hd Hlt. unfold todo_right at 2. replace (N - s - d)%nat with (S (N - s - (d + 1))) by lia.
  cbn [seq app]. unfold todo_right.
  replace (s + 1 - d)%nat with (s + 1 - (d + 1))%nat by lia. by replace (S (s + d)) with (s + (d + 1))%nat by lia.
Qed.

Lemma todo_right_last d : (s < d)%nat -> (s + d + 1)%nat = N -> todo_right d = [(s + d)%nat].
Proof.
  intros Hd Hlt. unfold todo_right. replace (N - s - d)%nat with 1%nat by lia.
  by replace (s + 1 - d)%nat with 0%nat by lia.
Qed.

Lemma todo_left_split d : (d <= s)%nat ->
  todo_left d ≡ₚ (s - d)%nat :: seq 0 (s - d) ++ seq (s + d + 1) (N - s - d - 1).
Proof.
  intros Hd. unfold todo_left. rewrite seq_app. cbn [seq Nat.add]. rewrite <- app_assoc. cbn [app].
  symmetry. apply Permutation_middle.
Qed.

Lemma todo_left_flip d : (1 <= d <= s)%nat -> (s - d)%nat :: todo_right (d + 1) ≡ₚ todo_left d.
Proof.
  intros Hd. rewrite todo_left_split by lia. unfold todo_right. rewrite Nat.add_assoc, Permutation_app_comm.
  replace (s + 1 - (d + 1))%nat with (s - d)%nat by lia. by replace (N - s - (d + 1))%nat with (N - s - d - 1)%nat by lia.
Qed.

Lemma todo_left_go d : (1 <= d)%nat -> (d + 1 <= s)%nat -> (N <= s + d + 1)%nat ->
  (s - d)%nat :: todo_left (d + 1) ≡ₚ todo_left d.
Proof.
  intros Hd Hds HN'. rewrite (todo_left_split d) by lia. unfold todo_left.
  replace (N - s - (d + 1) - 1)%nat with 0%nat by lia. replace (N - s - d - 1)%nat with 0%nat by lia.
  by replace (s - (d + 1) + 1)%nat with (s - d)%nat by lia.
Qed.

Lemma todo_left_last : (1 <= s)%nat -> (N <= s + s + 1)%nat -> todo_left s = [0%nat].
Proof.
  intros Hs1 HN'. unfold todo_left. replace (N - s - s - 1)%nat with 0%nat by lia.
  by replace (s - s + 1)%nat with 1%nat by lia.
Qed.

Lemma chain_sides m :
  (forall d, (1 <= d)%nat -> (s + d < N)%nat -> (length (todo_right d) <= m)%nat ->
     exists l, chain N s (s + d) l /\ (s + d)%nat :: l ≡ₚ todo_right d) /\
  (forall d, (1 <= d <= s)%nat -> (length (todo_left d) <= m)%nat ->
     exists l, chain N s (s - d) l /\ (s - d)%nat :: l ≡ₚ todo_left d).
Proof.
  induction m as [|m [IHr IHl]].
  { split; intros d Hd; unfold todo_right, todo_left; rewrite length_app, !length_seq; lia. }
  split; intros d Hd.
  - intros Hlt Hm. pose proof (next_right d Hd Hlt) as Hn.
    destruct (Nat.leb_spec d s) as [Hds|Hds]; [|destruct (Nat.ltb_spec (s + d + 1) N)].
    + pose proof (todo_right_flip d ltac:(lia) Hlt) as Hp. pose proof (Permutation_length Hp) as Hl. simpl in Hl.
      destruct (IHl d) as (l & Hc & Hpl); [lia..|]. exists ((s - d)%nat :: l). split; [by split|]. by rewrite Hpl.
    + pose proof (todo_right_go d Hds ltac:(lia)) as Hp. rewrite <- Hp in Hm |- *. simpl in Hm.
      destruct (IHr (d + 1)%nat) as (l & Hc & Hpl); [lia..|]. rewrite Nat.add_assoc in Hc, Hpl.
      exists ((s + d + 1)%nat :: l). split; [by split|]. by rewrite Hpl.
    + exists []. split; [done|]. rewrite todo_right_last; [done|lia|lia].
  - intros Hm. pose proof (next_left d Hd) as Hn.
    destruct (Nat.ltb_spec (s + d + 1) N); [|destruct (Nat.leb_spec (d + 1) s)].
    + pose proof (todo_left_flip d Hd) as Hp. pose proof (Permutation_length Hp) as Hl. simpl in Hl.
      destruct (IHr (d + 1)%nat) as (l & Hc & Hpl); [lia..|]. rewrite Nat.add_assoc in Hc, Hpl.
      exists ((s + d + 1)%nat :: l). split; [by split|]. by rewrite Hpl.
    + pose proof (todo_left_go d ltac:(lia) ltac:(lia) ltac:(lia)) as Hp. pose proof (Permutation_length Hp) as Hl. simpl in Hl.
      destruct (IHl (d + 1)%nat) as (l & Hc & Hpl); [lia..|].
      replace (s - (d + 1))%nat with (s - d - 1)%nat in Hc, Hpl by lia.
      exists ((s - d - 1)%nat :: l). split; [by split|]. by rewrite Hpl.
    + exists []. split; [done|]. assert (d = s) as -> by lia. rewrite Nat.sub_diag. by rewrite todo_left_last by lia.
Qed.

Lemma chain_all : exists l, chain N s s l /\ NoDup (s :: l) /\
  (forall i, (i < N)%nat -> i ∈ s :: l) /\ (length l <= N)%nat.
Proof.
  assert (Hcover : forall l, (s < N)%nat -> l ≡ₚ seq 0 s ++ seq (s + 1) (N - s - 1) ->
    NoDup (s :: l) /\ (forall i, (i < N)%nat -> i ∈ s :: l) /\ (length l <= N)%nat).
  { intros l HsN Hp. assert (Hp' : s :: l ≡ₚ seq 0 N).
    { rewrite Hp. replace N with (s + S (N - s - 1))%nat at 2 by lia. rewrite seq_app. cbn [seq Nat.add].
      replace (S s) with (s + 1)%nat by lia. apply Permutation_middle. }
    split_and!.
    - rewrite Hp'. apply NoDup_seq.
    - intros i Hi. rewrite Hp'. apply elem_of_seq. lia.
    - apply Permutation_length in Hp'. rewrite length_seq in Hp'. simpl in Hp'. lia. }
  pose proof next_start as Hn. destruct (Nat.ltb_spec (s + 1) N) as [H1|H1]; [|destruct (Nat.leb_spec 1 s) as [H2|H2]].
  - destruct (proj1 (chain_sides (length (todo_right 1))) 1%nat) as (l & Hc & Hp); [lia..|].
    exists ((s + 1)%nat :: l). split; [by split|]. apply Hcover; [lia|]. rewrite Hp. unfold todo_right.
    rewrite Permutation_app_comm. replace (s + 1 - 1)%nat with s by lia. done.
  - destruct (proj2 (chain_sides (length (todo_left 1))) 1%nat) as (l & Hc & Hp); [lia..|].
    assert (Ht : todo_left 1 = seq 0 s).
    { unfold todo_left. replace (N - s - 1 - 1)%nat with 0%nat by lia. rewrite app_nil_r.
      by replace (s - 1 + 1)%nat with s by lia. }
    rewrite Ht in Hp. exists ((s - 1)%nat :: l). split; [by split|]. destruct (decide (s < N)%nat).
    + apply Hcover; [lia|]. rewrite Hp. replace (N - s - 1)%nat with 0%nat by lia. by rewrite app_nil_r.
    + rewrite Hp. split_and!.
      * constructor; [rewrite elem_of_seq; lia|apply NoDup_seq].
      * intros i Hi. right. rewrite Hp. apply elem_of_seq. lia.
      * rewrite length_seq. lia.
  - exists []. split; [done|]. assert (s = 0%nat) as -> by lia. split_and!; [apply NoDup_singleton| |simpl; lia].
    intros i Hi. assert (i = 0%nat) as -> by lia. by left.
Qed.

(** ** The order, written out *)

(** The buckets at distance [d] from the start, the right one first. *)
Definition ring (d : nat) : list nat :=
  (if (s + d <? N)%nat then [(s + d)%nat] else []) ++ (if (d <=? s)%nat then [(s - d)%nat] else []).
Definition rings (d k : nat) : list nat := concat (map ring (seq d k)).

(** All buckets but the start, by their distance from it. *)
Definition visiting_order : list nat := rings 1 N.

Lemma rings_nil k : forall d, (N <= s + d)%nat -> (s < d)%nat -> rings d k = [].
Proof.
  unfold rings. induction k as [|k IH]; intros d H1 H2; [done|]. cbn [seq map concat]. rewrite IH by lia. unfold ring.
  destruct (Nat.ltb_spec (s + d) N), (Nat.leb_spec d s); try lia. done.
Qed.

Lemma chain_rings k : forall d c, (1 <= d)%nat -> (d + k = N + 1)%nat ->
  next_bucket_index N s c = (if (s + d <? N)%nat then Some (s + d)%nat else if (d <=? s)%nat then Some (s - d)%nat else None) ->
  chain N s c (rings d k).
Proof.
  induction k as [|k IH]; intros d c Hd Hk Hn.
  { destruct (Nat.ltb_spec (s + d) N), (Nat.leb_spec d s); try lia. exact Hn. }
  change (rings d (S k)) with (ring d ++ rings (S d) k). unfold ring.
  assert (Hleft : (d <= s)%nat -> chain N s (s - d) (rings (S d) k)).
  { intros Hds. apply IH; [lia..|]. rewrite next_left by lia. replace (s + S d)%nat with (s + d + 1)%nat by lia. rewrite (Nat.add_1_r d).
    by replace (s - S d)%nat with (s - d - 1)%nat by lia. }
  destruct (Nat.ltb_spec (s + d) N) as [H1|H1], (Nat.leb_spec d s) as [H2|H2]; cbn [app chain].
  - split; [done|]. rewrite next_right by lia. destruct (Nat.leb_spec d s); [|lia]. by split; [|apply Hleft].
  - split; [done|]. apply IH; [lia..|]. rewrite next_right by lia. replace (s + S d)%nat with (s + d + 1)%nat by lia.
    destruct (Nat.leb_spec d s), (Nat.leb_spec (S d) s); try lia. done.
  - by split; [|apply Hleft].
  - rewrite rings_nil by lia. exact Hn.
Qed.

Lemma chain_visiting_order : chain N s s visiting_order.
Proof. apply chain_rings; [lia..|]. exact next_start. Qed.

Lemma chain_unique l l' : forall c, chain N s c l -> chain N s c l' -> l = l'.
Proof.
  revert l'. induction l as [|x l IH]; intros [|y l'] c; cbn [chain]; [done|intros E [E2 _]; congruence|intros [E2 _] E; congruence|].
  intros [E Hl] [E2 Hl']. assert (y = x) as -> by congruence. f_equal. by eapply IH.
Qed.
End Order.

Example visiting_order_sample : visiting_order 6 1 = [2; 0; 3; 4; 5]%nat /\ visiting_order 6 4 = [5; 3; 2; 1; 0]%nat /\ visiting_order 6 6 = [5; 4; 3; 2; 1; 0]%nat.
Proof. done. Qed.
