(* ===== verification/DhtClosestSpec.v ===== *)
(** * What the closest-nodes iterator yields

    The iterator is compared with a reference that filters the slots of the table
    by the number of bits shared with our id: every pingable node is handed out
    exactly once, grouped by bucket, in an order written out without [next_bucket_index]. *)

From Stdlib Require Import Permutation.
From S2P Require Import Prelude RustStd UtilSha UtilConvert Chrono DhtNode DhtTable DhtTableSpec DhtClosest.

Section Spec.
Context `{Chrono}.
Context (now : DateTime).
Implicit Types (bs : list Bucket) (a : list assorted_entry).

Abbreviation goods := (List.filter (is_good_node now)).

(** ** Single steps *)

Lemma filter_next_spec l :
  match filter_next now l with
  | (Some n, l') => goods l = n :: goods l'
  | (None, l') => goods l = [] /\ l' = []
  end.
Proof. induction l as [|x l IH]; [done|]. simpl. by destruct (is_good_node now x). Qed.

(** The entries of bucket [j] not yet handed out. *)
Definition entry_ready (j : nat) (e : assorted_entry) : bool :=
  let '(i, n, ret) := e in is_good_node now n && ((i =? j)%nat && negb ret).
Definition avail (j : nat) a : list Node := map (fun e => e.1.2) (List.filter (entry_ready j) a).

Lemma take_assorted_spec j a :
  match take_assorted now j a with
  | Some (n, a') => avail j a = n :: avail j a' /\ length a' = length a /\ forall k, k <> j -> avail k a' = avail k a
  | None => avail j a = []
  end.
Proof.
  unfold avail. induction a as [|[[i n] ret] a IH]; [done|]. cbn [take_assorted List.filter entry_ready].
  destruct (is_good_node now n && ((i =? j)%nat && negb ret)) eqn:Ee.
  - apply andb_true_iff in Ee as [Hg [Hi%Nat.eqb_eq Hr]%andb_true_iff]. subst i.
    cbn [List.filter entry_ready negb]. rewrite !andb_false_r. cbn [map]. split_and!; [done|done|]. intros k Hk.
    destruct (Nat.eqb_spec j k); [congruence|]. cbn [andb]. by rewrite !andb_false_r.
  - destruct (take_assorted now j a) as [[m a']|]; [|done]. destruct IH as (IH & Hl & IHk).
    cbn [List.filter entry_ready]. rewrite Ee. split_and!; [done|simpl; congruence|]. intros k Hk.
    specialize (IHk k Hk). destruct (is_good_node now n && ((i =? k)%nat && negb ret)); [|done].
    cbn [map]. by rewrite IHk.
Qed.

Definition sorted_at bs (j : nat) : list Node := goods (default [] (bucket_iterator bs j)).
Definition entries (s : ClosestNodes) : list assorted_entry := default [] (assorted_nodes s).

(** What an iterator will still yield when it goes on to the buckets [order]. *)
Definition remaining (s : ClosestNodes) (order : list nat) : list Node :=
  goods (default [] (current_iter s)) ++ avail (current_index s) (entries s) ++
  concat (map (fun j => sorted_at (cn_buckets s) j ++ avail j (entries s)) order).

(** The iterator is in bucket [current_index] and goes on to [order]. *)
Definition iter_ok (s : ClosestNodes) (order : list nat) : Prop :=
  chain MAX_BUCKETS (start_index s) (current_index s) order /\ NoDup (current_index s :: order).

Lemma avail_concat_ext bs a a' j order : j ∉ order -> (forall k, k <> j -> avail k a' = avail k a) ->
  concat (map (fun k => sorted_at bs k ++ avail k a') order) = concat (map (fun k => sorted_at bs k ++ avail k a) order).
Proof.
  intros Hj Ha. f_equal. apply map_ext_in. intros k Hk. rewrite Ha; [done|]. intros ->. by apply Hj, list_elem_of_In.
Qed.

(** What the current bucket still yields. *)
Definition here (s : ClosestNodes) : list Node :=
  goods (default [] (current_iter s)) ++ avail (current_index s) (entries s).

Definition same_place (s s' : ClosestNodes) : Prop :=
  cn_buckets s' = cn_buckets s /\ current_index s' = current_index s /\ start_index s' = start_index s /\
  forall k, k <> current_index s -> avail k (entries s') = avail k (entries s).

Definition move_to (s : ClosestNodes) (c : nat) : ClosestNodes :=
  mkClosest (cn_buckets s) (bucket_iterator (cn_buckets s) c) c (start_index s) (assorted_nodes s).

Lemma next_here fuel s :
  (exists n s', ClosestNodes_next (S fuel) now s = Ok (Some n, s') /\ same_place s s' /\ here s = n :: here s') \/
  (here s = [] /\ exists s0, ClosestNodes_next (S fuel) now s =
     match next_bucket_index MAX_BUCKETS (start_index s) (current_index s) with
     | Some c => ClosestNodes_next fuel now (move_to s c)
     | None => Ok (None, s0)
     end).
Proof.
  destruct s as [bs it cur st a]. unfold here, same_place, entries.
  cbn [ClosestNodes_next current_iter current_index start_index assorted_nodes cn_buckets].
  destruct (match it with Some l => _ | None => _ end) as [found it'] eqn:Eit.
  assert (Hit : match found with
                | Some n => goods (default [] it) = n :: goods (default [] it')
                | None => goods (default [] it) = [] /\ default [] it' = [] end).
  { destruct it as [l|]; [|by injection Eit as <- <-]. pose proof (filter_next_spec l) as Hfl.
    by destruct (filter_next now l) as [[n|] l']; injection Eit as <- <-. }
  destruct found as [n|]; [left; eexists _, _; split; [done|]; cbn; by rewrite Hit|].
  destruct Hit as [Hit1 Hit2]. rewrite Hit1. destruct a as [a|]; cbn [default app id from_option].
  - pose proof (take_assorted_spec cur a) as Ht. destruct (take_assorted now cur a) as [[n a']|].
    + left. destruct Ht as (Ht & _ & Hk). eexists _, _. split; [done|].
      cbn [current_iter current_index start_index assorted_nodes cn_buckets].
      split; [done|]. rewrite Hit2. exact Ht.
    + right. split; [done|]. by eexists.
  - right. split; [done|]. by eexists.
Qed.

Lemma remaining_here s order :
  remaining s order = here s ++ concat (map (fun j => sorted_at (cn_buckets s) j ++ avail j (entries s)) order).
Proof. unfold remaining, here. by rewrite app_assoc. Qed.

Lemma next_spec order : forall fuel s, iter_ok s order -> (length order < fuel)%nat ->
  exists o s', ClosestNodes_next fuel now s = Ok (o, s') /\
    match o with
    | None => remaining s order = []
    | Some n => exists order', iter_ok s' order' /\ (length order' <= length order)%nat /\
        remaining s order = n :: remaining s' order'
    end.
Proof.
  induction order as [|c order IH]; intros [|fuel] s [Hc Hd] Hf; simpl in Hf; try lia.
  all: destruct (next_here fuel s) as [(n & s' & -> & (Hb & Hcu & Hst & Hav) & Hh)|[Hh [s0 ->]]];
    [exists (Some n), s'; split; [done|]; eexists; split; [split; rewrite Hcu; [by rewrite Hst|done]|]; split; [done|];
     rewrite !remaining_here, Hh, Hb; apply NoDup_cons in Hd as [Hcur _]; by rewrite (avail_concat_ext _ (entries s) (entries s') (current_index s))|].
  - cbn [chain] in Hc. rewrite Hc. exists None, s0. split; [done|]. by rewrite remaining_here, Hh.
  - destruct Hc as [-> Hc]. apply NoDup_cons in Hd as [_ Hd].
    destruct (IH fuel (move_to s c)) as (o & s' & E & Ho); [by split|lia|]. exists o, s'. split; [done|].
    assert (Hrem : remaining s (c :: order) = remaining (move_to s c) order).
    { rewrite remaining_here, Hh. cbn [map concat app]. unfold remaining. by rewrite <- app_assoc. }
    rewrite Hrem. destruct o as [n|]; [|done]. destruct Ho as (order' & Hok & Hl & Hr). exists order'.
    split_and!; [done|simpl; lia|done].
Qed.

Lemma collect_spec fuel : forall s order, iter_ok s order -> (length order <= MAX_BUCKETS)%nat ->
  (length (remaining s order) < fuel)%nat -> ClosestNodes_collect fuel now s = Ok (remaining s order).
Proof.
  induction fuel as [|fuel IH]; intros s order Hok Hl Hf; [lia|]. cbn [ClosestNodes_collect].
  destruct (next_spec order NEXT_FUEL s Hok) as (o & s' & E & Ho); [unfold NEXT_FUEL; lia|]. rewrite E. cbn [res_bind].
  destruct o as [n|]; [|by rewrite Ho]. destruct Ho as (order' & Hok' & Hl' & Hr). rewrite Hr in Hf |- *.
  rewrite (IH s' order'); [done|done|lia|simpl in Hf; lia].
Qed.

(** ** The groups of a table *)

(** The pingable nodes among [l] that share exactly [j] leading bits with [own]. *)
Definition in_group (own : ShaHash) (j : nat) (n : Node) : bool :=
  is_good_node now n && (id_prefix own (id n) =? j)%nat.
Definition group (own : ShaHash) (j : nat) (l : list Node) : list Node := List.filter (in_group own j) l.

Lemma is_good_node_live n : is_good_node now n = true -> live n.
Proof.
  unfold is_good_node. intros Hg. apply (status_live now). intros Hb. by rewrite Hb in Hg.
Qed.

Lemma filter_all_false {A} (p : A -> bool) l : (forall x, x ∈ l -> p x = false) -> List.filter p l = [].
Proof.
  induction l as [|x l IH]; intros Hl; [done|]. simpl. rewrite (Hl x) by (by left). apply IH.
  intros y Hy. apply Hl. by right.
Qed.

Lemma group_bucket own j i (l : list Node) :
  (forall n, n ∈ l -> live n -> id_prefix own (id n) = i) ->
  group own j l = if (i =? j)%nat then goods l else [].
Proof.
  intros Hl. unfold group. destruct (Nat.eqb_spec i j) as [->|Hne].
  - induction l as [|n l IH]; [done|]. simpl. unfold in_group at 1.
    rewrite IH by (intros m Hm; apply Hl; by right). destruct (is_good_node now n) eqn:Hg; [|done].
    rewrite (Hl n) by (by left || by apply is_good_node_live). by rewrite Nat.eqb_refl.
  - apply filter_all_false. intros n Hn. unfold in_group. destruct (is_good_node now n) eqn:Hg; [|done].
    rewrite (Hl n) by (done || by apply is_good_node_live). by apply Nat.eqb_neq.
Qed.

(** Buckets that hold exactly their prefix length, counted from [k]. *)
Lemma group_buckets own j bs : forall k,
  (forall i b, bs !! i = Some b -> forall n, n ∈ nodes b -> live n -> id_prefix own (id n) = (k + i)%nat) ->
  group own j (concat (map nodes bs)) =
    if (k <=? j)%nat then goods (default [] (nodes <$> bs !! (j - k)%nat)) else [].
Proof.
  induction bs as [|b bs IH]; intros k Hb; [by destruct (k <=? j)%nat|].
  cbn [map concat]. unfold group. rewrite List.filter_app. fold (group own j (nodes b)).
  fold (group own j (concat (map nodes bs))).
  rewrite (group_bucket own j k) by (intros n Hn Hl; rewrite (Hb 0%nat b eq_refl n Hn Hl); lia).
  rewrite (IH (S k)) by (intros i c Hi n Hn Hl; rewrite (Hb (S i) c Hi n Hn Hl); lia).
  destruct (Nat.eqb_spec k j) as [Hkj|Hne], (Nat.leb_spec k j), (Nat.leb_spec (S k) j); try lia.
  - subst k. rewrite Nat.sub_diag. by rewrite app_nil_r.
  - by replace (j - k)%nat with (S (j - S k)) by lia.
  - done.
Qed.

(** The entries computed for the shared bucket. *)
Lemma precompute_fold own (l : list Node) : sha_ok own -> (forall n, n ∈ l -> sha_ok (id n)) ->
  forall k (a : list assorted_entry), (k + length l <= length a)%nat ->
  foldl (precompute_step own) (Ok a) (imap (fun i n => ((k + i)%nat, n)) l) =
  Ok (take k a ++ map (fun n => (id_prefix own (id n), n, false)) l ++ drop (k + length l) a).
Proof.
  intros Ho. induction l as [|n l IH]; intros Hl k a Hk; cbn [length map] in *.
  - cbn [imap foldl]. by rewrite Nat.add_0_r, app_nil_l, take_drop.
  - cbn [imap foldl]. unfold precompute_step at 2. cbn [res_bind]. rewrite leading_bit_count_id_prefix by (done || apply Hl; by left). cbn [res_bind].
    rewrite Nat.add_0_r. destruct (Nat.ltb_spec k (length a)); [|lia].
    rewrite (imap_ext _ (fun i m => ((S k + i)%nat, m))) by (intros i m _; cbn [compose]; by rewrite Nat.add_succ_comm).
    rewrite IH; [f_equal|intros m Hm; apply Hl; by right|rewrite length_insert; lia].
    rewrite (take_S_r _ _ (id_prefix own (id n), n, false)) by (by apply list_lookup_insert_eq).
    rewrite take_insert_ge by lia. rewrite drop_insert_lt by lia. rewrite <- app_assoc. cbn [app].
    by replace (k + S (length l))%nat with (S k + length l)%nat by lia.
Qed.

Lemma avail_fresh own j (l : list Node) :
  avail j (map (fun n => (id_prefix own (id n), n, false)) l) = group own j l.
Proof.
  unfold avail, group. induction l as [|n l IH]; [done|]. cbn [map List.filter entry_ready negb]. rewrite andb_true_r.
  unfold in_group at 1. destruct (is_good_node now n && (id_prefix own (id n) =? j)%nat); cbn [map]; by rewrite IH.
Qed.

Lemma precompute_spec t : table_ok t -> exists o, precompute_assorted_nodes (buckets t) (table_id t) = Ok o /\
  forall j, sorted_at (buckets t) j ++ avail j (default [] o) = group (table_id t) j (table_nodes t).
Proof.
  intros (Hid & Hlen & Hb). unfold precompute_assorted_nodes, sorted_at, bucket_iterator.
  destruct (Nat.eqb_spec (length (buckets t)) MAX_BUCKETS) as [El|El].
  - eexists. split; [done|]. intros j. cbn [default]. rewrite app_nil_r. unfold table_nodes.
    rewrite (group_buckets _ j _ 0); [simpl; by rewrite Nat.sub_0_r|]. intros i b Hi n Hn Hl.
    destruct (Hb i b Hi) as (_ & Hbn & _). destruct (Hbn n Hn) as [_ [Hmax Hp]]; [done|].
    apply lookup_lt_Some in Hi. destruct (Nat.eqb_spec i (length (buckets t) - 1)); lia.
  - destruct (lookup_lt_is_Some_2 (buckets t) (length (buckets t) - 1)) as [b Eb]; [lia|]. rewrite Eb. cbn [or_panic res_bind].
    destruct (Hb _ _ Eb) as (H8 & Hbn & _). destruct (nodes b) as [|n0 l0] eqn:En; [done|]. rewrite <- En in *.
    pose proof (precompute_fold (table_id t) (nodes b) Hid (fun n Hn => proj1 (Hbn n Hn)) 0
      (replicate MAX_BUCKET_SIZE (0%nat, n0, true))) as Hf.
    cbn [Nat.add] in Hf. change (imap (fun i n => (i, n)) (nodes b)) with (imap pair (nodes b)) in Hf.
    rewrite Hf by (rewrite length_replicate, H8; lia). cbn [res_bind take app].
    rewrite H8, drop_ge, app_nil_r by (by rewrite length_replicate). eexists. split; [done|]. intros j.
    etransitivity; [apply (f_equal (app _)), avail_fresh|]. unfold table_nodes.
    rewrite <- (take_drop (length (buckets t) - 1) (buckets t)) at 3. rewrite map_app, concat_app.
    rewrite (lookup_drop_cons _ _ _ Eb), drop_ge by lia. cbn [map concat]. rewrite app_nil_r.
    unfold group. rewrite List.filter_app. f_equal. fold (group (table_id t) j (concat (map nodes (take (length (buckets t) - 1) (buckets t))))).
    rewrite (group_buckets _ j _ 0); [simpl; by rewrite Nat.sub_0_r|]. intros i c Hi n Hn Hl.
    apply lookup_take_Some in Hi as [Hi Hlt]. destruct (Hb i c Hi) as (_ & Hcn & _).
    destruct (Hcn n Hn) as [_ [Hmax Hp]]; [done|]. destruct (Nat.eqb_spec i (length (buckets t) - 1)); lia.
Qed.

(** ** Groups partition the pingable nodes *)

Lemma concat_map_app {A B} (f g : A -> list B) (l : list A) :
  concat (map (fun x => f x ++ g x) l) ≡ₚ concat (map f l) ++ concat (map g l).
Proof.
  induction l as [|x l IH]; [done|]. cbn [map concat]. rewrite IH, <- !app_assoc. f_equiv.
  rewrite !app_assoc. f_equiv. apply Permutation_app_comm.
Qed.

Lemma concat_map_nil {A B} (f : A -> list B) (l : list A) : (forall x, x ∈ l -> f x = []) -> concat (map f l) = [].
Proof.
  induction l as [|x l IH]; intros Hl; [done|]. cbn [map concat]. rewrite (Hl x) by (by left). apply IH.
  intros y Hy. apply Hl. by right.
Qed.

Lemma concat_single {B} (k : nat) (x : B) order : NoDup order -> k ∈ order ->
  concat (map (fun j => if (k =? j)%nat then [x] else []) order) = [x].
Proof.
  intros Hd Hk. induction Hd as [|j order Hj Hd IH]; [by apply elem_of_nil in Hk|]. cbn [map concat].
  destruct (Nat.eqb_spec k j) as [<-|Hne].
  - rewrite concat_map_nil; [done|]. intros i Hi. destruct (Nat.eqb_spec k i); [congruence|done].
  - apply elem_of_cons in Hk as [?|Hk]; [congruence|]. by apply IH.
Qed.

Lemma groups_partition own (l : list Node) order : NoDup order ->
  (forall n, n ∈ l -> is_good_node now n = true -> id_prefix own (id n) ∈ order) ->
  concat (map (fun j => group own j l) order) ≡ₚ goods l.
Proof.
  intros Hd. induction l as [|n l IH]; intros Hl; [by rewrite concat_map_nil|].
  rewrite (map_ext _ (fun j => (if in_group own j n then [n] else []) ++ group own j l))
    by (intros j; unfold group; simpl; by destruct (in_group own j n)).
  rewrite concat_map_app, IH by (intros m Hm; apply Hl; by right). unfold in_group. cbn [List.filter].
  destruct (is_good_node now n) eqn:Hg; cbn [andb].
  - rewrite concat_single; [done|done|]. apply Hl; [by left|done].
  - by rewrite concat_map_nil.
Qed.

Lemma good_prefix_bound t n : table_ok t -> n ∈ table_nodes t -> is_good_node now n = true ->
  (id_prefix (table_id t) (id n) < MAX_BUCKETS)%nat.
Proof.
  intros (_ & _ & Hb) (i & b & Hi & Hn)%elem_table_nodes Hg. destruct (Hb i b Hi) as (_ & Hbn & _).
  destruct (Hbn n Hn) as [_ Hp]. by destruct (Hp (is_good_node_live n Hg)).
Qed.

Lemma table_nodes_length t : table_ok t -> (length (table_nodes t) <= MAX_BUCKETS * MAX_BUCKET_SIZE)%nat.
Proof.
  intros (_ & Hlen & Hb). etransitivity; [|apply Nat.mul_le_mono_r, (proj2 Hlen)]. apply Nat.eq_le_incl.
  unfold table_nodes. assert (Hall : Forall (fun b => length (nodes b) = MAX_BUCKET_SIZE) (buckets t))
    by (apply Forall_lookup; intros i b Hi; by destruct (Hb i b Hi)).
  clear Hlen Hb. induction Hall as [|b bs E Hall IH]; [done|]. cbn [map concat length]. rewrite length_app, IH. lia.
Qed.

Lemma filter_length_le' {A} (p : A -> bool) (l : list A) : (length (List.filter p l) <= length l)%nat.
Proof. induction l as [|x l IH]; simpl; [done|]. destruct (p x); simpl; lia. Qed.

(** The iterator on a well-formed table. *)
Lemma closest_nodes_groups (t : RoutingTable) (target : ShaHash) : table_ok t -> sha_ok target ->
  exists l order, closest_nodes now t target = Ok l /\
    l = concat (map (fun j => group (table_id t) j (table_nodes t)) (id_prefix (table_id t) target :: order)) /\
    l ≡ₚ goods (table_nodes t) /\
    chain MAX_BUCKETS (id_prefix (table_id t) target) (id_prefix (table_id t) target) order /\
    NoDup (id_prefix (table_id t) target :: order) /\
    (forall i, (i < MAX_BUCKETS)%nat -> i ∈ id_prefix (table_id t) target :: order).
Proof.
  intros Ht Htg. pose proof Ht as (Hid & _). set (k := id_prefix (table_id t) target).
  destruct (chain_all MAX_BUCKETS k) as (order & Hc & Hd & Hall & Hl); [done|by apply id_prefix_le|].
  destruct (precompute_spec t Ht) as (o & Ho & Hgrp).
  set (l := concat (map (fun j => group (table_id t) j (table_nodes t)) (k :: order))).
  assert (Hp : l ≡ₚ goods (table_nodes t)).
  { apply groups_partition; [done|]. intros n Hn Hg. apply Hall. by apply good_prefix_bound. }
  exists l, order. split; [|by split_and!]. unfold closest_nodes, ClosestNodes_new.
  rewrite leading_bit_count_id_prefix by done. fold k. cbn [res_bind]. rewrite Ho. cbn [res_bind].
  assert (Hrem : remaining (mkClosest (buckets t) (bucket_iterator (buckets t) k) k k o) order = l).
  { unfold remaining, entries, l. cbn [current_iter current_index cn_buckets assorted_nodes map concat].
    rewrite app_assoc, <- Hgrp. f_equal. f_equal. apply map_ext. intros j. apply Hgrp. }
  rewrite (collect_spec _ _ order); [by rewrite Hrem|by split|done|].
  rewrite Hrem, (Permutation_length Hp). unfold COLLECT_FUEL.
  pose proof (table_nodes_length t Ht). pose proof (filter_length_le' (is_good_node now) (table_nodes t)). lia.
Qed.

(** A node that has not gone bad. *)
Definition pingable (n : Node) : bool := negb (bool_decide (status now n = Bad)).
Lemma good_pingable n : is_good_node now n = pingable n.
Proof. unfold is_good_node, pingable. by destruct (status now n). Qed.

(** The pingable nodes that share exactly [j] leading bits with [own]. *)
Definition bucket_group (own : ShaHash) (l : list Node) (j : nat) : list Node :=
  List.filter (fun n => pingable n && (id_prefix own (id n) =? j)%nat) l.
Lemma group_pingable own j l : group own j l = bucket_group own l j.
Proof. apply List.filter_ext. intros n. unfold in_group. by rewrite good_pingable. Qed.

(** C22: the iterator terminates without a panic and yields every pingable node of the
    table (good or questionable, not bad) exactly once. The nodes come in groups of equal
    shared prefix with our id: first the group of the target's bucket, then the other
    buckets by their distance from it, the right one before the left one, up to the end on
    either side; the nodes of the shared last bucket appear in the group they belong to.
    Every bucket index is visited once. *)
Theorem closest_nodes_spec (t : RoutingTable) (target : ShaHash) : table_ok t -> sha_ok target ->
  let order := id_prefix (table_id t) target :: visiting_order MAX_BUCKETS (id_prefix (table_id t) target) in
  exists l, closest_nodes now t target = Ok l /\
    l = concat (map (bucket_group (table_id t) (table_nodes t)) order) /\
    l ≡ₚ List.filter pingable (table_nodes t) /\
    NoDup order /\ (forall i, (i < MAX_BUCKETS)%nat -> i ∈ order).
Proof.
  intros Ht Hs order. destruct (closest_nodes_groups t target Ht Hs) as (l & order' & E & El & Hp & Hc & Hd & Hall). pose proof Ht as (Hid & _).
  assert (Eo : order' = visiting_order MAX_BUCKETS (id_prefix (table_id t) target)).
  { eapply chain_unique; [exact Hc|]. apply chain_visiting_order; [done|by apply id_prefix_le]. }
  subst order'. exists l. split; [done|]. split; [rewrite El; f_equal; apply map_ext; intros j; apply group_pingable|].
  split; [|done]. by rewrite Hp, (List.filter_ext _ _ good_pingable).
Qed.
End Spec.

Lemma closest_nodes_spec_witness :
  exists l, closest_nodes sample_now sample_table (sample_id 1 3) = Ok l /\ l ≡ₚ [sample_contact 1 3 18].
Proof.
  destruct (closest_nodes_spec sample_now sample_table (sample_id 1 3)) as (l & H1 & _ & H2 & _).
  - apply sample_table_ok.
  - split; [reflexivity|]. apply (bool_decide_unpack _). vm_compute. exact I.
  - exists l. split; [exact H1|exact H2].
Defined.
