(* ===== verification/DhtToken.v ===== *)
(** * Announce tokens

    Model of [dht/token.rs]: the store of the current and the last secret, refreshed
    lazily every ten minutes, and tokens that are digests of an address and a secret.
    The SHA-1 digest is a parameter. Random numbers are arguments: [r1] and [r2] are
    the next values of [rand::random::<u32>()], drawn in this order. [now] is the
    time [Utc::now()] gives during one operation. *)

From stdpp Require Import sets.
From S2P Require Import Prelude RustStd Words UtilSha UtilConvert Chrono.

Definition REFRESH_INTERVAL_MINS : Z := 10.
Definition IPV4_SECRET_BUFFER_LEN : nat := 4 + 4.
Definition IPV6_SECRET_BUFFER_LEN : nat := 16 + 4.

Record Token : Type := mkToken { token : list Z }.

#[export] Instance Token_eq_dec : EqDecision Token.
Proof. solve_decision. Defined.

Definition Token_new (bytes : list Z) : res LengthError Token :=
  if negb (length bytes =? SHA_HASH_LEN)%nat then Err (LengthError_new LengthExpected SHA_HASH_LEN)
  else Ok (mkToken (copy_into bytes (replicate SHA_HASH_LEN 0))).

Section Token.
Context `{Chrono} (sha1 : list Z -> list Z).

Definition generate_token_from_addr_v4 (v4_addr : Ipv4Addr) (secret : Z) : Token :=
  let v4_bytes := ipv4_to_bytes_be v4_addr in
  let secret_bytes := four_bytes_to_array secret in
  let buffer := zip_copy (replicate IPV4_SECRET_BUFFER_LEN 0) (v4_bytes ++ secret_bytes) in
  mkToken (sha_bytes (ShaHash_from_bytes sha1 buffer)).

Definition generate_token_from_addr_v6 (v6_addr : Ipv6Addr) (secret : Z) : Token :=
  let v6_bytes := ipv6_to_bytes_be v6_addr in
  let secret_bytes := four_bytes_to_array secret in
  let buffer := zip_copy (replicate IPV6_SECRET_BUFFER_LEN 0) (v6_bytes ++ secret_bytes) in
  mkToken (sha_bytes (ShaHash_from_bytes sha1 buffer)).

Definition generate_token_from_addr (addr : IpAddr) (secret : Z) : Token :=
  match addr with
  | IpV4 v4 => generate_token_from_addr_v4 v4 secret
  | IpV6 v6 => generate_token_from_addr_v6 v6 secret
  end.

Definition validate_token_from_addr_v4 (v4_addr : Ipv4Addr) (token : Token) (secret : Z) : bool :=
  bool_decide (generate_token_from_addr_v4 v4_addr secret = token).
Definition validate_token_from_addr_v6 (v6_addr : Ipv6Addr) (token : Token) (secret : Z) : bool :=
  bool_decide (generate_token_from_addr_v6 v6_addr secret = token).

Definition validate_token_from_addr (addr : IpAddr) (token : Token) (secret_one secret_two : Z) : bool :=
  match addr with
  | IpV4 v4 => validate_token_from_addr_v4 v4 token secret_one || validate_token_from_addr_v4 v4 token secret_two
  | IpV6 v6 => validate_token_from_addr_v6 v6 token secret_one || validate_token_from_addr_v6 v6 token secret_two
  end.

Record TokenStore : Type := mkTokenStore { curr_secret : Z; last_secret : Z; last_refresh : DateTime }.

Definition TokenStore_new (now : DateTime) (r1 r2 : Z) : TokenStore := mkTokenStore r1 r2 now.

(** Whole intervals since the last refresh, rounded toward zero. *)
Definition intervals_passed (now : DateTime) (last_refresh : DateTime) : Z :=
  let refresh_duration := minutes REFRESH_INTERVAL_MINS in
  let diff_time := dt_since now last_refresh in
  Z.quot (num_minutes diff_time) (num_minutes refresh_duration).

Definition refresh_check (now : DateTime) (r1 r2 : Z) (s : TokenStore) : TokenStore :=
  let n := intervals_passed now (last_refresh s) in
  if n =? 0 then s
  else if n =? 1 then mkTokenStore r1 (curr_secret s) now
  else mkTokenStore r2 r1 now.

Definition checkout (now : DateTime) (r1 r2 : Z) (s : TokenStore) (addr : IpAddr) : Token * TokenStore :=
  let s := refresh_check now r1 r2 s in
  (generate_token_from_addr addr (curr_secret s), s).

Definition checkin (now : DateTime) (r1 r2 : Z) (s : TokenStore) (addr : IpAddr) (token : Token) : bool * TokenStore :=
  let s := refresh_check now r1 r2 s in
  (validate_token_from_addr addr token (curr_secret s) (last_secret s), s).

(** ** Histories *)

(** An operation of the store with its time and the random values it may draw. *)
Inductive token_op : Type :=
| OpCheckout (addr : IpAddr)
| OpCheckin (addr : IpAddr) (token : Token).
Record token_event : Type := mkEvent { ev_now : DateTime; ev_r1 : Z; ev_r2 : Z; ev_op : token_op }.

Definition token_step (s : TokenStore) (e : token_event) : TokenStore :=
  match ev_op e with
  | OpCheckout a => (checkout (ev_now e) (ev_r1 e) (ev_r2 e) s a).2
  | OpCheckin a t => (checkin (ev_now e) (ev_r1 e) (ev_r2 e) s a t).2
  end.

Definition token_run (s : TokenStore) (es : list token_event) : TokenStore := foldl token_step s es.

(** The events happen in this order between the times [lo] and [hi]. *)
Fixpoint ordered (lo : DateTime) (es : list token_event) (hi : DateTime) : Prop :=
  match es with
  | [] => dt_ns lo <= dt_ns hi
  | e :: es => dt_ns lo <= dt_ns (ev_now e) /\ ordered (ev_now e) es hi
  end.

(** The random values events could draw. *)
Definition draws (es : list token_event) : list Z := concat (map (fun e => [ev_r1 e; ev_r2 e]) es).

(** ** Facts *)

Lemma token_step_refresh s e : token_step s e = refresh_check (ev_now e) (ev_r1 e) (ev_r2 e) s.
Proof. by destruct e as [now r1 r2 []]. Qed.

Lemma intervals_passed_ns now r : dt_ns r <= dt_ns now ->
  intervals_passed now r = (dt_ns now - dt_ns r) / (10 * NS_PER_MINUTE).
Proof.
  intros Hle. unfold intervals_passed. rewrite !num_minutes_ns, dur_ns_since, dur_ns_minutes.
  unfold REFRESH_INTERVAL_MINS. rewrite Z.quot_mul by (unfold NS_PER_MINUTE; lia).
  rewrite (Z.quot_div_nonneg (dt_ns now - dt_ns r)) by (unfold NS_PER_MINUTE; lia).
  rewrite Z.quot_div_nonneg; [|apply Z.div_pos; unfold NS_PER_MINUTE; lia|lia].
  rewrite Z.div_div by (unfold NS_PER_MINUTE; lia). f_equal.
Qed.

Lemma validate_token_spec addr tok s1 s2 : validate_token_from_addr addr tok s1 s2 = true <->
  generate_token_from_addr addr s1 = tok \/ generate_token_from_addr addr s2 = tok.
Proof.
  destruct addr; cbn [validate_token_from_addr generate_token_from_addr];
    unfold validate_token_from_addr_v4, validate_token_from_addr_v6; by rewrite orb_true_iff, !bool_decide_eq_true.
Qed.

(** What a refresh does, by the age of the last one in units of ten minutes. *)
Lemma refresh_check_cases now r1 r2 s : dt_ns (last_refresh s) <= dt_ns now ->
  let age := dt_ns now - dt_ns (last_refresh s) in
  (age < 10 * NS_PER_MINUTE /\ refresh_check now r1 r2 s = s) \/
  (10 * NS_PER_MINUTE <= age < 20 * NS_PER_MINUTE /\ refresh_check now r1 r2 s = mkTokenStore r1 (curr_secret s) now) \/
  (20 * NS_PER_MINUTE <= age /\ refresh_check now r1 r2 s = mkTokenStore r2 r1 now).
Proof.
  intros Hle age. unfold refresh_check. rewrite intervals_passed_ns by done. fold age.
  assert (Hpos : 0 < NS_PER_MINUTE) by (vm_compute; done).
  pose proof (Z.div_mod age (10 * NS_PER_MINUTE) ltac:(lia)) as Hdm.
  pose proof (Z.mod_pos_bound age (10 * NS_PER_MINUTE) ltac:(lia)) as Hm.
  assert (0 <= age / (10 * NS_PER_MINUTE)) by (apply Z.div_pos; lia).
  set (q := age / (10 * NS_PER_MINUTE)) in *.
  destruct (Z.eqb_spec q 0); [left; split; [nia|done]|].
  destruct (Z.eqb_spec q 1); [right; left; split; [nia|done]|]. right. right. split; [nia|done].
Qed.

Lemma ordered_le lo es hi : ordered lo es hi -> dt_ns lo <= dt_ns hi.
Proof. revert lo. induction es as [|e es IH]; intros lo; [done|]. intros [H1 H2]. specialize (IH _ H2). lia. Qed.

Lemma checkout_fresh now r1 r2 s addr tok s' : dt_ns (last_refresh s) <= dt_ns now ->
  checkout now r1 r2 s addr = (tok, s') ->
  tok = generate_token_from_addr addr (curr_secret s') /\
  dt_ns now - 10 * NS_PER_MINUTE < dt_ns (last_refresh s') <= dt_ns now.
Proof.
  unfold checkout. intros Hle [= <- <-]. split; [done|].
  assert (0 < NS_PER_MINUTE) by (vm_compute; done).
  destruct (refresh_check_cases now r1 r2 s Hle) as [[? ->]|[[? ->]|[? ->]]]; cbn [last_refresh]; lia.
Qed.

(** The secret of a token issued at [t0] is still the current or the last one. *)
Definition holds_secret (secret : Z) (t0 : DateTime) (s : TokenStore) : Prop :=
  (curr_secret s = secret /\ dt_ns t0 - 10 * NS_PER_MINUTE < dt_ns (last_refresh s) <= dt_ns t0) \/
  (last_secret s = secret /\ dt_ns t0 < dt_ns (last_refresh s)).

Lemma holds_secret_refresh secret t0 s now r1 r2 : holds_secret secret t0 s ->
  dt_ns (last_refresh s) <= dt_ns now -> dt_ns t0 <= dt_ns now < dt_ns t0 + 10 * NS_PER_MINUTE ->
  holds_secret secret t0 (refresh_check now r1 r2 s) /\ dt_ns (last_refresh (refresh_check now r1 r2 s)) <= dt_ns now.
Proof.
  intros Hh Hle Hn. destruct (refresh_check_cases now r1 r2 s Hle) as [[? ->]|[[? ->]|[? ->]]]; cbn [last_refresh]; [done|..].
  - split; [|lia]. destruct Hh as [[Hc Hr]|[Hc Hr]]; [|lia]. right. cbn [last_secret last_refresh]. split; [done|lia].
  - destruct Hh as [[Hc Hr]|[Hc Hr]]; lia.
Qed.

Lemma holds_secret_run secret t0 hi es : forall s lo, holds_secret secret t0 s ->
  dt_ns (last_refresh s) <= dt_ns lo -> dt_ns t0 <= dt_ns lo -> dt_ns hi < dt_ns t0 + 10 * NS_PER_MINUTE ->
  ordered lo es hi ->
  holds_secret secret t0 (token_run s es) /\ dt_ns (last_refresh (token_run s es)) <= dt_ns hi.
Proof.
  induction es as [|e es IH]; intros s lo Hh Hle Hlo Hhi Ho; cbn [ordered] in Ho; [split; [done|simpl; lia]|].
  destruct Ho as [H1 H2]. pose proof (ordered_le _ _ _ H2). unfold token_run. cbn [foldl]. rewrite token_step_refresh.
  destruct (holds_secret_refresh secret t0 s (ev_now e) (ev_r1 e) (ev_r2 e)) as [Hh' Hle']; [done|lia|lia|].
  apply (IH _ (ev_now e)); [done|done|lia|done|done].
Qed.

(** A token handed out by [checkout] is accepted by [checkin] from the same
    address for at least ten minutes, whatever operations the store performs in
    between and whatever secrets they draw. *)
Lemma token_accepted_ten_minutes (s0 s1 : TokenStore) (addr : IpAddr) (tok : Token) (t0 t : DateTime)
    (r1 r2 r3 r4 : Z) (es : list token_event) :
  dt_ns (last_refresh s0) <= dt_ns t0 -> checkout t0 r1 r2 s0 addr = (tok, s1) ->
  ordered t0 es t -> dt_ns t - dt_ns t0 < 10 * NS_PER_MINUTE ->
  (checkin t r3 r4 (token_run s1 es) addr tok).1 = true.
Proof.
  intros Hs0 [-> Hr]%checkout_fresh Ho Ht; [|done]. pose proof (ordered_le _ _ _ Ho).
  destruct (holds_secret_run (curr_secret s1) t0 t es s1 t0) as [Hh Hle]; [by left|lia|lia|lia|done|].
  destruct (holds_secret_refresh (curr_secret s1) t0 (token_run s1 es) t r3 r4) as [Hh' _]; [done|done|lia|].
  unfold checkin. cbn [fst]. apply validate_token_spec. destruct Hh' as [[-> _]|[-> _]]; auto.
Qed.

(** Which of the secrets a store holds were drawn after [t0], among [ds]. *)
Definition secret_age (t0 : DateTime) (ds : list Z) (s : TokenStore) : Prop :=
  (dt_ns (last_refresh s) <= dt_ns t0) \/
  (curr_secret s ∈ ds /\ dt_ns (last_refresh s) < dt_ns t0 + 20 * NS_PER_MINUTE) \/
  (curr_secret s ∈ ds /\ last_secret s ∈ ds).

Lemma secret_age_mono t0 ds ds' s : ds ⊆ ds' -> secret_age t0 ds s -> secret_age t0 ds' s.
Proof. unfold secret_age. intros Hs [?|[[? ?]|[? ?]]]; [by left|right; left; auto|right; right; auto]. Qed.

Lemma secret_age_refresh t0 ds s now r1 r2 : secret_age t0 ds s -> dt_ns (last_refresh s) <= dt_ns now ->
  secret_age t0 ([r1; r2] ++ ds) (refresh_check now r1 r2 s) /\
  dt_ns (last_refresh (refresh_check now r1 r2 s)) <= dt_ns now /\
  (dt_ns t0 + 30 * NS_PER_MINUTE <= dt_ns now -> curr_secret (refresh_check now r1 r2 s) ∈ [r1; r2] ++ ds /\
     last_secret (refresh_check now r1 r2 s) ∈ [r1; r2] ++ ds).
Proof.
  intros Ha Hle. assert (0 < NS_PER_MINUTE) by (vm_compute; done). unfold secret_age in *.
  destruct (refresh_check_cases now r1 r2 s Hle) as [[? ->]|[[? ->]|[? ->]]]; cbn [last_refresh curr_secret last_secret].
  - split_and!; [|done|].
    + destruct Ha as [?|[[? ?]|[? ?]]]; [by left|right; left; set_solver|right; right; set_solver].
    + intros Hn. destruct Ha as [?|[[? ?]|[? ?]]]; [lia|lia|set_solver].
  - split_and!; [|lia|].
    + destruct Ha as [?|[[? ?]|[? ?]]]; right; [left|right|right]; (split; [set_solver|]); [lia|set_solver..].
    + intros Hn. destruct Ha as [?|[[? ?]|[? ?]]]; [lia|set_solver..].
  - split_and!; [right; right; set_solver|lia|set_solver].
Qed.

Lemma secret_age_run t0 hi es : forall s lo ds, secret_age t0 ds s ->
  dt_ns (last_refresh s) <= dt_ns lo -> ordered lo es hi ->
  secret_age t0 (draws es ++ ds) (token_run s es) /\ dt_ns (last_refresh (token_run s es)) <= dt_ns hi.
Proof.
  induction es as [|e es IH]; intros s lo ds Ha Hle Ho; cbn [ordered] in Ho; [split; [done|simpl; lia]|].
  destruct Ho as [H1 H2]. unfold token_run. cbn [foldl]. rewrite token_step_refresh.
  destruct (secret_age_refresh t0 ds s (ev_now e) (ev_r1 e) (ev_r2 e)) as (Ha' & Hle' & _); [done|lia|].
  destruct (IH _ (ev_now e) _ Ha' Hle' H2) as [Hr Hl]. split; [|done]. eapply secret_age_mono; [|done].
  unfold draws. cbn [map concat]. set_solver.
Qed.

(** After thirty minutes a token is worthless: unless one of the secrets drawn
    since then happens to give the same digest, [checkin] refuses it, whatever
    operations the store performed in between. *)
Lemma token_refused_after_thirty_minutes (s0 s1 : TokenStore) (addr : IpAddr) (tok : Token) (t0 t : DateTime)
    (r1 r2 r3 r4 : Z) (es : list token_event) :
  dt_ns (last_refresh s0) <= dt_ns t0 -> checkout t0 r1 r2 s0 addr = (tok, s1) ->
  ordered t0 es t -> 30 * NS_PER_MINUTE <= dt_ns t - dt_ns t0 ->
  (forall d, d ∈ r3 :: r4 :: draws es -> generate_token_from_addr addr d <> tok) ->
  (checkin t r3 r4 (token_run s1 es) addr tok).1 = false.
Proof.
  intros Hs0 [_ Hr]%checkout_fresh Ho Ht Hd; [|done].
  destruct (secret_age_run t0 t es s1 t0 []) as [Ha Hle]; [left; lia|lia|done|]. rewrite app_nil_r in Ha.
  destruct (secret_age_refresh _ _ _ t r3 r4 Ha Hle) as (_ & _ & Hin). destruct (Hin ltac:(lia)) as [H1 H2].
  unfold checkin. cbn [fst]. apply not_true_iff_false. rewrite validate_token_spec.
  intros [He|He]; by eapply Hd; [|exact He].
Qed.

(** Tokens live longer than the twenty minutes the documentation states: when the
    store is next used between ten and twenty minutes after the issuing secret was
    drawn, the token is accepted for ten more minutes from then on. *)
Lemma token_accepted_beyond_twenty_minutes (s0 : TokenStore) (addr : IpAddr) (t1 t : DateTime) (e : token_event)
    (r1 r2 r3 r4 : Z) :
  let t0 := last_refresh s0 in
  ev_now e = t1 -> 10 * NS_PER_MINUTE <= dt_ns t1 - dt_ns t0 < 20 * NS_PER_MINUTE ->
  0 <= dt_ns t - dt_ns t1 < 10 * NS_PER_MINUTE ->
  let '(tok, s1) := checkout t0 r1 r2 s0 addr in
  (checkin t r3 r4 (token_run s1 [e]) addr tok).1 = true.
Proof.
  intros t0 He H1 H2. unfold checkout. assert (0 < NS_PER_MINUTE) by (vm_compute; done).
  destruct (refresh_check_cases t0 r1 r2 s0) as [[? ->]|[[? _]|[? _]]]; [done| |unfold t0 in *; lia..].
  unfold token_run. cbn [foldl]. rewrite token_step_refresh, He.
  destruct (refresh_check_cases t1 (ev_r1 e) (ev_r2 e) s0) as [[? _]|[[? ->]|[? _]]]; unfold t0 in *; [lia|lia| |lia].
  unfold checkin. cbn [fst]. apply validate_token_spec. right.
  destruct (refresh_check_cases t r3 r4 (mkTokenStore (ev_r1 e) (curr_secret s0) t1)) as [[? ->]|[[? _]|[? _]]];
    cbn [last_refresh] in *; [lia|done|lia|lia].
Qed.
End Token.

(** ** Witnesses *)

(** A stand-in digest: the input padded to twenty bytes. *)
Definition pad20 (l : list Z) : list Z := take 20 (l ++ replicate 20 0).
Definition peer_ip : IpAddr := IpV4 (Ipv4Addr_new 10 0 0 1).
Definition at_minute (m : Z) : @DateTime chrono_Z := m * NS_PER_MINUTE.
Definition store0 : @TokenStore chrono_Z := TokenStore_new (at_minute 0) 11 12.
Definition other_use (m : Z) : @token_event chrono_Z := @mkEvent chrono_Z (at_minute m) (100 + m) (200 + m) (OpCheckout peer_ip).

Lemma token_accepted_ten_minutes_witness :
  (checkin pad20 (at_minute 18) 3 4 (token_run pad20 store0 [other_use 10; other_use 15]) peer_ip
     (generate_token_from_addr pad20 peer_ip 11)).1 = true.
Proof.
  apply (token_accepted_ten_minutes pad20 store0 store0 peer_ip _ (at_minute 9) (at_minute 18) 1 2 3 4);
    vm_compute; first [done | split; done].
Defined.

Lemma token_refused_after_thirty_minutes_witness :
  (checkin pad20 (at_minute 45) 3 4 (token_run pad20 store0 [other_use 15]) peer_ip
     (generate_token_from_addr pad20 peer_ip 11)).1 = false.
Proof.
  apply (token_refused_after_thirty_minutes pad20 store0 store0 peer_ip _ (at_minute 9) (at_minute 45) 1 2 3 4);
    try (vm_compute; done).
  apply Forall_forall. repeat constructor; vm_compute; discriminate.
Defined.

(** Issued at minute 0, used at minute 19, still accepted at minute 28. *)
Lemma token_accepted_beyond_twenty_minutes_witness :
  (checkin pad20 (at_minute 28) 3 4 (token_run pad20 store0 [other_use 19]) peer_ip
     (generate_token_from_addr pad20 peer_ip 11)).1 = true.
Proof.
  apply (token_accepted_beyond_twenty_minutes pad20 store0 peer_ip (at_minute 19) (at_minute 28) (other_use 19) 1 2 3 4);
    [reflexivity|vm_compute; split; done..].
Defined.
