(* ===== verification/UtilTrans.v ===== *)
(** * Shuffled identifiers

    Model of [fisher_shuffle] and [fisher_shuffle_copy] in [util/mod.rs] and of the
    generators [SequentialIds] and [LocallyShuffledIds] of [util/trans], for unsigned
    identifiers of [w] bits. Randomness is an argument: a shuffle gets the function
    [rnd] whose [i]-th value is the number drawn in round [i]. *)

From Stdlib Require Import Permutation.
From S2P Require Import Prelude.

(** ** Fisher-Yates *)

Section Shuffle.
Context {A : Type}.
Implicit Types l : list A.

(** [(random % (len - i)) + i] for a random [usize]. *)
Definition swap_index (r : Z) (len i : nat) : nat := (Z.to_nat (r mod Z.of_nat (len - i)) + i)%nat.

(** One round, with [d] the value of [T::default()]: both places are emptied before
    they are written, so that equal places keep their element. *)
Definition shuffle_round (d : A) (rnd : nat -> Z) (acc : res unit (list A)) (i : nat) : res unit (list A) :=
  let? l := acc in
  let k := swap_index (rnd i) (length l) i in
  let? src_val := or_panic (l !! i) in
  let l := <[i := d]> l in
  let? dst_val := or_panic (l !! k) in
  let l := <[k := d]> l in
  let l := <[i := dst_val]> l in
  Ok (<[k := src_val]> l).

Definition fisher_shuffle (d : A) (rnd : nat -> Z) l : res unit (list A) :=
  foldl (shuffle_round d rnd) (Ok l) (seq 0 (length l)).

Definition shuffle_copy_round (rnd : nat -> Z) (acc : res unit (list A)) (i : nat) : res unit (list A) :=
  let? l := acc in
  let k := swap_index (rnd i) (length l) i in
  let? temp := or_panic (l !! i) in
  let? other := or_panic (l !! k) in
  Ok (<[k := temp]> (<[i := other]> l)).

Definition fisher_shuffle_copy (rnd : nat -> Z) l : res unit (list A) :=
  foldl (shuffle_copy_round rnd) (Ok l) (seq 0 (length l)).

(** *** Facts *)

Lemma swap_index_lt r len i : (i < len)%nat -> (i <= swap_index r len i < len)%nat.
Proof.
  intros Hi. unfold swap_index. pose proof (Z.mod_pos_bound r (Z.of_nat (len - i)) ltac:(lia)). lia.
Qed.

Lemma insert_swap_perm l i k x y : l !! i = Some x -> l !! k = Some y -> <[k := x]> (<[i := y]> l) ≡ₚ l.
Proof.
  intros Hi Hk. destruct (decide (i = k)) as [<-|Hne].
  - assert (x = y) as <- by congruence. rewrite (list_insert_id l i x Hi). by rewrite (list_insert_id l i x Hi).
  - apply Permutation_inj. split; [by rewrite !length_insert|].
    exists (fun j => if decide (j = i) then k else if decide (j = k) then i else j). split.
    + intros a b. repeat case_decide; congruence.
    + intros j. repeat case_decide; subst.
      * by rewrite list_lookup_insert_ne, list_lookup_insert_eq by (done || by eapply lookup_lt_Some).
      * rewrite list_lookup_insert_eq; [done|]. rewrite length_insert. by eapply lookup_lt_Some.
      * by rewrite !list_lookup_insert_ne by done.
Qed.

Lemma shuffle_round_ok d rnd l i : (i < length l)%nat ->
  exists l', shuffle_round d rnd (Ok l) i = Ok l' /\ l' ≡ₚ l /\ length l' = length l.
Proof.
  intros Hi. destruct (swap_index_lt (rnd i) (length l) i Hi) as [Hge Hlt]. unfold shuffle_round. cbn [res_bind].
  set (k := swap_index _ _ _) in *. destruct (lookup_lt_is_Some_2 l i Hi) as [x Ex], (lookup_lt_is_Some_2 l k Hlt) as [y Ey].
  rewrite Ex. cbn [or_panic res_bind]. destruct (decide (i = k)) as [<-|Hne].
  - rewrite list_lookup_insert_eq by done. cbn [or_panic res_bind]. eexists. split; [done|].
    rewrite !list_insert_insert_eq, list_insert_id by done. done.
  - rewrite list_lookup_insert_ne, Ey by done. cbn [or_panic res_bind]. eexists. split; [done|].
    rewrite !length_insert. split; [|done].
    rewrite (list_insert_insert_ne _ i k) by done. rewrite (list_insert_insert_eq _ k), (list_insert_insert_eq _ i).
    by apply insert_swap_perm.
Qed.

Lemma shuffle_copy_round_ok rnd l i : (i < length l)%nat ->
  exists l', shuffle_copy_round rnd (Ok l) i = Ok l' /\ l' ≡ₚ l /\ length l' = length l.
Proof.
  intros Hi. destruct (swap_index_lt (rnd i) (length l) i Hi) as [Hge Hlt]. unfold shuffle_copy_round. cbn [res_bind].
  set (k := swap_index _ _ _) in *. destruct (lookup_lt_is_Some_2 l i Hi) as [x Ex], (lookup_lt_is_Some_2 l k Hlt) as [y Ey].
  rewrite Ex, Ey. cbn [or_panic res_bind]. eexists. split; [done|]. rewrite !length_insert. split; [|done].
  by apply insert_swap_perm.
Qed.

Lemma shuffle_loop (round : res unit (list A) -> nat -> res unit (list A)) :
  (forall l i, (i < length l)%nat -> exists l', round (Ok l) i = Ok l' /\ l' ≡ₚ l /\ length l' = length l) ->
  forall idx l, Forall (fun i => (i < length l)%nat) idx ->
  exists l', foldl round (Ok l) idx = Ok l' /\ l' ≡ₚ l.
Proof.
  intros Hround idx. induction idx as [|i idx IH]; intros l His; [by exists l|]. apply Forall_cons in His as [Hi His].
  cbn [foldl]. destruct (Hround l i Hi) as (l1 & -> & Hp & Hl). destruct (IH l1) as (l' & E & Hp'); [by rewrite Hl|].
  exists l'. split; [done|]. by etransitivity.
Qed.

Lemma seq_bounded n : Forall (fun i => (i < n)%nat) (seq 0 n).
Proof. apply Forall_forall. intros i Hi. apply elem_of_seq in Hi. lia. Qed.

Lemma fisher_shuffle_perm d rnd l : exists l', fisher_shuffle d rnd l = Ok l' /\ l' ≡ₚ l.
Proof. apply shuffle_loop; [apply shuffle_round_ok|apply seq_bounded]. Qed.

Lemma fisher_shuffle_copy_perm rnd l : exists l', fisher_shuffle_copy rnd l = Ok l' /\ l' ≡ₚ l.
Proof. apply shuffle_loop; [apply shuffle_copy_round_ok|apply seq_bounded]. Qed.

(** Both shuffles return without a panic, whatever numbers are drawn, and only
    reorder the elements: in particular no default value is left in the slice. *)
Lemma fisher_shuffle_permutes (d : A) (rnd : nat -> Z) (l : list A) :
  (exists l', fisher_shuffle d rnd l = Ok l' /\ l' ≡ₚ l) /\
  (exists l', fisher_shuffle_copy rnd l = Ok l' /\ l' ≡ₚ l).
Proof. split; [apply fisher_shuffle_perm|apply fisher_shuffle_copy_perm]. Qed.
End Shuffle.

(** ** Generators *)

Section Ids.
Context (w : Z).

Definition TRANSACTION_ID_PREALLOC_LEN : nat := 2048.

(** [SequentialIds<T>] is its field [next_id]; [Wrapping] addition. *)
Definition SequentialIds_generate (next_id : Z) : Z * Z := (next_id, wrap w (next_id + 1)).

Record LocallyShuffledIds : Type := mkShuffled { sequential : Z; stored_ids : list Z }.

Definition LocallyShuffledIds_start_at (start : Z) : LocallyShuffledIds := mkShuffled start [].
Definition LocallyShuffledIds_new : LocallyShuffledIds := LocallyShuffledIds_start_at 0.

Definition min_value : Z := 0.
Definition max_value : Z := 2 ^ w - 1.

(** The loop of [refill_stored_ids]: [n] rounds are left, [stored] is filled from the back. *)
Fixpoint refill_loop (n : nat) (seqn : Z) (stored : list Z) (contains_min contains_max : bool) : Z * list Z :=
  match n with
  | O => (seqn, stored)
  | S n =>
      if negb contains_min || negb contains_max then
        let '(next_id, seqn) := SequentialIds_generate seqn in
        let contains_min := contains_min || (next_id =? min_value) in
        let contains_max := contains_max || (next_id =? max_value) in
        refill_loop n seqn (stored ++ [next_id]) contains_min contains_max
      else (seqn, stored)
  end.

Definition refill_stored_ids (rnd : nat -> Z) (s : LocallyShuffledIds) : res unit LocallyShuffledIds :=
  let '(seqn, stored) := refill_loop TRANSACTION_ID_PREALLOC_LEN (sequential s) [] false false in
  let? stored := fisher_shuffle 0 rnd stored in
  Ok (mkShuffled seqn stored).

(** [generate]: [pop] the last stored id, refilling first when there is none. *)
Fixpoint LocallyShuffledIds_generate (fuel : nat) (rnd : nat -> Z) (s : LocallyShuffledIds)
    : res unit (Z * LocallyShuffledIds) :=
  match fuel with
  | O => OutOfFuel
  | S fuel =>
      match last (stored_ids s) with
      | Some id => Ok (id, mkShuffled (sequential s) (removelast (stored_ids s)))
      | None => let? s := refill_stored_ids rnd s in LocallyShuffledIds_generate fuel rnd s
      end
  end.

(** A run of [generate] calls, one random function for each. *)
Fixpoint generate_run (rnds : list (nat -> Z)) (s : LocallyShuffledIds) : res unit (list Z) :=
  match rnds with
  | [] => Ok []
  | rnd :: rnds =>
      let? (id, s) := LocallyShuffledIds_generate 2 rnd s in
      let? ids := generate_run rnds s in
      Ok (id :: ids)
  end.

(** *** One block *)

Context (Hw : 1 <= w).

(** The length of a block: the whole range when it is smaller than the limit. *)
Definition block_len : Z := Z.min (Z.of_nat TRANSACTION_ID_PREALLOC_LEN) (2 ^ w).

Lemma pow_w_pos : 2 <= 2 ^ w.
Proof. change 2 with (2 ^ 1) at 1. apply Z.pow_le_mono_r; lia. Qed.

Lemma block_len_divide : (block_len | 2 ^ w).
Proof.
  unfold block_len, TRANSACTION_ID_PREALLOC_LEN. destruct (Z.min_spec (Z.of_nat 2048) (2 ^ w)) as [[H ->]|[H ->]]; [|done].
  change (Z.of_nat 2048) with (2 ^ 11) in *. apply Z.pow_lt_mono_r_iff in H; [|lia..].
  exists (2 ^ (w - 11)). rewrite <- Z.pow_add_r by lia. f_equal. lia.
Qed.

Lemma refill_loop_step a k n stored cmin cmax : 0 <= a -> a + Z.of_nat k < 2 ^ w -> cmax = false ->
  refill_loop (S n) (a + Z.of_nat k) stored cmin cmax =
  refill_loop n (wrap w (a + Z.of_nat (S k))) (stored ++ [a + Z.of_nat k])
    (cmin || (a + Z.of_nat k =? 0)) (a + Z.of_nat k =? 2 ^ w - 1).
Proof.
  intros Ha Hk ->. cbn [refill_loop SequentialIds_generate]. rewrite orb_true_r. cbn [orb].
  by replace (a + Z.of_nat k + 1) with (a + Z.of_nat (S k)) by lia.
Qed.

(** The loop from [a], with [k] of the block's ids already stored. *)
Lemma refill_loop_from a (j : nat) : 0 <= a -> a + block_len <= 2 ^ w -> forall k n cmin,
  Z.of_nat k + Z.of_nat (S j) = block_len -> Z.of_nat n + Z.of_nat k = Z.of_nat TRANSACTION_ID_PREALLOC_LEN ->
  ((0 < k)%nat -> cmin = (a =? 0)) -> ((k = 0)%nat -> cmin = false) ->
  refill_loop n (a + Z.of_nat k) (seqZ a (Z.of_nat k)) cmin false = (wrap w (a + block_len), seqZ a block_len).
Proof.
  intros Ha Hb. pose proof pow_w_pos as Hpw. pose proof (Z.le_min_l (Z.of_nat TRANSACTION_ID_PREALLOC_LEN) (2 ^ w)) as Hmin.
  fold block_len in Hmin. induction j as [|j IH]; intros k n cmin Hk Hn Hc Hc0; (destruct n as [|n]; [lia|]).
  all: rewrite refill_loop_step by lia.
  all: assert (Hseq : seqZ a (Z.of_nat k) ++ [a + Z.of_nat k] = seqZ a (Z.of_nat (S k)))
         by (rewrite Nat2Z.inj_succ, <- Z.add_1_r, seqZ_app by lia; done).
  all: assert (Hcm : cmin || (a + Z.of_nat k =? 0) = (a =? 0))
         by (destruct k; [rewrite Hc0 by done; by rewrite Z.add_0_r|rewrite Hc by lia;
             destruct (Z.eqb_spec (a + Z.of_nat (S k)) 0); [lia|by rewrite orb_false_r]]).
  all: rewrite Hseq, Hcm.
  - replace (Z.of_nat (S k)) with block_len by lia. destruct n as [|n]; [done|]. cbn [refill_loop].
    assert (block_len = 2 ^ w) by (unfold block_len in *; lia). assert (a = 0) as -> by lia.
    replace (0 + Z.of_nat k) with (2 ^ w - 1) by lia. by rewrite !Z.eqb_refl.
  - destruct (Z.eqb_spec (a + Z.of_nat k) (2 ^ w - 1)); [lia|].
    rewrite (wrap_id w (a + Z.of_nat (S k))) by (unfold in_unsigned; lia).
    apply IH; [lia|lia|done|lia].
Qed.

Lemma block_len_pos : 1 <= block_len.
Proof. pose proof pow_w_pos. unfold block_len, TRANSACTION_ID_PREALLOC_LEN. lia. Qed.

Lemma refill_loop_block a : 0 <= a -> a + block_len <= 2 ^ w ->
  refill_loop TRANSACTION_ID_PREALLOC_LEN a [] false false = (wrap w (a + block_len), seqZ a block_len).
Proof.
  intros Ha Hb. pose proof block_len_pos.
  pose proof (refill_loop_from a (Z.to_nat (block_len - 1)) Ha Hb 0 TRANSACTION_ID_PREALLOC_LEN false) as Hr.
  change (Z.of_nat 0) with 0 in Hr. rewrite !Z.add_0_r in Hr. change (seqZ a 0) with (@nil Z) in Hr. apply Hr; lia.
Qed.

(** *** Runs *)

(** After handing out [done], the stored ids complete it to an initial range. *)
Definition ids_inv (done : list Z) (s : LocallyShuffledIds) : Prop :=
  exists a, sequential s = wrap w a /\ 0 <= a <= 2 ^ w /\ (block_len | a) /\ done ++ stored_ids s ≡ₚ seqZ 0 a.

Lemma next_block a : 0 <= a < 2 ^ w -> (block_len | a) -> a + block_len <= 2 ^ w.
Proof.
  intros Ha [m Hm]. destruct block_len_divide as [q Hq]. pose proof block_len_pos.
  assert (m < q) by nia. nia.
Qed.

Lemma refill_inv rnd done s : ids_inv done s -> stored_ids s = [] -> Z.of_nat (length done) < 2 ^ w ->
  exists s', refill_stored_ids rnd s = Ok s' /\ ids_inv done s' /\ stored_ids s' <> [].
Proof.
  intros (a & Hs & Ha & Hd & Hp) Hn Hl. rewrite Hn, app_nil_r in Hp.
  assert (Ha' : a < 2 ^ w) by (rewrite Hp, length_seqZ in Hl; lia).
  assert (Hb : a + block_len <= 2 ^ w) by (apply next_block; [lia|done]). pose proof block_len_pos.
  unfold refill_stored_ids. rewrite Hs, wrap_id by (unfold in_unsigned; lia). rewrite refill_loop_block by lia.
  destruct (fisher_shuffle_perm 0 rnd (seqZ a block_len)) as (l & -> & Hl'). cbn [res_bind].
  eexists. split; [done|]. cbn [stored_ids]. split.
  - exists (a + block_len). cbn [sequential stored_ids]. split_and!; [done|lia|lia|by apply Z.divide_add_r|].
    rewrite Hp, Hl', seqZ_app by lia. done.
  - intros ->. apply Permutation_length in Hl'. rewrite length_seqZ in Hl'. simpl in Hl'. lia.
Qed.

Lemma generate_pop fuel rnd s l x : stored_ids s = l ++ [x] ->
  LocallyShuffledIds_generate (S fuel) rnd s = Ok (x, mkShuffled (sequential s) l).
Proof. intros E. cbn [LocallyShuffledIds_generate]. by rewrite E, last_snoc, removelast_last. Qed.

Lemma generate_inv rnd done s : ids_inv done s -> Z.of_nat (length done) < 2 ^ w ->
  exists x s', LocallyShuffledIds_generate 2 rnd s = Ok (x, s') /\ ids_inv (done ++ [x]) s'.
Proof.
  intros Hi Hl.
  assert (Hpop : forall fuel s, ids_inv done s -> stored_ids s <> [] ->
    exists x s', LocallyShuffledIds_generate (S fuel) rnd s = Ok (x, s') /\ ids_inv (done ++ [x]) s').
  { intros fuel s1 (a & Hs & Ha & Hd & Hp) Hne. destruct (exists_last Hne) as (l & x & E).
    eexists x, _. split; [by apply generate_pop|]. exists a. cbn [sequential stored_ids]. split_and!; [done|lia|lia|done|].
    rewrite <- Hp, E, <- !app_assoc. f_equiv. apply Permutation_app_comm. }
  destruct (stored_ids s) as [|y l] eqn:E; [|apply Hpop; [done|by rewrite E]].
  destruct (refill_inv rnd done s Hi E Hl) as (s1 & Hr & Hi1 & Hne).
  destruct (Hpop 0%nat s1 Hi1 Hne) as (x & s' & Hg & Hi'). exists x, s'. split; [|done].
  cbn [LocallyShuffledIds_generate]. rewrite E. cbn [last]. rewrite Hr. exact Hg.
Qed.

Lemma generate_run_inv rnds : forall done s, ids_inv done s ->
  Z.of_nat (length done + length rnds) <= 2 ^ w ->
  exists ids s', generate_run rnds s = Ok ids /\ length ids = length rnds /\ ids_inv (done ++ ids) s'.
Proof.
  induction rnds as [|rnd rnds IH]; intros done s Hi Hl; cbn [length] in Hl.
  - exists [], s. by rewrite app_nil_r.
  - destruct (generate_inv rnd done s Hi) as (x & s1 & Hg & Hi1); [lia|]. cbn [generate_run]. rewrite Hg. cbn [res_bind].
    destruct (IH (done ++ [x]) s1 Hi1) as (ids & s' & -> & Hlen & Hi'); [rewrite length_app; simpl; lia|].
    exists (x :: ids), s'. split_and!; [done|simpl; congruence|]. by rewrite <- app_assoc in Hi'.
Qed.

Lemma generate_run_range (rnds : list (nat -> Z)) : Z.of_nat (length rnds) <= 2 ^ w ->
  exists ids, generate_run rnds LocallyShuffledIds_new = Ok ids /\ length ids = length rnds /\
    NoDup ids /\ Forall (in_unsigned w) ids.
Proof.
  intros Hl. destruct (generate_run_inv rnds [] LocallyShuffledIds_new) as (ids & s & E & Hlen & a & _ & Ha & _ & Hp).
  - exists 0. cbn. split_and!; [by rewrite wrap_id by (unfold in_unsigned; pose proof pow_w_pos; lia)|lia|pose proof pow_w_pos; lia| |done].
    apply Z.divide_0_r.
  - done.
  - exists ids. cbn [app] in Hp. assert (Hnd : NoDup (ids ++ stored_ids s)) by (rewrite Hp; apply NoDup_seqZ).
    apply NoDup_app in Hnd as [Hnd _]. split_and!; [done|done|done|]. apply Forall_forall. intros x Hx.
    assert (Hin : x ∈ seqZ 0 a) by (rewrite <- Hp; apply elem_of_app; by left). apply elem_of_seqZ in Hin.
    unfold in_unsigned. lia.
Qed.
End Ids.

(** The ids of [LocallyShuffledIds::new] are unique over a full cycle of the id
    type: up to [2^w] calls of [generate] all return, whatever is drawn, and their
    results are pairwise distinct values of the type. This covers types smaller than
    the preallocated block, where the refill stops early. *)
Lemma shuffled_ids_unique (w : Z) (rnds : list (nat -> Z)) : 1 <= w -> Z.of_nat (length rnds) <= 2 ^ w ->
  exists ids, generate_run w rnds LocallyShuffledIds_new = Ok ids /\ length ids = length rnds /\
    NoDup ids /\ Forall (in_unsigned w) ids.
Proof. intros Hw. by apply generate_run_range. Qed.

Lemma shuffled_ids_unique_witness :
  exists ids, generate_run 8 (replicate 256 (fun i => Z.of_nat (i * i + 7))) LocallyShuffledIds_new = Ok ids /\
    length ids = 256%nat /\ NoDup ids /\ Forall is_u8 ids.
Proof.
  apply (shuffled_ids_unique 8 (replicate 256 (fun i => Z.of_nat (i * i + 7)))); [lia|].
  rewrite length_replicate. vm_compute. discriminate.
Defined.

(** ** [util/trans/old.rs] *)

Section TID.
Context (w : Z).

(** The generator of the UDP tracker client, with its block of 2048 ids. *)
Record TIDGenerator : Type := mkTID { tid_next_alloc : Z; tid_curr_index : nat; trans_ids : list Z }.

(** [NumCast::from(2048)] fails for a type that does not have this value. *)
Definition generate_tids (curr_alloc : Z) : Z * list Z :=
  let alloc_len := Z.of_nat TRANSACTION_ID_PREALLOC_LEN in
  let '(next_alloc_start, next_alloc_end) :=
    if alloc_len <=? max_value w then
      if curr_alloc =? max_value w then (min_value, alloc_len) else (curr_alloc, wrap w (curr_alloc + alloc_len))
    else (curr_alloc, curr_alloc) in
  (next_alloc_end, map (fun i => wrap w (next_alloc_start + Z.of_nat i)) (seq 0 TRANSACTION_ID_PREALLOC_LEN)).

Definition TIDGenerator_refill (rnd : nat -> Z) (alloc : Z) : res unit TIDGenerator :=
  let '(next_alloc, ids) := generate_tids alloc in
  let? ids := fisher_shuffle_copy rnd ids in
  Ok (mkTID next_alloc 0 ids).

Definition TIDGenerator_new (rnd : nat -> Z) : res unit TIDGenerator := TIDGenerator_refill rnd min_value.

Fixpoint TIDGenerator_generate (fuel : nat) (rnd : nat -> Z) (g : TIDGenerator) : res unit (Z * TIDGenerator) :=
  match fuel with
  | O => OutOfFuel
  | S fuel =>
      match trans_ids g !! tid_curr_index g with
      | Some id => Ok (id, mkTID (tid_next_alloc g) (tid_curr_index g + 1) (trans_ids g))
      | None => let? g := TIDGenerator_refill rnd (tid_next_alloc g) in TIDGenerator_generate fuel rnd g
      end
  end.

(** A block is full, and its ids are values of the type. *)
Lemma TIDGenerator_refill_ok rnd alloc : 0 <= w ->
  exists g, TIDGenerator_refill rnd alloc = Ok g /\ tid_curr_index g = 0%nat /\
    length (trans_ids g) = TRANSACTION_ID_PREALLOC_LEN /\ Forall (in_unsigned w) (trans_ids g).
Proof.
  intros Hw. unfold TIDGenerator_refill. destruct (generate_tids alloc) as [next ids] eqn:E.
  destruct (fisher_shuffle_copy_perm rnd ids) as (ids' & -> & Hp). cbn [res_bind]. eexists. split; [done|]. cbn [tid_curr_index trans_ids].
  assert (exists start, ids = map (fun i => wrap w (start + Z.of_nat i)) (seq 0 TRANSACTION_ID_PREALLOC_LEN)) as [start ->].
  { unfold generate_tids in E. repeat case_match; simplify_eq; by eexists. }
  split; [done|]. split; [rewrite (Permutation_length Hp); by rewrite List.length_map, List.length_seq|].
  rewrite Hp. apply Forall_map, Forall_forall. intros i _. by apply wrap_in_unsigned.
Qed.

(** Two calls are enough: a new block is not empty. *)
Lemma TIDGenerator_generate_ok rnd g : 0 <= w -> Forall (in_unsigned w) (trans_ids g) ->
  exists id g', TIDGenerator_generate 2 rnd g = Ok (id, g') /\ in_unsigned w id /\ Forall (in_unsigned w) (trans_ids g').
Proof.
  intros Hw Hg. cbn [TIDGenerator_generate]. destruct (trans_ids g !! tid_curr_index g) as [id|] eqn:E.
  - eexists _, _. split; [done|]. split; [by eapply Forall_lookup_1|done].
  - destruct (TIDGenerator_refill_ok rnd (tid_next_alloc g) Hw) as (g1 & -> & Hi & Hl & Hf). cbn [res_bind]. rewrite Hi.
    destruct (lookup_lt_is_Some_2 (trans_ids g1) 0) as [id Hid]; [rewrite Hl; unfold TRANSACTION_ID_PREALLOC_LEN; lia|].
    rewrite Hid. eexists _, _. split; [done|]. split; [by eapply Forall_lookup_1|done].
Qed.
End TID.
