(* ===== verification/DhtTransaction.v ===== *)
(** * DHT transaction ids

    Model of [dht/transaction.rs]: ids of eight bytes, five for the action and three
    for the message, handed out from shuffled preallocated blocks. [AIDGenerator] and
    [MIDGenerator] use the same block scheme with different limits, which is modelled
    once as [IdBlock]. The numbers drawn by a shuffle are an argument, as in
    [UtilTrans]. The block length is that of a normal (not a test) build. *)

From Stdlib Require Import Permutation.
From S2P Require Import Prelude Words UtilConvert UtilTrans.

Definition ACTION_ID_BYTES : nat := 5.
Definition MESSAGE_ID_BYTES : nat := 3.
Definition TRANSACTION_ID_BYTES : nat := ACTION_ID_BYTES + MESSAGE_ID_BYTES.

Definition ACTION_ID_SHIFT : Z := Z.of_nat ACTION_ID_BYTES * 8.
Definition MAX_ACTION_ID : Z := Z.shiftl 1 ACTION_ID_SHIFT.
Definition MESSAGE_ID_SHIFT : Z := Z.of_nat MESSAGE_ID_BYTES * 8.
Definition MAX_MESSAGE_ID : Z := Z.shiftl 1 MESSAGE_ID_SHIFT.

Definition ACTION_ID_PREALLOC_LEN : nat := 2048.
Definition MESSAGE_ID_PREALLOC_LEN : nat := 2048.

(** ** Blocks of ids *)

(** The three fields both generators have. *)
Record IdBlock : Type := mkIdBlock { next_alloc : Z; curr_index : nat; block_ids : list Z }.

Section Block.
Context (max : Z) (len : nat).

(** [generate_aids] and [generate_mids]: the end of the block and its ids in order. *)
Definition generate_block (next_alloc : Z) : Z * list Z :=
  let '(next_alloc_start, next_alloc_end) :=
    if next_alloc =? max then (0, Z.of_nat len) else (next_alloc, next_alloc + Z.of_nat len) in
  let ids := foldl (fun ids '(index, id) => <[index := id]> ids) (replicate len 0)
    (imap pair (seqZ next_alloc_start (next_alloc_end - next_alloc_start))) in
  (next_alloc_end, ids).

(** [generate]: the id at the current index, or a fresh shuffled block first. *)
Fixpoint block_generate (fuel : nat) (rnd : nat -> Z) (s : IdBlock) : res unit (Z * IdBlock) :=
  match fuel with
  | O => OutOfFuel
  | S fuel =>
      match block_ids s !! curr_index s with
      | Some id => Ok (id, mkIdBlock (next_alloc s) (curr_index s + 1) (block_ids s))
      | None =>
          let '(next_alloc, ids) := generate_block (next_alloc s) in
          let? ids := fisher_shuffle 0 rnd ids in
          block_generate fuel rnd (mkIdBlock next_alloc 0 ids)
      end
  end.

Context (Hlen : (0 < len)%nat) (Hdiv : (Z.of_nat len | max)) (Hmax : 0 < max).

Lemma fill_ids (l : list Z) : forall k a, (k + length l = length a)%nat ->
  foldl (fun ids '(index, id) => <[index := id]> ids) a (imap (fun i x => ((k + i)%nat, x)) l) = take k a ++ l.
Proof.
  induction l as [|x l IH]; intros k a Hk; cbn [length] in Hk.
  - cbn [imap foldl]. rewrite take_ge by lia. by rewrite app_nil_r.
  - cbn [imap foldl]. rewrite Nat.add_0_r.
    rewrite (imap_ext _ (fun i y => ((S k + i)%nat, y))) by (intros i y _; cbn [compose]; by rewrite Nat.add_succ_comm).
    rewrite IH by (rewrite length_insert; lia). rewrite (take_S_r _ _ x) by (apply list_lookup_insert_eq; lia).
    rewrite take_insert_ge by lia. by rewrite <- app_assoc.
Qed.

Lemma generate_block_seq a : 0 <= a < max -> generate_block a = (a + Z.of_nat len, seqZ a (Z.of_nat len)).
Proof.
  intros Ha. unfold generate_block. destruct (Z.eqb_spec a max); [lia|].
  replace (a + Z.of_nat len - a) with (Z.of_nat len) by lia. f_equal.
  pose proof (fill_ids (seqZ a (Z.of_nat len)) 0 (replicate len 0)) as Hf. cbn [Nat.add take app] in Hf.
  apply Hf. rewrite length_seqZ, length_replicate. lia.
Qed.

(** The ids of the block still to come complete what was handed out. *)
Definition block_inv (done : list Z) (s : IdBlock) : Prop :=
  0 <= next_alloc s <= max /\ (Z.of_nat len | next_alloc s) /\
  done ++ drop (curr_index s) (block_ids s) ≡ₚ seqZ 0 (next_alloc s).

Lemma block_generate_inv rnd done s : block_inv done s -> Z.of_nat (length done) < max ->
  exists x s', block_generate 2 rnd s = Ok (x, s') /\ block_inv (done ++ [x]) s' /\ 0 <= x < max.
Proof.
  intros Hi Hl.
  assert (Hhere : forall fuel s x, block_inv done s -> block_ids s !! curr_index s = Some x ->
    exists s', block_generate (S fuel) rnd s = Ok (x, s') /\ block_inv (done ++ [x]) s' /\ 0 <= x < max).
  { intros fuel s1 x (Ha & Hd & Hp) Ex. cbn [block_generate]. rewrite Ex. eexists. split; [done|].
    rewrite (lookup_drop_cons _ _ _ Ex) in Hp. split.
    - unfold block_inv. cbn [curr_index block_ids next_alloc]. split_and!; [lia|lia|done|]. by rewrite <- app_assoc, Nat.add_1_r.
    - assert (Hx : x ∈ seqZ 0 (next_alloc s1)) by (rewrite <- Hp; apply elem_of_app; right; by left).
      apply elem_of_seqZ in Hx. lia. }
  destruct (block_ids s !! curr_index s) as [x|] eqn:Ex; [by exists x; apply Hhere|].
  destruct Hi as (Ha & [m Hm] & Hp). rewrite drop_ge, app_nil_r in Hp by (by apply lookup_ge_None).
  assert (Ha' : next_alloc s < max) by (rewrite Hp, length_seqZ in Hl; lia).
  cbn [block_generate]. rewrite Ex, generate_block_seq by lia.
  destruct (fisher_shuffle_perm 0 rnd (seqZ (next_alloc s) (Z.of_nat len))) as (l & -> & Hpl). cbn [res_bind].
  assert (Hll : length l = len) by (rewrite Hpl, length_seqZ; lia).
  destruct l as [|x l]; [simpl in Hll; lia|].
  destruct (Hhere 0%nat (mkIdBlock (next_alloc s + Z.of_nat len) 0 (x :: l)) x) as (s' & Hs); [|done|by eauto].
  destruct Hdiv as [q Hq]. split_and!; cbn [next_alloc]; [lia| |exists (m + 1); lia|].
  - assert (m < q) by nia. nia.
  - cbn [curr_index block_ids]. rewrite drop_0, Hp, Hpl, seqZ_app by lia. done.
Qed.
End Block.

(** ** Transaction, action and message ids *)

Record TransactionID : Type := mkTransactionID { trans_id : Z; trans_id_bytes : list Z }.
Record ActionID : Type := mkActionID { action_id : Z }.
Record MessageID : Type := mkMessageID { message_id : Z }.

Definition TransactionID_new (trans_id : Z) : TransactionID :=
  mkTransactionID trans_id (eight_bytes_to_array trans_id).

Definition TransactionID_from_bytes (bytes : list Z) : option TransactionID :=
  if negb (length bytes =? TRANSACTION_ID_BYTES)%nat then None
  else
    let trans_id := foldl (fun trans_id byte => Z.lor (as_u64 (Z.shiftl trans_id 8)) byte) 0 bytes in
    Some (TransactionID_new trans_id).

Definition ActionID_from_transaction_id (trans_id : Z) : ActionID :=
  let shifted_action_id := Z.shiftr trans_id MESSAGE_ID_SHIFT in
  mkActionID shifted_action_id.

Definition MessageID_from_transaction_id (trans_id : Z) : MessageID :=
  let clear_action_id := MAX_MESSAGE_ID - 1 in
  let shifted_message_id := Z.land trans_id clear_action_id in
  mkMessageID shifted_message_id.

Definition TransactionID_action_id (t : TransactionID) : ActionID := ActionID_from_transaction_id (trans_id t).
Definition TransactionID_message_id (t : TransactionID) : MessageID := MessageID_from_transaction_id (trans_id t).

(** ** The generators *)

(** The action id, already shifted, and the block of message ids. *)
Record MIDGenerator : Type := mkMID { mid_action_id : Z; mid_block : IdBlock }.

(** The first block is generated lazily. *)
Definition MIDGenerator_new (action_id : Z) : MIDGenerator :=
  mkMID action_id (mkIdBlock 0 MESSAGE_ID_PREALLOC_LEN (replicate MESSAGE_ID_PREALLOC_LEN 0)).

Definition MIDGenerator_action_id (g : MIDGenerator) : ActionID := ActionID_from_transaction_id (mid_action_id g).

Definition MIDGenerator_generate (rnd : nat -> Z) (g : MIDGenerator) : res unit (TransactionID * MIDGenerator) :=
  let? (message_id, b) := block_generate MAX_MESSAGE_ID MESSAGE_ID_PREALLOC_LEN 2 rnd (mid_block g) in
  Ok (TransactionID_new (Z.lor (mid_action_id g) message_id), mkMID (mid_action_id g) b).

Record AIDGenerator : Type := mkAID { aid_block : IdBlock }.

Definition AIDGenerator_new (rnd : nat -> Z) : res unit AIDGenerator :=
  let '(next_alloc, action_ids) := generate_block MAX_ACTION_ID ACTION_ID_PREALLOC_LEN 0 in
  let? action_ids := fisher_shuffle 0 rnd action_ids in
  Ok (mkAID (mkIdBlock next_alloc 0 action_ids)).

Definition AIDGenerator_generate (rnd : nat -> Z) (g : AIDGenerator) : res unit (MIDGenerator * AIDGenerator) :=
  let? (action_id, b) := block_generate MAX_ACTION_ID ACTION_ID_PREALLOC_LEN 2 rnd (aid_block g) in
  Ok (MIDGenerator_new (as_u64 (Z.shiftl action_id MESSAGE_ID_SHIFT)), mkAID b).

(** Runs of calls, each with its random numbers. *)
Fixpoint mid_run (rnds : list (nat -> Z)) (g : MIDGenerator) : res unit (list TransactionID) :=
  match rnds with
  | [] => Ok []
  | rnd :: rnds =>
      let? (t, g) := MIDGenerator_generate rnd g in
      let? ts := mid_run rnds g in
      Ok (t :: ts)
  end.

Fixpoint aid_run (rnds : list (nat -> Z)) (g : AIDGenerator) : res unit (list MIDGenerator) :=
  match rnds with
  | [] => Ok []
  | rnd :: rnds =>
      let? (m, g) := AIDGenerator_generate rnd g in
      let? ms := aid_run rnds g in
      Ok (m :: ms)
  end.

(** ** Facts *)

Lemma message_params : (0 < MESSAGE_ID_PREALLOC_LEN)%nat /\ (Z.of_nat MESSAGE_ID_PREALLOC_LEN | MAX_MESSAGE_ID) /\ 0 < MAX_MESSAGE_ID.
Proof. split; [unfold MESSAGE_ID_PREALLOC_LEN; lia|]. split; [|done]. by exists 8192. Qed.

Lemma action_params : (0 < ACTION_ID_PREALLOC_LEN)%nat /\ (Z.of_nat ACTION_ID_PREALLOC_LEN | MAX_ACTION_ID) /\ 0 < MAX_ACTION_ID.
Proof. split; [unfold ACTION_ID_PREALLOC_LEN; lia|]. split; [|done]. by exists 536870912. Qed.

Lemma from_bytes_be (l : list Z) : bytes_ok l -> (length l <= 8)%nat ->
  foldl (fun trans_id byte => Z.lor (as_u64 (Z.shiftl trans_id 8)) byte) 0 l = be_int l.
Proof.
  intros Hb Hl. unfold be_int. induction l as [|b l IH] using rev_ind; [done|].
  rewrite length_app in Hl. simpl in Hl. apply Forall_app in Hb as [Hb [Hbb _]%Forall_cons].
  rewrite !foldl_app. cbn [foldl]. rewrite IH by (done || lia). fold (be_int l).
  pose proof (be_int_bound l Hb) as Hi.
  rewrite (wrap_shiftl_small 64 _ 8 56); [|lia|lia| |lia].
  - by rewrite <- Z.shiftl_mul_pow2, lor_shiftl_add by (done || lia).
  - eapply in_unsigned_mono; [|done]. lia.
Qed.

Lemma from_bytes_roundtrip t : is_u64 t ->
  TransactionID_from_bytes (trans_id_bytes (TransactionID_new t)) = Some (TransactionID_new t).
Proof.
  intros Ht. unfold TransactionID_new at 1. cbn [trans_id_bytes]. rewrite eight_bytes_to_array_be.
  unfold TransactionID_from_bytes. rewrite length_be_bytes. cbn [Nat.eqb negb].
  rewrite from_bytes_be by (apply be_bytes_ok || by rewrite length_be_bytes).
  by rewrite (be_int_be_bytes_id 8).
Qed.

(** A transaction id splits back into its action and its message. *)
Lemma compose_split aid mid : 0 <= aid < MAX_ACTION_ID -> 0 <= mid < MAX_MESSAGE_ID ->
  let t := TransactionID_new (Z.lor (as_u64 (Z.shiftl aid MESSAGE_ID_SHIFT)) mid) in
  TransactionID_action_id t = mkActionID aid /\ TransactionID_message_id t = mkMessageID mid /\ is_u64 (trans_id t).
Proof.
  change MAX_ACTION_ID with (2 ^ 40). change MAX_MESSAGE_ID with (2 ^ 24). change MESSAGE_ID_SHIFT with 24.
  intros Ha Hm t. assert (Et : trans_id t = aid * 2 ^ 24 + mid).
  { unfold t, TransactionID_new. cbn [trans_id]. rewrite (wrap_shiftl_small 64 aid 24 40) by (done || lia).
    rewrite <- Z.shiftl_mul_pow2, lor_shiftl_add by (done || lia). by rewrite Z.shiftl_mul_pow2 by lia. }
  unfold TransactionID_action_id, TransactionID_message_id, ActionID_from_transaction_id, MessageID_from_transaction_id.
  rewrite Et. change MESSAGE_ID_SHIFT with 24. change (MAX_MESSAGE_ID - 1) with (Z.ones 24).
  rewrite Z.shiftr_div_pow2, Z.land_ones by lia. split_and!.
  - f_equal. rewrite Z.div_add_l by lia. rewrite Z.div_small by lia. lia.
  - f_equal. rewrite Z.add_comm, Z.mod_add by lia. by rewrite Z.mod_small.
  - unfold in_unsigned. lia.
Qed.

Lemma mid_run_inv aid rnds : 0 <= aid < MAX_ACTION_ID -> forall done b, let g := mkMID (as_u64 (Z.shiftl aid MESSAGE_ID_SHIFT)) b in
  block_inv MAX_MESSAGE_ID MESSAGE_ID_PREALLOC_LEN done b -> Z.of_nat (length done + length rnds) <= MAX_MESSAGE_ID ->
  exists ts b', mid_run rnds g = Ok ts /\ length ts = length rnds /\
    block_inv MAX_MESSAGE_ID MESSAGE_ID_PREALLOC_LEN (done ++ map (fun t => message_id (TransactionID_message_id t)) ts) b' /\
    Forall (fun t => TransactionID_action_id t = mkActionID aid /\ TransactionID_from_bytes (trans_id_bytes t) = Some t) ts.
Proof.
  intros Ha. destruct message_params as (Hp1 & Hp2 & Hp3).
  induction rnds as [|rnd rnds IH]; intros done b g Hi Hl; cbn [length] in Hl.
  - exists [], b. cbn. by rewrite app_nil_r.
  - destruct (block_generate_inv _ _ Hp1 Hp2 Hp3 rnd done b Hi) as (x & b1 & Hg & Hi1 & Hx); [lia|].
    cbn [mid_run]. unfold MIDGenerator_generate. cbn [mid_block g mid_action_id]. rewrite Hg. cbn [res_bind].
    destruct (IH (done ++ [x]) b1 Hi1) as (ts & b' & -> & Hlen & Hi' & Hf); [rewrite length_app; simpl; lia|].
    cbn [res_bind]. destruct (compose_split aid x Ha Hx) as (Hact & Hmsg & Hu).
    eexists _, b'. split; [done|]. cbn [length map]. rewrite Hmsg. split_and!; [congruence| |].
    + by rewrite <- app_assoc in Hi'.
    + apply Forall_cons. split; [|done]. split; [done|]. by apply from_bytes_roundtrip.
Qed.

Lemma aid_run_inv rnds : forall done g,
  block_inv MAX_ACTION_ID ACTION_ID_PREALLOC_LEN done (aid_block g) -> Z.of_nat (length done + length rnds) <= MAX_ACTION_ID ->
  exists ms b', aid_run rnds g = Ok ms /\ length ms = length rnds /\
    block_inv MAX_ACTION_ID ACTION_ID_PREALLOC_LEN (done ++ map (fun m => action_id (MIDGenerator_action_id m)) ms) b' /\
    Forall (fun m => exists aid, 0 <= aid < MAX_ACTION_ID /\ m = MIDGenerator_new (as_u64 (Z.shiftl aid MESSAGE_ID_SHIFT))) ms.
Proof.
  destruct action_params as (Hp1 & Hp2 & Hp3).
  induction rnds as [|rnd rnds IH]; intros done g Hi Hl; cbn [length] in Hl.
  - eexists [], _. cbn. split_and!; [done|done|rewrite app_nil_r; exact Hi|constructor].
  - destruct (block_generate_inv _ _ Hp1 Hp2 Hp3 rnd done _ Hi) as (x & b1 & Hg & Hi1 & Hx); [lia|].
    cbn [aid_run]. unfold AIDGenerator_generate. rewrite Hg. cbn [res_bind].
    destruct (IH (done ++ [x]) (mkAID b1) Hi1) as (ms & b' & -> & Hlen & Hi' & Hf); [rewrite length_app; simpl; lia|].
    cbn [res_bind]. destruct (compose_split x 0 Hx ltac:(done)) as (Hact & _ & _).
    eexists _, b'. split; [done|]. cbn [length map]. split_and!; [congruence| |].
    + rewrite <- app_assoc in Hi'. unfold MIDGenerator_action_id at 1. cbn [MIDGenerator_new mid_action_id].
      rewrite Z.lor_0_r in Hact. unfold TransactionID_action_id, TransactionID_new in Hact. cbn [trans_id] in Hact.
      rewrite Hact. exact Hi'.
    + apply Forall_cons. split; [by exists x|done].
Qed.

Lemma block_inv_NoDup max len done b : block_inv max len done b -> NoDup done.
Proof.
  intros (_ & _ & Hp). assert (Hd : NoDup (done ++ drop (curr_index b) (block_ids b))) by (rewrite Hp; apply NoDup_seqZ).
  by apply NoDup_app in Hd as [? _].
Qed.

Lemma NoDup_map_inj {A B} (f : A -> B) (l : list A) : NoDup (map f l) -> NoDup l.
Proof. apply NoDup_fmap_1. Qed.

(** The transaction ids of one action are unique over a full cycle of message
    ids: up to [2^24] calls of [generate] return pairwise distinct ids, each of which
    carries the action it belongs to and survives its eight-byte form. *)
Lemma transaction_ids_unique (aid : Z) (rnds : list (nat -> Z)) :
  0 <= aid < MAX_ACTION_ID -> Z.of_nat (length rnds) <= MAX_MESSAGE_ID ->
  exists ts, mid_run rnds (MIDGenerator_new (as_u64 (Z.shiftl aid MESSAGE_ID_SHIFT))) = Ok ts /\
    length ts = length rnds /\ NoDup ts /\
    Forall (fun t => TransactionID_action_id t = mkActionID aid /\
                     TransactionID_from_bytes (trans_id_bytes t) = Some t) ts.
Proof.
  intros Ha Hl. destruct (mid_run_inv aid rnds Ha [] (mid_block (MIDGenerator_new 0))) as (ts & b & E & Hlen & Hi & Hf).
  - unfold block_inv. cbn [MIDGenerator_new mid_block next_alloc curr_index block_ids app].
    split_and!; [lia|done|apply Z.divide_0_r|]. rewrite drop_ge by (by rewrite length_replicate). done.
  - done.
  - exists ts. split_and!; [exact E|done| |done]. apply block_inv_NoDup in Hi. by eapply NoDup_map_inj.
Qed.

Lemma transaction_ids_unique_witness :
  exists ts, mid_run [fun i => 3 * Z.of_nat i; fun _ => 5; fun _ => 0] (MIDGenerator_new (as_u64 (Z.shiftl 77 MESSAGE_ID_SHIFT))) = Ok ts /\
    length ts = 3%nat /\ NoDup ts /\
    Forall (fun t => TransactionID_action_id t = mkActionID 77 /\ TransactionID_from_bytes (trans_id_bytes t) = Some t) ts.
Proof.
  apply (transaction_ids_unique 77 [fun i => 3 * Z.of_nat i; fun _ => 5; fun _ => 0]); [vm_compute; split; done|vm_compute; discriminate].
Defined.

(** Actions are unique over a full cycle of action ids: up to [2^40] calls of
    [AIDGenerator::generate] return generators with pairwise distinct action ids, each
    below [2^40], so that ids of different actions never collide within the cycle. *)
Lemma action_ids_unique (rnd : nat -> Z) (rnds : list (nat -> Z)) : Z.of_nat (length rnds) <= MAX_ACTION_ID ->
  exists g ms, AIDGenerator_new rnd = Ok g /\ aid_run rnds g = Ok ms /\ length ms = length rnds /\
    NoDup (map MIDGenerator_action_id ms) /\
    Forall (fun m => exists aid, 0 <= aid < MAX_ACTION_ID /\ MIDGenerator_action_id m = mkActionID aid /\
                     m = MIDGenerator_new (as_u64 (Z.shiftl aid MESSAGE_ID_SHIFT))) ms.
Proof.
  intros Hl. destruct action_params as (Hp1 & Hp2 & Hp3). unfold AIDGenerator_new.
  rewrite generate_block_seq by lia. destruct (fisher_shuffle_perm 0 rnd (seqZ 0 (Z.of_nat ACTION_ID_PREALLOC_LEN))) as (l & -> & Hpl).
  cbn [res_bind]. destruct (aid_run_inv rnds [] (mkAID (mkIdBlock (0 + Z.of_nat ACTION_ID_PREALLOC_LEN) 0 l))) as (ms & b & E & Hlen & Hi & Hf).
  - cbn [aid_block]. unfold block_inv. cbn [next_alloc curr_index block_ids app]. rewrite drop_0, Z.add_0_l.
    split_and!; [lia|done|done|done].
  - done.
  - eexists _, ms. split; [done|]. split_and!; [exact E|done| |].
    + apply block_inv_NoDup in Hi. cbn [app] in Hi. rewrite <- (map_map MIDGenerator_action_id action_id) in Hi.
      by eapply NoDup_map_inj.
    + eapply Forall_impl; [exact Hf|]. intros m (aid & Haid & ->). exists aid. split_and!; [lia|lia| |done].
      destruct (compose_split aid 0 Haid ltac:(done)) as (Hact & _ & _).
      rewrite Z.lor_0_r in Hact. exact Hact.
Qed.

Lemma action_ids_unique_witness :
  exists g ms, AIDGenerator_new (fun i => Z.of_nat i) = Ok g /\ aid_run [fun _ => 1; fun _ => 2] g = Ok ms /\
    length ms = 2%nat /\ NoDup (map MIDGenerator_action_id ms).
Proof.
  destruct (action_ids_unique (fun i => Z.of_nat i) [fun _ => 1; fun _ => 2]) as (g & ms & H1 & H2 & H3 & H4 & _).
  - vm_compute. discriminate.
  - exists g, ms. split_and!; assumption.
Defined.
