(* ===== verification/DhtStorage.v ===== *)
(** * Announce storage

    Model of [dht/storage.rs]: contacts announced for info hashes, kept in a hash map
    from info hash to contacts together with a queue of expirations. An operation that
    calls [Utc::now()] twice gets both times: [curr_time] for pruning and [now] for the
    new item. *)

From Stdlib Require Import Permutation.
From stdpp Require Import gmap.
From S2P Require Import Prelude RustStd UtilSha UtilConvert Chrono.

Definition MAX_ITEMS_STORED : nat := 500.
Definition EXPIRATION_TIME_HOURS : Z := 24.

(** An announcement of the specification: who announced for what, and when last. *)
Abbreviation announcement := ((ShaHash * SocketAddr) * DateTime)%type.

Section Storage.
Context `{Chrono}.

Record ItemExpiration : Type := mkExpiration { address : SocketAddr; inserted : DateTime; info_hash : ShaHash }.

Definition ItemExpiration_new (now : DateTime) (h : ShaHash) (a : SocketAddr) : ItemExpiration := mkExpiration a now h.

Definition is_expired (e : ItemExpiration) (now : DateTime) : bool :=
  dur_geb (dt_since now (inserted e)) (hours EXPIRATION_TIME_HOURS).

(** [PartialEq]: the address and the info hash decide, not the time. *)
Definition expiration_eqb (a b : ItemExpiration) : bool :=
  bool_decide (address a = address b) && bool_decide (info_hash a = info_hash b).

Record AnnounceItem : Type := mkItem { expiration : ItemExpiration }.

Definition AnnounceItem_new (now : DateTime) (h : ShaHash) (a : SocketAddr) : AnnounceItem :=
  mkItem (ItemExpiration_new now h a).
Definition item_eqb (a b : AnnounceItem) : bool := expiration_eqb (expiration a) (expiration b).

Record AnnounceStorage : Type := mkStorage { storage : gmap ShaHash (list AnnounceItem); expires : list ItemExpiration }.

Definition AnnounceStorage_new : AnnounceStorage := mkStorage ∅ [].

(** [iter().take_while(p).count()]. *)
Fixpoint take_while_count {A} (p : A -> bool) (l : list A) : nat :=
  match l with
  | [] => 0
  | x :: l => if p x then S (take_while_count p l) else 0
  end.

(** One round of the loop over the drained expirations. *)
Definition remove_expiration (st : gmap ShaHash (list AnnounceItem)) (e : ItemExpiration) : gmap ShaHash (list AnnounceItem) :=
  match st !! info_hash e with
  | Some items =>
      let items := List.filter (fun a => negb (expiration_eqb (expiration a) e)) items in
      let st := <[info_hash e := items]> st in
      if (length items =? 0)%nat then delete (info_hash e) st else st
  | None => st
  end.

Definition remove_expired_items (curr_time : DateTime) (s : AnnounceStorage) : AnnounceStorage :=
  let num_expired_items := take_while_count (fun i => is_expired i curr_time) (expires s) in
  mkStorage (foldl remove_expiration (storage s) (take num_expired_items (expires s)))
    (drop num_expired_items (expires s)).

(** [None]: no room; [Some true]: already there; [Some false]: inserted. *)
Definition insert_contact (s : AnnounceStorage) (item : AnnounceItem) : option bool * AnnounceStorage :=
  let item_info_hash := info_hash (expiration item) in
  let already_in_list :=
    match storage s !! item_info_hash with
    | Some items => existsb (fun a => item_eqb a item) items
    | None => false
    end in
  match already_in_list, (length (expires s) <? MAX_ITEMS_STORED)%nat with
  | false, true =>
      let items := match storage s !! item_info_hash with Some items => items ++ [item] | None => [item] end in
      (Some false, mkStorage (<[item_info_hash := items]> (storage s)) (expires s))
  | false, false => (None, s)
  | true, false => (Some true, s)
  | true, true => (Some true, s)
  end.

Definition storage_add (curr_time now : DateTime) (s : AnnounceStorage) (h : ShaHash) (a : SocketAddr) : bool * AnnounceStorage :=
  let s := remove_expired_items curr_time s in
  let item := AnnounceItem_new now h a in
  let item_expiration := expiration item in
  match insert_contact s item with
  | (Some true, s) =>
      let kept := List.filter (fun i => negb (expiration_eqb i item_expiration)) (expires s) in
      (true, mkStorage (storage s) (kept ++ [item_expiration]))
  | (Some false, s) => (true, mkStorage (storage s) (expires s ++ [item_expiration]))
  | (None, s) => (false, s)
  end.

(** [find]: the addresses passed to the closure, in order. *)
Definition storage_find (curr_time : DateTime) (s : AnnounceStorage) (h : ShaHash) : list SocketAddr * AnnounceStorage :=
  let s := remove_expired_items curr_time s in
  (match storage s !! h with
   | Some items => map (fun item => address (expiration item)) items
   | None => []
   end, s).

(** ** Specification: a list of announcements, oldest first *)

Definition fresh (now : DateTime) (e : announcement) : bool := dt_ns now - dt_ns e.2 <? 24 * NS_PER_HOUR.
Definition spec_prune (now : DateTime) (l : list announcement) : list announcement := List.filter (fresh now) l.
Definition other_key (k : ShaHash * SocketAddr) (e : announcement) : bool := negb (bool_decide (e.1 = k)).

Definition spec_add (curr_time now : DateTime) (l : list announcement) (k : ShaHash * SocketAddr) : bool * list announcement :=
  let l := spec_prune curr_time l in
  if bool_decide (k ∈ map fst l) then (true, List.filter (other_key k) l ++ [(k, now)])
  else if (length l <? 500)%nat then (true, l ++ [(k, now)])
  else (false, l).

Definition spec_find (curr_time : DateTime) (l : list announcement) (h : ShaHash) : list SocketAddr * list announcement :=
  let l := spec_prune curr_time l in
  (map (fun e => e.1.2) (List.filter (fun e => bool_decide (e.1.1 = h)) l), l).

(** ** Simulation *)

Definition exp_key (e : ItemExpiration) : ShaHash * SocketAddr := (info_hash e, address e).
Definition abs_entry (e : ItemExpiration) : announcement := (exp_key e, inserted e).

Lemma expiration_eqb_key a b : expiration_eqb a b = bool_decide (exp_key a = exp_key b).
Proof.
  unfold expiration_eqb, exp_key. repeat case_bool_decide; simplify_eq; try done; congruence.
Qed.

(** The keys of the items stored for [h]. *)
Definition stored_keys (st : gmap ShaHash (list AnnounceItem)) (h : ShaHash) : list (ShaHash * SocketAddr) :=
  map (fun i => exp_key (expiration i)) (default [] (st !! h)).
Definition keys_for (h : ShaHash) (ks : list (ShaHash * SocketAddr)) : list (ShaHash * SocketAddr) :=
  List.filter (fun k => bool_decide (k.1 = h)) ks.

(** The map holds exactly the keys [ks], each under its info hash, no empty lists. *)
Definition map_holds (st : gmap ShaHash (list AnnounceItem)) (ks : list (ShaHash * SocketAddr)) : Prop :=
  (forall h, st !! h <> Some []) /\ forall h, stored_keys st h ≡ₚ keys_for h ks.

(** Insertion times grow along the queue, up to [t]. *)
Fixpoint sorted_times (l : list announcement) (t : DateTime) : Prop :=
  match l with
  | [] => True
  | e :: l => dt_ns e.2 <= dt_ns t /\ Forall (fun e' => dt_ns e.2 <= dt_ns e'.2) l /\ sorted_times l t
  end.

Definition storage_sim (s : AnnounceStorage) (l : list announcement) (t : DateTime) : Prop :=
  map abs_entry (expires s) = l /\ map_holds (storage s) (map fst l) /\ NoDup (map fst l) /\
  (length l <= MAX_ITEMS_STORED)%nat /\ sorted_times l t.

(** *** Times *)

Lemma is_expired_fresh e now : is_expired e now = negb (fresh now (abs_entry e)).
Proof.
  unfold is_expired, fresh. rewrite dur_geb_ns, dur_ns_since, dur_ns_hours. cbn [abs_entry snd].
  unfold EXPIRATION_TIME_HOURS. rewrite Z.leb_antisym. done.
Qed.

Lemma sorted_times_mono l t t' : dt_ns t <= dt_ns t' -> sorted_times l t -> sorted_times l t'.
Proof. intros Hle. induction l as [|e l IH]; [done|]. intros (H1 & H2 & H3). split_and!; [lia|done|auto]. Qed.

Lemma sorted_times_filter p l t : sorted_times l t -> sorted_times (List.filter p l) t.
Proof.
  induction l as [|e l IH]; [done|]. intros (H1 & H2 & H3). cbn [List.filter]. destruct (p e); [|auto].
  split_and!; [done| |auto]. apply Forall_forall. intros x Hx. rewrite Forall_forall in H2. apply H2.
  apply list_elem_of_In, List.filter_In in Hx as [Hx _]. by apply list_elem_of_In.
Qed.

Lemma sorted_times_snoc l t k now : dt_ns t <= dt_ns now -> sorted_times l t -> sorted_times (l ++ [(k, now)]) now.
Proof.
  intros Hle. induction l as [|e l IH]; cbn [app sorted_times]; [intros _; split_and!; [cbn; lia|constructor|done]|].
  intros (H1 & H2 & H3). split_and!; [lia| |auto]. apply Forall_app. split; [done|]. constructor; [cbn; lia|constructor].
Qed.

(** In a sorted queue the expired entries are exactly those at the head. *)
Lemma expired_head es t now : sorted_times (map abs_entry es) t ->
  map abs_entry (drop (take_while_count (fun i => is_expired i now) es) es) = spec_prune now (map abs_entry es).
Proof.
  induction es as [|e es IH]; [done|]. cbn [map]. intros (H1 & H2 & H3). cbn [take_while_count]. rewrite is_expired_fresh.
  unfold spec_prune. cbn [List.filter]. destruct (fresh now (abs_entry e)) eqn:Ef; cbn [negb]; [|by apply IH].
  cbn [drop map]. f_equal. clear IH H3. induction (map abs_entry es) as [|x l IHl]; [done|].
  apply Forall_cons in H2 as [Hx Hl]. cbn [List.filter]. replace (fresh now x) with true.
  - f_equal. auto.
  - symmetry. unfold fresh in *. apply Z.ltb_lt in Ef. apply Z.ltb_lt. lia.
Qed.

(** *** The map *)

Lemma keys_for_cons h k ks : keys_for h (k :: ks) = (if bool_decide (k.1 = h) then [k] else []) ++ keys_for h ks.
Proof. unfold keys_for. cbn [List.filter]. by case_bool_decide. Qed.

Lemma elem_keys_for k h ks : k ∈ keys_for h ks <-> k ∈ ks /\ k.1 = h.
Proof.
  unfold keys_for. rewrite !list_elem_of_In, List.filter_In. by rewrite bool_decide_eq_true.
Qed.

Lemma filter_perm {A} (p : A -> bool) (l k : list A) : l ≡ₚ k -> List.filter p l ≡ₚ List.filter p k.
Proof.
  induction 1 as [|x l k Hp IH|x y l|l k m _ IH1 _ IH2]; cbn [List.filter]; [done| | |by etransitivity].
  - destruct (p x); [by constructor|done].
  - destruct (p x), (p y); [by constructor|done..].
Qed.

Lemma filter_all {A} (p : A -> bool) (l : list A) : (forall x, x ∈ l -> p x = true) -> List.filter p l = l.
Proof.
  induction l as [|x l IH]; intros Hl; [done|]. cbn [List.filter]. rewrite (Hl x) by (by left). f_equal.
  apply IH. intros y Hy. apply Hl. by right.
Qed.

Lemma map_holds_perm st ks ks' : ks ≡ₚ ks' -> map_holds st ks -> map_holds st ks'.
Proof. intros Hp [He Hk]. split; [done|]. intros h. rewrite Hk. by apply filter_perm. Qed.

Lemma map_filter_key (l : list AnnounceItem) e :
  map (fun i => exp_key (expiration i)) (List.filter (fun a => negb (expiration_eqb (expiration a) e)) l) =
  List.filter (fun k => negb (bool_decide (k = exp_key e))) (map (fun i => exp_key (expiration i)) l).
Proof.
  induction l as [|i l IH]; [done|]. cbn [map List.filter]. rewrite expiration_eqb_key.
  destruct (negb _); cbn [map]; by rewrite IH.
Qed.

Lemma remove_expiration_holds st e ks : map_holds st (exp_key e :: ks) -> exp_key e ∉ ks ->
  map_holds (remove_expiration st e) ks.
Proof.
  intros [He Hk] Hn. unfold remove_expiration.
  pose proof (Hk (info_hash e)) as Hh. unfold stored_keys in Hh. rewrite keys_for_cons in Hh. cbn [exp_key fst] in Hh.
  rewrite bool_decide_true in Hh by done.
  destruct (st !! info_hash e) as [items|] eqn:Ei; [|by apply Permutation_nil in Hh].
  cbn [default from_option] in Hh. set (kept := List.filter _ items).
  assert (Hkept : map (fun i => exp_key (expiration i)) kept ≡ₚ keys_for (info_hash e) ks).
  { unfold kept. rewrite map_filter_key. rewrite (filter_perm _ _ _ Hh). cbn [app List.filter].
    rewrite bool_decide_true by done. cbn [negb]. rewrite filter_all; [done|].
    intros x [Hx _]%elem_keys_for. rewrite bool_decide_false; [done|]. by intros ->. }
  assert (Hother : forall h, h <> info_hash e -> stored_keys st h ≡ₚ keys_for h ks).
  { intros h Hne. rewrite Hk, keys_for_cons. cbn [exp_key fst]. by rewrite bool_decide_false by done. }
  destruct (Nat.eqb_spec (length kept) 0) as [E0|E0].
  - apply nil_length_inv in E0. rewrite E0 in Hkept. rewrite delete_insert_eq. split.
    + intros h. destruct (decide (h = info_hash e)) as [->|Hne]; [by rewrite lookup_delete_eq|by rewrite lookup_delete_ne].
    + intros h. destruct (decide (h = info_hash e)) as [->|Hne].
      * unfold stored_keys. by rewrite lookup_delete_eq.
      * unfold stored_keys. rewrite lookup_delete_ne by done. by apply Hother.
  - split.
    + intros h. destruct (decide (h = info_hash e)) as [->|Hne]; [|by rewrite lookup_insert_ne].
      rewrite lookup_insert_eq. intros [= Hnil]. by rewrite Hnil in E0.
    + intros h. unfold stored_keys. destruct (decide (h = info_hash e)) as [->|Hne].
      * by rewrite lookup_insert_eq.
      * rewrite lookup_insert_ne by done. by apply Hother.
Qed.

Lemma remove_expirations_hold es : forall st ks, map_holds st (map exp_key es ++ ks) -> NoDup (map exp_key es ++ ks) ->
  map_holds (foldl remove_expiration st es) ks.
Proof.
  induction es as [|e es IH]; intros st ks Hm Hd; [done|]. cbn [map app foldl] in *. apply NoDup_cons in Hd as [Hn Hd].
  apply IH; [|done]. by apply remove_expiration_holds.
Qed.

Lemma map_fst_abs es : map fst (map abs_entry es) = map exp_key es.
Proof. rewrite map_map. done. Qed.

Lemma prune_sim s l t now : storage_sim s l t -> storage_sim (remove_expired_items now s) (spec_prune now l) t.
Proof.
  intros (Hl & Hm & Hd & Hlen & Ht). subst l. rewrite map_fst_abs in Hm, Hd. unfold remove_expired_items.
  set (n := take_while_count _ _). pose proof (expired_head _ _ now Ht) as Hh. fold n in Hh.
  rewrite <- (take_drop n (expires s)), map_app in Hm, Hd. unfold storage_sim. cbn [expires storage].
  rewrite Hh at 1. split_and!; [done| | | |by apply sorted_times_filter].
  - rewrite <- Hh, map_fst_abs. by apply remove_expirations_hold.
  - rewrite <- Hh, map_fst_abs. by apply NoDup_app in Hd as (_ & _ & ?).
  - rewrite <- Hh, length_map, length_drop. rewrite length_map in Hlen. lia.
Qed.

(** *** Operations *)

Lemma already_spec st ks item : map_holds st ks ->
  (match st !! info_hash (expiration item) with
   | Some items => existsb (fun a => item_eqb a item) items
   | None => false
   end) = bool_decide (exp_key (expiration item) ∈ ks).
Proof.
  intros [_ Hk]. specialize (Hk (info_hash (expiration item))). unfold stored_keys in Hk.
  assert (Hin : exp_key (expiration item) ∈ ks <-> exp_key (expiration item) ∈
    map (fun i => exp_key (expiration i)) (default [] (st !! info_hash (expiration item)))).
  { rewrite Hk, elem_keys_for. split; [by intros; split|by intros [? _]]. }
  rewrite (bool_decide_ext _ _ Hin). clear Hin Hk. destruct (st !! info_hash (expiration item)) as [items|]; cbn [default from_option].
  - unfold Datatypes.id. induction items as [|i items IH]; [done|]. cbn [existsb map]. rewrite IH. unfold item_eqb. rewrite expiration_eqb_key.
    destruct (bool_decide_reflect (exp_key (expiration i) = exp_key (expiration item))) as [E|E]; cbn [orb];
      [rewrite bool_decide_true; [done|rewrite E; apply list_elem_of_here]|].
    apply bool_decide_ext. rewrite elem_of_cons. split; [by right|]. intros [?|?]; [congruence|done].
  - by rewrite bool_decide_false by (by apply not_elem_of_nil).
Qed.

Lemma map_holds_insert st ks item : map_holds st ks ->
  let h := info_hash (expiration item) in
  map_holds (<[h := match st !! h with Some items => items ++ [item] | None => [item] end]> st) (ks ++ [exp_key (expiration item)]).
Proof.
  intros [He Hk] h. split.
  - intros h'. destruct (decide (h' = h)) as [->|Hne]; [|by rewrite lookup_insert_ne].
    rewrite lookup_insert_eq. destruct (st !! h) as [items|]; [|done]. by destruct items.
  - intros h'. specialize (Hk h'). unfold stored_keys, keys_for in *. rewrite List.filter_app. cbn [List.filter exp_key fst].
    destruct (decide (h' = h)) as [->|Hne].
    + rewrite lookup_insert_eq, bool_decide_true by done. rewrite <- Hk.
      destruct (st !! h) as [items|]; [|done]. cbn [default from_option]. unfold Datatypes.id. by rewrite map_app.
    + rewrite lookup_insert_ne, bool_decide_false by (done || naive_solver). by rewrite app_nil_r.
Qed.

Lemma filter_other_key (l : list announcement) k : NoDup (map fst l) -> k ∈ map fst l ->
  map fst (List.filter (other_key k) l) ++ [k] ≡ₚ map fst l.
Proof.
  induction l as [|e l IH]; intros Hd Hk; [by apply elem_of_nil in Hk|]. cbn [map List.filter] in *.
  apply NoDup_cons in Hd as [Hn Hd]. unfold other_key at 1. case_bool_decide as Ek; cbn [negb].
  - rewrite filter_all; [rewrite Ek; symmetry; apply Permutation_cons_append|].
    intros x Hx. unfold other_key. rewrite bool_decide_false; [done|]. intros Hxk. apply Hn. rewrite Ek, <- Hxk.
    apply list_elem_of_In, List.in_map. by apply list_elem_of_In.
  - apply elem_of_cons in Hk as [?|Hk]; [congruence|]. cbn [map app]. f_equiv. by apply IH.
Qed.

Lemma map_abs_filter es k : map abs_entry (List.filter (fun i => negb (expiration_eqb i k)) es) =
  List.filter (other_key (exp_key k)) (map abs_entry es).
Proof.
  induction es as [|e es IH]; [done|]. cbn [map List.filter]. unfold other_key at 1. cbn [abs_entry fst].
  rewrite expiration_eqb_key. destruct (negb _); cbn [map]; by rewrite IH.
Qed.

Lemma renew_sim s l t now h a : storage_sim s l t -> dt_ns t <= dt_ns now -> (h, a) ∈ map fst l ->
  let e := ItemExpiration_new now h a in
  storage_sim (mkStorage (storage s) (List.filter (fun i => negb (expiration_eqb i e)) (expires s) ++ [e]))
    (List.filter (other_key (h, a)) l ++ [((h, a), now)]) now.
Proof.
  intros (Hl & Hm & Hd & Hlen & Ht) Hle Hk e. pose proof (filter_other_key l (h, a) Hd Hk) as Hp.
  unfold storage_sim. cbn [expires storage]. split_and!.
  - by rewrite map_app, map_abs_filter, Hl.
  - rewrite map_app. eapply map_holds_perm; [symmetry; exact Hp|done].
  - rewrite map_app. cbn [map fst]. by rewrite Hp.
  - apply Permutation_length in Hp. rewrite length_app, !length_map in Hp. rewrite length_app. simpl in *. lia.
  - by eapply sorted_times_snoc, sorted_times_filter.
Qed.

Lemma insert_sim s l t now h a : storage_sim s l t -> dt_ns t <= dt_ns now -> (h, a) ∉ map fst l ->
  (length l < MAX_ITEMS_STORED)%nat ->
  let item := AnnounceItem_new now h a in
  let items := match storage s !! h with Some items => items ++ [item] | None => [item] end in
  storage_sim (mkStorage (<[h := items]> (storage s)) (expires s ++ [expiration item])) (l ++ [((h, a), now)]) now.
Proof.
  intros (Hl & Hm & Hd & Hlen & Ht) Hle Hk Hlt item items. unfold storage_sim. cbn [expires storage].
  split_and!; rewrite ?map_app; cbn [map fst].
  - by rewrite Hl.
  - apply (map_holds_insert _ _ item Hm).
  - apply NoDup_app. split_and!; [done| |apply NoDup_singleton]. intros x Hx Hx'. apply list_elem_of_singleton in Hx' as ->. done.
  - rewrite length_app. simpl. lia.
  - by eapply sorted_times_snoc.
Qed.

Lemma add_sim s l t curr_time now h a : storage_sim s l t -> dt_ns t <= dt_ns now ->
  (storage_add curr_time now s h a).1 = (spec_add curr_time now l (h, a)).1 /\
  storage_sim (storage_add curr_time now s h a).2 (spec_add curr_time now l (h, a)).2 now.
Proof.
  intros Hs Hle. apply (prune_sim _ _ _ curr_time) in Hs. unfold storage_add, spec_add.
  set (s1 := remove_expired_items curr_time s) in *. set (l1 := spec_prune curr_time l) in *.
  pose proof Hs as (Hl & Hm & _). set (item := AnnounceItem_new now h a).
  assert (Hne : length (expires s1) = length l1) by (by rewrite <- Hl, length_map).
  unfold insert_contact. rewrite (already_spec _ _ item Hm), Hne. change (exp_key (expiration item)) with (h, a).
  destruct (bool_decide_reflect ((h, a) ∈ map fst l1)) as [Hk|Hk].
  - destruct (length l1 <? MAX_ITEMS_STORED)%nat; (split; [done|]); by eapply renew_sim.
  - change (length l1 <? 500)%nat with (length l1 <? MAX_ITEMS_STORED)%nat.
    destruct (Nat.ltb_spec (length l1) MAX_ITEMS_STORED); (split; [done|]); [by apply (insert_sim s1 l1 t now h a)|].
    destruct Hs as (? & ? & ? & ? & ?). split_and!; by eauto using sorted_times_mono.
Qed.

Lemma find_sim s l t curr_time now h : storage_sim s l t -> dt_ns t <= dt_ns now ->
  (storage_find curr_time s h).1 ≡ₚ (spec_find curr_time l h).1 /\
  storage_sim (storage_find curr_time s h).2 (spec_find curr_time l h).2 now.
Proof.
  intros Hs Hle. apply (prune_sim _ _ _ curr_time) in Hs. unfold storage_find, spec_find. cbn [fst snd].
  set (s1 := remove_expired_items curr_time s) in *. set (l1 := spec_prune curr_time l) in *.
  destruct Hs as (Hl & Hm & Hd & Hlen & Ht). split; [|split_and!; by eauto using sorted_times_mono].
  destruct Hm as [_ Hk]. specialize (Hk h). unfold stored_keys, keys_for in Hk.
  assert (E1 : match storage s1 !! h with Some items => map (fun item => address (expiration item)) items | None => [] end =
    map snd (map (fun i => exp_key (expiration i)) (default [] (storage s1 !! h)))).
  { rewrite map_map. by destruct (storage s1 !! h). }
  assert (E2 : map (fun e : announcement => e.1.2) (List.filter (fun e => bool_decide (e.1.1 = h)) l1) =
    map snd (List.filter (fun k => bool_decide (k.1 = h)) (map fst l1))).
  { clear. induction l1 as [|e l1 IH]; [done|]. cbn [map List.filter]. case_bool_decide; cbn [map]; by rewrite IH. }
  rewrite E1, E2. by apply Permutation_map.
Qed.

(** ** Histories *)

Inductive storage_op : Type :=
| OpAdd (h : ShaHash) (a : SocketAddr)
| OpFind (h : ShaHash).
Record storage_event : Type := mkStorageEvent { se_curr : DateTime; se_now : DateTime; se_op : storage_op }.

Inductive storage_result : Type :=
| Added (b : bool)
| Found (l : list SocketAddr).

(** The order in which contacts are listed does not matter. *)
Definition same_result (a b : storage_result) : Prop :=
  match a, b with
  | Added x, Added y => x = y
  | Found l, Found k => l ≡ₚ k
  | _, _ => False
  end.

Fixpoint storage_run (s : AnnounceStorage) (es : list storage_event) : list storage_result :=
  match es with
  | [] => []
  | mkStorageEvent c n (OpAdd h a) :: es => let '(b, s) := storage_add c n s h a in Added b :: storage_run s es
  | mkStorageEvent c n (OpFind h) :: es => let '(l, s) := storage_find c s h in Found l :: storage_run s es
  end.

Fixpoint spec_run (l : list announcement) (es : list storage_event) : list storage_result :=
  match es with
  | [] => []
  | mkStorageEvent c n (OpAdd h a) :: es => let '(b, l) := spec_add c n l (h, a) in Added b :: spec_run l es
  | mkStorageEvent c n (OpFind h) :: es => let '(k, l) := spec_find c l h in Found k :: spec_run l es
  end.

(** The clock does not go backwards. *)
Fixpoint clock_ordered (t : DateTime) (es : list storage_event) : Prop :=
  match es with
  | [] => True
  | e :: es => dt_ns t <= dt_ns (se_now e) /\ clock_ordered (se_now e) es
  end.

Lemma storage_run_sim es : forall s l t, storage_sim s l t -> clock_ordered t es ->
  Forall2 same_result (storage_run s es) (spec_run l es).
Proof.
  induction es as [|[c n [h a|h]] es IH]; intros s l t Hs Ho; cbn [storage_run spec_run clock_ordered se_now] in *; [constructor|..];
    destruct Ho as [Hle Ho].
  - destruct (add_sim s l t c n h a Hs Hle) as [H1 H2].
    destruct (storage_add c n s h a) as [b s'], (spec_add c n l (h, a)) as [b' l']. cbn [fst snd] in *.
    constructor; [done|]. by eapply IH.
  - destruct (find_sim s l t c n h Hs Hle) as [H1 H2].
    destruct (storage_find c s h) as [b s'], (spec_find c l h) as [b' l']. cbn [fst snd] in *.
    constructor; [done|]. by eapply IH.
Qed.

(** C28: the storage implements a list of announcements that are dropped after
    twenty-four hours: over every history of [add_item] and [find_items] with a clock
    that does not go backwards, every answer is that of the list. An announcement is
    refused only when it is new and five hundred are alive, a repeated one renews its
    time, and a lookup lists exactly the contacts alive for the info hash, each once. *)
Theorem storage_refines_announcements (t : DateTime) (es : list storage_event) : clock_ordered t es ->
  Forall2 same_result (storage_run AnnounceStorage_new es) (spec_run [] es).
Proof.
  intros Ho. apply (storage_run_sim es _ [] t); [|done].
  split_and!; [done|split; [done|done]|constructor|cbn; lia|done].
Qed.
End Storage.

Definition storage_at (hour : Z) (op : storage_op) : @storage_event chrono_Z :=
  @mkStorageEvent chrono_Z (hour * NS_PER_HOUR) (hour * NS_PER_HOUR) op.
Definition sample_peer (k : Z) : SocketAddr := V4 (SocketAddrV4_new (Ipv4Addr_new 10 0 0 k) 6881).
Definition hash_one : ShaHash := mkShaHash (replicate 20 1).
Definition storage_history : list (@storage_event chrono_Z) :=
  [storage_at 0 (OpAdd hash_one (sample_peer 1)); storage_at 5 (OpAdd hash_one (sample_peer 2));
   storage_at 20 (OpAdd hash_one (sample_peer 1)); storage_at 30 (OpFind hash_one)].

(** The second contact has expired at hour 30, the renewed first one has not. *)
Lemma storage_refines_announcements_witness :
  Forall2 same_result (storage_run AnnounceStorage_new storage_history) (spec_run [] storage_history) /\
  spec_run [] storage_history = [Added true; Added true; Added true; Found [sample_peer 1]].
Proof.
  split; [|reflexivity]. apply (storage_refines_announcements (0 : @DateTime chrono_Z)).
  vm_compute. repeat split; discriminate.
Defined.
