(* ===== verification/UtpPacket.v ===== *)
(** * uTP packets

    Model of [utp/packet.rs]: packet types, the twenty-byte header, the chain of
    extensions and the payload, on the raw bytes as in the source. The header struct
    is read and written through pointer casts: its fields are the memory image on a
    little-endian machine, and the getters and setters of [Packet] convert with
    [from_be] and [to_be], so they read and write big-endian words of the bytes. *)

From S2P Require Import Prelude RustStd Words UtilConvert.

Definition HEADER_SIZE : nat := 20.

Inductive ParseError : Type :=
| InvalidExtensionLength
| InvalidPacketLength
| InvalidPacketType (n : Z)
| UnsupportedVersion.

(** ** Packet and extension types *)

Inductive PacketType : Type := Data | Fin | State | Reset | Syn.

Definition PacketType_try_from_type (original : Z) : res ParseError PacketType :=
  match original with
  | 0 => Ok Data
  | 1 => Ok Fin
  | 2 => Ok State
  | 3 => Ok Reset
  | 4 => Ok Syn
  | n => Err (InvalidPacketType n)
  end.

Definition PacketType_to_u8 (t : PacketType) : Z :=
  match t with Data => 0 | Fin => 1 | State => 2 | Reset => 3 | Syn => 4 end.

Inductive ExtensionType : Type :=
| ExtNone
| SelectiveAck
| Unknown (n : Z).

#[export] Instance ExtensionType_eq_dec : EqDecision ExtensionType.
Proof. solve_decision. Defined.

Definition ExtensionType_from (original : Z) : ExtensionType :=
  match original with
  | 0 => ExtNone
  | 1 => SelectiveAck
  | n => Unknown n
  end.

Definition ExtensionType_to_u8 (t : ExtensionType) : Z :=
  match t with ExtNone => 0 | SelectiveAck => 1 | Unknown n => n end.

(** [original != ExtensionType::None] for the type of a byte. *)
Definition more_extensions (t : ExtensionType) : bool := negb (bool_decide (t = ExtNone)).

Record Extension : Type := mkExtension { ext_ty : ExtensionType; ext_data : list Z }.

(** ** The header struct *)

Record PacketHeader : Type := mkHeader {
  type_ver : Z;
  extension : Z;
  h_connection_id : Z;
  h_timestamp : Z;
  h_timestamp_difference : Z;
  h_wnd_size : Z;
  h_seq_nr : Z;
  h_ack_nr : Z
}.

(** The macro [u8_to_unsigned_be!]: the byte at [start + i] shifted by [8 * i] bits. *)
Definition u8_to_unsigned_be (w : Z) (src : list Z) (start last : nat) : Z :=
  foldl (fun acc i => Z.lor acc (wrap w (Z.shiftl (src !!! (start + i)%nat) (Z.of_nat (i * 8))))) 0
    (rev (seq 0 (last - start + 1))).

Definition PacketHeader_try_from_type (original : list Z) : res ParseError PacketHeader :=
  if (length original <? HEADER_SIZE)%nat then Err InvalidPacketLength
  else if negb (Z.land (original !!! 0%nat) 15 =? 1) then Err UnsupportedVersion
  else
    let? _ := PacketType_try_from_type (Z.shiftr (original !!! 0%nat) 4) in
    Ok (mkHeader (original !!! 0%nat) (original !!! 1%nat)
          (u8_to_unsigned_be 16 original 2 3)
          (u8_to_unsigned_be 32 original 4 7)
          (u8_to_unsigned_be 32 original 8 11)
          (u8_to_unsigned_be 32 original 12 15)
          (u8_to_unsigned_be 16 original 16 17)
          (u8_to_unsigned_be 16 original 18 19)).

(** The bytes of a word in memory, least significant first. *)
Definition le_bytes (n : nat) (v : Z) : list Z := rev (be_bytes n v).

(** [as_ref]: the memory of the [repr(C)] struct. *)
Definition PacketHeader_as_ref (h : PacketHeader) : list Z :=
  [type_ver h; extension h] ++ le_bytes 2 (h_connection_id h) ++ le_bytes 4 (h_timestamp h) ++
  le_bytes 4 (h_timestamp_difference h) ++ le_bytes 4 (h_wnd_size h) ++ le_bytes 2 (h_seq_nr h) ++
  le_bytes 2 (h_ack_nr h).

Definition PacketHeader_default : PacketHeader :=
  mkHeader (Z.lor (as_u8 (Z.shiftl (PacketType_to_u8 Data) 4)) 1) 0 0 0 0 0 0 0.

(** [set_type], [get_type] and [get_version] act on the first byte only. *)
Definition type_ver_set_type (type_ver : Z) (t : PacketType) : Z :=
  let version := Z.land 15 type_ver in
  Z.lor (as_u8 (Z.shiftl (PacketType_to_u8 t) 4)) version.

Definition PacketHeader_set_type (h : PacketHeader) (t : PacketType) : PacketHeader :=
  mkHeader (type_ver_set_type (type_ver h) t) (extension h) (h_connection_id h) (h_timestamp h)
    (h_timestamp_difference h) (h_wnd_size h) (h_seq_nr h) (h_ack_nr h).

Definition type_ver_get_type (type_ver : Z) : res ParseError PacketType :=
  res_unwrap (PacketType_try_from_type (Z.shiftr type_ver 4)).
Definition type_ver_get_version (type_ver : Z) : Z := Z.land type_ver 15.

(** ** Packets *)

(** The bytes of a packet; at least the header, see [packet_ok]. *)
Record Packet : Type := mkPacket { raw : list Z }.

Definition Packet_new : Packet := mkPacket (PacketHeader_as_ref PacketHeader_default).

Definition Packet_with_payload (payload : list Z) : Packet :=
  let header := PacketHeader_set_type PacketHeader_default Data in
  mkPacket (PacketHeader_as_ref header ++ payload).

Definition Packet_set_type (p : Packet) (t : PacketType) : Packet :=
  mkPacket (<[0%nat := type_ver_set_type (raw p !!! 0%nat) t]> (raw p)).
Definition Packet_get_type (p : Packet) : res ParseError PacketType := type_ver_get_type (raw p !!! 0%nat).
Definition Packet_get_version (p : Packet) : Z := type_ver_get_version (raw p !!! 0%nat).
Definition Packet_get_extension_type (p : Packet) : ExtensionType := ExtensionType_from (raw p !!! 1%nat).

(** The word fields of the header with the offset and the bytes of each. *)
Inductive header_field : Type := FConnectionId | FTimestamp | FTimestampDifference | FWndSize | FSeqNr | FAckNr.
Definition field_offset (f : header_field) : nat :=
  match f with FConnectionId => 2 | FTimestamp => 4 | FTimestampDifference => 8 | FWndSize => 12 | FSeqNr => 16 | FAckNr => 18 end.
Definition field_size (f : header_field) : nat :=
  match f with FConnectionId | FSeqNr | FAckNr => 2 | FTimestamp | FTimestampDifference | FWndSize => 4 end.

(** [make_getter!] and [make_setter!]: [from_be] of the memory, [to_be] into it. *)
Definition get_field (f : header_field) (p : Packet) : Z :=
  be_int (slice (raw p) (field_offset f) (field_offset f + field_size f)).
Definition set_field (f : header_field) (p : Packet) (v : Z) : Packet :=
  mkPacket (take (field_offset f) (raw p) ++ be_bytes (field_size f) v ++ drop (field_offset f + field_size f) (raw p)).

Definition seq_nr := get_field FSeqNr.
Definition ack_nr := get_field FAckNr.
Definition connection_id := get_field FConnectionId.
Definition wnd_size := get_field FWndSize.
Definition timestamp := get_field FTimestamp.
Definition timestamp_difference := get_field FTimestampDifference.
Definition set_seq_nr := set_field FSeqNr.
Definition set_ack_nr := set_field FAckNr.
Definition set_connection_id := set_field FConnectionId.
Definition set_wnd_size := set_field FWndSize.
Definition set_timestamp := set_field FTimestamp.
(** [u32::from(delay)] truncates the delay of 64 bits. *)
Definition set_timestamp_difference (p : Packet) (delay : Z) : Packet := set_field FTimestampDifference p (as_u32 delay).

(** ** Extensions and payload *)

(** The loop shared by [payload] and, up to its write, by [set_sack]: the index after
    the last extension. *)
Fixpoint payload_index (fuel : nat) (data : list Z) (index : nat) (extension_type : ExtensionType) : res ParseError nat :=
  match fuel with
  | O => OutOfFuel
  | S fuel =>
      if (index <? length data)%nat && more_extensions extension_type then
        let? len := or_panic (data !! (index + 1)%nat) in
        let? next := or_panic (data !! index) in
        payload_index fuel data (index + (Z.to_nat len + 2)) (ExtensionType_from next)
      else Ok index
  end.

(** Every round advances the index, so one more than the length is enough. *)
Definition ext_fuel (data : list Z) : nat := length data + 1.

Definition payload (p : Packet) : res ParseError (list Z) :=
  let? first := or_panic (raw p !! 1%nat) in
  let? index := payload_index (ext_fuel (raw p)) (raw p) HEADER_SIZE (ExtensionType_from first) in
  if (index <=? length (raw p))%nat then Ok (drop index (raw p)) else Panic.

Record ExtensionIterator : Type := mkExtIter { raw_bytes : list Z; next_extension : ExtensionType; ext_index : nat }.

Definition ExtensionIterator_new (p : Packet) : res ParseError ExtensionIterator :=
  let? first := or_panic (raw p !! 1%nat) in
  Ok (mkExtIter (raw p) (ExtensionType_from first) HEADER_SIZE).

Definition ExtensionIterator_next (it : ExtensionIterator) : res ParseError (option (Extension * ExtensionIterator)) :=
  if bool_decide (next_extension it = ExtNone) then Ok None
  else if (ext_index it <? length (raw_bytes it))%nat then
    let? len := or_panic (raw_bytes it !! (ext_index it + 1)%nat) in
    let extension_start := (ext_index it + 2)%nat in
    let extension_end := (extension_start + Z.to_nat len)%nat in
    if (extension_end <=? length (raw_bytes it))%nat then
      let extension := mkExtension (next_extension it) (slice (raw_bytes it) extension_start extension_end) in
      let? next := or_panic (raw_bytes it !! ext_index it) in
      Ok (Some (extension, mkExtIter (raw_bytes it) (ExtensionType_from next) (ext_index it + (Z.to_nat len + 2))))
    else Panic
  else Ok None.

Fixpoint ExtensionIterator_collect (fuel : nat) (it : ExtensionIterator) : res ParseError (list Extension) :=
  match fuel with
  | O => OutOfFuel
  | S fuel =>
      let? o := ExtensionIterator_next it in
      match o with
      | Some (e, it) => let? es := ExtensionIterator_collect fuel it in Ok (e :: es)
      | None => Ok []
      end
  end.

Definition extensions (p : Packet) : res ParseError (list Extension) :=
  let? it := ExtensionIterator_new p in
  ExtensionIterator_collect (ext_fuel (raw p)) it.

(** The loop of [check_extensions]; the type after the last extension read. *)
Fixpoint check_loop (fuel : nat) (data : list Z) (index : nat) (extension_type : ExtensionType) : res ParseError ExtensionType :=
  match fuel with
  | O => OutOfFuel
  | S fuel =>
      if (index <? length data)%nat && more_extensions extension_type then
        if (length data <? index + 2)%nat then Err InvalidPacketLength
        else
          let? len := or_panic (data !! (index + 1)%nat) in
          let extension_start := (index + 2)%nat in
          let extension_end := (extension_start + Z.to_nat len)%nat in
          if (len =? 0) || negb (len mod 4 =? 0) || (length data <? extension_end)%nat then Err InvalidExtensionLength
          else
            let? next := or_panic (data !! index) in
            check_loop fuel data (index + (Z.to_nat len + 2)) (ExtensionType_from next)
      else Ok extension_type
  end.

Definition check_extensions (data : list Z) : res ParseError unit :=
  if (length data <? HEADER_SIZE)%nat then Err InvalidPacketLength
  else
    let? first := or_panic (data !! 1%nat) in
    let extension_type := ExtensionType_from first in
    if (length data =? HEADER_SIZE)%nat && more_extensions extension_type then Err InvalidExtensionLength
    else
      let? extension_type := check_loop (ext_fuel data) data HEADER_SIZE extension_type in
      if more_extensions extension_type then Err InvalidPacketLength else Ok tt.

(** [Result::and] keeps the first error. *)
Definition Packet_try_from_type (original : list Z) : res ParseError Packet :=
  let? _ := PacketHeader_try_from_type original in
  let? _ := check_extensions original in
  Ok (mkPacket original).

(** [Vec::insert]: panics beyond the end. *)
Definition vec_insert (i : nat) (x : Z) (l : list Z) : res ParseError (list Z) :=
  if (i <=? length l)%nat then Ok (take i l ++ x :: drop i l) else Panic.

(** The loop of [set_sack]: marks the last extension and gives the index after it. *)
Fixpoint sack_loop (fuel : nat) (data : list Z) (index : nat) (extension_type : ExtensionType) : res ParseError (list Z * nat) :=
  match fuel with
  | O => OutOfFuel
  | S fuel =>
      if (index <? length data)%nat && more_extensions extension_type then
        let? len := or_panic (data !! (index + 1)%nat) in
        let? next := or_panic (data !! index) in
        let extension_type := ExtensionType_from next in
        let data := if more_extensions extension_type then data else <[index := ExtensionType_to_u8 SelectiveAck]> data in
        sack_loop fuel data (index + (Z.to_nat len + 2)) extension_type
      else Ok (data, index)
  end.

Definition set_sack (p : Packet) (bv : list Z) : res ParseError Packet :=
  if negb (4 <=? length bv)%nat then Panic
  else if negb (length bv mod 4 =? 0)%nat then Panic
  else
    let? first := or_panic (raw p !! 1%nat) in
    let extension_type := ExtensionType_from first in
    let? (data, index) :=
      if more_extensions extension_type then sack_loop (ext_fuel (raw p)) (raw p) HEADER_SIZE extension_type
      else Ok (<[1%nat := ExtensionType_to_u8 SelectiveAck]> (raw p), HEADER_SIZE) in
    let? data := vec_insert index (ExtensionType_to_u8 ExtNone) data in
    let? data := vec_insert (index + 1) (as_u8 (Z.of_nat (length bv))) data in
    let? data :=
      foldl (fun acc '(i, value) => let? data := acc in vec_insert (index + 2 + i) value data)
        (Ok data) (imap pair bv) in
    Ok (mkPacket data).

Example parse_sample :
  Packet_try_from_type ([33; 1; 65; 167; 0; 0; 0; 0; 0; 0; 0; 0; 0; 0; 0; 0; 5; 220; 171; 83; 0; 4; 0; 0; 0; 0; 7; 8]) =
  Ok (mkPacket [33; 1; 65; 167; 0; 0; 0; 0; 0; 0; 0; 0; 0; 0; 0; 0; 5; 220; 171; 83; 0; 4; 0; 0; 0; 0; 7; 8]).
Proof. vm_compute. reflexivity. Qed.
