(* ===== verification/UtpPacketSpec.v ===== *)
(** * Properties of uTP packets

    A grammar for the extension chain, and the proof that the parser accepts exactly
    it, that the accessors of an accepted packet return its parts without panicking,
    and that the setters change what they are meant to change. *)

From S2P Require Import Prelude RustStd Words UtilConvert UtpPacket.

(** [ext_chain t bs es pl]: after a byte [t] announcing the type of the first
    extension, the bytes [bs] are the extensions [es] followed by the payload [pl].
    Every extension is the type of the next one, a length and that many bytes of data;
    the length is a positive multiple of four. *)
Inductive ext_chain : Z -> list Z -> list Extension -> list Z -> Prop :=
| chain_end bs : ext_chain 0 bs [] bs
| chain_ext t next data rest es pl : t <> 0 -> data <> [] -> (length data mod 4 = 0)%nat -> (length data < 256)%nat ->
    ext_chain next rest es pl ->
    ext_chain t (next :: Z.of_nat (length data) :: data ++ rest) (mkExtension (ExtensionType_from t) data :: es) pl.

(** ** Bytes at an index *)

Lemma more_extensions_from t : more_extensions (ExtensionType_from t) = negb (t =? 0).
Proof. unfold more_extensions, ExtensionType_from. destruct t as [|[]|]; done. Qed.

Lemma drop_cons2 {A} (l : list A) i a b rest : drop i l = a :: b :: rest ->
  l !! i = Some a /\ l !! (i + 1)%nat = Some b /\ drop (i + 2) l = rest /\ (i + 2 <= length l)%nat.
Proof.
  intros E. destruct (drop_cons_lookup _ _ _ _ E) as [Ha E1]. destruct (drop_cons_lookup _ _ _ _ E1) as [Hb E2].
  replace (i + 1)%nat with (S i) by lia. replace (i + 2)%nat with (S (S i)) by lia. split_and!; try done.
  apply (f_equal length) in E. rewrite length_drop in E. simpl in E. lia.
Qed.

Lemma drop_lt_length {A} (l : list A) i : (i <= length l)%nat -> ((i <? length l)%nat = negb (length (drop i l) =? 0)%nat).
Proof. intros Hi. rewrite length_drop. destruct (Nat.ltb_spec i (length l)), (Nat.eqb_spec (length l - i) 0); (done || lia). Qed.

(** What a chain says at its first extension. *)
Lemma chain_at l i t next d rest : drop i l = next :: Z.of_nat (length d) :: d ++ rest -> t <> 0 ->
  (i <? length l)%nat && more_extensions (ExtensionType_from t) = true /\
  l !! i = Some next /\ l !! (i + 1)%nat = Some (Z.of_nat (length d)) /\
  (i + 2 + length d <= length l)%nat /\ slice l (i + 2) (i + 2 + length d) = d /\
  drop (i + (Z.to_nat (Z.of_nat (length d)) + 2)) l = rest.
Proof.
  intros E Ht. destruct (drop_cons2 _ _ _ _ _ E) as (Ha & Hb & Hd & Hl). rewrite more_extensions_from.
  pose proof (f_equal length Hd) as Hlen. rewrite length_drop, length_app in Hlen.
  split_and!; try done.
  - destruct (Nat.ltb_spec i (length l)), (Z.eqb_spec t 0); (done || lia).
  - lia.
  - by apply slice_drop_app with (k := rest).
  - rewrite Nat2Z.id. replace (i + (length d + 2))%nat with (i + 2 + length d)%nat by lia.
    by apply drop_app_shift.
Qed.

(** ** The loops along a chain *)

Lemma payload_index_chain l t bs es pl : ext_chain t bs es pl -> forall fuel i, drop i l = bs ->
  (i <= length l)%nat -> (length bs < fuel)%nat ->
  exists j, payload_index fuel l i (ExtensionType_from t) = Ok j /\ drop j l = pl /\ (j <= length l)%nat.
Proof.
  induction 1 as [bs|t next d rest es pl Ht Hne H4 H256 Hc IH]; intros [|fuel] i E Hi Hf; try lia.
  - exists i. cbn [payload_index]. rewrite more_extensions_from, andb_false_r. done.
  - destruct (chain_at l i t next d rest E Ht) as (Hg & Ha & Hb & Hl & _ & Hdr). cbn [payload_index].
    rewrite Hg, Hb. cbn [or_panic res_bind]. rewrite Ha. cbn [or_panic res_bind].
    apply IH; [done|rewrite Nat2Z.id; lia|]. simpl in Hf. rewrite length_app in Hf. lia.
Qed.

Lemma collect_chain l t bs es pl : ext_chain t bs es pl -> forall fuel i, drop i l = bs ->
  (i <= length l)%nat -> (length bs < fuel)%nat ->
  ExtensionIterator_collect fuel (mkExtIter l (ExtensionType_from t) i) = Ok es.
Proof.
  induction 1 as [bs|t next d rest es pl Ht Hne H4 H256 Hc IH]; intros [|fuel] i E Hi Hf; try lia; [done|].
  destruct (chain_at l i t next d rest E Ht) as (Hg & Ha & Hb & Hl & Hs & Hdr).
  apply andb_true_iff in Hg as [Hlt Hm]. unfold more_extensions in Hm. apply negb_true_iff in Hm.
  cbn [ExtensionIterator_collect]. unfold ExtensionIterator_next at 1. cbn [next_extension ext_index raw_bytes].
  rewrite Hm, Hlt, Hb. cbn [or_panic res_bind]. rewrite Nat2Z.id in *.
  destruct (Nat.leb_spec (i + 2 + length d) (length l)); [|lia]. rewrite Ha, Hs. cbn [or_panic res_bind].
  rewrite IH; [done|done|lia|]. simpl in Hf. rewrite length_app in Hf. lia.
Qed.

Lemma ext_chain_inv t next len rest es pl : t <> 0 -> ext_chain t (next :: len :: rest) es pl ->
  exists d rest' es', len = Z.of_nat (length d) /\ rest = d ++ rest' /\ d <> [] /\ (length d mod 4 = 0)%nat /\
    ext_chain next rest' es' pl.
Proof. intros Ht Hc. inversion Hc; subst; [done|]. eauto 10. Qed.

(** The validation loop follows a chain exactly. *)
Lemma check_loop_chain l (n : nat) : bytes_ok l -> forall t bs fuel i, drop i l = bs -> (i <= length l)%nat ->
  (length bs <= n)%nat -> (length bs < fuel)%nat ->
  (exists es pl, ext_chain t bs es pl /\ check_loop fuel l i (ExtensionType_from t) = Ok ExtNone) \/
  ((forall es pl, ~ ext_chain t bs es pl) /\
   ((exists e, check_loop fuel l i (ExtensionType_from t) = Err e) \/
    exists ty, check_loop fuel l i (ExtensionType_from t) = Ok ty /\ more_extensions ty = true)).
Proof.
  intros Hok. induction n as [n IH] using lt_wf_ind. intros t bs [|fuel] i E Hi Hn Hf; [lia|]. cbn [check_loop].
  rewrite (drop_lt_length l i Hi), E, more_extensions_from. destruct (Z.eqb_spec t 0) as [->|Ht].
  { left. eexists [], bs. split; [constructor|]. by rewrite andb_false_r. }
  rewrite andb_true_r. destruct bs as [|next [|len rest]]; cbn [length Nat.eqb negb].
  - right. split; [by intros es pl; inversion 1|]. right. eexists. split; [done|]. rewrite more_extensions_from.
    by destruct (Z.eqb_spec t 0).
  - right. split; [by intros es pl; inversion 1|]. left. destruct (Nat.ltb_spec (length l) (i + 2)); [eauto|].
    apply (f_equal length) in E. rewrite length_drop in E. simpl in E. lia.
  - destruct (drop_cons2 _ _ _ _ _ E) as (Ha & Hb & Hd & Hl).
    destruct (Nat.ltb_spec (length l) (i + 2)); [lia|]. rewrite Hb. cbn [or_panic res_bind].
    assert (Hlen : is_u8 len) by (eapply Forall_lookup_1 in Hb; [|exact Hok]; done). unfold in_unsigned in Hlen.
    pose proof (f_equal length Hd) as Hr. rewrite length_drop in Hr.
    destruct ((len =? 0) || negb (len mod 4 =? 0) || (length l <? i + 2 + Z.to_nat len)%nat) eqn:Ec.
    + right. split; [|by left; eauto]. intros es pl Hc. apply ext_chain_inv in Hc as (d & rest' & es' & -> & -> & Hne & H4 & Hc'); [|done].
      apply orb_true_iff in Ec as [Ec|Ec%Nat.ltb_lt]; [apply orb_true_iff in Ec as [Ec%Z.eqb_eq|Ec%negb_true_iff%Z.eqb_neq]|].
      * by destruct d.
      * apply Ec. rewrite <- (Nat2Z.inj_mod _ 4), H4. done.
      * rewrite length_app in Hr. lia.
    + apply orb_false_iff in Ec as [[Hl0%Z.eqb_neq Hl4%negb_false_iff%Z.eqb_eq]%orb_false_iff Hend%Nat.ltb_ge].
      rewrite Ha. cbn [or_panic res_bind]. set (d := take (Z.to_nat len) rest).
      assert (Hdl : length d = Z.to_nat len) by (unfold d; rewrite length_take; lia).
      assert (Ed : len = Z.of_nat (length d)) by lia.
      assert (Erest : rest = d ++ drop (Z.to_nat len) rest) by (unfold d; by rewrite take_drop).
      assert (E' : drop (i + (Z.to_nat len + 2)) l = drop (Z.to_nat len) rest).
      { rewrite <- Hd, drop_drop. f_equal. lia. }
      destruct (IH (n - 1)%nat) with (t := next) (bs := drop (Z.to_nat len) rest) (fuel := fuel) (i := (i + (Z.to_nat len + 2))%nat)
        as [(es & pl & Hc & Hr')|[Hno Hr']]; [simpl in Hn; lia|done|lia|rewrite length_drop; simpl in Hn; lia|rewrite length_drop; simpl in Hf; lia| |].
      * left. eexists _, pl. split; [|exact Hr']. rewrite Erest, Ed at 1. apply chain_ext; try done.
        -- intros Hnil. rewrite Hnil in Hdl. simpl in Hdl. lia.
        -- rewrite Hdl. apply Nat2Z.inj. rewrite Nat2Z.inj_mod, Z2Nat.id by lia. done.
        -- lia.
      * right. split; [|done]. intros es pl Hc. apply ext_chain_inv in Hc as (d' & rest' & es' & El & Er & _ & _ & Hc'); [|done].
        eapply Hno. rewrite El, Er, Nat2Z.id, drop_app_length. exact Hc'.
Qed.

(** ** Parsing *)

Lemma packet_type_cases n :
  (exists t, PacketType_try_from_type n = Ok t /\ n = PacketType_to_u8 t) \/
  (PacketType_try_from_type n = Err (InvalidPacketType n) /\ forall t, n <> PacketType_to_u8 t).
Proof.
  destruct (decide (n = 0 \/ n = 1 \/ n = 2 \/ n = 3 \/ n = 4)) as [Hn|Hn].
  - left. destruct Hn as [->|[->|[->|[->| ->]]]]; eexists; done.
  - right. split; [|intros []; cbn; naive_solver].
    unfold PacketType_try_from_type. destruct n as [|[[[|[]|]| |]|[[]|[]|]|]|]; try done; naive_solver.
Qed.

Lemma packet_type_roundtrip t : PacketType_try_from_type (PacketType_to_u8 t) = Ok t.
Proof. by destruct t. Qed.

(** The first byte is a known packet type and version one. *)
Definition first_byte_ok (b : Z) : Prop := Z.land b 15 = 1 /\ exists t, Z.shiftr b 4 = PacketType_to_u8 t.

Lemma header_parse_cases bytes :
  (exists h, PacketHeader_try_from_type bytes = Ok h /\ (HEADER_SIZE <= length bytes)%nat /\ first_byte_ok (bytes !!! 0%nat)) \/
  (exists e, PacketHeader_try_from_type bytes = Err e /\
     ((length bytes < HEADER_SIZE)%nat \/ ~ first_byte_ok (bytes !!! 0%nat))).
Proof.
  unfold PacketHeader_try_from_type. destruct (Nat.ltb_spec (length bytes) HEADER_SIZE); [eauto|].
  destruct (Z.eqb_spec (Z.land (bytes !!! 0%nat) 15) 1) as [Hv|Hv]; cbn [negb].
  - destruct (packet_type_cases (Z.shiftr (bytes !!! 0%nat) 4)) as [(t & -> & Ht)|[-> Ht]]; cbn [res_bind].
    + left. eexists. split; [done|]. split; [done|]. split; [done|by exists t].
    + right. eexists. split; [done|]. right. intros [_ [t Ht']]. by apply (Ht t).
  - right. eexists. split; [done|]. right. by intros [? _].
Qed.

Lemma lookup_total_Some (l : list Z) i : (i < length l)%nat -> l !! i = Some (l !!! i).
Proof. intros Hi. by apply list_lookup_lookup_total_lt. Qed.

Lemma check_extensions_cases bytes : bytes_ok bytes -> (HEADER_SIZE <= length bytes)%nat ->
  (exists es pl, ext_chain (bytes !!! 1%nat) (drop HEADER_SIZE bytes) es pl /\ check_extensions bytes = Ok tt) \/
  ((forall es pl, ~ ext_chain (bytes !!! 1%nat) (drop HEADER_SIZE bytes) es pl) /\ exists e, check_extensions bytes = Err e).
Proof.
  intros Hok Hl. unfold check_extensions. destruct (Nat.ltb_spec (length bytes) HEADER_SIZE); [lia|].
  unfold HEADER_SIZE in Hl. rewrite (lookup_total_Some bytes 1) by lia. cbn [or_panic res_bind].
  destruct ((length bytes =? HEADER_SIZE)%nat && more_extensions (ExtensionType_from (bytes !!! 1%nat))) eqn:Es.
  - right. split; [|eauto]. apply andb_true_iff in Es as [Es%Nat.eqb_eq Em]. rewrite more_extensions_from in Em.
    rewrite drop_ge by lia. revert Em. generalize (bytes !!! 1%nat). intros t Em es pl Hc. by inversion Hc; subst.
  - destruct (check_loop_chain bytes (length bytes) Hok (bytes !!! 1%nat) (drop HEADER_SIZE bytes) (ext_fuel bytes) HEADER_SIZE)
      as [(es & pl & Hc & ->)|[Hno [[e ->]|(ty & -> & Hm)]]];
      try done; try (rewrite length_drop; unfold ext_fuel; lia); cbn [res_bind].
    + left. eauto.
    + right. eauto.
    + right. rewrite Hm. eauto.
Qed.

(** What the accessors of an accepted packet return. *)
Lemma packet_parts bytes t es pl : (HEADER_SIZE <= length bytes)%nat -> Z.shiftr (bytes !!! 0%nat) 4 = PacketType_to_u8 t ->
  ext_chain (bytes !!! 1%nat) (drop HEADER_SIZE bytes) es pl ->
  Packet_get_type (mkPacket bytes) = Ok t /\ payload (mkPacket bytes) = Ok pl /\ extensions (mkPacket bytes) = Ok es.
Proof.
  intros Hl Ht Hc. unfold HEADER_SIZE in Hl. split.
  - unfold Packet_get_type, type_ver_get_type. cbn [raw]. by rewrite Ht, packet_type_roundtrip.
  - unfold payload, extensions, ExtensionIterator_new. cbn [raw].
    rewrite (lookup_total_Some bytes 1) by lia. cbn [or_panic res_bind].
    destruct (payload_index_chain bytes _ _ _ _ Hc (ext_fuel bytes) HEADER_SIZE) as (j & -> & Hj & Hjl);
      [done|unfold HEADER_SIZE; lia|rewrite length_drop; unfold ext_fuel; lia|].
    cbn [res_bind]. destruct (Nat.leb_spec j (length bytes)); [|lia]. split; [by rewrite Hj|].
    by apply (collect_chain bytes _ _ _ pl Hc); [|unfold HEADER_SIZE; lia|rewrite length_drop; unfold ext_fuel; lia].
Qed.

Lemma packet_parse_Ok bytes p : bytes_ok bytes -> Packet_try_from_type bytes = Ok p ->
  p = mkPacket bytes /\ (HEADER_SIZE <= length bytes)%nat /\ Packet_get_version p = 1 /\
  exists t es pl, ext_chain (bytes !!! 1%nat) (drop HEADER_SIZE bytes) es pl /\
    Packet_get_type p = Ok t /\ payload p = Ok pl /\ extensions p = Ok es.
Proof.
  intros Hok. unfold Packet_try_from_type.
  destruct (header_parse_cases bytes) as [(h & -> & Hl & [Hv [t Ht]])|(e & -> & He)]; cbn [res_bind]; [|done].
  destruct (check_extensions_cases bytes Hok Hl) as [(es & pl & Hc & ->)|[Hno [e ->]]]; cbn [res_bind]; [|done].
  intros [= <-]. split_and!; [done|done|done|]. exists t, es, pl. split; [done|]. by apply packet_parts.
Qed.

(** C24: [Packet::try_from] accepts a buffer exactly when it has a whole header of
    version one with a known type and a well-formed chain of extensions, and returns
    the bytes unchanged; every other buffer gives an error, never a panic. For an
    accepted packet [payload] and [extensions] return the parts of the chain, and
    [get_type] does not panic. *)
Theorem packet_parse_spec (bytes : list Z) : bytes_ok bytes ->
  match Packet_try_from_type bytes with
  | Ok p => raw p = bytes /\ Packet_get_version p = 1 /\ (exists t, Packet_get_type p = Ok t) /\
      exists es pl, ext_chain (bytes !!! 1%nat) (drop HEADER_SIZE bytes) es pl /\
        payload p = Ok pl /\ extensions p = Ok es
  | Err _ => (length bytes < HEADER_SIZE)%nat \/ ~ first_byte_ok (bytes !!! 0%nat) \/
      forall es pl, ~ ext_chain (bytes !!! 1%nat) (drop HEADER_SIZE bytes) es pl
  | Panic | OutOfFuel => False
  end.
Proof.
  intros Hok. destruct (Packet_try_from_type bytes) as [p|e| |] eqn:E.
  - destruct (packet_parse_Ok bytes p Hok E) as (-> & _ & Hv & t & es & pl & Hc & Ht & Hp & He). eauto 10.
  - revert E. unfold Packet_try_from_type.
    destruct (header_parse_cases bytes) as [(h & -> & Hl & Hf)|(e' & -> & He)]; cbn [res_bind]; [|naive_solver].
    destruct (check_extensions_cases bytes Hok Hl) as [(es & pl & Hc & ->)|[Hno [e' ->]]]; cbn [res_bind]; [done|auto].
  - revert E. unfold Packet_try_from_type.
    destruct (header_parse_cases bytes) as [(h & -> & Hl & Hf)|(e' & -> & He)]; cbn [res_bind]; [|done].
    by destruct (check_extensions_cases bytes Hok Hl) as [(es & pl & Hc & ->)|[Hno [e' ->]]].
  - revert E. unfold Packet_try_from_type.
    destruct (header_parse_cases bytes) as [(h & -> & Hl & Hf)|(e' & -> & He)]; cbn [res_bind]; [|done].
    by destruct (check_extensions_cases bytes Hok Hl) as [(es & pl & Hc & ->)|[Hno [e' ->]]].
Qed.

(** Two extensions and a payload of two bytes. *)
Definition sample_packet : list Z :=
  [33; 1; 65; 167; 0; 0; 0; 1; 0; 0; 0; 2; 0; 0; 0; 3; 5; 220; 171; 83] ++ [7; 4; 1; 2; 3; 4] ++ [0; 4; 9; 9; 9; 9] ++ [77; 78].

Lemma packet_parse_spec_witness :
  exists es pl, ext_chain (sample_packet !!! 1%nat) (drop HEADER_SIZE sample_packet) es pl /\
    payload (mkPacket sample_packet) = Ok pl /\ extensions (mkPacket sample_packet) = Ok es.
Proof.
  assert (Hok : bytes_ok sample_packet) by (apply (bool_decide_unpack _); vm_compute; exact I).
  pose proof (packet_parse_spec sample_packet Hok) as Hs.
  replace (Packet_try_from_type sample_packet) with (@Ok ParseError Packet (mkPacket sample_packet)) in Hs by reflexivity.
  apply Hs.
Defined.

(** ** The header struct *)

Lemma lor_mul_add a b k : 0 <= k -> in_unsigned k b -> Z.lor (a * 2 ^ k) b = a * 2 ^ k + b.
Proof. intros Hk Hb. rewrite <- (Z.shiftl_mul_pow2 a) by done. by rewrite lor_shiftl_add, Z.shiftl_mul_pow2. Qed.

Lemma le_word2 a b : is_u8 a -> is_u8 b ->
  Z.lor (Z.lor 0 (wrap 16 (Z.shiftl b (Z.of_nat (1 * 8))))) (wrap 16 (Z.shiftl a (Z.of_nat (0 * 8)))) = be_int [b; a].
Proof.
  intros Ha Hb. change (Z.of_nat (1 * 8)) with 8. change (Z.of_nat (0 * 8)) with 0.
  rewrite (wrap_shiftl_small 16 b 8 8), (wrap_shiftl_small 16 a 0 8) by (done || lia).
  rewrite Z.lor_0_l, lor_mul_add; unfold be_int, in_unsigned in *; cbn [foldl]; lia.
Qed.

Lemma le_word4 a b c d : is_u8 a -> is_u8 b -> is_u8 c -> is_u8 d ->
  Z.lor (Z.lor (Z.lor (Z.lor 0 (wrap 32 (Z.shiftl d (Z.of_nat (3 * 8))))) (wrap 32 (Z.shiftl c (Z.of_nat (2 * 8)))))
    (wrap 32 (Z.shiftl b (Z.of_nat (1 * 8))))) (wrap 32 (Z.shiftl a (Z.of_nat (0 * 8)))) = be_int [d; c; b; a].
Proof.
  intros Ha Hb Hc Hd. change (Z.of_nat (3 * 8)) with 24. change (Z.of_nat (2 * 8)) with 16.
  change (Z.of_nat (1 * 8)) with 8. change (Z.of_nat (0 * 8)) with 0.
  rewrite (wrap_shiftl_small 32 d 24 8), (wrap_shiftl_small 32 c 16 8), (wrap_shiftl_small 32 b 8 8),
    (wrap_shiftl_small 32 a 0 8) by (done || lia).
  unfold in_unsigned, be_int in *. cbn [foldl]. rewrite Z.lor_0_l, lor_mul_add by (unfold in_unsigned; lia).
  replace (d * 2 ^ 24 + c * 2 ^ 16) with ((d * 256 + c) * 2 ^ 16) by lia. rewrite lor_mul_add by (unfold in_unsigned; lia).
  replace ((d * 256 + c) * 2 ^ 16 + b * 2 ^ 8) with (((d * 256 + c) * 256 + b) * 2 ^ 8) by lia.
  rewrite lor_mul_add by (unfold in_unsigned; lia). lia.
Qed.

Lemma le_bytes_be_int l : bytes_ok l -> le_bytes (length l) (be_int (rev l)) = l.
Proof.
  intros Hl. unfold le_bytes. rewrite <- length_rev, be_bytes_be_int, rev_involutive; [done|].
  unfold bytes_ok in *. apply Forall_forall. intros x Hx. rewrite Forall_forall in Hl. apply Hl.
  apply list_elem_of_In, in_rev. by apply list_elem_of_In in Hx.
Qed.

Lemma le_bytes_2 a b : is_u8 a -> is_u8 b -> le_bytes 2 (be_int [b; a]) = [a; b].
Proof. intros. apply (le_bytes_be_int [a; b]). by repeat (apply Forall_cons; split; [done|]). Qed.

Lemma le_bytes_4 a b c d : is_u8 a -> is_u8 b -> is_u8 c -> is_u8 d -> le_bytes 4 (be_int [d; c; b; a]) = [a; b; c; d].
Proof. intros. apply (le_bytes_be_int [a; b; c; d]). by repeat (apply Forall_cons; split; [done|]). Qed.

(** Parsing a header and writing it out again gives the first twenty bytes of the
    buffer, whatever follows them: the struct keeps the byte order of the wire. *)
Lemma header_roundtrip (bytes : list Z) (h : PacketHeader) : bytes_ok bytes ->
  PacketHeader_try_from_type bytes = Ok h -> PacketHeader_as_ref h = take HEADER_SIZE bytes.
Proof.
  intros Hok Hp. destruct (header_parse_cases bytes) as [(h' & E & Hl & _)|(e & E & _)]; [|congruence].
  unfold HEADER_SIZE in *. assert (Hlen : length (take 20 bytes) = 20%nat) by (rewrite length_take; lia).
  rewrite <- (take_drop 20 bytes) in Hp. assert (Hok' : bytes_ok (take 20 bytes)) by (by apply Forall_take).
  revert Hlen Hok' Hp. generalize (take 20 bytes), (drop 20 bytes). clear. intros hd tl Hlen Hok Hp.
  destruct_length Hlen. unfold bytes_ok in Hok. repeat rewrite Forall_cons in Hok. destruct_ex.
  unfold PacketHeader_try_from_type in Hp. destruct (_ <? _)%nat; [done|]. destruct (negb _); [done|].
  apply res_bind_Ok in Hp as (t & _ & Hp). injection Hp as <-. unfold PacketHeader_as_ref, u8_to_unsigned_be.
  cbn [type_ver extension h_connection_id h_timestamp h_timestamp_difference h_wnd_size h_seq_nr h_ack_nr
       app lookup_total list_lookup_total Nat.sub Nat.add seq rev foldl].
  rewrite !le_word2, !le_word4 by done. by rewrite !le_bytes_2, !le_bytes_4 by done.
Qed.

Lemma header_roundtrip_witness :
  exists h, PacketHeader_try_from_type sample_packet = Ok h /\ PacketHeader_as_ref h = take HEADER_SIZE sample_packet.
Proof.
  eexists. split; [reflexivity|]. apply header_roundtrip; [apply (bool_decide_unpack _); vm_compute; exact I|reflexivity].
Defined.

(** ** Setters *)

Lemma slice_before {A} (l m : list A) o n a b : (b <= o)%nat -> (o <= length l)%nat ->
  slice (take o l ++ m ++ drop n l) a b = slice l a b.
Proof.
  intros Hb Ho. unfold slice. destruct (Nat.le_gt_cases a b); [|by replace (b - a)%nat with 0%nat by lia].
  rewrite drop_app_le by (rewrite length_take; lia).
  rewrite take_app_le by (rewrite length_drop, length_take; lia). rewrite !take_drop_commute.
  replace (a + (b - a))%nat with b by lia. rewrite take_take. by rewrite Nat.min_l by lia.
Qed.

Lemma slice_after {A} (l m : list A) o a b : (o + length m <= a)%nat -> (o + length m <= length l)%nat ->
  slice (take o l ++ m ++ drop (o + length m) l) a b = slice l a b.
Proof.
  intros Ha Hl. unfold slice. f_equal. rewrite app_assoc.
  rewrite drop_app_ge by (rewrite length_app, length_take; lia). rewrite drop_drop. f_equal.
  rewrite length_app, length_take. lia.
Qed.

Lemma slice_middle {A} (l m : list A) o n : (o <= length l)%nat ->
  slice (take o l ++ m ++ drop n l) o (o + length m) = m.
Proof.
  intros Ho. apply slice_drop_app with (k := drop n l). rewrite drop_app_ge by (rewrite length_take; lia).
  rewrite length_take, Nat.min_l by lia. by rewrite Nat.sub_diag.
Qed.

Lemma field_bounds f : (2 <= field_offset f)%nat /\ (field_offset f + field_size f <= HEADER_SIZE)%nat.
Proof. destruct f; unfold HEADER_SIZE; cbn; lia. Qed.

Lemma fields_disjoint f g : f <> g ->
  (field_offset g + field_size g <= field_offset f)%nat \/ (field_offset f + field_size f <= field_offset g)%nat.
Proof. destruct f, g; intros Hne; try done; cbn; lia. Qed.

Lemma get_set_same f p v : (HEADER_SIZE <= length (raw p))%nat -> in_unsigned (8 * Z.of_nat (field_size f)) v ->
  get_field f (set_field f p v) = v.
Proof.
  intros Hl Hv. destruct (field_bounds f) as [_ Hb]. unfold get_field, set_field. cbn [raw].
  rewrite <- (length_be_bytes (field_size f) v) at 3. rewrite slice_middle by lia. by apply be_int_be_bytes_id.
Qed.

Lemma set_field_slice f p v a b : (HEADER_SIZE <= length (raw p))%nat ->
  (b <= field_offset f)%nat \/ (field_offset f + field_size f <= a)%nat ->
  slice (raw (set_field f p v)) a b = slice (raw p) a b.
Proof.
  intros Hl Hd. destruct (field_bounds f) as [_ Hb]. unfold set_field. cbn [raw]. destruct Hd as [Hd|Hd].
  - apply slice_before; lia.
  - rewrite <- (length_be_bytes (field_size f) v) at 2. apply slice_after; rewrite length_be_bytes; lia.
Qed.

Lemma type_ver_set b t : is_u8 b ->
  type_ver_get_type (type_ver_set_type b t) = Ok t /\ type_ver_get_version (type_ver_set_type b t) = type_ver_get_version b.
Proof.
  intros Hb. unfold type_ver_get_type, type_ver_get_version, type_ver_set_type. rewrite (Z.land_comm 15 b).
  change 15 with (Z.ones 4). rewrite !Z.land_ones by lia. set (v := b mod 2 ^ 4).
  assert (Hv : in_unsigned 4 v) by (apply Z.mod_pos_bound; lia).
  assert (Ht : in_unsigned 4 (PacketType_to_u8 t)) by (destruct t; done).
  rewrite (wrap_shiftl_small 8 _ 4 4) by (done || lia). rewrite lor_mul_add by (done || lia).
  unfold in_unsigned in *. split.
  - rewrite Z.shiftr_div_pow2 by lia. rewrite Z.div_add_l by lia. rewrite Z.div_small by lia.
    by rewrite Z.add_0_r, packet_type_roundtrip.
  - rewrite Z.add_comm, Z.mod_add by lia. by rewrite Z.mod_small by lia.
Qed.

(** A setter of a header field makes its getter return the value and changes no
    other field, neither the type, version and extension bytes nor anything behind the
    header; [set_type] makes [get_type] return the type and keeps the version. *)
Lemma header_setters_independent (p : Packet) (f : header_field) (v : Z) (t : PacketType) :
  (HEADER_SIZE <= length (raw p))%nat -> bytes_ok (raw p) -> in_unsigned (8 * Z.of_nat (field_size f)) v ->
  get_field f (set_field f p v) = v /\
  (forall g, g <> f -> get_field g (set_field f p v) = get_field g p) /\
  take 2 (raw (set_field f p v)) = take 2 (raw p) /\
  drop HEADER_SIZE (raw (set_field f p v)) = drop HEADER_SIZE (raw p) /\
  Packet_get_type (Packet_set_type p t) = Ok t /\
  Packet_get_version (Packet_set_type p t) = Packet_get_version p /\
  drop 1 (raw (Packet_set_type p t)) = drop 1 (raw p).
Proof.
  intros Hl Hok Hv. destruct (field_bounds f) as [H2 Hb]. split_and!.
  - by apply get_set_same.
  - intros g Hg. unfold get_field. f_equal. apply set_field_slice; [done|]. destruct (fields_disjoint f g); auto.
  - pose proof (set_field_slice f p v 0 2 Hl (or_introl H2)) as Hs. unfold slice in Hs. by rewrite !drop_0 in Hs.
  - unfold set_field. cbn [raw]. rewrite app_assoc, drop_app_ge by (rewrite length_app, length_take, length_be_bytes; lia).
    rewrite drop_drop. f_equal. rewrite length_app, length_take, length_be_bytes. lia.
  - unfold Packet_get_type, Packet_set_type. cbn [raw]. rewrite list_lookup_total_insert_eq by (unfold HEADER_SIZE in Hl; lia).
    apply type_ver_set. by apply Forall_lookup_total_1; [|unfold HEADER_SIZE in Hl; lia].
  - unfold Packet_get_version, Packet_set_type. cbn [raw]. rewrite list_lookup_total_insert_eq by (unfold HEADER_SIZE in Hl; lia).
    apply type_ver_set. by apply Forall_lookup_total_1; [|unfold HEADER_SIZE in Hl; lia].
  - unfold Packet_set_type. cbn [raw]. by rewrite drop_insert_lt by lia.
Qed.

Lemma header_setters_independent_witness :
  seq_nr (set_seq_nr (mkPacket sample_packet) 43690) = 43690 /\
  ack_nr (set_seq_nr (mkPacket sample_packet) 43690) = ack_nr (mkPacket sample_packet).
Proof.
  destruct (header_setters_independent (mkPacket sample_packet) FSeqNr 43690 Fin) as (H1 & H2 & _).
  - vm_compute. lia.
  - apply (bool_decide_unpack _). vm_compute. exact I.
  - vm_compute. split; [discriminate|reflexivity].
  - split; [exact H1|]. apply H2. discriminate.
Defined.

(** ** Selective acknowledgements *)

(** Data a selective-ack extension may carry. *)
Definition sack_ok (d : list Z) : Prop := d <> [] /\ (length d mod 4 = 0)%nat /\ (length d < 256)%nat.

(** The extension written out, followed by the payload. *)
Definition sack_bytes (d pl : list Z) : list Z := 0 :: Z.of_nat (length d) :: d ++ pl.

Lemma sack_chain d pl : sack_ok d -> ext_chain 1 (sack_bytes d pl) [mkExtension SelectiveAck d] pl.
Proof. intros (H1 & H2 & H3). apply (chain_ext 1 0 d pl [] pl); [done|done|done|done|constructor]. Qed.

Lemma ext_chain_0 bs es pl : ext_chain 0 bs es pl -> es = [] /\ pl = bs.
Proof. by inversion 1. Qed.

Lemma sack_loop_stop fuel l i : sack_loop (S fuel) l i ExtNone = Ok (l, i).
Proof. cbn [sack_loop]. unfold more_extensions. by rewrite bool_decide_true, andb_false_r by done. Qed.

Lemma sack_loop_chain t bs es pl : ext_chain t bs es pl -> t <> 0 -> forall l fuel i, drop i l = bs ->
  (i <= length l)%nat -> (length bs < fuel)%nat ->
  exists pre, sack_loop fuel l i (ExtensionType_from t) = Ok (take i l ++ pre ++ pl, (i + length pre)%nat) /\
    forall d, sack_ok d -> ext_chain t (pre ++ sack_bytes d pl) (es ++ [mkExtension SelectiveAck d]) pl.
Proof.
  induction 1 as [bs|t next x rest es pl Ht Hne H4 H256 Hc IH]; intros Ht0 l [|fuel] i E Hi Hf; try done; try lia.
  destruct (chain_at l i t next x rest E Ht) as (Hg & Ha & Hb & Hl & Hs & Hdr). cbn [sack_loop].
  rewrite Hg, Hb. cbn [or_panic res_bind]. rewrite Ha. cbn [or_panic res_bind]. rewrite more_extensions_from.
  simpl in Hf. rewrite length_app in Hf. rewrite Nat2Z.id in *.
  destruct (Z.eqb_spec next 0) as [->|Hnext]; cbn [negb].
  - apply ext_chain_0 in Hc as [-> ->]. destruct fuel as [|fuel]; [lia|]. rewrite sack_loop_stop.
    exists (1 :: Z.of_nat (length x) :: x). split.
    + f_equal. f_equal; [|simpl; lia]. rewrite insert_take_drop by lia. f_equal. cbn [ExtensionType_to_u8 app]. f_equal.
      replace (S i) with (i + 1)%nat by lia. rewrite (lookup_drop_cons _ _ _ Hb). cbn [app]. f_equal.
      replace (S (i + 1)) with (i + 2)%nat by lia. rewrite (drop_slice_app _ _ (i + 2 + length x)) by lia. rewrite Hs. f_equal.
      by replace (i + 2 + length x)%nat with (i + (length x + 2))%nat by lia.
    + intros d Hd. cbn [app]. apply chain_ext; try done. by apply sack_chain.
  - destruct (IH Hnext l fuel (i + (length x + 2))%nat) as (pre & -> & Hch); [done|lia|lia|].
    exists (next :: Z.of_nat (length x) :: x ++ pre). split.
    + f_equal. f_equal; [|simpl; rewrite length_app; lia]. rewrite <- (take_drop i l) at 1. rewrite E.
      assert (Hti : length (take i l) = i) by (rewrite length_take; lia).
      rewrite take_app_ge, Hti by lia. rewrite <- !app_assoc. f_equal.
      replace (i + (length x + 2) - i)%nat with (S (S (length x))) by lia. cbn [take app]. f_equal. f_equal.
      by rewrite take_app_length, <- app_assoc.
    + intros d Hd. cbn [app]. rewrite <- app_assoc. apply chain_ext; try done. by apply Hch.
Qed.

Lemma vec_insert_app a b x : vec_insert (length a) x (a ++ b) = Ok (a ++ x :: b).
Proof.
  unfold vec_insert. destruct (Nat.leb_spec (length a) (length (a ++ b))) as [_|H]; [|rewrite length_app in H; lia].
  by rewrite take_app_length, drop_app_length.
Qed.

Lemma insert_all j (bv : list Z) : forall a b k, length a = (j + 2 + k)%nat ->
  foldl (fun acc '(i, value) => let? data := acc in vec_insert (j + 2 + i) value data) (Ok (a ++ b))
    (imap (fun i x => ((k + i)%nat, x)) bv) = Ok (a ++ bv ++ b).
Proof.
  induction bv as [|x bv IH]; intros a b k Ha; [done|]. cbn [imap foldl res_bind]. rewrite Nat.add_0_r, <- Ha, vec_insert_app.
  rewrite (imap_ext _ (fun i y => ((S k + i)%nat, y))) by (intros i y _; cbn [compose]; by rewrite Nat.add_succ_comm).
  replace (a ++ x :: b) with ((a ++ [x]) ++ b) by (by rewrite <- app_assoc).
  rewrite IH by (rewrite length_app; simpl; lia). by rewrite <- app_assoc.
Qed.

(** Inserting the new extension behind [a]. *)
Lemma insert_sack a pl bv n : length a = n -> (length bv < 256)%nat ->
  (let? data := vec_insert (n) 0 (a ++ pl) in
   let? data := vec_insert (n + 1) (as_u8 (Z.of_nat (length bv))) data in
   let? data := foldl (fun acc '(i, value) => let? data := acc in vec_insert (n + 2 + i) value data) (Ok data) (imap pair bv) in
   Ok (mkPacket data)) = Ok (mkPacket (a ++ sack_bytes bv pl)).
Proof.
  intros <- Hl. rewrite vec_insert_app. cbn [res_bind].
  replace (a ++ 0 :: pl) with ((a ++ [0]) ++ pl) by (by rewrite <- app_assoc).
  replace (length a + 1)%nat with (length (a ++ [0])) by (rewrite length_app; simpl; lia). rewrite vec_insert_app. cbn [res_bind].
  rewrite wrap_id by (unfold in_unsigned; lia).
  replace ((a ++ [0]) ++ Z.of_nat (length bv) :: pl) with ((a ++ [0; Z.of_nat (length bv)]) ++ pl) by (by rewrite <- !app_assoc).
  change (imap pair bv) with (imap (fun i x => ((0 + i)%nat, x)) bv).
  rewrite insert_all by (rewrite length_app; simpl; lia). cbn [res_bind]. unfold sack_bytes. by rewrite <- app_assoc.
Qed.

Lemma set_sack_bytes p bv t bs es pl : raw p !! 1%nat = Some t -> drop HEADER_SIZE (raw p) = bs ->
  (HEADER_SIZE <= length (raw p))%nat -> ext_chain t bs es pl -> sack_ok bv ->
  exists t' bs', set_sack p bv = Ok (mkPacket (<[1%nat := t']> (take HEADER_SIZE (raw p)) ++ bs')) /\
    ext_chain t' bs' (es ++ [mkExtension SelectiveAck bv]) pl.
Proof.
  intros H1 Hd Hl Hc Hs. pose proof Hs as (Hne & H4 & H256). unfold set_sack.
  assert (4 <= length bv)%nat.
  { destruct bv as [|? [|? [|? [|? bv]]]]; simpl in *; try done; lia. }
  destruct (Nat.leb_spec 4 (length bv)); [|lia]. rewrite H4. cbn [negb Nat.eqb]. rewrite H1. cbn [or_panic res_bind].
  rewrite more_extensions_from. destruct (Z.eqb_spec t 0) as [->|Ht]; cbn [negb res_bind].
  - apply ext_chain_0 in Hc as [-> ->]. subst bs. exists 1, (sack_bytes bv (drop HEADER_SIZE (raw p))). split; [|by apply sack_chain].
    rewrite <- (take_drop HEADER_SIZE (raw p)) at 1. cbn [ExtensionType_to_u8].
    rewrite insert_app_l by (rewrite length_take; unfold HEADER_SIZE in *; lia).
    assert (Hh : length (<[1%nat := 1]> (take HEADER_SIZE (raw p))) = HEADER_SIZE) by (rewrite length_insert, length_take; lia).
    by apply insert_sack.
  - destruct (sack_loop_chain t bs es pl Hc Ht (raw p) (ext_fuel (raw p)) HEADER_SIZE) as (pre & -> & Hch);
      [done|done|rewrite <- Hd, length_drop; unfold ext_fuel; lia|].
    cbn [res_bind ExtensionType_to_u8]. exists t, (pre ++ sack_bytes bv pl). split; [|by apply Hch].
    assert (Hh : length (take HEADER_SIZE (raw p) ++ pre) = (HEADER_SIZE + length pre)%nat) by (rewrite length_app, length_take; lia).
    rewrite !app_assoc, insert_sack by done. rewrite list_insert_id; [by rewrite <- app_assoc|].
    by rewrite lookup_take_lt by (unfold HEADER_SIZE; lia).
Qed.

(** [set_sack] appends a selective-ack extension: for a packet with a well-formed
    chain and data of a length that fits its byte, it returns a packet whose extensions
    are the old ones followed by the new one, as a well-formed chain again, with the
    same payload, the same type and version byte and the same header fields. *)
Lemma set_sack_appends (p : Packet) (bv : list Z) (es : list Extension) (pl : list Z) :
  (HEADER_SIZE <= length (raw p))%nat ->
  ext_chain (raw p !!! 1%nat) (drop HEADER_SIZE (raw p)) es pl -> sack_ok bv ->
  exists p', set_sack p bv = Ok p' /\ payload p' = Ok pl /\
    extensions p' = Ok (es ++ [mkExtension SelectiveAck bv]) /\
    ext_chain (raw p' !!! 1%nat) (drop HEADER_SIZE (raw p')) (es ++ [mkExtension SelectiveAck bv]) pl /\
    raw p' !!! 0%nat = raw p !!! 0%nat /\ forall f, get_field f p' = get_field f p.
Proof.
  intros Hl Hc Hs. pose proof Hl as Hl'. unfold HEADER_SIZE in Hl'.
  destruct (set_sack_bytes p bv _ _ es pl (lookup_total_Some (raw p) 1 ltac:(lia)) eq_refl Hl Hc Hs) as (t' & bs' & E & Hc').
  set (hd := <[1%nat := t']> (take HEADER_SIZE (raw p))) in *.
  assert (Hh : length hd = HEADER_SIZE) by (unfold hd; rewrite length_insert, length_take; lia).
  assert (H1 : (hd ++ bs') !! 1%nat = Some t').
  { rewrite lookup_app_l by (rewrite Hh; unfold HEADER_SIZE; lia). apply list_lookup_insert_eq.
    rewrite length_take. unfold HEADER_SIZE. lia. }
  assert (Hdr : drop HEADER_SIZE (hd ++ bs') = bs') by (by rewrite drop_app_length').
  exists (mkPacket (hd ++ bs')). split; [done|]. unfold payload, extensions, ExtensionIterator_new. cbn [raw].
  rewrite H1. cbn [or_panic res_bind].
  destruct (payload_index_chain (hd ++ bs') _ _ _ _ Hc' (ext_fuel (hd ++ bs')) HEADER_SIZE) as (j & -> & Hj & Hjl);
    [done|rewrite length_app; lia|unfold ext_fuel; rewrite length_app; lia|].
  cbn [res_bind]. destruct (Nat.leb_spec j (length (hd ++ bs'))); [|lia]. split; [by rewrite Hj|]. split; [|split; [|split]].
  - apply (collect_chain _ _ _ _ pl Hc'); [done|rewrite length_app; lia|unfold ext_fuel; rewrite length_app; lia].
  - by rewrite Hdr, (list_lookup_total_correct _ _ _ H1).
  - rewrite lookup_total_app_l by (rewrite Hh; unfold HEADER_SIZE; lia). unfold hd.
    rewrite list_lookup_total_insert_ne by done. apply list_lookup_total_correct.
    rewrite lookup_take_lt by (unfold HEADER_SIZE; lia). apply lookup_total_Some. lia.
  - intros f. destruct (field_bounds f) as [H2 Hb]. unfold get_field. f_equal. unfold slice. cbn [raw].
    rewrite drop_app_le by lia. rewrite take_app_le by (rewrite length_drop; lia). unfold hd.
    rewrite drop_insert_lt by lia. rewrite !take_drop_commute, take_take. by rewrite Nat.min_l by lia.
Qed.

Lemma set_sack_appends_witness :
  exists p', set_sack (mkPacket sample_packet) [1; 0; 0; 0] = Ok p' /\ payload p' = Ok [77; 78].
Proof.
  destruct (set_sack_appends (mkPacket sample_packet) [1; 0; 0; 0]
    [mkExtension SelectiveAck [1; 2; 3; 4]; mkExtension (Unknown 7) [9; 9; 9; 9]] [77; 78]) as (p' & H1 & H2 & _).
  - vm_compute. lia.
  - apply (chain_ext 1 7 [1; 2; 3; 4] (0 :: 4 :: [9; 9; 9; 9] ++ [77; 78])); try (vm_compute; (done || lia)).
    apply (chain_ext 7 0 [9; 9; 9; 9] [77; 78]); try (vm_compute; (done || lia)). constructor.
  - split; [done|]. vm_compute. split; [reflexivity|lia].
  - exists p'. split; assumption.
Defined.
