(* ===== verification/DhtBencode.v ===== *)
(** * The bencode implementation of the DHT

    Model of [dht/bencode/{bencode,decode,encode,dictionary}.rs], a second
    implementation of bencode with its own decoder: a loop over an explicit stack
    of unfinished objects instead of recursion. The enum [Bencode] has the
    constructors of [InnerBencodeMut], and its dictionaries are the same sorted
    maps, so both use [BencodeMut]; the parse errors are those of [bencode/error.rs]
    without the recursion limit. The stack is a list with its top first. *)

From S2P Require Import Prelude RustStd BTree Bencode.

Abbreviation DBencode := BencodeMut (only parsing).

(** ** Accessors *)

Definition ben_int (b : DBencode) : option Z := match b with MInt n => Some n | _ => None end.
Definition ben_bytes (b : DBencode) : option (list Z) := match b with MBytes n => Some n | _ => None end.
Definition ben_list (b : DBencode) : option (list DBencode) := match b with MList n => Some n | _ => None end.
Definition ben_dict (b : DBencode) : option (list (list Z * DBencode)) :=
  match b with MDict n => Some n | _ => None end.
Definition ben_str (b : DBencode) : option (list Z) :=
  match ben_bytes b with
  | Some bytes => if utf8_valid bytes then Some bytes else None
  | None => None
  end.

(** ** Decoder *)

Definition dht_peek_byte (bytes : list Z) (pos : nat) : parse_res Z :=
  ok_or (bytes !! pos) (BytesEmpty pos).

(** [int_byte_slice.len() > 1] and the two tests on its first bytes. *)
Definition dht_int_check (int_byte_slice : list Z) (pos : nat) : parse_res unit :=
  match int_byte_slice with
  | c0 :: c1 :: _ =>
      if (c0 =? ASCII_MINUS) && (c1 =? ASCII_0) then Err (InvalidIntNegativeZero pos)
      else if c0 =? ASCII_0 then Err (InvalidIntZeroPadding pos)
      else Ok tt
  | _ => Ok tt
  end.

Definition dht_decode_int (bytes : list Z) (pos : nat) (delim : Z) : parse_res (Z * nat) :=
  if (length bytes <? pos)%nat then Panic else
  let begin_decode := drop pos bytes in
  match position (fun n => n =? delim) begin_decode with
  | None => Err (InvalidIntNoDelimiter pos)
  | Some relative_end_pos =>
      let int_byte_slice := take relative_end_pos begin_decode in
      let? _ := dht_int_check int_byte_slice pos in
      if utf8_valid int_byte_slice then
        let absolute_end_pos := (pos + relative_end_pos)%nat in
        match i64_from_str_radix int_byte_slice with
        | Some n => Ok (n, (absolute_end_pos + 1)%nat)
        | None => Err (InvalidIntParseError pos)
        end
      else Err (InvalidIntParseError pos)
  end.

Definition dht_decode_bytes (bytes : list Z) (pos : nat) : parse_res (list Z * nat) :=
  let? (num_bytes, start_pos) := dht_decode_int bytes pos BYTE_LEN_END in
  if num_bytes <? 0 then Err (InvalidLengthNegative pos) else
  if (length bytes <? start_pos)%nat then Panic else
  if Z.of_nat (length (drop start_pos bytes)) <? num_bytes then Err (InvalidLengthOverflow pos)
  else
    let end_pos := (start_pos + Z.to_nat num_bytes)%nat in
    Ok (slice bytes start_pos end_pos, end_pos).

Definition dht_decode_key (bytes : list Z) (pos : nat) : parse_res (list Z * nat) :=
  let? (key_bytes, next_pos) := dht_decode_bytes bytes pos in
  Ok (key_bytes, next_pos).

(** The next object without the content of lists and dictionaries. *)
Definition decode_shallow (bytes : list Z) (pos : nat) : parse_res (DBencode * nat) :=
  let? curr_byte := dht_peek_byte bytes pos in
  if curr_byte =? INT_START then
    let? (bencode, pos) := dht_decode_int bytes (pos + 1) BEN_END in
    Ok (MInt bencode, pos)
  else if curr_byte =? LIST_START then Ok (MList [], (pos + 1)%nat)
  else if curr_byte =? DICT_START then Ok (MDict [], (pos + 1)%nat)
  else if (BYTE_LEN_LOW <=? curr_byte) && (curr_byte <=? BYTE_LEN_HIGH) then
    let? (bencode, pos) := dht_decode_bytes bytes pos in
    Ok (MBytes bencode, pos)
  else Err (InvalidByte pos).

(** A stack entry: an object, or an object with the key it will be stored under. *)
Inductive IBencodeType : Type :=
| IBencode (b : DBencode)
| IBencodeMapping (key : list Z) (b : DBencode).

(** [Some(last_key) if key < *last_key]. *)
Definition below_last_key (key : list Z) (dict : list (list Z * DBencode)) : bool :=
  match bt_last_key dict with
  | Some last_key => bytes_ltb key last_key
  | None => false
  end.

(** The result is the complete object, if the stack is empty, and the stack. *)
Definition collapse_bencode (stack : list IBencodeType) (ibencode : IBencodeType) (curr_pos : nat)
    : parse_res (option DBencode * list IBencodeType) :=
  match stack with
  | top_ibencode :: stack =>
      match top_ibencode, ibencode with
      | IBencode (MInt _), _ => Panic
      | IBencode (MBytes _), _ => Panic
      | IBencode (MList l), IBencode bencode =>
          Ok (None, IBencode (MList (l ++ [bencode])) :: stack)
      | IBencode (MList _), IBencodeMapping _ _ => Panic
      | IBencode (MDict dict), IBencodeMapping key bencode =>
          if below_last_key key dict then Err (InvalidKeyOrdering curr_pos key) else
          match bt_lookup key dict with
          | None => Ok (None, IBencode (MDict (bt_insert key bencode dict)) :: stack)
          | Some _ => Err (InvalidKeyDuplicates curr_pos key)
          end
      | IBencode (MDict _), IBencode _ => Panic
      | IBencodeMapping _ (MInt _), _ => Panic
      | IBencodeMapping _ (MBytes _), _ => Panic
      | IBencodeMapping key (MList l), IBencode bencode =>
          Ok (None, IBencodeMapping key (MList (l ++ [bencode])) :: stack)
      | IBencodeMapping _ (MList _), IBencodeMapping _ _ => Panic
      | IBencodeMapping key (MDict dict), IBencodeMapping i_key bencode =>
          if below_last_key i_key dict then Err (InvalidKeyOrdering curr_pos key) else
          match bt_lookup i_key dict with
          | None => Ok (None, IBencodeMapping key (MDict (bt_insert i_key bencode dict)) :: stack)
          | Some _ => Err (InvalidKeyDuplicates curr_pos key)
          end
      | IBencodeMapping _ (MDict _), IBencode _ => Panic
      end
  | [] =>
      match ibencode with
      | IBencode bencode => Ok (Some bencode, [])
      | IBencodeMapping _ _ => Panic
      end
  end.

(** The end of a loop iteration that collapses: [return] or continue. *)
Definition collapsed (m : parse_res (option DBencode * list IBencodeType)) (pos : nat)
    : parse_res ((DBencode * nat) + (list IBencodeType * nat)) :=
  let? (opt_last_type, bencode_stack) := m in
  match opt_last_type with
  | Some last_type => Ok (inl (last_type, pos))
  | None => Ok (inr (bencode_stack, pos))
  end.

(** One iteration of the [while let] loop, with the entry popped off the stack. *)
Definition decode_iteration (bytes : list Z) (curr_ibencode : IBencodeType)
    (bencode_stack : list IBencodeType) (pos : nat)
    : parse_res ((DBencode * nat) + (list IBencodeType * nat)) :=
  match curr_ibencode with
  | IBencode (MInt _) | IBencode (MBytes _)
  | IBencodeMapping _ (MInt _) | IBencodeMapping _ (MBytes _) =>
      collapsed (collapse_bencode bencode_stack curr_ibencode pos) pos
  | IBencode (MList _) | IBencodeMapping _ (MList _) =>
      let? curr_byte := dht_peek_byte bytes pos in
      if curr_byte =? BEN_END then
        let pos := (pos + 1)%nat in
        collapsed (collapse_bencode bencode_stack curr_ibencode pos) pos
      else
        let bencode_stack := curr_ibencode :: bencode_stack in
        let? (shallow_type, pos) := decode_shallow bytes pos in
        Ok (inr (IBencode shallow_type :: bencode_stack, pos))
  | IBencode (MDict _) | IBencodeMapping _ (MDict _) =>
      let? curr_byte := dht_peek_byte bytes pos in
      if curr_byte =? BEN_END then
        let pos := (pos + 1)%nat in
        collapsed (collapse_bencode bencode_stack curr_ibencode pos) pos
      else
        let bencode_stack := curr_ibencode :: bencode_stack in
        let? (key, pos) := dht_decode_key bytes pos in
        let? (shallow_type, pos) := decode_shallow bytes pos in
        Ok (inr (IBencodeMapping key shallow_type :: bencode_stack, pos))
  end.

(** The loop; an empty stack reaches the final [panic!]. *)
Fixpoint decode_loop (fuel : nat) (bytes : list Z) (bencode_stack : list IBencodeType) (pos : nat)
    : parse_res (DBencode * nat) :=
  match fuel with
  | O => OutOfFuel
  | S fuel =>
      match bencode_stack with
      | [] => Panic
      | curr_ibencode :: bencode_stack =>
          let? next := decode_iteration bytes curr_ibencode bencode_stack pos in
          match next with
          | inl result => Ok result
          | inr (bencode_stack, pos) => decode_loop fuel bytes bencode_stack pos
          end
      end
  end.

(** An iteration reads a byte and pushes one entry, or removes one entry. *)
Definition loop_fuel (bytes : list Z) : nat := 2 * length bytes + 2.

Definition dht_decode (bytes : list Z) (pos : nat) : parse_res (DBencode * nat) :=
  let? (shallow_type, pos) := decode_shallow bytes pos in
  decode_loop (loop_fuel bytes) bytes [IBencode shallow_type] pos.

(** [Bencode::decode]. *)
Definition Bencode_decode (bytes : list Z) : parse_res DBencode :=
  let? (bencode, end_pos) := dht_decode bytes 0 in
  if negb (end_pos =? length bytes)%nat then Err (BytesEmpty end_pos) else Ok bencode.

(** ** Encoder *)

Definition dht_encode_int (val : Z) : list Z :=
  let bytes := [INT_START] in
  let bytes := bytes ++ i64_to_string val in
  bytes ++ [BEN_END].

Definition dht_encode_bytes (bytes_list : list Z) : list Z :=
  let bytes := usize_to_string (Z.of_nat (length bytes_list)) in
  let bytes := bytes ++ [BYTE_LEN_END] in
  bytes ++ bytes_list.

(** The elements come encoded: [for i in list { bytes.extend(encode(i)) }]. *)
Definition dht_encode_list (encoded : list (list Z)) : list Z :=
  foldl (fun bytes i => bytes ++ i) [LIST_START] encoded ++ [BEN_END].

Definition dht_encode_dict (dict : list (list Z * list Z)) : list Z :=
  let sort_dict := sort_by_key dict in
  foldl (fun bytes '(key, value) => (bytes ++ dht_encode_bytes key) ++ value) [DICT_START] sort_dict
  ++ [BEN_END].

Fixpoint dht_encode (val : DBencode) : list Z :=
  match val with
  | MInt n => dht_encode_int n
  | MBytes n => dht_encode_bytes n
  | MList n => dht_encode_list (map dht_encode n)
  | MDict n => dht_encode_dict (map (fun kv => (fst kv, dht_encode (snd kv))) n)
  end.

(** ** Examples *)

Example dht_decode_example :
  Bencode_decode (bs "d0:12:zero_len_key8:location17:udp://test.com:806:numberi500500ee") =
  Ok (MDict [([], MBytes (bs "zero_len_key")); (bs "location", MBytes (bs "udp://test.com:80"));
             (bs "number", MInt 500500)]).
Proof. vm_compute. reflexivity. Qed.

Example dht_decode_nested_example :
  Bencode_decode (bs "d1:ald1:bi1eelee1:cdee") =
  Ok (MDict [(bs "a", MList [MDict [(bs "b", MInt 1)]; MList []]); (bs "c", MDict [])]).
Proof. vm_compute. reflexivity. Qed.

Example dht_encode_example :
  dht_encode (MDict [(bs "a", MList [MInt 1; MBytes (bs "xy")]); (bs "c", MDict [])]) =
  bs "d1:ali1e2:xye1:cdee".
Proof. vm_compute. reflexivity. Qed.
