(* ===== verification/DhtBencodeSpec.v ===== *)
(** * The stack decoder refines a recursive one

    [rdecode] is the recursive reading of [dht/bencode/decode.rs]: an object, the
    entries of a list, the entries of a dictionary. The loop of [decode] over its
    stack is shown equal to it, errors included; the reference is then compared
    with the recursive decoder of [bencode/reference/decode.rs]. *)

From S2P Require Import Prelude RustStd BTree Bencode BencodeFacts BencodeGrammar BencodeCanon BencodeSpec.
From S2P Require Import DhtBencode.

(** ** The shared scanners agree *)

Lemma dht_decode_int_eq bytes pos delim : dht_decode_int bytes pos delim = decode_int bytes pos delim.
Proof. reflexivity. Qed.

Lemma dht_decode_bytes_eq bytes pos : dht_decode_bytes bytes pos = decode_bytes bytes pos.
Proof. reflexivity. Qed.

Lemma dht_decode_key_eq bytes pos : dht_decode_key bytes pos = decode_bytes bytes pos.
Proof. unfold dht_decode_key. rewrite dht_decode_bytes_eq. by destruct (decode_bytes _ _) as [[]| | |]. Qed.

Lemma dht_peek_byte_eq bytes pos : dht_peek_byte bytes pos = peek_byte bytes pos.
Proof. reflexivity. Qed.

Lemma decode_shallow_advances bytes pos : advances bytes pos (decode_shallow bytes pos).
Proof.
  intros sh next H. unfold decode_shallow in H. res_inv. rewrite dht_peek_byte_eq in Hm.
  apply peek_byte_Ok, lookup_lt_Some in Hm. decode_cases H; res_inv; try lia.
  - rewrite dht_decode_int_eq in Hm0. apply decode_int_pos in Hm0 as [? _]. lia.
  - rewrite dht_decode_bytes_eq in Hm0. apply decode_bytes_pos in Hm0. lia.
Qed.

Lemma decode_shallow_safe bytes pos :
  decode_shallow bytes pos <> Panic /\ decode_shallow bytes pos <> OutOfFuel.
Proof.
  unfold decode_shallow. rewrite dht_peek_byte_eq.
  destruct (peek_byte bytes pos) as [c| | |] eqn:Hc; simpl; try done;
    [|by apply peek_byte_safe in Hc..].
  apply peek_byte_Ok, lookup_lt_Some in Hc.
  pose proof (decode_int_safe bytes (pos + 1) BEN_END ltac:(lia)) as [].
  pose proof (decode_bytes_safe bytes pos ltac:(lia)) as [].
  rewrite dht_decode_int_eq, dht_decode_bytes_eq.
  destruct (decode_int _ _ _) as [[]| | |], (decode_bytes _ _) as [[]| | |]; try done;
    repeat case_match; done.
Qed.

(** ** Termination of the loop *)

(** The measure of the loop: unread bytes count twice, stack entries once. *)
Definition loop_measure (bytes : list Z) (stack : list IBencodeType) (pos : nat) : nat :=
  2 * (length bytes - pos) + length stack.

Lemma collapse_shrinks stack ib pos o stack' :
  collapse_bencode stack ib pos = Ok (o, stack') -> length stack' = length stack.
Proof. unfold collapse_bencode. intros H. repeat case_match; simplify_eq; done. Qed.

Lemma collapse_not_fuel stack ib pos : collapse_bencode stack ib pos <> OutOfFuel.
Proof. unfold collapse_bencode. intros H. repeat case_match; done. Qed.

Lemma collapsed_decreases bytes st ib pos pos' st' p' : (pos <= pos')%nat ->
  collapsed (collapse_bencode st ib pos') pos' = Ok (inr (st', p')) ->
  p' = pos' /\ (loop_measure bytes st' p' < loop_measure bytes (ib :: st) pos)%nat.
Proof.
  intros Hp H. unfold collapsed in H. res_inv. case_match; simplify_eq.
  apply collapse_shrinks in Hm. unfold loop_measure. simpl. lia.
Qed.

Lemma iteration_decreases bytes ib st pos st' pos' : (pos <= length bytes)%nat ->
  decode_iteration bytes ib st pos = Ok (inr (st', pos')) ->
  (pos' <= length bytes)%nat /\ (loop_measure bytes st' pos' < loop_measure bytes (ib :: st) pos)%nat.
Proof.
  intros Hpos H. unfold decode_iteration in H.
  destruct ib as [[]|? []]; try (apply (collapsed_decreases bytes _ _ pos) in H; [naive_solver|lia]);
    res_inv; rewrite dht_peek_byte_eq in Hm; apply peek_byte_Ok, lookup_lt_Some in Hm;
    (case_match; [apply (collapsed_decreases bytes _ _ pos) in H as [-> ?]; [split; lia|lia]|]); res_inv;
    try match goal with Hk : dht_decode_key _ _ = _ |- _ =>
      rewrite dht_decode_key_eq in Hk; apply decode_bytes_pos in Hk end;
    match goal with Hs : decode_shallow _ _ = _ |- _ => apply decode_shallow_advances in Hs end;
    simplify_eq; unfold loop_measure; simpl; lia.
Qed.

Lemma iteration_not_fuel bytes ib st pos : decode_iteration bytes ib st pos <> OutOfFuel.
Proof.
  unfold decode_iteration, collapsed.
  pose proof (fun p => collapse_not_fuel st ib p) as Hc.
  assert (Hcol : forall p, collapsed (collapse_bencode st ib p) p <> OutOfFuel).
  { intros p H. apply res_bind_OutOfFuel in H as [H|([] & _ & H)]; [by apply Hc in H|by case_match]. }
  assert (Hel : forall (mk : DBencode -> IBencodeType) p s,
    res_bind (decode_shallow bytes p) (fun '(sh, q) => @Ok BencodeParseErrorKind
      ((DBencode * nat) + (list IBencodeType * nat)) (inr (mk sh :: s, q))) <> OutOfFuel).
  { intros mk p s H. apply res_bind_OutOfFuel in H as [H|([] & _ & H)];
      [by apply decode_shallow_safe in H|done]. }
  destruct ib as [[]|? []]; try apply Hcol; intros H;
    (apply res_bind_OutOfFuel in H as [H|(c & _ & H)]; [by apply peek_byte_safe in H|]);
    (case_match; [by apply Hcol in H|]); try (by apply Hel in H);
    (apply res_bind_OutOfFuel in H as [H|([k p] & _ & H)];
      [rewrite dht_decode_key_eq in H; by apply decode_bytes_not_fuel in H|by apply Hel in H]).
Qed.

Lemma decode_loop_total fuel : forall bytes stack pos, (pos <= length bytes)%nat ->
  (loop_measure bytes stack pos < fuel)%nat -> decode_loop fuel bytes stack pos <> OutOfFuel.
Proof.
  induction fuel as [|fuel IH]; intros bytes stack pos Hp Hf; [lia|]. simpl.
  destruct stack as [|ib st]; [done|]. intros H.
  apply res_bind_OutOfFuel in H as [H|([r|[st' pos']] & Hi & H)]; [|done|].
  - by apply iteration_not_fuel in H.
  - apply iteration_decreases in Hi as [? ?]; [|done]. apply IH in H; [done|done|lia].
Qed.

(** More fuel does not change a result. *)
Lemma decode_loop_mono fuel : forall k bytes stack pos,
  decode_loop fuel bytes stack pos <> OutOfFuel ->
  decode_loop (fuel + k) bytes stack pos = decode_loop fuel bytes stack pos.
Proof.
  induction fuel as [|fuel IH]; intros k bytes stack pos H; [done|]. simpl in *.
  destruct stack as [|ib st]; [done|].
  destruct (decode_iteration bytes ib st pos) as [[r|[st' pos']]| | |]; simpl in *; auto.
Qed.

(** ** The recursive reading of the decoder *)

(** The key a dictionary error reports: that of the entry, except when the
    dictionary is itself stored under the key [o]. *)
Definition report_key (o : option (list Z)) (key : list Z) : list Z := default key o.

Definition add_entry (o : option (list Z)) (dict : list (list Z * DBencode)) (key : list Z)
    (v : DBencode) (pos : nat) : parse_res (list (list Z * DBencode)) :=
  if below_last_key key dict then Err (InvalidKeyOrdering pos (report_key o key)) else
  match bt_lookup key dict with
  | None => Ok (bt_insert key v dict)
  | Some _ => Err (InvalidKeyDuplicates pos (report_key o key))
  end.

Fixpoint rdecode (fuel : nat) (bytes : list Z) (o : option (list Z)) (pos : nat)
    : parse_res (DBencode * nat) :=
  match fuel with
  | O => OutOfFuel
  | S fuel =>
      let? (shallow, pos) := decode_shallow bytes pos in
      match shallow with
      | MList l => let? (l, pos) := rlist fuel bytes l pos in Ok (MList l, pos)
      | MDict d => let? (d, pos) := rdict fuel bytes o d pos in Ok (MDict d, pos)
      | leaf => Ok (leaf, pos)
      end
  end
with rlist (fuel : nat) (bytes : list Z) (acc : list DBencode) (pos : nat)
    : parse_res (list DBencode * nat) :=
  match fuel with
  | O => OutOfFuel
  | S fuel =>
      let? c := peek_byte bytes pos in
      if c =? BEN_END then Ok (acc, (pos + 1)%nat) else
      let? (v, pos) := rdecode fuel bytes None pos in
      rlist fuel bytes (acc ++ [v]) pos
  end
with rdict (fuel : nat) (bytes : list Z) (o : option (list Z)) (acc : list (list Z * DBencode))
    (pos : nat) : parse_res (list (list Z * DBencode) * nat) :=
  match fuel with
  | O => OutOfFuel
  | S fuel =>
      let? c := peek_byte bytes pos in
      if c =? BEN_END then Ok (acc, (pos + 1)%nat) else
      let? (key, pos) := decode_bytes bytes pos in
      let? (v, pos) := rdecode fuel bytes (Some key) pos in
      let? acc := add_entry o acc key v pos in
      rdict fuel bytes o acc pos
  end.

(** ** The loop computes the reference *)

Definition entry (o : option (list Z)) (b : DBencode) : IBencodeType :=
  match o with None => IBencode b | Some key => IBencodeMapping key b end.

(** What the loop does with a finished object. *)
Definition finish (k : nat) (bytes : list Z) (st : list IBencodeType) (ib : IBencodeType) (pos : nat)
    : parse_res (DBencode * nat) :=
  let? (opt, st') := collapse_bencode st ib pos in
  match opt with
  | Some v => Ok (v, pos)
  | None => decode_loop k bytes st' pos
  end.

Lemma loop_collapsed k bytes st ib pos :
  (let? next := collapsed (collapse_bencode st ib pos) pos in
   match next with
   | inl result => Ok result
   | inr (bencode_stack, pos) => decode_loop k bytes bencode_stack pos
   end) = finish k bytes st ib pos.
Proof.
  unfold collapsed, finish. destruct (collapse_bencode st ib pos) as [[[v|] st']| | |]; done.
Qed.

Lemma loop_leaf k bytes o b st pos : (forall l, b <> MList l) -> (forall d, b <> MDict d) ->
  decode_loop (S k) bytes (entry o b :: st) pos = finish k bytes st (entry o b) pos.
Proof.
  intros Hl Hd. rewrite <- loop_collapsed. simpl.
  destruct b as [n|b|l|d]; [by destruct o..|by destruct (Hl l)|by destruct (Hd d)].
Qed.

Lemma loop_list k bytes o l st pos :
  decode_loop (S k) bytes (entry o (MList l) :: st) pos =
  (let? c := peek_byte bytes pos in
   if c =? BEN_END then finish k bytes st (entry o (MList l)) (pos + 1) else
   let? (sh, p) := decode_shallow bytes pos in
   decode_loop k bytes (entry None sh :: entry o (MList l) :: st) p).
Proof.
  simpl. destruct o; simpl; rewrite dht_peek_byte_eq;
    (destruct (peek_byte bytes pos) as [c| | |]; [|done..]); simpl;
    (destruct (c =? BEN_END); [by rewrite loop_collapsed|]);
    by destruct (decode_shallow bytes pos) as [[]| | |].
Qed.

Lemma loop_dict k bytes o d st pos :
  decode_loop (S k) bytes (entry o (MDict d) :: st) pos =
  (let? c := peek_byte bytes pos in
   if c =? BEN_END then finish k bytes st (entry o (MDict d)) (pos + 1) else
   let? (key, p) := decode_bytes bytes pos in
   let? (sh, p) := decode_shallow bytes p in
   decode_loop k bytes (entry (Some key) sh :: entry o (MDict d) :: st) p).
Proof.
  simpl. destruct o; simpl; rewrite dht_peek_byte_eq, dht_decode_key_eq;
    (destruct (peek_byte bytes pos) as [c| | |]; [|done..]); simpl;
    (destruct (c =? BEN_END); [by rewrite loop_collapsed|]);
    (destruct (decode_bytes bytes pos) as [[key p]| | |]; [|done..]); simpl;
    by destruct (decode_shallow bytes p) as [[]| | |].
Qed.

Lemma finish_list k bytes o l v st pos :
  finish k bytes (entry o (MList l) :: st) (entry None v) pos =
  decode_loop k bytes (entry o (MList (l ++ [v])) :: st) pos.
Proof. by destruct o. Qed.

Lemma finish_dict k bytes o d key v st pos :
  finish k bytes (entry o (MDict d) :: st) (entry (Some key) v) pos =
  (let? d' := add_entry o d key v pos in decode_loop k bytes (entry o (MDict d') :: st) pos).
Proof.
  unfold finish, add_entry. destruct o; simpl;
    (destruct (below_last_key key d); [done|]); by destruct (bt_lookup key d).
Qed.

#[local] Arguments entry : simpl never.

(** [j] iterations bring the loop from [m] to the continuation [after]. *)
Definition reaches {A} (m : nat -> parse_res (DBencode * nat)) (r : parse_res A)
    (after : nat -> A -> parse_res (DBencode * nat)) : Prop :=
  r <> OutOfFuel -> exists j, forall k, m (j + k)%nat = let? a := r in after k a.

Section Simulation.
Variable bytes : list Z.

(** With the reference bounded by [fuel], the loop decodes an object, the rest of a
    list, the rest of a dictionary as the reference does. *)
Definition sim_value (fuel : nat) : Prop := forall o pos st, reaches
  (fun n => let? (sh, p) := decode_shallow bytes pos in decode_loop n bytes (entry o sh :: st) p)
  (rdecode fuel bytes o pos) (fun k '(v, p) => finish k bytes st (entry o v) p).
Definition sim_list (fuel : nat) : Prop := forall o acc pos st, reaches
  (fun n => decode_loop n bytes (entry o (MList acc) :: st) pos)
  (rlist fuel bytes acc pos) (fun k '(l, p) => finish k bytes st (entry o (MList l)) p).
Definition sim_dict (fuel : nat) : Prop := forall o acc pos st, reaches
  (fun n => decode_loop n bytes (entry o (MDict acc) :: st) pos)
  (rdict fuel bytes o acc pos) (fun k '(d, p) => finish k bytes st (entry o (MDict d)) p).

Lemma sim_value_step fuel : sim_list fuel -> sim_dict fuel -> sim_value (S fuel).
Proof.
  intros IHl IHd o.
  intros pos st Hne. simpl in *.
  destruct (decode_shallow bytes pos) as [[sh p]| | |]; [|by exists 0%nat..]. simpl in *.
  destruct sh as [n|b|l|d].
  + exists 1%nat. intros k. by apply loop_leaf.
  + exists 1%nat. intros k. by apply loop_leaf.
  + destruct (IHl o l p st) as [j Hj]; [by destruct (rlist _ _ _ _) as [[]| | |]|].
    exists j. intros k. rewrite Hj. by destruct (rlist _ _ _ _) as [[]| | |].
  + destruct (IHd o d p st) as [j Hj]; [by destruct (rdict _ _ _ _ _) as [[]| | |]|].
    exists j. intros k. rewrite Hj. by destruct (rdict _ _ _ _ _) as [[]| | |].
Qed.

Lemma sim_list_step fuel : sim_value fuel -> sim_list fuel -> sim_list (S fuel).
Proof.
  intros IHv IHl o.
  intros acc pos st Hne. simpl in Hne |- *.
  destruct (peek_byte bytes pos) as [c| | |] eqn:Hc; simpl in *;
    [|by exists 1%nat; intros k; rewrite loop_list, Hc..].
  destruct (c =? BEN_END) eqn:He; [by exists 1%nat; intros k; rewrite loop_list, Hc; simpl; rewrite He|].
  destruct (IHv None pos (entry o (MList acc) :: st)) as [j Hj];
    [by destruct (rdecode _ _ _ _) as [[]| | |]|].
  destruct (rdecode fuel bytes None pos) as [[v p]| | |]; simpl in *;
    [|exists (S j); intros k; simpl (S j + k)%nat; rewrite loop_list, Hc; simpl; rewrite He; apply Hj..].
  destruct (IHl o (acc ++ [v]) p st Hne) as [j' Hj'].
  exists (S (j + j')). intros k. simpl (S (j + j') + k)%nat. rewrite loop_list, Hc. simpl. rewrite He.
  rewrite <- Nat.add_assoc, Hj, finish_list. apply Hj'.
Qed.

Lemma sim_dict_step fuel : sim_value fuel -> sim_dict fuel -> sim_dict (S fuel).
Proof.
  intros IHv IHd o.
  intros acc pos st Hne. simpl in Hne |- *.
  destruct (peek_byte bytes pos) as [c| | |] eqn:Hc; simpl in *;
    [|by exists 1%nat; intros k; rewrite loop_dict, Hc..].
  destruct (c =? BEN_END) eqn:He; [by exists 1%nat; intros k; rewrite loop_dict, Hc; simpl; rewrite He|].
  destruct (decode_bytes bytes pos) as [[key pk]| | |] eqn:Hk; simpl in *;
    [|by exists 1%nat; intros k; rewrite loop_dict, Hc; simpl; rewrite He, Hk..].
  destruct (IHv (Some key) pk (entry o (MDict acc) :: st)) as [j Hj];
    [by destruct (rdecode _ _ _ _) as [[]| | |]|].
  destruct (rdecode fuel bytes (Some key) pk) as [[v p]| | |]; simpl in *;
    [|exists (S j); intros k; simpl (S j + k)%nat; rewrite loop_dict, Hc; simpl; rewrite He, Hk; apply Hj..].
  destruct (add_entry o acc key v p) as [acc'| | |] eqn:Ha; simpl in *;
    [|exists (S j); intros k; simpl (S j + k)%nat; rewrite loop_dict, Hc; simpl;
      rewrite He, Hk; simpl; rewrite Hj, finish_dict, Ha; done..].
  destruct (IHd o acc' p st Hne) as [j' Hj'].
  exists (S (j + j')). intros k. simpl (S (j + j') + k)%nat. rewrite loop_dict, Hc. simpl.
  rewrite He, Hk. simpl. rewrite <- Nat.add_assoc, Hj, finish_dict, Ha. apply Hj'.
Qed.

Lemma simulate_all fuel : sim_value fuel /\ sim_list fuel /\ sim_dict fuel.
Proof.
  induction fuel as [|fuel (IHv & IHl & IHd)].
  - split; [intros o pos st Hne|split; intros o acc pos st Hne]; by destruct Hne.
  - auto using sim_value_step, sim_list_step, sim_dict_step.
Qed.
End Simulation.

(** ** Facts about the reference *)

Lemma add_entry_safe o d key v pos :
  add_entry o d key v pos <> Panic /\ add_entry o d key v pos <> OutOfFuel.
Proof. unfold add_entry. repeat case_match; done. Qed.

Lemma rdecode_advances_all fuel bytes :
  (forall o pos, advances bytes pos (rdecode fuel bytes o pos)) /\
  (forall acc pos, advances bytes pos (rlist fuel bytes acc pos)) /\
  (forall o acc pos, advances bytes pos (rdict fuel bytes o acc pos)).
Proof.
  unfold advances. induction fuel as [|fuel (IHv & IHl & IHd)]; [done|]. split; [|split]; simpl.
  - intros o pos v next H. res_inv. apply decode_shallow_advances in Hm.
    case_match; res_inv; [lia|lia| |].
    + apply IHl in Hm0. lia.
    + apply IHd in Hm0. lia.
  - intros acc pos l next H. res_inv. apply peek_byte_Ok, lookup_lt_Some in Hm.
    decode_cases H; res_inv; [lia|]. apply IHv in Hm0. apply IHl in H. lia.
  - intros o acc pos d next H. res_inv. apply peek_byte_Ok, lookup_lt_Some in Hm.
    decode_cases H; res_inv; [lia|]. apply decode_bytes_pos in Hm0.
    apply IHv in Hm1. apply IHd in H. lia.
Qed.

(** Neither a panic nor a lack of fuel. *)
Definition reports {A} (m : parse_res A) : Prop := m <> Panic /\ m <> OutOfFuel.

Lemma reports_bind {A B} (m : parse_res A) (k : A -> parse_res B) :
  reports m -> (forall a, m = Ok a -> reports (k a)) -> reports (res_bind m k).
Proof. intros Hm Hk. destruct m; try done; [by apply Hk|by destruct Hm..]. Qed.

Lemma rdecode_reports_all fuel bytes :
  (forall o pos, (pos <= length bytes)%nat -> (2 * (length bytes - pos) + 1 <= fuel)%nat ->
     reports (rdecode fuel bytes o pos)) /\
  (forall acc pos, (pos <= length bytes)%nat -> (2 * (length bytes - pos) + 2 <= fuel)%nat ->
     reports (rlist fuel bytes acc pos)) /\
  (forall o acc pos, (pos <= length bytes)%nat -> (2 * (length bytes - pos) + 2 <= fuel)%nat ->
     reports (rdict fuel bytes o acc pos)).
Proof.
  induction fuel as [|fuel (IHv & IHl & IHd)]; [split; [|split]; intros; lia|].
  split; [|split]; simpl.
  - intros o pos Hp Hf. apply reports_bind; [apply decode_shallow_safe|].
    intros [sh p] Ha%decode_shallow_advances. destruct sh; [done|done| |];
      (apply reports_bind; [|by intros []]); [apply IHl|apply IHd]; lia.
  - intros acc pos Hp Hf. apply reports_bind; [apply peek_byte_safe|].
    intros c Hc%peek_byte_Ok%lookup_lt_Some. case_match; [done|].
    apply reports_bind; [apply IHv; lia|]. intros [v p] Ha%rdecode_advances_all. apply IHl; lia.
  - intros o acc pos Hp Hf. apply reports_bind; [apply peek_byte_safe|].
    intros c Hc%peek_byte_Ok%lookup_lt_Some. case_match; [done|].
    apply reports_bind; [apply decode_bytes_safe; lia|]. intros [key p] Ha%decode_bytes_pos.
    apply reports_bind; [apply IHv; lia|]. intros [v q] Hv%rdecode_advances_all.
    apply reports_bind; [apply add_entry_safe|]. intros acc' _. apply IHd; lia.
Qed.

(** ** The reference and the decoder of [bencode/reference] *)

(** The result of a successful computation. *)
Definition ok_val {E A} (m : res E A) : option A := match m with Ok a => Some a | _ => None end.

Lemma ok_val_bind {E A B} (m : res E A) (k : A -> res E B) :
  ok_val (res_bind m k) = ok_val m ≫= (fun a => ok_val (k a)).
Proof. by destruct m. Qed.

Lemma ok_val_unwrap {E E' A} (m : res E A) : ok_val (res_unwrap (E' := E') m) = ok_val m.
Proof. by destruct m. Qed.

Lemma ok_val_Some {E A} (m : res E A) a : ok_val m = Some a <-> m = Ok a.
Proof. destruct m; simpl; split; congruence. Qed.

Definition erase_pos (rn : BencodeRef * nat) : DBencode * nat := (ref_erase (fst rn), snd rn).

Section Agree.
Variables (bytes : list Z) (opts : BDecodeOpt).
Hypothesis sorted : check_key_sort opts = true.

Lemma below_last_key_erase acc key :
  below_last_key key (erase_entries acc) = key_out_of_order opts acc key.
Proof.
  unfold below_last_key, key_out_of_order. rewrite erase_last_key, sorted. by destruct (bt_last_key acc).
Qed.

Lemma ok_add_entry o acc key r p :
  ok_val (add_entry o (erase_entries acc) key (ref_erase r) p) =
  if key_out_of_order opts acc key then None else
  match bt_lookup key acc with
  | None => Some (erase_entries (bt_insert key r acc))
  | Some _ => None
  end.
Proof.
  unfold add_entry. rewrite below_last_key_erase, erase_lookup, <- erase_insert.
  destruct (key_out_of_order _ _ _); [done|]. by destruct (bt_lookup key acc).
Qed.

Lemma rdecode_agrees_all fuel :
  (forall o pos depth, (depth + (length bytes - pos) <= max_recursion opts)%nat ->
     ok_val (rdecode fuel bytes o pos) = erase_pos <$> ok_val (decode fuel bytes pos opts depth)) /\
  (forall acc pos depth, (depth + 1 + (length bytes - pos) <= max_recursion opts)%nat ->
     ok_val (rlist fuel bytes (map ref_erase acc) pos) =
       (fun '(rs, n) => (map ref_erase rs, n)) <$> ok_val (decode_list fuel bytes pos opts depth acc)) /\
  (forall o acc pos depth, (depth + 1 + (length bytes - pos) <= max_recursion opts)%nat ->
     ok_val (rdict fuel bytes o (erase_entries acc) pos) =
       (fun '(rm, n) => (erase_entries rm, n)) <$> ok_val (decode_dict fuel bytes pos opts depth acc)).
Proof.
  induction fuel as [|fuel (IHv & IHl & IHd)]; [done|]. split; [|split]; simpl.
  - intros o pos depth Hd. unfold decode_shallow.
    change (dht_peek_byte bytes pos) with (peek_byte bytes pos).
    destruct (peek_byte bytes pos) as [c| | |] eqn:Hc; simpl; [|by case_match..].
    apply peek_byte_Ok, lookup_lt_Some in Hc.
    destruct (Nat.leb_spec (max_recursion opts) depth); [lia|].
    destruct (c =? INT_START); [by rewrite dht_decode_int_eq; destruct (decode_int _ _ _) as [[]| | |]|].
    destruct (c =? LIST_START); simpl.
    { rewrite !ok_val_bind, (IHl [] _ depth) by lia. by destruct (decode_list _ _ _ _ _ _) as [[]| | |]. }
    destruct (c =? DICT_START); simpl.
    { rewrite !ok_val_bind, (IHd o [] _ depth) by lia. by destruct (decode_dict _ _ _ _ _ _) as [[]| | |]. }
    destruct ((BYTE_LEN_LOW <=? c) && _); [|done].
    rewrite dht_decode_bytes_eq. by destruct (decode_bytes _ _) as [[]| | |].
  - intros acc pos depth Hd. destruct (peek_byte bytes pos) as [c| | |]; simpl; [|done..].
    destruct (c =? BEN_END); [done|]. rewrite !ok_val_bind, (IHv None pos (depth + 1)%nat) by lia.
    destruct (decode fuel bytes pos opts (depth + 1)) as [[r n]| | |] eqn:Hr; simpl; [|done..].
    apply decode_advances in Hr. rewrite <- (IHl (acc ++ [r])) by lia. by rewrite map_app.
  - intros o acc pos depth Hd. destruct (peek_byte bytes pos) as [c| | |]; simpl; [|done..].
    destruct (c =? BEN_END); [done|].
    destruct (decode_bytes bytes pos) as [[key p]| | |] eqn:Hk; simpl; [|done..].
    apply decode_bytes_pos in Hk. rewrite !ok_val_bind, (IHv (Some key) p (depth + 1)%nat) by lia.
    destruct (decode fuel bytes p opts (depth + 1)) as [[r n]| | |] eqn:Hr; simpl;
      [|by destruct (key_out_of_order _ _ _)..].
    apply decode_advances in Hr. rewrite ok_val_bind, ok_add_entry.
    destruct (key_out_of_order _ _ _); [done|]. destruct (bt_lookup key acc); [done|]. simpl.
    by rewrite (IHd o (bt_insert key r acc) n depth) by lia.
Qed.

End Agree.

(** ** The entry points *)

(** With the fuel of [dht_decode], the loop computes the reference. *)
Lemma dht_decode_rdecode bytes pos : (pos <= length bytes)%nat ->
  dht_decode bytes pos = rdecode (decode_fuel bytes) bytes None pos.
Proof.
  intros Hp. destruct (proj1 (simulate_all bytes (decode_fuel bytes)) None pos []) as [j Hj].
  { apply rdecode_reports_all; unfold decode_fuel; lia. }
  specialize (Hj (loop_fuel bytes)).
  transitivity (let? (v, p) := rdecode (decode_fuel bytes) bytes None pos in
                finish (loop_fuel bytes) bytes [] (entry None v) p).
  - rewrite <- Hj. unfold dht_decode.
    destruct (decode_shallow bytes pos) as [[sh p]| | |] eqn:Hs; simpl; [|done..].
    apply decode_shallow_advances in Hs. rewrite Nat.add_comm, decode_loop_mono; [done|].
    apply decode_loop_total; [lia|]. unfold loop_measure, loop_fuel. simpl. lia.
  - by destruct (rdecode _ _ _ _) as [[]| | |].
Qed.

Lemma Bencode_decode_Ok bytes v :
  Bencode_decode bytes = Ok v <->
  ok_val (rdecode (decode_fuel bytes) bytes None 0) = Some (v, length bytes).
Proof.
  unfold Bencode_decode. rewrite dht_decode_rdecode by lia. rewrite ok_val_Some.
  destruct (rdecode _ _ _ _) as [[v' n]| | |]; simpl; [|done..].
  destruct (Nat.eqb_spec n (length bytes)); simpl; split; intros; simplify_eq; done.
Qed.

Lemma Bencode_decode_ref bytes opts v :
  check_key_sort opts = true -> enforce_full_decode opts = true ->
  (length bytes <= max_recursion opts)%nat ->
  Bencode_decode bytes = Ok v <-> exists r, BencodeRef_decode bytes opts = Ok r /\ ref_erase r = v.
Proof.
  intros Hs Hf Hm. rewrite Bencode_decode_Ok.
  rewrite (proj1 (rdecode_agrees_all bytes opts Hs (decode_fuel bytes)) None 0%nat 0%nat) by lia.
  setoid_rewrite BencodeRef_decode_Ok. split.
  - intros ([r n] & H%ok_val_Some & [= -> ->])%fmap_Some. eauto.
  - intros (r & (n & H & Hn) & <-). rewrite H. simpl. unfold erase_pos. simpl. by rewrite Hn.
Qed.

(** ** The encoders agree *)

Lemma sort_by_key_Forall {V} (P : list Z * V -> Prop) d : Forall P d -> Forall P (sort_by_key d).
Proof.
  assert (Hins : forall e m, P e -> Forall P m -> Forall P (sort_insert e m)).
  { intros e m He. induction 1; simpl; [by constructor|]. case_match; repeat constructor; auto. }
  induction 1; simpl; auto.
Qed.

Lemma encode_dht v : forall buf, encode v buf = buf ++ dht_encode v.
Proof.
  induction v as [n|b|l IH|d IH] using BencodeMut_nested_ind; intros buf; simpl.
  - unfold encode_int, dht_encode_int. by rewrite <- !app_assoc.
  - unfold encode_bytes, dht_encode_bytes. by rewrite <- !app_assoc.
  - unfold encode_list, dht_encode_list.
    assert (H : forall b0, fold_left (fun buf enc => enc buf) (map encode l) (buf ++ b0) =
      buf ++ foldl (fun bytes i => bytes ++ i) b0 (map dht_encode l)).
    { induction IH as [|v l Hv _ IHl]; intros b0; simpl; [done|]. by rewrite Hv, <- app_assoc, IHl. }
    by rewrite H, app_assoc.
  - unfold encode_dict, dht_encode_dict. rewrite !sort_by_key_map.
    apply sort_by_key_Forall in IH. generalize dependent (sort_by_key d). clear d. intros d IH.
    assert (H : forall b0, fold_left (fun buf kv => (snd kv) (encode_bytes (fst kv) buf))
        (map (fun kv => (fst kv, encode (snd kv))) d) (buf ++ b0) =
      buf ++ foldl (fun bytes '(key, value) => (bytes ++ dht_encode_bytes key) ++ value) b0
        (map (fun kv => (fst kv, dht_encode (snd kv))) d)).
    { induction IH as [|[k v] d Hv _ IHd]; intros b0; simpl; [done|]. simpl in Hv. rewrite Hv.
      unfold encode_bytes, dht_encode_bytes. rewrite <- IHd. by rewrite <- !app_assoc. }
    by rewrite H, app_assoc.
Qed.

Lemma dht_encode_mut v : dht_encode v = BencodeMut_encode v.
Proof. unfold BencodeMut_encode. by rewrite encode_dht. Qed.

Lemma Bencode_decode_encode v : mut_ok v -> Bencode_decode (BencodeMut_encode v) = Ok v.
Proof.
  intros Hok.
  set (opts := BDecodeOpt_new (Nat.max (mut_depth v) (length (BencodeMut_encode v))) true true).
  apply (Bencode_decode_ref _ opts); [done|done|simpl; lia|].
  destruct (BencodeRef_decode_gram opts 0 (enc v) v) as (r & Hr & Hv & _);
    [apply enc_gram; [done|simpl; lia]|].
  exists r. split; [|done]. unfold BencodeMut_encode. by rewrite encode_enc.
Qed.

(** ** Properties *)

(** C23: the DHT's stack decoder agrees with the recursive decoder of the bencode
    module: it accepts an input with value [v] exactly when the recursive decoder,
    set to check the key order and to allow enough nesting, does. *)
Theorem dht_decode_agrees (bytes : list Z) (opts : BDecodeOpt) (v : BencodeMut) :
  check_key_sort opts = true -> enforce_full_decode opts = true ->
  (length bytes <= max_recursion opts)%nat ->
  Bencode_decode bytes = Ok v <-> exists r, BencodeRef_decode bytes opts = Ok r /\ ref_erase r = v.
Proof. apply Bencode_decode_ref. Qed.

Lemma dht_decode_agrees_witness :
  exists r, BencodeRef_decode (bs "ld1:ai1eee") (BDecodeOpt_new 20 true true) = Ok r /\
    ref_erase r = MList [MDict [(bs "a", MInt 1)]].
Proof.
  apply (dht_decode_agrees (bs "ld1:ai1eee")); [reflexivity|reflexivity|vm_compute; lia|].
  vm_compute. reflexivity.
Defined.

(** The DHT's decoder returns a value or an error on every input: its loop
    terminates, no stack entry is collapsed into one that cannot hold it, and no
    slice is out of range. *)
Lemma dht_decode_reports (bytes : list Z) :
  (exists v, Bencode_decode bytes = Ok v) \/ (exists e, Bencode_decode bytes = Err e).
Proof.
  unfold Bencode_decode. rewrite dht_decode_rdecode by lia.
  destruct (proj1 (rdecode_reports_all (decode_fuel bytes) bytes) None 0%nat) as [Hp Hf];
    [lia|unfold decode_fuel; lia|].
  destruct (rdecode _ _ _ _) as [[v n]|e| |]; simpl; [|eauto|done|done].
  case_match; eauto.
Qed.

(** The DHT's encoder writes the same bytes as the encoder of the bencode
    module, and its decoder reads every well-formed value back. *)
Lemma dht_bencode_roundtrip (v : BencodeMut) :
  dht_encode v = BencodeMut_encode v /\ (mut_ok v -> Bencode_decode (dht_encode v) = Ok v).
Proof.
  split; [apply dht_encode_mut|]. intros Hok. rewrite dht_encode_mut. by apply Bencode_decode_encode.
Qed.

Lemma dht_bencode_roundtrip_witness :
  Bencode_decode (dht_encode sample_mut) = Ok sample_mut.
Proof. apply (dht_bencode_roundtrip sample_mut), sample_mut_ok. Defined.

(** A key out of order in a dictionary stored under ["x"] is reported as the key
    ["x"]; the same dictionary in a list reports the key itself. *)
Example dht_nested_key_error :
  Bencode_decode (bs "d1:xd1:bi1e1:ai2eee") = Err (InvalidKeyOrdering 17 (bs "x")) /\
  Bencode_decode (bs "ld1:bi1e1:ai2eee") = Err (InvalidKeyOrdering 14 (bs "a")).
Proof. split; vm_compute; reflexivity. Qed.
