(* ===== verification/DhtCompact.v ===== *)
(** * Compact node and peer information

    Model of [dht/message/compact_info.rs]: the concatenated 26-byte node
    descriptions of a [find_node] or [get_peers] response and the list of six-byte
    peer addresses, with the iterators that read them. A method that panics in the
    source yields [Panic]. *)

From S2P Require Import Prelude RustStd Bencode Words UtilSha UtilConvert Chrono DhtNode DhtBencode.

Definition BYTES_PER_COMPACT_IP : nat := 6.
Definition BYTES_PER_COMPACT_NODE_INFO : nat := 26.
Definition NODE_ID_LEN : nat := SHA_HASH_LEN.

(** [&b[i..j]], which panics out of range. *)
Definition index_range {E A} (b : list A) (i j : nat) : res E (list A) :=
  if (i <=? j)%nat && (j <=? length b)%nat then Ok (slice b i j) else Panic.

(** ** Parsing one entry *)

Definition socket_v4_from_bytes_be (bytes : list Z) : res LengthError SocketAddrV4 :=
  if negb (length bytes =? BYTES_PER_COMPACT_IP)%nat
  then Err (LengthError_new LengthExpected BYTES_PER_COMPACT_IP)
  else
    let? oc_one := or_panic (bytes !! 0%nat) in
    let? oc_two := or_panic (bytes !! 1%nat) in
    let? oc_three := or_panic (bytes !! 2%nat) in
    let? oc_four := or_panic (bytes !! 3%nat) in
    let port := 0 in
    let? b4 := or_panic (bytes !! 4%nat) in
    let port := Z.lor port b4 in
    let port := as_u16 (Z.shiftl port 8) in
    let? b5 := or_panic (bytes !! 5%nat) in
    let port := Z.lor port b5 in
    let ip := Ipv4Addr_new oc_one oc_two oc_three oc_four in
    Ok (SocketAddrV4_new ip port).

Definition parts_from_compact_info (compact_info : list Z) : res unit (ShaHash * SocketAddrV4) :=
  let? id_bytes := index_range compact_info 0 NODE_ID_LEN in
  let? node_id := res_unwrap (ShaHash_from_hash id_bytes) in
  let compact_ip_offset := (NODE_ID_LEN + BYTES_PER_COMPACT_IP)%nat in
  let? ip_bytes := index_range compact_info NODE_ID_LEN compact_ip_offset in
  let? socket := res_unwrap (socket_v4_from_bytes_be ip_bytes) in
  Ok (node_id, socket).

(** ** [CompactNodeInfo] and its iterator *)

Record CompactNodeInfo : Type := mkCompactNodeInfo { cni_nodes : list Z }.

Definition CompactNodeInfo_new (nodes : list Z) : res LengthError CompactNodeInfo :=
  if negb (length nodes mod BYTES_PER_COMPACT_NODE_INFO =? 0)%nat
  then Err (LengthError_new LengthMultipleExpected BYTES_PER_COMPACT_NODE_INFO)
  else Ok (mkCompactNodeInfo nodes).

Record CompactNodeInfoIter : Type := mkCompactNodeInfoIter { cnii_nodes : list Z; cnii_pos : nat }.

Definition CompactNodeInfo_into_iter (self : CompactNodeInfo) : CompactNodeInfoIter :=
  mkCompactNodeInfoIter (cni_nodes self) 0.

Definition CompactNodeInfoIter_next (self : CompactNodeInfoIter)
    : res unit (option (ShaHash * SocketAddrV4) * CompactNodeInfoIter) :=
  let pos := cnii_pos self in
  if (pos =? length (cnii_nodes self))%nat then Ok (None, self)
  else
    let compact_info_offset := (pos + BYTES_PER_COMPACT_NODE_INFO)%nat in
    let? compact_info := index_range (cnii_nodes self) pos compact_info_offset in
    let self := mkCompactNodeInfoIter (cnii_nodes self) (pos + BYTES_PER_COMPACT_NODE_INFO) in
    let? parts := parts_from_compact_info compact_info in
    Ok (Some parts, self).

(** ** [CompactValueInfo] and its iterator *)

Record CompactValueInfo : Type := mkCompactValueInfo { cvi_values : list DBencode }.

(** The checking loop from [index] on. *)
Fixpoint check_compact_values (index : nat) (values : list DBencode) : res LengthError unit :=
  match values with
  | [] => Ok tt
  | node :: values =>
      let? compact_value := or_panic (ben_bytes node) in
      if negb (length compact_value =? BYTES_PER_COMPACT_IP)%nat
      then Err (LengthError_with_index LengthExpected BYTES_PER_COMPACT_IP index)
      else check_compact_values (index + 1) values
  end.

Definition CompactValueInfo_new (values : list DBencode) : res LengthError CompactValueInfo :=
  let? _ := check_compact_values 0 values in
  Ok (mkCompactValueInfo values).

Record CompactValueInfoIter : Type := mkCompactValueInfoIter { cvii_values : list DBencode; cvii_pos : nat }.

Definition CompactValueInfo_into_iter (self : CompactValueInfo) : CompactValueInfoIter :=
  mkCompactValueInfoIter (cvi_values self) 0.

Definition CompactValueInfoIter_next (self : CompactValueInfoIter)
    : res unit (option SocketAddrV4 * CompactValueInfoIter) :=
  let pos := cvii_pos self in
  if (pos =? length (cvii_values self))%nat then Ok (None, self)
  else
    let? compact_info := or_panic (cvii_values self !! pos) in
    let self := mkCompactValueInfoIter (cvii_values self) (pos + 1) in
    let? b := or_panic (ben_bytes compact_info) in
    let? sock := res_unwrap (socket_v4_from_bytes_be b) in
    Ok (Some sock, self).

(** ** Exhausting an iterator *)

(** [Iterator::collect] over a [next] function. *)
Fixpoint iter_collect {S A} (fuel : nat) (next : S -> res unit (option A * S)) (s : S) : res unit (list A) :=
  match fuel with
  | O => OutOfFuel
  | S fuel =>
      let? (item, s) := next s in
      match item with
      | None => Ok []
      | Some a => let? l := iter_collect fuel next s in Ok (a :: l)
      end
  end.

(** Every call of [next] but the last consumes an entry of at least one element. *)
Definition collect_nodes (c : CompactNodeInfo) : res unit (list (ShaHash * SocketAddrV4)) :=
  iter_collect (S (length (cni_nodes c))) CompactNodeInfoIter_next (CompactNodeInfo_into_iter c).
Definition collect_values (c : CompactValueInfo) : res unit (list SocketAddrV4) :=
  iter_collect (S (length (cvi_values c))) CompactValueInfoIter_next (CompactValueInfo_into_iter c).

(** ** Facts *)

Lemma index_range_Ok {E A} (b : list A) i j : (i <= j <= length b)%nat ->
  @index_range E A b i j = Ok (slice b i j).
Proof.
  intros H. unfold index_range. destruct (Nat.leb_spec i j), (Nat.leb_spec j (length b)); simpl; lia || done.
Qed.

Lemma port_from_bytes h l : is_u8 h -> is_u8 l ->
  Z.lor (as_u16 (Z.shiftl (Z.lor 0 h) 8)) l = be_int [h; l].
Proof. rewrite Z.lor_0_l. apply join_bytes. Qed.

(** The inverse of [socket_v4_from_bytes_be] on well-formed addresses. *)
Lemma socket_v4_from_to s : sock_v4_ok s -> socket_v4_from_bytes_be (sock_v4_to_bytes_be s) = Ok s.
Proof.
  destruct s as [[a b c d] p]. intros [_ Hp]. cbn in Hp. rewrite sock_v4_to_bytes_be_app.
  cbn [v4_ip v4_port ipv4_to_bytes_be octet_a octet_b octet_c octet_d].
  destruct (be_bytes_2 p) as (h & l & E & Hh & Hl). rewrite E.
  unfold socket_v4_from_bytes_be. cbn -[wrap Z.shiftl Z.lor be_int].
  by rewrite port_from_bytes, (port_join p h l).
Qed.

Lemma socket_v4_to_from b : length b = BYTES_PER_COMPACT_IP -> bytes_ok b ->
  exists s, socket_v4_from_bytes_be b = Ok s /\ sock_v4_ok s /\ sock_v4_to_bytes_be s = b.
Proof.
  intros H Hb. unfold BYTES_PER_COMPACT_IP in H. destruct_length H. unfold bytes_ok in Hb.
  repeat rewrite Forall_cons in Hb. destruct_ex. eexists. split; [reflexivity|].
  rewrite port_from_bytes by done. split.
  - split; [done|]. apply (be_int_bound [_; _]). by apply Forall_pair_u8.
  - rewrite sock_v4_to_bytes_be_app. cbn [v4_ip v4_port ipv4_to_bytes_be octet_a octet_b octet_c octet_d].
    by rewrite (be_bytes_be_int [_; _]) by (by apply Forall_pair_u8).
Qed.

(** The 26 bytes of an entry. *)
Definition compact_entry (e : ShaHash * SocketAddrV4) : list Z :=
  sha_bytes (fst e) ++ sock_v4_to_bytes_be (snd e).
Definition entry_ok (e : ShaHash * SocketAddrV4) : Prop := sha_ok (fst e) /\ sock_v4_ok (snd e).

Lemma length_sock_v4 s : length (sock_v4_to_bytes_be s) = 6%nat.
Proof. rewrite sock_v4_to_bytes_be_app, length_app, length_be_bytes. done. Qed.

Lemma length_compact_entry e : entry_ok e -> length (compact_entry e) = 26%nat.
Proof. intros [[H _] _]. unfold compact_entry. by rewrite length_app, H, length_sock_v4. Qed.

Lemma parts_from_compact_entry e : entry_ok e -> parts_from_compact_info (compact_entry e) = Ok e.
Proof.
  intros He. pose proof (length_compact_entry e He) as Hl. destruct e as [i a], He as [[Hi _] Ha].
  unfold parts_from_compact_info. unfold compact_entry in *. simpl in *.
  rewrite index_range_Ok by (rewrite Hl; unfold NODE_ID_LEN, SHA_HASH_LEN; lia). simpl.
  unfold slice at 1. rewrite drop_0, Nat.sub_0_r, take_app_length' by done.
  assert (Hh : ShaHash_from_hash (sha_bytes i) = Ok i) by (apply ShaHash_from_hash_ok; by destruct i).
  rewrite Hh. simpl. rewrite index_range_Ok by (rewrite Hl; unfold NODE_ID_LEN, SHA_HASH_LEN, BYTES_PER_COMPACT_IP; lia).
  simpl. unfold slice. rewrite drop_app_length' by done.
  rewrite take_ge by (rewrite length_sock_v4; unfold NODE_ID_LEN, SHA_HASH_LEN, BYTES_PER_COMPACT_IP; lia).
  by rewrite socket_v4_from_to.
Qed.

Lemma compact_entry_surj b : length b = 26%nat -> bytes_ok b -> exists e, entry_ok e /\ compact_entry e = b.
Proof.
  intros Hl Hb. rewrite <- (take_drop 20 b) in Hb |- *. apply Forall_app in Hb as [Hi Ha].
  destruct (socket_v4_to_from (drop 20 b)) as (a & _ & Hok & Hbytes);
    [rewrite length_drop, Hl; done|done|].
  exists (mkShaHash (take 20 b), a). unfold compact_entry. simpl. rewrite Hbytes. split; [|done].
  split; [|done]. split; [|done]. simpl. rewrite length_take, Hl. done.
Qed.

Lemma Forall_entry_surj n : forall b, length b = (26 * n)%nat -> bytes_ok b ->
  exists l, Forall entry_ok l /\ length l = n /\ concat (map compact_entry l) = b.
Proof.
  induction n as [|n IH]; intros b Hl Hb.
  - exists []. split; [constructor|]. split; [done|]. destruct b; [done|simpl in Hl; lia].
  - rewrite <- (take_drop 26 b) in Hb |- *. apply Forall_app in Hb as [H1 H2].
    destruct (compact_entry_surj (take 26 b)) as (e & He & E); [rewrite length_take; lia|done|].
    destruct (IH (drop 26 b)) as (l & Hl' & Hn & El); [rewrite length_drop; lia|done|].
    exists (e :: l). simpl. rewrite E, El, Hn. split; [by constructor|done].
Qed.

Lemma length_concat_entries l : Forall entry_ok l ->
  length (concat (map compact_entry l)) = (26 * length l)%nat.
Proof.
  induction 1 as [|e l He Hl IH]; [done|]. cbn [map concat length].
  rewrite length_app, length_compact_entry, IH by done. lia.
Qed.

(** The iterator, standing after the entries [done], reads the entries [l]. *)
Lemma collect_entries l : forall pre fuel, Forall entry_ok l -> (length l < fuel)%nat ->
  iter_collect fuel CompactNodeInfoIter_next
    (mkCompactNodeInfoIter (pre ++ concat (map compact_entry l)) (length pre)) = Ok l.
Proof.
  induction l as [|e l IH]; intros pre fuel Hl Hf; (destruct fuel as [|fuel]; [simpl in Hf; lia|]);
    cbn [iter_collect map concat]; unfold CompactNodeInfoIter_next at 1; cbn [cnii_nodes cnii_pos].
  - rewrite app_nil_r, Nat.eqb_refl. done.
  - inversion Hl as [|? ? He Hl']; subst. pose proof (length_compact_entry e He) as H26.
    rewrite !length_app, H26. destruct (Nat.eqb_spec (length pre) (length pre + (26 + length (concat (map compact_entry l)))));
      [lia|].
    rewrite index_range_Ok by (rewrite !length_app, H26; unfold BYTES_PER_COMPACT_NODE_INFO; lia).
    cbn [res_bind].
    assert (Hs : slice (pre ++ compact_entry e ++ concat (map compact_entry l)) (length pre)
      (length pre + BYTES_PER_COMPACT_NODE_INFO) = compact_entry e).
    { unfold slice. rewrite drop_app_length. rewrite take_app_length'; [done|].
      unfold BYTES_PER_COMPACT_NODE_INFO. lia. }
    rewrite Hs, parts_from_compact_entry by done. cbn [res_bind].
    rewrite app_assoc. replace (length pre + BYTES_PER_COMPACT_NODE_INFO)%nat with (length (pre ++ compact_entry e))
      by (by rewrite length_app, H26).
    rewrite IH; [done|done|simpl in Hf; lia].
Qed.

Lemma collect_nodes_entries l : Forall entry_ok l ->
  collect_nodes (mkCompactNodeInfo (concat (map compact_entry l))) = Ok l.
Proof.
  intros Hl. apply (collect_entries l []); [done|]. cbn [cni_nodes]. rewrite length_concat_entries by done. lia.
Qed.

Lemma CompactNodeInfo_new_entries l : Forall entry_ok l ->
  CompactNodeInfo_new (concat (map compact_entry l)) = Ok (mkCompactNodeInfo (concat (map compact_entry l))).
Proof.
  intros Hl. unfold CompactNodeInfo_new. rewrite length_concat_entries by done.
  unfold BYTES_PER_COMPACT_NODE_INFO. by rewrite (Nat.mul_comm 26), Nat.Div0.mod_mul.
Qed.

Lemma collect_values_loop socks : forall pre fuel, Forall sock_v4_ok socks -> (length socks < fuel)%nat ->
  iter_collect fuel CompactValueInfoIter_next
    (mkCompactValueInfoIter (pre ++ map (fun s => MBytes (sock_v4_to_bytes_be s)) socks) (length pre)) = Ok socks.
Proof.
  induction socks as [|s socks IH]; intros pre fuel Hl Hf; (destruct fuel as [|fuel]; [simpl in Hf; lia|]);
    cbn [iter_collect map]; unfold CompactValueInfoIter_next at 1; cbn [cvii_values cvii_pos].
  - rewrite app_nil_r, Nat.eqb_refl. done.
  - inversion Hl; subst. rewrite length_app. cbn [length].
    destruct (Nat.eqb_spec (length pre) (length pre + S (length (map (fun s => MBytes (sock_v4_to_bytes_be s)) socks))));
      [lia|].
    rewrite list_lookup_middle by done. cbn [or_panic res_bind ben_bytes].
    rewrite socket_v4_from_to by done. cbn [res_unwrap res_bind].
    pose proof (IH (pre ++ [MBytes (sock_v4_to_bytes_be s)]) fuel) as IH'.
    rewrite <- app_assoc, length_app in IH'. cbn [app length] in IH'. rewrite IH'; [done|done|simpl in Hf; lia].
Qed.

Lemma check_compact_values_ok values : forall i,
  check_compact_values i values = Ok tt <->
  Forall (fun v => exists b, v = MBytes b /\ length b = BYTES_PER_COMPACT_IP) values.
Proof.
  induction values as [|v values IH]; intros i; simpl; [split; [constructor|done]|].
  rewrite Forall_cons. destruct v as [|b| |]; simpl; try (split; [done|intros [(? & ? & _) _]; done]).
  destruct (Nat.eqb_spec (length b) BYTES_PER_COMPACT_IP); simpl.
  - rewrite IH. naive_solver.
  - split; [done|]. intros [(? & [= ->] & ?) _]. done.
Qed.

(** ** Properties *)

(** Compact node information is exact. The constructor refuses exactly the
    lengths that are not a multiple of 26; what it accepts is read without a panic
    into the entries whose concatenated descriptions it is, and those descriptions
    are the ones [Node::encode] writes. *)
Lemma compact_nodes_exact (nodes : list Z) : bytes_ok nodes ->
  match CompactNodeInfo_new nodes with
  | Ok c => exists l, collect_nodes c = Ok l /\ length nodes = (26 * length l)%nat /\
      concat (map compact_entry l) = nodes /\
      forall (C : Chrono) (n : Node) i a, (i, a) ∈ l -> id n = i -> addr n = V4 a ->
        Node_encode n = Ok (compact_entry (i, a))
  | Err e => e = LengthError_new LengthMultipleExpected 26 /\ (length nodes mod 26 <> 0)%nat
  | _ => False
  end.
Proof.
  intros Hb. unfold CompactNodeInfo_new, BYTES_PER_COMPACT_NODE_INFO.
  destruct (Nat.eqb_spec (length nodes mod 26) 0) as [E|E]; simpl negb; cbv iota; [|done].
  apply Nat.Div0.mod_divides in E as [n Hn].
  destruct (Forall_entry_surj n nodes Hn Hb) as (l & Hl & Hln & <-).
  exists l. rewrite collect_nodes_entries, length_concat_entries by done.
  repeat split; try done. intros ? nd i a Hin Hi Ha.
  rewrite Forall_forall in Hl. specialize (Hl _ Hin) as [Hok _].
  pose proof (Node_encode_layout nd) as Hlay. rewrite Ha, Hi in Hlay. by apply Hlay.
Qed.

Lemma compact_nodes_exact_witness :
  match CompactNodeInfo_new (replicate 52 7) with
  | Ok c => exists l, collect_nodes c = Ok l /\ length (replicate 52 7) = (26 * length l)%nat /\
      concat (map compact_entry l) = replicate 52 7 /\
      forall (C : Chrono) (n : Node) i a, (i, a) ∈ l -> id n = i -> addr n = V4 a ->
        Node_encode n = Ok (compact_entry (i, a))
  | Err e => e = LengthError_new LengthMultipleExpected 26 /\ (length (replicate 52 7) mod 26 <> 0)%nat
  | _ => False
  end.
Proof. apply (compact_nodes_exact (replicate 52 7)). apply (bool_decide_unpack _). vm_compute. exact I. Defined.

Lemma values_surj values :
  Forall (fun v => forall b, v = MBytes b -> bytes_ok b) values ->
  Forall (fun v => exists b, v = MBytes b /\ length b = BYTES_PER_COMPACT_IP) values ->
  exists socks, Forall sock_v4_ok socks /\ values = map (fun s => MBytes (sock_v4_to_bytes_be s)) socks.
Proof.
  induction 1 as [|v values Hv Hvs IH]; intros H6; [by exists []|].
  inversion H6 as [|? ? (b & -> & Hl) H6']; subst. destruct (IH H6') as (socks & Hok & ->).
  destruct (socket_v4_to_from b Hl) as (s & _ & Hs & Hb); [by apply Hv|].
  exists (s :: socks). simpl. rewrite Hb. split; [by constructor|done].
Qed.

(** Compact peer values are exact: a list of bencode values is accepted and read
    into the addresses [socks] if and only if it is the list of their six-byte
    forms. *)
Lemma compact_values_exact (values : list BencodeMut) (socks : list SocketAddrV4) :
  Forall (fun v => forall b, v = MBytes b -> bytes_ok b) values ->
  (exists c, CompactValueInfo_new values = Ok c /\ collect_values c = Ok socks) <->
  (Forall sock_v4_ok socks /\ values = map (fun s => MBytes (sock_v4_to_bytes_be s)) socks).
Proof.
  intros Hv. unfold CompactValueInfo_new. split.
  - intros (c & Hc & Hs). res_inv.
    rewrite check_compact_values_ok in Hm. destruct (values_surj values Hv Hm) as (socks' & Hok & ->).
    unfold collect_values in Hs. cbn [cvi_values] in Hs.
    rewrite (collect_values_loop socks' []) in Hs; [|done|rewrite length_map; lia].
    by injection Hs as <-.
  - intros [Hok ->]. eexists. split.
    + assert (Hchk : check_compact_values 0 (map (fun s => MBytes (sock_v4_to_bytes_be s)) socks) = Ok tt).
      { apply check_compact_values_ok, Forall_map, Forall_true. intros s. eexists. split; [done|].
        apply length_sock_v4. }
      by rewrite Hchk.
    + apply (collect_values_loop socks []); [done|]. cbn [cvi_values]. rewrite length_map. lia.
Qed.

Lemma compact_values_exact_witness :
  exists c, CompactValueInfo_new [MBytes [10; 0; 0; 1; 26; 225]] = Ok c /\
    collect_values c = Ok [SocketAddrV4_new (Ipv4Addr_new 10 0 0 1) 6881].
Proof.
  apply (compact_values_exact [MBytes [10; 0; 0; 1; 26; 225]]).
  - constructor; [|constructor]. intros b [= <-]. apply (bool_decide_unpack _). vm_compute. exact I.
  - split; [|reflexivity]. constructor; [|constructor].
    split; [split; [|split; [|split]]|]; vm_compute; split; (discriminate || reflexivity).
Defined.
