(* ===== verification/DhtSecurity.v ===== *)
(** * Node ids bound to an address

    Model of [dht/security.rs]: ids whose first 21 bits are determined by the
    node's IPv4 address and three random bits. The checksum
    [crc32::checksum_castagnoli] of the crc crate is the parameter [crc32c]; the
    values of [rand::random::<u8>()] are arguments, in the order they are drawn. *)

From S2P Require Import Prelude RustStd Words UtilSha UtilConvert.

Definition IPV4_MASK : Z := 0x030F3FFF.
Definition CRC32C_ARG_SLICE_SIZE : nat := 8.

(** [Into::<u32>::into(addr) & IPV4_MASK]. *)
Definition mask_ipv4_be (addr : Ipv4Addr) : Z :=
  let ip_be := be_int (ipv4_to_bytes_be addr) in
  Z.land ip_be IPV4_MASK.

(** The first 21 bits of the id against the checksum. *)
Definition is_compliant_id (crc32c_result : Z) (id_bytes : list Z) : bool :=
  let is_compliant := true in
  let is_compliant := is_compliant && (id_bytes !!! 0%nat =? as_u8 (Z.shiftr crc32c_result 24)) in
  let is_compliant := is_compliant && (id_bytes !!! 1%nat =? as_u8 (Z.shiftr crc32c_result 16)) in
  let mid_id_bits := Z.land (Z.shiftr (id_bytes !!! 2%nat) 0) 0xF8 in
  let mid_hash_bits := Z.land (as_u8 (Z.shiftr crc32c_result 8)) 0xF8 in
  is_compliant && (mid_id_bits =? mid_hash_bits).

Definition is_security_compliant_ipv4_exempt (addr : Ipv4Addr) : bool := false.

Section Security.
Variable crc32c : list Z -> Z.

(** [fill] are the draws after [rand]: one for the third byte, one for each of the
    bytes 3 to 18. The index of the first octet panics when [num_octets] is 0. *)
Definition generate_compliant_id (masked_ip_be : Z) (num_octets : nat) (rand : Z) (fill : list Z)
    : res unit (list Z) :=
  let r := Z.land rand 0x07 in
  let masked_ip_bytes := eight_bytes_to_array masked_ip_be in
  if (length masked_ip_bytes <? num_octets)%nat then Panic else
  let starting_byte := (length masked_ip_bytes - num_octets)%nat in
  let? first := or_panic (masked_ip_bytes !! starting_byte) in
  let masked_ip_bytes := <[starting_byte := Z.lor first (as_u8 (Z.shiftl r 5))]> masked_ip_bytes in
  let crc32c_result := crc32c (drop starting_byte masked_ip_bytes) in
  let node_id := replicate 20 0 in
  let node_id := <[0%nat := as_u8 (Z.shiftr crc32c_result 24)]> node_id in
  let node_id := <[1%nat := as_u8 (Z.shiftr crc32c_result 16)]> node_id in
  let node_id := <[2%nat := Z.lor (as_u8 (Z.land (Z.shiftr crc32c_result 8) 0xF8))
                               (Z.land (fill !!! 0%nat) 0x07)]> node_id in
  let node_id := foldl (fun id i => <[i := fill !!! (i - 2)%nat]> id) node_id (seq 3 16) in
  Ok (<[19%nat := rand]> node_id).

Definition generate_compliant_id_ipv4 (addr : Ipv4Addr) (rand : Z) (fill : list Z) : res unit ShaHash :=
  let masked_ipv4_be := mask_ipv4_be addr in
  let? id := generate_compliant_id masked_ipv4_be 4 rand fill in
  Ok (mkShaHash id).

(** [ip_bits_used - 3] underflows when [num_octets] is 0. *)
Definition is_compliant_addr (masked_ip_be : Z) (num_octets : nat) (id : ShaHash) : res unit bool :=
  if (CRC32C_ARG_SLICE_SIZE <? num_octets)%nat then Panic else
  let id_bytes := sha_bytes id in
  let rand := id_bytes !!! 19%nat in
  let r := Z.land rand 0x07 in
  let ip_bits_used := (num_octets * 8)%nat in
  if (ip_bits_used <? 3)%nat then Panic else
  let rand_masked_ip := Z.lor masked_ip_be (as_u64 (Z.shiftl r (Z.of_nat (ip_bits_used - 3)))) in
  let rand_masked_ip_bytes := eight_bytes_to_array rand_masked_ip in
  let crc32c_result := crc32c (drop 4 rand_masked_ip_bytes) in
  Ok (is_compliant_id crc32c_result id_bytes).

Definition is_compliant_ipv4_addr (addr : Ipv4Addr) (id : ShaHash) : res unit bool :=
  if is_security_compliant_ipv4_exempt addr then Ok true else
  let masked_ip_be := mask_ipv4_be addr in
  is_compliant_addr masked_ip_be 4 id.

(** ** Facts *)

Lemma testbit_as_u8 n i : 0 <= i -> Z.testbit (as_u8 n) i = (i <? 8) && Z.testbit n i.
Proof.
  intros Hi. unfold wrap. destruct (Z.ltb_spec i 8); simpl.
  - by rewrite Z.mod_pow2_bits_low by lia.
  - by rewrite Z.mod_pow2_bits_high by lia.
Qed.

(** The random bits enter the top octet of the address only. *)
Lemma rand_top_byte m r : 0 <= r < 8 ->
  as_u8 (Z.shiftr (Z.lor m (as_u64 (Z.shiftl r 29))) 24) =
  Z.lor (as_u8 (Z.shiftr m 24)) (as_u8 (Z.shiftl r 5)).
Proof.
  intros Hr. apply Z.bits_inj'. intros i Hi.
  rewrite Z.lor_spec, !testbit_as_u8, !Z.shiftr_spec, Z.lor_spec, Z.shiftl_spec by lia.
  destruct (Z.ltb_spec i 8); simpl; [|done]. f_equal. unfold wrap.
  rewrite Z.mod_pow2_bits_low, Z.shiftl_spec by lia. f_equal. lia.
Qed.

Lemma rand_low_byte m r k : 0 <= r < 8 -> 0 <= k <= 16 ->
  as_u8 (Z.shiftr (Z.lor m (as_u64 (Z.shiftl r 29))) k) = as_u8 (Z.shiftr m k).
Proof.
  intros Hr Hk. apply Z.bits_inj'. intros i Hi.
  rewrite !testbit_as_u8, !Z.shiftr_spec, Z.lor_spec by lia.
  destruct (Z.ltb_spec i 8); simpl; [|done]. unfold wrap.
  rewrite Z.mod_pow2_bits_low, Z.shiftl_spec by lia.
  rewrite (Z.testbit_neg_r r) by lia. apply orb_false_r.
Qed.

(** Only the upper five bits of the third byte come from the checksum. *)
Lemma mid_byte_bits c y :
  Z.land (Z.lor (as_u8 (Z.land c 0xF8)) (Z.land y 0x07)) 0xF8 = Z.land (as_u8 c) 0xF8.
Proof.
  apply Z.bits_inj'. intros i Hi.
  rewrite !Z.land_spec, Z.lor_spec, !testbit_as_u8, !Z.land_spec by lia.
  destruct (Z.ltb_spec i 8) as [H8|H8]; simpl.
  - assert (i = 0 \/ i = 1 \/ i = 2 \/ i = 3 \/ i = 4 \/ i = 5 \/ i = 6 \/ i = 7) as Hc by lia.
    destruct_or! Hc; subst; simpl; rewrite ?andb_false_r, ?andb_true_r, ?orb_false_r; done.
  - rewrite (testbit_above 0xF8 8 i) by (unfold in_unsigned; lia). by rewrite !andb_false_r.
Qed.

Lemma land_7_bound n : 0 <= Z.land n 0x07 < 8.
Proof. change 0x07 with (Z.ones 3). rewrite Z.land_ones by lia. apply Z.mod_pos_bound. lia. Qed.

(** The octets both sides hash are the same. *)
Lemma hashed_octets m rand :
  drop 4 (eight_bytes_to_array (Z.lor m (as_u64 (Z.shiftl (Z.land rand 0x07) 29)))) =
  drop 4 (<[4%nat := Z.lor (as_u8 (Z.shiftr m 24)) (as_u8 (Z.shiftl (Z.land rand 0x07) 5))]>
            (eight_bytes_to_array m)).
Proof.
  pose proof (land_7_bound rand) as Hr. unfold eight_bytes_to_array. cbn [drop insert list_insert].
  rewrite rand_top_byte, (rand_low_byte m _ 16), (rand_low_byte m _ 8) by lia. do 3 f_equal.
  f_equal. rewrite <- (Z.shiftr_0_r (Z.lor _ _)), <- (Z.shiftr_0_r m) at 1. apply rand_low_byte; lia.
Qed.

(** The checksum the id of a masked address is made from. *)
Definition id_checksum (m rand : Z) : Z :=
  crc32c (drop 4 (eight_bytes_to_array (Z.lor m (as_u64 (Z.shiftl (Z.land rand 0x07) 29))))).

Lemma generate_compliant_id_form m rand mid fill : length fill = 16%nat ->
  generate_compliant_id m 4 rand (mid :: fill) =
  Ok (as_u8 (Z.shiftr (id_checksum m rand) 24) :: as_u8 (Z.shiftr (id_checksum m rand) 16) ::
      Z.lor (as_u8 (Z.land (Z.shiftr (id_checksum m rand) 8) 0xF8)) (Z.land mid 0x07) :: fill ++ [rand]).
Proof.
  intros H. unfold id_checksum. rewrite hashed_octets. destruct_length H. reflexivity.
Qed.

Lemma is_compliant_id_form c mid rest :
  is_compliant_id c (as_u8 (Z.shiftr c 24) :: as_u8 (Z.shiftr c 16) ::
    Z.lor (as_u8 (Z.land (Z.shiftr c 8) 0xF8)) (Z.land mid 0x07) :: rest) = true.
Proof.
  unfold is_compliant_id. cbn [lookup_total list_lookup_total].
  by rewrite !Z.eqb_refl, Z.shiftr_0_r, mid_byte_bits, Z.eqb_refl.
Qed.

(** ** Properties *)

(** An id generated for an IPv4 address is accepted for that address, whatever
    the checksum function and the random draws; it is a well-formed id whose last
    byte is the random byte. *)
Lemma generated_id_is_compliant (addr : Ipv4Addr) (rand : Z) (fill : list Z) :
  is_u8 rand -> length fill = 17%nat -> bytes_ok fill ->
  exists id, generate_compliant_id_ipv4 addr rand fill = Ok id /\ sha_ok id /\
    sha_bytes id !! 19%nat = Some rand /\ is_compliant_ipv4_addr addr id = Ok true.
Proof.
  intros Hrand Hlen Hfill. destruct fill as [|mid fill]; [done|]. injection Hlen as Hlen.
  inversion Hfill as [|? ? _ Hf]; subst. unfold generate_compliant_id_ipv4.
  rewrite generate_compliant_id_form by done. eexists. split; [reflexivity|].
  assert (Hlast : (fill ++ [rand]) !! 16%nat = Some rand) by (rewrite lookup_app_r, Hlen by lia; done).
  split; [split|split].
  - cbn. by rewrite length_app, Hlen.
  - cbn [sha_bytes]. apply Forall_cons; split; [apply wrap_in_unsigned; lia|].
    apply Forall_cons; split; [apply wrap_in_unsigned; lia|]. apply Forall_cons; split.
    + apply lor_in_unsigned; [lia|apply wrap_in_unsigned; lia|].
      apply (in_unsigned_mono 3); [lia|apply land_7_bound].
    + apply Forall_app. split; [done|]. by apply Forall_singleton.
  - exact Hlast.
  - unfold is_compliant_ipv4_addr, is_compliant_addr. cbn [is_security_compliant_ipv4_exempt sha_bytes].
    assert (Hid : forall b0 b1 b2, (b0 :: b1 :: b2 :: fill ++ [rand]) !!! 19%nat = rand)
      by (intros; by apply list_lookup_total_correct).
    rewrite Hid.
    apply (f_equal Ok), is_compliant_id_form.
Qed.
End Security.

(** CRC-32C, bit by bit, reflected polynomial [0x82F63B78]. *)
Definition crc32c_byte (crc b : Z) : Z :=
  Nat.iter 8 (fun c => if Z.testbit c 0 then Z.lxor (Z.shiftr c 1) 0x82F63B78 else Z.shiftr c 1)
    (Z.lxor crc b).
Definition crc32c_ref (bytes : list Z) : Z := Z.lxor (foldl crc32c_byte 0xFFFFFFFF bytes) 0xFFFFFFFF.

(** The first test vector of the source: 124.31.75.21 with random byte 1. *)
Example compliant_id_vector :
  match generate_compliant_id_ipv4 crc32c_ref (Ipv4Addr_new 124 31 75 21) 1 (replicate 17 0) with
  | Ok id => take 3 (sha_bytes id) = [0x5F; 0xBF; 0xB8]
  | _ => False
  end.
Proof. vm_compute. reflexivity. Qed.

Lemma generated_id_is_compliant_witness :
  exists id, generate_compliant_id_ipv4 crc32c_ref (Ipv4Addr_new 21 75 31 124) 86 (replicate 17 255) = Ok id /\
    sha_ok id /\ sha_bytes id !! 19%nat = Some 86 /\
    is_compliant_ipv4_addr crc32c_ref (Ipv4Addr_new 21 75 31 124) id = Ok true.
Proof.
  apply (generated_id_is_compliant crc32c_ref); [vm_compute; split; (discriminate || reflexivity)|reflexivity|].
  apply (bool_decide_unpack _). vm_compute. exact I.
Defined.
