(* ===== verification/UtilContiguous.v ===== *)
(** * Contiguous buffers and split senders

    Model of [util/contiguous.rs] and, in the second half, of [util/send]: the trait [ContiguousBuffer] as a type class of
    operations, its implementations for [Vec] and for [ContiguousBuffers], a
    sequence of buffers written one after the other. What the trait promises is a
    second class, which both implementations satisfy; the second one is proved
    against the first's laws only. *)

From S2P Require Import Prelude.

(** ** The trait *)

(** [cb_read] lists the slices handed to [receive], in order. *)
Class ContiguousBuffer (I B : Type) : Type := {
  cb_capacity : B -> nat;
  cb_length : B -> nat;
  cb_clear : B -> B;
  cb_write : B -> list I -> res unit B;
  cb_read : B -> list (list I)
}.

(** ** [Vec] *)

(** A vector with its allocated capacity; writing within it does not reallocate. *)
Record Vec (I : Type) : Type := mkVec { vec_capacity : nat; vec_elems : list I }.
Arguments mkVec {I}.
Arguments vec_capacity {I}.
Arguments vec_elems {I}.

Section VecBuffer.
Context {I : Type}.

Definition Vec_write (v : Vec I) (data : list I) : res unit (Vec I) :=
  let available_space := (vec_capacity v - length (vec_elems v))%nat in
  if (available_space <? length data)%nat then Panic
  else Ok (mkVec (vec_capacity v) (vec_elems v ++ data)).

Definition Vec_read (v : Vec I) : list (list I) :=
  if (0 <? length (vec_elems v))%nat then [vec_elems v] else [].

Definition Vec_clear (v : Vec I) : Vec I := mkVec (vec_capacity v) (take 0 (vec_elems v)).

Definition Vec_length (v : Vec I) : nat := length (vec_elems v).

#[export] Instance Vec_buffer : ContiguousBuffer I (Vec I) := {|
  cb_capacity := vec_capacity;
  cb_length := Vec_length;
  cb_clear := Vec_clear;
  cb_write := Vec_write;
  cb_read := Vec_read
|}.
End VecBuffer.

(** ** [ContiguousBuffers] *)

Record ContiguousBuffers (T : Type) : Type := mkContiguousBuffers { buffers : list T }.
Arguments mkContiguousBuffers {T}.
Arguments buffers {T}.

Section Buffers.
Context {T : Type}.

Definition ContiguousBuffers_new : ContiguousBuffers T := mkContiguousBuffers [].
Definition with_buffer (buffer : T) : ContiguousBuffers T := mkContiguousBuffers [buffer].
Definition pack (self buffer : ContiguousBuffers T) : ContiguousBuffers T :=
  mkContiguousBuffers (buffers self ++ buffers buffer).
(** The values [accept] is called with. *)
Definition unpack (self : ContiguousBuffers T) : list (ContiguousBuffers T) :=
  map with_buffer (buffers self).

Context {I : Type} `{ContiguousBuffer I T}.

(** The loop of [write]: the buffers after it and the number of elements written. *)
Fixpoint write_buffers (bufs : list T) (data : list I) (bytes_written : nat)
    : res unit (list T * nat) :=
  match bufs with
  | [] => Ok ([], bytes_written)
  | buffer :: rest =>
      if (bytes_written =? length data)%nat then Ok (buffer :: rest, bytes_written) else
      let available_capacity := (cb_capacity buffer - cb_length buffer)%nat in
      let amount_to_write := Nat.min available_capacity (length data - bytes_written) in
      let start := bytes_written in
      let stop := (bytes_written + amount_to_write)%nat in
      let? buffer := cb_write buffer (slice data start stop) in
      let? (rest, written) := write_buffers rest data (bytes_written + amount_to_write) in
      Ok (buffer :: rest, written)
  end.

Definition Buffers_write (self : ContiguousBuffers T) (data : list I)
    : res unit (ContiguousBuffers T) :=
  let? (bufs, bytes_written) := write_buffers (buffers self) data 0 in
  if negb (bytes_written =? length data)%nat then Panic else Ok (mkContiguousBuffers bufs).

Definition Buffers_capacity (self : ContiguousBuffers T) : nat := sum_list_with cb_capacity (buffers self).
Definition Buffers_length (self : ContiguousBuffers T) : nat := sum_list_with cb_length (buffers self).
Definition Buffers_clear (self : ContiguousBuffers T) : ContiguousBuffers T :=
  mkContiguousBuffers (map cb_clear (buffers self)).
Definition Buffers_read (self : ContiguousBuffers T) : list (list I) := concat (map cb_read (buffers self)).

#[export] Instance Buffers_buffer : ContiguousBuffer I (ContiguousBuffers T) := {|
  cb_capacity := Buffers_capacity;
  cb_length := Buffers_length;
  cb_clear := Buffers_clear;
  cb_write := Buffers_write;
  cb_read := Buffers_read
|}.
End Buffers.

(** ** What the trait promises *)

(** [cb_contents] is everything written and not cleared, in order. *)
Definition cb_contents {I B} `{ContiguousBuffer I B} (b : B) : list I := concat (cb_read b).

Class LawfulBuffer (I B : Type) `{ContiguousBuffer I B} : Type := {
  cb_wf : B -> Prop;
  cb_wf_le b : cb_wf b -> (cb_length b <= cb_capacity b)%nat;
  cb_contents_length b : cb_wf b -> length (cb_contents b) = cb_length b;
  cb_read_nonempty b : cb_wf b -> Forall (fun s => s <> []) (cb_read b);
  cb_clear_spec b : cb_wf b ->
    cb_wf (cb_clear b) /\ cb_contents (cb_clear b) = [] /\ cb_capacity (cb_clear b) = cb_capacity b;
  cb_write_fits b data : cb_wf b -> (cb_length b + length data <= cb_capacity b)%nat ->
    exists b', cb_write b data = Ok b' /\ cb_wf b' /\ cb_capacity b' = cb_capacity b /\
      cb_contents b' = cb_contents b ++ data;
  cb_write_overflow b data : cb_wf b -> (cb_capacity b < cb_length b + length data)%nat ->
    cb_write b data = Panic
}.

Section VecLaws.
Context {I : Type}.

Lemma Vec_contents (v : Vec I) : cb_contents v = vec_elems v.
Proof.
  unfold cb_contents. simpl. unfold Vec_read. destruct (Nat.ltb_spec 0 (length (vec_elems v))); simpl.
  - apply app_nil_r.
  - destruct (vec_elems v); [done|simpl in *; lia].
Qed.

#[export] Instance Vec_lawful : LawfulBuffer I (Vec I).
Proof.
  refine {| cb_wf := fun v : Vec I => (length (vec_elems v) <= vec_capacity v)%nat |}.
  - done.
  - intros v _. by rewrite Vec_contents.
  - intros v _. simpl. unfold Vec_read. destruct (Nat.ltb_spec 0 (length (vec_elems v))); [|constructor].
    constructor; [|constructor]. intros E. rewrite E in *. simpl in *. lia.
  - intros v _. rewrite Vec_contents. simpl. split; [lia|done].
  - intros v data Hwf Hfit. simpl in *. unfold Vec_write, Vec_length in *.
    destruct (Nat.ltb_spec (vec_capacity v - length (vec_elems v)) (length data)); [lia|].
    eexists. split; [reflexivity|]. rewrite !Vec_contents. simpl. rewrite length_app. auto.
  - intros v data Hwf Hover. simpl in *. unfold Vec_write, Vec_length in *.
    destruct (Nat.ltb_spec (vec_capacity v - length (vec_elems v)) (length data)); [done|lia].
Defined.
End VecLaws.

(** ** The laws of a sequence of lawful buffers *)

Section BuffersLaws.
Context {I T : Type} `{LawfulBuffer I T}.
Implicit Types (b : T) (bs : list T) (data : list I).

(** Data is contiguous when a buffer with room is followed by empty ones only. *)
Fixpoint sequential bs : Prop :=
  match bs with
  | [] => True
  | b :: bs => (cb_length b = cb_capacity b \/ Forall (fun b' => cb_length b' = 0%nat) bs) /\ sequential bs
  end.

Definition bufs_wf bs : Prop := Forall cb_wf bs /\ sequential bs.
Definition bufs_free bs : nat := sum_list_with (fun b => cb_capacity b - cb_length b)%nat bs.
Definition bufs_contents bs : list I := concat (map cb_contents bs).

Lemma bufs_free_sub bs : Forall cb_wf bs ->
  (sum_list_with cb_length bs + bufs_free bs)%nat = sum_list_with cb_capacity bs.
Proof.
  induction 1 as [|b bs Hb Hbs IH]; simpl; [done|]. unfold bufs_free in *. simpl.
  apply cb_wf_le in Hb. lia.
Qed.

Lemma bufs_contents_length bs : Forall cb_wf bs ->
  length (bufs_contents bs) = sum_list_with cb_length bs.
Proof.
  induction 1 as [|b bs Hb Hbs IH]; [done|]. unfold bufs_contents in *. simpl.
  by rewrite length_app, IH, cb_contents_length.
Qed.

Lemma bufs_empty bs : Forall cb_wf bs ->
  Forall (fun b => cb_length b = 0%nat) bs <-> bufs_contents bs = [].
Proof.
  intros Hwf. rewrite <- length_zero_iff_nil, bufs_contents_length by done.
  induction Hwf as [|b bs Hb Hbs IH]; simpl; [split; [done|constructor]|].
  rewrite Forall_cons, IH. lia.
Qed.

(** The slice written into the first buffer, and what is left to write. *)
Lemma slice_split data i j k : (i <= j <= k)%nat -> slice data i j ++ slice data j k = slice data i k.
Proof.
  intros [Hij Hjk]. unfold slice. replace (k - i)%nat with ((j - i) + (k - j))%nat by lia.
  rewrite <- take_take_drop, drop_drop. do 3 f_equal. lia.
Qed.

Lemma slice_empty data i : slice data i i = [].
Proof. unfold slice. by rewrite Nat.sub_diag. Qed.

Lemma write_buffers_spec bs : forall data done, bufs_wf bs -> (done <= length data)%nat ->
  let n := Nat.min (bufs_free bs) (length data - done) in
  exists bs', write_buffers bs data done = Ok (bs', (done + n)%nat) /\ bufs_wf bs' /\
    sum_list_with cb_capacity bs' = sum_list_with cb_capacity bs /\
    bufs_contents bs' = bufs_contents bs ++ slice data done (done + n).
Proof.
  induction bs as [|b bs IH]; intros data done [Hwf Hseq] Hd n; simpl.
  { exists []. subst n. simpl. rewrite Nat.add_0_r, slice_empty. done. }
  destruct (Nat.eqb_spec done (length data)) as [E|E].
  { exists (b :: bs). subst n. rewrite E, Nat.sub_diag, Nat.min_0_r, Nat.add_0_r, slice_empty, app_nil_r. done. }
  apply Forall_cons in Hwf as [Hb Hbs]. destruct Hseq as [Hfull Hseq].
  pose proof (cb_wf_le _ Hb) as Hle. set (a := Nat.min (cb_capacity b - cb_length b) (length data - done)).
  assert (Hlen : length (slice data done (done + a)) = a).
  { rewrite length_slice; subst a; lia. }
  destruct (cb_write_fits b (slice data done (done + a))) as (b' & Hw & Hb' & Hcap & Hcon);
    [done|rewrite Hlen; subst a; lia|].
  rewrite Hw. simpl. destruct (IH data (done + a)%nat) as (bs' & Hws & [Hbs' Hseq'] & Hcaps & Hcons);
    [done|subst a; lia|].
  rewrite Hws. set (m := Nat.min (bufs_free bs) (length data - (done + a))) in *. simpl.
  assert (Hn : n = (a + m)%nat) by (subst n a m; unfold bufs_free; simpl; lia).
  exists (b' :: bs'). rewrite Hn, Nat.add_assoc.
  assert (Hempty : a <> 0%nat -> bufs_contents bs = []).
  { intros Ha. apply bufs_empty; [done|]. destruct Hfull; [subst a; lia|done]. }
  pose proof (f_equal length Hcon) as Hl'. rewrite length_app, Hlen, !cb_contents_length in Hl' by done.
  split; [done|]. split; [split; [by constructor|]|split].
  - split; [|done]. destruct (decide (cb_length b' = cb_capacity b')) as [|Hne]; [by left|].
    right. apply bufs_empty; [done|]. rewrite Hcons.
    assert (Hm : m = 0%nat) by (subst a m; lia). rewrite Hm, Nat.add_0_r, slice_empty, app_nil_r.
    apply bufs_empty; [done|]. destruct Hfull as [Hf|]; [subst a; lia|done].
  - simpl. by rewrite Hcap, Hcaps.
  - unfold bufs_contents in *. simpl. rewrite Hcon, Hcons, <- (slice_split data done (done + a) (done + a + m)) by lia.
    destruct (decide (a = 0%nat)) as [Ea|Ea].
    + rewrite Ea, Nat.add_0_r, slice_empty, app_nil_r. simpl. by rewrite app_assoc.
    + rewrite (Hempty Ea). simpl. by rewrite app_nil_r, app_assoc.
Qed.

Lemma Buffers_contents (c : ContiguousBuffers T) : cb_contents c = bufs_contents (buffers c).
Proof.
  unfold cb_contents, bufs_contents. simpl. unfold Buffers_read. induction (buffers c) as [|b bs IH]; [done|]. simpl.
  by rewrite concat_app, IH.
Qed.

Lemma Buffers_write_fits (c : ContiguousBuffers T) data : bufs_wf (buffers c) ->
  (cb_length c + length data <= cb_capacity c)%nat ->
  exists c', cb_write c data = Ok c' /\ bufs_wf (buffers c') /\ cb_capacity c' = cb_capacity c /\
    cb_contents c' = cb_contents c ++ data.
Proof.
  intros Hwf Hfit. simpl in *. unfold Buffers_write, Buffers_length, Buffers_capacity in *. pose proof (bufs_free_sub _ (proj1 Hwf)).
  destruct (write_buffers_spec (buffers c) data 0 Hwf) as (bs' & Hw & Hwf' & Hcap & Hcon); [lia|].
  assert (Hn : Nat.min (bufs_free (buffers c)) (length data - 0) = length data) by lia.
  rewrite Hn in *. rewrite Hw. simpl. rewrite Nat.eqb_refl. simpl. eexists. split; [reflexivity|].
  rewrite !Buffers_contents. simpl. split; [done|]. split; [done|]. rewrite Hcon. f_equal.
  unfold slice. rewrite drop_0, take_ge by lia. done.
Qed.

Lemma Buffers_write_overflow (c : ContiguousBuffers T) data : bufs_wf (buffers c) ->
  (cb_capacity c < cb_length c + length data)%nat -> cb_write c data = Panic.
Proof.
  intros Hwf Hover. simpl in *. unfold Buffers_write, Buffers_length, Buffers_capacity in *. pose proof (bufs_free_sub _ (proj1 Hwf)).
  destruct (write_buffers_spec (buffers c) data 0 Hwf) as (bs' & -> & _); [lia|]. simpl.
  destruct (Nat.eqb_spec (Nat.min (bufs_free (buffers c)) (length data - 0)) (length data)); [lia|done].
Qed.

Lemma cleared_sequential bs : Forall cb_wf bs -> bufs_wf (map cb_clear bs) /\
  bufs_contents (map cb_clear bs) = [] /\
  sum_list_with cb_capacity (map cb_clear bs) = sum_list_with cb_capacity bs.
Proof.
  induction 1 as [|b bs Hb Hbs ([Hwf Hseq] & Hcon & Hcap)]; [done|]. simpl.
  destruct (cb_clear_spec b Hb) as (Hb' & Hc & Hk). split; [split; [by constructor|]|].
  - split; [|done]. right. by apply bufs_empty.
  - unfold bufs_contents in *. simpl. by rewrite Hc, Hcon, Hk, Hcap.
Qed.

#[export] Instance Buffers_lawful : LawfulBuffer I (ContiguousBuffers T).
Proof.
  refine {| cb_wf := fun c : ContiguousBuffers T => bufs_wf (buffers c) |}.
  - intros c [Hwf _]. simpl. unfold Buffers_length, Buffers_capacity. pose proof (bufs_free_sub _ Hwf). lia.
  - intros c [Hwf _]. rewrite Buffers_contents. by apply bufs_contents_length.
  - intros c [Hwf _]. simpl. unfold Buffers_read. induction Hwf as [|b bs Hb Hbs IH]; [constructor|]. simpl.
    apply Forall_app. split; [by apply cb_read_nonempty|done].
  - intros c [Hwf _]. rewrite Buffers_contents. simpl. by apply cleared_sequential.
  - apply Buffers_write_fits.
  - apply Buffers_write_overflow.
Defined.

(** ** Properties *)

(** A sequence of buffers behaves as one: whatever buffers satisfy the trait's
    contract, if their data is contiguous then a write that fits the total free
    capacity appends to what [read] yields, keeps the data contiguous and the
    capacity unchanged; a larger write panics; and [clear] empties every buffer. *)
Lemma contiguous_buffers_contract (c : ContiguousBuffers T) (data : list I) :
  bufs_wf (buffers c) ->
  (if (cb_length c + length data <=? cb_capacity c)%nat
   then exists c', cb_write c data = Ok c' /\ bufs_wf (buffers c') /\ cb_capacity c' = cb_capacity c /\
          cb_contents c' = cb_contents c ++ data
   else cb_write c data = Panic) /\
  cb_contents (cb_clear c) = [] /\ cb_capacity (cb_clear c) = cb_capacity c.
Proof.
  intros Hwf. split.
  - destruct (Nat.leb_spec (cb_length c + length data) (cb_capacity c)).
    + by apply Buffers_write_fits.
    + by apply Buffers_write_overflow.
  - destruct (cleared_sequential (buffers c) (proj1 Hwf)) as (_ & ? & ?). by rewrite Buffers_contents.
Qed.

(** Buffers packed together are written in the order they were packed. *)
Lemma pack_wf (c d : ContiguousBuffers T) : bufs_wf (buffers c) -> Forall cb_wf (buffers d) ->
  cb_length d = 0%nat -> bufs_wf (buffers (pack c d)).
Proof.
  intros [Hc Hsc] Hd Hz. simpl. assert (He : Forall (fun b => cb_length b = 0%nat) (buffers d)).
  { apply bufs_empty; [done|]. by apply length_zero_iff_nil; rewrite bufs_contents_length. }
  split; [by apply Forall_app|]. clear Hz. induction (buffers c) as [|b bs IH]; simpl.
  - clear Hc Hsc. induction He as [|b bs Hb Hbs IH]; [done|]. apply Forall_cons in Hd as [_ Hd].
    split; [by right|auto].
  - apply Forall_cons in Hc as [_ Hc]. destruct Hsc as [Hf Hsc]. split; [|auto].
    destruct Hf; [by left|right]. by apply Forall_app.
Qed.
End BuffersLaws.

Lemma contiguous_buffers_contract_witness :
  let c := pack (with_buffer (mkVec 2 [1; 2])) (pack (with_buffer (mkVec 3 [3])) (with_buffer (mkVec 1 []))) in
  exists c', cb_write c [4; 5; 6] = Ok c' /\ cb_contents c' = [1; 2; 3; 4; 5; 6].
Proof.
  intros c.
  assert (Hwf : bufs_wf (buffers c)) by (split; [repeat constructor; simpl; lia|simpl; auto]).
  destruct (proj1 (contiguous_buffers_contract c [4; 5; 6] Hwf)) as (c' & Hw & _ & _ & Hcon).
  exists c'. split; [exact Hw|exact Hcon].
Defined.

(** * Split senders

    Model of [util/send]: the trait [TrySender] with its implementations for channels, and
    [SplitSender], which divides the capacity of a channel by counting messages sent and not
    acknowledged in a counter that its clones share. [try_send] of several threads
    interleaves between the operations on the counter and on the channel. *)

(** A hang up panics; [Some] hands the message back. *)
Class TrySender (S T : Type) : Type := { try_send : T -> S -> res unit (option T * S) }.

Record Sender (T : Type) : Type := mkSender { sd_queue : list T; sd_hung_up : bool }.
Arguments mkSender {T} sd_queue sd_hung_up.
Arguments sd_queue {T} s.
Arguments sd_hung_up {T} s.

#[export] Instance Sender_try_sender (T : Type) : TrySender (Sender T) T := {|
  try_send data s := if sd_hung_up s then Panic else Ok (None, mkSender (sd_queue s ++ [data]) false)
|}.

(** A bounded channel; without a bound a message is taken only by a waiting receiver, which
    this channel does not have. *)
Record SyncSender (T : Type) : Type := mkSyncSender { sy_bound : nat; sy_queue : list T; sy_hung_up : bool }.
Arguments mkSyncSender {T} sy_bound sy_queue sy_hung_up.
Arguments sy_bound {T} s.
Arguments sy_queue {T} s.
Arguments sy_hung_up {T} s.

#[export] Instance SyncSender_try_sender (T : Type) : TrySender (SyncSender T) T := {|
  try_send data s :=
    if sy_hung_up s then Panic
    else if (length (sy_queue s) <? sy_bound s)%nat then Ok (None, mkSyncSender (sy_bound s) (sy_queue s ++ [data]) false)
    else Ok (Some data, s)
|}.

Section SplitSender.
Context {S T : Type} `{TrySender S T}.

Record SplitSender : Type := mkSplit { sp_send : S; sp_count : Z; sp_capacity : Z }.
Definition SplitSender_new (send : S) (capacity : Z) : SplitSender := mkSplit send 0 capacity.
Definition split_sender (send : S) (cap_one cap_two : Z) : SplitSender * SplitSender := (SplitSender_new send cap_one, SplitSender_new send cap_two).

(** [fetch_add(1)] and [fetch_sub(1)]. *)
Definition count_add (s : SplitSender) : SplitSender := mkSplit (sp_send s) (wrap 64 (sp_count s + 1)) (sp_capacity s).
Definition count_sub (s : SplitSender) : SplitSender := mkSplit (sp_send s) (wrap 64 (sp_count s - 1)) (sp_capacity s).

Definition try_count_increment (s : SplitSender) : bool * SplitSender :=
  let our_count := sp_count s in
  let s := count_add s in
  if our_count <? sp_capacity s then (true, s) else (false, count_sub s).

(** [try_send] of one thread at a time. *)
Definition SplitSender_try_send (data : T) (s : SplitSender) : res unit (option T * SplitSender) :=
  let '(should_send, s) := try_count_increment s in
  if should_send then
    let? r := try_send data (sp_send s) in Ok (fst r, mkSplit (snd r) (sp_count s) (sp_capacity s))
  else Ok (Some data, s).

Definition SplitSenderAck_ack (s : SplitSender) : SplitSender := count_sub s.

(** A thread in [try_send]: it has added to the counter, or was granted the message. *)
Inductive sender_pc : Type := Idle | Added (our_count : Z) (data : T) | GrantedSend (data : T).

(** A step of a thread, with the result of [try_send] at its last one. *)
Definition sender_step (data : T) (pc : sender_pc) (s : SplitSender) : res unit (option (option T) * sender_pc * SplitSender) :=
  match pc with
  | Idle => Ok (None, Added (sp_count s) data, count_add s)
  | Added our_count data =>
      if our_count <? sp_capacity s then Ok (None, GrantedSend data, s) else Ok (Some (Some data), Idle, count_sub s)
  | GrantedSend data => let? r := try_send data (sp_send s) in Ok (Some (fst r), Idle, mkSplit (snd r) (sp_count s) (sp_capacity s))
  end.

(** Several threads, the messages sent and not acknowledged, and those the channel refused. *)
Record split_world : Type := mkSplitWorld { sw_sender : SplitSender; sw_threads : list sender_pc; sw_sent : Z; sw_refused : Z }.

Inductive split_event : Type := SendStep (thread : nat) (data : T) | AckStep.

Definition is_granted (pc : sender_pc) : bool := match pc with GrantedSend _ => true | _ => false end.

(** What an event leads to; a message is acknowledged after it was sent. *)
Definition split_exec (ev : split_event) (w : split_world) : option split_world :=
  match ev with
  | AckStep => if 0 <? sw_sent w then Some (mkSplitWorld (SplitSenderAck_ack (sw_sender w)) (sw_threads w) (sw_sent w - 1) (sw_refused w)) else None
  | SendStep i data =>
      match sw_threads w !! i with
      | None => None
      | Some pc =>
          match sender_step data pc (sw_sender w) with
          | Ok (result, pc', s) =>
              let sent := match result with Some None => 1 | _ => 0 end in
              let refused := match result with Some (Some _) => if is_granted pc then 1 else 0 | _ => 0 end in
              Some (mkSplitWorld s (<[i := pc']> (sw_threads w)) (sw_sent w + sent) (sw_refused w + refused))
          | _ => None
          end
      end
  end.

Fixpoint split_run (evs : list split_event) (w : split_world) : option split_world :=
  match evs with
  | [] => Some w
  | ev :: evs => match split_exec ev w with Some w => split_run evs w | None => None end
  end.

Definition split_start (send : S) (capacity : Z) (threads : nat) : split_world := mkSplitWorld (SplitSender_new send capacity) (replicate threads Idle) 0 0.

(** Running the steps of one thread without interruption is [try_send]. *)
Lemma try_send_steps data s r s' : SplitSender_try_send data s = Ok (r, s') ->
  exists pc1 s1, sender_step data Idle s = Ok (None, pc1, s1) /\
    (sender_step data pc1 s1 = Ok (Some r, Idle, s') \/
     exists pc2 s2, sender_step data pc1 s1 = Ok (None, pc2, s2) /\ sender_step data pc2 s2 = Ok (Some r, Idle, s')).
Proof.
  unfold SplitSender_try_send, try_count_increment. intros E. eexists _, _. split; [reflexivity|]. cbn [sender_step]. cbn [sp_capacity count_add] in *.
  destruct (sp_count s <? sp_capacity s); [right|left; by injection E as <- <-]. eexists _, _. split; [reflexivity|]. cbn [sender_step]. destruct (try_send _ _) as [[]| | |]; try done. by injection E as <- <-.
Qed.

(** ** The counter *)

Definition busy (pc : sender_pc) : nat := match pc with Idle => 0 | _ => 1 end.
Definition holds (capacity : Z) (pc : sender_pc) : nat :=
  match pc with Idle => 0 | Added our_count _ => if our_count <? capacity then 1 else 0 | GrantedSend _ => 1 end.

Lemma pc_sum_insert (f : sender_pc -> nat) l : forall i x y, l !! i = Some x -> (sum_list_with f (<[i := y]> l) + f x = sum_list_with f l + f y)%nat.
Proof.
  induction l as [|z l IH]; intros i x y Hx; [done|]. destruct i as [|i]; [cbn in Hx; injection Hx as ->; cbn; lia|].
  change (<[Datatypes.S i := y]> (z :: l)) with (z :: <[i := y]> l). specialize (IH i x y Hx). cbn [sum_list_with]. unfold sum_list_with in *. cbn. lia.
Qed.

Lemma holds_le_busy capacity l : (sum_list_with (holds capacity) l <= sum_list_with busy l)%nat.
Proof. induction l as [|[|c d|d] l IH]; cbn; [lia..| |lia]. case_match; lia. Qed.
Lemma busy_le l : (sum_list_with busy l <= length l)%nat.
Proof. induction l as [|[|c d|d] l IH]; cbn; lia. Qed.

Record split_inv (capacity : Z) (threads : nat) (w : split_world) : Prop := {
  si_capacity : sp_capacity (sw_sender w) = capacity;
  si_threads : length (sw_threads w) = threads;
  si_count : sp_count (sw_sender w) = sw_sent w + sw_refused w + Z.of_nat (sum_list_with busy (sw_threads w));
  si_bound : sw_sent w + sw_refused w + Z.of_nat (sum_list_with (holds capacity) (sw_threads w)) <= capacity;
  si_sent : 0 <= sw_sent w; si_refused : 0 <= sw_refused w
}.

Lemma split_exec_inv capacity threads ev w w' : capacity + Z.of_nat threads < 2 ^ 64 -> split_inv capacity threads w -> split_exec ev w = Some w' -> split_inv capacity threads w'.
Proof.
  intros Hsmall [Hcap Hth Hc Hb Hs Hr] E. destruct w as [s l sent refused]. cbn [sw_sender sw_threads sw_sent sw_refused] in *.
  pose proof (busy_le l) as Hbusy. pose proof (holds_le_busy capacity l) as Hhold.
  assert (Hwrap : forall n, 0 <= n < 2 ^ 64 -> wrap 64 n = n) by (intros n Hn; unfold wrap; by apply Z.mod_small).
  destruct ev as [i data|]; cbn [split_exec sw_sender sw_threads sw_sent sw_refused] in E.
  2:{ destruct (Z.ltb_spec 0 sent); [|done]. injection E as <-. split; cbn; [done|done|rewrite Hwrap; lia|lia..]. }
  destruct (l !! i) as [pc|] eqn:Ei; [|done]. pose proof (fun y => pc_sum_insert busy l i pc y Ei) as Hsb. pose proof (fun y => pc_sum_insert (holds capacity) l i pc y Ei) as Hsh.
  destruct pc as [|our d|d]; cbn [sender_step is_granted] in E.
  - injection E as <-. specialize (Hsb (Added (sp_count s) data)). specialize (Hsh (Added (sp_count s) data)). cbn [busy holds] in Hsb, Hsh.
    split; cbn [sw_sender sw_threads sw_sent sw_refused count_add sp_capacity sp_count]; [done|by rewrite length_insert| |destruct (Z.ltb_spec (sp_count s) capacity); lia|lia|lia].
    assert (Hlt : (sum_list_with busy l < length l)%nat).
    { pose proof (busy_le (<[i := Added (sp_count s) data]> l)) as Hx. rewrite length_insert in Hx. lia. }
    rewrite Hwrap; lia.
  - rewrite Hcap in E. specialize (Hsb (if our <? capacity then GrantedSend d else Idle)). specialize (Hsh (if our <? capacity then GrantedSend d else Idle)). cbn [busy holds] in Hsb, Hsh.
    destruct (our <? capacity) eqn:Eo; injection E as <-; cbn [busy holds] in Hsb, Hsh; (split; cbn [sw_sender sw_threads sw_sent sw_refused count_sub sp_capacity sp_count];
      [done|by rewrite length_insert|rewrite ?Hwrap; lia|lia|lia|lia]).
  - destruct (try_send d (sp_send s)) as [[r send]| | |]; try done. cbn [res_bind fst snd] in E. injection E as <-. specialize (Hsb Idle). specialize (Hsh Idle). cbn [busy holds] in Hsb, Hsh.
    split; cbn [sw_sender sw_threads sw_sent sw_refused sp_capacity sp_count]; [done|by rewrite length_insert|destruct r; lia|destruct r; lia..].
Qed.

(** C40: In every interleaving of threads that send through clones of a split sender and of
    acknowledgements of sent messages, the messages sent and not acknowledged are never
    more than its capacity. The counter is the number of these, of messages the channel
    refused (which are never given back) and of threads inside a call. *)
Theorem split_sender_keeps_capacity (send : S) (capacity : Z) (threads : nat) (evs : list split_event) (w : split_world) :
  0 <= capacity -> capacity + Z.of_nat threads < 2 ^ 64 -> split_run evs (split_start send capacity threads) = Some w ->
  0 <= sw_sent w /\ sw_sent w + sw_refused w <= capacity /\
  sp_count (sw_sender w) = sw_sent w + sw_refused w + Z.of_nat (sum_list_with busy (sw_threads w)).
Proof.
  intros Hcap Hsmall Hrun. assert (Hinv : split_inv capacity threads w).
  { assert (H0 : split_inv capacity threads (split_start send capacity threads)).
    { assert (Hz : forall f n, f Idle = 0%nat -> sum_list_with f (replicate n Idle) = 0%nat) by (intros f n Hf; induction n; cbn; lia).
      split; cbn; [done|by rewrite length_replicate|by rewrite Hz|rewrite Hz by done; lia|lia|lia]. }
    revert H0 Hrun. generalize (split_start send capacity threads). induction evs as [|ev evs IH]; intros w0 H0 Hrun; cbn [split_run] in Hrun; [by injection Hrun as <-|].
    destruct (split_exec ev w0) eqn:E; [|done]. eapply IH; [|done]. by eapply split_exec_inv. }
  destruct Hinv as [_ _ Hc Hb Hs Hr]. split; [done|]. split; [lia|done].
Qed.
End SplitSender.

Arguments SplitSender S : clear implicits.
Arguments split_world S T : clear implicits.
Arguments split_event T : clear implicits.

(** Two threads race for a capacity of one: both add, the second is refused. *)
Lemma split_sender_keeps_capacity_witness :
  exists w, split_run [SendStep 0 7; SendStep 1 8; SendStep 1 8; SendStep 0 7; SendStep 0 7] (split_start (mkSender [] false) 1 2) = Some w /\
    sw_sent w = 1 /\ sp_count (sw_sender w) = 1 /\ sw_sent w + sw_refused w <= 1.
Proof.
  eexists. split; [reflexivity|]. split; [reflexivity|]. split; [reflexivity|].
  eapply (split_sender_keeps_capacity (mkSender [] false) 1 2 [SendStep 0 7; SendStep 1 8; SendStep 1 8; SendStep 0 7; SendStep 0 7]); [lia|lia|reflexivity].
Defined.

(** A message refused by a full channel keeps its place for ever. *)
Example refused_message_keeps_place :
  option_map (fun w => (sw_sent w, sw_refused w, sp_count (sw_sender w)))
    (split_run [SendStep 0 7; SendStep 0 7; SendStep 0 7] (split_start (mkSyncSender 0 [] false) 1 1)) = Some (0, 1, 1).
Proof. reflexivity. Qed.
