(* ===== verification/DhtMessage.v ===== *)
(** * Messages of the DHT

    Model of [dht/bencode/convert.rs], [dht/error.rs] and [dht/message]: queries,
    responses and errors as bencode dictionaries, their parsing with every error, and
    their encoding. The trait [BencodeConvert] is a type class over the validators;
    its default methods are functions of the class. Text is its UTF-8 bytes. Errors
    of the DHT are [DhtErrorKind]; its [Io] link is never produced here. *)

From S2P Require Import Prelude RustStd BTree Bencode UtilSha UtilConvert DhtBencode DhtCompact.

(** ** Conversions of bencode values *)

Inductive BencodeConvertError : Type :=
| MissingKey (key : list Z)
| WrongType (key : list Z) (expected_type : list Z).

(** [{:?}] of a byte slice. *)
Fixpoint debug_items (b : list Z) : list Z :=
  match b with
  | [] => []
  | [x] => usize_to_string x
  | x :: b => usize_to_string x ++ bs ", " ++ debug_items b
  end.
Definition debug_bytes (b : list Z) : list Z := bs "[" ++ debug_items b ++ bs "]".

(** The trait: a validator of type [V] turns conversion errors into [E]. *)
Class BencodeConvert (V E : Type) : Type := handle_error : V -> BencodeConvertError -> E.

Section Convert.
Context {V E : Type} `{BencodeConvert V E}.

Definition convert_int (self : V) (bencode : DBencode) (error_key : list Z) : res E Z :=
  ok_or (ben_int bencode) (handle_error self (WrongType error_key (bs "Integer"))).

Definition convert_bytes (self : V) (bencode : DBencode) (error_key : list Z) : res E (list Z) :=
  ok_or (ben_bytes bencode) (handle_error self (WrongType error_key (bs "Bytes"))).

Definition convert_str (self : V) (bencode : DBencode) (error_key : list Z) : res E (list Z) :=
  ok_or (ben_str bencode) (handle_error self (WrongType error_key (bs "UTF-8 Bytes"))).

Definition convert_list (self : V) (bencode : DBencode) (error_key : list Z) : res E (list DBencode) :=
  ok_or (ben_list bencode) (handle_error self (WrongType error_key (bs "List"))).

Definition convert_dict (self : V) (bencode : DBencode) (error_key : list Z)
    : res E (list (list Z * DBencode)) :=
  ok_or (ben_dict bencode) (handle_error self (WrongType error_key (bs "Dictionary"))).

Definition lookup_key (self : V) (dictionary : list (list Z * DBencode)) (key : list Z) : res E DBencode :=
  match bt_lookup key dictionary with
  | Some n => Ok n
  | None => Err (handle_error self (MissingKey key))
  end.

Definition lookup_and_convert_int (self : V) (dictionary : list (list Z * DBencode)) (key : list Z)
    : res E Z :=
  let? n := lookup_key self dictionary key in convert_int self n key.

Definition lookup_and_convert_bytes (self : V) (dictionary : list (list Z * DBencode)) (key : list Z)
    : res E (list Z) :=
  let? n := lookup_key self dictionary key in convert_bytes self n key.

Definition lookup_and_convert_str (self : V) (dictionary : list (list Z * DBencode)) (key : list Z)
    : res E (list Z) :=
  let? n := lookup_key self dictionary key in convert_str self n key.

Definition lookup_and_convert_list (self : V) (dictionary : list (list Z * DBencode)) (key : list Z)
    : res E (list DBencode) :=
  let? n := lookup_key self dictionary key in convert_list self n key.

Definition lookup_and_convert_dict (self : V) (dictionary : list (list Z * DBencode)) (key : list Z)
    : res E (list (list Z * DBencode)) :=
  let? n := lookup_key self dictionary key in convert_dict self n key.
End Convert.

(** ** Keys *)

Definition TRANSACTION_ID_KEY : list Z := bs "t".
Definition MESSAGE_TYPE_KEY : list Z := bs "y".
Definition REQUEST_TYPE_KEY : list Z := bs "q".
Definition RESPONSE_TYPE_KEY : list Z := bs "r".
Definition ERROR_TYPE_KEY : list Z := bs "e".
Definition ROOT_ID_KEY : list Z := bs "root".
Definition NODE_ID_KEY : list Z := bs "id".
Definition NODES_KEY : list Z := bs "nodes".
Definition VALUES_KEY : list Z := bs "values".
Definition TARGET_ID_KEY : list Z := bs "target".
Definition INFO_HASH_KEY : list Z := bs "info_hash".
Definition TOKEN_KEY : list Z := bs "token".
Definition REQUEST_ARGS_KEY : list Z := bs "a".
Definition RESPONSE_ARGS_KEY : list Z := bs "r".
Definition PING_TYPE_KEY : list Z := bs "ping".
Definition FIND_NODE_TYPE_KEY : list Z := bs "find_node".
Definition GET_PEERS_TYPE_KEY : list Z := bs "get_peers".
Definition ANNOUNCE_PEER_TYPE_KEY : list Z := bs "announce_peer".
Definition PORT_KEY : list Z := bs "port".
Definition IMPLIED_PORT_KEY : list Z := bs "implied_port".
Definition ERROR_ARGS_KEY : list Z := bs "e".
Definition NUM_ERROR_ARGS : nat := 2.

(** The [bt_ben_map!] and [dht_ben_map!] macros: insertions in the order given. *)
Definition ben_map (entries : list (list Z * DBencode)) : DBencode :=
  MDict (foldl (fun m kv => bt_insert (fst kv) (snd kv) m) [] entries).

(** ** Errors *)

Inductive ErrorCode : Type := GenericError | ServerError | ProtocolError | MethodUnknown.

Definition GENERIC_ERROR_CODE : Z := 201.
Definition SERVER_ERROR_CODE : Z := 202.
Definition PROTOCOL_ERROR_CODE : Z := 203.
Definition METHOD_UNKNOWN_CODE : Z := 204.

Record ErrorMessage : Type := ErrorMessage_new {
  em_trans_id : list Z;
  em_code : ErrorCode;
  em_message : list Z
}.

(** [DhtErrorKind], with the foreign link to [BencodeConvertError]. *)
Inductive DhtErrorKind : Type :=
| DhtBencodeError (e : BencodeConvertError)
| InvalidMessage (code : list Z)
| InvalidResponse (details : list Z)
| UnsolicitedResponse
| InvalidRequest (msg : ErrorMessage).

Abbreviation DhtResult := (res DhtErrorKind) (only parsing).

Definition ErrorCode_new (code : Z) : DhtResult ErrorCode :=
  if code =? GENERIC_ERROR_CODE then Ok GenericError
  else if code =? SERVER_ERROR_CODE then Ok ServerError
  else if code =? PROTOCOL_ERROR_CODE then Ok ProtocolError
  else if code =? METHOD_UNKNOWN_CODE then Ok MethodUnknown
  else Err (InvalidResponse (bs "Error Message Invalid Error Code " ++ usize_to_string code)).

Definition ErrorCode_into (c : ErrorCode) : Z :=
  match c with
  | GenericError => GENERIC_ERROR_CODE
  | ServerError => SERVER_ERROR_CODE
  | ProtocolError => PROTOCOL_ERROR_CODE
  | MethodUnknown => METHOD_UNKNOWN_CODE
  end.

Inductive ErrorValidate : Type := mkErrorValidate.
#[export] Instance ErrorValidate_convert : BencodeConvert ErrorValidate DhtErrorKind :=
  fun _ error => DhtBencodeError error.

Definition extract_error_args (args : list DBencode) : DhtResult (Z * list Z) :=
  if negb (length args =? NUM_ERROR_ARGS)%nat
  then Err (InvalidResponse (bs "Error Message Invalid Number Of Error Args: "
              ++ usize_to_string (Z.of_nat (length args))))
  else
    let? arg0 := or_panic (args !! 0%nat) in
    let? code := convert_int mkErrorValidate arg0 (ERROR_ARGS_KEY ++ bs "[0]") in
    let? arg1 := or_panic (args !! 1%nat) in
    let? message := convert_str mkErrorValidate arg1 (ERROR_ARGS_KEY ++ bs "[1]") in
    Ok (as_u8 code, message).

Definition ErrorMessage_from_parts (root : list (list Z * DBencode)) (trans_id : list Z)
    : DhtResult ErrorMessage :=
  let validate := mkErrorValidate in
  let? error_args := lookup_and_convert_list validate root ERROR_ARGS_KEY in
  let? (code, message) := extract_error_args error_args in
  let? error_code := ErrorCode_new code in
  Ok (ErrorMessage_new trans_id error_code message).

Definition ErrorMessage_encode (self : ErrorMessage) : list Z :=
  let error_code := ErrorCode_into (em_code self) in
  dht_encode (ben_map [
    (TRANSACTION_ID_KEY, MBytes (em_trans_id self));
    (MESSAGE_TYPE_KEY, MBytes ERROR_TYPE_KEY);
    (ERROR_TYPE_KEY, MList [MInt error_code; MBytes (em_message self)])]).

(** ** Validators of requests and responses *)

Record RequestValidate : Type := RequestValidate_new { rqv_trans_id : list Z }.
#[export] Instance RequestValidate_convert : BencodeConvert RequestValidate DhtErrorKind :=
  fun _ error => DhtBencodeError error.

Definition rq_validate_node_id (self : RequestValidate) (node_id : list Z) : DhtResult ShaHash :=
  map_err (ShaHash_from_hash node_id) (fun _ =>
    InvalidRequest (ErrorMessage_new (rqv_trans_id self) ProtocolError
      (bs "Node ID With Length " ++ usize_to_string (Z.of_nat (length node_id)) ++ bs " Is Not Valid"))).

Definition rq_validate_info_hash (self : RequestValidate) (info_hash : list Z) : DhtResult ShaHash :=
  map_err (ShaHash_from_hash info_hash) (fun _ =>
    InvalidRequest (ErrorMessage_new (rqv_trans_id self) ProtocolError
      (bs "InfoHash With Length " ++ usize_to_string (Z.of_nat (length info_hash)) ++ bs " Is Not Valid"))).

Record ResponseValidate : Type := ResponseValidate_new { rsv_trans_id : list Z }.
#[export] Instance ResponseValidate_convert : BencodeConvert ResponseValidate DhtErrorKind :=
  fun _ error => DhtBencodeError error.

Definition rs_validate_node_id (self : ResponseValidate) (node_id : list Z) : DhtResult ShaHash :=
  map_err (ShaHash_from_hash node_id) (fun _ =>
    InvalidResponse (bs "TID " ++ debug_bytes (rsv_trans_id self) ++
      bs " Found Node ID With Invalid Length " ++ usize_to_string (Z.of_nat (length node_id)))).

Definition rs_validate_nodes (self : ResponseValidate) (nodes : list Z) : DhtResult CompactNodeInfo :=
  map_err (CompactNodeInfo_new nodes) (fun _ =>
    InvalidResponse (bs "TID " ++ debug_bytes (rsv_trans_id self) ++
      bs " Found Nodes Structure With " ++ usize_to_string (Z.of_nat (length nodes)) ++
      bs " Number Of Bytes Instead Of Correct Multiple")).

(** The loop that refuses values that are not byte strings. *)
Fixpoint check_values_bytes (self : ResponseValidate) (values : list DBencode) : DhtResult unit :=
  match values with
  | [] => Ok tt
  | bencode :: values =>
      match ben_bytes bencode with
      | Some _ => check_values_bytes self values
      | None => Err (InvalidResponse (bs "TID " ++ debug_bytes (rsv_trans_id self) ++
                       bs " Found Values Structure As Non Bytes Type"))
      end
  end.

Definition rs_validate_values (self : ResponseValidate) (values : list DBencode) : DhtResult CompactValueInfo :=
  let? _ := check_values_bytes self values in
  map_err (CompactValueInfo_new values) (fun _ =>
    InvalidResponse (bs "TID " ++ debug_bytes (rsv_trans_id self) ++
      bs " Found Values Structrue With Wrong Number Of Bytes")).

(** ** Ping *)

Record PingRequest : Type := PingRequest_new { prq_trans_id : list Z; prq_node_id : ShaHash }.

Definition PingRequest_from_parts (rqst_root : list (list Z * DBencode)) (trans_id : list Z)
    : DhtResult PingRequest :=
  let validate := RequestValidate_new trans_id in
  let? node_id_bytes := lookup_and_convert_bytes validate rqst_root NODE_ID_KEY in
  let? node_id := rq_validate_node_id validate node_id_bytes in
  Ok (PingRequest_new trans_id node_id).

Definition PingRequest_encode (self : PingRequest) : list Z :=
  BencodeMut_encode (ben_map [
    (TRANSACTION_ID_KEY, MBytes (prq_trans_id self));
    (MESSAGE_TYPE_KEY, MBytes REQUEST_TYPE_KEY);
    (REQUEST_TYPE_KEY, MBytes PING_TYPE_KEY);
    (REQUEST_ARGS_KEY, ben_map [(NODE_ID_KEY, MBytes (sha_bytes (prq_node_id self)))])]).

Record PingResponse : Type := PingResponse_new { prs_trans_id : list Z; prs_node_id : ShaHash }.

Definition PingResponse_from_parts (rsp_root : list (list Z * DBencode)) (trans_id : list Z)
    : DhtResult PingResponse :=
  let? request := PingRequest_from_parts rsp_root trans_id in
  Ok (PingResponse_new (prq_trans_id request) (prq_node_id request)).

Definition PingResponse_encode (self : PingResponse) : list Z :=
  BencodeMut_encode (ben_map [
    (TRANSACTION_ID_KEY, MBytes (prs_trans_id self));
    (MESSAGE_TYPE_KEY, MBytes RESPONSE_TYPE_KEY);
    (RESPONSE_TYPE_KEY, ben_map [(NODE_ID_KEY, MBytes (sha_bytes (prs_node_id self)))])]).

(** ** Find node *)

Record FindNodeRequest : Type := FindNodeRequest_new {
  frq_trans_id : list Z; frq_node_id : ShaHash; frq_target_id : ShaHash }.

Definition FindNodeRequest_from_parts (rqst_root : list (list Z * DBencode)) (trans_id target_key : list Z)
    : DhtResult FindNodeRequest :=
  let validate := RequestValidate_new trans_id in
  let? node_id_bytes := lookup_and_convert_bytes validate rqst_root NODE_ID_KEY in
  let? node_id := rq_validate_node_id validate node_id_bytes in
  let? target_id_bytes := lookup_and_convert_bytes validate rqst_root target_key in
  let? target_id := rq_validate_node_id validate target_id_bytes in
  Ok (FindNodeRequest_new trans_id node_id target_id).

Definition FindNodeRequest_encode (self : FindNodeRequest) : list Z :=
  BencodeMut_encode (ben_map [
    (TRANSACTION_ID_KEY, MBytes (frq_trans_id self));
    (MESSAGE_TYPE_KEY, MBytes REQUEST_TYPE_KEY);
    (REQUEST_TYPE_KEY, MBytes FIND_NODE_TYPE_KEY);
    (REQUEST_ARGS_KEY, ben_map [
      (NODE_ID_KEY, MBytes (sha_bytes (frq_node_id self)));
      (TARGET_ID_KEY, MBytes (sha_bytes (frq_target_id self)))])]).

Record FindNodeResponse : Type := mkFindNodeResponse {
  frs_trans_id : list Z; frs_node_id : ShaHash; frs_nodes : CompactNodeInfo }.

Definition FindNodeResponse_new (trans_id : list Z) (node_id : ShaHash) (nodes : list Z)
    : DhtResult FindNodeResponse :=
  let validate := ResponseValidate_new trans_id in
  let? compact_nodes := rs_validate_nodes validate nodes in
  Ok (mkFindNodeResponse trans_id node_id compact_nodes).

Definition FindNodeResponse_from_parts (rsp_root : list (list Z * DBencode)) (trans_id : list Z)
    : DhtResult FindNodeResponse :=
  let validate := ResponseValidate_new trans_id in
  let? node_id_bytes := lookup_and_convert_bytes validate rsp_root NODE_ID_KEY in
  let? node_id := rs_validate_node_id validate node_id_bytes in
  let? nodes := lookup_and_convert_bytes validate rsp_root NODES_KEY in
  FindNodeResponse_new trans_id node_id nodes.

Definition FindNodeResponse_encode (self : FindNodeResponse) : list Z :=
  BencodeMut_encode (ben_map [
    (TRANSACTION_ID_KEY, MBytes (frs_trans_id self));
    (MESSAGE_TYPE_KEY, MBytes RESPONSE_TYPE_KEY);
    (RESPONSE_TYPE_KEY, ben_map [
      (NODE_ID_KEY, MBytes (sha_bytes (frs_node_id self)));
      (NODES_KEY, MBytes (cni_nodes (frs_nodes self)))])]).

(** ** Get peers *)

Record GetPeersRequest : Type := GetPeersRequest_new {
  grq_trans_id : list Z; grq_node_id : ShaHash; grq_info_hash : ShaHash }.

Definition GetPeersRequest_from_parts (rqst_root : list (list Z * DBencode)) (trans_id : list Z)
    : DhtResult GetPeersRequest :=
  let validate := RequestValidate_new trans_id in
  let? node_id_bytes := lookup_and_convert_bytes validate rqst_root NODE_ID_KEY in
  let? node_id := rq_validate_node_id validate node_id_bytes in
  let? info_hash_bytes := lookup_and_convert_bytes validate rqst_root INFO_HASH_KEY in
  let? info_hash := rq_validate_info_hash validate info_hash_bytes in
  Ok (GetPeersRequest_new trans_id node_id info_hash).

Definition GetPeersRequest_encode (self : GetPeersRequest) : list Z :=
  BencodeMut_encode (ben_map [
    (TRANSACTION_ID_KEY, MBytes (grq_trans_id self));
    (MESSAGE_TYPE_KEY, MBytes REQUEST_TYPE_KEY);
    (REQUEST_TYPE_KEY, MBytes GET_PEERS_TYPE_KEY);
    (REQUEST_ARGS_KEY, ben_map [
      (NODE_ID_KEY, MBytes (sha_bytes (grq_node_id self)));
      (INFO_HASH_KEY, MBytes (sha_bytes (grq_info_hash self)))])]).

Inductive CompactInfoType : Type :=
| Nodes (nodes : CompactNodeInfo)
| Values (values : CompactValueInfo)
| Both (nodes : CompactNodeInfo) (values : CompactValueInfo).

Record GetPeersResponse : Type := GetPeersResponse_new {
  grs_trans_id : list Z;
  grs_node_id : ShaHash;
  grs_token : option (list Z);
  grs_info_type : CompactInfoType
}.

(** [Result::ok]. *)
Definition res_ok {E A} (m : res E A) : option A := match m with Ok a => Some a | _ => None end.

Definition GetPeersResponse_from_parts (rsp_root : list (list Z * DBencode)) (trans_id : list Z)
    : DhtResult GetPeersResponse :=
  let validate := ResponseValidate_new trans_id in
  let? node_id_bytes := lookup_and_convert_bytes validate rsp_root NODE_ID_KEY in
  let? node_id := rs_validate_node_id validate node_id_bytes in
  let token := res_ok (lookup_and_convert_bytes validate rsp_root TOKEN_KEY) in
  let maybe_nodes := lookup_and_convert_bytes validate rsp_root NODES_KEY in
  let maybe_values := lookup_and_convert_list validate rsp_root VALUES_KEY in
  let? info_type :=
    match res_ok maybe_nodes, res_ok maybe_values with
    | Some nodes, Some values =>
        let? nodes_info := rs_validate_nodes validate nodes in
        let? values_info := rs_validate_values validate values in
        Ok (Both nodes_info values_info)
    | Some nodes, None =>
        let? nodes_info := rs_validate_nodes validate nodes in
        Ok (Nodes nodes_info)
    | None, Some values =>
        let? values_info := rs_validate_values validate values in
        Ok (Values values_info)
    | None, None => Err (InvalidResponse (bs "Failed To Find nodes Or values In Node Response"))
    end in
  Ok (GetPeersResponse_new trans_id node_id token info_type).

Definition GetPeersResponse_encode (self : GetPeersResponse) : list Z :=
  let response_args := [] in
  let response_args := bt_insert NODE_ID_KEY (MBytes (sha_bytes (grs_node_id self))) response_args in
  let response_args :=
    match grs_token self with
    | Some token => bt_insert TOKEN_KEY (MBytes token) response_args
    | None => response_args
    end in
  let response_args :=
    match grs_info_type self with
    | Nodes nodes => bt_insert NODES_KEY (MBytes (cni_nodes nodes)) response_args
    | Values values => bt_insert VALUES_KEY (MList (cvi_values values)) response_args
    | Both nodes values =>
        let response_args := bt_insert NODES_KEY (MBytes (cni_nodes nodes)) response_args in
        bt_insert VALUES_KEY (MList (cvi_values values)) response_args
    end in
  dht_encode (ben_map [
    (TRANSACTION_ID_KEY, MBytes (grs_trans_id self));
    (MESSAGE_TYPE_KEY, MBytes RESPONSE_TYPE_KEY);
    (REQUEST_TYPE_KEY, MBytes GET_PEERS_TYPE_KEY);
    (RESPONSE_ARGS_KEY, MDict response_args)]).

(** ** Announce peer *)

Inductive ConnectPort : Type := Implied | Explicit (port : Z).

Record AnnouncePeerRequest : Type := AnnouncePeerRequest_new {
  arq_trans_id : list Z;
  arq_node_id : ShaHash;
  arq_info_hash : ShaHash;
  arq_token : list Z;
  arq_port : ConnectPort
}.

Definition AnnouncePeerRequest_from_parts (rqst_root : list (list Z * DBencode)) (trans_id : list Z)
    : DhtResult AnnouncePeerRequest :=
  let validate := RequestValidate_new trans_id in
  let? node_id_bytes := lookup_and_convert_bytes validate rqst_root NODE_ID_KEY in
  let? node_id := rq_validate_node_id validate node_id_bytes in
  let? info_hash_bytes := lookup_and_convert_bytes validate rqst_root INFO_HASH_KEY in
  let? info_hash := rq_validate_info_hash validate info_hash_bytes in
  let? token := lookup_and_convert_bytes validate rqst_root TOKEN_KEY in
  let port := lookup_and_convert_int validate rqst_root PORT_KEY in
  let explicit :=
    let? port_number := port in
    Ok (Explicit (as_u16 port_number)) in
  let? response_port :=
    match option_map ben_int (bt_lookup IMPLIED_PORT_KEY rqst_root) with
    | Some (Some n) => if negb (n =? 0) then Ok Implied else explicit
    | _ => explicit
    end in
  Ok (AnnouncePeerRequest_new trans_id node_id info_hash token response_port).

Definition AnnouncePeerRequest_encode (self : AnnouncePeerRequest) : list Z :=
  let '(displayed_port, implied_value) :=
    match arq_port self with
    | Implied => (0, 1)
    | Explicit n => (n, 0)
    end in
  BencodeMut_encode (ben_map [
    (TRANSACTION_ID_KEY, MBytes (arq_trans_id self));
    (MESSAGE_TYPE_KEY, MBytes REQUEST_TYPE_KEY);
    (REQUEST_TYPE_KEY, MBytes ANNOUNCE_PEER_TYPE_KEY);
    (REQUEST_ARGS_KEY, ben_map [
      (NODE_ID_KEY, MBytes (sha_bytes (arq_node_id self)));
      (IMPLIED_PORT_KEY, MInt implied_value);
      (INFO_HASH_KEY, MBytes (sha_bytes (arq_info_hash self)));
      (PORT_KEY, MInt displayed_port);
      (TOKEN_KEY, MBytes (arq_token self))])]).

Record AnnouncePeerResponse : Type := AnnouncePeerResponse_new {
  ars_trans_id : list Z; ars_node_id : ShaHash }.

Definition AnnouncePeerResponse_from_parts (rqst_root : list (list Z * DBencode)) (trans_id : list Z)
    : DhtResult AnnouncePeerResponse :=
  let validate := RequestValidate_new trans_id in
  let? node_id_bytes := lookup_and_convert_bytes validate rqst_root NODE_ID_KEY in
  let? node_id := rq_validate_node_id validate node_id_bytes in
  Ok (AnnouncePeerResponse_new trans_id node_id).

Definition AnnouncePeerResponse_encode (self : AnnouncePeerResponse) : list Z :=
  BencodeMut_encode (ben_map [
    (TRANSACTION_ID_KEY, MBytes (ars_trans_id self));
    (MESSAGE_TYPE_KEY, MBytes RESPONSE_TYPE_KEY);
    (RESPONSE_TYPE_KEY, ben_map [(NODE_ID_KEY, MBytes (sha_bytes (ars_node_id self)))])]).

(** ** Requests *)

Inductive RequestType : Type :=
| RqPing (r : PingRequest)
| RqFindNode (r : FindNodeRequest)
| RqGetPeers (r : GetPeersRequest)
| RqAnnouncePeer (r : AnnouncePeerRequest).

Definition forward_compatible_find_node (rqst_root : list (list Z * DBencode)) : option (list Z) :=
  match bt_lookup TARGET_ID_KEY rqst_root, bt_lookup INFO_HASH_KEY rqst_root with
  | Some _, _ => Some TARGET_ID_KEY
  | _, Some _ => Some INFO_HASH_KEY
  | None, None => None
  end.

Definition RequestType_from_parts (root : list (list Z * DBencode)) (trans_id rqst_type : list Z)
    : DhtResult RequestType :=
  let validate := RequestValidate_new trans_id in
  let? rqst_root := lookup_and_convert_dict validate root REQUEST_ARGS_KEY in
  if decide (rqst_type = PING_TYPE_KEY) then
    let? ping_rqst := PingRequest_from_parts rqst_root trans_id in
    Ok (RqPing ping_rqst)
  else if decide (rqst_type = FIND_NODE_TYPE_KEY) then
    let? find_node_rqst := FindNodeRequest_from_parts rqst_root trans_id TARGET_ID_KEY in
    Ok (RqFindNode find_node_rqst)
  else if decide (rqst_type = GET_PEERS_TYPE_KEY) then
    let? get_peers_rqst := GetPeersRequest_from_parts rqst_root trans_id in
    Ok (RqGetPeers get_peers_rqst)
  else if decide (rqst_type = ANNOUNCE_PEER_TYPE_KEY) then
    let? announce_peer_rqst := AnnouncePeerRequest_from_parts rqst_root trans_id in
    Ok (RqAnnouncePeer announce_peer_rqst)
  else
    match forward_compatible_find_node rqst_root with
    | Some target_key =>
        let? find_node_rqst := FindNodeRequest_from_parts rqst_root trans_id target_key in
        Ok (RqFindNode find_node_rqst)
    | None =>
        Err (InvalidRequest (ErrorMessage_new trans_id MethodUnknown
               (bs "Received Unknown Request Method: " ++ rqst_type)))
    end.

(** ** Responses *)

Inductive ExpectedResponse : Type :=
| ExPing | ExFindNode | ExGetPeers | ExAnnouncePeer | ExGetData | ExPutData | ExNone.

Inductive ResponseType : Type :=
| RsPing (r : PingResponse)
| RsFindNode (r : FindNodeResponse)
| RsGetPeers (r : GetPeersResponse)
| RsAnnouncePeer (r : AnnouncePeerResponse).

(** [unimplemented!()] panics. *)
Definition ResponseType_from_parts (root : list (list Z * DBencode)) (trans_id : list Z)
    (rsp_type : ExpectedResponse) : DhtResult ResponseType :=
  let validate := ResponseValidate_new trans_id in
  let? rqst_root := lookup_and_convert_dict validate root RESPONSE_ARGS_KEY in
  match rsp_type with
  | ExPing =>
      let? ping_rsp := PingResponse_from_parts rqst_root trans_id in
      Ok (RsPing ping_rsp)
  | ExFindNode =>
      let? find_node_rsp := FindNodeResponse_from_parts rqst_root trans_id in
      Ok (RsFindNode find_node_rsp)
  | ExGetPeers =>
      let? get_peers_rsp := GetPeersResponse_from_parts rqst_root trans_id in
      Ok (RsGetPeers get_peers_rsp)
  | ExAnnouncePeer =>
      let? announce_peer_rsp := AnnouncePeerResponse_from_parts rqst_root trans_id in
      Ok (RsAnnouncePeer announce_peer_rsp)
  | ExGetData => Panic
  | ExPutData => Panic
  | ExNone => Err UnsolicitedResponse
  end.

(** ** Messages *)

Inductive MessageValidate : Type := mkMessageValidate.
#[export] Instance MessageValidate_convert : BencodeConvert MessageValidate DhtErrorKind :=
  fun _ error => DhtBencodeError error.

Inductive MessageType : Type :=
| Request (r : RequestType)
| Response (r : ResponseType)
| ErrorMsg (e : ErrorMessage).

Definition MessageType_new (message : DBencode) (trans_mapper : list Z -> ExpectedResponse)
    : DhtResult MessageType :=
  let validate := mkMessageValidate in
  let? msg_root := convert_dict validate message ROOT_ID_KEY in
  let? trans_id := lookup_and_convert_bytes validate msg_root TRANSACTION_ID_KEY in
  let? msg_type := lookup_and_convert_str validate msg_root MESSAGE_TYPE_KEY in
  if decide (msg_type = REQUEST_TYPE_KEY) then
    let? rqst_type := lookup_and_convert_str validate msg_root REQUEST_TYPE_KEY in
    let? rqst_msg := RequestType_from_parts msg_root trans_id rqst_type in
    Ok (Request rqst_msg)
  else if decide (msg_type = RESPONSE_TYPE_KEY) then
    let rsp_type := trans_mapper trans_id in
    let? rsp_message := ResponseType_from_parts msg_root trans_id rsp_type in
    Ok (Response rsp_message)
  else if decide (msg_type = ERROR_TYPE_KEY) then
    let? err_message := ErrorMessage_from_parts msg_root trans_id in
    Ok (ErrorMsg err_message)
  else Err (InvalidMessage msg_type).

(** ** Example *)

(** The ping query of the protocol's documentation. *)
Example ping_query_example :
  (let? v := map_err (Bencode_decode (bs "d1:ad2:id20:abcdefghij0123456789e1:q4:ping1:t2:aa1:y1:qe"))
               (fun _ => UnsolicitedResponse) in
   MessageType_new v (fun _ => ExNone)) =
  Ok (Request (RqPing (PingRequest_new (bs "aa") (mkShaHash (bs "abcdefghij0123456789"))))).
Proof. vm_compute. reflexivity. Qed.
