(* ===== verification/DhtMessageSpec.v ===== *)
(** * Properties of DHT messages

    What one node encodes, another one parses to the same message; parsing reports
    every malformed message as an error. *)

From S2P Require Import Prelude RustStd BTree Bencode BencodeCanon UtilSha UtilConvert DhtBencode DhtBencodeSpec.
From S2P Require Import DhtCompact DhtMessage.

(** ** Messages and their encodings *)

Definition MessageType_encode (m : MessageType) : list Z :=
  match m with
  | Request (RqPing r) => PingRequest_encode r
  | Request (RqFindNode r) => FindNodeRequest_encode r
  | Request (RqGetPeers r) => GetPeersRequest_encode r
  | Request (RqAnnouncePeer r) => AnnouncePeerRequest_encode r
  | Response (RsPing r) => PingResponse_encode r
  | Response (RsFindNode r) => FindNodeResponse_encode r
  | Response (RsGetPeers r) => GetPeersResponse_encode r
  | Response (RsAnnouncePeer r) => AnnouncePeerResponse_encode r
  | ErrorMsg e => ErrorMessage_encode e
  end.

Definition message_trans_id (m : MessageType) : list Z :=
  match m with
  | Request (RqPing r) => prq_trans_id r
  | Request (RqFindNode r) => frq_trans_id r
  | Request (RqGetPeers r) => grq_trans_id r
  | Request (RqAnnouncePeer r) => arq_trans_id r
  | Response (RsPing r) => prs_trans_id r
  | Response (RsFindNode r) => frs_trans_id r
  | Response (RsGetPeers r) => grs_trans_id r
  | Response (RsAnnouncePeer r) => ars_trans_id r
  | ErrorMsg e => em_trans_id e
  end.

(** The transaction is known to expect a response of the message's kind. *)
Definition expects (trans_mapper : list Z -> ExpectedResponse) (m : MessageType) : Prop :=
  match m with
  | Response (RsPing r) => trans_mapper (prs_trans_id r) = ExPing
  | Response (RsFindNode r) => trans_mapper (frs_trans_id r) = ExFindNode
  | Response (RsGetPeers r) => trans_mapper (grs_trans_id r) = ExGetPeers
  | Response (RsAnnouncePeer r) => trans_mapper (ars_trans_id r) = ExAnnouncePeer
  | _ => True
  end.

(** Slices hold at most [isize::MAX] bytes. *)
Definition short (b : list Z) : Prop := Z.of_nat (length b) < 2 ^ 63.

(** The invariants of the constructed types: twenty-byte ids, checked compact
    information, 16-bit ports, UTF-8 text. *)
Definition nodes_ok (c : CompactNodeInfo) : Prop := (length (cni_nodes c) mod 26 = 0)%nat /\ short (cni_nodes c).
Definition values_ok (c : CompactValueInfo) : Prop :=
  Forall (fun v => exists b, v = MBytes b /\ length b = BYTES_PER_COMPACT_IP) (cvi_values c).
Definition info_type_ok (t : CompactInfoType) : Prop :=
  match t with
  | Nodes n => nodes_ok n
  | Values v => values_ok v
  | Both n v => nodes_ok n /\ values_ok v
  end.
Definition port_ok (p : ConnectPort) : Prop := match p with Implied => True | Explicit n => is_u16 n end.

Definition message_ok (m : MessageType) : Prop :=
  short (message_trans_id m) /\
  match m with
  | Request (RqPing r) => sha_ok (prq_node_id r)
  | Request (RqFindNode r) => sha_ok (frq_node_id r) /\ sha_ok (frq_target_id r)
  | Request (RqGetPeers r) => sha_ok (grq_node_id r) /\ sha_ok (grq_info_hash r)
  | Request (RqAnnouncePeer r) =>
      sha_ok (arq_node_id r) /\ sha_ok (arq_info_hash r) /\ short (arq_token r) /\ port_ok (arq_port r)
  | Response (RsPing r) => sha_ok (prs_node_id r)
  | Response (RsFindNode r) => sha_ok (frs_node_id r) /\ nodes_ok (frs_nodes r)
  | Response (RsGetPeers r) =>
      sha_ok (grs_node_id r) /\ (forall t, grs_token r = Some t -> short t) /\ info_type_ok (grs_info_type r)
  | Response (RsAnnouncePeer r) => sha_ok (ars_node_id r)
  | ErrorMsg e => utf8_valid (em_message e) = true /\ short (em_message e)
  end.

(** ** Well-formed encodings *)

Definition entries_mut_ok (m : list (list Z * BencodeMut)) : Prop :=
  bt_sorted m /\ Forall (fun kv => short (fst kv) /\ mut_ok (snd kv)) m.

Lemma entries_mut_ok_dict m : entries_mut_ok m -> mut_ok (MDict m).
Proof. intros [Hs Hf]. apply Forall_and in Hf as [Hk Hv]. by constructor. Qed.

Lemma bt_insert_mut_ok k v m : short k -> mut_ok v -> entries_mut_ok m -> entries_mut_ok (bt_insert k v m).
Proof. intros Hk Hv [Hs Hf]. split; [by apply bt_insert_sorted|]. by apply bt_insert_Forall. Qed.

Lemma entries_mut_ok_nil : entries_mut_ok [].
Proof. split; constructor. Qed.

Lemma ben_map_ok entries : Forall (fun kv => short (fst kv) /\ mut_ok (snd kv)) entries ->
  mut_ok (ben_map entries).
Proof.
  intros Hf. apply entries_mut_ok_dict. pose proof entries_mut_ok_nil as Hnil. revert Hnil.
  generalize (@nil (list Z * BencodeMut)). induction Hf as [|[k v] l [Hk Hv] _ IH]; intros m Hm; simpl; [done|].
  apply IH. by apply bt_insert_mut_ok.
Qed.

Lemma sha_bytes_ok h : sha_ok h -> mut_ok (MBytes (sha_bytes h)).
Proof. intros [Hl _]. constructor. rewrite Hl. done. Qed.

Lemma values_mut_ok c : values_ok c -> mut_ok (MList (cvi_values c)).
Proof.
  intros H. constructor. eapply Forall_impl; [exact H|]. intros v (b & -> & Hl). constructor.
  rewrite Hl. done.
Qed.

Create HintDb message.
#[local] Hint Resolve sha_bytes_ok values_mut_ok ok_int ok_bytes entries_mut_ok_nil : message.
#[local] Hint Extern 1 (short (bs _)) => reflexivity : message.

(** The dictionary of a message: every key is short and every value well formed. *)
Ltac map_ok_tac :=
  repeat first
    [ apply ben_map_ok | apply Forall_cons_2 | apply Forall_nil_2
    | apply entries_mut_ok_dict | apply bt_insert_mut_ok | apply sha_bytes_ok; assumption
    | apply values_mut_ok; assumption | apply ok_bytes | apply ok_list | apply ok_int; unfold in_signed, in_unsigned in *; simpl; lia
    | lazymatch goal with |- _ /\ _ => split end | exact entries_mut_ok_nil
    | reflexivity | eassumption | solve [eauto with message] ].

(** ** Parsing what was built *)

Lemma from_hash_sha h : sha_ok h -> ShaHash_from_hash (sha_bytes h) = Ok h.
Proof. intros [Hl _]. apply ShaHash_from_hash_ok. by destruct h. Qed.

Lemma rq_node_id_sha t h : sha_ok h -> rq_validate_node_id t (sha_bytes h) = Ok h.
Proof. intros H. unfold rq_validate_node_id. by rewrite from_hash_sha. Qed.

Lemma rq_info_hash_sha t h : sha_ok h -> rq_validate_info_hash t (sha_bytes h) = Ok h.
Proof. intros H. unfold rq_validate_info_hash. by rewrite from_hash_sha. Qed.

Lemma rs_node_id_sha t h : sha_ok h -> rs_validate_node_id t (sha_bytes h) = Ok h.
Proof. intros H. unfold rs_validate_node_id. by rewrite from_hash_sha. Qed.

Lemma rs_nodes_ok t c : nodes_ok c -> rs_validate_nodes t (cni_nodes c) = Ok c.
Proof.
  intros [H _]. unfold rs_validate_nodes, CompactNodeInfo_new, BYTES_PER_COMPACT_NODE_INFO. rewrite H. by destruct c.
Qed.

Lemma rs_values_ok t c : values_ok c -> rs_validate_values t (cvi_values c) = Ok c.
Proof.
  intros H. unfold rs_validate_values.
  assert (Hb : check_values_bytes t (cvi_values c) = Ok tt).
  { unfold values_ok in H. induction H as [|v l (b & -> & _) _ IH]; [done|]. exact IH. }
  rewrite Hb. simpl. unfold CompactValueInfo_new.
  rewrite (proj2 (check_compact_values_ok (cvi_values c) 0)) by done. by destruct c.
Qed.

(** Evaluate the lookups of a parser on a literal dictionary. *)
Ltac parse_eval :=
  lazy -[rq_validate_node_id rq_validate_info_hash rs_validate_node_id rs_validate_nodes
         rs_validate_values sha_bytes cni_nodes cvi_values wrap].

(** A message is the encoding of a well-formed value that parses to the message. *)
Definition carried (m : MessageType) (mapper : list Z -> ExpectedResponse) : Prop :=
  exists v, MessageType_encode m = BencodeMut_encode v /\ mut_ok v /\ MessageType_new v mapper = Ok m.

Ltac carried_tac :=
  eexists; split;
    [first [apply dht_encode_mut|reflexivity]|]; cbn [grs_token grs_info_type grs_trans_id grs_node_id]; cbv zeta; split; [map_ok_tac|];
  parse_eval;
  rewrite ?rq_node_id_sha, ?rq_info_hash_sha, ?rs_node_id_sha, ?rs_nodes_ok, ?rs_values_ok by done.

Lemma request_carried r mapper : message_ok (Request r) -> carried (Request r) mapper.
Proof.
  destruct r as [[t h]|[t h g]|[t h g]|[t h g k p]]; intros [Ht Hm]; simpl in Ht, Hm.
  - carried_tac. done.
  - destruct Hm. carried_tac. done.
  - destruct Hm. carried_tac. done.
  - destruct Hm as (Hh & Hg & Hk & Hp). destruct p as [|n]; simpl in Hp; carried_tac; [done|].
    by rewrite wrap_id.
Qed.

Lemma nodes_ok_short c : nodes_ok c -> short (cni_nodes c).
Proof. by intros []. Qed.

Lemma get_peers_carried t h k i mapper : short t -> sha_ok h ->
  (forall b, k = Some b -> short b) -> info_type_ok i -> mapper t = ExGetPeers ->
  carried (Response (RsGetPeers (GetPeersResponse_new t h k i))) mapper.
Proof.
  intros Ht Hh Hk Hi He.
  destruct k as [k|]; [specialize (Hk k eq_refl)|clear Hk]; destruct i as [n|v|n v]; simpl in Hi;
    [pose proof (nodes_ok_short n Hi)| |destruct Hi as [Hi Hv]; pose proof (nodes_ok_short n Hi)|
     pose proof (nodes_ok_short n Hi)| |destruct Hi as [Hi Hv]; pose proof (nodes_ok_short n Hi)].
  all: carried_tac; rewrite He; reflexivity.
Qed.

Lemma response_carried r mapper : message_ok (Response r) -> expects mapper (Response r) ->
  carried (Response r) mapper.
Proof.
  destruct r as [[t h]|[t h n]|[t h k i]|[t h]]; intros [Ht Hm] He; simpl in Ht, Hm, He.
  - carried_tac. rewrite He. reflexivity.
  - destruct Hm as [Hh Hn]. pose proof (nodes_ok_short n Hn). carried_tac. rewrite He. reflexivity.
  - destruct Hm as (Hh & Hk & Hi). by apply get_peers_carried.
  - carried_tac. rewrite He. reflexivity.
Qed.

Lemma error_code_roundtrip c : ErrorCode_new (as_u8 (ErrorCode_into c)) = Ok c.
Proof. by destruct c. Qed.

Lemma error_code_mut_ok c : mut_ok (MInt (ErrorCode_into c)).
Proof. constructor. destruct c; vm_compute; split; (discriminate || reflexivity). Qed.
#[local] Hint Resolve error_code_mut_ok : message.

Lemma error_carried e mapper : message_ok (ErrorMsg e) -> carried (ErrorMsg e) mapper.
Proof.
  destruct e as [t c m]. intros (Ht & Hu & Hs). simpl in Ht, Hu, Hs. eexists. split; [apply dht_encode_mut|].
  cbn [em_trans_id em_code em_message]. split; [map_ok_tac|].
  lazy -[ErrorCode_new ErrorCode_into utf8_valid wrap].
  change (utf8_valid [101]) with true. lazy -[ErrorCode_new ErrorCode_into utf8_valid wrap].
  rewrite Hu. lazy -[ErrorCode_new ErrorCode_into wrap]. by rewrite error_code_roundtrip.
Qed.

Lemma message_carried m mapper : message_ok m -> expects mapper m -> carried m mapper.
Proof. destruct m; auto using request_carried, response_carried, error_carried. Qed.

(** ** Panic freedom *)

(** Neither a panic nor a lack of fuel. *)
Definition replies {A} (m : res DhtErrorKind A) : Prop := m <> Panic /\ m <> OutOfFuel.

Lemma replies_bind {A B} (m : res DhtErrorKind A) (k : A -> res DhtErrorKind B) :
  replies m -> (forall a, m = Ok a -> replies (k a)) -> replies (res_bind m k).
Proof. intros Hm Hk. destruct m; try done; [by apply Hk|by destruct Hm..]. Qed.

Lemma replies_ok_or {A} (o : option A) e : replies (ok_or o e).
Proof. by destruct o. Qed.

Lemma replies_Ok {A} (a : A) : replies (Ok a).
Proof. done. Qed.

Lemma replies_Err {A} e : @replies A (Err e).
Proof. done. Qed.

Lemma from_hash_safe b : ShaHash_from_hash b <> Panic /\ ShaHash_from_hash b <> OutOfFuel.
Proof. unfold ShaHash_from_hash. case_match; done. Qed.

Section Replies.
Context {V : Type} `{BencodeConvert V DhtErrorKind}.
Implicit Types (s : V) (d : list (list Z * BencodeMut)) (k : list Z).

Lemma replies_lookup_key s d k : replies (lookup_key s d k).
Proof. unfold lookup_key. by destruct (bt_lookup k d). Qed.
Lemma replies_lookup_int s d k : replies (lookup_and_convert_int s d k).
Proof. apply replies_bind; [apply replies_lookup_key|]. intros. apply replies_ok_or. Qed.
Lemma replies_lookup_bytes s d k : replies (lookup_and_convert_bytes s d k).
Proof. apply replies_bind; [apply replies_lookup_key|]. intros. apply replies_ok_or. Qed.
Lemma replies_lookup_str s d k : replies (lookup_and_convert_str s d k).
Proof. apply replies_bind; [apply replies_lookup_key|]. intros. apply replies_ok_or. Qed.
Lemma replies_lookup_list s d k : replies (lookup_and_convert_list s d k).
Proof. apply replies_bind; [apply replies_lookup_key|]. intros. apply replies_ok_or. Qed.
Lemma replies_lookup_dict s d k : replies (lookup_and_convert_dict s d k).
Proof. apply replies_bind; [apply replies_lookup_key|]. intros. apply replies_ok_or. Qed.
End Replies.

Lemma replies_rq_node_id s b : replies (rq_validate_node_id s b).
Proof. by apply reports_map_err; apply from_hash_safe. Qed.
Lemma replies_rq_info_hash s b : replies (rq_validate_info_hash s b).
Proof. by apply reports_map_err; apply from_hash_safe. Qed.
Lemma replies_rs_node_id s b : replies (rs_validate_node_id s b).
Proof. by apply reports_map_err; apply from_hash_safe. Qed.
Lemma replies_rs_nodes s b : replies (rs_validate_nodes s b).
Proof. apply reports_map_err; unfold CompactNodeInfo_new; case_match; done. Qed.

(** The length check only unwraps values that the first loop has checked. *)
Lemma replies_rs_values s l : replies (rs_validate_values s l).
Proof.
  unfold rs_validate_values. apply replies_bind.
  - induction l as [|v l IH]; [done|]. simpl. by destruct (ben_bytes v).
  - intros [] Hc. assert (Hb : Forall (fun v => exists b, ben_bytes v = Some b) l).
    { induction l as [|v l IH]; [constructor|]. simpl in Hc. destruct (ben_bytes v) eqn:E; [|done].
      constructor; eauto. }
    assert (Hn : forall i, check_compact_values i l <> Panic /\ check_compact_values i l <> OutOfFuel).
    { clear Hc. induction Hb as [|v l [b Eb] Hb IH]; intros i; [done|]. simpl. rewrite Eb. simpl.
      case_match; [done|apply IH]. }
    destruct (Hn 0%nat) as [H1 H2]. apply reports_map_err; unfold CompactValueInfo_new;
      by destruct (check_compact_values 0 l).
Qed.

Create HintDb replies.
#[local] Hint Resolve replies_Ok replies_Err replies_ok_or replies_lookup_key replies_lookup_int
  replies_lookup_bytes replies_lookup_str replies_lookup_list replies_lookup_dict replies_rq_node_id
  replies_rq_info_hash replies_rs_node_id replies_rs_nodes replies_rs_values : replies.

(** Follow a parser through its binds. *)
Ltac replies_tac :=
  repeat first
    [ solve [eauto with replies]
    | apply replies_bind; [|intros ? _]
    | match goal with |- replies (if ?c then _ else _) => destruct c end
    | match goal with |- replies (match ?o with _ => _ end) => destruct o end ].

Lemma replies_request root t ty : replies (RequestType_from_parts root t ty).
Proof.
  unfold RequestType_from_parts, PingRequest_from_parts, FindNodeRequest_from_parts,
    GetPeersRequest_from_parts, AnnouncePeerRequest_from_parts. cbv zeta. replies_tac.
Qed.

Lemma replies_response root t ty : ty <> ExGetData -> ty <> ExPutData ->
  replies (ResponseType_from_parts root t ty).
Proof.
  intros Hg Hp. unfold ResponseType_from_parts, PingResponse_from_parts, PingRequest_from_parts,
    FindNodeResponse_from_parts, FindNodeResponse_new, GetPeersResponse_from_parts,
    AnnouncePeerResponse_from_parts. cbv zeta.
  apply replies_bind; [auto with replies|]. intros ? _. destruct ty; [..|done]; try done; replies_tac.
Qed.

Lemma replies_error_args args : replies (extract_error_args args).
Proof.
  unfold extract_error_args. destruct args as [|a [|b [|c l]]]; try done. simpl.
  replies_tac; unfold convert_int, convert_str; auto with replies.
Qed.

Lemma replies_error_code c : replies (ErrorCode_new c).
Proof. unfold ErrorCode_new. repeat case_match; done. Qed.

Lemma replies_error root t : replies (ErrorMessage_from_parts root t).
Proof.
  unfold ErrorMessage_from_parts. cbv zeta. apply replies_bind; [auto with replies|]. intros ? _.
  apply replies_bind; [apply replies_error_args|]. intros [code m] _.
  apply replies_bind; [apply replies_error_code|done].
Qed.

(** ** Properties *)

(** C27: messages survive the wire. What any query, response or error encodes, the
    DHT's decoder reads and [MessageType::new] parses to the same message, given
    that the transaction of a response is known to expect its kind. *)
Theorem message_roundtrip (m : MessageType) (mapper : list Z -> ExpectedResponse) :
  message_ok m -> expects mapper m ->
  exists v, Bencode_decode (MessageType_encode m) = Ok v /\ MessageType_new v mapper = Ok m.
Proof.
  intros Hm He. destruct (message_carried m mapper Hm He) as (v & Hv & Hok & Hp).
  exists v. rewrite Hv. split; [by apply Bencode_decode_encode|done].
Qed.

Definition sample_message : MessageType :=
  Response (RsGetPeers (GetPeersResponse_new (bs "aa") (mkShaHash (replicate 20 5)) (Some (bs "tok"))
    (Both (mkCompactNodeInfo (replicate 26 9)) (mkCompactValueInfo [MBytes [10; 0; 0; 1; 26; 225]])))).

Lemma message_roundtrip_witness :
  exists v, Bencode_decode (MessageType_encode sample_message) = Ok v /\
    MessageType_new v (fun _ => ExGetPeers) = Ok sample_message.
Proof.
  apply message_roundtrip; [|reflexivity]. split; [reflexivity|]. split; [|split].
  - split; [reflexivity|]. apply (bool_decide_unpack _). vm_compute. exact I.
  - intros t [= <-]. reflexivity.
  - split; [split; reflexivity|]. constructor; [|constructor]. eexists. split; reflexivity.
Defined.

(** Parsing a message reports: for every bencode value the result is a message
    or an error, never a panic, as long as no transaction expects the responses
    whose parsing is left unimplemented. *)
Lemma message_parse_reports (v : BencodeMut) (mapper : list Z -> ExpectedResponse) :
  (forall t, mapper t <> ExGetData /\ mapper t <> ExPutData) ->
  (exists m, MessageType_new v mapper = Ok m) \/ (exists e, MessageType_new v mapper = Err e).
Proof.
  intros Hmap. assert (Hr : replies (MessageType_new v mapper)).
  { unfold MessageType_new. cbv zeta. unfold convert_dict.
    apply replies_bind; [auto with replies|]. intros root _.
    apply replies_bind; [auto with replies|]. intros t _.
    apply replies_bind; [auto with replies|]. intros ty _. destruct (Hmap t).
    repeat case_decide; [|apply replies_bind; [|done]..|done];
      [|by apply replies_response|apply replies_error].
    apply replies_bind; [auto with replies|]. intros q _.
    apply replies_bind; [apply replies_request|done]. }
  destruct Hr. destruct (MessageType_new v mapper); eauto; done.
Qed.

Lemma message_parse_reports_witness :
  (exists m, MessageType_new (MList []) (fun _ => ExNone) = Ok m) \/
  (exists e, MessageType_new (MList []) (fun _ => ExNone) = Err e).
Proof. apply message_parse_reports. intros t. split; discriminate. Defined.

(** A port outside 16 bits is truncated rather than refused. *)
Example announce_port_wraps :
  AnnouncePeerRequest_from_parts
    [(bs "id", MBytes (replicate 20 1)); (bs "info_hash", MBytes (replicate 20 2));
     (bs "port", MInt 65537); (bs "token", MBytes (bs "x"))] (bs "aa") =
  Ok (AnnouncePeerRequest_new (bs "aa") (mkShaHash (replicate 20 1)) (mkShaHash (replicate 20 2)) (bs "x")
        (Explicit 1)).
Proof. vm_compute. reflexivity. Qed.
