(* ===== verification/Paths.v ===== *)
(** * Paths

    What the sources use of [std::path] on Unix: a path is its byte string,
    [components] the elements [Path::iter] yields, [path_push] is [PathBuf::push], and
    [to_string_lossy] the replacement of invalid UTF-8. Two paths are equal
    ([PathBuf: PartialEq]) when their components are. *)

From S2P Require Import Prelude RustStd.

Definition MAIN_SEPARATOR : Z := 47.
Definition CUR_DIR : list Z := [46].
Definition ROOT_DIR : list Z := [MAIN_SEPARATOR].

Definition starts_with_sep (p : list Z) : bool := match p with c :: _ => c =? MAIN_SEPARATOR | [] => false end.

(** The pieces between separators. *)
Fixpoint split_sep (p : list Z) : list (list Z) :=
  match p with
  | [] => [[]]
  | c :: p =>
      if c =? MAIN_SEPARATOR then [] :: split_sep p
      else match split_sep p with [] => [[c]] | s :: rest => (c :: s) :: rest end
  end.

(** Repeated separators and [.] are skipped, *)
Definition keep_part (s : list Z) : bool := negb (bool_decide (s = [])) && negb (bool_decide (s = CUR_DIR)).

(** ... except a leading [.]; an absolute path starts with the root. *)
Definition components (p : list Z) : list (list Z) :=
  if starts_with_sep p then ROOT_DIR :: List.filter keep_part (split_sep p)
  else match split_sep p with
       | s :: rest => if bool_decide (s = CUR_DIR) then s :: List.filter keep_part rest else List.filter keep_part (s :: rest)
       | [] => []
       end.

Definition path_eq (p q : list Z) : Prop := components p = components q.
#[export] Instance path_eq_equivalence : Equivalence path_eq.
Proof. split; unfold path_eq; [done|congruence|congruence]. Qed.

Definition path_push (p e : list Z) : list Z :=
  if starts_with_sep e then e
  else if bool_decide (p = []) || bool_decide (last p = Some MAIN_SEPARATOR) then p ++ e
  else p ++ MAIN_SEPARATOR :: e.

(** U+FFFD in UTF-8. *)
Definition REPLACEMENT : list Z := [239; 191; 189].

(** [String::from_utf8_lossy]: each maximal prefix of a sequence that cannot be
    completed is replaced. *)
Fixpoint to_string_lossy (s : list Z) : list Z :=
  match s with
  | [] => []
  | b0 :: s1 =>
      if b0 <? 128 then b0 :: to_string_lossy s1
      else if in_range 194 223 b0 then
        match s1 with
        | b1 :: s2 => if utf8_cont b1 then b0 :: b1 :: to_string_lossy s2 else REPLACEMENT ++ to_string_lossy s1
        | [] => REPLACEMENT
        end
      else if in_range 224 239 b0 then
        match s1 with
        | b1 :: s2 =>
            if utf8_second3 b0 b1 then
              match s2 with
              | b2 :: s3 => if utf8_cont b2 then b0 :: b1 :: b2 :: to_string_lossy s3 else REPLACEMENT ++ to_string_lossy s2
              | [] => REPLACEMENT
              end
            else REPLACEMENT ++ to_string_lossy s1
        | [] => REPLACEMENT
        end
      else if in_range 240 244 b0 then
        match s1 with
        | b1 :: s2 =>
            if utf8_second4 b0 b1 then
              match s2 with
              | b2 :: s3 =>
                  if utf8_cont b2 then
                    match s3 with
                    | b3 :: s4 => if utf8_cont b3 then b0 :: b1 :: b2 :: b3 :: to_string_lossy s4
                                  else REPLACEMENT ++ to_string_lossy s3
                    | [] => REPLACEMENT
                    end
                  else REPLACEMENT ++ to_string_lossy s2
              | [] => REPLACEMENT
              end
            else REPLACEMENT ++ to_string_lossy s1
        | [] => REPLACEMENT
        end
      else REPLACEMENT ++ to_string_lossy s1
  end.

Example components_sample : map components [bs "/a//b/./c/"; bs "./a/.."; bs "a/./b"; bs ""; bs "/"] =
  [[bs "/"; bs "a"; bs "b"; bs "c"]; [bs "."; bs "a"; bs ".."]; [bs "a"; bs "b"]; []; [bs "/"]].
Proof. vm_compute. reflexivity. Qed.

Example lossy_sample : to_string_lossy [97; 240; 159; 98; 255; 195; 169; 224; 128] =
  [97] ++ REPLACEMENT ++ [98] ++ REPLACEMENT ++ [195; 169] ++ REPLACEMENT ++ REPLACEMENT.
Proof. vm_compute. reflexivity. Qed.

(** ** Valid strings *)

(** Induction along the sequences of a valid string. *)
Lemma utf8_valid_ind (P : list Z -> Prop) :
  P [] ->
  (forall b s, b < 128 -> utf8_valid s = true -> P s -> P (b :: s)) ->
  (forall b0 b1 s, (b0 <? 128) = false -> in_range 194 223 b0 = true -> utf8_cont b1 = true -> utf8_valid s = true -> P s -> P (b0 :: b1 :: s)) ->
  (forall b0 b1 b2 s, (b0 <? 128) = false -> in_range 194 223 b0 = false -> in_range 224 239 b0 = true ->
     utf8_second3 b0 b1 = true -> utf8_cont b2 = true -> utf8_valid s = true -> P s -> P (b0 :: b1 :: b2 :: s)) ->
  (forall b0 b1 b2 b3 s, (b0 <? 128) = false -> in_range 194 223 b0 = false -> in_range 224 239 b0 = false -> in_range 240 244 b0 = true ->
     utf8_second4 b0 b1 = true -> utf8_cont b2 = true -> utf8_cont b3 = true -> utf8_valid s = true -> P s -> P (b0 :: b1 :: b2 :: b3 :: s)) ->
  forall s, utf8_valid s = true -> P s.
Proof.
  intros H0 H1 H2 H3 H4. assert (Hn : forall n s, (length s <= n)%nat -> utf8_valid s = true -> P s); [|intros s; by apply (Hn (length s))].
  induction n as [|n IH]; intros [|b0 s] Hl Hv; cbn [length] in Hl; try done; [lia|]. cbn [utf8_valid] in Hv.
  destruct (b0 <? 128) eqn:E0; [apply H1; [lia|done|apply IH; [lia|done]]|].
  destruct (in_range 194 223 b0) eqn:E1.
  { destruct s as [|b1 s]; [done|]. apply andb_true_iff in Hv as [? ?]. apply H2; try done. apply IH; [cbn in Hl; lia|done]. }
  destruct (in_range 224 239 b0) eqn:E2.
  { destruct s as [|b1 [|b2 s]]; try done. rewrite !andb_true_iff in Hv. destruct Hv as [[? ?] ?]. apply H3; try done. apply IH; [cbn in Hl; lia|done]. }
  destruct (in_range 240 244 b0) eqn:E3; [|done].
  destruct s as [|b1 [|b2 [|b3 s]]]; try done. rewrite !andb_true_iff in Hv. destruct Hv as [[[? ?] ?] ?]. apply H4; try done. apply IH; [cbn in Hl; lia|done].
Qed.

Lemma to_string_lossy_valid s : utf8_valid s = true -> to_string_lossy s = s.
Proof.
  revert s. apply utf8_valid_ind; [done| | | |]; cbn [to_string_lossy].
  - intros b s Hb Hs IH. rewrite (proj2 (Z.ltb_lt b 128)) by done. by rewrite IH.
  - intros b0 b1 s E0 E1 C1 Hs IH. by rewrite E0, E1, C1, IH.
  - intros b0 b1 b2 s E0 E1 E2 C1 C2 Hs IH. by rewrite E0, E1, E2, C1, C2, IH.
  - intros b0 b1 b2 b3 s E0 E1 E2 E3 C1 C2 C3 Hs IH. by rewrite E0, E1, E2, E3, C1, C2, C3, IH.
Qed.

(** ** Splitting *)

Definition no_sep (s : list Z) : Prop := Forall (fun c => c <> MAIN_SEPARATOR) s.

Lemma split_sep_cons c p : c <> MAIN_SEPARATOR ->
  exists s rest, split_sep p = s :: rest /\ split_sep (c :: p) = (c :: s) :: rest.
Proof.
  intros Hc. cbn [split_sep]. rewrite (proj2 (Z.eqb_neq c MAIN_SEPARATOR)) by done.
  destruct (split_sep p) as [|s rest] eqn:E; [|eauto]. exfalso. destruct p as [|d p]; cbn [split_sep] in E; [done|].
  destruct (d =? MAIN_SEPARATOR); [done|]. by destruct (split_sep p).
Qed.

Lemma split_sep_no_sep s : no_sep s -> split_sep s = [s].
Proof.
  induction 1 as [|c s Hc Hs IH]; [done|]. destruct (split_sep_cons c s Hc) as (s' & rest & E & ->). rewrite IH in E. by injection E as <- <-.
Qed.

Lemma split_sep_app a b : split_sep (a ++ MAIN_SEPARATOR :: b) = split_sep a ++ split_sep b.
Proof.
  induction a as [|c a IH]; [done|]. destruct (decide (c = MAIN_SEPARATOR)) as [->|Hc].
  - cbn [app split_sep]. by rewrite Z.eqb_refl, IH.
  - cbn [app]. destruct (split_sep_cons c a Hc) as (s & rest & E & ->).
    destruct (split_sep_cons c (a ++ MAIN_SEPARATOR :: b) Hc) as (s' & rest' & E' & ->). rewrite IH, E in E'. by injection E' as <- <-.
Qed.

Lemma split_sep_parts p : Forall no_sep (split_sep p).
Proof.
  induction p as [|c p IH]; [by repeat constructor|]. destruct (decide (c = MAIN_SEPARATOR)) as [->|Hc].
  - cbn [split_sep]. rewrite Z.eqb_refl. constructor; [constructor|done].
  - destruct (split_sep_cons c p Hc) as (s & rest & E & ->). rewrite E in IH. apply Forall_cons in IH as [Hs Hr]. constructor; [by constructor|done].
Qed.

Lemma split_sep_first (P : list Z -> Prop) c p : c <> MAIN_SEPARATOR -> (forall s, P s -> P (c :: s)) ->
  Forall P (split_sep p) -> Forall P (split_sep (c :: p)).
Proof.
  intros Hc HP Hf. destruct (split_sep_cons c p Hc) as (s & rest & E & ->). rewrite E in Hf. apply Forall_cons in Hf as [Hs Hr].
  constructor; auto.
Qed.

(** A multi-byte sequence contains no separator. *)
Lemma cont_not_sep b : utf8_cont b = true -> b <> MAIN_SEPARATOR.
Proof. unfold utf8_cont, in_range, MAIN_SEPARATOR. lia. Qed.
Lemma second3_cont b0 b1 : utf8_second3 b0 b1 = true -> b1 <> MAIN_SEPARATOR.
Proof. unfold utf8_second3, utf8_cont, in_range, MAIN_SEPARATOR. repeat case_match; lia. Qed.
Lemma second4_cont b0 b1 : utf8_second4 b0 b1 = true -> b1 <> MAIN_SEPARATOR.
Proof. unfold utf8_second4, utf8_cont, in_range, MAIN_SEPARATOR. repeat case_match; lia. Qed.

(** Prefixing a part by a whole sequence keeps it valid. *)
Lemma split_sep_valid p : utf8_valid p = true -> Forall (fun s => utf8_valid s = true) (split_sep p).
Proof.
  assert (Hlead : forall b0, (b0 <? 128) = false -> b0 <> MAIN_SEPARATOR) by (unfold MAIN_SEPARATOR; lia).
  revert p. apply utf8_valid_ind; [by repeat constructor| | | |].
  - intros b s Hb _ IH. destruct (decide (b = MAIN_SEPARATOR)) as [->|Hs].
    + cbn [split_sep]. rewrite Z.eqb_refl. by constructor.
    + apply split_sep_first; [done| |done]. intros t Ht. cbn [utf8_valid]. by rewrite (proj2 (Z.ltb_lt b 128)).
  - intros b0 b1 s E0 E1 C1 _ IH. destruct (split_sep_cons b1 s (cont_not_sep _ C1)) as (t & rest & E & E').
    destruct (split_sep_cons b0 (b1 :: s) (Hlead _ E0)) as (t' & rest' & E2 & ->). rewrite E' in E2. injection E2 as <- <-.
    rewrite E in IH. apply Forall_cons in IH as [Ht Hr]. constructor; [|done]. cbn [utf8_valid]. by rewrite E0, E1, C1.
  - intros b0 b1 b2 s E0 E1 E2 C1 C2 _ IH. destruct (split_sep_cons b2 s (cont_not_sep _ C2)) as (t & rest & E & E').
    destruct (split_sep_cons b1 (b2 :: s) (second3_cont _ _ C1)) as (t1 & rest1 & F1 & F1'). rewrite E' in F1. injection F1 as <- <-.
    destruct (split_sep_cons b0 (b1 :: b2 :: s) (Hlead _ E0)) as (t' & rest' & F2 & ->). rewrite F1' in F2. injection F2 as <- <-.
    rewrite E in IH. apply Forall_cons in IH as [Ht Hr]. constructor; [|done]. cbn [utf8_valid]. by rewrite E0, E1, E2, C1, C2.
  - intros b0 b1 b2 b3 s E0 E1 E2 E3 C1 C2 C3 _ IH. destruct (split_sep_cons b3 s (cont_not_sep _ C3)) as (t & rest & E & E').
    destruct (split_sep_cons b2 (b3 :: s) (cont_not_sep _ C2)) as (t1 & rest1 & F1 & F1'). rewrite E' in F1. injection F1 as <- <-.
    destruct (split_sep_cons b1 (b2 :: b3 :: s) (second4_cont _ _ C1)) as (t2 & rest2 & F2 & F2'). rewrite F1' in F2. injection F2 as <- <-.
    destruct (split_sep_cons b0 (b1 :: b2 :: b3 :: s) (Hlead _ E0)) as (t' & rest' & F3 & ->). rewrite F2' in F3. injection F3 as <- <-.
    rewrite E in IH. apply Forall_cons in IH as [Ht Hr]. constructor; [|done]. cbn [utf8_valid]. by rewrite E0, E1, E2, E3, C1, C2, C3.
Qed.

(** ** Components *)

(** An ordinary component: no separator, not skipped. *)
Definition plain (s : list Z) : Prop := no_sep s /\ keep_part s = true.

Lemma plain_not_nil s : plain s -> s <> [].
Proof. intros [_ H] ->. done. Qed.
Lemma plain_not_abs s : no_sep s -> starts_with_sep s = false.
Proof. destruct 1 as [|c s Hc Hs]; [done|]. cbn. by apply Z.eqb_neq. Qed.

Lemma filter_plain l : Forall no_sep l -> Forall plain (List.filter keep_part l).
Proof.
  induction 1 as [|s l Hs Hl IH]; [constructor|]. cbn [List.filter]. destruct (keep_part s) eqn:E; [|done]. by constructor.
Qed.
Lemma filter_plain_id l : Forall plain l -> List.filter keep_part l = l.
Proof. induction 1 as [|s l [_ Hs] Hl IH]; [done|]. cbn [List.filter]. by rewrite Hs, IH. Qed.

(** What components look like. *)
Lemma components_shape p :
  exists cs, Forall plain cs /\ (components p = cs \/ components p = CUR_DIR :: cs \/ components p = ROOT_DIR :: cs).
Proof.
  unfold components. pose proof (split_sep_parts p) as Hp. destruct (starts_with_sep p).
  - exists (List.filter keep_part (split_sep p)). split; [by apply filter_plain|]. by right; right.
  - destruct (split_sep p) as [|s rest]; [exists []; auto|]. case_bool_decide as Hs.
    + subst s. exists (List.filter keep_part rest). split; [apply filter_plain; by inversion Hp|]. by right; left.
    + exists (List.filter keep_part (s :: rest)). split; [by apply filter_plain|]. by left.
Qed.

(** Pushing ordinary components appends them behind separators. *)
Definition tail_text (cs : list (list Z)) : list Z := concat (map (cons MAIN_SEPARATOR) cs).

Lemma tail_text_snoc cs c : tail_text (cs ++ [c]) = tail_text cs ++ MAIN_SEPARATOR :: c.
Proof. unfold tail_text. by rewrite map_app, concat_app; cbn; rewrite app_nil_r. Qed.

Lemma last_no_sep acc s : no_sep s -> s <> [] -> last (acc ++ s) <> Some MAIN_SEPARATOR.
Proof.
  intros Hs Hne. destruct (exists_last Hne) as (t & c & ->). rewrite app_assoc, last_snoc.
  apply Forall_app in Hs as [_ Hc]. apply Forall_cons in Hc as [Hc _]. congruence.
Qed.

Lemma push_plain p s : p <> [] -> last p <> Some MAIN_SEPARATOR -> plain s -> path_push p s = p ++ MAIN_SEPARATOR :: s.
Proof.
  intros Hp Hl [Hs _]. unfold path_push. rewrite plain_not_abs by done. by rewrite !bool_decide_eq_false_2.
Qed.

Lemma push_all_plain p cs : p <> [] -> last p <> Some MAIN_SEPARATOR -> Forall plain cs -> foldl path_push p cs = p ++ tail_text cs.
Proof.
  intros Hp Hl. revert p Hp Hl. induction cs as [|c cs IH]; intros p Hp Hl Hcs; [by rewrite app_nil_r|].
  apply Forall_cons in Hcs as [Hc Hcs]. cbn [foldl]. rewrite push_plain, IH; try done.
  - unfold tail_text. cbn [map concat]. by rewrite <- app_assoc.
  - by destruct p.
  - change (MAIN_SEPARATOR :: c) with ([MAIN_SEPARATOR] ++ c). rewrite app_assoc. apply last_no_sep; [apply Hc|by apply plain_not_nil].
Qed.

Lemma split_tail p cs : Forall no_sep cs -> split_sep (p ++ tail_text cs) = split_sep p ++ cs.
Proof.
  induction cs as [|c cs IH] using rev_ind; intros Hcs; [by rewrite !app_nil_r|]. apply Forall_app in Hcs as [Hcs Hc].
  apply Forall_cons in Hc as [Hc _]. rewrite tail_text_snoc, app_assoc, split_sep_app, IH, (split_sep_no_sep c) by done. by rewrite app_assoc.
Qed.

Lemma starts_with_sep_app p q : p <> [] -> starts_with_sep (p ++ q) = starts_with_sep p.
Proof. by destruct p. Qed.

(** Joining the components of a path gives a path with the same components. *)
Lemma components_join p : components (foldl path_push [] (components p)) = components p.
Proof.
  destruct (components_shape p) as (cs & Hcs & Hs). assert (Hn : Forall no_sep cs) by (eapply Forall_impl; [exact Hcs|]; by intros ? []).
  destruct Hs as [-> |[-> | ->]].
  - destruct cs as [|c cs]; [done|]. apply Forall_cons in Hcs as [Hc Hcs]. cbn [foldl].
    assert (path_push [] c = c) as -> by (unfold path_push; by rewrite plain_not_abs by apply Hc).
    pose proof (plain_not_nil _ Hc). rewrite push_all_plain; [|done| |done].
    2:{ rewrite <- (app_nil_l c). apply last_no_sep; [apply Hc|done]. }
    unfold components. rewrite starts_with_sep_app, plain_not_abs by (done || apply Hc). inversion Hn; subst.
    rewrite split_tail, split_sep_no_sep by (done || apply Hc). cbn [app]. rewrite bool_decide_eq_false_2.
    + apply filter_plain_id. by constructor.
    + intros ->. by destruct Hc.
  - cbn [foldl]. change (path_push [] CUR_DIR) with CUR_DIR. rewrite push_all_plain; [|done|done|done].
    unfold components. rewrite starts_with_sep_app by done. cbn [starts_with_sep CUR_DIR]. rewrite split_tail by done. cbn. by rewrite filter_plain_id.
  - cbn [foldl]. change (path_push [] ROOT_DIR) with ROOT_DIR. destruct cs as [|c cs]; [done|]. apply Forall_cons in Hcs as [Hc Hcs]. cbn [foldl].
    assert (path_push ROOT_DIR c = ROOT_DIR ++ c) as -> by (unfold path_push; by rewrite plain_not_abs by apply Hc).
    rewrite push_all_plain; [|done|by apply last_no_sep; [apply Hc|apply plain_not_nil]|done].
    unfold components. rewrite starts_with_sep_app by done. cbn [ROOT_DIR app starts_with_sep]. rewrite Z.eqb_refl.
    inversion Hn; subst. change (MAIN_SEPARATOR :: c ++ tail_text cs) with ([] ++ tail_text (c :: cs)).
    rewrite split_tail by done. change (List.filter keep_part (split_sep [] ++ c :: cs)) with (List.filter keep_part (c :: cs)).
    by rewrite filter_plain_id by (by constructor).
Qed.

Lemma filter_sub (P : list Z -> Prop) l : Forall P l -> Forall P (List.filter keep_part l).
Proof. induction 1 as [|s l Hs Hl IH]; [constructor|]. cbn [List.filter]. destruct (keep_part s); [by constructor|done]. Qed.

Lemma components_valid p : utf8_valid p = true -> Forall (fun s => utf8_valid s = true) (components p).
Proof.
  intros Hv. apply split_sep_valid in Hv. unfold components. destruct (starts_with_sep p).
  - constructor; [done|]. by apply filter_sub.
  - destruct (split_sep p) as [|s rest]; [constructor|]. case_bool_decide.
    + inversion Hv; subst. constructor; [done|]. by apply filter_sub.
    + by apply filter_sub.
Qed.

(** A name without separators is its own single component. *)
Lemma components_name s : no_sep s -> components s = if bool_decide (s = []) then [] else [s].
Proof.
  intros Hs. unfold components. rewrite plain_not_abs, split_sep_no_sep by done. cbn [List.filter]. unfold keep_part.
  repeat case_bool_decide; subst; done.
Qed.
