(* ===== verification/UtpWorld.v ===== *)
(** * Clock values, averages and bit iteration of the uTP socket

    Model of [utp/time.rs], [utp/util.rs] and [utp/bit_iterator.rs]. A
    [Timestamp] is its 32-bit value and a [Delay] its signed 64-bit value.

    Then the data of [utp/socket.rs] and [utp/error.rs] and the monad its methods are
    written in. *)

From S2P Require Import Prelude RustStd Words UtilConvert UtpPacket.

(** ** [utp/util.rs] *)

Definition ewma (samples : list Z) (alpha : f64) : f64 :=
  match samples with
  | [] => f64_from 0
  | v :: samples =>
      foldl (fun avg sample => f64_add (f64_mul alpha sample) (f64_mul (f64_sub (f64_from 1) alpha) avg))
        (f64_from v) (map f64_from samples)
  end.

Definition abs_diff (a b : Z) : Z := if b <? a then a - b else b - a.

(** [id] is the identifier drawn from the generator. *)
Definition generate_sequential_identifiers (id : Z) : Z * Z :=
  if id + 1 <? 2 ^ 16 then (id, id + 1) else (id - 1, id).

Example ewma_empty : ewma [] (f64_div (f64_from 1) (f64_from 3)) = f64_from 0.
Proof. reflexivity. Qed.
Example ewma_ten : ewma [1; 2; 3; 4; 5; 6; 7; 8; 9; 10] (f64_div (f64_from 1) (f64_from 3)) =
  f64_div (f64_from 158488) (f64_from 19683).
Proof. vm_compute. reflexivity. Qed.

Lemma abs_diff_spec a b : abs_diff a b = Z.abs (a - b).
Proof. unfold abs_diff. destruct (Z.ltb_spec b a); lia. Qed.

Lemma sequential_identifiers_ok id : is_u16 id ->
  let '(r, s) := generate_sequential_identifiers id in is_u16 r /\ is_u16 s /\ s = r + 1.
Proof.
  intros H. unfold generate_sequential_identifiers, in_unsigned in *. destruct (Z.ltb_spec (id + 1) (2 ^ 16)); simpl; lia.
Qed.

(** ** [utp/time.rs] *)

(** [now_microseconds] for the duration since the epoch read from the system clock:
    [t.as_secs().wrapping_mul(1_000_000) as u32] plus the microseconds, modulo 2^32. *)
Definition timestamp_of (as_secs subsec_nanos : Z) : Z :=
  as_u32 (as_u32 (as_u64 (as_secs * 1000000)) + subsec_nanos / 1000).

(** [Timestamp - Timestamp] widens to [i64]. *)
Definition Timestamp_sub (a b : Z) : Z := a - b.

(** [u32::from(delay)]. *)
Definition Delay_to_u32 (d : Z) : Z := as_u32 d.

Lemma timestamp_of_u32 a b : is_u32 (timestamp_of a b).
Proof. by apply wrap_in_unsigned. Qed.

Lemma Timestamp_sub_bounds a b : is_u32 a -> is_u32 b -> - 2 ^ 32 < Timestamp_sub a b < 2 ^ 32.
Proof. unfold in_unsigned, Timestamp_sub. lia. Qed.

(** ** [utp/bit_iterator.rs] *)

Definition U8BITS : nat := 8.

Record BitIterator : Type := mkBitIterator { bi_object : list Z; bi_next_index : nat; bi_end_index : nat }.

Definition BitIterator_from_bytes (obj : list Z) : BitIterator := mkBitIterator obj 0 (length obj * U8BITS).

(** [u8::count_ones]. *)
Definition u8_count_ones (b : Z) : nat := length (filter (fun i => Z.testbit b (Z.of_nat i) = true) (seq 0 U8BITS)).

Definition BitIterator_count_ones (it : BitIterator) : nat :=
  foldl (fun acc bv => acc + u8_count_ones bv)%nat 0%nat (bi_object it).

Definition BitIterator_next {E} (it : BitIterator) : res E (option (bool * BitIterator)) :=
  if negb (bi_next_index it =? bi_end_index it)%nat then
    let byte_index := (bi_next_index it / U8BITS)%nat in
    let bit_index := (bi_next_index it mod U8BITS)%nat in
    let? byte := or_panic (bi_object it !! byte_index) in
    let bit := Z.land (Z.shiftr byte (Z.of_nat bit_index)) 1 in
    Ok (Some (bit =? 1, mkBitIterator (bi_object it) (bi_next_index it + 1) (bi_end_index it)))
  else Ok None.

(** The iterator run to its end. *)
Fixpoint BitIterator_collect {E} (fuel : nat) (it : BitIterator) : res E (list bool) :=
  match fuel with
  | O => OutOfFuel
  | S fuel =>
      let? o := BitIterator_next it in
      match o with
      | Some (b, it) => let? l := BitIterator_collect fuel it in Ok (b :: l)
      | None => Ok []
      end
  end.

(** [extension.iter()]: every call of [next] advances the index towards the end. *)
Definition bits_of_bytes {E} (obj : list Z) : res E (list bool) :=
  BitIterator_collect (length obj * U8BITS + 1) (BitIterator_from_bytes obj).

(** Bit [i] of the bytes, least significant bit of the first byte first. *)
Definition byte_bit (obj : list Z) (i : nat) : bool :=
  Z.testbit (obj !!! (i / U8BITS)%nat) (Z.of_nat (i mod U8BITS)).

Lemma land_1_testbit n : (Z.land n 1 =? 1) = Z.testbit n 0.
Proof.
  change (Z.land n 1) with (Z.land n (Z.ones 1)).
  rewrite Z.land_ones by lia. rewrite Z.bit0_odd, Zodd_mod. done.
Qed.

Lemma shiftr_land_1 b k : (Z.land (Z.shiftr b (Z.of_nat k)) 1 =? 1) = Z.testbit b (Z.of_nat k).
Proof. rewrite land_1_testbit, Z.shiftr_spec by lia. done. Qed.

Lemma bits_collect {E} obj fuel i : (i <= length obj * U8BITS)%nat -> (length obj * U8BITS - i < fuel)%nat ->
  BitIterator_collect (E := E) fuel (mkBitIterator obj i (length obj * U8BITS)) =
  Ok (map (byte_bit obj) (seq i (length obj * U8BITS - i))).
Proof.
  revert i. induction fuel as [|fuel IH]; intros i Hi Hf; [lia|]. cbn [BitIterator_collect]. unfold BitIterator_next.
  cbn [bi_next_index bi_end_index bi_object]. destruct (Nat.eqb_spec i (length obj * U8BITS)) as [->|Hne]; cbn [negb].
  - cbn [res_bind]. by rewrite Nat.sub_diag.
  - assert (i / U8BITS < length obj)%nat by (apply Nat.Div0.div_lt_upper_bound; lia).
    destruct (lookup_lt_is_Some_2 obj (i / U8BITS)) as [b Hb]; [done|]. rewrite Hb. cbn [or_panic res_bind].
    rewrite shiftr_land_1, Nat.add_1_r, IH by lia. cbn [res_bind].
    replace (length obj * U8BITS - i)%nat with (S (length obj * U8BITS - S i)) by lia. cbn [seq map].
    unfold byte_bit at 2. by rewrite (list_lookup_total_correct _ _ _ Hb).
Qed.

(** The iterator yields the bits of the bytes in order and ends. *)
Lemma bits_of_bytes_spec {E} obj : bits_of_bytes (E := E) obj = Ok (map (byte_bit obj) (seq 0 (length obj * U8BITS))).
Proof. unfold bits_of_bytes, BitIterator_from_bytes. rewrite bits_collect by lia. by rewrite Nat.sub_0_r. Qed.

Example bit_iterator_sample :
  bits_of_bytes (E := Empty_set) [202; 254] = Ok (map (Z.eqb 1) [0; 1; 0; 1; 0; 0; 1; 1; 0; 1; 1; 1; 1; 1; 1; 1]).
Proof. reflexivity. Qed.

(** * The uTP socket's state, its errors and its effects

    The data of [utp/socket.rs] and [utp/error.rs], and the monad its methods are
    written in: a method reads and changes the socket, the system clock, the random
    generator and the UDP socket underneath, and it may return an error, panic, or
    wait for a datagram that never comes. The environment is the class [UtpEnv]; the
    world records how much of it was used, the datagrams to come and those sent. *)

(** ** Errors *)

(** The kinds of [std::io::Error] the code distinguishes; [KOs] is any other kind. *)
Inductive ErrorKind : Type :=
| KNotConnected | KConnectionReset | KTimedOut | KInvalidInput | KConnectionRefused | KOther | KWouldBlock
| KOs (n : Z).

#[export] Instance ErrorKind_eq_dec : EqDecision ErrorKind.
Proof. solve_decision. Defined.

(** [std::io::Error::new(kind, description)]. *)
Record io_error : Type := mkIoError { err_kind : ErrorKind; err_description : list Z }.

Inductive SocketError : Type :=
| ConnectionClosed
| ConnectionReset
| ConnectionTimedOut
| InvalidAddress
| InvalidReply
| NotConnected
| Other (s : list Z).

Definition SocketError_description (e : SocketError) : list Z :=
  match e with
  | ConnectionClosed => bs "The socket is closed"
  | ConnectionReset => bs "Connection reset by remote peer"
  | ConnectionTimedOut => bs "Connection timed out"
  | InvalidAddress => bs "Invalid address"
  | InvalidReply => bs "The remote peer sent an invalid reply"
  | NotConnected => bs "The socket is not connected"
  | Other s => s
  end.

Definition SocketError_into_io (e : SocketError) : io_error :=
  let kind := match e with
    | ConnectionClosed | NotConnected => KNotConnected
    | ConnectionReset => KConnectionReset
    | ConnectionTimedOut => KTimedOut
    | InvalidAddress => KInvalidInput
    | InvalidReply => KConnectionRefused
    | Other _ => KOther
    end in
  mkIoError kind (SocketError_description e).

Definition ParseError_description (e : ParseError) : list Z :=
  match e with
  | InvalidExtensionLength => bs "Invalid extension length (must be a non-zero multiple of 4)"
  | InvalidPacketLength => bs "The packet is too small"
  | InvalidPacketType _ => bs "Invalid packet type"
  | UnsupportedVersion => bs "Unsupported packet version"
  end.

Definition ParseError_into_io (e : ParseError) : io_error := mkIoError KOther (ParseError_description e).

(** ** The socket *)

Inductive SocketState : Type := New | Connected | SynSent | FinSent | ResetReceived | Closed.

#[export] Instance SocketState_eq_dec : EqDecision SocketState.
Proof. solve_decision. Defined.
#[export] Instance PacketType_eq_dec : EqDecision PacketType.
Proof. solve_decision. Defined.

#[export] Instance Packet_inhabited : Inhabited Packet := populate (mkPacket []).

(** The derived [Debug] names. *)
Definition SocketState_debug (s : SocketState) : list Z :=
  match s with
  | New => bs "New" | Connected => bs "Connected" | SynSent => bs "SynSent" | FinSent => bs "FinSent"
  | ResetReceived => bs "ResetReceived" | Closed => bs "Closed"
  end.
Definition PacketType_debug (t : PacketType) : list Z :=
  match t with
  | Data => bs "Data" | Fin => bs "Fin" | State => bs "State" | Reset => bs "Reset" | Syn => bs "Syn"
  end.

Record DelayDifferenceSample : Type := mkSample { received_at : Z; difference : Z }.

(** The fields of the source but the wrapped UDP socket, which is the world below.
    [sk_seq_nr] and [sk_ack_nr] are the socket's [seq_nr] and [ack_nr]. *)
Record UtpSocket : Type := mkSocket {
  connected_to : SocketAddr;
  sender_connection_id : Z;
  receiver_connection_id : Z;
  sk_seq_nr : Z;
  sk_ack_nr : Z;
  state : SocketState;
  incoming_buffer : list Packet;
  send_window : list Packet;
  unsent_queue : list Packet;
  duplicate_ack_count : Z;
  last_acked : Z;
  last_acked_timestamp : Z;
  last_dropped : Z;
  rtt : Z;
  rtt_variance : Z;
  pending_data : list Z;
  curr_window : Z;
  remote_wnd_size : Z;
  base_delays : list Z;
  current_delays : list DelayDifferenceSample;
  their_delay : Z;
  last_rollover : Z;
  congestion_timeout : Z;
  cwnd : Z;
  max_retransmission_retries : Z
}.

(** Field assignment. *)
Definition with_connected_to (v : SocketAddr) (s : UtpSocket) : UtpSocket :=
  mkSocket v (sender_connection_id s) (receiver_connection_id s) (sk_seq_nr s) (sk_ack_nr s) (state s)
    (incoming_buffer s) (send_window s) (unsent_queue s) (duplicate_ack_count s) (last_acked s)
    (last_acked_timestamp s) (last_dropped s) (rtt s) (rtt_variance s) (pending_data s) (curr_window s)
    (remote_wnd_size s) (base_delays s) (current_delays s) (their_delay s) (last_rollover s)
    (congestion_timeout s) (cwnd s) (max_retransmission_retries s).
Definition with_sender_connection_id (v : Z) (s : UtpSocket) : UtpSocket :=
  mkSocket (connected_to s) v (receiver_connection_id s) (sk_seq_nr s) (sk_ack_nr s) (state s)
    (incoming_buffer s) (send_window s) (unsent_queue s) (duplicate_ack_count s) (last_acked s)
    (last_acked_timestamp s) (last_dropped s) (rtt s) (rtt_variance s) (pending_data s) (curr_window s)
    (remote_wnd_size s) (base_delays s) (current_delays s) (their_delay s) (last_rollover s)
    (congestion_timeout s) (cwnd s) (max_retransmission_retries s).
Definition with_receiver_connection_id (v : Z) (s : UtpSocket) : UtpSocket :=
  mkSocket (connected_to s) (sender_connection_id s) v (sk_seq_nr s) (sk_ack_nr s) (state s)
    (incoming_buffer s) (send_window s) (unsent_queue s) (duplicate_ack_count s) (last_acked s)
    (last_acked_timestamp s) (last_dropped s) (rtt s) (rtt_variance s) (pending_data s) (curr_window s)
    (remote_wnd_size s) (base_delays s) (current_delays s) (their_delay s) (last_rollover s)
    (congestion_timeout s) (cwnd s) (max_retransmission_retries s).
Definition with_seq_nr (v : Z) (s : UtpSocket) : UtpSocket :=
  mkSocket (connected_to s) (sender_connection_id s) (receiver_connection_id s) v (sk_ack_nr s) (state s)
    (incoming_buffer s) (send_window s) (unsent_queue s) (duplicate_ack_count s) (last_acked s)
    (last_acked_timestamp s) (last_dropped s) (rtt s) (rtt_variance s) (pending_data s) (curr_window s)
    (remote_wnd_size s) (base_delays s) (current_delays s) (their_delay s) (last_rollover s)
    (congestion_timeout s) (cwnd s) (max_retransmission_retries s).
Definition with_ack_nr (v : Z) (s : UtpSocket) : UtpSocket :=
  mkSocket (connected_to s) (sender_connection_id s) (receiver_connection_id s) (sk_seq_nr s) v (state s)
    (incoming_buffer s) (send_window s) (unsent_queue s) (duplicate_ack_count s) (last_acked s)
    (last_acked_timestamp s) (last_dropped s) (rtt s) (rtt_variance s) (pending_data s) (curr_window s)
    (remote_wnd_size s) (base_delays s) (current_delays s) (their_delay s) (last_rollover s)
    (congestion_timeout s) (cwnd s) (max_retransmission_retries s).
Definition with_state (v : SocketState) (s : UtpSocket) : UtpSocket :=
  mkSocket (connected_to s) (sender_connection_id s) (receiver_connection_id s) (sk_seq_nr s) (sk_ack_nr s) v
    (incoming_buffer s) (send_window s) (unsent_queue s) (duplicate_ack_count s) (last_acked s)
    (last_acked_timestamp s) (last_dropped s) (rtt s) (rtt_variance s) (pending_data s) (curr_window s)
    (remote_wnd_size s) (base_delays s) (current_delays s) (their_delay s) (last_rollover s)
    (congestion_timeout s) (cwnd s) (max_retransmission_retries s).
Definition with_incoming_buffer (v : list Packet) (s : UtpSocket) : UtpSocket :=
  mkSocket (connected_to s) (sender_connection_id s) (receiver_connection_id s) (sk_seq_nr s) (sk_ack_nr s)
    (state s) v (send_window s) (unsent_queue s) (duplicate_ack_count s) (last_acked s)
    (last_acked_timestamp s) (last_dropped s) (rtt s) (rtt_variance s) (pending_data s) (curr_window s)
    (remote_wnd_size s) (base_delays s) (current_delays s) (their_delay s) (last_rollover s)
    (congestion_timeout s) (cwnd s) (max_retransmission_retries s).
Definition with_send_window (v : list Packet) (s : UtpSocket) : UtpSocket :=
  mkSocket (connected_to s) (sender_connection_id s) (receiver_connection_id s) (sk_seq_nr s) (sk_ack_nr s)
    (state s) (incoming_buffer s) v (unsent_queue s) (duplicate_ack_count s) (last_acked s)
    (last_acked_timestamp s) (last_dropped s) (rtt s) (rtt_variance s) (pending_data s) (curr_window s)
    (remote_wnd_size s) (base_delays s) (current_delays s) (their_delay s) (last_rollover s)
    (congestion_timeout s) (cwnd s) (max_retransmission_retries s).
Definition with_unsent_queue (v : list Packet) (s : UtpSocket) : UtpSocket :=
  mkSocket (connected_to s) (sender_connection_id s) (receiver_connection_id s) (sk_seq_nr s) (sk_ack_nr s)
    (state s) (incoming_buffer s) (send_window s) v (duplicate_ack_count s) (last_acked s)
    (last_acked_timestamp s) (last_dropped s) (rtt s) (rtt_variance s) (pending_data s) (curr_window s)
    (remote_wnd_size s) (base_delays s) (current_delays s) (their_delay s) (last_rollover s)
    (congestion_timeout s) (cwnd s) (max_retransmission_retries s).
Definition with_duplicate_ack_count (v : Z) (s : UtpSocket) : UtpSocket :=
  mkSocket (connected_to s) (sender_connection_id s) (receiver_connection_id s) (sk_seq_nr s) (sk_ack_nr s)
    (state s) (incoming_buffer s) (send_window s) (unsent_queue s) v (last_acked s) (last_acked_timestamp s)
    (last_dropped s) (rtt s) (rtt_variance s) (pending_data s) (curr_window s) (remote_wnd_size s)
    (base_delays s) (current_delays s) (their_delay s) (last_rollover s) (congestion_timeout s) (cwnd s)
    (max_retransmission_retries s).
Definition with_last_acked (v : Z) (s : UtpSocket) : UtpSocket :=
  mkSocket (connected_to s) (sender_connection_id s) (receiver_connection_id s) (sk_seq_nr s) (sk_ack_nr s)
    (state s) (incoming_buffer s) (send_window s) (unsent_queue s) (duplicate_ack_count s) v
    (last_acked_timestamp s) (last_dropped s) (rtt s) (rtt_variance s) (pending_data s) (curr_window s)
    (remote_wnd_size s) (base_delays s) (current_delays s) (their_delay s) (last_rollover s)
    (congestion_timeout s) (cwnd s) (max_retransmission_retries s).
Definition with_last_acked_timestamp (v : Z) (s : UtpSocket) : UtpSocket :=
  mkSocket (connected_to s) (sender_connection_id s) (receiver_connection_id s) (sk_seq_nr s) (sk_ack_nr s)
    (state s) (incoming_buffer s) (send_window s) (unsent_queue s) (duplicate_ack_count s) (last_acked s) v
    (last_dropped s) (rtt s) (rtt_variance s) (pending_data s) (curr_window s) (remote_wnd_size s)
    (base_delays s) (current_delays s) (their_delay s) (last_rollover s) (congestion_timeout s) (cwnd s)
    (max_retransmission_retries s).
Definition with_last_dropped (v : Z) (s : UtpSocket) : UtpSocket :=
  mkSocket (connected_to s) (sender_connection_id s) (receiver_connection_id s) (sk_seq_nr s) (sk_ack_nr s)
    (state s) (incoming_buffer s) (send_window s) (unsent_queue s) (duplicate_ack_count s) (last_acked s)
    (last_acked_timestamp s) v (rtt s) (rtt_variance s) (pending_data s) (curr_window s) (remote_wnd_size s)
    (base_delays s) (current_delays s) (their_delay s) (last_rollover s) (congestion_timeout s) (cwnd s)
    (max_retransmission_retries s).
Definition with_rtt (v : Z) (s : UtpSocket) : UtpSocket :=
  mkSocket (connected_to s) (sender_connection_id s) (receiver_connection_id s) (sk_seq_nr s) (sk_ack_nr s)
    (state s) (incoming_buffer s) (send_window s) (unsent_queue s) (duplicate_ack_count s) (last_acked s)
    (last_acked_timestamp s) (last_dropped s) v (rtt_variance s) (pending_data s) (curr_window s)
    (remote_wnd_size s) (base_delays s) (current_delays s) (their_delay s) (last_rollover s)
    (congestion_timeout s) (cwnd s) (max_retransmission_retries s).
Definition with_rtt_variance (v : Z) (s : UtpSocket) : UtpSocket :=
  mkSocket (connected_to s) (sender_connection_id s) (receiver_connection_id s) (sk_seq_nr s) (sk_ack_nr s)
    (state s) (incoming_buffer s) (send_window s) (unsent_queue s) (duplicate_ack_count s) (last_acked s)
    (last_acked_timestamp s) (last_dropped s) (rtt s) v (pending_data s) (curr_window s) (remote_wnd_size s)
    (base_delays s) (current_delays s) (their_delay s) (last_rollover s) (congestion_timeout s) (cwnd s)
    (max_retransmission_retries s).
Definition with_pending_data (v : list Z) (s : UtpSocket) : UtpSocket :=
  mkSocket (connected_to s) (sender_connection_id s) (receiver_connection_id s) (sk_seq_nr s) (sk_ack_nr s)
    (state s) (incoming_buffer s) (send_window s) (unsent_queue s) (duplicate_ack_count s) (last_acked s)
    (last_acked_timestamp s) (last_dropped s) (rtt s) (rtt_variance s) v (curr_window s) (remote_wnd_size s)
    (base_delays s) (current_delays s) (their_delay s) (last_rollover s) (congestion_timeout s) (cwnd s)
    (max_retransmission_retries s).
Definition with_curr_window (v : Z) (s : UtpSocket) : UtpSocket :=
  mkSocket (connected_to s) (sender_connection_id s) (receiver_connection_id s) (sk_seq_nr s) (sk_ack_nr s)
    (state s) (incoming_buffer s) (send_window s) (unsent_queue s) (duplicate_ack_count s) (last_acked s)
    (last_acked_timestamp s) (last_dropped s) (rtt s) (rtt_variance s) (pending_data s) v (remote_wnd_size s)
    (base_delays s) (current_delays s) (their_delay s) (last_rollover s) (congestion_timeout s) (cwnd s)
    (max_retransmission_retries s).
Definition with_remote_wnd_size (v : Z) (s : UtpSocket) : UtpSocket :=
  mkSocket (connected_to s) (sender_connection_id s) (receiver_connection_id s) (sk_seq_nr s) (sk_ack_nr s)
    (state s) (incoming_buffer s) (send_window s) (unsent_queue s) (duplicate_ack_count s) (last_acked s)
    (last_acked_timestamp s) (last_dropped s) (rtt s) (rtt_variance s) (pending_data s) (curr_window s) v
    (base_delays s) (current_delays s) (their_delay s) (last_rollover s) (congestion_timeout s) (cwnd s)
    (max_retransmission_retries s).
Definition with_base_delays (v : list Z) (s : UtpSocket) : UtpSocket :=
  mkSocket (connected_to s) (sender_connection_id s) (receiver_connection_id s) (sk_seq_nr s) (sk_ack_nr s)
    (state s) (incoming_buffer s) (send_window s) (unsent_queue s) (duplicate_ack_count s) (last_acked s)
    (last_acked_timestamp s) (last_dropped s) (rtt s) (rtt_variance s) (pending_data s) (curr_window s)
    (remote_wnd_size s) v (current_delays s) (their_delay s) (last_rollover s) (congestion_timeout s) (cwnd s)
    (max_retransmission_retries s).
Definition with_current_delays (v : list DelayDifferenceSample) (s : UtpSocket) : UtpSocket :=
  mkSocket (connected_to s) (sender_connection_id s) (receiver_connection_id s) (sk_seq_nr s) (sk_ack_nr s)
    (state s) (incoming_buffer s) (send_window s) (unsent_queue s) (duplicate_ack_count s) (last_acked s)
    (last_acked_timestamp s) (last_dropped s) (rtt s) (rtt_variance s) (pending_data s) (curr_window s)
    (remote_wnd_size s) (base_delays s) v (their_delay s) (last_rollover s) (congestion_timeout s) (cwnd s)
    (max_retransmission_retries s).
Definition with_their_delay (v : Z) (s : UtpSocket) : UtpSocket :=
  mkSocket (connected_to s) (sender_connection_id s) (receiver_connection_id s) (sk_seq_nr s) (sk_ack_nr s)
    (state s) (incoming_buffer s) (send_window s) (unsent_queue s) (duplicate_ack_count s) (last_acked s)
    (last_acked_timestamp s) (last_dropped s) (rtt s) (rtt_variance s) (pending_data s) (curr_window s)
    (remote_wnd_size s) (base_delays s) (current_delays s) v (last_rollover s) (congestion_timeout s) (cwnd s)
    (max_retransmission_retries s).
Definition with_last_rollover (v : Z) (s : UtpSocket) : UtpSocket :=
  mkSocket (connected_to s) (sender_connection_id s) (receiver_connection_id s) (sk_seq_nr s) (sk_ack_nr s)
    (state s) (incoming_buffer s) (send_window s) (unsent_queue s) (duplicate_ack_count s) (last_acked s)
    (last_acked_timestamp s) (last_dropped s) (rtt s) (rtt_variance s) (pending_data s) (curr_window s)
    (remote_wnd_size s) (base_delays s) (current_delays s) (their_delay s) v (congestion_timeout s) (cwnd s)
    (max_retransmission_retries s).
Definition with_congestion_timeout (v : Z) (s : UtpSocket) : UtpSocket :=
  mkSocket (connected_to s) (sender_connection_id s) (receiver_connection_id s) (sk_seq_nr s) (sk_ack_nr s)
    (state s) (incoming_buffer s) (send_window s) (unsent_queue s) (duplicate_ack_count s) (last_acked s)
    (last_acked_timestamp s) (last_dropped s) (rtt s) (rtt_variance s) (pending_data s) (curr_window s)
    (remote_wnd_size s) (base_delays s) (current_delays s) (their_delay s) (last_rollover s) v (cwnd s)
    (max_retransmission_retries s).
Definition with_cwnd (v : Z) (s : UtpSocket) : UtpSocket :=
  mkSocket (connected_to s) (sender_connection_id s) (receiver_connection_id s) (sk_seq_nr s) (sk_ack_nr s)
    (state s) (incoming_buffer s) (send_window s) (unsent_queue s) (duplicate_ack_count s) (last_acked s)
    (last_acked_timestamp s) (last_dropped s) (rtt s) (rtt_variance s) (pending_data s) (curr_window s)
    (remote_wnd_size s) (base_delays s) (current_delays s) (their_delay s) (last_rollover s)
    (congestion_timeout s) v (max_retransmission_retries s).
Definition with_max_retransmission_retries (v : Z) (s : UtpSocket) : UtpSocket :=
  mkSocket (connected_to s) (sender_connection_id s) (receiver_connection_id s) (sk_seq_nr s) (sk_ack_nr s)
    (state s) (incoming_buffer s) (send_window s) (unsent_queue s) (duplicate_ack_count s) (last_acked s)
    (last_acked_timestamp s) (last_dropped s) (rtt s) (rtt_variance s) (pending_data s) (curr_window s)
    (remote_wnd_size s) (base_delays s) (current_delays s) (their_delay s) (last_rollover s)
    (congestion_timeout s) (cwnd s) v.

(** ** The world *)

(** What a [recv_from] on the UDP socket returns. *)
Inductive recv_event : Type :=
| Datagram (data : list Z) (src : SocketAddr)
| RecvError (e : io_error).

(** The surrounding system: the reading of the clock (seconds and nanoseconds since
    the epoch) at its [n]th use, the outcome of the [n]th send, the [n]th number drawn
    and the outcome of binding a UDP socket to an address. *)
Class UtpEnv : Type := {
  system_time : nat -> Z * Z;
  send_result : nat -> option io_error;
  random_u16 : nat -> Z;
  bind_result : SocketAddr -> option io_error
}.

Record World : Type := mkWorld {
  inbox : list recv_event;
  outbox : list (list Z * SocketAddr);
  clock_reads : nat;
  sends : nat;
  draws : nat
}.

Record st : Type := mkSt { sk : UtpSocket; world : World }.

(** [Blocked] is a receive without a further event: the call does not return. *)
Inductive out (A : Type) : Type :=
| Ret (a : A) (s : st)
| Raise (e : io_error) (s : st)
| Blocked (s : st)
| Panicked
| NoFuel.
Arguments Ret {A} a s.
Arguments Raise {A} e s.
Arguments Blocked {A} s.
Arguments Panicked {A}.
Arguments NoFuel {A}.

Definition M (A : Type) : Type := st -> out A.

Definition ret {A} (a : A) : M A := fun s => Ret a s.
Definition bind {A B} (m : M A) (k : A -> M B) : M B := fun s =>
  match m s with
  | Ret a s => k a s
  | Raise e s => Raise e s
  | Blocked s => Blocked s
  | Panicked => Panicked
  | NoFuel => NoFuel
  end.

Declare Scope utp_scope.
Delimit Scope utp_scope with utp.
#[global] Open Scope utp_scope.

Notation "'let!' x := m 'in' k" := (bind m (fun x => k))
  (at level 10, x pattern, m at level 200, k at level 200,
   format "'[v' 'let!'  x  :=  m  'in'  '/' k ']'") : utp_scope.

Definition raise {A} (e : SocketError) : M A := fun s => Raise (SocketError_into_io e) s.
Definition rethrow {A} (e : io_error) : M A := fun s => Raise e s.
Definition panic {A} : M A := fun _ => Panicked.
Definition nofuel {A} : M A := fun _ => NoFuel.
Definition gets {A} (f : UtpSocket -> A) : M A := fun s => Ret (f (sk s)) s.
Definition modify (f : UtpSocket -> UtpSocket) : M unit := fun s => Ret tt (mkSt (f (sk s)) (world s)).

(** The [Result] of a call as a value. *)
Definition attempt {A} (m : M A) : M (io_error + A) := fun s =>
  match m s with
  | Ret a s => Ret (inr a) s
  | Raise e s => Ret (inl e) s
  | Blocked s => Blocked s
  | Panicked => Panicked
  | NoFuel => NoFuel
  end.

(** Packet accessors return the [res] of file [UtpPacket]. *)
Definition lift {A} (r : res ParseError A) : M A := fun s =>
  match r with
  | Ok a => Ret a s
  | Err e => Raise (ParseError_into_io e) s
  | Panic => Panicked
  | OutOfFuel => NoFuel
  end.

(** Arithmetic in range or a panic, as in builds with overflow checks. *)
Definition checked_u (w n : Z) : M Z := if decide (in_unsigned w n) then ret n else panic.
Definition checked_s (w n : Z) : M Z := if decide (in_signed w n) then ret n else panic.

Definition when (b : bool) (m : M unit) : M unit := if b then m else ret tt.

Section Effects.
Context `{UtpEnv}.

Definition now_microseconds : M Z := fun s =>
  let w := world s in
  let '(secs, nanos) := system_time (clock_reads w) in
  Ret (timestamp_of secs nanos)
    (mkSt (sk s) (mkWorld (inbox w) (outbox w) (S (clock_reads w)) (sends w) (draws w))).

(** [rand::random::<u16>()]. *)
Definition draw_u16 : M Z := fun s =>
  let w := world s in
  Ret (as_u16 (random_u16 (draws w)))
    (mkSt (sk s) (mkWorld (inbox w) (outbox w) (clock_reads w) (sends w) (S (draws w)))).

(** [UdpSocket::send_to]. *)
Definition udp_send (data : list Z) (to : SocketAddr) : M unit := fun s =>
  let w := world s in
  match send_result (sends w) with
  | None => Ret tt (mkSt (sk s) (mkWorld (inbox w) (outbox w ++ [(data, to)]) (clock_reads w) (S (sends w)) (draws w)))
  | Some e => Raise e (mkSt (sk s) (mkWorld (inbox w) (outbox w) (clock_reads w) (S (sends w)) (draws w)))
  end.

(** [UdpSocket::recv_from] into a buffer of [n] bytes: what does not fit is lost. *)
Definition udp_recv (n : nat) : M (list Z * SocketAddr) := fun s =>
  let w := world s in
  match inbox w with
  | [] => Blocked s
  | e :: rest =>
      let s := mkSt (sk s) (mkWorld rest (outbox w) (clock_reads w) (sends w) (draws w)) in
      match e with
      | Datagram data src => Ret (take n data, src) s
      | RecvError e => Raise e s
      end
  end.

(** [set_read_timeout(..).expect(..)]: a duration of zero is an error. *)
Definition udp_set_read_timeout (timeout_ms : option Z) : M unit :=
  match timeout_ms with
  | Some 0 => panic
  | _ => ret tt
  end.

End Effects.

(** The datagrams still to come bound every loop that receives. *)
Definition events_left (s : st) : nat := length (inbox (world s)).
Definition with_events {A} (f : nat -> M A) : M A := fun s => f (S (events_left s)) s.
