(* ===== verification/UtpSocket.v ===== *)
(** * The uTP socket

    Model of [utp/socket.rs] and [utp/stream.rs]: the connection state machine, the
    receive buffer, selective acknowledgements, the send window, LEDBAT congestion
    control and timeouts. The methods are those of the source in the monad of file
    [UtpWorld]. A buffer argument [buf : &mut [u8]] is its length, and the bytes
    copied into it are returned; the number of bytes read is their length. [recv]
    reaches itself through the resending of lost packets, which waits for room in the
    window, so the methods on that cycle take the inner [recv] as an argument and
    [recv_fuel] ties the knot. *)

From S2P Require Import Prelude RustStd Words UtilConvert UtpPacket UtpWorld.

Definition BUF_SIZE : nat := 1500.
Definition GAIN : f64 := f64_from 1.
Definition ALLOWED_INCREASE : Z := 1.
Definition TARGET : f64 := f64_from 100000.
Definition MSS : Z := 1400.
Definition MIN_CWND : Z := 2.
Definition INIT_CWND : Z := 2.
Definition INITIAL_CONGESTION_TIMEOUT : Z := 2000.
Definition MIN_CONGESTION_TIMEOUT : Z := 500.
Definition MAX_CONGESTION_TIMEOUT : Z := 60000.
Definition BASE_HISTORY : nat := 10.
Definition MAX_SYN_RETRIES : nat := 5.
Definition MAX_RETRANSMISSION_RETRIES : Z := 5.
Definition WINDOW_SIZE : Z := 1024 * 1024.
Definition PRE_SEND_TIMEOUT : Z := 500000.
Definition MAX_BASE_DELAY_AGE : Z := 60000000.

Definition state_is (x : SocketState) (s : UtpSocket) : bool := bool_decide (state s = x).
Definition u16_wrapping_sub (a b : Z) : Z := as_u16 (a - b).
Definition packet_len (p : Packet) : Z := Z.of_nat (length (raw p)).

(** [id] is the identifier drawn for the connection. *)
Definition from_raw_parts (id : Z) (src : SocketAddr) : UtpSocket :=
  let '(receiver_id, sender_id) := generate_sequential_identifiers id in
  mkSocket src sender_id receiver_id 1 0 New [] [] [] 0 0 0 0 0 0 [] 0 0 [] [] 0 0
    INITIAL_CONGESTION_TIMEOUT (INIT_CWND * MSS) MAX_RETRANSMISSION_RETRIES.

Definition peer_addr (s : UtpSocket) : res SocketError SocketAddr :=
  if state_is Connected s || state_is FinSent s then Ok (connected_to s) else Err NotConnected.

(** [try_clone]: every field is copied, the UDP socket is shared. *)
Definition try_clone (s : UtpSocket) : UtpSocket :=
  mkSocket (connected_to s) (sender_connection_id s) (receiver_connection_id s) (sk_seq_nr s) (sk_ack_nr s) (state s)
    (incoming_buffer s) (send_window s) (unsent_queue s) (duplicate_ack_count s) (last_acked s) (last_acked_timestamp s)
    (last_dropped s) (rtt s) (rtt_variance s) (pending_data s) (curr_window s) (remote_wnd_size s) (base_delays s)
    (current_delays s) (their_delay s) (last_rollover s) (congestion_timeout s) (cwnd s) (max_retransmission_retries s).

Section Operations.
Context `{UtpEnv}.

(** ** Replies *)

Definition prepare_reply (original : Packet) (t : PacketType) : M Packet :=
  let resp := Packet_set_type Packet_new t in
  let! self_t_micro := now_microseconds in
  let other_t_micro := timestamp original in
  let time_difference := abs_diff self_t_micro other_t_micro in
  let resp := set_timestamp resp self_t_micro in
  let resp := set_timestamp_difference resp time_difference in
  let! s := gets id in
  ret (set_ack_nr (set_seq_nr (set_connection_id resp (sender_connection_id s)) (sk_seq_nr s)) (sk_ack_nr s)).

(** The FIN of [close] and of [handle_receive_timeout]. *)
Definition fin_packet : M Packet :=
  let! s := gets id in
  let packet := set_connection_id Packet_new (sender_connection_id s) in
  let packet := set_seq_nr packet (sk_seq_nr s) in
  let packet := set_ack_nr packet (sk_ack_nr s) in
  let! now := now_microseconds in
  ret (Packet_set_type (set_timestamp packet now) Fin).

(** [for _ in 0..3] with the results of the sends ignored. *)
Definition send_fast_resend_request_once : M unit :=
  let packet := Packet_set_type Packet_new State in
  let! self_t_micro := now_microseconds in
  let! s := gets id in
  let packet := set_timestamp packet self_t_micro in
  let packet := set_timestamp_difference packet (their_delay s) in
  let packet := set_connection_id packet (sender_connection_id s) in
  let packet := set_seq_nr packet (sk_seq_nr s) in
  let packet := set_ack_nr packet (sk_ack_nr s) in
  let! _ := attempt (udp_send (raw packet) (connected_to s)) in
  ret tt.
Definition send_fast_resend_request : M unit :=
  let! _ := send_fast_resend_request_once in
  let! _ := send_fast_resend_request_once in
  send_fast_resend_request_once.

Definition handle_receive_timeout : M unit :=
  let! s := gets id in
  let! doubled := checked_u 64 (congestion_timeout s * 2) in
  let! _ := modify (with_congestion_timeout doubled) in
  let! _ := modify (with_cwnd MSS) in
  match send_window s with
  | [] =>
      if state_is FinSent s then
        let! packet := fin_packet in
        udp_send (raw packet) (connected_to s)
      else if negb (state_is New s) then send_fast_resend_request
      else ret tt
  | packet :: rest =>
      let! now := now_microseconds in
      let packet := set_timestamp packet now in
      let! _ := modify (with_send_window (packet :: rest)) in
      udp_send (raw packet) (connected_to s)
  end.

(** ** The receive buffer *)

Definition advance_incoming_buffer : M (option Packet) :=
  let! s := gets id in
  match incoming_buffer s with
  | packet :: rest =>
      let! _ := modify (with_incoming_buffer rest) in
      let! _ := modify (with_ack_nr (seq_nr packet)) in
      let! _ := modify (with_last_dropped (seq_nr packet)) in
      ret (Some packet)
  | [] => ret None
  end.

(** [unsafe_copy]: the prefix of [src] that fits the destination. *)
Definition unsafe_copy (src : list Z) (dst_len : nat) : list Z := take (Nat.min (length src) dst_len) src.

Definition is_nil {A} (l : list A) : bool := match l with [] => true | _ => false end.

(** The rest of a partially read packet; the next packet follows it. *)
Definition flush_pending (pending : list Z) (buf : nat) : M (list Z) :=
  let flushed := unsafe_copy pending buf in
  let! _ :=
    if (length flushed =? length pending)%nat then
      let! _ := modify (with_pending_data []) in
      let! o := advance_incoming_buffer in
      match o with
      | Some package => let! pl := lift (payload package) in modify (with_pending_data pl)
      | None => ret tt
      end
    else modify (with_pending_data (drop (length flushed) pending)) in
  ret flushed.

(** The first packet of the buffer, what does not fit is kept as pending. *)
Definition flush_first (first : Packet) (buf : nat) : M (list Z) :=
  let! pl := lift (payload first) in
  let flushed := unsafe_copy pl buf in
  let! _ :=
    if (length flushed =? length pl)%nat then ret tt
    else modify (with_pending_data (drop (length flushed) pl)) in
  let! _ := advance_incoming_buffer in
  ret flushed.

(** [ack_nr == first.seq_nr() || ack_nr + 1 == first.seq_nr()]. *)
Definition is_next (ack : Z) (first : Packet) : M bool :=
  if ack =? seq_nr first then ret true
  else let! succ := checked_u 16 (ack + 1) in ret (succ =? seq_nr first).

Definition flush_incoming_buffer (buf : nat) : M (list Z) :=
  let! s := gets id in
  if negb (is_nil (pending_data s)) then flush_pending (pending_data s) buf
  else
    match incoming_buffer s with
    | [] => ret []
    | first :: _ =>
        let! next := is_next (sk_ack_nr s) first in
        if next then flush_first first buf else ret []
    end.

(** The buffer after the insertion. *)
Definition buffer_insert (packet : Packet) (buffer : list Packet) : list Packet :=
  if match last buffer with Some p => seq_nr p <? seq_nr packet | None => false end then buffer ++ [packet]
  else
    let i := length (filter (fun p => seq_nr p < seq_nr packet) buffer) in
    if match buffer !! i with Some p => negb (seq_nr p =? seq_nr packet) | None => true end
    then take i buffer ++ packet :: drop i buffer
    else buffer.

Definition insert_into_buffer (packet : Packet) : M unit :=
  modify (fun s => with_incoming_buffer (buffer_insert packet (incoming_buffer s)) s).

(** ** Selective acknowledgements *)

(** [while byte >= sack.len() || sack.len() % 4 != 0 { sack.push(0) }]. *)
Fixpoint sack_pad (fuel : nat) (byte : nat) (sack : list Z) : list Z :=
  match fuel with
  | O => sack
  | S fuel =>
      if (length sack <=? byte)%nat || negb (length sack mod 4 =? 0)%nat then sack_pad fuel byte (sack ++ [0])
      else sack
  end.

(** The vector reaches a multiple of four above [byte] within these rounds. *)
Definition pad_fuel (byte : nat) : nat := byte + 4.

Definition sack_set (diff : nat) (sack : list Z) : list Z :=
  let byte := (diff / 8)%nat in
  let bit := (diff mod 8)%nat in
  let sack := sack_pad (pad_fuel byte) byte sack in
  <[byte := Z.lor (sack !!! byte) (Z.shiftl 1 (Z.of_nat bit))]> sack.

(** The loop over the filtered and mapped packets. *)
Fixpoint selective_ack_loop (ack : Z) (packets : list Packet) (sack : list Z) : M (list Z) :=
  match packets with
  | [] => ret sack
  | pkt :: packets =>
      let! succ := checked_u 16 (ack + 1) in
      if succ <? seq_nr pkt then
        let! diff := checked_u 16 (seq_nr pkt - ack) in
        let! diff := checked_u 16 (diff - 2) in
        selective_ack_loop ack packets (sack_set (Z.to_nat diff) sack)
      else selective_ack_loop ack packets sack
  end.

Definition build_selective_ack : M (list Z) :=
  let! s := gets id in
  selective_ack_loop (sk_ack_nr s) (incoming_buffer s) [].

(** [if !sack.is_empty() { reply.set_sack(sack) }] when the packet is not in order;
    shared by the handling of data and of FIN packets. *)
Definition reply_with_sack (packet reply : Packet) : M Packet :=
  let! s := gets id in
  if 1 <? u16_wrapping_sub (seq_nr packet) (sk_ack_nr s) then
    let! sack := build_selective_ack in
    if is_nil sack then ret reply else lift (set_sack reply sack)
  else ret reply.

Definition handle_data_packet (packet : Packet) : M (option Packet) :=
  let! s := gets id in
  let packet_type := if state_is FinSent s then Fin else State in
  let! reply := prepare_reply packet packet_type in
  let! reply := reply_with_sack packet reply in
  ret (Some reply).

(** ** Delays and congestion control *)

Definition update_base_delay (base_delay now : Z) (s : UtpSocket) : UtpSocket :=
  if is_nil (base_delays s) || (MAX_BASE_DELAY_AGE <? Timestamp_sub now (last_rollover s)) then
    let s := with_last_rollover now s in
    let delays := if (length (base_delays s) =? BASE_HISTORY)%nat then drop 1 (base_delays s) else base_delays s in
    with_base_delays (delays ++ [base_delay]) s
  else
    let last_idx := (length (base_delays s) - 1)%nat in
    if base_delay <? base_delays s !!! last_idx then with_base_delays (<[last_idx := base_delay]> (base_delays s)) s
    else s.

(** [while !samples.is_empty() && now - samples[0].received_at > rtt { samples.remove(0) }]. *)
Fixpoint drop_old_samples (now limit : Z) (samples : list DelayDifferenceSample) : list DelayDifferenceSample :=
  match samples with
  | x :: rest => if limit <? Timestamp_sub now (received_at x) then drop_old_samples now limit rest else samples
  | [] => []
  end.

Definition update_current_delay (v now : Z) (s : UtpSocket) : UtpSocket :=
  let limit := rtt s * 100 in
  with_current_delays (drop_old_samples now limit (current_delays s) ++ [mkSample now v]) s.

Definition update_congestion_timeout (current_delay : Z) : M unit :=
  let! s := gets id in
  let! delta := checked_s 32 (rtt s - current_delay) in
  let! distance := checked_s 32 (Z.abs delta) in
  let! change := checked_s 32 (distance - rtt_variance s) in
  let! variance := checked_s 32 (rtt_variance s + Z.quot change 4) in
  let! _ := modify (with_rtt_variance variance) in
  let! change := checked_s 32 (current_delay - rtt s) in
  let! new_rtt := checked_s 32 (rtt s + Z.quot change 8) in
  let! _ := modify (with_rtt new_rtt) in
  let! spread := checked_s 32 (variance * 4) in
  let! estimate := checked_s 32 (new_rtt + spread) in
  let! _ := modify (with_congestion_timeout (Z.max (as_u64 estimate) MIN_CONGESTION_TIMEOUT)) in
  modify (fun s => with_congestion_timeout (Z.min (congestion_timeout s) MAX_CONGESTION_TIMEOUT) s).

Definition filtered_current_delay (s : UtpSocket) : Z :=
  f64_as_i64 (ewma (map difference (current_delays s)) F64_0_333).

(** [iter().min().cloned().unwrap_or_default()]. *)
Definition min_base_delay (s : UtpSocket) : Z :=
  match base_delays s with
  | [] => 0
  | d :: rest => foldl Z.min d rest
  end.

Definition queuing_delay : M Z :=
  let! s := gets id in
  checked_s 64 (filtered_current_delay s - min_base_delay s).

(** The new window before its bounds are applied. *)
Definition ledbat_cwnd (off_target : f64) (bytes_newly_acked cwnd : Z) : Z :=
  let cwnd_increase := f64_mul (f64_mul (f64_mul GAIN off_target) (f64_from bytes_newly_acked)) (f64_from MSS) in
  let cwnd_increase := f64_div cwnd_increase (f64_from cwnd) in
  f64_as_u32 (f64_add (f64_from cwnd) cwnd_increase).

Definition update_congestion_window (off_target : f64) (bytes_newly_acked : Z) : M unit :=
  let! s := gets id in
  let flightsize := curr_window s in
  let! _ := modify (with_cwnd (ledbat_cwnd off_target bytes_newly_acked (cwnd s))) in
  let! max_allowed_cwnd := checked_u 32 (flightsize + ALLOWED_INCREASE * MSS) in
  let! _ := modify (fun s => with_cwnd (Z.min (cwnd s) max_allowed_cwnd) s) in
  modify (fun s => with_cwnd (Z.max (cwnd s) (MIN_CWND * MSS)) s).

(** The first part of [handle_state_packet]. *)
Definition count_duplicate_ack (packet : Packet) : M unit :=
  let! s := gets id in
  if ack_nr packet =? last_acked s then
    let! n := checked_u 32 (duplicate_ack_count s + 1) in
    modify (with_duplicate_ack_count n)
  else
    let! _ := modify (with_last_acked (ack_nr packet)) in
    let! now := now_microseconds in
    let! _ := modify (with_last_acked_timestamp now) in
    modify (with_duplicate_ack_count 1).

(** The second part: congestion window and timeout when a sent packet is acknowledged. *)
Definition update_congestion (packet : Packet) : M unit :=
  let! s := gets id in
  match position (fun p => ack_nr packet =? seq_nr p) (send_window s) with
  | Some index =>
      let bytes_newly_acked := foldl (fun acc p => acc + packet_len p) 0 (take (index + 1) (send_window s)) in
      let! now := now_microseconds in
      let our_delay := Timestamp_sub now (timestamp (send_window s !!! index)) in
      let! _ := modify (update_base_delay our_delay now) in
      let! _ := modify (update_current_delay our_delay now) in
      let! delay := queuing_delay in
      let off_target := f64_div (f64_sub TARGET (f64_from (Delay_to_u32 delay))) TARGET in
      let! _ := update_congestion_window off_target (as_u32 bytes_newly_acked) in
      let! delay := queuing_delay in
      let! difference := checked_s 64 (our_delay - delay) in
      let rtt := Delay_to_u32 difference / 1000 in
      update_congestion_timeout (swrap 32 rtt)
  | None => ret tt
  end.

(** ** The send window *)

(** [for _ in 0..n { let packet = send_window.remove(0); curr_window -= packet.len() }]. *)
Fixpoint remove_acked (n : nat) : M unit :=
  match n with
  | O => ret tt
  | S n =>
      let! s := gets id in
      match send_window s with
      | [] => panic
      | packet :: rest =>
          let! _ := modify (with_send_window rest) in
          let! window := checked_u 32 (curr_window s - as_u32 (packet_len packet)) in
          let! _ := modify (with_curr_window window) in
          remove_acked n
      end
  end.

Definition advance_send_window : M unit :=
  let! s := gets id in
  match position (fun packet => seq_nr packet =? last_acked s) (send_window s) with
  | Some position => remove_acked (position + 1)
  | None => ret tt
  end.

Section Knot.
Variable recv : nat -> M (list Z * SocketAddr).

(** The loop of [send_packet]: every round reads the clock and receives. *)
Fixpoint pre_send_wait (fuel : nat) (max_inflight now : Z) : M unit :=
  match fuel with
  | O => nofuel
  | S fuel =>
      let! s := gets id in
      let! full :=
        if max_inflight <=? curr_window s then
          let! t := now_microseconds in ret (Timestamp_sub t now <? PRE_SEND_TIMEOUT)
        else ret false in
      if full then
        let! _ := recv BUF_SIZE in
        pre_send_wait fuel max_inflight now
      else ret tt
  end.

(** The packet with its new timestamps is returned, for the caller's [&mut Packet]. *)
Definition send_packet (packet : Packet) : M Packet :=
  let! s := gets id in
  let max_inflight := Z.min (cwnd s) (remote_wnd_size s) in
  let max_inflight := Z.max (MIN_CWND * MSS) max_inflight in
  let! now := now_microseconds in
  let! _ := with_events (fun fuel => pre_send_wait fuel max_inflight now) in
  let! t := now_microseconds in
  let packet := set_timestamp packet t in
  let! s := gets id in
  let packet := set_timestamp_difference packet (their_delay s) in
  let! _ := udp_send (raw packet) (connected_to s) in
  ret packet.

Definition resend_lost_packet (lost_packet_nr : Z) : M unit :=
  let! s := gets id in
  match position (fun pkt => seq_nr pkt =? lost_packet_nr) (send_window s) with
  | None => ret tt
  | Some position =>
      let packet := send_window s !!! position in
      let! _ := attempt (send_packet packet) in
      ret tt
  end.

(** The loop over the lost packets of a selective acknowledgement: the bits from
    index [idx] on, those received filtered out, up to the last packet sent. Returns
    whether a packet was resent. *)
Fixpoint resend_unacked (ack last_seq_nr : Z) (idx : nat) (bits : list bool) : M bool :=
  match bits with
  | [] => ret false
  | received :: bits =>
      if received then resend_unacked ack last_seq_nr (S idx) bits
      else
        let! base := checked_u 16 (ack + 2) in
        let! seq_nr := checked_u 16 (base + as_u16 (Z.of_nat idx)) in
        if seq_nr <? last_seq_nr then
          let! _ := resend_lost_packet seq_nr in
          let! _ := resend_unacked ack last_seq_nr (S idx) bits in
          ret true
        else ret false
  end.

(** The loop over the extensions; returns whether a loss was detected. *)
Fixpoint process_extensions (packet : Packet) (exts : list Extension) : M bool :=
  match exts with
  | [] => ret false
  | extension :: exts =>
      let! lost :=
        if bool_decide (ext_ty extension = SelectiveAck) then
          let! three :=
            if (3 <=? BitIterator_count_ones (BitIterator_from_bytes (ext_data extension)))%nat then
              let! next := checked_u 16 (ack_nr packet + 1) in
              let! _ := resend_lost_packet next in
              ret true
            else ret false in
          let! s := gets id in
          match last (send_window s) with
          | Some p =>
              let! bits := lift (bits_of_bytes (ext_data extension)) in
              let! resent := resend_unacked (ack_nr packet) (seq_nr p) 0 bits in
              ret (three || resent)
          | None => ret three
          end
        else ret false in
      let! rest := process_extensions packet exts in
      ret (lost || rest)
  end.

Definition handle_state_packet (packet : Packet) : M unit :=
  let! _ := count_duplicate_ack packet in
  let! _ := update_congestion packet in
  let! s := gets id in
  let duplicates := negb (is_nil (send_window s)) && (duplicate_ack_count s =? 3) in
  let! exts := lift (extensions packet) in
  let! lost := process_extensions packet exts in
  let! s := gets id in
  let! _ :=
    if negb (is_nil (send_window s)) && (duplicate_ack_count s =? 3) &&
       negb (existsb (fun ext => bool_decide (ext_ty ext = SelectiveAck)) exts) then
      let! next := checked_u 16 (ack_nr packet + 1) in
      resend_lost_packet next
    else ret tt in
  let! _ := when (duplicates || lost) (modify (fun s => with_cwnd (Z.max (cwnd s / 2) (MIN_CWND * MSS)) s)) in
  advance_send_window.

(** ** The connection state machine *)

(** The acknowledgement number follows a packet that directly follows it. *)
Definition acknowledge_next (packet : Packet) (s : UtpSocket) : UtpSocket :=
  if u16_wrapping_sub (seq_nr packet) (sk_ack_nr s) =? 1 then with_ack_nr (seq_nr packet) s else s.

Definition wrong_connection (packet : Packet) (t : PacketType) (s : UtpSocket) : bool :=
  negb (bool_decide (t = Syn)) && negb (state_is SynSent s) &&
  negb ((connection_id packet =? sender_connection_id s) || (connection_id packet =? receiver_connection_id s)).

Definition accept_syn (packet : Packet) (src : SocketAddr) : M (option Packet) :=
  let! _ := modify (with_connected_to src) in
  let! _ := modify (with_ack_nr (seq_nr packet)) in
  let! r := draw_u16 in
  let! _ := modify (with_seq_nr r) in
  let! receiver := checked_u 16 (connection_id packet + 1) in
  let! _ := modify (with_receiver_connection_id receiver) in
  let! _ := modify (with_sender_connection_id (connection_id packet)) in
  let! _ := modify (with_state Connected) in
  let! _ := modify (fun s => with_last_dropped (sk_ack_nr s) s) in
  let! reply := prepare_reply packet State in
  ret (Some reply).

Definition accept_syn_reply (packet : Packet) (src : SocketAddr) : M (option Packet) :=
  let! _ := modify (with_connected_to src) in
  let! previous := checked_u 16 (seq_nr packet - 1) in
  let! _ := modify (with_ack_nr previous) in
  let! s := gets id in
  let! next := checked_u 16 (sk_seq_nr s + 1) in
  let! _ := modify (with_seq_nr next) in
  let! _ := modify (with_state Connected) in
  let! _ := modify (with_last_acked (ack_nr packet)) in
  let! now := now_microseconds in
  let! _ := modify (with_last_acked_timestamp now) in
  ret None.

Definition unimplemented (s : SocketState) (t : PacketType) : SocketError :=
  Other (bs "Unimplemented handling for (" ++ SocketState_debug s ++ bs "," ++ PacketType_debug t ++ bs ")").

(** The [match (self.state, packet.get_type())]. *)
Definition dispatch (packet : Packet) (src : SocketAddr) (state : SocketState) (t : PacketType) : M (option Packet) :=
  match state, t with
  | New, Syn => accept_syn packet src
  | _, Syn => let! reply := prepare_reply packet Reset in ret (Some reply)
  | SynSent, State => accept_syn_reply packet src
  | SynSent, _ => raise InvalidReply
  | Connected, Data | FinSent, Data => handle_data_packet packet
  | Connected, State => let! _ := handle_state_packet packet in ret None
  | Connected, Fin | FinSent, Fin =>
      let! reply := prepare_reply packet State in
      let! reply := reply_with_sack packet reply in
      let! _ := modify (with_state Closed) in
      ret (Some reply)
  | Closed, Fin => let! reply := prepare_reply packet State in ret (Some reply)
  | FinSent, State =>
      let! s := gets id in
      let! _ := if ack_nr packet =? sk_seq_nr s then modify (with_state Closed) else handle_state_packet packet in
      ret None
  | _, Reset => let! _ := modify (with_state ResetReceived) in raise ConnectionReset
  | state, t => raise (unimplemented state t)
  end.

Definition handle_packet (packet : Packet) (src : SocketAddr) : M (option Packet) :=
  let! _ := modify (acknowledge_next packet) in
  let! t := lift (Packet_get_type packet) in
  let! s := gets id in
  if wrong_connection packet t s then
    let! reply := prepare_reply packet Reset in ret (Some reply)
  else
    let! _ := modify (with_remote_wnd_size (wnd_size packet)) in
    let! now := now_microseconds in
    let! _ := modify (with_their_delay (abs_diff now (timestamp packet))) in
    let! s := gets id in
    dispatch packet src (state s) t.

(** ** Receiving *)

Definition timed_out (e : io_error) : bool :=
  bool_decide (err_kind e = KWouldBlock) || bool_decide (err_kind e = KTimedOut).

(** The loop of [recv] around [recv_from]. *)
Fixpoint recv_wait (fuel : nat) (retries : Z) : M (list Z * SocketAddr) :=
  match fuel with
  | O => nofuel
  | S fuel =>
      let! s := gets id in
      if max_retransmission_retries s <=? retries then
        let! _ := modify (with_state Closed) in
        raise ConnectionTimedOut
      else
        let! _ := udp_set_read_timeout (if state_is New s then None else Some (congestion_timeout s)) in
        let! r := attempt (udp_recv (BUF_SIZE + HEADER_SIZE)) in
        match r with
        | inr datagram => ret datagram
        | inl e =>
            if timed_out e then
              let! _ := handle_receive_timeout in
              recv_wait fuel (retries + 1)
            else rethrow e
        end
  end.

(** What [recv] does with a valid packet. *)
Definition process_packet (packet : Packet) (src : SocketAddr) (buf : nat) : M (list Z * SocketAddr) :=
  let! reply := handle_packet packet src in
  let! _ := match reply with
    | Some pkt => udp_send (raw (set_wnd_size pkt WINDOW_SIZE)) src
    | None => ret tt
    end in
  let! s := gets id in
  let! t := lift (Packet_get_type packet) in
  let! _ := when (bool_decide (t = Data) && (0 <? u16_wrapping_sub (seq_nr packet) (last_dropped s)))
    (insert_into_buffer packet) in
  let! read := flush_incoming_buffer buf in
  ret (read, src).

Definition recv_body (buf : nat) : M (list Z * SocketAddr) :=
  let! (data, src) := with_events (fun fuel => recv_wait fuel 0) in
  match Packet_try_from_type data with
  | Ok packet => process_packet packet src buf
  | Err _ => let! s := gets id in ret ([], connected_to s)
  | Panic => panic
  | OutOfFuel => nofuel
  end.

End Knot.

(** The recursion through [send_packet]: an inner [recv] starts after a datagram was
    consumed. *)
Fixpoint recv_fuel (fuel : nat) (buf : nat) : M (list Z * SocketAddr) :=
  match fuel with
  | O => nofuel
  | S fuel => recv_body (recv_fuel fuel) buf
  end.

Definition recv (buf : nat) : M (list Z * SocketAddr) := with_events (fun fuel => recv_fuel fuel buf).

(** The loop of [recv_from]. *)
Fixpoint recv_from_loop (fuel : nat) (buf : nat) : M (list Z * SocketAddr) :=
  match fuel with
  | O => nofuel
  | S fuel =>
      let! s := gets id in
      if state_is Closed s then ret ([], connected_to s)
      else
        let! (read, src) := recv buf in
        if is_nil read then recv_from_loop fuel buf else ret (read, src)
  end.

Definition recv_from (buf : nat) : M (list Z * SocketAddr) :=
  let! read := flush_incoming_buffer buf in
  let! s := gets id in
  if (0 <? length read)%nat then ret (read, connected_to s)
  else if state_is ResetReceived s then raise ConnectionReset
  else with_events (fun fuel => recv_from_loop fuel buf).

(** ** Sending *)

(** The loop of [send_to] that fills the queue. *)
Fixpoint enqueue_chunks (chunks : list (list Z)) : M unit :=
  match chunks with
  | [] => ret tt
  | chunk :: chunks =>
      let! s := gets id in
      let packet := Packet_with_payload chunk in
      let! wnd := checked_u 32 (WINDOW_SIZE - as_u32 (Z.of_nat (length (send_window s)))) in
      let packet := set_wnd_size packet wnd in
      let packet := set_seq_nr packet (sk_seq_nr s) in
      let packet := set_ack_nr packet (sk_ack_nr s) in
      let packet := set_connection_id packet (sender_connection_id s) in
      let! _ := modify (with_unsent_queue (unsent_queue s ++ [packet])) in
      let! _ := modify (with_seq_nr (as_u16 (sk_seq_nr s + 1))) in
      enqueue_chunks chunks
  end.

(** [while let Some(mut packet) = self.unsent_queue.pop_front()]. *)
Fixpoint send_loop (fuel : nat) : M unit :=
  match fuel with
  | O => nofuel
  | S fuel =>
      let! s := gets id in
      match unsent_queue s with
      | [] => ret tt
      | packet :: rest =>
          let! _ := modify (with_unsent_queue rest) in
          let! packet := send_packet recv packet in
          let! s := gets id in
          let! window := checked_u 32 (curr_window s + as_u32 (packet_len packet)) in
          let! _ := modify (with_curr_window window) in
          let! _ := modify (fun s => with_send_window (send_window s ++ [packet]) s) in
          send_loop fuel
      end
  end.

(** Nothing adds to the queue while it is sent. *)
Definition send : M unit :=
  let! s := gets id in
  send_loop (S (length (unsent_queue s))).

Definition send_to (buf : list Z) : M nat :=
  let! s := gets id in
  if state_is Closed s then raise ConnectionClosed
  else
    let! _ := enqueue_chunks (chunks (Z.to_nat MSS - HEADER_SIZE) buf) in
    let! _ := send in
    ret (length buf).

Fixpoint flush_loop (fuel : nat) : M unit :=
  match fuel with
  | O => nofuel
  | S fuel =>
      let! s := gets id in
      if is_nil (send_window s) then ret tt
      else
        let! _ := recv 0 in
        flush_loop fuel
  end.

Definition flush : M unit := with_events flush_loop.

(** ** Opening and closing *)

Fixpoint close_loop (fuel : nat) : M unit :=
  match fuel with
  | O => nofuel
  | S fuel =>
      let! s := gets id in
      if state_is Closed s then ret tt
      else
        let! _ := recv BUF_SIZE in
        close_loop fuel
  end.

Definition close : M unit :=
  let! s := gets id in
  if state_is Closed s || state_is New s || state_is SynSent s then ret tt
  else
    let! _ := flush in
    let! packet := fin_packet in
    let! s := gets id in
    let! _ := udp_send (raw packet) (connected_to s) in
    let! _ := modify (with_state FinSent) in
    with_events close_loop.

(** The first address of the iterator [to_socket_addrs] returns. *)
Definition take_address (addrs : io_error + list SocketAddr) : io_error + SocketAddr :=
  match addrs with
  | inl e => inl e
  | inr (a :: _) => inr a
  | inr [] => inl (SocketError_into_io InvalidAddress)
  end.

Definition lift_io {A} (r : io_error + A) : M A := match r with inl e => rethrow e | inr a => ret a end.

(** Puts a new socket in place. *)
Definition new_socket (src : SocketAddr) : M unit :=
  let! id := draw_u16 in
  modify (fun _ => from_raw_parts id src).

Definition bind_addr (addrs : io_error + list SocketAddr) : M unit :=
  let! a := lift_io (take_address addrs) in
  match bind_result a with
  | Some e => rethrow e
  | None => new_socket a
  end.

(** [0.0.0.0:0] or [[::]:0], for the family of the address. *)
Definition unspecified_for (a : SocketAddr) : SocketAddr :=
  match a with
  | V4 _ => V4 (SocketAddrV4_new (Ipv4Addr_new 0 0 0 0) 0)
  | V6 _ => V6 (SocketAddrV6_new (mkIpv6Addr (replicate 8 0)) 0 0 0)
  end.

(** [for _ in 0..MAX_SYN_RETRIES]; the bytes received, none when every try timed out. *)
Fixpoint connect_loop (tries : nat) (packet : Packet) (syn_timeout : Z) : M (list Z) :=
  match tries with
  | O => ret []
  | S tries =>
      let! now := now_microseconds in
      let packet := set_timestamp packet now in
      let! s := gets id in
      let! _ := udp_send (raw packet) (connected_to s) in
      let! _ := modify (with_state SynSent) in
      let! _ := udp_set_read_timeout (Some syn_timeout) in
      let! r := attempt (udp_recv BUF_SIZE) in
      match r with
      | inr (data, src) =>
          let! _ := modify (with_connected_to src) in
          ret data
      | inl e =>
          if timed_out e then
            let! doubled := checked_u 64 (syn_timeout * 2) in
            connect_loop tries packet doubled
          else rethrow e
      end
  end.

Definition connect (other : io_error + list SocketAddr) : M unit :=
  let! addr := lift_io (take_address other) in
  let! _ := bind_addr (inr [unspecified_for addr]) in
  let! _ := modify (with_connected_to addr) in
  let! s := gets id in
  let packet := Packet_set_type Packet_new Syn in
  let packet := set_connection_id packet (receiver_connection_id s) in
  let packet := set_seq_nr packet (sk_seq_nr s) in
  let! data := connect_loop MAX_SYN_RETRIES packet (congestion_timeout s) in
  let! s := gets id in
  let! packet := lift (Packet_try_from_type data) in
  let! _ := handle_packet recv packet (connected_to s) in
  ret tt.

(** [UtpListener::accept]: a datagram of the listener's socket starts a new socket;
    the events that follow are those of the new socket. *)
Definition accept (local_addr : SocketAddr) : M SocketAddr :=
  let! (data, src) := udp_recv BUF_SIZE in
  let! packet := lift (Packet_try_from_type data) in
  let! t := lift (Packet_get_type packet) in
  if negb (bool_decide (t = Syn)) then
    raise (Other (bs "Expected SYN packet, got " ++ PacketType_debug t ++ bs " instead"))
  else
    match bind_result (unspecified_for local_addr) with
    | Some e => rethrow e
    | None =>
        let! _ := new_socket src in
        let! r := attempt (handle_packet recv packet src) in
        match r with
        | inr (Some reply) =>
            let! _ := udp_send (raw reply) src in
            ret src
        | _ => raise (Other (bs "Reached unreachable statement"))
        end
    end.

(** [UtpListener::incoming().next()]: the iterator never ends. *)
Definition Incoming_next (local_addr : SocketAddr) : M (option (io_error + SocketAddr)) :=
  let! r := attempt (accept local_addr) in ret (Some r).

(** [Drop for UtpSocket]: the result of closing is ignored. *)
Definition drop_socket : M unit := let! _ := attempt close in ret tt.

(** ** [utp/stream.rs] *)

Definition set_max_retransmission_retries (n : Z) : M unit := modify (with_max_retransmission_retries n).

(** [Read::read] and [Write::write] of the socket and of the stream. *)
Definition read (buf : nat) : M nat :=
  let! (data, _) := recv_from buf in
  ret (length data).
Definition write (buf : list Z) : M nat := send_to buf.

End Operations.
