(* ===== verification/UtpSocketInv.v ===== *)
(** * Reasoning about the uTP socket

    A weakest precondition for the socket's monad, the socket's invariant and the
    proof that every operation keeps it and ends: a loop or a recursive call that
    receives consumes an event, so the events to come bound the fuel. *)

From Stdlib Require Import Sorted.
From stdpp Require Import sets.
From S2P Require Import Prelude RustStd Words UtilConvert UtpPacket UtpPacketSpec UtpWorld UtpSocket.

(** ** Weakest preconditions *)

(** [Q] holds of the result and the state after a normal return, [X] of the state
    after an error or when the call waits forever; [pan] is whether a panic is
    allowed. Running out of fuel is not. *)
Definition wp {A} (pan : Prop) (m : M A) (Q : A -> st -> Prop) (X : st -> Prop) (s : st) : Prop :=
  match m s with
  | Ret a s => Q a s
  | Raise _ s | Blocked s => X s
  | Panicked => pan
  | NoFuel => False
  end.

Section WpRules.
Context {A B : Type} (pan : Prop).
Implicit Types (X : st -> Prop) (s : st).

Lemma wp_bind (m : M A) (k : A -> M B) Q X s :
  wp pan m (fun a s => wp pan (k a) Q X s) X s -> wp pan (let! a := m in k a) Q X s.
Proof. unfold wp, bind. destruct (m s); auto. Qed.

Lemma wp_mono (m : M A) (Q Q' : A -> st -> Prop) X X' s : wp pan m Q X s ->
  (forall a s, Q a s -> Q' a s) -> (forall s, X s -> X' s) -> wp pan m Q' X' s.
Proof. unfold wp. destruct (m s); eauto. Qed.

Lemma wp_attempt (m : M A) Q X s :
  wp pan m (fun a s => Q (inr a) s) (fun s => (forall e, Q (inl e) s) /\ X s) s -> wp pan (attempt m) Q X s.
Proof. unfold wp, attempt. destruct (m s); auto; intros []; auto. Qed.

Lemma wp_ret (a : A) (Q : A -> st -> Prop) X s : Q a s -> wp pan (ret a) Q X s.
Proof. auto. Qed.

Lemma wp_gets (f : UtpSocket -> A) Q X s : Q (f (sk s)) s -> wp pan (gets f) Q X s.
Proof. auto. Qed.

Lemma wp_modify f Q X s : Q tt (mkSt (f (sk s)) (world s)) -> wp pan (modify f) Q X s.
Proof. auto. Qed.

Lemma wp_lift (r : res ParseError A) Q X s : r <> OutOfFuel -> (r = Panic -> pan) ->
  (forall a, r = Ok a -> Q a s) -> X s -> wp pan (lift r) Q X s.
Proof. unfold wp, lift. destruct r; auto; try done. Qed.

Lemma wp_raise e (Q : A -> st -> Prop) X s : X s -> wp pan (raise e) Q X s.
Proof. auto. Qed.
Lemma wp_rethrow e (Q : A -> st -> Prop) X s : X s -> wp pan (rethrow e) Q X s.
Proof. auto. Qed.
Lemma wp_panic (Q : A -> st -> Prop) X s : pan -> wp pan panic Q X s.
Proof. auto. Qed.

Lemma wp_checked_u w n Q X s : (~ in_unsigned w n -> pan) -> (in_unsigned w n -> Q n s) -> wp pan (checked_u w n) Q X s.
Proof. unfold checked_u, wp. destruct (decide _); cbn; auto. Qed.
Lemma wp_checked_s w n Q X s : (~ in_signed w n -> pan) -> (in_signed w n -> Q n s) -> wp pan (checked_s w n) Q X s.
Proof. unfold checked_s, wp. destruct (decide _); cbn; auto. Qed.

Lemma wp_with_events (f : nat -> M A) Q X s : wp pan (f (S (events_left s))) Q X s -> wp pan (with_events f) Q X s.
Proof. auto. Qed.

Lemma wp_when b m Q X s : (b = true -> wp pan m Q X s) -> (b = false -> Q tt s) -> wp pan (when b m) Q X s.
Proof. intros H1 H2. destruct b; [by apply H1|by apply H2]. Qed.

End WpRules.

(** ** Effects that leave the socket alone *)

Section WpEffects.
Context `{UtpEnv} (pan : Prop).
Implicit Types (X : st -> Prop) (s : st).

(** The same socket and the same events to come. *)
Definition same_socket s s' : Prop := sk s' = sk s /\ inbox (world s') = inbox (world s).

Lemma same_socket_refl s : same_socket s s.
Proof. done. Qed.
Lemma same_socket_trans s1 s2 s3 : same_socket s1 s2 -> same_socket s2 s3 -> same_socket s1 s3.
Proof. unfold same_socket. intuition congruence. Qed.

Lemma wp_now Q X s : (forall t s', is_u32 t -> same_socket s s' -> Q t s') -> wp pan now_microseconds Q X s.
Proof.
  unfold wp, now_microseconds. destruct (system_time _) as [secs nanos].
  intros HQ. apply HQ; [apply timestamp_of_u32|done].
Qed.

Lemma wp_draw Q X s : (forall t s', is_u16 t -> same_socket s s' -> Q t s') -> wp pan draw_u16 Q X s.
Proof. intros HQ. unfold wp, draw_u16. apply HQ; [by apply wrap_in_unsigned|done]. Qed.

Lemma wp_send data to Q X s : (forall s', same_socket s s' -> Q tt s') -> (forall s', same_socket s s' -> X s') ->
  wp pan (udp_send data to) Q X s.
Proof. intros HQ HX. unfold wp, udp_send. destruct (send_result _); [apply HX|apply HQ]; done. Qed.

Lemma wp_recv n Q X s : X s ->
  (forall d src rest s', inbox (world s) = Datagram d src :: rest -> inbox (world s') = rest -> sk s' = sk s ->
    Q (take n d, src) s') ->
  (forall e rest s', inbox (world s) = RecvError e :: rest -> inbox (world s') = rest -> sk s' = sk s -> X s') ->
  wp pan (udp_recv n) Q X s.
Proof. intros H1 H2 H3. unfold wp, udp_recv. destruct (inbox (world s)) as [|[] rest] eqn:E; eauto. Qed.

Lemma prepare_reply_same original t Q X s : (forall p s', same_socket s s' -> Q p s') ->
  wp pan (prepare_reply original t) Q X s.
Proof. intros HQ. apply wp_bind, wp_now. intros now s1 _ Hs. apply wp_bind, wp_gets, wp_ret. by apply HQ. Qed.

Lemma fin_packet_same Q X s : (forall p s', same_socket s s' -> Q p s') -> wp pan fin_packet Q X s.
Proof. intros HQ. apply wp_bind, wp_gets, wp_bind, wp_now. intros t s1 _ Hs. apply wp_ret. by apply HQ. Qed.

Lemma fast_resend_once_same Q X s : (forall s', same_socket s s' -> Q tt s') ->
  (forall s', same_socket s s' -> X s') -> wp pan send_fast_resend_request_once Q X s.
Proof.
  intros HQ HX. apply wp_bind, wp_now. intros t s1 _ Hs. apply wp_bind, wp_gets, wp_bind, wp_attempt, wp_send.
  - intros s2 Hs2. apply wp_ret, HQ. by eapply same_socket_trans.
  - intros s2 Hs2. split; [|apply HX]. 1: intros e; apply wp_ret, HQ. all: by eapply same_socket_trans.
Qed.

Lemma fast_resend_same Q X s : (forall s', same_socket s s' -> Q tt s') ->
  (forall s', same_socket s s' -> X s') -> wp pan send_fast_resend_request Q X s.
Proof.
  intros HQ HX. apply wp_bind, fast_resend_once_same; [|auto]. intros s1 H1.
  apply wp_bind, fast_resend_once_same; [|eauto using same_socket_trans]. intros s2 H2.
  apply fast_resend_once_same; eauto using same_socket_trans.
Qed.

End WpEffects.

(** ** A concrete environment *)

(** A clock that stands still and a network on which every send succeeds. *)
Definition calm_env : UtpEnv := {|
  system_time _ := (1000, 0); send_result _ := None; random_u16 _ := 500; bind_result _ := None |}.

Definition sample_peer : SocketAddr := V4 (SocketAddrV4_new (Ipv4Addr_new 10 0 0 1) 6881).
Definition sample_world (evs : list recv_event) : World := mkWorld evs [] 0 0 0.

(** Packets of connection 40; a data packet carries its sequence number and a payload. *)
Definition sample_data (seq : Z) (pl : list Z) : Packet := set_seq_nr (set_connection_id (Packet_with_payload pl) 40) seq.
Definition sample_empty (t : PacketType) (seq : Z) : Packet :=
  set_seq_nr (set_connection_id (Packet_set_type Packet_new t) 40) seq.
Definition sample_event (p : Packet) : recv_event := Datagram (raw p) sample_peer.

(** A new socket to which a SYN numbered 10 and then the given packets arrive. *)
Definition sample_start (ps : list Packet) : st :=
  mkSt (from_raw_parts 7 sample_peer) (sample_world (map sample_event (sample_empty Syn 10 :: ps))).

(** The state after a call that returned or failed. *)
Definition out_state {A} (o : out A) (dflt : st) : st := match o with Ret _ s | Raise _ s | Blocked s => s | _ => dflt end.

(** * The invariant of the uTP socket

    The receive buffer as a list ordered by sequence number, the invariant of the
    socket's fields, and the proof that every operation keeps it and ends. *)

(** ** The receive buffer *)

Definition seq_lt (p q : Packet) : Prop := seq_nr p < seq_nr q.

(** Reference definition of the insertion: by sequence number, a duplicate ignored. *)
Fixpoint ordered_insert (packet : Packet) (buffer : list Packet) : list Packet :=
  match buffer with
  | [] => [packet]
  | q :: rest =>
      if seq_nr q <? seq_nr packet then q :: ordered_insert packet rest
      else if seq_nr q =? seq_nr packet then buffer
      else packet :: buffer
  end.

Lemma buffer_insert_after p q l : seq_nr q < seq_nr p -> buffer_insert p (q :: l) = q :: buffer_insert p l.
Proof.
  intros Hq. unfold buffer_insert. rewrite filter_cons_True by done. cbn [length lookup list_lookup take drop app].
  destruct l as [|r l]; [|rewrite last_cons_cons].
  - cbn [last]. destruct (Z.ltb_spec (seq_nr q) (seq_nr p)); [done|lia].
  - destruct (last (r :: l)) as [x|]; [destruct (seq_nr x <? seq_nr p)|]; try done;
      by destruct (match (r :: l) !! _ with Some _ => _ | None => _ end).
Qed.

Lemma buffer_insert_before p q l : seq_nr p <= seq_nr q -> Forall (seq_lt q) l ->
  buffer_insert p (q :: l) = if seq_nr q =? seq_nr p then q :: l else p :: q :: l.
Proof.
  intros Hq Hl. assert (Hall : Forall (fun r => seq_nr p <= seq_nr r) (q :: l)).
  { constructor; [done|]. eapply Forall_impl; [exact Hl|]. unfold seq_lt. intros; lia. }
  unfold buffer_insert. destruct (last (q :: l)) as [x|] eqn:Hx; [|by apply last_None in Hx].
  assert (seq_nr p <= seq_nr x).
  { apply last_Some in Hx as [l' Hx]. rewrite Hx, Forall_app, Forall_singleton in Hall. apply Hall. }
  destruct (Z.ltb_spec (seq_nr x) (seq_nr p)); [lia|].
  replace (filter (fun r => seq_nr r < seq_nr p) (q :: l)) with (@nil Packet).
  - cbn [length lookup list_lookup take drop app]. by destruct (Z.eqb_spec (seq_nr q) (seq_nr p)).
  - symmetry. generalize (q :: l) Hall. clear. induction l as [|r l IH]; intros H; [done|].
    inversion H; subst. rewrite filter_cons_False by lia. auto.
Qed.

Lemma buffer_insert_ordered p l : StronglySorted seq_lt l -> buffer_insert p l = ordered_insert p l.
Proof.
  induction 1 as [|q l Hs IH Hq]; [done|]. cbn [ordered_insert]. destruct (Z.ltb_spec (seq_nr q) (seq_nr p)).
  - by rewrite buffer_insert_after, IH.
  - by rewrite buffer_insert_before by done.
Qed.

Lemma ordered_insert_elem p l q : q ∈ ordered_insert p l -> q = p \/ q ∈ l.
Proof.
  induction l as [|r l IH]; cbn [ordered_insert]; [set_solver|].
  destruct (_ <? _); [|destruct (_ =? _)]; set_solver.
Qed.

Lemma ordered_insert_sorted p l : StronglySorted seq_lt l -> StronglySorted seq_lt (ordered_insert p l).
Proof.
  induction 1 as [|q l Hs IH Hq]; cbn [ordered_insert]; [repeat constructor|].
  destruct (Z.ltb_spec (seq_nr q) (seq_nr p)); [|destruct (Z.eqb_spec (seq_nr q) (seq_nr p))].
  - constructor; [done|]. apply Forall_forall. intros r Hr. apply ordered_insert_elem in Hr as [->|Hr]; [done|].
    by eapply Forall_forall in Hq.
  - by constructor.
  - constructor; [by constructor|]. constructor; [unfold seq_lt; lia|].
    eapply Forall_impl; [exact Hq|]. unfold seq_lt. intros; lia.
Qed.

(** ** Packets *)

(** A packet that was parsed from the network. *)
Definition packet_wf (p : Packet) : Prop := bytes_ok (raw p) /\ Packet_try_from_type (raw p) = Ok p.

(** A packet built by [send_to]. *)
Definition sendable (p : Packet) : Prop := (HEADER_SIZE <= length (raw p))%nat /\ packet_len p <= MSS.

Definition window_bytes (l : list Packet) : Z := foldr (fun p acc => packet_len p + acc) 0 l.

Lemma window_bytes_app l k : window_bytes (l ++ k) = window_bytes l + window_bytes k.
Proof. induction l as [|p l IH]; cbn; [done|]. fold (window_bytes (l ++ k)) (window_bytes l). lia. Qed.

Lemma window_bytes_nonneg l : 0 <= window_bytes l.
Proof. induction l as [|p l IH]; cbn; [done|]. fold (window_bytes l). unfold packet_len. lia. Qed.

Lemma sendable_as_u32 p : sendable p -> as_u32 (packet_len p) = packet_len p.
Proof. intros [_ Hp]. unfold MSS in Hp. apply wrap_id. unfold in_unsigned, packet_len in *. lia. Qed.

Lemma set_field_length f p v : (HEADER_SIZE <= length (raw p))%nat -> length (raw (set_field f p v)) = length (raw p).
Proof.
  intros Hl. pose proof (field_bounds f). unfold set_field. cbn [raw].
  rewrite !length_app, length_be_bytes, length_take, length_drop. lia.
Qed.

Lemma sendable_set_field f p v : sendable p -> sendable (set_field f p v).
Proof. intros [Hl Hp]. unfold sendable, packet_len in *. by rewrite set_field_length. Qed.

Lemma packet_len_set_field f p v : sendable p -> packet_len (set_field f p v) = packet_len p.
Proof. intros [Hl _]. unfold packet_len. by rewrite set_field_length. Qed.

Lemma get_field_bound f p : bytes_ok (raw p) -> (HEADER_SIZE <= length (raw p))%nat ->
  in_unsigned (8 * Z.of_nat (field_size f)) (get_field f p).
Proof.
  intros Hb Hl. pose proof (field_bounds f). unfold get_field.
  replace (field_size f) with (length (slice (raw p) (field_offset f) (field_offset f + field_size f))) at 1
    by (rewrite length_slice; lia).
  apply be_int_bound. unfold slice. by apply Forall_take, Forall_drop.
Qed.

Lemma packet_wf_length p : packet_wf p -> (HEADER_SIZE <= length (raw p))%nat.
Proof. intros [Hb Hp]. by destruct (packet_parse_Ok _ _ Hb Hp) as (_ & Hl & _). Qed.

Lemma packet_wf_field f p : packet_wf p -> in_unsigned (8 * Z.of_nat (field_size f)) (get_field f p).
Proof. intros Hp. apply get_field_bound; [apply Hp|by apply packet_wf_length]. Qed.

Lemma packet_wf_parts p : packet_wf p -> exists t es pl,
  Packet_get_type p = Ok t /\ payload p = Ok pl /\ extensions p = Ok es /\ bytes_ok pl.
Proof.
  intros [Hb Hp]. destruct (packet_parse_Ok _ _ Hb Hp) as (Er & Hl & Hv & t & es & pl & Hc & Ht & Hpl & Hes).
  exists t, es, pl. split_and!; try done. clear Hp. unfold payload in Hpl. res_inv.
  destruct (_ <=? _)%nat; [|done]. injection Hpl as <-. by apply Forall_drop.
Qed.

(** ** The invariant *)

(** Machine widths; the receive buffer strictly ordered and parsed; the bytes in
    flight are those of the send window; bounds of the congestion control. The largest
    round trip is the largest 32-bit delay in milliseconds. *)
Definition MAX_RTT : Z := (2 ^ 32 - 1) / 1000.

Create HintDb keeps discriminated.

(** How far a connection is: opening, open, closing, over. *)
Definition state_rank (s : SocketState) : nat :=
  match s with New | SynSent => 0 | Connected => 1 | FinSent => 2 | Closed | ResetReceived => 3 end.

Lemma state_rank_le s : (state_rank s <= 3)%nat.
Proof. destruct s; cbn; lia. Qed.

(** Reduces the fields of a socket after an assignment. *)
Ltac assign_field := cbn [state state_rank connected_to last_acked_timestamp current_delays last_rollover
    max_retransmission_retries
    sender_connection_id receiver_connection_id sk_seq_nr sk_ack_nr last_acked last_dropped duplicate_ack_count
    incoming_buffer send_window unsent_queue pending_data curr_window remote_wnd_size cwnd congestion_timeout rtt
    rtt_variance base_delays their_delay
    with_connected_to with_sender_connection_id with_receiver_connection_id with_seq_nr with_ack_nr
    with_state with_incoming_buffer with_send_window with_unsent_queue with_duplicate_ack_count
    with_last_acked with_last_acked_timestamp with_last_dropped with_rtt with_rtt_variance
    with_pending_data with_curr_window with_remote_wnd_size with_base_delays with_current_delays
    with_their_delay with_last_rollover with_congestion_timeout with_cwnd
    with_max_retransmission_retries].

Section Queue.

(** The packets not yet sent, which no receiving operation changes, and the least
    stage of the connection. *)
Context (queue : list Packet) (stage : nat).

Record sock_inv (s : UtpSocket) : Prop := mkSockInv {
  inv_sender : is_u16 (sender_connection_id s);
  inv_receiver : is_u16 (receiver_connection_id s);
  inv_seq : is_u16 (sk_seq_nr s);
  inv_ack : is_u16 (sk_ack_nr s);
  inv_last_acked : is_u16 (last_acked s);
  inv_last_dropped : is_u16 (last_dropped s);
  inv_duplicates : is_u32 (duplicate_ack_count s);
  inv_sorted : StronglySorted seq_lt (incoming_buffer s);
  inv_received : Forall packet_wf (incoming_buffer s);
  inv_window : Forall sendable (send_window s);
  inv_unsent : Forall sendable (unsent_queue s);
  inv_queue : unsent_queue s = queue;
  inv_stage : (stage <= state_rank (state s))%nat;
  inv_pending : bytes_ok (pending_data s);
  inv_flight : curr_window s = window_bytes (send_window s);
  inv_flight_u32 : is_u32 (curr_window s);
  inv_remote : is_u32 (remote_wnd_size s);
  inv_cwnd : MSS <= cwnd s < 2 ^ 32;
  inv_timeout : MIN_CONGESTION_TIMEOUT <= congestion_timeout s < 2 ^ 64;
  inv_rtt : 0 <= rtt s <= MAX_RTT;
  inv_variance : 0 <= rtt_variance s <= MAX_RTT;
  inv_history : (length (base_delays s) <= BASE_HISTORY)%nat;
  inv_their_delay : is_u32 (their_delay s)
}.

Definition event_ok (e : recv_event) : Prop :=
  match e with Datagram data _ => bytes_ok data | RecvError _ => True end.

(** The invariant, with at most [n] events to come. *)
Definition Inv (n : nat) (s : st) : Prop :=
  sock_inv (sk s) /\ Forall event_ok (inbox (world s)) /\ (events_left s <= n)%nat.

Definition keeps {A} (m : M A) : Prop := forall n s, Inv n s -> wp True m (fun _ => Inv n) (Inv n) s.

Lemma Inv_mono n k s : Inv n s -> (n <= k)%nat -> Inv k s.
Proof. unfold Inv. intuition lia. Qed.

Lemma wp_weaken {A} (m : M A) k n s : wp True m (fun _ => Inv k) (Inv k) s -> (k <= n)%nat ->
  wp True m (fun _ => Inv n) (Inv n) s.
Proof. intros Hm Hk. eapply wp_mono; [exact Hm| |]; cbn beta; intros; by eapply Inv_mono. Qed.

Lemma Inv_own n s : Inv n s -> Inv (events_left s) s.
Proof. unfold Inv. intuition. Qed.

Lemma Inv_same n s s' : Inv n s -> same_socket s s' -> Inv n s'.
Proof. unfold Inv, same_socket, events_left. by intros ? [-> ->]. Qed.

(** A new socket with the same world. *)
Lemma Inv_sock n s f : Inv n s -> sock_inv f -> Inv n (mkSt f (world s)).
Proof. by intros (_ & ? & ?) ?. Qed.

Lemma Inv_sk n s : Inv n s -> sock_inv (sk s).
Proof. by intros []. Qed.

Lemma keeps_bind {A B} (m : M A) (k : A -> M B) : keeps m -> (forall a, keeps (k a)) -> keeps (let! a := m in k a).
Proof.
  intros Hm Hk n s Hs. apply wp_bind. eapply wp_mono; [by apply Hm| |done]. intros a s' Hs'. by apply Hk.
Qed.

Lemma keeps_ret {A} (a : A) : keeps (ret a).
Proof. intros n s Hs. by apply wp_ret. Qed.

Lemma keeps_raise {A} e : keeps (A := A) (raise e).
Proof. intros n s Hs. by apply wp_raise. Qed.

Lemma keeps_rethrow {A} e : keeps (A := A) (rethrow e).
Proof. intros n s Hs. by apply wp_rethrow. Qed.

Lemma keeps_modify f : (forall s, sock_inv s -> sock_inv (f s)) -> keeps (modify f).
Proof. intros Hf n s Hs. apply wp_modify, Inv_sock; [done|]. by apply Hf, (Inv_sk n). Qed.

Lemma keeps_gets {A B} (f : UtpSocket -> A) (k : A -> M B) :
  (forall s, sock_inv s -> keeps (k (f s))) -> keeps (let! a := gets f in k a).
Proof. intros Hk n s Hs. apply wp_bind, wp_gets. apply Hk; [by apply (Inv_sk n)|done]. Qed.

Lemma keeps_attempt {A} (m : M A) : keeps m -> keeps (attempt m).
Proof. intros Hm n s Hs. apply wp_attempt. eapply wp_mono; [by apply Hm|done|]. auto. Qed.

Lemma keeps_lift {A} (r : res ParseError A) : r <> OutOfFuel -> keeps (lift r).
Proof. intros Hr n s Hs. by apply wp_lift. Qed.

Lemma keeps_checked_u {A} w v (k : Z -> M A) : (in_unsigned w v -> keeps (k v)) -> keeps (let! a := checked_u w v in k a).
Proof. intros Hk n s Hs. apply wp_bind, wp_checked_u; [done|]. intros Hv. by apply Hk. Qed.

Lemma keeps_checked_s {A} w v (k : Z -> M A) : (in_signed w v -> keeps (k v)) -> keeps (let! a := checked_s w v in k a).
Proof. intros Hk n s Hs. apply wp_bind, wp_checked_s; [done|]. intros Hv. by apply Hk. Qed.

Lemma keeps_panic {A} : keeps (A := A) panic.
Proof. done. Qed.

Lemma keeps_when b m : keeps m -> keeps (when b m).
Proof. intros Hm. destruct b; [done|apply keeps_ret]. Qed.

Section KeepsEffects.
Context `{UtpEnv}.

Lemma keeps_now {A} (k : Z -> M A) : (forall t, is_u32 t -> keeps (k t)) -> keeps (let! t := now_microseconds in k t).
Proof. intros Hk n s Hs. apply wp_bind, wp_now. intros t s' Ht Hs'. apply Hk; [done|]. by eapply Inv_same. Qed.

Lemma keeps_draw {A} (k : Z -> M A) : (forall t, is_u16 t -> keeps (k t)) -> keeps (let! t := draw_u16 in k t).
Proof. intros Hk n s Hs. apply wp_bind, wp_draw. intros t s' Ht Hs'. apply Hk; [done|]. by eapply Inv_same. Qed.

Lemma keeps_send d a : keeps (udp_send d a).
Proof. intros n s Hs. apply wp_send; intros s'; by apply Inv_same. Qed.

Lemma keeps_prepare_reply p t : keeps (prepare_reply p t).
Proof. intros n s Hs. apply prepare_reply_same. intros _ s'. by apply Inv_same. Qed.

Lemma keeps_fin_packet : keeps fin_packet.
Proof. intros n s Hs. apply fin_packet_same. intros _ s'. by apply Inv_same. Qed.

Lemma keeps_fast_resend : keeps send_fast_resend_request.
Proof. intros n s Hs. apply fast_resend_same; intros s'; by apply Inv_same. Qed.

Lemma keeps_set_read_timeout o : keeps (udp_set_read_timeout o).
Proof. destruct o as [[]|]; try apply keeps_ret. apply keeps_panic. Qed.

End KeepsEffects.

#[local] Hint Resolve keeps_ret keeps_raise keeps_rethrow keeps_send keeps_prepare_reply keeps_fin_packet
  keeps_fast_resend keeps_set_read_timeout keeps_panic : keeps.

(** A field assignment: the other conditions are those of the socket before. *)
Ltac assign :=
  repeat match goal with
  | |- keeps (modify _) => apply keeps_modify; intros ? ?
  | H : sock_inv ?s |- sock_inv _ => is_var s; destruct H; constructor; assign_field; try assumption;
      try (etransitivity; [eassumption|apply state_rank_le])
  end.

Section KeepsOperations.
Context `{UtpEnv}.

(** ** Receive buffer *)

Lemma seq_nr_u16 p : packet_wf p -> is_u16 (seq_nr p).
Proof. apply (packet_wf_field FSeqNr). Qed.
Lemma ack_nr_u16 p : packet_wf p -> is_u16 (ack_nr p).
Proof. apply (packet_wf_field FAckNr). Qed.
Lemma connection_id_u16 p : packet_wf p -> is_u16 (connection_id p).
Proof. apply (packet_wf_field FConnectionId). Qed.

(** The head of the buffer leaves it and becomes the last packet acknowledged. *)
Lemma advance_keeps n s : Inv n s ->
  wp True advance_incoming_buffer
    (fun o s' => Inv n s' /\ match o with Some p => packet_wf p | None => True end) (Inv n) s.
Proof.
  intros Hs. apply wp_bind, wp_gets. destruct Hs as (Hi & Hev). cbn [id].
  destruct (incoming_buffer (sk s)) as [|p rest] eqn:Eb; [by apply wp_ret|].
  pose proof (inv_received _ Hi) as Hr. pose proof (inv_sorted _ Hi) as Hso. rewrite Eb in Hr, Hso.
  inversion Hr; subst. inversion Hso; subst.
  do 3 apply wp_bind, wp_modify. apply wp_ret. split; [|done]. split; [|done]. cbn [sk].
  destruct Hi; constructor; assign_field; try assumption; by apply seq_nr_u16.
Qed.

Lemma flush_pending_keeps pending buf : bytes_ok pending -> keeps (flush_pending pending buf).
Proof.
  intros Hb. apply keeps_bind; [|auto with keeps]. destruct (_ =? _)%nat; [|assign; by apply Forall_drop].
  apply keeps_bind; [assign; constructor|]. intros _ n s Hs. apply wp_bind. eapply wp_mono; [by apply (advance_keeps n)| |done].
  intros [package|] s' [Hs' Hp]; [|by apply wp_ret]. destruct (packet_wf_parts _ Hp) as (t & es & pl & _ & Hpl & _ & Hbl).
  apply wp_bind, wp_lift; rewrite ?Hpl; try done. intros ? [= <-].
  assert (Hk : keeps (modify (with_pending_data pl))) by assign. by apply Hk.
Qed.

Lemma flush_first_keeps first buf : packet_wf first -> keeps (flush_first first buf).
Proof.
  intros Hw. destruct (packet_wf_parts _ Hw) as (t & es & pl & _ & Hpl & _ & Hb). unfold flush_first. rewrite Hpl.
  intros n s Hs. apply wp_bind, wp_ret. cbv zeta. revert n s Hs. apply keeps_bind.
  - destruct (_ =? _)%nat; [auto with keeps|assign]. by apply Forall_drop.
  - intros _ n s Hs. apply wp_bind. eapply wp_mono; [by apply (advance_keeps n)| |done]. intros o s' [Hs' _]. by apply wp_ret.
Qed.

Lemma is_next_keeps ack first : keeps (is_next ack first).
Proof. unfold is_next. destruct (_ =? _); [|apply keeps_checked_u; intros _]; auto with keeps. Qed.

Lemma flush_incoming_keeps buf : keeps (flush_incoming_buffer buf).
Proof.
  apply keeps_gets. intros s Hi. cbn [id]. destruct (negb _); [apply flush_pending_keeps, Hi|].
  destruct (incoming_buffer s) as [|first rest] eqn:Eb; [auto with keeps|].
  apply keeps_bind; [apply is_next_keeps|]. intros []; [|auto with keeps]. apply flush_first_keeps.
  pose proof (inv_received _ Hi) as Hr. rewrite Eb in Hr. by inversion Hr.
Qed.

Lemma insert_keeps p : packet_wf p -> keeps (insert_into_buffer p).
Proof.
  intros Hp. apply keeps_modify. intros s Hi. pose proof (inv_sorted _ Hi) as Hso. pose proof (inv_received _ Hi) as Hr.
  destruct Hi; constructor; assign_field; try assumption; rewrite buffer_insert_ordered by done.
  - by apply ordered_insert_sorted.
  - apply Forall_forall. intros q Hq. apply ordered_insert_elem in Hq as [->|Hq]; [done|]. by eapply Forall_forall in Hr.
Qed.

(** ** Replies and selective acknowledgements *)

Lemma sack_loop_fuel fuel data i t : (length data - i < fuel)%nat -> UtpPacket.sack_loop fuel data i t <> OutOfFuel.
Proof.
  revert data i t. induction fuel as [|fuel IH]; intros data i t Hf; [lia|].
  - cbn [UtpPacket.sack_loop]. destruct (_ && _) eqn:E; [|done]. apply andb_prop in E as [Hi%Nat.ltb_lt _].
    rewrite !res_bind_OutOfFuel. intros [Hp|(len & _ & Hp)]; [by destruct (data !! _)|].
    rewrite res_bind_OutOfFuel in Hp. destruct Hp as [Hp|(next & _ & Hp)]; [by destruct (data !! _)|].
    revert Hp. apply IH. destruct (more_extensions _); rewrite ?length_insert; lia.
Qed.

Lemma vec_insert_fuel i x l : vec_insert i x l <> OutOfFuel.
Proof. unfold vec_insert. by destruct (_ <=? _)%nat. Qed.

Lemma vec_insert_all_fuel k (bv : list (nat * Z)) r : r <> OutOfFuel ->
  foldl (fun acc '(i, value) => let? data := acc in vec_insert (k + i) value data) r bv <> OutOfFuel.
Proof.
  revert r. induction bv as [|[i v] bv IH]; intros r Hr; cbn [foldl]; [done|]. apply IH.
  destruct r; try done. apply vec_insert_fuel.
Qed.

Lemma set_sack_fuel p bv : set_sack p bv <> OutOfFuel.
Proof.
  unfold set_sack. destruct (negb _); [done|]. destruct (negb _); [done|].
  rewrite res_bind_OutOfFuel. intros [Hp|(t & _ & Hp)]; [by destruct (raw p !! _)|].
  rewrite res_bind_OutOfFuel in Hp. destruct Hp as [Hp|([data i] & _ & Hp)].
  { destruct (more_extensions _); [|done]. revert Hp. apply sack_loop_fuel. unfold ext_fuel. lia. }
  rewrite res_bind_OutOfFuel in Hp. destruct Hp as [Hp|(d1 & _ & Hp)]; [by apply vec_insert_fuel in Hp|].
  rewrite res_bind_OutOfFuel in Hp. destruct Hp as [Hp|(d2 & _ & Hp)]; [by apply vec_insert_fuel in Hp|].
  rewrite res_bind_OutOfFuel in Hp. destruct Hp as [Hp|(d3 & _ & Hp)]; [|done]. revert Hp. by apply vec_insert_all_fuel.
Qed.

Lemma selective_ack_keeps ack l sack : keeps (selective_ack_loop ack l sack).
Proof.
  revert sack. induction l as [|p l IH]; intros sack; cbn [selective_ack_loop]; [auto with keeps|].
  apply keeps_checked_u. intros _. destruct (_ <? _); [|done].
  apply keeps_checked_u. intros _. apply keeps_checked_u. intros _. done.
Qed.

Lemma reply_with_sack_keeps p reply : keeps (reply_with_sack p reply).
Proof.
  apply keeps_gets. intros s _. destruct (_ <? _); [|auto with keeps].
  apply keeps_bind; [apply keeps_gets; intros; apply selective_ack_keeps|].
  intros sack. destruct (is_nil sack); [auto with keeps|]. apply keeps_lift, set_sack_fuel.
Qed.

Lemma handle_data_keeps p : keeps (handle_data_packet p).
Proof.
  apply keeps_gets. intros s _. apply keeps_bind; [auto with keeps|]. intros reply.
  apply keeps_bind; [apply reply_with_sack_keeps|auto with keeps].
Qed.

(** ** Timeouts *)

Lemma handle_receive_timeout_keeps : keeps handle_receive_timeout.
Proof.
  intros n s Hs. pose proof (Inv_sk n s Hs) as Hi. apply wp_bind, wp_gets. cbn [id].
  apply wp_bind, wp_checked_u; [done|]. intros Hd. do 2 apply wp_bind, wp_modify. cbn [sk world].
  set (s1 := mkSt _ _). assert (Hs1 : Inv n s1).
  { apply Inv_sock; [done|]. pose proof (inv_timeout _ Hi). destruct Hi; constructor; assign_field; try assumption.
    - unfold MSS. lia.
    - unfold in_unsigned in Hd. unfold MIN_CONGESTION_TIMEOUT in *. lia. }
  destruct (send_window (sk s)) as [|p rest] eqn:Ew.
  - destruct (state_is FinSent (sk s)).
    + apply (keeps_bind fin_packet _ keeps_fin_packet); [auto with keeps|done].
    + destruct (negb _); [by apply keeps_fast_resend|by apply wp_ret].
  - apply wp_bind, wp_now. intros now s2 _ [Hsk Hbox]. apply wp_bind, wp_modify. rewrite Hsk. apply keeps_send.
    destruct Hs1 as (Hi1 & Hev & Hn). unfold Inv, events_left. cbn [sk world]. rewrite Hbox. split; [|done].
    pose proof (inv_window _ Hi1) as Hw. pose proof (inv_flight _ Hi1) as Hf. subst s1. cbn [sk] in *.
    revert Hw Hf. assign_field. rewrite Ew. cbn [window_bytes foldr]. fold (window_bytes rest). intros Hw Hf.
    inversion Hw; subst. destruct Hi1; constructor; assign_field; try assumption.
    + constructor; [by apply sendable_set_field|done].
    + cbn [window_bytes foldr]. fold (window_bytes rest). unfold set_timestamp. by rewrite packet_len_set_field.
Qed.

(** ** Delays and congestion *)

Lemma update_base_delay_inv d now s : sock_inv s -> sock_inv (update_base_delay d now s).
Proof.
  intros Hi. pose proof (inv_history _ Hi) as Hh. unfold update_base_delay. destruct (_ || _).
  - destruct Hi; constructor; assign_field; try assumption.
    destruct (Nat.eqb_spec (length (base_delays s)) BASE_HISTORY); rewrite length_app, ?length_drop; cbn [length];
      unfold BASE_HISTORY in *; lia.
  - destruct (_ <? _); [|done]. destruct Hi; constructor; assign_field; try assumption. by rewrite length_insert.
Qed.

Lemma quot_bounds x k : 0 < k -> 0 <= x -> 0 <= Z.quot x k <= x.
Proof.
  intros Hk Hx. rewrite Z.quot_div_nonneg by lia. split; [apply Z.div_pos; lia|]. apply Z.div_le_upper_bound; nia.
Qed.

(** One step of the moving averages: between the old value and the sample. *)
Lemma average_bounds a b k hi : 0 < k -> 0 <= a <= hi -> 0 <= b <= hi -> 0 <= a + Z.quot (b - a) k <= hi.
Proof.
  intros Hk Ha Hb. destruct (Z.le_ge_cases a b).
  - pose proof (quot_bounds (b - a) k). lia.
  - replace (b - a) with (- (a - b)) by lia. rewrite Z.quot_opp_l by lia. pose proof (quot_bounds (a - b) k). lia.
Qed.

Lemma update_congestion_timeout_keeps d : 0 <= d <= MAX_RTT -> keeps (update_congestion_timeout d).
Proof.
  intros Hd. apply keeps_gets. intros s Hi. cbn [id]. pose proof (inv_rtt _ Hi). pose proof (inv_variance _ Hi).
  do 4 (apply keeps_checked_s; intros _). apply keeps_bind; [assign|intros _].
  { apply average_bounds; lia. }
  do 2 (apply keeps_checked_s; intros _). apply keeps_bind; [assign|intros _].
  { apply average_bounds; lia. }
  do 2 (apply keeps_checked_s; intros _). apply keeps_bind.
  - assign. assert (is_u64 (as_u64 (rtt s + Z.quot (d - rtt s) 8 +
      (rtt_variance s + Z.quot (Z.abs (rtt s - d) - rtt_variance s) 4) * 4))) as Hu by (by apply wrap_in_unsigned).
    unfold in_unsigned in Hu. unfold MIN_CONGESTION_TIMEOUT. lia.
  - intros _. apply keeps_modify. intros s1 Hi1. pose proof (inv_timeout _ Hi1).
    destruct Hi1; constructor; assign_field; try assumption.
    unfold MIN_CONGESTION_TIMEOUT, MAX_CONGESTION_TIMEOUT in *. lia.
Qed.

Lemma update_congestion_window_keeps f b : keeps (update_congestion_window f b).
Proof.
  intros n s Hs. pose proof (Inv_sk n s Hs) as Hi. apply wp_bind, wp_gets, wp_bind, wp_modify. cbn [id].
  apply wp_bind, wp_checked_u; [done|]. intros Hm. apply wp_bind, wp_modify, wp_modify. cbn [sk world].
  apply Inv_sock; [done|]. destruct Hi; constructor; assign_field; try assumption.
  unfold in_unsigned, MSS, MIN_CWND, ALLOWED_INCREASE in *. lia.
Qed.

Lemma Delay_to_u32_rtt d : 0 <= Delay_to_u32 d / 1000 <= MAX_RTT.
Proof.
  assert (Hu : is_u32 (Delay_to_u32 d)) by (by apply wrap_in_unsigned). unfold in_unsigned, MAX_RTT in *.
  split; [apply Z.div_pos; lia|]. apply Z.div_le_mono; lia.
Qed.

Lemma swrap_small n : 0 <= n <= MAX_RTT -> swrap 32 n = n.
Proof. intros Hn. change MAX_RTT with 4294967 in Hn. unfold swrap. rewrite Z.mod_small; lia. Qed.

Lemma queuing_delay_keeps : keeps queuing_delay.
Proof. apply keeps_gets. intros s _ n s' Hs'. apply wp_checked_s; done. Qed.

Lemma count_duplicate_ack_keeps p : packet_wf p -> keeps (count_duplicate_ack p).
Proof.
  intros Hp. apply keeps_gets. intros s Hi. destruct (_ =? _).
  - apply keeps_checked_u. intros Hn. assign.
  - apply keeps_bind; [assign; by apply ack_nr_u16|]. intros _. apply keeps_now. intros t _.
    apply keeps_bind; [assign|]. intros _. assign. unfold in_unsigned. lia.
Qed.

Lemma update_congestion_keeps p : keeps (update_congestion p).
Proof.
  apply keeps_gets. intros s Hi. cbn [id]. destruct (position _ _) as [i|]; [|auto with keeps].
  apply keeps_now. intros now _. cbv zeta.
  apply keeps_bind; [apply keeps_modify, update_base_delay_inv|intros _].
  apply keeps_bind; [assign|intros _]. apply keeps_bind; [apply queuing_delay_keeps|]. intros delay.
  apply keeps_bind; [apply update_congestion_window_keeps|]. intros _.
  apply keeps_bind; [apply queuing_delay_keeps|]. intros delay2. apply keeps_checked_s. intros _.
  pose proof (Delay_to_u32_rtt (Timestamp_sub now (timestamp (send_window s !!! i)) - delay2)).
  rewrite swrap_small by done. by apply update_congestion_timeout_keeps.
Qed.

(** ** The send window *)

Lemma remove_acked_keeps k : keeps (remove_acked k).
Proof.
  induction k as [|k IH]; cbn [remove_acked]; [auto with keeps|]. intros n s Hs. pose proof (Inv_sk n s Hs) as Hi.
  apply wp_bind, wp_gets. cbn [id]. destruct (send_window (sk s)) as [|p rest] eqn:Ew; [by apply wp_panic|].
  apply wp_bind, wp_modify, wp_bind, wp_checked_u; [done|]. intros Hu. apply wp_bind, wp_modify. cbn [sk world].
  apply IH, Inv_sock; [done|]. pose proof (inv_window _ Hi) as Hw. pose proof (inv_flight _ Hi) as Hf.
  rewrite Ew in Hw, Hf. inversion Hw; subst. cbn [window_bytes foldr] in Hf. fold (window_bytes rest) in Hf.
  destruct Hi; constructor; assign_field; try assumption. rewrite sendable_as_u32 by done. lia.
Qed.

Lemma advance_send_window_keeps : keeps advance_send_window.
Proof. apply keeps_gets. intros s _. destruct (position _ _); [apply remove_acked_keeps|auto with keeps]. Qed.

(** ** The recursion *)

(** Keeps the invariant when fewer than [N] events are to come. *)
Definition keeps_below {A} (N : nat) (m : M A) : Prop :=
  forall n s, (n < N)%nat -> Inv n s -> wp True m (fun _ => Inv n) (Inv n) s.

(** A receive, which moreover consumes an event. *)
Definition consumes {A} (N : nat) (m : M A) : Prop :=
  forall n s, (n < N)%nat -> Inv n s -> wp True m (fun _ s' => exists k, (k < n)%nat /\ Inv k s') (Inv n) s.

Lemma keeps_below_of {A} N (m : M A) : keeps m -> keeps_below N m.
Proof. intros Hm n s _. apply Hm. Qed.

Lemma below_bind {A B} N (m : M A) (k : A -> M B) : keeps_below N m -> (forall a, keeps_below N (k a)) ->
  keeps_below N (let! a := m in k a).
Proof.
  intros Hm Hk n s Hn Hs. apply wp_bind. eapply wp_mono; [by apply Hm| |done]. intros a s' Hs'. by apply Hk.
Qed.

Lemma below_gets {A B} N (f : UtpSocket -> A) (k : A -> M B) :
  (forall s, sock_inv s -> keeps_below N (k (f s))) -> keeps_below N (let! a := gets f in k a).
Proof. intros Hk n s Hn Hs. apply wp_bind, wp_gets. apply Hk; [by apply (Inv_sk n)|done|done]. Qed.

Lemma below_attempt {A} N (m : M A) : keeps_below N m -> keeps_below N (attempt m).
Proof. intros Hm n s Hn Hs. apply wp_attempt. eapply wp_mono; [by apply Hm|done|]. auto. Qed.

Lemma below_checked_u {A} N w v (k : Z -> M A) : (in_unsigned w v -> keeps_below N (k v)) ->
  keeps_below N (let! a := checked_u w v in k a).
Proof. intros Hk n s Hn Hs. apply wp_bind, wp_checked_u; [done|]. intros Hv. by apply Hk. Qed.

Lemma below_now {A} N (k : Z -> M A) : (forall t, is_u32 t -> keeps_below N (k t)) ->
  keeps_below N (let! t := now_microseconds in k t).
Proof. intros Hk n s Hn Hs. apply wp_bind, wp_now. intros t s' Ht Hs'. apply Hk; [done|done|]. by eapply Inv_same. Qed.

Ltac below := apply keeps_below_of; auto with keeps.

Section Knot.
Context (N : nat) (recv : nat -> M (list Z * SocketAddr)).
Hypothesis recv_consumes : forall buf, consumes N (recv buf).

Lemma pre_send_wait_keeps fuel limit now n s : (n < fuel)%nat -> (n < N)%nat -> Inv n s ->
  wp True (pre_send_wait recv fuel limit now) (fun _ => Inv n) (Inv n) s.
Proof.
  revert n s. induction fuel as [|fuel IH]; intros n s Hf Hn Hs; [lia|]. cbn [pre_send_wait].
  apply wp_bind, wp_gets, wp_bind.
  assert (Hgo : forall (full : bool) s, Inv n s ->
    wp True (if full then let! _ := recv BUF_SIZE in pre_send_wait recv fuel limit now else ret tt)
      (fun _ => Inv n) (Inv n) s).
  { intros [] s' Hs'; [|by apply wp_ret]. apply wp_bind. eapply wp_mono; [by apply recv_consumes| |done].
    intros _ s2 (k & Hk & Hs2). apply (wp_weaken _ k); [apply IH; [lia|lia|done]|lia]. }
  destruct (_ <=? _); [|by apply wp_ret; apply (Hgo false)].
  apply wp_bind, wp_now. intros t s' _ Hs'. apply wp_ret. apply Hgo.
  by eapply Inv_same.
Qed.

Lemma with_events_keeps {A} (f : nat -> M A) :
  (forall n s, (n < N)%nat -> Inv n s -> wp True (f (S n)) (fun _ => Inv n) (Inv n) s) -> keeps_below N (with_events f).
Proof.
  intros Hf n s Hn Hs. apply wp_with_events. pose proof (Inv_own n s Hs) as Ho. destruct Hs as (_ & _ & Hle).
  apply (wp_weaken _ (events_left s)); [apply Hf; [lia|exact Ho]|done].
Qed.

Lemma send_packet_keeps p : keeps_below N (send_packet recv p).
Proof.
  apply below_gets. intros s _. apply below_now. intros now _. apply below_bind.
  - apply with_events_keeps. intros n s' Hn Hs'. apply pre_send_wait_keeps; [lia|done|done].
  - intros _. apply below_now. intros t _. apply below_gets. intros s2 _.
    apply below_bind; [below|]. intros _. below.
Qed.

Lemma resend_lost_packet_keeps k : keeps_below N (resend_lost_packet recv k).
Proof.
  apply below_gets. intros s _. destruct (position _ _); [|below].
  apply below_bind; [apply below_attempt, send_packet_keeps|]. intros _. below.
Qed.

Lemma resend_unacked_keeps ack lst i bits : keeps_below N (resend_unacked recv ack lst i bits).
Proof.
  revert i. induction bits as [|[] bits IH]; intros i; cbn [resend_unacked]; [below|done|].
  apply below_checked_u. intros _. apply below_checked_u. intros _. destruct (_ <? _); [|below].
  apply below_bind; [apply resend_lost_packet_keeps|]. intros _. apply below_bind; [done|]. intros _. below.
Qed.

Lemma process_extensions_keeps p exts : keeps_below N (process_extensions recv p exts).
Proof.
  induction exts as [|x exts IH]; cbn [process_extensions]; [below|]. apply below_bind.
  - destruct (bool_decide _); [|below]. apply below_bind.
    + destruct (_ <=? _)%nat; [|below]. apply below_checked_u. intros _.
      apply below_bind; [apply resend_lost_packet_keeps|]. intros _. below.
    + intros three. apply below_gets. intros s _. destruct (last _); [|below].
      apply below_bind; [apply keeps_below_of, keeps_lift; by rewrite bits_of_bytes_spec|]. intros bits.
      apply below_bind; [apply resend_unacked_keeps|]. intros resent. below.
  - intros lost. apply below_bind; [done|]. intros rest. below.
Qed.

Lemma halve_cwnd_keeps : keeps (modify (fun s => with_cwnd (Z.max (cwnd s / 2) (MIN_CWND * MSS)) s)).
Proof.
  apply keeps_modify. intros s Hi. pose proof (inv_cwnd _ Hi). destruct Hi; constructor; assign_field; try assumption.
  assert (cwnd s / 2 <= cwnd s) by (apply Z.div_le_upper_bound; unfold MSS in *; lia).
  unfold MSS, MIN_CWND in *. lia.
Qed.

Lemma handle_state_keeps p : packet_wf p -> keeps_below N (handle_state_packet recv p).
Proof.
  intros Hp. destruct (packet_wf_parts _ Hp) as (t & es & pl & _ & _ & Hes & _).
  apply below_bind; [by apply keeps_below_of, count_duplicate_ack_keeps|intros _].
  apply below_bind; [by apply keeps_below_of, update_congestion_keeps|intros _].
  apply below_gets. intros s _. cbv zeta. rewrite Hes. apply below_bind; [by apply keeps_below_of, keeps_lift|].
  intros exts. apply below_bind; [apply process_extensions_keeps|]. intros lost. apply below_gets. intros s2 _.
  apply below_bind.
  - destruct (_ && _); [|below]. apply below_checked_u. intros _. apply resend_lost_packet_keeps.
  - intros _. apply below_bind; [by apply keeps_below_of, keeps_when, halve_cwnd_keeps|].
    intros _. apply keeps_below_of, advance_send_window_keeps.
Qed.

(** ** The state machine *)

Lemma acknowledge_next_inv p s : packet_wf p -> sock_inv s -> sock_inv (acknowledge_next p s).
Proof.
  intros Hp Hi. unfold acknowledge_next. destruct (_ =? _); [|done].
  destruct Hi; constructor; assign_field; try assumption. by apply seq_nr_u16.
Qed.

Lemma accept_syn_keeps p src : (stage <= 1)%nat -> packet_wf p -> keeps (accept_syn p src).
Proof.
  intros Hst Hp. apply keeps_bind; [assign|intros _]. apply keeps_bind; [assign; by apply seq_nr_u16|intros _].
  apply keeps_draw. intros r Hr. apply keeps_bind; [assign|intros _]. apply keeps_checked_u. intros Hc.
  apply keeps_bind; [assign|intros _]. apply keeps_bind; [assign; by apply connection_id_u16|intros _].
  apply keeps_bind; [assign|intros _]. apply keeps_bind; [assign|intros _].
  apply keeps_bind; auto with keeps.
Qed.

Lemma accept_syn_reply_keeps p src : (stage <= 1)%nat -> packet_wf p -> keeps (accept_syn_reply p src).
Proof.
  intros Hst Hp. apply keeps_bind; [assign|intros _]. apply keeps_checked_u. intros Hc.
  apply keeps_bind; [assign|intros _]. apply keeps_gets. intros s _. apply keeps_checked_u. intros Hn.
  apply keeps_bind; [assign|intros _]. apply keeps_bind; [assign|intros _].
  apply keeps_bind; [assign; by apply ack_nr_u16|intros _]. apply keeps_now. intros t _.
  apply keeps_bind; [assign|intros _]. auto with keeps.
Qed.

Lemma fin_keeps p : keeps (let! reply := prepare_reply p State in
  let! reply := reply_with_sack p reply in
  let! _ := modify (with_state Closed) in ret (Some reply)).
Proof.
  apply keeps_bind; [auto with keeps|]. intros reply. apply keeps_bind; [apply reply_with_sack_keeps|]. intros r.
  apply keeps_bind; [assign|intros _]. auto with keeps.
Qed.

Lemma dispatch_keeps p src st t : (stage <= state_rank st)%nat -> packet_wf p -> keeps_below N (dispatch recv p src st t).
Proof.
  intros Hst Hp.
  assert (Hr : forall t, keeps (let! reply := prepare_reply p t in ret (Some reply)))
    by (intros; apply keeps_bind; auto with keeps).
  assert (Hreset : forall A, keeps (A := A) (let! _ := modify (with_state ResetReceived) in raise ConnectionReset))
    by (intros; apply keeps_bind; [assign|auto with keeps]).
  destruct st, t; cbn [dispatch]; lazymatch goal with
  | |- keeps_below _ (raise _) => apply keeps_below_of, keeps_raise
  | |- keeps_below _ (let! _ := modify (with_state ResetReceived) in _) => apply keeps_below_of, Hreset
  | |- keeps_below _ (let! _ := prepare_reply _ _ in ret _) => apply keeps_below_of, Hr
  | |- keeps_below _ (let! _ := prepare_reply _ _ in _) => apply keeps_below_of, fin_keeps
  | |- keeps_below _ (handle_data_packet _) => apply keeps_below_of, handle_data_keeps
  | |- keeps_below _ (accept_syn _ _) => by apply keeps_below_of, accept_syn_keeps; [cbn in Hst; lia|]
  | |- keeps_below _ (accept_syn_reply _ _) => by apply keeps_below_of, accept_syn_reply_keeps; [cbn in Hst; lia|]
  | _ => idtac
  end.
  - apply below_bind; [by apply handle_state_keeps|]. intros _. below.
  - apply below_gets. intros s _. apply below_bind; [|intros _; below].
    destruct (_ =? _); [apply keeps_below_of; assign|by apply handle_state_keeps].
Qed.

Lemma get_type_fuel p : Packet_get_type p <> OutOfFuel.
Proof.
  unfold Packet_get_type, type_ver_get_type. unfold PacketType_try_from_type.
  by destruct (Z.shiftr _ _) as [|[[]|[[]|[]|]|]|].
Qed.

Lemma handle_packet_keeps p src : packet_wf p -> keeps_below N (handle_packet recv p src).
Proof.
  intros Hp. apply below_bind; [apply keeps_below_of, keeps_modify; intros s; by apply acknowledge_next_inv|intros _].
  apply below_bind; [by apply keeps_below_of, keeps_lift, get_type_fuel|]. intros t. apply below_gets. intros s _.
  destruct (wrong_connection _ _ _); [apply keeps_below_of, keeps_bind; auto with keeps|].
  apply below_bind; [apply keeps_below_of; assign; by apply (packet_wf_field FWndSize)|intros _].
  apply below_now. intros now Hnow. apply below_bind; [apply keeps_below_of; assign|intros _].
  - rewrite abs_diff_spec. pose proof (packet_wf_field FTimestamp p Hp) as Ht. cbn [field_size] in Ht.
    unfold in_unsigned, timestamp in *. lia.
  - apply below_gets. intros s2 Hi2. apply dispatch_keeps; [apply Hi2|done].
Qed.

(** ** Receiving *)

Lemma wp_attempt_recv len Q X s : X s ->
  (forall d src rest s', inbox (world s) = Datagram d src :: rest -> inbox (world s') = rest -> sk s' = sk s ->
    Q (inr (take len d, src)) s') ->
  (forall e rest s', inbox (world s) = RecvError e :: rest -> inbox (world s') = rest -> sk s' = sk s -> Q (inl e) s') ->
  wp True (attempt (udp_recv len)) Q X s.
Proof. intros H1 H2 H3. unfold wp, attempt, udp_recv. destruct (inbox (world s)) as [|[] rest] eqn:E; eauto. Qed.

Lemma parse_fuel data : bytes_ok data -> Packet_try_from_type data <> OutOfFuel.
Proof.
  intros Hb. unfold Packet_try_from_type.
  destruct (header_parse_cases data) as [(h & -> & Hl & Hf)|(e' & -> & He)]; cbn [res_bind]; [|done].
  by destruct (check_extensions_cases data Hb Hl) as [(es & pl & Hc & ->)|[Hno [e' ->]]].
Qed.

Lemma recv_wait_keeps fuel r n s : (n < fuel)%nat -> Inv n s ->
  wp True (recv_wait fuel r) (fun x s' => bytes_ok (fst x) /\ exists k, (k < n)%nat /\ Inv k s') (Inv n) s.
Proof.
  revert r n s. induction fuel as [|fuel IH]; intros r n s Hf Hs; [lia|]. cbn [recv_wait].
  apply wp_bind, wp_gets. destruct (_ <=? _).
  { apply wp_bind, wp_modify, wp_raise, Inv_sock; [done|]. pose proof (Inv_sk n s Hs) as Hi.
    destruct Hi; constructor; assign_field; try assumption. etransitivity; [eassumption|apply state_rank_le]. }
  apply wp_bind. eapply wp_mono; [by apply (keeps_set_read_timeout _ n)| |done]. cbn beta. intros _ s1 Hs1.
  destruct Hs1 as (Hi & Hev & Hle). apply wp_bind, wp_attempt_recv; [by split_and!| |].
  - intros d src rest s2 Hbox Hrest Hsk. apply wp_ret. rewrite Hbox in Hev. inversion Hev; subst. split.
    + by apply Forall_take.
    + unfold events_left in Hle. rewrite Hbox in Hle. cbn [length] in Hle. exists (length (inbox (world s2))).
      split; [lia|]. unfold Inv, events_left. by rewrite Hsk.
  - intros e rest s2 Hbox Hrest Hsk. rewrite Hbox in Hev. inversion Hev; subst.
    unfold events_left in Hle. rewrite Hbox in Hle. cbn [length] in Hle.
    assert (Hs2 : Inv (length (inbox (world s2))) s2) by (unfold Inv, events_left; by rewrite Hsk).
    assert (Hs2n : Inv n s2) by (eapply Inv_mono; [exact Hs2|lia]).
    destruct (timed_out e); [|by apply wp_rethrow]. apply wp_bind.
    eapply wp_mono; [apply (handle_receive_timeout_keeps _ _ Hs2)| |intros; eapply Inv_mono; [eassumption|lia]].
    cbn beta. intros _ s3 Hs3. eapply wp_mono; [apply (IH (r + 1) (length (inbox (world s2))) s3); [lia|exact Hs3]| |].
    + cbn beta. intros x s4 (Hb & k & Hk & Hs4). split; [done|]. exists k. split; [lia|done].
    + intros; eapply Inv_mono; [eassumption|lia].
Qed.

Lemma process_packet_keeps p src buf : packet_wf p -> keeps_below N (process_packet recv p src buf).
Proof.
  intros Hp. apply below_bind; [by apply handle_packet_keeps|]. intros reply.
  apply below_bind; [destruct reply; below|]. intros _. apply below_gets. intros s _.
  apply below_bind; [by apply keeps_below_of, keeps_lift, get_type_fuel|]. intros t.
  apply below_bind; [by apply keeps_below_of, keeps_when, insert_keeps|]. intros _.
  apply below_bind; [apply keeps_below_of, flush_incoming_keeps|]. intros data. below.
Qed.

Lemma recv_body_consumes buf : consumes (S N) (recv_body recv buf).
Proof.
  intros n s Hn Hs. apply wp_bind, wp_with_events. pose proof (Inv_own n s Hs) as Ho. destruct Hs as (_ & _ & Hle).
  eapply wp_mono; [apply (recv_wait_keeps _ 0 (events_left s)); [lia|exact Ho]| |].
  - cbn beta. intros [data src] s1 (Hb & k & Hk & Hs1). cbn [fst] in Hb.
    destruct (Packet_try_from_type data) as [p| | |] eqn:E.
    + assert (Hp : packet_wf p) by (destruct (packet_parse_Ok _ _ Hb E) as (-> & _); done).
      eapply wp_mono; [apply (process_packet_keeps p src buf Hp k s1); [lia|exact Hs1]| |].
      * cbn beta. intros x s2 Hs2. exists k. split; [lia|done].
      * intros s2 Hs2. eapply Inv_mono; [exact Hs2|lia].
    + apply wp_bind, wp_gets, wp_ret. exists k. split; [lia|done].
    + done.
    + exfalso. revert E. apply parse_fuel. done.
  - intros s1 Hs1. eapply Inv_mono; [exact Hs1|lia].
Qed.

End Knot.

Lemma recv_fuel_consumes fuel buf : consumes fuel (recv_fuel fuel buf).
Proof.
  revert buf. induction fuel as [|fuel IH]; intros buf; [intros n s Hn; lia|]. cbn [recv_fuel].
  by apply recv_body_consumes.
Qed.

Lemma recv_consumes N buf : consumes N (recv buf).
Proof.
  intros n s _ Hs. apply wp_with_events. pose proof (Inv_own n s Hs) as Ho. destruct Hs as (_ & _ & Hle).
  eapply wp_mono; [apply recv_fuel_consumes; [|exact Ho]; lia| |]; cbn beta.
  - intros x s' (k & Hk & Hs'). exists k. split; [lia|done].
  - intros s' Hs'. eapply Inv_mono; [exact Hs'|lia].
Qed.

(** ** Loops that receive *)

(** A loop that receives in every round ends within the events to come. *)
Lemma recv_from_loop_keeps fuel buf n s : (n < fuel)%nat -> Inv n s ->
  wp True (recv_from_loop fuel buf) (fun _ => Inv n) (Inv n) s.
Proof.
  revert n s. induction fuel as [|fuel IH]; intros n s Hf Hs; [lia|]. cbn [recv_from_loop]. apply wp_bind, wp_gets.
  destruct (state_is _ _); [by apply wp_ret|]. apply wp_bind.
  eapply wp_mono; [apply (recv_consumes (S n) buf n s); [lia|done]| |done]. cbn beta. intros [data src] s1 (k & Hk & Hs1).
  apply (wp_weaken _ k); [|lia]. destruct (is_nil data); [apply IH; [lia|done]|by apply wp_ret].
Qed.

Lemma flush_loop_keeps fuel n s : (n < fuel)%nat -> Inv n s -> wp True (flush_loop fuel) (fun _ => Inv n) (Inv n) s.
Proof.
  revert n s. induction fuel as [|fuel IH]; intros n s Hf Hs; [lia|]. cbn [flush_loop]. apply wp_bind, wp_gets.
  destruct (is_nil _); [by apply wp_ret|]. apply wp_bind.
  eapply wp_mono; [apply (recv_consumes (S n) 0 n s); [lia|done]| |done]. cbn beta. intros _ s1 (k & Hk & Hs1).
  apply (wp_weaken _ k); [|lia]. apply IH; [lia|done].
Qed.

Lemma close_loop_keeps fuel n s : (n < fuel)%nat -> Inv n s -> wp True (close_loop fuel) (fun _ => Inv n) (Inv n) s.
Proof.
  revert n s. induction fuel as [|fuel IH]; intros n s Hf Hs; [lia|]. cbn [close_loop]. apply wp_bind, wp_gets.
  destruct (state_is _ _); [by apply wp_ret|]. apply wp_bind.
  eapply wp_mono; [apply (recv_consumes (S n) BUF_SIZE n s); [lia|done]| |done]. cbn beta. intros _ s1 (k & Hk & Hs1).
  apply (wp_weaken _ k); [|lia]. apply IH; [lia|done].
Qed.

Lemma with_own_events {A} (f : nat -> M A) :
  (forall n s, Inv n s -> wp True (f (S n)) (fun _ => Inv n) (Inv n) s) -> keeps (with_events f).
Proof. intros Hf n s Hs. apply (with_events_keeps (S n)); [|lia|done]. intros k s' _. apply Hf. Qed.

Lemma recv_from_keeps buf : keeps (recv_from buf).
Proof.
  apply keeps_bind; [apply flush_incoming_keeps|]. intros data. apply keeps_gets. intros s _.
  destruct (_ <? _)%nat; [auto with keeps|]. destruct (state_is _ _); [auto with keeps|].
  apply with_own_events. intros n s' Hs'. apply recv_from_loop_keeps; [lia|done].
Qed.

Lemma flush_keeps : keeps flush.
Proof. apply with_own_events. intros n s Hs. apply flush_loop_keeps; [lia|done]. Qed.

Lemma close_keeps : (stage <= 2)%nat -> keeps close.
Proof.
  intros Hst. apply keeps_gets. intros s _. destruct (_ || _); [auto with keeps|]. apply keeps_bind; [apply flush_keeps|intros _].
  apply keeps_bind; [auto with keeps|]. intros packet. apply keeps_gets. intros s2 _.
  apply keeps_bind; [auto with keeps|intros _]. apply keeps_bind; [assign|intros _].
  apply with_own_events. intros n s' Hs'. apply close_loop_keeps; [lia|done].
Qed.

Lemma send_packet_returns p n s : sendable p -> Inv n s ->
  wp True (send_packet recv p) (fun q s' => sendable q /\ Inv n s') (Inv n) s.
Proof.
  intros Hp Hs. apply wp_bind, wp_gets, wp_bind, wp_now. intros now s1 _ Hs1. apply (Inv_same n) in Hs1; [|done].
  apply wp_bind. set (wait := with_events _). assert (Hw : keeps wait).
  { apply with_own_events. intros k s' Hs'. apply (pre_send_wait_keeps (S k)); [intros; apply recv_consumes|lia|lia|done]. }
  eapply wp_mono; [by apply Hw| |done].
  cbn beta. intros _ s2 Hs2. apply wp_bind, wp_now. intros t s3 _ Hs3. apply (Inv_same n) in Hs3; [|done].
  apply wp_bind, wp_gets, wp_bind, wp_send; intros s4 Hs4; apply (Inv_same n) in Hs4; try done.
  apply wp_ret. split; [|done]. by apply sendable_set_field, sendable_set_field.
Qed.

End KeepsOperations.

(** ** Opening *)

Lemma from_raw_parts_inv id src : is_u16 id -> queue = [] -> stage = 0%nat -> sock_inv (from_raw_parts id src).
Proof.
  intros Hid Hq Hst. pose proof (sequential_identifiers_ok id Hid) as Hseq. unfold from_raw_parts.
  destruct (generate_sequential_identifiers id) as [r s]. destruct Hseq as (Hr & Hs & _).
  constructor; assign_field; first [assumption | by symmetry | by rewrite Hst | reflexivity | apply SSorted_nil | apply Forall_nil_2 | apply (bool_decide_unpack _); vm_compute; exact I].
Qed.

End Queue.

Ltac assign :=
  repeat match goal with
  | |- keeps _ _ (modify _) => apply keeps_modify; intros ? ?
  | H : sock_inv _ _ ?s |- sock_inv _ _ _ => is_var s; destruct H; constructor; assign_field; try assumption;
      try (etransitivity; [eassumption|apply state_rank_le])
  end.
