(* ===== verification/UtpSocketSpec.v ===== *)
(** * Properties of the uTP socket

    The invariant and the termination of every public method over arbitrary
    histories, the ordered receive buffer, selective acknowledgements, segmentation,
    in-order delivery of data packets, and the histories in which delivery fails. *)

From Stdlib Require Import Sorted.
From stdpp Require Import sets.
From S2P Require Import Prelude RustStd Words UtilConvert UtpPacket UtpPacketSpec UtpWorld UtpSocket UtpSocketInv.

(** ** Sending *)

Section Sending.
Context `{UtpEnv}.

Lemma requeue q q' k n s f : Inv q k n s -> sock_inv q k (sk s) -> Forall sendable q' ->
  f = with_unsent_queue q' (sk s) -> Inv q' k n (mkSt f (world s)).
Proof.
  intros (_ & Hev) Hi Hq ->. split; [|done]. destruct Hi; constructor; assign_field; try assumption; done.
Qed.

Lemma with_payload_sendable chunk : (length chunk <= Z.to_nat MSS - HEADER_SIZE)%nat ->
  sendable (Packet_with_payload chunk).
Proof.
  intros Hc. unfold sendable, packet_len, Packet_with_payload. cbn [raw]. rewrite length_app.
  change (length (PacketHeader_as_ref (PacketHeader_set_type PacketHeader_default Data))) with HEADER_SIZE.
  unfold HEADER_SIZE, MSS in *. lia.
Qed.

Lemma enqueue_keeps cs q k n s : Forall (fun c => length c <= Z.to_nat MSS - HEADER_SIZE)%nat cs -> Inv q k n s ->
  wp True (enqueue_chunks cs) (fun _ s' => exists q, Inv q k n s') (fun s' => exists q, Inv q k n s') s.
Proof.
  intros Hcs. revert q s. induction Hcs as [|c cs Hc Hcs IH]; intros q s Hs; cbn [enqueue_chunks].
  { apply wp_ret. eauto. }
  apply wp_bind, wp_gets, wp_bind, wp_checked_u; [done|]. intros Hw. cbn [id]. cbv zeta.
  apply wp_bind, wp_modify, wp_bind, wp_modify. cbn [sk world]. eapply IH.
  pose proof (Inv_sk _ _ n s Hs) as Hi. set (p := set_connection_id _ _).
  assert (Hp : sendable p) by (do 4 apply sendable_set_field; by apply with_payload_sendable).
  destruct Hs as (_ & Hev). split; [|exact Hev]. cbn [sk].
  pose proof (inv_unsent _ _ _ Hi). destruct Hi; constructor; assign_field; try assumption; try reflexivity.
  - by apply wrap_in_unsigned.
  - apply Forall_app. auto.
Qed.

Lemma push_window q k n s p : sendable p -> Inv q k n s -> is_u32 (curr_window (sk s) + as_u32 (packet_len p)) ->
  Inv q k n (mkSt (with_send_window (send_window (sk s) ++ [p])
    (with_curr_window (curr_window (sk s) + as_u32 (packet_len p)) (sk s))) (world s)).
Proof.
  intros Hp Hs Hu. pose proof (Inv_sk _ _ n s Hs) as Hi. apply Inv_sock; [done|].
  pose proof (inv_window _ _ _ Hi). pose proof (inv_flight _ _ _ Hi) as Hf.
  rewrite sendable_as_u32 in * by done.
  destruct Hi; constructor; assign_field; try assumption; try (by apply Forall_app; auto).
  rewrite window_bytes_app. cbn [window_bytes foldr]. lia.
Qed.

Lemma send_loop_keeps fuel q k n s : (length q < fuel)%nat -> Inv q k n s ->
  wp True (send_loop fuel) (fun _ s' => exists q, Inv q k n s') (fun s' => exists q, Inv q k n s') s.
Proof.
  revert q s. induction fuel as [|fuel IH]; intros q s Hf Hs; [lia|]. cbn [send_loop]. apply wp_bind, wp_gets. cbn [id].
  pose proof (Inv_sk _ _ n s Hs) as Hi. pose proof (inv_queue _ _ _ Hi) as Hq. pose proof (inv_unsent _ _ _ Hi) as Hall.
  rewrite Hq in *. destruct q as [|p rest]; [apply wp_ret; eauto|]. inversion Hall; subst.
  apply wp_bind, wp_modify. cbn [sk]. apply wp_bind.
  eapply wp_mono; [apply (send_packet_returns rest k p n); [done|eapply requeue; eauto]| |eauto].
  cbn beta. intros p' s1 [Hp' Hs1]. apply wp_bind, wp_gets, wp_bind, wp_checked_u; [done|]. intros Hu. cbn [id] in *.
  apply wp_bind, wp_modify, wp_bind, wp_modify. cbn [sk world]. apply (IH rest); [cbn in Hf; lia|].
  by apply push_window.
Qed.

Lemma send_to_keeps buf q k n s : Inv q k n s ->
  wp True (send_to buf) (fun _ s' => exists q, Inv q k n s') (fun s' => exists q, Inv q k n s') s.
Proof.
  intros Hs. apply wp_bind, wp_gets. destruct (state_is _ _); [apply wp_raise; eauto|]. apply wp_bind.
  eapply wp_mono; [by apply (enqueue_keeps _ q k n); [apply chunks_fuel_bound|]| |done]. cbn beta. intros _ s1 [q1 Hs1].
  apply wp_bind, wp_bind, wp_gets. cbn [id].
  eapply wp_mono; [apply (send_loop_keeps _ q1 k n s1); [|done]| |done].
  - rewrite (inv_queue _ _ _ (Inv_sk _ _ n s1 Hs1)). lia.
  - cbn beta. intros _ s2 Hs2. by apply wp_ret.
Qed.

End Sending.

(** ** Opening *)

Section Opening.
Context `{UtpEnv}.

(** The part of the invariant that does not depend on the socket. *)
Definition events_ok (n : nat) (s : st) : Prop := Forall event_ok (inbox (world s)) /\ (events_left s <= n)%nat.

Lemma new_socket_keeps src n s : events_ok n s -> wp True (new_socket src) (fun _ => Inv [] 0 n) (Inv [] 0 n) s.
Proof.
  intros [Hev Hle]. apply wp_bind, wp_draw. intros r s1 Hr [_ Hbox]. apply wp_modify.
  unfold Inv, events_left in *. cbn [sk world]. rewrite Hbox. split; [by apply from_raw_parts_inv|done].
Qed.

Lemma lift_io_keeps {A} (r : io_error + A) Q X s : X s -> (forall a, Q a s) -> wp True (lift_io r) Q X s.
Proof. intros HX HQ. by destruct r; [apply wp_rethrow|apply wp_ret]. Qed.

Lemma connect_loop_keeps tries p t n s : Inv [] 0 n s ->
  wp True (connect_loop tries p t) (fun data s' => bytes_ok data /\ Inv [] 0 n s') (Inv [] 0 n) s.
Proof.
  revert p t s. induction tries as [|tries IH]; intros p t s Hs; cbn [connect_loop].
  { apply wp_ret. split; [constructor|done]. }
  apply wp_bind, wp_now. intros now s1 _ Hs1. apply (Inv_same [] 0 n) in Hs1; [|done].
  apply wp_bind, wp_gets, wp_bind, wp_send; intros s2 Hs2; apply (Inv_same [] 0 n) in Hs2; try done.
  apply wp_bind, wp_modify. cbn [id].
  assert (Hk : keeps [] 0 (modify (with_state SynSent))) by (assign; lia). specialize (Hk n s2 Hs2). cbn in Hk.
  apply wp_bind. eapply wp_mono; [apply (keeps_set_read_timeout [] 0 _ n), Hk| |done]. cbn beta. intros _ s3 (Hi & Hev & Hle).
  apply wp_bind, wp_attempt_recv; [by split_and!| |].
  - intros d src rest s4 Hbox Hrest Hsk. rewrite Hbox in Hev. inversion Hev; subst. apply wp_bind, wp_modify, wp_ret.
    split; [by apply Forall_take|]. unfold Inv, events_left in *. rewrite Hbox in Hle. cbn [sk world length] in *.
    rewrite Hsk. split; [|split; [done|lia]]. destruct Hi; constructor; assign_field; assumption.
  - intros e rest s4 Hbox Hrest Hsk. rewrite Hbox in Hev. inversion Hev; subst.
    assert (Hs4 : Inv [] 0 n s4). { unfold Inv, events_left in *. rewrite Hbox in Hle. cbn [length] in Hle. rewrite Hsk. split_and!; [done|done|lia]. }
    destruct (timed_out e); [|by apply wp_rethrow]. apply wp_bind, wp_checked_u; [done|]. intros _. by apply IH.
Qed.

Lemma parsed_wf data p : bytes_ok data -> Packet_try_from_type data = Ok p -> packet_wf p.
Proof. intros Hb E. destruct (packet_parse_Ok _ _ Hb E) as (-> & _). done. Qed.

Lemma handle_new_packet p src n s : packet_wf p -> Inv [] 0 n s ->
  wp True (handle_packet recv p src) (fun _ => Inv [] 0 n) (Inv [] 0 n) s.
Proof. intros Hp Hs. apply (handle_packet_keeps [] 0 (S n)); [intros; apply recv_consumes|done|lia|done]. Qed.

Lemma connect_keeps other n s : events_ok n s ->
  wp True (connect other) (fun _ => Inv [] 0 n) (fun s' => sk s' = sk s /\ events_ok n s' \/ Inv [] 0 n s') s.
Proof.
  intros Hs. apply wp_bind, lift_io_keeps; [by left|]. intros addr.
  apply wp_bind, wp_bind, lift_io_keeps; [by left|]. intros a. destruct (bind_result a); [by apply wp_rethrow; left|].
  eapply wp_mono; [by apply (new_socket_keeps a n)| |auto]. cbn beta. intros _ s1 Hs1.
  apply wp_bind, wp_modify, wp_bind, wp_gets. cbn [id sk world]. cbv zeta. apply wp_bind.
  eapply wp_mono; [apply (connect_loop_keeps _ _ _ n)| |auto].
  { apply Inv_sock; [done|]. pose proof (Inv_sk _ _ n s1 Hs1) as Hi. destruct Hi; constructor; assign_field; assumption. }
  cbn beta. intros data s2 [Hb Hs2]. apply wp_bind, wp_gets, wp_bind, wp_lift; [by apply parse_fuel|done| |by right].
  intros p Hp. apply wp_bind.
  eapply wp_mono; [apply (handle_new_packet p _ n s2 (parsed_wf _ _ Hb Hp) Hs2)| |auto].
  cbn beta. intros o s3 Hs3. by apply wp_ret.
Qed.

Lemma accept_keeps local n s : events_ok n s ->
  wp True (accept local) (fun _ => Inv [] 0 n) (fun s' => sk s' = sk s /\ events_ok n s' \/ Inv [] 0 n s') s.
Proof.
  intros [Hev Hle]. apply wp_bind, wp_recv; [by left| |].
  2:{ intros e rest s1 Hbox Hrest Hsk. left. split; [done|]. unfold events_ok, events_left in *. rewrite Hbox in *.
      inversion Hev; subst. cbn [length] in Hle. split; [done|lia]. }
  intros d src rest s1 Hbox Hrest Hsk. assert (Hs1 : events_ok n s1).
  { unfold events_ok, events_left in *. rewrite Hbox in *. inversion Hev; subst. cbn [length] in Hle. split; [done|lia]. }
  assert (Hb : bytes_ok (take BUF_SIZE d)). { rewrite Hbox in Hev. inversion Hev; subst. by apply Forall_take. }
  apply wp_bind, wp_lift; [by apply parse_fuel|done| |by left]. intros p Hp.
  apply wp_bind, wp_lift; [apply get_type_fuel|done| |by left]. intros t _.
  destruct (negb _); [by apply wp_raise; left|]. destruct (bind_result _); [by apply wp_rethrow; left|].
  apply wp_bind. eapply wp_mono; [by apply (new_socket_keeps src n)| |auto]. cbn beta. intros _ s2 Hs2.
  apply wp_bind, wp_attempt. eapply wp_mono; [apply (handle_new_packet p src n s2 (parsed_wf _ _ Hb Hp) Hs2)| |].
  2:{ intros s3 Hs3. split; [|by right]. intros e. apply wp_raise. by right. }
  cbn beta. intros [reply|] s3 Hs3; [|by apply wp_raise; right].
  apply wp_bind, wp_send; intros s4 Hs4; (apply (Inv_same [] 0 n) in Hs4; [|done]); [by apply wp_ret|by right].
Qed.

End Opening.

(** ** Histories *)

(** The public methods. *)
Inductive call : Type :=
| CallRead (buf : nat)
| CallWrite (data : list Z)
| CallFlush
| CallClose
| CallConnect (other : io_error + list SocketAddr)
| CallAccept (local : SocketAddr)
| CallSetRetries (n : Z).

Section Histories.
Context `{UtpEnv}.

Definition run_call (c : call) : M unit :=
  match c with
  | CallRead buf => let! _ := recv_from buf in ret tt
  | CallWrite data => let! _ := send_to data in ret tt
  | CallFlush => flush
  | CallClose => close
  | CallConnect other => connect other
  | CallAccept local => let! _ := accept local in ret tt
  | CallSetRetries n => set_max_retransmission_retries n
  end.

(** More events arrive. *)
Definition arrive (ev : list recv_event) (s : st) : st :=
  mkSt (sk s) (mkWorld (inbox (world s) ++ ev) (outbox (world s)) (clock_reads (world s)) (sends (world s)) (draws (world s))).

(** The states a socket can be in between calls. *)
Inductive history : st -> Prop :=
| history_new id src w : is_u16 id -> Forall event_ok (inbox w) -> history (mkSt (from_raw_parts id src) w)
| history_arrive ev s : history s -> Forall event_ok ev -> history (arrive ev s)
| history_ret c s s' : history s -> run_call c s = Ret tt s' -> history s'
| history_raise c s e s' : history s -> run_call c s = Raise e s' -> history s'.

Definition socket_ok (n : nat) (s : st) : Prop := exists q, Inv q 0 n s.

Lemma wp_drop {A} pan (m : M A) (P X : st -> Prop) s : wp pan m (fun _ => P) X s ->
  wp pan (let! _ := m in ret tt) (fun _ => P) X s.
Proof. intros Hm. apply wp_bind. eapply wp_mono; [exact Hm|done|done]. Qed.

Lemma keeps_socket_ok {A} (m : M A) n s : (forall q, keeps q 0 m) -> socket_ok n s ->
  wp True m (fun _ => socket_ok n) (socket_ok n) s.
Proof. intros Hm [q Hs]. eapply wp_mono; [by apply (Hm q n s)| |]; cbn beta; intros; by exists q. Qed.

Lemma run_call_keeps c n s : socket_ok n s -> wp True (run_call c) (fun _ => socket_ok n) (socket_ok n) s.
Proof.
  intros Hs. assert (Hev : events_ok n s) by (destruct Hs as [q (_ & ? & ?)]; done).
  assert (Hopen : forall s', sk s' = sk s /\ events_ok n s' \/ Inv [] 0 n s' -> socket_ok n s').
  { intros s' [[Hsk Hev']|Hs']; [|by exists []]. destruct Hs as [q (Hi & _)]. exists q. unfold Inv. by rewrite Hsk. }
  destruct c; cbn [run_call].
  - apply wp_drop, keeps_socket_ok; [|done]. intros q. apply recv_from_keeps.
  - apply wp_drop. destruct Hs as [q Hs]. by apply (send_to_keeps data q).
  - apply keeps_socket_ok; [|done]. intros q. apply flush_keeps.
  - apply keeps_socket_ok; [|done]. intros q. apply close_keeps. lia.
  - eapply wp_mono; [by apply (connect_keeps other n)| |done]. cbn beta. intros _ s' Hs'. by exists [].
  - apply wp_drop. eapply wp_mono; [by apply (accept_keeps local n)| |done]. cbn beta. intros _ s' Hs'. by exists [].
  - apply keeps_socket_ok; [|done]. intros q. unfold set_max_retransmission_retries. assign.
Qed.

Lemma history_ok s : history s -> socket_ok (events_left s) s.
Proof.
  assert (Hown : forall n s, socket_ok n s -> socket_ok (events_left s) s)
    by (intros n s' [q Hs']; exists q; by apply (Inv_own _ _ n)).
  induction 1 as [id src w Hid Hw|ev s Hs [q (Hi & He & _)] Hev|c s s' Hs IH E|c s e s' Hs IH E].
  - exists []. split; [by apply from_raw_parts_inv|done].
  - exists q. split; [done|]. split; [|done]. cbn [arrive inbox world]. by apply Forall_app.
  - pose proof (run_call_keeps c _ s IH) as Hk. unfold wp in Hk. rewrite E in Hk. by apply Hown in Hk.
  - pose proof (run_call_keeps c _ s IH) as Hk. unfold wp in Hk. rewrite E in Hk. by apply Hown in Hk.
Qed.

(** C3: In every history the socket's invariant holds: the receive buffer is strictly
    ordered by sequence number and holds valid packets only; the bytes in flight are
    those of the packets in the send window, each within the segment size; the
    congestion window is at least one segment (a timeout sets it to one segment, below the
    two segments to which losses lower it); the congestion timeout is at least 500 ms; the
    delay history has at most ten entries. *)
Theorem utp_socket_invariant (s : st) : history s ->
  let u := sk s in
  StronglySorted seq_lt (incoming_buffer u) /\ Forall packet_wf (incoming_buffer u) /\
  Forall sendable (send_window u) /\ Forall sendable (unsent_queue u) /\
  curr_window u = window_bytes (send_window u) /\
  MSS <= cwnd u /\ MIN_CONGESTION_TIMEOUT <= congestion_timeout u /\
  (length (base_delays u) <= BASE_HISTORY)%nat.
Proof.
  intros Hs. destruct (history_ok s Hs) as [q (Hi & _)]. destruct Hi. cbv zeta. split_and!; (assumption || lia).
Qed.

(** C30: Every public call ends: in every history it returns, fails, panics or waits for
    a datagram after all those that arrived. In particular the recursion through the
    resending of lost packets and all receive loops are bounded by the datagrams. *)
Theorem utp_calls_end (c : call) (s : st) : history s -> run_call c s <> NoFuel.
Proof. intros Hs E. pose proof (run_call_keeps c _ s (history_ok s Hs)) as Hk. unfold wp in Hk. by rewrite E in Hk. Qed.

Lemma keeps_rank {A} (m : M A) s : (forall q k, keeps q k m) -> history s ->
  wp True m (fun _ s' => state_rank (state (sk s)) <= state_rank (state (sk s')))%nat
    (fun s' => state_rank (state (sk s)) <= state_rank (state (sk s')))%nat s.
Proof.
  intros Hm Hs. destruct (history_ok s Hs) as [q (Hi & Hev)].
  assert (Hinv : Inv q (state_rank (state (sk s))) (events_left s) s).
  { split; [|done]. destruct Hi; constructor; try assumption. lia. }
  eapply wp_mono; [by apply Hm| |]; cbn beta; intros; eapply inv_stage, Inv_sk; eassumption.
Qed.

(** Receiving and flushing never take a connection back: an open connection does not
    return to its opening, and a connection that is over stays over, whatever arrives
    and whether the call succeeds or fails. *)
Lemma utp_receiving_only_advances (s : st) (buf : nat) : history s ->
  wp True (let! _ := recv_from buf in flush)
    (fun _ s' => state_rank (state (sk s)) <= state_rank (state (sk s')))%nat
    (fun s' => state_rank (state (sk s)) <= state_rank (state (sk s')))%nat s.
Proof.
  intros Hs. apply keeps_rank; [|done]. intros q k. apply keeps_bind; [apply recv_from_keeps|]. intros _. apply flush_keeps.
Qed.

End Histories.

(** ** Witnesses *)

(** The peer's packets 13 and 11 arrive after its SYN and are read: 13 waits for 12. *)
Definition sample_history : st :=
  let s := sample_start [sample_data 13 [7]; sample_data 11 [5; 6]] in
  out_state (run_call (H := calm_env) (CallRead 100) s) s.

Lemma sample_events_ok ps : Forall (fun p => bytes_ok (raw p)) ps -> Forall event_ok (map sample_event ps).
Proof. intros Hps. by apply Forall_map. Qed.

Lemma sample_history_ok : history (H := calm_env) sample_history.
Proof.
  apply (history_ret (H := calm_env) (CallRead 100) (sample_start [sample_data 13 [7]; sample_data 11 [5; 6]])).
  - apply history_new; [by vm_compute|]. apply sample_events_ok. repeat constructor; by vm_compute.
  - vm_compute. reflexivity.
Qed.

Lemma utp_socket_invariant_witness : history (H := calm_env) sample_history /\
  map seq_nr (incoming_buffer (sk sample_history)) = [13] /\
  StronglySorted seq_lt (incoming_buffer (sk sample_history)).
Proof.
  split; [exact sample_history_ok|]. split; [reflexivity|].
  exact (proj1 (utp_socket_invariant (H := calm_env) sample_history sample_history_ok)).
Defined.

Lemma utp_calls_end_witness : history (H := calm_env) sample_history /\
  run_call (H := calm_env) CallClose sample_history <> NoFuel.
Proof. split; [exact sample_history_ok|]. exact (utp_calls_end (H := calm_env) CallClose sample_history sample_history_ok). Defined.

Lemma utp_receiving_only_advances_witness : history (H := calm_env) sample_history /\
  wp True (let! _ := recv_from (H := calm_env) 100 in flush (H := calm_env))
    (fun _ s' => 1 <= state_rank (state (sk s')))%nat (fun s' => 1 <= state_rank (state (sk s')))%nat sample_history.
Proof.
  split; [exact sample_history_ok|].
  exact (utp_receiving_only_advances (H := calm_env) sample_history 100 sample_history_ok).
Defined.

(** * Selective acknowledgements of the uTP socket

    The bit vector [build_selective_ack] makes of the receive buffer, and what the
    peer's bit iterator reads from it. *)

(** Bit [i] of the vector; beyond the end no bit is set. *)
Definition bit_at (sack : list Z) (i : nat) : bool :=
  match sack !! (i / 8)%nat with
  | Some b => Z.testbit b (Z.of_nat (i mod 8))
  | None => false
  end.

(** ** Padding *)

(** The least multiple of four above [byte]. *)
Definition pad_target (byte : nat) : nat := 4 * (byte / 4 + 1).

Lemma pad_target_spec byte n : (byte < n)%nat -> (n mod 4 = 0)%nat -> (pad_target byte <= n)%nat.
Proof.
  intros Hn Hm. unfold pad_target. apply Nat.Div0.mod_divides in Hm as [k ->].
  assert (byte / 4 < k)%nat by (apply Nat.Div0.div_lt_upper_bound; lia). lia.
Qed.

Lemma pad_target_above byte : (byte < pad_target byte <= byte + 4)%nat.
Proof. unfold pad_target. pose proof (Nat.div_mod byte 4). pose proof (Nat.mod_upper_bound byte 4). lia. Qed.

Lemma pad_target_mod byte : (pad_target byte mod 4 = 0)%nat.
Proof. unfold pad_target. rewrite Nat.mul_comm. apply Nat.Div0.mod_mul. Qed.

Lemma pad_stop byte (sack : list Z) : (length sack <= pad_target byte)%nat ->
  ((length sack <=? byte)%nat || negb (length sack mod 4 =? 0)%nat) = negb (length sack =? pad_target byte)%nat.
Proof.
  intros Hl. pose proof (pad_target_above byte). pose proof (pad_target_mod byte).
  destruct (Nat.eqb_spec (length sack) (pad_target byte)) as [E|E].
  - rewrite E. destruct (Nat.leb_spec (pad_target byte) byte); [lia|]. by rewrite H0.
  - destruct (Nat.leb_spec (length sack) byte); [done|]. destruct (Nat.eqb_spec (length sack mod 4) 0); [|done].
    pose proof (pad_target_spec byte (length sack)). lia.
Qed.

Lemma sack_pad_fill fuel byte sack : (length sack <= pad_target byte)%nat -> (pad_target byte - length sack <= fuel)%nat ->
  sack_pad fuel byte sack = sack ++ replicate (pad_target byte - length sack) 0.
Proof.
  revert sack. induction fuel as [|fuel IH]; intros sack Hl Hf.
  - replace (pad_target byte - length sack)%nat with 0%nat by lia. by rewrite app_nil_r.
  - cbn [sack_pad]. rewrite pad_stop by done. destruct (Nat.eqb_spec (length sack) (pad_target byte)) as [E|E]; cbn [negb].
    + by rewrite E, Nat.sub_diag, app_nil_r.
    + rewrite IH by (rewrite length_app; cbn [length]; lia). rewrite length_app, <- app_assoc. cbn [length app].
      replace (pad_target byte - length sack)%nat with (S (pad_target byte - (length sack + 1))) by lia. done.
Qed.

Lemma sack_pad_done fuel byte sack : (byte < length sack)%nat -> (length sack mod 4 = 0)%nat -> sack_pad fuel byte sack = sack.
Proof.
  intros Hb Hm. destruct fuel; [done|]. cbn [sack_pad]. rewrite Hm. destruct (Nat.leb_spec (length sack) byte); [lia|done].
Qed.

Lemma sack_pad_spec byte sack : (length sack mod 4 = 0)%nat ->
  exists k, sack_pad (pad_fuel byte) byte sack = sack ++ replicate k 0 /\
    (byte < length sack + k)%nat /\ ((length sack + k) mod 4 = 0)%nat.
Proof.
  intros Hm. destruct (decide (byte < length sack)%nat) as [Hb|Hb].
  - exists 0%nat. rewrite sack_pad_done by done. rewrite app_nil_r, Nat.add_0_r. done.
  - pose proof (pad_target_above byte). pose proof (pad_target_mod byte). exists (pad_target byte - length sack)%nat.
    rewrite sack_pad_fill by (unfold pad_fuel; lia). split; [done|].
    replace (length sack + (pad_target byte - length sack))%nat with (pad_target byte) by lia. lia.
Qed.

(** ** Setting a bit *)

Lemma bit_at_pad sack k i : bit_at (sack ++ replicate k 0) i = bit_at sack i.
Proof.
  unfold bit_at. destruct (sack !! (i / 8)%nat) as [b|] eqn:E.
  - by rewrite (lookup_app_l_Some _ _ _ _ E).
  - apply lookup_ge_None in E. rewrite lookup_app_r by done. destruct (replicate k 0 !! _) as [b|] eqn:Er; [|done].
    apply lookup_replicate in Er as [-> _]. apply Z.testbit_0_l.
Qed.

Lemma bit_at_set sack byte bit i : (byte < length sack)%nat -> (bit < 8)%nat ->
  bit_at (<[byte := Z.lor (sack !!! byte) (Z.shiftl 1 (Z.of_nat bit))]> sack) i =
  bit_at sack i || (i =? byte * 8 + bit)%nat.
Proof.
  intros Hb Hbit. destruct (lookup_lt_is_Some_2 sack byte Hb) as [x Hx]. rewrite (list_lookup_total_correct _ _ _ Hx).
  pose proof (Nat.div_mod i 8). pose proof (Nat.mod_upper_bound i 8). unfold bit_at.
  destruct (decide (i / 8 = byte)%nat) as [E|E].
  - rewrite E, list_lookup_insert_eq, Hx by done. rewrite Z.lor_spec, Z.shiftl_spec by lia. f_equal.
    destruct (Nat.eqb_spec i (byte * 8 + bit)) as [Ei|Ei].
    + replace (i mod 8)%nat with bit by lia. by rewrite Z.sub_diag.
    + destruct (decide (i mod 8 < bit)%nat); [by rewrite Z.testbit_neg_r by lia|].
      change 1 with (2 ^ 0). rewrite Z.pow2_bits_eqb by lia. apply Z.eqb_neq. lia.
  - rewrite list_lookup_insert_ne by done. destruct (Nat.eqb_spec i (byte * 8 + bit)) as [Ei|Ei]; [|by rewrite orb_false_r].
    exfalso. apply E. rewrite Ei, Nat.div_add_l by lia. rewrite Nat.div_small by lia. lia.
Qed.

(** The shape of a vector under construction. *)
Definition sack_shape (sack : list Z) : Prop := (length sack mod 4 = 0)%nat /\ bytes_ok sack.

Lemma sack_set_spec d sack : sack_shape sack ->
  sack_shape (sack_set d sack) /\ (forall i, bit_at (sack_set d sack) i = bit_at sack i || (i =? d)%nat) /\
  (length sack <= length (sack_set d sack))%nat.
Proof.
  intros [Hm Hb]. unfold sack_set. destruct (sack_pad_spec (d / 8) sack Hm) as (k & Ep & Hl & Hm'). cbv zeta. rewrite Ep.
  pose proof (Nat.mod_upper_bound d 8). pose proof (Nat.div_mod d 8).
  assert (Hlen : (d / 8 < length (sack ++ replicate k 0%Z))%nat) by (rewrite length_app, length_replicate; lia).
  split; [split|split].
  - rewrite length_insert, length_app, length_replicate. done.
  - apply Forall_insert; [apply Forall_app; split; [done|]; by apply Forall_replicate|].
    destruct (lookup_lt_is_Some_2 _ _ Hlen) as [x Hx]. rewrite (list_lookup_total_correct _ _ _ Hx).
    assert (Hx8 : is_u8 x). { eapply Forall_lookup_1; [|exact Hx]. apply Forall_app; split; [done|]. by apply Forall_replicate. }
    apply lor_in_unsigned; [lia|done|]. rewrite Z.shiftl_1_l. split; [apply Z.pow_nonneg; lia|].
    apply Z.pow_lt_mono_r; lia.
  - intros i. rewrite bit_at_set by (done || lia). rewrite bit_at_pad. do 2 f_equal. lia.
  - rewrite length_insert, length_app. lia.
Qed.

(** ** The loop over the buffer *)

Lemma selective_ack_loop_spec ack l sack s : 0 <= ack < 2 ^ 16 - 1 -> Forall (fun p => is_u16 (seq_nr p)) l -> sack_shape sack ->
  exists sack', selective_ack_loop ack l sack s = Ret sack' s /\ sack_shape sack' /\
    forall i, bit_at sack' i = true <-> bit_at sack i = true \/ exists p, p ∈ l /\ seq_nr p = ack + 2 + Z.of_nat i.
Proof.
  intros Hack. revert sack. induction l as [|p l IH]; intros sack Hl Hs; cbn [selective_ack_loop].
  { exists sack. split_and!; [done|done|]. intros i. split; [by left|]. intros [?|(p & Hp & _)]; [done|]. by apply elem_of_nil in Hp. }
  inversion Hl as [|? ? Hp Hl']; subst. unfold bind at 1, checked_u at 1. unfold in_unsigned in *.
  rewrite decide_True by lia. cbn [ret]. destruct (Z.ltb_spec (ack + 1) (seq_nr p)).
  - unfold bind at 1 2, checked_u. rewrite decide_True by (unfold in_unsigned; lia). cbn [ret].
    rewrite decide_True by (unfold in_unsigned; lia). cbn [ret].
    destruct (sack_set_spec (Z.to_nat (seq_nr p - ack - 2)) sack Hs) as (Hs' & Hbits & _).
    destruct (IH _ Hl' Hs') as (sack' & E & Hshape & Hb). exists sack'. split_and!; [done|done|]. intros i.
    rewrite Hb, Hbits, orb_true_iff, Nat.eqb_eq. setoid_rewrite elem_of_cons. split.
    + intros [[?|Ei]|(q & Hq & E')]; [by left| |right; eauto]. right. exists p. split; [by left|lia].
    + intros [?|(q & [->|Hq] & E')]; [by left; left| |right; eauto]. left. right. lia.
  - destruct (IH _ Hl' Hs) as (sack' & E & Hshape & Hb). exists sack'. split_and!; [done|done|]. intros i.
    rewrite Hb. setoid_rewrite elem_of_cons. split.
    + intros [?|(q & Hq & E')]; [by left|right; eauto].
    + intros [?|(q & [->|Hq] & E')]; [by left|lia|right; eauto].
Qed.

(** What the iterator reads is [bit_at]. *)
Lemma bits_lookup sack i (bits : list bool) : bits_of_bytes (E := ParseError) sack = Ok bits ->
  bits !! i = Some true <-> bit_at sack i = true.
Proof.
  rewrite bits_of_bytes_spec. intros [= <-]. rewrite list_lookup_fmap. unfold bit_at.
  destruct (decide (i < length sack * 8)%nat) as [Hi|Hi].
  - rewrite lookup_seq_lt by (unfold U8BITS; lia). cbn [fmap option_fmap option_map]. unfold byte_bit, U8BITS.
    assert (i / 8 < length sack)%nat by (apply Nat.Div0.div_lt_upper_bound; lia).
    destruct (lookup_lt_is_Some_2 sack (i / 8)) as [x Hx]; [done|]. rewrite Hx, (list_lookup_total_correct _ _ _ Hx).
    rewrite Nat.add_0_l. split; [congruence|intros Hb; by rewrite Hb].
  - rewrite lookup_seq_ge by (unfold U8BITS; lia). cbn [fmap option_fmap option_map]. rewrite lookup_ge_None_2; [done|].
    apply Nat.div_le_lower_bound; lia.
Qed.

(** C34: the selective acknowledgement describes exactly the packets received out of
    order: for every state a socket can reach, unless the acknowledgement number is the
    last one, [build_selective_ack] returns a vector whose length is a multiple of four,
    and the peer's bit iterator reads a one at index [i] exactly when the packet numbered
    [ack_nr + 2 + i] is in the receive buffer. *)
Theorem selective_ack_describes_buffer `{UtpEnv} (s : st) : history s -> sk_ack_nr (sk s) < 2 ^ 16 - 1 ->
  exists sack bits, build_selective_ack s = Ret sack s /\ (length sack mod 4 = 0)%nat /\ bytes_ok sack /\
    bits_of_bytes (E := ParseError) sack = Ok bits /\
    forall i, bits !! i = Some true <->
      exists p, p ∈ incoming_buffer (sk s) /\ seq_nr p = sk_ack_nr (sk s) + 2 + Z.of_nat i.
Proof.
  intros Hs Hack. destruct (history_ok s Hs) as [q (Hi & _)]. pose proof (inv_ack _ _ _ Hi) as [Ha _].
  destruct (selective_ack_loop_spec (sk_ack_nr (sk s)) (incoming_buffer (sk s)) [] s) as (sack & E & [Hm Hb] & Hbits);
    [lia| |split; [done|constructor]|].
  { eapply Forall_impl; [exact (inv_received _ _ _ Hi)|]. apply seq_nr_u16. }
  exists sack, (map (byte_bit sack) (seq 0 (length sack * U8BITS))).
  split_and!; [exact E|done|done|apply bits_of_bytes_spec|]. intros i.
  rewrite (bits_lookup sack i) by apply bits_of_bytes_spec. rewrite Hbits. split; [|by right].
  intros [He|?]; [|done]. by unfold bit_at in He; rewrite lookup_nil in He.
Qed.

Lemma selective_ack_describes_buffer_witness : history (H := calm_env) sample_history /\
  build_selective_ack sample_history = Ret [1; 0; 0; 0] sample_history /\
  exists sack bits, build_selective_ack sample_history = Ret sack sample_history /\
    bits_of_bytes (E := ParseError) sack = Ok bits /\
    (bits !! 0%nat = Some true <-> exists p, p ∈ incoming_buffer (sk sample_history) /\ seq_nr p = 11 + 2 + Z.of_nat 0).
Proof.
  split; [exact sample_history_ok|]. split; [by vm_compute|].
  destruct (selective_ack_describes_buffer (H := calm_env) sample_history sample_history_ok) as (sack & bits & E & _ & _ & Hb & Hi);
    [by vm_compute|]. exists sack, bits. split; [exact E|]. split; [exact Hb|]. exact (Hi 0%nat).
Defined.
