(* ===== verification/UtpDelivery.v ===== *)
(** * Delivery of data by the uTP socket

    Data packets arriving in any order, with duplicates, are delivered as the
    sender's stream in order and without gaps; the segmentation of sent data; and
    histories with other packets or small buffers in which delivery goes wrong. *)

From Stdlib Require Import Sorted.
From stdpp Require Import sets.
From S2P Require Import Prelude RustStd Words UtilConvert UtpPacket UtpPacketSpec UtpWorld UtpSocket UtpSocketInv UtpSocketSpec.

(** ** Fresh replies *)

(** A packet with a header and no extension. *)
Definition bare (p : Packet) : Prop := length (raw p) = HEADER_SIZE /\ raw p !! 1%nat = Some 0.

Lemma set_field_byte1 f p v : (HEADER_SIZE <= length (raw p))%nat -> raw (set_field f p v) !! 1%nat = raw p !! 1%nat.
Proof.
  intros Hl. pose proof (field_bounds f). unfold set_field. cbn [raw]. unfold HEADER_SIZE in *.
  rewrite lookup_app_l by (rewrite length_take; lia). by rewrite lookup_take_lt by lia.
Qed.

Lemma bare_set_field f p v : bare p -> bare (set_field f p v).
Proof. intros [Hl Hb]. unfold bare. by rewrite set_field_length, set_field_byte1 by lia. Qed.

Lemma bare_new t : bare (Packet_set_type Packet_new t).
Proof. by destruct t. Qed.

Lemma set_sack_bare p bv : bare p -> bv <> [] -> (length bv mod 4 = 0)%nat ->
  set_sack p bv = Ok (mkPacket (<[1%nat := 1]> (raw p) ++ 0 :: as_u8 (Z.of_nat (length bv)) :: bv)).
Proof.
  intros [Hl Hb] Hne Hm. unfold set_sack.
  assert (4 <= length bv)%nat.
  { destruct bv; [done|]. pose proof (Nat.div_mod (length (z :: bv)) 4). cbn [length] in *. lia. }
  destruct (Nat.leb_spec 4 (length bv)); [|lia]. rewrite Hm, Hb. cbn [negb Nat.eqb or_panic res_bind]. cbv zeta.
  change (more_extensions (ExtensionType_from 0)) with false. cbn [res_bind]. change (ExtensionType_to_u8 SelectiveAck) with 1.
  change (ExtensionType_to_u8 ExtNone) with 0. set (a := <[1%nat := 1]> (raw p)).
  assert (Ha : length a = HEADER_SIZE) by (unfold a; by rewrite length_insert). rewrite <- Ha at 1.
  rewrite <- (app_nil_r a) at 2. rewrite vec_insert_app. cbn [res_bind].
  replace (HEADER_SIZE + 1)%nat with (length (a ++ [0])) by (rewrite length_app, Ha; done).
  rewrite <- (app_nil_r (a ++ [0])) at 2. rewrite vec_insert_app. cbn [res_bind].
  change (imap pair bv) with (imap (fun i x => ((0 + i)%nat, x)) bv).
  replace ((a ++ [0]) ++ [as_u8 (Z.of_nat (length bv))]) with ((a ++ [0; as_u8 (Z.of_nat (length bv))]) ++ [])
    by (by rewrite app_nil_r, <- app_assoc).
  rewrite insert_all by (rewrite length_app, Ha; done). cbn [res_bind]. by rewrite app_nil_r, <- app_assoc.
Qed.

(** ** Data packets *)

Section Delivery.
Context `{UtpEnv}.

Lemma prepare_reply_bare original t Q (X : st -> Prop) s :
  (forall reply s', bare reply -> same_socket s s' -> Q reply s') -> wp False (prepare_reply original t) Q X s.
Proof.
  intros HQ. apply wp_bind, wp_now. intros now s1 _ Hs. apply wp_bind, wp_gets, wp_ret. apply HQ; [|done].
  unfold set_ack_nr, set_seq_nr, set_connection_id, set_timestamp, set_timestamp_difference.
  repeat apply bare_set_field. apply bare_new.
Qed.

(** The reply to a data packet: no panic while the acknowledgement number is not the last. *)
Lemma handle_data_returns p Q (X : st -> Prop) s : sk_ack_nr (sk s) < 2 ^ 16 - 1 -> 0 <= sk_ack_nr (sk s) ->
  Forall packet_wf (incoming_buffer (sk s)) ->
  (forall reply s', same_socket s s' -> Q (Some reply) s') -> wp False (handle_data_packet p) Q X s.
Proof.
  intros Ha Ha0 Hb HQ. apply wp_bind, wp_gets, wp_bind. cbv zeta. apply prepare_reply_bare. intros reply s1 Hr Hs1.
  apply wp_bind, wp_bind, wp_gets. destruct (_ <? _); [|by apply wp_ret, wp_ret, HQ].
  destruct Hs1 as [Hsk Hbox]. apply wp_bind.
  destruct (selective_ack_loop_spec (sk_ack_nr (sk s1)) (incoming_buffer (sk s1)) [] s1) as (sack & E & [Hm _] & _).
  { rewrite Hsk. lia. }
  { rewrite Hsk. eapply Forall_impl; [exact Hb|]. apply seq_nr_u16. }
  { split; [done|constructor]. }
  unfold wp, build_selective_ack, bind at 1, gets. cbn [id]. rewrite E. destruct (is_nil sack) eqn:En.
  - cbn. apply HQ. done.
  - rewrite set_sack_bare; [cbn; by apply HQ|done|by destruct sack|done].
Qed.

(** ** The receiving side *)

Context (base : Z) (stream : Z -> list Z) (buf : nat).

(** A data packet of the stream that fits the reader's buffer. *)
Definition from_stream (p : Packet) : Prop :=
  packet_wf p /\ base < seq_nr p < 2 ^ 16 - 1 /\ payload p = Ok (stream (seq_nr p)) /\
  (length (stream (seq_nr p)) <= buf)%nat.

(** The bytes of the packets after [base] up to [last]. *)
Definition stream_upto (last : Z) : list Z := concat (map stream (seqZ (base + 1) (last - base))).

(** What holds while only data packets arrive and the reader's buffer is large. *)
Record rx (delivered : list Z) (s : UtpSocket) : Prop := mkRx {
  rx_state : state s = Connected;
  rx_base : 0 <= base <= last_dropped s;
  rx_order : last_dropped s <= sk_ack_nr s;
  rx_top : sk_ack_nr s < 2 ^ 16 - 1;
  rx_pending : pending_data s = [];
  rx_sorted : StronglySorted seq_lt (incoming_buffer s);
  rx_buffer : Forall from_stream (incoming_buffer s);
  rx_acked : forall k, last_dropped s < k <= sk_ack_nr s -> exists p, p ∈ incoming_buffer s /\ seq_nr p = k;
  rx_fresh : forall p, p ∈ incoming_buffer s -> seq_nr p <> last_dropped s;
  rx_delivered : delivered = stream_upto (last_dropped s);
  rx_timeout : congestion_timeout s <> 0;
  rx_retries : 0 < max_retransmission_retries s
}.

(** The packet enters the buffer. *)
Definition receive (p : Packet) (s : UtpSocket) : UtpSocket :=
  let s := acknowledge_next p s in
  if 0 <? u16_wrapping_sub (seq_nr p) (last_dropped s) then with_incoming_buffer (buffer_insert p (incoming_buffer s)) s
  else s.

Lemma wrapping_sub_is a b k : 0 <= a < 2 ^ 16 -> 0 <= b < 2 ^ 16 -> 0 <= k -> 0 <= b + k < 2 ^ 16 ->
  u16_wrapping_sub a b = k <-> a = b + k.
Proof.
  intros Ha Hb Hk Hs. unfold u16_wrapping_sub, wrap. split.
  - intros E. pose proof (Z.div_mod (a - b) (2 ^ 16)). pose proof (Z.mod_pos_bound (a - b) (2 ^ 16)).
    assert ((a - b) / 2 ^ 16 = 0 \/ (a - b) / 2 ^ 16 = -1) by lia. lia.
  - intros ->. rewrite Z.mod_small; lia.
Qed.

Lemma ordered_insert_keeps p l q : q ∈ l -> q ∈ ordered_insert p l.
Proof.
  induction l as [|r l IH]; cbn [ordered_insert]; [set_solver|].
  destruct (_ <? _); [|destruct (_ =? _)]; set_solver.
Qed.

Lemma ordered_insert_has p l : exists q, q ∈ ordered_insert p l /\ seq_nr q = seq_nr p.
Proof.
  induction l as [|r l [q [Hq E]]]; cbn [ordered_insert]; [exists p; set_solver|].
  destruct (_ <? _); [exists q; set_solver|]. destruct (Z.eqb_spec (seq_nr r) (seq_nr p)); [exists r; set_solver|].
  exists p. set_solver.
Qed.

Lemma receive_rx d p s : rx d s -> from_stream p -> rx d (receive p s).
Proof.
  intros Hr Hp. pose proof (rx_base _ _ Hr). pose proof (rx_order _ _ Hr). pose proof (rx_top _ _ Hr).
  destruct Hp as (Hw & Hseq & Hpl). unfold receive, acknowledge_next.
  assert (Hin : forall s', rx d s' -> seq_nr p <> last_dropped s' -> rx d (with_incoming_buffer (buffer_insert p (incoming_buffer s')) s')).
  { intros s' Hs' Hne. pose proof (rx_sorted _ _ Hs') as Hso. destruct Hs'; constructor; assign_field; try assumption;
      rewrite buffer_insert_ordered by done.
    - by apply ordered_insert_sorted.
    - apply Forall_forall. intros q Hq. apply ordered_insert_elem in Hq as [->|Hq]; [done|]. by eapply Forall_forall in rx_buffer0.
    - intros k Hk. destruct (rx_acked0 k Hk) as (q & Hq & E). exists q. split; [by apply ordered_insert_keeps|done].
    - intros q Hq. apply ordered_insert_elem in Hq as [->|Hq]; [done|]. by apply rx_fresh0. }
  destruct (Z.eqb_spec (u16_wrapping_sub (seq_nr p) (sk_ack_nr s)) 1) as [E|E].
  - apply wrapping_sub_is in E; [|lia..]. cbn [with_ack_nr last_dropped].
    destruct (Z.ltb_spec 0 (u16_wrapping_sub (seq_nr p) (last_dropped s))) as [_|Hle].
    + pose proof (rx_sorted _ _ Hr) as Hso. destruct Hr; constructor; assign_field; try assumption; try lia;
        rewrite ?buffer_insert_ordered by done.
      * by apply ordered_insert_sorted.
      * apply Forall_forall. intros q Hq. apply ordered_insert_elem in Hq as [->|Hq]; [done|]. by eapply Forall_forall in rx_buffer0.
      * intros k Hk. destruct (decide (k = seq_nr p)) as [->|Hk']; [apply ordered_insert_has|].
        destruct (rx_acked0 k) as (q & Hq & Eq); [lia|]. exists q. split; [by apply ordered_insert_keeps|done].
      * intros q Hq. apply ordered_insert_elem in Hq as [->|Hq]; [lia|]. by apply rx_fresh0.
    + exfalso. assert (u16_wrapping_sub (seq_nr p) (last_dropped s) = 0) as E0.
      { pose proof (wrap_in_unsigned 16 (seq_nr p - last_dropped s)). unfold u16_wrapping_sub, in_unsigned in *. lia. }
      apply wrapping_sub_is in E0; lia.
  - destruct (Z.ltb_spec 0 (u16_wrapping_sub (seq_nr p) (last_dropped s))) as [Hlt|_]; [|done]. apply Hin; [done|].
    intros E0. assert (u16_wrapping_sub (seq_nr p) (last_dropped s) = 0) by (apply wrapping_sub_is; lia). lia.
Qed.

Lemma stream_upto_next last : base <= last -> stream_upto (last + 1) = stream_upto last ++ stream (last + 1).
Proof.
  intros Hl. unfold stream_upto. replace (last + 1 - base) with (Z.of_nat (S (Z.to_nat (last - base)))) by lia.
  rewrite seqZ_S, map_app, concat_app, Z2Nat.id by lia. cbn [map concat]. rewrite app_nil_r. do 2 f_equal. lia.
Qed.

(** The only packet a flush can take is the next one of the stream. *)
Lemma next_in_order d s first rest : rx d s -> incoming_buffer s = first :: rest ->
  seq_nr first = sk_ack_nr s \/ seq_nr first = sk_ack_nr s + 1 -> seq_nr first = last_dropped s + 1.
Proof.
  intros Hr Eb Hn. pose proof (rx_order _ _ Hr). pose proof (rx_sorted _ _ Hr) as Hso. rewrite Eb in Hso.
  assert (Hne : seq_nr first <> last_dropped s) by (apply (rx_fresh _ _ Hr); rewrite Eb; set_solver).
  destruct (decide (last_dropped s < sk_ack_nr s)) as [Hlt|Hle]; [|lia].
  destruct (rx_acked _ _ Hr (last_dropped s + 1)) as (p & Hp & E); [lia|]. rewrite Eb in Hp.
  apply elem_of_cons in Hp as [->|Hp]; [lia|]. inversion Hso as [|? ? _ Hall]; subst.
  rewrite Forall_forall in Hall. pose proof (Hall p Hp) as Hlt'. unfold seq_lt in Hlt'. lia.
Qed.

Lemma advance_rx d s first rest : rx d s -> incoming_buffer s = first :: rest -> seq_nr first = last_dropped s + 1 ->
  rx (d ++ stream (seq_nr first))
    (with_last_dropped (seq_nr first) (with_ack_nr (seq_nr first) (with_incoming_buffer rest s))).
Proof.
  intros Hr Eb E. pose proof (rx_sorted _ _ Hr) as Hso. pose proof (rx_buffer _ _ Hr) as Hbuf. rewrite Eb in Hso, Hbuf.
  inversion Hso as [|? ? Hso' Hall]; subst. inversion Hbuf as [|? ? (_ & Hf & _) Hbuf']; subst.
  pose proof (rx_base _ _ Hr). destruct Hr; constructor; assign_field; try assumption; try lia.
  - intros q Hq. rewrite Forall_forall in Hall. pose proof (Hall q Hq) as Hlt. unfold seq_lt in Hlt. lia.
  - rewrite rx_delivered0, E. symmetry. apply stream_upto_next. lia.
Qed.

Definition same_peer (s s' : st) : Prop :=
  inbox (world s') = inbox (world s) /\ sender_connection_id (sk s') = sender_connection_id (sk s).

Lemma unsafe_copy_all src dst : (length src <= dst)%nat -> unsafe_copy src dst = src.
Proof. intros Hl. unfold unsafe_copy. rewrite Nat.min_l by done. apply take_ge. lia. Qed.

Lemma flush_first_rx first rest s : from_stream first -> incoming_buffer (sk s) = first :: rest ->
  wp False (flush_first first buf) (fun read s' => read = stream (seq_nr first) /\
    sk s' = with_last_dropped (seq_nr first) (with_ack_nr (seq_nr first) (with_incoming_buffer rest (sk s))) /\
    same_peer s s') (fun _ => False) s.
Proof.
  intros (Hw & Hseq & Hpl & Hfit) Eb. unfold flush_first. rewrite Hpl.
  apply wp_bind, wp_ret. cbv zeta. rewrite (unsafe_copy_all _ _ Hfit), Nat.eqb_refl.
  apply wp_bind, wp_ret, wp_bind, wp_bind, wp_gets. cbn [id]. rewrite Eb.
  do 3 apply wp_bind, wp_modify. do 2 apply wp_ret. done.
Qed.

Lemma is_next_returns ack first Q (X : st -> Prop) s : 0 <= ack < 2 ^ 16 - 1 ->
  Q (bool_decide (seq_nr first = ack \/ seq_nr first = ack + 1)) s -> wp False (is_next ack first) Q X s.
Proof.
  intros Ha HQ. unfold is_next. destruct (Z.eqb_spec ack (seq_nr first)).
  - apply wp_ret. by rewrite bool_decide_true in HQ by auto.
  - apply wp_bind, wp_checked_u; [unfold in_unsigned; lia|]. intros _. apply wp_ret.
    replace (ack + 1 =? seq_nr first) with (bool_decide (seq_nr first = ack \/ seq_nr first = ack + 1)); [done|].
    destruct (Z.eqb_spec (ack + 1) (seq_nr first)); [apply bool_decide_true|apply bool_decide_false]; lia.
Qed.

(** What a flush does to the first packet of the buffer. *)
Lemma flush_head d s first rest Q : rx d (sk s) -> incoming_buffer (sk s) = first :: rest ->
  (forall s', seq_nr first = last_dropped (sk s) + 1 -> rx (d ++ stream (seq_nr first)) (sk s') ->
    sk s' = with_last_dropped (seq_nr first) (with_ack_nr (seq_nr first) (with_incoming_buffer rest (sk s))) ->
    same_peer s s' -> Q (stream (seq_nr first)) s') ->
  (~ (seq_nr first = sk_ack_nr (sk s) \/ seq_nr first = sk_ack_nr (sk s) + 1) -> Q [] s) ->
  wp False (flush_incoming_buffer buf) Q (fun _ => False) s.
Proof.
  intros Hr Eb HQ1 HQ2. pose proof (rx_order _ _ Hr). pose proof (rx_top _ _ Hr). pose proof (rx_base _ _ Hr).
  apply wp_bind, wp_gets. cbn [id]. rewrite (rx_pending _ _ Hr). cbn [is_nil negb]. rewrite Eb.
  apply wp_bind, is_next_returns; [lia|]. case_bool_decide as Hn; [|apply wp_ret; auto].
  pose proof (next_in_order d (sk s) first rest Hr Eb Hn) as E.
  assert (Hf : from_stream first) by (pose proof (rx_buffer _ _ Hr) as Hb; rewrite Eb in Hb; by inversion Hb).
  eapply wp_mono; [by apply (flush_first_rx first rest)| |done]. cbn beta. intros read s' (-> & Hsk & Hp).
  apply HQ1; try done. rewrite Hsk. by apply advance_rx.
Qed.

Lemma flush_rx d s : rx d (sk s) ->
  wp False (flush_incoming_buffer buf) (fun read s' => rx (d ++ read) (sk s') /\ same_peer s s') (fun _ => False) s.
Proof.
  intros Hr. assert (Hnone : rx (d ++ []) (sk s) /\ same_peer s s) by (by rewrite app_nil_r).
  destruct (incoming_buffer (sk s)) as [|first rest] eqn:Eb; [|by apply (flush_head d s first rest)].
  apply wp_bind, wp_gets. cbn [id]. rewrite (rx_pending _ _ Hr). cbn [is_nil negb]. rewrite Eb. by apply wp_ret.
Qed.

(** A datagram with a data packet of the stream for this connection. *)
Definition data_event (sender : Z) (e : recv_event) : Prop :=
  exists p src, e = Datagram (raw p) src /\ from_stream p /\ Packet_get_type p = Ok Data /\
    connection_id p = sender /\ (length (raw p) <= BUF_SIZE + HEADER_SIZE)%nat.

(** The fields of the receiving side. *)
Definition rx_view (s : UtpSocket) :=
  (state s, sk_ack_nr s, last_dropped s, incoming_buffer s, pending_data s, congestion_timeout s, max_retransmission_retries s).

Lemma rx_ext d s s' : rx d s -> rx_view s' = rx_view s -> rx d s'.
Proof.
  intros Hr [= E1 E2 E3 E4 E5 E6 E7]. destruct Hr; constructor; rewrite ?E1, ?E2, ?E3, ?E4, ?E5, ?E6, ?E7; assumption.
Qed.

Hypothesis sends_succeed : forall n, send_result n = None.

Lemma wp_send_ok data to Q (X : st -> Prop) s : (forall s', same_socket s s' -> Q tt s') -> wp False (udp_send data to) Q X s.
Proof. intros HQ. unfold wp, udp_send. rewrite sends_succeed. by apply HQ. Qed.

(** The socket after [handle_packet] on a data packet. *)
Lemma handle_packet_data rec p src d Q (X : st -> Prop) s : rx d (sk s) -> from_stream p -> Packet_get_type p = Ok Data ->
  connection_id p = sender_connection_id (sk s) ->
  (forall reply s' t, sk s' = with_their_delay t (with_remote_wnd_size (wnd_size p) (acknowledge_next p (sk s))) ->
    inbox (world s') = inbox (world s) -> Q (Some reply) s') ->
  wp False (handle_packet rec p src) Q X s.
Proof.
  intros Hr Hp Ht Hc HQ. pose proof (receive_rx d p (sk s) Hr Hp) as Hr'. unfold receive in Hr'.
  assert (Hack : 0 <= sk_ack_nr (acknowledge_next p (sk s)) < 2 ^ 16 - 1 /\
    state (acknowledge_next p (sk s)) = Connected /\ sender_connection_id (acknowledge_next p (sk s)) = sender_connection_id (sk s) /\
    incoming_buffer (acknowledge_next p (sk s)) = incoming_buffer (sk s)).
  { destruct Hp as (_ & Hseq & _). unfold acknowledge_next. pose proof (rx_top _ _ Hr). pose proof (rx_order _ _ Hr).
    pose proof (rx_base _ _ Hr). pose proof (rx_state _ _ Hr). destruct (_ =? 1); assign_field; split_and!; (done || lia). }
  destruct Hack as (Hack & Hst & Hsend & Hbuf).
  apply wp_bind, wp_modify. rewrite Ht. apply wp_bind, wp_ret, wp_bind, wp_gets. cbn [sk id].
  unfold wrong_connection. rewrite Hsend, Hc, Z.eqb_refl. cbn [orb negb]. rewrite andb_false_r.
  apply wp_bind, wp_modify, wp_bind, wp_now. intros now s1 _ [Hsk1 Hbox1]. cbn [sk world] in *.
  apply wp_bind, wp_modify, wp_bind, wp_gets. cbn [sk id]. rewrite Hsk1.
  change (state (with_their_delay _ (with_remote_wnd_size _ ?u))) with (state u). rewrite Hst. cbn [dispatch].
  apply handle_data_returns; cbn [sk].
  - apply Hack.
  - apply Hack.
  - change (incoming_buffer (with_their_delay _ (with_remote_wnd_size _ ?u))) with (incoming_buffer u). rewrite Hbuf.
    eapply Forall_impl; [exact (rx_buffer _ _ Hr)|]. by intros q [? _].
  - intros reply s2 [Hsk2 Hbox2]. eapply HQ; [exact Hsk2|]. by rewrite Hbox2.
Qed.

(** A data packet enters the buffer, then the buffer is flushed. *)
Lemma process_data rec p src d (P : list Z -> UtpSocket -> Prop) s : rx d (sk s) -> from_stream p ->
  Packet_get_type p = Ok Data -> connection_id p = sender_connection_id (sk s) ->
  (forall s2, rx_view (sk s2) = rx_view (receive p (sk s)) ->
    wp False (flush_incoming_buffer buf) (fun read s' => P read (sk s') /\ same_peer s2 s') (fun _ => False) s2) ->
  wp False (process_packet rec p src buf) (fun x s' => P (fst x) (sk s') /\ same_peer s s') (fun _ => False) s.
Proof.
  intros Hr Hp Ht Hc HP. apply wp_bind, (handle_packet_data _ _ _ d); try done. intros reply s1 t Hsk Hbox.
  apply wp_bind, wp_send_ok. intros s2 [Hsk2 Hbox2]. apply wp_bind, wp_gets. cbn [id]. rewrite Ht.
  apply wp_bind, wp_ret. rewrite bool_decide_true by done. cbn [andb].
  set (s3 := mkSt (if 0 <? u16_wrapping_sub (seq_nr p) (last_dropped (sk s2))
    then with_incoming_buffer (buffer_insert p (incoming_buffer (sk s2))) (sk s2) else sk s2) (world s2)).
  assert (Hview : rx_view (sk s3) = rx_view (receive p (sk s))).
  { subst s3. cbn [sk]. rewrite Hsk2, Hsk. unfold receive.
    change (last_dropped (with_their_delay _ (with_remote_wnd_size _ ?u))) with (last_dropped u). by destruct (0 <? _). }
  assert (Hpeer : same_peer s s3).
  { subst s3. unfold same_peer. cbn [sk world]. split; [congruence|]. rewrite Hsk2, Hsk.
    clear Hview. unfold acknowledge_next. destruct (u16_wrapping_sub (seq_nr p) (sk_ack_nr (sk s)) =? 1); by destruct (0 <? _). }
  assert (Hgo : wp False (let! read := flush_incoming_buffer buf in ret (read, src))
    (fun x s' => P (fst x) (sk s') /\ same_peer s s') (fun _ => False) s3).
  { apply wp_bind. eapply wp_mono; [by apply HP| |done]. cbn beta. intros read s4 [HPr [Hb Hs]]. apply wp_ret.
    split; [done|]. destruct Hpeer. split; congruence. }
  apply wp_bind, wp_when; intros Hg; subst s3; rewrite Hg in Hgo; [by apply wp_modify|]. by destruct s2.
Qed.

Lemma recv_data d (P : list Z -> UtpSocket -> Prop) s p src rest : rx d (sk s) ->
  inbox (world s) = Datagram (raw p) src :: rest -> from_stream p -> Packet_get_type p = Ok Data ->
  connection_id p = sender_connection_id (sk s) -> (length (raw p) <= BUF_SIZE + HEADER_SIZE)%nat ->
  (forall s2, rx_view (sk s2) = rx_view (receive p (sk s)) ->
    wp False (flush_incoming_buffer buf) (fun read s' => P read (sk s') /\ same_peer s2 s') (fun _ => False) s2) ->
  wp False (recv buf) (fun x s' => P (fst x) (sk s') /\ inbox (world s') = rest /\
    sender_connection_id (sk s') = sender_connection_id (sk s)) (fun _ => False) s.
Proof.
  intros Hr Hbox Hp Ht Hc Hl HP. apply wp_with_events. cbn [recv_fuel].
  apply wp_bind, wp_with_events. unfold events_left at 1. rewrite Hbox. cbn [length recv_wait].
  apply wp_bind, wp_gets. cbn [id]. pose proof (rx_retries _ _ Hr).
  destruct (Z.leb_spec (max_retransmission_retries (sk s)) 0); [lia|].
  unfold state_is. rewrite (rx_state _ _ Hr). rewrite bool_decide_false by done. cbn [negb].
  apply wp_bind. pose proof (rx_timeout _ _ Hr). unfold udp_set_read_timeout.
  destruct (congestion_timeout (sk s)) as [| |] eqn:Et; [done| |].
  all: apply wp_ret, wp_bind; unfold wp at 1, attempt, udp_recv; rewrite Hbox; rewrite (take_ge (raw p)) by done.
  all: set (s1 := mkSt (sk s) _); pose proof Hp as [[Hb Hparse] _].
  all: apply wp_ret; rewrite Hparse; by apply (process_data _ p src d P s1).
Qed.

Lemma recv_rx d s e rest : rx d (sk s) -> inbox (world s) = e :: rest -> data_event (sender_connection_id (sk s)) e ->
  wp False (recv buf) (fun x s' => rx (d ++ fst x) (sk s') /\ inbox (world s') = rest /\
    sender_connection_id (sk s') = sender_connection_id (sk s)) (fun _ => False) s.
Proof.
  intros Hr Hbox (p & src & -> & Hp & Ht & Hc & Hl).
  apply (recv_data d (fun read u => rx (d ++ read) u) s p src rest); try done.
  intros s2 Hv. apply flush_rx. eapply rx_ext; [by apply receive_rx|done].
Qed.

(** [k] reads in a row, their bytes concatenated. *)
Fixpoint read_many (k : nat) : M (list Z) :=
  match k with
  | O => ret []
  | S k =>
      let! (data, _) := recv buf in
      let! more := read_many k in
      ret (data ++ more)
  end.

Lemma read_many_rx evs d s : rx d (sk s) -> inbox (world s) = evs -> Forall (data_event (sender_connection_id (sk s))) evs ->
  wp False (read_many (length evs)) (fun data s' => rx (d ++ data) (sk s')) (fun _ => False) s.
Proof.
  revert d s. induction evs as [|e evs IH]; intros d s Hr Hbox Hev; cbn [length read_many].
  - apply wp_ret. by rewrite app_nil_r.
  - inversion Hev; subst. apply wp_bind. eapply wp_mono; [by eapply recv_rx| |done]. cbn beta.
    intros [data src] s1 (Hr1 & Hb1 & Hs1). cbn [fst] in Hr1. apply wp_bind.
    eapply wp_mono; [apply (IH (d ++ data) s1); [done|done|by rewrite Hs1]| |done]. cbn beta.
    intros more s2 Hr2. apply wp_ret. by rewrite app_assoc.
Qed.


(** ** A repeated packet *)

(** A packet before the last delivered one is first in the buffer. *)
Definition stale (s : UtpSocket) : Prop :=
  exists first rest, incoming_buffer s = first :: rest /\ seq_nr first < last_dropped s.

Lemma flush_stale d s : rx d (sk s) -> stale (sk s) ->
  wp False (flush_incoming_buffer buf) (fun read s' => (read = [] /\ rx d (sk s') /\ stale (sk s')) /\ same_peer s s')
    (fun _ => False) s.
Proof.
  intros Hr (first & rest & Eb & Hlt). pose proof (rx_order _ _ Hr).
  assert (Hst : stale (sk s)) by (by exists first, rest).
  apply (flush_head d s first rest); try done. intros s' E. lia.
Qed.

Lemma receive_stale d p s : rx d s -> stale s \/ seq_nr p < last_dropped s /\ Forall (seq_lt p) (incoming_buffer s) ->
  0 <= seq_nr p < 2 ^ 16 - 1 -> stale (receive p s).
Proof.
  intros Hr Hst Hp. pose proof (rx_sorted _ _ Hr) as Hso. pose proof (rx_order _ _ Hr). pose proof (rx_base _ _ Hr).
  pose proof (rx_top _ _ Hr).
  assert (Hd : last_dropped (acknowledge_next p s) = last_dropped s /\
    incoming_buffer (acknowledge_next p s) = incoming_buffer s) by (unfold acknowledge_next; by destruct (_ =? 1)).
  destruct Hd as [Hd Hb]. unfold receive. cbv zeta. rewrite Hd, Hb.
  destruct Hst as [(first & rest & Eb & Hlt)|[Hlt Hall]].
  - destruct (0 <? _); [|exists first, rest; by rewrite Hb, Hd]. unfold stale. assign_field. rewrite Hd, Eb in *.
    rewrite buffer_insert_ordered by done. cbn [ordered_insert].
    destruct (Z.ltb_spec (seq_nr first) (seq_nr p)); [eauto|]. destruct (_ =? _); [eauto|].
    exists p, (first :: rest). split; [done|lia].
  - assert (Hne : u16_wrapping_sub (seq_nr p) (last_dropped s) <> 0).
    { intros E. apply wrapping_sub_is in E; lia. }
    pose proof (wrap_in_unsigned 16 (seq_nr p - last_dropped s)) as Hw. unfold u16_wrapping_sub, in_unsigned in *.
    destruct (Z.ltb_spec 0 (wrap 16 (seq_nr p - last_dropped s))); [|lia].
    unfold stale. assign_field. rewrite Hd. rewrite buffer_insert_ordered by done.
    destruct (incoming_buffer s) as [|q l]; cbn [ordered_insert]; [eauto|]. inversion Hall as [|? ? Hq]; subst.
    unfold seq_lt in Hq. destruct (Z.ltb_spec (seq_nr q) (seq_nr p)); [lia|]. destruct (Z.eqb_spec (seq_nr q) (seq_nr p)); [lia|]. eauto.
Qed.

(** Once a stale packet is first, no data packet is delivered any more. *)
Lemma read_many_stale evs d s : rx d (sk s) -> stale (sk s) -> inbox (world s) = evs ->
  Forall (data_event (sender_connection_id (sk s))) evs ->
  wp False (read_many (length evs)) (fun data _ => data = []) (fun _ => False) s.
Proof.
  revert s. induction evs as [|e evs IH]; intros s Hr Hst Hbox Hev; cbn [length read_many]; [by apply wp_ret|].
  inversion Hev as [|? ? (p & src & -> & Hp & Ht & Hc & Hl) Hev']; subst. apply wp_bind.
  eapply wp_mono; [apply (recv_data d (fun read u => read = [] /\ rx d u /\ stale u) s p src evs); try done| |done].
  - intros s2 Hv. pose proof (receive_rx d p (sk s) Hr Hp) as Hr2.
    assert (Hst2 : stale (receive p (sk s))). { destruct Hp as (_ & Hseq & _). pose proof (rx_base _ _ Hr). eapply receive_stale; eauto. lia. }
    apply flush_stale; [by eapply rx_ext|]. unfold stale in *. injection Hv as _ _ -> -> _ _ _. done.
  - cbn beta. intros [data src'] s1 ((Hd & Hr1 & Hst1) & Hb1 & Hs1). cbn [fst] in Hd. subst data. apply wp_bind.
    eapply wp_mono; [apply (IH s1); [done|done|done|by rewrite Hs1]| |done]. cbn beta. intros more s2 ->. by apply wp_ret.
Qed.

(** An empty buffer, everything taken was acknowledged. *)
Definition caught_up (last : Z) (s : UtpSocket) : Prop :=
  incoming_buffer s = [] /\ last_dropped s = last /\ sk_ack_nr s = last.

(** The next packet of the stream is delivered at once. *)
Lemma recv_next d s last p src rest : rx d (sk s) -> caught_up last (sk s) -> seq_nr p = last + 1 ->
  inbox (world s) = Datagram (raw p) src :: rest -> from_stream p -> Packet_get_type p = Ok Data ->
  connection_id p = sender_connection_id (sk s) -> (length (raw p) <= BUF_SIZE + HEADER_SIZE)%nat ->
  wp False (recv buf) (fun x s' => (fst x = stream (last + 1) /\ rx (d ++ stream (last + 1)) (sk s') /\ caught_up (last + 1) (sk s')) /\
    inbox (world s') = rest /\ sender_connection_id (sk s') = sender_connection_id (sk s)) (fun _ => False) s.
Proof.
  intros Hr (Hb & Hd & Ha) Hseq Hbox Hp Ht Hc Hl. pose proof Hp as (_ & Hrange & _). pose proof (rx_base _ _ Hr).
  apply (recv_data d (fun read u => read = stream (last + 1) /\ rx (d ++ stream (last + 1)) u /\ caught_up (last + 1) u) s p src rest); try done.
  intros s2 Hv. pose proof (receive_rx d p (sk s) Hr Hp) as Hr2. apply (rx_ext d _ (sk s2)) in Hr2; [|done].
  assert (Hrecv : incoming_buffer (sk s2) = [p] /\ last_dropped (sk s2) = last /\ sk_ack_nr (sk s2) = last + 1).
  { injection Hv as _ -> -> -> _ _ _. unfold receive, acknowledge_next.
    assert (E1 : u16_wrapping_sub (seq_nr p) last = 1) by (apply wrapping_sub_is; lia).
    rewrite Ha, E1, Z.eqb_refl. cbn [with_ack_nr last_dropped]. rewrite Hd, E1. cbn [Z.ltb Z.compare].
    assign_field. rewrite Hb. split_and!; [done|done|lia]. }
  destruct Hrecv as (Eb & Ed & Ea). apply (flush_head d s2 p []); [done|done| |].
  - intros s' _ Hr' Hsk Hpeer. rewrite Hseq in *. split; [|done]. split; [done|]. split; [done|].
    unfold caught_up. rewrite Hsk. assign_field. done.
  - intros Hn. exfalso. apply Hn. left. congruence.
Qed.

(** A packet before the last one delivered becomes first in the buffer. *)
Lemma recv_duplicate d s last p src rest : rx d (sk s) -> caught_up last (sk s) -> seq_nr p < last ->
  inbox (world s) = Datagram (raw p) src :: rest -> from_stream p -> Packet_get_type p = Ok Data ->
  connection_id p = sender_connection_id (sk s) -> (length (raw p) <= BUF_SIZE + HEADER_SIZE)%nat ->
  wp False (recv buf) (fun x s' => (fst x = [] /\ rx d (sk s') /\ stale (sk s')) /\
    inbox (world s') = rest /\ sender_connection_id (sk s') = sender_connection_id (sk s)) (fun _ => False) s.
Proof.
  intros Hr (Hb & Hd & Ha) Hseq Hbox Hp Ht Hc Hl. pose proof Hp as (_ & Hrange & _). pose proof (rx_base _ _ Hr).
  apply (recv_data d (fun read u => read = [] /\ rx d u /\ stale u) s p src rest); try done.
  intros s2 Hv. apply flush_stale; [eapply rx_ext; [by apply receive_rx|done]|].
  assert (Hst : stale (receive p (sk s))).
  { apply (receive_stale d); [done| |lia]. right. rewrite Hb. split; [lia|constructor]. }
  unfold stale in *. injection Hv as _ _ -> -> _ _ _. done.
Qed.

(** One repeated packet stops the connection for good. When the first two packets of
    the stream have been delivered and the first one arrives again, as a retransmission
    does, no packet that arrives later is ever delivered: the repeated packet stays first
    in the receive buffer, in front of all others. *)
Lemma repeated_packet_stops_delivery (s : st) (p1 p2 : Packet) (src : SocketAddr) (evs : list recv_event) :
  rx [] (sk s) -> caught_up base (sk s) -> seq_nr p1 = base + 1 -> seq_nr p2 = base + 2 ->
  inbox (world s) = Datagram (raw p1) src :: Datagram (raw p2) src :: Datagram (raw p1) src :: evs ->
  Forall (data_event (sender_connection_id (sk s))) (inbox (world s)) ->
  exists s', read_many (3 + length evs) s = Ret (stream (base + 1) ++ stream (base + 2)) s'.
Proof.
  intros Hr Hc E1 E2 Hbox Hev. rewrite Hbox in Hev. apply Forall_cons in Hev as [Hp1 Hev]. apply Forall_cons in Hev as [Hp2 Hev].
  apply Forall_cons in Hev as [_ Hev].
  destruct Hp1 as (p & src' & [= Hraw ->] & Hf1 & Ht1 & Hc1 & Hl1).
  destruct Hp2 as (q & src'' & [= Hraw2 ->] & Hf2 & Ht2 & Hc2 & Hl2).
  assert (p = p1) as -> by (destruct p, p1; cbn in Hraw; congruence).
  assert (q = p2) as -> by (destruct q, p2; cbn in Hraw2; congruence).
  assert (Hw : wp False (read_many (3 + length evs)) (fun data _ => data = stream (base + 1) ++ stream (base + 2)) (fun _ => False) s).
  { cbn [Nat.add read_many]. apply wp_bind. eapply wp_mono; [eapply (recv_next [] s base p1); eassumption| |done].
    cbn beta. intros [d1 a1] s1 ((Hd1 & Hr1 & Hc1') & Hb1 & Hs1). cbn [fst] in Hd1; subst d1. apply wp_bind, wp_bind.
    eapply wp_mono; [eapply (recv_next _ s1 (base + 1) p2); try eassumption; [lia|congruence]| |done].
    cbn beta. intros [d2 a2] s2 ((Hd2 & Hr2 & Hc2') & Hb2 & Hs2). cbn [fst] in Hd2; subst d2. apply wp_bind, wp_bind.
    eapply wp_mono; [eapply (recv_duplicate _ s2 (base + 1 + 1) p1); try eassumption; [lia|congruence]| |done].
    cbn beta. intros [d3 a3] s3 ((Hd3 & Hr3 & Hst3) & Hb3 & Hs3). cbn [fst] in Hd3; subst d3. apply wp_bind.
    eapply wp_mono; [apply (read_many_stale evs _ s3 Hr3 Hst3 Hb3); rewrite Hs3, Hs2, Hs1; done| |done].
    cbn beta. intros d4 s4 ->. do 3 apply wp_ret. replace (base + 1 + 1) with (base + 2) by lia. by rewrite !app_nil_r. }
  unfold wp in Hw. destruct (read_many _ s) as [data s'| | | |]; try done. subst. by exists s'.
Qed.

End Delivery.

(** ** Witnesses *)

(** A stream after the SYN numbered 10. *)
Definition sample_stream (k : Z) : list Z := if k =? 11 then [1; 2] else if k =? 12 then [3] else [4; 5].

Definition sample_open (ps : list Packet) : st :=
  mkSt (with_sender_connection_id 40 (with_ack_nr 10 (with_last_dropped 10 (with_state Connected (from_raw_parts 7 sample_peer)))))
    (sample_world (map sample_event ps)).

Lemma sample_from_stream k : 10 < k < 14 ->
  from_stream 10 sample_stream 100 (sample_data k (sample_stream k)) /\
  data_event 10 sample_stream 100 40 (sample_event (sample_data k (sample_stream k))).
Proof.
  intros Hk. assert (k = 11 \/ k = 12 \/ k = 13) as Hc by lia.
  assert (Hf : from_stream 10 sample_stream 100 (sample_data k (sample_stream k))).
  { destruct Hc as [-> | [-> | ->]];
      (split; [split; [apply (bool_decide_unpack _); by vm_compute|by vm_compute]|]; split; [by vm_compute|];
       split; [by vm_compute|]; apply Nat.leb_le; by vm_compute). }
  split; [done|]. exists (sample_data k (sample_stream k)), sample_peer. split; [done|]. split; [exact Hf|].
  destruct Hc as [-> | [-> | ->]]; (split; [by vm_compute|]; split; [by vm_compute|]; apply Nat.leb_le; by vm_compute).
Qed.

(** Packets 12, 11, 13 and 12 again: everything is delivered but in two steps each. *)
Definition sample_arrivals : list Packet :=
  [sample_data 12 [3]; sample_data 11 [1; 2]; sample_data 13 [4; 5]; sample_data 13 [4; 5]].

Lemma sample_arrivals_ok : Forall (data_event 10 sample_stream 100 40) (map sample_event sample_arrivals).
Proof.
  unfold sample_arrivals. cbn [map].
  repeat constructor; [apply (sample_from_stream 12)|apply (sample_from_stream 11)|apply (sample_from_stream 13)|
    apply (sample_from_stream 13)]; lia.
Qed.


Lemma sample_rx : rx 10 sample_stream 100 [] (sk (sample_open [])).
Proof.
  apply mkRx; [done|done|done|done|done|constructor|constructor| | |done|done|done].
  - intros k Hk. change (10 < k <= 10) in Hk. lia.
  - intros p Hp. by apply elem_of_nil in Hp.
Qed.

Lemma repeated_packet_stops_delivery_witness :
  exists s', read_many (H := calm_env) 100 4
    (sample_open [sample_data 11 [1; 2]; sample_data 12 [3]; sample_data 11 [1; 2]; sample_data 13 [4; 5]]) = Ret ([1; 2] ++ [3]) s'.
Proof.
  apply (repeated_packet_stops_delivery (H := calm_env) 10 sample_stream 100 (fun _ => eq_refl)
    (sample_open [sample_data 11 [1; 2]; sample_data 12 [3]; sample_data 11 [1; 2]; sample_data 13 [4; 5]])
    (sample_data 11 [1; 2]) (sample_data 12 [3]) sample_peer [sample_event (sample_data 13 [4; 5])]);
    [exact sample_rx|by vm_compute|by vm_compute|by vm_compute|reflexivity|].
  cbn [sample_open world sample_world inbox map].
  repeat constructor; [apply (sample_from_stream 11)|apply (sample_from_stream 12)|apply (sample_from_stream 11)|
    apply (sample_from_stream 13)]; lia.
Defined.

(** ** Other losses *)

(** What a program reads, or nothing when a call does not return. *)
Definition reads {A} (o : out A) : option A := match o with Ret a _ => Some a | _ => None end.

(** Three more histories in which the bytes read are not the peer's stream. A State
    packet numbered one above the last packet received is acknowledged as if its data had
    arrived, so that a lost packet 11 is skipped and packet 12 is delivered. When the rest
    of a packet is read that did not fit the reader's buffer, the next buffered packet
    follows although packet 12 is missing. And data that arrives while a write waits for
    room in the send window is acknowledged and thrown away. *)
Lemma delivery_loses_data :
  reads (recv_from (H := calm_env) 100 (sample_start [sample_empty State 11; sample_data 12 [3]])) = Some ([3], sample_peer) /\
  reads ((let! (a, _) := recv_from (H := calm_env) 1 in
          let! _ := recv (H := calm_env) 0 in
          let! (b, _) := recv_from (H := calm_env) 100 in
          let! (c, _) := recv_from (H := calm_env) 100 in
          ret (a, b, c)) (sample_start [sample_data 11 [1; 2]; sample_data 13 [9]; sample_data 12 [3]])) = Some ([1], [2], [9]) /\
  reads ((let! _ := recv (H := calm_env) 100 in
          let! n := send_to (H := calm_env) (replicate (3 * 1380) 0) in
          let! s := gets id in
          ret (n, sk_ack_nr s, pending_data s, incoming_buffer s))
    (sample_start [sample_data 11 [1; 2]; set_ack_nr (sample_empty State 20) 500])) = Some ((3 * 1380)%nat, 11, [], []).
Proof. split; [|split]; vm_compute; reflexivity. Qed.

(** * Segmentation of sent data by the uTP socket *)

(** The payload size of a full segment. *)
Definition SEGMENT : nat := Z.to_nat MSS - HEADER_SIZE.

(** ** The packet of a chunk *)

Lemma set_field_drop f p v : (HEADER_SIZE <= length (raw p))%nat ->
  drop HEADER_SIZE (raw (set_field f p v)) = drop HEADER_SIZE (raw p).
Proof.
  intros Hl. destruct (field_bounds f) as [H2 Hb]. unfold set_field. cbn [raw].
  rewrite app_assoc, drop_app_ge by (rewrite length_app, length_take, length_be_bytes; lia).
  rewrite drop_drop. f_equal. rewrite length_app, length_take, length_be_bytes. lia.
Qed.

Lemma get_set_other f g p v : (HEADER_SIZE <= length (raw p))%nat -> g <> f -> get_field g (set_field f p v) = get_field g p.
Proof. intros Hl Hg. unfold get_field. f_equal. apply set_field_slice; [done|]. destruct (fields_disjoint f g); auto. Qed.

(** A packet without extensions. *)
Definition plain (pl : list Z) (p : Packet) : Prop :=
  (HEADER_SIZE <= length (raw p))%nat /\ raw p !! 1%nat = Some 0 /\ drop HEADER_SIZE (raw p) = pl.

Lemma plain_set_field pl f p v : plain pl p -> plain pl (set_field f p v).
Proof. intros (Hl & Hb & Hd). unfold plain. rewrite set_field_length, set_field_byte1, set_field_drop by done. done. Qed.

Lemma plain_with_payload c : plain c (Packet_with_payload c).
Proof.
  unfold Packet_with_payload. set (h := PacketHeader_as_ref _). assert (Hh : length h = HEADER_SIZE) by reflexivity.
  unfold plain. cbn [raw]. split_and!; [rewrite length_app; lia|done|]. rewrite <- Hh. apply drop_app_length.
Qed.

Lemma plain_payload pl p : plain pl p -> payload p = Ok pl.
Proof.
  intros (Hl & Hb & Hd). unfold payload. rewrite Hb. cbn [or_panic res_bind]. unfold ext_fuel. rewrite Nat.add_1_r.
  cbn [payload_index]. change (more_extensions (ExtensionType_from 0)) with false. rewrite andb_false_r. cbn [res_bind].
  destruct (Nat.leb_spec HEADER_SIZE (length (raw p))); [by rewrite Hd|lia].
Qed.

(** The packet [send_to] makes of a chunk. *)
Definition segment (s : UtpSocket) (wnd : Z) (chunk : list Z) : Packet :=
  set_connection_id (set_ack_nr (set_seq_nr (set_wnd_size (Packet_with_payload chunk) wnd) (sk_seq_nr s)) (sk_ack_nr s))
    (sender_connection_id s).

Lemma segment_payload s wnd c : payload (segment s wnd c) = Ok c.
Proof. apply plain_payload. unfold segment. repeat apply plain_set_field. apply plain_with_payload. Qed.

Lemma segment_seq s wnd c : is_u16 (sk_seq_nr s) -> seq_nr (segment s wnd c) = sk_seq_nr s.
Proof.
  intros Hq. unfold segment, seq_nr, set_connection_id, set_ack_nr, set_seq_nr, set_wnd_size.
  assert (Hl : (HEADER_SIZE <= length (raw (set_field FWndSize (Packet_with_payload c) wnd)))%nat)
    by (apply (plain_set_field c), plain_with_payload).
  rewrite !get_set_other by (try done; rewrite ?set_field_length; rewrite ?set_field_length; done). by apply get_set_same.
Qed.

(** ** The queue *)

Lemma enqueue_segments cs s : Z.of_nat (length (send_window (sk s))) <= WINDOW_SIZE -> is_u16 (sk_seq_nr (sk s)) ->
  exists s' ps, enqueue_chunks cs s = Ret tt s' /\ unsent_queue (sk s') = unsent_queue (sk s) ++ ps /\
    Forall2 (fun p c => payload p = Ok c) ps cs /\
    (forall i p, ps !! i = Some p -> seq_nr p = as_u16 (sk_seq_nr (sk s) + Z.of_nat i)) /\
    sk_seq_nr (sk s') = as_u16 (sk_seq_nr (sk s) + Z.of_nat (length cs)).
Proof.
  revert s. induction cs as [|c cs IH]; intros s Hw Hq.
  { exists s, []. cbn [enqueue_chunks length]. rewrite app_nil_r, Z.add_0_r, wrap_id by done. split_and!; done. }
  cbn [enqueue_chunks]. unfold bind at 1, gets. cbn [id]. unfold bind at 1, checked_u.
  assert (Hu : as_u32 (Z.of_nat (length (send_window (sk s)))) = Z.of_nat (length (send_window (sk s))))
    by (apply wrap_id; unfold in_unsigned, WINDOW_SIZE in *; lia).
  rewrite Hu, decide_True by (unfold in_unsigned, WINDOW_SIZE in *; lia). cbn [ret]. cbv zeta.
  fold (segment (sk s) (WINDOW_SIZE - Z.of_nat (length (send_window (sk s)))) c). set (p := segment _ _ _).
  unfold bind at 1 2, modify. cbn [sk world]. set (s1 := mkSt (with_seq_nr _ _) _).
  assert (Hq1 : sk_seq_nr (sk s1) = as_u16 (sk_seq_nr (sk s) + 1)) by reflexivity.
  destruct (IH s1) as (s' & ps & E & Hun & Hpl & Hseq & Hend); [exact Hw|by apply wrap_in_unsigned|].
  exists s', (p :: ps). split; [exact E|]. split; [rewrite Hun; cbn [s1 sk]; assign_field; by rewrite <- app_assoc|].
  split; [constructor; [apply segment_payload|done]|]. rewrite Hq1 in Hseq, Hend. split.
  - intros [|i] q Hq'; cbn in Hq'.
    + injection Hq' as <-. subst p. rewrite segment_seq by done. by rewrite Z.add_0_r, wrap_id.
    + rewrite (Hseq i q Hq'). unfold wrap. rewrite Zplus_mod_idemp_l. f_equal. lia.
  - rewrite Hend. cbn [length]. unfold wrap. rewrite Zplus_mod_idemp_l. f_equal. lia.
Qed.

(** [send_to] cuts the data into segments without losing any of it: the packets it
    appends to the queue carry the chunks in order, the chunks concatenated are the data,
    each holds between one byte and the segment size, and the packets are numbered
    consecutively from the socket's sequence number, modulo 2^16. *)
Lemma send_to_cuts_into_segments (s : st) (data : list Z) :
  Z.of_nat (length (send_window (sk s))) <= WINDOW_SIZE -> is_u16 (sk_seq_nr (sk s)) ->
  exists s' ps cs, enqueue_chunks (chunks SEGMENT data) s = Ret tt s' /\
    unsent_queue (sk s') = unsent_queue (sk s) ++ ps /\
    Forall2 (fun p c => payload p = Ok c) ps cs /\ concat cs = data /\
    Forall (fun c => 1 <= length c <= SEGMENT)%nat cs /\
    (forall i p, ps !! i = Some p -> seq_nr p = as_u16 (sk_seq_nr (sk s) + Z.of_nat i)) /\
    sk_seq_nr (sk s') = as_u16 (sk_seq_nr (sk s) + Z.of_nat (length ps)).
Proof.
  intros Hw Hq. destruct (enqueue_segments (chunks SEGMENT data) s Hw Hq) as (s' & ps & E & Hun & Hpl & Hseq & Hend).
  exists s', ps, (chunks SEGMENT data). assert (0 < SEGMENT)%nat by (unfold SEGMENT, MSS, HEADER_SIZE; lia).
  split_and!; try done.
  - by apply chunks_fuel_concat.
  - by apply chunks_fuel_sizes.
  - by rewrite (Forall2_length _ _ _ Hpl).
Qed.

Lemma send_to_cuts_into_segments_witness :
  exists s' ps cs, enqueue_chunks (chunks SEGMENT (replicate 1500 7)) (sample_open []) = Ret tt s' /\
    unsent_queue (sk s') = ps /\ concat cs = replicate 1500 7 /\ map seq_nr ps = [1; 2].
Proof.
  destruct (send_to_cuts_into_segments (sample_open []) (replicate 1500 7)) as (s' & ps & cs & E & Hun & _ & Hc & _ & _ & _);
    [by vm_compute|by vm_compute|]. exists s', ps, cs. split; [exact E|]. split; [exact Hun|]. split; [exact Hc|].
  cbn [sample_open sk unsent_queue app] in Hun. change (unsent_queue (sk s') = ps) in Hun. rewrite <- Hun.
  vm_compute in E. injection E as <-. vm_compute. reflexivity.
Defined.
