(* ===== verification/Nom.v ===== *)
(** * The parsers and writers of the wire formats

    The tracker, handshake and peer messages are parsed with the combinators of the
    [nom] crate and written with the big-endian writers of [byteorder]. Both are code
    of other crates: the class [Nom] has the operations the sources use and [NomLaws]
    what their documentation states of them. [nom_reference] is an instance that
    satisfies the laws. The number of missing bytes of [Incomplete] is not modelled. *)

From S2P Require Import Prelude RustStd Words.

(** [nom::IResult<&[u8], A>]; [NomPanic] is a panic of a function called by a parser. *)
Inductive IResult (A : Type) : Type :=
| Done (rest : list Z) (a : A)
| NomError
| Incomplete
| NomPanic.
Arguments Done {A} rest a.
Arguments NomError {A}.
Arguments Incomplete {A}.
Arguments NomPanic {A}.

Definition Parser (A : Type) : Type := list Z -> IResult A.

(** ** Operations *)

(** [be_u n] is the family [be_u8], [be_u16], [be_u32], [be_u64] for [n] bytes and
    [be_i n] the signed one; [take], [tag], [eof] and [take_str] are the macros of
    those names. [seq] is the sequencing of [do_parse!], [tuple!], [map!] and
    [switch!]: the second parser runs on the rest of the first. [alt] is [alt!], [opt] is [opt!], [fail]
    the branch of [switch!] for a value without a case. [write_be n] is the family
    [write_u8] to [write_i64] with [BigEndian]. *)
Class Nom : Type := {
  be_u : nat -> Parser Z;
  be_i : nat -> Parser Z;
  nom_take : nat -> Parser (list Z);
  nom_tag : list Z -> Parser (list Z);
  nom_eof : Parser (list Z);
  nom_take_str : nat -> Parser (list Z);
  nom_seq : forall {A B}, Parser A -> (A -> Parser B) -> Parser B;
  nom_alt : forall {A}, Parser A -> Parser A -> Parser A;
  nom_opt : forall {A}, Parser A -> Parser (option A);
  nom_value : forall {A}, A -> Parser A;
  nom_fail : forall {A}, Parser A;
  write_be : nat -> Z -> list Z
}.

Declare Scope nom_scope.
Delimit Scope nom_scope with nom.
#[global] Open Scope nom_scope.

Notation "'parse' x := p 'in' k" := (nom_seq p (fun x => k))
  (at level 10, x pattern, p at level 200, k at level 200,
   format "'[v' 'parse'  x  :=  p  'in'  '/' k ']'") : nom_scope.

(** [map!]. *)
Definition nom_map `{Nom} {A B} (p : Parser A) (f : A -> B) : Parser B := parse a := p in nom_value (f a).

(** An [unwrap] inside a parser. *)
Definition nom_unwrap {E A} (r : res E A) : Parser A := fun i => match r with Ok a => Done i a | _ => NomPanic end.

(** [count_fixed!] and [length_bytes!] in terms of the others. *)
Fixpoint nom_count `{Nom} {A} (n : nat) (p : Parser A) : Parser (list A) :=
  match n with
  | O => nom_value []
  | S n => parse x := p in parse xs := nom_count n p in nom_value (x :: xs)
  end.
Definition nom_length_bytes `{Nom} (len : Parser nat) : Parser (list Z) := parse n := len in nom_take n.

(** ** Laws *)

Class NomLaws (N : Nom) : Prop := {
  be_u_done n bs rest : length bs = n -> bytes_ok bs -> be_u n (bs ++ rest) = Done rest (be_int bs);
  be_u_short n i : (length i < n)%nat -> be_u n i = Incomplete;
  be_i_done n bs rest : length bs = n -> bytes_ok bs -> be_i n (bs ++ rest) = Done rest (swrap (8 * Z.of_nat n) (be_int bs));
  be_i_short n i : (length i < n)%nat -> be_i n i = Incomplete;
  take_done n bs rest : length bs = n -> nom_take n (bs ++ rest) = Done rest bs;
  take_short n i : (length i < n)%nat -> nom_take n i = Incomplete;
  tag_done t rest : nom_tag t (t ++ rest) = Done rest t;
  tag_other t i : length i = length t -> i <> t -> forall rest, nom_tag t (i ++ rest) = NomError;
  tag_short t i : (length i < length t)%nat -> nom_tag t i = NomError \/ nom_tag t i = Incomplete;
  eof_done : nom_eof [] = Done [] [];
  eof_more b rest : nom_eof (b :: rest) = NomError;
  take_str_done n bs rest : length bs = n -> utf8_valid bs = true -> nom_take_str n (bs ++ rest) = Done rest bs;
  take_str_invalid n bs rest : length bs = n -> utf8_valid bs = false -> nom_take_str n (bs ++ rest) = NomError;
  take_str_short n i : (length i < n)%nat -> nom_take_str n i = Incomplete;
  seq_done {A B} (p : Parser A) (k : A -> Parser B) i rest a : p i = Done rest a -> nom_seq p k i = k a rest;
  seq_error {A B} (p : Parser A) (k : A -> Parser B) i : p i = NomError -> nom_seq p k i = NomError;
  seq_incomplete {A B} (p : Parser A) (k : A -> Parser B) i : p i = Incomplete -> nom_seq p k i = Incomplete;
  seq_panic {A B} (p : Parser A) (k : A -> Parser B) i : p i = NomPanic -> nom_seq p k i = NomPanic;
  alt_done {A} (p q : Parser A) i rest a : p i = Done rest a -> nom_alt p q i = Done rest a;
  alt_error {A} (p q : Parser A) i : p i = NomError -> nom_alt p q i = q i;
  alt_incomplete {A} (p q : Parser A) i : p i = Incomplete -> nom_alt p q i = Incomplete;
  alt_panic {A} (p q : Parser A) i : p i = NomPanic -> nom_alt p q i = NomPanic;
  opt_done {A} (p : Parser A) i rest a : p i = Done rest a -> nom_opt p i = Done rest (Some a);
  opt_error {A} (p : Parser A) i : p i = NomError -> nom_opt p i = Done i None;
  opt_incomplete {A} (p : Parser A) i : p i = Incomplete -> nom_opt p i = Incomplete;
  value_done {A} (a : A) i : nom_value a i = Done i a;
  fail_error {A} i : nom_fail (A := A) i = NomError;
  write_be_bytes n v : write_be n v = be_bytes n v
}.

(** ** A reference instance *)

Definition ref_take (n : nat) : Parser (list Z) := fun i =>
  if (n <=? length i)%nat then Done (drop n i) (take n i) else Incomplete.

Definition ref_seq {A B} (p : Parser A) (k : A -> Parser B) : Parser B := fun i =>
  match p i with Done rest a => k a rest | NomError => NomError | Incomplete => Incomplete | NomPanic => NomPanic end.

Definition nom_reference : Nom := {|
  be_u n := ref_seq (ref_take n) (fun bs i => Done i (be_int bs));
  be_i n := ref_seq (ref_take n) (fun bs i => Done i (swrap (8 * Z.of_nat n) (be_int bs)));
  nom_take := ref_take;
  nom_tag t := fun i =>
    if bool_decide (take (length t) i = t) then Done (drop (length t) i) t
    else if (length t <=? length i)%nat then NomError else Incomplete;
  nom_eof := fun i => match i with [] => Done [] [] | _ => NomError end;
  nom_take_str n := ref_seq (ref_take n) (fun bs i => if utf8_valid bs then Done i bs else NomError);
  nom_seq A B := ref_seq;
  nom_alt A p q := fun i => match p i with NomError => q i | r => r end;
  nom_opt A p := fun i => match p i with Done rest a => Done rest (Some a) | NomError => Done i None | Incomplete => Incomplete | NomPanic => NomPanic end;
  nom_value A a := fun i => Done i a;
  nom_fail A := fun _ => NomError;
  write_be := be_bytes
|}.

Lemma ref_take_done n bs rest : length bs = n -> ref_take n (bs ++ rest) = Done rest bs.
Proof.
  intros <-. unfold ref_take. rewrite length_app, take_app_length, drop_app_length.
  destruct (Nat.leb_spec (length bs) (length bs + length rest)); [done|lia].
Qed.

Lemma ref_take_short n i : (length i < n)%nat -> ref_take n i = Incomplete.
Proof. intros Hi. unfold ref_take. destruct (Nat.leb_spec n (length i)); [lia|done]. Qed.

#[export] Instance nom_reference_lawful : NomLaws nom_reference.
Proof.
  constructor; cbn [be_u be_i nom_take nom_tag nom_eof nom_take_str nom_seq nom_alt nom_opt nom_value nom_fail write_be nom_reference];
    unfold ref_seq; try done.
  - intros n bs rest Hl _. by rewrite ref_take_done.
  - intros n i Hi. by rewrite ref_take_short.
  - intros n bs rest Hl _. by rewrite ref_take_done.
  - intros n i Hi. by rewrite ref_take_short.
  - apply ref_take_done.
  - apply ref_take_short.
  - intros t rest. rewrite take_app_length, drop_app_length, bool_decide_true by done. done.
  - intros t i Hl Hne rest. rewrite <- Hl, take_app_length, bool_decide_false by done. rewrite length_app.
    destruct (Nat.leb_spec (length i) (length i + length rest)); [done|lia].
  - intros t i Hi. rewrite bool_decide_false by (intros E; apply (f_equal length) in E; rewrite length_take in E; lia).
    destruct (Nat.leb_spec (length t) (length i)); [lia|by right].
  - intros n bs rest Hl Hu. by rewrite ref_take_done, Hu.
  - intros n bs rest Hl Hu. by rewrite ref_take_done, Hu.
  - intros n i Hi. by rewrite ref_take_short.
  - intros A B p k i rest a ->. done.
  - intros A B p k i ->. done.
  - intros A B p k i ->. done.
  - intros A B p k i ->. done.
  - intros A p q i rest a ->. done.
  - intros A p q i ->. done.
  - intros A p q i ->. done.
  - intros A p q i ->. done.
  - intros A p i rest a ->. done.
  - intros A p i ->. done.
  - intros A p i ->. done.
Qed.

(** ** Consequences *)

Section Facts.
Context `{NL : NomLaws}.

Lemma map_done {A B} (p : Parser A) (f : A -> B) i rest a : p i = Done rest a -> nom_map p f i = Done rest (f a).
Proof. intros Hp. unfold nom_map. rewrite (seq_done _ _ _ _ _ Hp). apply value_done. Qed.

(** What was written with [n] bytes is read back. *)
Lemma be_u_write n v rest : in_unsigned (8 * Z.of_nat n) v -> be_u n (write_be n v ++ rest) = Done rest v.
Proof.
  intros Hv. rewrite write_be_bytes, be_u_done by (apply length_be_bytes || apply be_bytes_ok). by rewrite be_int_be_bytes_id.
Qed.

Lemma swrap_wrap w v : 0 < w -> in_signed w v -> swrap w (wrap w v) = v.
Proof.
  intros Hw Hv. unfold swrap, wrap, in_signed in *. rewrite Zplus_mod_idemp_l.
  assert (2 ^ w = 2 * 2 ^ (w - 1)) as E by (rewrite <- Z.pow_succ_r by lia; f_equal; lia).
  rewrite Z.mod_small; lia.
Qed.

Lemma be_i_write n v rest : (0 < n)%nat -> in_signed (8 * Z.of_nat n) v -> be_i n (write_be n v ++ rest) = Done rest v.
Proof.
  intros Hn Hv. rewrite write_be_bytes, be_i_done by (apply length_be_bytes || apply be_bytes_ok).
  rewrite be_int_be_bytes, swrap_wrap by (done || lia). done.
Qed.

Lemma length_write n v : length (write_be n v) = n.
Proof. rewrite write_be_bytes. apply length_be_bytes. Qed.

Lemma count_bytes bs rest : bytes_ok bs -> nom_count (length bs) (be_u 1) (bs ++ rest) = Done rest bs.
Proof.
  induction 1 as [|b bs Hb Hbs IH]; [apply value_done|]. cbn [length nom_count app].
  erewrite seq_done by (apply (be_u_done 1 [b]); [done|by constructor]). erewrite seq_done by exact IH. rewrite value_done.
  done.
Qed.

Lemma count_done n bs rest : length bs = n -> bytes_ok bs -> nom_count n (be_u 1) (bs ++ rest) = Done rest bs.
Proof. intros <-. apply count_bytes. Qed.

(** ** Parsers that do not panic *)

(** On bytes the parser does not panic, and what it reads satisfies [Q] and took at
    least [k] bytes. *)
Definition parses {A} (k : A -> nat) (p : Parser A) (Q : A -> Prop) : Prop :=
  forall i, bytes_ok i ->
    match p i with
    | Done rest a => bytes_ok rest /\ (length rest + k a <= length i)%nat /\ Q a
    | NomPanic => False
    | NomError | Incomplete => True
    end.

Lemma parses_impl {A} k k' (p : Parser A) (Q Q' : A -> Prop) :
  parses k p Q -> (forall a, Q a -> k' a <= k a /\ Q' a)%nat -> parses k' p Q'.
Proof.
  intros Hp Hq i Hi. specialize (Hp i Hi). destruct (p i) as [rest a| | |]; try done. destruct Hp as (? & ? & Ha).
  destruct (Hq a Ha). split; [done|]. split; [lia|done].
Qed.

Lemma parses_seq {A B} k k1 (p : Parser A) (f : A -> Parser B) (Q1 : A -> Prop) (Q : B -> Prop) :
  parses k1 p Q1 -> (forall a, Q1 a -> parses (fun b => k b - k1 a)%nat (f a) Q) -> parses k (nom_seq p f) Q.
Proof.
  intros Hp Hf i Hi. specialize (Hp i Hi). destruct (p i) as [rest a| | |] eqn:E; [| | |done].
  - rewrite (seq_done _ _ _ _ _ E). destruct Hp as (Hr & Hl & Ha). specialize (Hf a Ha rest Hr).
    destruct (f a rest); try done. destruct Hf as (? & ? & ?). split; [done|]. split; [lia|done].
  - by rewrite (seq_error _ _ _ E).
  - by rewrite (seq_incomplete _ _ _ E).
Qed.

Lemma parses_alt {A} k (p q : Parser A) (Q : A -> Prop) : parses k p Q -> parses k q Q -> parses k (nom_alt p q) Q.
Proof.
  intros Hp Hq i Hi. specialize (Hp i Hi). specialize (Hq i Hi). destruct (p i) as [rest a| | |] eqn:E; [| | |done].
  - by rewrite (alt_done _ _ _ _ _ E).
  - by rewrite (alt_error _ _ _ E).
  - by rewrite (alt_incomplete _ _ _ E).
Qed.

Lemma parses_value {A} k (a : A) (Q : A -> Prop) : k a = 0%nat -> Q a -> parses k (nom_value a) Q.
Proof. intros Hk Ha i Hi. rewrite value_done. split; [done|]. split; [lia|done]. Qed.

Lemma parses_fail {A} k (Q : A -> Prop) : parses k nom_fail Q.
Proof. intros i Hi. by rewrite fail_error. Qed.

Lemma parses_map {A B} k (p : Parser A) (f : A -> B) (Q : B -> Prop) :
  parses (fun a => k (f a)) p (fun a => Q (f a)) -> parses k (nom_map p f) Q.
Proof. intros Hp. eapply parses_seq; [exact Hp|]. intros a Ha. apply parses_value; [lia|done]. Qed.

(** The first bytes of an input that is long enough. *)
Lemma bytes_split (n : nat) i : bytes_ok i -> (n <= length i)%nat ->
  exists bs rest, i = bs ++ rest /\ length bs = n /\ bytes_ok bs /\ bytes_ok rest.
Proof.
  intros Hi Hl. exists (take n i), (drop n i). rewrite take_drop, length_take. split; [done|]. split; [lia|].
  split; [by apply Forall_take|by apply Forall_drop].
Qed.

Lemma parses_take n : parses (fun _ => n) (nom_take n) (fun bs => length bs = n /\ bytes_ok bs).
Proof.
  intros i Hi. destruct (Nat.le_gt_cases n (length i)) as [Hn|Hn]; [|by rewrite take_short].
  destruct (bytes_split n i Hi Hn) as (bs & rest & -> & Hl & Hb & Hr). rewrite take_done, length_app by done. split; [done|]. split; [lia|done].
Qed.

Lemma parses_be_u n : parses (fun _ => n) (be_u n) (in_unsigned (8 * Z.of_nat n)).
Proof.
  intros i Hi. destruct (Nat.le_gt_cases n (length i)) as [Hn|Hn]; [|by rewrite be_u_short].
  destruct (bytes_split n i Hi Hn) as (bs & rest & -> & Hl & Hb & Hr). rewrite be_u_done, length_app by done. split; [done|].
  split; [lia|]. rewrite <- Hl. by apply be_int_bound.
Qed.

Lemma swrap_in_signed w v : 0 < w -> in_signed w (swrap w v).
Proof.
  intros Hw. unfold swrap, in_signed. assert (2 ^ w = 2 * 2 ^ (w - 1)) as E by (rewrite <- Z.pow_succ_r by lia; f_equal; lia).
  pose proof (Z.mod_pos_bound (v + 2 ^ (w - 1)) (2 ^ w) ltac:(apply Z.pow_pos_nonneg; lia)). lia.
Qed.

Lemma parses_be_i n : (0 < n)%nat -> parses (fun _ => n) (be_i n) (in_signed (8 * Z.of_nat n)).
Proof.
  intros Hn0 i Hi. destruct (Nat.le_gt_cases n (length i)) as [Hn|Hn]; [|by rewrite be_i_short].
  destruct (bytes_split n i Hi Hn) as (bs & rest & -> & Hl & Hb & Hr). rewrite be_i_done, length_app by done. split; [done|].
  split; [lia|]. apply swrap_in_signed. lia.
Qed.

Lemma parses_tag t : parses (fun _ => length t) (nom_tag t) (fun bs => bs = t).
Proof.
  intros i Hi. destruct (Nat.le_gt_cases (length t) (length i)) as [Hn|Hn].
  - destruct (bytes_split _ i Hi Hn) as (bs & rest & -> & Hl & Hb & Hr). destruct (decide (bs = t)) as [->|Hne].
    + rewrite tag_done, length_app. split; [done|]. split; [lia|done].
    + by rewrite tag_other.
  - by destruct (tag_short t i Hn) as [-> | ->].
Qed.

Lemma parses_eof : parses (fun _ => 0%nat) nom_eof (fun _ => True).
Proof. intros [|b i] Hi; [rewrite eof_done|rewrite eof_more]; [|done]. split; [done|]. split; [simpl; lia|done]. Qed.

Lemma parses_take_str n : parses (fun _ => n) (nom_take_str n) (fun bs => length bs = n /\ utf8_valid bs = true).
Proof.
  intros i Hi. destruct (Nat.le_gt_cases n (length i)) as [Hn|Hn]; [|by rewrite take_str_short].
  destruct (bytes_split n i Hi Hn) as (bs & rest & -> & Hl & Hb & Hr). destruct (utf8_valid bs) eqn:Hu.
  - rewrite take_str_done, length_app by done. split; [done|]. split; [lia|done].
  - by rewrite take_str_invalid.
Qed.

Lemma parses_count {A} (p : Parser A) (Q : A -> Prop) n : parses (fun _ => 0%nat) p Q ->
  parses (fun _ => 0%nat) (nom_count n p) (fun l => length l = n /\ Forall Q l).
Proof.
  intros Hp. induction n as [|n IH]; [by apply parses_value|]. cbn [nom_count].
  eapply parses_seq; [exact Hp|]. intros x Hx. eapply parses_seq; [exact IH|]. intros xs [Hl Hxs].
  apply parses_value; [done|]. cbn [length]. split; [lia|by constructor].
Qed.

Lemma parses_unwrap {E A} (r : res E A) (a : A) (Q : A -> Prop) : r = Ok a -> Q a -> parses (fun _ => 0%nat) (nom_unwrap r) Q.
Proof. intros -> Ha i Hi. split; [done|]. split; [simpl; lia|done]. Qed.

End Facts.
