(* ===== verification/TrackerMessage.v ===== *)
(** * UDP tracker messages

    Model of [utracker/announce.rs], [contact.rs], [error.rs], [option.rs],
    [request.rs], [response.rs], [scrape.rs] and the constants of [utracker/mod.rs]:
    the data of the messages, their parsers over the class [Nom] and their writers.
    A writer is the bytes it appends, as when writing to a vector. The iteration order
    of a [HashMap] is unspecified and is the class [HashOrder]. *)

From stdpp Require Import gmap.
From S2P Require Import Prelude RustStd Words UtilSha UtilConvert Nom.

Definition CONNECT_ACTION_ID : Z := 0.
Definition ANNOUNCE_IPV4_ACTION_ID : Z := 1.
Definition SCRAPE_ACTION_ID : Z := 2.
Definition ANNOUNCE_IPV6_ACTION_ID : Z := 4.
Definition ERROR_ACTION_ID : Z := 3.
Definition CONNECT_ID_PROTOCOL_ID : Z := 4497486125440.  (* 0x41727101980 *)

Definition IMPLIED_IPV4_ID : list Z := replicate 4 0.
Definition IMPLIED_IPV6_ID : list Z := replicate 16 0.
Definition DEFAULT_NUM_WANT : Z := -1.
Definition ANNOUNCE_NONE_EVENT : Z := 0.
Definition ANNOUNCE_COMPLETED_EVENT : Z := 1.
Definition ANNOUNCE_STARTED_EVENT : Z := 2.
Definition ANNOUNCE_STOPPED_EVENT : Z := 3.

Definition END_OF_OPTIONS_BYTE : Z := 0.
Definition NO_OPERATION_BYTE : Z := 1.
Definition URL_DATA_BYTE : Z := 2.

Definition SOCKET_ADDR_V4_BYTES : nat := 6.
Definition SOCKET_ADDR_V6_BYTES : nat := 18.
Definition SCRAPE_STATS_BYTES : nat := 12.
Definition INFO_HASH_LEN : nat := SHA_HASH_LEN.
Definition PEER_ID_LEN : nat := SHA_HASH_LEN.

(** ** Data *)

Inductive AnnounceEvent : Type := EventNone | EventCompleted | EventStarted | EventStopped.

Record ClientState : Type := ClientState_new {
  bytes_downloaded : Z; bytes_left : Z; bytes_uploaded : Z; event : AnnounceEvent }.

Inductive SourceIP : Type :=
| ImpliedV4
| ExplicitV4 (a : Ipv4Addr)
| ImpliedV6
| ExplicitV6 (a : Ipv6Addr).

Inductive DesiredPeers : Type := DesiredDefault | DesiredSpecified (n : Z).

(** [HashMap<u8, Cow<[u8]>>]. *)
Record AnnounceOptions : Type := mkOptions { raw_options : gmap Z (list Z) }.

Record AnnounceRequest : Type := AnnounceRequest_new {
  ar_info_hash : ShaHash;
  ar_peer_id : ShaHash;
  ar_state : ClientState;
  ar_ip : SourceIP;
  ar_key : Z;
  ar_num_want : DesiredPeers;
  ar_port : Z;
  ar_options : AnnounceOptions
}.

(** The bytes of the peers, as they are kept. *)
Record CompactPeersV4 : Type := mkPeersV4 { peers_v4 : list Z }.
Record CompactPeersV6 : Type := mkPeersV6 { peers_v6 : list Z }.
Inductive CompactPeers : Type :=
| PeersV4 (p : CompactPeersV4)
| PeersV6 (p : CompactPeersV6).

Record AnnounceResponse : Type := AnnounceResponse_new {
  interval : Z; leechers : Z; seeders : Z; an_peers : CompactPeers }.

Record ScrapeStats : Type := ScrapeStats_new { num_seeders : Z; num_downloads : Z; num_leechers : Z }.
Record ScrapeRequest : Type := mkScrapeRequest { scrape_hashes : list Z }.
Record ScrapeResponse : Type := mkScrapeResponse { scrape_stats : list Z }.

(** The UTF-8 bytes of the message. *)
Record ErrorResponse : Type := ErrorResponse_new { message : list Z }.

Inductive RequestType : Type :=
| ReqConnect
| ReqAnnounce (r : AnnounceRequest)
| ReqScrape (r : ScrapeRequest).
Record TrackerRequest : Type := TrackerRequest_new {
  connection_id : Z; request_transaction_id : Z; request_type : RequestType }.

Inductive ResponseType : Type :=
| ResConnect (id : Z)
| ResAnnounce (r : AnnounceResponse)
| ResScrape (r : ScrapeResponse)
| ResError (r : ErrorResponse).
Record TrackerResponse : Type := TrackerResponse_new { response_transaction_id : Z; response_type : ResponseType }.

(** ** Events, states and addresses *)

Definition AnnounceEvent_as_id (e : AnnounceEvent) : Z :=
  match e with
  | EventNone => ANNOUNCE_NONE_EVENT
  | EventCompleted => ANNOUNCE_COMPLETED_EVENT
  | EventStarted => ANNOUNCE_STARTED_EVENT
  | EventStopped => ANNOUNCE_STOPPED_EVENT
  end.

Definition is_ipv6 (s : SourceIP) : bool :=
  match s with ImpliedV6 | ExplicitV6 _ => true | ImpliedV4 | ExplicitV4 _ => false end.
Definition is_ipv4 (s : SourceIP) : bool := negb (is_ipv6 s).

Section Parsers.
Context `{Nom}.

Definition parse_event : Parser AnnounceEvent :=
  parse id := be_i 4 in
  if id =? ANNOUNCE_NONE_EVENT then nom_value EventNone
  else if id =? ANNOUNCE_COMPLETED_EVENT then nom_value EventCompleted
  else if id =? ANNOUNCE_STARTED_EVENT then nom_value EventStarted
  else if id =? ANNOUNCE_STOPPED_EVENT then nom_value EventStopped
  else nom_fail.

Definition parse_state : Parser ClientState :=
  parse downloaded := be_i 8 in
  parse bytes_left := be_i 8 in
  parse uploaded := be_i 8 in
  parse event := parse_event in
  nom_value (ClientState_new downloaded bytes_left uploaded event).

Definition parse_ipv4 : Parser Ipv4Addr := nom_map (nom_count 4 (be_u 1)) bytes_be_to_ipv4.
Definition parse_preference_v4 : Parser SourceIP :=
  nom_alt (nom_map (nom_tag IMPLIED_IPV4_ID) (fun _ => ImpliedV4)) (nom_map parse_ipv4 ExplicitV4).

Definition parse_ipv6 : Parser Ipv6Addr := nom_map (nom_count 16 (be_u 1)) bytes_be_to_ipv6.
Definition parse_preference_v6 : Parser SourceIP :=
  nom_alt (nom_map (nom_tag IMPLIED_IPV6_ID) (fun _ => ImpliedV6)) (nom_map parse_ipv6 ExplicitV6).

Definition parse_desired : Parser DesiredPeers :=
  parse n := be_i 4 in
  if n =? DEFAULT_NUM_WANT then nom_value DesiredDefault else nom_value (DesiredSpecified n).

(** ** Options *)

(** What one round of [parse_options] finds. *)
Inductive option_step : Type := StepEnd | StepNone | StepUser (byte : Z) (contents : list Z).

Definition parse_end_option : Parser option_step :=
  nom_map (nom_alt nom_eof (nom_tag [END_OF_OPTIONS_BYTE])) (fun _ => StepEnd).
Definition parse_no_option : Parser option_step := nom_map (nom_tag [NO_OPERATION_BYTE]) (fun _ => StepNone).
Definition byte_usize : Parser nat := nom_map (be_u 1) Z.to_nat.
Definition parse_user_option : Parser option_step :=
  parse option_byte := be_u 1 in
  parse option_contents := nom_length_bytes byte_usize in
  nom_value (StepUser option_byte option_contents).

(** The entry of the option map: extended when occupied. *)
Definition insert_option (byte : Z) (contents : list Z) (m : gmap Z (list Z)) : gmap Z (list Z) :=
  match m !! byte with
  | Some old => <[byte := old ++ contents]> m
  | None => <[byte := contents]> m
  end.

(** The loop of [parse_options]. *)
Fixpoint parse_options (fuel : nat) (option_map : gmap Z (list Z)) (bytes : list Z) : IResult (gmap Z (list Z)) :=
  match fuel with
  | O => NomPanic
  | S fuel =>
      match nom_alt parse_end_option (nom_alt parse_no_option parse_user_option) bytes with
      | Done rest StepEnd => Done rest option_map
      | Done rest StepNone => parse_options fuel option_map rest
      | Done rest (StepUser b c) => parse_options fuel (insert_option b c option_map) rest
      | NomError => NomError
      | Incomplete => Incomplete
      | NomPanic => NomPanic
      end
  end.

(** Every round that does not end the options consumes a byte. *)
Definition AnnounceOptions_from_bytes : Parser AnnounceOptions := fun bytes =>
  match parse_options (S (length bytes)) ∅ bytes with
  | Done rest m => Done rest (mkOptions m)
  | NomError => NomError
  | Incomplete => Incomplete
  | NomPanic => NomPanic
  end.

(** ** Announcing *)

Definition parse_hash (n : nat) : Parser ShaHash := parse bytes := nom_take n in nom_unwrap (ShaHash_from_hash bytes).

Definition parse_announce_request (ip_type : Parser SourceIP) : Parser AnnounceRequest :=
  parse info_hash := parse_hash INFO_HASH_LEN in
  parse peer_id := parse_hash PEER_ID_LEN in
  parse state := parse_state in
  parse ip := ip_type in
  parse key := be_u 4 in
  parse num_want := parse_desired in
  parse port := be_u 2 in
  parse options := AnnounceOptions_from_bytes in
  nom_value (AnnounceRequest_new info_hash peer_id state ip key num_want port options).

Definition AnnounceRequest_from_bytes_v4 : Parser AnnounceRequest := parse_announce_request parse_preference_v4.
Definition AnnounceRequest_from_bytes_v6 : Parser AnnounceRequest := parse_announce_request parse_preference_v6.

(** [parse_peers_v4], [parse_peers_v6], and the parsers of scrape messages: the whole
    input when its length is a multiple of the entry size. *)
Definition parse_multiple {A} (size : nat) (mk : list Z -> A) : Parser A := fun bytes =>
  if negb (length bytes mod size =? 0)%nat then Incomplete else Done [] (mk bytes).

Definition parse_peers_v4 : Parser CompactPeersV4 := parse_multiple SOCKET_ADDR_V4_BYTES mkPeersV4.
Definition parse_peers_v6 : Parser CompactPeersV6 := parse_multiple SOCKET_ADDR_V6_BYTES mkPeersV6.

Definition iresult_map {A B} (f : A -> B) (r : IResult A) : IResult B :=
  match r with Done i a => Done i (f a) | NomError => NomError | Incomplete => Incomplete | NomPanic => NomPanic end.
Definition CompactPeers_from_bytes_v4 : Parser CompactPeers := fun bytes => iresult_map PeersV4 (parse_peers_v4 bytes).
Definition CompactPeers_from_bytes_v6 : Parser CompactPeers := fun bytes => iresult_map PeersV6 (parse_peers_v6 bytes).

Definition parse_announce_response (peers_type : Parser CompactPeers) : Parser AnnounceResponse :=
  parse interval := be_i 4 in
  parse leechers := be_i 4 in
  parse seeders := be_i 4 in
  parse peers := peers_type in
  nom_value (AnnounceResponse_new interval leechers seeders peers).

Definition AnnounceResponse_from_bytes_v4 : Parser AnnounceResponse := parse_announce_response CompactPeers_from_bytes_v4.
Definition AnnounceResponse_from_bytes_v6 : Parser AnnounceResponse := parse_announce_response CompactPeers_from_bytes_v6.

(** ** Scraping and errors *)

Definition parse_stats : Parser ScrapeStats :=
  parse seeders := be_i 4 in
  parse downloaded := be_i 4 in
  parse leechers := be_i 4 in
  nom_value (ScrapeStats_new seeders downloaded leechers).

Definition ScrapeRequest_from_bytes : Parser ScrapeRequest := parse_multiple INFO_HASH_LEN mkScrapeRequest.
Definition ScrapeResponse_from_bytes : Parser ScrapeResponse := parse_multiple SCRAPE_STATS_BYTES mkScrapeResponse.

Definition ErrorResponse_from_bytes : Parser ErrorResponse := fun bytes =>
  nom_map (nom_take_str (length bytes)) ErrorResponse_new bytes.

(** ** Requests and responses *)

Definition parse_tracker_request : Parser TrackerRequest :=
  parse cid := be_u 8 in
  parse action := be_u 4 in
  parse tid := be_u 4 in
  if (cid =? CONNECT_ID_PROTOCOL_ID) && (action =? CONNECT_ACTION_ID) then
    nom_value (TrackerRequest_new CONNECT_ID_PROTOCOL_ID tid ReqConnect)
  else if action =? ANNOUNCE_IPV4_ACTION_ID then
    nom_map AnnounceRequest_from_bytes_v4 (fun r => TrackerRequest_new cid tid (ReqAnnounce r))
  else if action =? SCRAPE_ACTION_ID then
    nom_map ScrapeRequest_from_bytes (fun r => TrackerRequest_new cid tid (ReqScrape r))
  else if action =? ANNOUNCE_IPV6_ACTION_ID then
    nom_map AnnounceRequest_from_bytes_v6 (fun r => TrackerRequest_new cid tid (ReqAnnounce r))
  else nom_fail.

Definition parse_tracker_response : Parser TrackerResponse :=
  parse action := be_u 4 in
  parse tid := be_u 4 in
  if action =? CONNECT_ACTION_ID then nom_map (be_u 8) (fun cid => TrackerResponse_new tid (ResConnect cid))
  else if action =? ANNOUNCE_IPV4_ACTION_ID then
    nom_map AnnounceResponse_from_bytes_v4 (fun r => TrackerResponse_new tid (ResAnnounce r))
  else if action =? SCRAPE_ACTION_ID then
    nom_map ScrapeResponse_from_bytes (fun r => TrackerResponse_new tid (ResScrape r))
  else if action =? ERROR_ACTION_ID then
    nom_map ErrorResponse_from_bytes (fun r => TrackerResponse_new tid (ResError r))
  else if action =? ANNOUNCE_IPV6_ACTION_ID then
    nom_map AnnounceResponse_from_bytes_v6 (fun r => TrackerResponse_new tid (ResAnnounce r))
  else nom_fail.

(** ** Writers *)

Definition AnnounceEvent_write_bytes (e : AnnounceEvent) : list Z := write_be 4 (AnnounceEvent_as_id e).

Definition ClientState_write_bytes (s : ClientState) : list Z :=
  write_be 8 (bytes_downloaded s) ++ write_be 8 (bytes_left s) ++ write_be 8 (bytes_uploaded s) ++
  AnnounceEvent_write_bytes (event s).

Definition SourceIP_write_bytes (s : SourceIP) : list Z :=
  match s with
  | ImpliedV4 => IMPLIED_IPV4_ID
  | ImpliedV6 => IMPLIED_IPV6_ID
  | ExplicitV4 a => ipv4_to_bytes_be a
  | ExplicitV6 a => ipv6_to_bytes_be a
  end.

Definition DesiredPeers_write_bytes (d : DesiredPeers) : list Z :=
  write_be 4 (match d with DesiredDefault => DEFAULT_NUM_WANT | DesiredSpecified n => n end).

(** One entry: its byte, the length and the content, for every chunk of 255 bytes. *)
Definition option_entry_bytes (entry : Z * list Z) : list Z :=
  let '(byte, content) := entry in
  concat (map (fun chunk => write_be 1 byte ++ write_be 1 (as_u8 (Z.of_nat (length chunk))) ++ chunk) (chunks 255 content)).

Definition AnnounceOptions_write_bytes `{!HashOrder Z (list Z)} (o : AnnounceOptions) : list Z :=
  concat (map option_entry_bytes (hash_entries (raw_options o))) ++ write_be 1 END_OF_OPTIONS_BYTE.

Definition AnnounceRequest_write_bytes `{!HashOrder Z (list Z)} (r : AnnounceRequest) : list Z :=
  sha_bytes (ar_info_hash r) ++ sha_bytes (ar_peer_id r) ++ ClientState_write_bytes (ar_state r) ++
  SourceIP_write_bytes (ar_ip r) ++ write_be 4 (ar_key r) ++ DesiredPeers_write_bytes (ar_num_want r) ++
  write_be 2 (ar_port r) ++ AnnounceOptions_write_bytes (ar_options r).

Definition CompactPeers_write_bytes (p : CompactPeers) : list Z :=
  match p with PeersV4 p => peers_v4 p | PeersV6 p => peers_v6 p end.

Definition AnnounceResponse_write_bytes (r : AnnounceResponse) : list Z :=
  write_be 4 (interval r) ++ write_be 4 (leechers r) ++ write_be 4 (seeders r) ++ CompactPeers_write_bytes (an_peers r).

Definition TrackerRequest_write_bytes `{!HashOrder Z (list Z)} (t : TrackerRequest) : list Z :=
  write_be 8 (connection_id t) ++
  match request_type t with
  | ReqConnect => write_be 4 CONNECT_ACTION_ID ++ write_be 4 (request_transaction_id t)
  | ReqAnnounce req =>
      let action_id := if is_ipv4 (ar_ip req) then ANNOUNCE_IPV4_ACTION_ID else ANNOUNCE_IPV6_ACTION_ID in
      write_be 4 action_id ++ write_be 4 (request_transaction_id t) ++ AnnounceRequest_write_bytes req
  | ReqScrape req => write_be 4 SCRAPE_ACTION_ID ++ write_be 4 (request_transaction_id t) ++ scrape_hashes req
  end.

Definition TrackerResponse_write_bytes (t : TrackerResponse) : list Z :=
  match response_type t with
  | ResConnect id => write_be 4 CONNECT_ACTION_ID ++ write_be 4 (response_transaction_id t) ++ write_be 8 id
  | ResAnnounce req =>
      let action_id := match an_peers req with PeersV4 _ => ANNOUNCE_IPV4_ACTION_ID | PeersV6 _ => ANNOUNCE_IPV6_ACTION_ID end in
      write_be 4 action_id ++ write_be 4 (response_transaction_id t) ++ AnnounceResponse_write_bytes req
  | ResScrape req => write_be 4 SCRAPE_ACTION_ID ++ write_be 4 (response_transaction_id t) ++ scrape_stats req
  | ResError err => write_be 4 ERROR_ACTION_ID ++ write_be 4 (response_transaction_id t) ++ message err
  end.

(** ** Building and iterating *)

Definition CompactPeersV4_insert (peer : SocketAddrV4) (p : CompactPeersV4) : CompactPeersV4 :=
  mkPeersV4 (peers_v4 p ++ sock_v4_to_bytes_be peer).
Definition CompactPeersV6_insert (peer : SocketAddrV6) (p : CompactPeersV6) : CompactPeersV6 :=
  mkPeersV6 (peers_v6 p ++ sock_v6_to_bytes_be peer).

Definition ScrapeRequest_insert (hash : ShaHash) (r : ScrapeRequest) : ScrapeRequest :=
  mkScrapeRequest (scrape_hashes r ++ sha_bytes hash).

Definition ScrapeResponse_insert (stats : ScrapeStats) (r : ScrapeResponse) : ScrapeResponse :=
  mkScrapeResponse (scrape_stats r ++ four_bytes_to_array (as_u32 (num_seeders stats)) ++
    four_bytes_to_array (as_u32 (num_downloads stats)) ++ four_bytes_to_array (as_u32 (num_leechers stats))).

(** [next] of the iterators: the bytes from the offset, and the offset after them. *)
Definition CompactPeersV4Iter_next (peers : list Z) (offset : nat) : option (SocketAddrV4 * nat) :=
  if (offset =? length peers)%nat then None
  else
    let sock_bytes := copy_into (take SOCKET_ADDR_V4_BYTES (drop offset peers)) (replicate SOCKET_ADDR_V4_BYTES 0) in
    Some (bytes_be_to_sock_v4 sock_bytes, offset + SOCKET_ADDR_V4_BYTES)%nat.

Definition CompactPeersV6Iter_next (peers : list Z) (offset : nat) : option (SocketAddrV6 * nat) :=
  if (offset =? length peers)%nat then None
  else
    let sock_bytes := copy_into (take SOCKET_ADDR_V6_BYTES (drop offset peers)) (replicate SOCKET_ADDR_V6_BYTES 0) in
    Some (bytes_be_to_sock_v6 sock_bytes, offset + SOCKET_ADDR_V6_BYTES)%nat.

(** [&b[start..end]]. *)
Definition try_slice {E} (b : list Z) (i j : nat) : res E (list Z) :=
  if (j <=? length b)%nat then Ok (slice b i j) else Panic.

Definition ScrapeRequestIter_next (hashes : list Z) (offset : nat) : res LengthError (option (ShaHash * nat)) :=
  if (offset =? length hashes)%nat then Ok None
  else
    let? bytes := try_slice hashes offset (offset + INFO_HASH_LEN) in
    let? hash := res_unwrap (ShaHash_from_hash bytes) in
    Ok (Some (hash, offset + INFO_HASH_LEN)%nat).

Definition ScrapeResponseIter_next (stats : list Z) (offset : nat) : res LengthError (option (ScrapeStats * nat)) :=
  if (offset =? length stats)%nat then Ok None
  else
    let? bytes := try_slice stats offset (offset + SCRAPE_STATS_BYTES) in
    match parse_stats bytes with
    | Done _ stats => Ok (Some (stats, offset + SCRAPE_STATS_BYTES)%nat)
    | _ => Panic
    end.

(** An iterator run to its end, with as many rounds as there are entries. *)
Fixpoint iter_collect {A} (fuel : nat) (next : nat -> res LengthError (option (A * nat))) (offset : nat) : res LengthError (list A) :=
  match fuel with
  | O => OutOfFuel
  | S fuel =>
      let? o := next offset in
      match o with
      | None => Ok []
      | Some (a, offset) => let? l := iter_collect fuel next offset in Ok (a :: l)
      end
  end.

Definition CompactPeers_iter (p : CompactPeers) : res LengthError (list SocketAddr) :=
  match p with
  | PeersV4 p =>
      let? l := iter_collect (S (length (peers_v4 p))) (fun o => Ok (CompactPeersV4Iter_next (peers_v4 p) o)) 0 in Ok (map V4 l)
  | PeersV6 p =>
      let? l := iter_collect (S (length (peers_v6 p))) (fun o => Ok (CompactPeersV6Iter_next (peers_v6 p) o)) 0 in Ok (map V6 l)
  end.
Definition ScrapeRequest_iter (r : ScrapeRequest) : res LengthError (list ShaHash) :=
  iter_collect (S (length (scrape_hashes r))) (ScrapeRequestIter_next (scrape_hashes r)) 0.
Definition ScrapeResponse_iter (r : ScrapeResponse) : res LengthError (list ScrapeStats) :=
  iter_collect (S (length (scrape_stats r))) (ScrapeResponseIter_next (scrape_stats r)) 0.

End Parsers.

(** [AnnounceOption::insert] and [get] for the URL data option: its bytes under its key. *)
Definition insert_bytes (byte : Z) (contents : list Z) (o : AnnounceOptions) : AnnounceOptions :=
  mkOptions (<[byte := contents]> (raw_options o)).
Definition insert_url_data (url_data : list Z) (o : AnnounceOptions) : AnnounceOptions := insert_bytes URL_DATA_BYTE url_data o.
Definition get_url_data (o : AnnounceOptions) : option (list Z) := raw_options o !! URL_DATA_BYTE.
