(* ===== verification/TrackerMessageSpec.v ===== *)
(** * UDP tracker messages: round trips and totality

    What the writers of [TrackerMessage] produce is read back by its parsers, for any
    iteration order of the option map; the compact lists yield what was inserted; and
    no input makes a parser panic. *)

From stdpp Require Import gmap.
From S2P Require Import Prelude RustStd Words UtilSha UtilConvert Nom TrackerMessage.

(** ** Well-formed messages *)

Abbreviation is_i32 := (in_signed 32).

Definition client_state_ok (s : ClientState) : Prop :=
  is_i64 (bytes_downloaded s) /\ is_i64 (bytes_left s) /\ is_i64 (bytes_uploaded s).

(** The all-zero addresses mean an implied address. *)
Definition source_ip_ok (s : SourceIP) : Prop :=
  match s with
  | ImpliedV4 | ImpliedV6 => True
  | ExplicitV4 a => ipv4_ok a /\ ipv4_to_bytes_be a <> IMPLIED_IPV4_ID
  | ExplicitV6 a => ipv6_ok a /\ ipv6_to_bytes_be a <> IMPLIED_IPV6_ID
  end.

(** The value -1 means the default. *)
Definition desired_ok (d : DesiredPeers) : Prop :=
  match d with DesiredDefault => True | DesiredSpecified n => is_i32 n /\ n <> DEFAULT_NUM_WANT end.

(** Zero and one are not options, and an option without content is not written. *)
Definition options_ok (o : AnnounceOptions) : Prop :=
  map_Forall (fun byte content => is_u8 byte /\ byte <> END_OF_OPTIONS_BYTE /\ byte <> NO_OPERATION_BYTE /\ content <> [])
    (raw_options o).

Definition announce_request_ok (r : AnnounceRequest) : Prop :=
  sha_ok (ar_info_hash r) /\ sha_ok (ar_peer_id r) /\ client_state_ok (ar_state r) /\ source_ip_ok (ar_ip r) /\
  is_u32 (ar_key r) /\ desired_ok (ar_num_want r) /\ is_u16 (ar_port r) /\ options_ok (ar_options r).

Definition multiple_of (size : nat) (l : list Z) : Prop := (length l mod size = 0)%nat.

Definition announce_response_ok (r : AnnounceResponse) : Prop :=
  is_i32 (interval r) /\ is_i32 (leechers r) /\ is_i32 (seeders r) /\
  match an_peers r with
  | PeersV4 p => multiple_of SOCKET_ADDR_V4_BYTES (peers_v4 p)
  | PeersV6 p => multiple_of SOCKET_ADDR_V6_BYTES (peers_v6 p)
  end.

Definition request_ok (t : TrackerRequest) : Prop :=
  is_u64 (connection_id t) /\ is_u32 (request_transaction_id t) /\
  match request_type t with
  | ReqConnect => connection_id t = CONNECT_ID_PROTOCOL_ID
  | ReqAnnounce r => announce_request_ok r
  | ReqScrape r => multiple_of INFO_HASH_LEN (scrape_hashes r)
  end.

Definition response_ok (t : TrackerResponse) : Prop :=
  is_u32 (response_transaction_id t) /\
  match response_type t with
  | ResConnect id => is_u64 id
  | ResAnnounce r => announce_response_ok r
  | ResScrape r => multiple_of SCRAPE_STATS_BYTES (scrape_stats r)
  | ResError e => utf8_valid (message e) = true
  end.

(** Take the next parser of a sequence, whose result the given lemma gives. *)
Ltac parse_step tac := erewrite seq_done; [|solve [tac]]; cbn beta.

(** A constant is within the width. *)
Ltac in_range := split; vm_compute; congruence.

Section RoundTrips.
Context `{NL : NomLaws}.

Lemma unsigned_done n v rest : in_unsigned (8 * Z.of_nat n) v -> be_u n (write_be n v ++ rest) = Done rest v.
Proof. apply be_u_write. Qed.

Lemma parse_event_write e rest : parse_event (AnnounceEvent_write_bytes e ++ rest) = Done rest e.
Proof.
  unfold parse_event, AnnounceEvent_write_bytes.
  parse_step ltac:(apply be_i_write; [lia|destruct e; in_range]).
  destruct e; cbn; apply value_done.
Qed.

Lemma parse_state_write s rest : client_state_ok s -> parse_state (ClientState_write_bytes s ++ rest) = Done rest s.
Proof.
  intros (Hd & Hl & Hu). unfold parse_state, ClientState_write_bytes. rewrite <- !app_assoc.
  parse_step ltac:(apply be_i_write; [lia|done]). parse_step ltac:(apply be_i_write; [lia|done]).
  parse_step ltac:(apply be_i_write; [lia|done]). parse_step ltac:(apply parse_event_write).
  rewrite value_done. by destruct s.
Qed.

(** An address that is not the implied one: the tag does not match, the address does. *)
Lemma explicit_done {A} (implied : list Z) (p : Parser A) (a : A) (d : SourceIP) (mk : A -> SourceIP) bytes rest :
  length bytes = length implied -> bytes <> implied -> p (bytes ++ rest) = Done rest a ->
  nom_alt (nom_map (nom_tag implied) (fun _ => d)) (nom_map p mk) (bytes ++ rest) = Done rest (mk a).
Proof.
  intros Hl Hne Hp. rewrite alt_error; [by apply map_done|].
  apply seq_error. by apply tag_other.
Qed.

Lemma implied_done (implied : list Z) (q : Parser SourceIP) (d : SourceIP) rest :
  nom_alt (nom_map (nom_tag implied) (fun _ => d)) q (implied ++ rest) = Done rest d.
Proof. apply alt_done. apply (map_done _ (fun _ => d) _ _ implied). apply tag_done. Qed.

Lemma parse_ipv4_done a rest : ipv4_ok a -> parse_ipv4 (ipv4_to_bytes_be a ++ rest) = Done rest a.
Proof.
  intros (H1 & H2 & H3 & H4). replace a with (bytes_be_to_ipv4 (ipv4_to_bytes_be a)) at 2 by (by destruct a).
  apply map_done. apply count_done; [done|]. unfold bytes_ok, ipv4_to_bytes_be. repeat rewrite Forall_cons. done.
Qed.

Lemma length_ipv6 a : ipv6_ok a -> length (ipv6_to_bytes_be a) = 16%nat.
Proof. intros [Hl _]. rewrite ipv6_to_bytes_be_be, length_concat_be2 by done. lia. Qed.

Lemma parse_ipv6_done a rest : ipv6_ok a -> parse_ipv6 (ipv6_to_bytes_be a ++ rest) = Done rest a.
Proof.
  intros Ha. rewrite <- (ipv6_from_to a Ha) at 2. apply map_done. apply count_done; [by apply length_ipv6|].
  destruct Ha as [Hl _]. rewrite ipv6_to_bytes_be_be by done. apply concat_be2_ok.
Qed.

Lemma parse_preference_write s rest : source_ip_ok s ->
  (if is_ipv4 s then parse_preference_v4 else parse_preference_v6) (SourceIP_write_bytes s ++ rest) = Done rest s.
Proof.
  intros Hs. destruct s as [|a| |a]; cbn [is_ipv4 is_ipv6 negb SourceIP_write_bytes].
  - apply implied_done.
  - destruct Hs as [Ha Hne]. apply explicit_done; [reflexivity|done|by apply parse_ipv4_done].
  - apply implied_done.
  - destruct Hs as [Ha Hne]. apply explicit_done; [by apply length_ipv6|done|by apply parse_ipv6_done].
Qed.

Lemma parse_desired_write d rest : desired_ok d -> parse_desired (DesiredPeers_write_bytes d ++ rest) = Done rest d.
Proof.
  intros Hd. unfold parse_desired, DesiredPeers_write_bytes.
  parse_step ltac:(apply be_i_write; [lia|destruct d; [in_range|apply Hd]]).
  destruct d as [|n]; [apply value_done|]. destruct Hd as [_ Hn].
  destruct (Z.eqb_spec n DEFAULT_NUM_WANT); [done|apply value_done].
Qed.

(** ** Options *)

Lemma option_end rest fuel m : (0 < fuel)%nat ->
  parse_options fuel m ([END_OF_OPTIONS_BYTE] ++ rest) = Done rest m.
Proof.
  intros Hf. destruct fuel as [|fuel]; [lia|]. cbn [parse_options].
  rewrite (alt_done _ _ _ rest StepEnd); [done|]. apply (map_done _ (fun _ => StepEnd) _ _ [END_OF_OPTIONS_BYTE]).
  rewrite alt_error by apply eof_more. apply tag_done.
Qed.

Lemma write_byte b : is_u8 b -> write_be 1 b = [b].
Proof. intros Hb. rewrite write_be_bytes. cbn [be_bytes app]. f_equal. by apply (wrap_id 8). Qed.

(** An alternative whose tag is another byte. *)
Lemma other_tag t b rest : b <> t -> nom_tag [t] (b :: rest) = NomError.
Proof. intros Hb. apply (tag_other [t] [b]); [done|congruence]. Qed.

Lemma user_option_step b c rest : is_u8 b -> b <> END_OF_OPTIONS_BYTE -> b <> NO_OPERATION_BYTE -> (length c <= 255)%nat ->
  nom_alt parse_end_option (nom_alt parse_no_option parse_user_option)
    ((write_be 1 b ++ write_be 1 (as_u8 (Z.of_nat (length c))) ++ c) ++ rest) = Done rest (StepUser b c).
Proof.
  intros Hb H0 H1 Hc. rewrite <- !app_assoc. rewrite alt_error; [rewrite alt_error|].
  - unfold parse_user_option. parse_step ltac:(apply be_u_write; done).
    parse_step ltac:(unfold nom_length_bytes, byte_usize; erewrite seq_done by (apply map_done, be_u_write, wrap_in_unsigned; lia);
      apply take_done; rewrite wrap_id by (unfold in_unsigned; lia); lia).
    apply value_done.
  - apply seq_error. rewrite write_byte by done. by apply other_tag.
  - apply seq_error. rewrite write_byte by done. rewrite alt_error by apply eof_more. by apply other_tag.
Qed.

(** The bytes of the chunks of one option. *)
Definition chunk_bytes (b : Z) (c : list Z) : list Z := write_be 1 b ++ write_be 1 (as_u8 (Z.of_nat (length c))) ++ c.

(** Reading [bytes] from [m], with enough fuel, gives [r]. *)
Definition options_read (m : gmap Z (list Z)) (bytes : list Z) (r : IResult (gmap Z (list Z))) : Prop :=
  forall fuel, (length bytes < fuel)%nat -> parse_options fuel m bytes = r.

Lemma read_chunk b c m rest r : is_u8 b -> b <> END_OF_OPTIONS_BYTE -> b <> NO_OPERATION_BYTE -> (length c <= 255)%nat ->
  options_read (insert_option b c m) rest r -> options_read m (chunk_bytes b c ++ rest) r.
Proof.
  intros Hb H0 H1 Hc Hr fuel Hf. unfold chunk_bytes in Hf. rewrite !length_app, !length_write in Hf.
  destruct fuel as [|fuel]; [lia|]. cbn [parse_options]. unfold chunk_bytes. rewrite user_option_step by done.
  apply Hr. lia.
Qed.

Lemma read_chunks b cs m old rest r : is_u8 b -> b <> END_OF_OPTIONS_BYTE -> b <> NO_OPERATION_BYTE ->
  Forall (fun c => 1 <= length c <= 255)%nat cs -> m !! b = Some old ->
  options_read (<[b := old ++ concat cs]> m) rest r -> options_read m (concat (map (chunk_bytes b) cs) ++ rest) r.
Proof.
  intros Hb H0 H1 Hcs. revert m old. induction Hcs as [|c cs Hc Hcs IH]; intros m old Hm Hr; cbn [map concat app] in *.
  - by rewrite app_nil_r, insert_id in Hr.
  - rewrite <- app_assoc. apply read_chunk; [done..|lia|]. unfold insert_option. rewrite Hm.
    apply (IH _ (old ++ c)); [apply lookup_insert_eq|]. by rewrite insert_insert_eq, <- app_assoc.
Qed.

Lemma chunks_nonempty size (l : list Z) : (0 < size)%nat -> l <> [] ->
  exists c cs, chunks size l = c :: cs /\ c ++ concat cs = l /\ Forall (fun c => 1 <= length c <= size)%nat (c :: cs).
Proof.
  intros Hs Hl. assert (Hc := chunks_fuel_concat size (length l) l Hs ltac:(lia)).
  assert (Hf := chunks_fuel_sizes size (length l) l Hs). unfold chunks.
  destruct (chunks_fuel (length l) size l) as [|c cs]; [by cbn in Hc|]. by exists c, cs.
Qed.

Lemma read_entry b content m rest r : is_u8 b -> b <> END_OF_OPTIONS_BYTE -> b <> NO_OPERATION_BYTE -> content <> [] ->
  m !! b = None -> options_read (<[b := content]> m) rest r -> options_read m (option_entry_bytes (b, content) ++ rest) r.
Proof.
  intros Hb H0 H1 Hne Hm Hr. destruct (chunks_nonempty 255 content ltac:(lia) Hne) as (c & cs & E & Hcat & Hcs).
  unfold option_entry_bytes. fold (chunk_bytes b). rewrite E. cbn [map concat]. rewrite <- app_assoc.
  inversion Hcs as [|? ? Hc Hcs']; subst. apply read_chunk; [done..|lia|]. unfold insert_option. rewrite Hm.
  apply (read_chunks b cs _ c); [done..|apply lookup_insert_eq|]. by rewrite insert_insert_eq.
Qed.

Lemma read_entries entries m rest :
  Forall (fun e => is_u8 e.1 /\ e.1 <> END_OF_OPTIONS_BYTE /\ e.1 <> NO_OPERATION_BYTE /\ e.2 <> []) entries ->
  NoDup entries.*1 -> (forall b, b ∈ entries.*1 -> m !! b = None) ->
  options_read m (concat (map option_entry_bytes entries) ++ [END_OF_OPTIONS_BYTE] ++ rest) (Done rest (list_to_map entries ∪ m)).
Proof.
  intros He. revert m. induction He as [|[b c] entries (Hb & H0 & H1 & Hc) He IH]; intros m Hnd Hm.
  - intros fuel Hf. rewrite list_to_map_nil, map_empty_union. apply option_end. lia.
  - cbn [map concat fmap list_fmap fst] in *. rewrite <- app_assoc. apply NoDup_cons in Hnd as [Hb' Hnd].
    apply read_entry; [done..|apply Hm; set_solver|].
    rewrite list_to_map_cons, <- insert_union_l, insert_union_r; [apply IH; [done|]|by apply not_elem_of_list_to_map_1].
    intros k Hk. rewrite lookup_insert_ne by (intros ->; done). apply Hm. set_solver.
Qed.

Context `{HO : !HashOrder Z (list Z)}.

Lemma AnnounceOptions_from_write o rest : options_ok o ->
  AnnounceOptions_from_bytes (AnnounceOptions_write_bytes o ++ rest) = Done rest o.
Proof.
  intros Ho. unfold AnnounceOptions_from_bytes, AnnounceOptions_write_bytes. rewrite write_byte by in_range.
  rewrite <- app_assoc. destruct o as [m]. cbn [raw_options] in *. assert (Hp := hash_entries_perm m).
  assert (Hnd : NoDup (hash_entries m).*1) by (rewrite Hp; apply NoDup_fst_map_to_list).
  rewrite (read_entries _ ∅ rest); [|rewrite Hp; apply map_Forall_to_list in Ho; eapply Forall_impl; [exact Ho|by intros []]|done|done|lia].
  rewrite map_union_empty. f_equal. f_equal. rewrite <- (list_to_map_to_list m) at 2. by apply list_to_map_proper.
Qed.


(** ** Whole messages *)

Lemma parse_hash_done n h rest : n = SHA_HASH_LEN -> sha_ok h -> parse_hash n (sha_bytes h ++ rest) = Done rest h.
Proof.
  intros -> [Hl _]. unfold parse_hash. parse_step ltac:(apply take_done; done). unfold nom_unwrap.
  destruct h as [b]. cbn [sha_bytes] in *. by rewrite (proj2 (ShaHash_from_hash_ok b _) (conj Hl eq_refl)).
Qed.

Lemma parse_announce_request_write r rest : announce_request_ok r ->
  (if is_ipv4 (ar_ip r) then AnnounceRequest_from_bytes_v4 else AnnounceRequest_from_bytes_v6)
    (AnnounceRequest_write_bytes r ++ rest) = Done rest r.
Proof.
  intros (Hh & Hp & Hs & Hi & Hk & Hn & Ht & Ho).
  assert (forall p, p = (if is_ipv4 (ar_ip r) then parse_preference_v4 else parse_preference_v6) ->
    parse_announce_request p (AnnounceRequest_write_bytes r ++ rest) = Done rest r) as Hgoal.
  { intros p Hpe. unfold parse_announce_request, AnnounceRequest_write_bytes. rewrite <- !app_assoc.
    parse_step ltac:(by apply parse_hash_done). parse_step ltac:(by apply parse_hash_done).
    parse_step ltac:(by apply parse_state_write). parse_step ltac:(subst p; by apply parse_preference_write).
    parse_step ltac:(by apply be_u_write). parse_step ltac:(by apply parse_desired_write).
    parse_step ltac:(by apply be_u_write). parse_step ltac:(by apply AnnounceOptions_from_write).
    rewrite value_done. by destruct r. }
  destruct (is_ipv4 (ar_ip r)); by apply Hgoal.
Qed.

Lemma parse_multiple_done {A} size (mk : list Z -> A) l : multiple_of size l -> parse_multiple size mk l = Done [] (mk l).
Proof. unfold multiple_of, parse_multiple. by intros ->. Qed.

Lemma parse_peers_write r :
  announce_response_ok r ->
  match an_peers r with PeersV4 _ => AnnounceResponse_from_bytes_v4 | PeersV6 _ => AnnounceResponse_from_bytes_v6 end
    (AnnounceResponse_write_bytes r) = Done [] r.
Proof.
  intros (Hi & Hl & Hs & Hp). destruct r as [i l s [[p]|[p]]];
    cbn [an_peers peers_v4 peers_v6 interval leechers seeders] in *;
    unfold AnnounceResponse_from_bytes_v4, AnnounceResponse_from_bytes_v6, parse_announce_response, AnnounceResponse_write_bytes;
    parse_step ltac:(apply be_i_write; [lia|done]); parse_step ltac:(apply be_i_write; [lia|done]);
    parse_step ltac:(apply be_i_write; [lia|done]);
    unfold CompactPeers_from_bytes_v4, CompactPeers_from_bytes_v6, parse_peers_v4, parse_peers_v6, CompactPeers_write_bytes;
    (parse_step ltac:(rewrite parse_multiple_done by done; cbn [iresult_map]; reflexivity)); apply value_done.
Qed.

Lemma parse_request_write t : request_ok t ->
  parse_tracker_request (TrackerRequest_write_bytes t) = Done [] t.
Proof.
  intros (Hc & Ht & Hr). destruct t as [cid tid [|r|[h]]];
    cbn [connection_id request_transaction_id request_type scrape_hashes] in *;
    unfold parse_tracker_request, TrackerRequest_write_bytes; cbn [connection_id request_transaction_id request_type scrape_hashes];
    parse_step ltac:(by apply be_u_write).
  - parse_step ltac:(apply be_u_write; in_range). rewrite <- (app_nil_r (write_be 4 tid)).
    parse_step ltac:(by apply be_u_write). subst cid. cbn. apply value_done.
  - parse_step ltac:(apply be_u_write; destruct (is_ipv4 (ar_ip r)); in_range). parse_step ltac:(by apply be_u_write).
    rewrite <- (app_nil_r (AnnounceRequest_write_bytes r)). assert (Hp := parse_announce_request_write r [] Hr).
    destruct (is_ipv4 (ar_ip r)); cbn; rewrite andb_false_r; by apply (map_done _ (fun r => TrackerRequest_new cid tid (ReqAnnounce r))).
  - parse_step ltac:(apply be_u_write; in_range). parse_step ltac:(by apply be_u_write). cbn. rewrite andb_false_r.
    apply (map_done _ (fun r => TrackerRequest_new cid tid (ReqScrape r))). by apply parse_multiple_done.
Qed.

Lemma parse_response_write t : response_ok t ->
  parse_tracker_response (TrackerResponse_write_bytes t) = Done [] t.
Proof.
  intros (Ht & Hr). destruct t as [tid [id|r|[h]|[e]]];
    cbn [response_transaction_id response_type scrape_stats message] in *;
    unfold parse_tracker_response, TrackerResponse_write_bytes; cbn [response_transaction_id response_type scrape_stats message].
  - parse_step ltac:(apply be_u_write; in_range). parse_step ltac:(by apply be_u_write). cbn.
    rewrite <- (app_nil_r (write_be 8 id)). apply (map_done _ (fun cid => TrackerResponse_new tid (ResConnect cid))). by apply be_u_write.
  - parse_step ltac:(apply be_u_write; destruct (an_peers r); in_range). parse_step ltac:(by apply be_u_write).
    assert (Hp := parse_peers_write r Hr).
    destruct (an_peers r); cbn; by apply (map_done _ (fun r => TrackerResponse_new tid (ResAnnounce r))).
  - parse_step ltac:(apply be_u_write; in_range). parse_step ltac:(by apply be_u_write). cbn.
    apply (map_done _ (fun r => TrackerResponse_new tid (ResScrape r))). by apply parse_multiple_done.
  - parse_step ltac:(apply be_u_write; in_range). parse_step ltac:(by apply be_u_write). cbn.
    apply (map_done _ (fun r => TrackerResponse_new tid (ResError r))). apply (map_done _ ErrorResponse_new).
    rewrite <- (app_nil_r e) at 2. by apply take_str_done.
Qed.

End RoundTrips.

(** * UDP tracker messages: lists, totality and the properties

    The compact lists of [TrackerMessage] yield what was inserted, and the parsers do
    not panic on any input and read well-formed messages. *)

(** ** Iterators over lists of fixed-size entries *)

Section Iterators.
Context {A B : Type} (enc : B -> list Z) (dec : B -> A) (size : nat).
Variable next : list Z -> nat -> res LengthError (option (A * nat)).
Hypothesis next_end : forall l, next l (length l) = Ok None.

Lemma iter_collect_concat items pre fuel : (length items < fuel)%nat ->
  Forall (fun x => forall pre post, next (pre ++ enc x ++ post) (length pre) = Ok (Some (dec x, length pre + size)%nat) /\
    length (enc x) = size) items ->
  iter_collect fuel (next (pre ++ concat (map enc items))) (length pre) = Ok (map dec items).
Proof.
  intros Hf Hn. revert pre fuel Hf. induction Hn as [|x items Hx Hn IH]; intros pre fuel Hf;
    (destruct fuel as [|fuel]; [simpl in Hf; lia|]); cbn [iter_collect map concat length] in *.
  - by rewrite app_nil_r, next_end.
  - destruct (Hx pre (concat (map enc items))) as [-> Hl]. cbn [res_bind].
    rewrite app_assoc, <- Hl, <- length_app, IH by lia. done.
Qed.

Lemma iter_collect_all items : (0 < size)%nat ->
  Forall (fun x => forall pre post, next (pre ++ enc x ++ post) (length pre) = Ok (Some (dec x, length pre + size)%nat) /\
    length (enc x) = size) items ->
  iter_collect (S (length (concat (map enc items)))) (next (concat (map enc items))) 0 = Ok (map dec items).
Proof.
  intros Hs Hn. apply (iter_collect_concat items []); [|done]. apply Nat.lt_succ_r.
  induction Hn as [|x items Hx Hn IH]; [done|]. cbn [map concat length]. rewrite length_app. destruct (Hx [] []) as [_ ->]. lia.
Qed.

End Iterators.

(** Inserting is appending the bytes of the entry. *)
Lemma foldl_concat {A S} (proj : S -> list Z) (ins : S -> A -> S) (enc : A -> list Z) l s :
  (forall s x, proj (ins s x) = proj s ++ enc x) -> proj (foldl ins s l) = proj s ++ concat (map enc l).
Proof.
  intros Hi. revert s. induction l as [|x l IH]; intros s; cbn [foldl map concat]; [by rewrite app_nil_r|].
  by rewrite IH, Hi, <- app_assoc.
Qed.

Lemma entry_slice (pre e post : list Z) size : length e = size -> take size (drop (length pre) (pre ++ e ++ post)) = e.
Proof. intros <-. by rewrite drop_app_length, take_app_length. Qed.

Lemma not_at_end (pre e post : list Z) size : length e = size -> (0 < size)%nat ->
  (length pre =? length (pre ++ e ++ post))%nat = false.
Proof. intros Hl Hs. apply Nat.eqb_neq. rewrite !length_app. lia. Qed.

Lemma try_slice_entry {E} (pre e post : list Z) size : length e = size ->
  try_slice (E := E) (pre ++ e ++ post) (length pre) (length pre + size) = Ok e.
Proof.
  intros <-. unfold try_slice. rewrite !length_app. destruct (Nat.leb_spec (length pre + length e) (length pre + (length e + length post))); [|lia].
  f_equal. unfold slice. rewrite drop_app_length. apply take_app_length'. lia.
Qed.

Lemma length_sock_v4_be a : length (sock_v4_to_bytes_be a) = 6%nat.
Proof. rewrite sock_v4_to_bytes_be_app, length_app, length_be_bytes. done. Qed.

Lemma length_sock_v6 a : sock_v6_ok a -> length (sock_v6_to_bytes_be a) = 18%nat.
Proof. intros [[Hl _] _]. rewrite sock_v6_to_bytes_be_app, length_app, length_concat_be2, length_be_bytes, Hl; done. Qed.

Lemma peers_v4_next a pre post : sock_v4_ok a ->
  CompactPeersV4Iter_next (pre ++ sock_v4_to_bytes_be a ++ post) (length pre) = Some (a, length pre + 6)%nat.
Proof.
  intros Ha. unfold CompactPeersV4Iter_next. rewrite (not_at_end _ _ _ 6) by (apply length_sock_v4_be || lia).
  unfold SOCKET_ADDR_V4_BYTES. rewrite entry_slice, copy_into_full by apply length_sock_v4_be. by rewrite sock_v4_from_to.
Qed.

Lemma peers_v6_next a pre post : sock_v6_ok a ->
  CompactPeersV6Iter_next (pre ++ sock_v6_to_bytes_be a ++ post) (length pre) = Some (strip_v6 a, length pre + 18)%nat.
Proof.
  intros Ha. unfold CompactPeersV6Iter_next. rewrite (not_at_end _ _ _ 18) by (by apply length_sock_v6 || lia).
  unfold SOCKET_ADDR_V6_BYTES. rewrite entry_slice, copy_into_full by (by apply length_sock_v6). by rewrite sock_v6_from_to.
Qed.

Definition stats_ok (s : ScrapeStats) : Prop := is_i32 (num_seeders s) /\ is_i32 (num_downloads s) /\ is_i32 (num_leechers s).
Definition stats_bytes (s : ScrapeStats) : list Z :=
  four_bytes_to_array (as_u32 (num_seeders s)) ++ four_bytes_to_array (as_u32 (num_downloads s)) ++
  four_bytes_to_array (as_u32 (num_leechers s)).

Section Parsing.
Context `{NL : NomLaws}.

Lemma be_i_four v rest : is_i32 v -> be_i 4 (four_bytes_to_array (as_u32 v) ++ rest) = Done rest v.
Proof.
  intros Hv. rewrite four_bytes_to_array_be, be_i_done by (apply length_be_bytes || apply be_bytes_ok).
  rewrite be_int_be_bytes_id by (apply wrap_in_unsigned; lia). by rewrite (swrap_wrap 32) by (done || lia).
Qed.

Lemma stats_next s pre post : stats_ok s ->
  ScrapeResponseIter_next (pre ++ stats_bytes s ++ post) (length pre) = Ok (Some (s, length pre + 12)%nat).
Proof.
  intros (H1 & H2 & H3). unfold ScrapeResponseIter_next. rewrite (not_at_end _ _ _ 12) by (done || lia).
  unfold SCRAPE_STATS_BYTES. rewrite try_slice_entry by done. cbn [res_bind]. unfold parse_stats, stats_bytes.
  parse_step ltac:(by apply be_i_four). parse_step ltac:(by apply be_i_four).
  rewrite <- (app_nil_r (four_bytes_to_array (as_u32 (num_leechers s)))). parse_step ltac:(by apply be_i_four).
  rewrite value_done. by destruct s.
Qed.

Lemma hash_next h pre post : sha_ok h ->
  ScrapeRequestIter_next (pre ++ sha_bytes h ++ post) (length pre) = Ok (Some (h, length pre + 20)%nat).
Proof.
  intros [Hl _]. unfold ScrapeRequestIter_next. rewrite (not_at_end _ _ _ 20) by (done || lia).
  unfold INFO_HASH_LEN. rewrite try_slice_entry by done. cbn [res_bind]. destruct h as [b]. cbn [sha_bytes] in *.
  rewrite (proj2 (ShaHash_from_hash_ok b _) (conj Hl eq_refl)). done.
Qed.

(** A list whose length is a multiple of the size consists of entries of that size. *)
Lemma multiple_entries size (l : list Z) : (0 < size)%nat -> multiple_of size l ->
  exists items, l = concat items /\ Forall (fun e => length e = size) items.
Proof.
  intros Hs Hm. assert (exists n, length l = n * size)%nat as [n Hn] by (exists (length l / size)%nat; pose proof (Nat.div_mod_eq (length l) size); unfold multiple_of in Hm; nia).
  clear Hm. revert l Hn. induction n as [|n IH]; intros l Hn; [destruct l; [by exists []|done]|].
  destruct (IH (drop size l)) as (items & E & Hi); [rewrite length_drop; lia|].
  exists (take size l :: items). cbn [concat]. rewrite <- E, take_drop. split; [done|]. constructor; [rewrite length_take; lia|done].
Qed.

Lemma iter_multiple {A} size (next : list Z -> nat -> res LengthError (option (A * nat))) (dec : list Z -> A) l :
  (0 < size)%nat -> (forall l, next l (length l) = Ok None) ->
  (forall e pre post, length e = size -> next (pre ++ e ++ post) (length pre) = Ok (Some (dec e, length pre + size)%nat)) ->
  multiple_of size l -> exists r, iter_collect (S (length l)) (next l) 0 = Ok r.
Proof.
  intros Hs He Hn Hm. destruct (multiple_entries size l Hs Hm) as (items & -> & Hi). exists (map dec items).
  rewrite <- (map_id items) at 1 2. apply (iter_collect_all (fun e => e) dec size); [done..|].
  eapply Forall_impl; [exact Hi|]. intros e Hl pre post. split; [by apply Hn|done].
Qed.

Lemma peers_iterate p : match p with
    PeersV4 p => multiple_of SOCKET_ADDR_V4_BYTES (peers_v4 p) | PeersV6 p => multiple_of SOCKET_ADDR_V6_BYTES (peers_v6 p) end ->
  exists peers, CompactPeers_iter p = Ok peers.
Proof.
  destruct p as [[l]|[l]]; cbn [peers_v4 peers_v6]; intros Hm; unfold CompactPeers_iter; cbn [peers_v4 peers_v6].
  - destruct (iter_multiple 6 (fun l o => Ok (CompactPeersV4Iter_next l o)) bytes_be_to_sock_v4 l) as [r ->]; [lia|..|done|by eexists].
    + intros k. unfold CompactPeersV4Iter_next. by rewrite Nat.eqb_refl.
    + intros e pre post Hl. unfold CompactPeersV4Iter_next. rewrite (not_at_end _ _ _ 6) by (done || lia).
      unfold SOCKET_ADDR_V4_BYTES. by rewrite entry_slice, copy_into_full.
  - destruct (iter_multiple 18 (fun l o => Ok (CompactPeersV6Iter_next l o)) bytes_be_to_sock_v6 l) as [r ->]; [lia|..|done|by eexists].
    + intros k. unfold CompactPeersV6Iter_next. by rewrite Nat.eqb_refl.
    + intros e pre post Hl. unfold CompactPeersV6Iter_next. rewrite (not_at_end _ _ _ 18) by (done || lia).
      unfold SOCKET_ADDR_V6_BYTES. by rewrite entry_slice, copy_into_full.
Qed.

(** ** No parser panics *)

Lemma parses_weaken {A} k (p : Parser A) (Q : A -> Prop) : parses k p Q -> parses (fun _ => 0%nat) p Q.
Proof. intros Hp. eapply parses_impl; [exact Hp|]. intros a Ha. split; [lia|done]. Qed.

Lemma unsigned_parses n : parses (fun _ => 0%nat) (be_u n) (in_unsigned (8 * Z.of_nat n)).
Proof. eapply parses_weaken, parses_be_u. Qed.

Lemma signed_parses n : (0 < n)%nat -> parses (fun _ => 0%nat) (be_i n) (in_signed (8 * Z.of_nat n)).
Proof. intros Hn. by eapply parses_weaken, parses_be_i. Qed.

Lemma hash_parses : parses (fun _ => 0%nat) (parse_hash SHA_HASH_LEN) sha_ok.
Proof.
  eapply parses_seq; [eapply parses_weaken, parses_take|]. intros bs [Hl Hb].
  apply (parses_unwrap _ (mkShaHash bs)); [by apply ShaHash_from_hash_ok|done].
Qed.

Lemma event_parses : parses (fun _ => 0%nat) parse_event (fun _ => True).
Proof.
  eapply parses_seq; [apply signed_parses; lia|]. intros v _.
  repeat (case_match; [by apply parses_value|]). apply parses_fail.
Qed.

Lemma state_parses : parses (fun _ => 0%nat) parse_state client_state_ok.
Proof.
  do 3 (eapply parses_seq; [apply signed_parses; lia|]; intros ? ?). eapply parses_seq; [apply event_parses|].
  intros ? _. by apply parses_value.
Qed.

Lemma preference_parses (implied : list Z) {A} (p : Parser A) (mk : A -> SourceIP) (d : SourceIP) :
  parses (fun _ => 0%nat) p (fun _ => True) ->
  parses (fun _ => 0%nat) (nom_alt (nom_map (nom_tag implied) (fun _ => d)) (nom_map p mk)) (fun _ => True).
Proof.
  intros Hp. apply parses_alt; apply parses_map; [|done]. eapply parses_impl; [apply parses_tag|]. intros ? _. split; [lia|done].
Qed.

Lemma ip_parses n {A} (f : list Z -> A) : parses (fun _ => 0%nat) (nom_map (nom_count n (be_u 1)) f) (fun _ => True).
Proof. apply parses_map. eapply parses_impl; [apply parses_count, unsigned_parses|]. by intros. Qed.

Lemma desired_parses : parses (fun _ => 0%nat) parse_desired desired_ok.
Proof.
  eapply parses_seq; [apply signed_parses; lia|]. intros n Hn.
  destruct (Z.eqb_spec n DEFAULT_NUM_WANT); by apply parses_value.
Qed.

(** One round of the options: only the end takes no byte. *)
Definition step_size (s : option_step) : nat := match s with StepEnd => 0 | _ => 1 end.

Lemma option_step_parses : parses step_size (nom_alt parse_end_option (nom_alt parse_no_option parse_user_option)) (fun _ => True).
Proof.
  apply parses_alt; [|apply parses_alt].
  - apply parses_map. apply parses_alt; [apply parses_eof|].
    eapply parses_impl; [apply parses_tag|]. intros ? _. cbn. split; [lia|done].
  - apply parses_map. eapply parses_impl; [apply parses_tag|]. intros ? _. by cbn.
  - eapply parses_seq; [apply parses_be_u|]. intros b _. eapply parses_seq with (Q1 := fun _ => True) (k1 := fun _ => 0%nat).
    + apply (parses_seq _ (fun _ => 0%nat) _ _ (fun _ => True)).
      { apply parses_map. eapply parses_impl; [apply parses_be_u|]. intros ? _. split; [lia|done]. }
      intros n _. eapply parses_impl; [apply parses_take|]. intros; split; [lia|done].
    + intros c _. by apply parses_value.
Qed.

Lemma options_loop_parses fuel m : forall i, bytes_ok i -> (length i < fuel)%nat ->
  match parse_options fuel m i with
  | Done rest _ => bytes_ok rest /\ (length rest <= length i)%nat
  | NomPanic => False
  | _ => True
  end.
Proof.
  revert m. induction fuel as [|fuel IH]; intros m i Hi Hf; [lia|]. cbn [parse_options].
  assert (Hs := option_step_parses i Hi). destruct (nom_alt _ _ i) as [rest []| | |]; try done; cbn [step_size] in Hs.
  - destruct Hs as (? & ? & _). split; [done|lia].
  - destruct Hs as (Hr & Hl & _). specialize (IH m rest Hr ltac:(lia)). destruct (parse_options _ _ _); try done.
    destruct IH. split; [done|lia].
  - destruct Hs as (Hr & Hl & _). specialize (IH (insert_option byte contents m) rest Hr ltac:(lia)).
    destruct (parse_options _ _ _); try done. destruct IH. split; [done|lia].
Qed.

Lemma options_parses : parses (fun _ => 0%nat) AnnounceOptions_from_bytes (fun _ => True).
Proof.
  intros i Hi. unfold AnnounceOptions_from_bytes. assert (Hl := options_loop_parses (S (length i)) ∅ i Hi ltac:(lia)).
  destruct (parse_options _ _ _); try done. destruct Hl. split; [done|]. split; [lia|done].
Qed.

Lemma announce_request_parses p : parses (fun _ => 0%nat) p (fun _ => True) ->
  parses (fun _ => 0%nat) (parse_announce_request p) (fun _ => True).
Proof.
  intros Hp. do 2 (eapply parses_seq; [apply hash_parses|]; intros ? ?). eapply parses_seq; [apply state_parses|]. intros ? ?.
  eapply parses_seq; [apply Hp|]. intros ? ?. eapply parses_seq; [apply unsigned_parses|]. intros ? ?.
  eapply parses_seq; [apply desired_parses|]. intros ? ?. eapply parses_seq; [apply unsigned_parses|]. intros ? ?.
  eapply parses_seq; [apply options_parses|]. intros ? ?. by apply parses_value.
Qed.

Lemma multiple_parses {A} size (mk : list Z -> A) (Q : A -> Prop) : (forall l, bytes_ok l -> multiple_of size l -> Q (mk l)) ->
  parses (fun _ => 0%nat) (parse_multiple size mk) Q.
Proof.
  intros Hq i Hi. unfold parse_multiple. destruct (Nat.eqb_spec (length i mod size) 0); [|done]. cbn [negb].
  split; [constructor|]. split; [simpl; lia|by apply Hq].
Qed.

Lemma request_parses : parses (fun _ => 0%nat) parse_tracker_request (fun _ => True).
Proof.
  do 3 (eapply parses_seq; [apply unsigned_parses|]; intros ? ?).
  repeat case_match; try by apply parses_value.
  - apply parses_map, announce_request_parses, preference_parses, ip_parses.
  - by apply parses_map, multiple_parses.
  - apply parses_map, announce_request_parses, preference_parses, ip_parses.
  - apply parses_fail.
Qed.

Definition peers_ok (p : CompactPeers) : Prop :=
  match p with
  | PeersV4 p => multiple_of SOCKET_ADDR_V4_BYTES (peers_v4 p)
  | PeersV6 p => multiple_of SOCKET_ADDR_V6_BYTES (peers_v6 p)
  end.

Lemma peers_parses {A} size (mk : list Z -> A) (c : A -> CompactPeers) :
  (forall l, multiple_of size l -> peers_ok (c (mk l))) ->
  parses (fun _ => 0%nat) (fun i => iresult_map c (parse_multiple size mk i)) peers_ok.
Proof.
  intros Hc i Hi. unfold parse_multiple. destruct (Nat.eqb_spec (length i mod size) 0); [|done]. cbn [negb iresult_map].
  split; [constructor|]. split; [simpl; lia|by apply Hc].
Qed.

Lemma announce_response_parses p : parses (fun _ => 0%nat) p peers_ok ->
  parses (fun _ => 0%nat) (parse_announce_response p) announce_response_ok.
Proof.
  intros Hp. do 3 (eapply parses_seq; [apply signed_parses; lia|]; intros ? ?). eapply parses_seq; [exact Hp|].
  intros ? ?. by apply parses_value.
Qed.

Lemma response_parses : parses (fun _ => 0%nat) parse_tracker_response response_ok.
Proof.
  eapply parses_seq; [apply unsigned_parses|]; intros act _. eapply parses_seq; [apply unsigned_parses|]; intros tid Ht.
  repeat case_match.
  - apply parses_map. eapply parses_impl; [apply unsigned_parses|]. intros a Ha. split; [lia|by split].
  - apply parses_map. eapply parses_impl; [by apply announce_response_parses, peers_parses|].
    intros a Ha. split; [lia|by split].
  - apply parses_map, multiple_parses. by split.
  - apply parses_map. intros i Hi. unfold ErrorResponse_from_bytes. revert i Hi. intros i Hi.
    apply (parses_map (fun _ => 0%nat) (nom_take_str (length i)) ErrorResponse_new); [|done].
    eapply parses_impl; [apply parses_take_str|]. intros a [_ Ha]. split; [lia|by split].
  - apply parses_map. eapply parses_impl; [by apply announce_response_parses, peers_parses|].
    intros a Ha. split; [lia|by split].
  - apply parses_fail.
Qed.

End Parsing.

(** ** Properties *)

(** An order of a map: the one of its trie. *)
#[export] Instance trie_order {K A} `{Countable K} : HashOrder K A := {| hash_entries m := map_to_list m; hash_entries_perm m := reflexivity _ |}.

Definition sample_announce : TrackerRequest :=
  TrackerRequest_new 77 5 (ReqAnnounce (AnnounceRequest_new (mkShaHash (replicate 20 1)) (mkShaHash (replicate 20 2))
    (ClientState_new 10 (-1) 30 EventStarted) (ExplicitV4 (Ipv4Addr_new 10 0 0 7)) 99 (DesiredSpecified 50) 6881
    (mkOptions {[ 2 := replicate 300 65 ]}))).
Definition sample_scraped : TrackerResponse := TrackerResponse_new 5 (ResScrape (mkScrapeResponse (replicate 24 3))).

(** C25: every well-formed request and response is read back from the bytes its writer
    produces, whatever order the options are written in: connect, announce over IPv4
    and IPv6, scrape and error messages, an option longer than 255 bytes included,
    which is written in several pieces and joined by the parser. *)
Theorem tracker_messages_roundtrip `(NL : NomLaws) (HO : HashOrder Z (list Z)) (t : TrackerRequest) (r : TrackerResponse) :
  request_ok t -> response_ok r ->
  parse_tracker_request (TrackerRequest_write_bytes t) = Done [] t /\
  parse_tracker_response (TrackerResponse_write_bytes r) = Done [] r.
Proof. intros Ht Hr. split; [by apply parse_request_write|by apply parse_response_write]. Qed.

Lemma tracker_messages_roundtrip_witness :
  parse_tracker_request (H := nom_reference) (TrackerRequest_write_bytes (H := nom_reference) sample_announce) = Done [] sample_announce /\
  parse_tracker_response (H := nom_reference) (TrackerResponse_write_bytes (H := nom_reference) sample_scraped) = Done [] sample_scraped.
Proof.
  apply (tracker_messages_roundtrip nom_reference_lawful trie_order).
  - repeat split; try (vm_compute; congruence); try (apply (bool_decide_unpack _); vm_compute; exact I);
      cbn [ar_options raw_options] in H; apply lookup_singleton_Some in H as [<- <-]; vm_compute; congruence.
  - repeat split; vm_compute; congruence.
Defined.

(** The compact lists of peers, info hashes and scrape statistics, built by inserting
    one entry after the other, are iterated to exactly those entries in that order
    (IPv6 addresses without their flow label and scope). *)
Lemma tracker_lists_roundtrip `(NL : NomLaws) (v4 : list SocketAddrV4) (v6 : list SocketAddrV6)
    (hashes : list ShaHash) (stats : list ScrapeStats) :
  Forall sock_v4_ok v4 -> Forall sock_v6_ok v6 -> Forall sha_ok hashes -> Forall stats_ok stats ->
  CompactPeers_iter (PeersV4 (foldl (fun p a => CompactPeersV4_insert a p) (mkPeersV4 []) v4)) = Ok (map V4 v4) /\
  CompactPeers_iter (PeersV6 (foldl (fun p a => CompactPeersV6_insert a p) (mkPeersV6 []) v6)) = Ok (map (fun a => V6 (strip_v6 a)) v6) /\
  ScrapeRequest_iter (foldl (fun r h => ScrapeRequest_insert h r) (mkScrapeRequest []) hashes) = Ok hashes /\
  ScrapeResponse_iter (foldl (fun r s => ScrapeResponse_insert s r) (mkScrapeResponse []) stats) = Ok stats.
Proof.
  intros H4 H6 Hh Hs. unfold CompactPeers_iter, ScrapeRequest_iter, ScrapeResponse_iter.
  rewrite (foldl_concat peers_v4 _ sock_v4_to_bytes_be), (foldl_concat peers_v6 _ sock_v6_to_bytes_be),
    (foldl_concat scrape_hashes _ sha_bytes), (foldl_concat scrape_stats _ stats_bytes) by done.
  cbn [peers_v4 peers_v6 scrape_hashes scrape_stats app]. split; [|split; [|split]].
  - rewrite (iter_collect_all sock_v4_to_bytes_be (fun a => a) 6 (fun l o => Ok (CompactPeersV4Iter_next l o))); [by rewrite map_id| |lia|].
    + intros l. unfold CompactPeersV4Iter_next. by rewrite Nat.eqb_refl.
    + eapply Forall_impl; [exact H4|]. intros a Ha pre post. rewrite peers_v4_next by done. by rewrite length_sock_v4_be.
  - rewrite (iter_collect_all sock_v6_to_bytes_be strip_v6 18 (fun l o => Ok (CompactPeersV6Iter_next l o))); [cbn [res_bind]; by rewrite map_map| |lia|].
    + intros l. unfold CompactPeersV6Iter_next. by rewrite Nat.eqb_refl.
    + eapply Forall_impl; [exact H6|]. intros a Ha pre post. rewrite peers_v6_next by done. by rewrite length_sock_v6.
  - rewrite (iter_collect_all sha_bytes (fun a => a) 20 ScrapeRequestIter_next); [by rewrite map_id| |lia|].
    + intros l. unfold ScrapeRequestIter_next. by rewrite Nat.eqb_refl.
    + eapply Forall_impl; [exact Hh|]. intros a Ha pre post. rewrite hash_next by done. by destruct Ha as [-> _].
  - rewrite (iter_collect_all stats_bytes (fun a => a) 12 ScrapeResponseIter_next); [by rewrite map_id| |lia|].
    + intros l. unfold ScrapeResponseIter_next. by rewrite Nat.eqb_refl.
    + eapply Forall_impl; [exact Hs|]. intros a Ha pre post. by rewrite stats_next.
Qed.

Lemma tracker_lists_roundtrip_witness :
  let a := SocketAddrV4_new (Ipv4Addr_new 127 0 0 1) 6881 in
  let s := ScrapeStats_new 5 (-1) 7 in
  CompactPeers_iter (PeersV4 (foldl (fun p a => CompactPeersV4_insert a p) (mkPeersV4 []) [a])) = Ok [V4 a] /\
  CompactPeers_iter (PeersV6 (mkPeersV6 [])) = Ok [] /\
  ScrapeRequest_iter (mkScrapeRequest []) = Ok [] /\
  ScrapeResponse_iter (H := nom_reference) (foldl (fun r s => ScrapeResponse_insert s r) (mkScrapeResponse []) [s]) = Ok [s].
Proof.
  intros a s. apply (tracker_lists_roundtrip nom_reference_lawful [a] [] [] [s]); repeat constructor; vm_compute; congruence.
Defined.

(** No datagram makes the tracker parsers panic. What a response is parsed to is
    well formed, so the peers of an announce response are iterated to the end, and the
    response is the same when it is written and parsed again. *)
Lemma tracker_parsing_never_panics `(NL : NomLaws) (bytes : list Z) : bytes_ok bytes ->
  parse_tracker_request bytes <> NomPanic /\ parse_tracker_response bytes <> NomPanic /\
  forall rest t, parse_tracker_response bytes = Done rest t ->
    response_ok t /\ parse_tracker_response (TrackerResponse_write_bytes t) = Done [] t /\
    forall a, response_type t = ResAnnounce a -> exists peers, CompactPeers_iter (an_peers a) = Ok peers.
Proof.
  intros Hb. assert (Hq := request_parses bytes Hb). assert (Hr := response_parses bytes Hb).
  split; [by intros E; rewrite E in Hq|]. split; [by intros E; rewrite E in Hr|].
  intros rest t E. rewrite E in Hr. destruct Hr as (_ & _ & Ht). split; [done|]. split; [by apply parse_response_write|].
  intros a Ha. destruct Ht as [_ Ht]. rewrite Ha in Ht. by apply peers_iterate, Ht.
Qed.

Lemma tracker_parsing_never_panics_witness :
  let bytes := [0; 0; 0; 1; 0; 0; 0; 9; 0; 0; 7; 8; 0; 0; 0; 1; 0; 0; 0; 2; 10; 0; 0; 7; 26; 225] in
  parse_tracker_request (H := nom_reference) bytes <> NomPanic /\ parse_tracker_response (H := nom_reference) bytes <> NomPanic /\
  forall rest t, parse_tracker_response (H := nom_reference) bytes = Done rest t ->
    response_ok t /\ parse_tracker_response (H := nom_reference) (TrackerResponse_write_bytes (H := nom_reference) t) = Done [] t /\
    forall a, response_type t = ResAnnounce a -> exists peers, CompactPeers_iter (an_peers a) = Ok peers.
Proof. apply (tracker_parsing_never_panics nom_reference_lawful). apply (bool_decide_unpack _); vm_compute; exact I. Defined.
