(* ===== verification/TrackerClient.v ===== *)
(** * The UDP tracker client and server

    Model of [utracker/client/mod.rs], [client/error.rs], [client/dispatcher.rs] and
    [utracker/server/dispatcher.rs]. The event loop, its timers and its socket are the
    [umio] crate and the handshaker and server handler are supplied by the user of the
    library: what the dispatchers ask of them is the list [effects], in order, and what
    they answer is an argument ([Tick] for the clock, the random key and the timer ids,
    the class [ServerHandler]). The counter of the [RequestLimiter] is shared between
    the client and its dispatcher and is kept once, in the dispatcher. *)

From stdpp Require Import gmap.
From S2P Require Import Prelude RustStd Words UtilSha UtilConvert Chrono UtilTrans Nom TrackerMessage.

Definition EXPECTED_PACKET_LENGTH : nat := 1500.
Definition CONNECTION_ID_VALID_DURATION_MILLIS : Z := 60000.
Definition MAXIMUM_REQUEST_RETRANSMIT_ATTEMPTS : Z := 8.
Definition DEFAULT_CAPACITY : Z := 4096.

(** ** Data *)

Inductive ClientRequest : Type :=
| AnnounceReq (hash : ShaHash) (state : ClientState)
| ScrapeReq (hash : ShaHash).

Inductive ClientResponse : Type :=
| AnnounceRes (r : AnnounceResponse)
| ScrapeRes (r : ScrapeResponse).

Definition announce_response (r : ClientResponse) : option AnnounceResponse :=
  match r with AnnounceRes res => Some res | ScrapeRes _ => None end.
Definition scrape_response (r : ClientResponse) : option ScrapeResponse :=
  match r with AnnounceRes _ => None | ScrapeRes res => Some res end.

Inductive ClientError : Type :=
| MaxTimeout
| MaxLength
| ClientShutdown
| ServerError
| IPVersionMismatch
| ServerMessage (e : ErrorResponse).

(** [ClientToken] is its [u32], a timer of [umio] its id. *)
Abbreviation ClientToken := Z (only parsing).
Abbreviation Timeout := nat (only parsing).

Inductive DispatchTimeout : Type := TimeoutConnect (token : ClientToken) | TimeoutCleanUp.

Inductive DispatchMessage : Type :=
| MsgRequest (addr : SocketAddr) (token : ClientToken) (request : ClientRequest)
| MsgStartTimer
| MsgShutdown.

Record ConnectTimer : Type := mkTimer {
  timer_addr : SocketAddr; attempt : Z; timer_request : ClientRequest; timeout_id : option Timeout }.

Record RequestLimiter : Type := mkLimiter { lim_active : Z; lim_capacity : Z }.

(** What a dispatcher asks of the event loop and of the handshaker. *)
Inductive Effect : Type :=
| Outgoing (bytes : list Z) (addr : SocketAddr)
| SetTimeout (timeout : DispatchTimeout) (millis : Z) (id : Timeout)
| ClearTimeout (id : Timeout)
| ProviderShutdown
| HandshakerConnect (hash : ShaHash) (addr : SocketAddr)
| Metadata (token : ClientToken) (result : res ClientError ClientResponse).

(** ** The limiter *)

Definition RequestLimiter_new (capacity : Z) : RequestLimiter := mkLimiter 0 capacity.

(** [fetch_sub] and [fetch_add] wrap around. *)
Definition acknowledge (l : RequestLimiter) : RequestLimiter := mkLimiter (wrap 64 (lim_active l - 1)) (lim_capacity l).

Definition can_initiate (l : RequestLimiter) : bool * RequestLimiter :=
  let current_active_requests := lim_active l in
  let l := mkLimiter (wrap 64 (lim_active l + 1)) (lim_capacity l) in
  if current_active_requests <? lim_capacity l then (true, l) else (false, acknowledge l).

(** ** Timers *)

Definition ConnectTimer_new (addr : SocketAddr) (request : ClientRequest) : ConnectTimer := mkTimer addr 0 request None.

Definition checked64 (n : Z) : res unit Z := if decide (is_u64 n) then Ok n else Panic.

(** [(15 * 2u64.pow(attempt as u32)) * 1000]. *)
Definition calculate_message_timeout_millis (attempt : Z) : res unit Z :=
  let? power := checked64 (2 ^ as_u32 attempt) in
  let? secs := checked64 (15 * power) in
  checked64 (secs * 1000).

Definition current_timeout (timed_out : bool) (t : ConnectTimer) : res unit (option Z * ConnectTimer) :=
  if attempt t =? MAXIMUM_REQUEST_RETRANSMIT_ATTEMPTS then Ok (None, t)
  else
    let? t := if timed_out then
        let? a := checked64 (attempt t + 1) in Ok (mkTimer (timer_addr t) a (timer_request t) (timeout_id t))
      else Ok t in
    let? millis := calculate_message_timeout_millis (attempt t) in
    Ok (Some millis, t).

Definition set_timeout_id (id : Timeout) (t : ConnectTimer) : ConnectTimer :=
  mkTimer (timer_addr t) (attempt t) (timer_request t) (Some id).

(** ** Connection ids *)

Section Cache.
Context `{Chrono}.

(** [HashMap<SocketAddr, (u64, DateTime<Utc>)>]. *)
Abbreviation ConnectIdCache := (gmap SocketAddr (Z * DateTime)).

Definition is_expired (curr_time prev_time : DateTime) : bool :=
  let valid_duration := milliseconds CONNECTION_ID_VALID_DURATION_MILLIS in
  dur_geb (dt_since curr_time prev_time) valid_duration.

Definition cache_get (now : DateTime) (addr : SocketAddr) (cache : ConnectIdCache) : option Z * ConnectIdCache :=
  match cache !! addr with
  | None => (None, cache)
  | Some (id, prev_time) => if is_expired now prev_time then (None, delete addr cache) else (Some id, cache)
  end.

Definition cache_put (now : DateTime) (addr : SocketAddr) (connect_id : Z) (cache : ConnectIdCache) : ConnectIdCache :=
  <[addr := (connect_id, now)]> cache.

(** The loop of [clean_expired]: the entry at [curr_index], in the current order. *)
Fixpoint clean_loop `{!HashOrder SocketAddr (Z * DateTime)} (fuel : nat) (curr_time : DateTime) (curr_index : nat)
    (cache : ConnectIdCache) : res unit ConnectIdCache :=
  match fuel with
  | O => OutOfFuel
  | S fuel =>
      match hash_entries cache !! curr_index with
      | None => Ok cache
      | Some (addr, (_, prev_time)) =>
          let cache := if is_expired curr_time prev_time then delete addr cache else cache in
          clean_loop fuel curr_time (curr_index + 1) cache
      end
  end.

(** The index grows and the size does not: one round more than there are entries. *)
Definition clean_expired `{!HashOrder SocketAddr (Z * DateTime)} (curr_time : DateTime) (cache : ConnectIdCache)
    : res unit ConnectIdCache :=
  clean_loop (S (size cache)) curr_time 0 cache.

(** ** The client dispatcher *)

Context `{Nom} `{!HashOrder Z (list Z)} `{!HashOrder SocketAddr (Z * DateTime)} `{!HashOrder Z ConnectTimer}.
(** [Handshaker::id] and [Handshaker::port]. *)
Context (handshaker_id : ShaHash) (handshaker_port : Z).

(** What one event gets from outside: the times [Utc::now()] gives to [put] and to
    [get] or [clean_expired], the random key, and the result of [set_timeout]. *)
Record Tick : Type := mkTick { put_time : DateTime; get_time : DateTime; random_key : Z; new_timeout : option Timeout }.

Record ClientDispatcher : Type := mkDispatcher {
  bound_addr : SocketAddr;
  active_requests : gmap Z ConnectTimer;
  id_cache : ConnectIdCache;
  limiter : RequestLimiter;
  effects : list Effect
}.

Definition ClientDispatcher_new (bind : SocketAddr) (limiter : RequestLimiter) : ClientDispatcher :=
  mkDispatcher bind ∅ ∅ limiter [].

Definition set_active (m : gmap Z ConnectTimer) (d : ClientDispatcher) : ClientDispatcher :=
  mkDispatcher (bound_addr d) m (id_cache d) (limiter d) (effects d).
Definition set_cache (c : ConnectIdCache) (d : ClientDispatcher) : ClientDispatcher :=
  mkDispatcher (bound_addr d) (active_requests d) c (limiter d) (effects d).
Definition emit (e : Effect) (d : ClientDispatcher) : ClientDispatcher :=
  mkDispatcher (bound_addr d) (active_requests d) (id_cache d) (limiter d) (effects d ++ [e]).

Definition notify_client (token : ClientToken) (result : res ClientError ClientResponse) (d : ClientDispatcher) : ClientDispatcher :=
  let d := emit (Metadata token result) d in
  mkDispatcher (bound_addr d) (active_requests d) (id_cache d) (acknowledge (limiter d)) (effects d).

(** Writing to a buffer: [None] when the message does not fit. The byte that ends the
    options is left out when only it does not fit, its result is not looked at. *)
Definition request_in_buffer (capacity : nat) (t : TrackerRequest) : option (list Z) :=
  let bytes := TrackerRequest_write_bytes t in
  if (length bytes <=? capacity)%nat then Some bytes
  else match request_type t with
       | ReqAnnounce _ => if (length bytes =? S capacity)%nat then Some (take capacity bytes) else None
       | _ => None
       end.

(** The message a timer is about: a connect request unless there is a connection id. *)
Definition resolve_request (key : Z) (addr : SocketAddr) (opt_conn_id : option Z) (request : ClientRequest) : Z * RequestType :=
  match opt_conn_id, request with
  | Some id, AnnounceReq hash state =>
      let source_ip := match addr with V4 _ => ImpliedV4 | V6 _ => ImpliedV6 end in
      (id, ReqAnnounce (AnnounceRequest_new hash handshaker_id state source_ip key DesiredDefault handshaker_port (mkOptions ∅)))
  | Some id, ScrapeReq hash => (id, ReqScrape (ScrapeRequest_insert hash (mkScrapeRequest [])))
  | None, _ => (CONNECT_ID_PROTOCOL_ID, ReqConnect)
  end.

(** Named [process_request] in the source, as in the server. *)
Definition client_process_request (tick : Tick) (token : ClientToken) (timed_out : bool) (d : ClientDispatcher)
    : res unit ClientDispatcher :=
  match active_requests d !! token with
  | None => Ok d
  | Some conn_timer =>
      let d := set_active (delete token (active_requests d)) d in
      let? (next, conn_timer) := current_timeout timed_out conn_timer in
      match next with
      | None => Ok (notify_client token (Err MaxTimeout) d)
      | Some next_timeout =>
          let addr := timer_addr conn_timer in
          let '(opt_conn_id, cache) := cache_get (get_time tick) addr (id_cache d) in
          let d := set_cache cache d in
          let '(conn_id, request_type) := resolve_request (random_key tick) addr opt_conn_id (timer_request conn_timer) in
          let tracker_request := TrackerRequest_new conn_id token request_type in
          match request_in_buffer EXPECTED_PACKET_LENGTH tracker_request with
          | None => Ok (notify_client token (Err MaxLength) d)
          | Some bytes =>
              let d := emit (Outgoing bytes addr) d in
              let? id := or_panic (new_timeout tick) in
              let d := emit (SetTimeout (TimeoutConnect token) next_timeout id) d in
              Ok (set_active (<[token := set_timeout_id id conn_timer]> (active_requests d)) d)
          end
      end
  end.

Definition same_version (a b : SocketAddr) : bool :=
  match a, b with V4 _, V6 _ | V6 _, V4 _ => false | _, _ => true end.

Definition send_request (tick : Tick) (addr : SocketAddr) (token : ClientToken) (request : ClientRequest) (d : ClientDispatcher)
    : res unit ClientDispatcher :=
  if negb (same_version (bound_addr d) addr) then Ok (notify_client token (Err IPVersionMismatch) d)
  else
    let d := set_active (<[token := ConnectTimer_new addr request]> (active_requests d)) d in
    client_process_request tick token false d.

Definition recv_response (tick : Tick) (addr : SocketAddr) (response : TrackerResponse) (d : ClientDispatcher)
    : res unit ClientDispatcher :=
  let token := response_transaction_id response in
  match active_requests d !! token with
  | None => Ok d
  | Some conn_timer =>
      let d := set_active (delete token (active_requests d)) d in
      if negb (bool_decide (timer_addr conn_timer = addr)) then Ok d
      else
        let? id := or_panic (timeout_id conn_timer) in
        let d := emit (ClearTimeout id) d in
        match response_type response with
        | ResConnect id =>
            let d := set_cache (cache_put (put_time tick) addr id (id_cache d)) d in
            let d := set_active (<[token := conn_timer]> (active_requests d)) d in
            client_process_request tick token false d
        | _ =>
            match timer_request conn_timer, response_type response with
            | AnnounceReq hash _, ResAnnounce res =>
                let? peers := res_unwrap (CompactPeers_iter (an_peers res)) in
                let d := foldl (fun d addr => emit (HandshakerConnect hash addr) d) d peers in
                Ok (notify_client token (Ok (AnnounceRes res)) d)
            | ScrapeReq _, ResScrape res => Ok (notify_client token (Ok (ScrapeRes res)) d)
            | _, ResError res => Ok (notify_client token (Err (ServerMessage res)) d)
            | _, _ => Ok (notify_client token (Err ServerError) d)
            end
        end
  end.

(** One round of [shutdown]: the token with the given index among the keys. *)
Definition shutdown_round (acc : res unit ClientDispatcher) (token_index : nat) : res unit ClientDispatcher :=
  let? d := acc in
  let? next_token := or_panic ((hash_entries (active_requests d)).*1 !! token_index) in
  Ok (notify_client next_token (Err ClientShutdown) d).

Definition shutdown (d : ClientDispatcher) : res unit ClientDispatcher :=
  let? d := foldl shutdown_round (Ok d) (seq 0 (size (active_requests d))) in
  Ok (emit ProviderShutdown (set_active ∅ d)).

(** *** [Dispatcher] *)

Definition timeout (tick : Tick) (t : DispatchTimeout) (d : ClientDispatcher) : res unit ClientDispatcher :=
  match t with
  | TimeoutConnect token => client_process_request tick token true d
  | TimeoutCleanUp =>
      let? cache := clean_expired (get_time tick) (id_cache d) in
      let d := set_cache cache d in
      let? id := or_panic (new_timeout tick) in
      Ok (emit (SetTimeout TimeoutCleanUp CONNECTION_ID_VALID_DURATION_MILLIS id) d)
  end.

Definition notify (tick : Tick) (message : DispatchMessage) (d : ClientDispatcher) : res unit ClientDispatcher :=
  match message with
  | MsgRequest addr token req_type => send_request tick addr token req_type d
  | MsgStartTimer => timeout tick TimeoutCleanUp d
  | MsgShutdown => shutdown d
  end.

Definition incoming (tick : Tick) (message : list Z) (addr : SocketAddr) (d : ClientDispatcher) : res unit ClientDispatcher :=
  match parse_tracker_response message with
  | Done _ response => recv_response tick addr response d
  | NomPanic => Panic
  | NomError | Incomplete => Ok d
  end.

(** The events of the loop, each with what it gets from outside. *)
Inductive Event : Type :=
| EvNotify (message : DispatchMessage)
| EvTimeout (t : DispatchTimeout)
| EvIncoming (message : list Z) (addr : SocketAddr).

Definition dispatch_event (ev : Tick * Event) (d : ClientDispatcher) : res unit ClientDispatcher :=
  let '(tick, ev) := ev in
  match ev with
  | EvNotify message => notify tick message d
  | EvTimeout t => timeout tick t d
  | EvIncoming message addr => incoming tick message addr d
  end.

Definition dispatch_all (evs : list (Tick * Event)) (d : ClientDispatcher) : res unit ClientDispatcher :=
  foldl (fun acc ev => let? d := acc in dispatch_event ev d) (Ok d) evs.

(** ** The client *)

(** [TrackerClient::request]: the limiter, then a token; the message goes to the
    dispatcher through the channel. *)
Record TrackerClient : Type := mkClient { channel : list DispatchMessage; generator : TIDGenerator }.

Definition request (rnd : nat -> Z) (addr : SocketAddr) (req : ClientRequest) (c : TrackerClient) (l : RequestLimiter)
    : res unit (option ClientToken * TrackerClient * RequestLimiter) :=
  let '(initiate, l) := can_initiate l in
  if initiate then
    let? (token, g) := TIDGenerator_generate 32 2 rnd (generator c) in
    Ok (Some token, mkClient (channel c ++ [MsgRequest addr token req]) g, l)
  else Ok (None, c, l).

Definition drop_client (c : TrackerClient) : TrackerClient := mkClient (channel c ++ [MsgShutdown]) (generator c).

(** [with_capacity]: the capacity of the channel is one more, or it panics. *)
Definition with_capacity (rnd : nat -> Z) (bind : SocketAddr) (capacity : Z) : res unit (TrackerClient * ClientDispatcher) :=
  let? chan_capacity := checked64 (capacity + 1) in
  let limiter := RequestLimiter_new capacity in
  let? g := TIDGenerator_new 32 rnd in
  Ok (mkClient [MsgStartTimer] g, ClientDispatcher_new bind limiter).

End Cache.

(** ** The server dispatcher *)

(** [ServerHandler]: the state after the call, and what it gave to the callback, if it
    called it. An error is the bytes of its message. *)
Class ServerHandler : Type := {
  Handler : Type;
  handler_connect : SocketAddr -> Handler -> Handler * option (res (list Z) Z);
  handler_announce : SocketAddr -> Z -> AnnounceRequest -> Handler -> Handler * option (res (list Z) AnnounceResponse);
  handler_scrape : SocketAddr -> Z -> ScrapeRequest -> Handler -> Handler * option (res (list Z) ScrapeResponse)
}.

Section Server.
Context `{ServerHandler} `{Nom}.

(** [write_response]: the datagram, when the response fits into the buffer. *)
Definition write_response (response : TrackerResponse) : option (list Z) :=
  let bytes := TrackerResponse_write_bytes response in
  if (length bytes <=? EXPECTED_PACKET_LENGTH)%nat then Some bytes else None.

(** The callback of the three [forward] functions. *)
Definition respond {A} (trans_id : Z) (mk : A -> ResponseType) (result : option (res (list Z) A)) : option (list Z) :=
  match result with
  | Some (Ok a) => write_response (TrackerResponse_new trans_id (mk a))
  | Some (Err err_msg) => write_response (TrackerResponse_new trans_id (ResError (ErrorResponse_new err_msg)))
  | _ => None
  end.

Definition forward_connect (trans_id : Z) (addr : SocketAddr) (h : Handler) : Handler * option (list Z) :=
  let '(h, result) := handler_connect addr h in (h, respond trans_id ResConnect result).
Definition forward_announce (trans_id conn_id : Z) (req : AnnounceRequest) (addr : SocketAddr) (h : Handler) : Handler * option (list Z) :=
  let '(h, result) := handler_announce addr conn_id req h in (h, respond trans_id ResAnnounce result).
Definition forward_scrape (trans_id conn_id : Z) (req : ScrapeRequest) (addr : SocketAddr) (h : Handler) : Handler * option (list Z) :=
  let '(h, result) := handler_scrape addr conn_id req h in (h, respond trans_id ResScrape result).

Definition server_process_request (request : TrackerRequest) (addr : SocketAddr) (h : Handler) : Handler * option (list Z) :=
  let conn_id := connection_id request in
  let trans_id := request_transaction_id request in
  match request_type request with
  | ReqConnect => if conn_id =? CONNECT_ID_PROTOCOL_ID then forward_connect trans_id addr h else (h, None)
  | ReqAnnounce req => forward_announce trans_id conn_id req addr h
  | ReqScrape req => forward_scrape trans_id conn_id req addr h
  end.

(** The datagram sent back to [addr], if any. *)
Definition server_incoming (message : list Z) (addr : SocketAddr) (h : Handler) : res unit (Handler * option (list Z)) :=
  match parse_tracker_request message with
  | Done _ request => Ok (server_process_request request addr h)
  | NomPanic => Panic
  | NomError | Incomplete => Ok (h, None)
  end.

End Server.
