(* ===== verification/TrackerClientFacts.v ===== *)
(** * The UDP tracker client: what each operation changes

    The invariant of the dispatcher of [TrackerClient], and for every operation that it
    does not panic, keeps the invariant, and how it moves requests between being active
    and having been answered. *)

From stdpp Require Import gmap.
From S2P Require Import Prelude RustStd Words UtilSha UtilConvert Chrono UtilTrans Nom TrackerMessage TrackerMessageSpec TrackerClient.

Section Facts.
Context `{Chrono} `{NL : NomLaws}.
Context {HO1 : HashOrder Z (list Z)} {HO2 : HashOrder SocketAddr (Z * DateTime)} {HO3 : HashOrder Z ConnectTimer}.
Context (hid : ShaHash) (hport : Z).

Implicit Types d : ClientDispatcher.

(** ** Invariant *)

Definition client_request_ok (r : ClientRequest) : Prop :=
  match r with AnnounceReq h s => sha_ok h /\ client_state_ok s | ScrapeReq h => sha_ok h end.

Definition handshaker_ok : Prop := sha_ok hid /\ is_u16 hport.

(** A timer of an active request runs, and it has not been retransmitted too often. *)
Definition timer_ok (bind : SocketAddr) (t : ConnectTimer) : Prop :=
  client_request_ok (timer_request t) /\ 0 <= attempt t <= MAXIMUM_REQUEST_RETRANSMIT_ATTEMPTS /\
  same_version bind (timer_addr t) = true /\ is_Some (timeout_id t).

Definition dispatcher_ok d : Prop := map_Forall (fun _ t => timer_ok (bound_addr d) t) (active_requests d).

(** ** Counting answers *)

Definition is_answer (token : Z) (e : Effect) : bool :=
  match e with Metadata t _ => t =? token | _ => false end.
Definition is_metadata (e : Effect) : bool := match e with Metadata _ _ => true | _ => false end.

Definition answered (token : Z) d : nat := length (filter (fun e => is_answer token e = true) (effects d)).
Definition pending (token : Z) d : nat := if decide (is_Some (active_requests d !! token)) then 1 else 0.

(** The answers to a token, and one when it is still active. *)
Definition balance (token : Z) d : nat := (answered token d + pending token d)%nat.

(** How many answers the limiter has been told about. *)
Definition acknowledged d : nat := length (filter (fun e => is_metadata e = true) (effects d)).

(** From [d] to [d']: the counter goes down with the answers, and only effects are added. *)
Definition progresses d d' : Prop :=
  bound_addr d' = bound_addr d /\
  (exists es, effects d' = effects d ++ es) /\
  lim_capacity (limiter d') = lim_capacity (limiter d) /\
  wrap 64 (lim_active (limiter d') + Z.of_nat (acknowledged d')) = wrap 64 (lim_active (limiter d) + Z.of_nat (acknowledged d)).

Lemma progresses_refl d : progresses d d.
Proof. repeat split; try done. exists []. by rewrite app_nil_r. Qed.

Lemma progresses_trans d1 d2 d3 : progresses d1 d2 -> progresses d2 d3 -> progresses d1 d3.
Proof.
  intros (H1 & [e1 H2] & H3 & H4) (K1 & [e2 K2] & K3 & K4). split_and!; [congruence| |congruence|congruence].
  exists (e1 ++ e2). by rewrite K2, H2, app_assoc.
Qed.

Lemma progresses_emit e d : is_metadata e = false -> progresses d (emit e d).
Proof.
  intros He. repeat split; [by exists [e]|]. unfold acknowledged. cbn [emit effects limiter].
  rewrite filter_app, length_app. cbn. rewrite He. simpl. by rewrite Nat.add_0_r.
Qed.

Lemma progresses_notify token r d : progresses d (notify_client token r d).
Proof.
  repeat split; [by exists [Metadata token r]|]. unfold acknowledged, notify_client, acknowledge.
  cbn [emit effects limiter lim_active lim_capacity]. rewrite filter_app, length_app. cbn [length filter list_filter is_metadata].
  rewrite decide_True by done. cbn [length]. unfold wrap. rewrite Zplus_mod_idemp_l. f_equal. lia.
Qed.

Lemma answered_emit token e d : answered token (emit e d) = (answered token d + if is_answer token e then 1 else 0)%nat.
Proof.
  unfold answered. cbn [emit effects]. rewrite filter_app, length_app. f_equal. cbn [filter list_filter].
  by destruct (is_answer token e).
Qed.

Lemma answered_notify token t r d : answered token (notify_client t r d) = (answered token d + if (t =? token)%Z then 1 else 0)%nat.
Proof. apply (answered_emit token (Metadata t r)). Qed.

Lemma pending_insert token t tm d :
  pending token (set_active (<[t := tm]> (active_requests d)) d) = if t =? token then 1%nat else pending token d.
Proof.
  unfold pending. cbn [set_active active_requests]. destruct (Z.eqb_spec t token) as [->|Hne].
  - by rewrite lookup_insert_eq, decide_True by eauto.
  - by rewrite lookup_insert_ne.
Qed.

Lemma pending_delete token t d :
  pending token (set_active (delete t (active_requests d)) d) = if t =? token then 0%nat else pending token d.
Proof.
  unfold pending. cbn [set_active active_requests]. destruct (Z.eqb_spec t token) as [->|Hne].
  - rewrite lookup_delete_eq, decide_False; [done|]. by intros [? ?].
  - by rewrite lookup_delete_ne.
Qed.

Lemma pending_active token d t : active_requests d !! token = Some t -> pending token d = 1%nat.
Proof. intros E. unfold pending. by rewrite E, decide_True by eauto. Qed.

Lemma pending_inactive token d : active_requests d !! token = None -> pending token d = 0%nat.
Proof. intros E. unfold pending. rewrite E, decide_False; [done|]. by intros [? ?]. Qed.

(** The balance without an answer and without a change of the active tokens. *)
Lemma balance_same tk d d' es : effects d' = effects d ++ es -> Forall (fun e => is_answer tk e = false) es ->
  (is_Some (active_requests d' !! tk) <-> is_Some (active_requests d !! tk)) -> balance tk d' = balance tk d.
Proof.
  intros He Hes Ha. unfold balance, answered. rewrite He, filter_app, length_app.
  assert (filter (fun e => is_answer tk e = true) es = []) as ->.
  { clear He. induction Hes as [|e es Hx Hes IH]; [done|]. by rewrite filter_cons_False by (by rewrite Hx). }
  unfold pending. cbn [length]. do 2 case_decide; tauto || lia.
Qed.

(** ** Timers *)

Lemma timeout_millis a : 0 <= a <= MAXIMUM_REQUEST_RETRANSMIT_ATTEMPTS ->
  calculate_message_timeout_millis a = Ok (15000 * 2 ^ a).
Proof.
  unfold MAXIMUM_REQUEST_RETRANSMIT_ATTEMPTS. intros Ha. unfold calculate_message_timeout_millis.
  rewrite wrap_id by (unfold in_unsigned; lia). unfold checked64.
  assert (1 <= 2 ^ a <= 256) by (split; [apply (Z.pow_le_mono_r 2 0); lia|apply (Z.pow_le_mono_r 2 a 8); lia]).
  rewrite decide_True by (unfold in_unsigned; lia). cbn [res_bind].
  rewrite decide_True by (unfold in_unsigned; lia). cbn [res_bind].
  rewrite decide_True by (unfold in_unsigned; lia). f_equal. lia.
Qed.

(** The timeout of the next transmission; a timer that expired was sent once more. *)
Lemma current_timeout_next (timed_out : bool) t : 0 <= attempt t < MAXIMUM_REQUEST_RETRANSMIT_ATTEMPTS ->
  let a := attempt t + (if timed_out then 1 else 0) in
  current_timeout timed_out t = Ok (Some (15000 * 2 ^ a), mkTimer (timer_addr t) a (timer_request t) (timeout_id t)).
Proof.
  intros Ha a. unfold current_timeout. destruct (Z.eqb_spec (attempt t) MAXIMUM_REQUEST_RETRANSMIT_ATTEMPTS); [lia|].
  unfold MAXIMUM_REQUEST_RETRANSMIT_ATTEMPTS in *. subst a. destruct timed_out.
  - unfold checked64. rewrite decide_True by (unfold in_unsigned; lia). cbn [res_bind attempt].
    rewrite timeout_millis by (unfold MAXIMUM_REQUEST_RETRANSMIT_ATTEMPTS; lia). done.
  - cbn [res_bind]. rewrite timeout_millis by (unfold MAXIMUM_REQUEST_RETRANSMIT_ATTEMPTS; lia). cbn [res_bind].
    rewrite Z.add_0_r. by destruct t.
Qed.

Lemma current_timeout_last timed_out t : attempt t = MAXIMUM_REQUEST_RETRANSMIT_ATTEMPTS ->
  current_timeout timed_out t = Ok (None, t).
Proof. intros Ha. unfold current_timeout. by rewrite Ha. Qed.

(** ** What is sent *)

Lemma hash_entries_empty {K A} `{Countable K} {HO : HashOrder K A} : hash_entries (∅ : gmap K A) = [].
Proof. apply Permutation_nil_r. rewrite hash_entries_perm. by rewrite map_to_list_empty. Qed.

Lemma sent_length key token addr cid r : client_request_ok r -> handshaker_ok ->
  let '(conn_id, rt) := resolve_request hid hport key addr cid r in
  (length (TrackerRequest_write_bytes (TrackerRequest_new conn_id token rt)) <= 111)%nat.
Proof.
  intros Hr [[Hid _] _]. destruct cid as [id|]; destruct r as [h s|h]; cbn [resolve_request];
    unfold TrackerRequest_write_bytes; cbn [connection_id request_type request_transaction_id scrape_hashes ScrapeRequest_insert app];
    rewrite !length_app, !length_write; try lia.
  - destruct Hr as [[Hh _] _]. unfold AnnounceRequest_write_bytes, ClientState_write_bytes, AnnounceEvent_write_bytes,
      DesiredPeers_write_bytes, AnnounceOptions_write_bytes.
    cbn [ar_info_hash ar_peer_id ar_state ar_ip ar_key ar_num_want ar_port ar_options raw_options].
    rewrite hash_entries_empty. cbn [map concat app]. rewrite !length_app, !length_write, Hh, Hid.
    unfold SHA_HASH_LEN. destruct addr; cbn; lia.
  - destruct Hr as [Hh _]. rewrite Hh. unfold SHA_HASH_LEN. lia.
Qed.

Lemma sent_fits key token addr cid r : client_request_ok r -> handshaker_ok ->
  let '(conn_id, rt) := resolve_request hid hport key addr cid r in
  let t := TrackerRequest_new conn_id token rt in
  request_in_buffer EXPECTED_PACKET_LENGTH t = Some (TrackerRequest_write_bytes t).
Proof.
  intros Hr Hh. assert (Hl := sent_length key token addr cid r Hr Hh).
  destruct (resolve_request hid hport key addr cid r) as [conn_id rt]. cbn. unfold request_in_buffer.
  destruct (Nat.leb_spec (length (TrackerRequest_write_bytes (TrackerRequest_new conn_id token rt))) EXPECTED_PACKET_LENGTH) as [|Hlt]; [done|].
  assert (111 < EXPECTED_PACKET_LENGTH)%nat by (apply Nat.ltb_lt; vm_compute; reflexivity). lia.
Qed.

(** The request that is sent for a timer. *)
Definition sent_request (tick : Tick) (token : Z) (t : ConnectTimer) d : TrackerRequest :=
  let cid := (cache_get (get_time tick) (timer_addr t) (id_cache d)).1 in
  let '(conn_id, rt) := resolve_request hid hport (random_key tick) (timer_addr t) cid (timer_request t) in
  TrackerRequest_new conn_id token rt.

(** ** [process_request] *)

Lemma process_sends tick token (timed_out : bool) d t id : handshaker_ok -> active_requests d !! token = Some t ->
  client_request_ok (timer_request t) -> 0 <= attempt t < MAXIMUM_REQUEST_RETRANSMIT_ATTEMPTS -> new_timeout tick = Some id ->
  let a := attempt t + (if timed_out then 1 else 0) in
  client_process_request hid hport tick token timed_out d =
  Ok (mkDispatcher (bound_addr d) (<[token := mkTimer (timer_addr t) a (timer_request t) (Some id)]> (active_requests d))
    (cache_get (get_time tick) (timer_addr t) (id_cache d)).2 (limiter d)
    (effects d ++ [Outgoing (TrackerRequest_write_bytes (sent_request tick token t d)) (timer_addr t);
       SetTimeout (TimeoutConnect token) (15000 * 2 ^ a) id])).
Proof.
  intros Hh Ht Hr Ha Hid a. unfold client_process_request, sent_request. rewrite Ht, current_timeout_next by done. fold a.
  cbn [res_bind timer_addr timer_request id_cache set_active].
  destruct (cache_get (get_time tick) (timer_addr t) (id_cache d)) as [cid cache]. cbn [fst snd].
  assert (Hf := sent_fits (random_key tick) token (timer_addr t) cid (timer_request t) Hr Hh).
  destruct (resolve_request hid hport (random_key tick) (timer_addr t) cid (timer_request t)) as [conn_id rt].
  cbn beta iota zeta in Hf. rewrite Hf, Hid. cbn [or_panic res_bind]. f_equal.
  unfold set_active, set_cache, emit, set_timeout_id. cbn [bound_addr active_requests id_cache limiter effects timer_addr attempt timer_request].
  by rewrite insert_delete_eq, <- app_assoc.
Qed.

Lemma process_cancels tick token timed_out d t : active_requests d !! token = Some t ->
  attempt t = MAXIMUM_REQUEST_RETRANSMIT_ATTEMPTS ->
  client_process_request hid hport tick token timed_out d =
  Ok (notify_client token (Err MaxTimeout) (set_active (delete token (active_requests d)) d)).
Proof. intros Ht Ha. unfold client_process_request. by rewrite Ht, current_timeout_last. Qed.

(** ** Steps *)

(** A step keeps the invariant and the addresses of the active requests, and changes
    the balance of the tokens by [delta]. *)
Definition steps (delta : Z -> Z) d d' : Prop :=
  dispatcher_ok d' /\ progresses d d' /\
  (forall tk, Z.of_nat (balance tk d') = Z.of_nat (balance tk d) + delta tk) /\
  (forall tk t', active_requests d' !! tk = Some t' ->
    exists t, active_requests d !! tk = Some t /\ timer_addr t' = timer_addr t).

Definition no_delta (_ : Z) : Z := 0.

Lemma steps_refl d : dispatcher_ok d -> steps no_delta d d.
Proof. intros Hd. split; [done|]. split; [apply progresses_refl|]. split; [intros; unfold no_delta; lia|eauto]. Qed.

Lemma steps_trans delta1 delta2 d1 d2 d3 : steps delta1 d1 d2 -> steps delta2 d2 d3 ->
  steps (fun tk => delta1 tk + delta2 tk) d1 d3.
Proof.
  intros (_ & P1 & B1 & A1) (O2 & P2 & B2 & A2). split; [done|]. split; [by eapply progresses_trans|].
  split; [intros tk; rewrite B2, B1; lia|]. intros tk t3 Ht. destruct (A2 tk t3 Ht) as (t2 & Ht2 & ->). by apply A1.
Qed.

Lemma steps_ext delta delta' d d' : (forall tk, delta tk = delta' tk) -> steps delta d d' -> steps delta' d d'.
Proof. intros E (Ok' & P & B & A). split; [done|]. split; [done|]. split; [intros tk; by rewrite B, E|done]. Qed.

Lemma dispatcher_ok_delete token d : dispatcher_ok d -> dispatcher_ok (set_active (delete token (active_requests d)) d).
Proof. intros Hd. by apply map_Forall_delete. Qed.

(** The state before a request is processed: its timer need not run. *)
Definition ready (token : Z) (t : ConnectTimer) d : Prop :=
  active_requests d !! token = Some t /\
  (client_request_ok (timer_request t) /\ 0 <= attempt t <= MAXIMUM_REQUEST_RETRANSMIT_ATTEMPTS /\ same_version (bound_addr d) (timer_addr t) = true) /\
  dispatcher_ok (set_active (delete token (active_requests d)) d).

Lemma ready_ok token t d : dispatcher_ok d -> active_requests d !! token = Some t -> ready token t d.
Proof.
  intros Hd Ht. split; [done|]. destruct (Hd token t Ht) as (? & ? & ? & _). split; [done|]. by apply dispatcher_ok_delete.
Qed.

(** Answering a request that was active. *)
Lemma answer_steps token r d t : ready token t d ->
  steps no_delta d (notify_client token r (set_active (delete token (active_requests d)) d)).
Proof.
  intros (Ht & _ & Hd). split; [done|]. split; [exact (progresses_notify token r (set_active (delete token (active_requests d)) d))|].
  split.
  - intros tk. unfold balance, no_delta. rewrite answered_notify.
    change (pending tk (notify_client token r ?x)) with (pending tk x). rewrite pending_delete.
    change (answered tk (set_active ?x d)) with (answered tk d).
    destruct (Z.eqb_spec token tk) as [->|]; [rewrite (pending_active tk d t Ht)|]; lia.
  - intros tk t' Ht'. cbn in Ht'. apply lookup_delete_Some in Ht' as [_ Ht']. eauto.
Qed.

Lemma process_steps tick token timed_out d t : handshaker_ok -> ready token t d -> is_Some (new_timeout tick) ->
  exists d', client_process_request hid hport tick token timed_out d = Ok d' /\ steps no_delta d d'.
Proof.
  intros Hh (Ht & (Hr & Ha & Hv) & Hd) [id Hid]. destruct (decide (attempt t = MAXIMUM_REQUEST_RETRANSMIT_ATTEMPTS)) as [Hl|Hl].
  - eexists. split; [by eapply process_cancels|]. by eapply answer_steps.
  - eexists. split; [apply (process_sends tick token timed_out d t id); [done|done|done|lia|done]|]. split; [|split; [|split]].
    + unfold dispatcher_ok in *. cbn [active_requests bound_addr set_active] in *. rewrite <- insert_delete_eq.
      apply map_Forall_insert_2; [|done]. unfold timer_ok. cbn. split; [done|]. split; [destruct timed_out; lia|by eauto].
    + split; [done|]. split; [by eexists|]. split; [done|]. cbn [limiter]. f_equal. f_equal. f_equal. unfold acknowledged.
      cbn [effects]. by rewrite filter_app, length_app, Nat.add_0_r.
    + intros tk. unfold no_delta. erewrite (balance_same tk d); [rewrite Z.add_0_r; reflexivity|reflexivity|by repeat constructor|]. cbn [active_requests].
      rewrite lookup_insert_is_Some. destruct (decide (token = tk)) as [<-|]; [|naive_solver]. rewrite Ht. naive_solver.
    + intros tk t' Ht'. cbn in Ht'. apply lookup_insert_Some in Ht' as [[<- <-]|[_ Ht']]; eauto.
Qed.

(** ** Sending and receiving *)

Definition one_at (token : Z) (tk : Z) : Z := if token =? tk then 1 else 0.

Lemma send_steps tick addr token req d : handshaker_ok -> dispatcher_ok d -> client_request_ok req ->
  active_requests d !! token = None -> is_Some (new_timeout tick) ->
  exists d', send_request hid hport tick addr token req d = Ok d' /\ dispatcher_ok d' /\ progresses d d' /\
    (forall tk, Z.of_nat (balance tk d') = Z.of_nat (balance tk d) + one_at token tk) /\
    (forall tk t', active_requests d' !! tk = Some t' ->
      (exists t, active_requests d !! tk = Some t /\ timer_addr t' = timer_addr t) \/ (tk = token /\ timer_addr t' = addr)).
Proof.
  intros Hh Hd Hr Hn Hid. unfold send_request. destruct (same_version (bound_addr d) addr) eqn:Hv; cbn [negb].
  - set (d1 := set_active (<[token := ConnectTimer_new addr req]> (active_requests d)) d).
    destruct (process_steps tick token false d1 (ConnectTimer_new addr req)) as (d' & E & Ho & Hp & Hb & Ha); [done| |done|].
    { split; [apply lookup_insert_eq|]. split; [split; [done|]; split; [cbn; unfold MAXIMUM_REQUEST_RETRANSMIT_ATTEMPTS; lia|done]|].
      unfold dispatcher_ok. cbn [d1 set_active active_requests bound_addr]. by rewrite delete_insert_id. }
    exists d'. split; [done|]. split; [done|]. split; [exact Hp|]. split.
    + intros tk. rewrite Hb. unfold balance, no_delta, one_at. unfold d1. rewrite pending_insert.
      change (answered tk (set_active ?x d)) with (answered tk d).
      destruct (Z.eqb_spec token tk) as [->|]; [rewrite (pending_inactive tk d Hn)|]; lia.
    + intros tk t' Ht'. destruct (Ha tk t' Ht') as (t & Ht & ->). cbn in Ht.
      apply lookup_insert_Some in Ht as [[<- <-]|[_ Ht]]; [by right|left; eauto].
  - eexists. split; [done|]. split; [exact Hd|]. split; [apply progresses_notify|]. split; [|intros; left; eauto].
    intros tk. unfold balance, one_at. rewrite answered_notify. change (pending tk (notify_client ?a ?b d)) with (pending tk d).
    destruct (Z.eqb_spec token tk); lia.
Qed.

(** Emitting effects that are not answers. *)
Lemma emit_steps e d : is_metadata e = false -> dispatcher_ok d -> steps no_delta d (emit e d).
Proof.
  intros He Hd. split; [exact Hd|]. split; [by apply progresses_emit|]. split; [|eauto]. intros tk. unfold no_delta.
  rewrite (balance_same tk d (emit e d) [e]); [lia|done| |done]. constructor; [by destruct e|constructor].
Qed.

Lemma emit_connects hash peers d : dispatcher_ok d ->
  steps no_delta d (foldl (fun d addr => emit (HandshakerConnect hash addr) d) d peers) /\
  active_requests (foldl (fun d addr => emit (HandshakerConnect hash addr) d) d peers) = active_requests d.
Proof.
  revert d. induction peers as [|p peers IH]; intros d Hd; cbn [foldl]; [split; [by apply steps_refl|done]|].
  destruct (IH (emit (HandshakerConnect hash p) d) Hd) as [Hs Ha]. split; [|done].
  eapply steps_ext; [|eapply steps_trans; [by apply (emit_steps (HandshakerConnect hash p))|exact Hs]]. done.
Qed.

Lemma connects_set_active hash peers m d :
  foldl (fun d addr => emit (HandshakerConnect hash addr) d) (set_active m d) peers =
  set_active m (foldl (fun d addr => emit (HandshakerConnect hash addr) d) d peers).
Proof. revert d. induction peers as [|p peers IH]; intros d; [done|]. cbn [foldl]. apply (IH (emit (HandshakerConnect hash p) d)). Qed.

(** Handing the peers on and answering. *)
Lemma announce_steps token hash peers d t r : dispatcher_ok d -> active_requests d !! token = Some t ->
  steps no_delta d (notify_client token r
    (foldl (fun d addr => emit (HandshakerConnect hash addr) d) (set_active (delete token (active_requests d)) d) peers)).
Proof.
  intros Hd Ht. destruct (emit_connects hash peers d Hd) as [Hc Ec]. rewrite connects_set_active.
  eapply steps_ext; [|eapply steps_trans; [exact Hc|]]; [done|]. rewrite <- Ec.
  eapply answer_steps, ready_ok; [by destruct Hc|by rewrite Ec].
Qed.

(** A response from an address the request was not sent to. *)
Definition misaddressed (addr : SocketAddr) (token : Z) d : Prop :=
  exists t, active_requests d !! token = Some t /\ timer_addr t <> addr.

Lemma recv_steps tick addr response d : handshaker_ok -> dispatcher_ok d -> response_ok response -> is_Some (new_timeout tick) ->
  let token := response_transaction_id response in
  exists d', recv_response hid hport tick addr response d = Ok d' /\
    ((~ misaddressed addr token d /\ steps no_delta d d') \/
     (misaddressed addr token d /\ d' = set_active (delete token (active_requests d)) d)).
Proof.
  intros Hh Hd Hres Hid token. unfold recv_response. fold token. destruct (active_requests d !! token) as [t|] eqn:Ht.
  2:{ exists d. split; [done|]. left. split; [intros (t & E & _); congruence|by apply steps_refl]. }
  destruct (decide (timer_addr t = addr)) as [Ha|Ha].
  2:{ rewrite bool_decide_false by done. eexists. split; [done|]. right. split; [by exists t|done]. }
  rewrite bool_decide_true by done. cbn [negb]. destruct (Hd token t Ht) as (Hr & Hat & Hv & [id Htid]). rewrite Htid. cbn [or_panic res_bind].
  assert (~ misaddressed addr token d) as Hmis by (intros (t' & E & Hne); congruence).
  set (d1 := emit (ClearTimeout id) d). assert (Hd1 : dispatcher_ok d1) by exact Hd.
  assert (Hs1 : steps no_delta d d1) by (by apply emit_steps).
  assert (forall d', steps no_delta d1 d' -> steps no_delta d d') as Hfrom.
  { intros d' Hs. eapply steps_ext; [|eapply steps_trans; [exact Hs1|exact Hs]]. done. }
  assert (Hans : forall r, steps no_delta d (notify_client token r (set_active (delete token (active_requests d1)) d1))).
  { intros r. apply Hfrom. eapply answer_steps. by eapply ready_ok. }
  change (emit (ClearTimeout id) (set_active ?m d)) with (set_active m d1).
  destruct (response_type response) as [cid|res|res|res] eqn:Ert.
  - destruct (process_steps tick token false (set_cache (cache_put (put_time tick) addr cid (id_cache d)) d1) t) as (d' & E & Hs); [done|by apply ready_ok|done|].
    exists d'. split; [|left; split; [done|by apply Hfrom]].
    rewrite <- E. f_equal. unfold set_active, set_cache. cbn [active_requests bound_addr id_cache limiter effects d1 emit].
    by rewrite insert_delete_eq, insert_id.
  - destruct (timer_request t) as [hash st|hash].
    + destruct (peers_iterate (an_peers res)) as [peers ->]. { destruct Hres as [_ Hres]. rewrite Ert in Hres. apply Hres. }
      cbn [res_unwrap res_bind]. eexists. split; [done|]. left. split; [done|].
      by apply Hfrom, (announce_steps token hash peers d1 t).
    + eexists. split; [done|]. left. by split.
  - destruct (timer_request t); eexists; (split; [done|]; left; by split).
  - destruct (timer_request t); eexists; (split; [done|]; left; by split).
Qed.

(** ** Shutting down and cleaning up *)

Definition notify_all (tokens : list Z) (r : res ClientError ClientResponse) d : ClientDispatcher :=
  foldl (fun d token => notify_client token r d) d tokens.

Lemma notify_all_snoc tokens token r d : notify_all (tokens ++ [token]) r d = notify_client token r (notify_all tokens r d).
Proof. unfold notify_all. by rewrite foldl_app. Qed.

Lemma notify_all_active tokens r d : active_requests (notify_all tokens r d) = active_requests d.
Proof. induction tokens as [|t tokens IH] using rev_ind; [done|]. by rewrite notify_all_snoc. Qed.

Lemma notify_all_progresses tokens r d : progresses d (notify_all tokens r d).
Proof.
  induction tokens as [|t tokens IH] using rev_ind; [apply progresses_refl|]. rewrite notify_all_snoc.
  eapply progresses_trans; [exact IH|apply progresses_notify].
Qed.

Lemma notify_all_answered tk tokens r d : NoDup tokens ->
  answered tk (notify_all tokens r d) = (answered tk d + if decide (tk ∈ tokens) then 1 else 0)%nat.
Proof.
  induction tokens as [|t tokens IH] using rev_ind; intros Hnd; [rewrite decide_False by set_solver; unfold notify_all; cbn [foldl]; lia|]. rewrite notify_all_snoc, answered_notify.
  apply NoDup_app in Hnd as (Hnd & Hni & _). rewrite IH by done. destruct (Z.eqb_spec t tk) as [->|Hne].
  - rewrite decide_False by (intros Hin; apply (Hni tk Hin); set_solver). rewrite decide_True by set_solver. lia.
  - destruct (decide (tk ∈ tokens)); [rewrite decide_True by set_solver|rewrite decide_False by set_solver]; lia.
Qed.

(** The loop of [shutdown] notifies the keys from the first one on. *)
Lemma shutdown_loop n d : (n <= size (active_requests d))%nat ->
  foldl shutdown_round (Ok d) (seq 0 n) =
  Ok (notify_all (take n (hash_entries (active_requests d)).*1) (Err ClientShutdown) d).
Proof.
  induction n as [|n IH]; intros Hn; [done|]. rewrite seq_S, foldl_app, IH by lia. cbn [foldl shutdown_round res_bind Nat.add]. rewrite notify_all_active.
  destruct (lookup_lt_is_Some_2 ((hash_entries (active_requests d)).*1) n) as [tk Htk].
  { rewrite length_fmap, hash_entries_perm, length_map_to_list. lia. }
  rewrite Htk. cbn [or_panic res_bind]. by rewrite (take_S_r _ _ _ Htk), notify_all_snoc.
Qed.

Lemma shutdown_steps d : dispatcher_ok d ->
  exists d', shutdown d = Ok d' /\ steps no_delta d d' /\ active_requests d' = ∅.
Proof.
  intros Hd. unfold shutdown. rewrite shutdown_loop by done. cbn [res_bind]. set (keys := (hash_entries (active_requests d)).*1).
  assert (Hlen : length keys = size (active_requests d)) by (unfold keys; rewrite length_fmap, hash_entries_perm; apply length_map_to_list).
  rewrite take_ge by lia. set (d1 := notify_all keys (Err ClientShutdown) d). eexists. split; [done|]. split; [|done].
  split; [apply map_Forall_empty|]. split; [|split].
  - eapply progresses_trans; [apply (notify_all_progresses keys (Err ClientShutdown))|]. by apply (progresses_emit ProviderShutdown (set_active ∅ d1)).
  - intros tk. unfold balance, no_delta. rewrite answered_emit. cbn [is_answer]. rewrite (pending_inactive tk) by done.
    change (answered tk (set_active ∅ d1)) with (answered tk d1). unfold d1. rewrite notify_all_answered.
    2:{ unfold keys. rewrite hash_entries_perm. apply NoDup_fst_map_to_list. }
    unfold pending. assert (tk ∈ keys <-> is_Some (active_requests d !! tk)) as Hk.
    { unfold keys. rewrite hash_entries_perm, list_elem_of_fmap. split.
      - intros ([k t] & -> & Hin). apply elem_of_map_to_list in Hin. eauto.
      - intros [t Ht]. exists (tk, t). split; [done|]. by apply elem_of_map_to_list. }
    do 2 case_decide; tauto || lia.
  - intros tk t' Ht'. cbn in Ht'. by rewrite lookup_empty in Ht'.
Qed.

Lemma hash_entries_lookup {K A} `{Countable K} {HO : HashOrder K A} (m : gmap K A) i k v :
  hash_entries m !! i = Some (k, v) -> m !! k = Some v /\ (i < size m)%nat.
Proof.
  intros Hi. split.
  - apply elem_of_map_to_list. rewrite <- hash_entries_perm. by eapply list_elem_of_lookup_2.
  - apply lookup_lt_Some in Hi. by rewrite hash_entries_perm, length_map_to_list in Hi.
Qed.

Lemma hash_entries_end {K A} `{Countable K} {HO : HashOrder K A} (m : gmap K A) i :
  hash_entries m !! i = None -> (size m <= i)%nat.
Proof. intros Hi. apply lookup_ge_None in Hi. by rewrite hash_entries_perm, length_map_to_list in Hi. Qed.

Abbreviation Cache := (gmap SocketAddr (Z * DateTime)).

(** Half of the entries from the index on: the next index after a removal skips one. *)
Definition left_over (n i : nat) : nat := Nat.min n ((n + i) / 2).

Lemma left_over_S n i : (i <= n)%nat -> left_over (S n) i = left_over n (i + 1).
Proof.
  intros Hi. unfold left_over. replace (S n + i)%nat with (n + (i + 1))%nat by lia.
  assert ((n + (i + 1)) / 2 <= n)%nat by (pose proof (Nat.div_mod_eq (n + (i + 1)) 2); lia). lia.
Qed.

(** The loop ends and removes expired entries only; of [n] expired entries, half are left. *)
Lemma clean_loop_ok now fuel i (c : Cache) : (size c < fuel + i)%nat -> (0 < fuel)%nat ->
  exists c', clean_loop fuel now i c = Ok c' /\ c' ⊆ c /\
    (forall a v, c !! a = Some v -> is_expired now v.2 = false -> c' !! a = Some v) /\
    (map_Forall (fun _ v => is_expired now v.2 = true) c -> size c' = left_over (size c) i).
Proof.
  revert i c. induction fuel as [|fuel IH]; intros i c Hf Hpos; [lia|]. cbn [clean_loop].
  destruct (hash_entries c !! i) as [[a [id prev]]|] eqn:E.
  - apply hash_entries_lookup in E as [Hl Hi]. destruct (is_expired now prev) eqn:He.
    + assert (Hsz : size c = S (size (delete a c))) by (rewrite map_size_delete_Some by eauto; lia).
      destruct (IH (i + 1)%nat (delete a c)) as (c' & -> & Hsub & Hkeep & Hsize); [lia|lia|]. exists c'. split; [done|].
      split; [etransitivity; [exact Hsub|apply delete_subseteq]|]. split.
      * intros b v Hb Hv. apply Hkeep; [|done]. rewrite lookup_delete_ne; [done|]. intros <-. rewrite Hl in Hb. injection Hb as <-. cbn in Hv. congruence.
      * intros Hall. rewrite Hsize by (by apply map_Forall_delete). rewrite Hsz, left_over_S by lia. done.
    + destruct (IH (i + 1)%nat c) as (c' & -> & Hsub & Hkeep & _); [lia|lia|]. exists c'. split; [done|]. split; [done|]. split; [done|].
      intros Hall. specialize (Hall a _ Hl). cbn in Hall. congruence.
  - exists c. split; [done|]. split; [done|]. split; [done|]. intros _. apply hash_entries_end in E. unfold left_over.
    assert (size c <= (size c + i) / 2)%nat by (apply Nat.div_le_lower_bound; lia). lia.
Qed.

Lemma clean_expired_ok now (c : Cache) :
  exists c', clean_expired now c = Ok c' /\ c' ⊆ c /\
    (forall a v, c !! a = Some v -> is_expired now v.2 = false -> c' !! a = Some v) /\
    (map_Forall (fun _ v => is_expired now v.2 = true) c -> size c' = (size c / 2)%nat).
Proof.
  destruct (clean_loop_ok now (S (size c)) 0 c) as (c' & E & Hsub & Hkeep & Hsize); [lia|lia|].
  exists c'. split; [done|]. split; [done|]. split; [done|]. intros Hall. rewrite (Hsize Hall). unfold left_over. rewrite Nat.add_0_r.
  assert (size c / 2 <= size c)%nat by (apply Nat.Div0.div_le_upper_bound; lia). lia.
Qed.

Lemma cleanup_steps tick d : dispatcher_ok d -> is_Some (new_timeout tick) ->
  exists d', timeout hid hport tick TimeoutCleanUp d = Ok d' /\ steps no_delta d d'.
Proof.
  intros Hd [id Hid]. unfold timeout. destruct (clean_expired_ok (get_time tick) (id_cache d)) as (c & -> & _). cbn [res_bind].
  rewrite Hid. cbn [or_panic res_bind]. eexists. split; [done|]. exact (emit_steps (SetTimeout TimeoutCleanUp CONNECTION_ID_VALID_DURATION_MILLIS id) (set_cache c d) eq_refl Hd).
Qed.

End Facts.
