(* ===== verification/TrackerClientSpec.v ===== *)
(** * The UDP tracker client: the properties

    Every request is answered once, an unanswered one is sent nine times with growing
    timeouts, a client and a server that exchange datagrams complete an announce, and
    what the cache of connection ids keeps. *)

From stdpp Require Import gmap.
From S2P Require Import Prelude RustStd Words UtilSha UtilConvert Chrono UtilTrans Nom TrackerMessage TrackerMessageSpec TrackerClient TrackerClientFacts.

Section Spec.
Context `{Chrono} `{NL : NomLaws}.
Context {HO1 : HashOrder Z (list Z)} {HO2 : HashOrder SocketAddr (Z * DateTime)} {HO3 : HashOrder Z ConnectTimer}.
Context (hid : ShaHash) (hport : Z).

Implicit Types d : ClientDispatcher.

Lemma keys_functional {K A} (l : list (K * A)) k a b : NoDup l.*1 -> (k, a) ∈ l -> (k, b) ∈ l -> a = b.
Proof.
  induction l as [|[k' c] l IH]; intros Hnd Ha Hb; [by apply not_elem_of_nil in Ha|]. cbn [fmap list_fmap fst] in Hnd.
  apply NoDup_cons in Hnd as [Hni Hnd]. apply elem_of_cons in Ha as [[= -> ->]|Ha], Hb as [[= ?]|Hb]; subst; try done.
  - exfalso. apply Hni, list_elem_of_fmap. by exists (k', b).
  - exfalso. apply Hni, list_elem_of_fmap. by exists (k', a).
  - by apply IH.
Qed.

(** ** Runs of the event loop *)

(** The events the loop can have: the timer wheel has room, requests and datagrams
    have their types. *)
Definition event_ok (ev : Tick * Event) : Prop :=
  is_Some (new_timeout ev.1) /\
  match ev.2 with
  | EvNotify (MsgRequest _ _ req) => client_request_ok req
  | EvIncoming message _ => bytes_ok message
  | _ => True
  end.

(** The requests among the events: token and address. *)
Definition requested_by (ev : Tick * Event) : list (Z * SocketAddr) :=
  match ev.2 with EvNotify (MsgRequest addr token _) => [(token, addr)] | _ => [] end.
Definition requested (evs : list (Tick * Event)) : list (Z * SocketAddr) := concat (map requested_by evs).

(** A response with the token came from another address than the request went to. *)
Definition misled (evs : list (Tick * Event)) (token : Z) (addr : SocketAddr) : Prop :=
  exists tick bytes from rest response, (tick, EvIncoming bytes from) ∈ evs /\
    parse_tracker_response bytes = Done rest response /\ response_transaction_id response = token /\ from <> addr.

Lemma requested_snoc evs ev : requested (evs ++ [ev]) = requested evs ++ requested_by ev.
Proof. unfold requested. rewrite map_app, concat_app. cbn [map concat]. by rewrite app_nil_r. Qed.

Lemma misled_snoc evs ev token addr : misled evs token addr -> misled (evs ++ [ev]) token addr.
Proof. intros (tick & b & f & rest & r & Hin & Hm). exists tick, b, f, rest, r. split; [set_solver|done]. Qed.

(** An event that is not a request: the tokens keep their balance, or a response came
    from another address and its request is forgotten. *)
Lemma dispatch_steps ev d : handshaker_ok hid hport -> dispatcher_ok d -> event_ok ev -> requested_by ev = [] ->
  exists d', dispatch_event hid hport ev d = Ok d' /\
    (steps no_delta d d' \/
     exists tick bytes from rest response t, ev = (tick, EvIncoming bytes from) /\ parse_tracker_response bytes = Done rest response /\
       active_requests d !! response_transaction_id response = Some t /\ timer_addr t <> from /\
       d' = set_active (delete (response_transaction_id response) (active_requests d)) d).
Proof.
  intros Hh Hd [Hid Hev] Hreq. destruct ev as [tick [[addr token req| |]|[token|]|bytes from]]; cbn [fst snd dispatch_event notify] in *.
  - done.
  - destruct (cleanup_steps hid hport tick d Hd Hid) as (d' & E & Hs). exists d'. split; [exact E|by left].
  - destruct (shutdown_steps d Hd) as (d' & E & Hs & _). exists d'. split; [exact E|by left].
  - cbn [timeout]. destruct (active_requests d !! token) as [t|] eqn:Ht.
    + destruct (process_steps hid hport tick token true d t) as (d' & E & Hs); [done|by apply ready_ok|done|]. exists d'. split; [done|by left].
    + exists d. split; [unfold client_process_request; by rewrite Ht|left; by apply steps_refl].
  - destruct (cleanup_steps hid hport tick d Hd Hid) as (d' & E & Hs). exists d'. split; [exact E|by left].
  - unfold incoming. assert (Hp := response_parses bytes Hev). destruct (parse_tracker_response bytes) as [rest response| | |] eqn:Ep; try done.
    + destruct Hp as (_ & _ & Hr). destruct (recv_steps hid hport tick from response d Hh Hd Hr Hid) as (d' & E & [[_ Hs]|[(t & Ht & Hne) ->]]).
      * exists d'. split; [done|by left].
      * eexists. split; [done|]. right. exists tick, bytes, from, rest, response, t. done.
    + exists d. split; [done|left; by apply steps_refl].
    + exists d. split; [done|left; by apply steps_refl].
Qed.

(** What holds of a run. *)
Definition run_inv (lim : RequestLimiter) (evs : list (Tick * Event)) d : Prop :=
  dispatcher_ok d /\
  wrap 64 (lim_active (limiter d) + Z.of_nat (acknowledged d)) = wrap 64 (lim_active lim) /\
  (forall tk t, active_requests d !! tk = Some t -> (tk, timer_addr t) ∈ requested evs) /\
  (forall tk, tk ∉ (requested evs).*1 -> balance tk d = 0%nat) /\
  (forall tk addr, (tk, addr) ∈ requested evs -> balance tk d = 1%nat \/ (balance tk d = 0%nat /\ misled evs tk addr)).

Lemma run_inv_request lim evs d tick addr token req : handshaker_ok hid hport -> run_inv lim evs d ->
  event_ok (tick, EvNotify (MsgRequest addr token req)) -> token ∉ (requested evs).*1 ->
  exists d', send_request hid hport tick addr token req d = Ok d' /\
    run_inv lim (evs ++ [(tick, EvNotify (MsgRequest addr token req))]) d'.
Proof.
  intros Hh (Hd & Hl & Ha & Hz & Hb) [Hid Hr] Hni. cbn [fst snd] in *.
  assert (active_requests d !! token = None) as Hn.
  { destruct (active_requests d !! token) as [t|] eqn:E; [|done]. apply Ha in E. exfalso. apply Hni, list_elem_of_fmap. eexists; split; [|exact E]. done. }
  destruct (send_steps hid hport tick addr token req d Hh Hd Hr Hn Hid) as (d' & E & Hd' & Hp & Hbal & Hact). exists d'. split; [done|].
  destruct Hp as (_ & _ & _ & Hp). unfold run_inv. rewrite requested_snoc. cbn [requested_by snd]. split_and!; [done|by rewrite Hp| | |].
  - intros tk t' Ht'. destruct (Hact tk t' Ht') as [(t & Ht & ->)|[-> ->]]; [|set_solver]. apply elem_of_app. left. by apply Ha.
  - intros tk Htk. rewrite fmap_app, not_elem_of_app in Htk. destruct Htk as [H1 H2]. specialize (Hbal tk). rewrite (Hz tk H1) in Hbal.
    unfold one_at in Hbal. destruct (Z.eqb_spec token tk) as [->|]; [set_solver|lia].
  - intros tk a Hin. specialize (Hbal tk). unfold one_at in Hbal. apply elem_of_app in Hin as [Hin|Hin].
    + destruct (Z.eqb_spec token tk) as [->|]; [exfalso; apply Hni, list_elem_of_fmap; by exists (tk, a)|].
      destruct (Hb tk a Hin) as [Hv|[Hv Hm]]; rewrite Hv in Hbal; [left; lia|right]. split; [lia|by apply misled_snoc].
    + apply list_elem_of_singleton in Hin. injection Hin as -> ->. rewrite Z.eqb_refl, (Hz token Hni) in Hbal. left. lia.
Qed.

Lemma run_inv_other lim evs d ev : handshaker_ok hid hport -> run_inv lim evs d -> NoDup (requested evs).*1 -> event_ok ev -> requested_by ev = [] ->
  exists d', dispatch_event hid hport ev d = Ok d' /\ run_inv lim (evs ++ [ev]) d'.
Proof.
  intros Hh (Hd & Hl & Ha & Hz & Hb) Hnd Hev Hreq. destruct (dispatch_steps ev d Hh Hd Hev Hreq) as (d' & E & Hcase).
  exists d'. split; [done|]. unfold run_inv. rewrite requested_snoc, Hreq, app_nil_r.
  destruct Hcase as [(Hd' & (_ & _ & _ & Hp) & Hbal & Hact)|(tick & b & f & rest & r & t & -> & Hparse & Ht & Hne & ->)].
  - split_and!; [done|by rewrite Hp| | |].
    + intros tk t' Ht'. destruct (Hact tk t' Ht') as (t & Ht & ->). by apply Ha.
    + intros tk Htk. specialize (Hbal tk). unfold no_delta in Hbal. rewrite (Hz tk Htk) in Hbal. lia.
    + intros tk a Hin. specialize (Hbal tk). unfold no_delta in Hbal. destruct (Hb tk a Hin) as [Hv|[Hv Hm]]; rewrite Hv in Hbal; [left; lia|right].
      split; [lia|by apply misled_snoc].
  - set (token := response_transaction_id r) in *. assert (Hb0 : forall tk, tk <> token -> balance tk (set_active (delete token (active_requests d)) d) = balance tk d).
    { intros tk Htk. unfold balance. rewrite pending_delete. by destruct (Z.eqb_spec token tk). }
    assert (balance token (set_active (delete token (active_requests d)) d) = 0%nat) as Hbt.
    { unfold balance. rewrite pending_delete, Z.eqb_refl. change (answered token (set_active ?x d)) with (answered token d).
      assert (balance token d <= 1)%nat by (destruct (Hb token (timer_addr t) (Ha token t Ht)) as [->|[-> _]]; lia).
      unfold balance in *. rewrite (pending_active token d t Ht) in *. lia. }
    split_and!; [by apply dispatcher_ok_delete|done| | |].
    + intros tk t' Ht'. cbn in Ht'. apply lookup_delete_Some in Ht' as [_ Ht']. by apply Ha.
    + intros tk Htk. destruct (decide (tk = token)) as [->|]; [done|]. rewrite Hb0 by done. by apply Hz.
    + intros tk a Hin. destruct (decide (tk = token)) as [->|Htk].
      * right. split; [done|]. exists tick, b, f, rest, r. split; [set_solver|]. split; [done|]. split; [done|]. intros <-.
        apply Hne. assert (Hin' := Ha token t Ht). by eapply (keys_functional (requested evs)).
      * rewrite Hb0 by done. destruct (Hb tk a Hin) as [->|[-> Hm]]; [by left|right]. split; [done|by apply misled_snoc].
Qed.

Lemma dispatch_all_snoc evs ev d : dispatch_all hid hport (evs ++ [ev]) d =
  (let? d := dispatch_all hid hport evs d in dispatch_event hid hport ev d).
Proof. unfold dispatch_all. by rewrite foldl_app. Qed.

(** C5: the tracker client never panics and answers every request exactly once. For any
    sequence of requests with distinct tokens, timeouts (in any order, also of requests
    that are gone) and arbitrary datagrams: a requested token has either been answered
    once or is still active, unless a response with its token came from another
    address; a token never requested is never answered; and the shared counter of
    active requests has been lowered once for every answer. *)
Theorem requests_answered_once (bind : SocketAddr) (lim : RequestLimiter) (evs : list (Tick * Event)) :
  handshaker_ok hid hport -> Forall event_ok evs -> NoDup (requested evs).*1 ->
  exists d, dispatch_all hid hport evs (ClientDispatcher_new bind lim) = Ok d /\ dispatcher_ok d /\
    wrap 64 (lim_active (limiter d) + Z.of_nat (acknowledged d)) = wrap 64 (lim_active lim) /\
    (forall token, token ∉ (requested evs).*1 -> (answered token d + pending token d = 0)%nat) /\
    (forall token addr, (token, addr) ∈ requested evs ->
      (answered token d + pending token d = 1)%nat \/
      ((answered token d + pending token d = 0)%nat /\ misled evs token addr)).
Proof.
  intros Hh Hev Hnd. assert (exists d, dispatch_all hid hport evs (ClientDispatcher_new bind lim) = Ok d /\ run_inv lim evs d) as (d & E & Hi).
  { induction evs as [|ev evs IH] using rev_ind.
    - eexists. split; [done|]. split_and!; [apply map_Forall_empty|by rewrite Z.add_0_r| | |].
      + intros tk t Ht. cbn in Ht. by rewrite lookup_empty in Ht.
      + intros tk _. unfold balance. by rewrite pending_inactive.
      + intros tk a Hin. by apply not_elem_of_nil in Hin.
    - apply Forall_app in Hev as [Hev [Hev1 _]%Forall_cons]. rewrite requested_snoc, fmap_app in Hnd. apply NoDup_app in Hnd as (Hnd & Hni & _).
      destruct (IH Hev Hnd) as (d & E & Hi). rewrite dispatch_all_snoc, E. cbn [res_bind].
      destruct (requested_by ev) as [|p l] eqn:Hr; [by apply run_inv_other|].
      destruct ev as [tick [[addr token req| |]|t|bytes from]]; try done. apply run_inv_request; [done..|].
      intros Hin. apply (Hni token Hin). cbn in Hr. injection Hr as <- <-. set_solver. }
  destruct Hi as (Hd & Hl & _ & Hz & Hb). exists d. done.
Qed.

(** ** An unanswered request *)

(** The datagrams sent so far, with the ids of their timers. *)
Definition transmissions (token : Z) (addr : SocketAddr) (sent : list (list Z * nat)) : list Effect :=
  concat (imap (fun k '(bytes, id) => [Outgoing bytes addr; SetTimeout (TimeoutConnect token) (15000 * 2 ^ Z.of_nat k) id]) sent).

Lemma transmissions_snoc token addr sent bytes id : transmissions token addr (sent ++ [(bytes, id)]) =
  transmissions token addr sent ++ [Outgoing bytes addr; SetTimeout (TimeoutConnect token) (15000 * 2 ^ Z.of_nat (length sent)) id].
Proof. unfold transmissions. rewrite imap_app, concat_app. cbn. by rewrite Nat.add_0_r, ?app_nil_r. Qed.

(** Each of them is a request with the token. *)
Definition sent_for (token : Z) (s : list Z * nat) : Prop :=
  exists cid rt, s.1 = TrackerRequest_write_bytes (TrackerRequest_new cid token rt).

Lemma sent_request_for tick token t d id : sent_for token (TrackerRequest_write_bytes (sent_request hid hport tick token t d), id).
Proof. unfold sent_request. destruct (resolve_request _ _ _ _ _ _) as [cid rt]. by exists cid, rt. Qed.

Lemma timeouts_resend ticks d0 tick0 addr token req : handshaker_ok hid hport -> client_request_ok req ->
  same_version (bound_addr d0) addr = true -> (length ticks <= 8)%nat -> Forall (fun t => is_Some (new_timeout t)) (tick0 :: ticks) ->
  exists d sent id,
    dispatch_all hid hport ((tick0, EvNotify (MsgRequest addr token req)) :: map (fun t => (t, EvTimeout (TimeoutConnect token))) ticks) d0 = Ok d /\
    active_requests d !! token = Some (mkTimer addr (Z.of_nat (length ticks)) req (Some id)) /\ length sent = S (length ticks) /\
    effects d = effects d0 ++ transmissions token addr sent /\ Forall (sent_for token) sent.
Proof.
  intros Hh Hr Hv. induction ticks as [|tick ticks IH] using rev_ind; intros Hl Hid.
  - apply Forall_cons in Hid as [[id Hid] _]. cbn [map]. unfold dispatch_all. cbn [foldl res_bind dispatch_event notify]. unfold send_request. rewrite Hv. cbn [negb].
    erewrite process_sends; [|done|apply lookup_insert_eq|done|cbn; unfold MAXIMUM_REQUEST_RETRANSMIT_ATTEMPTS; lia|done].
    eexists _, [(_, id)], id. split; [done|]. cbn [active_requests]. rewrite lookup_insert_eq. split; [done|]. split; [done|].
    split; [cbn [effects]; reflexivity|]. constructor; [apply sent_request_for|constructor].
  - rewrite length_app in Hl |- *. cbn [length] in Hl |- *. rewrite app_comm_cons in Hid. apply Forall_app in Hid as [Hid [[id Htick] _]%Forall_cons].
    destruct IH as (d & sent & id0 & E & Ha & Hs & He & Hf); [lia|done|]. rewrite map_app, app_comm_cons. cbn [map]. rewrite dispatch_all_snoc, E. cbn [res_bind dispatch_event timeout].
    erewrite process_sends; [|done|exact Ha|done|cbn; unfold MAXIMUM_REQUEST_RETRANSMIT_ATTEMPTS; lia|done].
    eexists _, (sent ++ [(_, id)]), id. split; [done|]. cbn [active_requests attempt timer_addr timer_request]. rewrite lookup_insert_eq.
    split; [f_equal; f_equal; lia|]. rewrite length_app, Hs. split; [cbn; lia|]. split.
    + cbn [effects]. rewrite transmissions_snoc, He, <- app_assoc, Hs. do 4 f_equal. f_equal. f_equal. lia.
    + apply Forall_app. split; [done|]. constructor; [apply sent_request_for|constructor].
Qed.

(** C31: a request that is never answered is sent nine times, each time as a request with
    its token to its address, with the timeouts of 15, 30, ..., 3840 seconds; when the
    last one expires the request is removed and the client gets [MaxTimeout]. *)
Theorem unanswered_request_times_out (d0 : ClientDispatcher) (tick0 : Tick) (ticks : list Tick) (addr : SocketAddr) (token : Z) (req : ClientRequest) :
  handshaker_ok hid hport -> client_request_ok req -> same_version (bound_addr d0) addr = true ->
  length ticks = 9%nat -> Forall (fun t => is_Some (new_timeout t)) (tick0 :: ticks) ->
  exists d sent,
    dispatch_all hid hport ((tick0, EvNotify (MsgRequest addr token req)) :: map (fun t => (t, EvTimeout (TimeoutConnect token))) ticks) d0 = Ok d /\
    effects d = effects d0 ++ transmissions token addr sent ++ [Metadata token (Err MaxTimeout)] /\
    length sent = 9%nat /\ Forall (sent_for token) sent /\ active_requests d !! token = None.
Proof.
  intros Hh Hr Hv Hl Hid. destruct ticks as [|last ticks _] using rev_ind; [done|]. rewrite length_app in Hl. cbn [length] in Hl.
  rewrite app_comm_cons in Hid. apply Forall_app in Hid as [Hid _].
  destruct (timeouts_resend ticks d0 tick0 addr token req Hh Hr Hv ltac:(lia) Hid) as (d & sent & id & E & Ha & Hs & He & Hf).
  rewrite map_app, app_comm_cons. cbn [map]. rewrite dispatch_all_snoc, E. cbn [res_bind dispatch_event timeout].
  erewrite process_cancels; [|exact Ha|cbn; unfold MAXIMUM_REQUEST_RETRANSMIT_ATTEMPTS; lia].
  eexists _, sent. split; [done|]. split; [cbn; by rewrite He, <- app_assoc|]. split; [lia|]. split; [done|]. apply lookup_delete_eq.
Qed.

End Spec.

(** * The UDP tracker client: exchanges, the cache and deviations

    A client and a server of [TrackerClient] that pass each other datagrams, the cache
    of connection ids, and the witnesses of [TrackerClientSpec]. *)

Section Exchange.
Context `{Chrono} `{NL : NomLaws} `{SH : ServerHandler}.
Context {HO1 : HashOrder Z (list Z)} {HO2 : HashOrder SocketAddr (Z * DateTime)} {HO3 : HashOrder Z ConnectTimer}.
Context (hid : ShaHash) (hport : Z).

Implicit Types d : ClientDispatcher.

(** The server answers a well-formed request with what its handler gives back. *)
Lemma server_answers (t : TrackerRequest) addr h h' bytes : request_ok t ->
  server_process_request t addr h = (h', bytes) ->
  server_incoming (TrackerRequest_write_bytes t) addr h = Ok (h', bytes).
Proof. intros Ht E. unfold server_incoming. by rewrite parse_request_write, E. Qed.

(** A client that gets the bytes of a response. *)
Lemma client_receives tick addr (r : TrackerResponse) d : response_ok r ->
  incoming hid hport tick (TrackerResponse_write_bytes r) addr d = recv_response hid hport tick addr r d.
Proof. intros Hr. unfold incoming. by rewrite parse_response_write. Qed.

Lemma fits_response (r : TrackerResponse) : (length (TrackerResponse_write_bytes r) <= EXPECTED_PACKET_LENGTH)%nat ->
  write_response r = Some (TrackerResponse_write_bytes r).
Proof. intros Hl. unfold write_response. by destruct (Nat.leb_spec (length (TrackerResponse_write_bytes r)) EXPECTED_PACKET_LENGTH); [|lia]. Qed.

Lemma connect_fits tid cid : (length (TrackerResponse_write_bytes (TrackerResponse_new tid (ResConnect cid))) <= EXPECTED_PACKET_LENGTH)%nat.
Proof.
  unfold TrackerResponse_write_bytes. cbn [response_type response_transaction_id]. rewrite !length_app, !length_write.
  apply Nat.leb_le. vm_compute. reflexivity.
Qed.

(** The announce request the client builds. *)
Definition announce_of (tick : Tick) (addr : SocketAddr) (hash : ShaHash) (st : ClientState) : AnnounceRequest :=
  AnnounceRequest_new hash hid st (match addr with V4 _ => ImpliedV4 | V6 _ => ImpliedV6 end) (random_key tick)
    DesiredDefault hport (mkOptions ∅).

Lemma announce_of_ok tick addr hash st : handshaker_ok hid hport -> sha_ok hash -> client_state_ok st -> is_u32 (random_key tick) ->
  announce_request_ok (announce_of tick addr hash st).
Proof.
  intros [Hid Hp] Hh Hs Hk. unfold announce_of. split_and!; try done. by destruct addr.
Qed.

Lemma recv_connect tick addr token cid d t id : active_requests d !! token = Some t -> timer_addr t = addr -> timeout_id t = Some id ->
  recv_response hid hport tick addr (TrackerResponse_new token (ResConnect cid)) d =
  client_process_request hid hport tick token false
    (mkDispatcher (bound_addr d) (active_requests d) (cache_put (put_time tick) addr cid (id_cache d)) (limiter d) (effects d ++ [ClearTimeout id])).
Proof.
  intros Ht Ha Hid. unfold recv_response. cbn [response_transaction_id response_type]. rewrite Ht, bool_decide_true by done. cbn [negb].
  rewrite Hid. cbn [or_panic res_bind]. f_equal. unfold set_active, set_cache, emit. cbn [bound_addr active_requests id_cache limiter effects].
  by rewrite insert_delete_eq, insert_id.
Qed.

Lemma connects_effects hash peers d :
  effects (foldl (fun d addr => emit (HandshakerConnect hash addr) d) d peers) = effects d ++ map (HandshakerConnect hash) peers /\
  active_requests (foldl (fun d addr => emit (HandshakerConnect hash addr) d) d peers) = active_requests d.
Proof.
  revert d. induction peers as [|p peers IH]; intros d; cbn [foldl map]; [by rewrite app_nil_r|].
  destruct (IH (emit (HandshakerConnect hash p) d)) as [-> ->]. cbn [emit effects active_requests]. by rewrite <- app_assoc.
Qed.

Lemma recv_announce tick addr token res d t id hash st peers : active_requests d !! token = Some t -> timer_addr t = addr -> timeout_id t = Some id ->
  timer_request t = AnnounceReq hash st -> CompactPeers_iter (an_peers res) = Ok peers ->
  exists d', recv_response hid hport tick addr (TrackerResponse_new token (ResAnnounce res)) d = Ok d' /\
    effects d' = effects d ++ [ClearTimeout id] ++ map (HandshakerConnect hash) peers ++ [Metadata token (Ok (AnnounceRes res))] /\
    active_requests d' !! token = None.
Proof.
  intros Ht Ha Hid Hr Hp. unfold recv_response. cbn [response_transaction_id response_type]. rewrite Ht, bool_decide_true by done. cbn [negb].
  rewrite Hid. cbn [or_panic res_bind]. rewrite Hr, Hp. cbn [res_unwrap res_bind]. eexists. split; [done|]. unfold notify_client. cbn [emit effects active_requests].
  set (d1 := emit (ClearTimeout id) _). destruct (connects_effects hash peers d1) as [-> ->]. cbn [d1 emit effects active_requests set_active].
  split; [by rewrite <- !app_assoc|]. apply lookup_delete_eq.
Qed.

(** C6: an announce works end to end. The client sends a connect request, the server of
    this library parses it and answers with the connection id of its handler; the
    client, on that answer, sends the announce request with the info hash and state it
    was given and with that connection id, the server hands exactly this request to
    its handler and sends the handler's response; the client hands every peer of the
    response to the handshaker, in order, and reports the response. Each timer that was
    started is cleared. *)
Theorem announce_exchange (d : ClientDispatcher) (h h1 h2 : Handler) (t1 t2 t3 : Tick) (id1 id2 : nat) (addr caddr : SocketAddr) (token : Z)
    (hash : ShaHash) (st : ClientState) (cid : Z) (res : AnnounceResponse) :
  handshaker_ok hid hport -> sha_ok hash -> client_state_ok st -> is_u32 token -> is_u32 (random_key t2) ->
  same_version (bound_addr d) addr = true -> id_cache d !! addr = None ->
  new_timeout t1 = Some id1 -> new_timeout t2 = Some id2 -> is_expired (get_time t2) (put_time t2) = false ->
  handler_connect caddr h = (h1, Some (Ok cid)) -> is_u64 cid ->
  handler_announce caddr cid (announce_of t2 addr hash st) h1 = (h2, Some (Ok res)) -> announce_response_ok res ->
  (length (TrackerResponse_write_bytes (TrackerResponse_new token (ResAnnounce res))) <= EXPECTED_PACKET_LENGTH)%nat ->
  exists d1 d2 d3 m1 m2 r1 r2 peers,
    send_request hid hport t1 addr token (AnnounceReq hash st) d = Ok d1 /\
    effects d1 = effects d ++ [Outgoing m1 addr; SetTimeout (TimeoutConnect token) 15000 id1] /\
    server_incoming m1 caddr h = Ok (h1, Some r1) /\
    incoming hid hport t2 r1 addr d1 = Ok d2 /\
    effects d2 = effects d1 ++ [ClearTimeout id1; Outgoing m2 addr; SetTimeout (TimeoutConnect token) 15000 id2] /\
    server_incoming m2 caddr h1 = Ok (h2, Some r2) /\
    CompactPeers_iter (an_peers res) = Ok peers /\
    incoming hid hport t3 r2 addr d2 = Ok d3 /\
    effects d3 = effects d2 ++ [ClearTimeout id2] ++ map (HandshakerConnect hash) peers ++ [Metadata token (Ok (AnnounceRes res))] /\
    active_requests d3 !! token = None.
Proof.
  intros Hh Hhash Hst Htok Hkey Hv Hcache Ht1 Ht2 Hexp Hconn Hcid Hann Hres Hfit.
  destruct (peers_iterate (an_peers res)) as [peers Hpeers]; [apply Hres|].
  assert (Hmax : 0 <= 0 < MAXIMUM_REQUEST_RETRANSMIT_ATTEMPTS) by (unfold MAXIMUM_REQUEST_RETRANSMIT_ATTEMPTS; lia).
  set (d0 := set_active (<[token := ConnectTimer_new addr (AnnounceReq hash st)]> (active_requests d)) d).
  assert (E1 := process_sends hid hport t1 token false d0 (ConnectTimer_new addr (AnnounceReq hash st)) id1 Hh (lookup_insert_eq _ _ _) (conj Hhash Hst) Hmax Ht1).
  cbn zeta in E1. match type of E1 with _ = Ok ?x => set (d1 := x) in E1 end.
  set (d1' := mkDispatcher (bound_addr d1) (active_requests d1) (cache_put (put_time t2) addr cid (id_cache d1)) (limiter d1) (effects d1 ++ [ClearTimeout id1])).
  assert (Ha1 : active_requests d1 !! token = Some (mkTimer addr 0 (AnnounceReq hash st) (Some id1))) by apply lookup_insert_eq.
  assert (E2 := process_sends hid hport t2 token false d1' _ id2 Hh Ha1 (conj Hhash Hst) Hmax Ht2).
  cbn zeta in E2. match type of E2 with _ = Ok ?x => set (d2 := x) in E2 end.
  assert (Ha2 : active_requests d2 !! token = Some (mkTimer addr 0 (AnnounceReq hash st) (Some id2))) by apply lookup_insert_eq.
  destruct (recv_announce t3 addr token res d2 _ id2 hash st peers Ha2 eq_refl eq_refl eq_refl Hpeers) as (d3 & E3 & He3 & Ha3).
  exists d1, d2, d3, (TrackerRequest_write_bytes (TrackerRequest_new CONNECT_ID_PROTOCOL_ID token ReqConnect)),
    (TrackerRequest_write_bytes (TrackerRequest_new cid token (ReqAnnounce (announce_of t2 addr hash st)))),
    (TrackerResponse_write_bytes (TrackerResponse_new token (ResConnect cid))),
    (TrackerResponse_write_bytes (TrackerResponse_new token (ResAnnounce res))), peers.
  split_and!; try done.
  - unfold send_request. rewrite Hv. exact E1.
  - cbn [d1 effects]. unfold sent_request, cache_get. cbn [d0 set_active id_cache ConnectTimer_new timer_addr]. by rewrite Hcache.
  - apply server_answers; [split; [in_range|by split]|]. unfold server_process_request, forward_connect. cbn [request_type connection_id request_transaction_id].
    rewrite Z.eqb_refl, Hconn. cbn [respond]. by rewrite fits_response by apply connect_fits.
  - rewrite client_receives by done. rewrite (recv_connect t2 addr token cid d1 _ id1 Ha1 eq_refl eq_refl). exact E2.
  - cbn [d2 effects d1']. unfold sent_request, cache_get. cbn [id_cache timer_addr d1']. unfold cache_put. rewrite lookup_insert_eq, Hexp. cbn [fst snd].
    by rewrite <- app_assoc.
  - apply server_answers; [by split; [|split; [|apply announce_of_ok]]|]. unfold server_process_request, forward_announce.
    cbn [request_type connection_id request_transaction_id]. rewrite Hann. cbn [respond]. by rewrite fits_response.
  - by rewrite client_receives.
Qed.

End Exchange.

(** ** Connection ids *)

Section Ids.
Context `{Chrono} {HO2 : HashOrder SocketAddr (Z * DateTime)}.

Lemma is_expired_ns now prev : is_expired now prev = (60000 * NS_PER_MILLISECOND <=? dt_ns now - dt_ns prev).
Proof. unfold is_expired. by rewrite dur_geb_ns, dur_ns_milliseconds, dur_ns_since. Qed.

(** Connection ids are used for less than a minute: an id that was put is found for an
    address exactly when less than 60 seconds have passed, other addresses are not
    affected, and cleaning the cache ends and removes no id that is still valid.
    Cleaning does not remove every expired id, though: the index moves on after a
    removal, so of [n] expired ids [n / 2] are left, in whatever order they are visited. *)
Lemma connection_ids_expire (now put_at : DateTime) (addr other : SocketAddr) (id : Z) (cache : gmap SocketAddr (Z * DateTime)) :
  other <> addr ->
  (cache_get now addr (cache_put put_at addr id cache)).1 =
    (if dt_ns now - dt_ns put_at <? 60000 * NS_PER_MILLISECOND then Some id else None) /\
  (cache_get now other (cache_put put_at addr id cache)).1 = (cache_get now other cache).1 /\
  exists cleaned, clean_expired now cache = Ok cleaned /\ cleaned ⊆ cache /\
    (forall a v, cache !! a = Some v -> is_expired now v.2 = false -> cleaned !! a = Some v) /\
    (map_Forall (fun _ v => is_expired now v.2 = true) cache -> size cleaned = (size cache / 2)%nat).
Proof.
  intros Hne. split; [|split; [|apply clean_expired_ok]].
  - unfold cache_get, cache_put. rewrite lookup_insert_eq, is_expired_ns.
    destruct (Z.leb_spec (60000 * NS_PER_MILLISECOND) (dt_ns now - dt_ns put_at)), (Z.ltb_spec (dt_ns now - dt_ns put_at) (60000 * NS_PER_MILLISECOND)); done || lia.
  - unfold cache_get, cache_put. rewrite lookup_insert_ne by done. destruct (cache !! other) as [[i p]|]; [|done]. by destruct (is_expired now p).
Qed.

End Ids.

(** ** Samples and witnesses *)

Definition sample_client_addr : SocketAddr := V4 (SocketAddrV4_new (Ipv4Addr_new 10 0 0 2) 6881).
Definition sample_tracker_addr : SocketAddr := V4 (SocketAddrV4_new (Ipv4Addr_new 10 0 0 1) 6969).
Definition sample_stranger_addr : SocketAddr := V4 (SocketAddrV4_new (Ipv4Addr_new 10 6 6 6) 6969).
Definition sample_tick (n : nat) : Tick := mkTick (H := chrono_Z) (Z.of_nat n) (Z.of_nat n) 7 (Some n).
Definition sample_hid : ShaHash := mkShaHash (replicate 20 9).
Definition sample_req : ClientRequest := AnnounceReq (mkShaHash (replicate 20 1)) (ClientState_new 0 10 0 EventStarted).
Definition sample_connect_bytes : list Z :=
  TrackerResponse_write_bytes (H := nom_reference) (TrackerResponse_new 5 (ResConnect 77)).
Definition sample_events : list (Tick * Event) :=
  [(sample_tick 0, EvNotify MsgStartTimer); (sample_tick 1, EvNotify (MsgRequest sample_tracker_addr 5 sample_req));
   (sample_tick 2, EvIncoming sample_connect_bytes sample_tracker_addr); (sample_tick 3, EvTimeout (TimeoutConnect 5))].
Definition sample_dispatcher : ClientDispatcher := ClientDispatcher_new sample_client_addr (mkLimiter 1 4096).

Lemma sample_handshaker : handshaker_ok sample_hid 6881.
Proof. repeat split; try (vm_compute; congruence). apply (bool_decide_unpack _). vm_compute. exact I. Qed.

Lemma sample_req_ok : client_request_ok sample_req.
Proof. repeat split; try (vm_compute; congruence). apply (bool_decide_unpack _). vm_compute. exact I. Qed.

Lemma requests_answered_once_witness :
  exists d, dispatch_all (H0 := nom_reference) sample_hid 6881 sample_events sample_dispatcher = Ok d /\ dispatcher_ok d /\
    wrap 64 (lim_active (limiter d) + Z.of_nat (acknowledged d)) = wrap 64 1 /\
    (forall token, token ∉ (requested sample_events).*1 -> (answered token d + pending token d = 0)%nat) /\
    (forall token addr, (token, addr) ∈ requested sample_events ->
      (answered token d + pending token d = 1)%nat \/
      ((answered token d + pending token d = 0)%nat /\ misled (N1 := nom_reference) sample_events token addr)).
Proof.
  apply (requests_answered_once (NL := nom_reference_lawful) sample_hid 6881 sample_client_addr (mkLimiter 1 4096) sample_events).
  - apply sample_handshaker.
  - repeat constructor; try done; apply sample_req_ok || (apply (bool_decide_unpack _); vm_compute; exact I).
  - apply (bool_decide_unpack _). vm_compute. exact I.
Defined.

Lemma unanswered_request_times_out_witness :
  exists d sent,
    dispatch_all (H0 := nom_reference) sample_hid 6881 ((sample_tick 0, EvNotify (MsgRequest sample_tracker_addr 5 sample_req)) ::
      map (fun t => (t, EvTimeout (TimeoutConnect 5))) (map sample_tick (seq 1 9))) sample_dispatcher = Ok d /\
    effects d = [] ++ transmissions 5 sample_tracker_addr sent ++ [Metadata 5 (Err MaxTimeout)] /\
    length sent = 9%nat /\ Forall (sent_for (N1 := nom_reference) 5) sent /\ active_requests d !! 5 = None.
Proof.
  apply (unanswered_request_times_out (NL := nom_reference_lawful) sample_hid 6881 sample_dispatcher (sample_tick 0)); try done.
  - apply sample_handshaker.
  - apply sample_req_ok.
  - repeat constructor; by eexists.
Defined.

(** A handler that gives every client the connection id 77 and one peer. *)
Definition sample_announced : AnnounceResponse := AnnounceResponse_new 1800 0 1 (PeersV4 (mkPeersV4 [10; 0; 0; 7; 26; 225])).
Definition sample_handler : ServerHandler := {|
  Handler := nat;
  handler_connect _ h := (S h, Some (Ok 77));
  handler_announce _ _ _ h := (S h, Some (Ok sample_announced));
  handler_scrape _ _ _ h := (h, None)
|}.

Lemma announce_exchange_witness :
  exists d1 d2 d3 m1 m2 r1 r2 peers,
    send_request (H0 := nom_reference) sample_hid 6881 (sample_tick 0) sample_tracker_addr 5 sample_req sample_dispatcher = Ok d1 /\
    effects d1 = [] ++ [Outgoing m1 sample_tracker_addr; SetTimeout (TimeoutConnect 5) 15000 0] /\
    server_incoming (H := sample_handler) (H0 := nom_reference) m1 sample_client_addr 0%nat = Ok (1%nat, Some r1) /\
    incoming (H0 := nom_reference) sample_hid 6881 (sample_tick 1) r1 sample_tracker_addr d1 = Ok d2 /\
    effects d2 = effects d1 ++ [ClearTimeout 0; Outgoing m2 sample_tracker_addr; SetTimeout (TimeoutConnect 5) 15000 1] /\
    server_incoming (H := sample_handler) (H0 := nom_reference) m2 sample_client_addr 1%nat = Ok (2%nat, Some r2) /\
    CompactPeers_iter (an_peers sample_announced) = Ok peers /\
    incoming (H0 := nom_reference) sample_hid 6881 (sample_tick 2) r2 sample_tracker_addr d2 = Ok d3 /\
    effects d3 = effects d2 ++ [ClearTimeout 1] ++ map (HandshakerConnect (mkShaHash (replicate 20 1))) peers ++
      [Metadata 5 (Ok (AnnounceRes sample_announced))] /\
    active_requests d3 !! 5 = None.
Proof.
  apply (announce_exchange (NL := nom_reference_lawful) (SH := sample_handler) sample_hid 6881 sample_dispatcher 0%nat 1%nat 2%nat
    (sample_tick 0) (sample_tick 1) (sample_tick 2) 0 1 sample_tracker_addr sample_client_addr 5
    (mkShaHash (replicate 20 1)) (ClientState_new 0 10 0 EventStarted) 77 sample_announced);
    try reflexivity; try apply sample_handshaker; try apply sample_req_ok;
    try (repeat split; vm_compute; congruence). apply Nat.leb_le. vm_compute. reflexivity.
Defined.

(** Two ids, both received more than a minute before [sample_late]. *)
Definition sample_late : DateTime (Chrono := chrono_Z) := 61000 * NS_PER_MILLISECOND.
Definition sample_cache : gmap SocketAddr (Z * DateTime (Chrono := chrono_Z)) :=
  <[sample_client_addr := (3, 0)]> {[sample_stranger_addr := (4, 1)]}.

Lemma connection_ids_expire_witness :
  (cache_get sample_late sample_tracker_addr (cache_put 2000000000 sample_tracker_addr 77 sample_cache)).1 =
    (if dt_ns sample_late - dt_ns (Chrono := chrono_Z) 2000000000 <? 60000 * NS_PER_MILLISECOND then Some 77 else None) /\
  (cache_get sample_late sample_client_addr (cache_put 2000000000 sample_tracker_addr 77 sample_cache)).1 =
    (cache_get sample_late sample_client_addr sample_cache).1 /\
  exists cleaned, clean_expired sample_late sample_cache = Ok cleaned /\ cleaned ⊆ sample_cache /\
    (forall a v, sample_cache !! a = Some v -> is_expired sample_late v.2 = false -> cleaned !! a = Some v) /\
    (map_Forall (fun _ v => is_expired sample_late v.2 = true) sample_cache -> size cleaned = (size sample_cache / 2)%nat).
Proof. apply (connection_ids_expire sample_late 2000000000 sample_tracker_addr sample_client_addr 77 sample_cache). done. Defined.

(** What the client does where it loses a request. A response with the token from any
    other address, whatever it says, makes the client forget the request: nothing is
    reported then or at its timeout, and the slot of the limiter is not given back.
    And a tracker that answers the connect request of the last attempt gets no request:
    the client reports [MaxTimeout] although nothing has timed out. *)
Lemma tracker_client_loses_requests :
  (exists d1 d2 d3, dispatch_all (H0 := nom_reference) sample_hid 6881
      [(sample_tick 0, EvNotify (MsgRequest sample_tracker_addr 5 sample_req))] sample_dispatcher = Ok d1 /\
    dispatch_event (H0 := nom_reference) sample_hid 6881 (sample_tick 1, EvIncoming sample_connect_bytes sample_stranger_addr) d1 = Ok d2 /\
    dispatch_event (H0 := nom_reference) sample_hid 6881 (sample_tick 2, EvTimeout (TimeoutConnect 5)) d2 = Ok d3 /\
    pending 5 d1 = 1%nat /\ pending 5 d3 = 0%nat /\ answered 5 d3 = 0%nat /\ effects d3 = effects d1 /\ lim_active (limiter d3) = 1) /\
  (exists d1 d2, dispatch_all (H0 := nom_reference) sample_hid 6881
      ((sample_tick 0, EvNotify (MsgRequest sample_tracker_addr 5 sample_req)) ::
       map (fun t => (t, EvTimeout (TimeoutConnect 5))) (map sample_tick (seq 1 8))) sample_dispatcher = Ok d1 /\
    dispatch_event (H0 := nom_reference) sample_hid 6881 (sample_tick 9, EvIncoming sample_connect_bytes sample_tracker_addr) d1 = Ok d2 /\
    pending 5 d1 = 1%nat /\ pending 5 d2 = 0%nat /\ effects d2 = effects d1 ++ [ClearTimeout 8; Metadata 5 (Err MaxTimeout)]).
Proof.
  split.
  - eexists _, _, _. split; [vm_compute; reflexivity|]. split; [vm_compute; reflexivity|]. split; [vm_compute; reflexivity|].
    repeat split; vm_compute; reflexivity.
  - eexists _, _. split; [vm_compute; reflexivity|]. split; [vm_compute; reflexivity|]. repeat split; vm_compute; reflexivity.
Qed.
