(* ===== verification/BencodeAccess.v ===== *)
(** * Access to bencode values

    Model of [bencode/access]: the trait [BRefAccess] with its implementations for
    [BencodeRef] and [BencodeMut], lists with their iterator, dictionaries, and the
    conversions of [BConvert] with their errors. A reading of a decoded value is the
    reading of the value without its buffers, so that what is true of an encoded value
    is true of the decoded one. *)

From S2P Require Import Prelude RustStd BTree Bencode BencodeGrammar.

(** ** [BRefAccess] *)

Class BRefAccess (B : Type) : Type := {
  acc_str : B -> option (list Z);
  acc_int : B -> option Z;
  acc_bytes : B -> option (list Z);
  acc_list : B -> option (list B);
  acc_dict : B -> option (list (list Z * B))
}.

Definition ref_bytes_ext (b : BencodeRef) : option (list Z) := match b with RBytes n _ => Some n | _ => None end.
Definition ref_str_ext (b : BencodeRef) : option (list Z) :=
  match ref_bytes_ext b with
  | Some bytes => if utf8_valid bytes then Some bytes else None
  | None => None
  end.

#[export] Instance BencodeRef_access : BRefAccess BencodeRef := {|
  acc_str := ref_str_ext;
  acc_int b := match b with RInt n _ => Some n | _ => None end;
  acc_bytes := ref_bytes_ext;
  acc_list b := match b with RList l _ => Some l | _ => None end;
  acc_dict b := match b with RDict d _ => Some d | _ => None end
|}.

Definition mut_bytes (b : BencodeMut) : option (list Z) := match b with MBytes n => Some n | _ => None end.

#[export] Instance BencodeMut_access : BRefAccess BencodeMut := {|
  acc_str b := match mut_bytes b with
               | Some bytes => if utf8_valid bytes then Some bytes else None
               | None => None
               end;
  acc_int b := match b with MInt n => Some n | _ => None end;
  acc_bytes := mut_bytes;
  acc_list b := match b with MList l => Some l | _ => None end;
  acc_dict b := match b with MDict d => Some d | _ => None end
|}.

(** [kind]: a value as the enumeration of its kinds. *)
Inductive BencodeRefKind (V : Type) : Type :=
| KindInt (n : Z)
| KindBytes (b : list Z)
| KindList (l : list V)
| KindDict (d : list (list Z * V)).
Arguments KindInt {V} n.
Arguments KindBytes {V} b.
Arguments KindList {V} l.
Arguments KindDict {V} d.

Definition ref_kind (b : BencodeRef) : BencodeRefKind BencodeRef :=
  match b with RInt n _ => KindInt n | RBytes n _ => KindBytes n | RList l _ => KindList l | RDict d _ => KindDict d end.
Definition mut_kind (b : BencodeMut) : BencodeRefKind BencodeMut :=
  match b with MInt n => KindInt n | MBytes n => KindBytes n | MList l => KindList l | MDict d => KindDict d end.

(** ** [BListAccess] for vectors, and [BMutAccess] *)

Section Lists.
Context {V : Type}.
Implicit Types l : list V.

Definition blist_get (index : nat) l : option V := l !! index.
Definition blist_remove (index : nat) l : option V * list V :=
  if (length l <=? index)%nat then (None, l) else (l !! index, delete index l).
(** [Vec::insert] panics past the end. *)
Definition blist_insert (index : nat) (item : V) l : res unit (list V) :=
  if (length l <? index)%nat then Panic else Ok (take index l ++ item :: drop index l).
Definition blist_push (item : V) l : list V := l ++ [item].

(** [BListIter]. *)
Record BListIter : Type := mkBListIter { bi_index : nat; bi_access : list V }.
Definition blist_into_iter l : BListIter := mkBListIter 0 l.
Definition BListIter_next (it : BListIter) : option V * BListIter :=
  match blist_get (bi_index it) (bi_access it) with
  | Some v => (Some v, mkBListIter (S (bi_index it)) (bi_access it))
  | None => (None, it)
  end.

Fixpoint blist_collect (fuel : nat) (it : BListIter) : list V :=
  match fuel with
  | O => []
  | S fuel => match BListIter_next it with (Some v, it) => v :: blist_collect fuel it | (None, _) => [] end
  end.

(** The iterator yields the elements in order and then ends. *)
Lemma blist_iter_yields l fuel : (length l <= fuel)%nat -> blist_collect fuel (blist_into_iter l) = l.
Proof.
  assert (Hgen : forall fuel i, (length l <= fuel + i)%nat -> blist_collect fuel (mkBListIter i l) = drop i l).
  { intros n. induction n as [|n IH]; intros i Hn; cbn [blist_collect]; [by rewrite drop_ge|]. unfold BListIter_next, blist_get. cbn [bi_index bi_access].
    destruct (l !! i) as [v|] eqn:E; [rewrite IH by lia; by rewrite (drop_S l v i E)|]. apply lookup_ge_None in E. by rewrite drop_ge. }
  intros Hf. apply Hgen. lia.
Qed.

(** Removing what was inserted gives it back. *)
Lemma blist_insert_remove index item l l' : blist_insert index item l = Ok l' -> blist_remove index l' = (Some item, l).
Proof.
  unfold blist_insert, blist_remove. destruct (Nat.ltb_spec (length l) index); [done|]. intros [= <-]. rewrite length_app, length_take. cbn [length]. rewrite length_drop.
  destruct (Nat.leb_spec (index `min` length l + S (length l - index)) index); [lia|]. assert (Hi : index = length (take index l)) by (rewrite length_take; lia).
  rewrite list_lookup_middle by done. rewrite Hi at 1. by rewrite delete_middle, take_drop.
Qed.
End Lists.

(** [list_mut] and [dict_mut]: an update through the borrowed list or dictionary. *)
Definition BencodeMut_list_mut {A} (update : list BencodeMut -> A * list BencodeMut) (b : BencodeMut) : option (A * BencodeMut) :=
  match b with MList l => let '(a, l) := update l in Some (a, MList l) | _ => None end.
Definition BencodeMut_dict_mut {A} (update : list (list Z * BencodeMut) -> A * list (list Z * BencodeMut)) (b : BencodeMut) : option (A * BencodeMut) :=
  match b with MDict d => let '(a, d) := update d in Some (a, MDict d) | _ => None end.

(** ** [BConvert] *)

Inductive BencodeConvertErrorKind : Type :=
| MissingKey (key : list Z)
| WrongType (key : list Z) (expected_type : list Z).

(** [BConvert] with its associated [Error] type. *)
Class BConvert : Type := { ConvertError : Type; handle_error : BencodeConvertErrorKind -> ConvertError }.

Section Convert.
Context `{BConvert} {B : Type} `{BRefAccess B}.

Definition or_wrong_type {A} (o : option A) (key expected_type : list Z) : res ConvertError A :=
  match o with Some a => Ok a | None => Err (handle_error (WrongType key expected_type)) end.

Definition convert_int (b : B) (error_key : list Z) : res ConvertError Z := or_wrong_type (acc_int b) error_key (bs "Integer").
Definition convert_bytes (b : B) (error_key : list Z) : res ConvertError (list Z) := or_wrong_type (acc_bytes b) error_key (bs "Bytes").
Definition convert_str (b : B) (error_key : list Z) : res ConvertError (list Z) := or_wrong_type (acc_str b) error_key (bs "UTF-8 Bytes").
Definition convert_list (b : B) (error_key : list Z) : res ConvertError (list B) := or_wrong_type (acc_list b) error_key (bs "List").
Definition convert_dict (b : B) (error_key : list Z) : res ConvertError (list (list Z * B)) :=
  or_wrong_type (acc_dict b) error_key (bs "Dictionary").

Definition convert_lookup (dictionary : list (list Z * B)) (key : list Z) : res ConvertError B :=
  match bt_lookup key dictionary with
  | Some n => Ok n
  | None => Err (handle_error (MissingKey key))
  end.

Definition lookup_and_convert_int (d : list (list Z * B)) (key : list Z) : res ConvertError Z :=
  let? b := convert_lookup d key in convert_int b key.
Definition lookup_and_convert_bytes (d : list (list Z * B)) (key : list Z) : res ConvertError (list Z) :=
  let? b := convert_lookup d key in convert_bytes b key.
Definition lookup_and_convert_str (d : list (list Z * B)) (key : list Z) : res ConvertError (list Z) :=
  let? b := convert_lookup d key in convert_str b key.
Definition lookup_and_convert_list (d : list (list Z * B)) (key : list Z) : res ConvertError (list B) :=
  let? b := convert_lookup d key in convert_list b key.
Definition lookup_and_convert_dict (d : list (list Z * B)) (key : list Z) : res ConvertError (list (list Z * B)) :=
  let? b := convert_lookup d key in convert_dict b key.

End Convert.

(** [Result::ok]. *)
Definition res_ok {E A} (r : res E A) : option A := match r with Ok a => Some a | _ => None end.

(** ** Reading a decoded value *)

Section Erase.
Context `{BConvert}.

Lemma access_int r : acc_int r = acc_int (ref_erase r).
Proof. by destruct r. Qed.
Lemma access_bytes r : acc_bytes r = acc_bytes (ref_erase r).
Proof. by destruct r. Qed.
Lemma access_str r : acc_str r = acc_str (ref_erase r).
Proof. by destruct r. Qed.
Lemma access_dict r : erase_entries <$> acc_dict r = acc_dict (ref_erase r).
Proof. by destruct r. Qed.

Lemma lookup_int_erase d k : lookup_and_convert_int d k = lookup_and_convert_int (erase_entries d) k.
Proof.
  unfold lookup_and_convert_int, convert_lookup. rewrite erase_lookup. destruct (bt_lookup k d) as [r|]; [|done].
  cbn. unfold convert_int. by rewrite access_int.
Qed.
Lemma lookup_bytes_erase d k : lookup_and_convert_bytes d k = lookup_and_convert_bytes (erase_entries d) k.
Proof.
  unfold lookup_and_convert_bytes, convert_lookup. rewrite erase_lookup. destruct (bt_lookup k d) as [r|]; [|done].
  cbn. unfold convert_bytes. by rewrite access_bytes.
Qed.
Lemma lookup_str_erase d k : lookup_and_convert_str d k = lookup_and_convert_str (erase_entries d) k.
Proof.
  unfold lookup_and_convert_str, convert_lookup. rewrite erase_lookup. destruct (bt_lookup k d) as [r|]; [|done].
  cbn. unfold convert_str. by rewrite access_str.
Qed.
Lemma lookup_dict_erase d k :
  erase_entries <$> res_ok (lookup_and_convert_dict d k) = res_ok (lookup_and_convert_dict (erase_entries d) k).
Proof.
  unfold lookup_and_convert_dict, convert_lookup. rewrite erase_lookup. destruct (bt_lookup k d) as [r|]; [|done].
  cbn. unfold convert_dict. rewrite <- access_dict. by destruct (acc_dict r).
Qed.

End Erase.
