(* ===== verification/PeerMessage.v ===== *)
(** * Peer wire messages

    Model of [peer/message] (standard messages, the messages of extension bits and of
    the extension protocol, and their bencode), of the codec in [peer/message_codec] and
    of the reading side of [peer/manager/task_split.rs]. The parsers are over the class
    [Nom]; they take the bytes as an argument and an empty input, so that [Done]
    always has an empty rest. A subtraction that would be negative is a panic, as it is
    with overflow checks. A string is its UTF-8 bytes. *)

From stdpp Require Import gmap.
From S2P Require Import Prelude RustStd BTree Bencode Words UtilConvert Nom TrackerMessage BencodeAccess.

Definition KEEP_ALIVE_MESSAGE_LEN : Z := 0.
Definition CHOKE_MESSAGE_LEN : Z := 1.
Definition UNCHOKE_MESSAGE_LEN : Z := 1.
Definition INTERESTED_MESSAGE_LEN : Z := 1.
Definition UNINTERESTED_MESSAGE_LEN : Z := 1.
Definition HAVE_MESSAGE_LEN : Z := 5.
Definition BASE_BITFIELD_MESSAGE_LEN : Z := 1.
Definition REQUEST_MESSAGE_LEN : Z := 13.
Definition BASE_PIECE_MESSAGE_LEN : Z := 9.
Definition CANCEL_MESSAGE_LEN : Z := 13.
Definition CHOKE_MESSAGE_ID : Z := 0.
Definition UNCHOKE_MESSAGE_ID : Z := 1.
Definition INTERESTED_MESSAGE_ID : Z := 2.
Definition UNINTERESTED_MESSAGE_ID : Z := 3.
Definition HAVE_MESSAGE_ID : Z := 4.
Definition BITFIELD_MESSAGE_ID : Z := 5.
Definition REQUEST_MESSAGE_ID : Z := 6.
Definition PIECE_MESSAGE_ID : Z := 7.
Definition CANCEL_MESSAGE_ID : Z := 8.
Definition MESSAGE_LENGTH_LEN_BYTES : nat := 4.
Definition MESSAGE_ID_LEN_BYTES : nat := 1.
Definition HEADER_LEN : nat := MESSAGE_LENGTH_LEN_BYTES + MESSAGE_ID_LEN_BYTES.
Definition BASE_PROT_EXTENSION_MESSAGE_LEN : nat := 2.
Definition PORT_MESSAGE_LEN : Z := 3.
Definition BASE_EXTENDED_MESSAGE_LEN : Z := 2.
Definition PORT_MESSAGE_ID : Z := 9.
Definition EXTENDED_MESSAGE_ID : Z := 20.
Definition EXTENDED_MESSAGE_HANDSHAKE_ID : Z := 0.
Definition EXTENSION_HEADER_LEN : nat := HEADER_LEN + 1.
Definition REQUEST_MESSAGE_TYPE_ID : Z := 0.
Definition DATA_MESSAGE_TYPE_ID : Z := 1.
Definition REJECT_MESSAGE_TYPE_ID : Z := 2.

(** Keys of the bencode dictionaries. *)
Definition ID_MAP_KEY : list Z := bs "m".
Definition CLIENT_ID_KEY : list Z := bs "v".
Definition CLIENT_TCP_PORT_KEY : list Z := bs "p".
Definition OUR_IP_KEY : list Z := bs "yourip".
Definition CLIENT_IPV6_ADDR_KEY : list Z := bs "ipv6".
Definition CLIENT_IPV4_ADDR_KEY : list Z := bs "ipv4".
Definition CLIENT_MAX_REQUESTS_KEY : list Z := bs "reqq".
Definition METADATA_SIZE_KEY : list Z := bs "metadata_size".
Definition MESSAGE_TYPE_KEY : list Z := bs "msg_type".
Definition PIECE_INDEX_KEY : list Z := bs "piece".
Definition TOTAL_SIZE_KEY : list Z := bs "total_size".
Definition UT_METADATA_ID : list Z := bs "ut_metadata".
Definition UT_PEX_ID : list Z := bs "ut_pex".

(** ** Data *)

Record HaveMessage : Type := HaveMessage_new { have_index : Z }.
Record BitFieldMessage : Type := BitFieldMessage_new { bitfield : list Z }.
Record RequestMessage : Type := RequestMessage_new { rq_index : Z; rq_offset : Z; rq_length : Z }.
Record PieceMessage : Type := PieceMessage_new { pc_index : Z; pc_offset : Z; pc_block : list Z }.
Record CancelMessage : Type := CancelMessage_new { cl_index : Z; cl_offset : Z; cl_length : Z }.
Record PortMessage : Type := PortMessage_new { port : Z }.

Inductive ExtendedType : Type := UtMetadataType | UtPexType | CustomType (id : list Z).

#[export] Instance ExtendedType_eq_dec : EqDecision ExtendedType.
Proof. solve_decision. Defined.
#[export] Instance ExtendedType_countable : Countable ExtendedType.
Proof.
  refine (inj_countable' (fun t => match t with UtMetadataType => inl false | UtPexType => inl true | CustomType id => inr id end)
    (fun s => match s with inl false => UtMetadataType | inl true => UtPexType | inr id => CustomType id end) _).
  by intros [].
Defined.

Record ExtendedMessage : Type := mkExtended {
  id_map : gmap ExtendedType Z;
  our_id : option (list Z);
  our_tcp_port : option Z;
  their_ip : option IpAddr;
  our_ipv6_addr : option Ipv6Addr;
  our_ipv4_addr : option Ipv4Addr;
  our_max_requests : option Z;
  metadata_size : option Z;
  raw_bencode : list Z
}.

Inductive BitsExtensionMessage : Type :=
| BitsPort (m : PortMessage)
| BitsExtended (m : ExtendedMessage).

Record UtMetadataRequestMessage : Type := mkMetaRequest { mrq_piece : Z; mrq_bencode_size : nat }.
Record UtMetadataDataMessage : Type := mkMetaData { md_piece : Z; md_total_size : Z; md_data : list Z; md_bencode_size : nat }.
Record UtMetadataRejectMessage : Type := mkMetaReject { mrj_piece : Z; mrj_bencode_size : nat }.
Inductive UtMetadataMessage : Type :=
| MetaRequest (m : UtMetadataRequestMessage)
| MetaData (m : UtMetadataDataMessage)
| MetaReject (m : UtMetadataRejectMessage).

(** An enumeration without values. *)
Inductive NullProtocolMessage : Type :=.

Inductive PeerExtensionProtocolMessage : Type :=
| ExtUtMetadata (m : UtMetadataMessage)
| ExtCustom (m : NullProtocolMessage).

Inductive PeerWireProtocolMessage : Type :=
| KeepAlive
| Choke
| UnChoke
| Interested
| UnInterested
| Have (m : HaveMessage)
| BitField (m : BitFieldMessage)
| Request (m : RequestMessage)
| Piece (m : PieceMessage)
| Cancel (m : CancelMessage)
| BitsExtension (m : BitsExtensionMessage)
| ProtExtension (m : PeerExtensionProtocolMessage).

(** [io::Error], by the text it is made with. *)
Inductive PeerIoError : Type :=
| FailedToParse
| FailedToParseExtension
| ExtensionBeforeExtended
| ExtensionTooShort (len : Z)
| UnknownExtensionId (id : Z)
| BencodeFailed (e : BencodeParseErrorKind)
| ConvertFailed (e : BencodeConvertErrorKind)
| UnknownMetadataType (t : Z)
| NoIdMapping
| SentBeforeExtended.

#[export] Instance IoErrorBencodeConvert : BConvert := {| ConvertError := PeerIoError; handle_error := ConvertFailed |}.

Definition keep_alive : PeerWireProtocolMessage := KeepAlive.
Definition is_keep_alive (m : PeerWireProtocolMessage) : bool := match m with KeepAlive => true | _ => false end.

(** ** Extended types and the extended message *)

Definition ExtendedType_from_id (id : list Z) : ExtendedType :=
  if bool_decide (id = UT_METADATA_ID) then UtMetadataType
  else if bool_decide (id = UT_PEX_ID) then UtPexType
  else CustomType id.
Definition ExtendedType_id (t : ExtendedType) : list Z :=
  match t with UtMetadataType => UT_METADATA_ID | UtPexType => UT_PEX_ID | CustomType id => id end.

Definition query_id (m : ExtendedMessage) (t : ExtendedType) : option Z := id_map m !! t.

Section Bencode.
Context {B : Type} `{BRefAccess B}.
Implicit Types root : list (list Z * B).

Definition insert_id (m : gmap ExtendedType Z) (entry : list Z * B) : gmap ExtendedType Z :=
  let '(id, ben_value) := entry in
  match utf8_valid id, convert_int ben_value id with
  | true, Ok value => <[ExtendedType_from_id id := as_u8 value]> m
  | _, _ => m
  end.
Definition parse_id_map root : gmap ExtendedType Z :=
  match lookup_and_convert_dict root ID_MAP_KEY with
  | Ok ben_id_map => foldl insert_id ∅ ben_id_map
  | _ => ∅
  end.

Definition parse_client_id root : option (list Z) := res_ok (lookup_and_convert_str root CLIENT_ID_KEY).
Definition parse_client_tcp_port root : option Z :=
  match lookup_and_convert_int root CLIENT_TCP_PORT_KEY with
  | Ok port => if as_u16 port =? port then Some (as_u16 port) else None
  | _ => None
  end.
Definition parse_our_ip root : option IpAddr :=
  match lookup_and_convert_bytes root OUR_IP_KEY with
  | Ok ip_bytes =>
      if (length ip_bytes =? 4)%nat then Some (IpV4 (bytes_be_to_ipv4 ip_bytes))
      else if (length ip_bytes =? 16)%nat then Some (IpV6 (bytes_be_to_ipv6 ip_bytes))
      else None
  | _ => None
  end.
Definition parse_client_ipv6_addr root : option Ipv6Addr :=
  match lookup_and_convert_bytes root CLIENT_IPV6_ADDR_KEY with
  | Ok b => if (length b =? 16)%nat then Some (bytes_be_to_ipv6 b) else None
  | _ => None
  end.
Definition parse_client_ipv4_addr root : option Ipv4Addr :=
  match lookup_and_convert_bytes root CLIENT_IPV4_ADDR_KEY with
  | Ok b => if (length b =? 4)%nat then Some (bytes_be_to_ipv4 b) else None
  | _ => None
  end.
Definition parse_client_max_requests root : option Z := res_ok (lookup_and_convert_int root CLIENT_MAX_REQUESTS_KEY).
Definition parse_metadata_size root : option Z := res_ok (lookup_and_convert_int root METADATA_SIZE_KEY).

Definition parse_message_type root : res PeerIoError Z :=
  let? t := lookup_and_convert_int root MESSAGE_TYPE_KEY in Ok (as_u8 t).
Definition parse_piece_index root : res PeerIoError Z := lookup_and_convert_int root PIECE_INDEX_KEY.
Definition parse_total_size root : res PeerIoError Z := lookup_and_convert_int root TOTAL_SIZE_KEY.

(** What [ExtendedMessage::parse_bytes] reads from the dictionary. *)
Definition extended_of root (raw : list Z) : ExtendedMessage :=
  mkExtended (parse_id_map root) (parse_client_id root) (parse_client_tcp_port root) (parse_our_ip root)
    (parse_client_ipv6_addr root) (parse_client_ipv4_addr root) (parse_client_max_requests root) (parse_metadata_size root) raw.

End Bencode.

Definition EXTENDED_ROOT_KEY : list Z := bs "ExtendedMessage".
Definition METADATA_ROOT_KEY : list Z := bs "PeerExtensionProtocolMessage".

(** The bencode of an extended message: [Panic] when the decoder panics. *)
Definition decode_extended (raw : list Z) : res PeerIoError ExtendedMessage :=
  match BencodeRef_decode raw BDecodeOpt_default with
  | Ok bencode => let? ben_dict := convert_dict bencode EXTENDED_ROOT_KEY in Ok (extended_of ben_dict raw)
  | Err e => Err (BencodeFailed e)
  | Panic => Panic
  | OutOfFuel => OutOfFuel
  end.

(** *** Building one *)

Record ExtendedMessageBuilder : Type := mkBuilder {
  b_id_map : gmap ExtendedType Z;
  b_our_id : option (list Z);
  b_our_tcp_port : option Z;
  b_their_ip : option IpAddr;
  b_our_ipv6_addr : option Ipv6Addr;
  b_our_ipv4_addr : option Ipv4Addr;
  b_our_max_requests : option Z;
  b_metadata_size : option Z;
  b_custom_entries : gmap (list Z) BencodeMut
}.

Definition ExtendedMessageBuilder_new : ExtendedMessageBuilder := mkBuilder ∅ None None None None None None None ∅.

Definition with_extended_type (t : ExtendedType) (opt_value : option Z) (b : ExtendedMessageBuilder) : ExtendedMessageBuilder :=
  mkBuilder (match opt_value with Some v => <[t := v]> (b_id_map b) | None => delete t (b_id_map b) end)
    (b_our_id b) (b_our_tcp_port b) (b_their_ip b) (b_our_ipv6_addr b) (b_our_ipv4_addr b) (b_our_max_requests b)
    (b_metadata_size b) (b_custom_entries b).
Definition with_custom_entry (key : list Z) (opt_value : option BencodeMut) (b : ExtendedMessageBuilder) : ExtendedMessageBuilder :=
  mkBuilder (b_id_map b) (b_our_id b) (b_our_tcp_port b) (b_their_ip b) (b_our_ipv6_addr b) (b_our_ipv4_addr b)
    (b_our_max_requests b) (b_metadata_size b)
    (match opt_value with Some v => <[key := v]> (b_custom_entries b) | None => delete key (b_custom_entries b) end).

(** [opt.map(|v| root_map_access.insert(key, v))]. *)
Definition insert_opt (key : list Z) (o : option BencodeMut) (m : list (list Z * BencodeMut)) : list (list Z * BencodeMut) :=
  match o with Some v => bt_insert key v m | None => m end.

Definition ip_bytes (ip : IpAddr) : list Z := match ip with IpV4 a => ipv4_to_bytes_be a | IpV6 a => ipv6_to_bytes_be a end.

Section Build.
Context `{!HashOrder ExtendedType Z} `{!HashOrder (list Z) BencodeMut}.

Definition ben_id_map (m : gmap ExtendedType Z) : list (list Z * BencodeMut) :=
  foldl (fun acc '(ext, value) => bt_insert (ExtendedType_id ext) (MInt value) acc) [] (hash_entries m).

Definition bencode_root (b : ExtendedMessageBuilder) : list (list Z * BencodeMut) :=
  let root := bt_insert ID_MAP_KEY (MDict (ben_id_map (b_id_map b))) [] in
  let root := foldl (fun acc '(key, value) => bt_insert key value acc) root (hash_entries (b_custom_entries b)) in
  let root := insert_opt CLIENT_ID_KEY (MBytes <$> b_our_id b) root in
  let root := insert_opt CLIENT_TCP_PORT_KEY (MInt <$> b_our_tcp_port b) root in
  let root := insert_opt OUR_IP_KEY ((fun ip => MBytes (ip_bytes ip)) <$> b_their_ip b) root in
  let root := insert_opt CLIENT_IPV6_ADDR_KEY ((fun ip => MBytes (ipv6_to_bytes_be ip)) <$> b_our_ipv6_addr b) root in
  let root := insert_opt CLIENT_IPV4_ADDR_KEY ((fun ip => MBytes (ipv4_to_bytes_be ip)) <$> b_our_ipv4_addr b) root in
  let root := insert_opt CLIENT_MAX_REQUESTS_KEY (MInt <$> b_our_max_requests b) root in
  insert_opt METADATA_SIZE_KEY (MInt <$> b_metadata_size b) root.
Definition bencode_from_builder (b : ExtendedMessageBuilder) : list Z := BencodeMut_encode (MDict (bencode_root b)).

Definition ExtendedMessage_from_builder (b : ExtendedMessageBuilder) : ExtendedMessage :=
  mkExtended (b_id_map b) (b_our_id b) (b_our_tcp_port b) (b_their_ip b) (b_our_ipv6_addr b) (b_our_ipv4_addr b)
    (b_our_max_requests b) (b_metadata_size b) (bencode_from_builder b).

End Build.

(** ** Metadata messages *)

Definition metadata_bencode (t piece : Z) (total_size : option Z) : list Z :=
  BencodeMut_encode (MDict (insert_opt TOTAL_SIZE_KEY (MInt <$> total_size)
    (bt_insert PIECE_INDEX_KEY (MInt piece) (bt_insert MESSAGE_TYPE_KEY (MInt t) [])))).

Definition UtMetadataRequestMessage_new (piece : Z) : UtMetadataRequestMessage :=
  mkMetaRequest piece (length (metadata_bencode REQUEST_MESSAGE_TYPE_ID piece None)).
Definition UtMetadataDataMessage_new (piece total_size : Z) (data : list Z) : UtMetadataDataMessage :=
  mkMetaData piece total_size data (length (metadata_bencode DATA_MESSAGE_TYPE_ID piece (Some total_size))).
Definition UtMetadataRejectMessage_new (piece : Z) : UtMetadataRejectMessage :=
  mkMetaReject piece (length (metadata_bencode REJECT_MESSAGE_TYPE_ID piece None)).

Definition UtMetadataMessage_write_bytes (m : UtMetadataMessage) : list Z :=
  match m with
  | MetaRequest r => metadata_bencode REQUEST_MESSAGE_TYPE_ID (mrq_piece r) None
  | MetaData d => metadata_bencode DATA_MESSAGE_TYPE_ID (md_piece d) (Some (md_total_size d)) ++ md_data d
  | MetaReject r => metadata_bencode REJECT_MESSAGE_TYPE_ID (mrj_piece r) None
  end.

Definition UtMetadataMessage_message_size (m : UtMetadataMessage) : nat :=
  match m with
  | MetaRequest r => mrq_bencode_size r
  | MetaData d => md_bencode_size d + length (md_data d)
  | MetaReject r => mrj_bencode_size r
  end.

Definition UtMetadataMessage_parse_bytes (bytes : list Z) : res PeerIoError UtMetadataMessage :=
  match BencodeRef_decode bytes (BDecodeOpt_new 2 false false) with
  | Ok bencode =>
      let? bencode_dict := convert_dict bencode METADATA_ROOT_KEY in
      let? msg_type := parse_message_type bencode_dict in
      let? piece := parse_piece_index bencode_dict in
      let size := length (ref_buffer bencode) in
      let extra_bytes := drop size bytes in
      if msg_type =? REQUEST_MESSAGE_TYPE_ID then Ok (MetaRequest (mkMetaRequest piece size))
      else if msg_type =? REJECT_MESSAGE_TYPE_ID then Ok (MetaReject (mkMetaReject piece size))
      else if msg_type =? DATA_MESSAGE_TYPE_ID then
        let? total_size := parse_total_size bencode_dict in
        Ok (MetaData (mkMetaData piece total_size extra_bytes size))
      else Err (UnknownMetadataType msg_type)
  | Err e => Err (BencodeFailed e)
  | Panic => Panic
  | OutOfFuel => OutOfFuel
  end.

(** ** Parsing *)

Section Wire.
Context `{Nom}.

(** [throwaway_input!]. *)
Definition throwaway {A} (r : IResult A) : IResult A :=
  match r with Done _ a => Done [] a | NomError => NomError | Incomplete => Incomplete | NomPanic => NomPanic end.

(** The result of a fallible function inside a parser. *)
Definition nom_result {A} (r : res PeerIoError A) : IResult (res PeerIoError A) :=
  match r with Panic | OutOfFuel => NomPanic | _ => Done [] r end.

Definition res_map {A B} (f : A -> B) (r : res PeerIoError A) : res PeerIoError B := let? a := r in Ok (f a).

(** [bytes.split_off(n)], and a [u32] subtraction. *)
Definition split_off {A} (n : nat) (bytes : list Z) (k : list Z -> IResult A) : IResult A :=
  if (n <=? length bytes)%nat then k (drop n bytes) else NomPanic.
Definition sub_u32 {A} (a b : Z) (k : Z -> IResult A) : IResult A := if a <? b then NomPanic else k (a - b).

Definition HaveMessage_parse_bytes (bytes : list Z) : IResult (res PeerIoError HaveMessage) :=
  throwaway (nom_map (be_u 4) (fun index => Ok (HaveMessage_new index)) bytes).

Definition BitFieldMessage_parse_bytes (bytes : list Z) (len : Z) : IResult (res PeerIoError BitFieldMessage) :=
  let cast_len := Z.to_nat len in
  if (cast_len <=? length bytes)%nat then Done [] (Ok (BitFieldMessage_new (take cast_len bytes))) else Incomplete.

Definition parse_three {A} (mk : Z -> Z -> Z -> A) : Parser (res PeerIoError A) :=
  parse index := be_u 4 in
  parse offset := be_u 4 in
  parse length := be_u 4 in
  nom_value (Ok (mk index offset length)).
Definition RequestMessage_parse_bytes (bytes : list Z) : IResult (res PeerIoError RequestMessage) :=
  throwaway (parse_three RequestMessage_new bytes).
Definition CancelMessage_parse_bytes (bytes : list Z) : IResult (res PeerIoError CancelMessage) :=
  throwaway (parse_three CancelMessage_new bytes).

Definition parse_piece (bytes : list Z) (len : Z) : Parser (res PeerIoError PieceMessage) :=
  parse piece_index := be_u 4 in
  parse block_offset := be_u 4 in
  fun rest => sub_u32 len 8 (fun block_len =>
    nom_map (nom_take (Z.to_nat block_len))
      (fun _ => Ok (PieceMessage_new piece_index block_offset (slice bytes 8 (8 + Z.to_nat block_len)))) rest).
Definition PieceMessage_parse_bytes (bytes : list Z) (len : Z) : IResult (res PeerIoError PieceMessage) :=
  throwaway (parse_piece bytes len bytes).

Definition PortMessage_parse_bytes (bytes : list Z) : IResult (res PeerIoError PortMessage) :=
  throwaway (nom_map (be_u 2) (fun port => Ok (PortMessage_new port)) bytes).

Definition ExtendedMessage_parse_bytes (bytes : list Z) (len : Z) : IResult (res PeerIoError ExtendedMessage) :=
  let cast_len := Z.to_nat len in
  if (cast_len <=? length bytes)%nat then nom_result (decode_extended (take cast_len bytes)) else Incomplete.

(** The headers the [switch!]es read. *)
Definition header_opt (bytes : list Z) : Parser (Z * option Z) := fun _ =>
  throwaway ((parse len := be_u 4 in parse id := nom_opt (be_u 1) in nom_value (len, id)) bytes).
Definition header_id (bytes : list Z) : Parser (Z * Z) := fun _ =>
  throwaway ((parse len := be_u 4 in parse id := be_u 1 in nom_value (len, id)) bytes).
Definition header_ext (bytes : list Z) : Parser (Z * Z * Z) := fun _ =>
  throwaway ((parse len := be_u 4 in parse id := be_u 1 in parse ext := be_u 1 in nom_value (len, id, ext)) bytes).

Definition parse_extension (bytes : list Z) : Parser (res PeerIoError BitsExtensionMessage) :=
  nom_alt
    (parse (len, id) := header_id bytes in
     if (len =? PORT_MESSAGE_LEN) && (id =? PORT_MESSAGE_ID) then
       nom_map (fun _ => split_off HEADER_LEN bytes PortMessage_parse_bytes) (res_map BitsPort)
     else nom_fail)
    (parse (message_len, id, ext) := header_ext bytes in
     if (id =? EXTENDED_MESSAGE_ID) && (ext =? EXTENDED_MESSAGE_HANDSHAKE_ID) then
       nom_map (fun _ => sub_u32 message_len 2 (fun len =>
           split_off (HEADER_LEN + 1) bytes (fun b => ExtendedMessage_parse_bytes b len)))
         (res_map BitsExtended)
     else nom_fail).

(** A [usize] subtraction. *)
Definition parse_extensions_with_id (bytes : list Z) (extended_msg : ExtendedMessage) (message_len message_id : Z)
    : IResult (res PeerIoError PeerExtensionProtocolMessage) :=
  sub_u32 message_len 2 (fun msg_len =>
    split_off EXTENSION_HEADER_LEN bytes (fun temp_bytes =>
      if Z.of_nat (length temp_bytes) <? msg_len then Done [] (Err (ExtensionTooShort msg_len))
      else
        let msg_bytes := take (Z.to_nat msg_len) temp_bytes in
        if bool_decide (query_id extended_msg UtMetadataType = Some message_id) then
          nom_result (res_map ExtUtMetadata (UtMetadataMessage_parse_bytes msg_bytes))
        else Done [] (Err (UnknownExtensionId message_id)))).

Definition parse_extensions (bytes : list Z) (extended_msg : ExtendedMessage)
    : Parser (res PeerIoError PeerExtensionProtocolMessage) :=
  parse (message_len, id, message_id) := header_ext bytes in
  if id =? EXTENDED_MESSAGE_ID then fun _ => parse_extensions_with_id bytes extended_msg message_len message_id
  else nom_fail.

Definition PeerExtensionProtocolMessage_parse_bytes (bytes : list Z) (extended : option ExtendedMessage)
    : res PeerIoError PeerExtensionProtocolMessage :=
  match extended with
  | Some extended_msg =>
      match parse_extensions bytes extended_msg [] with
      | Done _ result => result
      | NomPanic => Panic
      | _ => Err FailedToParseExtension
      end
  | None => Err ExtensionBeforeExtended
  end.

(** The cases of [parse_message] for the built-in messages. *)
Definition parse_builtin (bytes : list Z) (message_len : Z) (opt_id : option Z) : Parser (res PeerIoError PeerWireProtocolMessage) :=
  match opt_id with
  | None => if message_len =? KEEP_ALIVE_MESSAGE_LEN then nom_value (Ok KeepAlive) else nom_fail
  | Some id =>
      if (message_len =? KEEP_ALIVE_MESSAGE_LEN) && (id =? 0) then nom_value (Ok KeepAlive)
      else if (message_len =? CHOKE_MESSAGE_LEN) && (id =? CHOKE_MESSAGE_ID) then nom_value (Ok Choke)
      else if (message_len =? UNCHOKE_MESSAGE_LEN) && (id =? UNCHOKE_MESSAGE_ID) then nom_value (Ok UnChoke)
      else if (message_len =? INTERESTED_MESSAGE_LEN) && (id =? INTERESTED_MESSAGE_ID) then nom_value (Ok Interested)
      else if (message_len =? UNINTERESTED_MESSAGE_LEN) && (id =? UNINTERESTED_MESSAGE_ID) then nom_value (Ok UnInterested)
      else if (message_len =? HAVE_MESSAGE_LEN) && (id =? HAVE_MESSAGE_ID) then
        nom_map (fun _ => split_off HEADER_LEN bytes HaveMessage_parse_bytes) (res_map Have)
      else if id =? BITFIELD_MESSAGE_ID then
        nom_map (fun _ => sub_u32 message_len 1 (fun len =>
          split_off HEADER_LEN bytes (fun b => BitFieldMessage_parse_bytes b len))) (res_map BitField)
      else if (message_len =? REQUEST_MESSAGE_LEN) && (id =? REQUEST_MESSAGE_ID) then
        nom_map (fun _ => split_off HEADER_LEN bytes RequestMessage_parse_bytes) (res_map Request)
      else if id =? PIECE_MESSAGE_ID then
        nom_map (fun _ => sub_u32 message_len 1 (fun len =>
          split_off HEADER_LEN bytes (fun b => PieceMessage_parse_bytes b len))) (res_map Piece)
      else if (message_len =? CANCEL_MESSAGE_LEN) && (id =? CANCEL_MESSAGE_ID) then
        nom_map (fun _ => split_off HEADER_LEN bytes CancelMessage_parse_bytes) (res_map Cancel)
      else nom_fail
  end.

(** The last alternative is a value that is computed when it is reached. *)
Definition parse_message (bytes : list Z) (extended : option ExtendedMessage) : Parser (res PeerIoError PeerWireProtocolMessage) :=
  nom_alt
    (parse (message_len, opt_id) := header_opt bytes in parse_builtin bytes message_len opt_id)
    (nom_alt
      (nom_map (parse_extension bytes) (res_map BitsExtension))
      (fun _ => nom_result (res_map ProtExtension (PeerExtensionProtocolMessage_parse_bytes bytes extended)))).

Definition PeerWireProtocolMessage_parse_bytes (bytes : list Z) (extended : option ExtendedMessage)
    : res PeerIoError PeerWireProtocolMessage :=
  match parse_message bytes extended [] with
  | Done _ result => result
  | NomPanic => Panic
  | _ => Err FailedToParse
  end.

Definition PeerWireProtocolMessage_bytes_needed (bytes : list Z) : option nat :=
  match be_u 4 bytes with
  | Done _ length => Some (MESSAGE_LENGTH_LEN_BYTES + Z.to_nat length)%nat
  | _ => None
  end.

(** ** Writing *)

Definition write_length_id_pair (length : Z) (opt_id : option Z) : list Z :=
  write_be 4 length ++ match opt_id with Some id => write_be 1 id | None => [] end.

Definition HaveMessage_write_bytes (m : HaveMessage) : list Z :=
  write_length_id_pair HAVE_MESSAGE_LEN (Some HAVE_MESSAGE_ID) ++ write_be 4 (have_index m).
Definition BitFieldMessage_write_bytes (m : BitFieldMessage) : list Z :=
  write_length_id_pair (as_u32 (1 + Z.of_nat (length (bitfield m)))) (Some BITFIELD_MESSAGE_ID) ++ bitfield m.
Definition RequestMessage_write_bytes (m : RequestMessage) : list Z :=
  write_length_id_pair REQUEST_MESSAGE_LEN (Some REQUEST_MESSAGE_ID) ++
  write_be 4 (rq_index m) ++ write_be 4 (rq_offset m) ++ write_be 4 (as_u32 (rq_length m)).
Definition PieceMessage_write_bytes (m : PieceMessage) : list Z :=
  write_length_id_pair (as_u32 (9 + Z.of_nat (length (pc_block m)))) (Some PIECE_MESSAGE_ID) ++
  write_be 4 (pc_index m) ++ write_be 4 (pc_offset m) ++ pc_block m.
Definition CancelMessage_write_bytes (m : CancelMessage) : list Z :=
  write_length_id_pair CANCEL_MESSAGE_LEN (Some CANCEL_MESSAGE_ID) ++
  write_be 4 (cl_index m) ++ write_be 4 (cl_offset m) ++ write_be 4 (as_u32 (cl_length m)).
Definition PortMessage_write_bytes (m : PortMessage) : list Z :=
  write_length_id_pair PORT_MESSAGE_LEN (Some PORT_MESSAGE_ID) ++ write_be 2 (port m).
Definition ExtendedMessage_write_bytes (m : ExtendedMessage) : list Z :=
  write_length_id_pair (as_u32 (2 + Z.of_nat (length (raw_bencode m)))) (Some EXTENDED_MESSAGE_ID) ++
  [EXTENDED_MESSAGE_HANDSHAKE_ID] ++ raw_bencode m.
Definition BitsExtensionMessage_write_bytes (m : BitsExtensionMessage) : list Z :=
  match m with BitsPort m => PortMessage_write_bytes m | BitsExtended m => ExtendedMessage_write_bytes m end.

Definition PeerExtensionProtocolMessage_write_bytes (m : PeerExtensionProtocolMessage) (extended : option ExtendedMessage)
    : res PeerIoError (list Z) :=
  match m, extended with
  | ExtUtMetadata msg, Some extended_msg =>
      match query_id extended_msg UtMetadataType with
      | Some ext_id =>
          let total_len := as_u32 (2 + Z.of_nat (UtMetadataMessage_message_size msg)) in
          Ok (write_length_id_pair total_len (Some EXTENDED_MESSAGE_ID) ++ write_be 1 ext_id ++ UtMetadataMessage_write_bytes msg)
      | None => Err NoIdMapping
      end
  | ExtUtMetadata _, None => Err SentBeforeExtended
  | ExtCustom msg, _ => match msg with end
  end.

Definition PeerWireProtocolMessage_write_bytes (m : PeerWireProtocolMessage) (extended : option ExtendedMessage)
    : res PeerIoError (list Z) :=
  match m with
  | KeepAlive => Ok (write_length_id_pair KEEP_ALIVE_MESSAGE_LEN None)
  | Choke => Ok (write_length_id_pair CHOKE_MESSAGE_LEN (Some CHOKE_MESSAGE_ID))
  | UnChoke => Ok (write_length_id_pair UNCHOKE_MESSAGE_LEN (Some UNCHOKE_MESSAGE_ID))
  | Interested => Ok (write_length_id_pair INTERESTED_MESSAGE_LEN (Some INTERESTED_MESSAGE_ID))
  | UnInterested => Ok (write_length_id_pair UNINTERESTED_MESSAGE_LEN (Some UNINTERESTED_MESSAGE_ID))
  | Have msg => Ok (HaveMessage_write_bytes msg)
  | BitField msg => Ok (BitFieldMessage_write_bytes msg)
  | Request msg => Ok (RequestMessage_write_bytes msg)
  | Piece msg => Ok (PieceMessage_write_bytes msg)
  | Cancel msg => Ok (CancelMessage_write_bytes msg)
  | BitsExtension ext => Ok (BitsExtensionMessage_write_bytes ext)
  | ProtExtension ext => PeerExtensionProtocolMessage_write_bytes ext extended
  end.

Definition BitsExtensionMessage_message_size (m : BitsExtensionMessage) : nat :=
  match m with
  | BitsPort _ => Z.to_nat PORT_MESSAGE_LEN
  | BitsExtended msg => Z.to_nat BASE_EXTENDED_MESSAGE_LEN + length (raw_bencode msg)
  end.

Definition PeerWireProtocolMessage_message_size (m : PeerWireProtocolMessage) : nat :=
  let message_specific_len :=
    match m with
    | KeepAlive => Z.to_nat KEEP_ALIVE_MESSAGE_LEN
    | Choke => Z.to_nat CHOKE_MESSAGE_LEN
    | UnChoke => Z.to_nat UNCHOKE_MESSAGE_LEN
    | Interested => Z.to_nat INTERESTED_MESSAGE_LEN
    | UnInterested => Z.to_nat UNINTERESTED_MESSAGE_LEN
    | Have _ => Z.to_nat HAVE_MESSAGE_LEN
    | BitField msg => Z.to_nat BASE_BITFIELD_MESSAGE_LEN + length (bitfield msg)
    | Request _ => Z.to_nat REQUEST_MESSAGE_LEN
    | Piece msg => Z.to_nat BASE_PIECE_MESSAGE_LEN + length (pc_block msg)
    | Cancel _ => Z.to_nat CANCEL_MESSAGE_LEN
    | BitsExtension ext => BitsExtensionMessage_message_size ext
    | ProtExtension (ExtUtMetadata msg) => BASE_PROT_EXTENSION_MESSAGE_LEN + UtMetadataMessage_message_size msg
    | ProtExtension (ExtCustom _) => BASE_PROT_EXTENSION_MESSAGE_LEN
    end%nat in
  (MESSAGE_LENGTH_LEN_BYTES + message_specific_len)%nat.

(** ** The codec *)

Record PeerWireMessageCodec : Type := mkCodec { our_extended_msg : option ExtendedMessage; their_extended_msg : option ExtendedMessage }.
Definition PeerWireMessageCodec_new : PeerWireMessageCodec := mkCodec None None.

(** The codec as well when parsing fails. *)
Definition codec_parse_bytes (bytes : list Z) (c : PeerWireMessageCodec) : res PeerIoError PeerWireProtocolMessage * PeerWireMessageCodec :=
  match PeerWireProtocolMessage_parse_bytes bytes (our_extended_msg c) with
  | Ok (BitsExtension (BitsExtended msg)) => (Ok (BitsExtension (BitsExtended msg)), mkCodec (our_extended_msg c) (Some msg))
  | other => (other, c)
  end.

Definition codec_write_bytes (m : PeerWireProtocolMessage) (c : PeerWireMessageCodec) : res PeerIoError (list Z) * PeerWireMessageCodec :=
  match PeerWireProtocolMessage_write_bytes m (their_extended_msg c), m with
  | Ok bytes, BitsExtension (BitsExtended msg) => (Ok bytes, mkCodec (Some msg) (their_extended_msg c))
  | other, _ => (other, c)
  end.

(** ** The reader of a peer's thread *)

Definition READ_BUFFER_LEN : nat := 24 * 1024.

(** [while let Ok(msg) = msg_codec.parse_bytes(data_slice) { data_slice = &data_slice[message_size..]; ... }]:
    the messages passed on, what is left, and the codec. *)
Fixpoint parse_loop (fuel : nat) (data : list Z) (c : PeerWireMessageCodec)
    : res unit (list PeerWireProtocolMessage * list Z * PeerWireMessageCodec) :=
  match fuel with
  | O => OutOfFuel
  | S fuel =>
      match codec_parse_bytes data c with
      | (Ok msg, c) =>
          let message_size := PeerWireProtocolMessage_message_size msg in
          if (message_size <=? length data)%nat then
            let? (msgs, rest, c) := parse_loop fuel (drop message_size data) c in
            Ok (msg :: msgs, rest, c)
          else Panic
      | (Err _, c) => Ok ([], data, c)
      | (Panic, _) => Panic
      | (OutOfFuel, _) => OutOfFuel
      end
  end.

(** A round of the reader: [read] appends to the bytes that are left, into what room
    there is in the buffer. When logging is enabled, slicing the first four bytes for a log
    line panics if there are fewer. *)
Record Reader : Type := mkReader { unread : list Z; codec : PeerWireMessageCodec }.
Definition read_round (log_info : bool) (received : list Z) (r : Reader) : res unit (list PeerWireProtocolMessage * Reader) :=
  let data := unread r ++ take (READ_BUFFER_LEN - length (unread r)) received in
  if log_info && (length data <? 4)%nat then Panic
  else
    let? (msgs, rest, c) := parse_loop (S (length data)) data (codec r) in
    Ok (msgs, mkReader rest c).

Fixpoint read_rounds (log_info : bool) (chunks : list (list Z)) (r : Reader) : res unit (list PeerWireProtocolMessage * Reader) :=
  match chunks with
  | [] => Ok ([], r)
  | chunk :: chunks =>
      let? (msgs, r) := read_round log_info chunk r in
      let? (more, r) := read_rounds log_info chunks r in
      Ok (msgs ++ more, r)
  end.

(** ** The bits of a bit field *)

(** [BitFieldIter::next]: the recursion goes on until a set bit or the end. *)
Fixpoint BitFieldIter_next (fuel : nat) (bytes : list Z) (cur_bit : nat) : res unit (option (HaveMessage * nat)) :=
  match fuel with
  | O => OutOfFuel
  | S fuel =>
      let byte_in_bytes := (cur_bit / 8)%nat in
      let bit_in_byte := (cur_bit mod 8)%nat in
      match bytes !! byte_in_bytes with
      | None => Ok None
      | Some byte =>
          if Z.shiftr (as_u8 (Z.shiftl byte (Z.of_nat bit_in_byte))) 7 =? 1 then
            Ok (Some (HaveMessage_new (as_u32 (Z.of_nat cur_bit)), cur_bit + 1)%nat)
          else BitFieldIter_next fuel bytes (cur_bit + 1)
      end
  end.

(** The iterator run to its end. *)
Fixpoint BitFieldIter_collect (fuel : nat) (bytes : list Z) (cur_bit : nat) : res unit (list HaveMessage) :=
  match fuel with
  | O => OutOfFuel
  | S fuel =>
      let? o := BitFieldIter_next (S (8 * length bytes)) bytes cur_bit in
      match o with
      | None => Ok []
      | Some (m, cur_bit) => let? l := BitFieldIter_collect fuel bytes cur_bit in Ok (m :: l)
      end
  end.
Definition BitFieldMessage_iter (m : BitFieldMessage) : res unit (list HaveMessage) :=
  BitFieldIter_collect (S (8 * length (bitfield m))) (bitfield m) 0.

End Wire.
