(* ===== verification/PeerMessageSpec.v ===== *)
(** * Peer wire messages: parsing what was written

    For every kind of message of [PeerMessage]: it is parsed back from its bytes, whatever
    follows them, and from no shorter prefix of them. *)

From stdpp Require Import gmap.
From S2P Require Import Prelude RustStd BTree Bencode BencodeFacts BencodeGrammar BencodeCanon BencodeSpec Words UtilConvert Nom TrackerMessage TrackerMessageSpec BencodeAccess PeerMessage.

(** ** Well-formed messages *)

Definition metadata_ok (m : UtMetadataMessage) : Prop :=
  match m with
  | MetaRequest r => is_i64 (mrq_piece r) /\ r = UtMetadataRequestMessage_new (mrq_piece r)
  | MetaData d => is_i64 (md_piece d) /\ is_i64 (md_total_size d) /\ d = UtMetadataDataMessage_new (md_piece d) (md_total_size d) (md_data d)
  | MetaReject r => is_i64 (mrj_piece r) /\ r = UtMetadataRejectMessage_new (mrj_piece r)
  end.

(** The fields of an extended message are those its bencode has. *)
Definition extended_ok (m : ExtendedMessage) : Prop :=
  decode_extended (raw_bencode m) = Ok m /\ is_u32 (2 + Z.of_nat (length (raw_bencode m))).

(** [extended] is the message that assigned the ids of the extensions. *)
Definition wire_ok (extended : option ExtendedMessage) (m : PeerWireProtocolMessage) : Prop :=
  match m with
  | KeepAlive | Choke | UnChoke | Interested | UnInterested => True
  | Have m => is_u32 (have_index m)
  | BitField m => is_u32 (1 + Z.of_nat (length (bitfield m)))
  | Request m => is_u32 (rq_index m) /\ is_u32 (rq_offset m) /\ is_u32 (rq_length m)
  | Piece m => is_u32 (pc_index m) /\ is_u32 (pc_offset m) /\ is_u32 (9 + Z.of_nat (length (pc_block m)))
  | Cancel m => is_u32 (cl_index m) /\ is_u32 (cl_offset m) /\ is_u32 (cl_length m)
  | BitsExtension (BitsPort m) => is_u16 (port m)
  | BitsExtension (BitsExtended m) => extended_ok m
  | ProtExtension (ExtUtMetadata m) =>
      metadata_ok m /\ is_u32 (2 + Z.of_nat (UtMetadataMessage_message_size m)) /\
      exists e id, extended = Some e /\ query_id e UtMetadataType = Some id /\ is_u8 id /\ id <> EXTENDED_MESSAGE_HANDSHAKE_ID
  | ProtExtension (ExtCustom _) => True
  end.

(** Prefixes of a list. *)
Lemma prefix_take {A} (l : list A) n : (n <= length l)%nat -> length (take n l) = n.
Proof. intros. rewrite length_take. lia. Qed.

Section Facts.
Context `{NL : NomLaws}.

Lemma wrap32 n : is_u32 n -> as_u32 n = n.
Proof. apply wrap_id. Qed.

Lemma write_id id : is_u8 id -> write_be 1 id = [id].
Proof. apply write_byte. Qed.

Lemma byte_done id rest : is_u8 id -> be_u 1 (id :: rest) = Done rest id.
Proof. intros Hi. apply (be_u_done 1 [id]); [done|by constructor]. Qed.

(** ** Headers *)

Lemma header_opt_done len id body : is_u32 len -> is_u8 id ->
  header_opt (write_be 4 len ++ id :: body) [] = Done [] (len, Some id).
Proof.
  intros Hl Hi. unfold header_opt. parse_step ltac:(by apply be_u_write).
  parse_step ltac:(apply opt_done; by apply byte_done). by rewrite value_done.
Qed.

Lemma header_opt_short bytes : (length bytes < 4)%nat -> header_opt bytes [] = Incomplete.
Proof. intros Hl. unfold header_opt. by rewrite seq_incomplete by (by apply be_u_short). Qed.

Lemma header_opt_four len : is_u32 len -> header_opt (write_be 4 len) [] = Incomplete.
Proof.
  intros Hl. unfold header_opt. rewrite <- (app_nil_r (write_be 4 len)). parse_step ltac:(by apply be_u_write).
  rewrite seq_incomplete; [done|]. apply opt_incomplete. apply be_u_short. simpl. lia.
Qed.

Lemma header_id_done len id body : is_u32 len -> is_u8 id ->
  header_id (write_be 4 len ++ id :: body) [] = Done [] (len, id).
Proof.
  intros Hl Hi. unfold header_id. parse_step ltac:(by apply be_u_write).
  parse_step ltac:(by apply byte_done). by rewrite value_done.
Qed.

Lemma header_ext_done len id ext body : is_u32 len -> is_u8 id -> is_u8 ext ->
  header_ext (write_be 4 len ++ id :: ext :: body) [] = Done [] (len, id, ext).
Proof.
  intros Hl Hi He. unfold header_ext. parse_step ltac:(by apply be_u_write).
  parse_step ltac:(by apply byte_done).
  parse_step ltac:(by apply byte_done). by rewrite value_done.
Qed.

Lemma header_ext_five len id : is_u32 len -> is_u8 id -> header_ext (write_be 4 len ++ [id]) [] = Incomplete.
Proof.
  intros Hl Hi. unfold header_ext. parse_step ltac:(by apply be_u_write).
  parse_step ltac:(by apply byte_done).
  rewrite seq_incomplete; [done|]. apply be_u_short. simpl. lia.
Qed.

(** ** Which alternative is taken *)

Lemma parse_builtin_result bytes e len id r : header_opt bytes [] = Done [] (len, Some id) ->
  parse_builtin bytes len (Some id) [] = Done [] r -> PeerWireProtocolMessage_parse_bytes bytes e = r.
Proof.
  intros Hh Hp. unfold PeerWireProtocolMessage_parse_bytes, parse_message.
  rewrite (alt_done _ _ _ [] r); [done|]. by rewrite (seq_done _ _ _ [] (len, Some id)).
Qed.

Lemma parse_builtin_waits bytes e len id : header_opt bytes [] = Done [] (len, Some id) ->
  parse_builtin bytes len (Some id) [] = Incomplete -> PeerWireProtocolMessage_parse_bytes bytes e = Err FailedToParse.
Proof.
  intros Hh Hp. unfold PeerWireProtocolMessage_parse_bytes, parse_message.
  rewrite alt_incomplete; [done|]. by rewrite (seq_done _ _ _ [] (len, Some id)).
Qed.

Lemma parse_header_waits bytes e : header_opt bytes [] = Incomplete -> PeerWireProtocolMessage_parse_bytes bytes e = Err FailedToParse.
Proof.
  intros Hh. unfold PeerWireProtocolMessage_parse_bytes, parse_message. rewrite alt_incomplete; [done|].
  by apply seq_incomplete.
Qed.

(** Ids above the built-in ones. *)
Lemma builtin_unknown bytes len id : 9 <= id -> parse_builtin bytes len (Some id) [] = NomError.
Proof.
  intros Hi. unfold parse_builtin.
  repeat match goal with |- context [id =? ?x] =>
    rewrite (proj2 (Z.eqb_neq id x)) by (unfold CHOKE_MESSAGE_ID, UNCHOKE_MESSAGE_ID, INTERESTED_MESSAGE_ID, UNINTERESTED_MESSAGE_ID,
      HAVE_MESSAGE_ID, BITFIELD_MESSAGE_ID, REQUEST_MESSAGE_ID, PIECE_MESSAGE_ID, CANCEL_MESSAGE_ID; lia) end.
  rewrite !andb_false_r. apply fail_error.
Qed.

Lemma parse_bits_result bytes e len id r : header_opt bytes [] = Done [] (len, Some id) -> 9 <= id ->
  parse_extension bytes [] = Done [] r -> PeerWireProtocolMessage_parse_bytes bytes e = res_map BitsExtension r.
Proof.
  intros Hh Hi Hp. unfold PeerWireProtocolMessage_parse_bytes, parse_message.
  rewrite alt_error; [|rewrite (seq_done _ _ _ [] (len, Some id)) by done; by apply builtin_unknown].
  rewrite (alt_done _ _ _ [] (res_map BitsExtension r)); [done|]. by apply map_done.
Qed.

Lemma parse_bits_waits bytes e len id : header_opt bytes [] = Done [] (len, Some id) -> 9 <= id ->
  parse_extension bytes [] = Incomplete -> PeerWireProtocolMessage_parse_bytes bytes e = Err FailedToParse.
Proof.
  intros Hh Hi Hp. unfold PeerWireProtocolMessage_parse_bytes, parse_message.
  rewrite alt_error; [|rewrite (seq_done _ _ _ [] (len, Some id)) by done; by apply builtin_unknown].
  rewrite alt_incomplete; [done|]. by apply seq_incomplete.
Qed.

Lemma parse_prot_result bytes e len id : header_opt bytes [] = Done [] (len, Some id) -> 9 <= id ->
  parse_extension bytes [] = NomError ->
  PeerWireProtocolMessage_parse_bytes bytes e = res_map ProtExtension (PeerExtensionProtocolMessage_parse_bytes bytes e) \/
  PeerExtensionProtocolMessage_parse_bytes bytes e = OutOfFuel.
Proof.
  intros Hh Hi Hp. unfold PeerWireProtocolMessage_parse_bytes, parse_message.
  rewrite alt_error; [|rewrite (seq_done _ _ _ [] (len, Some id)) by done; by apply builtin_unknown].
  rewrite alt_error by (by apply seq_error). destruct (PeerExtensionProtocolMessage_parse_bytes bytes e); cbn; auto.
Qed.

(** ** Built-in messages *)

Lemma write_pair len id : is_u8 id -> write_length_id_pair len (Some id) = write_be 4 len ++ [id].
Proof. intros Hi. unfold write_length_id_pair. by rewrite write_id. Qed.

Lemma split_header {A} len id body (k : list Z -> IResult A) : split_off HEADER_LEN (write_be 4 len ++ id :: body) k = k body.
Proof.
  unfold split_off. rewrite length_app, length_write. cbn [length]. change HEADER_LEN with 5%nat.
  destruct (Nat.leb_spec 5 (4 + S (length body))); [|lia]. f_equal.
  rewrite drop_app_ge by (rewrite length_write; lia). by rewrite length_write.
Qed.

Lemma sub_u32_done {A} a b (k : Z -> IResult A) : b <= a -> sub_u32 a b k = k (a - b).
Proof. intros Hab. unfold sub_u32. by destruct (Z.ltb_spec a b); [lia|]. Qed.

(** Reading [n] bytes, all of them or too few. *)
Lemma be_u_map_full {A} n v rest (f : Z -> A) : in_unsigned (8 * Z.of_nat n) v ->
  throwaway (nom_map (be_u n) f (write_be n v ++ rest)) = Done [] (f v).
Proof. intros Hv. by rewrite (map_done _ _ _ rest v) by (by apply be_u_write). Qed.

Lemma be_u_map_short {A} n bytes (f : Z -> A) : (length bytes < n)%nat -> throwaway (nom_map (be_u n) f bytes) = Incomplete.
Proof. intros Hl. unfold nom_map. by rewrite seq_incomplete by (by apply be_u_short). Qed.

Lemma parse_three_full {A} (mk : Z -> Z -> Z -> A) a b c rest : is_u32 a -> is_u32 b -> is_u32 c ->
  parse_three mk ((write_be 4 a ++ write_be 4 b ++ write_be 4 c) ++ rest) = Done rest (Ok (mk a b c)).
Proof.
  intros Ha Hb Hc. unfold parse_three. rewrite <- !app_assoc. parse_step ltac:(by apply be_u_write).
  parse_step ltac:(by apply be_u_write). parse_step ltac:(by apply be_u_write). apply value_done.
Qed.

Lemma take_write n v k rest : (n <= k)%nat -> take k (write_be n v ++ rest) = write_be n v ++ take (k - n) rest.
Proof. intros Hk. rewrite take_app, length_write. by rewrite (take_ge (write_be n v)) by (rewrite length_write; lia). Qed.

Lemma short_write n v k rest : (k < n)%nat -> (length (take k (write_be n v ++ rest)) < n)%nat.
Proof. intros Hk. rewrite length_take. lia. Qed.

Lemma parse_three_short {A} (mk : Z -> Z -> Z -> A) a b c k : is_u32 a -> is_u32 b -> (k < 12)%nat ->
  parse_three mk (take k (write_be 4 a ++ write_be 4 b ++ write_be 4 c)) = Incomplete.
Proof.
  intros Ha Hb Hk. unfold parse_three. destruct (Nat.lt_ge_cases k 4) as [H1|H1].
  { apply seq_incomplete, be_u_short. by apply short_write. }
  rewrite take_write by done. parse_step ltac:(by apply be_u_write). destruct (Nat.lt_ge_cases k 8) as [H2|H2].
  { apply seq_incomplete, be_u_short. apply short_write. lia. }
  rewrite take_write by lia. parse_step ltac:(by apply be_u_write). apply seq_incomplete, be_u_short.
  rewrite length_take, length_write. lia.
Qed.

Lemma length_three a b c : length (write_be 4 a ++ write_be 4 b ++ write_be 4 c) = 12%nat.
Proof. by rewrite !length_app, !length_write. Qed.

Lemma parse_piece_full bytes i o block len rest : is_u32 i -> is_u32 o -> len = 8 + Z.of_nat (length block) ->
  parse_piece bytes len ((write_be 4 i ++ write_be 4 o ++ block) ++ rest) =
  Done rest (Ok (PieceMessage_new i o (slice bytes 8 (8 + length block)))).
Proof.
  intros Hi Ho ->. unfold parse_piece. rewrite <- !app_assoc. parse_step ltac:(by apply be_u_write).
  parse_step ltac:(by apply be_u_write). rewrite sub_u32_done by lia. replace (8 + Z.of_nat (length block) - 8) with (Z.of_nat (length block)) by lia.
  rewrite Nat2Z.id. by erewrite map_done by (by apply take_done).
Qed.

Lemma piece_slice i o block rest : slice ((write_be 4 i ++ write_be 4 o ++ block) ++ rest) 8 (8 + length block) = block.
Proof.
  unfold slice. rewrite <- !app_assoc, app_assoc. rewrite drop_app_ge by (rewrite length_app, !length_write; lia).
  rewrite length_app, !length_write. replace (8 - (4 + 4))%nat with 0%nat by lia. rewrite drop_0. apply take_app_length'. lia.
Qed.

Lemma parse_piece_short bytes i o block len k : is_u32 i -> is_u32 o -> len = 8 + Z.of_nat (length block) ->
  (k < 8 + length block)%nat -> parse_piece bytes len (take k (write_be 4 i ++ write_be 4 o ++ block)) = Incomplete.
Proof.
  intros Hi Ho -> Hk. unfold parse_piece. destruct (Nat.lt_ge_cases k 4) as [H1|H1].
  { apply seq_incomplete, be_u_short. by apply short_write. }
  rewrite take_write by done. parse_step ltac:(by apply be_u_write). destruct (Nat.lt_ge_cases k 8) as [H2|H2].
  { apply seq_incomplete, be_u_short. apply short_write. lia. }
  rewrite take_write by lia. parse_step ltac:(by apply be_u_write). rewrite sub_u32_done by lia.
  apply seq_incomplete, take_short. rewrite length_take. lia.
Qed.

(** Length, id and content of a built-in message. *)
Definition builtin_wire (m : PeerWireProtocolMessage) : option (Z * Z * list Z) :=
  match m with
  | Choke => Some (CHOKE_MESSAGE_LEN, CHOKE_MESSAGE_ID, [])
  | UnChoke => Some (UNCHOKE_MESSAGE_LEN, UNCHOKE_MESSAGE_ID, [])
  | Interested => Some (INTERESTED_MESSAGE_LEN, INTERESTED_MESSAGE_ID, [])
  | UnInterested => Some (UNINTERESTED_MESSAGE_LEN, UNINTERESTED_MESSAGE_ID, [])
  | Have m => Some (HAVE_MESSAGE_LEN, HAVE_MESSAGE_ID, write_be 4 (have_index m))
  | BitField m => Some (1 + Z.of_nat (length (bitfield m)), BITFIELD_MESSAGE_ID, bitfield m)
  | Request m => Some (REQUEST_MESSAGE_LEN, REQUEST_MESSAGE_ID, write_be 4 (rq_index m) ++ write_be 4 (rq_offset m) ++ write_be 4 (rq_length m))
  | Piece m => Some (9 + Z.of_nat (length (pc_block m)), PIECE_MESSAGE_ID, write_be 4 (pc_index m) ++ write_be 4 (pc_offset m) ++ pc_block m)
  | Cancel m => Some (CANCEL_MESSAGE_LEN, CANCEL_MESSAGE_ID, write_be 4 (cl_index m) ++ write_be 4 (cl_offset m) ++ write_be 4 (cl_length m))
  | _ => None
  end.

Lemma builtin_written e m len id body : wire_ok e m -> builtin_wire m = Some (len, id, body) ->
  is_u32 len /\ is_u8 id /\ PeerWireProtocolMessage_write_bytes m e = Ok (write_be 4 len ++ id :: body) /\
  PeerWireProtocolMessage_message_size m = (5 + length body)%nat.
Proof.
  intros Hok E. destruct m as [| | | | |[i]|[b]|[i o l]|[i o b]|[i o l]|x|x]; try done; cbn [builtin_wire wire_ok have_index bitfield rq_index rq_offset rq_length pc_index pc_offset pc_block cl_index cl_offset cl_length] in *;
    injection E as <- <- <-; (split; [first [done|apply Hok|in_range]|]); (split; [in_range|]);
    cbn [PeerWireProtocolMessage_write_bytes HaveMessage_write_bytes]; unfold HaveMessage_write_bytes, BitFieldMessage_write_bytes,
      RequestMessage_write_bytes, PieceMessage_write_bytes, CancelMessage_write_bytes;
    cbn [have_index bitfield rq_index rq_offset rq_length pc_index pc_offset pc_block cl_index cl_offset cl_length];
    rewrite write_pair by in_range; rewrite ?wrap32 by (done || apply Hok); rewrite <- ?app_assoc; (split; [done|]);
    unfold PeerWireProtocolMessage_message_size; rewrite ?length_three, ?length_app, ?length_write; reflexivity.
Qed.

Lemma builtin_parsed e m len id body rest : wire_ok e m -> builtin_wire m = Some (len, id, body) ->
  parse_builtin (write_be 4 len ++ id :: body ++ rest) len (Some id) [] = Done [] (Ok m).
Proof.
  intros Hok E. destruct m as [| | | | |[i]|[b]|[i o l]|[i o b]|[i o l]|x|x]; try done; cbn [builtin_wire wire_ok have_index bitfield rq_index rq_offset rq_length pc_index pc_offset pc_block cl_index cl_offset cl_length] in *;
    injection E as <- <- <-; unfold parse_builtin; rewrite ?andb_false_r; try (apply value_done).
  - apply (map_done _ (res_map Have) _ _ (Ok (HaveMessage_new i))). rewrite split_header. by apply (be_u_map_full 4 i).
  - apply (map_done _ (res_map BitField) _ _ (Ok (BitFieldMessage_new b))). rewrite sub_u32_done, split_header by lia. unfold BitFieldMessage_parse_bytes.
    replace (1 + Z.of_nat (length b) - 1) with (Z.of_nat (length b)) by lia. rewrite Nat2Z.id, length_app.
    destruct (Nat.leb_spec (length b) (length b + length rest)); [|lia]. by rewrite take_app_length.
  - apply (map_done _ (res_map Request) _ _ (Ok (RequestMessage_new i o l))). rewrite split_header. unfold RequestMessage_parse_bytes.
    by rewrite parse_three_full by apply Hok.
  - apply (map_done _ (res_map Piece) _ _ (Ok (PieceMessage_new i o b))). rewrite sub_u32_done, split_header by lia. unfold PieceMessage_parse_bytes.
    rewrite parse_piece_full by (apply Hok || lia). by rewrite piece_slice.
  - apply (map_done _ (res_map Cancel) _ _ (Ok (CancelMessage_new i o l))). rewrite split_header. unfold CancelMessage_parse_bytes.
    by rewrite parse_three_full by apply Hok.
Qed.

Lemma builtin_waits e m len id body k : wire_ok e m -> builtin_wire m = Some (len, id, body) -> (k < length body)%nat ->
  parse_builtin (write_be 4 len ++ id :: take k body) len (Some id) [] = Incomplete.
Proof.
  intros Hok E Hk. destruct m as [| | | | |[i]|[b]|[i o l]|[i o b]|[i o l]|x|x]; try done; cbn [builtin_wire wire_ok have_index bitfield rq_index rq_offset rq_length pc_index pc_offset pc_block cl_index cl_offset cl_length] in *;
    injection E as <- <- <-; unfold parse_builtin; rewrite ?andb_false_r; try (cbn in Hk; lia).
  - apply seq_incomplete. rewrite split_header. apply be_u_map_short. rewrite length_take, length_write in *. lia.
  - apply seq_incomplete. rewrite sub_u32_done, split_header by lia. unfold BitFieldMessage_parse_bytes.
    replace (1 + Z.of_nat (length b) - 1) with (Z.of_nat (length b)) by lia. rewrite Nat2Z.id, length_take.
    destruct (Nat.leb_spec (length b) (k `min` length b)); [lia|done].
  - rewrite length_three in Hk. apply seq_incomplete. rewrite split_header. unfold RequestMessage_parse_bytes. by rewrite parse_three_short by (apply Hok || lia).
  - rewrite !length_app, !length_write in Hk. apply seq_incomplete. rewrite sub_u32_done, split_header by lia. unfold PieceMessage_parse_bytes.
    by rewrite parse_piece_short by (apply Hok || lia).
  - rewrite length_three in Hk. apply seq_incomplete. rewrite split_header. unfold CancelMessage_parse_bytes. by rewrite parse_three_short by (apply Hok || lia).
Qed.

(** ** Messages of the extension bits *)

Lemma split_ext {A} len id ext body (k : list Z -> IResult A) :
  split_off (HEADER_LEN + 1) (write_be 4 len ++ id :: ext :: body) k = k body.
Proof.
  unfold split_off. rewrite length_app, length_write. cbn [length]. change (HEADER_LEN + 1)%nat with 6%nat.
  destruct (Nat.leb_spec 6 (4 + S (S (length body)))); [|lia]. f_equal.
  rewrite drop_app_ge by (rewrite length_write; lia). by rewrite length_write.
Qed.

Lemma port_parsed p body : header_id (write_be 4 PORT_MESSAGE_LEN ++ PORT_MESSAGE_ID :: body) [] = Done [] (PORT_MESSAGE_LEN, PORT_MESSAGE_ID) ->
  PortMessage_parse_bytes body = Done [] (Ok p) ->
  parse_extension (write_be 4 PORT_MESSAGE_LEN ++ PORT_MESSAGE_ID :: body) [] = Done [] (Ok (BitsPort p)).
Proof.
  intros Hh Hp. unfold parse_extension. apply alt_done. rewrite (seq_done _ _ _ [] (PORT_MESSAGE_LEN, PORT_MESSAGE_ID)) by done. cbn.
  apply (map_done _ (res_map BitsPort) _ _ (Ok p)). by rewrite split_header.
Qed.

Lemma port_waits body : (length body < 2)%nat ->
  parse_extension (write_be 4 PORT_MESSAGE_LEN ++ PORT_MESSAGE_ID :: body) [] = Incomplete.
Proof.
  intros Hl. unfold parse_extension. apply alt_incomplete. erewrite seq_done by (apply header_id_done; in_range). cbn.
  apply seq_incomplete. rewrite split_header. by apply be_u_map_short.
Qed.

(** An id that is not the one of a port message goes to the second alternative. *)
Lemma extension_second len body : is_u32 len ->
  parse_extension (write_be 4 len ++ EXTENDED_MESSAGE_ID :: body) [] =
  (parse (message_len, id, ext) := header_ext (write_be 4 len ++ EXTENDED_MESSAGE_ID :: body) in
     if (id =? EXTENDED_MESSAGE_ID) && (ext =? EXTENDED_MESSAGE_HANDSHAKE_ID) then
       nom_map (fun _ => sub_u32 message_len 2 (fun len' =>
           split_off (HEADER_LEN + 1) (write_be 4 len ++ EXTENDED_MESSAGE_ID :: body) (fun b => ExtendedMessage_parse_bytes b len')))
         (res_map BitsExtended)
     else nom_fail) [].
Proof.
  intros Hl. unfold parse_extension. apply alt_error. erewrite seq_done by (apply header_id_done; [done|in_range]). cbn beta iota.
  change (EXTENDED_MESSAGE_ID =? PORT_MESSAGE_ID) with false. rewrite andb_false_r. apply fail_error.
Qed.

Lemma extension_five len : is_u32 len -> parse_extension (write_be 4 len ++ [EXTENDED_MESSAGE_ID]) [] = Incomplete.
Proof. intros Hl. rewrite extension_second by done. apply seq_incomplete, header_ext_five; [done|in_range]. Qed.

Lemma extended_step len body : is_u32 len -> 2 <= len ->
  parse_extension (write_be 4 len ++ EXTENDED_MESSAGE_ID :: EXTENDED_MESSAGE_HANDSHAKE_ID :: body) [] =
  nom_map (fun _ => ExtendedMessage_parse_bytes body (len - 2)) (res_map BitsExtended) [].
Proof.
  intros Hl H2. rewrite extension_second by done. erewrite seq_done by (apply header_ext_done; [done|in_range|in_range]). cbn [andb].
  change ((EXTENDED_MESSAGE_ID =? EXTENDED_MESSAGE_ID) && (EXTENDED_MESSAGE_HANDSHAKE_ID =? EXTENDED_MESSAGE_HANDSHAKE_ID)) with true. cbn iota.
  rewrite sub_u32_done, split_ext by done. done.
Qed.

Lemma other_extension len ext body : is_u32 len -> is_u8 ext -> ext <> EXTENDED_MESSAGE_HANDSHAKE_ID ->
  parse_extension (write_be 4 len ++ EXTENDED_MESSAGE_ID :: ext :: body) [] = NomError.
Proof.
  intros Hl He Hne. rewrite extension_second by done. erewrite seq_done by (apply header_ext_done; [done|in_range|done]). cbn beta iota.
  rewrite (proj2 (Z.eqb_neq ext EXTENDED_MESSAGE_HANDSHAKE_ID)) by done. rewrite andb_false_r. apply fail_error.
Qed.

(** ** Metadata messages *)

(** Decoding an encoded value that is followed by other bytes. *)
Lemma decode_followed v post opts : mut_ok v -> (mut_depth v <= max_recursion opts)%nat -> enforce_full_decode opts = false ->
  exists r, BencodeRef_decode (BencodeMut_encode v ++ post) opts = Ok r /\ ref_erase r = v /\ ref_buffer r = BencodeMut_encode v.
Proof.
  intros Hok Hd Hf. unfold BencodeMut_encode. rewrite encode_enc by done. cbn [app].
  destruct (decode_gram (enc v ++ post) opts (enc v) post v eq_refl) as (r & Hr & Hv); [apply enc_gram; [done|lia]|].
  exists r. split; [apply BencodeRef_decode_Ok; exists (length (enc v)); split; [done|by rewrite Hf]|]. split; [done|].
  rewrite (decode_buffer _ _ _ _ _ _ _ Hr), slice_0. by rewrite take_app_length.
Qed.

(** The dictionary of a metadata message. *)
Definition metadata_dict (t piece : Z) (total_size : option Z) : list (list Z * BencodeMut) :=
  insert_opt TOTAL_SIZE_KEY (MInt <$> total_size) (bt_insert PIECE_INDEX_KEY (MInt piece) (bt_insert MESSAGE_TYPE_KEY (MInt t) [])).

Lemma mut_ok_insert k v d : Z.of_nat (length k) < 2 ^ 63 -> mut_ok v -> mut_ok (MDict d) -> mut_ok (MDict (bt_insert k v d)).
Proof.
  intros Hk Hv Hd. inversion Hd as [| | |? Hs Hl Hm]; subst. constructor; [by apply bt_insert_sorted|by apply bt_insert_Forall..].
Qed.

Lemma mut_ok_insert_opt k o d : Z.of_nat (length k) < 2 ^ 63 -> (forall v, o = Some v -> mut_ok v) -> mut_ok (MDict d) ->
  mut_ok (MDict (insert_opt k o d)).
Proof. intros Hk Ho Hd. destruct o; [|done]. apply mut_ok_insert; auto. Qed.

Lemma mut_ok_empty : mut_ok (MDict []).
Proof. constructor; constructor. Qed.

Lemma metadata_dict_ok t piece total_size : is_i64 t -> is_i64 piece -> (forall n, total_size = Some n -> is_i64 n) ->
  mut_ok (MDict (metadata_dict t piece total_size)) /\ (mut_depth (MDict (metadata_dict t piece total_size)) <= 2)%nat.
Proof.
  intros Ht Hp Hn. split; [|destruct total_size; vm_compute; lia].
  apply mut_ok_insert_opt; [done|intros v E; destruct total_size; [|done]; injection E as <-; constructor; auto|].
  repeat apply mut_ok_insert; try done; try (by constructor). apply mut_ok_empty.
Qed.

Lemma dict_of_erase r d : ref_erase r = MDict d -> exists rd, acc_dict r = Some rd /\ erase_entries rd = d.
Proof. destruct r; try done. cbn. intros [= <-]. eauto. Qed.

Lemma metadata_parse_bytes t piece total_size data r : is_u8 t -> is_i64 piece -> (forall n, total_size = Some n -> is_i64 n) ->
  BencodeRef_decode (metadata_bencode t piece total_size ++ data) (BDecodeOpt_new 2 false false) = Ok r ->
  ref_erase r = MDict (metadata_dict t piece total_size) ->
  exists d, convert_dict r METADATA_ROOT_KEY = Ok d /\ parse_message_type d = Ok t /\ parse_piece_index d = Ok piece /\
    (forall n, total_size = Some n -> parse_total_size d = Ok n).
Proof.
  intros Ht Hp Hn Hr He. destruct (dict_of_erase r _ He) as (d & Hd & Hde). exists d.
  unfold convert_dict, parse_message_type, parse_piece_index, parse_total_size. rewrite Hd, !lookup_int_erase, Hde.
  split; [done|]. unfold lookup_and_convert_int, convert_lookup.
  assert (bt_lookup MESSAGE_TYPE_KEY (metadata_dict t piece total_size) = Some (MInt t)) as -> by (by destruct total_size).
  assert (bt_lookup PIECE_INDEX_KEY (metadata_dict t piece total_size) = Some (MInt piece)) as -> by (by destruct total_size).
  cbn. split; [f_equal; by apply wrap_id|]. split; [done|]. by intros n ->.
Qed.

Lemma metadata_roundtrip m : metadata_ok m ->
  UtMetadataMessage_parse_bytes (UtMetadataMessage_write_bytes m) = Ok m /\
  length (UtMetadataMessage_write_bytes m) = UtMetadataMessage_message_size m.
Proof.
  assert (forall t piece total_size data, is_u8 t -> is_i64 piece -> (forall n, total_size = Some n -> is_i64 n) ->
    exists r d, BencodeRef_decode (metadata_bencode t piece total_size ++ data) (BDecodeOpt_new 2 false false) = Ok r /\
      ref_buffer r = metadata_bencode t piece total_size /\
      convert_dict r METADATA_ROOT_KEY = Ok d /\ parse_message_type d = Ok t /\ parse_piece_index d = Ok piece /\
      (forall n, total_size = Some n -> parse_total_size d = Ok n)) as Hread.
  { intros t piece total_size data Ht Hp Hn. assert (is_i64 t) by (unfold in_unsigned, in_signed in *; lia).
    destruct (metadata_dict_ok t piece total_size) as [Hok Hdep]; [done..|].
    destruct (decode_followed _ data (BDecodeOpt_new 2 false false) Hok Hdep eq_refl) as (r & Hr & He & Hb).
    destruct (metadata_parse_bytes t piece total_size data r Ht Hp Hn Hr He) as (d & Hd). exists r, d. done. }
  intros Hm. destruct m as [[p s]|[p n dat s]|[p s]]; cbn [metadata_ok mrq_piece mrj_piece md_piece md_total_size md_data] in Hm;
    unfold UtMetadataMessage_parse_bytes, UtMetadataMessage_write_bytes, UtMetadataMessage_message_size;
    cbn [mrq_piece mrq_bencode_size mrj_piece mrj_bencode_size md_piece md_total_size md_data md_bencode_size].
  - destruct Hm as [Hp [= ->]]. destruct (Hread REQUEST_MESSAGE_TYPE_ID p None []) as (r & d & E & Hb & Ec & Et & Ep & _); [in_range|done|done|].
    rewrite app_nil_r in E. rewrite E. cbn beta iota. rewrite Ec. cbn [res_bind]. rewrite Et. cbn [res_bind]. rewrite Ep. cbn. by rewrite Hb.
  - destruct Hm as (Hp & Hn & Hs). apply (f_equal md_bencode_size) in Hs. cbn [md_bencode_size UtMetadataDataMessage_new] in Hs. subst s.
     destruct (Hread DATA_MESSAGE_TYPE_ID p (Some n) dat) as (r & d & E & Hb & Ec & Et & Ep & En); [in_range|done|by intros ? [= <-]|].
    rewrite E. cbn beta iota. rewrite Ec. cbn [res_bind]. rewrite Et. cbn [res_bind]. rewrite Ep. cbn [res_bind].
    rewrite (En n) by done. cbn [res_bind]. rewrite Hb, drop_app_length, length_app. split; [|done].
    by change (DATA_MESSAGE_TYPE_ID =? REQUEST_MESSAGE_TYPE_ID) with false.
  - destruct Hm as [Hp [= ->]]. destruct (Hread REJECT_MESSAGE_TYPE_ID p None []) as (r & d & E & Hb & Ec & Et & Ep & _); [in_range|done|done|].
    rewrite app_nil_r in E. rewrite E. cbn beta iota. rewrite Ec. cbn [res_bind]. rewrite Et. cbn [res_bind]. rewrite Ep. cbn. by rewrite Hb.
Qed.

(** ** Every message *)

(** A message's bytes: they are parsed back whatever follows them, and not before all of
    them are there. *)
Definition reads_back (e : option ExtendedMessage) (m : PeerWireProtocolMessage) (bytes : list Z) : Prop :=
  PeerWireProtocolMessage_message_size m = length bytes /\
  (forall rest, PeerWireProtocolMessage_parse_bytes (bytes ++ rest) e = Ok m) /\
  (forall k, (k < length bytes)%nat -> exists er, PeerWireProtocolMessage_parse_bytes (take k bytes) e = Err er).

Lemma prefix_waits len id body e k : is_u32 len -> (k < 5 + length body)%nat ->
  (forall j, (j < length body)%nat -> exists er, PeerWireProtocolMessage_parse_bytes (write_be 4 len ++ id :: take j body) e = Err er) ->
  exists er, PeerWireProtocolMessage_parse_bytes (take k (write_be 4 len ++ id :: body)) e = Err er.
Proof.
  intros Hl Hk Hj. destruct (Nat.lt_ge_cases k 4) as [H1|H1].
  { exists FailedToParse. apply parse_header_waits, header_opt_short. by apply short_write. }
  rewrite take_write by done. destruct (k - 4)%nat as [|j] eqn:E.
  { exists FailedToParse. apply parse_header_waits. rewrite app_nil_r. by apply header_opt_four. }
  apply Hj. lia.
Qed.

Lemma builtin_reads_back e m len id body : wire_ok e m -> builtin_wire m = Some (len, id, body) ->
  PeerWireProtocolMessage_write_bytes m e = Ok (write_be 4 len ++ id :: body) /\ reads_back e m (write_be 4 len ++ id :: body).
Proof.
  intros Hok E. destruct (builtin_written e m len id body Hok E) as (Hl & Hi & Hw & Hs). split; [done|].
  assert (length (write_be 4 len ++ id :: body) = 5 + length body)%nat as El by (rewrite length_app, length_write; done).
  split; [by rewrite El|]. split.
  - intros rest. rewrite <- app_assoc. cbn [app]. apply (parse_builtin_result _ _ len id); [by apply header_opt_done|].
    by apply (builtin_parsed e).
  - intros k Hk. rewrite El in Hk. apply prefix_waits; [done|done|]. intros j Hj. exists FailedToParse.
    apply (parse_builtin_waits _ _ len id); [by apply header_opt_done|]. by apply (builtin_waits e m).
Qed.

Lemma port_reads_back e p : is_u16 (port p) ->
  reads_back e (BitsExtension (BitsPort p)) (BitsExtensionMessage_write_bytes (BitsPort p)).
Proof.
  intros Hp. destruct p as [p]. cbn [port BitsExtensionMessage_write_bytes] in *. unfold PortMessage_write_bytes. cbn [port].
  rewrite write_pair by in_range. rewrite <- app_assoc. cbn [app]. split; [by rewrite length_app, length_write; cbn [length]; rewrite length_write|]. split.
  - intros rest. rewrite <- app_assoc. cbn [app]. erewrite (parse_bits_result _ _ PORT_MESSAGE_LEN PORT_MESSAGE_ID (Ok (BitsPort (PortMessage_new p))));
      [done|apply header_opt_done; in_range|done|]. apply port_parsed; [apply header_id_done; in_range|].
    by apply (be_u_map_full 2 p).
  - intros k Hk. rewrite !length_app, length_write in Hk. cbn [length] in Hk. rewrite length_write in Hk.
    apply prefix_waits; [in_range|by rewrite length_write|]. intros j Hj. rewrite length_write in Hj. exists FailedToParse.
    apply (parse_bits_waits _ _ PORT_MESSAGE_LEN PORT_MESSAGE_ID); [apply header_opt_done; in_range|done|].
    apply port_waits. rewrite length_take, length_write. lia.
Qed.

Lemma extended_reads_back e m : extended_ok m ->
  reads_back e (BitsExtension (BitsExtended m)) (BitsExtensionMessage_write_bytes (BitsExtended m)).
Proof.
  intros [Hd Hl]. cbn [BitsExtensionMessage_write_bytes]. unfold ExtendedMessage_write_bytes.
  rewrite write_pair, wrap32 by (done || in_range). rewrite <- app_assoc. cbn [app].
  set (raw := raw_bencode m) in *. set (len := 2 + Z.of_nat (length raw)) in *.
  assert (is_u8 EXTENDED_MESSAGE_ID) as Hid by in_range. assert (Hn : len - 2 = Z.of_nat (length raw)) by lia.
  split; [unfold PeerWireProtocolMessage_message_size; cbn [BitsExtensionMessage_message_size]; rewrite length_app, length_write; done|]. split.
  - intros rest. rewrite <- app_assoc. cbn [app].
    erewrite (parse_bits_result _ _ len EXTENDED_MESSAGE_ID (Ok (BitsExtended m))); [done|by apply header_opt_done|done|].
    rewrite extended_step by (done || lia). apply (map_done _ (res_map BitsExtended) _ _ (Ok m)). unfold ExtendedMessage_parse_bytes.
    rewrite Hn, Nat2Z.id, length_app, take_app_length. destruct (Nat.leb_spec (length raw) (length raw + length rest)); [|lia]. by rewrite Hd.
  - intros k Hk. rewrite length_app, length_write in Hk. apply prefix_waits; [done|done|]. intros [|j] Hj; exists FailedToParse;
      (eapply parse_bits_waits; [by apply header_opt_done|done|]); [by apply extension_five|].
    cbn [take length] in *. rewrite extended_step by (done || lia). apply seq_incomplete. unfold ExtendedMessage_parse_bytes.
    rewrite Hn, Nat2Z.id, length_take. destruct (Nat.leb_spec (length raw) (j `min` length raw)); [lia|done].
Qed.

(** The dispatch on an extension's id. *)
Lemma prot_step len ext body e id : is_u32 len -> 2 <= len -> is_u8 ext -> query_id e UtMetadataType = Some id -> ext = id ->
  PeerExtensionProtocolMessage_parse_bytes (write_be 4 len ++ EXTENDED_MESSAGE_ID :: ext :: body) (Some e) =
  if Z.of_nat (length body) <? len - 2 then Err (ExtensionTooShort (len - 2))
  else match UtMetadataMessage_parse_bytes (take (Z.to_nat (len - 2)) body) with
       | Ok m => Ok (ExtUtMetadata m) | Err er => Err er | Panic | OutOfFuel => Panic end.
Proof.
  intros Hl H2 He Hq ->. unfold PeerExtensionProtocolMessage_parse_bytes, parse_extensions.
  erewrite seq_done by (apply header_ext_done; [done|in_range|done]). cbn beta iota. rewrite Z.eqb_refl. unfold parse_extensions_with_id.
  rewrite sub_u32_done by done. change EXTENSION_HEADER_LEN with (HEADER_LEN + 1)%nat. rewrite split_ext.
  destruct (Z.ltb_spec (Z.of_nat (length body)) (len - 2)); [done|].
  rewrite bool_decide_true by done. by destruct (UtMetadataMessage_parse_bytes _).
Qed.

Lemma metadata_reads_back e id m : metadata_ok m -> is_u32 (2 + Z.of_nat (UtMetadataMessage_message_size m)) ->
  query_id e UtMetadataType = Some id -> is_u8 id -> id <> EXTENDED_MESSAGE_HANDSHAKE_ID ->
  exists bytes, PeerExtensionProtocolMessage_write_bytes (ExtUtMetadata m) (Some e) = Ok bytes /\
    reads_back (Some e) (ProtExtension (ExtUtMetadata m)) bytes.
Proof.
  intros Hm Hl Hq Hi H0. destruct (metadata_roundtrip m Hm) as [Hp Hs]. unfold PeerExtensionProtocolMessage_write_bytes. rewrite Hq.
  rewrite write_pair, write_id, wrap32 by (done || in_range). eexists. split; [done|]. rewrite <- Hs in Hl. rewrite <- app_assoc. cbn [app].
  unfold reads_back, PeerWireProtocolMessage_message_size. rewrite <- Hs. set (raw := UtMetadataMessage_write_bytes m) in *.
  set (len := 2 + Z.of_nat (length raw)) in *.
  assert (is_u8 EXTENDED_MESSAGE_ID) as Hid by in_range. assert (Hn : len - 2 = Z.of_nat (length raw)) by lia.
  split; [rewrite length_app, length_write; done|]. split.
  - intros rest. rewrite <- app_assoc. cbn [app].
    destruct (parse_prot_result (write_be 4 len ++ EXTENDED_MESSAGE_ID :: id :: raw ++ rest) (Some e) len EXTENDED_MESSAGE_ID) as [->|E];
      [by apply header_opt_done|done|by apply other_extension| |]; [|revert E];
      rewrite (prot_step _ _ _ _ id) by (done || lia); rewrite Hn, Nat2Z.id, length_app, take_app_length, Hp;
      (destruct (Z.ltb_spec (Z.of_nat (length raw + length rest)) (Z.of_nat (length raw))); [lia|done]).
  - intros k Hk. rewrite length_app, length_write in Hk. apply prefix_waits; [done|done|]. intros [|j] Hj.
    { exists FailedToParse. eapply parse_bits_waits; [by apply header_opt_done|done|]. by apply extension_five. }
    cbn [take length] in *. exists (ExtensionTooShort (len - 2)).
    destruct (parse_prot_result (write_be 4 len ++ EXTENDED_MESSAGE_ID :: id :: take j raw) (Some e) len EXTENDED_MESSAGE_ID) as [->|E];
      [by apply header_opt_done|done|by apply other_extension| |]; [|revert E];
      rewrite (prot_step _ _ _ _ id) by (done || lia); rewrite length_take;
      (destruct (Z.ltb_spec (Z.of_nat (j `min` length raw)) (len - 2)); [done|lia]).
Qed.

Lemma parse_written e m : wire_ok e m -> m <> KeepAlive ->
  exists bytes, PeerWireProtocolMessage_write_bytes m e = Ok bytes /\ reads_back e m bytes.
Proof.
  intros Hok Hk. destruct (builtin_wire m) as [[[len id] body]|] eqn:Eb.
  { eexists. by apply builtin_reads_back. }
  destruct m as [| | | | | | | | | |[p|x]|[x|[]]]; try done; cbn [PeerWireProtocolMessage_write_bytes wire_ok] in *.
  - eexists. split; [done|]. by apply port_reads_back.
  - eexists. split; [done|]. by apply extended_reads_back.
  - destruct Hok as (Hm & Hl & e' & id & -> & Hq & Hi & Hne). by apply (metadata_reads_back e' id).
Qed.

(** A keep-alive is only recognised when the first byte of the next message is there and is 0. *)
Lemma keep_alive_parsed e rest : PeerWireProtocolMessage_parse_bytes (write_be 4 0 ++ 0 :: rest) e = Ok KeepAlive.
Proof. apply (parse_builtin_result _ _ 0 0); [apply header_opt_done; in_range|apply value_done]. Qed.

Lemma keep_alive_waits e k : exists er, PeerWireProtocolMessage_parse_bytes (take k (write_be 4 0)) e = Err er.
Proof.
  exists FailedToParse. apply parse_header_waits. destruct (Nat.lt_ge_cases k 4).
  - apply header_opt_short. rewrite length_take, length_write. lia.
  - rewrite take_ge by (rewrite length_write; lia). apply header_opt_four. in_range.
Qed.

End Facts.

(** * Peer wire messages: round trips and the reader's framing

    The properties of [PeerMessage]: every message is read back from its bytes, the
    reader cuts a stream into the messages it was written from however the stream is
    split by the reads, and the inputs on which the code departs from that. *)

(** ** The reader over a stream *)

(** The bytes a peer has sent and what each [read] may return at most. *)
Fixpoint read_stream `{Nom} (log_info : bool) (sizes : list nat) (stream : list Z) (r : Reader)
    : res unit (list PeerWireProtocolMessage * list Z * Reader) :=
  match sizes with
  | [] => Ok ([], stream, r)
  | n :: sizes =>
      let received := take (n `min` (READ_BUFFER_LEN - length (unread r))) stream in
      let? (msgs, r) := read_round log_info received r in
      let? (more, stream, r) := read_stream log_info sizes (drop (length received) stream) r in
      Ok (msgs ++ more, stream, r)
  end.

(** What is left in the buffer is not yet a message: too few bytes, or a keep-alive. *)
Definition waiting (rest : list Z) (pending : list PeerWireProtocolMessage) : Prop :=
  match pending with
  | [] => rest = []
  | m :: _ => (length rest < PeerWireProtocolMessage_message_size m)%nat \/ (m = KeepAlive /\ length rest = 4%nat)
  end.

Lemma take_drop_rest {A} k (l : list A) : take k l ++ drop (length (take k l)) l = l.
Proof.
  destruct (Nat.le_ge_cases k (length l)) as [Hl|Hl]; [rewrite length_take_le by done; apply take_drop|].
  rewrite take_ge by done. by rewrite drop_all, app_nil_r.
Qed.

Section Framing.
Context `{NL : NomLaws}.
Variable e : option ExtendedMessage.

(** A message of the stream and its bytes. *)
Definition sent (m : PeerWireProtocolMessage) (bytes : list Z) : Prop :=
  wire_ok e m /\ PeerWireProtocolMessage_write_bytes m e = Ok bytes /\ (PeerWireProtocolMessage_message_size m <= READ_BUFFER_LEN)%nat.

Lemma written_header m bytes : wire_ok e m -> PeerWireProtocolMessage_write_bytes m e = Ok bytes ->
  exists t, bytes = write_be 4 (Z.of_nat (PeerWireProtocolMessage_message_size m) - 4) ++ t.
Proof.
  intros Hok Hw.
  destruct m as [| | | | |[i]|[b]|[i o l]|[i o b]|[i o l]|[p|x]|[x|[]]]; cbn [wire_ok bitfield pc_block] in Hok;
    try (injection Hw as <-; unfold HaveMessage_write_bytes, BitFieldMessage_write_bytes, RequestMessage_write_bytes,
      PieceMessage_write_bytes, CancelMessage_write_bytes, BitsExtensionMessage_write_bytes, PortMessage_write_bytes, ExtendedMessage_write_bytes,
      write_length_id_pair; cbn [bitfield pc_block]; rewrite ?wrap32 by (apply Hok);
    rewrite <- ?app_assoc; eexists; apply (f_equal (fun v => write_be 4 v ++ _));
    unfold PeerWireProtocolMessage_message_size, BitsExtensionMessage_message_size, MESSAGE_LENGTH_LEN_BYTES,
      BASE_BITFIELD_MESSAGE_LEN, BASE_PIECE_MESSAGE_LEN, BASE_EXTENDED_MESSAGE_LEN; cbn [bitfield pc_block]; reflexivity || lia).
  cbn [PeerWireProtocolMessage_write_bytes PeerExtensionProtocolMessage_write_bytes] in Hw. destruct Hok as (_ & Hl & e' & id & -> & Hq & _).
  rewrite Hq in Hw. injection Hw as <-. unfold write_length_id_pair. rewrite wrap32 by done. rewrite <- app_assoc. eexists. f_equal. f_equal.
  unfold PeerWireProtocolMessage_message_size, BASE_PROT_EXTENSION_MESSAGE_LEN, MESSAGE_LENGTH_LEN_BYTES. lia.
Qed.

Lemma write_small v : 0 <= v < 2 ^ 24 -> exists t, write_be 4 v = 0 :: t.
Proof.
  intros Hv. rewrite write_be_bytes. cbn [be_bytes app]. eexists. f_equal. rewrite !Z.div_div by lia. change (256 * (256 * 256)) with (2 ^ 24). by rewrite Z.div_small.
Qed.

Lemma sent_zero m bytes : sent m bytes -> exists t, bytes = 0 :: t.
Proof.
  intros (Hok & Hw & Hs). destruct (written_header m bytes Hok Hw) as [t ->].
  destruct (write_small (Z.of_nat (PeerWireProtocolMessage_message_size m) - 4)) as [u ->]; [|by eexists].
  unfold READ_BUFFER_LEN, PeerWireProtocolMessage_message_size, MESSAGE_LENGTH_LEN_BYTES in *. lia.
Qed.

Lemma sent_keep_alive bytes : sent KeepAlive bytes -> bytes = write_be 4 0.
Proof. intros (_ & [= <-] & _). apply app_nil_r. Qed.

Lemma sent_reads_back m bytes : sent m bytes -> m <> KeepAlive -> reads_back e m bytes.
Proof. intros (Hok & Hw & _) Hk. destruct (parse_written e m Hok Hk) as (b & Hb & Hr). rewrite Hw in Hb. by injection Hb as <-. Qed.

Lemma sent_bytes_length m bytes : sent m bytes -> length bytes = PeerWireProtocolMessage_message_size m.
Proof.
  intros Hs. destruct (decide (is_keep_alive m = true)) as [Hk|Hk].
  - destruct m; try done. by rewrite (sent_keep_alive _ Hs), length_write.
  - symmetry. apply (sent_reads_back m); [done|by intros ->].
Qed.

(** The codec keeps the message that parses the extensions. *)
Lemma codec_parse_our data c : our_extended_msg (codec_parse_bytes data c).2 = our_extended_msg c.
Proof. unfold codec_parse_bytes. by destruct (PeerWireProtocolMessage_parse_bytes data _) as [[| | | | | | | | | |[]|]| | |]. Qed.

Lemma codec_parse_fst data c : (codec_parse_bytes data c).1 = PeerWireProtocolMessage_parse_bytes data (our_extended_msg c).
Proof. unfold codec_parse_bytes. by destruct (PeerWireProtocolMessage_parse_bytes data _) as [[| | | | | | | | | |[]|]| | |]. Qed.

Lemma parse_loop_message fuel m data rest c : our_extended_msg c = e ->
  PeerWireProtocolMessage_parse_bytes (data ++ rest) e = Ok m -> PeerWireProtocolMessage_message_size m = length data ->
  exists c', our_extended_msg c' = e /\
    parse_loop (S fuel) (data ++ rest) c = (let? (msgs, tail, c'') := parse_loop fuel rest c' in Ok (m :: msgs, tail, c'')).
Proof.
  intros Hc Hp Hs. exists (codec_parse_bytes (data ++ rest) c).2. split; [by rewrite codec_parse_our|]. cbn [parse_loop].
  pose proof (codec_parse_fst (data ++ rest) c) as Hf. rewrite Hc, Hp in Hf. destruct (codec_parse_bytes (data ++ rest) c) as [r c']. cbn in Hf. subst r.
  rewrite Hs, length_app. destruct (Nat.leb_spec (length data) (length data + length rest)); [|lia]. by rewrite drop_app_length.
Qed.

Lemma parse_loop_stops fuel data c er : PeerWireProtocolMessage_parse_bytes data (our_extended_msg c) = Err er ->
  exists c', our_extended_msg c' = our_extended_msg c /\ parse_loop (S fuel) data c = Ok ([], data, c').
Proof.
  intros Hp. exists (codec_parse_bytes data c).2. split; [by rewrite codec_parse_our|]. cbn [parse_loop].
  pose proof (codec_parse_fst data c) as Hf. rewrite Hp in Hf. destruct (codec_parse_bytes data c) as [r c']. cbn in Hf. by subst r.
Qed.

(** The buffer [data ++ future] begins has been cut into whole messages and what is
    waiting. *)
Definition frames (ms : list PeerWireProtocolMessage) (future : list Z)
    (out : res unit (list PeerWireProtocolMessage * list Z * PeerWireMessageCodec)) : Prop :=
  exists ready pending pbytes rest c, ms = ready ++ pending /\ Forall2 sent pending pbytes /\ our_extended_msg c = e /\
    out = Ok (ready, rest, c) /\ rest ++ future = concat pbytes /\ waiting rest pending.

Lemma frames_stop fuel data c ms bytes future er : our_extended_msg c = e -> (0 < fuel)%nat -> Forall2 sent ms bytes ->
  data ++ future = concat bytes -> PeerWireProtocolMessage_parse_bytes data e = Err er -> waiting data ms ->
  frames ms future (parse_loop fuel data c).
Proof.
  intros Hc Hf Hms Hd Hp Hw. destruct fuel as [|fuel]; [lia|]. rewrite <- Hc in Hp.
  destruct (parse_loop_stops fuel data c er Hp) as (c' & Hc' & Hl). exists [], ms, bytes, data, c'. by rewrite Hc', Hc.
Qed.

Lemma frames_message fuel m data rest c ms future : our_extended_msg c = e ->
  PeerWireProtocolMessage_parse_bytes (data ++ rest) e = Ok m -> PeerWireProtocolMessage_message_size m = length data ->
  (forall c', our_extended_msg c' = e -> frames ms future (parse_loop fuel rest c')) ->
  frames (m :: ms) future (parse_loop (S fuel) (data ++ rest) c).
Proof.
  intros Hc Hp Hs Hf. destruct (parse_loop_message fuel m data rest c Hc Hp Hs) as (c' & Hc' & ->).
  destruct (Hf c' Hc') as (ready & pending & pbytes & tail & c'' & -> & Hps & Hc'' & -> & Ht & Hw).
  exists (m :: ready), pending, pbytes, tail, c''. done.
Qed.

(** A keep-alive with nothing behind it. *)
Lemma frames_pending m b ms bytes fuel data future c : sent m b -> Forall2 sent ms bytes -> our_extended_msg c = e -> (0 < fuel)%nat ->
  data ++ future = b ++ concat bytes -> (length data < length b)%nat -> frames (m :: ms) future (parse_loop fuel data c).
Proof.
  intros Hm Hms Hc Hf Hd Hlt. assert (data = take (length data) b) as Ht.
  { apply (f_equal (take (length data))) in Hd. by rewrite take_app_length, take_app_le in Hd by lia. }
  assert (exists er, PeerWireProtocolMessage_parse_bytes data e = Err er) as [er Her].
  { rewrite Ht. destruct (decide (is_keep_alive m = true)) as [Hk|Hk].
    - destruct m; try done. rewrite (sent_keep_alive _ Hm). apply keep_alive_waits.
    - apply (sent_reads_back m b); [done|by intros ->|done]. }
  apply (frames_stop _ _ _ _ (b :: bytes) _ er); [done|done|by constructor|done|done|]. left. by rewrite <- (sent_bytes_length _ _ Hm).
Qed.

Lemma parse_loop_prefix ms bytes : Forall2 sent ms bytes -> forall fuel data future c, our_extended_msg c = e ->
  (length data < fuel)%nat -> data ++ future = concat bytes -> frames ms future (parse_loop fuel data c).
Proof.
  induction 1 as [|m b ms bytes Hm Hms IH]; intros fuel data future c Hc Hf Hd.
  { apply app_eq_nil in Hd as [-> ->]. apply (frames_stop _ _ _ _ [] _ FailedToParse); try done. apply parse_header_waits, header_opt_short. simpl. lia. }
  cbn [concat] in Hd. pose proof (sent_bytes_length _ _ Hm) as Hlen. destruct (Nat.lt_ge_cases (length data) (length b)) as [Hlt|Hge].
  { apply (frames_pending m b ms bytes); auto. lia. }
  assert (exists rest, data = b ++ rest) as [rest ->].
  { exists (drop (length b) data). rewrite <- (take_drop (length b) data) at 1. f_equal.
    apply (f_equal (take (length b))) in Hd. by rewrite take_app_length, take_app_le in Hd by lia. }
  rewrite <- app_assoc in Hd. apply app_inv_head in Hd. rewrite length_app in Hf.
  assert (length b <> 0)%nat by (destruct (sent_zero _ _ Hm) as [t ->]; done).
  destruct fuel as [|fuel]; [lia|]. destruct (decide (is_keep_alive m = true)) as [Hk|Hk].
  2: { apply frames_message; [done| |by rewrite Hlen|]; [apply (sent_reads_back m b); [done|by intros ->]|].
       intros c' Hc'. apply IH; [done|lia|done]. }
  destruct m; try done. pose proof (sent_keep_alive _ Hm) as ->. destruct rest as [|x rest].
  - rewrite app_nil_r. destruct (keep_alive_waits e 4) as [er Her]. rewrite take_ge in Her by (by rewrite length_write).
    apply (frames_stop _ _ _ _ (write_be 4 0 :: bytes) _ er); [done|lia|by constructor|cbn [concat]; by f_equal|done|]. right. by rewrite length_write.
  - assert (x = 0) as ->.
    { destruct Hms as [|m' b' ms' bytes' Hm' _]; [done|]. destruct (sent_zero _ _ Hm') as [t ->]. cbn in Hd. by injection Hd. }
    apply frames_message; [done|apply keep_alive_parsed|by rewrite Hlen|]. intros c' Hc'. apply IH; [done|lia|done].
Qed.

(** The reader between two rounds. *)
Definition reader_ok (r : Reader) (stream : list Z) (pending : list PeerWireProtocolMessage) : Prop :=
  our_extended_msg (codec r) = e /\ waiting (unread r) pending /\
  exists pbytes, Forall2 sent pending pbytes /\ unread r ++ stream = concat pbytes.

Lemma reader_room r stream pending : reader_ok r stream pending -> (length (unread r) < READ_BUFFER_LEN)%nat.
Proof.
  intros (_ & Hw & pbytes & Hs & Hu). destruct Hs as [|m b ms bytes (_ & _ & Hm) _]; cbn in Hw; [rewrite Hw; unfold READ_BUFFER_LEN; cbn [length]; lia|].
  destruct Hw as [Hw|[_ Hw]]; [eapply Nat.lt_le_trans; [exact Hw|exact Hm]|]. rewrite Hw. unfold READ_BUFFER_LEN. lia.
Qed.

Lemma read_stream_frames sizes : forall stream r pending, reader_ok r stream pending ->
  exists ready pending' stream' r', pending = ready ++ pending' /\ read_stream false sizes stream r = Ok (ready, stream', r') /\
    reader_ok r' stream' pending'.
Proof.
  induction sizes as [|n sizes IH]; intros stream r pending Hr.
  { exists [], pending, stream, r. done. }
  cbn [read_stream]. set (received := take _ stream). destruct Hr as (Hc & _ & pbytes & Hs & Hu). unfold read_round. cbn [andb].
  assert (take (READ_BUFFER_LEN - length (unread r)) received = received) as -> by (apply take_ge; unfold received; rewrite length_take; lia).
  assert (Hsplit : received ++ drop (length received) stream = stream) by apply take_drop_rest.
  destruct (parse_loop_prefix pending pbytes Hs (S (length (unread r ++ received))) (unread r ++ received) (drop (length received) stream) (codec r))
    as (ready & pending' & pbytes' & rest & c' & -> & Hs' & Hc' & -> & Hr' & Hw'); [done|lia|by rewrite <- app_assoc, Hsplit|].
  cbn [res_bind]. destruct (IH (drop (length received) stream) (mkReader rest c') pending') as (more & pending'' & stream' & r' & -> & -> & Hr''); [by split; [|split; [|eauto]]|].
  exists (ready ++ more), pending'', stream', r'. rewrite app_assoc. done.
Qed.

(** C26: every message that can be written (numbers in range, metadata messages under an
    assigned id) other than a keep-alive is written to exactly [message_size] bytes, is
    parsed back from them whatever bytes follow, and no strict prefix of them parses. *)
Theorem peer_messages_roundtrip m : wire_ok e m -> m <> KeepAlive ->
  exists bytes, PeerWireProtocolMessage_write_bytes m e = Ok bytes /\
    length bytes = PeerWireProtocolMessage_message_size m /\
    (forall rest, PeerWireProtocolMessage_parse_bytes (bytes ++ rest) e = Ok m) /\
    (forall k, (k < length bytes)%nat -> exists er, PeerWireProtocolMessage_parse_bytes (take k bytes) e = Err er).
Proof.
  intros Hok Hk. destruct (parse_written e m Hok Hk) as (bytes & Hw & Hs & Hr). exists bytes. by rewrite Hs.
Qed.

Lemma waiting_all_read rest pending pbytes : Forall2 sent pending pbytes -> rest = concat pbytes -> waiting rest pending ->
  pending = [] \/ pending = [KeepAlive].
Proof.
  intros Hs -> Hw. destruct Hs as [|m b ms bs Hm Hs]; [by left|]. right. cbn [waiting concat] in Hw. rewrite length_app, (sent_bytes_length _ _ Hm) in Hw.
  destruct Hw as [Hw|[-> Hw]]; [lia|]. destruct Hs as [|m' b' ms bs Hm' _]; [done|]. cbn [concat] in Hw. destruct (sent_zero _ _ Hm') as [t ->].
  cbn in Hw. lia.
Qed.

(** Logging panics or changes nothing. *)
Lemma read_stream_logged sizes : forall stream r,
  read_stream true sizes stream r = Panic \/ read_stream true sizes stream r = read_stream false sizes stream r.
Proof.
  induction sizes as [|n sizes IH]; intros stream r; [by right|]. cbn [read_stream]. unfold read_round. cbn [andb].
  destruct (_ <? 4)%nat; [by left|]. destruct (parse_loop _ _ _) as [[[msgs rest] c]| | |]; cbn [res_bind]; [|by right..].
  destruct (IH (drop (length (take (n `min` (READ_BUFFER_LEN - length (unread r))) stream)) stream) (mkReader rest c)) as [->| ->]; [by left|by right].
Qed.

(** C7: the reader of a peer's thread cuts the stream of a peer back into its messages.
    For messages that the code knows and that fit the buffer of 24 KiB each, whatever the
    sizes of the reads, it passes on, in order, exactly the messages the stream was written
    from, without a panic when logging is off; there is always room in the buffer for the
    next read; and when the stream is read to its end every message has been passed on,
    but for a keep-alive at the very end. With logging enabled the reader does the same or
    panics (on a round with fewer than four bytes in the buffer). *)
Theorem reader_delivers_stream ms bytes c sizes : Forall2 sent ms bytes -> our_extended_msg c = e ->
  exists delivered pending stream r, ms = delivered ++ pending /\
    read_stream false sizes (concat bytes) (mkReader [] c) = Ok (delivered, stream, r) /\
    (length (unread r) < READ_BUFFER_LEN)%nat /\
    (stream = [] -> pending = [] \/ pending = [KeepAlive]) /\
    (read_stream true sizes (concat bytes) (mkReader [] c) = Panic \/ read_stream true sizes (concat bytes) (mkReader [] c) = Ok (delivered, stream, r)).
Proof.
  intros Hs Hc. destruct (read_stream_frames sizes (concat bytes) (mkReader [] c) ms) as (delivered & pending & stream & r & Hms & Hr & Hok).
  { split; [done|]. split; [|by exists bytes]. destruct Hs as [|m b ms bytes Hm _]; [done|]. left. rewrite <- (sent_bytes_length _ _ Hm).
    destruct (sent_zero _ _ Hm) as [t ->]. cbn. lia. }
  exists delivered, pending, stream, r. split; [done|]. split; [done|]. split; [by apply (reader_room _ stream pending)|].
  split; [|rewrite <- Hr; apply read_stream_logged]. intros ->. destruct Hok as (_ & Hw & pbytes & Hps & Hu). rewrite app_nil_r in Hu. by apply (waiting_all_read (unread r) pending pbytes).
Qed.

(** ** Departures *)

Lemma unsupported_fails len id body : is_u32 len -> 10 <= id <= 255 -> id <> EXTENDED_MESSAGE_ID -> bytes_ok body ->
  exists er, PeerWireProtocolMessage_parse_bytes (write_be 4 len ++ id :: body) e = Err er.
Proof.
  intros Hl Hi Hne Hb. assert (is_u8 id) as Hid by (unfold in_unsigned; lia).
  assert (Hh : header_opt (write_be 4 len ++ id :: body) [] = Done [] (len, Some id)) by (by apply header_opt_done).
  assert (Hp : (id =? PORT_MESSAGE_ID) = false) by (apply Z.eqb_neq; unfold PORT_MESSAGE_ID; lia).
  assert (He : (id =? EXTENDED_MESSAGE_ID) = false) by (by apply Z.eqb_neq).
  assert (Hext : parse_extension (write_be 4 len ++ id :: body) [] =
    (parse (message_len, id', ext) := header_ext (write_be 4 len ++ id :: body) in
     if (id' =? EXTENDED_MESSAGE_ID) && (ext =? EXTENDED_MESSAGE_HANDSHAKE_ID) then
       nom_map (fun _ => sub_u32 message_len 2 (fun len' =>
           split_off (HEADER_LEN + 1) (write_be 4 len ++ id :: body) (fun b => ExtendedMessage_parse_bytes b len')))
         (res_map BitsExtended)
     else nom_fail) []).
  { apply alt_error. erewrite seq_done by (by apply header_id_done). cbn beta iota. rewrite Hp, andb_false_r. apply fail_error. }
  destruct body as [|x body].
  { exists FailedToParse. eapply parse_bits_waits; [done|lia|]. rewrite Hext. apply seq_incomplete. by apply header_ext_five. }
  apply Forall_cons in Hb as [Hx _].
  assert (parse_extension (write_be 4 len ++ id :: x :: body) [] = NomError) as Hext'.
  { rewrite Hext. erewrite seq_done by (by apply header_ext_done). cbn beta iota. rewrite He. apply fail_error. }
  destruct (parse_prot_result _ e len id Hh ltac:(lia) Hext') as [->|E]; [|revert E]; unfold PeerExtensionProtocolMessage_parse_bytes;
    (destruct e as [e'|]; [|first [intros E'; discriminate E'|by exists ExtensionBeforeExtended]]); unfold parse_extensions; (erewrite seq_done by (by apply header_ext_done)); cbn beta iota;
    rewrite He, fail_error; first [intros E'; discriminate E'|by exists FailedToParseExtension].
Qed.

(** A message the code does not know (an id of 10 or above that is not the one of the
    extension protocol, such as those of the fast extension) stops the reader for good:
    it stays at the front of the buffer and no later byte leads to a message being
    passed on. *)
Lemma unsupported_message_blocks_reader len id body chunks c : is_u32 len -> 10 <= id <= 255 -> id <> EXTENDED_MESSAGE_ID ->
  bytes_ok body -> Forall bytes_ok chunks -> our_extended_msg c = e ->
  exists more c', read_rounds false chunks (mkReader (write_be 4 len ++ id :: body) c) =
    Ok ([], mkReader (write_be 4 len ++ id :: body ++ more) c').
Proof.
  intros Hl Hi Hne Hb Hcs Hc. revert body c Hb Hc. induction Hcs as [|chunk chunks Hch _ IH]; intros body c Hb Hc.
  { exists [], c. by rewrite app_nil_r. }
  cbn [read_rounds]. unfold read_round. cbn [andb unread codec]. set (received := take _ chunk).
  assert (bytes_ok (body ++ received)) as Hb' by (apply Forall_app; split; [done|]; by apply Forall_take).
  destruct (unsupported_fails len id (body ++ received) Hl Hi Hne Hb') as [er Her]. rewrite <- Hc in Her. rewrite <- app_assoc. cbn [app].
  destruct (parse_loop_stops (length (write_be 4 len ++ id :: body ++ received)) _ c er Her) as (c' & Hc' & ->). cbn [res_bind].
  destruct (IH (body ++ received) c') as (more & c'' & ->); [done|by rewrite Hc'|]. cbn [res_bind app].
  exists (received ++ more), c''. by rewrite app_assoc.
Qed.

Lemma builtin_panics bytes len id : header_opt bytes [] = Done [] (len, Some id) -> parse_builtin bytes len (Some id) [] = NomPanic ->
  PeerWireProtocolMessage_parse_bytes bytes e = Panic.
Proof.
  intros Hh Hp. unfold PeerWireProtocolMessage_parse_bytes, parse_message. rewrite alt_panic; [done|]. by rewrite (seq_done _ _ _ [] (len, Some id)).
Qed.

Lemma sub_u32_panics {A} a b (k : Z -> IResult A) : a < b -> sub_u32 a b k = NomPanic.
Proof. intros Hab. unfold sub_u32. by destruct (Z.ltb_spec a b); [|lia]. Qed.

(** Four kinds of malformed messages panic the thread that reads them (with overflow
    checks): a bit field and a piece of length 0, a piece too short for its index and
    offset when eight bytes follow, and an extended handshake shorter than its ids. *)
Lemma short_lengths_panic body a b : is_u32 a -> is_u32 b ->
  PeerWireProtocolMessage_parse_bytes (write_be 4 0 ++ BITFIELD_MESSAGE_ID :: body) e = Panic /\
  PeerWireProtocolMessage_parse_bytes (write_be 4 0 ++ PIECE_MESSAGE_ID :: body) e = Panic /\
  (forall len, 1 <= len <= 8 ->
    PeerWireProtocolMessage_parse_bytes (write_be 4 len ++ PIECE_MESSAGE_ID :: write_be 4 a ++ write_be 4 b ++ body) e = Panic) /\
  (forall len, 0 <= len <= 1 ->
    PeerWireProtocolMessage_parse_bytes (write_be 4 len ++ EXTENDED_MESSAGE_ID :: EXTENDED_MESSAGE_HANDSHAKE_ID :: body) e = Panic).
Proof.
  intros Ha Hb. assert (forall len, 0 <= len <= 8 -> is_u32 len) as Hsmall by (intros len Hlen; unfold in_unsigned; cbn; lia).
  assert (forall len id tail, 0 <= len <= 8 -> is_u8 id -> header_opt (write_be 4 len ++ id :: tail) [] = Done [] (len, Some id)) as Hh
    by (intros; apply header_opt_done; auto).
  split; [|split; [|split]].
  - eapply builtin_panics; [apply Hh; [lia|in_range]|]. apply seq_panic. by rewrite sub_u32_panics.
  - eapply builtin_panics; [apply Hh; [lia|in_range]|]. apply seq_panic. by rewrite sub_u32_panics.
  - intros len Hlen. eapply builtin_panics; [apply Hh; [lia|in_range]|]. unfold parse_builtin. rewrite !andb_false_r. apply seq_panic.
    rewrite sub_u32_done, split_header by lia. unfold PieceMessage_parse_bytes, parse_piece.
    parse_step ltac:(by apply be_u_write). parse_step ltac:(by apply be_u_write). by rewrite sub_u32_panics by lia.
  - intros len Hlen. unfold PeerWireProtocolMessage_parse_bytes, parse_message.
    rewrite alt_error by (erewrite seq_done by (apply Hh; [lia|in_range]); by apply builtin_unknown).
    rewrite alt_panic; [done|]. apply seq_panic. rewrite extension_second by (apply Hsmall; lia).
    erewrite seq_done by (apply header_ext_done; [apply Hsmall; lia|in_range|in_range]). cbn beta iota. rewrite !Z.eqb_refl. cbn [andb].
    apply seq_panic. by rewrite sub_u32_panics by lia.
Qed.

End Framing.

(** ** Bit fields *)

(** Bit [i] of a bit field, the first one being the highest of the first byte. *)
Definition bit_is_set (bytes : list Z) (i : nat) : bool :=
  match bytes !! (i / 8)%nat with Some b => Z.testbit b (7 - Z.of_nat (i mod 8)) | None => false end.

(** The shifts of the iterator test that bit, checked on every byte and position. *)
Lemma shifted_bit b j : is_u8 b -> (j < 8)%nat ->
  (Z.shiftr (as_u8 (Z.shiftl b (Z.of_nat j))) 7 =? 1) = Z.testbit b (7 - Z.of_nat j).
Proof.
  intros Hb Hj. assert (forallb (fun j => forallb (fun b => Bool.eqb (Z.shiftr (as_u8 (Z.shiftl (Z.of_nat b) (Z.of_nat j))) 7 =? 1)
    (Z.testbit (Z.of_nat b) (7 - Z.of_nat j))) (seq 0 256)) (seq 0 8) = true) as Hall by (vm_compute; reflexivity).
  rewrite forallb_forall in Hall. specialize (Hall j). rewrite in_seq, forallb_forall in Hall. specialize (Hall ltac:(lia) (Z.to_nat b)).
  rewrite in_seq in Hall. unfold in_unsigned in Hb. specialize (Hall ltac:(lia)). rewrite Z2Nat.id in Hall by lia. by apply Bool.eqb_prop.
Qed.

Lemma iter_next_spec bytes n : bytes_ok bytes -> forall cur fuel, (cur + n = 8 * length bytes)%nat -> (n < fuel)%nat ->
  BitFieldIter_next fuel bytes cur = Ok (match List.filter (bit_is_set bytes) (seq cur n) with
    | [] => None | i :: _ => Some (HaveMessage_new (as_u32 (Z.of_nat i)), i + 1)%nat end).
Proof.
  intros Hb. induction n as [|n IH]; intros cur [|fuel] Hc Hf; try lia; cbn [BitFieldIter_next seq List.filter].
  { rewrite (proj2 (lookup_ge_None bytes (cur / 8))); [done|]. apply Nat.div_le_lower_bound; lia. }
  destruct (lookup_lt_is_Some_2 bytes (cur / 8)) as [b Eb]; [apply Nat.Div0.div_lt_upper_bound; lia|].
  unfold bit_is_set at 1. rewrite Eb, shifted_bit by (apply (Forall_lookup_1 _ _ _ _ Hb Eb) || (apply Nat.mod_upper_bound; lia)).
  destruct (Z.testbit b _); [done|]. rewrite IH by lia. by rewrite Nat.add_1_r.
Qed.

Lemma filter_seq_cons f cur n i l : List.filter f (seq cur n) = i :: l ->
  exists n', (i + 1 + n' = cur + n)%nat /\ (n' < n)%nat /\ l = List.filter f (seq (i + 1) n').
Proof.
  revert cur. induction n as [|n IH]; intros cur; [done|]. cbn [seq List.filter]. destruct (f cur).
  - intros [= <- <-]. exists n. rewrite Nat.add_1_r. split; [lia|]. split; [lia|done].
  - intros E. apply IH in E as (n' & H1 & H2 & ->). exists n'. split; [lia|]. split; [lia|done].
Qed.

Lemma iter_collect_spec bytes : bytes_ok bytes -> forall n cur fuel, (cur + n = 8 * length bytes)%nat -> (n < fuel)%nat ->
  BitFieldIter_collect fuel bytes cur = Ok (map (fun i => HaveMessage_new (as_u32 (Z.of_nat i))) (List.filter (bit_is_set bytes) (seq cur n))).
Proof.
  intros Hb n. induction n as [n IH] using lt_wf_ind. intros cur [|fuel] Hc Hf; [lia|]. cbn [BitFieldIter_collect].
  rewrite (iter_next_spec bytes n) by (done || lia). cbn [res_bind].
  destruct (List.filter (bit_is_set bytes) (seq cur n)) as [|i l] eqn:E; [done|].
  apply filter_seq_cons in E as (n' & H1 & H2 & ->). rewrite (IH n') by lia. done.
Qed.

(** Iterating over a bit field message yields, in order, a [HaveMessage] for every
    piece whose bit is set and for no other, and ends. *)
Lemma bitfield_iter_lists_set_bits bytes : bytes_ok bytes -> Z.of_nat (8 * length bytes) <= 2 ^ 32 ->
  BitFieldMessage_iter (BitFieldMessage_new bytes) =
  Ok (map (fun i => HaveMessage_new (Z.of_nat i)) (List.filter (bit_is_set bytes) (seq 0 (8 * length bytes)))).
Proof.
  intros Hb Hl. unfold BitFieldMessage_iter. cbn [bitfield]. rewrite (iter_collect_spec bytes Hb (8 * length bytes)) by lia. f_equal.
  apply map_ext_in. intros i Hi. f_equal. apply filter_In in Hi as [Hi%in_seq _]. apply wrap_id. unfold in_unsigned. lia.
Qed.

Lemma bitfield_iter_lists_set_bits_witness :
  BitFieldMessage_iter (BitFieldMessage_new [128; 3]) = Ok [HaveMessage_new 0; HaveMessage_new 14; HaveMessage_new 15].
Proof. rewrite bitfield_iter_lists_set_bits; [vm_compute; reflexivity|repeat constructor; vm_compute; congruence|vm_compute; congruence]. Defined.

(** ** A concrete stream *)

(** An extended message that assigns id 1 to metadata messages. *)
Definition sample_extended : ExtendedMessage :=
  mkExtended (<[UtMetadataType := 1]> ∅) None None None None None None None (bs "d1:md11:ut_metadatai1eee").

Definition sample_messages : list PeerWireProtocolMessage :=
  [KeepAlive; Have (HaveMessage_new 7); BitsExtension (BitsExtended sample_extended);
   ProtExtension (ExtUtMetadata (MetaData (UtMetadataDataMessage_new 0 5 [1; 2; 3; 4; 5]))); KeepAlive].

Definition sample_bytes (m : PeerWireProtocolMessage) : list Z :=
  match PeerWireProtocolMessage_write_bytes (H := nom_reference) m (Some sample_extended) with Ok b => b | _ => [] end.

Lemma sample_sent : Forall2 (sent (N1 := nom_reference) (Some sample_extended)) sample_messages (map sample_bytes sample_messages).
Proof.
  assert (Hsent : forall m, wire_ok (Some sample_extended) m -> bool_decide (is_Some (res_ok (PeerWireProtocolMessage_write_bytes (H := nom_reference) m (Some sample_extended)))) = true ->
    (PeerWireProtocolMessage_message_size m <=? READ_BUFFER_LEN)%nat = true -> sent (N1 := nom_reference) (Some sample_extended) m (sample_bytes m)).
  { intros m Hok Hw Hs. split; [done|]. split; [|by apply Nat.leb_le]. unfold sample_bytes.
    by destruct (PeerWireProtocolMessage_write_bytes m (Some sample_extended)). }
  unfold sample_messages. cbn [map]. repeat apply Forall2_cons_2; try apply Forall2_nil_2;
    (apply Hsent; [cbn [wire_ok]|vm_compute; reflexivity|vm_compute; reflexivity]).
  1, 5: exact I.
  - in_range.
  - split; [vm_compute; reflexivity|in_range].
  - split; [split; [in_range|split; [in_range|reflexivity]]|]. split; [in_range|]. exists sample_extended, 1.
    split; [done|]. split; [vm_compute; reflexivity|]. split; [in_range|done].
Qed.

Lemma peer_messages_roundtrip_witness :
  PeerWireProtocolMessage_parse_bytes (H := nom_reference) (sample_bytes (Have (HaveMessage_new 7)) ++ [9]) (Some sample_extended) =
  Ok (Have (HaveMessage_new 7)).
Proof.
  destruct (peer_messages_roundtrip (N1 := nom_reference) (Some sample_extended) (Have (HaveMessage_new 7))) as (bytes & Hw & _ & Hr & _);
    [in_range|done|]. injection Hw as <-. exact (Hr [9]).
Defined.

Lemma reader_delivers_stream_witness :
  let stream := concat (map sample_bytes sample_messages) in
  let run log_info := read_stream (H := nom_reference) log_info [3%nat; 2%nat; 40%nat; 500%nat] stream (mkReader [] (mkCodec (Some sample_extended) None)) in
  (exists delivered pending stream' r, sample_messages = delivered ++ pending /\ run false = Ok (delivered, stream', r) /\
    (length (unread r) < READ_BUFFER_LEN)%nat /\ (stream' = [] -> pending = [] \/ pending = [KeepAlive]) /\ (run true = Panic \/ run true = Ok (delivered, stream', r))) /\
  match run false with Ok (delivered, stream', _) => delivered = take 4 sample_messages /\ stream' = [] | _ => False end /\ run true = Panic.
Proof.
  split; [|vm_compute; repeat split; reflexivity].
  apply (reader_delivers_stream (N1 := nom_reference) (Some sample_extended)); [apply sample_sent|done].
Defined.

Lemma unsupported_message_blocks_reader_witness :
  exists more c', read_rounds (H := nom_reference) false [[0; 0; 0; 1; 0]; [0; 0; 0; 1; 1]] (mkReader [0; 0; 0; 5; 13; 0; 0; 0; 7] (mkCodec None None)) =
    Ok ([], mkReader ([0; 0; 0; 5; 13; 0; 0; 0; 7] ++ more) c').
Proof.
  apply (unsupported_message_blocks_reader (N1 := nom_reference) None 5 13 [0; 0; 0; 7]);
    [in_range|lia|done|repeat constructor; vm_compute; congruence|repeat constructor; vm_compute; congruence|done].
Defined.

Lemma short_lengths_panic_witness :
  PeerWireProtocolMessage_parse_bytes (H := nom_reference) [0; 0; 0; 0; 5] None = Panic /\
  PeerWireProtocolMessage_parse_bytes (H := nom_reference) [0; 0; 0; 1; 7; 0; 0; 0; 0; 0; 0; 0; 0] None = Panic.
Proof.
  destruct (short_lengths_panic (N1 := nom_reference) None [] 0 0) as (Hb & _ & Hp & _); [in_range|in_range|]. specialize (Hp 1 ltac:(lia)).
  change [0; 0; 0; 0; 5] with (write_be (Nom := nom_reference) 4 0 ++ [BITFIELD_MESSAGE_ID]).
  change [0; 0; 0; 1; 7; 0; 0; 0; 0; 0; 0; 0; 0] with
    (write_be (Nom := nom_reference) 4 1 ++ PIECE_MESSAGE_ID :: write_be (Nom := nom_reference) 4 0 ++ write_be (Nom := nom_reference) 4 0 ++ []).
  split; assumption.
Defined.
