(* ===== verification/Handshake.v ===== *)
(** * Peer handshakes

    Model of [handshake]: extensions, the protocol and the handshake message with their
    bytes, the frame that reads one message from a socket, the filters, the handlers that
    initiate, accept and complete handshakes, and the manager that connects them. The
    parsers are over [Nom]. A socket is any type with the operations of the class
    [Socket]; [SocketLaws] has what [Read] and [Write] promise of them. A filter is any
    type with decidable equality and the decisions of [HandshakeFilter]: the equality of
    the trait objects, which compares the concrete types first. [flush] and the sleeping
    of [HandshakeTimer] have no effect here. *)

From S2P Require Import Prelude RustStd Words UtilSha UtilConvert Nom TrackerMessage.

(** ** Sockets *)

(** [Read::read] of at most [n] bytes and [Write::write]; [None] is an error. *)
Class Socket (S : Type) : Type := {
  sock_read : nat -> S -> option (list Z) * S;
  sock_write : list Z -> S -> option nat * S
}.

(** The bytes still to be read, the bytes written so far, and sockets on which reading
    and writing make progress. *)
Class SocketLaws (S : Type) `{Socket S} : Type := {
  sock_incoming : S -> list Z;
  sock_written : S -> list Z;
  sock_healthy : S -> Prop;
  read_some n s got s' : sock_read n s = (Some got, s') ->
    sock_incoming s = got ++ sock_incoming s' /\ (length got <= n)%nat /\ sock_written s' = sock_written s;
  read_none n s s' : sock_read n s = (None, s') -> sock_incoming s' = sock_incoming s /\ sock_written s' = sock_written s;
  write_some b s k s' : sock_write b s = (Some k, s') ->
    (k <= length b)%nat /\ sock_written s' = sock_written s ++ take k b /\ sock_incoming s' = sock_incoming s;
  write_none b s s' : sock_write b s = (None, s') -> sock_incoming s' = sock_incoming s;
  read_healthy n s : sock_healthy s -> (0 < n)%nat -> sock_incoming s <> [] ->
    exists b got s', sock_read n s = (Some (b :: got), s') /\ sock_healthy s';
  write_healthy b s : sock_healthy s -> b <> [] -> exists k s', sock_write b s = (Some (Datatypes.S k), s') /\ sock_healthy s'
}.

(** ** Extensions *)

Definition NUM_EXTENSION_BYTES : nat := 8.
Inductive Extension : Type := ExtensionProtocol.
Definition Extension_bit (e : Extension) : nat := match e with ExtensionProtocol => 43 end.

Record Extensions : Type := mkExtensions { ext_bytes : list Z }.
#[export] Instance Extensions_eq_dec : EqDecision Extensions.
Proof. solve_decision. Defined.

Definition Extensions_new : Extensions := mkExtensions (replicate NUM_EXTENSION_BYTES 0).

(** [self.bytes[byte_index]], replaced by a function of it. *)
Definition ext_update (f : Z -> Z) (e : Extension) (x : Extensions) : res unit Extensions :=
  match ext_bytes x !! (Extension_bit e / 8)%nat with
  | Some b => Ok (mkExtensions (<[(Extension_bit e / 8)%nat := f b]> (ext_bytes x)))
  | None => Panic
  end.
Definition ext_mask (e : Extension) : Z := Z.shiftr 128 (Z.of_nat (Extension_bit e mod 8)).

Definition Extensions_add (e : Extension) (x : Extensions) : res unit Extensions :=
  ext_update (fun b => Z.lor b (ext_mask e)) e x.
Definition Extensions_remove (e : Extension) (x : Extensions) : res unit Extensions :=
  ext_update (fun b => Z.land b (Z.lxor 255 (ext_mask e))) e x.
Definition Extensions_contains (e : Extension) (x : Extensions) : res unit bool :=
  match ext_bytes x !! (Extension_bit e / 8)%nat with
  | Some b => Ok (negb (Z.land b (ext_mask e) =? 0))
  | None => Panic
  end.
Definition Extensions_union (a b : Extensions) : Extensions :=
  mkExtensions (zip_with Z.land (ext_bytes a) (ext_bytes b)).
Definition Extensions_write_bytes (x : Extensions) : list Z := ext_bytes x.

(** ** Messages *)

Definition BT_PROTOCOL : list Z := bs "BitTorrent protocol".
Definition BT_PROTOCOL_LEN : nat := 19.

Inductive Protocol : Type := BitTorrent | Custom (prot : list Z).
#[export] Instance Protocol_eq_dec : EqDecision Protocol.
Proof. solve_decision. Defined.

Definition Protocol_write_len (p : Protocol) : nat := match p with BitTorrent => BT_PROTOCOL_LEN | Custom prot => length prot end.
Definition Protocol_write_bytes (p : Protocol) : list Z :=
  [as_u8 (Z.of_nat (Protocol_write_len p))] ++ match p with BitTorrent => BT_PROTOCOL | Custom prot => prot end.

Record HandshakeMessage : Type := mkHandshake { hs_prot : Protocol; hs_ext : Extensions; hs_hash : ShaHash; hs_pid : ShaHash }.

Definition HandshakeMessage_from_parts (prot : Protocol) (ext : Extensions) (hash pid : ShaHash) : res unit HandshakeMessage :=
  match prot with
  | Custom custom => if (255 <? length custom)%nat then Panic else Ok (mkHandshake prot ext hash pid)
  | BitTorrent => Ok (mkHandshake prot ext hash pid)
  end.

Definition HandshakeMessage_write_bytes (m : HandshakeMessage) : list Z :=
  Protocol_write_bytes (hs_prot m) ++ Extensions_write_bytes (hs_ext m) ++ sha_bytes (hs_hash m) ++ sha_bytes (hs_pid m).

Definition write_len_with_protocol_len (protocol_len : Z) : nat :=
  (1 + Z.to_nat protocol_len + NUM_EXTENSION_BYTES + INFO_HASH_LEN + PEER_ID_LEN)%nat.
Definition HandshakeMessage_write_len (m : HandshakeMessage) : nat :=
  write_len_with_protocol_len (as_u8 (Z.of_nat (Protocol_write_len (hs_prot m)))).

Record InitiateMessage : Type := InitiateMessage_new { im_prot : Protocol; im_hash : ShaHash; im_addr : SocketAddr }.
Record CompleteMessage (S : Type) : Type := CompleteMessage_new {
  cm_prot : Protocol; cm_ext : Extensions; cm_hash : ShaHash; cm_pid : ShaHash; cm_addr : SocketAddr; cm_sock : S }.
Arguments CompleteMessage_new {S} cm_prot cm_ext cm_hash cm_pid cm_addr cm_sock.
Arguments cm_prot {S} c.
Arguments cm_ext {S} c.
Arguments cm_hash {S} c.
Arguments cm_pid {S} c.
Arguments cm_addr {S} c.
Arguments cm_sock {S} c.

Section Parse.
Context `{Nom}.

Definition parse_raw_protocol : Parser (list Z) := parse length := be_u 1 in nom_take (Z.to_nat length).
Definition parse_protocol : Parser Protocol :=
  parse raw := parse_raw_protocol in
  if bool_decide (raw = BT_PROTOCOL) then nom_value BitTorrent else nom_value (Custom raw).
Definition parse_extension_bits : Parser Extensions :=
  parse bytes := nom_count NUM_EXTENSION_BYTES (be_u 1) in nom_value (mkExtensions bytes).
Definition HandshakeMessage_from_bytes : Parser HandshakeMessage :=
  parse prot := parse_protocol in
  parse ext := parse_extension_bits in
  parse hash := parse_hash INFO_HASH_LEN in
  parse pid := parse_hash PEER_ID_LEN in
  nom_unwrap (HandshakeMessage_from_parts prot ext hash pid).

End Parse.

(** ** The frame *)

Inductive HandshakeState : Type := Waiting | Length (length : Z) | Finished.

Record FramedHandshake (S : Type) : Type := mkFramed {
  fh_sock : S; fh_write_buffer : list Z; fh_read_buffer : list Z; fh_read_pos : nat; fh_state : HandshakeState }.
Arguments mkFramed {S} fh_sock fh_write_buffer fh_read_buffer fh_read_pos fh_state.
Arguments fh_sock {S} f.
Arguments fh_write_buffer {S} f.
Arguments fh_read_buffer {S} f.
Arguments fh_read_pos {S} f.
Arguments fh_state {S} f.

Inductive HandshakeIoError : Type := WriteZero | InvalidData.

Section Framed.
Context {S : Type} `{Socket S} `{Nom}.

Definition FramedHandshake_new (sock : S) : FramedHandshake S := mkFramed sock [] [0] 0 Waiting.

(** The loop of [send]; an error of [write] ends it as a success. *)
Fixpoint framed_send_loop (fuel : nat) (f : FramedHandshake S) : res HandshakeIoError unit * FramedHandshake S :=
  match fuel with
  | O => (OutOfFuel, f)
  | Datatypes.S fuel =>
      match sock_write (fh_write_buffer f) (fh_sock f) with
      | (Some 0%nat, s) => (Err WriteZero, mkFramed s (fh_write_buffer f) (fh_read_buffer f) (fh_read_pos f) (fh_state f))
      | (Some n, s) =>
          if (n <=? length (fh_write_buffer f))%nat then
            let f := mkFramed s (drop n (fh_write_buffer f)) (fh_read_buffer f) (fh_read_pos f) (fh_state f) in
            match fh_write_buffer f with [] => (Ok tt, f) | _ => framed_send_loop fuel f end
          else (Panic, f)
      | (None, s) => (Ok tt, mkFramed s (fh_write_buffer f) (fh_read_buffer f) (fh_read_pos f) (fh_state f))
      end
  end.
Definition framed_send (item : HandshakeMessage) (f : FramedHandshake S) : res HandshakeIoError unit * FramedHandshake S :=
  let buffer := fh_write_buffer f ++ HandshakeMessage_write_bytes item in
  framed_send_loop (Datatypes.S (length buffer)) (mkFramed (fh_sock f) buffer (fh_read_buffer f) (fh_read_pos f) (fh_state f)).

(** What a read into [read_buffer[read_pos..]] leaves there. *)
Definition fill (buffer : list Z) (pos : nat) (got : list Z) : list Z := take pos buffer ++ got ++ drop (pos + length got) buffer.

Fixpoint poll_loop (fuel : nat) (f : FramedHandshake S) : res HandshakeIoError (option HandshakeMessage * FramedHandshake S) :=
  match fuel with
  | O => OutOfFuel
  | Datatypes.S fuel =>
      let with_sock s := mkFramed s (fh_write_buffer f) (fh_read_buffer f) (fh_read_pos f) (fh_state f) in
      match fh_state f with
      | Waiting =>
          match sock_read (length (fh_read_buffer f)) (fh_sock f) with
          | (Some [], s) => Ok (None, with_sock s)
          | (Some [length], s) =>
              poll_loop fuel (mkFramed s (fh_write_buffer f)
                (<[0%nat := length]> (replicate (write_len_with_protocol_len length) 0)) 1 (Length length))
          | (Some _, _) => Panic
          | (None, s) => Ok (None, with_sock s)
          end
      | Length length =>
          let expected_length := write_len_with_protocol_len length in
          if (fh_read_pos f =? expected_length)%nat then
            match HandshakeMessage_from_bytes (fh_read_buffer f) with
            | Done _ message => Ok (Some message, mkFramed (fh_sock f) (fh_write_buffer f) (fh_read_buffer f) (fh_read_pos f) Finished)
            | Incomplete => Panic
            | NomError => Err InvalidData
            | NomPanic => Panic
            end
          else if (fh_read_pos f <=? Datatypes.length (fh_read_buffer f))%nat then
            match sock_read (Datatypes.length (fh_read_buffer f) - fh_read_pos f) (fh_sock f) with
            | (Some [], s) => Ok (None, with_sock s)
            | (Some got, s) =>
                poll_loop fuel (mkFramed s (fh_write_buffer f) (fill (fh_read_buffer f) (fh_read_pos f) got)
                  (fh_read_pos f + Datatypes.length got) (fh_state f))
            | (None, s) => Ok (None, with_sock s)
            end
          else Panic
      | Finished => Ok (None, f)
      end
  end.

(** An iteration reads a byte or ends. *)
Definition POLL_FUEL : nat := 2 + write_len_with_protocol_len 255.
Definition framed_poll (f : FramedHandshake S) : res HandshakeIoError (option HandshakeMessage * FramedHandshake S) := poll_loop POLL_FUEL f.

End Framed.

(** ** Filters *)

Inductive FilterDecision : Type := FPass | FBlock | FNeedData | FAllow.
#[export] Instance FilterDecision_eq_dec : EqDecision FilterDecision.
Proof. solve_decision. Defined.

Definition decision_num (d : FilterDecision) : nat := match d with FPass => 0 | FBlock => 1 | FNeedData => 2 | FAllow => 3 end.
Definition choose (self other : FilterDecision) : FilterDecision :=
  if (decision_num other <? decision_num self)%nat then self else other.

Class HandshakeFilter (F : Type) : Type := {
  on_addr : F -> option SocketAddr -> FilterDecision;
  on_prot : F -> option Protocol -> FilterDecision;
  on_ext : F -> option Extensions -> FilterDecision;
  on_hash : F -> option ShaHash -> FilterDecision;
  on_pid : F -> option ShaHash -> FilterDecision
}.

Section Filters.
Context {F : Type} `{EqDecision F} `{HandshakeFilter F}.

Definition Filters_new : list F := [].

Fixpoint check_index (filters : list F) (filter : F) : option nat :=
  match filters with
  | [] => None
  | f :: filters => if decide (f = filter) then Some 0%nat else Datatypes.S <$> check_index filters filter
  end.

Definition add_filter (filter : F) (filters : list F) : list F :=
  match check_index filters filter with Some _ => filters | None => filters ++ [filter] end.
Definition remove_filter (filter : F) (filters : list F) : list F :=
  match check_index filters filter with Some index => swap_remove index filters | None => filters end.
Definition clear_filters (filters : list F) : list F := [].

Definition should_filter (addr : option SocketAddr) (prot : option Protocol) (ext : option Extensions)
    (hash pid : option ShaHash) (filters : list F) : bool :=
  let field {A} (on : F -> option A -> FilterDecision) (a : option A) := foldl (fun d f => choose d (on f a)) FPass filters in
  bool_decide (choose (choose (choose (choose (field on_addr addr) (field on_prot prot)) (field on_ext ext)) (field on_hash hash)) (field on_pid pid)
    = FBlock).

End Filters.

(** ** The handlers *)

Inductive HandshakeType (S : Type) : Type :=
| Initiate (sock : S) (m : InitiateMessage)
| Complete (sock : S) (addr : SocketAddr).
Arguments Initiate {S} sock m.
Arguments Complete {S} sock addr.

(** A thread running [handler] over the items of its stream: what it sends on. It ends
    when the handler fails or panics. *)
Fixpoint loop_handler {A R} (handler : A -> res unit (option R)) (items : list A) : list R :=
  match items with
  | [] => []
  | item :: items =>
      match handler item with
      | Ok (Some result) => result :: loop_handler handler items
      | Ok None => loop_handler handler items
      | _ => []
      end
  end.

Section Handlers.
Context {S : Type} `{Socket S} `{Nom} {F : Type} `{EqDecision F} `{HandshakeFilter F}.
Implicit Types filters : list F.

(** [connect] is the one of the transport. *)
Definition initiator_handler (connect : SocketAddr -> option S) filters (item : InitiateMessage) : res unit (option (HandshakeType S)) :=
  if should_filter (Some (im_addr item)) (Some (im_prot item)) None (Some (im_hash item)) None filters then Ok None
  else match connect (im_addr item) with
       | Some socket => Ok (Some (Initiate socket item))
       | None => Ok None
       end.

Definition listener_handler filters (item : S * SocketAddr) : res unit (option (HandshakeType S)) :=
  let '(sock, addr) := item in
  if should_filter (Some addr) None None None None filters then Ok None else Ok (Some (Complete sock addr)).

(** [framed.send], whose outcome is ignored. *)
Definition send_ignored {A} (item : HandshakeMessage) (f : FramedHandshake S) (k : FramedHandshake S -> res unit A) : res unit A :=
  match framed_send item f with
  | (Panic, _) => Panic
  | (OutOfFuel, _) => OutOfFuel
  | (_, f) => k f
  end.

(** [poll] and [or_else(|_| Ok(None))]: a message or nothing. *)
Definition poll_or_none {A} (f : FramedHandshake S) (k : HandshakeMessage -> FramedHandshake S -> res unit (option A)) : res unit (option A) :=
  match framed_poll f with
  | Ok (Some msg, f) => k msg f
  | Ok (None, _) | Err _ => Ok None
  | Panic => Panic
  | OutOfFuel => OutOfFuel
  end.

Definition filters_all (addr : SocketAddr) (m : HandshakeMessage) filters : bool :=
  should_filter (Some addr) (Some (hs_prot m)) (Some (hs_ext m)) (Some (hs_hash m)) (Some (hs_pid m)) filters.

Definition initiate_handshake (sock : S) (init_msg : InitiateMessage) (ext : Extensions) (pid : ShaHash) filters
    : res unit (option (CompleteMessage S)) :=
  let? handshake_msg := HandshakeMessage_from_parts (im_prot init_msg) ext (im_hash init_msg) pid in
  send_ignored handshake_msg (FramedHandshake_new sock) (fun f =>
    poll_or_none f (fun msg f =>
      if bool_decide (hs_hash msg <> im_hash init_msg) || bool_decide (hs_prot msg <> im_prot init_msg) || filters_all (im_addr init_msg) msg filters
      then Ok None
      else Ok (Some (CompleteMessage_new (im_prot init_msg) (Extensions_union ext (hs_ext msg)) (im_hash init_msg) (hs_pid msg) (im_addr init_msg) (fh_sock f))))).

Definition complete_handshake (sock : S) (addr : SocketAddr) (ext : Extensions) (pid : ShaHash) filters
    : res unit (option (CompleteMessage S)) :=
  poll_or_none (FramedHandshake_new sock) (fun msg f =>
    if filters_all addr msg filters then Ok None
    else
      let? handshake_msg := HandshakeMessage_from_parts (hs_prot msg) ext (hs_hash msg) pid in
      send_ignored handshake_msg f (fun f =>
        Ok (Some (CompleteMessage_new (hs_prot msg) (Extensions_union ext (hs_ext msg)) (hs_hash msg) (hs_pid msg) addr (fh_sock f))))).

Definition execute_handshake (ext : Extensions) (pid : ShaHash) filters (item : HandshakeType S) : res unit (option (CompleteMessage S)) :=
  match item with
  | Initiate sock init_msg => initiate_handshake sock init_msg ext pid filters
  | Complete sock addr => complete_handshake sock addr ext pid filters
  end.

End Handlers.

(** ** The manager *)

Definition DEFAULT_HANDSHAKE_BUFFER_SIZE : nat := 1000.
Definition DEFAULT_WAIT_BUFFER_SIZE : nat := 10.
Definition DEFAULT_DONE_BUFFER_SIZE : nat := 10.
Definition DEFAULT_HANDSHAKE_TIMEOUT_MILLIS : Z := 1000.
Definition DEFAULT_HANDSHAKE_CONNECT_TIMEOUT_MILLIS : Z := 1000.

(** Durations in milliseconds. *)
Record HandshakerConfig : Type := mkHandshakerConfig {
  sink_buffer_size : nat; wait_buffer_size : nat; done_buffer_size : nat; handshake_timeout : Z; connect_timeout : Z }.
Definition HandshakerConfig_default : HandshakerConfig :=
  mkHandshakerConfig DEFAULT_HANDSHAKE_BUFFER_SIZE DEFAULT_WAIT_BUFFER_SIZE DEFAULT_DONE_BUFFER_SIZE
    DEFAULT_HANDSHAKE_TIMEOUT_MILLIS DEFAULT_HANDSHAKE_CONNECT_TIMEOUT_MILLIS.

Record HandshakerManagerBuilder : Type := mkHandshakerBuilder {
  hb_bind : SocketAddr; hb_port : Z; hb_pid : ShaHash; hb_ext : Extensions; hb_config : HandshakerConfig }.

(** [sha1] is the digest of the hashing crate, [seed] the number drawn. *)
Definition HandshakerManagerBuilder_new (sha1 : list Z -> list Z) (seed : Z) : HandshakerManagerBuilder :=
  let default_v4_port := 22222 in
  mkHandshakerBuilder (V4 (SocketAddrV4_new (Ipv4Addr_new 0 0 0 0) default_v4_port)) default_v4_port
    (ShaHash_from_bytes sha1 (four_bytes_to_array seed)) Extensions_new HandshakerConfig_default.

(** The port [with_builder] advertises; [local_port] is the listener's. *)
Definition open_port (b : HandshakerManagerBuilder) (local_port : Z) : Z := if hb_port b =? 0 then local_port else hb_port b.

(** The items of two senders to one channel, in the order they arrive. *)
Inductive interleaved {A} : list A -> list A -> list A -> Prop :=
| interleaved_nil : interleaved [] [] []
| interleaved_left a l1 l2 l : interleaved l1 l2 l -> interleaved (a :: l1) l2 (a :: l)
| interleaved_right a l1 l2 l : interleaved l1 l2 l -> interleaved l1 (a :: l2) (a :: l).

(** The three threads of [with_builder]: what comes out for the messages sent to the
    manager and the connections accepted by its listener. *)
Definition manager_output {S} `{Socket S} `{Nom} {F} `{EqDecision F} `{HandshakeFilter F} (b : HandshakerManagerBuilder)
    (connect : SocketAddr -> option S) (filters : list F) (initiated : list InitiateMessage) (accepted : list (S * SocketAddr))
    (done : list (CompleteMessage S)) : Prop :=
  exists hand, interleaved (loop_handler (initiator_handler connect filters) initiated) (loop_handler (listener_handler filters) accepted) hand /\
    done = loop_handler (execute_handshake (hb_ext b) (hb_pid b) filters) hand.
