(* ===== verification/HandshakeSpec.v ===== *)
(** * Peer handshakes: properties

    The handshake message's bytes, the frame that reads exactly one message, the filters
    as a set and what they decide, and the handshake between two peers. *)

From S2P Require Import Prelude RustStd Words UtilSha UtilConvert Nom TrackerMessage TrackerMessageSpec Handshake.

(** ** Messages *)

(** What the bytes of a handshake can carry. *)
Definition protocol_ok (p : Protocol) : Prop :=
  match p with BitTorrent => True | Custom c => (length c <= 255)%nat /\ bytes_ok c /\ c <> BT_PROTOCOL end.
Definition extensions_ok (x : Extensions) : Prop := length (ext_bytes x) = NUM_EXTENSION_BYTES /\ bytes_ok (ext_bytes x).
Definition handshake_ok (m : HandshakeMessage) : Prop :=
  protocol_ok (hs_prot m) /\ extensions_ok (hs_ext m) /\ sha_ok (hs_hash m) /\ sha_ok (hs_pid m).

Definition protocol_bytes (p : Protocol) : list Z := match p with BitTorrent => BT_PROTOCOL | Custom c => c end.

Section Messages.
Context `{NL : NomLaws}.

Lemma protocol_bytes_length p : length (protocol_bytes p) = Protocol_write_len p.
Proof. by destruct p. Qed.

Lemma protocol_len p : protocol_ok p -> is_u8 (Z.of_nat (Protocol_write_len p)).
Proof. destruct p as [|c]; [intros _; in_range|]. cbn. intros [Hl _]. unfold in_unsigned. lia. Qed.

Lemma protocol_parsed p rest : protocol_ok p -> parse_protocol (Protocol_write_bytes p ++ rest) = Done rest p.
Proof.
  intros Hp. unfold parse_protocol, Protocol_write_bytes, parse_raw_protocol. fold (protocol_bytes p).
  assert (as_u8 (Z.of_nat (Protocol_write_len p)) = Z.of_nat (Protocol_write_len p)) as -> by (apply wrap_id; by apply protocol_len).
  rewrite <- app_assoc.
  rewrite (seq_done _ _ _ rest (protocol_bytes p)).
  - destruct p as [|c]; [by rewrite bool_decide_true, value_done|]. rewrite bool_decide_false by apply Hp. apply value_done.
  - rewrite (seq_done _ _ _ (protocol_bytes p ++ rest) (Z.of_nat (Protocol_write_len p)));
      [|apply (be_u_done 1 [_]); [done|constructor; [by apply protocol_len|constructor]]].
    rewrite Nat2Z.id. apply take_done. apply protocol_bytes_length.
Qed.

Lemma extensions_parsed x rest : extensions_ok x -> parse_extension_bits (ext_bytes x ++ rest) = Done rest x.
Proof.
  intros [Hl Hb]. unfold parse_extension_bits. rewrite <- Hl. parse_step ltac:(by apply count_bytes). destruct x. apply value_done.
Qed.

Lemma handshake_parsed m rest : handshake_ok m -> HandshakeMessage_from_bytes (HandshakeMessage_write_bytes m ++ rest) = Done rest m.
Proof.
  intros (Hp & He & Hh & Hi). unfold HandshakeMessage_from_bytes, HandshakeMessage_write_bytes, Extensions_write_bytes. rewrite <- !app_assoc.
  parse_step ltac:(by apply protocol_parsed). parse_step ltac:(by apply extensions_parsed).
  parse_step ltac:(by apply parse_hash_done). parse_step ltac:(by apply parse_hash_done).
  destruct m as [[|c] x h i]; [done|]. cbn [hs_prot hs_ext hs_hash hs_pid] in *. unfold nom_unwrap, HandshakeMessage_from_parts.
  destruct Hp as [Hl _]. by destruct (Nat.ltb_spec 255 (length c)); [lia|].
Qed.

Lemma handshake_length m : handshake_ok m -> length (HandshakeMessage_write_bytes m) = HandshakeMessage_write_len m.
Proof.
  intros (Hp & [He _] & [Hh _] & [Hi _]). unfold HandshakeMessage_write_bytes, HandshakeMessage_write_len, write_len_with_protocol_len, Protocol_write_bytes, Extensions_write_bytes.
  fold (protocol_bytes (hs_prot m)). assert (as_u8 (Z.of_nat (Protocol_write_len (hs_prot m))) = Z.of_nat (Protocol_write_len (hs_prot m))) as -> by (apply wrap_id; by apply protocol_len).
  rewrite !length_app, protocol_bytes_length, Nat2Z.id. cbn [length]. rewrite He, Hh, Hi. unfold INFO_HASH_LEN, PEER_ID_LEN. lia.
Qed.

(** Any bytes of the right number are a message. *)
Lemma handshake_any len tail : bytes_ok (len :: tail) -> length (len :: tail) = write_len_with_protocol_len len ->
  exists m, handshake_ok m /\ HandshakeMessage_write_bytes m = len :: tail.
Proof.
  intros Hb Hl. apply Forall_cons in Hb as [Hlen Hb]. cbn [length] in Hl. unfold write_len_with_protocol_len, INFO_HASH_LEN, PEER_ID_LEN in Hl.
  set (n := Z.to_nat len) in *. set (p := take n tail). set (e := take 8 (drop n tail)). set (h := take 20 (drop (n + 8) tail)). set (i := drop (n + 28) tail).
  assert (tail = p ++ e ++ h ++ i) as Et.
  { unfold p, e, h, i. rewrite <- (take_drop n tail) at 1. f_equal. rewrite <- (take_drop 8 (drop n tail)) at 1. f_equal.
    rewrite drop_drop. rewrite <- (take_drop 20 (drop (n + 8) tail)) at 1. f_equal. rewrite drop_drop. f_equal. lia. }
  unfold NUM_EXTENSION_BYTES, SHA_HASH_LEN in Hl.
  assert (length p = n /\ length e = 8 /\ length h = 20 /\ length i = 20)%nat as (Lp & Le & Lh & Li)
    by (unfold p, e, h, i; rewrite !length_take, !length_drop; lia).
  assert (Hn : as_u8 (Z.of_nat n) = len) by (unfold n; rewrite Z2Nat.id by apply Hlen; by apply wrap_id).
  clearbody p e h i. subst tail. rewrite !Forall_app in Hb. destruct Hb as (Hp & He & Hh & Hi).
  exists (mkHandshake (if decide (p = BT_PROTOCOL) then BitTorrent else Custom p) (mkExtensions e) (mkShaHash h) (mkShaHash i)).
  split; [split; [|by split]|].
  - cbn [hs_prot]. destruct (decide (p = BT_PROTOCOL)); [done|]. split; [|done]. rewrite Lp. unfold n, in_unsigned in *. lia.
  - unfold HandshakeMessage_write_bytes, Protocol_write_bytes. cbn [hs_prot hs_ext hs_hash hs_pid sha_bytes].
    destruct (decide (p = BT_PROTOCOL)) as [->|]; cbn [Protocol_write_len]; rewrite ?Lp.
    + change BT_PROTOCOL_LEN with (length BT_PROTOCOL). by rewrite Lp, Hn.
    + by rewrite Hn.
Qed.

(** A message's first byte says how long it is. *)
Lemma handshake_head m : handshake_ok m -> exists len tail, HandshakeMessage_write_bytes m = len :: tail /\ is_u8 len /\
  length (len :: tail) = write_len_with_protocol_len len.
Proof.
  intros Hm. eexists _, _. split; [reflexivity|]. split; [apply wrap_in_unsigned; lia|]. apply (handshake_length m Hm).
Qed.

Lemma handshake_bytes_ok m : handshake_ok m -> bytes_ok (HandshakeMessage_write_bytes m).
Proof.
  intros (Hp & [_ He] & [_ Hh] & [_ Hi]). unfold HandshakeMessage_write_bytes, Protocol_write_bytes. unfold bytes_ok in *. rewrite !Forall_app.
  split; [|done]. split; [constructor; [apply wrap_in_unsigned; lia|constructor]|]. destruct (hs_prot m); [|apply Hp]. repeat constructor; vm_compute; congruence.
Qed.

(** No message is a prefix of another one. *)
Lemma handshake_prefix_free m m' rest rest' : handshake_ok m -> handshake_ok m' ->
  HandshakeMessage_write_bytes m ++ rest = HandshakeMessage_write_bytes m' ++ rest' -> m = m' /\ rest = rest'.
Proof.
  intros Hm Hm' E. pose proof (handshake_parsed m rest Hm) as Hp. rewrite E, handshake_parsed in Hp by done. by injection Hp as -> ->.
Qed.

End Messages.

(** ** The frame *)

Section Frame.
Context `{NL : NomLaws} {S : Type} `{HS : Socket S} `{!SocketLaws S}.
Implicit Types s : S.

(** What [poll] does: a whole message is taken from the socket and nothing after it, or
    reading stopped early, which a healthy socket with enough bytes does not do. *)
Definition polled (s : S) (before : list Z) (wb : list Z) (enough : Prop)
    (out : res HandshakeIoError (option HandshakeMessage * FramedHandshake S)) : Prop :=
  (exists m f, out = Ok (Some m, f) /\ handshake_ok m /\ before ++ sock_incoming s = HandshakeMessage_write_bytes m ++ sock_incoming (fh_sock f) /\
    sock_written (fh_sock f) = sock_written s /\ fh_write_buffer f = wb /\ (sock_healthy s -> sock_healthy (fh_sock f))) \/
  (exists f, out = Ok (None, f) /\ ~ (sock_healthy s /\ enough)).

Lemma fill_take buf pos got : (pos <= length buf)%nat -> take (pos + length got) (fill buf pos got) = take pos buf ++ got.
Proof.
  intros Hp. unfold fill. rewrite app_assoc. rewrite take_app_le by (rewrite length_app, length_take; lia).
  apply take_ge. rewrite length_app, length_take. lia.
Qed.

Lemma length_fill buf pos got : (pos + length got <= length buf)%nat -> length (fill buf pos got) = length buf.
Proof. intros Hp. unfold fill. rewrite !length_app, length_take, length_drop. lia. Qed.

Lemma poll_reading len wb : is_u8 len -> forall fuel s buf pos tail, (write_len_with_protocol_len len - pos < fuel)%nat ->
  length buf = write_len_with_protocol_len len -> (pos <= length buf)%nat -> take pos buf = len :: tail ->
  bytes_ok (take pos buf ++ sock_incoming s) ->
  polled s (take pos buf) wb (write_len_with_protocol_len len <= pos + length (sock_incoming s))%nat
    (poll_loop fuel (mkFramed s wb buf pos (Length len))).
Proof.
  intros Hlen fuel. induction fuel as [|fuel IH]; intros s buf pos tail Hf Hbuf Hpos Ht Hb; [lia|].
  cbn [poll_loop fh_state fh_read_pos fh_read_buffer fh_sock fh_write_buffer].
  destruct (Nat.eqb_spec pos (write_len_with_protocol_len len)) as [->|Hne].
  - assert (take (write_len_with_protocol_len len) buf = buf) as Hall by (apply take_ge; lia). rewrite Hall in *. subst buf.
    apply Forall_app in Hb as [Hb _].
    destruct (handshake_any len tail Hb Hbuf) as (m & Hm & <-). left. rewrite <- (app_nil_r (HandshakeMessage_write_bytes m)), handshake_parsed by done.
    eexists m, _. split; [reflexivity|]. rewrite app_nil_r. by cbn.
  - destruct (Nat.leb_spec pos (length buf)); [|lia]. destruct (sock_read (length buf - pos) s) as [[[|b got]|] s'] eqn:E.
    + right. eexists. split; [reflexivity|]. intros [Hh He]. destruct (read_healthy (length buf - pos) s Hh) as (b & got & s'' & E' & _); [lia| |congruence].
      intros Hn. rewrite Hn in He. cbn [length] in He. lia.
    + destruct (read_some _ _ _ _ E) as (Hin & Hgot & Hw). set (got' := b :: got) in *.
      assert (Htake : take (pos + length got') (fill buf pos got') = take pos buf ++ got') by (apply fill_take; lia).
      destruct (IH s' (fill buf pos got') (pos + length got')%nat (tail ++ got')) as [(m & f & Ho & Hm & Hi & Hw' & Hwb & Hh)|(f & Ho & Hn)].
      * unfold got'. cbn [length]. lia.
      * rewrite length_fill by lia. done.
      * rewrite length_fill by lia. lia.
      * by rewrite Htake, Ht.
      * rewrite Htake, <- app_assoc, <- Hin. done.
      * left. exists m, f. split; [done|]. rewrite Htake, <- app_assoc, <- Hin in Hi. rewrite Hw'.
        split; [done|]. split; [done|]. split; [done|]. split; [done|]. intros Hs. apply Hh. destruct (read_healthy (length buf - pos) s Hs) as (b' & got'' & s'' & E' & Hs'); [lia|rewrite Hin; done|]. rewrite E in E'. by injection E' as _ _ <-.
      * right. exists f. split; [done|]. intros [Hs He]. apply Hn. split.
        -- destruct (read_healthy (length buf - pos) s Hs) as (b' & got'' & s'' & E' & Hs'); [lia|rewrite Hin; done|]. rewrite E in E'. by injection E' as _ _ <-.
        -- rewrite Hin, length_app in He. lia.
    + right. eexists. split; [reflexivity|]. intros [Hh He]. destruct (read_healthy (length buf - pos) s Hh) as (b & got & s'' & E' & _); [lia| |congruence].
      intros Hn. rewrite Hn in He. cbn [length] in He. lia.
Qed.

Lemma poll_fresh s wb : bytes_ok (sock_incoming s) ->
  polled s [] wb (exists m rest, handshake_ok m /\ sock_incoming s = HandshakeMessage_write_bytes m ++ rest)
    (framed_poll (mkFramed s wb [0] 0 Waiting)).
Proof.
  intros Hb. unfold framed_poll, POLL_FUEL. cbn [poll_loop Nat.add fh_state fh_read_buffer fh_sock fh_write_buffer fh_read_pos length].
  assert (Hempty : forall o s', sock_read 1 s = (o, s') -> o = None \/ o = Some [] ->
    ~ (sock_healthy s /\ exists m rest, handshake_ok m /\ sock_incoming s = HandshakeMessage_write_bytes m ++ rest)).
  { intros o s' E Ho [Hs (m & rest & Hm & Hi)]. destruct (read_healthy 1 s Hs) as (b & got & s'' & E' & _); [lia| |destruct Ho; congruence].
    destruct (handshake_head m Hm) as (len & tail & Hw & _). by rewrite Hi, Hw. }
  destruct (sock_read 1 s) as [[[|b [|b' got]]|] s'] eqn:E.
  - right. eexists. split; [reflexivity|]. eauto.
  - destruct (read_some _ _ _ _ E) as (Hin & _ & Hw). cbn [app] in Hin.
    assert (Hu : is_u8 b) by (rewrite Hin in Hb; by apply Forall_cons in Hb as [? _]).
    assert (HE : (1 <= write_len_with_protocol_len b)%nat) by (unfold write_len_with_protocol_len; lia).
    assert (Htake : take 1 (<[0%nat:=b]> (replicate (write_len_with_protocol_len b) 0)) = [b]).
    { destruct (write_len_with_protocol_len b); [lia|]. cbn. by rewrite take_0. }
    assert (Hs' : sock_healthy s -> sock_healthy s').
    { intros Hs. destruct (read_healthy 1 s Hs) as (x & g & s'' & E' & Hs'); [lia|by rewrite Hin|]. rewrite E in E'. by injection E' as _ _ <-. }
    destruct (poll_reading b wb Hu (1 + write_len_with_protocol_len 255) s' (<[0%nat:=b]> (replicate (write_len_with_protocol_len b) 0)) 1 [])
      as [(m & f & Ho & Hm & Hi & Hw' & Hwb & Hh)|(f & Ho & Hn)].
    + unfold in_unsigned, write_len_with_protocol_len in *. lia.
    + by rewrite length_insert, length_replicate.
    + by rewrite length_insert, length_replicate.
    + done.
    + rewrite Htake. cbn [app]. by rewrite <- Hin.
    + left. exists m, f. split; [done|]. split; [done|]. rewrite Htake in Hi. cbn [app] in Hi |- *. rewrite Hin, Hw'. do 3 (split; [done|]). auto.
    + right. exists f. split; [done|]. intros [Hs (m & rest & Hm & Hi)]. apply Hn. split; [auto|].
      destruct (handshake_head m Hm) as (len & tail & Hwm & _ & Hl). rewrite Hi, Hwm in Hin. injection Hin as -> Hin. rewrite <- Hin, length_app. cbn [length] in Hl. lia.
  - destruct (read_some _ _ _ _ E) as (_ & Hl & _). cbn in Hl. lia.
  - right. eexists. split; [reflexivity|]. eauto.
Qed.

(** Sending never fails in a way that is noticed, and on a healthy socket everything is
    written. *)
Lemma framed_send_loop_spec fuel : forall f, (length (fh_write_buffer f) < fuel)%nat -> fh_write_buffer f <> [] ->
  exists r f', framed_send_loop fuel f = (r, f') /\ r <> Panic /\ r <> OutOfFuel /\
    sock_incoming (fh_sock f') = sock_incoming (fh_sock f) /\
    fh_read_buffer f' = fh_read_buffer f /\ fh_read_pos f' = fh_read_pos f /\ fh_state f' = fh_state f /\
    (sock_healthy (fh_sock f) -> r = Ok tt /\ sock_healthy (fh_sock f') /\ fh_write_buffer f' = [] /\
      sock_written (fh_sock f') = sock_written (fh_sock f) ++ fh_write_buffer f).
Proof.
  induction fuel as [|fuel IH]; intros [s wb rb pos st] Hf Hne; [lia|]. cbn [framed_send_loop fh_sock fh_write_buffer fh_read_buffer fh_read_pos fh_state] in *.
  destruct (sock_write wb s) as [[[|n]|] s'] eqn:E.
  - eexists _, _. split; [reflexivity|]. destruct (write_some _ _ _ _ E) as (_ & _ & Hi). do 6 (split; [by cbn|]).
    intros Hs. destruct (write_healthy wb s Hs Hne) as (k & s'' & E' & _). congruence.
  - destruct (write_some _ _ _ _ E) as (Hl & Hw & Hi). destruct (Nat.leb_spec (Datatypes.S n) (length wb)); [|lia].
    cbn [fh_write_buffer].
    assert (Hs' : sock_healthy s -> sock_healthy s').
    { intros Hs. destruct (write_healthy wb s Hs Hne) as (k & s'' & E' & Hs'). rewrite E in E'. by injection E' as _ <-. }
    destruct (drop (Datatypes.S n) wb) as [|x rest] eqn:Ed.
    + eexists _, _. split; [reflexivity|]. do 6 (split; [by cbn|]). intros Hs. split; [done|]. split; [by apply Hs'|]. split; [done|].
      cbn. rewrite Hw. f_equal. rewrite <- (take_drop (Datatypes.S n) wb) at 2. by rewrite Ed, app_nil_r.
    + destruct (IH (mkFramed s' (x :: rest) rb pos st)) as (r & f' & -> & H1 & H2 & H3 & H4 & H5 & H6 & H7); [|done|].
      { cbn [fh_write_buffer]. rewrite <- Ed, length_drop. lia. }
      exists r, f'. cbn in *. rewrite Hi in H3. do 7 (split; [by cbn|]). intros Hs. destruct (H7 (Hs' Hs)) as (-> & Hh & Hb & Hw').
      repeat (split; [done|]). rewrite Hw', Hw, <- app_assoc, <- Ed. by rewrite take_drop.
  - eexists _, _. split; [reflexivity|]. pose proof (write_none _ _ _ E) as Hi. do 6 (split; [by cbn|]).
    intros Hs. destruct (write_healthy wb s Hs Hne) as (k & s'' & E' & _). congruence.
Qed.

End Frame.

(** ** Filters *)

Section FilterFacts.
Context {F : Type} `{EqDecision F} `{HandshakeFilter F}.
Implicit Types filters : list F.

Lemma check_index_Some filters f i : check_index filters f = Some i -> filters !! i = Some f.
Proof.
  revert i. induction filters as [|g filters IH]; intros i; cbn; [done|]. destruct (decide (g = f)) as [->|]; [by intros [= <-]|].
  destruct (check_index filters f) as [j|] eqn:E; cbn; [|done]. intros [= <-]. by apply IH.
Qed.

Lemma check_index_None filters f : check_index filters f = None -> f ∉ filters.
Proof.
  induction filters as [|g filters IH]; cbn; [by intros _ ?%elem_of_nil|]. destruct (decide (g = f)); [done|].
  destruct (check_index filters f); [done|]. intros _ [->|Hin]%elem_of_cons; [done|]. by apply IH.
Qed.

Lemma add_filter_spec filters f : NoDup filters -> NoDup (add_filter f filters) /\ forall g, g ∈ add_filter f filters <-> g = f \/ g ∈ filters.
Proof.
  intros Hn. unfold add_filter. destruct (check_index filters f) as [i|] eqn:E.
  - apply check_index_Some, list_elem_of_lookup_2 in E. split; [done|]. intros g. split; [by right|]. by intros [->|].
  - apply check_index_None in E. split.
    + rewrite <- Permutation_cons_append. by constructor.
    + intros g. rewrite elem_of_app, list_elem_of_singleton. tauto.
Qed.

Lemma remove_filter_spec filters f : NoDup filters -> NoDup (remove_filter f filters) /\ forall g, g ∈ remove_filter f filters <-> g <> f /\ g ∈ filters.
Proof.
  intros Hn. unfold remove_filter. destruct (check_index filters f) as [i|] eqn:E.
  - apply check_index_Some, swap_remove_perm in E. generalize dependent (swap_remove i filters). intros l E. rewrite E in Hn.
    apply NoDup_cons in Hn as [Hf Hn]. split; [done|]. intros g. rewrite E, elem_of_cons. split; [|by intros [? [->|]]]. intros Hg. split; [by intros ->|by right].
  - apply check_index_None in E. split; [done|]. intros g. split; [|tauto]. intros Hg. split; [by intros ->|done].
Qed.

(** *** What is filtered *)

(** The decision of every filter on every field. *)
Definition decisions (addr : option SocketAddr) (prot : option Protocol) (ext : option Extensions) (hash pid : option ShaHash) filters
    : list FilterDecision :=
  concat (map (fun f => [on_addr f addr; on_prot f prot; on_ext f ext; on_hash f hash; on_pid f pid]) filters).

Lemma choose_num a b : decision_num (choose a b) = (decision_num a `max` decision_num b)%nat.
Proof. by destruct a, b. Qed.

Lemma list_max_cons x l : list_max (x :: l) = (x `max` list_max l)%nat.
Proof. done. Qed.

Lemma field_num {A} (on : F -> option A -> FilterDecision) (a : option A) filters d :
  decision_num (foldl (fun d f => choose d (on f a)) d filters) = (decision_num d `max` list_max (map (fun f => decision_num (on f a)) filters))%nat.
Proof. revert d. induction filters as [|f filters IH]; intros d; cbn [foldl map]; [cbn [list_max fold_right]; lia|]. rewrite IH, choose_num, list_max_cons. lia. Qed.

Lemma decision_block d : d = FBlock <-> decision_num d = 1%nat.
Proof. by destruct d. Qed.

Lemma list_max_app (l1 l2 : list nat) : list_max (l1 ++ l2) = (list_max l1 `max` list_max l2)%nat.
Proof. induction l1 as [|x l1 IH]; [done|]. cbn [app]. rewrite !list_max_cons, IH. lia. Qed.

Lemma list_max_one (l : list nat) : list_max l = 1%nat <-> (1%nat ∈ l /\ Forall (fun x => x <= 1)%nat l).
Proof.
  assert (Hle : forall k (l : list nat), (list_max l <= k)%nat <-> Forall (fun x => x <= k)%nat l) by (intros; apply list_max_le).
  rewrite <- Hle. induction l as [|x l IH]; [split; [done|by intros [?%elem_of_nil _]]|]. rewrite list_max_cons, elem_of_cons. split.
  - intros Hm. split; [|lia]. destruct (Nat.eq_dec x 1%nat); [by left|]. right. apply IH. lia.
  - intros [[<-|Hx] Hl]; [lia|]. assert (list_max l = 1)%nat by (apply IH; split; [done|lia]). lia.
Qed.

Lemma eq_upper (a b : nat) : (forall k, (a <= k)%nat <-> (b <= k)%nat) -> a = b.
Proof. intros Hk. pose proof (Hk a). pose proof (Hk b). lia. Qed.

Lemma should_filter_max addr prot ext hash pid filters :
  should_filter addr prot ext hash pid filters = bool_decide (list_max (map decision_num (decisions addr prot ext hash pid filters)) = 1%nat).
Proof.
  unfold should_filter. apply bool_decide_ext. rewrite decision_block, !choose_num, !field_num. cbn [decision_num].
  set (m := fun A (on : F -> option A -> FilterDecision) (a : option A) => list_max (map (fun f => decision_num (on f a)) filters)).
  enough (list_max (map decision_num (decisions addr prot ext hash pid filters)) =
    ((((m _ on_addr addr `max` m _ on_prot prot) `max` m _ on_ext ext) `max` m _ on_hash hash) `max` m _ on_pid pid)%nat) as -> by (by rewrite !Nat.max_0_l).
  unfold m. clear m. apply eq_upper. intros k.
  induction filters as [|f filters IH]; [done|]. unfold decisions in *. cbn [map concat]. rewrite map_app, list_max_app.
  cbn [map]. rewrite !list_max_cons, !Nat.max_lub_iff. rewrite IH, !Nat.max_lub_iff. cbn [list_max fold_right]. intuition lia.
Qed.

End FilterFacts.
