(* ===== verification/HandshakeExchange.v ===== *)
(** * Peer handshakes: the handlers

    The properties of [Handshake]: filters behave as a set and decide as documented for
    them, a frame takes exactly one message from its socket, two peers that handshake
    agree, and the manager only hands over connections that its filters let through. *)

From S2P Require Import Prelude RustStd Words UtilSha UtilConvert Nom TrackerMessage TrackerMessageSpec Handshake HandshakeSpec.

(** ** Filters *)

Inductive FilterOp (F : Type) : Type := OpAdd (f : F) | OpRemove (f : F) | OpClear.
Arguments OpAdd {F} f.
Arguments OpRemove {F} f.
Arguments OpClear {F}.

Section FilterSets.
Context {F : Type} `{EqDecision F} `{HandshakeFilter F}.

Definition run_filter_op (filters : list F) (op : FilterOp F) : list F :=
  match op with OpAdd f => add_filter f filters | OpRemove f => remove_filter f filters | OpClear => clear_filters filters end.

(** Membership in the set the operations describe. *)
Definition set_after (ops : list (FilterOp F)) (f : F) : bool :=
  foldl (fun present op => match op with
    | OpAdd g => if decide (f = g) then true else present
    | OpRemove g => if decide (f = g) then false else present
    | OpClear => false
    end) false ops.

(** After any sequence of additions, removals and clears, the filters are without
    duplicates and are the elements of the set the sequence describes. *)
Lemma filters_are_a_set (ops : list (FilterOp F)) :
  let filters := foldl run_filter_op Filters_new ops in
  NoDup filters /\ forall f, f ∈ filters <-> set_after ops f = true.
Proof.
  cbn. induction ops as [|op ops IH] using rev_ind; [split; [constructor|]; intros f; split; [by intros ?%elem_of_nil|done]|].
  rewrite foldl_app. cbn [foldl]. destruct IH as [Hn Hin]. generalize dependent (foldl run_filter_op Filters_new ops). intros filters Hn Hin.
  unfold set_after in *. destruct op as [g|g|]; cbn [run_filter_op].
  - destruct (add_filter_spec filters g Hn) as [Hn' Hg]. split; [done|]. intros f. rewrite Hg, Hin, foldl_app. cbn.
    destruct (decide (f = g)); [|naive_solver]. split; [done|by left].
  - destruct (remove_filter_spec filters g Hn) as [Hn' Hg]. split; [done|]. intros f. rewrite Hg, Hin, foldl_app. cbn.
    destruct (decide (f = g)); [|naive_solver]. split; [by intros []|done].
  - split; [constructor|]. intros f. rewrite foldl_app. cbn. split; [by intros ?%elem_of_nil|done].
Qed.

(** A handshake is filtered exactly when some filter blocks one of its fields and no
    filter allows any field or asks for more data, whatever the order of the filters. In
    particular a filter that allows one field overrides the blocking of another one. *)
Lemma should_filter_decides addr prot ext hash pid (filters : list F) :
  should_filter addr prot ext hash pid filters = true <->
  FBlock ∈ decisions addr prot ext hash pid filters /\ ~ (FAllow ∈ decisions addr prot ext hash pid filters) /\
  ~ (FNeedData ∈ decisions addr prot ext hash pid filters).
Proof.
  rewrite should_filter_max, bool_decide_eq_true, list_max_one. generalize (decisions addr prot ext hash pid filters). intros l.
  rewrite list_elem_of_fmap, Forall_map. split.
  - intros [(d & E & Hd) Hl]. symmetry in E. apply decision_block in E as ->. split; [done|].
    split; intros Hx; apply (proj1 (Forall_forall _ _) Hl) in Hx; cbn in Hx; lia.
  - intros (Hb & Ha & Hn). split; [by exists FBlock|]. apply Forall_forall. intros [] Hx; cbn; try lia; done.
Qed.

End FilterSets.

(** ** The handlers *)

Section Handlers.
Context `{NL : NomLaws} {S : Type} `{HS : Socket S} `{!SocketLaws S} {F : Type} `{EqDecision F} `{HF : HandshakeFilter F}.
Implicit Types (s : S) (filters : list F).

(** A frame on a fresh socket takes exactly one handshake message from it: the bytes
    after the message stay in the socket, nothing is written, and the only other outcome
    is that reading ended early, which does not happen when the socket makes progress and
    the bytes start with a message. It neither fails nor panics, whatever the bytes. *)
Lemma frame_reads_one_message s : bytes_ok (sock_incoming s) ->
  (exists m f, framed_poll (FramedHandshake_new s) = Ok (Some m, f) /\ handshake_ok m /\
    sock_incoming s = HandshakeMessage_write_bytes m ++ sock_incoming (fh_sock f) /\ sock_written (fh_sock f) = sock_written s) \/
  (exists f, framed_poll (FramedHandshake_new s) = Ok (None, f) /\
    ~ (sock_healthy s /\ exists m rest, handshake_ok m /\ sock_incoming s = HandshakeMessage_write_bytes m ++ rest)).
Proof.
  intros Hb. destruct (poll_fresh s [] Hb) as [(m & f & Ho & Hm & Hi & Hw & _)|(f & Ho & Hn)]; [left|right]; [exists m, f|exists f]; done.
Qed.

(** A connection handed over after the message [m] was received on [s]. *)
Definition completes (ext : Extensions) filters s (addr : SocketAddr) (m : HandshakeMessage) (c : CompleteMessage S) : Prop :=
  handshake_ok m /\ sock_incoming s = HandshakeMessage_write_bytes m ++ sock_incoming (cm_sock c) /\
  cm_prot c = hs_prot m /\ cm_hash c = hs_hash m /\ cm_pid c = hs_pid m /\ cm_addr c = addr /\
  cm_ext c = Extensions_union ext (hs_ext m) /\ filters_all addr m filters = false.

Lemma send_ignored_spec {A} item f (k : FramedHandshake S -> res unit A) : fh_write_buffer f = [] ->
  exists f', send_ignored item f k = k f' /\ sock_incoming (fh_sock f') = sock_incoming (fh_sock f) /\
    fh_read_buffer f' = fh_read_buffer f /\ fh_read_pos f' = fh_read_pos f /\ fh_state f' = fh_state f /\
    (sock_healthy (fh_sock f) -> sock_healthy (fh_sock f') /\
      sock_written (fh_sock f') = sock_written (fh_sock f) ++ HandshakeMessage_write_bytes item).
Proof.
  intros Hw. unfold send_ignored, framed_send. rewrite Hw. cbn [app].
  destruct (framed_send_loop_spec (Datatypes.S (length (HandshakeMessage_write_bytes item)))
    (mkFramed (fh_sock f) (HandshakeMessage_write_bytes item) (fh_read_buffer f) (fh_read_pos f) (fh_state f)))
    as (r & f' & -> & Hp & Hfu & Hi & H1 & H2 & H3 & Hh); [cbn; lia|done|].
  exists f'. cbn in *. split; [by destruct r as [[]| | |]|]. do 4 (split; [done|]). intros Hs. by destruct (Hh Hs) as (_ & ? & _ & ?).
Qed.

(** Polling the frame of a socket, whatever is in its write buffer. *)
Lemma poll_or_none_spec {A} s wb (k : HandshakeMessage -> FramedHandshake S -> res unit (option A)) : bytes_ok (sock_incoming s) ->
  (exists m f, poll_or_none (mkFramed s wb [0] 0 Waiting) k = k m f /\ handshake_ok m /\
    sock_incoming s = HandshakeMessage_write_bytes m ++ sock_incoming (fh_sock f) /\ sock_written (fh_sock f) = sock_written s /\
    fh_write_buffer f = wb /\ (sock_healthy s -> sock_healthy (fh_sock f))) \/
  (poll_or_none (mkFramed s wb [0] 0 Waiting) k = Ok None /\
    ~ (sock_healthy s /\ exists m rest, handshake_ok m /\ sock_incoming s = HandshakeMessage_write_bytes m ++ rest)).
Proof.
  intros Hb. unfold poll_or_none. destruct (poll_fresh s wb Hb) as [(m & f & -> & Hm)|(f & -> & Hn)]; [left; by exists m, f|by right].
Qed.

(** What a handshake returns, in terms of the message received. *)
Lemma initiate_spec s im ext pid filters msg : bytes_ok (sock_incoming s) ->
  HandshakeMessage_from_parts (im_prot im) ext (im_hash im) pid = Ok msg ->
  exists s0, sock_incoming s0 = sock_incoming s /\ (sock_healthy s -> sock_healthy s0 /\ sock_written s0 = sock_written s ++ HandshakeMessage_write_bytes msg) /\
  ((exists m f, initiate_handshake s im ext pid filters =
      (if bool_decide (hs_hash m <> im_hash im) || bool_decide (hs_prot m <> im_prot im) || filters_all (im_addr im) m filters then Ok None
       else Ok (Some (CompleteMessage_new (im_prot im) (Extensions_union ext (hs_ext m)) (im_hash im) (hs_pid m) (im_addr im) (fh_sock f)))) /\
      handshake_ok m /\ sock_incoming s = HandshakeMessage_write_bytes m ++ sock_incoming (fh_sock f) /\ sock_written (fh_sock f) = sock_written s0) \/
   (initiate_handshake s im ext pid filters = Ok None /\
     ~ (sock_healthy s /\ exists m rest, handshake_ok m /\ sock_incoming s = HandshakeMessage_write_bytes m ++ rest))).
Proof.
  intros Hb Hparts. unfold initiate_handshake. rewrite Hparts. cbn [res_bind].
  match goal with |- context [send_ignored msg _ ?k] => destruct (send_ignored_spec msg (FramedHandshake_new s) k) as (f0 & -> & Hi & H1 & H2 & H3 & Hh) end; [done|].
  cbn [FramedHandshake_new fh_sock fh_read_buffer fh_read_pos fh_state] in *. destruct f0 as [s0 wb rb pos st]. cbn in Hi, H1, H2, H3, Hh. subst rb pos st.
  exists s0. split; [done|]. split; [done|]. rewrite <- Hi in Hb |- *.
  match goal with |- context [poll_or_none _ ?k] => destruct (poll_or_none_spec s0 wb k Hb) as [(m & f & -> & Hm & Hin & Hw & _)|[-> Hn]] end.
  - left. by exists m, f.
  - right. split; [done|]. intros [Hs He]. apply Hn. split; [by apply Hh|done].
Qed.

Lemma complete_spec s addr ext pid filters : bytes_ok (sock_incoming s) ->
  (exists m f f', complete_handshake s addr ext pid filters =
      (if filters_all addr m filters then Ok None
       else Ok (Some (CompleteMessage_new (hs_prot m) (Extensions_union ext (hs_ext m)) (hs_hash m) (hs_pid m) addr (fh_sock f')))) /\
      handshake_ok m /\ sock_incoming s = HandshakeMessage_write_bytes m ++ sock_incoming (fh_sock f) /\
      sock_incoming (fh_sock f') = sock_incoming (fh_sock f) /\
      (sock_healthy s -> sock_written (fh_sock f') = sock_written s ++ HandshakeMessage_write_bytes (mkHandshake (hs_prot m) ext (hs_hash m) pid))) \/
  (complete_handshake s addr ext pid filters = Ok None /\
     ~ (sock_healthy s /\ exists m rest, handshake_ok m /\ sock_incoming s = HandshakeMessage_write_bytes m ++ rest)).
Proof.
  intros Hb. unfold complete_handshake, FramedHandshake_new.
  match goal with |- context [poll_or_none _ ?k] => destruct (poll_or_none_spec s [] k Hb) as [(m & f & -> & Hm & Hin & Hw & Hwb & Hh)|[-> Hn]] end;
    [left|by right].
  assert (HandshakeMessage_from_parts (hs_prot m) ext (hs_hash m) pid = Ok (mkHandshake (hs_prot m) ext (hs_hash m) pid)) as Hparts.
  { unfold HandshakeMessage_from_parts. destruct Hm as [Hp _]. destruct (hs_prot m) as [|c]; [done|]. destruct Hp as [Hl _].
    by destruct (Nat.ltb_spec 255 (length c)); [lia|]. }
  rewrite Hparts. cbn [res_bind].
  match goal with |- context [send_ignored ?i f ?k] => destruct (send_ignored_spec i f k Hwb) as (f' & -> & Hi & _ & _ & _ & Hs) end.
  exists m, f, f'. split; [done|]. split; [done|]. split; [done|]. split; [done|]. intros Hh'. rewrite <- Hw. by apply Hs, Hh.
Qed.

Lemma initiate_sound s im ext pid filters c : bytes_ok (sock_incoming s) -> initiate_handshake s im ext pid filters = Ok (Some c) ->
  exists m, completes ext filters s (im_addr im) m c /\ hs_prot m = im_prot im /\ hs_hash m = im_hash im.
Proof.
  intros Hb Hr. destruct (HandshakeMessage_from_parts (im_prot im) ext (im_hash im) pid) as [msg| | |] eqn:Hparts;
    try (unfold initiate_handshake in Hr; rewrite Hparts in Hr; discriminate).
  destruct (initiate_spec s im ext pid filters msg Hb Hparts) as (s0 & _ & _ & [(m & f & E & Hm & Hi & _)|[E _]]); rewrite E in Hr; [|discriminate].
  exists m. case_bool_decide as Hh; [discriminate|]. case_bool_decide as Hp; [discriminate|].
  destruct (filters_all (im_addr im) m filters) eqn:Hf; [discriminate|]. injection Hr as <-.
  unfold completes. cbn [cm_prot cm_ext cm_hash cm_pid cm_addr cm_sock]. by rewrite Hh, Hp.
Qed.

Lemma complete_sound s addr ext pid filters c : bytes_ok (sock_incoming s) -> complete_handshake s addr ext pid filters = Ok (Some c) ->
  exists m, completes ext filters s addr m c.
Proof.
  intros Hb Hr. destruct (complete_spec s addr ext pid filters Hb) as [(m & f & f' & E & Hm & Hi & Hi' & _)|[E _]]; rewrite E in Hr; [|discriminate].
  exists m. destruct (filters_all addr m filters) eqn:Hf; [discriminate|]. injection Hr as <-.
  unfold completes. cbn [cm_prot cm_ext cm_hash cm_pid cm_addr cm_sock]. by rewrite Hi'.
Qed.

(** ** The manager *)

Lemma loop_handler_elem {A R} (handler : A -> res unit (option R)) items r :
  r ∈ loop_handler handler items -> exists item, item ∈ items /\ handler item = Ok (Some r).
Proof.
  induction items as [|item items IH]; cbn [loop_handler]; [by intros ?%elem_of_nil|].
  assert (r ∈ loop_handler handler items -> exists item0, item0 ∈ item :: items /\ handler item0 = Ok (Some r)) as IH'
    by (intros (i & Hi & Hr)%IH; exists i; split; [by right|done]).
  destruct (handler item) as [[r'|]| | |] eqn:E; try (by intros ?%elem_of_nil); [|done].
  intros [->|Hr]%elem_of_cons; [|by apply IH']. exists item. split; [left|done].
Qed.

Lemma interleaved_elem {A} (l1 l2 l : list A) a : interleaved l1 l2 l -> a ∈ l -> a ∈ l1 \/ a ∈ l2.
Proof.
  induction 1 as [|b l1 l2 l _ IH|b l1 l2 l _ IH]; [by intros ?%elem_of_nil| |]; intros [->|Ha]%elem_of_cons;
    try (destruct (IH Ha)); rewrite ?elem_of_cons; tauto.
Qed.

(** Every connection the manager hands over has a received handshake message behind
    it that its filters let through with all fields known, and whose bytes are the only
    ones taken from the socket; the extensions are the common ones. A connection we
    started was let through before connecting as well, and answered for the protocol and
    the torrent we asked for; an accepted one was let through by its address. *)
Lemma handshakes_pass_filters b connect filters initiated accepted done c :
  (forall addr s, connect addr = Some s -> bytes_ok (sock_incoming s)) -> Forall (fun '(s, _) => bytes_ok (sock_incoming s)) accepted ->
  manager_output b connect filters initiated accepted done -> c ∈ done ->
  exists s m, completes (hb_ext b) filters s (cm_addr c) m c /\
    ((exists im, im ∈ initiated /\ connect (im_addr im) = Some s /\ cm_addr c = im_addr im /\ cm_prot c = im_prot im /\ cm_hash c = im_hash im /\
        should_filter (Some (im_addr im)) (Some (im_prot im)) None (Some (im_hash im)) None filters = false) \/
     ((s, cm_addr c) ∈ accepted /\ should_filter (Some (cm_addr c)) None None None None filters = false)).
Proof.
  intros Hconnect Haccepted (hand & Hhand & ->) Hc. apply loop_handler_elem in Hc as (item & Hitem & Hexec).
  destruct (interleaved_elem _ _ _ _ Hhand Hitem) as [Hin|Hin]; apply loop_handler_elem in Hin as (x & Hx & Hr).
  - unfold initiator_handler in Hr. destruct (should_filter _ _ _ _ _ filters) eqn:Hf; [discriminate|].
    destruct (connect (im_addr x)) as [s|] eqn:Es; [|discriminate]. injection Hr as <-. cbn [execute_handshake] in Hexec.
    destruct (initiate_sound _ _ _ _ _ _ (Hconnect _ _ Es) Hexec) as (m & Hm & Hp & Hh). pose proof Hm as (_ & _ & Hcp & Hch & _ & Hca & _).
    exists s, m. rewrite Hca. split; [done|]. left. exists x. rewrite Hcp, Hch, Hp, Hh. done.
  - destruct x as [s addr]. unfold listener_handler in Hr. destruct (should_filter _ _ _ _ _ filters) eqn:Hf; [discriminate|].
    injection Hr as <-. cbn [execute_handshake] in Hexec. apply (proj1 (Forall_forall _ _) Haccepted) in Hx as Hb.
    destruct (complete_sound _ _ _ _ _ _ Hb Hexec) as (m & Hm). pose proof Hm as (_ & _ & _ & _ & _ & Hca & _).
    exists s, m. rewrite Hca. split; [done|]. by right.
Qed.

(** A protocol of more than 255 bytes panics the thread, and no later handshake is done. *)
Lemma long_protocol_ends_handshakes ext pid filters s im items c : im_prot im = Custom c -> (255 < length c)%nat ->
  loop_handler (execute_handshake ext pid filters) (Initiate s im :: items) = [].
Proof.
  intros Hp Hl. cbn [loop_handler execute_handshake]. unfold initiate_handshake, HandshakeMessage_from_parts. rewrite Hp.
  by destruct (Nat.ltb_spec 255 (length c)); [|lia].
Qed.

(** ** Two peers *)

Lemma union_comm a b : Extensions_union a b = Extensions_union b a.
Proof.
  unfold Extensions_union. f_equal. destruct a as [x], b as [y]. cbn. revert y. induction x as [|u x IH]; intros [|v y]; cbn; [done..|].
  by rewrite Z.land_comm, IH.
Qed.

Lemma parts_ok m : handshake_ok m -> HandshakeMessage_from_parts (hs_prot m) (hs_ext m) (hs_hash m) (hs_pid m) = Ok m.
Proof.
  intros [Hp _]. destruct m as [[|c] x h i]; [done|]. destruct Hp as [Hl _]. unfold HandshakeMessage_from_parts. cbn [hs_prot hs_ext hs_hash hs_pid].
  by destruct (Nat.ltb_spec 255 (length c)); [lia|].
Qed.

(** A responder on a socket that makes progress answers the message it gets. *)
Lemma complete_answers s addr filters m ext pid rest : handshake_ok m -> bytes_ok rest -> sock_healthy s ->
  sock_incoming s = HandshakeMessage_write_bytes m ++ rest -> filters_all addr m filters = false ->
  exists s', complete_handshake s addr ext pid filters =
      Ok (Some (CompleteMessage_new (hs_prot m) (Extensions_union ext (hs_ext m)) (hs_hash m) (hs_pid m) addr s')) /\
    sock_incoming s' = rest /\ sock_written s' = sock_written s ++ HandshakeMessage_write_bytes (mkHandshake (hs_prot m) ext (hs_hash m) pid).
Proof.
  intros Hm Hr Hs Hin Hf. assert (Hb : bytes_ok (sock_incoming s)) by (rewrite Hin; apply Forall_app; split; [by apply handshake_bytes_ok|done]).
  destruct (complete_spec s addr ext pid filters Hb) as [(m' & f & f' & E & Hm' & Hi & Hi' & Hw)|[_ Hn]]; [|exfalso; apply Hn; eauto].
  rewrite Hin in Hi. apply handshake_prefix_free in Hi as [<- Hrest]; [|done..]. rewrite Hf in E. exists (fh_sock f').
  split; [done|]. split; [by rewrite Hi'|by apply Hw].
Qed.

(** C8: when two peers handshake for the same protocol and torrent over sockets that make
    progress and neither filters the other, both complete: each has received what the
    other wrote, they agree on protocol, torrent and common extensions, each knows the
    other's peer id, and every byte that follows the handshakes is still to be read. *)
Theorem handshake_agrees (sa sb : S) (addr_a addr_b : SocketAddr) filters_a filters_b ma mb rest_a rest_b :
  handshake_ok ma -> handshake_ok mb -> hs_prot mb = hs_prot ma -> hs_hash mb = hs_hash ma -> bytes_ok rest_a -> bytes_ok rest_b ->
  sock_healthy sa -> sock_healthy sb ->
  sock_incoming sb = HandshakeMessage_write_bytes ma ++ rest_a -> sock_incoming sa = HandshakeMessage_write_bytes mb ++ rest_b ->
  filters_all addr_b mb filters_a = false -> filters_all addr_a ma filters_b = false ->
  exists ca cb,
    initiate_handshake sa (InitiateMessage_new (hs_prot ma) (hs_hash ma) addr_b) (hs_ext ma) (hs_pid ma) filters_a = Ok (Some ca) /\
    complete_handshake sb addr_a (hs_ext mb) (hs_pid mb) filters_b = Ok (Some cb) /\
    sock_written (cm_sock ca) = sock_written sa ++ HandshakeMessage_write_bytes ma /\
    sock_written (cm_sock cb) = sock_written sb ++ HandshakeMessage_write_bytes mb /\
    sock_incoming (cm_sock ca) = rest_b /\ sock_incoming (cm_sock cb) = rest_a /\
    cm_prot ca = cm_prot cb /\ cm_hash ca = cm_hash cb /\ cm_ext ca = cm_ext cb /\
    cm_pid ca = hs_pid mb /\ cm_pid cb = hs_pid ma.
Proof.
  intros Hma Hmb Hp Hh Hra Hrb Hsa Hsb Hib Hia Hfa Hfb.
  destruct (complete_answers sb addr_a filters_b ma (hs_ext mb) (hs_pid mb) rest_a) as (sb' & Eb & Hib' & Hwb); [done..|].
  assert (Hb : bytes_ok (sock_incoming sa)) by (rewrite Hia; apply Forall_app; split; [by apply handshake_bytes_ok|done]).
  destruct (initiate_spec sa (InitiateMessage_new (hs_prot ma) (hs_hash ma) addr_b) (hs_ext ma) (hs_pid ma) filters_a ma Hb (parts_ok ma Hma))
    as (s0 & _ & Hs0 & [(m & f & E & Hm & Hi & Hw)|[_ Hn]]); [|exfalso; apply Hn; eauto].
  rewrite Hia in Hi. apply handshake_prefix_free in Hi as [<- Hrest]; [|done..]. cbn [im_prot im_hash im_addr] in E.
  rewrite bool_decide_false in E by (rewrite Hh; tauto). rewrite bool_decide_false in E by (rewrite Hp; tauto). rewrite Hfa in E. cbn [orb] in E.
  eexists _, _. split; [exact E|]. split; [exact Eb|]. cbn [cm_prot cm_ext cm_hash cm_pid cm_addr cm_sock].
  destruct (Hs0 Hsa) as [_ Hw0]. split; [by rewrite Hw|]. split; [rewrite Hwb, <- Hp, <- Hh; by destruct mb|].
  split; [done|]. split; [done|]. do 2 (split; [done|]). split; [apply union_comm|done].
Qed.

End Handlers.

(** ** A socket *)

(** Bytes to read, how many each read may return (all, when the list is used up), and the
    bytes written. *)
Record ScriptSocket : Type := mkScript { to_read : list Z; limits : list nat; output : list Z }.

#[export] Instance ScriptSocket_socket : Socket ScriptSocket := {|
  sock_read n s :=
    let k := match limits s with [] => n | l :: _ => (n `min` Datatypes.S l)%nat end in
    (Some (take k (to_read s)), mkScript (drop k (to_read s)) (tail (limits s)) (output s));
  sock_write b s :=
    let k := match limits s with [] => length b | l :: _ => (length b `min` Datatypes.S l)%nat end in
    (Some k, mkScript (to_read s) (tail (limits s)) (output s ++ take k b))
|}.

#[export] Instance ScriptSocket_laws : SocketLaws ScriptSocket.
Proof.
  refine {| sock_incoming := to_read; sock_written := output; sock_healthy := fun _ => True |}; cbn.
  - intros n s got s' [= <- <-]. cbn. rewrite take_drop, length_take. split; [done|]. split; [|done]. destruct (limits s); lia.
  - done.
  - intros b s k s' [= <- <-]. cbn. split; [|done]. destruct (limits s); lia.
  - done.
  - intros n s _ Hn Hi. destruct (to_read s) as [|x l] eqn:E; [done|].
    destruct (limits s) as [|k ls]; [destruct n; [lia|]|destruct n; [lia|]; cbn]; by eexists _, _, _.
  - intros b s _ Hb. destruct b as [|x b]; [done|]. destruct (limits s) as [|k ls]; cbn; by eexists _, _.
Defined.

(** Filters that block an address, and none at all. *)
Record BlockAddrFilter : Type := BlockAddrFilter_new { blocked_addr : SocketAddr }.
#[export] Instance BlockAddrFilter_eq_dec : EqDecision BlockAddrFilter.
Proof. solve_decision. Defined.
#[export] Instance BlockAddrFilter_filter : HandshakeFilter BlockAddrFilter := {|
  on_addr f a := match a with Some x => if decide (x = blocked_addr f) then FBlock else FPass | None => FNeedData end;
  on_prot _ _ := FPass; on_ext _ _ := FPass; on_hash _ _ := FPass; on_pid _ _ := FPass
|}.

Definition sample_host (p : Z) : SocketAddr := V4 (SocketAddrV4_new (Ipv4Addr_new 10 0 0 1) p).
Definition sample_handshake (id : Z) : HandshakeMessage :=
  mkHandshake BitTorrent (mkExtensions [0; 0; 0; 0; 0; 16; 0; id]) (mkShaHash (replicate 20 7)) (mkShaHash (replicate 20 id)).
Definition sample_socket (id : Z) : ScriptSocket :=
  mkScript (HandshakeMessage_write_bytes (sample_handshake id) ++ [1; 2; 3]) [0; 9; 30]%nat [].

Lemma sample_handshake_ok id : is_u8 id -> handshake_ok (sample_handshake id).
Proof.
  intros Hi. split; [done|]. split; [split; [done|]; repeat (apply Forall_cons; split; [first [done|in_range]|]); constructor|].
  split; (split; [done|]); apply Forall_replicate; [in_range|done].
Qed.

Lemma sample_socket_ok id : is_u8 id -> bytes_ok (sock_incoming (sample_socket id)).
Proof. intros Hi. apply Forall_app. split; [by apply handshake_bytes_ok, sample_handshake_ok|]. repeat constructor; vm_compute; congruence. Qed.

Lemma frame_reads_one_message_witness :
  exists m f, framed_poll (H0 := nom_reference) (FramedHandshake_new (sample_socket 5)) = Ok (Some m, f) /\
    sock_incoming (sample_socket 5) = HandshakeMessage_write_bytes m ++ sock_incoming (fh_sock f).
Proof.
  destruct (frame_reads_one_message (N1 := nom_reference) (sample_socket 5)) as [(m & f & Ho & _ & Hi & _)|(f & _ & Hn)];
    [apply sample_socket_ok; in_range|by exists m, f|].
  exfalso. apply Hn. split; [exact I|]. exists (sample_handshake 5), [1; 2; 3]. split; [apply sample_handshake_ok; in_range|done].
Defined.

Lemma handshake_agrees_witness :
  exists ca cb,
    initiate_handshake (H0 := nom_reference) (sample_socket 6) (InitiateMessage_new BitTorrent (mkShaHash (replicate 20 7)) (sample_host 2))
      (mkExtensions [0; 0; 0; 0; 0; 16; 0; 5]) (mkShaHash (replicate 20 5)) [BlockAddrFilter_new (sample_host 9)] = Ok (Some ca) /\
    complete_handshake (H0 := nom_reference) (sample_socket 5) (sample_host 1) (mkExtensions [0; 0; 0; 0; 0; 16; 0; 6]) (mkShaHash (replicate 20 6)) [BlockAddrFilter_new (sample_host 9)] = Ok (Some cb) /\
    cm_ext ca = cm_ext cb.
Proof.
  destruct (handshake_agrees (N1 := nom_reference) (sample_socket 6) (sample_socket 5) (sample_host 1) (sample_host 2)
    [BlockAddrFilter_new (sample_host 9)] [BlockAddrFilter_new (sample_host 9)] (sample_handshake 5) (sample_handshake 6) [1; 2; 3] [1; 2; 3])
    as (ca & cb & Ha & Hb & _ & _ & _ & _ & _ & _ & He & _);
    [apply sample_handshake_ok; in_range|apply sample_handshake_ok; in_range|done|done|repeat constructor; vm_compute; congruence|
     repeat constructor; vm_compute; congruence|exact I|exact I|done|done|vm_compute; reflexivity|vm_compute; reflexivity|].
  exists ca, cb. split; [exact Ha|]. split; [exact Hb|exact He].
Defined.

Definition sample_builder : HandshakerManagerBuilder := HandshakerManagerBuilder_new (fun _ => replicate 20 4) 7.
Definition sample_done : list (CompleteMessage ScriptSocket) :=
  loop_handler (execute_handshake (H0 := nom_reference) (hb_ext sample_builder) (hb_pid sample_builder) [BlockAddrFilter_new (sample_host 9)])
    [Complete (sample_socket 5) (sample_host 1)].

Lemma sample_done_one : exists c, sample_done = [c].
Proof. eexists. vm_compute. reflexivity. Qed.

Lemma handshakes_pass_filters_witness :
  exists c s m, sample_done = [c] /\ completes (hb_ext sample_builder) [BlockAddrFilter_new (sample_host 9)] s (cm_addr c) m c.
Proof.
  destruct sample_done_one as [c Hc]. exists c.
  destruct (handshakes_pass_filters (N1 := nom_reference) sample_builder (fun _ => None) [BlockAddrFilter_new (sample_host 9)] []
    [(sample_socket 5, sample_host 1)] sample_done c) as (s & m & Hm & _).
  - done.
  - constructor; [apply sample_socket_ok; in_range|constructor].
  - exists [Complete (sample_socket 5) (sample_host 1)]. split; [|reflexivity]. change (loop_handler (listener_handler _) _) with [Complete (sample_socket 5) (sample_host 1)].
    apply interleaved_right, interleaved_nil.
  - rewrite Hc. left.
  - exists s, m. split; [exact Hc|exact Hm].
Defined.
