(* ===== verification/DhtWorker.v ===== *)
(** * The DHT worker: its tasks, its effects and the shared routing table

    The data of [dht/worker/mod.rs] and what the actions of [dht/worker] do to their
    surroundings. An action runs inside an event loop of the [mio] crate with a shared
    reference to the routing table, whose nodes it marks through their [Cell]s, and a
    channel to the thread that sends datagrams. [World] has the routing table and the
    list of effects in order; [DhtEnv] says how each call to the outside ends. The
    time [now] is read once per event. [wp] is the total correctness of a computation.

    Then lemmas on the calls. *)

From stdpp Require Import gmap.
From S2P Require Import Prelude RustStd UtilSha UtilConvert Chrono DhtNode DhtTable DhtTableSpec DhtClosest DhtClosestSpec UtilTrans DhtTransaction.

#[export] Instance TransactionID_eq_dec : EqDecision TransactionID.
Proof. solve_decision. Defined.
#[export] Instance TransactionID_countable : Countable TransactionID.
Proof. refine (inj_countable' (fun t => (trans_id t, trans_id_bytes t)) (fun '(i, b) => mkTransactionID i b) _). by intros []. Defined.
#[export] Instance ActionID_eq_dec : EqDecision ActionID.
Proof. solve_decision. Defined.
#[export] Instance ActionID_countable : Countable ActionID.
Proof. refine (inj_countable' action_id mkActionID _). by intros []. Defined.

(** ** Tasks and events *)

Inductive ScheduledTask : Type :=
| CheckTableRefresh (t : TransactionID)
| CheckBootstrapTimeout (t : TransactionID)
| CheckLookupTimeout (t : TransactionID)
| CheckLookupEndGame (t : TransactionID).

Inductive ShutdownCause : Type := BootstrapFailed | ClientInitiated | Unspecified.

Inductive DhtEvent : Type :=
| BootstrapCompleted
| LookupCompleted (info_hash : ShaHash)
| ShuttingDown (cause : ShutdownCause).

(** A timer of the event loop is its id, a registered event sender its number. *)
Abbreviation Timeout := nat (only parsing).
Abbreviation EventSender := nat (only parsing).

Inductive DhtEffect : Type :=
| OutMessage (bytes : list Z) (addr : SocketAddr)
| TimerSet (id : Timeout) (data : Z * ScheduledTask) (millis : Z)
| TimerCleared (id : Timeout)
| ConnectPeer (hash : ShaHash) (addr : SocketAddr)
| EventSent (sender : EventSender) (event : DhtEvent)
| ShutdownTask (cause : ShutdownCause)
| LoopShutdown.

(** How the [n]-th call to the outside ends: whether the out channel, the loop's channel
    or a sender of events still has its receiver, the timer [timeout_ms] returns, the
    numbers a shuffle or the token store draws; and the port of the handshaker. *)
Class DhtEnv : Type := {
  out_open : nat -> bool;
  loop_open : nat -> bool;
  sender_open : nat -> EventSender -> bool;
  new_timer : nat -> option Timeout;
  shuffle_numbers : nat -> nat -> Z;
  random_u32 : nat -> Z;
  handshaker_port : Z
}.

Section Worker.
Context `{Chrono} `{DhtEnv} (now : DateTime).

Record World : Type := mkWorld { w_table : RoutingTable; w_calls : nat; w_effects : list DhtEffect }.

Definition W (A : Type) : Type := World -> res unit (A * World).
Definition wret {A} (a : A) : W A := fun w => Ok (a, w).
Definition wbind {A B} (m : W A) (k : A -> W B) : W B := fun w => let? (a, w) := m w in k a w.
Definition wlift {A} (m : res unit A) : W A := fun w => let? a := m in Ok (a, w).
Definition get_table : W RoutingTable := fun w => Ok (w_table w, w).
Definition put_table (t : RoutingTable) : W unit := fun w => Ok (tt, mkWorld t (w_calls w) (w_effects w)).

(** A call that is not visible outside, and one that leaves an effect. *)
Definition outside {A} (answer : nat -> A) : W A := fun w => Ok (answer (w_calls w), mkWorld (w_table w) (S (w_calls w)) (w_effects w)).
Definition emit (e : DhtEffect) : W unit := fun w => Ok (tt, mkWorld (w_table w) (w_calls w) (w_effects w ++ [e])).

End Worker.

Notation "'let!' x := m 'in' k" := (wbind m (fun x => k))
  (at level 10, x pattern, m at level 200, k at level 200,
   format "'[v' 'let!'  x  :=  m  'in'  '/' k ']'") : rust_scope.

Section Calls.
Context `{Chrono} `{DhtEnv} (now : DateTime).

(** [out.send(...).is_ok()]. *)
Definition send_out (bytes : list Z) (a : SocketAddr) : W bool :=
  let! ok := outside out_open in
  if ok : bool then let! _ := emit (OutMessage bytes a) in wret true else wret false.

(** [event_loop.timeout_ms(data, millis).ok()]. *)
Definition timeout_ms (data : Z * ScheduledTask) (millis : Z) : W (option Timeout) :=
  let! timer := outside new_timer in
  match timer with
  | Some id => let! _ := emit (TimerSet id data millis) in wret (Some id)
  | None => wret None
  end.

Definition clear_timeout (id : Timeout) : W unit := emit (TimerCleared id).

Definition mid_generate (g : MIDGenerator) : W (TransactionID * MIDGenerator) :=
  let! numbers := outside shuffle_numbers in
  wlift (MIDGenerator_generate numbers g).

(** [shutdown_event_loop]. *)
Definition shutdown_event_loop (cause : ShutdownCause) : W unit :=
  let! ok := outside loop_open in
  if ok : bool then emit (ShutdownTask cause) else wret tt.

(** [notifiers.retain(|send| send.send(event).is_ok())]. *)
Fixpoint broadcast_dht_event (notifiers : list EventSender) (event : DhtEvent) : W (list EventSender) :=
  match notifiers with
  | [] => wret []
  | sender :: notifiers =>
      let! answer := outside sender_open in
      if answer sender : bool then
        let! _ := emit (EventSent sender event) in
        let! kept := broadcast_dht_event notifiers event in
        wret (sender :: kept)
      else broadcast_dht_event notifiers event
  end.

(** ** Marking the nodes of the table *)

(** The node a reference into the table points to: it is the only one with its id and
    address that can be pinged (see [touch_one]). *)
Definition is_target (node m : Node) : bool := pingable_nodes_filter now m && node_eqb m node.
Definition touch_table (f : Node -> Node) (node : Node) (t : RoutingTable) : RoutingTable :=
  mkTable (map (fun b => mkBucket (map (fun m => if is_target node m then f m else m) (nodes b))) (buckets t)) (table_id t).

(** A call of a method of a node that a search of the table has yielded. *)
Definition touch (f : Node -> Node) (node : Node) : W unit :=
  let! t := get_table in put_table (touch_table f node t).

(** [table.find_node(node).map(f)]. *)
Definition touch_found (f : Node -> Node) (node : Node) : W unit :=
  let! t := get_table in
  let! found := wlift (RoutingTable_find_node now t node) in
  match found with
  | Some n => touch f n
  | None => wret tt
  end.

(** [table.add_node(node)]. *)
Definition table_add_node (node : Node) : W unit :=
  let! t := get_table in
  let! t := wlift (RoutingTable_add_node now t node) in
  put_table t.

(** ** Total correctness *)

Definition wp {A} (m : W A) (w : World) (Q : A -> World -> Prop) : Prop :=
  exists a w', m w = Ok (a, w') /\ Q a w'.

Lemma dwp_ret {A} (a : A) w (Q : A -> World -> Prop) : Q a w -> wp (wret a) w Q.
Proof. intros HQ. by exists a, w. Qed.

Lemma dwp_bind {A B} (m : W A) (k : A -> W B) w Q : wp m w (fun a w => wp (k a) w Q) -> wp (wbind m k) w Q.
Proof. intros (a & w' & Hm & b & w'' & Hk & HQ). exists b, w''. split; [|done]. unfold wbind. by rewrite Hm. Qed.

Lemma dwp_mono {A} (m : W A) w (Q Q' : A -> World -> Prop) : wp m w Q -> (forall a w, Q a w -> Q' a w) -> wp m w Q'.
Proof. intros (a & w' & Hm & HQ) Hi. exists a, w'. by auto. Qed.

Lemma dwp_lift {A} (m : res unit A) w (Q : A -> World -> Prop) a : m = Ok a -> Q a w -> wp (wlift m) w Q.
Proof. intros -> HQ. by exists a, w. Qed.

Lemma wp_get_table w (Q : RoutingTable -> World -> Prop) : Q (w_table w) w -> wp get_table w Q.
Proof. intros HQ. by exists (w_table w), w. Qed.

Lemma wp_put_table t w (Q : unit -> World -> Prop) : Q tt (mkWorld t (w_calls w) (w_effects w)) -> wp (put_table t) w Q.
Proof. intros HQ. by eexists _, _. Qed.

Lemma wp_outside {A} (answer : nat -> A) w (Q : A -> World -> Prop) :
  Q (answer (w_calls w)) (mkWorld (w_table w) (S (w_calls w)) (w_effects w)) -> wp (outside answer) w Q.
Proof. intros HQ. by eexists _, _. Qed.

Lemma wp_emit e w (Q : unit -> World -> Prop) : Q tt (mkWorld (w_table w) (w_calls w) (w_effects w ++ [e])) -> wp (emit e) w Q.
Proof. intros HQ. by eexists _, _. Qed.

Lemma wp_det {A} (m : W A) w a w' (Q : A -> World -> Prop) : wp m w Q -> m w = Ok (a, w') -> Q a w'.
Proof. intros (b & w'' & Hm & HQ) E. rewrite Hm in E. by injection E as <- <-. Qed.

End Calls.

(** * The DHT worker: lemmas on its calls

    Total correctness of the calls of [DhtWorker]: id generators never fail and hand out
    ids of their action, searching and marking nodes keeps the routing table's invariant,
    and a mark reaches exactly the node it is meant for. *)

(** ** Id generators *)

(** The ids still to come are in range. *)
Definition block_range (max : Z) (len : nat) (s : IdBlock) : Prop :=
  0 <= next_alloc s <= max /\ (Z.of_nat len | next_alloc s) /\
  Forall (fun x => 0 <= x < max) (drop (curr_index s) (block_ids s)).

Lemma block_range_here max len fuel rnd s x : block_range max len s -> block_ids s !! curr_index s = Some x ->
  exists s', block_generate max len (S fuel) rnd s = Ok (x, s') /\ block_range max len s' /\ 0 <= x < max.
Proof.
  intros (Ha & Hd & Hf) Ex. cbn [block_generate]. rewrite Ex. eexists. split; [done|].
  rewrite (lookup_drop_cons _ _ _ Ex) in Hf. apply Forall_cons in Hf as [Hx Hf]. split; [|done].
  unfold block_range. cbn [next_alloc curr_index block_ids]. by rewrite Nat.add_1_r.
Qed.

(** A generator never runs out: after the last block it starts again. *)
Lemma block_generate_range max len rnd s : (0 < len)%nat -> (Z.of_nat len | max) -> 0 < max -> block_range max len s ->
  exists x s', block_generate max len 2 rnd s = Ok (x, s') /\ block_range max len s' /\ 0 <= x < max.
Proof.
  intros Hl [q Hq] Hm Hr. destruct (block_ids s !! curr_index s) as [x|] eqn:Ex; [by exists x; apply block_range_here|].
  assert (exists a, generate_block max len (next_alloc s) = (a + Z.of_nat len, seqZ a (Z.of_nat len)) /\ 0 <= a < max /\ (Z.of_nat len | a)) as (a & Eg & Ha & [k Hk]).
  { destruct Hr as (Hn & Hd & _). destruct (decide (next_alloc s = max)) as [E|]; [|exists (next_alloc s); split; [apply generate_block_seq; lia|split; [lia|done]]].
    exists 0. split; [|split; [lia|apply Z.divide_0_r]]. assert (generate_block max len 0 = (0 + Z.of_nat len, seqZ 0 (Z.of_nat len))) as <- by (apply generate_block_seq; lia).
    unfold generate_block. rewrite E, Z.eqb_refl. by destruct (Z.eqb_spec 0 max); [lia|]. }
  cbn [block_generate]. rewrite Ex, Eg. destruct (fisher_shuffle_perm 0 rnd (seqZ a (Z.of_nat len))) as (l & -> & Hp). cbn [res_bind].
  assert (Hll : length l = len) by (rewrite Hp, length_seqZ; lia). destruct l as [|x l]; [cbn in Hll; lia|].
  destruct (block_range_here max len 0 rnd (mkIdBlock (a + Z.of_nat len) 0 (x :: l)) x) as (s' & Hs); [|done|by exists x, s'].
  unfold block_range. cbn [next_alloc curr_index block_ids drop]. assert (k < q) by nia.
  split; [nia|]. split; [exists (k + 1); lia|]. rewrite Hp. apply Forall_forall. intros y [? ?]%elem_of_seqZ. nia.
Qed.

(** The message ids of action [aid]. *)
Definition mid_ok (aid : Z) (g : MIDGenerator) : Prop :=
  0 <= aid < MAX_ACTION_ID /\ mid_action_id g = as_u64 (Z.shiftl aid MESSAGE_ID_SHIFT) /\
  block_range MAX_MESSAGE_ID MESSAGE_ID_PREALLOC_LEN (mid_block g).

(** An id of action [aid] that its eight bytes give back. *)
Definition tid_ok (aid : Z) (t : TransactionID) : Prop :=
  TransactionID_action_id t = mkActionID aid /\ TransactionID_from_bytes (trans_id_bytes t) = Some t /\
  length (trans_id_bytes t) = TRANSACTION_ID_BYTES.

Definition aid_ok (g : AIDGenerator) : Prop := block_range MAX_ACTION_ID ACTION_ID_PREALLOC_LEN (aid_block g).

Lemma mid_generate_total aid rnd g : mid_ok aid g -> exists t g', MIDGenerator_generate rnd g = Ok (t, g') /\ tid_ok aid t /\ mid_ok aid g'.
Proof.
  intros (Ha & He & Hb). destruct message_params as (Hp1 & Hp2 & Hp3).
  destruct (block_generate_range _ _ rnd _ Hp1 Hp2 Hp3 Hb) as (x & s' & E & Hr & Hx). unfold MIDGenerator_generate. rewrite E. cbn [res_bind].
  eexists _, _. split; [done|]. destruct (compose_split aid x Ha Hx) as (Hact & _ & Hu). rewrite He. split; [|done].
  split; [done|]. split; [by apply from_bytes_roundtrip|done].
Qed.

Lemma mid_new_ok aid : 0 <= aid < MAX_ACTION_ID -> mid_ok aid (MIDGenerator_new (as_u64 (Z.shiftl aid MESSAGE_ID_SHIFT))).
Proof.
  intros Ha. split; [done|]. split; [done|]. unfold block_range, MIDGenerator_new. cbn [mid_block next_alloc curr_index block_ids].
  split; [done|]. split; [apply Z.divide_0_r|]. rewrite drop_ge by (by rewrite length_replicate). constructor.
Qed.

Lemma aid_generate_total rnd g : aid_ok g -> exists aid m g', AIDGenerator_generate rnd g = Ok (m, g') /\ mid_ok aid m /\ aid_ok g' /\
  MIDGenerator_action_id m = mkActionID aid.
Proof.
  intros Hb. destruct action_params as (Hp1 & Hp2 & Hp3).
  destruct (block_generate_range _ _ rnd _ Hp1 Hp2 Hp3 Hb) as (x & s' & E & Hr & Hx). unfold AIDGenerator_generate. rewrite E. cbn [res_bind].
  eexists x, _, _. split; [done|]. split; [by apply mid_new_ok|]. split; [done|].
  destruct (compose_split x 0 Hx ltac:(done)) as (Hact & _ & _). by rewrite Z.lor_0_r in Hact.
Qed.

Lemma aid_new_ok rnd : exists g, AIDGenerator_new rnd = Ok g /\ aid_ok g.
Proof.
  destruct action_params as (Hp1 & Hp2 & Hp3). unfold AIDGenerator_new. rewrite generate_block_seq by lia.
  destruct (fisher_shuffle_perm 0 rnd (seqZ 0 (Z.of_nat ACTION_ID_PREALLOC_LEN))) as (l & -> & Hpl). eexists. split; [done|].
  unfold aid_ok, block_range. cbn [aid_block next_alloc curr_index block_ids]. split; [done|]. split; [by exists 1|].
  rewrite drop_0, Hpl. apply Forall_forall. intros y [? ?]%elem_of_seqZ. assert (Z.of_nat ACTION_ID_PREALLOC_LEN < MAX_ACTION_ID) by done. lia.
Qed.

Section Facts.
Context `{Chrono} `{DhtEnv} (now : DateTime).
Implicit Types (w : World) (t : RoutingTable) (n node : Node).

(** ** Searching the table *)

Lemma Buckets_next_total bs i : (1 <= length bs <= MAX_BUCKETS)%nat -> exists o, Buckets_next bs i = Ok o /\
  (forall b, o = Some (Sorted b) \/ o = Some (Assorted b) -> b ∈ bs).
Proof.
  intros Hl. unfold Buckets_next. destruct (Nat.ltb_spec MAX_BUCKETS i); [eexists; split; [done|]; by intros b [|]|].
  destruct (Nat.eqb_spec i MAX_BUCKETS).
  - destruct ((length bs =? MAX_BUCKETS)%nat || (length bs =? 0)%nat) eqn:E; [eexists; split; [done|]; by intros b [|]|].
    destruct (lookup_lt_is_Some_2 bs (length bs - 1)) as [b Hb]; [lia|]. rewrite Hb. eexists. split; [done|].
    intros b' [|[= <-]]; [done|]. by eapply list_elem_of_lookup_2.
  - destruct ((i + 1 <? length bs)%nat || (length bs =? MAX_BUCKETS)%nat) eqn:E; [|eexists; split; [done|]; by intros b [|]].
    destruct (lookup_lt_is_Some_2 bs i) as [b Hb].
    { apply orb_true_iff in E as [E%Nat.ltb_lt|E%Nat.eqb_eq]; lia. }
    rewrite Hb. eexists. split; [done|]. intros b' [[= <-]|]; [|done]. by eapply list_elem_of_lookup_2.
Qed.

Lemma buckets_skip_total bs k : forall i, (1 <= length bs <= MAX_BUCKETS)%nat -> exists o, buckets_skip_next bs i k = Ok o /\
  (forall b, o = Some (Sorted b) \/ o = Some (Assorted b) -> b ∈ bs).
Proof.
  induction k as [|k IH]; intros i Hl; cbn [buckets_skip_next]; [by apply Buckets_next_total|].
  destruct (Buckets_next_total bs i Hl) as ([c|] & -> & Hc); cbn [res_bind]; [by apply IH|].
  eexists. split; [done|]. by intros b [|].
Qed.

Lemma find_assorted_total bs fuel : forall i, (1 <= length bs <= MAX_BUCKETS)%nat -> (MAX_BUCKETS + 1 < fuel + i)%nat -> (0 < fuel)%nat ->
  exists o, buckets_find_assorted fuel bs i = Ok o /\ (forall b, o = Some (Sorted b) \/ o = Some (Assorted b) -> b ∈ bs).
Proof.
  induction fuel as [|fuel IH]; intros i Hl Hf Hpos; [lia|]. cbn [buckets_find_assorted].
  destruct (decide (MAX_BUCKETS < i)%nat) as [Hi|Hi].
  { unfold Buckets_next. destruct (Nat.ltb_spec MAX_BUCKETS i); [|lia]. eexists. split; [done|]. by intros b [|]. }
  destruct (Buckets_next_total bs i Hl) as (o & -> & Hc). cbn [res_bind].
  destruct o as [[| |b]|]; [apply IH; lia|apply IH; lia| |eexists; split; [done|]; by intros b [|]].
  eexists. split; [done|]. done.
Qed.

(** [find_node] finds a node of the table that can be pinged, or nothing. *)
Lemma find_node_total t n : table_ok t -> sha_ok (id n) -> exists o, RoutingTable_find_node now t n = Ok o /\
  forall m, o = Some m -> m ∈ table_nodes t /\ is_target now n m = true.
Proof.
  intros (Hid & Hl & Hb) Hn. unfold RoutingTable_find_node. rewrite leading_bit_count_id_prefix by done. cbn [res_bind].
  assert (Hfound : forall c, (forall b, Some c = Some (Sorted b) \/ Some c = Some (Assorted b) -> b ∈ buckets t) -> exists o,
    match Some c with Some (Sorted b) | Some (Assorted b) => Ok (List.find (fun m => node_eqb m n) (Bucket_pingable_nodes now b)) | _ => Ok None end = @Ok unit _ o /\
    forall m, o = Some m -> m ∈ table_nodes t /\ is_target now n m = true).
  { intros c Hc. assert (Hbk : forall b, b ∈ buckets t -> forall m, List.find (fun m => node_eqb m n) (Bucket_pingable_nodes now b) = Some m ->
      m ∈ table_nodes t /\ is_target now n m = true).
    { intros b Hb' m [Hm He]%find_some. apply filter_In in Hm as [Hm Hp]. split; [|unfold is_target; by rewrite Hp, He].
      apply elem_table_nodes. apply list_elem_of_lookup in Hb' as [i Hi]. exists i, b. split; [done|]. by apply list_elem_of_In. }
    destruct c as [|b|b]; (eexists; split; [reflexivity|]); [done| |]; intros m; apply Hbk, Hc; auto. }
  destruct (buckets_skip_total (buckets t) (id_prefix (table_id t) (id n)) 0 Hl) as ([c|] & -> & Hc); cbn [res_bind]; [by apply Hfound|].
  destruct (find_assorted_total (buckets t) (MAX_BUCKETS + 2) 0 Hl) as ([c|] & -> & Hc'); [lia|lia| |]; cbn [res_bind]; [by apply Hfound|].
  by eexists.
Qed.

(** [closest_nodes] yields each node of the table that can be pinged once. *)
Lemma closest_nodes_total t target : table_ok t -> sha_ok target -> exists l, closest_nodes now t target = Ok l /\
  l ≡ₚ List.filter (is_good_node now) (table_nodes t).
Proof. intros Ht Hg. destruct (closest_nodes_groups now t target Ht Hg) as (l & order & E & _ & Hp & _). by exists l. Qed.

(** ** Adding nodes *)

Definition table_all (P : Node -> Prop) t : Prop := forall n, n ∈ table_nodes t -> P n.

Lemma table_all_bucket P t : table_all P t <-> forall b, b ∈ buckets t -> Forall P (nodes b).
Proof.
  unfold table_all. setoid_rewrite elem_table_nodes. setoid_rewrite Forall_forall. split.
  - intros HP b [i Hi]%list_elem_of_lookup n Hn. apply HP. by exists i, b.
  - intros HP n (i & b & Hi & Hn). eapply HP; [by eapply list_elem_of_lookup_2|done].
Qed.

Lemma bucket_add_all (P : Node -> Prop) b n ok b' : Forall P (nodes b) -> P n -> Bucket_add_node now b n = Ok (ok, b') -> Forall P (nodes b').
Proof.
  intros Hb Hn. unfold Bucket_add_node. repeat (case_match; simplify_eq/=; try done); intros E; res_inv; repeat case_match; simplify_eq/=; try done;
    by apply Forall_insert.
Qed.

Lemma set_bucket_all P t i b : table_all P t -> Forall P (nodes b) -> table_all P (set_bucket t i b).
Proof.
  rewrite !table_all_bucket. intros Ht Hb c [j Hj]%list_elem_of_lookup. cbn in Hj.
  apply list_lookup_insert_Some in Hj as [(_ & <- & _)|[_ Hj]]; [done|]. eapply Ht, list_elem_of_lookup_2, Hj.
Qed.

(** Adding a node brings in no other node than that one and placeholders. *)
Lemma add_node_all (P : Node -> Prop) : P placeholder -> forall fuel,
  (forall t n t', table_all P t -> P n -> add_node fuel now t n = Ok t' -> table_all P t') /\
  (forall t n k t', table_all P t -> P n -> bucket_node fuel now t n k = Ok t' -> table_all P t') /\
  (forall t i ok t', table_all P t -> split_bucket fuel now t i = Ok (ok, t') -> table_all P t').
Proof.
  intros HP. induction fuel as [|fuel (IHa & IHb & IHs)]; [done|]. split; [|split].
  - intros t n t' Ht Hn. rewrite add_node_step. case_match; [by intros [= <-]|]. intros E. res_inv. case_match; [by eapply IHb|by simplify_eq].
  - intros t n k t' Ht Hn. rewrite bucket_node_step. cbv zeta. intros E. apply res_bind_Ok in E as (b & Eb & E).
    destruct (buckets t !! _) as [b0|] eqn:Eb0; [|done]. injection Eb as <-. apply res_bind_Ok in E as ([ok b'] & Ea & E).
    assert (Hb' : Forall P (nodes b')).
    { eapply bucket_add_all; [|done|exact Ea]. apply (proj1 (table_all_bucket P t) Ht), (list_elem_of_lookup_2 _ _ _ Eb0). }
    eapply set_bucket_all in Ht; [|exact Hb']. destruct ok; cbn [negb] in E; [by injection E as <-|].
    apply res_bind_Ok in E as ([ok t1] & Es & E). apply IHs in Es; [|exact Ht]. destruct ok; [exact (IHb _ _ _ _ Es Hn E)|by injection E as <-].
  - intros t i ok t' Ht E. cbn [split_bucket] in E. destruct (negb _); [by simplify_eq|]. destruct (last (buckets t)) as [b|] eqn:El; [|done].
    apply res_bind_Ok in E as (t1 & Ef & E). injection E as <- <-. rewrite table_all_bucket in Ht.
    apply last_Some_elem_of in El. apply Ht in El as Hb. clear i. revert Ef.
    match goal with |- foldl _ (Ok ?t0) _ = _ -> _ => assert (Hall0 : table_all P t0); [|revert Hall0; generalize t0] end.
    { apply table_all_bucket. intros c. cbn [buckets]. rewrite !elem_of_app, !list_elem_of_singleton. intros [Hc|[->| ->]].
      - apply Ht. apply list_elem_of_lookup in Hc as [j Hj]. apply lookup_take_Some in Hj as [Hj _]. by eapply list_elem_of_lookup_2.
      - by apply Forall_forall; intros n ->%bucket_new_nodes.
      - by apply Forall_forall; intros n ->%bucket_new_nodes. }
    clear El. induction (nodes b) as [|n l IH]; intros t0 Hall0 Ef; cbn [foldl] in Ef; [by injection Ef as <-|].
    apply Forall_cons in Hb as [Hn Hb]. cbn [res_bind] in Ef. destruct (add_node fuel now t0 n) as [t2| | |] eqn:Ea;
      [|rewrite foldl_res_stop in Ef by done; discriminate..]. eapply IH; [done| |exact Ef]. by eapply IHa.
Qed.

(** ** Marking nodes *)

(** A method of a node that changes neither its identity nor whether it ever answered. *)
Definition keeps_identity (f : Node -> Node) : Prop := forall n, node_key (f n) = node_key n /\ (last_response (f n) = None <-> last_response n = None).

Lemma local_request_keeps : keeps_identity (local_request now).
Proof. intros n. unfold local_request. by destruct (decide _). Qed.
Lemma remote_request_keeps : keeps_identity (remote_request now).
Proof. intros n. done. Qed.

Lemma touch_node_keeps f node m : keeps_identity f -> let m' := if is_target now node m then f m else m in
  node_key m' = node_key m /\ (live m' <-> live m).
Proof. intros Hf. cbn. destruct (is_target now node m); [|done]. destruct (Hf m) as [Hk Hl]. split; [done|]. unfold live. by rewrite Hl. Qed.

Lemma touch_bucket_ok P own f node b : keeps_identity f -> bucket_ok P own b ->
  bucket_ok P own (mkBucket (map (fun m => if is_target now node m then f m else m) (nodes b))).
Proof.
  intros Hf (Hl & Hn & Hk). split; [cbn; by rewrite length_map|]. cbn [nodes]. split.
  - intros m (m0 & -> & Hm)%list_elem_of_fmap. destruct (Hn _ Hm) as [Hs HP]. destruct (touch_node_keeps f node m0 Hf) as [Hkey Hlive].
    cbn in Hkey, Hlive. assert (Hid : id (if is_target now node m0 then f m0 else m0) = id m0) by (by injection Hkey).
    rewrite Hid. split; [done|]. intros ?%Hlive. by apply HP.
  - intros i j m m' Hi Hj Hm. apply list_lookup_fmap_Some in Hi as (mi & -> & Hi). apply list_lookup_fmap_Some in Hj as (mj & -> & Hj).
    rewrite (proj1 (touch_node_keeps f node mi Hf)) in Hm |- *. rewrite (proj1 (touch_node_keeps f node mj Hf)) in Hm. eauto.
Qed.

Lemma touch_table_ok f node t : keeps_identity f -> table_ok t -> table_ok (touch_table now f node t).
Proof.
  intros Hf (Hid & Hl & Hb). unfold touch_table. split; [done|]. cbn [buckets table_id]. rewrite length_map. split; [done|].
  intros i b Hi. apply list_lookup_fmap_Some in Hi as (b0 & -> & Hi). by apply touch_bucket_ok, Hb.
Qed.

Lemma touch_table_nodes f node t : table_nodes (touch_table now f node t) = map (fun m => if is_target now node m then f m else m) (table_nodes t).
Proof.
  unfold table_nodes, touch_table. cbn [buckets]. rewrite map_map. rewrite concat_map, map_map. done.
Qed.

(** A mark reaches exactly one node: a node of the table that can be pinged is the only
    such node with its id and address. *)
Lemma touch_one t i j p q m n : table_ok t -> slot t i p m -> slot t j q n -> node_key m <> node_key placeholder ->
  is_target now m m = true -> is_target now m n = true -> i = j /\ p = q.
Proof.
  intros Ht Hm Hn Hph [Hpm _]%andb_true_iff [Hpn Hk]%andb_true_iff.
  assert (Hlive : forall x, pingable_nodes_filter now x = true -> live x).
  { intros x Hx. apply (status_live now). unfold pingable_nodes_filter in Hx. intros E. rewrite E in Hx. done. }
  eapply (table_unique t i j p q m n); eauto. symmetry. by apply node_eqb_key.
Qed.

(** ** The calls *)

Lemma wp_send_out bytes a w (Q : bool -> World -> Prop) :
  (forall ok w', ok = out_open (w_calls w) -> w_table w' = w_table w -> w_effects w' = w_effects w ++ (if ok : bool then [OutMessage bytes a] else []) -> Q ok w') ->
  wp (send_out bytes a) w Q.
Proof.
  intros HQ. unfold send_out. apply dwp_bind, wp_outside. destruct (out_open (w_calls w)) eqn:E.
  - apply dwp_bind, wp_emit, dwp_ret. by apply HQ.
  - apply dwp_ret. apply HQ; [done|done|]. by rewrite app_nil_r.
Qed.

Lemma wp_timeout_ms data millis w (Q : option nat -> World -> Prop) :
  (forall o w', o = new_timer (w_calls w) -> w_table w' = w_table w -> w_effects w' = w_effects w ++ (match o with Some id => [TimerSet id data millis] | None => [] end) -> Q o w') ->
  wp (timeout_ms data millis) w Q.
Proof.
  intros HQ. unfold timeout_ms. apply dwp_bind, wp_outside. destruct (new_timer (w_calls w)) eqn:E.
  - apply dwp_bind, wp_emit, dwp_ret. by apply HQ.
  - apply dwp_ret. apply HQ; [done|done|]. by rewrite app_nil_r.
Qed.

Lemma wp_mid_generate aid g w (Q : TransactionID * MIDGenerator -> World -> Prop) : mid_ok aid g ->
  (forall (tid : TransactionID) g' w', tid_ok aid tid -> mid_ok aid g' -> w_table w' = w_table w -> w_effects w' = w_effects w -> Q (tid, g') w') ->
  wp (mid_generate g) w Q.
Proof.
  intros Hg HQ. unfold mid_generate. apply dwp_bind, wp_outside.
  destruct (mid_generate_total aid (shuffle_numbers (w_calls w)) g Hg) as (tid & g' & E & Ht & Hg'). eapply dwp_lift; [exact E|]. by apply HQ.
Qed.

(** ** The state between events *)

Definition v4_node (n : Node) : Prop := exists a, addr n = V4 a /\ sock_v4_ok a.

(** The table's invariant holds, for our id, and all its contacts have IPv4 addresses. *)
Definition world_ok (own : ShaHash) w : Prop :=
  table_ok (w_table w) /\ table_id (w_table w) = own /\ table_all v4_node (w_table w).

Lemma world_ok_table own w w' : w_table w' = w_table w -> world_ok own w -> world_ok own w'.
Proof. unfold world_ok. by intros ->. Qed.

Lemma placeholder_v4 : v4_node placeholder.
Proof. eexists. split; [reflexivity|]. vm_compute. intuition congruence. Qed.

Lemma touch_world own f node w : keeps_identity f -> world_ok own w ->
  world_ok own (mkWorld (touch_table now f node (w_table w)) (w_calls w) (w_effects w)).
Proof.
  intros Hf (Ht & Hid & Hv). split; [by apply touch_table_ok|]. split; [done|]. intros m. cbn [w_table]. rewrite touch_table_nodes.
  intros (m0 & -> & Hm)%list_elem_of_fmap. destruct (Hv m0 Hm) as (a & Ha & Hok). exists a. split; [|done].
  destruct (touch_node_keeps f node m0 Hf) as [Hk _]. cbn in Hk. assert (addr (if is_target now node m0 then f m0 else m0) = addr m0) by (by injection Hk). congruence.
Qed.

Lemma wp_touch own f node w (Q : unit -> World -> Prop) : keeps_identity f -> world_ok own w ->
  (forall w', world_ok own w' -> w_effects w' = w_effects w -> Q tt w') -> wp (touch now f node) w Q.
Proof. intros Hf Hw HQ. unfold touch. apply dwp_bind, wp_get_table, wp_put_table. apply HQ; [by apply touch_world|done]. Qed.

Lemma wp_touch_found own f node w (Q : unit -> World -> Prop) : keeps_identity f -> world_ok own w -> sha_ok (id node) ->
  (forall w', world_ok own w' -> w_effects w' = w_effects w -> Q tt w') -> wp (touch_found now f node) w Q.
Proof.
  intros Hf Hw Hn HQ. unfold touch_found. apply dwp_bind, wp_get_table, dwp_bind. pose proof Hw as (Ht & _).
  destruct (find_node_total (w_table w) node Ht Hn) as (o & E & Ho). eapply dwp_lift; [exact E|]. destruct o as [m|].
  - by eapply wp_touch.
  - apply dwp_ret. by apply HQ.
Qed.

Lemma wp_table_add_node own node w (Q : unit -> World -> Prop) : world_ok own w -> sha_ok (id node) -> v4_node node ->
  (forall w', world_ok own w' -> w_effects w' = w_effects w -> Q tt w') -> wp (table_add_node now node) w Q.
Proof.
  intros (Ht & Hid & Hall) Hn HP HQ. unfold table_add_node. apply dwp_bind, wp_get_table, dwp_bind.
  destruct (add_node_total now (w_table w) node Ht Hn) as (t' & E & Ha). eapply dwp_lift; [exact E|]. apply wp_put_table.
  assert (table_all v4_node t') by exact (proj1 (add_node_all v4_node placeholder_v4 TABLE_FUEL) _ _ _ Hall HP E).
  apply HQ; [|done]. destruct Ha as [[-> _]|(_ & _ & Hok & Hid' & _)]; split; try done. split; [cbn; congruence|done].
Qed.

(** The messages among the effects. *)
Definition out_messages (effects : list DhtEffect) : list (list Z * SocketAddr) :=
  omap (fun e => match e with OutMessage b a => Some (b, a) | _ => None end) effects.

Lemma out_messages_app e1 e2 : out_messages (e1 ++ e2) = out_messages e1 ++ out_messages e2.
Proof. apply omap_app. Qed.

Lemma broadcast_ok event notifiers : forall w (Q : list nat -> World -> Prop),
  (forall kept w', w_table w' = w_table w -> (exists evs, w_effects w' = w_effects w ++ evs /\
    evs = map (fun s => EventSent s event) kept) -> (forall s, s ∈ kept -> s ∈ notifiers) ->
    ((forall k s, sender_open k s = true) -> kept = notifiers) -> Q kept w') ->
  wp (broadcast_dht_event notifiers event) w Q.
Proof.
  induction notifiers as [|s notifiers IH]; intros w Q HQ; cbn [broadcast_dht_event].
  { apply dwp_ret, HQ; [done| |done|done]. exists []. by rewrite app_nil_r. }
  apply dwp_bind, wp_outside. destruct (sender_open (w_calls w) s) eqn:E.
  - apply dwp_bind, wp_emit, dwp_bind. apply IH. intros kept w' Ht (evs & He & ->) Hsub Hopen. cbn [w_table w_effects] in *. apply dwp_ret, HQ.
    + done.
    + eexists. split; [|done]. rewrite He, <- app_assoc. done.
    + intros s' [->|Hs]%elem_of_cons; [left|right; by apply Hsub].
    + intros Ho. by rewrite Hopen.
  - apply IH. intros kept w' Ht He Hsub Hopen. apply HQ; [done|done|intros s' Hs; right; by apply Hsub|]. intros Ho. by rewrite Ho in E.
Qed.

Lemma wp_shutdown_event_loop cause w (Q : unit -> World -> Prop) :
  (forall w', w_table w' = w_table w -> (exists evs, w_effects w' = w_effects w ++ evs /\ out_messages evs = []) -> Q tt w') ->
  wp (shutdown_event_loop cause) w Q.
Proof.
  intros HQ. unfold shutdown_event_loop. apply dwp_bind, wp_outside. destruct (loop_open _).
  - apply wp_emit, HQ; [done|]. by eexists.
  - apply dwp_ret, HQ; [done|]. exists []. by rewrite app_nil_r.
Qed.

End Facts.
