(* ===== verification/DhtLookup.v ===== *)
(** * DHT lookups

    Model of [dht/worker/lookup.rs]: a search for the peers of an info hash. It asks the
    good nodes of the routing table closest to the hash, follows closer nodes in their
    answers, and when no request is left asks every other node it has heard of (the
    endgame); at the end it announces itself to the closest nodes that gave a token. A
    node used as a key of a map or a set is its id and address, as its [Eq] and [Hash]. *)

From stdpp Require Import gmap.
From S2P Require Import Prelude RustStd BTree UtilSha UtilConvert Chrono DhtNode DhtTable DhtClosest UtilTrans DhtTransaction DhtCompact DhtMessage DhtWorker.

Definition LOOKUP_TIMEOUT_MS : Z := 1500.
Definition ENDGAME_TIMEOUT_MS : Z := 1500.
Definition INITIAL_PICK_NUM : nat := 4.
Definition ITERATIVE_PICK_NUM : nat := 3.
Definition ANNOUNCE_PICK_NUM : nat := 8.

(** [Ord] of [ShaHash]. *)
Definition sha_cmp (a b : ShaHash) : comparison := bytes_cmp (sha_bytes a) (sha_bytes b).
Definition sha_ltb (a b : ShaHash) : bool := bytes_ltb (sha_bytes a) (sha_bytes b).

Inductive LookupStatus : Type :=
| LkSearching
| LkValues (values : list SocketAddrV4)
| LkCompleted
| LkFailed.

#[export] Instance LookupStatus_eq_dec : EqDecision LookupStatus.
Proof. solve_decision. Defined.

Abbreviation NodeKey := (ShaHash * SocketAddr)%type.

Section Lookup.
Context `{Chrono} `{DhtEnv} `{BinarySearch} (now : DateTime).

(** A known node: its distance to the target, and whether it was asked. *)
Abbreviation sorted_entry := (ShaHash * Node * bool)%type.

Record TableLookup : Type := mkLookup {
  lk_table_id : ShaHash;
  lk_target_id : ShaHash;
  lk_in_endgame : bool;
  lk_recv_values : bool;
  lk_id_generator : MIDGenerator;
  lk_will_announce : bool;
  lk_active_lookups : gmap TransactionID (ShaHash * Timeout);
  lk_announce_tokens : gmap NodeKey (list Z);
  lk_requested_nodes : gset NodeKey;
  lk_all_sorted_nodes : list sorted_entry
}.

(** Field assignment. *)
Definition lk_set_endgame (v : bool) (l : TableLookup) : TableLookup :=
  mkLookup (lk_table_id l) (lk_target_id l) v (lk_recv_values l) (lk_id_generator l) (lk_will_announce l)
    (lk_active_lookups l) (lk_announce_tokens l) (lk_requested_nodes l) (lk_all_sorted_nodes l).
Definition lk_set_recv_values (v : bool) (l : TableLookup) : TableLookup :=
  mkLookup (lk_table_id l) (lk_target_id l) (lk_in_endgame l) v (lk_id_generator l) (lk_will_announce l)
    (lk_active_lookups l) (lk_announce_tokens l) (lk_requested_nodes l) (lk_all_sorted_nodes l).
Definition lk_set_generator (v : MIDGenerator) (l : TableLookup) : TableLookup :=
  mkLookup (lk_table_id l) (lk_target_id l) (lk_in_endgame l) (lk_recv_values l) v (lk_will_announce l)
    (lk_active_lookups l) (lk_announce_tokens l) (lk_requested_nodes l) (lk_all_sorted_nodes l).
Definition lk_set_active (v : gmap TransactionID (ShaHash * Timeout)) (l : TableLookup) : TableLookup :=
  mkLookup (lk_table_id l) (lk_target_id l) (lk_in_endgame l) (lk_recv_values l) (lk_id_generator l) (lk_will_announce l)
    v (lk_announce_tokens l) (lk_requested_nodes l) (lk_all_sorted_nodes l).
Definition lk_set_tokens (v : gmap NodeKey (list Z)) (l : TableLookup) : TableLookup :=
  mkLookup (lk_table_id l) (lk_target_id l) (lk_in_endgame l) (lk_recv_values l) (lk_id_generator l) (lk_will_announce l)
    (lk_active_lookups l) v (lk_requested_nodes l) (lk_all_sorted_nodes l).
Definition lk_set_requested (v : gset NodeKey) (l : TableLookup) : TableLookup :=
  mkLookup (lk_table_id l) (lk_target_id l) (lk_in_endgame l) (lk_recv_values l) (lk_id_generator l) (lk_will_announce l)
    (lk_active_lookups l) (lk_announce_tokens l) v (lk_all_sorted_nodes l).
Definition lk_set_sorted (v : list sorted_entry) (l : TableLookup) : TableLookup :=
  mkLookup (lk_table_id l) (lk_target_id l) (lk_in_endgame l) (lk_recv_values l) (lk_id_generator l) (lk_will_announce l)
    (lk_active_lookups l) (lk_announce_tokens l) (lk_requested_nodes l) v.

(** ** Lists of nodes *)

(** [Vec::insert]. *)
Definition vec_insert {A} (i : nat) (x : A) (l : list A) : res unit (list A) :=
  if (i <=? length l)%nat then Ok (take i l ++ x :: drop i l) else Panic.

Definition insert_sorted_node (l : list sorted_entry) (target : ShaHash) (node : Node) (pinged : bool) : res unit (list sorted_entry) :=
  let node_dist := ShaHash_bitxor target (id node) in
  match binary_search_by (fun '(dist, _, _) => sha_cmp dist node_dist) l with
  | inl dup_index =>
      let? (_, dup, _) := or_panic (l !! dup_index) in
      if negb (node_eqb dup node) then vec_insert dup_index (node_dist, node, pinged) l else Ok l
  | inr ins_index => vec_insert ins_index (node_dist, node, pinged) l
  end.

(** A slot of the arrays of picked nodes. *)
Definition unused_slot : Node * bool := (as_bad (mkShaHash (replicate NODE_ID_LEN 0)) default_route_v4, false).

Fixpoint insert_closest_nodes (slots : list (Node * bool)) (target_id : ShaHash) (new_node : Node) : list (Node * bool) :=
  match slots with
  | [] => []
  | (old_node, used) :: slots =>
      if negb used then (new_node, true) :: slots
      else if sha_ltb (ShaHash_bitxor target_id (id new_node)) (ShaHash_bitxor target_id (id old_node)) then (new_node, used) :: slots
      else (old_node, used) :: insert_closest_nodes slots target_id new_node
  end.

Definition pick_iterate_nodes (unsorted_nodes : list Node) (target_id : ShaHash) : list (Node * bool) :=
  foldl (fun slots node => insert_closest_nodes slots target_id node) (replicate ITERATIVE_PICK_NUM unused_slot) unsorted_nodes.

(** The array of picked nodes, and the list with the picked ones marked. *)
Definition pick_initial_nodes (sorted_nodes : list sorted_entry) : list (Node * bool) * list sorted_entry :=
  let picked := map (fun '(_, node, _) => (node, true)) (take INITIAL_PICK_NUM sorted_nodes) in
  (picked ++ drop (length picked) (replicate INITIAL_PICK_NUM unused_slot),
   map (fun '(dist, node, _) => (dist, node, true)) (take INITIAL_PICK_NUM sorted_nodes) ++ drop INITIAL_PICK_NUM sorted_nodes).

(** The used slots. *)
Definition picked_nodes (slots : list (Node * bool)) : list Node := map fst (List.filter snd slots).

(** ** Rounds of requests *)

Definition current_lookup_status (l : TableLookup) : LookupStatus :=
  if lk_in_endgame l || negb (bool_decide (lk_active_lookups l = ∅)) then LkSearching else LkCompleted.

Definition lookup_request (trans_id : TransactionID) (l : TableLookup) : list Z :=
  GetPeersRequest_encode (GetPeersRequest_new (trans_id_bytes trans_id) (lk_table_id l) (lk_target_id l)).

(** The loop of [start_request_round] with the messages sent so far. *)
Fixpoint request_loop (todo : list (Node * ShaHash)) (messages_sent : nat) (l : TableLookup) : W (LookupStatus * TableLookup) :=
  match todo with
  | [] =>
      if (messages_sent =? 0)%nat then wret (LkCompleted, lk_set_active ∅ l) else wret (LkSearching, l)
  | (node, dist_to_beat) :: todo =>
      let! (trans_id, g) := mid_generate (lk_id_generator l) in
      let l := lk_set_generator g l in
      let! res_timeout := timeout_ms (0, CheckLookupTimeout trans_id) LOOKUP_TIMEOUT_MS in
      match res_timeout with
      | None => wret (LkFailed, l)
      | Some timeout =>
          let l := lk_set_active (<[trans_id := (dist_to_beat, timeout)]> (lk_active_lookups l)) l in
          let! sent := send_out (lookup_request trans_id l) (addr node) in
          if sent : bool then
            let l := lk_set_requested ({[node_key node]} ∪ lk_requested_nodes l) l in
            let! _ := touch_found now (local_request now) node in
            request_loop todo (messages_sent + 1) l
          else wret (LkFailed, l)
      end
  end.
Definition start_request_round (todo : list (Node * ShaHash)) (l : TableLookup) : W (LookupStatus * TableLookup) :=
  request_loop todo 0 l.

(** The loop of [start_endgame_round]: the entries done and those to do. *)
Fixpoint endgame_loop (timeout : Timeout) (done todo : list sorted_entry) (l : TableLookup) : W (LookupStatus * TableLookup) :=
  match todo with
  | [] => wret (LkSearching, lk_set_sorted done l)
  | (node_dist, node, req) :: todo =>
      if req : bool then endgame_loop timeout (done ++ [(node_dist, node, req)]) todo l
      else
        let! (trans_id, g) := mid_generate (lk_id_generator l) in
        let l := lk_set_generator g l in
        let l := lk_set_active (<[trans_id := (node_dist, timeout)]> (lk_active_lookups l)) l in
        let! sent := send_out (lookup_request trans_id l) (addr node) in
        if sent : bool then
          let! _ := touch_found now (local_request now) node in
          endgame_loop timeout (done ++ [(node_dist, node, true)]) todo l
        else wret (LkFailed, lk_set_sorted (done ++ (node_dist, node, req) :: todo) l)
  end.

Definition start_endgame_round (l : TableLookup) : W (LookupStatus * TableLookup) :=
  let l := lk_set_endgame true l in
  let! (trans_id, g) := mid_generate (lk_id_generator l) in
  let l := lk_set_generator g l in
  let! res_timeout := timeout_ms (0, CheckLookupEndGame trans_id) ENDGAME_TIMEOUT_MS in
  match res_timeout with
  | None => wret (LkFailed, l)
  | Some timeout =>
      if negb (lk_recv_values l) then endgame_loop timeout [] (lk_all_sorted_nodes l) l
      else wret (LkSearching, l)
  end.

(** ** The lookup *)

(** The loop over the table's nodes in [new]. *)
Fixpoint insert_all (target : ShaHash) (todo : list (Node * bool)) (l : list sorted_entry) : res unit (list sorted_entry) :=
  match todo with
  | [] => Ok l
  | (node, pinged) :: todo =>
      let? l := insert_sorted_node l target node pinged in
      insert_all target todo l
  end.

Definition TableLookup_new (table_id target_id : ShaHash) (id_generator : MIDGenerator) (will_announce : bool) : W (option TableLookup) :=
  let! t := get_table in
  let! closest := wlift (closest_nodes now t target_id) in
  let start := take MAX_BUCKET_SIZE (List.filter (fun n => bool_decide (status now n = Good)) closest) in
  let! all_sorted_nodes := wlift (insert_all target_id (map (fun n => (n, false)) start) []) in
  let '(initial_pick_nodes, all_sorted_nodes) := pick_initial_nodes all_sorted_nodes in
  let initial_pick_nodes_filtered := map (fun n => (n, ShaHash_bitxor (id n) target_id)) (picked_nodes initial_pick_nodes) in
  let table_lookup := mkLookup table_id target_id false false id_generator will_announce ∅ ∅ ∅ all_sorted_nodes in
  let! (status, table_lookup) := start_request_round initial_pick_nodes_filtered table_lookup in
  match status with
  | LkFailed => wret None
  | _ => wret (Some table_lookup)
  end.

(** The nodes of a response, as [Node::as_questionable] makes them. *)
Fixpoint questionable_nodes (infos : list (ShaHash * SocketAddrV4)) : res unit (list Node) :=
  match infos with
  | [] => Ok []
  | (i, v4_addr) :: infos =>
      let? node := as_questionable now i (V4 v4_addr) in
      let? rest := questionable_nodes infos in
      Ok (node :: rest)
  end.

Definition closest_distance (target_id dist_to_beat : ShaHash) (l : list Node) : ShaHash :=
  foldl (fun closest n => let distance := ShaHash_bitxor target_id (id n) in if sha_ltb distance closest then distance else closest) dist_to_beat l.

(** What a response with nodes adds to the known nodes: those to ask next, if one of
    them beats the distance, and the new distance. *)
Definition take_nodes (dist_to_beat : ShaHash) (infos : CompactNodeInfo) (l : TableLookup) : W (option (list Node) * ShaHash * TableLookup) :=
  let! infos := wlift (collect_nodes infos) in
  let! found := wlift (questionable_nodes infos) in
  let unrequested := List.filter (fun n => negb (bool_decide (node_key n ∈ lk_requested_nodes l))) found in
  let next_dist_to_beat := closest_distance (lk_target_id l) dist_to_beat unrequested in
  if sha_ltb next_dist_to_beat dist_to_beat then
    let iterate_nodes := pick_iterate_nodes unrequested (lk_target_id l) in
    let will_ping node := existsb (fun '(n, _) => node_eqb n node) iterate_nodes in
    let! sorted := wlift (insert_all (lk_target_id l) (map (fun n => (n, will_ping n)) found) (lk_all_sorted_nodes l)) in
    wret (Some (picked_nodes iterate_nodes), next_dist_to_beat, lk_set_sorted sorted l)
  else
    let! sorted := wlift (insert_all (lk_target_id l) (map (fun n => (n, false)) found) (lk_all_sorted_nodes l)) in
    wret (None, next_dist_to_beat, lk_set_sorted sorted l).

(** The end of [recv_response] and [recv_timeout]: the endgame starts when no request
    is left; [status] is what is returned then. *)
Definition endgame_if_idle (status : TableLookup -> LookupStatus) (l : TableLookup) : W (LookupStatus * TableLookup) :=
  if bool_decide (lk_active_lookups l = ∅) then
    let! (round, l) := start_endgame_round l in
    match round with
    | LkFailed => wret (LkFailed, l)
    | _ => wret (status l, l)
    end
  else wret (status l, l).

Definition recv_response (node : Node) (trans_id : TransactionID) (msg : GetPeersResponse) (l : TableLookup) : W (LookupStatus * TableLookup) :=
  match lk_active_lookups l !! trans_id with
  | None => wret (current_lookup_status l, l)
  | Some (dist_to_beat, timeout) =>
      let l := lk_set_active (delete trans_id (lk_active_lookups l)) l in
      let! _ := if negb (lk_in_endgame l) then clear_timeout timeout else wret tt in
      let l := match grs_token msg with
        | Some token => lk_set_tokens (<[node_key node := token]> (lk_announce_tokens l)) l
        | None => l
        end in
      let! (opt_values, opt_nodes, l) :=
        match grs_info_type msg with
        | Nodes n => wret (None, Some n, l)
        | Values v => let! values := wlift (collect_values v) in wret (Some values, None, lk_set_recv_values true l)
        | Both n v => let! values := wlift (collect_values v) in wret (Some values, Some n, l)
        end in
      let! (iterate_nodes, next_dist_to_beat, l) :=
        match opt_nodes with
        | Some infos => take_nodes dist_to_beat infos l
        | None => wret (None, dist_to_beat, l)
        end in
      let status l := match opt_values with Some values => LkValues values | None => current_lookup_status l end in
      if negb (lk_in_endgame l) then
        let! (round, l) :=
          match iterate_nodes with
          | Some picked => start_request_round (map (fun n => (n, next_dist_to_beat)) picked) l
          | None => wret (LkSearching, l)
          end in
        match round with
        | LkFailed => wret (LkFailed, l)
        | _ => endgame_if_idle status l
        end
      else wret (status l, l)
  end.

Definition recv_timeout (trans_id : TransactionID) (l : TableLookup) : W (LookupStatus * TableLookup) :=
  match lk_active_lookups l !! trans_id with
  | None => wret (current_lookup_status l, l)
  | Some _ =>
      let l := lk_set_active (delete trans_id (lk_active_lookups l)) l in
      if negb (lk_in_endgame l) then endgame_if_idle current_lookup_status l
      else wret (current_lookup_status l, l)
  end.

(** The announcements of [recv_finished], to nodes whose token is known. *)
Fixpoint announce_loop (handshake_port : Z) (todo : list Node) (fatal_error : bool) (l : TableLookup) : W (bool * TableLookup) :=
  match todo with
  | [] => wret (fatal_error, l)
  | node :: todo =>
      let! (trans_id, g) := mid_generate (lk_id_generator l) in
      let l := lk_set_generator g l in
      let! token := wlift (or_panic (lk_announce_tokens l !! node_key node)) in
      let announce_peer_msg := AnnouncePeerRequest_encode (AnnouncePeerRequest_new (trans_id_bytes trans_id)
        (lk_table_id l) (lk_target_id l) token (Explicit handshake_port)) in
      let! sent := send_out announce_peer_msg (addr node) in
      let fatal_error := fatal_error || negb sent in
      let! _ := if negb fatal_error then touch_found now (local_request now) node else wret tt in
      announce_loop handshake_port todo fatal_error l
  end.

Definition announce_nodes (l : TableLookup) : list Node :=
  take ANNOUNCE_PICK_NUM (List.filter (fun n => bool_decide (is_Some (lk_announce_tokens l !! node_key n)))
    (map (fun '(_, n, _) => n) (lk_all_sorted_nodes l))).

Definition recv_finished (handshake_port : Z) (l : TableLookup) : W (LookupStatus * TableLookup) :=
  let! (fatal_error, l) := if lk_will_announce l then announce_loop handshake_port (announce_nodes l) false l else wret (false, l) in
  let l := lk_set_endgame false (lk_set_active ∅ l) in
  if fatal_error : bool then wret (LkFailed, l) else wret (current_lookup_status l, l).

End Lookup.
