(* ===== verification/DhtLookupSpec.v ===== *)
(** * DHT lookups: lemmas

    The lists of nodes a lookup keeps, the rounds of requests and the three events, each
    with its total correctness: what it leaves in the lookup, in the routing table and in
    the list of effects. *)

From stdpp Require Import gmap sorting.
From Stdlib Require Import Sorted.
From S2P Require Import Prelude RustStd BTree UtilSha UtilConvert Chrono DhtNode DhtTable DhtTableSpec DhtClosest DhtClosestSpec UtilTrans DhtTransaction DhtCompact DhtMessage DhtWorker DhtLookup.

(** ** The order of distances *)

Definition sha_le (a b : ShaHash) : Prop := ~ bytes_lt (sha_bytes b) (sha_bytes a).

Lemma sha_cmp_Lt a b : sha_cmp a b = Lt <-> bytes_lt (sha_bytes a) (sha_bytes b).
Proof. done. Qed.
Lemma sha_cmp_Eq a b : sha_cmp a b = Eq <-> a = b.
Proof. unfold sha_cmp. rewrite bytes_cmp_eq. destruct a, b; cbn. split; [by intros ->|by intros [= ->]]. Qed.
Lemma sha_cmp_Gt a b : sha_cmp a b = Gt <-> bytes_lt (sha_bytes b) (sha_bytes a).
Proof. split; [apply bytes_cmp_Gt|apply bytes_lt_asym]. Qed.

Lemma sha_ltb_spec a b : sha_ltb a b = true <-> bytes_lt (sha_bytes a) (sha_bytes b).
Proof. unfold sha_ltb. destruct (bytes_ltb_spec (sha_bytes a) (sha_bytes b)); split; done. Qed.

Lemma sha_lt_le a b : bytes_lt (sha_bytes a) (sha_bytes b) -> sha_le a b.
Proof. intros Hl Hg. eapply bytes_lt_irrefl, bytes_lt_trans; eauto. Qed.

Lemma sha_le_refl a : sha_le a a.
Proof. apply bytes_lt_irrefl. Qed.

Lemma sha_le_cases a b : sha_le a b -> a = b \/ bytes_lt (sha_bytes a) (sha_bytes b).
Proof.
  intros Hle. destruct (sha_cmp a b) eqn:E; [left; by apply sha_cmp_Eq|by right|]. apply sha_cmp_Gt in E. by destruct Hle.
Qed.

#[export] Instance sha_le_preorder : PreOrder sha_le.
Proof.
  split; [exact sha_le_refl|]. intros a b c [->|Hab]%sha_le_cases [->|Hbc]%sha_le_cases; [apply sha_le_refl|by apply sha_lt_le..|].
  by eapply sha_lt_le, bytes_lt_trans.
Qed.

(** ** The sorted list of known nodes *)

Section Sorted.
Context `{Chrono}.
Abbreviation sorted_entry := (ShaHash * Node * bool)%type.

Definition entry_dist (e : sorted_entry) : ShaHash := e.1.1.
Definition entry_node (e : sorted_entry) : Node := e.1.2.

Definition known_ok (target : ShaHash) (e : sorted_entry) : Prop :=
  entry_dist e = ShaHash_bitxor target (id (entry_node e)) /\ sha_ok (id (entry_node e)).

Definition sorted_ok (target : ShaHash) (l : list sorted_entry) : Prop :=
  StronglySorted (fun a b => sha_le (entry_dist a) (entry_dist b)) l /\ Forall (known_ok target) l.

Lemma sorted_partitioned d (l : list sorted_entry) : StronglySorted (fun a b => sha_le (entry_dist a) (entry_dist b)) l ->
  partitioned (fun '(dist, _, _) => sha_cmp dist d) l.
Proof.
  unfold partitioned. induction 1 as [|e l Hl IH He]; constructor; [done|]. revert He. rewrite !Forall_forall. intros He e' He'.
  specialize (He e' He'). destruct e as [[x n] b], e' as [[y m] c]. cbn in *. apply sha_le_cases in He as [->|Hlt]; [done|].
  destruct (sha_cmp y d) eqn:Ey; cbn; [apply sha_cmp_Eq in Ey as ->; assert (sha_cmp x d = Lt) as -> by done; cbn; lia| |by destruct (sha_cmp x d); cbn; lia].
  assert (sha_cmp x d = Lt) as -> by (by eapply bytes_lt_trans). done.
Qed.

Lemma sorted_insert target (e : sorted_entry) i l : sorted_ok target l -> known_ok target e -> (i <= length l)%nat ->
  Forall (fun x => sha_le (entry_dist x) (entry_dist e)) (take i l) -> Forall (fun x => sha_le (entry_dist e) (entry_dist x)) (drop i l) ->
  sorted_ok target (take i l ++ e :: drop i l).
Proof.
  intros [Hs Hf] He Hi Hb Ha. rewrite <- (take_drop i l) in Hs, Hf. apply StronglySorted_app in Hs as (Hx & H1 & H2).
  split; [|apply Forall_app in Hf as [? ?]; apply Forall_app; split; [done|]; by constructor].
  apply StronglySorted_app. split; [|split; [done|by constructor]].
  intros x1 x2 Hx1 [->|Hx2]%elem_of_cons; [by eapply Forall_forall in Hb|by apply Hx].
Qed.

(** In a sorted list, what stands before an element is not farther and what stands after
    it is not closer. *)
Lemma sorted_around (l : list sorted_entry) i e : StronglySorted (fun a b => sha_le (entry_dist a) (entry_dist b)) l -> l !! i = Some e ->
  Forall (fun x => sha_le (entry_dist x) (entry_dist e)) (take i l) /\ Forall (fun x => sha_le (entry_dist e) (entry_dist x)) (drop i l).
Proof.
  intros Hs He. rewrite <- (take_drop i l) in Hs. rewrite (lookup_drop_cons _ _ _ He) in Hs |- *. apply StronglySorted_app in Hs as (Hx & _ & H2).
  inversion H2 as [|? ? _ Hf]; subst. split; [apply Forall_forall; intros x Hxx; apply Hx; [done|by left]|]. constructor; [apply sha_le_refl|done].
Qed.

Context `{BinarySearch}.

(** The list stays sorted, and has the node afterwards. *)
Lemma insert_sorted_node_ok target node pinged l : sorted_ok target l -> sha_ok (id node) ->
  exists l', insert_sorted_node l target node pinged = Ok l' /\ sorted_ok target l' /\
    ((l' = l /\ node_key node ∈ map (fun e => node_key (entry_node e)) l) \/ l' ≡ₚ (ShaHash_bitxor target (id node), node, pinged) :: l).
Proof.
  intros Hl Hn. pose proof Hl as [Hs Hf]. set (d := ShaHash_bitxor target (id node)). unfold insert_sorted_node. fold d.
  assert (He : known_ok target (d, node, pinged)) by (split; done).
  assert (Hperm : forall i, take i l ++ (d, node, pinged) :: drop i l ≡ₚ (d, node, pinged) :: l).
  { intros i. rewrite <- Permutation_middle. by rewrite take_drop. }
  pose proof (sorted_partitioned d l Hs) as Hpart. destruct (binary_search_by _ l) as [i|i] eqn:Eb.
  - apply binary_search_found in Eb as ([[dist dup] b] & Ei & Ec); [|done]. cbn in Ec. apply sha_cmp_Eq in Ec as ->. rewrite Ei. cbn [or_panic res_bind].
    destruct (node_eqb dup node) eqn:Eq; cbn [negb].
    + exists l. split; [done|]. split; [done|]. left. split; [done|]. apply node_eqb_key in Eq. rewrite <- Eq.
      change dup with (entry_node (d, dup, b)). apply (list_elem_of_fmap_2 (fun e => node_key (entry_node e))). by eapply list_elem_of_lookup_2.
    + assert (Hi : (i <= length l)%nat) by (apply lookup_lt_Some in Ei; lia). unfold vec_insert. destruct (Nat.leb_spec i (length l)); [|lia].
      eexists. split; [done|]. destruct (sorted_around l i _ Hs Ei) as [Hlo Hhi]. split; [by apply sorted_insert|]. by right.
  - apply binary_search_absent in Eb as (Hi & Hlo & Hhi); [|done]. unfold vec_insert. destruct (Nat.leb_spec i (length l)); [|lia].
    eexists. split; [done|]. split; [|by right]. apply sorted_insert; [done..| |]; eapply Forall_impl; [exact Hlo| |exact Hhi|];
      intros [[x m] c]; cbn; intros E; apply sha_lt_le; [done|by apply sha_cmp_Gt].
Qed.

Lemma insert_all_ok target todo : forall l, sorted_ok target l -> Forall (fun '(n, _) => sha_ok (id n)) todo ->
  exists l', insert_all target todo l = Ok l' /\ sorted_ok target l' /\
    (forall e, e ∈ l' -> e ∈ l \/ (entry_node e, e.2) ∈ todo) /\
    (forall n, n ∈ l -> n ∈ l') /\ (forall n, n ∈ map (fun p => node_key p.1) todo -> n ∈ map (fun e => node_key (entry_node e)) l').
Proof.
  induction todo as [|[n p] todo IH]; intros l Hl Ht; cbn [insert_all].
  { exists l. split; [done|]. split; [done|]. split; [by left|]. split; [done|]. by intros n ?%elem_of_nil. }
  apply Forall_cons in Ht as [Hn Ht]. destruct (insert_sorted_node_ok target n p l Hl Hn) as (l1 & E & Hl1 & Hin). rewrite E. cbn [res_bind].
  destruct (IH l1 Hl1 Ht) as (l' & E' & Hl' & Hfrom & Hmono & Hto). exists l'. split; [done|]. split; [done|].
  assert (Hsub : forall e, e ∈ l -> e ∈ l1) by (destruct Hin as [[-> _]|Hp]; [done|]; intros e; rewrite Hp; by right).
  split; [|split; [by auto|]].
  - intros e [He|He]%Hfrom; [|right; by right]. destruct Hin as [[-> _]|Hp]; [by left|]. rewrite Hp in He.
    apply elem_of_cons in He as [->|He]; [right; left|by left].
  - intros k. cbn [map fst]. intros [->|Hk]%elem_of_cons; [|by apply Hto].
    assert (Hk1 : node_key n ∈ map (fun e => node_key (entry_node e)) l1).
    { destruct Hin as [[-> Hk]|Hp]; [done|]. apply list_elem_of_fmap. eexists (_, n, p). split; [done|]. rewrite Hp. left. }
    apply list_elem_of_fmap in Hk1 as (e & -> & He). apply (list_elem_of_fmap_2 (fun e => node_key (entry_node e))). by apply Hmono.
Qed.

(** ** Picking nodes *)

(** The closest node of a list, and those that were no closer than one before them. *)
Definition pick_dist (target : ShaHash) (n : Node) : ShaHash := ShaHash_bitxor target (id n).
Definition closest_of (target : ShaHash) (c : Node) (l : list Node) : Node :=
  foldl (fun c n => if sha_ltb (pick_dist target n) (pick_dist target c) then n else c) c l.
Fixpoint passed_on (target : ShaHash) (c : Node) (l : list Node) : list Node :=
  match l with
  | [] => []
  | n :: l => if sha_ltb (pick_dist target n) (pick_dist target c) then passed_on target n l else n :: passed_on target c l
  end.

(** What the slots hold: the first one the closest node of all, the second one the
    closest of those that were no closer than a node before them, and so on. *)
Fixpoint pick_reference (k : nat) (target : ShaHash) (l : list Node) : list Node :=
  match k, l with
  | S k, n :: l => closest_of target n l :: pick_reference k target (passed_on target n l)
  | _, _ => []
  end.

Lemma insert_closest_used target l : forall c slots,
  foldl (fun s n => insert_closest_nodes s target n) ((c, true) :: slots) l =
  (closest_of target c l, true) :: foldl (fun s n => insert_closest_nodes s target n) slots (passed_on target c l).
Proof.
  induction l as [|n l IH]; intros c slots; [done|]. cbn [foldl insert_closest_nodes negb closest_of passed_on]. fold (pick_dist target n) (pick_dist target c).
  destruct (sha_ltb (pick_dist target n) (pick_dist target c)); by rewrite IH.
Qed.

Lemma insert_closest_all target k : forall l,
  foldl (fun s n => insert_closest_nodes s target n) (replicate k unused_slot) l =
  map (fun n => (n, true)) (pick_reference k target l) ++ replicate (k - length (pick_reference k target l)) unused_slot.
Proof.
  induction k as [|k IH]; intros l.
  { cbn. by induction l. }
  destruct l as [|n l]; [done|]. cbn [replicate foldl insert_closest_nodes unused_slot negb]. rewrite insert_closest_used, IH. done.
Qed.

Lemma picked_used (l : list Node) k : picked_nodes (map (fun n => (n, true)) l ++ replicate k unused_slot) = l.
Proof.
  unfold picked_nodes. rewrite List.filter_app. rewrite map_app.
  assert (List.filter snd (replicate k (unused_slot (H := H))) = []) as -> by (by induction k). rewrite app_nil_r.
  induction l as [|n l IH]; [done|]. cbn. by rewrite IH.
Qed.

Lemma pick_iterate_reference target l : picked_nodes (pick_iterate_nodes l target) = pick_reference 3 target l.
Proof. unfold pick_iterate_nodes. rewrite insert_closest_all. apply picked_used. Qed.

Lemma closest_of_elem target l : forall c, closest_of target c l ∈ c :: l /\
  forall n, n ∈ c :: l -> sha_le (pick_dist target (closest_of target c l)) (pick_dist target n).
Proof.
  induction l as [|m l IH]; intros c.
  { split; [left|]. intros n ->%list_elem_of_singleton. apply sha_le_refl. }
  cbn [closest_of foldl]. fold (closest_of target (if sha_ltb (pick_dist target m) (pick_dist target c) then m else c) l).
  destruct (sha_ltb (pick_dist target m) (pick_dist target c)) eqn:E.
  - apply sha_ltb_spec in E. destruct (IH m) as [Hin Hle]. split; [by right|]. intros n [->|Hn]%elem_of_cons; [|by apply Hle].
    transitivity (pick_dist target m); [apply Hle; left|by apply sha_lt_le].
  - destruct (IH c) as [Hin Hle]. split; [rewrite elem_of_cons in Hin |- *; rewrite elem_of_cons; tauto|].
    intros n [->|[->|Hn]%elem_of_cons]%elem_of_cons; [apply Hle; left| |apply Hle; by right].
    transitivity (pick_dist target c); [apply Hle; left|]. intros Hlt. apply sha_ltb_spec in Hlt. congruence.
Qed.

Lemma passed_on_sub target l : forall c n, n ∈ passed_on target c l -> n ∈ l.
Proof.
  induction l as [|m l IH]; intros c n; [done|]. cbn [passed_on]. destruct (sha_ltb _ _); [intros ?%IH; by right|].
  intros [->|Hn]%elem_of_cons; [left|right; by eapply IH].
Qed.

Lemma pick_reference_elem target k : forall l n, n ∈ pick_reference k target l -> n ∈ l.
Proof.
  induction k as [|k IH]; intros [|m l] n; try (by intros ?%elem_of_nil). cbn [pick_reference].
  intros [->|Hn]%elem_of_cons; [apply closest_of_elem|]. right. by eapply passed_on_sub, IH.
Qed.

Lemma pick_reference_length target k : forall l, (length (pick_reference k target l) <= k)%nat.
Proof. induction k as [|k IH]; intros [|m l]; cbn; [lia..|]. specialize (IH (passed_on target m l)). lia. Qed.

Lemma closest_distance_spec target l : forall d, sha_le (closest_distance target d l) d /\
  (closest_distance target d l = d \/ exists n, n ∈ l /\ closest_distance target d l = pick_dist target n) /\
  forall n, n ∈ l -> sha_le (closest_distance target d l) (pick_dist target n).
Proof.
  induction l as [|m l IH]; intros d; [split; [apply sha_le_refl|]; split; [by left|by intros n ?%elem_of_nil]|].
  cbn [closest_distance foldl]. fold (pick_dist target m).
  fold (closest_distance target (if sha_ltb (pick_dist target m) d then pick_dist target m else d) l).
  destruct (sha_ltb (pick_dist target m) d) eqn:E.
  - destruct (IH (pick_dist target m)) as (Hlo & Hhi & Hall). apply sha_ltb_spec in E. split; [by etransitivity; [exact Hlo|apply sha_lt_le]|].
    split; [right; destruct Hhi as [->|(n & Hn & ->)]; [exists m; split; [left|done]|exists n; split; [by right|done]]|].
    intros n [->|Hn]%elem_of_cons; [done|by apply Hall].
  - destruct (IH d) as (Hlo & Hhi & Hall). split; [done|]. split; [destruct Hhi as [->|(n & Hn & ->)]; [by left|right; exists n; split; [by right|done]]|].
    intros n [->|Hn]%elem_of_cons; [|by apply Hall]. etransitivity; [exact Hlo|]. intros Hlt. apply sha_ltb_spec in Hlt. congruence.
Qed.
End Sorted.

(** * DHT lookups: properties

    The total correctness of every operation of [DhtLookup] with what it sends, the
    nodes it picks, and the completion of a lookup nobody answers. *)

Section Lookup.
Context {C : Chrono} {Env : DhtEnv} {BS : BinarySearch} (now : DateTime).
Implicit Types (l : TableLookup) (w : World).

Definition lookup_ok (aid : Z) l : Prop :=
  sha_ok (lk_table_id l) /\ sha_ok (lk_target_id l) /\ mid_ok aid (lk_id_generator l) /\
  sorted_ok (lk_target_id l) (lk_all_sorted_nodes l) /\ map_Forall (fun t _ => tid_ok aid t) (lk_active_lookups l).

(** Every call to the outside succeeds. *)
Definition reliable : Prop := (forall n, out_open n = true) /\ (forall n, is_Some (new_timer n)).

(** The effects of an operation from [w] to [w'] send the messages [sent]. *)
Definition sends w w' (sent : list (list Z * SocketAddr)) : Prop :=
  exists evs, w_effects w' = w_effects w ++ evs /\ out_messages evs = sent.

Lemma sends_refl w w' : w_effects w' = w_effects w -> sends w w' [].
Proof. intros E. exists []. by rewrite app_nil_r. Qed.

Lemma sends_trans w1 w2 w3 s1 s2 : sends w1 w2 s1 -> sends w2 w3 s2 -> sends w1 w3 (s1 ++ s2).
Proof. intros (e1 & E1 & <-) (e2 & E2 & <-). exists (e1 ++ e2). by rewrite E2, E1, out_messages_app, app_assoc. Qed.

(** The fields the rounds of requests leave alone. *)
Definition lk_rest l := (lk_table_id l, lk_target_id l, lk_recv_values l, lk_will_announce l, lk_announce_tokens l).

(** A message to each of [addrs] that carries a request of the lookup. *)
Definition requests l (aid : Z) (sent : list (list Z * SocketAddr)) (addrs : list SocketAddr) : Prop :=
  Forall2 (fun m a => exists t, tid_ok aid t /\ m = (lookup_request t l, a)) sent addrs.

Lemma lookup_request_rest l l' t : lk_rest l' = lk_rest l -> lookup_request t l' = lookup_request t l.
Proof. unfold lk_rest. intros [= E1 E2 _ _ _]. unfold lookup_request. by rewrite E1, E2. Qed.

Lemma requests_rest l l' aid sent addrs : lk_rest l' = lk_rest l -> requests l' aid sent addrs -> requests l aid sent addrs.
Proof.
  intros Hr. unfold requests. induction 1 as [|m a sent addrs (t & Ht & ->) _ IH]; constructor; [|done].
  exists t. by rewrite (lookup_request_rest _ _ _ Hr).
Qed.

Definition not_values (s : LookupStatus) : Prop := match s with LkValues _ => False | _ => True end.

(** A timer was set that lets the lookup give up on a request, or end. *)
Definition request_timer w (tid : TransactionID) : Prop :=
  exists timer, TimerSet timer (0, CheckLookupTimeout tid) LOOKUP_TIMEOUT_MS ∈ w_effects w.
Definition endgame_timer (aid : Z) w : Prop :=
  exists timer tid, tid_ok aid tid /\ TimerSet timer (0, CheckLookupEndGame tid) ENDGAME_TIMEOUT_MS ∈ w_effects w.

Lemma request_timer_mono w w' tid sent : sends w w' sent -> request_timer w tid -> request_timer w' tid.
Proof. intros (evs & E & _) [timer Ht]. exists timer. rewrite E. apply elem_of_app. by left. Qed.

(** What a round of requests to the nodes [todo] leaves, [k] messages after its start. *)
Record round_post (own : ShaHash) (aid : Z) (todo : list (Node * ShaHash)) (k : nat) l w (st : LookupStatus) l' w' : Prop := {
  rp_lookup : lookup_ok aid l';
  rp_world : world_ok own w';
  rp_rest : lk_rest l' = lk_rest l /\ lk_in_endgame l' = lk_in_endgame l /\ lk_all_sorted_nodes l' = lk_all_sorted_nodes l;
  rp_sent : exists sent, sends w w' sent /\ requests l aid sent (take (length sent) (map (fun p => addr p.1) todo)) /\
    (length sent <= length todo)%nat /\ (st <> LkFailed -> length sent = length todo);
  rp_reliable : reliable -> st <> LkFailed;
  rp_status : st = LkFailed \/ st = if (k + length todo =? 0)%nat then LkCompleted else LkSearching;
  rp_active : st <> LkFailed -> todo <> [] -> lk_active_lookups l' <> ∅;
  rp_idle : st <> LkFailed -> todo = [] -> k <> 0%nat -> lk_active_lookups l' = lk_active_lookups l;
  rp_timed : st <> LkFailed -> forall tid, is_Some (lk_active_lookups l' !! tid) -> is_Some (lk_active_lookups l !! tid) \/ request_timer w' tid
}.

Lemma round_done own aid k l w : lookup_ok aid l -> world_ok own w ->
  round_post own aid [] k l w (if (k =? 0)%nat then LkCompleted else LkSearching) (if (k =? 0)%nat then lk_set_active ∅ l else l) w.
Proof.
  intros Hl Hw. destruct (Nat.eqb_spec k 0) as [->|Hk]; split; try done; try (by left).
  - destruct Hl as (H1 & H2 & H3 & H4 & _). by split_and!.
  - exists []. split; [by apply sends_refl|]. split; [constructor|done].
  - by right.
  - intros _ tid [x Hx]. done.
  - exists []. split; [by apply sends_refl|]. split; [constructor|done].
  - right. rewrite Nat.add_0_r. by destruct (Nat.eqb_spec k 0).
Qed.

Lemma round_failed own aid todo k l w l' w' : lookup_ok aid l' -> world_ok own w' -> lk_rest l' = lk_rest l ->
  lk_in_endgame l' = lk_in_endgame l -> lk_all_sorted_nodes l' = lk_all_sorted_nodes l -> sends w w' [] -> ~ reliable ->
  round_post own aid todo k l w LkFailed l' w'.
Proof. intros. split; try done; [|by left]. exists []. split; [done|]. split; [constructor|]. split; [cbn; lia|done]. Qed.

Lemma active_insert_ok aid tid x (m : gmap TransactionID (ShaHash * nat)) : tid_ok aid tid -> map_Forall (fun t _ => tid_ok aid t) m ->
  map_Forall (fun t _ => tid_ok aid t) (<[tid := x]> m).
Proof. intros Ht Hm. by apply map_Forall_insert_2. Qed.

(** A round asks the given nodes in order; it stops early only when it fails. *)
Lemma request_loop_ok own aid todo : forall k l w, lookup_ok aid l -> world_ok own w -> Forall (fun p => sha_ok (id p.1)) todo ->
  wp (request_loop now todo k l) w (fun '(st, l') w' => round_post own aid todo k l w st l' w').
Proof.
  induction todo as [|[node dist] todo IH]; intros k l w Hl Hw Hn; cbn [request_loop].
  - pose proof (round_done own aid k l w Hl Hw). by destruct (Nat.eqb_spec k 0); apply dwp_ret.
  - apply Forall_cons in Hn as [Hnode Hn]. cbn [fst] in Hnode. apply dwp_bind. destruct Hl as (H1 & H2 & H3 & H4 & H5).
    apply (wp_mid_generate aid); [done|]. intros tid g w1 Htid Hg Ht1 He1. apply dwp_bind, wp_timeout_ms. intros o w2 Eo Ht2 He2.
    assert (Hw2 : world_ok own w2) by (eapply world_ok_table; [|exact Hw]; congruence).
    destruct o as [timer|].
    2: { apply dwp_ret, round_failed; try done. - apply sends_refl. by rewrite He2, He1, app_nil_r.
         - intros [_ Hr]. destruct (Hr (w_calls w1)) as [x Hx]. congruence. }
    apply dwp_bind, wp_send_out. intros ok w3 Eok Ht3 He3. assert (Hw3 : world_ok own w3) by (by eapply world_ok_table).
    pose proof (active_insert_ok aid tid (dist, timer) _ Htid H5) as Hact.
    assert (Hs3 : sends w w3 (if ok then [(lookup_request tid l, addr node)] else [])).
    { exists ([TimerSet timer (0, CheckLookupTimeout tid) LOOKUP_TIMEOUT_MS] ++ if ok then [OutMessage (lookup_request tid l) (addr node)] else []).
      split; [rewrite He3, He2, He1, <- app_assoc; done|by destruct ok]. }
    destruct ok; [|apply dwp_ret, round_failed; try done; intros [Hr _]; by rewrite Hr in Eok].
    apply dwp_bind. eapply (wp_touch_found now own); [apply local_request_keeps|done|done|]. intros w4 Hw4 He4.
    eapply dwp_mono; [apply IH; [by split_and!|done|done]|]. intros [st l'] w' [Hl' Hw' (Hr & Heg & Hso) (sent & Hsend & Hreq & Hle & Hlen) Hrel Hst Hac Hid Htm].
    assert (Hsend3 : sends w3 w' sent) by (destruct Hsend as (evs & Ee & Em); exists evs; by rewrite Ee, He4).
    split; try done.
    + exists ((lookup_request tid l, addr node) :: sent). split; [|split; [|split; [cbn; lia|intros ?; cbn; by rewrite Hlen]]].
      * by apply (sends_trans _ w3 _ [_]).
      * cbn [length take map fst]. constructor; [by exists tid|]. eapply requests_rest; [|exact Hreq]. done.
    + destruct Hst as [->| ->]; [by left|right]. cbn [length]. destruct (Nat.eqb_spec (k + 1 + length todo) 0), (Nat.eqb_spec (k + S (length todo)) 0); done || lia.
    + intros Hf _ E. destruct todo as [|p todo]; [|by apply Hac in E]. rewrite (Hid Hf eq_refl ltac:(lia)) in E. exact (insert_non_empty (lk_active_lookups l) tid (dist, timer) E).
    + intros Hf t Ht. destruct (Htm Hf t Ht) as [Hin|]; [|by right]. cbn [lk_active_lookups lk_set_requested lk_set_active lk_set_generator] in Hin.
      destruct (decide (t = tid)) as [->|Hne]; [right|left; by rewrite lookup_insert_ne in Hin by congruence].
      apply (request_timer_mono w3 w' tid sent Hsend3). exists timer. rewrite He3, He2. apply elem_of_app. left. apply elem_of_app. right. left.
Qed.

(** ** The endgame *)

(** Entries of the same nodes. *)
Definition same_nodes (a b : list (ShaHash * Node * bool)) : Prop := map fst a = map fst b.

Lemma sorted_same_nodes target a b : same_nodes a b -> sorted_ok target a -> sorted_ok target b.
Proof.
  unfold same_nodes, sorted_ok. revert b. induction a as [|e a IH]; intros [|f b] E; try done. cbn [map] in E. injection E as E1 E2.
  intros [Hs Hf]. apply Forall_cons in Hf as [He Hf]. inversion Hs as [|? ? Hs' Hx]; subst. destruct (IH b E2 (conj Hs' Hf)) as [Hsb Hfb].
  unfold known_ok, entry_dist, entry_node in *. rewrite E1 in *. split; constructor; try done.
  apply Forall_forall. intros x Hxb. assert (x.1 ∈ map fst a) as (y & Ey & Hy)%list_elem_of_fmap by (rewrite E2; by apply (list_elem_of_fmap_2 fst)).
  rewrite Ey. by eapply (proj1 (Forall_forall _ _) Hx).
Qed.

(** The nodes of a list that were not asked. *)
Definition unasked (l : list (ShaHash * Node * bool)) : list Node := map (fun e => e.1.2) (List.filter (fun e => negb e.2) l).

Lemma unasked_cons d n rest : unasked ((d, n, false) :: rest) = n :: unasked rest.
Proof. done. Qed.

Record endgame_post (own : ShaHash) (aid : Z) (todo : list (ShaHash * Node * bool)) l w (st : LookupStatus) l' w' : Prop := {
  ep_lookup : lookup_ok aid l';
  ep_world : world_ok own w';
  ep_rest : lk_rest l' = lk_rest l /\ lk_in_endgame l' = lk_in_endgame l;
  ep_sorted : same_nodes (lk_all_sorted_nodes l') (lk_all_sorted_nodes l);
  ep_sent : exists sent, sends w w' sent /\ requests l aid sent (take (length sent) (map addr (unasked todo))) /\
    (length sent <= length (unasked todo))%nat /\ (st <> LkFailed -> length sent = length (unasked todo));
  ep_reliable : reliable -> st <> LkFailed;
  ep_status : st = LkFailed \/ st = LkSearching
}.

Lemma lookup_ok_sorted aid v l : lookup_ok aid l -> same_nodes v (lk_all_sorted_nodes l) -> lookup_ok aid (lk_set_sorted v l).
Proof. intros (H1 & H2 & H3 & H4 & H5) Hv. split_and!; try done. by eapply sorted_same_nodes. Qed.

Lemma endgame_loop_ok own aid timer todo : forall done l w, lookup_ok aid l -> world_ok own w ->
  same_nodes (done ++ todo) (lk_all_sorted_nodes l) ->
  wp (endgame_loop now timer done todo l) w (fun '(st, l') w' => endgame_post own aid todo l w st l' w').
Proof.
  induction todo as [|[[dist node] req] todo IH]; intros done l w Hl Hw Hn; cbn [endgame_loop].
  - rewrite app_nil_r in Hn. apply dwp_ret. split; try done; [by apply lookup_ok_sorted| |by right].
    exists []. split; [by apply sends_refl|]. split; [constructor|done].
  - destruct req.
    { eapply dwp_mono; [apply IH; [done|done|by rewrite <- app_assoc]|]. intros [st l'] w' [? ? ? ? ? ? ?]. by split. }
    apply dwp_bind. pose proof Hl as (H1 & H2 & H3 & H4 & H5).
    assert (Hnode : sha_ok (id node)).
    { apply sorted_same_nodes with (b := done ++ (dist, node, false) :: todo) in H4; [|done]. destruct H4 as [_ [_ [[_ He] _]%Forall_cons]%Forall_app]. done. }
    apply (wp_mid_generate aid); [done|]. intros tid g w1 Htid Hg Ht1 He1. apply dwp_bind, wp_send_out. intros ok w2 Eok Ht2 He2.
    assert (Hw2 : world_ok own w2) by (eapply world_ok_table; [|exact Hw]; congruence).
    pose proof (active_insert_ok aid tid (dist, timer) _ Htid H5) as Hact.
    assert (Hs2 : sends w w2 (if ok then [(lookup_request tid l, addr node)] else [])).
    { exists (if ok then [OutMessage (lookup_request tid l) (addr node)] else []). split; [rewrite He2, He1; done|by destruct ok]. }
    destruct ok.
    + apply dwp_bind. eapply (wp_touch_found now own); [apply local_request_keeps|done|done|]. intros w3 Hw3 He3.
      eapply dwp_mono; [apply IH; [by split_and!|done|]|].
      { unfold same_nodes in *. rewrite !map_app in *. cbn [map fst] in *. rewrite <- app_assoc. done. }
      intros [st l'] w' [Hl' Hw' [Hr Heg] Hso (sent & Hsend & Hreq & Hle & Hlen) Hrel Hst].
      split; try done. exists ((lookup_request tid l, addr node) :: sent). rewrite unasked_cons. cbn [length map].
      split; [|split; [|split; [lia|intros ?; by rewrite Hlen]]].
      * apply (sends_trans _ w2 _ [_]); [done|]. destruct Hsend as (evs & Ee & Em). exists evs. by rewrite Ee, He3.
      * cbn [length take map fst]. constructor; [by exists tid|]. eapply requests_rest; [|exact Hreq]. done.
    + apply dwp_ret. split; try done; [by apply lookup_ok_sorted| |intros [Hr _]; by rewrite Hr in Eok|by left].
      exists []. split; [done|]. split; [constructor|]. split; [cbn; lia|done].
Qed.

(** Entering the endgame asks every node not asked yet, unless values were received. *)
Lemma start_endgame_ok own aid l w : lookup_ok aid l -> world_ok own w ->
  wp (start_endgame_round now l) w (fun '(st, l') w' =>
    endgame_post own aid (if lk_recv_values l then [] else lk_all_sorted_nodes l) (lk_set_endgame true l) w st l' w' /\
    (st <> LkFailed -> endgame_timer aid w')).
Proof.
  intros Hl Hw. unfold start_endgame_round. pose proof Hl as (H1 & H2 & H3 & H4 & H5). apply dwp_bind.
  apply (wp_mid_generate aid); [done|]. intros tid g w1 Htid Hg Ht1 He1. apply dwp_bind, wp_timeout_ms. intros o w2 Eo Ht2 He2.
  assert (Hw2 : world_ok own w2) by (eapply world_ok_table; [|exact Hw]; congruence).
  assert (Hs2 : sends w w2 []) by (exists (match o with Some i => [TimerSet i (0, CheckLookupEndGame tid) ENDGAME_TIMEOUT_MS] | None => [] end); rewrite He2, He1; by destruct o).
  destruct o as [timer|].
  2: { apply dwp_ret. split; [|done]. split; try done; [|intros [_ Hr]; destruct (Hr (w_calls w1)); congruence|by left].
       exists []. split; [done|]. split; [constructor|]. split; [cbn; lia|done]. }
  assert (Htimer : TimerSet timer (0, CheckLookupEndGame tid) ENDGAME_TIMEOUT_MS ∈ w_effects w2) by (rewrite He2; apply elem_of_app; right; left).
  cbn [lk_recv_values lk_set_generator lk_set_endgame]. destruct (lk_recv_values l); cbn [negb].
  - apply dwp_ret. split; [|intros _; by exists timer, tid]. split; try done; [|by right]. exists []. split; [done|]. split; [constructor|done].
  - eapply dwp_mono; [apply (endgame_loop_ok own aid); [by split_and!|done|done]|]. intros [st l'] w' [Hl' Hw' Hr Hso (sent & Hsend & Hreq & Hle & Hlen) Hrel Hst].
    split; [split; try done|].
    + exists sent. split; [by apply (sends_trans _ _ _ []  _ Hs2)|]. split; [|done]. eapply requests_rest; [|exact Hreq]. done.
    + intros _. exists timer, tid. split; [done|]. destruct Hsend as (evs & Ee & _). rewrite Ee. apply elem_of_app. by left.
Qed.

(** ** Responses and timeouts *)

(** The clock is late enough for [Node::as_questionable]. *)
Definition clock_ok : Prop := is_Some (dt_checked_sub now (minutes MAX_LAST_SEEN_MINS)).

(** Compact information as a datagram carries it. *)
Definition nodes_wire_ok (c : CompactNodeInfo) : Prop := bytes_ok (cni_nodes c) /\ (length (cni_nodes c) mod 26 = 0)%nat.
Definition values_wire_ok (c : CompactValueInfo) : Prop :=
  Forall (fun v => exists b, v = Bencode.MBytes b /\ bytes_ok b /\ length b = BYTES_PER_COMPACT_IP) (cvi_values c).
Definition info_wire_ok (t : CompactInfoType) : Prop :=
  match t with
  | Nodes n => nodes_wire_ok n
  | Values v => values_wire_ok v
  | Both n v => nodes_wire_ok n /\ values_wire_ok v
  end.

Lemma collect_nodes_total c : nodes_wire_ok c -> exists infos, collect_nodes c = Ok infos /\ Forall entry_ok infos.
Proof.
  destruct c as [b]. intros [Hb Hm]. cbn [cni_nodes] in *. apply Nat.Div0.mod_divides in Hm as [n Hn].
  destruct (Forall_entry_surj n b Hn Hb) as (infos & Hi & _ & <-). exists infos. split; [|done]. by apply collect_nodes_entries.
Qed.

Lemma collect_values_total c : values_wire_ok c -> exists socks, collect_values c = Ok socks /\ Forall sock_v4_ok socks.
Proof.
  destruct c as [values]. intros Hv. unfold values_wire_ok in Hv. cbn in Hv. destruct (values_surj values) as (socks & Hs & ->).
  - eapply Forall_impl; [exact Hv|]. intros v (b & -> & Hb & _) b' [= <-]. done.
  - eapply Forall_impl; [exact Hv|]. intros v (b & -> & _ & Hb). eauto.
  - exists socks. split; [|done]. unfold collect_values. apply (collect_values_loop socks []); [done|]. cbn [cvi_values]. rewrite length_map. lia.
Qed.

Lemma questionable_total infos : clock_ok -> Forall entry_ok infos ->
  exists found, questionable_nodes now infos = Ok found /\ map node_key found = map (fun p => (p.1, V4 p.2)) infos /\ Forall (fun n => sha_ok (id n)) found.
Proof.
  intros [t Ht]. induction 1 as [|[i a] infos [Hi _] _ IH]; [by exists []|]. destruct IH as (found & E & Hk & Hf). cbn [questionable_nodes].
  unfold as_questionable at 1. cbv zeta. rewrite Ht. cbn [or_panic res_bind]. rewrite E. cbn [res_bind]. eexists. split; [done|].
  split; [cbn [map fst snd]; by rewrite Hk|]. by constructor.
Qed.

(** What the nodes of a response leave: all of them are known, the list stays sorted, and
    nodes are picked to ask next exactly when one that was not asked beats the distance. *)
Record taken_post (aid : Z) (d : ShaHash) (infos : list (ShaHash * SocketAddrV4)) l (picked : option (list Node)) (d' : ShaHash) l' : Prop := {
  tk_lookup : lookup_ok aid l';
  tk_rest : lk_rest l' = lk_rest l /\ lk_in_endgame l' = lk_in_endgame l /\ lk_active_lookups l' = lk_active_lookups l /\
    lk_requested_nodes l' = lk_requested_nodes l;
  tk_known : forall i a, (i, a) ∈ infos -> (i, V4 a) ∈ map (fun e => node_key (entry_node e)) (lk_all_sorted_nodes l');
  tk_kept : forall e, e ∈ lk_all_sorted_nodes l -> e ∈ lk_all_sorted_nodes l';
  tk_dist : sha_le d' d;
  tk_none : picked = None <-> d' = d;
  tk_picked : forall p, picked = Some p -> p <> [] /\ (length p <= ITERATIVE_PICK_NUM)%nat /\ Forall (fun n => sha_ok (id n)) p /\
    forall n, n ∈ p -> ~ (node_key n ∈ lk_requested_nodes l) /\ node_key n ∈ map (fun p => (p.1, V4 p.2)) infos
}.

Lemma taken_known aid l (found : list Node) (flag : Node -> bool) : lookup_ok aid l -> Forall (fun n => sha_ok (id n)) found ->
  exists sorted, insert_all (lk_target_id l) (map (fun n => (n, flag n)) found) (lk_all_sorted_nodes l) = Ok sorted /\
    lookup_ok aid (lk_set_sorted sorted l) /\ (forall e, e ∈ lk_all_sorted_nodes l -> e ∈ sorted) /\
    (forall k, k ∈ map node_key found -> k ∈ map (fun e => node_key (entry_node e)) sorted).
Proof.
  intros (H1 & H2 & H3 & H4 & H5) Hf. destruct (insert_all_ok (lk_target_id l) (map (fun n => (n, flag n)) found) _ H4) as (sorted & E & Hs & _ & Hkept & Hto).
  - apply Forall_map. by eapply Forall_impl.
  - exists sorted. split; [done|]. split; [by split_and!|]. split; [done|]. intros k Hk. apply Hto. by rewrite map_map.
Qed.

Lemma take_nodes_ok aid d c l w : clock_ok -> lookup_ok aid l -> nodes_wire_ok c ->
  wp (take_nodes now d c l) w (fun '(picked, d', l') w' => w' = w /\ exists infos, collect_nodes c = Ok infos /\ taken_post aid d infos l picked d' l').
Proof.
  intros Hclock Hl Hc. unfold take_nodes. destruct (collect_nodes_total c Hc) as (infos & Ei & Hi). apply dwp_bind. eapply dwp_lift; [exact Ei|].
  destruct (questionable_total infos Hclock Hi) as (found & Ef & Hk & Hf). apply dwp_bind. eapply dwp_lift; [exact Ef|].
  set (unrequested := List.filter _ found). destruct (closest_distance_spec (lk_target_id l) unrequested d) as (Hle & Hd & _).
  assert (Hun : forall n, n ∈ unrequested -> n ∈ found /\ ~ (node_key n ∈ lk_requested_nodes l)).
  { intros n Hn. apply list_elem_of_In, filter_In in Hn as [Hn Hb]. split; [by apply list_elem_of_In|]. by apply negb_true_iff, bool_decide_eq_false in Hb. }
  assert (Hinfos : forall i a, (i, a) ∈ infos -> (i, V4 a) ∈ map node_key found).
  { intros i a Hia. rewrite Hk. by apply (list_elem_of_fmap_2 (fun p => (p.1, V4 p.2))) in Hia. }
  destruct (sha_ltb (closest_distance (lk_target_id l) d unrequested) d) eqn:Elt; apply dwp_bind.
  - edestruct (taken_known aid l found) as (sorted & Es & Hl' & Hkept & Hto); [done|done|]. eapply dwp_lift; [exact Es|]. apply dwp_ret. split; [done|].
    exists infos. split; [done|]. apply sha_ltb_spec in Elt. split; try done; [intros i a Hia; by apply Hto, Hinfos| |].
    + split; [done|]. intros E. rewrite E in Elt. by apply bytes_lt_irrefl in Elt.
    + intros p [= <-]. rewrite pick_iterate_reference. split; [|split; [apply pick_reference_length|]].
      * destruct Hd as [E|(n & Hn & _)]; [rewrite E in Elt; by apply bytes_lt_irrefl in Elt|]. clear -Hn. by destruct unrequested; [apply elem_of_nil in Hn|].
      * split; [apply Forall_forall|]; intros n Hn; apply pick_reference_elem, Hun in Hn as [Hn Hr]; [by eapply (proj1 (Forall_forall _ _) Hf)|].
        split; [done|]. rewrite <- Hk. by apply (list_elem_of_fmap_2 node_key).
  - edestruct (taken_known aid l found (fun _ => false)) as (sorted & Es & Hl' & Hkept & Hto); [done|done|]. eapply dwp_lift; [exact Es|]. apply dwp_ret. split; [done|].
    exists infos. split; [done|]. split; try done; [intros i a Hia; by apply Hto, Hinfos|]. split; [|done]. intros _.
    apply sha_le_cases in Hle as [->|Hlt]; [done|]. apply sha_ltb_spec in Hlt. congruence.
Qed.

(** A lookup that will go on by itself: it waits in the endgame, or for requests that
    each have a timer. *)
Definition lookup_running (aid : Z) l w : Prop :=
  if lk_in_endgame l then endgame_timer aid w
  else lk_active_lookups l <> ∅ /\ forall tid, is_Some (lk_active_lookups l !! tid) -> request_timer w tid.

(** What an event leaves that concerns an open request, when it sends at most [bound]
    messages outside the endgame. *)
Record event_post (own : ShaHash) (aid : Z) (bound : nat) l w (st : LookupStatus) l' w' : Prop := {
  ev_lookup : lookup_ok aid l';
  ev_world : world_ok own w';
  ev_ids : lk_table_id l' = lk_table_id l /\ lk_target_id l' = lk_target_id l /\ lk_will_announce l' = lk_will_announce l;
  ev_sent : exists sent, sends w w' sent /\ (exists addrs, requests l aid sent addrs) /\
    (length sent <= if lk_in_endgame l then 0 else if lk_in_endgame l' then length (lk_all_sorted_nodes l') else bound)%nat;
  ev_endgame : lk_in_endgame l = true -> lk_in_endgame l' = true;
  ev_reliable : reliable -> st <> LkFailed;
  ev_running : lookup_running aid l w -> st <> LkFailed -> lookup_running aid l' w'
}.

Lemma endgame_if_idle_ok own aid status l w : lookup_ok aid l -> world_ok own w -> lk_in_endgame l = false ->
  (forall x, status x <> LkFailed) ->
  wp (endgame_if_idle now status l) w (fun '(st, l') w' =>
    lookup_ok aid l' /\ world_ok own w' /\ lk_rest l' = lk_rest l /\ same_nodes (lk_all_sorted_nodes l') (lk_all_sorted_nodes l) /\
    (exists sent, sends w w' sent /\ (exists addrs, requests l aid sent addrs) /\
      (length sent <= if bool_decide (lk_active_lookups l = ∅) then length (unasked (lk_all_sorted_nodes l)) else 0)%nat) /\
    (reliable -> st <> LkFailed) /\ (st <> LkFailed -> st = status l') /\
    (st <> LkFailed -> (forall tid, is_Some (lk_active_lookups l !! tid) -> request_timer w tid) -> lookup_running aid l' w') /\
    lk_in_endgame l' = bool_decide (lk_active_lookups l = ∅) /\ (lk_in_endgame l' = false -> l' = l)).
Proof.
  intros Hl Hw Heg Hst. unfold endgame_if_idle. case_bool_decide as Ha.
  - apply dwp_bind. eapply dwp_mono; [by apply (start_endgame_ok own aid)|].
    intros [st l'] w' [[Hl' Hw' [Hr He] Hso (sent & Hsend & Hreq & Hle & Hlen) Hrel Hs] Htimer]. cbn [lk_in_endgame lk_set_endgame] in He.
    assert (Hle' : (length sent <= length (unasked (lk_all_sorted_nodes l)))%nat) by (destruct (lk_recv_values l); cbn in Hle; lia).
    assert (Hs' : exists sent, sends w w' sent /\ (exists addrs, requests l aid sent addrs) /\ (length sent <= length (unasked (lk_all_sorted_nodes l)))%nat).
    { exists sent. split; [done|]. split; [|done]. eexists. eapply requests_rest; [|exact Hreq]. done. }
    destruct Hs as [->| ->]; apply dwp_ret; split_and!; try done; try (by rewrite He).
    intros _ _. unfold lookup_running. rewrite He. by apply Htimer.
  - apply dwp_ret. split_and!; try done.
    + exists []. split; [by apply sends_refl|]. split; [exists []; constructor|done].
    + intros _ Htm. unfold lookup_running. by rewrite Heg.
Qed.

Lemma same_nodes_length a b : same_nodes a b -> length a = length b.
Proof. unfold same_nodes. intros E. by rewrite <- (length_map fst a), E, length_map. Qed.

Lemma unasked_length (a : list (ShaHash * Node * bool)) : (length (unasked a) <= length a)%nat.
Proof. unfold unasked. rewrite length_map. apply filter_length_le. Qed.

Lemma requests_same l l' aid sent : lk_table_id l' = lk_table_id l -> lk_target_id l' = lk_target_id l ->
  (exists addrs, requests l' aid sent addrs) -> exists addrs, requests l aid sent addrs.
Proof.
  intros E1 E2 [addrs Hr]. exists addrs. unfold requests in *. induction Hr as [|m a sent addrs (t & Ht & ->) _ IH]; constructor; [|done].
  exists t. unfold lookup_request. by rewrite E1, E2.
Qed.

Lemma current_status_not_failed l : current_lookup_status l <> LkFailed.
Proof. unfold current_lookup_status. by destruct (_ || _). Qed.

(** The timers of the other requests survive the removal of one. *)
Lemma running_delete aid tid l w : lookup_running aid l w -> lk_in_endgame l = false ->
  forall t, is_Some (lk_active_lookups (lk_set_active (delete tid (lk_active_lookups l)) l) !! t) -> request_timer w t.
Proof.
  unfold lookup_running. intros Hr He t Ht. rewrite He in Hr. apply Hr. cbn in Ht. destruct (decide (t = tid)) as [->|Hne]; [rewrite lookup_delete_eq in Ht; by destruct Ht|].
  by rewrite lookup_delete_ne in Ht by congruence.
Qed.

Lemma lookup_ok_delete aid tid l : lookup_ok aid l -> lookup_ok aid (lk_set_active (delete tid (lk_active_lookups l)) l).
Proof. intros (H1 & H2 & H3 & H4 & H5). split_and!; try done. by apply map_Forall_delete. Qed.

Lemma event_nothing own aid bound l w : lookup_ok aid l -> world_ok own w -> event_post own aid bound l w (current_lookup_status l) l w.
Proof.
  intros Hl Hw. split; try done; [|intros _; apply current_status_not_failed]. exists []. split; [by apply sends_refl|].
  split; [exists []; constructor|]. cbn. lia.
Qed.

(** A request that was not answered. *)
Lemma recv_timeout_ok own aid tid l w : lookup_ok aid l -> world_ok own w ->
  wp (recv_timeout now tid l) w (fun '(st, l') w' => event_post own aid 0 l w st l' w' /\
    lk_announce_tokens l' = lk_announce_tokens l /\ not_values st /\
    (is_Some (lk_active_lookups l !! tid) -> lk_in_endgame l = false ->
      lk_in_endgame l' = bool_decide (delete tid (lk_active_lookups l) = ∅) /\
      (lk_in_endgame l' = false -> lk_active_lookups l' = delete tid (lk_active_lookups l)))).
Proof.
  intros Hl Hw. unfold recv_timeout. destruct (lk_active_lookups l !! tid) as [[d timer]|] eqn:Et.
  2: { apply dwp_ret. split; [by apply event_nothing|]. split; [done|]. split; [by unfold current_lookup_status; destruct (_ || _)|]. intros [x Hx]. done. }
  pose proof (lookup_ok_delete aid tid l Hl) as Hl0. cbn [lk_in_endgame lk_set_active]. destruct (lk_in_endgame l) eqn:Eg; cbn [negb].
  - apply dwp_ret. split; [split; try done|].
    + exists []. split; [by apply sends_refl|]. split; [by exists []; apply Forall2_nil|]. cbn. lia.
    + intros _. apply current_status_not_failed.
    + unfold lookup_running. cbn. by rewrite Eg.
    + split; [done|]. split; [|done]. unfold current_lookup_status. cbn. by rewrite Eg.
  - eapply dwp_mono; [apply (endgame_if_idle_ok own aid); [done|done|done|apply current_status_not_failed]|].
    intros [st l'] w' (Hl' & Hw' & Hr & Hso & (sent & Hsend & Hreq & Hle) & Hrel & Hst & Hrun & Heg & Hsame).
    cbn [lk_active_lookups lk_set_active lk_all_sorted_nodes] in *. injection Hr as R1 R2 R3 R4 R5. cbn in R1, R2, R3, R4, R5.
    split; [split; try done|].
    + exists sent. split; [done|]. split; [done|]. rewrite Eg, Heg. case_bool_decide; [|done]. rewrite (same_nodes_length _ _ Hso).
      pose proof (unasked_length (lk_all_sorted_nodes l)). lia.
    + congruence.
    + intros Hrun0 Hf. apply Hrun; [done|]. by apply (running_delete aid tid).
    + split; [done|]. split; [destruct (decide (st = LkFailed)) as [->|Hf]; [done|]; rewrite Hst by done; unfold current_lookup_status; by destruct (_ || _)|].
      intros _ _. split; [done|]. intros Hn. by rewrite Hsame.
Qed.

(** What a response changes in the lookup before its nodes are looked at. *)
Definition noted (node : Node) (tid : TransactionID) (msg : GetPeersResponse) l : TableLookup :=
  let l := lk_set_active (delete tid (lk_active_lookups l)) l in
  let l := match grs_token msg with
    | Some token => lk_set_tokens (<[node_key node := token]> (lk_announce_tokens l)) l
    | None => l
    end in
  match grs_info_type msg with Values _ => lk_set_recv_values true l | _ => l end.

Lemma noted_fields node tid msg l : lk_table_id (noted node tid msg l) = lk_table_id l /\ lk_target_id (noted node tid msg l) = lk_target_id l /\
  lk_in_endgame (noted node tid msg l) = lk_in_endgame l /\ lk_will_announce (noted node tid msg l) = lk_will_announce l /\
  lk_active_lookups (noted node tid msg l) = delete tid (lk_active_lookups l) /\ lk_all_sorted_nodes (noted node tid msg l) = lk_all_sorted_nodes l /\
  lk_requested_nodes (noted node tid msg l) = lk_requested_nodes l /\ lk_id_generator (noted node tid msg l) = lk_id_generator l.
Proof. unfold noted. by destruct (grs_token msg), (grs_info_type msg). Qed.

Lemma noted_ok aid node tid msg l : lookup_ok aid l -> lookup_ok aid (noted node tid msg l).
Proof.
  intros (H1 & H2 & H3 & H4 & H5). destruct (noted_fields node tid msg l) as (E1 & E2 & _ & _ & E3 & E4 & _ & E5).
  unfold lookup_ok. rewrite E1, E2, E3, E4, E5. split_and!; try done. by apply map_Forall_delete.
Qed.

(** The values of a response, and the status it leads to. *)
Definition response_values (msg : GetPeersResponse) : res unit (option (list SocketAddrV4)) :=
  match grs_info_type msg with
  | Nodes _ => Ok None
  | Values v | Both _ v => let? socks := collect_values v in Ok (Some socks)
  end.
Definition response_status (opt_values : option (list SocketAddrV4)) l : LookupStatus :=
  match opt_values with Some values => LkValues values | None => current_lookup_status l end.
Definition response_nodes (msg : GetPeersResponse) : option CompactNodeInfo :=
  match grs_info_type msg with Nodes n | Both n _ => Some n | Values _ => None end.

(** The rest of [recv_response], once the answer is noted. *)
Definition follow_up (d : ShaHash) (nodes : option CompactNodeInfo) (status : TableLookup -> LookupStatus) l : W (LookupStatus * TableLookup) :=
  let! (iterate_nodes, next_dist_to_beat, l) :=
    match nodes with
    | Some infos => take_nodes now d infos l
    | None => wret (None, d, l)
    end in
  if negb (lk_in_endgame l) then
    let! (round, l) :=
      match iterate_nodes with
      | Some picked => start_request_round now (map (fun n => (n, next_dist_to_beat)) picked) l
      | None => wret (LkSearching, l)
      end in
    match round with
    | LkFailed => wret (LkFailed, l)
    | _ => endgame_if_idle now status l
    end
  else wret (status l, l).

(** [recv_response] on an open request: note the answer, then follow it up. *)
Lemma recv_response_noted node tid msg l w d timer : lk_active_lookups l !! tid = Some (d, timer) -> info_wire_ok (grs_info_type msg) ->
  exists opt_values w1, response_values msg = Ok opt_values /\ w_table w1 = w_table w /\ sends w w1 [] /\
    recv_response now node tid msg l w = follow_up d (response_nodes msg) (response_status opt_values) (noted node tid msg l) w1.
Proof.
  intros Et Hi. unfold recv_response, response_values, response_nodes, noted, follow_up. rewrite Et.
  set (w1 := if lk_in_endgame l then w else mkWorld (w_table w) (w_calls w) (w_effects w ++ [TimerCleared timer])).
  assert (Hclear : (if negb (lk_in_endgame (lk_set_active (delete tid (lk_active_lookups l)) l)) then clear_timeout timer else wret tt) w = Ok (tt, w1)).
  { unfold w1. cbn [lk_in_endgame lk_set_active]. by destruct (lk_in_endgame l). }
  assert (Hs : sends w w1 []).
  { unfold w1. destruct (lk_in_endgame l); [by apply sends_refl|]. by exists [TimerCleared timer]. }
  assert (Ht : w_table w1 = w_table w) by (unfold w1; by destruct (lk_in_endgame l)).
  destruct (grs_info_type msg) as [n|v|n v]; cbn [info_wire_ok] in Hi.
  - exists None, w1. split_and!; try done. unfold wbind at 1. rewrite Hclear. by destruct (grs_token msg).
  - destruct (collect_values_total v Hi) as (socks & -> & _). exists (Some socks), w1. split_and!; try done. unfold wbind at 1. rewrite Hclear. by destruct (grs_token msg).
  - destruct Hi as [_ Hi]. destruct (collect_values_total v Hi) as (socks & -> & _). exists (Some socks), w1. split_and!; try done.
    unfold wbind at 1. rewrite Hclear. by destruct (grs_token msg).
Qed.

(** The keys of the known nodes. *)
Definition known_keys l : list NodeKey := map (fun e => node_key (entry_node e)) (lk_all_sorted_nodes l).

Lemma known_same_nodes (a b : list (ShaHash * Node * bool)) : same_nodes a b ->
  map (fun e => node_key (entry_node e)) a = map (fun e => node_key (entry_node e)) b.
Proof.
  unfold same_nodes, entry_node. intros E. rewrite <- (map_map fst (fun x => node_key x.2) a), <- (map_map fst (fun x => node_key x.2) b). by rewrite E.
Qed.

Record follow_post (own : ShaHash) (aid : Z) (nodes : option CompactNodeInfo) (status : TableLookup -> LookupStatus) l w (st : LookupStatus) l' w' : Prop := {
  fp_lookup : lookup_ok aid l';
  fp_world : world_ok own w';
  fp_rest : lk_rest l' = lk_rest l;
  fp_sent : exists sent, sends w w' sent /\ (exists addrs, requests l aid sent addrs) /\
    (length sent <= if lk_in_endgame l then 0 else if lk_in_endgame l' then length (lk_all_sorted_nodes l') else ITERATIVE_PICK_NUM)%nat;
  fp_endgame : lk_in_endgame l = true -> lk_in_endgame l' = true;
  fp_reliable : reliable -> st <> LkFailed;
  fp_status : st = LkFailed \/ st = status l';
  fp_running : st <> LkFailed -> lk_in_endgame l = false -> (forall tid, is_Some (lk_active_lookups l !! tid) -> request_timer w tid) -> lookup_running aid l' w';
  fp_known : forall c infos i a, nodes = Some c -> collect_nodes c = Ok infos -> (i, a) ∈ infos -> (i, V4 a) ∈ known_keys l';
  fp_kept : forall k, k ∈ known_keys l -> k ∈ known_keys l'
}.

(** The endgame check, after a round that sent [sent0]. *)
Lemma follow_idle own aid status l0 w0 l w sent0 c0 : lookup_ok aid l -> world_ok own w -> lk_in_endgame l0 = false -> lk_in_endgame l = false ->
  (forall x, status x <> LkFailed) -> lk_rest l = lk_rest l0 -> sends w0 w sent0 -> (exists addrs, requests l0 aid sent0 addrs) ->
  (length sent0 <= ITERATIVE_PICK_NUM)%nat -> (lk_active_lookups l = ∅ -> sent0 = []) ->
  ((forall tid, is_Some (lk_active_lookups l0 !! tid) -> request_timer w0 tid) -> forall tid, is_Some (lk_active_lookups l !! tid) -> request_timer w tid) ->
  (forall c infos i a, c0 = Some c -> collect_nodes c = Ok infos -> (i, a) ∈ infos -> (i, V4 a) ∈ known_keys l) ->
  (forall k, k ∈ known_keys l0 -> k ∈ known_keys l) ->
  wp (endgame_if_idle now status l) w (fun '(st, l') w' => follow_post own aid c0 status l0 w0 st l' w').
Proof.
  intros Hl Hw Heg0 Heg Hst Hr0 Hs0 [addrs0 Hreq0] Hn0 Hemp Htm Hknown Hkept.
  eapply dwp_mono; [by apply (endgame_if_idle_ok own aid)|]. intros [st l'] w' (Hl' & Hw' & Hr & Hso & (sent & Hsend & [addrs Hreq] & Hle) & Hrel & Hstat & Hrun & Hegl & Hsame).
  assert (Hk : known_keys l' = known_keys l) by (by apply known_same_nodes).
  split; try done.
  - congruence.
  - exists (sent0 ++ sent). split; [by eapply sends_trans|]. split; [exists (addrs0 ++ addrs); apply Forall2_app; [done|by eapply requests_rest]|].
    rewrite Heg0, Hegl, length_app. case_bool_decide as E; [|lia]. rewrite (Hemp E), (same_nodes_length _ _ Hso). cbn.
    pose proof (unasked_length (lk_all_sorted_nodes l)). lia.
  - congruence.
  - destruct (decide (st = LkFailed)); [by left|right; by apply Hstat].
  - intros Hf _ Ht. apply Hrun; [done|]. by apply Htm.
  - intros c infos i a Ec Ei Hia. rewrite Hk. by eapply Hknown.
  - intros k Hin. rewrite Hk. by apply Hkept.
Qed.

Lemma follow_up_ok own aid d nodes status l w : clock_ok -> lookup_ok aid l -> world_ok own w ->
  match nodes with Some c => nodes_wire_ok c | None => True end -> (forall x, status x <> LkFailed) ->
  wp (follow_up d nodes status l) w (fun '(st, l') w' => follow_post own aid nodes status l w st l' w').
Proof.
  intros Hclock Hl Hw Hn Hst. unfold follow_up. apply dwp_bind.
  apply (dwp_mono _ _ (fun '(picked, d', l1) w1 => w1 = w /\ lookup_ok aid l1 /\ lk_rest l1 = lk_rest l /\ lk_in_endgame l1 = lk_in_endgame l /\
    lk_active_lookups l1 = lk_active_lookups l /\ (forall c infos i a, nodes = Some c -> collect_nodes c = Ok infos -> (i, a) ∈ infos -> (i, V4 a) ∈ known_keys l1) /\
    (forall k, k ∈ known_keys l -> k ∈ known_keys l1) /\ forall p, picked = Some p -> p <> [] /\ (length p <= ITERATIVE_PICK_NUM)%nat /\ Forall (fun n => sha_ok (id n)) p)).
  { destruct nodes as [c|]; [|by apply dwp_ret; split_and!]. eapply dwp_mono; [by apply (take_nodes_ok aid)|].
    intros [[picked d'] l1] w1 [-> (infos & Ei & [H1 (H2 & H3 & H4 & _) Hknown Hkept _ _ Hp])]. split_and!; try done.
    - intros c' infos' i a [= <-] E Hia. rewrite Ei in E. injection E as <-. by apply Hknown.
    - intros k (e & -> & He)%list_elem_of_fmap. apply (list_elem_of_fmap_2 (fun e => node_key (entry_node e))). by apply Hkept.
    - intros p Ep. destruct (Hp p Ep) as (? & ? & ? & _). done. }
  intros [[picked d'] l1] w1 (-> & Hl1 & Hr1 & Heg1 & Hact1 & Hknown & Hkept & Hp). rewrite Heg1. destruct (lk_in_endgame l) eqn:Eg; cbn [negb].
  { apply dwp_ret. split; try done; [|by right|by rewrite Eg]. exists []. split; [by apply sends_refl|]. split; [exists []; by apply Forall2_nil|]. cbn. lia. }
  apply dwp_bind. destruct picked as [p|].
  - destruct (Hp p eq_refl) as (Hne & Hlen & Hsha). eapply dwp_mono; [apply (request_loop_ok own aid); [done|done|by apply Forall_map]|].
    intros [st l2] w2 [Hl2 Hw2 (Hr2 & Heg2 & Hso2) (sent & Hsend & Hreq & Hle & _) Hrel Hst2 Hac _ Htm]. rewrite length_map in Hle.
    assert (Hreq0 : exists addrs, requests l aid sent addrs) by (eexists; eapply requests_rest; [exact Hr1|exact Hreq]).
    destruct (decide (st = LkFailed)) as [->|Hf].
    + apply dwp_ret. split; try done; [congruence| | |by left| |].
      * exists sent. split; [done|]. split; [done|]. rewrite Eg, Heg2, Heg1. lia.
      * rewrite Eg; congruence.
      * intros c infos i a Ec Ei Hia. unfold known_keys. rewrite Hso2. by eapply Hknown.
      * intros k Hk. unfold known_keys. rewrite Hso2. by apply Hkept.
    + assert (Hne2 : lk_active_lookups l2 <> ∅) by (apply Hac; [done|by destruct p]).
      destruct st; try done; eapply (follow_idle own aid status l w l2 w2 sent); try done; try congruence; try lia.
      all: try (intros Htm0 tid Htid; destruct (Htm Hf tid Htid) as [Hin|]; [|done]; rewrite Hact1 in Hin; by eapply request_timer_mono, Htm0).
      all: try (intros c infos i a Ec Ei Hia; unfold known_keys; rewrite Hso2; by eapply Hknown).
      all: intros k Hk; unfold known_keys; rewrite Hso2; by apply Hkept.
  - apply dwp_ret. eapply (follow_idle own aid status l w l1 w []); try done; try congruence; [by apply sends_refl|exists []; by apply Forall2_nil|cbn; lia|].
    intros Htm tid. rewrite Hact1. apply Htm.
Qed.

(** An answer to an open request. *)
Lemma recv_response_ok own aid node tid msg l w : clock_ok -> lookup_ok aid l -> world_ok own w -> info_wire_ok (grs_info_type msg) ->
  wp (recv_response now node tid msg l) w (fun '(st, l') w' => event_post own aid ITERATIVE_PICK_NUM l w st l' w' /\
    (is_Some (lk_active_lookups l !! tid) -> st <> LkFailed -> exists opt_values, response_values msg = Ok opt_values /\ st = response_status opt_values l') /\
    (is_Some (lk_active_lookups l !! tid) -> forall c infos i a, response_nodes msg = Some c -> collect_nodes c = Ok infos -> (i, a) ∈ infos -> (i, V4 a) ∈ known_keys l') /\
    (forall token, is_Some (lk_active_lookups l !! tid) -> grs_token msg = Some token -> lk_announce_tokens l' !! node_key node = Some token)).
Proof.
  intros Hclock Hl Hw Hi. destruct (lk_active_lookups l !! tid) as [[d timer]|] eqn:Et.
  2: { unfold recv_response. rewrite Et. apply dwp_ret. split; [by apply event_nothing|]. split_and!; by intros [x Hx] || intros t [x Hx]. }
  destruct (recv_response_noted node tid msg l w d timer Et Hi) as (opt_values & w1 & Ev & Ht1 & Hs1 & E).
  destruct (noted_fields node tid msg l) as (E1 & E2 & E3 & E4 & E5 & E6 & _ & _).
  destruct (follow_up_ok own aid d (response_nodes msg) (response_status opt_values) (noted node tid msg l) w1) as ([st l'] & w' & Ef & Hp);
    [done|by apply noted_ok|by eapply world_ok_table| | |].
  { unfold response_nodes. destruct (grs_info_type msg); cbn in Hi; try done. by destruct Hi. }
  { intros x. unfold response_status. destruct opt_values; [done|apply current_status_not_failed]. }
  exists (st, l'), w'. split; [by rewrite E|]. destruct Hp as [Hl' Hw' Hr (sent & Hsend & Hreq & Hle) Heg Hrel Hst Hrun Hknown _].
  pose proof Hr as Hr'. injection Hr' as R1 R2 R3 R4 R5. rewrite E3 in *.
  split; [split; try done|split_and!].
  - by rewrite R1, R2, R4, E1, E2, E4.
  - exists sent. split; [by apply (sends_trans _ _ _ [] _ Hs1)|]. split; [by eapply (requests_same _ (noted node tid msg l))|done].
  - intros Hr0 Hf. destruct (lk_in_endgame l) eqn:Eg.
    + unfold lookup_running in *. rewrite (Heg eq_refl). rewrite Eg in Hr0. destruct Hr0 as (t & tid' & Ht & Hin). exists t, tid'. split; [done|].
      destruct Hs1 as (e1 & X1 & _), Hsend as (e2 & X2 & _). rewrite X2, X1. apply elem_of_app. left. apply elem_of_app. by left.
    + apply Hrun; [done|done|]. intros t Ht. rewrite E5 in Ht. eapply request_timer_mono; [exact Hs1|]. by apply (running_delete aid tid l w Hr0 Eg).
  - intros _ Hf. exists opt_values. split; [done|]. by destruct Hst.
  - intros _. exact Hknown.
  - intros token _ Htok. rewrite R5. unfold noted. rewrite Htok. destruct (grs_info_type msg); cbn; apply lookup_insert_eq.
Qed.

(** ** The end of a lookup *)

(** The announcement to [n]. *)
Definition announces (aid port : Z) l (m : list Z * SocketAddr) (n : Node) : Prop :=
  exists tid token, tid_ok aid tid /\ lk_announce_tokens l !! node_key n = Some token /\
    m = (AnnouncePeerRequest_encode (AnnouncePeerRequest_new (trans_id_bytes tid) (lk_table_id l) (lk_target_id l) token (Explicit port)), addr n).

Lemma announce_loop_ok own aid port todo : forall fatal l w, lookup_ok aid l -> world_ok own w ->
  Forall (fun n => sha_ok (id n) /\ is_Some (lk_announce_tokens l !! node_key n)) todo ->
  wp (announce_loop now port todo fatal l) w (fun '(fe, l') w' => lookup_ok aid l' /\ world_ok own w' /\ lk_rest l' = lk_rest l /\
    lk_all_sorted_nodes l' = lk_all_sorted_nodes l /\
    exists sent told, sends w w' sent /\ told `sublist_of` todo /\ Forall2 (announces aid port l) sent told /\
      (fe = false -> fatal = false /\ told = todo) /\ (reliable -> fatal = false -> fe = false)).
Proof.
  induction todo as [|n todo IH]; intros fatal l w Hl Hw Hn; cbn [announce_loop].
  - apply dwp_ret. split_and!; try done. exists [], []. split_and!; [by apply sends_refl|done|by apply Forall2_nil|done|done].
  - apply Forall_cons in Hn as [[Hsha [token Htok]] Hn]. pose proof Hl as (H1 & H2 & H3 & H4 & H5). apply dwp_bind.
    apply (wp_mid_generate aid); [done|]. intros tid g w1 Htid Hg Ht1 He1. apply dwp_bind. eapply dwp_lift; [cbn; by rewrite Htok|].
    apply dwp_bind, wp_send_out. intros ok w2 Eok Ht2 He2. assert (Hw2 : world_ok own w2) by (eapply world_ok_table; [|exact Hw]; congruence).
    set (m := AnnouncePeerRequest_encode _) in *. apply dwp_bind.
    apply (dwp_mono _ _ (fun _ w3 => world_ok own w3 /\ w_effects w3 = w_effects w2)).
    { destruct (fatal || negb ok); cbn [negb]; [by apply dwp_ret|]. eapply (wp_touch_found now own); [apply local_request_keeps|done|done|]. by intros w3 ? ?. }
    intros _ w3 [Hw3 He3]. eapply dwp_mono; [apply IH; [by split_and!|done|done]|].
    intros [fe l'] w' (Hl' & Hw' & Hr & Hso & sent & told & Hsend & Hsub & Hann & Hfe & Hrel). split_and!; try done.
    assert (Hs2 : sends w w' ((if ok then [(m, addr n)] else []) ++ sent)).
    { eapply sends_trans; [|destruct Hsend as (evs & Ee & Em); exists evs; rewrite Ee, He3; done].
      exists (if ok then [OutMessage m (addr n)] else []). rewrite He2, He1. by destruct ok. }
    destruct ok; cbn [app] in Hs2.
    + exists ((m, addr n) :: sent), (n :: told). split; [done|]. split; [by apply sublist_skip|]. split; [constructor; [by exists tid, token|done]|].
      rewrite orb_false_r in Hfe, Hrel. split; [intros X; destruct (Hfe X) as [? ->]; done|done].
    + exists sent, told. split; [done|]. split; [by apply sublist_cons|]. split; [done|]. split; [|intros [Hr' _]; by rewrite Hr' in Eok].
      intros X. destruct (Hfe X) as [Y _]. by destruct fatal.
Qed.

Lemma announce_nodes_ok aid l : lookup_ok aid l -> (length (announce_nodes l) <= ANNOUNCE_PICK_NUM)%nat /\
  Forall (fun n => sha_ok (id n) /\ is_Some (lk_announce_tokens l !! node_key n)) (announce_nodes l).
Proof.
  intros (_ & _ & _ & [_ Hf] & _). unfold announce_nodes. split; [rewrite length_take; lia|]. apply Forall_take, Forall_forall. intros n Hn.
  apply list_elem_of_In, filter_In in Hn as [Hn Hb]. split; [|by apply bool_decide_eq_true in Hb]. apply list_elem_of_In, list_elem_of_fmap in Hn as ([[d m] b] & -> & He).
  by apply (proj1 (Forall_forall _ _) Hf) in He as [_ ?].
Qed.

Lemma recv_finished_ok own aid port l w : lookup_ok aid l -> world_ok own w ->
  wp (recv_finished now port l) w (fun '(st, l') w' => lookup_ok aid l' /\ world_ok own w' /\ lk_target_id l' = lk_target_id l /\
    (st = LkFailed \/ st = LkCompleted) /\ (reliable -> st = LkCompleted) /\
    exists sent told, sends w w' sent /\ told `sublist_of` announce_nodes l /\ Forall2 (announces aid port l) sent told /\
      (st = LkCompleted -> told = if lk_will_announce l then announce_nodes l else [])).
Proof.
  intros Hl Hw. unfold recv_finished. apply dwp_bind.
  apply (dwp_mono _ _ (fun '(fe, l1) w1 => lookup_ok aid l1 /\ world_ok own w1 /\ lk_target_id l1 = lk_target_id l /\ (reliable -> fe = false) /\
    exists sent told, sends w w1 sent /\ told `sublist_of` announce_nodes l /\ Forall2 (announces aid port l) sent told /\
      (fe = false -> told = if lk_will_announce l then announce_nodes l else []))).
  - destruct (lk_will_announce l).
    + destruct (announce_nodes_ok aid l Hl) as [_ Hn]. eapply dwp_mono; [by apply (announce_loop_ok own aid)|].
      intros [fe l1] w1 (H1 & H2 & H3 & H4 & sent & told & Hs & Hsub & Hf & Hfe & Hrel). injection H3 as R1 R2 R3 R4 R5.
      split_and!; try done; [by intros ?; apply Hrel|]. exists sent, told. split_and!; try done. intros X. by destruct (Hfe X).
    + apply dwp_ret. split_and!; try done. exists [], []. split_and!; [by apply sends_refl|apply sublist_nil_l|by apply Forall2_nil|done].
  - intros [fe l1] w1 ((H1 & H2 & H3 & H4 & _) & Hw1 & Ht & Hrel & sent & told & Hs & Hsub & Hf & Hfe).
    assert (Hl1 : lookup_ok aid (lk_set_endgame false (lk_set_active ∅ l1))) by (by split_and!).
    assert (Hdone : current_lookup_status (lk_set_endgame false (lk_set_active ∅ l1)) = LkCompleted) by done.
    destruct fe; apply dwp_ret; split_and!; try done; try (by left); try (by right).
    + intros Hr. by specialize (Hrel Hr).
    + exists sent, told. by split_and!.
    + exists sent, told. split_and!; try done. intros _. by apply Hfe.
Qed.

End Lookup.
