(* ===== verification/DhtLookupRuns.v ===== *)
(** * DHT lookups: runs

    The start of a lookup, the properties of whole lookups and their witnesses. *)

From stdpp Require Import gmap sorting.
From Stdlib Require Import Sorted.
From S2P Require Import Prelude RustStd BTree UtilSha UtilConvert Chrono DhtNode DhtTable DhtTableSpec DhtClosest DhtClosestSpec UtilTrans DhtTransaction DhtCompact DhtMessage DhtWorker DhtLookup DhtLookupSpec.

Section Runs.
Context {C : Chrono} {Env : DhtEnv} {BS : BinarySearch} (now : DateTime).
Implicit Types (l : TableLookup) (w : World).

(** ** The start *)

Lemma pick_initial_spec (sorted : list (ShaHash * Node * bool)) :
  picked_nodes (pick_initial_nodes sorted).1 = map entry_node (take INITIAL_PICK_NUM sorted) /\
  same_nodes (pick_initial_nodes sorted).2 sorted.
Proof.
  unfold pick_initial_nodes. cbn [fst snd]. split.
  - rewrite drop_replicate, <- (picked_used (map entry_node (take INITIAL_PICK_NUM sorted)) (INITIAL_PICK_NUM - length (map (fun '(_, node, _) => (node, true)) (take INITIAL_PICK_NUM sorted)))).
    f_equal. f_equal. rewrite map_map. apply map_ext. by intros [[d n] b].
  - unfold same_nodes. rewrite map_app, map_map. rewrite <- (take_drop INITIAL_PICK_NUM sorted) at 3. rewrite map_app. f_equal.
    apply map_ext. by intros [[d n] b].
Qed.

Definition has_good t : Prop := exists n, n ∈ table_nodes t /\ status now n = Good.

Lemma filter_pos {A} (p : A -> bool) (l : list A) : List.filter p l = [] -> forall x, x ∈ l -> p x = false.
Proof. intros E x Hx. destruct (p x) eqn:Ep; [|done]. assert (In x (List.filter p l)) as Hin by (by apply filter_In; split; [apply list_elem_of_In|]). by rewrite E in Hin. Qed.

(** The good nodes of the table: the ones [new] starts from are among them. *)
Lemma start_nodes own t target : table_ok t -> sha_ok target -> table_id t = own ->
  exists closest, closest_nodes now t target = Ok closest /\
    let start := take MAX_BUCKET_SIZE (List.filter (fun n => bool_decide (status now n = Good)) closest) in
    Forall (fun n => sha_ok (id n)) start /\ (start <> [] <-> has_good t).
Proof.
  intros Ht Hg Hid. destruct (closest_nodes_total now t target Ht Hg) as (closest & E & Hp). exists closest. split; [done|]. cbv zeta.
  assert (Hin : forall n, n ∈ closest <-> n ∈ table_nodes t /\ is_good_node now n = true).
  { intros n. rewrite Hp, list_elem_of_In, filter_In, <- list_elem_of_In. done. }
  split.
  - apply Forall_take, Forall_forall. intros n Hn. apply list_elem_of_In, filter_In in Hn as [Hn _]. apply list_elem_of_In, Hin in Hn as [Hn _].
    apply elem_table_nodes in Hn as (i & b & Hi & Hn). destruct Ht as (_ & _ & Hb). destruct (Hb i b Hi) as (_ & Hs & _). by apply Hs.
  - destruct (List.filter _ closest) as [|n rest] eqn:Ef; cbn [take]; [rewrite take_nil|]; split; try done.
    + intros (n & Hn & Hgood). assert (Hc : n ∈ closest). { apply Hin. split; [done|]. unfold is_good_node. by rewrite Hgood. }
      pose proof (filter_pos _ _ Ef n Hc) as Hx. cbv beta in Hx. by rewrite bool_decide_true in Hx.
    + intros _. assert (Hn : n ∈ n :: rest) by left. rewrite <- Ef in Hn. apply list_elem_of_In, filter_In in Hn as [Hn Hs]. apply bool_decide_eq_true in Hs.
      exists n. split; [|done]. by apply list_elem_of_In, Hin in Hn as [? _].
Qed.

Record started_post (own target : ShaHash) (aid : Z) (announce : bool) w (o : option TableLookup) w' : Prop := {
  sp_world : world_ok own w';
  sp_reliable : reliable -> o <> None;
  sp_sent : exists sent, sends w w' sent /\ (length sent <= INITIAL_PICK_NUM)%nat /\
    (~ has_good (w_table w) -> w_effects w' = w_effects w /\ o <> None);
  sp_lookup : forall l, o = Some l -> lookup_ok aid l /\ lk_target_id l = target /\ lk_table_id l = own /\ lk_will_announce l = announce /\
    lk_in_endgame l = false /\ lk_recv_values l = false /\ lk_announce_tokens l = ∅ /\
    (has_good (w_table w) -> lookup_running aid l w') /\ (~ has_good (w_table w) -> lk_active_lookups l = ∅ /\ lk_all_sorted_nodes l = [])
}.

Lemma lookup_new_ok own aid target g announce w : world_ok own w -> sha_ok target -> mid_ok aid g ->
  wp (TableLookup_new now own target g announce) w (fun o w' => started_post own target aid announce w o w').
Proof.
  intros Hw Htg Hg. pose proof Hw as (Ht & Hid & _). assert (Hown : sha_ok own) by (destruct Ht as [Hok _]; by rewrite <- Hid).
  unfold TableLookup_new. apply dwp_bind, wp_get_table, dwp_bind.
  destruct (start_nodes own (w_table w) target Ht Htg Hid) as (closest & E & Hf & Hgood). eapply dwp_lift; [exact E|].
  set (start := take MAX_BUCKET_SIZE _) in *.
  destruct (insert_all_ok target (map (fun n => (n, false)) start) []) as (sorted & Es & Hs & Hfrom & _ & Hto); [split; constructor|by apply Forall_map|].
  apply dwp_bind. eapply dwp_lift; [exact Es|]. destruct (pick_initial_spec sorted) as [Hpick Hsame]. destruct (pick_initial_nodes sorted) as [picks sorted'].
  cbn [fst snd] in Hpick, Hsame. cbv iota beta. rewrite Hpick.
  set (todo := map _ (map entry_node _)). set (l0 := mkLookup _ _ _ _ _ _ _ _ _ _).
  assert (Hl0 : lookup_ok aid l0) by (split_and!; try done; by eapply sorted_same_nodes; [symmetry; exact Hsame|]).
  assert (Hempty : todo = [] <-> ~ has_good (w_table w)).
  { rewrite <- Hgood. unfold todo. split.
    - intros X%map_eq_nil%map_eq_nil Y. destruct start as [|n rest]; [done|].
      assert (node_key n ∈ map (fun e => node_key (entry_node e)) sorted) as Hn by (apply Hto; left). by destruct sorted; [apply elem_of_nil in Hn|].
    - intros X. destruct sorted as [|e sorted]; [done|]. destruct (Hfrom e) as [Hn|Hn]; [left|by apply elem_of_nil in Hn|].
      destruct start; [by apply elem_of_nil in Hn|]. by destruct X. }
  assert (Htodo : Forall (fun p => sha_ok (id p.1)) todo /\ (length todo <= INITIAL_PICK_NUM)%nat).
  { unfold todo. rewrite !Forall_map, !length_map, length_take. split; [|lia]. apply Forall_take. eapply Forall_impl; [exact (proj2 Hs)|]. by intros e [_ ?]. }
  assert (Hnil : todo = [] -> sorted' = []).
  { intros X%map_eq_nil%map_eq_nil. apply same_nodes_length in Hsame. destruct sorted, sorted'; done. }
  destruct Htodo as [Htodo Hlt]. clearbody todo. apply dwp_bind. destruct todo as [|p todo].
  - apply dwp_ret, dwp_ret. assert (Hno : ~ has_good (w_table w)) by (by apply Hempty). split; try done.
    + exists []. split; [by apply sends_refl|]. split; [cbn; lia|done].
    + intros l [= <-]. split_and!; try done. intros _. split; [done|]. by apply Hnil.
  - assert (Hhas : ~ ~ has_good (w_table w)) by (intros X%Hempty; done).
    eapply dwp_mono; [by apply (request_loop_ok now own aid (p :: todo) 0 l0)|].
    intros [st l'] w' [Hl' Hw' (Hr & Heg & Hso) (sent & Hsend & _ & Hle & Hlen) Hrel Hst Hac _ Htm]. injection Hr as R1 R2 R3 R4 R5.
    assert (Hpost : started_post own target aid announce w (if decide (st = LkFailed) then None else Some l') w').
    { split; try done.
      - intros Hr. destruct (decide (st = LkFailed)); [by destruct (Hrel Hr)|done].
      - exists sent. split; [done|]. split; [lia|]. done.
      - intros l. destruct (decide (st = LkFailed)); [done|]. intros [= <-]. split_and!; try done. intros _. unfold lookup_running. rewrite Heg. split; [by apply Hac|].
        intros tid Htid. by destruct (Htm n tid Htid) as [[x Hx]|]. }
    destruct st; by apply dwp_ret.
Qed.

(** ** Picking *)

Lemma passed_on_decreasing target (l : list Node) : forall c, StronglySorted (fun a b => bytes_lt (sha_bytes (pick_dist target b)) (sha_bytes (pick_dist target a))) (c :: l) ->
  passed_on target c l = [].
Proof.
  induction l as [|n l IH]; intros c Hs; [done|]. inversion Hs as [|? ? Hs' Hc]; subst. apply Forall_cons in Hc as [Hc _]. cbn [passed_on].
  apply sha_ltb_spec in Hc. rewrite Hc. by apply IH.
Qed.

(** The nodes picked from a response are those of [pick_reference]: the first one is
    closest to the target, the second is the closest of the nodes that came no closer than
    one before them, and so on. They are nodes of the response, at most three; but a
    response that lists its nodes from far to near yields one pick only. *)
Lemma picked_nodes_reference (target : ShaHash) (l : list Node) :
  let picked := picked_nodes (pick_iterate_nodes l target) in
  picked = pick_reference 3 target l /\ (length picked <= ITERATIVE_PICK_NUM)%nat /\ (forall n, n ∈ picked -> n ∈ l) /\
  (forall n, n ∈ l -> exists c, head picked = Some c /\ sha_le (pick_dist target c) (pick_dist target n)) /\
  (StronglySorted (fun a b => bytes_lt (sha_bytes (pick_dist target b)) (sha_bytes (pick_dist target a))) l -> (length picked <= 1)%nat).
Proof.
  cbv zeta. rewrite pick_iterate_reference. split; [done|]. split; [apply pick_reference_length|]. split; [apply pick_reference_elem|].
  destruct l as [|m l]; [split; [by intros n ?%elem_of_nil|cbn; lia]|]. cbn [pick_reference head]. split.
  - intros n Hn. exists (closest_of target m l). split; [done|]. by apply closest_of_elem.
  - intros Hs. rewrite (passed_on_decreasing _ _ _ Hs). cbn. lia.
Qed.

(** ** Bounds *)

(** C33: how many datagrams the events of a lookup send: its start at most four, an answer
    at most three, a timeout none, unless it starts the endgame, in which every known node
    is asked at most once; in the endgame an answer sends nothing; the end at most eight. *)
Theorem lookup_message_bounds own aid target g announce port node tid msg l w :
  clock_ok now -> world_ok own w -> sha_ok target -> mid_ok aid g -> lookup_ok aid l -> info_wire_ok (grs_info_type msg) ->
  wp (TableLookup_new now own target g announce) w (fun _ w' => exists sent, sends w w' sent /\ (length sent <= 4)%nat) /\
  wp (recv_response now node tid msg l) w (fun '(_, l') w' => exists sent, sends w w' sent /\
    (length sent <= if lk_in_endgame l then 0 else if lk_in_endgame l' then length (lk_all_sorted_nodes l') else 3)%nat) /\
  wp (recv_timeout now tid l) w (fun '(_, l') w' => exists sent, sends w w' sent /\
    (length sent <= if lk_in_endgame l then 0 else if lk_in_endgame l' then length (lk_all_sorted_nodes l') else 0)%nat) /\
  wp (recv_finished now port l) w (fun _ w' => exists sent, sends w w' sent /\ (length sent <= 8)%nat).
Proof.
  intros Hclock Hw Htg Hg Hl Hm. split_and!.
  - eapply dwp_mono; [by apply (lookup_new_ok own aid)|]. intros o w' [_ _ (sent & Hs & Hle & _) _]. by exists sent.
  - eapply dwp_mono; [by apply (recv_response_ok now own aid)|]. intros [st l'] w' [[_ _ _ (sent & Hs & _ & Hle) _ _ _] _]. by exists sent.
  - eapply dwp_mono; [by apply (recv_timeout_ok now own aid)|]. intros [st l'] w' [[_ _ _ (sent & Hs & _ & Hle) _ _ _] _]. by exists sent.
  - eapply dwp_mono; [by apply (recv_finished_ok now own aid)|]. intros [st l'] w' (_ & _ & _ & _ & _ & sent & told & Hs & Hsub & Hf & _). exists sent. split; [done|].
    apply Forall2_length in Hf. apply sublist_length in Hsub. destruct (announce_nodes_ok aid l Hl) as [Hle _]. unfold ANNOUNCE_PICK_NUM in Hle. lia.
Qed.

(** ** Announcing *)

(** The known nodes that gave a token. *)
Definition with_token l : list Node :=
  List.filter (fun n => bool_decide (is_Some (lk_announce_tokens l !! node_key n))) (map entry_node (lk_all_sorted_nodes l)).

Lemma announce_nodes_with_token l : announce_nodes l = take ANNOUNCE_PICK_NUM (with_token l).
Proof. unfold announce_nodes, with_token. do 2 f_equal. apply map_ext. by intros [[d n] b]. Qed.

Lemma filter_sorted {A} (R : A -> A -> Prop) (p : A -> bool) (l : list A) : StronglySorted R l -> StronglySorted R (List.filter p l).
Proof.
  induction 1 as [|x l Hl IH Hx]; [constructor|]. cbn. destruct (p x); [|done]. constructor; [done|]. apply Forall_forall. intros y Hy.
  apply list_elem_of_In, filter_In in Hy as [Hy _]. eapply (proj1 (Forall_forall _ _) Hx), list_elem_of_In, Hy.
Qed.

Lemma with_token_sorted aid l : lookup_ok aid l ->
  StronglySorted (fun a b => sha_le (pick_dist (lk_target_id l) a) (pick_dist (lk_target_id l) b)) (with_token l).
Proof.
  intros (_ & _ & _ & [Hs Hf] & _). apply filter_sorted. induction Hs as [|e es Hes IH He]; [constructor|]. apply Forall_cons in Hf as [[Hd _] Hf]. cbn [map].
  constructor; [by apply IH|]. apply Forall_map. apply Forall_forall. intros x Hx. pose proof (proj1 (Forall_forall _ _) He x Hx) as Hle.
  destruct (proj1 (Forall_forall _ _) Hf x Hx) as [Hdx _]. unfold pick_dist. by rewrite <- Hd, <- Hdx.
Qed.

(** At its end a lookup that was asked to announce sends its announcement, with the
    token each of them gave, to the eight closest known nodes that gave a token, or to all
    of them when there are fewer, and completes. *)
Lemma lookup_announces_to_closest own aid port l w : reliable -> world_ok own w -> lookup_ok aid l -> lk_will_announce l = true ->
  exists l' w' sent told, recv_finished now port l w = Ok ((LkCompleted, l'), w') /\ sends w w' sent /\ Forall2 (announces aid port l) sent told /\
    (forall n, n ∈ told -> n ∈ with_token l) /\ length told = (8 `min` length (with_token l))%nat /\
    forall n m, n ∈ told -> m ∈ drop 8 (with_token l) -> sha_le (pick_dist (lk_target_id l) n) (pick_dist (lk_target_id l) m).
Proof.
  intros Hr Hw Hl Ha. destruct (recv_finished_ok now own aid port l w Hl Hw) as ([st l'] & w' & E & _ & _ & _ & _ & Hst & sent & told & Hs & _ & Hf & Htold).
  rewrite (Hst Hr) in *. specialize (Htold eq_refl). rewrite Ha, announce_nodes_with_token in Htold. subst told.
  exists l', w', sent, (take ANNOUNCE_PICK_NUM (with_token l)). split_and!; try done.
  - intros n Hn. rewrite <- (take_drop ANNOUNCE_PICK_NUM (with_token l)). apply elem_of_app. by left.
  - by rewrite length_take.
  - intros n m Hn Hm. pose proof (with_token_sorted aid l Hl) as Hsort. rewrite <- (take_drop ANNOUNCE_PICK_NUM (with_token l)) in Hsort.
    by eapply (StronglySorted_app_1_elem_of _ _ _ n m Hsort).
Qed.

(** ** Silence *)

Fixpoint deliver_timeouts (tids : list TransactionID) l : W TableLookup :=
  match tids with
  | [] => wret l
  | tid :: tids => let! (_, l) := recv_timeout now tid l in deliver_timeouts tids l
  end.

Lemma deliver_timeouts_ok own aid tids : reliable -> forall l w, lookup_ok aid l -> world_ok own w -> lookup_running aid l w -> lk_in_endgame l = false ->
  NoDup tids -> tids <> [] -> (forall t, is_Some (lk_active_lookups l !! t) <-> t ∈ tids) ->
  wp (deliver_timeouts tids l) w (fun l' w' => lookup_ok aid l' /\ world_ok own w' /\ endgame_timer aid w').
Proof.
  intros Hrel. induction tids as [|t tids IH]; [done|]. intros l w Hl Hw Hrun Heg Hnd _ Hact. cbn [deliver_timeouts]. apply dwp_bind.
  assert (Ht : is_Some (lk_active_lookups l !! t)) by (apply Hact; left). apply NoDup_cons in Hnd as [Hnt Hnd].
  eapply dwp_mono; [by apply (recv_timeout_ok now own aid)|]. intros [st l'] w' [[Hl' Hw' _ _ _ Hr Hrun'] (_ & _ & Hend)].
  destruct (Hend Ht Heg) as [Heg' Hact']. specialize (Hrun' Hrun (Hr Hrel)).
  assert (Hdel : forall x, is_Some (delete t (lk_active_lookups l) !! x) <-> x ∈ tids).
  { intros x. destruct (decide (x = t)) as [->|Hne]; [rewrite lookup_delete_eq; split; [by intros []|done]|].
    rewrite lookup_delete_ne by congruence. rewrite Hact, elem_of_cons. naive_solver. }
  destruct tids as [|t2 tids].
  - cbn [deliver_timeouts]. apply dwp_ret. split; [done|]. split; [done|]. rewrite bool_decide_true in Heg'; [unfold lookup_running in Hrun'; by rewrite Heg' in Hrun'|].
    apply map_empty. intros x. apply eq_None_not_Some. rewrite Hdel. apply not_elem_of_nil.
  - rewrite bool_decide_false in Heg'.
    + apply IH; [done..|]. intros x. rewrite Hact' by done. apply Hdel.
    + intros Hemp. assert (Hx : is_Some (delete t (lk_active_lookups l) !! t2)) by (apply Hdel; left). rewrite Hemp in Hx. by destruct Hx.
Qed.

(** C32: a lookup that starts from a table with a good node, in surroundings where every
    message can be sent and every timer set, ends although nobody answers: every request
    it sent has a timer; when these have fired, in any order, the endgame has begun and its
    timer is set; and when that fires the lookup is complete. *)
Theorem silent_lookup_completes own target aid g announce port w :
  reliable -> world_ok own w -> sha_ok target -> mid_ok aid g -> has_good (w_table w) ->
  exists l w1, TableLookup_new now own target g announce w = Ok (Some l, w1) /\
    (forall tid, is_Some (lk_active_lookups l !! tid) -> request_timer w1 tid) /\
    forall tids, tids ≡ₚ map fst (map_to_list (lk_active_lookups l)) ->
    exists l2 w2, deliver_timeouts tids l w1 = Ok (l2, w2) /\ endgame_timer aid w2 /\
    exists l3 w3, recv_finished now port l2 w2 = Ok ((LkCompleted, l3), w3).
Proof.
  intros Hr Hw Htg Hg Hgood. destruct (lookup_new_ok own aid target g announce w Hw Htg Hg) as (o & w1 & E & [Hw1 Hsome _ Hlk]).
  destruct o as [l|]; [|by destruct (Hsome Hr)]. destruct (Hlk l eq_refl) as (Hl & _ & _ & _ & Heg & _ & _ & Hrun & _). specialize (Hrun Hgood).
  exists l, w1. split; [done|]. pose proof Hrun as Hrun0. unfold lookup_running in Hrun0. rewrite Heg in Hrun0. destruct Hrun0 as [Hne Htm]. split; [done|].
  intros tids Hp.
  assert (Hin : forall t, is_Some (lk_active_lookups l !! t) <-> t ∈ tids).
  { intros t. rewrite Hp. split.
    - intros [x Hx]. apply list_elem_of_fmap. exists (t, x). split; [done|]. by apply elem_of_map_to_list.
    - intros ([t' x] & -> & Hx)%list_elem_of_fmap. apply elem_of_map_to_list in Hx. by exists x. }
  destruct (deliver_timeouts_ok own aid tids Hr l w1) as (l2 & w2 & E2 & Hl2 & Hw2 & Htimer); try done.
  - rewrite Hp. apply NoDup_fst_map_to_list.
  - intros ->. apply Hne, map_empty. intros t. apply eq_None_not_Some. rewrite Hin. apply not_elem_of_nil.
  - exists l2, w2. split; [done|]. split; [done|].
    destruct (recv_finished_ok now own aid port l2 w2 Hl2 Hw2) as ([st l3] & w3 & E3 & _ & _ & _ & _ & Hst & _). rewrite (Hst Hr) in E3. by exists l3, w3.
Qed.

End Runs.

(** ** Witnesses *)

(** Surroundings in which every call succeeds. *)
#[export] Instance sample_env : DhtEnv := {|
  out_open _ := true; loop_open _ := true; sender_open _ _ := true; new_timer n := Some n;
  shuffle_numbers _ _ := 0; random_u32 n := Z.of_nat n; handshaker_port := 6881
|}.

Definition sample_world : @World chrono_Z := mkWorld sample_table 0 [].

Lemma sample_reliable : @reliable sample_env.
Proof. split; [done|]. intros n. by exists n. Qed.

Lemma sample_table_v4 : table_all v4_node sample_table.
Proof.
  assert (Forall (fun n => match addr n with V4 a => sock_v4_ok a | V6 _ => False end) (table_nodes sample_table)) as Hf by (vm_compute; repeat constructor; discriminate).
  intros n Hn. apply (proj1 (Forall_forall _ _) Hf) in Hn. unfold v4_node. destruct (addr n) as [a|]; [by exists a|done].
Qed.

Lemma sample_world_ok : world_ok sample_own sample_world.
Proof. split; [apply sample_table_ok|]. split; [vm_compute; reflexivity|apply sample_table_v4]. Qed.

Definition sample_target : ShaHash := sample_id 1 3.
Lemma sample_target_ok : sha_ok sample_target.
Proof. split; [reflexivity|]. apply (bool_decide_unpack _). vm_compute. exact I. Qed.

Definition sample_mid : MIDGenerator := MIDGenerator_new (as_u64 (Z.shiftl 5 MESSAGE_ID_SHIFT)).
Lemma sample_mid_ok : mid_ok 5 sample_mid.
Proof. apply mid_new_ok. done. Qed.

Lemma sample_has_good : has_good sample_now (w_table sample_world).
Proof.
  exists (sample_contact 1 3 18). split; [by left|reflexivity].
Qed.

Lemma silent_lookup_completes_witness :
  exists l w1, TableLookup_new sample_now sample_own sample_target sample_mid true sample_world = Ok (Some l, w1) /\
    forall tid, is_Some (lk_active_lookups l !! tid) -> request_timer w1 tid.
Proof.
  destruct (silent_lookup_completes sample_now sample_own sample_target 5 sample_mid true 6881 sample_world) as (l & w1 & E & Ht & _);
    [apply sample_reliable|apply sample_world_ok|apply sample_target_ok|apply sample_mid_ok|apply sample_has_good|].
  exists l, w1. split; [exact E|exact Ht].
Defined.

(** A lookup that knows one node, which gave a token. *)
Definition sample_lookup : @TableLookup chrono_Z :=
  let n := sample_contact 1 3 18 in
  mkLookup sample_own sample_target true false sample_mid true ∅ {[ node_key n := [1; 2; 3] ]} ∅ [(ShaHash_bitxor sample_target (id n), n, true)].

Lemma sample_lookup_ok : lookup_ok 5 sample_lookup.
Proof.
  split; [apply sample_own_ok|]. split; [apply sample_target_ok|]. split; [apply sample_mid_ok|]. split; [|apply map_Forall_empty].
  split; repeat constructor; cbn; apply (bool_decide_unpack _); vm_compute; exact I.
Qed.

Lemma lookup_announces_to_closest_witness :
  exists l' w' sent, recv_finished sample_now 6881 sample_lookup sample_world = Ok ((LkCompleted, l'), w') /\ sends sample_world w' sent /\ length sent = 1%nat.
Proof.
  destruct (lookup_announces_to_closest sample_now sample_own 5 6881 sample_lookup sample_world) as (l' & w' & sent & told & E & Hs & Hf & _ & Hlen & _);
    [apply sample_reliable|apply sample_world_ok|apply sample_lookup_ok|reflexivity|].
  exists l', w', sent. split; [exact E|]. split; [exact Hs|]. rewrite (Forall2_length _ _ _ Hf), Hlen. reflexivity.
Defined.

Definition sample_response : GetPeersResponse :=
  GetPeersResponse_new (replicate 8 0) sample_target (Some [9]) (Nodes (mkCompactNodeInfo (replicate 26 7))).

Lemma lookup_message_bounds_witness :
  wp (recv_response sample_now (sample_contact 1 3 18) (TransactionID_new 0) sample_response sample_lookup) sample_world
    (fun _ w' => exists sent, sends sample_world w' sent /\ (length sent <= 0)%nat).
Proof.
  destruct (lookup_message_bounds sample_now sample_own 5 sample_target sample_mid true 6881 (sample_contact 1 3 18) (TransactionID_new 0) sample_response
    sample_lookup sample_world) as (_ & Hr & _);
    [by eexists|apply sample_world_ok|apply sample_target_ok|apply sample_mid_ok|apply sample_lookup_ok| |].
  - split; [apply (bool_decide_unpack _); vm_compute; exact I|reflexivity].
  - destruct Hr as ([st l'] & w' & E & Hs). exists (st, l'), w'. split; [exact E|exact Hs].
Defined.
