(* ===== verification/DhtBootstrap.v ===== *)
(** * DHT bootstrap and refresh

    Model of [dht/worker/bootstrap.rs] and [dht/worker/refresh.rs]. A bootstrap first asks
    its routers and start nodes, and once the first timer has fired visits the 160 buckets
    in order, asking for each at most eight questionable nodes for an id in that bucket.
    A refresh asks one questionable node per interval, a bucket at a time. *)

From stdpp Require Import gmap.
From S2P Require Import Prelude RustStd UtilSha UtilConvert Chrono DhtNode DhtTable DhtClosest UtilTrans DhtTransaction DhtMessage DhtWorker.

Definition BOOTSTRAP_INITIAL_TIMEOUT : Z := 2500.
Definition BOOTSTRAP_NODE_TIMEOUT : Z := 500.
Definition BOOTSTRAP_PINGS_PER_BUCKET : nat := 8.
Definition REFRESH_INTERVAL_TIMEOUT : Z := 6000.

Inductive BootstrapStatus : Type := BsIdle | BsBootstrapping | BsCompleted | BsFailed.
Inductive RefreshStatus : Type := RfRefreshing | RfFailed.

#[export] Instance BootstrapStatus_eq_dec : EqDecision BootstrapStatus.
Proof. solve_decision. Defined.

(** The id with one bit flipped; an index of 160 or more panics. *)
Definition flip_id_bit_at_index (node_id : ShaHash) (index : nat) : res unit ShaHash :=
  let id_bytes := sha_bytes node_id in
  let '(byte_index, bit_index) := (index / 8, index mod 8)%nat in
  let actual_bit_index := (7 - bit_index)%nat in
  let? b := or_panic (id_bytes !! byte_index) in
  Ok (mkShaHash (<[byte_index := Z.lxor b (Z.shiftl 1 (Z.of_nat actual_bit_index))]> id_bytes)).

Section Bootstrap.
Context `{Chrono} `{DhtEnv} `{!HashOrder SocketAddr unit} (now : DateTime).

Record TableBootstrap : Type := mkBootstrap {
  bs_table_id : ShaHash;
  bs_id_generator : MIDGenerator;
  bs_starting_nodes : list SocketAddr;
  bs_active_messages : gmap TransactionID Timeout;
  bs_starting_routers : gset SocketAddr;
  bs_curr_bucket : nat
}.

(** Field assignment. *)
Definition bs_set_generator (v : MIDGenerator) (b : TableBootstrap) : TableBootstrap :=
  mkBootstrap (bs_table_id b) v (bs_starting_nodes b) (bs_active_messages b) (bs_starting_routers b) (bs_curr_bucket b).
Definition bs_set_active (v : gmap TransactionID Timeout) (b : TableBootstrap) : TableBootstrap :=
  mkBootstrap (bs_table_id b) (bs_id_generator b) (bs_starting_nodes b) v (bs_starting_routers b) (bs_curr_bucket b).
Definition bs_set_bucket (v : nat) (b : TableBootstrap) : TableBootstrap :=
  mkBootstrap (bs_table_id b) (bs_id_generator b) (bs_starting_nodes b) (bs_active_messages b) (bs_starting_routers b) v.

Definition TableBootstrap_new (table_id : ShaHash) (id_generator : MIDGenerator) (start : list SocketAddr) (routers : list SocketAddr) : TableBootstrap :=
  let router_filter := list_to_set routers in
  mkBootstrap table_id id_generator start ∅ router_filter 0.

(** The order in which the set of routers is walked. *)
Definition router_order (routers : gset SocketAddr) : list SocketAddr := map fst (hash_entries (gset_to_gmap tt routers)).

Definition current_bootstrap_status (b : TableBootstrap) : BootstrapStatus :=
  if (bs_curr_bucket b =? MAX_BUCKETS)%nat || bool_decide (bs_active_messages b = ∅) then BsIdle else BsBootstrapping.

Definition find_node_request (trans_id : TransactionID) (table_id target_id : ShaHash) : list Z :=
  FindNodeRequest_encode (FindNodeRequest_new (trans_id_bytes trans_id) table_id target_id).

(** The loop that sends one message to all routers and start nodes; [false] ends it early. *)
Fixpoint send_all (msg : list Z) (addrs : list SocketAddr) : W bool :=
  match addrs with
  | [] => wret true
  | a :: addrs =>
      let! sent := send_out msg a in
      if sent : bool then send_all msg addrs else wret false
  end.

Definition start_bootstrap (b : TableBootstrap) : W (BootstrapStatus * TableBootstrap) :=
  let b := bs_set_bucket 0 (bs_set_active ∅ b) in
  let! (trans_id, g) := mid_generate (bs_id_generator b) in
  let b := bs_set_generator g b in
  let! res_timeout := timeout_ms (BOOTSTRAP_INITIAL_TIMEOUT, CheckBootstrapTimeout trans_id) BOOTSTRAP_INITIAL_TIMEOUT in
  match res_timeout with
  | None => wret (BsFailed, b)
  | Some timeout =>
      let b := bs_set_active (<[trans_id := timeout]> (bs_active_messages b)) b in
      let find_node_msg := find_node_request trans_id (bs_table_id b) (bs_table_id b) in
      let! sent := send_all find_node_msg (router_order (bs_starting_routers b) ++ bs_starting_nodes b) in
      if sent : bool then wret (current_bootstrap_status b, b) else wret (BsFailed, b)
  end.

Definition is_router (a : SocketAddr) (b : TableBootstrap) : bool := bool_decide (a ∈ bs_starting_routers b).

(** The loop of [send_bootstrap_requests]: the flag is [false] when it has failed. *)
Fixpoint bootstrap_requests (todo : list Node) (target_id : ShaHash) (messages_sent : nat) (b : TableBootstrap) : W (bool * nat * TableBootstrap) :=
  match todo with
  | [] => wret (true, messages_sent, b)
  | node :: todo =>
      let! (trans_id, g) := mid_generate (bs_id_generator b) in
      let b := bs_set_generator g b in
      let find_node_msg := find_node_request trans_id (bs_table_id b) target_id in
      let! res_timeout := timeout_ms (BOOTSTRAP_NODE_TIMEOUT, CheckBootstrapTimeout trans_id) BOOTSTRAP_NODE_TIMEOUT in
      match res_timeout with
      | None => wret (false, messages_sent, b)
      | Some timeout =>
          let! sent := send_out find_node_msg (addr node) in
          if sent : bool then
            let! _ := touch now (local_request now) node in
            let b := bs_set_active (<[trans_id := timeout]> (bs_active_messages b)) b in
            bootstrap_requests todo target_id (messages_sent + 1) b
          else wret (false, messages_sent, b)
      end
  end.

(** [next_bucket] is the recursive call of [bootstrap_next_bucket]. *)
Definition send_bootstrap_requests (next_bucket : TableBootstrap -> W (BootstrapStatus * TableBootstrap)) (found : list Node) (target_id : ShaHash)
    (b : TableBootstrap) : W (BootstrapStatus * TableBootstrap) :=
  let! (ok, messages_sent, b) := bootstrap_requests (take BOOTSTRAP_PINGS_PER_BUCKET found) target_id 0 b in
  if negb ok then wret (BsFailed, b)
  else
    let b := bs_set_bucket (bs_curr_bucket b + 1) b in
    if (bs_curr_bucket b =? MAX_BUCKETS)%nat then wret (BsCompleted, b)
    else if (messages_sent =? 0)%nat then next_bucket b
    else wret (BsBootstrapping, b).

(** The nodes of an item of the bucket iterator, or of the dummy bucket. *)
Definition contents_nodes (c : option BucketContents) : list Node :=
  match c with
  | Some (Sorted b) | Some (Assorted b) => nodes b
  | Some Empty | None => nodes Bucket_new
  end.

(** The nodes [bootstrap_next_bucket] chooses from. *)
Definition bucket_candidates (t : RoutingTable) (curr : nat) (target_id : ShaHash) : res unit (list Node) :=
  if (curr =? 0)%nat || (curr =? 1)%nat then closest_nodes now t target_id
  else
    let? percent_25_bucket := buckets_skip_next (buckets t) 0 (curr - 2) in
    let? percent_50_bucket := Buckets_next (buckets t) (curr - 1) in
    let? percent_100_bucket := Buckets_next (buckets t) curr in
    Ok (contents_nodes percent_25_bucket ++ contents_nodes percent_50_bucket ++ contents_nodes percent_100_bucket).

Definition questionable (l : list Node) : list Node := List.filter (fun n => bool_decide (status now n = Questionable)) l.

Fixpoint bootstrap_next_bucket (fuel : nat) (b : TableBootstrap) : W (BootstrapStatus * TableBootstrap) :=
  match fuel with
  | O => fun _ => OutOfFuel
  | S fuel =>
      let! target_id := wlift (flip_id_bit_at_index (bs_table_id b) (bs_curr_bucket b)) in
      let! t := get_table in
      let! found := wlift (bucket_candidates t (bs_curr_bucket b) target_id) in
      send_bootstrap_requests (bootstrap_next_bucket fuel) (questionable found) target_id b
  end.

(** A recursive call moves to the next of the 160 buckets. *)
Definition BUCKET_FUEL : nat := MAX_BUCKETS + 1.

Definition bs_recv_response (trans_id : TransactionID) (b : TableBootstrap) : W (BootstrapStatus * TableBootstrap) :=
  match bs_active_messages b !! trans_id with
  | None => wret (current_bootstrap_status b, b)
  | Some timeout =>
      let! b :=
        if negb (bs_curr_bucket b =? 0)%nat then
          let! _ := clear_timeout timeout in
          wret (bs_set_active (delete trans_id (bs_active_messages b)) b)
        else wret b in
      if bool_decide (bs_active_messages b = ∅) then bootstrap_next_bucket BUCKET_FUEL b
      else wret (current_bootstrap_status b, b)
  end.

Definition bs_recv_timeout (trans_id : TransactionID) (b : TableBootstrap) : W (BootstrapStatus * TableBootstrap) :=
  match bs_active_messages b !! trans_id with
  | None => wret (current_bootstrap_status b, b)
  | Some _ =>
      let b := bs_set_active (delete trans_id (bs_active_messages b)) b in
      if bool_decide (bs_active_messages b = ∅) then bootstrap_next_bucket BUCKET_FUEL b
      else wret (current_bootstrap_status b, b)
  end.

(** ** Refresh *)

Record TableRefresh : Type := mkRefresh { rf_id_generator : MIDGenerator; rf_curr_bucket : nat }.

Definition TableRefresh_new (id_generator : MIDGenerator) : TableRefresh := mkRefresh id_generator 0.

(** The loop over at most one node; [false] when it has failed. *)
Definition refresh_one (found : list Node) (target_id : ShaHash) (r : TableRefresh) : W (bool * TableRefresh) :=
  match found with
  | [] => wret (true, r)
  | node :: _ =>
      let! (trans_id, g) := mid_generate (rf_id_generator r) in
      let r := mkRefresh g (rf_curr_bucket r) in
      let! t := get_table in
      let! sent := send_out (find_node_request trans_id (table_id t) target_id) (addr node) in
      if sent : bool then
        let! _ := touch now (local_request now) node in
        wret (true, r)
      else wret (false, r)
  end.

Definition continue_refresh (r : TableRefresh) : W (RefreshStatus * TableRefresh) :=
  let r := if (rf_curr_bucket r =? MAX_BUCKETS)%nat then mkRefresh (rf_id_generator r) 0 else r in
  let! t := get_table in
  let! target_id := wlift (flip_id_bit_at_index (table_id t) (rf_curr_bucket r)) in
  let! found := wlift (closest_nodes now t target_id) in
  let! (ok, r) := refresh_one (questionable found) target_id r in
  if negb ok then wret (RfFailed, r)
  else
    let! (trans_id, g) := mid_generate (rf_id_generator r) in
    let r := mkRefresh g (rf_curr_bucket r) in
    let! res_timeout := timeout_ms (0, CheckTableRefresh trans_id) REFRESH_INTERVAL_TIMEOUT in
    match res_timeout with
    | None => wret (RfFailed, r)
    | Some _ => wret (RfRefreshing, mkRefresh (rf_id_generator r) (rf_curr_bucket r + 1))
    end.

End Bootstrap.
