(* ===== verification/DhtBootstrapSpec.v ===== *)
(** * DHT bootstrap and refresh: properties

    The ids a bootstrap looks for lie in the bucket they are meant for; each event is
    handled without a panic as long as the bootstrap is not complete, sends at most eight
    requests and moves on; and a bootstrap nobody answers completes. *)

From stdpp Require Import gmap.
From S2P Require Import Prelude RustStd UtilSha UtilConvert Chrono DhtNode DhtTable DhtTableSpec DhtClosest DhtClosestSpec UtilTrans DhtTransaction DhtMessage DhtWorker DhtLookup DhtLookupSpec DhtLookupRuns DhtBootstrap.

(** ** Flipping a bit *)

Lemma common_prefix_app l a b : common_prefix (l ++ a) (l ++ b) = (length l + common_prefix a b)%nat.
Proof. induction l as [|x l IH]; [done|]. cbn. by rewrite eqb_reflx, IH. Qed.

Lemma common_prefix_differ x y a b : x <> y -> common_prefix (x :: a) (y :: b) = 0%nat.
Proof. intros Hne. cbn. by destruct (eqb x y) eqn:E; [apply eqb_prop in E|]. Qed.

Lemma bytes_bits_app a b : bytes_bits (a ++ b) = bytes_bits a ++ bytes_bits b.
Proof. unfold bytes_bits. by rewrite map_app, concat_app. Qed.

(** Flipping the bit after [j] others. *)
Lemma common_prefix_flip j m : forall l r r', length l = (j + S (length m))%nat ->
  common_prefix (l ++ r) (zip_with xorb l (replicate j false ++ true :: m) ++ r') = j.
Proof.
  induction j as [|j IH]; intros [|x l] r r' Hl; try done; cbn [replicate app zip_with].
  - apply common_prefix_differ. by destruct x.
  - cbn [common_prefix]. rewrite xorb_false_r, eqb_reflx. f_equal. apply IH. cbn in Hl. lia.
Qed.

Lemma byte_bits_single j : (j < 8)%nat -> byte_bits (Z.shiftl 1 (Z.of_nat (7 - j))) = replicate j false ++ true :: replicate (7 - j) false.
Proof. intros Hj. do 8 (destruct j as [|j]; [done|]). lia. Qed.

Lemma byte_flip_prefix b j r r' : (j < 8)%nat ->
  common_prefix (byte_bits b ++ r) (byte_bits (Z.lxor b (Z.shiftl 1 (Z.of_nat (7 - j)))) ++ r') = j.
Proof.
  intros Hj. rewrite byte_bits_lxor, byte_bits_single by done. apply common_prefix_flip. rewrite length_byte_bits, length_replicate. lia.
Qed.

Lemma flip_id_ok own i : sha_ok own -> (i < MAX_BUCKETS)%nat ->
  exists target, flip_id_bit_at_index own i = Ok target /\ sha_ok target /\ id_prefix own target = i.
Proof.
  intros [Hl Hb] Hi. unfold flip_id_bit_at_index. unfold MAX_BUCKETS, SHA_HASH_LEN in *.
  assert (Hdiv : (i / 8 < 20)%nat) by (apply Nat.Div0.div_lt_upper_bound; lia). assert (Hmod : (i mod 8 < 8)%nat) by (apply Nat.mod_upper_bound; lia).
  destruct (lookup_lt_is_Some_2 (sha_bytes own) (i / 8)) as [b Eb]; [lia|]. rewrite Eb. cbn [or_panic res_bind]. eexists. split; [done|].
  set (b' := Z.lxor b _). assert (Hb8 : is_u8 b) by (eapply Forall_lookup_1; [exact Hb|exact Eb]).
  assert (Hb' : is_u8 b').
  { unfold b'. apply lxor_u8; [done|]. destruct (i mod 8)%nat as [|[|[|[|[|[|[|[|k]]]]]]]]; try (vm_compute; split; (discriminate || reflexivity)); lia. }
  split; [split; [cbn; by rewrite length_insert|by apply Forall_insert]|].
  unfold id_prefix. cbn [sha_bytes]. rewrite insert_take_drop by lia. rewrite <- (take_drop_middle (sha_bytes own) (i / 8) b Eb) at 1.
  rewrite !bytes_bits_app, common_prefix_app, length_bytes_bits, length_take.
  change (b :: drop (S (i / 8)) (sha_bytes own)) with ([b] ++ drop (S (i / 8)) (sha_bytes own)).
  change (b' :: drop (S (i / 8)) (sha_bytes own)) with ([b'] ++ drop (S (i / 8)) (sha_bytes own)). rewrite !bytes_bits_app.
  change (bytes_bits [b]) with (byte_bits b ++ []). change (bytes_bits [b']) with (byte_bits b' ++ []). rewrite !app_nil_r.
  unfold b'. rewrite byte_flip_prefix by done. pose proof (Nat.div_mod_eq i 8). lia.
Qed.

Section Spec.
Context {C : Chrono} {Env : DhtEnv} {HO : HashOrder SocketAddr unit} (now : DateTime).
Implicit Types (b : TableBootstrap) (w : World).

(** ** Bootstrap *)

Definition boot_ok (aid : Z) b : Prop :=
  sha_ok (bs_table_id b) /\ mid_ok aid (bs_id_generator b) /\ map_Forall (fun t _ => tid_ok aid t) (bs_active_messages b) /\
  (bs_curr_bucket b <= MAX_BUCKETS)%nat.

(** A timer was set for every open request. *)
Definition boot_timer w (tid : TransactionID) : Prop := exists timer data ms, TimerSet timer (data, CheckBootstrapTimeout tid) ms ∈ w_effects w.
Definition boot_timed b w : Prop := forall tid, is_Some (bs_active_messages b !! tid) -> boot_timer w tid.

Lemma boot_timer_mono w w' tid sent : sends w w' sent -> boot_timer w tid -> boot_timer w' tid.
Proof. intros (evs & E & _) (t & d & ms & Ht). exists t, d, ms. rewrite E. apply elem_of_app. by left. Qed.

Lemma boot_ok_active aid tid timer b : tid_ok aid tid -> boot_ok aid b -> boot_ok aid (bs_set_active (<[tid := timer]> (bs_active_messages b)) b).
Proof. intros Ht (H1 & H2 & H3 & H4). split_and!; try done. by apply map_Forall_insert_2. Qed.

Lemma boot_ok_reset aid g b : sha_ok (bs_table_id b) -> mid_ok aid g -> boot_ok aid (bs_set_generator g (bs_set_bucket 0 (bs_set_active ∅ b))).
Proof. intros H1 H2. split_and!; try done. cbn. lia. Qed.

Lemma boot_ok_delete aid tid b : boot_ok aid b -> boot_ok aid (bs_set_active (delete tid (bs_active_messages b)) b).
Proof. intros (H1 & H2 & H3 & H4). split_and!; try done. by apply map_Forall_delete. Qed.

Lemma boot_timed_delete tid b w : boot_timed b w -> boot_timed (bs_set_active (delete tid (bs_active_messages b)) b) w.
Proof.
  intros Hb t. cbn. destruct (decide (t = tid)) as [->|Hne]; [rewrite lookup_delete_eq; by intros []|]. rewrite lookup_delete_ne by congruence. apply Hb.
Qed.

Lemma send_all_ok own msg addrs : forall w, world_ok own w ->
  wp (send_all msg addrs) w (fun ok w' => world_ok own w' /\ (reliable -> ok = true) /\
    exists sent, sends w w' sent /\ sent = map (fun a => (msg, a)) (take (length sent) addrs) /\ (ok = true -> length sent = length addrs)).
Proof.
  induction addrs as [|a addrs IH]; intros w Hw; cbn [send_all].
  - apply dwp_ret. split_and!; try done. exists []. by split_and!; [apply sends_refl|..].
  - apply dwp_bind, wp_send_out. intros ok w1 Eok Ht He. assert (Hw1 : world_ok own w1) by (by eapply world_ok_table). destruct ok.
    + eapply dwp_mono; [by apply IH|]. intros ok w2 (Hw2 & Hr & sent & Hs & Esent & Hok). split_and!; try done. exists ((msg, a) :: sent).
      split; [apply (sends_trans _ w1 _ [_]); [by exists [OutMessage msg a]|done]|]. split; [cbn; by rewrite <- Esent|]. intros X. cbn. by rewrite Hok.
    + apply dwp_ret. split_and!; try done; [intros [Hr _]; by rewrite Hr in Eok|]. exists []. split_and!; try done. apply sends_refl. by rewrite He, app_nil_r.
Qed.

(** The start of a bootstrap: one message to every router and start node. *)
Lemma start_bootstrap_ok own aid b w : boot_ok aid b -> world_ok own w ->
  wp (start_bootstrap b) w (fun '(st, b') w' => boot_ok aid b' /\ world_ok own w' /\ bs_table_id b' = bs_table_id b /\ bs_starting_routers b' = bs_starting_routers b /\
    bs_curr_bucket b' = 0%nat /\ (st = BsFailed \/ (st = BsBootstrapping /\ bs_active_messages b' <> ∅)) /\ (reliable -> st <> BsFailed) /\
    boot_timed b' w' /\ exists sent, sends w w' sent /\ (length sent <= size (bs_starting_routers b) + length (bs_starting_nodes b))%nat).
Proof.
  intros (H1 & H2 & H3 & H4) Hw. unfold start_bootstrap. apply dwp_bind. apply (wp_mid_generate aid); [done|]. intros tid g w1 Htid Hg Ht1 He1.
  apply dwp_bind, wp_timeout_ms. intros o w2 Eo Ht2 He2. assert (Hw2 : world_ok own w2) by (eapply world_ok_table; [|exact Hw]; congruence).
  assert (Hsends : sends w w2 []) by (exists (match o with Some i => [TimerSet i (BOOTSTRAP_INITIAL_TIMEOUT, CheckBootstrapTimeout tid) BOOTSTRAP_INITIAL_TIMEOUT] | None => [] end); rewrite He2, He1; by destruct o).
  destruct o as [timer|].
  2: { apply dwp_ret. split_and!; try done; try (by left).
       - by apply boot_ok_reset.
       - intros [_ Hr]. destruct (Hr (w_calls w1)). congruence.
       - intros t. cbn. by intros [].
       - exists []. split; [done|]. cbn. lia. }
  set (b0 := bs_set_active _ _). assert (Hb0 : boot_ok aid b0) by (apply boot_ok_active; [done|]; by apply boot_ok_reset).
  apply dwp_bind. eapply dwp_mono; [by apply (send_all_ok own)|]. intros ok w3 (Hw3 & Hr & sent & Hs & Esent & Hlen).
  assert (Hs' : exists sent, sends w w3 sent /\ (length sent <= size (bs_starting_routers b) + length (bs_starting_nodes b))%nat).
  { exists sent. split; [by apply (sends_trans _ _ _ [] _ Hsends)|]. rewrite Esent, length_map, length_take, length_app.
    unfold router_order. rewrite length_map, (Permutation_length (hash_entries_perm _)), length_map_to_list, <- (size_dom (D := gset SocketAddr)), dom_gset_to_gmap. cbn. lia. }
  assert (Htm : boot_timed b0 w3).
  { intros t. unfold b0. cbn. intros Hin. eapply boot_timer_mono; [exact Hs|]. destruct (decide (t = tid)) as [->|Hne].
    - exists timer, BOOTSTRAP_INITIAL_TIMEOUT, BOOTSTRAP_INITIAL_TIMEOUT. rewrite He2. apply elem_of_app. right. left.
    - rewrite lookup_insert_ne in Hin by congruence. by destruct Hin. }
  assert (Hne : bs_active_messages b0 <> ∅) by apply insert_non_empty.
  destruct ok; apply dwp_ret; split_and!; try done; try (by left).
  - right. split; [|done]. unfold current_bootstrap_status. rewrite bool_decide_false by done. done.
  - intros X. by specialize (Hr X).
Qed.

(** The loop over the chosen nodes. *)
Lemma bootstrap_requests_ok own aid target todo : forall k b w, boot_ok aid b -> world_ok own w ->
  wp (bootstrap_requests now todo target k b) w (fun '(ok, k', b') w' => boot_ok aid b' /\ world_ok own w' /\
    bs_table_id b' = bs_table_id b /\ bs_starting_routers b' = bs_starting_routers b /\ bs_curr_bucket b' = bs_curr_bucket b /\
    (exists sent, sends w w' sent /\ (length sent <= length todo)%nat) /\ (reliable -> ok = true) /\
    (ok = true -> k' = (k + length todo)%nat) /\ (ok = true -> todo <> [] -> bs_active_messages b' <> ∅) /\
    (ok = true -> todo = [] -> b' = b /\ w' = w) /\ (boot_timed b w -> boot_timed b' w')).
Proof.
  induction todo as [|n todo IH]; intros k b w Hb Hw; cbn [bootstrap_requests].
  - apply dwp_ret. split_and!; try done. exists []. by split; [apply sends_refl|].
  - pose proof Hb as (H1 & H2 & H3 & H4). apply dwp_bind. apply (wp_mid_generate aid); [done|]. intros tid g w1 Htid Hg Ht1 He1.
    apply dwp_bind, wp_timeout_ms. intros o w2 Eo Ht2 He2. assert (Hw2 : world_ok own w2) by (eapply world_ok_table; [|exact Hw]; congruence).
    assert (Hs2 : sends w w2 []) by (exists (match o with Some i => [TimerSet i (BOOTSTRAP_NODE_TIMEOUT, CheckBootstrapTimeout tid) BOOTSTRAP_NODE_TIMEOUT] | None => [] end); rewrite He2, He1; by destruct o).
    destruct o as [timer|].
    2: { apply dwp_ret. split_and!; try done.
         - exists []. split; [done|cbn; lia].
         - intros [_ Hr]. destruct (Hr (w_calls w1)). congruence.
         - intros Htm t Ht. eapply boot_timer_mono; [exact Hs2|]. by apply Htm. }
    apply dwp_bind, wp_send_out. intros ok w3 Eok Ht3 He3. assert (Hw3 : world_ok own w3) by (by eapply world_ok_table).
    set (m := find_node_request _ _ _) in *.
    assert (Hs3 : sends w w3 (if ok then [(m, addr n)] else [])).
    { apply (sends_trans _ _ _ [] _ Hs2). exists (if ok then [OutMessage m (addr n)] else []). rewrite He3. by destruct ok. }
    destruct ok.
    + apply dwp_bind. eapply (wp_touch now own); [apply local_request_keeps|done|]. intros w4 Hw4 He4.
      eapply dwp_mono; [apply IH; [apply boot_ok_active; [done|by split_and!]|done]|].
      intros [[ok k'] b'] w' (Hb' & Hw' & E1 & E2 & E3 & (sent & Hs & Hle) & Hr & Hk & Hne & Hnil & Htm). split_and!; try done.
      * exists ((m, addr n) :: sent). split; [apply (sends_trans _ w3 _ [_]); [done|destruct Hs as (evs & Ee & Em); exists evs; by rewrite Ee, He4]|cbn; lia].
      * intros X. rewrite (Hk X). cbn. lia.
      * intros X _. destruct todo as [|n' todo]; [destruct (Hnil X eq_refl) as [-> _]; apply insert_non_empty|by apply Hne].
      * intros Htm0. apply Htm. intros t. cbn. intros Ht. unfold boot_timer. rewrite He4. fold (boot_timer w3 t). destruct (decide (t = tid)) as [->|Hne'].
        -- exists timer, BOOTSTRAP_NODE_TIMEOUT, BOOTSTRAP_NODE_TIMEOUT. rewrite He3, He2. apply elem_of_app. left. apply elem_of_app. right. left.
        -- rewrite lookup_insert_ne in Ht by congruence. eapply boot_timer_mono; [exact Hs3|]. by apply Htm0.
    + apply dwp_ret. split_and!; try done.
      * exists []. split; [done|cbn; lia].
      * intros [Hr _]. by rewrite Hr in Eok.
      * intros Htm t Ht. eapply boot_timer_mono; [exact Hs3|]. by apply Htm.
Qed.

Lemma bucket_candidates_total t curr target : table_ok t -> sha_ok target -> exists found, bucket_candidates now t curr target = Ok found.
Proof.
  intros Ht Htg. unfold bucket_candidates. destruct (_ || _); [destruct (closest_nodes_total now t target Ht Htg) as (l & E & _); by exists l|].
  destruct Ht as (_ & Hl & _). destruct (buckets_skip_total (buckets t) (curr - 2) 0 Hl) as (o1 & -> & _). cbn [res_bind].
  destruct (Buckets_next_total (buckets t) (curr - 1) Hl) as (o2 & -> & _). cbn [res_bind].
  destruct (Buckets_next_total (buckets t) curr Hl) as (o3 & -> & _). by eexists.
Qed.

(** What an event of a bootstrap leaves. *)
Record boot_post (own : ShaHash) (aid : Z) b w (st : BootstrapStatus) b' w' : Prop := {
  bp_boot : boot_ok aid b';
  bp_world : world_ok own w';
  bp_same : bs_table_id b' = bs_table_id b /\ bs_starting_routers b' = bs_starting_routers b;
  bp_sent : exists sent, sends w w' sent /\ (length sent <= BOOTSTRAP_PINGS_PER_BUCKET)%nat;
  bp_reliable : reliable -> st <> BsFailed;
  bp_bucket : (bs_curr_bucket b <= bs_curr_bucket b')%nat;
  bp_completed : st = BsCompleted -> bs_curr_bucket b' = MAX_BUCKETS;
  bp_status : st = BsFailed \/ st = BsCompleted \/ bs_curr_bucket b' = bs_curr_bucket b \/
    (st = BsBootstrapping /\ (bs_curr_bucket b < bs_curr_bucket b' < MAX_BUCKETS)%nat /\ bs_active_messages b' <> ∅);
  bp_timed : boot_timed b w -> boot_timed b' w'
}.

(** Moving on ends: at the latest after the last bucket. *)
Lemma next_bucket_ok own aid fuel : forall b w, boot_ok aid b -> world_ok own w -> (bs_curr_bucket b < MAX_BUCKETS)%nat -> (MAX_BUCKETS - bs_curr_bucket b <= fuel)%nat ->
  wp (bootstrap_next_bucket now fuel b) w (fun '(st, b') w' => boot_post own aid b w st b' w' /\ (bs_curr_bucket b' = bs_curr_bucket b -> st = BsFailed)).
Proof.
  induction fuel as [|fuel IH]; intros b w Hb Hw Hlt Hf; [lia|]. cbn [bootstrap_next_bucket]. pose proof Hb as (H1 & H2 & H3 & H4).
  destruct (flip_id_ok (bs_table_id b) (bs_curr_bucket b) H1 Hlt) as (target & Et & Htg & _). apply dwp_bind. eapply dwp_lift; [exact Et|].
  apply dwp_bind, wp_get_table, dwp_bind. destruct Hw as (Htab & Hw') eqn:EHw. clear EHw.
  destruct (bucket_candidates_total (w_table w) (bs_curr_bucket b) target Htab Htg) as [found Ef]. eapply dwp_lift; [exact Ef|].
  unfold send_bootstrap_requests. set (todo := take BOOTSTRAP_PINGS_PER_BUCKET (questionable now found)).
  assert (Hlen : (length todo <= BOOTSTRAP_PINGS_PER_BUCKET)%nat) by (unfold todo; rewrite length_take; lia).
  apply dwp_bind. eapply dwp_mono; [apply (bootstrap_requests_ok own aid target todo 0 b w Hb (conj Htab Hw'))|].
  intros [[ok k] b1] w1 (Hb1 & Hw1 & E1 & E2 & E3 & (sent & Hs & Hle) & Hr & Hk & Hne & Hnil & Htm). destruct ok; cbn [negb].
  2: { apply dwp_ret. split; [|done]. split; try done; [exists sent; split; [done|lia]|intros X; by specialize (Hr X)|lia|by left]. }
  assert (Hb2 : boot_ok aid (bs_set_bucket (bs_curr_bucket b1 + 1) b1)) by (destruct Hb1 as (? & ? & ? & ?); split_and!; try done; cbn [bs_curr_bucket bs_set_bucket bs_set_active]; lia).
  cbn [bs_curr_bucket bs_set_bucket]. rewrite E3. destruct (Nat.eqb_spec (bs_curr_bucket b + 1) MAX_BUCKETS) as [Eq|Hn].
  { apply dwp_ret. rewrite E3 in Hb2. split; [|cbn [bs_curr_bucket bs_set_bucket bs_set_active]; lia]. split; try done; [exists sent; split; [done|lia]|cbn [bs_curr_bucket bs_set_bucket bs_set_active]; lia|by right; left]. }
  rewrite (Hk eq_refl). cbn [Nat.add]. destruct (Nat.eqb_spec (length todo) 0) as [E0|E0].
  - destruct (Hnil eq_refl) as [-> ->]; [by destruct todo|]. eapply dwp_mono; [apply IH; [done|done|cbn [bs_curr_bucket bs_set_bucket bs_set_active]; lia|cbn [bs_curr_bucket bs_set_bucket bs_set_active]; lia]|].
    intros [st b'] w' [[Q1 Q2 Q3 Q4 Q5 Q6 Q7 Q8 Q9] Q10]. cbn [bs_curr_bucket bs_set_bucket] in *. split; [split; try done; [lia|]|].
    + destruct Q8 as [?|[?|[?|(-> & ? & ?)]]]; [by left|by right; left|left; by apply Q10|]. right; right; right. split_and!; [done|lia|lia|done].
    + lia.
  - apply dwp_ret. rewrite E3 in *. split; [|cbn [bs_curr_bucket bs_set_bucket bs_set_active]; lia]. split; try done.
    + exists sent. split; [done|lia].
    + cbn [bs_curr_bucket bs_set_bucket]. lia.
    + right; right; right. cbn [bs_curr_bucket bs_set_bucket]. split_and!; [done|lia|lia|]. apply Hne; [done|]. by destruct todo.
Qed.

Lemma boot_unchanged own aid b w : boot_ok aid b -> world_ok own w ->
  boot_post own aid b w (current_bootstrap_status b) b w.
Proof.
  intros Hb Hw. split; try done; [exists []; split; [by apply sends_refl|cbn; lia]| | |by right; right; left];
    unfold current_bootstrap_status; by destruct (_ || _).
Qed.

Lemma boot_post_delete own aid tid b w st b' w' : boot_post own aid (bs_set_active (delete tid (bs_active_messages b)) b) w st b' w' ->
  boot_post own aid b w st b' w'.
Proof. intros [Q1 Q2 Q3 Q4 Q5 Q6 Q7 Q8 Q9]. split; try done. intros Hb. apply Q9. by apply boot_timed_delete. Qed.

(** A timeout, and an answer. *)
Lemma bs_recv_timeout_ok own aid tid b w : boot_ok aid b -> world_ok own w -> (bs_curr_bucket b < MAX_BUCKETS)%nat ->
  wp (bs_recv_timeout now tid b) w (fun '(st, b') w' => boot_post own aid b w st b' w' /\
    (is_Some (bs_active_messages b !! tid) -> delete tid (bs_active_messages b) = ∅ -> bs_curr_bucket b' = bs_curr_bucket b -> st = BsFailed) /\
    (is_Some (bs_active_messages b !! tid) -> delete tid (bs_active_messages b) <> ∅ -> st = BsBootstrapping /\ w' = w /\
      b' = bs_set_active (delete tid (bs_active_messages b)) b)).
Proof.
  intros Hb Hw Hlt. unfold bs_recv_timeout. destruct (bs_active_messages b !! tid) as [timer|] eqn:Et.
  2: { apply dwp_ret. split; [by apply boot_unchanged|]. by split; intros []. }
  pose proof (boot_ok_delete aid tid b Hb) as Hb0. cbn [bs_active_messages bs_set_active]. case_bool_decide as He.
  - eapply dwp_mono; [apply (next_bucket_ok own aid BUCKET_FUEL); [done|done|done|cbn [bs_curr_bucket bs_set_bucket bs_set_active]; unfold BUCKET_FUEL; lia]|].
    intros [st b'] w' [Hp Hc]. split; [by apply boot_post_delete in Hp|]. by split; [intros _ _|].
  - apply dwp_ret. split; [apply (boot_post_delete own aid tid); by apply boot_unchanged|]. split; [done|]. intros _ _. split; [|done].
    unfold current_bootstrap_status. cbn [bs_curr_bucket bs_active_messages bs_set_active]. rewrite bool_decide_false by done.
    by destruct (Nat.eqb_spec (bs_curr_bucket b) MAX_BUCKETS); [lia|].
Qed.

Lemma bs_recv_response_ok own aid tid b w : boot_ok aid b -> world_ok own w -> (bs_curr_bucket b < MAX_BUCKETS)%nat ->
  wp (bs_recv_response now tid b) w (fun '(st, b') w' => boot_post own aid b w st b' w').
Proof.
  intros Hb Hw Hlt. unfold bs_recv_response. destruct (bs_active_messages b !! tid) as [timer|] eqn:Et; [|apply dwp_ret; by apply boot_unchanged].
  apply dwp_bind. destruct (Nat.eqb_spec (bs_curr_bucket b) 0) as [E0|E0]; cbn [negb].
  - apply dwp_ret. rewrite bool_decide_false; [apply dwp_ret; by apply boot_unchanged|]. intros E. by rewrite E in Et.
  - apply dwp_bind, wp_emit, dwp_ret. set (w1 := mkWorld _ _ _). pose proof (boot_ok_delete aid tid b Hb) as Hb0.
    assert (Hw1 : world_ok own w1) by (by eapply world_ok_table). assert (Hs1 : sends w w1 []) by (by exists [TimerCleared timer]).
    assert (Hlift : forall st b' w', boot_post own aid (bs_set_active (delete tid (bs_active_messages b)) b) w1 st b' w' -> boot_post own aid b w st b' w').
    { intros st b' w' [Q1 Q2 Q3 (sent & Hs & Hle) Q5 Q6 Q7 Q8 Q9]. split; try done; [exists sent; split; [by apply (sends_trans _ _ _ [] _ Hs1)|done]|].
      intros Hbt. apply Q9. apply boot_timed_delete. intros t Ht. eapply boot_timer_mono; [exact Hs1|]. by apply Hbt. }
    case_bool_decide as He; [|apply dwp_ret, Hlift; by apply boot_unchanged].
    eapply dwp_mono; [apply (next_bucket_ok own aid BUCKET_FUEL); [done|done|done|cbn [bs_curr_bucket bs_set_bucket bs_set_active]; unfold BUCKET_FUEL; lia]|]. intros [st b'] w' [Hp _]. by apply Hlift.
Qed.

(** An answer that arrives after the last bucket was visited, and leaves no open request,
    makes the bootstrap look for a bucket that does not exist. *)
Lemma late_answer_panics tid timer b w : sha_ok (bs_table_id b) -> bs_curr_bucket b = MAX_BUCKETS -> bs_active_messages b = {[tid := timer]} ->
  bs_recv_response now tid b w = Panic /\ bs_recv_timeout now tid b w = Panic.
Proof.
  intros [Hl _] Hc Ha. unfold bs_recv_response, bs_recv_timeout. rewrite Ha, lookup_singleton_eq, Hc. cbn [Nat.eqb negb MAX_BUCKETS SHA_HASH_LEN Nat.mul Nat.add].
  assert (He : delete tid ({[tid := timer]} : gmap TransactionID nat) = ∅) by apply delete_singleton_eq.
  assert (Hp : forall x, bootstrap_next_bucket now BUCKET_FUEL (bs_set_active (delete tid (bs_active_messages b)) b) x = Panic).
  { intros x. unfold BUCKET_FUEL. rewrite Nat.add_comm. cbn [Nat.add bootstrap_next_bucket bs_table_id bs_curr_bucket bs_set_active]. unfold wbind at 1, wlift.
    unfold flip_id_bit_at_index. rewrite Hc. rewrite lookup_ge_None_2; [done|]. rewrite Hl. vm_compute. lia. }
  unfold wbind, clear_timeout, emit, wret. cbn [res_bind]. rewrite <- Ha. cbn [bs_active_messages bs_set_active]. rewrite Ha, He.
  rewrite !bool_decide_true by done. rewrite Ha, He in Hp. split; apply Hp.
Qed.

(** ** Silence *)

Section Silent.
Context (order : gmap TransactionID nat -> list TransactionID) (Horder : forall m, order m ≡ₚ map fst (map_to_list m)).

(** The timers of all open requests fire. *)
Fixpoint time_out_all (tids : list TransactionID) b : W (BootstrapStatus * TableBootstrap) :=
  match tids with
  | [] => wret (current_bootstrap_status b, b)
  | [tid] => bs_recv_timeout now tid b
  | tid :: tids => let! (_, b) := bs_recv_timeout now tid b in time_out_all tids b
  end.

(** At most [n] rounds in which no request is answered. *)
Fixpoint silent_rounds (n : nat) b : W BootstrapStatus :=
  match n with
  | O => wret (current_bootstrap_status b)
  | S n =>
      let! (st, b) := time_out_all (order (bs_active_messages b)) b in
      match st with
      | BsBootstrapping => silent_rounds n b
      | _ => wret st
      end
  end.

Lemma time_out_all_ok own aid tids : reliable -> forall b w, boot_ok aid b -> world_ok own w -> (bs_curr_bucket b < MAX_BUCKETS)%nat ->
  NoDup tids -> tids <> [] -> (forall t, is_Some (bs_active_messages b !! t) <-> t ∈ tids) ->
  wp (time_out_all tids b) w (fun '(st, b') w' => boot_post own aid b w st b' w' /\
    (st = BsCompleted \/ (st = BsBootstrapping /\ (bs_curr_bucket b < bs_curr_bucket b' < MAX_BUCKETS)%nat /\ bs_active_messages b' <> ∅))).
Proof.
  intros Hrel. induction tids as [|t tids IH]; [done|]. intros b w Hb Hw Hlt Hnd _ Hact.
  assert (Ht : is_Some (bs_active_messages b !! t)) by (apply Hact; left). apply NoDup_cons in Hnd as [Hnt Hnd].
  assert (Hdel : forall x, is_Some (delete t (bs_active_messages b) !! x) <-> x ∈ tids).
  { intros x. destruct (decide (x = t)) as [->|Hne]; [rewrite lookup_delete_eq; split; [by intros []|done]|].
    rewrite lookup_delete_ne by congruence. rewrite Hact, elem_of_cons. naive_solver. }
  destruct tids as [|t2 tids].
  - cbn [time_out_all]. eapply dwp_mono; [by apply (bs_recv_timeout_ok own aid)|]. intros [st b'] w' (Hp & Hlast & _). split; [done|].
    assert (Hemp : delete t (bs_active_messages b) = ∅) by (apply map_empty; intros x; apply eq_None_not_Some; rewrite Hdel; apply not_elem_of_nil).
    destruct Hp as [_ _ _ _ Hr _ _ Hst _]. specialize (Hr Hrel). destruct Hst as [?|[?|[E|?]]]; [done|by left| |by right]. by destruct Hr; apply Hlast.
  - change (time_out_all (t :: t2 :: tids) b) with (let! (_, b) := bs_recv_timeout now t b in time_out_all (t2 :: tids) b). apply dwp_bind.
    eapply dwp_mono; [by apply (bs_recv_timeout_ok own aid)|]. intros [st b'] w' (_ & _ & Hmore).
    destruct (Hmore Ht) as (-> & -> & ->).
    { intros Hemp. assert (Hx : is_Some (delete t (bs_active_messages b) !! t2)) by (apply Hdel; left). rewrite Hemp in Hx. by destruct Hx. }
    eapply dwp_mono; [apply IH; [by apply boot_ok_delete|done|done|done|done|exact Hdel]|].
    intros [st b'] w' [Hp Hst]. split; [by apply boot_post_delete in Hp|done].
Qed.

Lemma silent_rounds_ok own aid n : reliable -> forall b w, boot_ok aid b -> world_ok own w -> (bs_curr_bucket b < MAX_BUCKETS)%nat ->
  bs_active_messages b <> ∅ -> (MAX_BUCKETS - bs_curr_bucket b <= n)%nat ->
  wp (silent_rounds n b) w (fun st w' => st = BsCompleted /\ exists sent, sends w w' sent /\ (length sent <= 8 * n)%nat).
Proof.
  intros Hrel. induction n as [|n IH]; intros b w Hb Hw Hlt Hne Hn; [lia|]. cbn [silent_rounds]. apply dwp_bind.
  eapply dwp_mono; [apply (time_out_all_ok own aid); try done|].
  - rewrite Horder. apply NoDup_fst_map_to_list.
  - intros E. apply Hne. pose proof (Horder (bs_active_messages b)) as Hp. rewrite E in Hp. apply Permutation_nil, map_eq_nil, map_to_list_empty_iff in Hp. done.
  - intros t. rewrite Horder. split.
    + intros [x Hx]. apply list_elem_of_fmap. exists (t, x). split; [done|]. by apply elem_of_map_to_list.
    + intros ([t' x] & -> & Hx)%list_elem_of_fmap. apply elem_of_map_to_list in Hx. by exists x.
  - intros [st b'] w' [[Hb' Hw' _ (sent & Hs & Hle) _ _ _ _ _] [->|(-> & Hc & Hne')]]; unfold BOOTSTRAP_PINGS_PER_BUCKET in Hle.
    + apply dwp_ret. split; [done|]. exists sent. split; [done|lia].
    + eapply dwp_mono; [apply IH; [done|done|lia|done|lia]|]. intros st w2 (-> & sent' & Hs' & Hle'). split; [done|]. exists (sent ++ sent').
      split; [by eapply sends_trans|]. rewrite length_app. lia.
Qed.

(** A bootstrap nobody answers completes: its first timer starts the visit of the
    buckets, and each time the timers of the open requests have fired, in any order, a later
    bucket is reached; after at most 160 such rounds the last one was visited, and no more
    than eight requests were sent in each. *)
Lemma silent_bootstrap_completes own aid b w : reliable -> boot_ok aid b -> world_ok own w ->
  exists st1 b1 w1, start_bootstrap b w = Ok ((st1, b1), w1) /\ st1 = BsBootstrapping /\ boot_timed b1 w1 /\
  exists w2 sent, silent_rounds MAX_BUCKETS b1 w1 = Ok (BsCompleted, w2) /\ sends w1 w2 sent /\ (length sent <= 8 * MAX_BUCKETS)%nat.
Proof.
  intros Hr Hb Hw. destruct (start_bootstrap_ok own aid b w Hb Hw) as ([st1 b1] & w1 & E & Hb1 & Hw1 & _ & _ & Hc & Hst & Hrel & Htm & _).
  exists st1, b1, w1. split; [done|]. destruct Hst as [->|[-> Hne]]; [by destruct (Hrel Hr)|]. split; [done|]. split; [done|].
  assert (Hpos : (0 < MAX_BUCKETS)%nat) by (unfold MAX_BUCKETS, SHA_HASH_LEN; lia).
  destruct (silent_rounds_ok own aid MAX_BUCKETS Hr b1 w1) as (st & w2 & E2 & -> & sent & Hs & Hle); [done|done|lia|done|lia|]. by exists w2, sent.
Qed.
End Silent.

(** ** Refresh *)

Definition refresh_ok (aid : Z) (r : TableRefresh) : Prop := mid_ok aid (rf_id_generator r) /\ (rf_curr_bucket r <= MAX_BUCKETS)%nat.

(** A refresh goes round the buckets for ever: it sends at most one request and sets the
    timer for the next one. *)
Lemma continue_refresh_ok own aid r w : refresh_ok aid r -> world_ok own w ->
  wp (continue_refresh now r) w (fun '(st, r') w' => refresh_ok aid r' /\ world_ok own w' /\ (reliable -> st = RfRefreshing) /\
    (exists sent, sends w w' sent /\ (length sent <= 1)%nat) /\
    (st = RfRefreshing -> rf_curr_bucket r' = S (if (rf_curr_bucket r =? MAX_BUCKETS)%nat then 0 else rf_curr_bucket r) /\
      exists timer tid, tid_ok aid tid /\ TimerSet timer (0, CheckTableRefresh tid) REFRESH_INTERVAL_TIMEOUT ∈ w_effects w')).
Proof.
  intros [Hg Hc] Hw. unfold continue_refresh. set (r0 := if (rf_curr_bucket r =? MAX_BUCKETS)%nat then mkRefresh (rf_id_generator r) 0 else r).
  assert (Hr0 : mid_ok aid (rf_id_generator r0) /\ (rf_curr_bucket r0 < MAX_BUCKETS)%nat /\ rf_curr_bucket r0 = if (rf_curr_bucket r =? MAX_BUCKETS)%nat then 0%nat else rf_curr_bucket r).
  { unfold r0. destruct (Nat.eqb_spec (rf_curr_bucket r) MAX_BUCKETS); split_and!; try done; [cbn; unfold MAX_BUCKETS, SHA_HASH_LEN; lia|lia]. }
  destruct Hr0 as (Hg0 & Hc0 & Ec). rewrite <- Ec. clearbody r0. pose proof Hw as (Ht & Hid & _). pose proof Ht as [Hown _].
  apply dwp_bind, wp_get_table, dwp_bind. destruct (flip_id_ok (table_id (w_table w)) (rf_curr_bucket r0) Hown Hc0) as (target & Et & Htg & _). eapply dwp_lift; [exact Et|].
  apply dwp_bind. destruct (closest_nodes_total now (w_table w) target Ht Htg) as (found & Ef & _). eapply dwp_lift; [exact Ef|]. apply dwp_bind.
  apply (dwp_mono _ _ (fun '(ok, r1) w1 => mid_ok aid (rf_id_generator r1) /\ rf_curr_bucket r1 = rf_curr_bucket r0 /\ world_ok own w1 /\ (reliable -> ok = true) /\
    exists sent, sends w w1 sent /\ (length sent <= 1)%nat)).
  - unfold refresh_one. destruct (questionable now found) as [|n rest]; [apply dwp_ret; split_and!; try done; exists []; by split; [apply sends_refl|cbn; lia]|].
    apply dwp_bind. apply (wp_mid_generate aid); [done|]. intros tid g w1 Htid Hg1 Ht1 He1. apply dwp_bind, wp_get_table, dwp_bind, wp_send_out.
    intros ok w2 Eok Ht2 He2. assert (Hw2 : world_ok own w2) by (eapply world_ok_table; [|exact Hw]; congruence). rewrite He1 in He2.
    assert (Hs : exists sent, sends w w2 sent /\ (length sent <= 1)%nat) by (eexists; split; [by exists (if ok then [OutMessage (find_node_request tid (table_id (w_table w1)) target) (addr n)] else [])|by destruct ok; cbn; lia]).
    destruct ok; [|apply dwp_ret; split_and!; try done; intros [X _]; by rewrite X in Eok].
    apply dwp_bind. eapply (wp_touch now own); [apply local_request_keeps|done|]. intros w3 Hw3 He3. apply dwp_ret. split_and!; try done.
    destruct Hs as (sent & (evs & Ee & Em) & Hle). exists sent. split; [exists evs; by rewrite He3|done].
  - intros [ok r1] w1 (Hg1 & Ec1 & Hw1 & Hr & sent & Hs & Hle). destruct ok; cbn [negb].
    2: { apply dwp_ret. split_and!; try done; [split; [done|lia]|intros X; by specialize (Hr X)|by exists sent]. }
    apply dwp_bind. apply (wp_mid_generate aid); [done|]. intros tid g w2 Htid Hg2 Ht2 He2. apply dwp_bind, wp_timeout_ms. intros o w3 Eo Ht3 He3.
    assert (Hw3 : world_ok own w3) by (eapply world_ok_table; [|exact Hw1]; congruence).
    assert (Hs3 : exists sent, sends w w3 sent /\ (length sent <= 1)%nat).
    { exists (sent ++ []). split; [|by rewrite app_nil_r]. eapply sends_trans; [exact Hs|]. exists (match o with Some i => [TimerSet i (0, CheckTableRefresh tid) REFRESH_INTERVAL_TIMEOUT] | None => [] end).
      rewrite He3, He2. by destruct o. }
    destruct o as [timer|]; apply dwp_ret.
    + split_and!; try done; [split; [done|cbn [rf_curr_bucket]; lia]|]. intros _. split; [cbn [rf_curr_bucket]; lia|]. exists timer, tid. split; [done|]. rewrite He3. apply elem_of_app. right. left.
    + split_and!; try done; [split; [done|cbn [rf_curr_bucket]; lia]|]. intros [_ X]. destruct (X (w_calls w2)). congruence.
Qed.

End Spec.

(** ** Witness *)

#[export] Instance sample_order : HashOrder SocketAddr unit := {| hash_entries := map_to_list; hash_entries_perm m := reflexivity _ |}.

Definition sample_bootstrap : TableBootstrap := TableBootstrap_new sample_own sample_mid [addr (sample_contact 1 3 18)] [].

Lemma sample_bootstrap_ok : boot_ok 5 sample_bootstrap.
Proof. split; [apply sample_own_ok|]. split; [apply sample_mid_ok|]. split; [apply map_Forall_empty|apply Nat.le_0_l]. Qed.

Lemma silent_bootstrap_completes_witness :
  exists st1 b1 w1 w2, start_bootstrap sample_bootstrap sample_world = Ok ((st1, b1), w1) /\
    silent_rounds sample_now (fun m => map fst (map_to_list m)) MAX_BUCKETS b1 w1 = Ok (BsCompleted, w2).
Proof.
  destruct (silent_bootstrap_completes sample_now (fun m => map fst (map_to_list m)) (fun m => Permutation_refl _) sample_own 5 sample_bootstrap sample_world)
    as (st1 & b1 & w1 & E1 & _ & _ & w2 & sent & E2 & _); [apply sample_reliable|apply sample_bootstrap_ok|apply sample_world_ok|].
  exists st1, b1, w1, w2. split; [exact E1|exact E2].
Defined.
