(* ===== verification/DhtHandler.v ===== *)
(** * The DHT handler

    Model of [dht/worker/handler.rs], of the tasks of [dht/worker/mod.rs] and of
    [dht/router.rs]: the handler of the event loop, which owns the token store, the
    announce storage and the running actions, answers queries, and passes responses and
    timers on to the action they belong to. The routing table is part of the world of
    [DhtWorker], the out channel and the handshaker are its effects. Name resolution is the
    parameter [resolve], the digest of the token store the parameter [sha1]. *)

From stdpp Require Import gmap.
From S2P Require Import Prelude RustStd Bencode UtilSha UtilConvert Chrono DhtNode DhtTable DhtClosest DhtToken UtilTrans DhtTransaction DhtStorage DhtBencode DhtCompact DhtMessage DhtWorker DhtLookup DhtBootstrap.

Definition MAX_BOOTSTRAP_ATTEMPTS : nat := 3.
Definition BOOTSTRAP_GOOD_NODE_THRESHOLD : nat := 10.

(** ** Routers *)

Inductive Router : Type := uTorrent | RouterBitTorrent | BitComet | Transmission | RouterCustom (addr : SocketAddr).

Definition UTORRENT_DHT : list Z * Z := (bs "router.utorrent.com", 6881).
Definition BITTORRENT_DHT : list Z * Z := (bs "router.bittorrent.com", 6881).
Definition BITCOMET_DHT : list Z * Z := (bs "router.bitcomet.com", 6881).
Definition TRANSMISSION_DHT : list Z * Z := (bs "dht.transmissionbt.com", 6881).

Section Router.
(** [(host, port).to_socket_addrs()]: a lookup in the domain name system. *)
Context (resolve : list Z * Z -> option (list SocketAddr)).

Definition socket_addrs (self : Router) : option (list SocketAddr) :=
  match self with
  | uTorrent => resolve UTORRENT_DHT
  | RouterBitTorrent => resolve BITTORRENT_DHT
  | BitComet => resolve BITCOMET_DHT
  | Transmission => resolve TRANSMISSION_DHT
  | RouterCustom a => Some [a]
  end.

Definition map_ipv4 (a : SocketAddr) : option SocketAddrV4 := match a with V4 n => Some n | V6 _ => None end.
Definition map_ipv6 (a : SocketAddr) : option SocketAddrV6 := match a with V4 _ => None | V6 n => Some n end.

Definition ipv4_addr (self : Router) : option SocketAddrV4 := addrs ← socket_addrs self; head (omap map_ipv4 addrs).
Definition ipv6_addr (self : Router) : option SocketAddrV6 := addrs ← socket_addrs self; head (omap map_ipv6 addrs).
Definition socket_addr (self : Router) : option SocketAddr := addrs ← socket_addrs self; head addrs.
End Router.

(** ** The handler *)

Inductive OneshotTask : Type :=
| Incoming (buffer : list Z) (addr : SocketAddr)
| RegisterSender (send : EventSender)
| StartBootstrap (routers : list Router) (nodes : list SocketAddr)
| StartLookup (info_hash : ShaHash) (should_announce : bool)
| Shutdown (cause : ShutdownCause).

Section Handler.
Context `{Chrono} `{DhtEnv} `{BinarySearch} `{!HashOrder SocketAddr unit}.
Context (sha1 : list Z -> list Z) (resolve : list Z * Z -> option (list SocketAddr)).

Inductive TableAction : Type :=
| ALookup (l : TableLookup)
| ARefresh (r : TableRefresh)
| ABootstrap (b : TableBootstrap) (attempts : nat).

Inductive PostBootstrapAction : Type :=
| PostLookup (info_hash : ShaHash) (should_announce : bool)
| PostRefresh (r : TableRefresh) (trans_id : TransactionID).

(** [DhtHandler] with the fields of its [DetachedDhtHandler]. *)
Record DhtHandler : Type := mkHandler {
  read_only : bool;
  token_store : TokenStore;
  aid_generator : AIDGenerator;
  bootstrapping : bool;
  active_stores : AnnounceStorage;
  future_actions : list PostBootstrapAction;
  event_notifiers : list EventSender;
  table_actions : gmap ActionID TableAction
}.

(** Field assignment. *)
Definition dh_set_tokens (v : TokenStore) (h : DhtHandler) : DhtHandler :=
  mkHandler (read_only h) v (aid_generator h) (bootstrapping h) (active_stores h) (future_actions h) (event_notifiers h) (table_actions h).
Definition dh_set_aid (v : AIDGenerator) (h : DhtHandler) : DhtHandler :=
  mkHandler (read_only h) (token_store h) v (bootstrapping h) (active_stores h) (future_actions h) (event_notifiers h) (table_actions h).
Definition dh_set_bootstrapping (v : bool) (h : DhtHandler) : DhtHandler :=
  mkHandler (read_only h) (token_store h) (aid_generator h) v (active_stores h) (future_actions h) (event_notifiers h) (table_actions h).
Definition dh_set_stores (v : AnnounceStorage) (h : DhtHandler) : DhtHandler :=
  mkHandler (read_only h) (token_store h) (aid_generator h) (bootstrapping h) v (future_actions h) (event_notifiers h) (table_actions h).
Definition dh_set_future (v : list PostBootstrapAction) (h : DhtHandler) : DhtHandler :=
  mkHandler (read_only h) (token_store h) (aid_generator h) (bootstrapping h) (active_stores h) v (event_notifiers h) (table_actions h).
Definition dh_set_notifiers (v : list EventSender) (h : DhtHandler) : DhtHandler :=
  mkHandler (read_only h) (token_store h) (aid_generator h) (bootstrapping h) (active_stores h) (future_actions h) v (table_actions h).
Definition dh_set_actions (v : gmap ActionID TableAction) (h : DhtHandler) : DhtHandler :=
  mkHandler (read_only h) (token_store h) (aid_generator h) (bootstrapping h) (active_stores h) (future_actions h) (event_notifiers h) v.

Context (now : DateTime).

(** [aid_generator.generate()]. *)
Definition aid_generate (h : DhtHandler) : W (MIDGenerator * DhtHandler) :=
  let! numbers := outside shuffle_numbers in
  let! (m, g) := wlift (AIDGenerator_generate numbers (aid_generator h)) in
  wret (m, dh_set_aid g h).

Definition DhtHandler_new (ro : bool) : W DhtHandler :=
  let! numbers := outside shuffle_numbers in
  let! aid_generator := wlift (AIDGenerator_new numbers) in
  let! numbers := outside shuffle_numbers in
  let! (mid_generator, aid_generator) := wlift (AIDGenerator_generate numbers aid_generator) in
  let! (refresh_trans_id, mid_generator) := mid_generate mid_generator in
  let table_refresh := TableRefresh_new mid_generator in
  let future_actions := [PostRefresh table_refresh refresh_trans_id] in
  let! r1 := outside random_u32 in
  let! r2 := outside random_u32 in
  wret (mkHandler ro (TokenStore_new now r1 r2) aid_generator false AnnounceStorage_new future_actions [] ∅).

Definition broadcast (event : DhtEvent) (h : DhtHandler) : W DhtHandler :=
  let! kept := broadcast_dht_event (event_notifiers h) event in
  wret (dh_set_notifiers kept h).

Definition num_good_nodes (t : RoutingTable) : res unit nat :=
  let? closest := closest_nodes now t (table_id t) in
  Ok (length (List.filter (fun n => bool_decide (status now n = Good)) closest)).

Definition should_rebootstrap (t : RoutingTable) : res unit bool :=
  let? n := num_good_nodes t in Ok (n <=? BOOTSTRAP_GOOD_NODE_THRESHOLD)%nat.

(** ** Actions *)

Definition handle_start_lookup (info_hash : ShaHash) (should_announce : bool) (h : DhtHandler) : W DhtHandler :=
  let! (mid_generator, h) := aid_generate h in
  let action_id := MIDGenerator_action_id mid_generator in
  if bootstrapping h then wret (dh_set_future (future_actions h ++ [PostLookup info_hash should_announce]) h)
  else
    let! t := get_table in
    let! started := TableLookup_new now (table_id t) info_hash mid_generator should_announce in
    match started with
    | Some lookup => wret (dh_set_actions (<[action_id := ALookup lookup]> (table_actions h)) h)
    | None => let! _ := shutdown_event_loop Unspecified in wret h
    end.

Definition handle_check_table_refresh (trans_id : TransactionID) (h : DhtHandler) : W DhtHandler :=
  let action_id := TransactionID_action_id trans_id in
  match table_actions h !! action_id with
  | Some (ARefresh refresh) =>
      let! (status, refresh) := continue_refresh now refresh in
      let h := dh_set_actions (<[action_id := ARefresh refresh]> (table_actions h)) h in
      match status with
      | RfRefreshing => wret h
      | RfFailed => let! _ := shutdown_event_loop Unspecified in wret h
      end
  | _ => wret h
  end.

(** The loop over the drained future actions. *)
Fixpoint start_future_actions (actions : list PostBootstrapAction) (h : DhtHandler) : W DhtHandler :=
  match actions with
  | [] => wret h
  | PostLookup info_hash should_announce :: actions =>
      let! h := handle_start_lookup info_hash should_announce h in
      start_future_actions actions h
  | PostRefresh refresh trans_id :: actions =>
      let h := dh_set_actions (<[TransactionID_action_id trans_id := ARefresh refresh]> (table_actions h)) h in
      let! h := handle_check_table_refresh trans_id h in
      start_future_actions actions h
  end.

Definition broadcast_bootstrap_completed (action_id : ActionID) (h : DhtHandler) : W DhtHandler :=
  let! h := broadcast BootstrapCompleted h in
  let h := dh_set_bootstrapping false h in
  let h := dh_set_actions (delete action_id (table_actions h)) h in
  let actions := future_actions h in
  start_future_actions actions (dh_set_future [] h).

(** [Some true]: started again; [Some false]: not necessary; [None]: shutting down. *)
Fixpoint attempt_rebootstrap (fuel : nat) (b : TableBootstrap) (attempts : nat) : W (option bool * TableBootstrap * nat) :=
  match fuel with
  | O => fun _ => OutOfFuel
  | S fuel =>
      let attempts := (attempts + 1)%nat in
      let! t := get_table in
      if (MAX_BOOTSTRAP_ATTEMPTS <=? attempts)%nat then
        let! good := wlift (num_good_nodes t) in
        if (good =? 0)%nat then
          let! _ := shutdown_event_loop BootstrapFailed in
          wret (None, b, attempts)
        else wret (Some false, b, attempts)
      else
        let! (bootstrap_status, b) := start_bootstrap b in
        match bootstrap_status with
        | BsIdle => wret (Some false, b, attempts)
        | BsBootstrapping => wret (Some true, b, attempts)
        | BsFailed =>
            let! _ := shutdown_event_loop Unspecified in
            wret (None, b, attempts)
        | BsCompleted =>
            let! again := wlift (should_rebootstrap t) in
            if again : bool then attempt_rebootstrap fuel b attempts else wret (Some false, b, attempts)
        end
  end.

(** Each call counts as an attempt. *)
Definition ATTEMPT_FUEL : nat := MAX_BOOTSTRAP_ATTEMPTS + 1.

(** What the status of a bootstrap leads to, and whether it is complete. *)
Definition bootstrap_outcome (status : BootstrapStatus) (b : TableBootstrap) (attempts : nat) : W (bool * TableBootstrap * nat) :=
  match status with
  | BsIdle => wret (true, b, attempts)
  | BsBootstrapping => wret (false, b, attempts)
  | BsFailed =>
      let! _ := shutdown_event_loop Unspecified in
      wret (false, b, attempts)
  | BsCompleted =>
      let! t := get_table in
      let! again := wlift (should_rebootstrap t) in
      if again : bool then
        let! (outcome, b, attempts) := attempt_rebootstrap ATTEMPT_FUEL b attempts in
        wret (bool_decide (outcome = Some false), b, attempts)
      else wret (true, b, attempts)
  end.

Definition handle_start_bootstrap (routers : list Router) (start : list SocketAddr) (h : DhtHandler) : W DhtHandler :=
  let router_iter := omap (fun r => V4 <$> ipv4_addr resolve r) routers in
  let! (mid_generator, h) := aid_generate h in
  let action_id := MIDGenerator_action_id mid_generator in
  let! t := get_table in
  let table_bootstrap := TableBootstrap_new (table_id t) mid_generator start router_iter in
  let! (bootstrap_status, table_bootstrap) := start_bootstrap table_bootstrap in
  let h := dh_set_bootstrapping true h in
  let! (bootstrap_complete, table_bootstrap, attempts) := bootstrap_outcome bootstrap_status table_bootstrap 0 in
  let h := dh_set_actions (<[action_id := ABootstrap table_bootstrap attempts]> (table_actions h)) h in
  if bootstrap_complete : bool then broadcast_bootstrap_completed action_id h else wret h.

Definition handle_register_sender (sender : EventSender) (h : DhtHandler) : DhtHandler :=
  dh_set_notifiers (event_notifiers h ++ [sender]) h.

Definition handle_shutdown (cause : ShutdownCause) (h : DhtHandler) : W DhtHandler :=
  let! h := broadcast (ShuttingDown cause) h in
  let! _ := emit LoopShutdown in
  wret h.

Definition handle_check_bootstrap_timeout (trans_id : TransactionID) (h : DhtHandler) : W DhtHandler :=
  let action_id := TransactionID_action_id trans_id in
  match table_actions h !! action_id with
  | Some (ABootstrap b attempts) =>
      let! (status, b) := bs_recv_timeout now trans_id b in
      let! (bootstrap_complete, b, attempts) := bootstrap_outcome status b attempts in
      let h := dh_set_actions (<[action_id := ABootstrap b attempts]> (table_actions h)) h in
      if bootstrap_complete : bool then broadcast_bootstrap_completed action_id h else wret h
  | _ => wret h
  end.

(** The handshaker connects to each of the values. *)
Fixpoint connect_values (info_hash : ShaHash) (values : list SocketAddrV4) : W unit :=
  match values with
  | [] => wret tt
  | v4_addr :: values =>
      let! _ := emit (ConnectPeer info_hash (V4 v4_addr)) in
      connect_values info_hash values
  end.

Definition lookup_outcome (status : LookupStatus) (info_hash : ShaHash) (h : DhtHandler) : W DhtHandler :=
  match status with
  | LkSearching => wret h
  | LkCompleted => broadcast (LookupCompleted info_hash) h
  | LkFailed => let! _ := shutdown_event_loop Unspecified in wret h
  | LkValues values => let! _ := connect_values info_hash values in wret h
  end.

Definition handle_check_lookup_timeout (trans_id : TransactionID) (h : DhtHandler) : W DhtHandler :=
  let action_id := TransactionID_action_id trans_id in
  match table_actions h !! action_id with
  | Some (ALookup lookup) =>
      let! (status, lookup) := recv_timeout now trans_id lookup in
      lookup_outcome status (lk_target_id lookup) (dh_set_actions (<[action_id := ALookup lookup]> (table_actions h)) h)
  | _ => wret h
  end.

(** The action is removed whatever it is. *)
Definition handle_check_lookup_endgame (trans_id : TransactionID) (h : DhtHandler) : W DhtHandler :=
  let action_id := TransactionID_action_id trans_id in
  let removed := table_actions h !! action_id in
  let h := dh_set_actions (delete action_id (table_actions h)) h in
  match removed with
  | Some (ALookup lookup) =>
      let! (status, lookup) := recv_finished now handshaker_port lookup in
      lookup_outcome status (lk_target_id lookup) h
  | _ => wret h
  end.

(** ** Queries *)

(** Sends an answer; when the out channel is closed, the loop shuts down. *)
Definition reply (msg : list Z) (a : SocketAddr) : W unit :=
  let! sent := send_out msg a in
  if sent : bool then wret tt else shutdown_event_loop Unspecified.

(** The node that asks is marked in the table, if it is there. *)
Definition mark_requester (node_id : ShaHash) (a : SocketAddr) : W unit :=
  touch_found now (remote_request now) (as_good now node_id a).

Fixpoint encode_nodes (l : list Node) : res unit (list Z) :=
  match l with
  | [] => Ok []
  | node :: l =>
      let? encoded := Node_encode node in
      let? rest := encode_nodes l in
      Ok (encoded ++ rest)
  end.

(** The eight closest nodes in compact form. *)
Definition closest_nodes_bytes (target : ShaHash) : W (list Z) :=
  let! t := get_table in
  let! closest := wlift (closest_nodes now t target) in
  wlift (encode_nodes (take 8 closest)).

(** The closure passed to [find_items]: what it appends for one contact. *)
Definition contact_bytes (a : SocketAddr) : list Z :=
  match a with
  | V4 v4_addr =>
      let bytes := zip_copy (replicate 6 0) (ipv4_to_bytes_be (v4_ip v4_addr)) in
      let port := v4_port v4_addr in
      <[5%nat := as_u8 (Z.land port 0xFF)]> (<[4%nat := as_u8 (Z.shiftr port 8)]> bytes)
  | V6 _ => []
  end.

(** The loop over the chunk indices. *)
Fixpoint contact_chunks (contact_info_bytes : list Z) (indices : list nat) : res unit (list DBencode) :=
  match indices with
  | [] => Ok []
  | chunk_index :: indices =>
      let? chunk := index_range contact_info_bytes (chunk_index * 6) (chunk_index * 6 + 6) in
      let? rest := contact_chunks contact_info_bytes indices in
      Ok (MBytes chunk :: rest)
  end.

Definition contact_bencode (contacts : list SocketAddr) : res unit (list DBencode) :=
  let contact_info_bytes := concat (map contact_bytes contacts) in
  contact_chunks contact_info_bytes (seq 0 (length contact_info_bytes / 6)).

(** [checkout] and [checkin] with the numbers a refresh of the secrets would draw. *)
Definition checkout_token (a : SocketAddr) (h : DhtHandler) : W (Token * DhtHandler) :=
  let! r1 := outside random_u32 in
  let! r2 := outside random_u32 in
  let '(token, store) := checkout sha1 now r1 r2 (token_store h) (IpAddr_from_socket_addr a) in
  wret (token, dh_set_tokens store h).

Definition checkin_token (a : SocketAddr) (tok : Token) (h : DhtHandler) : W (bool * DhtHandler) :=
  let! r1 := outside random_u32 in
  let! r2 := outside random_u32 in
  let '(is_valid, store) := checkin sha1 now r1 r2 (token_store h) (IpAddr_from_socket_addr a) tok in
  wret (is_valid, dh_set_tokens store h).

Definition handle_ping (p : PingRequest) (a : SocketAddr) (h : DhtHandler) : W DhtHandler :=
  let! _ := mark_requester (prq_node_id p) a in
  let! t := get_table in
  let ping_rsp := PingResponse_new (prq_trans_id p) (table_id t) in
  let! _ := reply (PingResponse_encode ping_rsp) a in
  wret h.

Definition handle_find_node (f : FindNodeRequest) (a : SocketAddr) (h : DhtHandler) : W DhtHandler :=
  let! _ := mark_requester (frq_node_id f) a in
  let! closest_nodes_bytes := closest_nodes_bytes (frq_target_id f) in
  let! t := get_table in
  let! find_node_rsp := wlift (res_unwrap (FindNodeResponse_new (frq_trans_id f) (table_id t) closest_nodes_bytes)) in
  let! _ := reply (FindNodeResponse_encode find_node_rsp) a in
  wret h.

Definition handle_get_peers (g : GetPeersRequest) (a : SocketAddr) (h : DhtHandler) : W DhtHandler :=
  let! _ := mark_requester (grq_node_id g) a in
  let '(contacts, stores) := storage_find now (active_stores h) (grq_info_hash g) in
  let h := dh_set_stores stores h in
  let! contact_info_bencode := wlift (contact_bencode contacts) in
  let! closest_nodes_bytes := closest_nodes_bytes (grq_info_hash g) in
  let! (tok, h) := checkout_token a h in
  let! nodes_info := wlift (res_unwrap (CompactNodeInfo_new closest_nodes_bytes)) in
  let! compact_info_type :=
    if negb (length contact_info_bencode =? 0)%nat then
      let! values_info := wlift (res_unwrap (CompactValueInfo_new contact_info_bencode)) in
      wret (Both nodes_info values_info)
    else wret (Nodes nodes_info) in
  let! t := get_table in
  let get_peers_rsp := GetPeersResponse_new (grq_trans_id g) (table_id t) (Some (token tok)) compact_info_type in
  let! _ := reply (GetPeersResponse_encode get_peers_rsp) a in
  wret h.

(** The address a peer announces: its own, or its own with the port it names. *)
Definition connect_addr (port : ConnectPort) (a : SocketAddr) : SocketAddr :=
  match port, a with
  | Implied, _ => a
  | Explicit port, V4 v4_addr => V4 (SocketAddrV4_new (v4_ip v4_addr) port)
  | Explicit port, V6 v6_addr => V6 (SocketAddrV6_new (v6_ip v6_addr) port (flowinfo v6_addr) (scope_id v6_addr))
  end.

Definition handle_announce_peer (p : AnnouncePeerRequest) (a : SocketAddr) (h : DhtHandler) : W DhtHandler :=
  let! _ := mark_requester (arq_node_id p) a in
  let! (is_valid, h) :=
    match Token_new (arq_token p) with
    | Ok t => checkin_token a t h
    | Err _ => wret (false, h)
    | Panic | OutOfFuel => wlift Panic
    end in
  let! t := get_table in
  let '(response_msg, h) :=
    if negb is_valid then
      (ErrorMessage_encode (ErrorMessage_new (arq_trans_id p) ProtocolError (bs "Received An Invalid Token")), h)
    else
      let '(stored, stores) := storage_add now now (active_stores h) (arq_info_hash p) (connect_addr (arq_port p) a) in
      let h := dh_set_stores stores h in
      if stored : bool then (AnnouncePeerResponse_encode (AnnouncePeerResponse_new (arq_trans_id p) (table_id t)), h)
      else (ErrorMessage_encode (ErrorMessage_new (arq_trans_id p) ServerError (bs "Announce Storage Is Full")), h) in
  let! _ := reply response_msg a in
  wret h.

Definition handle_request (r : RequestType) (a : SocketAddr) (h : DhtHandler) : W DhtHandler :=
  match r with
  | RqPing p => handle_ping p a h
  | RqFindNode f => handle_find_node f a h
  | RqGetPeers g => handle_get_peers g a h
  | RqAnnouncePeer p => handle_announce_peer p a h
  end.

(** ** Responses *)

(** The loop that adds the nodes of a response as questionable. *)
Fixpoint add_questionable (infos : list (ShaHash * SocketAddrV4)) : W unit :=
  match infos with
  | [] => wret tt
  | (i, v4_addr) :: infos =>
      let! node := wlift (as_questionable now i (V4 v4_addr)) in
      let! _ := table_add_node now node in
      add_questionable infos
  end.

Definition handle_find_node_response (f : FindNodeResponse) (a : SocketAddr) (h : DhtHandler) : W DhtHandler :=
  let! trans_id := wlift (or_panic (TransactionID_from_bytes (frs_trans_id f))) in
  let node := as_good now (frs_node_id f) a in
  let! infos := wlift (collect_nodes (frs_nodes f)) in
  let! _ := add_questionable infos in
  let action_id := TransactionID_action_id trans_id in
  match table_actions h !! action_id with
  | Some (ARefresh _) =>
      let! _ := table_add_node now node in
      wret h
  | Some (ABootstrap b attempts) =>
      let! _ := if negb (is_router (addr node) b) then table_add_node now node else wret tt in
      let! (status, b) := bs_recv_response now trans_id b in
      let! (bootstrap_complete, b, attempts) := bootstrap_outcome status b attempts in
      let h := dh_set_actions (<[action_id := ABootstrap b attempts]> (table_actions h)) h in
      if bootstrap_complete : bool then broadcast_bootstrap_completed action_id h else wret h
  | Some (ALookup _) | None => wret h
  end.

Definition handle_get_peers_response (g : GetPeersResponse) (a : SocketAddr) (h : DhtHandler) : W DhtHandler :=
  let! trans_id := wlift (or_panic (TransactionID_from_bytes (grs_trans_id g))) in
  let node := as_good now (grs_node_id g) a in
  let! _ := table_add_node now node in
  let action_id := TransactionID_action_id trans_id in
  match table_actions h !! action_id with
  | Some (ALookup lookup) =>
      let! (status, lookup) := recv_response now node trans_id g lookup in
      lookup_outcome status (lk_target_id lookup) (dh_set_actions (<[action_id := ALookup lookup]> (table_actions h)) h)
  | _ => wret h
  end.

Definition handle_response (r : ResponseType) (a : SocketAddr) (h : DhtHandler) : W DhtHandler :=
  match r with
  | RsFindNode f => handle_find_node_response f a h
  | RsGetPeers g => handle_get_peers_response g a h
  | RsPing _ | RsAnnouncePeer _ => wret h
  end.

(** The kind of response the action of a transaction id waits for. *)
Definition expected_response (actions : gmap ActionID TableAction) (trans : list Z) : ExpectedResponse :=
  match TransactionID_from_bytes trans with
  | None => ExNone
  | Some trans_id =>
      match actions !! TransactionID_action_id trans_id with
      | Some (ALookup _) => ExGetPeers
      | Some (ARefresh _) => ExFindNode
      | Some (ABootstrap _ _) => ExFindNode
      | None => ExNone
      end
  end.

Definition handle_incoming (buffer : list Z) (a : SocketAddr) (h : DhtHandler) : W DhtHandler :=
  match Bencode_decode buffer with
  | Err _ => wret h
  | Panic => wlift Panic
  | OutOfFuel => wlift OutOfFuel
  | Ok bencode =>
      match MessageType_new bencode (expected_response (table_actions h)) with
      | Ok (Request r) => if read_only h then wret h else handle_request r a h
      | Ok (Response r) => handle_response r a h
      | Ok (ErrorMsg _) => wret h
      | Err _ => wret h
      | Panic => wlift Panic
      | OutOfFuel => wlift OutOfFuel
      end
  end.

(** ** The event loop's calls *)

Definition notify (task : OneshotTask) (h : DhtHandler) : W DhtHandler :=
  match task with
  | Incoming buffer a => handle_incoming buffer a h
  | RegisterSender send => wret (handle_register_sender send h)
  | StartBootstrap routers nodes => handle_start_bootstrap routers nodes h
  | StartLookup info_hash should_announce => handle_start_lookup info_hash should_announce h
  | Shutdown cause => handle_shutdown cause h
  end.

Definition timeout (data : Z * ScheduledTask) (h : DhtHandler) : W DhtHandler :=
  let '(_, task) := data in
  match task with
  | CheckTableRefresh trans_id => handle_check_table_refresh trans_id h
  | CheckBootstrapTimeout trans_id => handle_check_bootstrap_timeout trans_id h
  | CheckLookupTimeout trans_id => handle_check_lookup_timeout trans_id h
  | CheckLookupEndGame trans_id => handle_check_lookup_endgame trans_id h
  end.

End Handler.
