(* ===== verification/DhtHandlerFacts.v ===== *)
(** * What a datagram can hold

    Values decoded from the bytes of a datagram, and the messages parsed from them: every
    byte string in them is a piece of the datagram, so ids, compact nodes and contacts
    meet the invariants their users rely on.

    Then the invariant of the DHT handler, which rests on them. *)

From stdpp Require Import gmap.
From S2P Require Import Prelude RustStd BTree Bencode BencodeFacts UtilSha UtilConvert Chrono DhtNode DhtTable DhtClosest DhtToken UtilTrans DhtTransaction DhtStorage DhtBencode DhtBencodeSpec DhtCompact DhtMessage DhtMessageSpec DhtWorker DhtLookup DhtLookupSpec DhtLookupRuns DhtBootstrap DhtBootstrapSpec DhtHandler.

(** A byte string of at most [n] bytes. *)
Definition piece (n : nat) (b : list Z) : Prop := bytes_ok b /\ (length b <= n)%nat.

(** All byte strings of a value, keys of dictionaries aside, are pieces. *)
Inductive wire (n : nat) : DBencode -> Prop :=
| wire_int i : wire n (MInt i)
| wire_bytes b : piece n b -> wire n (MBytes b)
| wire_list l : Forall (wire n) l -> wire n (MList l)
| wire_dict d : Forall (fun kv => wire n (snd kv)) d -> wire n (MDict d).

Definition dict_wire (n : nat) (d : list (list Z * DBencode)) : Prop := Forall (fun kv => wire n (snd kv)) d.

Lemma decode_bytes_piece bytes pos b next : bytes_ok bytes -> decode_bytes bytes pos = Ok (b, next) -> piece (length bytes) b.
Proof.
  intros Hb (s & post & Hd & _)%decode_bytes_Ok. assert (Hsuf : b `sublist_of` bytes).
  { transitivity (drop pos bytes); [|apply sublist_drop]. rewrite Hd. apply sublist_inserts_l, sublist_cons, sublist_inserts_r. done. }
  split; [|by apply sublist_length]. unfold bytes_ok in *. rewrite Forall_forall in *. intros x Hx. apply Hb. by eapply elem_of_sublist.
Qed.

Section Decode.
Context (bytes : list Z) (Hbytes : bytes_ok bytes).
Let n := length bytes.

Lemma decode_shallow_wire pos sh next : decode_shallow bytes pos = Ok (sh, next) -> wire n sh.
Proof.
  unfold decode_shallow. intros Hd. res_inv. repeat (case_match; res_inv; try (by constructor); try done).
  rewrite dht_decode_bytes_eq in *. constructor. by eapply decode_bytes_piece.
Qed.

Lemma rdecode_wire fuel :
  (forall o pos v next, rdecode fuel bytes o pos = Ok (v, next) -> wire n v) /\
  (forall acc pos l next, Forall (wire n) acc -> rlist fuel bytes acc pos = Ok (l, next) -> Forall (wire n) l) /\
  (forall o acc pos d next, dict_wire n acc -> rdict fuel bytes o acc pos = Ok (d, next) -> dict_wire n d).
Proof.
  induction fuel as [|fuel (IHv & IHl & IHd)]; [done|]. split; [|split].
  - intros o pos v next E. cbn [rdecode] in E. apply res_bind_Ok in E as ([sh p] & Es & E). apply decode_shallow_wire in Es as Hw.
    inversion Hw as [i Ei|b Hb Eb|l Hl El|d Hd Ed]; subst sh; cbn beta iota in E; [by injection E as <- <-..| |].
    + apply res_bind_Ok in E as ([l' p'] & El & E). injection E as <- <-. constructor. by eapply IHl.
    + apply res_bind_Ok in E as ([d' p'] & Ed & E). injection E as <- <-. constructor. by eapply IHd.
  - intros acc pos l next Hacc E. cbn [rlist] in E. apply res_bind_Ok in E as (c & _ & E). destruct (c =? BEN_END); [by injection E as <- <-|].
    apply res_bind_Ok in E as ([v p] & Ev & E). eapply IHl; [|exact E]. apply Forall_app_2; [done|]. constructor; [by eapply IHv|done].
  - intros o acc pos d next Hacc E. cbn [rdict] in E. apply res_bind_Ok in E as (c & _ & E). destruct (c =? BEN_END); [by injection E as <- <-|].
    apply res_bind_Ok in E as ([key p] & _ & E). apply res_bind_Ok in E as ([v p'] & Ev & E). apply res_bind_Ok in E as (acc' & Ea & E).
    eapply IHd; [|exact E]. unfold add_entry in Ea. repeat (case_match; try done). injection Ea as <-. apply bt_insert_Forall; [|done]. by eapply IHv.
Qed.

Lemma decoded_wire v : Bencode_decode bytes = Ok v -> wire n v.
Proof. intros Hd%Bencode_decode_Ok%ok_val_Some. by eapply (proj1 (rdecode_wire _)). Qed.
End Decode.

(** ** Parsed messages *)

Lemma lookup_wire n k d v : bt_lookup k d = Some v -> dict_wire n d -> wire n v.
Proof. intros He%bt_lookup_elem Hd. by apply (proj1 (Forall_forall _ _) Hd) in He. Qed.

Section Converts.
Context {V : Type} {BC : BencodeConvert V DhtErrorKind} (n : nat).

Lemma lookup_key_wire (s : V) d k v : dict_wire n d -> lookup_key s d k = Ok v -> wire n v.
Proof. intros Hd. unfold lookup_key. destruct (bt_lookup k d) eqn:E; [|done]. intros [= <-]. by eapply lookup_wire. Qed.

Lemma lookup_bytes_wire (s : V) d k b : dict_wire n d -> lookup_and_convert_bytes s d k = Ok b -> piece n b.
Proof.
  intros Hd. unfold lookup_and_convert_bytes, convert_bytes. intros E. apply res_bind_Ok in E as (v & Ev & E). apply lookup_key_wire in Ev; [|done].
  destruct Ev; cbn in E; try done. by injection E as <-.
Qed.

Lemma lookup_list_wire (s : V) d k l : dict_wire n d -> lookup_and_convert_list s d k = Ok l -> Forall (wire n) l.
Proof.
  intros Hd. unfold lookup_and_convert_list, convert_list. intros E. apply res_bind_Ok in E as (v & Ev & E). apply lookup_key_wire in Ev; [|done].
  destruct Ev; cbn in E; try done. by injection E as <-.
Qed.

Lemma lookup_dict_wire (s : V) d k d' : dict_wire n d -> lookup_and_convert_dict s d k = Ok d' -> dict_wire n d'.
Proof.
  intros Hd. unfold lookup_and_convert_dict, convert_dict. intros E. apply res_bind_Ok in E as (v & Ev & E). apply lookup_key_wire in Ev; [|done].
  destruct Ev; cbn in E; try done. by injection E as <-.
Qed.
End Converts.

Lemma rq_node_id_wire s n b h : piece n b -> rq_validate_node_id s b = Ok h -> sha_ok h.
Proof. intros [Hb _] [Hl ->]%map_err_Ok%ShaHash_from_hash_ok. by split. Qed.
Lemma rq_info_hash_wire s n b h : piece n b -> rq_validate_info_hash s b = Ok h -> sha_ok h.
Proof. intros [Hb _] [Hl ->]%map_err_Ok%ShaHash_from_hash_ok. by split. Qed.
Lemma rs_node_id_wire s n b h : piece n b -> rs_validate_node_id s b = Ok h -> sha_ok h.
Proof. intros [Hb _] [Hl ->]%map_err_Ok%ShaHash_from_hash_ok. by split. Qed.

Lemma rs_nodes_wire s n b c : piece n b -> rs_validate_nodes s b = Ok c -> nodes_wire_ok c /\ (length (cni_nodes c) <= n)%nat.
Proof.
  intros [Hb Hl]. unfold rs_validate_nodes. rewrite map_err_Ok. unfold CompactNodeInfo_new.
  destruct (Nat.eqb_spec (length b mod BYTES_PER_COMPACT_NODE_INFO) 0) as [Em|]; cbn [negb]; [|done]. by intros [= <-].
Qed.

Lemma rs_values_wire s n l c : Forall (wire n) l -> rs_validate_values s l = Ok c -> values_wire_ok c.
Proof.
  intros Hl. unfold rs_validate_values. intros E. apply res_bind_Ok in E as (u & _ & E). apply map_err_Ok in E. unfold CompactValueInfo_new in E.
  apply res_bind_Ok in E as ([] & E & [= <-]). unfold values_wire_ok. cbn [cvi_values]. revert E. generalize 0%nat.
  induction Hl as [|v l Hv _ IH]; intros i E; [constructor|]. cbn [check_compact_values] in E. apply res_bind_Ok in E as (b & Eb & E).
  destruct Hv as [|b' Hb'| |]; cbn in Eb; try done. injection Eb as <-. destruct (Nat.eqb_spec (length b') BYTES_PER_COMPACT_IP) as [El|]; [|done].
  constructor; [by exists b'; destruct Hb'|]. cbn [negb] in E. by eapply IH.
Qed.

(** A response carries compact information made of bytes. *)
Definition response_wire_ok (r : ResponseType) : Prop :=
  match r with
  | RsPing p => sha_ok (prs_node_id p)
  | RsFindNode f => sha_ok (frs_node_id f) /\ nodes_wire_ok (frs_nodes f)
  | RsGetPeers g => sha_ok (grs_node_id g) /\ info_wire_ok (grs_info_type g)
  | RsAnnouncePeer p => sha_ok (ars_node_id p)
  end.

(** A request carries twenty-byte ids, a 16-bit port and short byte strings. *)
Definition message_wire_ok (m : MessageType) : Prop :=
  match m with
  | Request r => message_ok (Request r)
  | Response r => response_wire_ok r
  | ErrorMsg _ => True
  end.

(** Decompose a parser that succeeded. *)
Ltac parse_inv :=
  repeat match goal with
  | E : res_bind _ _ = Ok _ |- _ => let x := fresh "x" in let Ex := fresh "Ex" in apply res_bind_Ok in E as (x & Ex & E)
  | E : Ok _ = Ok _ |- _ => injection E as <-
  | E : lookup_and_convert_bytes _ _ _ = Ok _ |- _ => eapply lookup_bytes_wire in E; [|eassumption]
  | E : lookup_and_convert_list _ _ _ = Ok _ |- _ => eapply lookup_list_wire in E; [|eassumption]
  | E : lookup_and_convert_dict _ _ _ = Ok _ |- _ => eapply lookup_dict_wire in E; [|eassumption]
  | E : rq_validate_node_id _ _ = Ok _ |- _ => eapply rq_node_id_wire in E; [|eassumption]
  | E : rq_validate_info_hash _ _ = Ok _ |- _ => eapply rq_info_hash_wire in E; [|eassumption]
  | E : rs_validate_node_id _ _ = Ok _ |- _ => eapply rs_node_id_wire in E; [|eassumption]
  | E : rs_validate_nodes _ _ = Ok _ |- _ => eapply rs_nodes_wire in E as [? _]; [|eassumption]
  | E : rs_validate_values _ _ = Ok _ |- _ => eapply rs_values_wire in E; [|eassumption]
  end.

Lemma piece_short n b : Z.of_nat n < 2 ^ 63 -> piece n b -> short b.
Proof. intros Hn [_ Hl]. unfold short. lia. Qed.

Lemma request_wire n root t ty r : Z.of_nat n < 2 ^ 63 -> dict_wire n root -> piece n t -> RequestType_from_parts root t ty = Ok r ->
  message_ok (Request r) /\ message_trans_id (Request r) = t.
Proof.
  intros Hn Hd Ht E. apply (piece_short n) in Ht as Hs; [|done]. unfold RequestType_from_parts in E. apply res_bind_Ok in E as (args & Ea & E).
  eapply lookup_dict_wire in Ea; [|done]. cbv zeta in E.
  assert (Hfind : forall key f, FindNodeRequest_from_parts args t key = Ok f -> message_ok (Request (RqFindNode f)) /\ frq_trans_id f = t).
  { intros key f Ef. unfold FindNodeRequest_from_parts in Ef. cbv zeta in Ef. parse_inv. by split. }
  destruct (decide (ty = PING_TYPE_KEY)).
  { unfold PingRequest_from_parts in E. cbv zeta in E. parse_inv. by split. }
  destruct (decide (ty = FIND_NODE_TYPE_KEY)); [apply res_bind_Ok in E as (f & Ef & [= <-]); by apply (Hfind _ _ Ef)|].
  destruct (decide (ty = GET_PEERS_TYPE_KEY)).
  { unfold GetPeersRequest_from_parts in E. cbv zeta in E. parse_inv. by split. }
  destruct (decide (ty = ANNOUNCE_PEER_TYPE_KEY)).
  { unfold AnnouncePeerRequest_from_parts in E. cbv zeta in E. apply res_bind_Ok in E as (p & Ep & [= <-]). parse_inv.
    split; [|done]. split; [done|]. cbn. split_and!; try done; [by apply (piece_short n)|].
    repeat (case_match; parse_inv; try done); cbn; by apply wrap_in_unsigned. }
  destruct (forward_compatible_find_node args); [|done]. apply res_bind_Ok in E as (f & Ef & [= <-]). by apply (Hfind _ _ Ef).
Qed.

Lemma response_wire n root t ty r : dict_wire n root -> ResponseType_from_parts root t ty = Ok r -> response_wire_ok r.
Proof.
  intros Hd E. unfold ResponseType_from_parts in E. apply res_bind_Ok in E as (args & Ea & E). eapply lookup_dict_wire in Ea; [|done].
  destruct ty; try done.
  - unfold PingResponse_from_parts, PingRequest_from_parts in E. cbv zeta in E. parse_inv. done.
  - unfold FindNodeResponse_from_parts, FindNodeResponse_new in E. cbv zeta in E. parse_inv. by split.
  - unfold GetPeersResponse_from_parts in E. cbv zeta in E. apply res_bind_Ok in E as (g & Eg & [= <-]). parse_inv. split; [done|]. cbn [grs_info_type].
    destruct (lookup_and_convert_bytes _ _ NODES_KEY) eqn:En, (lookup_and_convert_list _ _ VALUES_KEY) eqn:Ev; cbn [res_ok] in *; parse_inv; done.
  - unfold AnnouncePeerResponse_from_parts in E. cbv zeta in E. parse_inv. done.
Qed.

(** Messages parsed from the bytes of a datagram are well formed. *)
Lemma parsed_wire bytes v mapper m : bytes_ok bytes -> Z.of_nat (length bytes) < 2 ^ 63 -> Bencode_decode bytes = Ok v ->
  MessageType_new v mapper = Ok m -> message_wire_ok m.
Proof.
  intros Hb Hn Hv%decoded_wire E; [|done]. unfold MessageType_new in E. cbv zeta in E. apply res_bind_Ok in E as (root & Er & E).
  assert (Hd : dict_wire (length bytes) root) by (unfold convert_dict in Er; destruct Hv; cbn in Er; by simplify_eq).
  apply res_bind_Ok in E as (t & Et & E). eapply lookup_bytes_wire in Et; [|done]. apply res_bind_Ok in E as (ty & _ & E).
  repeat (case_match; parse_inv; try done).
  - by eapply request_wire.
  - by eapply response_wire.
Qed.

(** A response that is parsed is one its transaction waits for. *)
Lemma parsed_expected v mapper m : MessageType_new v mapper = Ok m -> expects mapper m.
Proof.
  unfold MessageType_new. cbv zeta. intros E. apply res_bind_Ok in E as (root & _ & E). apply res_bind_Ok in E as (t & _ & E). apply res_bind_Ok in E as (ty & _ & E).
  destruct (decide (ty = REQUEST_TYPE_KEY)); [parse_inv; done|]. destruct (decide (ty = RESPONSE_TYPE_KEY)).
  2: { destruct (decide (ty = ERROR_TYPE_KEY)); [|done]. apply res_bind_Ok in E as (x & _ & [= <-]). done. }
  apply res_bind_Ok in E as (r & E & [= <-]). unfold ResponseType_from_parts in E. apply res_bind_Ok in E as (args & _ & E).
  destruct (mapper t) eqn:Em; try done.
  - unfold PingResponse_from_parts, PingRequest_from_parts in E. cbv zeta in E. repeat (apply res_bind_Ok in E as (? & ?E & E)); simplify_eq. parse_inv. done.
  - unfold FindNodeResponse_from_parts, FindNodeResponse_new in E. cbv zeta in E. repeat (apply res_bind_Ok in E as (? & ?E & E)); simplify_eq. parse_inv. done.
  - unfold GetPeersResponse_from_parts in E. cbv zeta in E. apply res_bind_Ok in E as (? & E & [= <-]). do 2 (apply res_bind_Ok in E as (? & _ & E)).
    apply res_bind_Ok in E as (? & _ & [= <-]). done.
  - unfold AnnouncePeerResponse_from_parts in E. cbv zeta in E. repeat (apply res_bind_Ok in E as (? & ?E & E)); simplify_eq. parse_inv. done.
Qed.

(** * The DHT handler: its invariant

    Every event the loop hands to the handler keeps the invariant of its actions, its
    generator and the routing table, as long as the handler has not asked the loop to
    shut down. *)

Section Handler.
Context {C : Chrono} {Env : DhtEnv} {BS : BinarySearch} {HO : HashOrder SocketAddr unit}.
Context (sha1 : list Z -> list Z) (resolve : list Z * Z -> option (list SocketAddr)).
Implicit Types (w : World) (h : DhtHandler) (own : ShaHash) (aid : ActionID).

(** ** The invariant *)

Definition action_ok aid (a : TableAction) : Prop :=
  match a with
  | ALookup l => lookup_ok (action_id aid) l
  | ARefresh r => refresh_ok (action_id aid) r
  | ABootstrap b _ => boot_ok (action_id aid) b
  end.

(** A bootstrap has buckets left. *)
Definition boot_runs (a : TableAction) : Prop :=
  match a with ABootstrap b _ => (bs_curr_bucket b < MAX_BUCKETS)%nat | _ => True end.

Definition post_ok (p : PostBootstrapAction) : Prop :=
  match p with
  | PostLookup info_hash _ => sha_ok info_hash
  | PostRefresh r t => refresh_ok (action_id (TransactionID_action_id t)) r
  end.

(** The addresses in the announce storage. *)
Definition contact_ok (a : SocketAddr) : Prop := match a with V4 s => sock_v4_ok s | V6 _ => True end.
Definition contacts_ok (s : AnnounceStorage) : Prop :=
  map_Forall (fun _ items => Forall (fun i => contact_ok (address (expiration i))) items) (storage s).

(** The handler has asked the loop to shut down. *)
Definition stopping w : Prop := exists cause, ShutdownTask cause ∈ w_effects w.

Record handler_base own h w : Prop := {
  hb_world : world_ok own w;
  hb_aid : aid_ok (aid_generator h);
  hb_actions : map_Forall action_ok (table_actions h);
  hb_future : Forall post_ok (future_actions h);
  hb_contacts : contacts_ok (active_stores h)
}.

Definition boots_run w (actions : gmap ActionID TableAction) : Prop := stopping w \/ map_Forall (fun _ => boot_runs) actions.

Definition handler_ok own h w : Prop := handler_base own h w /\ boots_run w (table_actions h).

(** Effects only accumulate. *)
Definition grows w w' : Prop := exists evs, w_effects w' = w_effects w ++ evs.

Lemma grows_same w w' : w_effects w' = w_effects w -> grows w w'.
Proof. intros E. exists []. by rewrite app_nil_r. Qed.
Lemma grows_trans w1 w2 w3 : grows w1 w2 -> grows w2 w3 -> grows w1 w3.
Proof. intros [e1 E1] [e2 E2]. exists (e1 ++ e2). by rewrite E2, E1, app_assoc. Qed.
Lemma sends_grows w w' sent : sends w w' sent -> grows w w'.
Proof. intros (evs & E & _). by exists evs. Qed.

Lemma stopping_grows w w' : grows w w' -> stopping w -> stopping w'.
Proof. intros [evs E] [c Hc]. exists c. rewrite E. apply elem_of_app. by left. Qed.
Lemma boots_run_grows w w' actions : grows w w' -> boots_run w actions -> boots_run w' actions.
Proof. intros Hg [Hs|Hb]; [left; by eapply stopping_grows|by right]. Qed.

Lemma base_world own h w w' : handler_base own h w -> world_ok own w' -> handler_base own h w'.
Proof. by intros []. Qed.
Lemma handler_ok_world own h w w' : handler_ok own h w -> world_ok own w' -> grows w w' -> handler_ok own h w'.
Proof. intros [Hb Hr] Hw Hg. split; [by eapply base_world|by eapply boots_run_grows]. Qed.

Lemma base_insert own h w aid a : handler_base own h w -> action_ok aid a -> handler_base own (dh_set_actions (<[aid := a]> (table_actions h)) h) w.
Proof. intros [H1 H2 H3 H4 H5] Ha. split; try done. by apply map_Forall_insert_2. Qed.

Lemma boots_insert w aid a actions : boots_run w actions -> (stopping w \/ boot_runs a) -> boots_run w (<[aid := a]> actions).
Proof. intros [Hs|Hb] [Hs'|Ha]; try (by left). right. by apply map_Forall_insert_2. Qed.

Lemma handler_insert own h w aid a : handler_ok own h w -> action_ok aid a -> (stopping w \/ boot_runs a) ->
  handler_ok own (dh_set_actions (<[aid := a]> (table_actions h)) h) w.
Proof. intros [Hb Hr] Ha Hs. split; [by apply base_insert|by apply boots_insert]. Qed.

Lemma handler_delete own h w aid : handler_ok own h w -> handler_ok own (dh_set_actions (delete aid (table_actions h)) h) w.
Proof.
  intros [[H1 H2 H3 H4 H5] Hr]. split; [split; try done; by apply map_Forall_delete|]. destruct Hr as [Hs|Hr]; [by left|right; by apply map_Forall_delete].
Qed.

(** The invariant does not depend on the other fields. *)
Lemma handler_ok_fields own h h' w : handler_ok own h w -> aid_generator h' = aid_generator h -> table_actions h' = table_actions h ->
  future_actions h' = future_actions h -> contacts_ok (active_stores h') -> handler_ok own h' w.
Proof. intros [[H1 H2 H3 H4 H5] Hr] E1 E2 E3 Hc. split; [split|]; by rewrite ?E1, ?E2, ?E3. Qed.

(** The fields that only queries change. *)
Definition fixed h := (read_only h, token_store h, active_stores h).

(** What an event that is not a query leaves. *)
Definition kept own h w h' w' : Prop := handler_ok own h' w' /\ grows w w' /\ fixed h' = fixed h.

Lemma kept_after own h w h1 w1 h' w' : grows w w1 -> fixed h1 = fixed h -> kept own h1 w1 h' w' -> kept own h w h' w'.
Proof. intros Hg Hf (Hk & Hg' & Hf'). split; [done|]. split; [by eapply grows_trans|congruence]. Qed.

Lemma kept_refl own h w : handler_ok own h w -> kept own h w h w.
Proof. intros Hh. split; [done|]. by split; [apply grows_same|]. Qed.

Context (Hloop : forall n, loop_open n = true) (now : DateTime).

Lemma wp_shutdown cause w (Q : unit -> World -> Prop) :
  (forall w', w_table w' = w_table w -> grows w w' -> stopping w' -> Q tt w') -> wp (shutdown_event_loop cause) w Q.
Proof.
  intros HQ. unfold shutdown_event_loop. apply dwp_bind, wp_outside. rewrite Hloop. apply wp_emit, HQ; [done|by eexists|].
  exists cause. cbn [w_effects]. apply elem_of_app. right. left.
Qed.

Lemma shutdown_kept own h w cause : handler_base own h w -> wp (let! _ := shutdown_event_loop cause in wret h) w (kept own h w).
Proof.
  intros Hb. apply dwp_bind, wp_shutdown. intros w1 Ht Hg Hs. apply dwp_ret. split; [|done]. split; [|by left]. eapply base_world; [done|].
  eapply world_ok_table; [exact Ht|]. by destruct Hb.
Qed.

Lemma wp_aid_generate h w (Q : MIDGenerator * DhtHandler -> World -> Prop) : aid_ok (aid_generator h) ->
  (forall aid m g w', mid_ok (action_id aid) m -> MIDGenerator_action_id m = aid -> aid_ok g -> w_table w' = w_table w -> w_effects w' = w_effects w ->
    Q (m, dh_set_aid g h) w') -> wp (aid_generate h) w Q.
Proof.
  intros Ha HQ. unfold aid_generate. apply dwp_bind, wp_outside, dwp_bind.
  destruct (aid_generate_total (shuffle_numbers (w_calls w)) _ Ha) as (aid & m & g & E & Hm & Hg & Em). eapply dwp_lift; [exact E|].
  apply dwp_ret. by apply (HQ (mkActionID aid)).
Qed.

Lemma broadcast_kept own event h w : handler_ok own h w -> wp (broadcast event h) w (fun h' w' => kept own h w h' w' /\ table_actions h' = table_actions h).
Proof.
  intros Hh. unfold broadcast. apply dwp_bind, broadcast_ok. intros l w1 Ht (evs & He & _) _ _. apply dwp_ret.
  assert (Hg : grows w w1) by (by exists evs). split; [|done]. split; [|done]. apply (handler_ok_fields own h); try done; [|by destruct Hh as [[] _]].
  eapply handler_ok_world; [done| |done]. eapply world_ok_table; [exact Ht|]. by destruct Hh as [[] _].
Qed.

(** ** Actions *)

Lemma start_lookup_kept own info_hash announce h w : handler_ok own h w -> sha_ok info_hash ->
  wp (handle_start_lookup now info_hash announce h) w (kept own h w).
Proof.
  intros Hh Hi. pose proof Hh as [[Hw Ha Hact Hf Hcs] Hr]. unfold handle_start_lookup. apply dwp_bind, wp_aid_generate; [done|].
  intros aid m g w1 Hm Em Hg Ht1 He1. assert (Hw1 : world_ok own w1) by (by eapply world_ok_table). assert (Hg1 : grows w w1) by (by apply grows_same).
  assert (Hh1 : handler_ok own (dh_set_aid g h) w1) by (split; [by split|]; by eapply boots_run_grows).
  destruct (bootstrapping _).
  { apply dwp_ret. split; [|done]. destruct Hh1 as [[] Hb]. split; [split; try done|done]. apply Forall_app_2; [done|]. by apply Forall_singleton. }
  pose proof Hw1 as (_ & Hid & _). apply dwp_bind, wp_get_table. rewrite Hid, Em. apply dwp_bind. eapply dwp_mono; [by apply (lookup_new_ok now own (action_id aid))|].
  intros o w2 [Hw2 _ (sent & Hs & _) Hl]. assert (Hg2 : grows w w2) by (eapply grows_trans; [done|by eapply sends_grows]).
  assert (Hh2 : handler_ok own (dh_set_aid g h) w2) by (eapply handler_ok_world; [done|done|by eapply sends_grows]). destruct o as [l|].
  - apply dwp_ret. split; [|done]. apply handler_insert; [done|by apply Hl|by right].
  - eapply dwp_mono; [apply (shutdown_kept own), Hh2|]. intros h' w3. by apply kept_after.
Qed.

Lemma check_refresh_kept own tid h w : handler_ok own h w -> wp (handle_check_table_refresh now tid h) w (kept own h w).
Proof.
  intros Hh. pose proof Hh as [[Hw Ha Hact Hf Hcs] Hr]. unfold handle_check_table_refresh.
  destruct (table_actions h !! TransactionID_action_id tid) as [[l|r|b k]|] eqn:Et; try (by apply dwp_ret, kept_refl).
  pose proof (map_Forall_lookup_1 _ _ _ _ Hact Et) as Hok. cbn in Hok. apply dwp_bind.
  eapply dwp_mono; [by apply (continue_refresh_ok now own)|]. intros [st r'] w1 (Hr1 & Hw1 & _ & (sent & Hs & _) & _). apply sends_grows in Hs.
  assert (Hh1 : handler_ok own (dh_set_actions (<[TransactionID_action_id tid:=ARefresh r']> (table_actions h)) h) w1).
  { apply (handler_insert own h w1); [by eapply handler_ok_world|done|by right]. }
  destruct st; [by apply dwp_ret|]. eapply dwp_mono; [apply (shutdown_kept own), Hh1|]. intros h' w2. by apply kept_after.
Qed.

Lemma start_future_kept own actions : forall h w, handler_ok own h w -> Forall post_ok actions ->
  wp (start_future_actions now actions h) w (kept own h w).
Proof.
  induction actions as [|p actions IH]; intros h w Hh Hp; cbn [start_future_actions]; [by apply dwp_ret, kept_refl|].
  apply Forall_cons in Hp as [Hp Hps]. destruct p as [info_hash announce|r t].
  - apply dwp_bind. eapply dwp_mono; [by apply (start_lookup_kept own)|]. intros h1 w1 (Hh1 & Hg1 & Hx1). eapply dwp_mono; [by apply IH|].
    intros h2 w2. by apply kept_after.
  - apply dwp_bind. eapply dwp_mono; [apply (check_refresh_kept own), (handler_insert own h w); [done|exact Hp|by right]|]. intros h1 w1 (Hh1 & Hg1 & Hx1).
    eapply dwp_mono; [by apply IH|]. intros h2 w2. by apply kept_after.
Qed.

Lemma bootstrap_completed_kept own aid h w : handler_base own h w -> boots_run w (delete aid (table_actions h)) ->
  wp (broadcast_bootstrap_completed now aid h) w (kept own h w).
Proof.
  intros [Hw Ha Hact Hf Hcs] Hr. unfold broadcast_bootstrap_completed, broadcast. apply dwp_bind, dwp_bind, broadcast_ok.
  intros l w1 Ht (evs & He & _) _ _. assert (Hg : grows w w1) by (by exists evs). apply dwp_ret.
  eapply dwp_mono; [apply (start_future_kept own); [|exact Hf]|intros h' w'; by apply kept_after].
  split; [split; cbn; try done|by eapply boots_run_grows]; [by eapply world_ok_table|by apply map_Forall_delete].
Qed.

(** ** Bootstraps *)

Lemma num_good_total t : table_ok t -> exists n, num_good_nodes now t = Ok n.
Proof. intros Ht. pose proof Ht as (Hid & _). unfold num_good_nodes. destruct (closest_nodes_total now t (table_id t) Ht Hid) as (l & -> & _). by eexists. Qed.
Lemma should_rebootstrap_total t : table_ok t -> exists b, should_rebootstrap now t = Ok b.
Proof. intros Ht. unfold should_rebootstrap. destruct (num_good_total t Ht) as [n ->]. by eexists. Qed.

(** A bootstrap that runs on, or has none of its buckets left because the loop stops. *)
Definition boot_goes_on w (b : TableBootstrap) : Prop := stopping w \/ (bs_curr_bucket b < MAX_BUCKETS)%nat.

Lemma attempt_rebootstrap_ok own (aid : Z) fuel : forall b k w, boot_ok aid b -> world_ok own w -> (MAX_BOOTSTRAP_ATTEMPTS <= fuel + k)%nat -> (0 < fuel)%nat ->
  wp (attempt_rebootstrap now fuel b k) w (fun '(o, b', _) w' => boot_ok aid b' /\ world_ok own w' /\ grows w w' /\ (o <> Some false -> boot_goes_on w' b')).
Proof.
  induction fuel as [|fuel IH]; intros b k w Hb Hw Hf Hpos; [lia|]. cbn [attempt_rebootstrap]. apply dwp_bind, wp_get_table. pose proof Hw as (Ht & _).
  destruct (Nat.leb_spec MAX_BOOTSTRAP_ATTEMPTS (k + 1)).
  - apply dwp_bind. destruct (num_good_total _ Ht) as [n En]. eapply dwp_lift; [exact En|]. destruct (n =? 0)%nat.
    + apply dwp_bind, wp_shutdown. intros w1 Ht1 Hg1 Hs. apply dwp_ret. split_and!; try done; [by eapply world_ok_table|]. intros _. by left.
    + apply dwp_ret. split_and!; try done. by apply grows_same.
  - apply dwp_bind. eapply dwp_mono; [by apply (start_bootstrap_ok own aid)|].
    intros [st b1] w1 (Hb1 & Hw1 & _ & _ & Hc & Hst & _ & _ & sent & Hs & _). apply sends_grows in Hs.
    destruct Hst as [->|[-> _]].
    + apply dwp_bind, wp_shutdown. intros w2 Ht2 Hg2 Hs2. apply dwp_ret. split_and!; try done; [by eapply world_ok_table|by eapply grows_trans|]. intros _. by left.
    + apply dwp_ret. split_and!; try done. intros _. right. rewrite Hc. unfold MAX_BUCKETS, SHA_HASH_LEN. lia.
Qed.

Lemma bootstrap_outcome_ok own (aid : Z) st b k w : boot_ok aid b -> world_ok own w -> (st = BsBootstrapping -> (bs_curr_bucket b < MAX_BUCKETS)%nat) ->
  wp (bootstrap_outcome now st b k) w (fun '(complete, b', _) w' => boot_ok aid b' /\ world_ok own w' /\ grows w w' /\ (complete = false -> boot_goes_on w' b')).
Proof.
  intros Hb Hw Hst. unfold bootstrap_outcome. destruct st.
  - apply dwp_ret. split_and!; try done. by apply grows_same.
  - apply dwp_ret. split_and!; try done; [by apply grows_same|]. right. auto.
  - apply dwp_bind, wp_get_table, dwp_bind. pose proof Hw as (Ht & _). destruct (should_rebootstrap_total _ Ht) as [again Ea]. eapply dwp_lift; [exact Ea|].
    destruct again; [|apply dwp_ret; split_and!; try done; by apply grows_same]. apply dwp_bind.
    eapply dwp_mono; [apply (attempt_rebootstrap_ok own aid); [done|done|unfold ATTEMPT_FUEL; lia|unfold ATTEMPT_FUEL; lia]|].
    intros [[o b'] k'] w1 (Hb1 & Hw1 & Hg1 & Ho). apply dwp_ret. split_and!; try done. intros Hc%bool_decide_eq_false. auto.
  - apply dwp_bind, wp_shutdown. intros w1 Ht1 Hg1 Hs1. apply dwp_ret. split_and!; try done; [by eapply world_ok_table|]. by left.
Qed.

(** The end of every event of a bootstrap: its status is turned into an outcome, the
    bootstrap is stored, and the actions that waited for it start when it is complete. *)
Definition settle aid (st : BootstrapStatus) (b : TableBootstrap) (k : nat) h : W DhtHandler :=
  let! (complete, b, k) := bootstrap_outcome now st b k in
  let h := dh_set_actions (<[aid := ABootstrap b k]> (table_actions h)) h in
  if complete : bool then broadcast_bootstrap_completed now aid h else wret h.

Lemma settle_kept own aid st b k h w : handler_ok own h w -> boot_ok (action_id aid) b -> (st = BsBootstrapping -> (bs_curr_bucket b < MAX_BUCKETS)%nat) ->
  wp (settle aid st b k h) w (kept own h w).
Proof.
  intros Hh Hb Hst. unfold settle. apply dwp_bind. eapply dwp_mono; [apply (bootstrap_outcome_ok own (action_id aid)); try done; by destruct Hh as [[] _]|].
  intros [[complete b'] k'] w1 (Hb1 & Hw1 & Hg1 & Hc). destruct (handler_ok_world own h w w1 Hh Hw1 Hg1) as [Hbase Hr].
  assert (Hbase1 : handler_base own (dh_set_actions (<[aid := ABootstrap b' k']> (table_actions h)) h) w1) by (by apply base_insert). destruct complete.
  - eapply dwp_mono; [apply (bootstrap_completed_kept own); [done|]|intros h' w'; by apply kept_after].
    cbn [table_actions dh_set_actions]. rewrite delete_insert_eq. destruct Hr as [?|Hr]; [by left|right; by apply map_Forall_delete].
  - apply dwp_ret. split; [|done]. split; [done|]. apply boots_insert; [done|]. by apply Hc.
Qed.

Lemma boot_new_ok (aid : Z) own g start routers : sha_ok own -> mid_ok aid g -> boot_ok aid (TableBootstrap_new own g start routers).
Proof. intros Hs Hg. split_and!; try done. cbn. lia. Qed.

Lemma start_bootstrap_kept own routers start h w : handler_ok own h w -> wp (handle_start_bootstrap resolve now routers start h) w (kept own h w).
Proof.
  intros Hh. pose proof Hh as [[Hw Ha Hact Hf Hcs] Hr]. unfold handle_start_bootstrap. apply dwp_bind, wp_aid_generate; [done|].
  intros aid m g w1 Hm Em Hg Ht1 He1. assert (Hw1 : world_ok own w1) by (by eapply world_ok_table). pose proof Hw1 as (Ht & Hid & _).
  assert (Hg1 : grows w w1) by (by apply grows_same). rewrite Em. apply dwp_bind, wp_get_table, dwp_bind.
  eapply dwp_mono; [apply (start_bootstrap_ok own (action_id aid)); [apply boot_new_ok; [by destruct Ht|done]|done]|].
  intros [st b] w2 (Hb2 & Hw2 & _ & _ & Hc & _ & _ & _ & sent & Hs & _). apply sends_grows in Hs.
  assert (Hh2 : handler_ok own (dh_set_bootstrapping true (dh_set_aid g h)) w2).
  { split; [by split|]. eapply boots_run_grows; [exact (grows_trans _ _ _ Hg1 Hs)|done]. }
  eapply dwp_mono; [apply (settle_kept own aid st b 0); [done|done|]|intros h' w'; apply kept_after; [exact (grows_trans _ _ _ Hg1 Hs)|done]].
  intros _. rewrite Hc. unfold MAX_BUCKETS, SHA_HASH_LEN. lia.
Qed.

End Handler.
