(* ===== verification/DhtHandlerEvents.v ===== *)
(** * The DHT handler: answers to queries

    What the handler sends back for each of the four queries, and how the token store and
    the announce storage change.

    Then all other events of the loop. *)

From stdpp Require Import gmap.
From S2P Require Import Prelude RustStd Bencode Words UtilSha UtilConvert Chrono DhtNode DhtTable DhtTableSpec DhtClosest DhtClosestSpec DhtToken UtilTrans DhtTransaction DhtStorage DhtBencode DhtBencodeSpec DhtCompact DhtMessage DhtMessageSpec DhtWorker DhtLookup DhtLookupSpec DhtLookupRuns DhtBootstrap DhtBootstrapSpec DhtHandler DhtHandlerFacts.

(** ** Contacts *)

Lemma contact_bytes_v4 s : contact_bytes (V4 s) = sock_v4_to_bytes_be s.
Proof.
  destruct s as [[a b c d] p]. rewrite sock_v4_to_bytes_be_app. change (0xFF) with (Z.ones 8).
  transitivity ([a; b; c; d] ++ [as_u8 (Z.shiftr p 8); as_u8 (Z.land p (Z.ones 8))]); [reflexivity|].
  cbn [v4_ip v4_port ipv4_to_bytes_be octet_a octet_b octet_c octet_d be_bytes app]. unfold wrap.
  by rewrite Z.land_ones, Z.shiftr_div_pow2, Z.mod_mod by lia.
Qed.

(** The chunks of the concatenated contacts are the contacts. *)
Lemma contact_chunks_concat (socks : list (list Z)) : forall pre, Forall (fun b => length b = 6%nat) pre -> Forall (fun b => length b = 6%nat) socks ->
  contact_chunks (concat pre ++ concat socks) (seq (length pre) (length socks)) = Ok (map MBytes socks).
Proof.
  induction socks as [|b socks IH]; intros pre Hpre Hs; [done|]. apply Forall_cons in Hs as [Hb Hs]. cbn [length seq contact_chunks map concat].
  assert (Hlen : forall l : list (list Z), Forall (fun b => length b = 6%nat) l -> length (concat l) = (length l * 6)%nat).
  { induction 1 as [|x l Hx _ IHl]; [done|]. cbn [concat length]. rewrite length_app. lia. }
  rewrite index_range_Ok by (rewrite !length_app, Hlen by done; lia).
  assert (slice (concat pre ++ b ++ concat socks) (length pre * 6) (length pre * 6 + 6) = b) as ->.
  { unfold slice. rewrite <- (Hlen pre Hpre), drop_app_length. replace (_ - _)%nat with (length b) by lia. by rewrite take_app_length. }
  cbn [res_bind]. specialize (IH (pre ++ [b])). rewrite concat_app, <- app_assoc, length_app in IH. cbn [concat length] in IH.
  rewrite app_nil_r, Nat.add_1_r in IH. rewrite IH; [done|by apply Forall_app_2; [|apply Forall_singleton]|done].
Qed.

Lemma contact_bencode_ok contacts :
  contact_bencode contacts = Ok (map (fun s => MBytes (sock_v4_to_bytes_be s)) (omap map_ipv4 contacts)).
Proof.
  unfold contact_bencode. set (socks := map sock_v4_to_bytes_be (omap map_ipv4 contacts)).
  assert (Hs : Forall (fun b => length b = 6%nat) socks) by (unfold socks; apply Forall_map, Forall_true; intros s; apply length_sock_v4).
  assert (E : concat (map contact_bytes contacts) = concat socks).
  { unfold socks. clear Hs socks. induction contacts as [|[s|s] contacts IH]; cbn [map concat omap list_omap map_ipv4]; [done|..]; [|exact IH].
    cbn [map concat]. rewrite IH. f_equal. apply contact_bytes_v4. }
  rewrite E. assert (Hl : length (concat socks) = (length socks * 6)%nat).
  { clear E. induction Hs as [|x l Hx _ IHl]; [done|]. cbn [concat length]. rewrite length_app. lia. }
  rewrite Hl, Nat.div_mul by lia. pose proof (contact_chunks_concat socks [] (Forall_nil_2 _) Hs) as Hx. cbn [concat app length] in Hx. rewrite Hx. unfold socks. by rewrite map_map.
Qed.

(** ** The announce storage *)

Section Queries.
Context {C : Chrono} {Env : DhtEnv} {BS : BinarySearch} {HO : HashOrder SocketAddr unit}.
Context (sha1 : list Z -> list Z) (now : DateTime).
Implicit Types (w : World) (h : DhtHandler) (own : ShaHash).

Lemma prune_contacts s : contacts_ok s -> contacts_ok (remove_expired_items now s).
Proof.
  unfold contacts_ok, remove_expired_items. cbn [storage]. generalize (take (take_while_count (fun i => is_expired i now) (expires s)) (expires s)).
  intros es. generalize (storage s). induction es as [|e es IH]; intros st Hs; cbn [foldl]; [done|]. apply IH. unfold remove_expiration.
  destruct (st !! info_hash e) as [items|] eqn:E; [|done]. assert (Hi : Forall (fun i => contact_ok (address (expiration i))) items) by (by eapply (map_Forall_lookup_1 _ _ _ _ Hs)).
  set (kept := List.filter _ items). assert (Hk : Forall (fun i => contact_ok (address (expiration i))) kept).
  { apply Forall_forall. intros i Hin. apply list_elem_of_In, filter_In in Hin as [Hin%list_elem_of_In _]. by eapply (proj1 (Forall_forall _ _) Hi). }
  destruct (length kept =? 0)%nat; [apply map_Forall_delete|]; by apply map_Forall_insert_2.
Qed.

Lemma find_contacts s i : contacts_ok s -> Forall contact_ok (storage_find now s i).1 /\ contacts_ok (storage_find now s i).2.
Proof.
  intros Hs%prune_contacts. unfold storage_find. cbn [fst snd]. split; [|done]. destruct (storage _ !! i) as [items|] eqn:E; [|constructor].
  apply Forall_map. by eapply (map_Forall_lookup_1 _ _ _ _ Hs).
Qed.

Lemma add_contacts s i a : contacts_ok s -> contact_ok a -> contacts_ok (storage_add now now s i a).2.
Proof.
  intros Hs%prune_contacts Ha. unfold storage_add, insert_contact. set (s1 := remove_expired_items now s) in *. cbn [expiration AnnounceItem_new info_hash ItemExpiration_new].
  assert (Hnew : contacts_ok (mkStorage (<[i := match storage s1 !! i with Some items => items ++ [AnnounceItem_new now i a] | None => [AnnounceItem_new now i a] end]> (storage s1)) (expires s1))).
  { apply map_Forall_insert_2; [|done]. destruct (storage s1 !! i) as [items|] eqn:E; [|by apply Forall_singleton].
    apply Forall_app_2; [by eapply (map_Forall_lookup_1 _ _ _ _ Hs)|by apply Forall_singleton]. }
  by destruct (match storage s1 !! i with Some items => existsb _ items | None => false end), (length (expires s1) <? MAX_ITEMS_STORED)%nat.
Qed.

(** ** The closest nodes *)

Definition node_entry (n : Node) : option (ShaHash * SocketAddrV4) := match addr n with V4 a => Some (id n, a) | V6 _ => None end.

(** Compact information about the eight nodes of the table that are closest to [target]. *)
Definition closest_entries (t : RoutingTable) (target : ShaHash) (c : CompactNodeInfo) : Prop :=
  exists l, closest_nodes now t target = Ok l /\ collect_nodes c = Ok (omap node_entry (take 8 l)) /\ length (omap node_entry (take 8 l)) = Nat.min 8 (length l).

Lemma encode_nodes_ok l : Forall (fun n => sha_ok (id n) /\ v4_node n) l ->
  encode_nodes l = Ok (concat (map compact_entry (omap node_entry l))) /\ Forall entry_ok (omap node_entry l) /\ length (omap node_entry l) = length l.
Proof.
  induction 1 as [|n l [Hid (a & Ha & Hok)] _ (IH1 & IH2 & IH3)]; [done|]. assert (Hn : node_entry n = Some (id n, a)) by (unfold node_entry; by rewrite Ha).
  cbn [encode_nodes omap list_omap]. rewrite Hn.
  pose proof (Node_encode_layout n Hid) as He. rewrite Ha in He. rewrite He. cbn [res_bind]. rewrite IH1. cbn [res_bind]. split; [done|].
  split; [by constructor|]. cbn [length]. by rewrite IH3.
Qed.

Lemma closest_bytes_ok own target w : world_ok own w -> sha_ok target ->
  wp (closest_nodes_bytes now target) w (fun b w' => w' = w /\ exists c, CompactNodeInfo_new b = Ok c /\ cni_nodes c = b /\ nodes_ok c /\ closest_entries (w_table w) target c).
Proof.
  intros (Ht & Hid & Hv) Htg. unfold closest_nodes_bytes. apply dwp_bind, wp_get_table, dwp_bind.
  destruct (closest_nodes_total now (w_table w) target Ht Htg) as (l & E & Hp). eapply dwp_lift; [exact E|].
  assert (Hl : Forall (fun n => sha_ok (id n) /\ v4_node n) (take 8 l)).
  { apply Forall_take, Forall_forall. intros n Hn. rewrite Hp in Hn. apply list_elem_of_In, filter_In in Hn as [Hn%list_elem_of_In _].
    split; [|by apply Hv]. apply elem_table_nodes in Hn as (i & b & Hi & Hn). destruct Ht as (_ & _ & Hb). destruct (Hb i b Hi) as (_ & Hs & _). by apply Hs. }
  destruct (encode_nodes_ok _ Hl) as (He & Hentries & Hlen). eapply dwp_lift; [exact He|]. split; [done|].
  exists (mkCompactNodeInfo (concat (map compact_entry (omap node_entry (take 8 l))))). split; [by apply CompactNodeInfo_new_entries|]. split; [done|].
  rewrite length_take in Hlen. split.
  - unfold nodes_ok, short. cbn [cni_nodes]. rewrite length_concat_entries by done. split; [by rewrite (Nat.mul_comm 26), Nat.Div0.mod_mul|lia].
  - exists l. split; [done|]. split; [by apply collect_nodes_entries|done].
Qed.

(** ** Answers *)

Lemma wp_reply msg a w (Q : unit -> World -> Prop) : (forall n, loop_open n = true) ->
  (forall w', w_table w' = w_table w -> w_effects w' = w_effects w ++ [if out_open (w_calls w) then OutMessage msg a else ShutdownTask Unspecified] -> Q tt w') ->
  wp (reply msg a) w Q.
Proof.
  intros Hloop HQ. unfold reply. apply dwp_bind, wp_send_out. intros ok w1 Eok Ht1 He1. destruct ok.
  - apply dwp_ret, HQ; [done|]. by rewrite <- Eok.
  - unfold shutdown_event_loop. apply dwp_bind, wp_outside. rewrite Hloop. apply wp_emit, HQ; [done|]. cbn [w_effects]. by rewrite He1, app_nil_r, <- Eok.
Qed.

Definition request_trans_id (r : RequestType) : list Z := message_trans_id (Request r).

(** The token of an announce is one the store accepts from this address. *)
Definition token_valid (r1 r2 : Z) h (a : SocketAddr) (bytes : list Z) : bool * TokenStore :=
  match Token_new bytes with
  | Ok t => checkin sha1 now r1 r2 (token_store h) (IpAddr_from_socket_addr a) t
  | _ => (false, token_store h)
  end.

(** The message [m] is the answer to [r] from [a], given the table [t]; the stores become those of [h']. *)
Definition answers own (t : RoutingTable) h (r : RequestType) (a : SocketAddr) (m : MessageType) h' : Prop :=
  match r with
  | RqPing p => m = Response (RsPing (PingResponse_new (prq_trans_id p) own)) /\ h' = h
  | RqFindNode f => exists c, closest_entries t (frq_target_id f) c /\ m = Response (RsFindNode (mkFindNodeResponse (frq_trans_id f) own c)) /\ h' = h
  | RqGetPeers g => exists c info tok tokens r1 r2,
      closest_entries t (grq_info_hash g) c /\
      checkout sha1 now r1 r2 (token_store h) (IpAddr_from_socket_addr a) = (tok, tokens) /\
      m = Response (RsGetPeers (GetPeersResponse_new (grq_trans_id g) own (Some (token tok)) info)) /\
      let '(contacts, stores) := storage_find now (active_stores h) (grq_info_hash g) in
      match omap map_ipv4 contacts with
      | [] => info = Nodes c
      | socks => exists v, info = Both c v /\ collect_values v = Ok socks
      end /\ h' = dh_set_tokens tokens (dh_set_stores stores h)
  | RqAnnouncePeer p => exists r1 r2,
      let '(valid, tokens) := token_valid r1 r2 h a (arq_token p) in
      let '(stored, stores) := storage_add now now (active_stores h) (arq_info_hash p) (connect_addr (arq_port p) a) in
      if negb valid then
        m = ErrorMsg (ErrorMessage_new (arq_trans_id p) ProtocolError (bs "Received An Invalid Token")) /\ h' = dh_set_tokens tokens h
      else
        h' = dh_set_stores stores (dh_set_tokens tokens h) /\
        m = if stored : bool then Response (RsAnnouncePeer (AnnouncePeerResponse_new (arq_trans_id p) own))
            else ErrorMsg (ErrorMessage_new (arq_trans_id p) ServerError (bs "Announce Storage Is Full"))
  end.

(** An answer is sent, or the loop is asked to stop. *)
Record answered own h w (r : RequestType) (a : SocketAddr) h' w' : Prop := {
  an_kept : handler_ok own h' w';
  an_message : exists m k, message_ok m /\ message_trans_id m = request_trans_id r /\ answers own (w_table w') h r a m h' /\
    w_effects w' = w_effects w ++ [if out_open k then OutMessage (MessageType_encode m) a else ShutdownTask Unspecified]
}.

Lemma answered_by own h w r a m h' w1 : (forall n, loop_open n = true) -> handler_ok own h' w1 -> w_effects w1 = w_effects w ->
  message_ok m -> message_trans_id m = request_trans_id r -> answers own (w_table w1) h r a m h' ->
  wp (let! _ := reply (MessageType_encode m) a in wret h') w1 (answered own h w r a).
Proof.
  intros Hloop Hh He Hm Ht Ha. apply dwp_bind, wp_reply; [done|]. intros w2 Ht2 He2. apply dwp_ret. split.
  - eapply handler_ok_world; [done| |by eexists]. eapply world_ok_table; [exact Ht2|]. by destruct Hh as [[] _].
  - exists m, (w_calls w1). rewrite Ht2, He2, He. done.
Qed.

Lemma wp_mark_requester own i a h w (Q : unit -> World -> Prop) : handler_ok own h w -> sha_ok i ->
  (forall w', handler_ok own h w' -> w_effects w' = w_effects w -> Q tt w') -> wp (mark_requester now i a) w Q.
Proof.
  intros Hh Hi HQ. unfold mark_requester. apply (wp_touch_found now own); [apply remote_request_keeps|by destruct Hh as [[] _]|done|].
  intros w' Hw' He. apply HQ; [|done]. eapply handler_ok_world; [done|done|by apply grows_same].
Qed.

Context (Hloop : forall n, loop_open n = true).

Lemma ping_answered own p a h w : handler_ok own h w -> message_ok (Request (RqPing p)) ->
  wp (handle_ping now p a h) w (answered own h w (RqPing p) a).
Proof.
  intros Hh [Ht Hm]. unfold handle_ping. apply dwp_bind, (wp_mark_requester own _ _ h); [done|done|]. intros w1 Hh1 He1. apply dwp_bind, wp_get_table.
  pose proof Hh1 as [[(Htab & Hid & _) _ _ _ _] _]. rewrite Hid.
  apply (answered_by own h w (RqPing p) a (Response (RsPing (PingResponse_new (prq_trans_id p) own)))); try done.
  split; [done|]. cbn. rewrite <- Hid. by destruct Htab.
Qed.

Lemma find_node_answered own f a h w : handler_ok own h w -> message_ok (Request (RqFindNode f)) ->
  wp (handle_find_node now f a h) w (answered own h w (RqFindNode f) a).
Proof.
  intros Hh (Ht & Hid & Htg). unfold handle_find_node. apply dwp_bind, (wp_mark_requester own _ _ h); [done|done|]. intros w1 Hh1 He1.
  pose proof Hh1 as [[Hw1 _ _ _ _] _]. pose proof Hw1 as (Htab & Hown & _). apply dwp_bind. eapply dwp_mono; [by apply (closest_bytes_ok own)|].
  intros b w2 (-> & c & Ec & Ecb & Hc & Hcl). apply dwp_bind, wp_get_table, dwp_bind. rewrite Hown. eapply dwp_lift.
  { unfold FindNodeResponse_new, rs_validate_nodes. rewrite Ec. reflexivity. }
  apply (answered_by own h w (RqFindNode f) a (Response (RsFindNode (mkFindNodeResponse (frq_trans_id f) own c)))); try done; [|by exists c].
  split; [done|]. split; [|done]. cbn. rewrite <- Hown. by destruct Htab.
Qed.

Lemma token_length a secret : length (token (generate_token_from_addr sha1 a secret)) = SHA_HASH_LEN.
Proof. destruct a; cbn [generate_token_from_addr generate_token_from_addr_v4 generate_token_from_addr_v6 token sha_bytes ShaHash_from_bytes]; by rewrite length_zip_copy, length_replicate. Qed.

(** The values of an answer are the IPv4 contacts. *)
Lemma values_of_contacts socks : Forall sock_v4_ok socks ->
  let v := mkCompactValueInfo (map (fun s => MBytes (sock_v4_to_bytes_be s)) socks) in
  CompactValueInfo_new (map (fun s => MBytes (sock_v4_to_bytes_be s)) socks) = Ok v /\ values_ok v /\ collect_values v = Ok socks.
Proof.
  intros Hs. cbv zeta. assert (Hv : Forall (fun v => exists b, v = MBytes b /\ length b = BYTES_PER_COMPACT_IP) (map (fun s => MBytes (sock_v4_to_bytes_be s)) socks)).
  { apply Forall_map, Forall_true. intros s. eexists. split; [done|]. apply length_sock_v4. }
  unfold CompactValueInfo_new. rewrite (proj2 (check_compact_values_ok _ 0) Hv). split; [done|]. split; [done|].
  unfold collect_values. apply (collect_values_loop socks []); [done|]. cbn [cvi_values]. rewrite length_map. lia.
Qed.

Lemma omap_contacts contacts : Forall contact_ok contacts -> Forall sock_v4_ok (omap map_ipv4 contacts).
Proof. induction 1 as [|[s|s] l Hs _ IH]; cbn [omap list_omap map_ipv4]; [constructor|by constructor|done]. Qed.

Lemma get_peers_answered own g a h w : handler_ok own h w -> message_ok (Request (RqGetPeers g)) ->
  wp (handle_get_peers sha1 now g a h) w (answered own h w (RqGetPeers g) a).
Proof.
  intros Hh (Ht & Hid & Htg). unfold handle_get_peers. apply dwp_bind, (wp_mark_requester own _ _ h); [done|done|]. intros w1 Hh1 He1.
  pose proof Hh1 as [[Hw1 _ _ _ Hcs] _]. pose proof Hw1 as (Htab & Hown & _). destruct (find_contacts (active_stores h) (grq_info_hash g) Hcs) as [Hc1 Hc2].
  destruct (storage_find now (active_stores h) (grq_info_hash g)) as [contacts stores] eqn:Ef. cbn [fst snd] in *.
  apply dwp_bind. eapply dwp_lift; [apply contact_bencode_ok|]. apply dwp_bind. eapply dwp_mono; [by apply (closest_bytes_ok own)|].
  intros b w2 (-> & c & Ec & _ & Hc & Hcl). unfold checkout_token. apply dwp_bind, dwp_bind, wp_outside, dwp_bind, wp_outside.
  cbn [w_table w_calls w_effects]. set (w3 := mkWorld (w_table w1) (S (S (w_calls w1))) (w_effects w1)). destruct (checkout _ _ _ _ _ _) as [tok tokens] eqn:Etok. apply dwp_ret, dwp_bind. eapply dwp_lift; [by rewrite Ec|].
  assert (Hh3 : handler_ok own (dh_set_tokens tokens (dh_set_stores stores h)) w3).
  { apply (handler_ok_fields own h); try done. eapply handler_ok_world; [exact Hh1|done|by apply grows_same]. }
  assert (Htok : length (token tok) = SHA_HASH_LEN) by (injection Etok as <- _; apply token_length).
  destruct (values_of_contacts (omap map_ipv4 contacts) (omap_contacts _ Hc1)) as (Ev & Hv & Hcv).
  assert (Hfin : forall info, (match omap map_ipv4 contacts with [] => info = Nodes c | socks => exists v, info = Both c v /\ collect_values v = Ok socks end) -> info_type_ok info ->
    wp (let! t := get_table in let! _ := reply (GetPeersResponse_encode (GetPeersResponse_new (grq_trans_id g) (table_id t) (Some (token tok)) info)) a in
        wret (dh_set_tokens tokens (dh_set_stores stores h))) w3 (answered own h w (RqGetPeers g) a)).
  { intros info Hinfo Hok. apply dwp_bind, wp_get_table. change (table_id (w_table w3)) with (table_id (w_table w1)). rewrite Hown.
    apply (answered_by own h w (RqGetPeers g) a (Response (RsGetPeers (GetPeersResponse_new (grq_trans_id g) own (Some (token tok)) info)))); try done.
    - split; [done|]. cbn. split; [rewrite <- Hown; by destruct Htab|]. split; [|done]. intros x [= <-]. unfold short. rewrite Htok. done.
    - cbn [answers]. rewrite Ef. exists c, info, tok, tokens, (random_u32 (w_calls w1)), (random_u32 (S (w_calls w1))). done. }
  rewrite length_map. destruct (omap map_ipv4 contacts) as [|s socks] eqn:Es; cbn [length Nat.eqb negb]; apply dwp_bind.
  - apply dwp_ret. by apply Hfin.
  - apply dwp_bind. eapply dwp_lift; [by rewrite Ev|]. apply dwp_ret. apply Hfin; [by eexists|done].
Qed.

Lemma connect_addr_ok port a : port_ok port -> contact_ok a -> contact_ok (connect_addr port a).
Proof. destruct port, a; cbn; try done. by intros Hp [Hip _]. Qed.

Lemma announce_answered own p a h w : handler_ok own h w -> message_ok (Request (RqAnnouncePeer p)) -> contact_ok a ->
  wp (handle_announce_peer sha1 now p a h) w (answered own h w (RqAnnouncePeer p) a).
Proof.
  intros Hh (Ht & Hid & Hi & Htk & Hp) Hca. unfold handle_announce_peer. apply dwp_bind, (wp_mark_requester own _ _ h); [done|done|]. intros w1 Hh1 He1.
  pose proof Hh1 as [[Hw1 _ _ _ Hcs] _]. pose proof Hw1 as (Htab & Hown & _). apply dwp_bind.
  apply (dwp_mono _ _ (fun '(valid, h2) w2 => exists r1 r2 tokens, token_valid r1 r2 h a (arq_token p) = (valid, tokens) /\ h2 = dh_set_tokens tokens h /\
    w_table w2 = w_table w1 /\ w_effects w2 = w_effects w1)).
  { unfold token_valid, checkin_token. destruct (Token_new (arq_token p)) as [t| | |] eqn:Et; [..|unfold Token_new in Et; by destruct (negb _)|unfold Token_new in Et; by destruct (negb _)].
    - apply dwp_bind, wp_outside, dwp_bind, wp_outside. destruct (checkin _ _ _ _ _ _ _) as [valid tokens] eqn:Ec. apply dwp_ret.
      eexists _, _, tokens. split; [exact Ec|done].
    - apply dwp_ret. exists 0, 0, (token_store h). split; [done|]. by destruct h. }
  intros [valid h2] w2 (r1 & r2 & tokens & Ev & -> & Ht2 & He2). apply dwp_bind, wp_get_table. rewrite Ht2, Hown.
  assert (Hw2 : world_ok own w2) by (by eapply world_ok_table). assert (Hown' : sha_ok own) by (rewrite <- Hown; by destruct Htab).
  assert (Hh2 : handler_ok own (dh_set_tokens tokens h) w2).
  { apply (handler_ok_fields own h); try done. eapply handler_ok_world; [exact Hh1|done|by apply grows_same]. }
  assert (Hsend : forall m h', message_ok m -> message_trans_id m = arq_trans_id p -> handler_ok own h' w2 -> answers own (w_table w2) h (RqAnnouncePeer p) a m h' ->
    wp (let! _ := reply (MessageType_encode m) a in wret h') w2 (answered own h w (RqAnnouncePeer p) a)).
  { intros m h' Hm Hmt Hh' Ha. apply answered_by; try done. by rewrite He2. }
  pose proof (add_contacts (active_stores h) (arq_info_hash p) (connect_addr (arq_port p) a) Hcs (connect_addr_ok _ _ Hp Hca)) as Hadd.
  destruct (storage_add now now (active_stores h) (arq_info_hash p) (connect_addr (arq_port p) a)) as [stored stores] eqn:Es.
  assert (Hstored : handler_ok own (dh_set_stores stores (dh_set_tokens tokens h)) w2) by (by apply (handler_ok_fields own (dh_set_tokens tokens h))).
  destruct valid; cbn [negb]; [change (active_stores (dh_set_tokens tokens h)) with (active_stores h); rewrite Es; destruct stored|].
  - apply (Hsend (Response (RsAnnouncePeer (AnnouncePeerResponse_new (arq_trans_id p) own)))); [by split|done|done|].
    exists r1, r2. rewrite Ev, Es. done.
  - apply (Hsend (ErrorMsg (ErrorMessage_new (arq_trans_id p) ServerError (bs "Announce Storage Is Full")))); [by split|done|done|].
    exists r1, r2. rewrite Ev, Es. done.
  - apply (Hsend (ErrorMsg (ErrorMessage_new (arq_trans_id p) ProtocolError (bs "Received An Invalid Token")))); [by split|done|done|].
    exists r1, r2. rewrite Ev, Es. done.
Qed.

Lemma request_answered own r a h w : handler_ok own h w -> message_ok (Request r) -> contact_ok a ->
  wp (handle_request sha1 now r a h) w (answered own h w r a).
Proof. destruct r; intros; [by apply ping_answered|by apply find_node_answered|by apply get_peers_answered|by apply announce_answered]. Qed.

End Queries.

(** * The DHT handler: events

    Every event the loop delivers keeps the handler's invariant, and runs of events. *)

Section Events.
Context {C : Chrono} {Env : DhtEnv} {BS : BinarySearch} {HO : HashOrder SocketAddr unit}.
Context (sha1 : list Z -> list Z) (resolve : list Z * Z -> option (list SocketAddr)) (Hloop : forall n, loop_open n = true).
Implicit Types (w : World) (h : DhtHandler) (own : ShaHash).

(** ** Lookups *)

Section At.
Context (now : DateTime).

Lemma connect_values_ok i values : forall w, wp (connect_values i values) w (fun _ w' => w_table w' = w_table w /\ grows w w').
Proof.
  induction values as [|v values IH]; intros w; cbn [connect_values]; [apply dwp_ret; split; [done|by apply grows_same]|].
  apply dwp_bind, wp_emit. eapply dwp_mono; [apply IH|]. intros _ w' [Ht Hg]. split; [done|]. eapply grows_trans; [|exact Hg]. by eexists.
Qed.

Lemma lookup_outcome_kept own st i h w : handler_ok own h w -> wp (lookup_outcome st i h) w (kept own h w).
Proof.
  intros Hh. unfold lookup_outcome. destruct st as [|values| |].
  - by apply dwp_ret, kept_refl.
  - apply dwp_bind. eapply dwp_mono; [apply (connect_values_ok i)|]. intros _ w' [Ht Hg]. apply dwp_ret. split; [|done].
    eapply handler_ok_world; [done| |done]. eapply world_ok_table; [exact Ht|]. by destruct Hh as [[] _].
  - eapply dwp_mono; [by apply (broadcast_kept own)|]. by intros h' w' [? _].
  - apply (shutdown_kept Hloop own). by destruct Hh.
Qed.

Lemma lookup_stored own aid l h w w1 sent : handler_ok own h w -> lookup_ok (action_id aid) l -> world_ok own w1 -> sends w w1 sent ->
  handler_ok own (dh_set_actions (<[aid := ALookup l]> (table_actions h)) h) w1.
Proof. intros Hh Hl Hw Hs. apply handler_insert; [|done|by right]. eapply handler_ok_world; [done|done|by eapply sends_grows]. Qed.

Lemma lookup_timeout_kept own tid h w : handler_ok own h w -> wp (handle_check_lookup_timeout now tid h) w (kept own h w).
Proof.
  intros Hh. pose proof Hh as [[Hw Ha Hact Hf Hcs] _]. unfold handle_check_lookup_timeout.
  destruct (table_actions h !! TransactionID_action_id tid) as [[l|r|b k]|] eqn:Et; try (by apply dwp_ret, kept_refl).
  pose proof (map_Forall_lookup_1 _ _ _ _ Hact Et) as Hok. cbn in Hok. apply dwp_bind. eapply dwp_mono; [by apply (recv_timeout_ok now own)|].
  intros [st l'] w1 [[Hl' Hw1 _ (sent & Hs & _) _ _ _] _]. eapply dwp_mono; [apply lookup_outcome_kept; by eapply lookup_stored|].
  intros h' w2. apply kept_after; [by eapply sends_grows|done].
Qed.

Lemma lookup_endgame_kept own tid h w : handler_ok own h w -> wp (handle_check_lookup_endgame now tid h) w (kept own h w).
Proof.
  intros Hh. pose proof Hh as [[Hw Ha Hact Hf Hcs] _]. unfold handle_check_lookup_endgame.
  pose proof (handler_delete own h w (TransactionID_action_id tid) Hh) as Hd. set (h1 := dh_set_actions (delete _ _) h) in *.
  assert (Hsame : wp (wret h1) w (kept own h w)) by (apply dwp_ret; split; [done|split; [by apply grows_same|done]]).
  destruct (table_actions h !! TransactionID_action_id tid) as [[l|r|b k]|] eqn:Et; try exact Hsame.
  pose proof (map_Forall_lookup_1 _ _ _ _ Hact Et) as Hok. cbn in Hok. apply dwp_bind. eapply dwp_mono; [by apply (recv_finished_ok now own)|].
  intros [st l'] w1 (_ & Hw1 & _ & _ & _ & sent & _ & Hs & _). apply sends_grows in Hs.
  eapply dwp_mono; [apply (lookup_outcome_kept own); by eapply handler_ok_world|]. intros h' w2. by apply kept_after.
Qed.

(** ** Bootstraps *)

Lemma boot_post_runs own aid b w st b' w' : boot_post own aid b w st b' w' -> (bs_curr_bucket b < MAX_BUCKETS)%nat ->
  st = BsBootstrapping -> (bs_curr_bucket b' < MAX_BUCKETS)%nat.
Proof. intros [_ _ _ _ _ _ _ Hst _] Hlt ->. destruct Hst as [|[|[->|(_ & [_ ?] & _)]]]; done. Qed.

Lemma bootstrap_timeout_kept own tid h w : handler_ok own h w -> ~ stopping w -> wp (handle_check_bootstrap_timeout now tid h) w (kept own h w).
Proof.
  intros Hh Hns. pose proof Hh as [[Hw Ha Hact Hf Hcs] [Hr|Hr]]; [done|]. unfold handle_check_bootstrap_timeout.
  destruct (table_actions h !! TransactionID_action_id tid) as [[l|r|b k]|] eqn:Et; try (by apply dwp_ret, kept_refl).
  pose proof (map_Forall_lookup_1 _ _ _ _ Hact Et) as Hok. pose proof (map_Forall_lookup_1 _ _ _ _ Hr Et) as Hlt. cbn in Hok, Hlt.
  apply dwp_bind. eapply dwp_mono; [by apply (bs_recv_timeout_ok now own)|]. intros [st b'] w1 [Hp _]. pose proof (boot_post_runs _ _ _ _ _ _ _ Hp Hlt) as Hst.
  destruct Hp as [Hb1 Hw1 _ (sent & Hs & _) _ _ _ _ _]. apply sends_grows in Hs.
  eapply dwp_mono; [apply (settle_kept Hloop now own); [by eapply handler_ok_world|done|done]|]. intros h' w2. by apply kept_after.
Qed.

(** ** Responses *)

Lemma as_good_v4 i s : sock_v4_ok s -> v4_node (as_good now i (V4 s)).
Proof. intros Hs. by exists s. Qed.

Lemma add_questionable_ok own infos : clock_ok now -> Forall entry_ok infos -> forall w, world_ok own w ->
  wp (add_questionable now infos) w (fun _ w' => world_ok own w' /\ w_effects w' = w_effects w).
Proof.
  intros [t Ht]. induction 1 as [|[i s] infos [Hi Hs] _ IH]; intros w Hw; cbn [add_questionable]; [by apply dwp_ret|].
  apply dwp_bind. eapply dwp_lift; [unfold as_questionable; cbv zeta; by rewrite Ht|]. apply dwp_bind, (wp_table_add_node now own); [done|done|by exists s|].
  intros w1 Hw1 He1. eapply dwp_mono; [by apply IH|]. intros _ w2 [? ->]. by split.
Qed.

(** The response belongs to a running action that waits for its kind. *)
Lemma expected_action h t k : expected_response (table_actions h) t = k -> k <> ExNone -> exists tid, TransactionID_from_bytes t = Some tid.
Proof. unfold expected_response. destruct (TransactionID_from_bytes t) as [tid|]; [by exists tid|]. by intros <-. Qed.

Lemma find_node_response_kept own f s h w : clock_ok now -> handler_ok own h w -> ~ stopping w -> sock_v4_ok s -> response_wire_ok (RsFindNode f) ->
  expected_response (table_actions h) (frs_trans_id f) = ExFindNode -> wp (handle_find_node_response now f (V4 s) h) w (kept own h w).
Proof.
  intros Hclock Hh Hns Hs [Hid Hn] Hex. pose proof Hh as [[Hw Ha Hact Hf Hcs] [Hr|Hr]]; [done|]. unfold handle_find_node_response.
  destruct (expected_action h _ _ Hex) as [tid Etid]; [done|]. apply dwp_bind. eapply dwp_lift; [by rewrite Etid|].
  destruct (collect_nodes_total _ Hn) as (infos & Ei & Hentries). apply dwp_bind. eapply dwp_lift; [exact Ei|]. apply dwp_bind.
  eapply dwp_mono; [by apply (add_questionable_ok own)|]. intros _ w1 [Hw1 He1]. assert (Hg1 : grows w w1) by (by apply grows_same).
  assert (Hh1 : handler_ok own h w1) by (by eapply handler_ok_world). assert (Hnode : v4_node (as_good now (frs_node_id f) (V4 s))) by (by apply as_good_v4).
  assert (Hadd : forall Q : unit -> World -> Prop, (forall w2, world_ok own w2 -> handler_ok own h w2 -> grows w w2 -> Q tt w2) ->
    wp (table_add_node now (as_good now (frs_node_id f) (V4 s))) w1 Q).
  { intros Q HQ. apply (wp_table_add_node now own); [done|done|done|]. intros w2 Hw2 He2. assert (grows w1 w2) by (by apply grows_same).
    apply HQ; [done|by eapply handler_ok_world|by eapply grows_trans]. }
  destruct (table_actions h !! TransactionID_action_id tid) as [[l|r|b k]|] eqn:Et; try (apply dwp_ret; by split).
  - apply dwp_bind, Hadd. intros w2 _ Hh2 Hg2. apply dwp_ret. by split.
  - pose proof (map_Forall_lookup_1 _ _ _ _ Hact Et) as Hok. pose proof (map_Forall_lookup_1 _ _ _ _ Hr Et) as Hlt. cbn in Hok, Hlt.
    apply dwp_bind. apply (dwp_mono _ _ (fun _ w2 => world_ok own w2 /\ handler_ok own h w2 /\ grows w w2)).
    { destruct (negb _); [by apply Hadd|by apply dwp_ret]. }
    intros _ w2 (Hw2 & Hh2 & Hg2). apply dwp_bind. eapply dwp_mono; [by apply (bs_recv_response_ok now own)|]. intros [st b'] w3 Hp.
    pose proof (boot_post_runs _ _ _ _ _ _ _ Hp Hlt) as Hst. destruct Hp as [Hb3 Hw3 _ (sent & Hsd & _) _ _ _ _ _]. apply sends_grows in Hsd.
    eapply dwp_mono; [apply (settle_kept Hloop now own); [by eapply handler_ok_world|done|done]|]. intros h' w4. apply kept_after; [by eapply grows_trans|done].
Qed.

Lemma get_peers_response_kept own g s h w : clock_ok now -> handler_ok own h w -> sock_v4_ok s -> response_wire_ok (RsGetPeers g) ->
  expected_response (table_actions h) (grs_trans_id g) = ExGetPeers -> wp (handle_get_peers_response now g (V4 s) h) w (kept own h w).
Proof.
  intros Hclock Hh Hs [Hid Hi] Hex. pose proof Hh as [[Hw Ha Hact Hf Hcs] _]. unfold handle_get_peers_response.
  destruct (expected_action h _ _ Hex) as [tid Etid]; [done|]. apply dwp_bind. eapply dwp_lift; [by rewrite Etid|].
  apply dwp_bind, (wp_table_add_node now own); [done|done|by apply as_good_v4|]. intros w1 Hw1 He1. assert (Hg1 : grows w w1) by (by apply grows_same).
  assert (Hh1 : handler_ok own h w1) by (by eapply handler_ok_world).
  destruct (table_actions h !! TransactionID_action_id tid) as [[l|r|b k]|] eqn:Et; try (apply dwp_ret; by split).
  pose proof (map_Forall_lookup_1 _ _ _ _ Hact Et) as Hok. cbn in Hok. apply dwp_bind. eapply dwp_mono; [by apply (recv_response_ok now own)|].
  intros [st l'] w2 [[Hl' Hw2 _ (sent & Hsd & _) _ _ _] _]. eapply dwp_mono; [apply lookup_outcome_kept; by eapply lookup_stored|].
  intros h' w3. apply kept_after; [eapply grows_trans; [exact Hg1|by eapply sends_grows]|done].
Qed.

Lemma response_kept own r s h w : clock_ok now -> handler_ok own h w -> ~ stopping w -> sock_v4_ok s -> response_wire_ok r ->
  expects (expected_response (table_actions h)) (Response r) -> wp (handle_response now r (V4 s) h) w (kept own h w).
Proof.
  intros Hclock Hh Hns Hs Hr Hex. destruct r; cbn [handle_response]; try (by apply dwp_ret, kept_refl).
  - by apply find_node_response_kept.
  - by apply get_peers_response_kept.
Qed.

(** ** Events *)

Inductive DhtInput : Type :=
| Notified (task : OneshotTask)
| TimedOut (data : Z * ScheduledTask).

Definition handle (e : DhtInput) h : W DhtHandler :=
  match e with
  | Notified task => notify sha1 resolve now task h
  | TimedOut data => timeout now data h
  end.

(** Datagrams are bytes from an IPv4 address, info hashes have twenty bytes. *)
Definition input_ok (e : DhtInput) : Prop :=
  match e with
  | Notified (Incoming buffer a) => bytes_ok buffer /\ Z.of_nat (length buffer) < 2 ^ 63 /\ exists s, a = V4 s /\ sock_v4_ok s
  | Notified (StartLookup info_hash _) => sha_ok info_hash
  | _ => True
  end.

(** How one event may change the token store and the announce storage. *)
Definition stores_step h h' : Prop :=
  read_only h' = read_only h /\
  (token_store h' = token_store h \/ exists r1 r2, token_store h' = refresh_check now r1 r2 (token_store h)) /\
  (active_stores h' = active_stores h \/ (exists i, active_stores h' = (storage_find now (active_stores h) i).2) \/
   exists i a, active_stores h' = (storage_add now now (active_stores h) i a).2).

(** What an event leaves. *)
Definition event_kept own h w h' w' : Prop := handler_ok own h' w' /\ grows w w' /\ stores_step h h'.

Lemma fixed_step h h' : fixed h' = fixed h -> stores_step h h'.
Proof. intros [= E1 E2 E3]. split; [done|]. split; by left. Qed.

Lemma kept_event own h w h' w' : kept own h w h' w' -> event_kept own h w h' w'.
Proof. intros (Hh & Hg & Hf). split; [done|]. split; [done|by apply fixed_step]. Qed.

Lemma token_valid_step r1 r2 h a b valid tokens : token_valid sha1 now r1 r2 h a b = (valid, tokens) ->
  tokens = token_store h \/ tokens = refresh_check now r1 r2 (token_store h).
Proof. unfold token_valid, checkin. destruct (Token_new b); intros [= _ <-]; auto. Qed.

Lemma answered_event own h w r a h' w' : answered sha1 now own h w r a h' w' -> event_kept own h w h' w'.
Proof.
  intros [Hh (m & k & _ & _ & Ha & He)]. split; [done|]. split; [by eexists|]. destruct r as [p|f|g|p]; cbn [answers] in Ha.
  - destruct Ha as [_ ->]. by apply fixed_step.
  - destruct Ha as (c & _ & _ & ->). by apply fixed_step.
  - destruct Ha as (c & info & tok & tokens & r1 & r2 & _ & Et & _ & Hs). destruct (storage_find _ _ _) as [contacts stores] eqn:Ef. destruct Hs as [_ ->].
    injection Et as _ <-. split; [done|]. split; [right; by exists r1, r2|]. right. left. exists (grq_info_hash g). by rewrite Ef.
  - destruct Ha as (r1 & r2 & Ha). destruct (token_valid _ _ _ _ _ _ _) as [valid tokens] eqn:Ev. destruct (storage_add _ _ _ _ _) as [stored stores] eqn:Es.
    assert (Hst : token_store h' = tokens /\ read_only h' = read_only h /\ (active_stores h' = active_stores h \/ active_stores h' = stores)).
    { destruct valid; cbn [negb] in Ha; [destruct Ha as [-> _]|destruct Ha as [_ ->]]; cbn; auto. }
    destruct Hst as (E1 & E2 & E3). split; [done|]. split.
    + rewrite E1. destruct (token_valid_step _ _ _ _ _ _ _ Ev) as [->| ->]; [by left|right; by exists r1, r2].
    + destruct E3 as [->| ->]; [by left|]. right. right. exists (arq_info_hash p), (connect_addr (arq_port p) a). by rewrite Es.
Qed.

(** No transaction waits for a response whose parsing is left unimplemented. *)
Lemma expected_kinds (actions : gmap ActionID TableAction) t : expected_response actions t <> ExGetData /\ expected_response actions t <> ExPutData.
Proof. unfold expected_response. repeat case_match; done. Qed.

Lemma incoming_kept own buffer s h w : clock_ok now -> handler_ok own h w -> ~ stopping w -> input_ok (Notified (Incoming buffer (V4 s))) ->
  wp (handle_incoming sha1 now buffer (V4 s) h) w (event_kept own h w).
Proof.
  intros Hclock Hh Hns (Hb & Hl & s' & [= <-] & Hs). assert (Hsame : wp (wret h) w (event_kept own h w)) by (by apply dwp_ret, kept_event, kept_refl).
  unfold handle_incoming. destruct (Bencode_decode buffer) as [v|e| |] eqn:Ev; [|exact Hsame|..].
  2,3: exfalso; destruct (dht_decode_reports buffer) as [[? ?]|[? ?]]; congruence.
  set (mapper := expected_response (table_actions h)). destruct (MessageType_new v mapper) as [m|e| |] eqn:Em; [|exact Hsame|..].
  2,3: exfalso; destruct (message_parse_reports v mapper) as [[? ?]|[? ?]]; [|congruence..]; intros t; by apply expected_kinds.
  - pose proof (parsed_wire buffer v mapper m Hb Hl Ev Em) as Hm. pose proof (parsed_expected v mapper m Em) as Hex. destruct m as [r|r|]; [..|exact Hsame].
    + destruct (read_only h); [exact Hsame|]. eapply dwp_mono; [by apply (request_answered sha1 now Hloop own)|]. intros h' w'. by apply answered_event.
    + eapply dwp_mono; [by apply (response_kept own)|]. intros h' w'. by apply kept_event.
Qed.

(** Every event keeps the invariant, until the handler asks its loop to stop. *)
Lemma handle_kept own e h w : clock_ok now -> handler_ok own h w -> ~ stopping w -> input_ok e -> wp (handle e h) w (event_kept own h w).
Proof.
  intros Hclock Hh Hns He. destruct e as [[buffer a|sender|routers start|i announce|cause]|[data [tid|tid|tid|tid]]]; cbn [handle notify timeout].
  - pose proof He as (_ & _ & s & -> & _). by apply incoming_kept.
  - apply dwp_ret, kept_event. split; [|split; [by apply grows_same|done]]. apply (handler_ok_fields own h); try done. by destruct Hh as [[] _].
  - eapply dwp_mono; [by apply (start_bootstrap_kept resolve Hloop now own)|]. intros h' w'. by apply kept_event.
  - eapply dwp_mono; [by apply (start_lookup_kept Hloop now own)|]. intros h' w'. by apply kept_event.
  - unfold handle_shutdown. apply dwp_bind. eapply dwp_mono; [by apply (broadcast_kept own)|]. intros h1 w1 [Hk _]. apply dwp_bind, wp_emit, dwp_ret, kept_event.
    destruct Hk as (Hh1 & Hg1 & Hf1). split; [|split; [|done]].
    + eapply handler_ok_world; [done|destruct Hh1 as [[Hw _ _ _ _] _]; by eapply world_ok_table|by eexists].
    + eapply grows_trans; [done|by eexists].
  - eapply dwp_mono; [by apply (check_refresh_kept Hloop now own)|]. intros h' w'. by apply kept_event.
  - eapply dwp_mono; [by apply (bootstrap_timeout_kept own)|]. intros h' w'. by apply kept_event.
  - eapply dwp_mono; [by apply (lookup_timeout_kept own)|]. intros h' w'. by apply kept_event.
  - eapply dwp_mono; [by apply (lookup_endgame_kept own)|]. intros h' w'. by apply kept_event.
Qed.

End At.
End Events.
