(* ===== verification/DhtHandlerSpec.v ===== *)
(** * Properties of the DHT handler

    Runs of the handler over the events its loop delivers: no event makes it panic until
    it asks the loop to stop, every query is answered by one message that its sender can
    parse, and a peer announced with a token it was given is found by others.

    Then tokens and announcements over runs of the handler. *)

From stdpp Require Import gmap.
From S2P Require Import Prelude RustStd Bencode Words UtilSha UtilConvert Chrono DhtNode DhtTable DhtTableSpec DhtClosest DhtToken UtilTrans DhtTransaction DhtStorage DhtBencode DhtBencodeSpec DhtCompact DhtMessage DhtMessageSpec DhtWorker DhtLookup DhtLookupSpec DhtLookupRuns DhtBootstrap DhtBootstrapSpec DhtHandler DhtHandlerFacts DhtHandlerEvents.

Section Spec.
Context {C : Chrono} {Env : DhtEnv} {BS : BinarySearch} {HO : HashOrder SocketAddr unit}.
Context (sha1 : list Z -> list Z) (resolve : list Z * Z -> option (list SocketAddr)).
Implicit Types (w : World) (h : DhtHandler) (own : ShaHash) (t : DateTime).

(** ** Runs *)

(** Events delivered one after the other, at times that do not go back, while the handler
    has not asked the loop to stop. *)
Inductive dht_run t0 h0 w0 : DateTime -> DhtHandler -> World -> Prop :=
| run_start : dht_run t0 h0 w0 t0 h0 w0
| run_event t h w now e h' w' : dht_run t0 h0 w0 t h w -> ~ stopping w -> dt_ns t <= dt_ns now -> clock_ok now -> input_ok e ->
    handle sha1 resolve now e h w = Ok (h', w') -> dht_run t0 h0 w0 now h' w'.

Lemma run_kept own t0 h0 w0 t h w : (forall n, loop_open n = true) -> handler_ok own h0 w0 -> dht_run t0 h0 w0 t h w -> handler_ok own h w.
Proof.
  intros Hloop Hh0. induction 1 as [|t h w now e h' w' _ IH Hns _ Hc He E]; [done|].
  by destruct (wp_det _ _ _ _ _ (handle_kept sha1 resolve Hloop now own e h w Hc IH Hns He) E).
Qed.

Lemma run_step own t0 h0 w0 t h w now e h' w' : (forall n, loop_open n = true) -> handler_ok own h0 w0 -> dht_run t0 h0 w0 t h w -> ~ stopping w ->
  clock_ok now -> input_ok e -> handle sha1 resolve now e h w = Ok (h', w') -> stores_step now h h'.
Proof.
  intros Hloop Hh0 Hr Hns Hc He E. pose proof (run_kept own _ _ _ _ _ _ Hloop Hh0 Hr) as Hh.
  by destruct (wp_det _ _ _ _ _ (handle_kept sha1 resolve Hloop now own e h w Hc Hh Hns He) E) as (_ & _ & ?).
Qed.

Lemma run_time t0 h0 w0 t h w : dht_run t0 h0 w0 t h w -> dt_ns t0 <= dt_ns t.
Proof. induction 1; lia. Qed.

(** A new handler waits for the first bootstrap. *)
Lemma handler_new_ok own ro now w : world_ok own w -> wp (DhtHandler_new now ro) w (fun h w' =>
  handler_base own h w' /\ table_actions h = ∅ /\ w_effects w' = w_effects w /\ read_only h = ro /\
  (exists r1 r2, token_store h = TokenStore_new now r1 r2) /\ active_stores h = AnnounceStorage_new).
Proof.
  intros Hw. unfold DhtHandler_new. apply dwp_bind, wp_outside, dwp_bind. destruct (aid_new_ok (shuffle_numbers (w_calls w))) as (g & Eg & Hg).
  eapply dwp_lift; [exact Eg|]. apply dwp_bind, wp_outside, dwp_bind. match goal with |- context [AIDGenerator_generate ?r g] => destruct (aid_generate_total r g Hg) as (aid & m & g' & Em & Hm & Hg' & Ea) end.
  eapply dwp_lift; [exact Em|]. apply dwp_bind, (wp_mid_generate aid); [done|]. intros tid m' w1 Htid Hm' Ht1 He1.
  apply dwp_bind, wp_outside, dwp_bind, wp_outside, dwp_ret. split; [|split_and!; [reflexivity|exact He1|reflexivity|by eexists _, _|reflexivity]].
  split; [by eapply world_ok_table|exact Hg'|apply map_Forall_empty| |apply map_Forall_empty]. apply Forall_singleton. unfold post_ok. destruct Htid as [-> _].
  split; [exact Hm'|apply Nat.le_0_l].
Qed.

(** C18: no event makes the handler panic. After any run of a new handler, over datagrams
    from IPv4 addresses, timers and requests of the application, every further event is
    handled and leaves the routing table, the lookups, the refresh and the bootstraps in
    their invariants, as long as the handler has not asked its loop to stop. *)
Theorem handler_never_panics own ro t0 w0 h0 w1 t h w now e :
  (forall n, loop_open n = true) -> world_ok own w0 -> w_effects w0 = [] -> DhtHandler_new t0 ro w0 = Ok (h0, w1) ->
  dht_run t0 h0 w1 t h w -> ~ stopping w -> clock_ok now -> input_ok e ->
  exists h' w', handle sha1 resolve now e h w = Ok (h', w') /\ handler_ok own h' w'.
Proof.
  intros Hloop Hw0 He0 E0 Hr Hns Hc He. destruct (wp_det _ _ _ _ _ (handler_new_ok own ro t0 w0 Hw0) E0) as (Hb & Ha & _). clear E0.
  assert (Hh0 : handler_ok own h0 w1) by (split; [done|right; rewrite Ha; apply map_Forall_empty]).
  pose proof (run_kept own _ _ _ _ _ _ Hloop Hh0 Hr) as Hh.
  destruct (handle_kept sha1 resolve Hloop now own e h w Hc Hh Hns He) as (h' & w' & E & Hk & _). by exists h', w'.
Qed.

(** ** Queries *)

(** The datagram holds the query. *)
Definition asks (buffer : list Z) (r : RequestType) h : Prop :=
  exists v, Bencode_decode buffer = Ok v /\ MessageType_new v (expected_response (table_actions h)) = Ok (Request r).

(** One message is sent, and nothing else happens outside. *)
Definition replied w w' (a : SocketAddr) (m : MessageType) : Prop := w_effects w' = w_effects w ++ [OutMessage (MessageType_encode m) a].

Lemma asked_answered own now buffer s r h w : (forall n, loop_open n = true) -> (forall n, out_open n = true) ->
  handler_ok own h w -> input_ok (Notified (Incoming buffer (V4 s))) -> asks buffer r h -> read_only h = false ->
  exists h' w' m, handle sha1 resolve now (Notified (Incoming buffer (V4 s))) h w = Ok (h', w') /\ handler_ok own h' w' /\ stores_step now h h' /\ replied w w' (V4 s) m /\
    message_ok m /\ message_trans_id m = request_trans_id r /\ answers sha1 now own (w_table w') h r (V4 s) m h'.
Proof.
  intros Hloop Hout Hh (Hb & Hl & s' & [= <-] & Hs) (v & Ev & Em) Hro. cbn [handle notify]. unfold handle_incoming. rewrite Ev, Em, Hro.
  pose proof (parsed_wire _ _ _ _ Hb Hl Ev Em) as Hm. destruct (request_answered sha1 now Hloop own r (V4 s) h w Hh Hm Hs) as (h' & w' & E & Han).
  pose proof (answered_event sha1 now own _ _ _ _ _ _ Han) as (_ & _ & Hst). destruct Han as [Hk (m & k & Hok & Ht & Ha & He)].
  rewrite Hout in He. by exists h', w', m.
Qed.

(** An encoded query is one. *)
Lemma encoded_asks r h : message_ok (Request r) -> asks (MessageType_encode (Request r)) r h.
Proof.
  intros Hm. destruct (message_carried (Request r) (expected_response (table_actions h)) Hm I) as (v & Ev & Hv & Hp). exists v. rewrite Ev.
  split; [by apply Bencode_decode_encode|done].
Qed.

(** C19: a query of another node is answered, unless the handler is read-only. With the
    loop and the channel out open, for a query from an IPv4 address: a handler that is not
    read-only answers it by exactly one message, to its sender and with its transaction
    id, and nothing else is done outside: a ping by our id, a search by the (at most eight)
    closest nodes of the table, a search for peers by the closest nodes, a token and the
    live contacts of the info hash, an announcement by a confirmation, or an error when the
    token is refused or the storage is full. The answer parses to that message at any node
    that waits for it. A read-only handler (the default of the builder) ignores the query
    and changes nothing. *)
Theorem query_answered own now buffer s r h w : (forall n, loop_open n = true) -> (forall n, out_open n = true) ->
  handler_ok own h w -> input_ok (Notified (Incoming buffer (V4 s))) -> asks buffer r h ->
  exists h' w', handle sha1 resolve now (Notified (Incoming buffer (V4 s))) h w = Ok (h', w') /\
    if read_only h then h' = h /\ w' = w
    else exists m, replied w w' (V4 s) m /\ message_trans_id m = request_trans_id r /\ answers sha1 now own (w_table w') h r (V4 s) m h' /\
      forall mapper, expects mapper m -> exists v, Bencode_decode (MessageType_encode m) = Ok v /\ MessageType_new v mapper = Ok m.
Proof.
  intros Hloop Hout Hh Hi Ha. destruct (read_only h) eqn:Hro.
  { exists h, w. split; [|done]. destruct Ha as (v & Ev & Em). cbn [handle notify]. unfold handle_incoming. by rewrite Ev, Em, Hro. }
  destruct (asked_answered own now buffer s r h w Hloop Hout Hh Hi Ha Hro) as (h' & w' & m & E & _ & _ & Hr & Hm & Ht & Han).
  exists h', w'. split; [done|]. exists m. split_and!; try done. intros mapper Hex. destruct (message_carried m mapper Hm Hex) as (v & Ev & Hv & Hp). exists v.
  rewrite Ev. split; [by apply Bencode_decode_encode|done].
Qed.

(** A lookup that starts when no node of the table is good does nothing outside: it
    sends no request, sets no timer and reports nothing, neither now nor later through a
    timer of its own, and it stays among the actions. *)
Lemma lookup_without_good_nodes_is_silent own now info_hash announce h w :
  handler_ok own h w -> sha_ok info_hash -> bootstrapping h = false -> ~ has_good now (w_table w) ->
  exists h' w' aid l, handle sha1 resolve now (Notified (StartLookup info_hash announce)) h w = Ok (h', w') /\ w_effects w' = w_effects w /\
    table_actions h' = <[aid := ALookup l]> (table_actions h) /\ lk_active_lookups l = ∅ /\ lk_in_endgame l = false.
Proof.
  intros [[Hw Ha _ _ _] _] Hi Hb Hg. cbn [handle notify]. unfold handle_start_lookup.
  assert (Hwp : wp (let! (m, h1) := aid_generate h in let! tab := get_table in let! o := TableLookup_new now (table_id tab) info_hash m announce in wret (MIDGenerator_action_id m, h1, o)) w
    (fun '(aid, h1, o) w' => table_actions h1 = table_actions h /\ bootstrapping h1 = false /\ w_effects w' = w_effects w /\
      exists l, o = Some l /\ lk_active_lookups l = ∅ /\ lk_in_endgame l = false)).
  { apply dwp_bind, wp_aid_generate; [done|]. intros aid m g w1 Hm Em Hg1 Ht1 He1. assert (Hw1 : world_ok own w1) by (by eapply world_ok_table).
    pose proof Hw1 as (_ & Hid & _). apply dwp_bind, wp_get_table. rewrite Hid. apply dwp_bind.
    eapply dwp_mono; [by apply (lookup_new_ok now own (action_id aid))|]. intros o w2 [_ _ (sent & _ & _ & Hs) Hl]. rewrite Ht1 in Hs, Hl. destruct (Hs Hg) as [He2 Ho].
    apply dwp_ret. split_and!; try done; [by rewrite He2|]. destruct o as [l|]; [|done]. destruct (Hl l eq_refl) as (_ & _ & _ & _ & Heg & _ & _ & _ & Hx).
    exists l. destruct (Hx Hg). by split_and!. }
  destruct Hwp as ([[aid h1] o] & w' & E & Hact & Hb1 & He & l & -> & Hl1 & Hl2).
  unfold wbind in E |- *. destruct (aid_generate h w) as [[[m h2] w1]| | |]; [|done..]. cbn [res_bind] in E |- *. unfold get_table in E |- *. cbn [res_bind] in E |- *.
  destruct (TableLookup_new now (table_id (w_table w1)) info_hash m announce w1) as [[o w2]| | |] eqn:El; [|done..]. cbn [res_bind] in E. injection E as <- <- -> <-.
  rewrite Hb1, El. cbn [res_bind]. eexists _, _, (MIDGenerator_action_id m), l. split; [reflexivity|]. split; [done|]. split; [by cbn; rewrite Hact|done].
Qed.

End Spec.

(** ** Witnesses *)

(** A handler that was bootstrapped and has no action running. *)
Definition sample_handler : @DhtHandler chrono_Z :=
  mkHandler false (TokenStore_new sample_now 1 2) (mkAID (mkIdBlock 0 0 [])) false AnnounceStorage_new [] [] ∅.

Lemma sample_handler_ok : handler_ok sample_own sample_handler sample_world.
Proof.
  split; [split|right; apply map_Forall_empty].
  - apply sample_world_ok.
  - split; [done|]. split; [apply Z.divide_0_r|constructor].
  - apply map_Forall_empty.
  - constructor.
  - apply map_Forall_empty.
Qed.

Lemma sample_clock_ok : clock_ok sample_now.
Proof. by eexists. Qed.

Definition no_sha1 (_ : list Z) : list Z := replicate 20 7.
Definition no_routers (_ : list Z * Z) : option (list SocketAddr) := None.

Lemma handler_never_panics_witness :
  exists h0 w1 h' w', DhtHandler_new sample_now false sample_world = Ok (h0, w1) /\
    handle no_sha1 no_routers sample_now (Notified (StartLookup sample_target true)) h0 w1 = Ok (h', w') /\ handler_ok sample_own h' w'.
Proof.
  destruct (handler_new_ok sample_own false sample_now sample_world sample_world_ok) as (h0 & w1 & E & _ & _ & He & _).
  destruct (handler_never_panics no_sha1 no_routers sample_own false sample_now sample_world h0 w1 sample_now h0 w1 sample_now (Notified (StartLookup sample_target true)))
    as (h' & w' & E' & Hk).
  - intros n. reflexivity.
  - apply sample_world_ok.
  - reflexivity.
  - exact E.
  - apply run_start.
  - intros [c Hc]. rewrite He in Hc. by apply not_elem_of_nil in Hc.
  - apply sample_clock_ok.
  - apply sample_target_ok.
  - exists h0, w1, h', w'. split; [exact E|]. split; [exact E'|exact Hk].
Defined.

(** A search for a node from a node that is not in the table. *)
Definition sample_query : RequestType := RqFindNode (FindNodeRequest_new (bs "aa") (sample_id 2 9) sample_target).
Definition sample_source : SocketAddrV4 := SocketAddrV4_new (Ipv4Addr_new 10 0 0 9) 6881.

Lemma sample_asker_ok : sha_ok (sample_id 2 9).
Proof. split; [reflexivity|]. apply (bool_decide_unpack _). vm_compute. exact I. Qed.

Lemma sample_input_ok r : bool_decide (bytes_ok (MessageType_encode (Request r))) = true -> Z.of_nat (length (MessageType_encode (Request r))) < 2 ^ 63 ->
  input_ok (Notified (Incoming (MessageType_encode (Request r)) (V4 sample_source))).
Proof. intros Hb%bool_decide_eq_true Hl. split; [done|]. split; [done|]. exists sample_source. split; [done|]. vm_compute. intuition congruence. Qed.

Lemma query_answered_witness :
  exists h' w' m, handle no_sha1 no_routers sample_now (Notified (Incoming (MessageType_encode (Request sample_query)) (V4 sample_source))) sample_handler sample_world = Ok (h', w') /\
    replied sample_world w' (V4 sample_source) m /\ message_trans_id m = bs "aa".
Proof.
  destruct (query_answered no_sha1 no_routers sample_own sample_now (MessageType_encode (Request sample_query)) sample_source sample_query sample_handler sample_world)
    as (h' & w' & E & Hm).
  - intros n. reflexivity.
  - intros n. reflexivity.
  - apply sample_handler_ok.
  - apply sample_input_ok; vm_compute; reflexivity.
  - apply encoded_asks. split; [reflexivity|]. split; [apply sample_asker_ok|apply sample_target_ok].
  - change (read_only sample_handler) with false in Hm. destruct Hm as (m & Hr & Ht & _). exists h', w', m. split; [exact E|]. split; [exact Hr|exact Ht].
Defined.

Definition sample_empty_world : @World chrono_Z := mkWorld (RoutingTable_new sample_own) 0 [].

Lemma sample_empty_ok : world_ok sample_own sample_empty_world /\ ~ has_good sample_now (w_table sample_empty_world).
Proof.
  assert (Hn : forall n, n ∈ table_nodes (w_table sample_empty_world) -> n = placeholder).
  { assert (Forall (fun n => n = placeholder) (table_nodes (w_table sample_empty_world))) as Hf by (vm_compute; repeat constructor). by apply Forall_forall. }
  split; [split; [apply RoutingTable_new_ok, sample_own_ok|split; [reflexivity|]]|].
  - intros n ->%Hn. apply placeholder_v4.
  - intros (n & ->%Hn & Hs). vm_compute in Hs. discriminate.
Qed.

Lemma lookup_without_good_nodes_is_silent_witness :
  exists h' w', handle no_sha1 no_routers sample_now (Notified (StartLookup sample_target true)) sample_handler sample_empty_world = Ok (h', w') /\ w_effects w' = [].
Proof.
  destruct (lookup_without_good_nodes_is_silent no_sha1 no_routers sample_own sample_now sample_target true sample_handler sample_empty_world)
    as (h' & w' & aid & l & E & He & _).
  - destruct sample_handler_ok as [[_ H2 H3 H4 H5] _]. split; [split; try done; apply sample_empty_ok|right; apply map_Forall_empty].
  - apply sample_target_ok.
  - reflexivity.
  - apply sample_empty_ok.
  - exists h', w'. split; [exact E|exact He].
Defined.

(** ** Nodes with IPv6 addresses *)

(** A lookup is running when an answer to one of its requests comes from an IPv6 address. *)
Definition v6_source : SocketAddr := V6 (SocketAddrV6_new (mkIpv6Addr [8193; 3512; 0; 0; 0; 0; 0; 1]) 6881 0 0).
Definition lookup_handler : @DhtHandler chrono_Z := dh_set_actions {[ mkActionID 5 := ALookup sample_lookup ]} sample_handler.
Definition lookup_tid : TransactionID := TransactionID_new (Z.shiftl 5 MESSAGE_ID_SHIFT).
Definition v6_answer : list Z :=
  MessageType_encode (Response (RsGetPeers (GetPeersResponse_new (trans_id_bytes lookup_tid) (sample_id 3 9) None (Nodes (mkCompactNodeInfo []))))).

(** An answer from an IPv6 address puts the node into the routing table; the next
    query whose closest nodes include it makes the handler panic, since only nodes with
    IPv4 addresses can be encoded. *)
Lemma ipv6_answer_makes_next_query_panic :
  exists h w, handle no_sha1 no_routers sample_now (Notified (Incoming v6_answer v6_source)) lookup_handler sample_world = Ok (h, w) /\
    handle no_sha1 no_routers sample_now (Notified (Incoming (MessageType_encode (Request sample_query)) (V4 sample_source))) h w = Panic.
Proof.
  assert (Hok : match handle no_sha1 no_routers sample_now (Notified (Incoming v6_answer v6_source)) lookup_handler sample_world with Ok _ => true | _ => false end = true)
    by (vm_compute; reflexivity).
  assert (Hp : (let? (h, w) := handle no_sha1 no_routers sample_now (Notified (Incoming v6_answer v6_source)) lookup_handler sample_world in
    handle no_sha1 no_routers sample_now (Notified (Incoming (MessageType_encode (Request sample_query)) (V4 sample_source))) h w) = Panic) by (vm_compute; reflexivity).
  destruct (handle _ _ _ _ lookup_handler sample_world) as [[h w]| | |]; [|discriminate..]. exists h, w. split; [reflexivity|exact Hp].
Qed.

(** * Announcing a peer through the DHT handler

    Tokens and announcements over runs of the handler: a token given to an address is
    accepted from it for ten minutes, and an announcement is found for twenty-four hours,
    whatever events happen in between. *)

Section Announce.
Context {C : Chrono} {Env : DhtEnv} {BS : BinarySearch} {HO : HashOrder SocketAddr unit}.
Context (sha1 : list Z -> list Z) (resolve : list Z * Z -> option (list SocketAddr)).
Implicit Types (w : World) (h : DhtHandler) (own : ShaHash) (t now : DateTime) (k : ShaHash * SocketAddr) (l : list announcement).

(** ** Announcements that stay *)

(** The announcement [k] was made or renewed at [t] or later. *)
Definition announced t k l : Prop := exists ts, (k, ts) ∈ l /\ dt_ns t <= dt_ns ts.

Lemma announced_prune t k l now : announced t k l -> dt_ns now < dt_ns t + 24 * NS_PER_HOUR -> announced t k (spec_prune now l).
Proof.
  intros (ts & Hin & Hle) Hn. exists ts. split; [|done]. apply list_elem_of_In, filter_In. split; [by apply list_elem_of_In|].
  unfold fresh. cbn [snd]. apply Z.ltb_lt. lia.
Qed.

Lemma announced_add t k l now k' : announced t k l -> dt_ns t <= dt_ns now < dt_ns t + 24 * NS_PER_HOUR -> announced t k (spec_add now now l k').2.
Proof.
  intros Ha [Hn1 Hn2]. apply (announced_prune _ _ _ now) in Ha as (ts & Hin & Hle); [|done]. unfold spec_add. case_bool_decide as Hk.
  - destruct (decide (k = k')) as [->|Hne]; [exists now; split; [|done]; apply elem_of_app; right; left|].
    exists ts. split; [|done]. apply elem_of_app. left. apply list_elem_of_In, filter_In. split; [by apply list_elem_of_In|].
    unfold other_key. rewrite bool_decide_false; done.
  - destruct (_ <? _)%nat; exists ts; (split; [|done]); [apply elem_of_app; by left|done].
Qed.

Lemma added_announced now l k : (spec_add now now l k).1 = true -> announced now k (spec_add now now l k).2.
Proof.
  unfold spec_add. case_bool_decide; [|destruct (_ <? _)%nat; [|done]]; intros _; exists now; (split; [|done]); apply elem_of_app; right; left.
Qed.

Lemma sim_mono s l t t' : dt_ns t <= dt_ns t' -> storage_sim s l t -> storage_sim s l t'.
Proof. intros Hle (? & ? & ? & ? & ?). split_and!; by eauto using sorted_times_mono. Qed.

(** ** Over a run *)

(** The stores at time [t]. *)
Definition stores_ok t h : Prop := dt_ns (last_refresh (token_store h)) <= dt_ns t /\ exists l, storage_sim (active_stores h) l t.

Lemma refresh_last now r1 r2 s : dt_ns (last_refresh s) <= dt_ns now -> dt_ns (last_refresh (refresh_check now r1 r2 s)) <= dt_ns now.
Proof. intros Hle. destruct (refresh_check_cases now r1 r2 s Hle) as [[_ ->]|[[_ ->]|[_ ->]]]; cbn [last_refresh]; lia. Qed.

Lemma storage_step l t now h h' : storage_sim (active_stores h) l t -> dt_ns t <= dt_ns now -> stores_step now h h' ->
  exists l', storage_sim (active_stores h') l' now /\
    forall t0 k, dt_ns t0 <= dt_ns now < dt_ns t0 + 24 * NS_PER_HOUR -> announced t0 k l -> announced t0 k l'.
Proof.
  intros Hs Hle (_ & _ & [->|[[i ->]|(i & a & ->)]]).
  - exists l. split; [by eapply sim_mono|done].
  - destruct (find_sim _ l t now now i Hs Hle) as [_ Hs']. eexists. split; [exact Hs'|]. intros t0 k [_ Hn] Ha. by apply announced_prune.
  - destruct (add_sim _ l t now now i a Hs Hle) as [_ Hs']. eexists. split; [exact Hs'|]. intros t0 k Hn Ha. by apply announced_add.
Qed.

Lemma stores_ok_step t now h h' : stores_ok t h -> dt_ns t <= dt_ns now -> stores_step now h h' -> stores_ok now h'.
Proof.
  intros [Hr [l Hl]] Hle Hst. split; [|destruct (storage_step l t now h h' Hl Hle Hst) as (l' & Hs & _); by exists l'].
  destruct Hst as (_ & [->|(r1 & r2 & ->)] & _); [lia|apply refresh_last; lia].
Qed.

Section Run.
Context own t0 h0 w0 (Hloop : forall n, loop_open n = true) (Hh0 : handler_ok own h0 w0) (Hs0 : stores_ok t0 h0).

Lemma run_stores t h w : dht_run sha1 resolve t0 h0 w0 t h w -> stores_ok t h /\ read_only h = read_only h0.
Proof.
  induction 1 as [|t h w now e h' w' Hr [IH1 IH2] Hns Hle Hc He E]; [done|].
  pose proof (run_step sha1 resolve own _ _ _ _ _ _ _ _ _ _ Hloop Hh0 Hr Hns Hc He E) as Hst.
  split; [by eapply stores_ok_step|]. destruct Hst as [-> _]. done.
Qed.

Lemma run_token secret t h w : holds_secret secret t0 (token_store h0) -> dht_run sha1 resolve t0 h0 w0 t h w ->
  dt_ns t < dt_ns t0 + 10 * NS_PER_MINUTE -> holds_secret secret t0 (token_store h).
Proof.
  intros Hsec. induction 1 as [|t h w now e h' w' Hr IH Hns Hle Hc He E]; intros Hn; [done|]. pose proof (run_time _ _ _ _ _ _ _ _ Hr).
  pose proof (run_step sha1 resolve own _ _ _ _ _ _ _ _ _ _ Hloop Hh0 Hr Hns Hc He E) as (_ & [->|(r1 & r2 & ->)] & _); [apply IH; lia|].
  destruct (run_stores t h w Hr) as [[Hlast _] _]. apply holds_secret_refresh; [apply IH; lia|lia|lia].
Qed.

Lemma run_announced k l t h w : storage_sim (active_stores h0) l t0 -> announced t0 k l -> dht_run sha1 resolve t0 h0 w0 t h w ->
  dt_ns t < dt_ns t0 + 24 * NS_PER_HOUR -> exists l', storage_sim (active_stores h) l' t /\ announced t0 k l'.
Proof.
  intros Hs Ha. induction 1 as [|t h w now e h' w' Hr IH Hns Hle Hc He E]; intros Hn; [by exists l|]. pose proof (run_time _ _ _ _ _ _ _ _ Hr).
  destruct IH as (l1 & Hs1 & Ha1); [lia|]. pose proof (run_step sha1 resolve own _ _ _ _ _ _ _ _ _ _ Hloop Hh0 Hr Hns Hc He E) as Hst.
  destruct (storage_step l1 t now h h' Hs1 Hle Hst) as (l2 & Hs2 & Hk). exists l2. split; [done|]. apply Hk; [lia|done].
Qed.
End Run.

(** ** The exchange *)

Lemma Token_new_token b : length b = SHA_HASH_LEN -> Token_new b = Ok (mkToken b).
Proof. intros Hl. unfold Token_new. rewrite Hl, Nat.eqb_refl. cbn [negb]. do 2 f_equal. apply copy_into_full. by rewrite length_replicate. Qed.

(** A search for peers gives out a token the store will remember. *)
Lemma token_given own tb h g a m h' t now : stores_ok t h -> dt_ns t <= dt_ns now -> answers sha1 now own tb h (RqGetPeers g) a m h' ->
  exists gr secret, m = Response (RsGetPeers gr) /\ grs_token gr = Some (token (generate_token_from_addr sha1 (IpAddr_from_socket_addr a) secret)) /\
    holds_secret secret now (token_store h').
Proof.
  intros [Hlast _] Hle (c & info & tok & tokens & r1 & r2 & _ & Et & -> & Ha). destruct (storage_find _ _ _) as [contacts stores]. destruct Ha as [_ ->].
  destruct (checkout_fresh sha1 now r1 r2 (token_store h) (IpAddr_from_socket_addr a) tok tokens) as [-> Hr]; [lia|done|]. eexists _, (curr_secret tokens). split; [done|]. split; [done|].
  left. split; [done|]. cbn [token_store dh_set_tokens]. lia.
Qed.

(** An announcement with it is stored, unless the storage is full. *)
Lemma token_taken own tb h p a m h' l secret t0 t now : dt_ns (last_refresh (token_store h)) <= dt_ns t -> holds_secret secret t0 (token_store h) ->
  storage_sim (active_stores h) l t -> dt_ns t <= dt_ns now -> dt_ns t0 <= dt_ns now < dt_ns t0 + 10 * NS_PER_MINUTE ->
  arq_token p = token (generate_token_from_addr sha1 (IpAddr_from_socket_addr a) secret) -> answers sha1 now own tb h (RqAnnouncePeer p) a m h' ->
  (m = ErrorMsg (ErrorMessage_new (arq_trans_id p) ServerError (bs "Announce Storage Is Full")) /\ (MAX_ITEMS_STORED <= length (spec_prune now l))%nat) \/
  (m = Response (RsAnnouncePeer (AnnouncePeerResponse_new (arq_trans_id p) own)) /\
   exists l', storage_sim (active_stores h') l' now /\ announced now (arq_info_hash p, connect_addr (arq_port p) a) l').
Proof.
  intros Hlast Hsec Hs Hle Hn Etok (r1 & r2 & Ha).
  assert (Hv : (token_valid sha1 now r1 r2 h a (arq_token p)).1 = true).
  { unfold token_valid. rewrite Etok, Token_new_token by apply token_length. destruct (holds_secret_refresh secret t0 (token_store h) now r1 r2) as [Hsec' _]; [done|lia|lia|].
    unfold checkin. cbn [fst]. apply validate_token_spec. destruct (generate_token_from_addr _ _ _) as [b] eqn:Eb. cbn [token]. rewrite <- Eb.
    destruct Hsec' as [[-> _]|[-> _]]; auto. }
  destruct (token_valid _ _ _ _ _ _ _) as [valid tokens]. cbn [fst] in Hv. subst valid. cbn [negb] in Ha.
  destruct (add_sim _ l t now now (arq_info_hash p) (connect_addr (arq_port p) a) Hs Hle) as [Hb Hs'].
  destruct (storage_add now now (active_stores h) (arq_info_hash p) (connect_addr (arq_port p) a)) as [stored stores]. cbn [fst snd] in Hb, Hs'. destruct Ha as [-> ->].
  destruct stored; [right|left]; (split; [done|]).
  - eexists. split; [exact Hs'|]. by apply added_announced.
  - unfold spec_add in Hb. case_bool_decide; [done|]. destruct (Nat.ltb_spec (length (spec_prune now l)) 500); [done|]. done.
Qed.

(** The peer is among the values of the answer. *)
Definition lists_peer (m : MessageType) (peer : SocketAddrV4) : Prop :=
  exists gr c v socks, m = Response (RsGetPeers gr) /\ grs_info_type gr = Both c v /\ collect_values v = Ok socks /\ peer ∈ socks.

Lemma peer_listed own tb h g a m h' l peer t0 t now : storage_sim (active_stores h) l t -> announced t0 (grq_info_hash g, V4 peer) l ->
  dt_ns t <= dt_ns now -> dt_ns now < dt_ns t0 + 24 * NS_PER_HOUR -> answers sha1 now own tb h (RqGetPeers g) a m h' -> lists_peer m peer.
Proof.
  intros Hs Hann Hle Hn (c & info & tok & tokens & r1 & r2 & _ & _ & -> & Ha). destruct (find_sim _ l t now now (grq_info_hash g) Hs Hle) as [Hf _].
  destruct (storage_find _ _ _) as [contacts stores]. cbn [fst] in Hf. destruct Ha as [Hi _].
  assert (Hin : peer ∈ omap map_ipv4 contacts).
  { apply list_elem_of_omap. exists (V4 peer). split; [|done]. rewrite Hf. apply (announced_prune _ _ _ now) in Hann as (ts & Hin & _); [|done].
    unfold spec_find. cbn [fst]. apply list_elem_of_fmap. exists ((grq_info_hash g, V4 peer), ts). split; [done|].
    apply list_elem_of_In, filter_In. split; [by apply list_elem_of_In|]. by apply bool_decide_eq_true. }
  destruct (omap map_ipv4 contacts) as [|x socks] eqn:Es; [by apply not_elem_of_nil in Hin|]. destruct Hi as (v & -> & Hv).
  eexists _, c, v, (x :: socks). by split_and!.
Qed.

(** The address a peer at [s] announces with the port [port]. *)
Definition announced_addr (port : ConnectPort) (s : SocketAddrV4) : SocketAddrV4 :=
  match port with Implied => s | Explicit n => SocketAddrV4_new (v4_ip s) n end.

Lemma connect_announced_addr port s : connect_addr port (V4 s) = V4 (announced_addr port s).
Proof. by destruct port. Qed.

Definition from (buffer : list Z) (s : SocketAddrV4) : DhtInput := Notified (Incoming buffer (V4 s)).


End Announce.

(** ** Witness *)

Definition sample_search : GetPeersRequest := GetPeersRequest_new (bs "aa") (sample_id 2 9) sample_target.

Lemma sample_stores_ok : stores_ok sample_now sample_handler.
Proof. split; [apply Z.le_refl|]. exists []. split_and!; [done|split; done|constructor|cbn; lia|done]. Qed.

