(* ===== verification/BencodeEntries.v ===== *)
(** * Dictionaries under construction

    What the components that build bencode dictionaries share: the invariant of a
    dictionary that can be encoded and read back, kept by insertion and removal, and what
    decoding an encoded dictionary gives for each of its entries, buffers included. *)

From Stdlib Require Import Sorted.
From S2P Require Import Prelude RustStd BTree Bencode BencodeFacts BencodeGrammar BencodeCanon BencodeSpec BencodeAccess.

(** ** Removal *)

Section Remove.
Context {V : Type}.
Implicit Types (m : list (list Z * V)) (k : list Z).

Lemma bt_remove_Forall (P : list Z * V -> Prop) k m : Forall P m -> Forall P (bt_remove k m).
Proof. induction 1 as [|[k' v'] m Hx Hm IH]; cbn; [constructor|]. destruct (bytes_cmp k k'); [done|by constructor..]. Qed.

Lemma bt_remove_sorted k m : bt_sorted m -> bt_sorted (bt_remove k m).
Proof.
  induction m as [|[k' v'] m IH]; cbn; [done|]. intros [Hs Hf]%bt_sorted_cons.
  destruct (bytes_cmp k k'); [done|..]; apply bt_sorted_cons; (split; [auto|by apply bt_remove_Forall]).
Qed.

Lemma bt_lookup_None_gt k m : Forall (fun e => bytes_lt k (fst e)) m -> bt_lookup k m = None.
Proof. induction 1 as [|[k' v'] m Hx Hm IH]; cbn in *; [done|]. unfold bytes_lt in Hx. by rewrite Hx. Qed.

Lemma bt_lookup_remove_eq k m : bt_sorted m -> bt_lookup k (bt_remove k m) = None.
Proof.
  induction m as [|[k' v'] m IH]; cbn; [done|]. intros [Hs Hf]%bt_sorted_cons. destruct (bytes_cmp k k') eqn:E; cbn; rewrite ?E; auto.
  apply bytes_cmp_eq in E as ->. by apply bt_lookup_None_gt.
Qed.

Lemma bt_lookup_remove_ne k k' m : k <> k' -> bt_lookup k' (bt_remove k m) = bt_lookup k' m.
Proof.
  intros Hne. induction m as [|[j w] m IH]; cbn; [done|]. destruct (bytes_cmp k j) eqn:E; cbn; [|by rewrite IH..].
  apply bytes_cmp_eq in E as ->. destruct (bytes_cmp k' j) eqn:E'; [|done..]. by apply bytes_cmp_eq in E' as ->.
Qed.

Lemma bt_remove_insert k v m : bt_lookup k m = None -> bt_sorted m -> bt_remove k (bt_insert k v m) = m.
Proof.
  induction m as [|[k' v'] m IH]; cbn; [by rewrite bytes_cmp_refl|]. intros Hn [Hs Hf]%bt_sorted_cons.
  destruct (bytes_cmp k k') eqn:E; cbn; rewrite ?bytes_cmp_refl, ?E; [done|done|]. by rewrite IH.
Qed.
Lemma bt_remove_absent k m : bt_lookup k m = None -> bt_remove k m = m.
Proof. induction m as [|[k' v'] m IH]; cbn; [done|]. destruct (bytes_cmp k k'); [done|..]; intros; by rewrite IH. Qed.

End Remove.

(** ** Dictionaries of bounded depth *)

Definition value_ok (n : nat) (v : BencodeMut) : Prop := mut_ok v /\ (mut_depth v <= n)%nat.
Definition dict_ok (n : nat) (d : list (list Z * BencodeMut)) : Prop :=
  bt_sorted d /\ Forall (fun kv => Z.of_nat (length (fst kv)) < 2 ^ 63 /\ value_ok n (snd kv)) d.

Lemma dict_ok_nil n : dict_ok n [].
Proof. split; constructor. Qed.
Lemma dict_ok_insert n k v d : Z.of_nat (length k) < 2 ^ 63 -> value_ok n v -> dict_ok n d -> dict_ok n (bt_insert k v d).
Proof. intros Hk Hv [Hs Hf]. split; [by apply bt_insert_sorted|by apply bt_insert_Forall]. Qed.
Lemma dict_ok_remove n k d : dict_ok n d -> dict_ok n (bt_remove k d).
Proof. intros [Hs Hf]. split; [by apply bt_remove_sorted|by apply bt_remove_Forall]. Qed.

Lemma value_ok_int n x : is_i64 x -> value_ok (S n) (MInt x).
Proof. intros Hx. split; [by constructor|cbn; lia]. Qed.
Lemma value_ok_bytes n b : Z.of_nat (length b) < 2 ^ 63 -> value_ok (S n) (MBytes b).
Proof. intros Hx. split; [by constructor|cbn; lia]. Qed.
Lemma value_ok_list n l : Forall (value_ok n) l -> value_ok (S n) (MList l).
Proof.
  intros Hl. split.
  - constructor. eapply Forall_impl; [exact Hl|]. by intros v [].
  - cbn. apply le_n_S, list_max_le, Forall_map. eapply Forall_impl; [exact Hl|]. by intros v [].
Qed.
Lemma value_ok_dict n d : dict_ok n d -> value_ok (S n) (MDict d).
Proof.
  intros [Hs Hf]. split.
  - constructor; [done|..]; (eapply Forall_impl; [exact Hf|]; by intros kv [? []]).
  - cbn. apply le_n_S, list_max_le, Forall_map. eapply Forall_impl; [exact Hf|]. by intros kv [? []].
Qed.
Lemma value_ok_le n n' v : value_ok n v -> (n <= n')%nat -> value_ok n' v.
Proof. intros [? ?] ?. split; [done|lia]. Qed.

Create HintDb bendict.
#[export] Hint Resolve dict_ok_nil dict_ok_insert dict_ok_remove value_ok_int value_ok_bytes value_ok_list value_ok_dict : bendict.

(** ** Decoding an encoded dictionary *)

(** What the decoder gives for an entry. *)
Definition decoded_entry (kv : list Z * BencodeMut) (kr : list Z * BencodeRef) : Prop :=
  fst kr = fst kv /\ ref_erase (snd kr) = snd kv /\ ref_buffer (snd kr) = enc (snd kv).

Lemma sorted_app_lt {V} (acc : list (list Z * V)) ks k : StronglySorted bytes_lt (map fst acc ++ k :: ks) -> Forall (fun e => bytes_lt (fst e) k) acc.
Proof.
  induction acc as [|[k' v'] acc IH]; cbn; [done|]. intros [Hs Hf]%StronglySorted_inv. constructor; [|by apply IH].
  apply Forall_app in Hf as [_ Hf]. by inversion Hf.
Qed.

Lemma decode_dict_entries opts depth l : forall racc fuel bytes pos post,
  StronglySorted bytes_lt (map fst racc ++ map fst l) -> Forall (fun kv => Z.of_nat (length (fst kv)) < 2 ^ 63) l ->
  Forall (fun kv => gram opts (depth + 1) (enc (snd kv)) (snd kv)) l ->
  drop pos bytes = concat (map (fun kv => enc_bytes (fst kv) ++ enc (snd kv)) l) ++ BEN_END :: post ->
  (2 * (length bytes - pos) + 2 <= fuel)%nat ->
  exists rl next, decode_dict fuel bytes pos opts depth racc = Ok (racc ++ rl, next) /\ Forall2 decoded_entry l rl.
Proof.
  induction l as [|[k v] l IH]; intros racc fuel bytes pos post Hs Hk Hg Hdrop Hf; (destruct fuel as [|f]; [lia|]); cbn [decode_dict].
  - cbn in Hdrop. rewrite (peek_byte_drop _ _ _ _ Hdrop). cbn. exists [], (pos + 1)%nat. rewrite app_nil_r. by split.
  - apply Forall_cons in Hk as [Hk Hks]. apply Forall_cons in Hg as [Hg Hgs]. cbn [map concat fst snd] in *. rewrite <- !app_assoc in Hdrop.
    pose proof (enc_bytes_text k Hk) as Ht. destruct (bytes_text_first _ _ Ht) as (c & w' & Hw & Hc).
    assert (Hp : peek_byte bytes pos = Ok c) by (eapply peek_byte_drop; by rewrite Hdrop, Hw). rewrite Hp. cbn [res_bind].
    rewrite (proj2 (Z.eqb_neq c BEN_END)) by done.
    assert (Hlt := drop_length_le _ _ _ Hdrop ltac:(by rewrite Hw)).
    assert (Hb : decode_bytes bytes pos = Ok (k, (pos + length (enc_bytes k))%nat)) by (apply decode_bytes_text; eauto).
    rewrite Hb. cbn [res_bind]. assert (Hacc := sorted_app_lt _ _ _ Hs).
    assert (Hoo : key_out_of_order opts racc k = false).
    { unfold key_out_of_order. destruct (bt_last_key racc) as [k'|] eqn:El; [|done]. destruct (check_key_sort opts); [|done].
      destruct (bytes_ltb_spec k k') as [Hkk|]; [|done]. exfalso. apply (bytes_lt_irrefl k). transitivity k'; [done|].
      apply (Forall_map fst (fun k' => bytes_lt k' k)) in Hacc. rewrite Forall_forall in Hacc. apply Hacc. by apply last_Some_elem_of. }
    rewrite Hoo. apply drop_app_shift in Hdrop. assert (length (enc_bytes k) <> 0)%nat by (by rewrite Hw).
    destruct (proj1 (decode_complete_all opts) _ _ _ Hg f bytes _ _ Hdrop) as (r & Hr & Her); [lia|].
    rewrite Hr. cbn [res_bind res_unwrap]. rewrite (bt_lookup_None_lt k racc Hacc), (bt_insert_snoc k r racc Hacc).
    pose proof (decode_buffer _ _ _ _ _ _ _ Hr) as Hbuf. rewrite (slice_drop_app _ _ _ _ Hdrop) in Hbuf. apply drop_app_shift in Hdrop.
    destruct (IH (racc ++ [(k, r)]) f bytes (pos + length (enc_bytes k) + length (enc v))%nat post) as (rl & next & Hrl & Hf2); [|done|done|exact Hdrop|lia|].
    + rewrite map_app. cbn [map fst]. rewrite <- app_assoc. exact Hs.
    + rewrite Hrl. exists ((k, r) :: rl), next. rewrite <- app_assoc. split; [done|]. constructor; [done|exact Hf2].
Qed.

(** An encoded dictionary decodes to its entries, each with the text it was encoded to. *)
Lemma decode_encoded_dict n d : dict_ok n d -> (n < max_recursion BDecodeOpt_default)%nat ->
  exists rl, BencodeRef_decode (BencodeMut_encode (MDict d)) BDecodeOpt_default = Ok (RDict rl (BencodeMut_encode (MDict d))) /\
    Forall2 decoded_entry d rl /\ BencodeMut_encode (MDict d) = enc (MDict d).
Proof.
  intros Hd Hn. pose proof (value_ok_dict n d Hd) as [Hok Hdep]. assert (Henc : BencodeMut_encode (MDict d) = enc (MDict d)) by (unfold BencodeMut_encode; by rewrite encode_enc).
  pose proof (enc_gram BDecodeOpt_default (MDict d) Hok 0 ltac:(lia)) as Hg. rewrite Henc.
  destruct (decode_gram (enc (MDict d)) BDecodeOpt_default (enc (MDict d)) [] (MDict d)) as (r & Hr & He); [by rewrite app_nil_r|done|].
  pose proof (decode_buffer _ _ _ _ _ _ _ Hr) as Hbuf. rewrite slice_0, take_ge in Hbuf by done.
  destruct Hd as [Hs Hf].
  assert (Hgs : Forall (fun kv => gram BDecodeOpt_default (0 + 1) (enc (snd kv)) (snd kv)) d).
  { eapply Forall_impl; [exact Hf|]. intros kv (_ & Hv & Hdv). apply enc_gram; [done|]. lia. }
  destruct (decode_dict_entries BDecodeOpt_default 0 d [] (2 * length (enc (MDict d)) + 1) (enc (MDict d)) 1 []) as (rl & next & Hrl & Hf2);
    [done|by eapply Forall_impl; [exact Hf|]; intros kv []|done|done|assert (length (enc (MDict d)) <> 0)%nat by done; lia|].
  exists rl. split_and!; [|done|done]. apply BencodeRef_decode_Ok. exists (length (enc (MDict d))). split; [|done].
  rewrite Hr. do 2 f_equal. unfold decode_fuel in Hr. replace (2 * length (enc (MDict d)) + 2)%nat with (S (2 * length (enc (MDict d)) + 1)) in Hr by lia.
  rewrite decode_step in Hr. change (max_recursion BDecodeOpt_default <=? 0)%nat with false in Hr. cbn [peek_byte] in Hr.
  cbv beta iota in Hr. change (peek_byte (enc (MDict d)) 0) with (Ok (E := BencodeParseErrorKind) DICT_START) in Hr. cbn [res_bind] in Hr.
  change (DICT_START =? INT_START) with false in Hr. change (DICT_START =? LIST_START) with false in Hr. change (DICT_START =? DICT_START) with true in Hr.
  cbv iota in Hr. change (0 + 1)%nat with 1%nat in Hr. rewrite Hrl in Hr. cbn [res_bind app] in Hr. injection Hr as <- _. cbn [ref_buffer] in Hbuf. by rewrite Hbuf.
Qed.

Lemma decoded_lookup d rl k : Forall2 decoded_entry d rl ->
  match bt_lookup k d with
  | Some v => exists r, bt_lookup k rl = Some r /\ ref_erase r = v /\ ref_buffer r = enc v
  | None => bt_lookup k rl = None
  end.
Proof.
  induction 1 as [|[k1 v1] [k2 r2] d rl (Hk & Hv & Hb) Hf IH]; [done|]. cbn in *. subst k2. destruct (bytes_cmp k k1); [eauto|done..].
Qed.
Lemma decoded_erase d rl : Forall2 decoded_entry d rl -> erase_entries rl = d.
Proof. induction 1 as [|[k1 v1] [k2 r2] d rl (Hk & Hv & _) Hf IH]; [done|]. cbn in *. by subst. Qed.

(** ** Reading lists of a decoded dictionary *)

Definition res_map {E A B} (f : A -> B) (m : res E A) : res E B := let? a := m in Ok (f a).

Section Erase.
Context `{HC : BConvert}.

Lemma lookup_list_erase d k : res_map (map ref_erase) (lookup_and_convert_list d k) = lookup_and_convert_list (erase_entries d) k.
Proof.
  unfold lookup_and_convert_list, convert_lookup. rewrite erase_lookup. destruct (bt_lookup k d) as [r|]; [|done]. cbn. unfold convert_list.
  by destruct r.
Qed.
Lemma convert_str_erase r k : convert_str r k = convert_str (ref_erase r) k.
Proof. unfold convert_str. by rewrite access_str. Qed.
Lemma convert_dict_erase r k : res_map erase_entries (convert_dict r k) = convert_dict (ref_erase r) k.
Proof. unfold convert_dict. by destruct r. Qed.

End Erase.
