(* ===== verification/Metainfo.v ===== *)
(** * Torrent files: parsing

    Model of [metainfo/error.rs], [metainfo/parse.rs] and the parsing half of
    [metainfo/metainfo.rs]: a torrent file is decoded with its buffers, its info
    dictionary is hashed from the bytes it was read from, and its fields are read
    through the conversions of [BConvert]. The digest is a parameter. Strings are their
    bytes, paths are those of [Paths]. *)

From S2P Require Import Prelude RustStd BTree Bencode UtilSha Paths BencodeAccess.

(** ** Errors *)

(** [ParseErrorKind]; [IoError] is the type of [io::Error], which only accessors produce. *)
Inductive MetaParseError (IoError : Type) : Type :=
| PeIo (e : IoError)
| BencodeConvert (e : BencodeConvertErrorKind)
| BencodeParse (e : BencodeParseErrorKind)
| MissingData (details : list Z).
Arguments PeIo {IoError} e.
Arguments BencodeConvert {IoError} e.
Arguments BencodeParse {IoError} e.
Arguments MissingData {IoError} details.

(** ** Keys *)

Definition ROOT_ERROR_KEY : list Z := Eval vm_compute in bs "root".
Definition ANNOUNCE_LIST_KEY : list Z := Eval vm_compute in bs "announce-list".
Definition ANNOUNCE_URL_KEY : list Z := Eval vm_compute in bs "announce".
Definition CREATION_DATE_KEY : list Z := Eval vm_compute in bs "creation date".
Definition COMMENT_KEY : list Z := Eval vm_compute in bs "comment".
Definition CREATED_BY_KEY : list Z := Eval vm_compute in bs "created by".
Definition ENCODING_KEY : list Z := Eval vm_compute in bs "encoding".
Definition INFO_KEY : list Z := Eval vm_compute in bs "info".
Definition PIECE_LENGTH_KEY : list Z := Eval vm_compute in bs "piece length".
Definition PIECES_KEY : list Z := Eval vm_compute in bs "pieces".
Definition PRIVATE_KEY : list Z := Eval vm_compute in bs "private".
Definition NAME_KEY : list Z := Eval vm_compute in bs "name".
Definition FILES_KEY : list Z := Eval vm_compute in bs "files".
Definition LENGTH_KEY : list Z := Eval vm_compute in bs "length".
Definition MD5SUM_KEY : list Z := Eval vm_compute in bs "md5sum".
Definition PATH_KEY : list Z := Eval vm_compute in bs "path".

(** ** Data *)

Record MetaFile : Type := mkMetaFile { mf_len : Z; mf_path : list Z; mf_md5sum : option (list Z) }.

Record Info : Type := mkInfo {
  in_info_hash : ShaHash;
  in_files : list MetaFile;
  in_pieces : list (list Z);
  in_piece_len : Z;
  in_is_private : option bool;
  in_file_directory : option (list Z)
}.

Record Metainfo : Type := mkMetainfo {
  mi_comment : option (list Z);
  mi_announce : option (list Z);
  mi_announce_list : option (list (list (list Z)));
  mi_encoding : option (list Z);
  mi_created_by : option (list Z);
  mi_creation_date : option Z;
  mi_info : Info
}.

(** [Metainfo::from(info)]. *)
Definition Metainfo_from_info (info : Info) : Metainfo := mkMetainfo None None None None None None info.

(** The iterators [Files] and [Pieces]: an index into a slice. *)
Record SliceIter (A : Type) : Type := mkSliceIter { si_index : nat; si_items : list A }.
Arguments mkSliceIter {A} si_index si_items.
Arguments si_index {A} s.
Arguments si_items {A} s.
Definition SliceIter_new {A} (items : list A) : SliceIter A := mkSliceIter 0 items.
Definition SliceIter_next {A} (it : SliceIter A) : option (A * SliceIter A) :=
  match si_items it !! si_index it with
  | Some x => Some (x, mkSliceIter (si_index it + 1) (si_items it))
  | None => None
  end.
(** [for x in iter]. *)
Fixpoint SliceIter_collect {A} (fuel : nat) (it : SliceIter A) : list A :=
  match fuel, SliceIter_next it with
  | S fuel, Some (x, it) => x :: SliceIter_collect fuel it
  | _, _ => []
  end.
Definition Info_pieces (info : Info) : SliceIter (list Z) := SliceIter_new (in_pieces info).
Definition Info_files (info : Info) : SliceIter MetaFile := SliceIter_new (in_files info).

Section Parse.
Context {IoError : Type}.
Abbreviation ParseResult := (res (MetaParseError IoError)).

(** [MetainfoConverter]. *)
#[local] Instance MetainfoConverter : BConvert := {| ConvertError := MetaParseError IoError; handle_error := BencodeConvert |}.

Section Fields.
Context {B : Type} `{HB : BRefAccess B}.
Implicit Types (d : list (list Z * B)).

Definition parse_root_dict (root_bencode : B) : ParseResult (list (list Z * B)) := convert_dict root_bencode ROOT_ERROR_KEY.

Definition parse_announce_list d : option (list B) := res_ok (lookup_and_convert_list d ANNOUNCE_LIST_KEY).
Definition convert_announce_list (l : list B) : list (list (list Z)) := map (omap acc_str) (omap acc_list l).
Definition parse_announce_url d : option (list Z) := res_ok (lookup_and_convert_str d ANNOUNCE_URL_KEY).
Definition parse_creation_date d : option Z := res_ok (lookup_and_convert_int d CREATION_DATE_KEY).
Definition parse_comment d : option (list Z) := res_ok (lookup_and_convert_str d COMMENT_KEY).
Definition parse_created_by d : option (list Z) := res_ok (lookup_and_convert_str d CREATED_BY_KEY).
Definition parse_encoding d : option (list Z) := res_ok (lookup_and_convert_str d ENCODING_KEY).
Definition parse_info_bencode d : ParseResult B := convert_lookup d INFO_KEY.

Definition parse_piece_length d : ParseResult Z := let? len := lookup_and_convert_int d PIECE_LENGTH_KEY in Ok (as_u64 len).
Definition parse_pieces d : ParseResult (list Z) := lookup_and_convert_bytes d PIECES_KEY.
Definition parse_private d : option bool := (fun p => p =? 1) <$> res_ok (lookup_and_convert_int d PRIVATE_KEY).
Definition parse_name d : ParseResult (list Z) := lookup_and_convert_str d NAME_KEY.
Definition parse_files_list d : ParseResult (list B) := lookup_and_convert_list d FILES_KEY.

Definition parse_file_dict (file_bencode : B) : ParseResult (list (list Z * B)) := convert_dict file_bencode FILES_KEY.
Definition parse_length d : ParseResult Z := let? len := lookup_and_convert_int d LENGTH_KEY in Ok (as_u64 len).
Definition parse_md5sum d : option (list Z) := res_ok (lookup_and_convert_bytes d MD5SUM_KEY).
Definition parse_path_list d : ParseResult (list B) := lookup_and_convert_list d PATH_KEY.
Definition parse_path_str (path_bencode : B) : ParseResult (list Z) := convert_str path_bencode PATH_KEY.

(** ** Files *)

Definition as_single_file d : ParseResult MetaFile :=
  let? length := parse_length d in
  let md5sum := parse_md5sum d in
  let? name := parse_name d in
  Ok (mkMetaFile length name md5sum).

Fixpoint push_path_strs (path_buf : list Z) (l : list B) : ParseResult (list Z) :=
  match l with
  | [] => Ok path_buf
  | path_bencode :: l =>
      let? path := parse_path_str path_bencode in
      push_path_strs (path_push path_buf path) l
  end.

Definition as_multi_file d : ParseResult MetaFile :=
  let? length := parse_length d in
  let md5sum := parse_md5sum d in
  let? path_list_bencode := parse_path_list d in
  let? path_buf := push_path_strs [] path_list_bencode in
  Ok (mkMetaFile length path_buf md5sum).

Fixpoint parse_files (files_bencode : list B) : ParseResult (list MetaFile) :=
  match files_bencode with
  | [] => Ok []
  | file_bencode :: l =>
      let? file_dict := parse_file_dict file_bencode in
      let? file := as_multi_file file_dict in
      let? files := parse_files l in
      Ok (file :: files)
  end.

(** ** The info dictionary *)

Definition is_multi_file_torrent d : bool := negb (is_ok (parse_length d)).

(** Each chunk is copied over the array that held the one before. *)
Fixpoint copy_chunks (hash_bytes : list Z) (l : list (list Z)) : list (list Z) :=
  match l with
  | [] => []
  | chunk :: l => let hash_bytes := zip_copy hash_bytes chunk in hash_bytes :: copy_chunks hash_bytes l
  end.

Definition allocate_pieces (pieces : list Z) : ParseResult (list (list Z)) :=
  if negb (length pieces mod SHA_HASH_LEN =? 0)%nat
  then Err (MissingData (bs "Piece Hash Length Of " ++ usize_to_string (Z.of_nat (length pieces)) ++ bs " Is Invalid"))
  else Ok (copy_chunks (replicate SHA_HASH_LEN 0) (chunks SHA_HASH_LEN pieces)).

Definition info_of_dict (info_hash : ShaHash) (info_dict : list (list Z * B)) : ParseResult Info :=
  let? piece_len := parse_piece_length info_dict in
  let is_private := parse_private info_dict in
  let? pieces := parse_pieces info_dict in
  let? piece_buffers := allocate_pieces pieces in
  if is_multi_file_torrent info_dict then
    let? file_directory := parse_name info_dict in
    let? files_bencode := parse_files_list info_dict in
    let? files_list := parse_files files_bencode in
    Ok (mkInfo info_hash files_list piece_buffers piece_len is_private (Some (path_push [] file_directory)))
  else
    let? file := as_single_file info_dict in
    Ok (mkInfo info_hash [file] piece_buffers piece_len is_private None).

End Fields.

(** ** Torrent files *)

Context (sha1 : list Z -> list Z).

Definition parse_info_dictionary (info_bencode : BencodeRef) : ParseResult Info :=
  let info_hash := ShaHash_from_bytes sha1 (ref_buffer info_bencode) in
  let? info_dict := parse_root_dict info_bencode in
  info_of_dict info_hash info_dict.

Definition parse_info_bytes (bytes : list Z) : ParseResult Info :=
  let? info_bencode := map_err (BencodeRef_decode bytes BDecodeOpt_default) BencodeParse in
  parse_info_dictionary info_bencode.
Definition Info_from_bytes (bytes : list Z) : ParseResult Info := parse_info_bytes bytes.

Definition parse_meta_bytes (bytes : list Z) : ParseResult Metainfo :=
  let? root_bencode := map_err (BencodeRef_decode bytes BDecodeOpt_default) BencodeParse in
  let? root_dict := parse_root_dict root_bencode in
  let announce := parse_announce_url root_dict in
  let opt_announce_list := convert_announce_list <$> parse_announce_list root_dict in
  let opt_comment := parse_comment root_dict in
  let opt_encoding := parse_encoding root_dict in
  let opt_created_by := parse_created_by root_dict in
  let opt_creation_date := parse_creation_date root_dict in
  let? info_bencode := parse_info_bencode root_dict in
  let? info := parse_info_dictionary info_bencode in
  Ok (mkMetainfo opt_comment announce opt_announce_list opt_encoding opt_created_by opt_creation_date info).
Definition Metainfo_from_bytes (bytes : list Z) : ParseResult Metainfo := parse_meta_bytes bytes.

End Parse.

Example parse_meta_sample : exists m,
  Metainfo_from_bytes (IoError := unit) (fun b => firstn 20 b)
    (bs "d8:announce3:url13:announce-listll1:aei5eli1e1:bee4:infod5:filesld6:lengthi7e4:pathl1:a1:beee4:name3:dir12:piece lengthi4e6:pieces20:01234567890123456789ee") = Ok m /\
  mi_announce m = Some (bs "url") /\ mi_announce_list m = Some [[bs "a"]; [bs "b"]] /\
  in_files (mi_info m) = [mkMetaFile 7 (bs "a/b") None] /\ in_file_directory (mi_info m) = Some (bs "dir").
Proof. vm_compute. eauto 10. Qed.
