(* ===== verification/MetainfoHasher.v ===== *)
(** * Hashing the pieces of a torrent

    Model of [metainfo/accessor.rs] (the traits, [PieceAccess] and [DirectAccessor]),
    [metainfo/builder/buffer.rs] and [metainfo/builder/worker.rs]. The master and the
    workers share a work queue, a queue of piece buffers and a channel; each thread is a
    state machine whose steps are the operations on shared state, so a run is an
    interleaving of steps. A thread that spins on an empty queue or waits on an empty
    channel has no step. *)

From S2P Require Import Prelude RustStd Words UtilSha.

(** ** Accessors *)

(** [Read::read] into a buffer of the given length. *)
Class Read (R IoError : Type) : Type := read : R -> nat -> IoError + (list Z * R).

Inductive PieceAccess (R : Type) : Type :=
| Compute (piece_region : R)
| PreComputed (hash : ShaHash).
Arguments Compute {R} piece_region.
Arguments PreComputed {R} hash.

(** What an accessor's methods pass to their callbacks, and the error they end with if
    the callbacks succeed. *)
Class Accessor (A R IoError : Type) : Type := {
  access_directory : A -> option (list Z);
  access_metadata : A -> list (Z * list Z) * option IoError;
  access_pieces : A -> list (PieceAccess R) * option IoError
}.

(** [Cursor] over a slice. *)
Definition Cursor : Type := list Z.
#[export] Instance Cursor_read IoError : Read Cursor IoError := fun c n => inr (take n c, drop n c).

Record DirectAccessor : Type := DirectAccessor_new { da_file_name : list Z; da_file_contents : list Z }.
#[export] Instance DirectAccessor_accessor IoError : Accessor DirectAccessor Cursor IoError := {|
  access_directory _ := None;
  access_metadata a := ([(Z.of_nat (length (da_file_contents a)), da_file_name a)], None);
  access_pieces a := ([Compute (da_file_contents a)], None)
|}.

(** ** Piece buffers *)

Record PieceBuffer : Type := mkPieceBuffer { pb_buffer : list Z; pb_bytes_read : nat }.

(** [isize::MAX]: a larger vector is a capacity overflow. *)
Definition MAX_CAPACITY : Z := 2 ^ 63 - 1.

Definition PieceBuffer_new {E} (piece_length : Z) : res E PieceBuffer :=
  if MAX_CAPACITY <? piece_length then Panic else Ok (mkPieceBuffer (replicate (Z.to_nat piece_length) 0) 0).

Definition TOTAL_BUFFERS_MULTIPLICATIVE : nat := 2.
Definition TOTAL_BUFFERS_ADDITIVE : nat := 0.
Definition calculate_total_buffers (num_workers : nat) : nat :=
  (num_workers * TOTAL_BUFFERS_MULTIPLICATIVE + TOTAL_BUFFERS_ADDITIVE)%nat.

(** The queue of free buffers, oldest first. *)
Definition PieceBuffers : Type := list PieceBuffer.
Definition PieceBuffers_new {E} (piece_length : Z) (num_workers : nat) : res E PieceBuffers :=
  match calculate_total_buffers num_workers with
  | O => Ok []
  | S n => let? b := PieceBuffer_new piece_length in Ok (replicate (S n) b)
  end.
Definition PieceBuffers_checkin (buffer : PieceBuffer) (q : PieceBuffers) : PieceBuffers := q ++ [mkPieceBuffer (pb_buffer buffer) 0].
Definition PieceBuffers_checkout (q : PieceBuffers) : option (PieceBuffer * PieceBuffers) :=
  match q with [] => None | b :: q => Some (b, q) end.

Definition is_whole (b : PieceBuffer) : bool := (pb_bytes_read b =? length (pb_buffer b))%nat.
Definition is_empty (b : PieceBuffer) : bool := (pb_bytes_read b =? 0)%nat.
Definition as_slice (b : PieceBuffer) : list Z := take (pb_bytes_read b) (pb_buffer b).

Section Hasher.
Context {R IoError : Type} `{HR : Read R IoError}.
Context (sha1 : list Z -> list Z).

(** [write_bytes] with the callback [|buffer| piece_region.read(buffer)]: the bytes read
    are stored behind those already there. *)
Definition write_bytes (b : PieceBuffer) (piece_region : R) : IoError + (nat * PieceBuffer * R) :=
  match read piece_region (length (pb_buffer b) - pb_bytes_read b) with
  | inl e => inl e
  | inr (d, r) =>
      let n := length d in
      inr (n, mkPieceBuffer (take (pb_bytes_read b) (pb_buffer b) ++ d ++ drop (pb_bytes_read b + n) (pb_buffer b))
                (pb_bytes_read b + n), r)
  end.

(** ** Messages and threads *)

Inductive MasterMessage : Type := AcceptPiece (index : nat) (piece : ShaHash) | WorkerFinished.
Inductive WorkerMessage : Type := HashPiece (index : nat) (buffer : PieceBuffer) | Finish.

(** Where a worker is in its loop: about to pop, about to send a hash, about to return
    the buffer, about to report that it ends, ended. *)
Inductive Worker : Type :=
| WPop
| WHash (index : nat) (buffer : PieceBuffer)
| WCheckin (buffer : PieceBuffer)
| WFinish
| WDone.

(** Where the master is: before the next access with the partial buffer it saved, waiting
    for a buffer (with [end_of_region], and whether a piece was just queued), reading a
    region, queueing [Finish] messages, collecting hashes, returned. *)
Inductive Master : Type :=
| MNext (accesses : list (PieceAccess R)) (opt_piece_buffer : option PieceBuffer)
| MTake (piece_region : R) (end_of_region queued : bool) (accesses : list (PieceAccess R))
| MRead (piece_region : R) (curr_piece_buffer : PieceBuffer) (accesses : list (PieceAccess R))
| MFinish (to_stop : nat)
| MCollect (workers_finished : nat)
| MDone (pieces : list (nat * ShaHash))
| MFailed (e : IoError).

Record Hasher : Type := mkHasher {
  hs_master : Master;
  hs_work : list WorkerMessage;
  hs_buffers : PieceBuffers;
  hs_workers : list Worker;
  hs_chan : list MasterMessage;
  hs_pieces : list (nat * ShaHash);
  hs_index : nat;
  hs_progress : list nat
}.

(** [pieces.sort_by(|one, two| one.0.cmp(&two.0))]. *)
Fixpoint insert_piece (p : nat * ShaHash) (l : list (nat * ShaHash)) : list (nat * ShaHash) :=
  match l with
  | [] => [p]
  | q :: l => if (fst p <=? fst q)%nat then p :: q :: l else q :: insert_piece p l
  end.
Definition sort_pieces (l : list (nat * ShaHash)) : list (nat * ShaHash) := foldr insert_piece [] l.

(** ** The master *)

Context (num_workers : nat) (access_end : option IoError).

(** After the accesses: the accessor's own error, or the partial piece left over. *)
Definition master_accessed (opt_piece_buffer : option PieceBuffer) (s : Hasher) : Hasher :=
  match access_end with
  | Some e => mkHasher (MFailed e) (hs_work s) (hs_buffers s) (hs_workers s) (hs_chan s) (hs_pieces s) (hs_index s) (hs_progress s)
  | None =>
      match opt_piece_buffer with
      | Some piece_buffer =>
          if is_empty piece_buffer
          then mkHasher (MFinish num_workers) (hs_work s) (hs_buffers s) (hs_workers s) (hs_chan s) (hs_pieces s) (hs_index s) (hs_progress s)
          else mkHasher (MFinish num_workers) (hs_work s ++ [HashPiece (hs_index s) piece_buffer]) (hs_buffers s) (hs_workers s) (hs_chan s)
                 (hs_pieces s) (hs_index s + 1) (hs_progress s ++ [hs_index s + 1])%nat
      | None => mkHasher (MFinish num_workers) (hs_work s) (hs_buffers s) (hs_workers s) (hs_chan s) (hs_pieces s) (hs_index s) (hs_progress s)
      end
  end.

(** One [write_bytes] of the loop over a region. *)
Definition master_read (piece_region : R) (curr_piece_buffer : PieceBuffer) (accesses : list (PieceAccess R)) (s : Hasher) : Hasher :=
  match write_bytes curr_piece_buffer piece_region with
  | inl e => mkHasher (MFailed e) (hs_work s) (hs_buffers s) (hs_workers s) (hs_chan s) (hs_pieces s) (hs_index s) (hs_progress s)
  | inr (n, buffer, region) =>
      let end_of_region := (n =? 0)%nat in
      if is_whole buffer
      then mkHasher (MTake region end_of_region true accesses) (hs_work s ++ [HashPiece (hs_index s) buffer]) (hs_buffers s) (hs_workers s)
             (hs_chan s) (hs_pieces s) (hs_index s + 1) (hs_progress s)
      else mkHasher (if end_of_region then MNext accesses (Some buffer) else MRead region buffer accesses)
             (hs_work s) (hs_buffers s) (hs_workers s) (hs_chan s) (hs_pieces s) (hs_index s) (hs_progress s)
  end.

Definition master_step (s : Hasher) : option Hasher :=
  match hs_master s with
  | MNext [] opt_piece_buffer => Some (master_accessed opt_piece_buffer s)
  | MNext (Compute piece_region :: accesses) (Some piece_buffer) =>
      Some (mkHasher (MRead piece_region piece_buffer accesses) (hs_work s) (hs_buffers s) (hs_workers s) (hs_chan s) (hs_pieces s) (hs_index s) (hs_progress s))
  | MNext (Compute piece_region :: accesses) None =>
      Some (mkHasher (MTake piece_region false false accesses) (hs_work s) (hs_buffers s) (hs_workers s) (hs_chan s) (hs_pieces s) (hs_index s) (hs_progress s))
  | MNext (PreComputed hash :: accesses) opt_piece_buffer =>
      Some (mkHasher (MNext accesses opt_piece_buffer) (hs_work s) (hs_buffers s) (hs_workers s) (hs_chan s)
              (hs_pieces s ++ [(hs_index s, hash)]) (hs_index s + 1) (hs_progress s))
  | MTake piece_region end_of_region queued accesses =>
      match PieceBuffers_checkout (hs_buffers s) with
      | Some (buffer, buffers) =>
          Some (mkHasher (if end_of_region then MNext accesses (Some buffer) else MRead piece_region buffer accesses)
                  (hs_work s) buffers (hs_workers s) (hs_chan s) (hs_pieces s) (hs_index s)
                  (if queued then hs_progress s ++ [hs_index s] else hs_progress s))
      | None => None
      end
  | MRead piece_region curr_piece_buffer accesses => Some (master_read piece_region curr_piece_buffer accesses s)
  | MFinish (S to_stop) =>
      Some (mkHasher (MFinish to_stop) (hs_work s ++ [Finish]) (hs_buffers s) (hs_workers s) (hs_chan s) (hs_pieces s) (hs_index s) (hs_progress s))
  | MFinish O =>
      Some (mkHasher (MCollect 0) (hs_work s) (hs_buffers s) (hs_workers s) (hs_chan s) (hs_pieces s) (hs_index s) (hs_progress s))
  | MCollect workers_finished =>
      if (workers_finished <? num_workers)%nat then
        match hs_chan s with
        | AcceptPiece index piece :: chan =>
            Some (mkHasher (MCollect workers_finished) (hs_work s) (hs_buffers s) (hs_workers s) chan
                    (hs_pieces s ++ [(index, piece)]) (hs_index s) (hs_progress s))
        | WorkerFinished :: chan =>
            Some (mkHasher (MCollect (workers_finished + 1)) (hs_work s) (hs_buffers s) (hs_workers s) chan (hs_pieces s) (hs_index s) (hs_progress s))
        | [] => None
        end
      else Some (mkHasher (MDone (sort_pieces (hs_pieces s))) (hs_work s) (hs_buffers s) (hs_workers s) (hs_chan s) (hs_pieces s) (hs_index s) (hs_progress s))
  | MDone _ | MFailed _ => None
  end.

(** ** The workers *)

Definition worker_step (i : nat) (s : Hasher) : option Hasher :=
  match hs_workers s !! i with
  | Some WPop =>
      match hs_work s with
      | HashPiece index buffer :: work =>
          Some (mkHasher (hs_master s) work (hs_buffers s) (<[i := WHash index buffer]> (hs_workers s)) (hs_chan s) (hs_pieces s) (hs_index s) (hs_progress s))
      | Finish :: work =>
          Some (mkHasher (hs_master s) work (hs_buffers s) (<[i := WFinish]> (hs_workers s)) (hs_chan s) (hs_pieces s) (hs_index s) (hs_progress s))
      | [] => None
      end
  | Some (WHash index buffer) =>
      Some (mkHasher (hs_master s) (hs_work s) (hs_buffers s) (<[i := WCheckin buffer]> (hs_workers s))
              (hs_chan s ++ [AcceptPiece index (ShaHash_from_bytes sha1 (as_slice buffer))]) (hs_pieces s) (hs_index s) (hs_progress s))
  | Some (WCheckin buffer) =>
      Some (mkHasher (hs_master s) (hs_work s) (PieceBuffers_checkin buffer (hs_buffers s)) (<[i := WPop]> (hs_workers s)) (hs_chan s) (hs_pieces s) (hs_index s) (hs_progress s))
  | Some WFinish =>
      Some (mkHasher (hs_master s) (hs_work s) (hs_buffers s) (<[i := WDone]> (hs_workers s)) (hs_chan s ++ [WorkerFinished]) (hs_pieces s) (hs_index s) (hs_progress s))
  | Some WDone | None => None
  end.

(** Thread 0 is the master. *)
Definition thread_step (t : nat) (s : Hasher) : option Hasher :=
  match t with O => master_step s | S i => worker_step i s end.

Definition hstep (s s' : Hasher) : Prop := exists t, thread_step t s = Some s'.

(** ** Runs *)

Definition enabled (s : Hasher) : list nat :=
  List.filter (fun t => bool_decide (is_Some (thread_step t s))) (seq 0 (S (length (hs_workers s)))).

(** The scheduler picks one of the threads that have a step. *)
Fixpoint run_hasher (fuel : nat) (sched : nat -> nat) (s : Hasher) : res IoError (list (nat * ShaHash)) :=
  match hs_master s with
  | MDone pieces => Ok pieces
  | MFailed e => Err e
  | _ =>
      match fuel with
      | O => OutOfFuel
      | S fuel =>
          match enabled s !! (sched fuel mod length (enabled s))%nat with
          | Some t => match thread_step t s with Some s => run_hasher fuel sched s | None => OutOfFuel end
          | None => OutOfFuel
          end
      end
  end.

End Hasher.

#[export] Instance PieceBuffer_eq_dec : EqDecision PieceBuffer.
Proof. solve_decision. Defined.
#[export] Instance WorkerMessage_eq_dec : EqDecision WorkerMessage.
Proof. solve_decision. Defined.
#[export] Instance Worker_eq_dec : EqDecision Worker.
Proof. solve_decision. Defined.

Arguments Master R IoError : clear implicits.
Arguments Hasher R IoError : clear implicits.

Section Start.
Context {A R IoError : Type} `{HR : Read R IoError} `{HA : Accessor A R IoError}.
Context (sha1 : list Z -> list Z).

(** The state in which the threads start. *)
Definition hasher_start (accesses : list (PieceAccess R)) (buffers : PieceBuffers) (num_workers : nat) : Hasher R IoError :=
  mkHasher (MNext accesses None) [] buffers (replicate num_workers WPop) [] [] 0 [].

Definition start_hasher_workers (fuel : nat) (sched : nat -> nat) (accessor : A) (piece_length : Z) (num_workers : nat)
    : res IoError (list (nat * ShaHash)) :=
  let? buffers := PieceBuffers_new piece_length num_workers in
  let '(accesses, access_end) := access_pieces accessor in
  run_hasher sha1 num_workers access_end fuel sched (hasher_start accesses buffers num_workers).

End Start.

Example hash_sample : forall b : bool,
  start_hasher_workers (IoError := unit) (fun b => b) 100 (fun n => if b then n else 1%nat) (DirectAccessor_new (bs "f") (bs "0123456789abcdefghijABCDEFGHIJKLMNOPQRSTU")) 20 2 =
  Ok [(0%nat, mkShaHash (bs "0123456789abcdefghij")); (1%nat, mkShaHash (bs "ABCDEFGHIJKLMNOPQRST"));
      (2%nat, mkShaHash (bs "U" ++ replicate 19 0))].
Proof. intros []; vm_compute; reflexivity. Qed.
