(* ===== verification/MetainfoHasherInv.v ===== *)
(** * Hashing the pieces of a torrent: the invariant of the threads

    The sequential reading of a torrent's accesses ([accesses_ref]), the invariant that
    ties every interleaving of the master and the workers to it, and the measure that
    every step decreases. *)

From Stdlib Require Import Permutation.
From S2P Require Import Prelude RustStd Words UtilSha MetainfoHasher.

(** What a reader promises: the bytes it returns are the next of a finite rest, no more
    than were asked for, and none only at the end. *)
Class ReadLaws (R IoError : Type) `{HR : Read R IoError} : Type := {
  remaining : R -> list Z;
  read_takes (r : R) n d (r' : R) : read r n = inr (d, r') -> (length d <= n)%nat /\ remaining r = d ++ remaining r';
  read_end (r : R) n (r' : R) : read r n = inr ([], r') -> (0 < n)%nat -> remaining r = []
}.

#[export] Instance Cursor_laws IoError : ReadLaws Cursor IoError.
Proof.
  refine {| remaining := fun c : Cursor => c |}.
  - intros r n d r' [= <- <-]. split; [rewrite length_take; lia|by rewrite take_drop].
  - intros r n r' [= Ht <-] Hn. destruct r as [|x r]; [done|]. by destruct n; [lia|].
Defined.

(** ** Permutations by counting *)

Ltac perm_count :=
  apply (Permutation_count_occ (decide_rel (=)));
  let z := fresh "z" in intros z;
  repeat match goal with
  | H : Permutation _ _ |- _ => rewrite (Permutation_count_occ (decide_rel (=))) in H; specialize (H z)
  end;
  rewrite ?count_occ_app in *; change (count_occ (decide_rel (=)) [] z) with 0%nat in *; lia.

Definition maybe_list {A} (o : option A) : list A := match o with Some x => [x] | None => [] end.

Section Counting.
Context {A : Type}.
Implicit Types (p : A -> bool) (l : list A).

Definition count p l : nat := length (List.filter p l).

Lemma count_app p l k : count p (l ++ k) = (count p l + count p k)%nat.
Proof. unfold count. by rewrite List.filter_app, length_app. Qed.
Lemma count_cons p x l : count p (x :: l) = (Nat.b2n (p x) + count p l)%nat.
Proof. unfold count. cbn [List.filter]. by destruct (p x). Qed.
Lemma count_le p l : (count p l <= length l)%nat.
Proof. unfold count. apply List.filter_length_le. Qed.
Lemma count_none p l : count p l = 0%nat <-> Forall (fun x => p x = false) l.
Proof.
  induction l as [|x l IH]; [done|]. rewrite count_cons, Forall_cons, <- IH. destruct (p x); cbn; intuition lia.
Qed.
Lemma count_all p l : count p l = length l <-> Forall (fun x => p x = true) l.
Proof.
  induction l as [|x l IH]; [done|]. rewrite count_cons, Forall_cons, <- IH. cbn [length]. pose proof (count_le p l). destruct (p x); cbn; intuition lia.
Qed.
Lemma count_perm p l k : l ≡ₚ k -> count p l = count p k.
Proof. induction 1; rewrite ?count_cons; lia. Qed.
Lemma count_insert p l i x y : l !! i = Some x -> (count p (<[i := y]> l) + Nat.b2n (p x) = count p l + Nat.b2n (p y))%nat.
Proof.
  intros Hi. pose proof (lookup_lt_Some _ _ _ Hi) as Hl. rewrite insert_take_drop by done.
  rewrite <- (take_drop_middle l i x Hi) at 3. rewrite !count_app, !count_cons. lia.
Qed.

(** One element of a list changes. *)
Lemma omap_insert_perm {B} (f : A -> option B) l i x y : l !! i = Some x ->
  maybe_list (f x) ++ omap f (<[i := y]> l) ≡ₚ maybe_list (f y) ++ omap f l.
Proof.
  intros Hi. pose proof (lookup_lt_Some _ _ _ Hi) as Hl. rewrite insert_take_drop by done.
  rewrite <- (take_drop_middle l i x Hi) at 3. rewrite !omap_app. cbn [omap list_omap].
  assert (Hc : forall o (k : list B), match o with Some b => b :: k | None => k end = maybe_list o ++ k) by (by intros []).
  rewrite !Hc. rewrite (Permutation_app_swap_app (omap f (take i l)) (maybe_list (f y))).
  rewrite (Permutation_app_swap_app (omap f (take i l)) (maybe_list (f x))). apply Permutation_app_swap_app.
Qed.

Lemma Forall_insert_1 (P : A -> Prop) l i y : Forall P l -> P y -> Forall P (<[i := y]> l).
Proof. intros. by apply Forall_insert. Qed.

End Counting.

(** ** The sequential reading *)

Section Reference.
Context {R IoError : Type} `{HR : Read R IoError} {RL : ReadLaws R IoError}.
Context (sha1 : list Z -> list Z) (pl : nat) (num_workers : nat) (access_end : option IoError).
Implicit Types (r : R) (accs : list (PieceAccess R)).

Abbreviation digest := (ShaHash_from_bytes sha1).

(** The whole pieces a region completes, given the bytes of a piece begun before it,
    then the bytes of the piece it leaves begun or the error that stops it. *)
Fixpoint region_ref (fuel : nat) r (partial : list Z) : list (list Z) * (IoError + list Z) :=
  match fuel with
  | O => ([], inr partial)
  | S fuel =>
      match read r (pl - length partial) with
      | inl e => ([], inl e)
      | inr (d, r') =>
          let b := partial ++ d in
          let '(out, p) := if (length b =? pl)%nat then ([b], []) else ([], b) in
          if (length d =? 0)%nat then (out, inr p)
          else let '(more, last) := region_ref fuel r' p in (out ++ more, last)
      end
  end.

(** A read of a byte or more shortens the rest. *)
Definition region_fuel r : nat := S (length (remaining r)).
Definition region r (partial : list Z) : list (list Z) * (IoError + list Z) := region_ref (region_fuel r) r partial.

Definition after_region (reg : list (list Z) * (IoError + list Z)) (k : list Z -> list ShaHash * option IoError)
    : list ShaHash * option IoError :=
  let '(out, last) := reg in
  match last with
  | inl e => (map digest out, Some e)
  | inr p => let '(hs, e) := k p in (map digest out ++ hs, e)
  end.

(** The hashes of a list of accesses, and the error they end with. *)
Fixpoint accesses_ref accs (partial : option (list Z)) : list ShaHash * option IoError :=
  match accs with
  | [] =>
      match access_end with
      | Some e => ([], Some e)
      | None => match partial with
                | Some (b :: p) => ([digest (b :: p)], None)
                | _ => ([], None)
                end
      end
  | PreComputed h :: accs => let '(hs, e) := accesses_ref accs partial in (h :: hs, e)
  | Compute r :: accs => after_region (region r (default [] partial)) (fun p => accesses_ref accs (Some p))
  end.

Lemma region_ref_fuel f f' r p : (length (remaining r) < f)%nat -> (length (remaining r) < f')%nat -> region_ref f r p = region_ref f' r p.
Proof.
  revert f' r p. induction f as [|f IH]; intros [|f'] r p H1 H2; try lia. cbn [region_ref].
  destruct (read r (pl - length p)) as [e|[d r']] eqn:E; [done|]. apply read_takes in E as [_ Hrem].
  destruct (if (length (p ++ d) =? pl)%nat then _ else _) as [out q]. destruct (Nat.eqb_spec (length d) 0); [done|].
  rewrite (IH f' r' q); [done| |]; rewrite Hrem, length_app in *; lia.
Qed.

(** One read of a region. *)
Lemma region_step r p : region r p =
  match read r (pl - length p) with
  | inl e => ([], inl e)
  | inr (d, r') =>
      let '(out, q) := if (length (p ++ d) =? pl)%nat then ([p ++ d], []) else ([], p ++ d) in
      if (length d =? 0)%nat then (out, inr q) else let '(more, last) := region r' q in (out ++ more, last)
  end.
Proof.
  unfold region at 1, region_fuel. cbn [region_ref]. destruct (read r (pl - length p)) as [e|[d r']] eqn:E; [done|]. apply read_takes in E as [_ Hrem].
  destruct (if (length (p ++ d) =? pl)%nat then _ else _) as [out q]. destruct (Nat.eqb_spec (length d) 0); [done|].
  unfold region, region_fuel. rewrite (region_ref_fuel _ (S (length (remaining r')))); [done| |lia]. rewrite Hrem, length_app. lia.
Qed.

Lemma after_region_app out reg k :
  after_region (let '(more, last) := reg in (out ++ more, last)) k =
  let '(hs, e) := after_region reg k in (map digest out ++ hs, e).
Proof.
  destruct reg as [more [e|p]]; cbn; rewrite map_app; [done|]. destruct (k p). by rewrite app_assoc.
Qed.

(** ** Buffers *)

Definition pb_ok (b : PieceBuffer) : Prop := length (pb_buffer b) = pl /\ (pb_bytes_read b <= pl)%nat.
Definition pb_free (b : PieceBuffer) : Prop := length (pb_buffer b) = pl /\ pb_bytes_read b = 0%nat.

Lemma pb_free_ok b : pb_free b -> pb_ok b.
Proof. intros [? ?]. split; lia. Qed.
Lemma pb_free_slice b : pb_free b -> as_slice b = [].
Proof. intros [_ H]. unfold as_slice. by rewrite H. Qed.
Lemma length_as_slice b : pb_ok b -> length (as_slice b) = pb_bytes_read b.
Proof. intros [Hl Hr]. unfold as_slice. rewrite length_take. lia. Qed.

Lemma write_bytes_spec b r : pb_ok b ->
  match write_bytes b r with
  | inl e => read r (pl - length (as_slice b)) = inl e
  | inr (n, b', r') => exists d, read r (pl - length (as_slice b)) = inr (d, r') /\ n = length d /\
      as_slice b' = as_slice b ++ d /\ pb_ok b' /\ is_whole b' = (length (as_slice b') =? pl)%nat
  end.
Proof.
  intros Hb. pose proof (length_as_slice b Hb) as Hs. destruct Hb as [Hl Hr]. unfold write_bytes. rewrite Hl, Hs.
  destruct (read r (pl - pb_bytes_read b)) as [e|[d r']] eqn:E; [done|]. exists d. split; [done|]. split; [done|].
  apply read_takes in E as [Hd _]. assert (Hpre : length (take (pb_bytes_read b) (pb_buffer b)) = pb_bytes_read b) by (rewrite length_take; lia).
  assert (Hok : pb_ok (mkPieceBuffer (take (pb_bytes_read b) (pb_buffer b) ++ d ++ drop (pb_bytes_read b + length d) (pb_buffer b))
                         (pb_bytes_read b + length d))).
  { split; cbn; [|lia]. rewrite !length_app, length_drop. lia. }
  split_and!; [|done|].
  - unfold as_slice. cbn [pb_buffer pb_bytes_read]. rewrite app_assoc, take_app_le by (rewrite length_app; lia).
    rewrite take_ge by (rewrite length_app; lia). done.
  - rewrite length_as_slice by done. unfold is_whole. by destruct Hok as [-> _].
Qed.

End Reference.

(** * Hashing the pieces of a torrent: all interleavings

    The invariant of [MetainfoHasher] over every reachable state, that some thread can
    always step until the master returns, and that every step decreases a measure. *)

Definition is_finish (m : WorkerMessage) : bool := match m with Finish => true | _ => false end.
Definition is_worker_finished (m : MasterMessage) : bool := match m with WorkerFinished => true | _ => false end.
(** A worker that has taken its [Finish], one that has ended, one that has a buffer. *)
Definition ending (w : Worker) : bool := match w with WFinish | WDone => true | _ => false end.
Definition ended (w : Worker) : bool := match w with WDone => true | _ => false end.
Definition holding (w : Worker) : bool := match w with WHash _ _ | WCheckin _ => true | _ => false end.

Definition accepted (m : MasterMessage) : option (nat * ShaHash) := match m with AcceptPiece i h => Some (i, h) | _ => None end.

Lemma omap_snoc {A B} (f : A -> option B) l x : omap f (l ++ [x]) = omap f l ++ maybe_list (f x).
Proof. rewrite omap_app. cbn. by destruct (f x). Qed.
Lemma omap_cons_list {A B} (f : A -> option B) x l : omap f (x :: l) = maybe_list (f x) ++ omap f l.
Proof. cbn. by destruct (f x). Qed.

Section Inv.
Context {R IoError : Type} `{HR : Read R IoError} {RL : ReadLaws R IoError}.
Context (sha1 : list Z -> list Z) (pl : nat) (num_workers : nat) (access_end : option IoError).
Implicit Types (s : Hasher R IoError) (work : list WorkerMessage) (ws : list Worker) (chan : list MasterMessage) (m : Master R IoError).

Abbreviation digest := (ShaHash_from_bytes sha1).
Abbreviation refs := (accesses_ref sha1 pl access_end).

(** ** The hashes on their way *)

Definition queued (w : WorkerMessage) : option (nat * ShaHash) := match w with HashPiece i b => Some (i, digest (as_slice b)) | Finish => None end.
Definition in_hand (w : Worker) : option (nat * ShaHash) := match w with WHash i b => Some (i, digest (as_slice b)) | _ => None end.

Definition jobs s : list (nat * ShaHash) :=
  hs_pieces s ++ omap accepted (hs_chan s) ++ omap in_hand (hs_workers s) ++ omap queued (hs_work s).

(** What the master will still add to them. *)
Definition future m : list ShaHash * option IoError :=
  match m with
  | MNext accs opt => refs accs (as_slice <$> opt)
  | MTake r eor _ accs => if eor then refs accs (Some []) else after_region sha1 (region pl r []) (fun p => refs accs (Some p))
  | MRead r b accs => after_region sha1 (region pl r (as_slice b)) (fun p => refs accs (Some p))
  | MFinish _ | MCollect _ | MDone _ => ([], None)
  | MFailed e => ([], Some e)
  end.

(** ** The phases of a run *)

Definition held m : nat := match m with MNext _ (Some _) | MRead _ _ _ => 1 | _ => 0 end.
Definition master_buf_ok m : Prop := match m with MNext _ (Some b) | MRead _ b _ => pb_ok pl b | _ => True end.

Definition work_ok (w : WorkerMessage) : Prop := match w with HashPiece _ b => pb_ok pl b | Finish => True end.
Definition hand_ok (w : Worker) : Prop := match w with WHash _ b | WCheckin b => pb_ok pl b | _ => True end.

(** [Finish] messages follow all pieces, each worker takes one, and its report is the
    last it sends. *)
Record stopping (pushed f : nat) work ws chan : Prop := {
  st_work : exists hs j, work = hs ++ replicate j Finish /\ count is_finish hs = 0%nat /\ (j + count ending ws = pushed)%nat /\
              ((0 < count ending ws)%nat -> hs = []);
  st_reports : (f + count is_worker_finished chan = count ended ws)%nat;
  st_last : count ended ws = length ws -> chan = [] \/ last chan = Some WorkerFinished
}.

Definition phase m work (bufs : PieceBuffers) ws chan : Prop :=
  match m with
  | MNext _ _ | MTake _ _ _ _ | MRead _ _ _ =>
      count is_finish work = 0%nat /\ count ending ws = 0%nat /\ count is_worker_finished chan = 0%nat /\
      (length bufs + length work + count holding ws + held m = calculate_total_buffers num_workers)%nat
  | MFinish k => (k <= num_workers)%nat /\ stopping (num_workers - k) 0 work ws chan
  | MCollect f => (f <= num_workers)%nat /\ stopping num_workers f work ws chan
  | MDone _ => True
  | MFailed _ => count is_finish work = 0%nat /\ count ending ws = 0%nat /\ count is_worker_finished chan = 0%nat /\ True
  end.

Definition numbered (l : list ShaHash) : list (nat * ShaHash) := zip (seq 0 (length l)) l.

Record hinv (total : list ShaHash * option IoError) s : Prop := {
  hi_workers : length (hs_workers s) = num_workers;
  hi_jobs : exists done, jobs s ≡ₚ numbered done /\ hs_index s = length done /\
              (done ++ fst (future (hs_master s)), snd (future (hs_master s))) = total;
  hi_free : Forall (pb_free pl) (hs_buffers s);
  hi_work : Forall work_ok (hs_work s);
  hi_hands : Forall hand_ok (hs_workers s);
  hi_buf : master_buf_ok (hs_master s);
  hi_phase : phase (hs_master s) (hs_work s) (hs_buffers s) (hs_workers s) (hs_chan s);
  hi_result : forall ps, hs_master s = MDone ps -> ps = numbered (fst total)
}.

(** ** Steps of a worker *)

Lemma ended_ending ws : (count ended ws <= count ending ws)%nat.
Proof. induction ws as [|w ws IH]; [done|]. rewrite !count_cons. destruct w; cbn; lia. Qed.

Ltac worker_counts Hi y :=
  let H1 := fresh "Hce" in let H2 := fresh "Hcd" in let H3 := fresh "Hch" in
  pose proof (count_insert ending _ _ _ y Hi) as H1; pose proof (count_insert ended _ _ _ y Hi) as H2;
  pose proof (count_insert holding _ _ _ y Hi) as H3; cbn in H1, H2, H3.

(** Taking a piece from the queue. *)
Lemma phase_pop m i b work bufs ws chan k : ws !! k = Some WPop ->
  phase m (HashPiece i b :: work) bufs ws chan -> phase m work bufs (<[k := WHash i b]> ws) chan.
Proof.
  intros Hi. worker_counts Hi (WHash i b).
  assert (Hstop : forall p f, stopping p f (HashPiece i b :: work) ws chan -> stopping p f work (<[k := WHash i b]> ws) chan).
  { intros p f [(hs & j & Hw & Hn & Hj & He) Hr Hl]. split; [|lia|rewrite length_insert; intros; apply Hl; lia].
    destruct hs as [|h hs]; [by destruct j|]. injection Hw as <- ->. exists hs, j. rewrite count_cons in Hn.
    split_and!; [done|lia|lia|]. intros. discriminate He. lia. }
  destruct m; cbn [phase]; try done; try (by intros []; split; auto).
  all: rewrite count_cons; cbn; intros (? & ? & ? & ?); split_and!; try done; lia.
Qed.

(** Taking a [Finish]. *)
Lemma phase_pop_finish m work bufs ws chan k : ws !! k = Some WPop ->
  phase m (Finish :: work) bufs ws chan -> phase m work bufs (<[k := WFinish]> ws) chan.
Proof.
  intros Hi. worker_counts Hi WFinish.
  assert (Hstop : forall p f, stopping p f (Finish :: work) ws chan -> stopping p f work (<[k := WFinish]> ws) chan).
  { intros p f [(hs & j & Hw & Hn & Hj & He) Hr Hl]. split; [|lia|rewrite length_insert; intros; apply Hl; lia].
    destruct hs as [|h hs]; [|injection Hw as <- _; by rewrite count_cons in Hn].
    destruct j as [|j]; [done|]. injection Hw as ->. exists [], j. split_and!; try done. lia. }
  destruct m; cbn [phase]; try done; try (by intros []; split; auto).
  all: rewrite count_cons; cbn; intros (? & _); done.
Qed.

(** Sending a hash. *)
Lemma phase_send m i b h work bufs ws chan k : ws !! k = Some (WHash i b) ->
  phase m work bufs ws chan -> phase m work bufs (<[k := WCheckin b]> ws) (chan ++ [AcceptPiece i h]).
Proof.
  intros Hi. worker_counts Hi (WCheckin b).
  assert (Hnd : count ended ws <> length ws).
  { intros Ha%count_all. rewrite Forall_lookup in Ha. by apply Ha in Hi. }
  assert (Hstop : forall p f, stopping p f work ws chan -> stopping p f work (<[k := WCheckin b]> ws) (chan ++ [AcceptPiece i h])).
  { intros p f [(hs & j & Hw & Hn & Hj & He) Hr Hl]. split; [|rewrite count_app; cbn; lia|rewrite length_insert; intros; lia].
    exists hs, j. split_and!; try done; [lia|]. intros. apply He. lia. }
  destruct m; cbn [phase]; try done; try (by intros []; split; auto).
  all: rewrite count_app; cbn; intros (? & ? & ? & ?); split_and!; try done; lia.
Qed.

(** Returning a buffer. *)
Lemma phase_checkin m b work bufs ws chan k : ws !! k = Some (WCheckin b) ->
  phase m work bufs ws chan -> phase m work (PieceBuffers_checkin b bufs) (<[k := WPop]> ws) chan.
Proof.
  intros Hi. worker_counts Hi WPop.
  assert (Hstop : forall p f, stopping p f work ws chan -> stopping p f work (<[k := WPop]> ws) chan).
  { intros p f [(hs & j & Hw & Hn & Hj & He) Hr Hl]. split; [|lia|rewrite length_insert; intros; apply Hl; lia].
    exists hs, j. split_and!; try done; [lia|]. intros. apply He. lia. }
  destruct m; cbn [phase]; try done; try (by intros []; split; auto).
  all: unfold PieceBuffers_checkin; rewrite ?length_app; cbn; intros (? & ? & ? & ?); split_and!; try done; lia.
Qed.

(** Reporting the end. *)
Lemma phase_end m work bufs ws chan k : ws !! k = Some WFinish ->
  phase m work bufs ws chan -> phase m work bufs (<[k := WDone]> ws) (chan ++ [WorkerFinished]).
Proof.
  intros Hi. worker_counts Hi WDone.
  assert (Hpos : (0 < count ending ws)%nat).
  { destruct (count ending ws) eqn:E; [|lia]. apply count_none in E. rewrite Forall_lookup in E. by apply E in Hi. }
  assert (Hstop : forall p f, stopping p f work ws chan -> stopping p f work (<[k := WDone]> ws) (chan ++ [WorkerFinished])).
  { intros p f [(hs & j & Hw & Hn & Hj & He) Hr Hl]. split; [|rewrite count_app; cbn; lia|intros _; right; apply last_snoc].
    exists hs, j. split_and!; try done; [lia|]. intros. apply He. lia. }
  destruct m; cbn [phase]; try done; try (by intros []; split; auto).
  all: intros (? & ? & ? & ?); lia.
Qed.

(** ** A step of a worker keeps the invariant *)

Lemma worker_frame total s s' i y : hinv total s ->
  hs_master s' = hs_master s -> hs_index s' = hs_index s -> hs_workers s' = <[i := y]> (hs_workers s) -> hand_ok y ->
  Forall (pb_free pl) (hs_buffers s') -> Forall work_ok (hs_work s') -> jobs s' ≡ₚ jobs s ->
  phase (hs_master s) (hs_work s') (hs_buffers s') (hs_workers s') (hs_chan s') -> hinv total s'.
Proof.
  intros [Hw (done & Hd & Hx) Hf Hq Hh Hb Hp Hr] Em Ei Ew Hy Hf' Hq' Hper Hp'. split; rewrite ?Em; try done.
  - by rewrite Ew, length_insert.
  - exists done. rewrite Ei. by rewrite Hper.
  - rewrite Ew. by apply Forall_insert_1.
Qed.

Ltac worker_case Hi y s :=
  cbn [hs_master hs_work hs_buffers hs_workers hs_chan hs_pieces hs_index jobs];
  pose proof (omap_insert_perm in_hand (hs_workers s) _ _ y Hi);
  rewrite ?omap_snoc, ?omap_cons_list; cbn [in_hand accepted queued maybe_list] in *; perm_count.

Lemma inv_worker total s i s' : hinv total s -> worker_step sha1 i s = Some s' -> hinv total s'.
Proof.
  intros Hinv. pose proof Hinv as [_ _ Hf Hq Hh _ Hp _]. unfold worker_step. destruct (hs_workers s !! i) as [w|] eqn:Hi; [|done].
  pose proof (Forall_lookup_1 _ _ _ _ Hh Hi) as Hwi. destruct w as [|j b|b| |]; [|intros [= <-]..|done].
  - destruct (hs_work s) as [|[j b|] work] eqn:Ew; [done|intros [= <-]..]; apply Forall_cons in Hq as [Hqb Hq].
    + eapply worker_frame; try done; [|by apply phase_pop]. unfold jobs. rewrite Ew. worker_case Hi (WHash j b) s.
    + eapply worker_frame; try done; [|by apply phase_pop_finish]. unfold jobs. rewrite Ew. worker_case Hi WFinish s.
  - eapply worker_frame; try done; [|by apply phase_send]. unfold jobs. worker_case Hi (WCheckin b) s.
  - eapply worker_frame; try done; [| |by apply phase_checkin].
    + apply Forall_app. split; [done|]. constructor; [|constructor]. split; [apply Hwi|done].
    + unfold jobs. worker_case Hi WPop s.
  - eapply worker_frame; try done; [|by apply phase_end]. unfold jobs. worker_case Hi WDone s.
Qed.

(** ** Steps of the master *)

Lemma numbered_snoc l h : numbered (l ++ [h]) = numbered l ++ [(length l, h)].
Proof.
  unfold numbered. rewrite length_app. cbn [length]. rewrite seq_app, zip_with_app by (by rewrite length_seq). done.
Qed.

(** The master adds a hash of the sequential reading or none. *)
Lemma master_frame total s s' (h : option ShaHash) : hinv total s -> hs_workers s' = hs_workers s ->
  jobs s' ≡ₚ jobs s ++ maybe_list (pair (hs_index s) <$> h) ->
  hs_index s' = (hs_index s + length (maybe_list h))%nat ->
  future (hs_master s) = (maybe_list h ++ fst (future (hs_master s')), snd (future (hs_master s'))) ->
  Forall (pb_free pl) (hs_buffers s') -> Forall work_ok (hs_work s') -> master_buf_ok (hs_master s') ->
  phase (hs_master s') (hs_work s') (hs_buffers s') (hs_workers s') (hs_chan s') ->
  (forall ps, hs_master s' = MDone ps -> ps = numbered (fst total)) -> hinv total s'.
Proof.
  intros [Hw (done & Hd & Hx & Ht) Hf Hq Hh Hb Hp Hr] Ew Hper Hi Hfut Hf' Hq' Hb' Hp' Hr'. split; rewrite ?Ew in *; try done.
  exists (done ++ maybe_list h). rewrite Hfut in Ht. cbn [fst snd] in Ht. split_and!.
  - rewrite Hper, Hd. destruct h as [h|]; cbn [maybe_list fmap option_fmap option_map]; [|by rewrite !app_nil_r]. by rewrite numbered_snoc, Hx.
  - by rewrite Hi, length_app, Hx.
  - by rewrite <- app_assoc.
Qed.

Ltac jobs_open := unfold jobs; cbn [hs_master hs_work hs_buffers hs_workers hs_chan hs_pieces hs_index maybe_list fmap option_fmap option_map];
  rewrite ?omap_snoc, ?omap_cons_list; cbn [in_hand accepted queued maybe_list].
Ltac jobs_same := jobs_open; perm_count.

(** The accessing phase ends with no [Finish] queued. *)
Lemma stopping_start work ws chan : (0 < num_workers)%nat -> length ws = num_workers ->
  count is_finish work = 0%nat -> count ending ws = 0%nat -> count is_worker_finished chan = 0%nat -> stopping 0 0 work ws chan.
Proof.
  intros Hn Hl Hf He Hc. pose proof (ended_ending ws). split; [|lia|lia].
  exists work, 0%nat. rewrite app_nil_r. split_and!; try done; lia.
Qed.

Lemma inv_accessed total s opt : (0 < num_workers)%nat -> hinv total s -> hs_master s = MNext [] opt ->
  hinv total (master_accessed num_workers access_end opt s).
Proof.
  intros Hn Hinv Em. pose proof Hinv as [Hw _ Hf Hq _ Hb Hp _]. rewrite Em in Hb, Hp. cbn [phase held] in Hp. destruct Hp as (Hc1 & Hc2 & Hc3 & _).
  assert (Hst : phase (MFinish num_workers) (hs_work s) (hs_buffers s) (hs_workers s) (hs_chan s)).
  { split; [lia|]. rewrite Nat.sub_diag. by apply stopping_start. }
  unfold master_accessed. destruct access_end as [e|] eqn:Ee.
  - apply (master_frame total s _ None); try done; [jobs_same|]. rewrite Em. cbn. by rewrite Ee.
  - destruct opt as [b|].
    + cbn [master_buf_ok] in Hb. destruct (is_empty b) eqn:Eb; unfold is_empty in Eb; [apply Nat.eqb_eq in Eb|apply Nat.eqb_neq in Eb].
      * apply (master_frame total s _ None); try done; [jobs_same|]. rewrite Em. cbn. rewrite Ee. unfold as_slice. by rewrite Eb.
      * apply (master_frame total s _ (Some (digest (as_slice b)))); try done; [jobs_same| | |].
        -- rewrite Em. cbn [future accesses_ref fmap option_fmap option_map]. rewrite Ee. pose proof (length_as_slice pl b Hb).
           destruct (as_slice b); [cbn in *; lia|done].
        -- apply Forall_app. split; [done|]. constructor; [exact Hb|constructor].
        -- cbn. split; [lia|]. rewrite Nat.sub_diag. apply stopping_start; try done. by rewrite count_app, Hc1.
    + apply (master_frame total s _ None); try done; [jobs_same|]. rewrite Em. cbn. by rewrite Ee.
Qed.

Lemma inv_read total s r b accs : hinv total s -> hs_master s = MRead r b accs -> hinv total (master_read r b accs s).
Proof.
  intros Hinv Em. pose proof Hinv as [Hw _ Hf Hq _ Hb Hp _]. rewrite Em in Hb, Hp. cbn [phase held master_buf_ok] in Hp, Hb. destruct Hp as (Hc1 & Hc2 & Hc3 & Hc4).
  unfold master_read. pose proof (write_bytes_spec pl b r Hb) as Hwb. destruct (write_bytes b r) as [e|[[n b'] r']].
  - apply (master_frame total s _ None); try done; [jobs_same|]. rewrite Em. cbn [future]. rewrite region_step, Hwb. done.
  - destruct Hwb as (d & Hrd & -> & Hs & Hok & Hwh). rewrite Hwh, Hs. cbn [future] in *.
    assert (Hfut : future (hs_master s) = after_region sha1 (
      let '(out, q) := if (length (as_slice b ++ d) =? pl)%nat then ([as_slice b ++ d], []) else ([], as_slice b ++ d) in
      if (length d =? 0)%nat then (out, inr q) else let '(more, last) := region pl r' q in (out ++ more, last)) (fun p => refs accs (Some p))).
    { rewrite Em. cbn [future]. by rewrite region_step, Hrd. }
    destruct (length (as_slice b ++ d) =? pl)%nat eqn:El.
    + apply (master_frame total s _ (Some (digest (as_slice b ++ d)))); try done.
      * jobs_open. rewrite Hs. perm_count.
      * rewrite Hfut. cbn [hs_master future]. destruct (length d =? 0)%nat.
        -- cbn [after_region]. by destruct (refs accs (Some [])).
        -- rewrite after_region_app. by destruct (after_region sha1 (region pl r' []) _).
      * apply Forall_app. split; [done|]. constructor; [exact Hok|constructor].
      * cbn [hs_master hs_work hs_buffers hs_workers hs_chan phase held]. rewrite count_app, length_app. cbn [length]. split_and!; try done; [by rewrite Hc1|lia].
    + apply (master_frame total s _ None); try done; [jobs_same| | | |].
      * rewrite Hfut. cbn [hs_master]. destruct (length d =? 0)%nat; cbn [future fmap option_fmap option_map]; rewrite Hs.
        -- cbn [after_region maybe_list app map]. by destruct (refs accs (Some (as_slice b ++ d))).
        -- rewrite after_region_app. by destruct (after_region sha1 (region pl r' _) _).
      * cbn [hs_master]. by destruct (length d =? 0)%nat.
      * cbn [hs_master hs_work hs_buffers hs_workers hs_chan]. by destruct (length d =? 0)%nat.
      * cbn [hs_master]. by destruct (length d =? 0)%nat.
Qed.

(** ** The end of the run *)

Lemma insert_piece_perm p l : insert_piece p l ≡ₚ p :: l.
Proof. induction l as [|q l IH]; [done|]. cbn. case_match; [done|]. rewrite IH. constructor. Qed.
Lemma sort_pieces_perm l : sort_pieces l ≡ₚ l.
Proof. induction l as [|p l IH]; [done|]. cbn. by rewrite insert_piece_perm, IH. Qed.

Definition le_piece (p q : nat * ShaHash) : Prop := (fst p <= fst q)%nat.

Lemma insert_piece_sorted p l : Sorted.StronglySorted le_piece l -> Sorted.StronglySorted le_piece (insert_piece p l).
Proof.
  induction 1 as [|q l Hs IH Hf]; cbn; [by repeat constructor|]. destruct (Nat.leb_spec (fst p) (fst q)) as [H|H].
  - constructor; [by constructor|]. constructor; [done|]. eapply Forall_impl; [exact Hf|]. unfold le_piece. lia.
  - constructor; [done|]. rewrite insert_piece_perm. constructor; [unfold le_piece; lia|done].
Qed.
Lemma sort_pieces_sorted l : Sorted.StronglySorted le_piece (sort_pieces l).
Proof. induction l as [|p l IH]; [constructor|]. by apply insert_piece_sorted. Qed.

Lemma numbered_lt (l : list ShaHash) n : Forall (fun p => (n <= fst p)%nat) (zip (seq n (length l)) l).
Proof.
  revert n. induction l as [|h l IH]; intros n; cbn; [constructor|]. constructor; [cbn; lia|]. eapply Forall_impl; [apply IH|]. cbn. lia.
Qed.

(** A sorted list that is a permutation of numbered hashes is that list. *)
Lemma sorted_numbered (l : list ShaHash) k n : Sorted.StronglySorted le_piece k -> k ≡ₚ zip (seq n (length l)) l -> k = zip (seq n (length l)) l.
Proof.
  revert n k. induction l as [|h l IH]; intros n k Hs Hp; cbn [length seq zip_with] in *; [by apply Permutation_nil_r in Hp|].
  destruct k as [|p k]; [by apply Permutation_nil_cons in Hp|]. apply Sorted.StronglySorted_inv in Hs as [Hs Hf].
  assert (Hin : p ∈ (n, h) :: zip (seq (S n) (length l)) l) by (rewrite <- Hp; apply elem_of_cons; by left).
  apply elem_of_cons in Hin as [->|Hin].
  - apply Permutation_cons_inv in Hp. by rewrite (IH (S n) k Hs Hp).
  - exfalso. pose proof (numbered_lt l (S n)) as Hlt. rewrite Forall_forall in Hlt. specialize (Hlt p Hin). cbn in Hlt.
    assert (Hk : (n, h) ∈ p :: k) by (rewrite Hp; apply elem_of_cons; by left). apply elem_of_cons in Hk as [<-|Hk]; [cbn in Hlt; lia|].
    rewrite Forall_forall in Hf. specialize (Hf _ Hk). unfold le_piece in Hf. cbn in Hf. lia.
Qed.

(** When all reports are in, nothing is left on its way. *)
Lemma collected total s : (0 < num_workers)%nat -> hinv total s -> hs_master s = MCollect num_workers ->
  sort_pieces (hs_pieces s) = numbered (fst total).
Proof.
  intros Hn [Hw (done & Hd & Hx & Ht) _ _ _ _ Hp _] Em. rewrite Em in Hp, Ht. cbn in Hp, Ht. destruct Hp as [_ [(hs & j & Ewk & Hh & Hj & He) Hr Hl]].
  pose proof (ended_ending (hs_workers s)) as Hee. pose proof (count_le ended (hs_workers s)) as Hle.
  assert (Hc0 : count is_worker_finished (hs_chan s) = 0%nat) by lia.
  assert (Hchan : hs_chan s = []).
  { destruct Hl as [|Hl]; [lia|done|]. apply last_Some in Hl as (c & Hc). rewrite Hc, count_app in Hc0. unfold count in Hc0. cbn in Hc0. lia. }
  assert (Hwork : hs_work s = []).
  { rewrite Ewk, He by lia. by replace j with 0%nat by lia. }
  assert (Hhand : omap in_hand (hs_workers s) = []).
  { assert (Ha : Forall (fun w => ended w = true) (hs_workers s)) by (apply count_all; lia).
    clear -Ha. induction Ha as [|w ws Hw Ha IH]; [done|]. rewrite omap_cons_list, IH. by destruct w. }
  unfold jobs in Hd. rewrite Hchan, Hwork, Hhand in Hd. cbn in Hd. rewrite app_nil_r in Hd.
  rewrite <- Ht. cbn [fst]. rewrite app_nil_r. apply sorted_numbered; [apply sort_pieces_sorted|]. by rewrite sort_pieces_perm.
Qed.

Lemma inv_master total s s' : (0 < num_workers)%nat -> hinv total s -> master_step num_workers access_end s = Some s' -> hinv total s'.
Proof.
  intros Hn Hinv. pose proof Hinv as [Hw _ Hf Hq _ Hb Hp _]. unfold master_step.
  destruct (hs_master s) as [[|[r|h] accs] opt|r eor q accs|r b accs|k|f|ps|e] eqn:Em; cbn [phase held master_buf_ok] in Hp, Hb; try done.
  - intros [= <-]. by apply inv_accessed.
  - destruct opt as [b|]; intros [= <-]; apply (master_frame total s _ None); try done; try jobs_same; rewrite Em; cbn [hs_master future accesses_ref default fmap option_fmap option_map from_option];
      by destruct (after_region sha1 _ _).
  - intros [= <-]. apply (master_frame total s _ (Some h)); try done; [jobs_same|]. rewrite Em. cbn [future accesses_ref hs_master].
    by destruct (refs accs (as_slice <$> opt)).
  - destruct (hs_buffers s) as [|b bufs] eqn:Eb; [done|]. intros [= <-]. apply Forall_cons in Hf as [Hfb Hf]. cbn [length] in Hp.
    apply (master_frame total s _ None); try done; [jobs_same| | | |]; cbn [hs_master hs_work hs_buffers hs_workers hs_chan]; rewrite ?Em.
    + cbn [future]. destruct eor; cbn [future fmap option_fmap option_map]; rewrite (pb_free_slice pl b Hfb); [by destruct (refs accs _)|by destruct (after_region sha1 _ _)].
    + destruct eor; by apply pb_free_ok.
    + destruct eor; cbn [phase held]; destruct Hp as (? & ? & ? & ?); split_and!; try done; lia.
    + by destruct eor.
  - intros [= <-]. by apply inv_read.
  - destruct k as [|k]; intros [= <-]; apply (master_frame total s _ None); try done; try jobs_same; rewrite ?Em; try done; cbn [hs_master hs_work hs_buffers hs_workers hs_chan].
    + destruct Hp as [_ Hs]. rewrite Nat.sub_0_r in Hs. split; [lia|done].
    + apply Forall_app. split; [done|]. by repeat constructor.
    + destruct Hp as [Hk [(hs & j & Ewk & Hh & Hj & He) Hr Hl]]. split; [lia|]. split; [|done|done].
      exists hs, (S j). split_and!; [|done|lia|done]. rewrite Ewk, <- app_assoc. f_equal. by rewrite replicate_S_end.
  - destruct (Nat.ltb_spec f num_workers) as [Hlt|Hge].
    + destruct (hs_chan s) as [|[i h|] chan] eqn:Ec; [done|intros [= <-]..]; apply (master_frame total s _ None); try done; rewrite ?Em; try done;
        cbn [hs_master hs_work hs_buffers hs_workers hs_chan].
      * jobs_open. rewrite Ec, omap_cons_list. cbn [accepted maybe_list]. perm_count.
      * destruct Hp as [Hk [Hwk Hr Hl]]. split; [lia|]. rewrite count_cons in Hr. split; [done|done|]. intros Ha. destruct (Hl Ha) as [|Hl']; [done|].
        destruct chan; [by left|by right].
      * jobs_open. rewrite Ec, omap_cons_list. cbn [accepted maybe_list]. perm_count.
      * destruct Hp as [Hk [Hwk Hr Hl]]. split; [lia|]. rewrite count_cons in Hr. cbn in Hr. split; [done|lia|]. intros Ha. destruct (Hl Ha) as [|Hl']; [done|].
        destruct chan; [by left|by right].
    + intros [= <-]. apply (master_frame total s _ None); try done; [jobs_same|by rewrite Em|]. cbn. intros ps [= <-].
      apply collected; [done|done|]. rewrite Em. f_equal. destruct Hp. lia.
Qed.

Lemma inv_step total s s' : (0 < num_workers)%nat -> hinv total s -> hstep sha1 num_workers access_end s s' -> hinv total s'.
Proof. intros Hn Hi [[|i] Hs]; [by apply (inv_master total s)|by apply (inv_worker total s i)]. Qed.

End Inv.
