(* ===== verification/MetainfoHasherSpec.v ===== *)
(** * Hashing the pieces of a torrent: results

    Every interleaving of the master and the workers returns what reading the torrent
    sequentially gives: the hashes of the pieces in order, or the error of the accessor. *)

From Stdlib Require Import Permutation.
From stdpp Require Import relations.
From S2P Require Import Prelude RustStd Words UtilSha MetainfoHasher MetainfoHasherInv.

Section Runs.
Context {R IoError : Type} `{HR : Read R IoError} {RL : ReadLaws R IoError}.
Context (sha1 : list Z -> list Z) (pl : nat) (num_workers : nat) (access_end : option IoError).
Implicit Types (s : Hasher R IoError) (m : Master R IoError).

Abbreviation hinv := (hinv sha1 pl num_workers access_end).
Abbreviation thread_step := (thread_step sha1 num_workers access_end).

(** ** Some thread can step *)

Definition returned m : Prop := match m with MDone _ | MFailed _ => True | _ => False end.

Lemma worker_can s i w : hs_workers s !! i = Some w -> w <> WDone -> (w = WPop -> hs_work s <> []) -> is_Some (worker_step sha1 i s).
Proof.
  intros Hi Hd Hp. unfold worker_step. rewrite Hi. destruct w; [|by eexists..|done].
  destruct (hs_work s) as [|[]]; [by destruct Hp|by eexists..].
Qed.

(** With a buffer out or a message queued, a worker that has not ended can step. *)
Lemma some_worker_can s : count ended (hs_workers s) <> length (hs_workers s) ->
  (count holding (hs_workers s) = 0%nat -> count ending (hs_workers s) = count ended (hs_workers s) -> hs_work s <> []) ->
  exists i, (i < length (hs_workers s))%nat /\ is_Some (worker_step sha1 i s).
Proof.
  intros Hne Hwork. destruct (decide (hs_work s = [])) as [E|E].
  - assert (Hex : Exists (fun w => w <> WDone /\ w <> WPop) (hs_workers s)).
    { apply Exists_exists. destruct (decide (Exists (fun w => w <> WDone /\ w <> WPop) (hs_workers s))) as [H|H]; [by apply Exists_exists in H|].
      exfalso. apply not_Exists_Forall in H; [|apply _]. apply Hwork; [| |done].
      - apply count_none. eapply Forall_impl; [exact H|]. intros [] Hw; try done; cbn in Hw; destruct Hw; done.
      - clear -H. induction H as [|w ws Hw H IH]; [done|]. rewrite !count_cons, IH. destruct w; try done; destruct Hw; done. }
    apply Exists_exists in Hex as (w & [i Hi]%list_elem_of_lookup & Hd & Hp). exists i. split; [by eapply lookup_lt_Some|]. by eapply worker_can.
  - assert (Hex : exists w, w ∈ hs_workers s /\ ended w = false).
    { destruct (decide (Exists (fun w => ended w = false) (hs_workers s))) as [H|H]; [by apply Exists_exists in H|].
      exfalso. apply Hne, count_all. apply not_Exists_Forall in H; [|apply _]. eapply Forall_impl; [exact H|]. intros w Hw. cbn in Hw. destruct (ended w); [done|by destruct Hw]. }
    destruct Hex as (w & [i Hi]%list_elem_of_lookup & Hd). exists i. split; [by eapply lookup_lt_Some|]. eapply worker_can; [exact Hi|by intros ->|done].
Qed.

Lemma hasher_progress total s : (0 < num_workers)%nat -> hinv total s -> ~ returned (hs_master s) ->
  exists t, (t <= num_workers)%nat /\ is_Some (thread_step t s).
Proof.
  intros Hn [Hw _ _ _ _ _ Hp _] Hr.
  assert (Hworker : (exists i, (i < length (hs_workers s))%nat /\ is_Some (worker_step sha1 i s)) -> exists t, (t <= num_workers)%nat /\ is_Some (thread_step t s)).
  { intros (i & Hi & Hs). exists (S i). split; [lia|done]. }
  destruct (hs_master s) as [[|[r|h] accs] opt|r eor q accs|r b accs|k|f|ps|e] eqn:Em; try done; cbn [phase held] in Hp.
  - exists 0%nat. split; [lia|]. cbn. unfold master_step. rewrite Em. by eexists.
  - exists 0%nat. split; [lia|]. cbn. unfold master_step. rewrite Em. destruct opt; by eexists.
  - exists 0%nat. split; [lia|]. cbn. unfold master_step. rewrite Em. by eexists.
  - destruct (hs_buffers s) as [|b bufs] eqn:Eb; [|exists 0%nat; split; [lia|]; cbn; unfold master_step; rewrite Em, Eb; by eexists].
    apply Hworker, some_worker_can; pose proof (ended_ending (hs_workers s)); destruct Hp as (_ & Hp2 & _ & Hp4); [lia|].
    intros Hh _ Ew. rewrite Hh, Ew in Hp4. cbn in Hp4. unfold calculate_total_buffers, TOTAL_BUFFERS_MULTIPLICATIVE, TOTAL_BUFFERS_ADDITIVE in Hp4. lia.
  - exists 0%nat. split; [lia|]. cbn. unfold master_step. rewrite Em. by eexists.
  - exists 0%nat. split; [lia|]. cbn. unfold master_step. rewrite Em. destruct k; by eexists.
  - destruct Hp as [Hf [(hs & j & Ewk & Hh & Hj & He) Hrep Hl]].
    destruct (Nat.ltb_spec f num_workers) as [Hlt|Hge]; [|exists 0%nat; split; [lia|]; cbn; unfold master_step; rewrite Em, (proj2 (Nat.ltb_ge f num_workers)) by lia; by eexists].
    destruct (hs_chan s) as [|c chan] eqn:Ec; [|exists 0%nat; split; [lia|]; cbn; unfold master_step; rewrite Em, Ec, (proj2 (Nat.ltb_lt f num_workers)) by lia; destruct c; by eexists].
    unfold count in Hrep at 1. cbn in Hrep. apply Hworker, some_worker_can; [lia|]. intros _ Hend Ew. rewrite Ew in Ewk. symmetry in Ewk.
    apply app_eq_nil in Ewk as [_ Ewk]. destruct j; [|done]. lia.
Qed.

(** ** Every step decreases a measure *)

Definition access_weight (a : PieceAccess R) : nat := match a with Compute r => 6 * length (remaining r) + 9 | PreComputed _ => 1 end.
Definition accesses_weight (accs : list (PieceAccess R)) : nat := 5 * num_workers + 7 + sum_list_with access_weight accs.

Definition master_weight m : nat :=
  match m with
  | MNext accs _ => accesses_weight accs
  | MTake r eor _ accs => if eor then accesses_weight accs + 1 else accesses_weight accs + 6 * length (remaining r) + 8
  | MRead r _ accs => accesses_weight accs + 6 * length (remaining r) + 7
  | MFinish k => 5 * k + 2
  | MCollect _ => 1
  | MDone _ | MFailed _ => 0
  end.
Definition worker_weight (w : Worker) : nat := match w with WHash _ _ | WFinish => 3 | WCheckin _ => 1 | WPop | WDone => 0 end.

Definition hmeasure s : nat :=
  master_weight (hs_master s) + 4 * length (hs_work s) + sum_list_with worker_weight (hs_workers s) + length (hs_chan s).

Lemma sum_insert (f : Worker -> nat) ws i x y : ws !! i = Some x ->
  (sum_list_with f (<[i := y]> ws) + f x = sum_list_with f ws + f y)%nat.
Proof.
  intros Hi. pose proof (lookup_lt_Some _ _ _ Hi) as Hl. rewrite insert_take_drop by done.
  rewrite <- (take_drop_middle ws i x Hi) at 3. rewrite !sum_list_with_app. cbn. lia.
Qed.

Lemma worker_decreases s i s' : worker_step sha1 i s = Some s' -> (hmeasure s' < hmeasure s)%nat.
Proof.
  unfold worker_step, hmeasure. destruct (hs_workers s !! i) as [w|] eqn:Hi; [|done].
  destruct w as [|j b|b| |]; [destruct (hs_work s) as [|[j b|] work]; [done|intros [= <-]..]|intros [= <-]..|done].
  all: cbn [hs_master hs_work hs_workers hs_chan]; rewrite ?length_app; cbn [length].
  - pose proof (sum_insert worker_weight _ _ _ (WHash j b) Hi) as H. cbn [worker_weight] in H. lia.
  - pose proof (sum_insert worker_weight _ _ _ WFinish Hi) as H. cbn [worker_weight] in H. lia.
  - pose proof (sum_insert worker_weight _ _ _ (WCheckin b) Hi) as H. cbn [worker_weight] in H. lia.
  - pose proof (sum_insert worker_weight _ _ _ WPop Hi) as H. cbn [worker_weight] in H. lia.
  - pose proof (sum_insert worker_weight _ _ _ WDone Hi) as H. cbn [worker_weight] in H. lia.
Qed.

Lemma read_decreases s r b accs : hs_master s = MRead r b accs -> pb_ok pl b ->
  (hmeasure (master_read r b accs s) < hmeasure s)%nat.
Proof.
  intros Em Hb. unfold master_read, hmeasure. rewrite Em. pose proof (write_bytes_spec pl b r Hb) as Hwb.
  destruct (write_bytes b r) as [e|[[n b'] r']]; [cbn; lia|]. destruct Hwb as (d & Hrd & -> & _).
  apply read_takes in Hrd as [_ Hrem]. apply (f_equal length) in Hrem. rewrite length_app in Hrem.
  destruct (is_whole b'), (Nat.eqb_spec (length d) 0); cbn [hs_master hs_work hs_workers hs_chan master_weight]; rewrite ?length_app; cbn [length]; lia.
Qed.

Lemma master_decreases total s s' : hinv total s -> master_step num_workers access_end s = Some s' -> (hmeasure s' < hmeasure s)%nat.
Proof.
  intros [_ _ _ _ _ Hb _ _]. unfold master_step.
  destruct (hs_master s) as [[|[r|h] accs] opt|r eor q accs|r b accs|k|f|ps|e] eqn:Em; cbn [master_buf_ok] in Hb; try done.
  - intros [= <-]. unfold master_accessed, hmeasure. rewrite Em. cbn [master_weight]. unfold accesses_weight.
    destruct access_end; [cbn; lia|]. destruct opt as [b|]; [destruct (is_empty b)|]; cbn; rewrite ?length_app; cbn; lia.
  - destruct opt; intros [= <-]; unfold hmeasure; rewrite Em; cbn; unfold accesses_weight; cbn; lia.
  - intros [= <-]. unfold hmeasure. rewrite Em. cbn. unfold accesses_weight. cbn. lia.
  - destruct (hs_buffers s); [done|]. intros [= <-]. unfold hmeasure. rewrite Em. destruct eor; cbn; lia.
  - intros [= <-]. by eapply read_decreases.
  - destruct k; intros [= <-]; unfold hmeasure; rewrite Em; cbn; rewrite ?length_app; cbn; lia.
  - unfold hmeasure. destruct (f <? num_workers)%nat; [destruct (hs_chan s) as [|[i h|] chan]; [done|..]|]; intros [= <-]; rewrite Em; cbn; lia.
Qed.

Lemma step_decreases total s t s' : hinv total s -> thread_step t s = Some s' -> (hmeasure s' < hmeasure s)%nat.
Proof. intros Hi. destruct t as [|i]; [by eapply master_decreases|by apply worker_decreases]. Qed.

(** ** Results *)

Definition outcome (total : list ShaHash * option IoError) : res IoError (list (nat * ShaHash)) :=
  match snd total with None => Ok (numbered (fst total)) | Some e => Err e end.

Lemma returned_outcome total s : hinv total s ->
  match hs_master s with MDone ps => outcome total = Ok ps | MFailed e => outcome total = Err e | _ => True end.
Proof.
  intros [_ (done & _ & _ & Ht) _ _ _ _ _ Hr]. destruct (hs_master s) eqn:Em; try done; unfold outcome; rewrite <- Ht at 1; cbn [future snd]; [|done].
  by rewrite <- (Hr _ eq_refl).
Qed.

Lemma run_outcome total fuel sched s : (0 < num_workers)%nat -> hinv total s -> (hmeasure s <= fuel)%nat ->
  run_hasher sha1 num_workers access_end fuel sched s = outcome total.
Proof.
  intros Hn. revert s. induction fuel as [|fuel IH]; intros s Hi Hf.
  - pose proof (returned_outcome total s Hi) as Ho. cbn [run_hasher]. unfold hmeasure in Hf.
    destruct (hs_master s) as [accs opt|r eor q accs| | | | |]; try done; cbn [master_weight] in Hf; unfold accesses_weight in *; try lia.
    destruct eor; lia.
  - pose proof (returned_outcome total s Hi) as Ho.
    assert (Hstep : ~ returned (hs_master s) -> match enabled sha1 num_workers access_end s !! (sched fuel mod length (enabled sha1 num_workers access_end s))%nat with
      | Some t => match thread_step t s with Some s => run_hasher sha1 num_workers access_end fuel sched s | None => OutOfFuel end
      | None => OutOfFuel end = outcome total).
    { intros Hr. destruct (hasher_progress total s Hn Hi Hr) as (t & Ht & Hs). pose proof (hi_workers _ _ _ _ _ _ Hi) as Hlen.
      assert (Hin : In t (enabled sha1 num_workers access_end s)).
      { apply filter_In. split; [apply in_seq; lia|by apply bool_decide_eq_true_2]. }
      set (en := enabled sha1 num_workers access_end s) in *. assert (Hne : length en <> 0%nat) by (destruct en; [by apply in_nil in Hin|done]).
      destruct (en !! (sched fuel mod length en)%nat) as [u|] eqn:Eu.
      2:{ apply lookup_ge_None in Eu. pose proof (Nat.mod_upper_bound (sched fuel) (length en) Hne). lia. }
      apply list_elem_of_lookup_2 in Eu. apply list_elem_of_In, filter_In in Eu as [_ Hu%bool_decide_eq_true_1]. destruct Hu as [s' Hs'].
      rewrite Hs'. apply IH; [eapply inv_step; [done|exact Hi|by exists u]|]. pose proof (step_decreases total s u s' Hi Hs'). lia. }
    cbn [run_hasher]. destruct (hs_master s) eqn:Em; try (apply Hstep; cbn; tauto); done.
Qed.

End Runs.

(** ** The start *)

Section Start.
Context {A R IoError : Type} `{HR : Read R IoError} {RL : ReadLaws R IoError} `{HA : Accessor A R IoError}.
Context (sha1 : list Z -> list Z).

Lemma replicate_count {X} (p : X -> bool) n x : p x = false -> count p (replicate n x) = 0%nat.
Proof. intros Hx. apply count_none. by apply Forall_replicate. Qed.

Lemma start_inv pl num_workers access_end (accs : list (PieceAccess R)) bufs :
  Forall (pb_free pl) bufs -> length bufs = calculate_total_buffers num_workers ->
  hinv sha1 pl num_workers access_end (accesses_ref sha1 pl access_end accs None) (hasher_start accs bufs num_workers).
Proof.
  intros Hf Hl. split; cbn [hasher_start hs_master hs_work hs_buffers hs_workers hs_chan hs_pieces hs_index]; try done.
  - apply length_replicate.
  - exists []. split_and!; [|done|by destruct (accesses_ref sha1 pl access_end accs None) eqn:E; cbn; rewrite E].
    unfold jobs. cbn. replace (omap (in_hand sha1) (replicate num_workers WPop)) with (@nil (nat * ShaHash)); [done|].
    clear. by induction num_workers.
  - by apply Forall_replicate.
  - cbn [phase held length]. rewrite !replicate_count by done. rewrite Hl. repeat split. lia.
Qed.

(** Steps enough for any schedule. *)
Definition hash_bound (accs : list (PieceAccess R)) (num_workers : nat) : nat := accesses_weight num_workers accs.

Lemma start_outcome fuel sched (a : A) piece_length num_workers :
  (0 < num_workers)%nat -> 0 <= piece_length <= MAX_CAPACITY -> (hash_bound (fst (access_pieces a)) num_workers <= fuel)%nat ->
  start_hasher_workers sha1 fuel sched a piece_length num_workers =
  outcome (accesses_ref sha1 (Z.to_nat piece_length) (snd (access_pieces a)) (fst (access_pieces a)) None).
Proof.
  intros Hn Hp Hf. unfold start_hasher_workers, PieceBuffers_new, PieceBuffer_new.
  destruct (calculate_total_buffers num_workers) as [|n] eqn:En;
    [unfold calculate_total_buffers, TOTAL_BUFFERS_MULTIPLICATIVE, TOTAL_BUFFERS_ADDITIVE in En; lia|].
  rewrite (proj2 (Z.ltb_ge MAX_CAPACITY piece_length)) by lia. cbn [res_bind]. destruct (access_pieces a) as [accs access_end]. cbn [fst snd] in *.
  eapply (run_outcome sha1 (Z.to_nat piece_length)); [done|apply start_inv|].
  - apply Forall_replicate. split; [apply length_replicate|done].
  - by rewrite length_replicate, En.
  - unfold hmeasure, hasher_start. cbn [hs_master hs_work hs_workers hs_chan length]. unfold hash_bound in Hf. cbn [master_weight].
    assert (sum_list_with worker_weight (replicate num_workers WPop) = 0%nat) as -> by (clear; by induction num_workers). lia.
Qed.

(** ** The pieces of a torrent *)

(** Readers that do not fail. *)
Definition infallible : Prop := forall (r : R) n (e : IoError), read r n <> inl e.

Lemma chunks_cons {X} n (l k : list X) : length l = n -> (0 < n)%nat -> chunks n (l ++ k) = l :: chunks n k.
Proof.
  intros Hl Hn. unfold chunks. destruct l as [|x l]; [cbn in Hl; lia|]. cbn [app length chunks_fuel].
  change (x :: l ++ k) with ((x :: l) ++ k). rewrite take_app_length' by done. rewrite drop_app_length' by done. f_equal.
  assert (Hgen : forall m f (k : list X), (length k <= m)%nat -> (length k <= f)%nat -> chunks_fuel f n k = chunks_fuel (length k) n k).
  { clear - Hn. induction m as [|m IH]; intros f k Hm Hf; [destruct k; [by destruct f|cbn in Hm; lia]|].
    destruct k as [|y k]; [by destruct f|]. destruct f as [|f]; [cbn in Hf; lia|]. cbn [length chunks_fuel] in *. f_equal.
    destruct n as [|n']; [lia|]. rewrite (IH f), (IH (length k)); try done; rewrite length_drop; cbn; lia. }
  apply (Hgen (length k)); [done|]. rewrite length_app. lia.
Qed.

Lemma chunks_short {X} n (l : list X) : (length l < n)%nat -> chunks n l = match l with [] => [] | _ => [l] end.
Proof.
  intros Hl. destruct l as [|x l]; [done|]. unfold chunks. cbn [length chunks_fuel]. rewrite take_ge, drop_ge by (cbn in *; lia).
  by destruct (length l).
Qed.

(** Reading a region to its end completes the pieces of the bytes before it and its own. *)
Lemma region_chunks pl (r : R) p : (0 < pl)%nat -> (length p < pl)%nat -> infallible ->
  exists out q, region pl r p = (out, inr q) /\ (length q < pl)%nat /\ forall k, chunks pl (p ++ remaining r ++ k) = out ++ chunks pl (q ++ k).
Proof.
  intros Hpl Hp Hr. remember (length (remaining r)) as n eqn:Hn. revert r p Hp Hn. induction (lt_wf n) as [n _ IH]. intros r p Hp Hn.
  rewrite region_step. destruct (read r (pl - length p)) as [e|[d r']] eqn:E; [by apply Hr in E|].
  pose proof (read_takes _ _ _ _ E) as [Hd Hrem].
  destruct (Nat.eqb_spec (length d) 0) as [H0|H0].
  - destruct d; [|done]. apply read_end in E; [|lia]. rewrite app_nil_r, (proj2 (Nat.eqb_neq (length p) pl)) by lia.
    exists [], p. rewrite E. done.
  - assert (Hlt : (length (remaining r') < n)%nat) by (rewrite Hn, Hrem, length_app; lia).
    destruct (Nat.eqb_spec (length (p ++ d)) pl) as [El|El].
    + destruct (IH _ Hlt r' [] ltac:(cbn; lia) eq_refl) as (out & q & Hreg & Hq & Hc). rewrite Hreg. exists ([p ++ d] ++ out), q.
      split_and!; [done|done|]. intros k. rewrite Hrem, <- app_assoc, app_assoc, chunks_cons by done. cbn [app]. f_equal. apply Hc.
    + assert (Hpd : (length (p ++ d) < pl)%nat) by (rewrite length_app in *; lia).
      destruct (IH _ Hlt r' (p ++ d) Hpd eq_refl) as (out & q & Hreg & Hq & Hc). rewrite Hreg. exists out, q.
      split_and!; [done|done|]. intros k. rewrite Hrem, <- app_assoc, app_assoc. apply Hc.
Qed.

Lemma accesses_chunks pl (rs : list R) p : (0 < pl)%nat -> (length (default [] p) < pl)%nat -> infallible ->
  accesses_ref sha1 pl None (map Compute rs) p = (map (ShaHash_from_bytes sha1) (chunks pl (default [] p ++ concat (map remaining rs))), None).
Proof.
  intros Hpl Hp Hr. revert p Hp. induction rs as [|r rs IH]; intros p Hp; cbn [map accesses_ref concat].
  - rewrite app_nil_r, chunks_short by done. destruct p as [[|b p]|]; done.
  - destruct (region_chunks pl r (default [] p) Hpl Hp Hr) as (out & q & -> & Hq & Hc). cbn [after_region]. rewrite (IH (Some q)) by done.
    by rewrite Hc, map_app.
Qed.

(** ** Failures *)

Lemma runs_keep_inv total num_workers access_end pl (s s' : Hasher R IoError) : (0 < num_workers)%nat ->
  hinv sha1 pl num_workers access_end total s -> rtc (hstep sha1 num_workers access_end) s s' -> hinv sha1 pl num_workers access_end total s'.
Proof. intros Hn Hi Hr. induction Hr as [|s1 s2 s3 Hs Hr IH]; [done|]. apply IH. by eapply inv_step. Qed.

Lemma failed_stays num_workers access_end (s s' : Hasher R IoError) e :
  rtc (hstep sha1 num_workers access_end) s s' -> hs_master s = MFailed e -> hs_master s' = MFailed e.
Proof.
  induction 1 as [|s1 s2 s3 [[|i] Hs] Hr IH]; [done| |]; intros Em; cbn [thread_step] in Hs.
  - unfold master_step in Hs. by rewrite Em in Hs.
  - apply IH. rewrite <- Em. unfold worker_step in Hs. repeat case_match; simplify_eq; done.
Qed.

End Start.

(** ** Properties *)

(** C9: Hashing with any number of workers and under any schedule of the threads returns,
    after finitely many steps, exactly what reading the accesses one after the other
    gives: every piece's hash under its index in order, or the first error. *)
Theorem hashing_matches_sequential_reading {A R IoError : Type} `{HR : Read R IoError} {RL : ReadLaws R IoError} `{HA : Accessor A R IoError}
    (sha1 : list Z -> list Z) (fuel : nat) (sched : nat -> nat) (accessor : A) (piece_length : Z) (num_workers : nat) :
  (0 < num_workers)%nat -> 0 <= piece_length <= MAX_CAPACITY -> (hash_bound (fst (access_pieces accessor)) num_workers <= fuel)%nat ->
  start_hasher_workers sha1 fuel sched accessor piece_length num_workers =
  outcome (accesses_ref sha1 (Z.to_nat piece_length) (snd (access_pieces accessor)) (fst (access_pieces accessor)) None).
Proof. apply start_outcome. Qed.

Definition sample_contents : list Z := bs "0123456789abcdefghijABCDEFGHIJKLMNOPQRSTU".

Lemma hashing_matches_sequential_reading_witness :
  start_hasher_workers (IoError := unit) (fun b => b) 500 (fun n => n * n)%nat (DirectAccessor_new (bs "f") sample_contents) 20 3 =
  Ok (numbered [mkShaHash (bs "0123456789abcdefghij"); mkShaHash (bs "ABCDEFGHIJKLMNOPQRST"); mkShaHash (bs "U" ++ replicate 19 0)]).
Proof.
  rewrite (hashing_matches_sequential_reading (fun b => b) 500 (fun n => n * n)%nat (DirectAccessor_new (bs "f") sample_contents) 20 3); [|lia|done|].
  - vm_compute. reflexivity.
  - apply Nat.leb_le. vm_compute. reflexivity.
Defined.

(** When reading fails the master returns the error without telling the workers, so
    none of them ever ends: they keep polling the queue. *)
Lemma failed_hashing_leaves_workers {R IoError : Type} `{HR : Read R IoError} {RL : ReadLaws R IoError}
    (sha1 : list Z -> list Z) (num_workers : nat) (access_end : option IoError) (accs : list (PieceAccess R)) (piece_length : Z)
    (bufs : PieceBuffers) (s s' : Hasher R IoError) (e : IoError) :
  (0 < num_workers)%nat -> PieceBuffers_new (E := unit) piece_length num_workers = Ok bufs ->
  rtc (hstep sha1 num_workers access_end) (hasher_start accs bufs num_workers) s -> hs_master s = MFailed e ->
  rtc (hstep sha1 num_workers access_end) s s' ->
  length (hs_workers s') = num_workers /\ Forall (fun w => ending w = false) (hs_workers s').
Proof.
  intros Hn Hb Hr1 Em Hr2.
  assert (Hbuf : Forall (pb_free (Z.to_nat piece_length)) bufs /\ length bufs = calculate_total_buffers num_workers).
  { unfold PieceBuffers_new, PieceBuffer_new in Hb. destruct (calculate_total_buffers num_workers); [by injection Hb as <-|].
    destruct (MAX_CAPACITY <? piece_length); [done|]. injection Hb as <-. cbn. split; [|by rewrite length_replicate].
    apply (Forall_replicate _ (S n)). split; [apply length_replicate|done]. }
  pose proof (start_inv sha1 (Z.to_nat piece_length) num_workers access_end accs bufs (proj1 Hbuf) (proj2 Hbuf)) as Hi.
  eapply runs_keep_inv in Hi; [|done|etrans; [exact Hr1|exact Hr2]]. pose proof (failed_stays _ _ _ _ _ _ Hr2 Em) as Em'.
  destruct Hi as [Hw _ _ _ _ _ Hp _]. rewrite Em' in Hp. destruct Hp as (_ & Hp & _). split; [done|by apply count_none].
Qed.

Lemma failed_hashing_leaves_workers_witness :
  let start := hasher_start [PreComputed (mkShaHash [])] [mkPieceBuffer [0] 0; mkPieceBuffer [0] 0] 1 : Hasher Cursor nat in
  exists s, rtc (hstep (fun b => b) 1 (Some 7%nat)) start s /\ hs_master s = MFailed 7%nat /\ Forall (fun w => ending w = false) (hs_workers s).
Proof.
  intros start. eexists. assert (Hr : rtc (hstep (fun b => b) 1 (Some 7%nat)) start
    (mkHasher (MFailed 7%nat) [] [mkPieceBuffer [0] 0; mkPieceBuffer [0] 0] [WPop] [] [(0%nat, mkShaHash [])] 1 [])).
  { eapply rtc_l; [by exists 0%nat|]. eapply rtc_l; [by exists 0%nat|]. apply rtc_refl. }
  split; [exact Hr|]. split; [done|].
  exact (proj2 (failed_hashing_leaves_workers (fun b => b) 1 (Some 7%nat) [PreComputed (mkShaHash [])] 1 [mkPieceBuffer [0] 0; mkPieceBuffer [0] 0] _ _ 7%nat
    ltac:(lia) eq_refl Hr eq_refl (rtc_refl _ _))).
Defined.
