(* ===== verification/MetainfoBuilder.v ===== *)
(** * Accessing files for a torrent

    Model of [FileAccessor] of [metainfo/accessor.rs]. The file system is a parameter:
    what canonicalizing a path, asking for a directory and walking it give.

    Then the builder, [metainfo/builder/mod.rs], and the encoding half of
    [metainfo/metainfo.rs]. *)

From S2P Require Import Prelude RustStd BTree Bencode Words UtilSha Paths BencodeAccess Metainfo MetainfoHasher.

(** An entry [WalkDir] yields, with what reading its metadata and opening it gives. *)
Record DirEntry (R IoError : Type) : Type := mkDirEntry {
  de_path : list Z;
  de_is_file : bool;
  de_metadata_len : IoError + Z;
  de_open : IoError + R
}.
Arguments mkDirEntry {R IoError} de_path de_is_file de_metadata_len de_open.
Arguments de_path {R IoError} d.
Arguments de_is_file {R IoError} d.
Arguments de_metadata_len {R IoError} d.
Arguments de_open {R IoError} d.

Class FileSystem (R IoError : Type) : Type := {
  canonicalize : list Z -> IoError + list Z;
  is_dir : list Z -> bool;
  walk_dir : list Z -> list (IoError + DirEntry R IoError)
}.

Record FileAccessor : Type := mkFileAccessor { fa_absolute_path : list Z; fa_directory_name : option (list Z) }.

Section Access.
Context {R IoError : Type} `{FS : FileSystem R IoError}.

(** [absolute_path.iter().last().unwrap()]. *)
Definition FileAccessor_new (path : list Z) : res IoError FileAccessor :=
  match canonicalize path with
  | inl e => Err e
  | inr absolute_path =>
      if is_dir absolute_path
      then let? dir_name := or_panic (last (components absolute_path)) in Ok (mkFileAccessor absolute_path (Some dir_name))
      else Ok (mkFileAccessor absolute_path None)
  end.

Definition entry_file_filter (res_entry : IoError + DirEntry R IoError) : bool :=
  match res_entry with inl _ => true | inr f => de_is_file f end.

Definition walked (a : FileAccessor) : list (IoError + DirEntry R IoError) := List.filter entry_file_filter (walk_dir (fa_absolute_path a)).

Definition num_skip_paths (a : FileAccessor) : nat :=
  match fa_directory_name a with
  | Some _ => length (components (fa_absolute_path a))
  | None => length (components (fa_absolute_path a)) - 1
  end.

Definition relative_path (skip : nat) (path : list Z) : list Z := foldl path_push [] (drop skip (components path)).

(** The calls until the first entry that fails. *)
Fixpoint walk_metadata (skip : nat) (l : list (IoError + DirEntry R IoError)) : list (Z * list Z) * option IoError :=
  match l with
  | [] => ([], None)
  | inl e :: _ => ([], Some e)
  | inr entry :: l =>
      match de_metadata_len entry with
      | inl e => ([], Some e)
      | inr file_length =>
          let '(calls, e) := walk_metadata skip l in ((file_length, relative_path skip (de_path entry)) :: calls, e)
      end
  end.

Fixpoint walk_pieces (l : list (IoError + DirEntry R IoError)) : list (PieceAccess R) * option IoError :=
  match l with
  | [] => ([], None)
  | inl e :: _ => ([], Some e)
  | inr entry :: l =>
      match de_open entry with
      | inl e => ([], Some e)
      | inr file => let '(calls, e) := walk_pieces l in (Compute file :: calls, e)
      end
  end.

#[export] Instance FileAccessor_accessor : Accessor FileAccessor R IoError := {|
  access_directory a := fa_directory_name a;
  access_metadata a := walk_metadata (num_skip_paths a) (walked a);
  access_pieces a := walk_pieces (walked a)
|}.

(** A file below the root gets the components it has there. *)
Lemma relative_components root path cs : components path = components root ++ cs -> Forall plain cs ->
  components (relative_path (length (components root)) path) = cs.
Proof.
  intros E Hcs. unfold relative_path. rewrite E, drop_app_length.
  destruct cs as [|c cs]; [done|]. apply Forall_cons in Hcs as [Hc Hcs]. pose proof (plain_not_nil _ Hc) as Hne.
  assert (Hfix : components c = [c]).
  { rewrite components_name by apply Hc. by rewrite bool_decide_eq_false_2. }
  assert (Hj : components (c ++ tail_text cs) = c :: cs).
  { unfold components. assert (Hn : Forall no_sep cs) by (eapply Forall_impl; [exact Hcs|]; by intros ? []).
    rewrite starts_with_sep_app, plain_not_abs, split_tail, split_sep_no_sep by (done || apply Hc). cbn [app].
    rewrite bool_decide_eq_false_2 by (intros ->; by destruct Hc). apply filter_plain_id. by constructor. }
  cbn [foldl]. assert (path_push [] c = c) as -> by (unfold path_push; by rewrite plain_not_abs by apply Hc).
  rewrite push_all_plain; [exact Hj|done| |done]. rewrite <- (app_nil_l c). apply last_no_sep; [apply Hc|done].
Qed.

End Access.

(** * Torrent files: building

    Model of [metainfo/builder/mod.rs] and of the encoding half of
    [metainfo/metainfo.rs]. A builder holds bencode dictionaries; [build] hashes the
    accessor's data ([MetainfoHasher], under a schedule of its threads) and encodes the
    dictionaries. *)

(** ** Piece lengths *)

Definition ALL_OPT_MAX_PIECE_LENGTH : Z := 16 * 1024 * 1024.
Definition BALANCED_MAX_PIECES_SIZE : Z := 40000.
Definition BALANCED_MIN_PIECE_LENGTH : Z := 512 * 1024.
Definition FILE_SIZE_MAX_PIECES_SIZE : Z := 20000.
Definition FILE_SIZE_MIN_PIECE_LENGTH : Z := 1 * 1024 * 1024.
Definition TRANSFER_MAX_PIECES_SIZE : Z := 60000.
Definition TRANSFER_MIN_PIECE_LENGTH : Z := 1 * 1024.

Inductive PieceLength : Type := OptBalanced | OptFileSize | OptTransfer | Custom (len : Z).

(** [usize::next_power_of_two]: overflows above [2^63]. *)
Definition next_power_of_two {E} (n : Z) : res E Z := if n <=? 2 ^ 63 then Ok (2 ^ Z.log2_up n) else Panic.

Definition calculate_piece_length {E} (total_file_size max_pieces_size min_piece_length : Z) : res E Z :=
  let num_pieces := f64_div (f64_from max_pieces_size) (f64_from (Z.of_nat SHA_HASH_LEN)) in
  let piece_length := f64_as_u64 (f64_add (f64_div (f64_from total_file_size) num_pieces) F64_0_5) in
  let? pot_piece_length := next_power_of_two piece_length in
  Ok (match min_piece_length <? pot_piece_length, pot_piece_length <? ALL_OPT_MAX_PIECE_LENGTH with
      | true, true => pot_piece_length
      | false, _ => min_piece_length
      | true, false => ALL_OPT_MAX_PIECE_LENGTH
      end).

Definition determine_piece_length {E} (total_file_size : Z) (piece_length : PieceLength) : res E Z :=
  match piece_length with
  | Custom len => Ok len
  | OptBalanced => calculate_piece_length total_file_size BALANCED_MAX_PIECES_SIZE BALANCED_MIN_PIECE_LENGTH
  | OptFileSize => calculate_piece_length total_file_size FILE_SIZE_MAX_PIECES_SIZE FILE_SIZE_MIN_PIECE_LENGTH
  | OptTransfer => calculate_piece_length total_file_size TRANSFER_MAX_PIECES_SIZE TRANSFER_MIN_PIECE_LENGTH
  end.

Abbreviation as_i64 := (swrap 64).

Definition map_pieces_list (pieces : list ShaHash) : list Z := concat (map sha_bytes pieces).

(** What the progress callback is called with for the indices the master reports. *)
Definition start_progress_updater (recv : list nat) (total_files_len piece_length : Z) : list f64 :=
  let total_num_pieces := f64_as_u64 (f64_ceil (f64_div (f64_from total_files_len) (f64_from piece_length))) in
  map (fun finished_piece => f64_div (f64_from (Z.of_nat finished_piece)) (f64_from total_num_pieces)) recv.

Section Build.
Context {IoError : Type}.
Abbreviation ParseResult := (res (MetaParseError IoError)).
Abbreviation Dict := (list (list Z * BencodeMut)).

(** [value.dict_mut().unwrap()], then an update of the dictionary. *)
Definition with_dict (b : BencodeMut) (f : Dict -> Dict) : ParseResult BencodeMut :=
  match b with MDict d => Ok (MDict (f d)) | _ => Panic end.

(** [if let Some(v) = opt { insert } else { remove }]. *)
Definition set_or_remove (key : list Z) (opt : option BencodeMut) (d : Dict) : Dict :=
  match opt with Some v => bt_insert key v d | None => bt_remove key d end.

(** ** Builders *)

Record InfoBuilder : Type := mkInfoBuilder { ib_info : BencodeMut; ib_piece_length : PieceLength }.
Record MetainfoBuilder : Type := mkMetainfoBuilder { mb_root : BencodeMut; mb_info : InfoBuilder }.

Definition InfoBuilder_new : InfoBuilder := mkInfoBuilder new_dict OptBalanced.

(** [insert] returns the value that was there before; [or_else] runs when there was none. *)
Definition InfoBuilder_set_private_flag (opt_is_private : option bool) (b : InfoBuilder) : ParseResult InfoBuilder :=
  let opt_numeric_is_private := (fun is_private : bool => if is_private then 1 else 0) <$> opt_is_private in
  let? info := with_dict (ib_info b) (fun d =>
    match opt_numeric_is_private with
    | Some numeric_is_private =>
        let d' := bt_insert PRIVATE_KEY (new_int numeric_is_private) d in
        match bt_lookup PRIVATE_KEY d with Some _ => d' | None => bt_remove PRIVATE_KEY d' end
    | None => bt_remove PRIVATE_KEY d
    end) in
  Ok (mkInfoBuilder info (ib_piece_length b)).

Definition InfoBuilder_set_piece_length (piece_length : PieceLength) (b : InfoBuilder) : InfoBuilder :=
  mkInfoBuilder (ib_info b) piece_length.

Definition MetainfoBuilder_new : MetainfoBuilder := mkMetainfoBuilder new_dict InfoBuilder_new.

Definition set_root (f : Dict -> Dict) (b : MetainfoBuilder) : ParseResult MetainfoBuilder :=
  let? root := with_dict (mb_root b) f in Ok (mkMetainfoBuilder root (mb_info b)).

Definition trackers_list (groups : list (list (list Z))) : BencodeMut := MList (map (fun group => MList (map new_bytes group)) groups).

Definition set_trackers (opt_trackers : option (list (list (list Z)))) : MetainfoBuilder -> ParseResult MetainfoBuilder :=
  set_root (set_or_remove ANNOUNCE_LIST_KEY (trackers_list <$> opt_trackers)).
Definition set_main_tracker (opt_tracker_url : option (list Z)) : MetainfoBuilder -> ParseResult MetainfoBuilder :=
  set_root (set_or_remove ANNOUNCE_URL_KEY (new_bytes <$> opt_tracker_url)).
Definition set_creation_date (opt_secs_epoch : option Z) : MetainfoBuilder -> ParseResult MetainfoBuilder :=
  set_root (set_or_remove CREATION_DATE_KEY (new_int <$> opt_secs_epoch)).
Definition set_comment (opt_comment : option (list Z)) : MetainfoBuilder -> ParseResult MetainfoBuilder :=
  set_root (set_or_remove COMMENT_KEY (new_bytes <$> opt_comment)).
Definition set_created_by (opt_created_by : option (list Z)) : MetainfoBuilder -> ParseResult MetainfoBuilder :=
  set_root (set_or_remove CREATED_BY_KEY (new_bytes <$> opt_created_by)).

Definition set_private_flag (opt_is_private : option bool) (b : MetainfoBuilder) : ParseResult MetainfoBuilder :=
  let? info := InfoBuilder_set_private_flag opt_is_private (mb_info b) in Ok (mkMetainfoBuilder (mb_root b) info).
Definition set_piece_length (piece_length : PieceLength) (b : MetainfoBuilder) : MetainfoBuilder :=
  mkMetainfoBuilder (mb_root b) (InfoBuilder_set_piece_length piece_length (mb_info b)).

(** [self.root.dict().unwrap()], then a reading of it. *)
Definition get_root {A} (f : Dict -> option A) (b : MetainfoBuilder) : ParseResult (option A) :=
  match mb_root b with MDict d => Ok (f d) | _ => Panic end.
Definition get_trackers : MetainfoBuilder -> ParseResult (option (list (list (list Z)))) :=
  get_root (fun d => convert_announce_list <$> parse_announce_list (IoError := IoError) d).
Definition get_main_tracker : MetainfoBuilder -> ParseResult (option (list Z)) := get_root (parse_announce_url (IoError := IoError)).
Definition get_creation_date : MetainfoBuilder -> ParseResult (option Z) := get_root (parse_creation_date (IoError := IoError)).
Definition get_comment : MetainfoBuilder -> ParseResult (option (list Z)) := get_root (parse_comment (IoError := IoError)).
Definition get_created_by : MetainfoBuilder -> ParseResult (option (list Z)) := get_root (parse_created_by (IoError := IoError)).

(** ** The dictionaries *)

Definition FileInfo : Type := (Z * list (list Z))%type.

Definition file_info (entry : Z * list Z) : FileInfo := (fst entry, map to_string_lossy (components (snd entry))).

(** [fold(0, |acc, nex| acc + nex.0)] on [u64]. *)
Fixpoint total_len (acc : Z) (files_info : list FileInfo) : ParseResult Z :=
  match files_info with
  | [] => Ok acc
  | f :: l => if acc + fst f <? 2 ^ 64 then total_len (acc + fst f) l else Panic
  end.

Definition file_dict (f : FileInfo) : BencodeMut :=
  MDict (bt_insert PATH_KEY (MList (map new_bytes (snd f))) (bt_insert LENGTH_KEY (new_int (as_i64 (fst f))) [])).

Definition files_list (files_info : list FileInfo) : BencodeMut := MList (map file_dict files_info).

Definition fill_info (piece_length : Z) (pieces : list Z) (access_directory : option (list Z)) (files_info : list FileInfo) (d : Dict)
    : ParseResult Dict :=
  let d := bt_insert PIECE_LENGTH_KEY (new_int (as_i64 piece_length)) d in
  let d := bt_insert PIECES_KEY (new_bytes pieces) d in
  match access_directory, (1 <? length files_info)%nat with
  | Some directory, _ => Ok (bt_insert FILES_KEY (files_list files_info) (bt_insert NAME_KEY (new_bytes directory) d))
  | None, true => Ok (bt_insert FILES_KEY (files_list files_info) (bt_insert NAME_KEY (new_bytes []) d))
  | None, false =>
      let? f := or_panic (files_info !! 0%nat) in
      Ok (bt_insert NAME_KEY (new_bytes (concat (snd f))) (bt_insert LENGTH_KEY (new_int (as_i64 (fst f))) d))
  end.

Context {R : Type} `{HR : Read R IoError} (sha1 : list Z -> list Z) (fuel : nat) (sched : nat -> nat).

Definition build_with_accessor {A} `{HA : Accessor A R IoError} (threads : nat) (accessor : A) (opt_root : option BencodeMut) (info : BencodeMut)
    (piece_length : PieceLength) : ParseResult (list Z) :=
  if (threads =? 0)%nat then Panic else
  let '(entries, access_end) := access_metadata accessor in
  let? _ := match access_end with Some e => Err (PeIo e) | None => Ok tt end in
  let files_info := map file_info entries in
  let? total_files_len := total_len 0 files_info in
  let? piece_length := determine_piece_length total_files_len piece_length in
  let? pieces_list := map_err (start_hasher_workers sha1 fuel sched accessor piece_length threads) PeIo in
  let pieces := map_pieces_list (map snd pieces_list) in
  let access_directory := to_string_lossy <$> access_directory accessor in
  let? info := match info with
               | MDict d => let? d := fill_info piece_length pieces access_directory files_info d in Ok (MDict d)
               | _ => Panic
               end in
  match opt_root with
  | Some root => let? root := with_dict root (bt_insert INFO_KEY info) in Ok (BencodeMut_encode root)
  | None => Ok (BencodeMut_encode info)
  end.

Definition MetainfoBuilder_build {A} `{HA : Accessor A R IoError} (threads : nat) (accessor : A) (b : MetainfoBuilder) : ParseResult (list Z) :=
  build_with_accessor threads accessor (Some (mb_root b)) (ib_info (mb_info b)) (ib_piece_length (mb_info b)).
Definition InfoBuilder_build {A} `{HA : Accessor A R IoError} (threads : nat) (accessor : A) (b : InfoBuilder) : ParseResult (list Z) :=
  build_with_accessor threads accessor None (ib_info b) (ib_piece_length b).

End Build.

(** ** [Info] as an accessor *)

(** [PieceAccess::PreComputed(ShaHash::from_hash(piece).unwrap())]: a piece is an array of
    the length of a hash, so that the conversion succeeds. *)
Definition piece_access {R} (piece : list Z) : PieceAccess R :=
  PreComputed (match ShaHash_from_hash piece with Ok h => h | _ => mkShaHash piece end).

#[export] Instance Info_accessor R IoError : Accessor Info R IoError := {|
  access_directory info := in_file_directory info;
  access_metadata info := (map (fun file => (mf_len file, mf_path file)) (SliceIter_collect (length (in_files info)) (Info_files info)), None);
  access_pieces info := (map piece_access (SliceIter_collect (length (in_pieces info)) (Info_pieces info)), None)
|}.

(** ** Encoding a parsed torrent *)

Section Encode.
Context {IoError : Type} (sha1 : list Z -> list Z) (sched : nat -> nat).
Abbreviation ParseResult := (res (MetaParseError IoError)).

(** Two steps for each piece at most, besides those that start and stop the worker. *)
Definition encode_fuel (info : Info) : nat := length (in_pieces info) + 12.

Definition Info_to_bytes (info : Info) : ParseResult (list Z) :=
  let? b := InfoBuilder_set_private_flag (in_is_private info) InfoBuilder_new in
  let b := InfoBuilder_set_piece_length (Custom (in_piece_len info)) b in
  res_unwrap (E := MetaParseError IoError) (InfoBuilder_build (R := Cursor) sha1 (encode_fuel info) sched 1 info b).

Definition Metainfo_to_bytes (m : Metainfo) : ParseResult (list Z) :=
  let? b := set_main_tracker (mi_announce m) MetainfoBuilder_new in
  let? b := set_creation_date (mi_creation_date m) b in
  let? b := set_comment (mi_comment m) b in
  let? b := set_created_by (mi_created_by m) b in
  let? b := set_private_flag (in_is_private (mi_info m)) b in
  let b := set_piece_length (Custom (in_piece_len (mi_info m))) b in
  res_unwrap (E := MetaParseError IoError) (MetainfoBuilder_build (R := Cursor) sha1 (encode_fuel (mi_info m)) sched 1 (mi_info m) b).

End Encode.

Example piece_lengths : map (fun n => determine_piece_length (E := unit) n OptBalanced) [0; 10 ^ 9; 2 * 10 ^ 9; 10 ^ 12] =
  [Ok 524288; Ok 524288; Ok 1048576; Ok 16777216].
Proof. vm_compute. reflexivity. Qed.

Example build_sample :
  InfoBuilder_build (IoError := unit) (R := Cursor) (fun b => b) 100 (fun n => n) 2 (DirectAccessor_new (bs "f") (bs "abc")) (mkInfoBuilder new_dict (Custom 2)) =
  Ok (bs "d6:lengthi3e4:name1:f12:piece lengthi2e6:pieces40:ab" ++ replicate 18 0 ++ bs "c" ++ replicate 19 0 ++ bs "e").
Proof. vm_compute. reflexivity. Qed.
