(* ===== verification/MetainfoFacts.v ===== *)
(** * Torrent files: what building and parsing share

    Parsing looks at the decoded values only, and reads back the dictionaries the builder
    writes.

    Then strings, sizes and the dictionaries of a built or encoded torrent. *)

From S2P Require Import Prelude RustStd BTree Bencode BencodeGrammar BencodeCanon Words UtilSha Paths BencodeAccess BencodeEntries Metainfo MetainfoHasher MetainfoHasherInv MetainfoHasherSpec MetainfoBuilder.

Section Erased.
Context {IoError : Type}.
#[local] Existing Instance MetainfoConverter.
Implicit Types (d : list (list Z * BencodeRef)).

Lemma parse_length_erase d : parse_length (IoError := IoError) d = parse_length (erase_entries d).
Proof. unfold parse_length. by rewrite lookup_int_erase. Qed.
Lemma parse_md5sum_erase d : parse_md5sum (IoError := IoError) d = parse_md5sum (IoError := IoError) (erase_entries d).
Proof. unfold parse_md5sum. by rewrite lookup_bytes_erase. Qed.
Lemma parse_name_erase d : parse_name (IoError := IoError) d = parse_name (erase_entries d).
Proof. unfold parse_name. by rewrite lookup_str_erase. Qed.

Lemma push_path_strs_erase (l : list BencodeRef) p : push_path_strs (IoError := IoError) p l = push_path_strs p (map ref_erase l).
Proof.
  revert p. induction l as [|r l IH]; intros p; [done|]. cbn [push_path_strs map]. unfold parse_path_str. rewrite convert_str_erase.
  destruct (convert_str (ref_erase r) PATH_KEY); cbn; [apply IH|done..].
Qed.

Lemma as_multi_file_erase d : as_multi_file (IoError := IoError) d = as_multi_file (erase_entries d).
Proof.
  unfold as_multi_file. rewrite parse_length_erase, parse_md5sum_erase. destruct (parse_length (erase_entries d)); cbn; try done.
  unfold parse_path_list. rewrite <- lookup_list_erase. destruct (lookup_and_convert_list d PATH_KEY); cbn; try done. by rewrite push_path_strs_erase.
Qed.
Lemma as_single_file_erase d : as_single_file (IoError := IoError) d = as_single_file (erase_entries d).
Proof. unfold as_single_file. by rewrite parse_length_erase, parse_md5sum_erase, parse_name_erase. Qed.

Lemma parse_files_erase (l : list BencodeRef) : parse_files (IoError := IoError) l = parse_files (map ref_erase l).
Proof.
  induction l as [|r l IH]; [done|]. cbn [parse_files map]. unfold parse_file_dict. rewrite <- convert_dict_erase.
  destruct (convert_dict r FILES_KEY) as [d| | |]; cbn; try done. by rewrite as_multi_file_erase, IH.
Qed.

Lemma info_of_dict_erase h d : info_of_dict (IoError := IoError) h d = info_of_dict h (erase_entries d).
Proof.
  unfold info_of_dict, parse_piece_length, parse_private, parse_pieces, is_multi_file_torrent, parse_files_list.
  rewrite !lookup_int_erase, lookup_bytes_erase, parse_length_erase, parse_name_erase, as_single_file_erase, <- lookup_list_erase.
  destruct (lookup_and_convert_int (erase_entries d) PIECE_LENGTH_KEY); cbn; try done. destruct (lookup_and_convert_bytes (erase_entries d) PIECES_KEY); cbn; try done.
  destruct (allocate_pieces _); cbn; try done. destruct (negb _); [|done]. destruct (parse_name _); cbn; try done.
  destruct (lookup_and_convert_list d FILES_KEY); cbn; try done. by rewrite parse_files_erase.
Qed.

Lemma omap_map_ext {A B C} (f : A -> option C) (g : B -> option C) (h : A -> B) l : (forall x, f x = g (h x)) -> omap f l = omap g (map h l).
Proof. intros E. induction l as [|x l IH]; [done|]. cbn. by rewrite E, IH. Qed.

Lemma convert_announce_list_erase (l : list BencodeRef) : convert_announce_list l = convert_announce_list (map ref_erase l).
Proof.
  unfold convert_announce_list. induction l as [|r l IH]; [done|]. destruct r as [n b|n b|k b|d b]; try exact IH.
  change (omap acc_str k :: map (omap acc_str) (omap acc_list l) = omap acc_str (map ref_erase k) :: map (omap acc_str) (omap acc_list (map ref_erase l))).
  f_equal; [apply omap_map_ext, access_str|exact IH].
Qed.

Lemma announce_list_erase d : convert_announce_list <$> parse_announce_list (IoError := IoError) d =
  convert_announce_list <$> parse_announce_list (IoError := IoError) (erase_entries d).
Proof.
  unfold parse_announce_list. rewrite <- lookup_list_erase. destruct (lookup_and_convert_list d ANNOUNCE_LIST_KEY); cbn; try done.
  by rewrite convert_announce_list_erase.
Qed.

End Erased.

(** ** Pieces *)

Lemma length_digest sha1 b : length (sha_bytes (ShaHash_from_bytes sha1 b)) = SHA_HASH_LEN.
Proof. cbn [ShaHash_from_bytes sha_bytes]. rewrite length_zip_copy. apply length_replicate. Qed.

Definition hash_sized (p : list Z) : Prop := length p = SHA_HASH_LEN.

Lemma chunks_concat_hashes l : Forall hash_sized l -> chunks SHA_HASH_LEN (concat l) = l.
Proof.
  induction 1 as [|p l Hp Hl IH]; [done|]. cbn [concat]. rewrite chunks_cons, IH; [done|done|]. unfold SHA_HASH_LEN. lia.
Qed.
Lemma copy_chunks_full h l : length h = SHA_HASH_LEN -> Forall hash_sized l -> copy_chunks h l = l.
Proof.
  intros Hh Hl. revert h Hh. induction Hl as [|p l Hp Hl IH]; intros h Hh; [done|]. cbn [copy_chunks].
  rewrite zip_copy_full by (rewrite Hh; apply Hp). by rewrite IH.
Qed.
Lemma length_concat_hashes l : Forall hash_sized l -> length (concat l) = (SHA_HASH_LEN * length l)%nat.
Proof. induction 1 as [|p l Hp Hl IH]; [done|]. cbn [concat length]. rewrite length_app, IH, Hp. lia. Qed.

Lemma allocate_hashes IoError l : Forall hash_sized l -> allocate_pieces (IoError := IoError) (concat l) = Ok l.
Proof.
  intros Hl. unfold allocate_pieces. rewrite length_concat_hashes, Nat.mul_comm, Nat.Div0.mod_mul by done. cbn [Nat.eqb negb].
  by rewrite chunks_concat_hashes, copy_chunks_full.
Qed.

Lemma snd_numbered l : map snd (numbered l) = l.
Proof. unfold numbered. generalize 0%nat. induction l as [|h l IH]; intros n; [done|]. cbn. by rewrite IH. Qed.

(** ** Numbers *)

Lemma wrap_swrap n : is_u64 n -> as_u64 (as_i64 n) = n.
Proof.
  intros Hn. unfold in_unsigned in Hn. unfold wrap, swrap. change (64 - 1) with 63. rewrite Zminus_mod_idemp_l.
  replace (n + 2 ^ 63 - 2 ^ 63) with n by lia. by apply Z.mod_small.
Qed.
Lemma swrap_i64 n : is_i64 (as_i64 n).
Proof. unfold in_signed, swrap. change (64 - 1) with 63. pose proof (Z.mod_pos_bound (n + 2 ^ 63) (2 ^ 64) ltac:(lia)). lia. Qed.

(** ** Reading what the builder writes *)

Definition str_ok (s : list Z) : Prop := utf8_valid s = true /\ Z.of_nat (length s) < 2 ^ 63.
Definition file_ok (f : FileInfo) : Prop := is_u64 (fst f) /\ Forall str_ok (snd f).

(** The file read back: the path is joined from its components. *)
Definition read_file (f : FileInfo) : MetaFile := mkMetaFile (fst f) (foldl path_push [] (snd f)) None.

Section Reading.
Context {IoError : Type}.

(** The lookups of a dictionary built by insertions. *)
Ltac lookups := repeat first [rewrite bt_lookup_insert_eq | rewrite bt_lookup_insert_ne by done | rewrite bt_lookup_remove_ne by done].

Lemma convert_built_str `{BConvert} s k : utf8_valid s = true -> convert_str (new_bytes s) k = Ok s.
Proof. intros Hs. unfold convert_str. cbn. by rewrite Hs. Qed.

Lemma push_path_strs_built (cs : list (list Z)) p : Forall str_ok cs ->
  push_path_strs (IoError := IoError) p (map new_bytes cs) = Ok (foldl path_push p cs).
Proof.
  intros Hc. revert p. induction Hc as [|c cs [Hc _] Hcs IH]; intros p; [done|]. cbn [map push_path_strs foldl]. unfold parse_path_str. rewrite convert_built_str by done. apply IH.
Qed.

Lemma parse_files_built fs : Forall file_ok fs -> parse_files (IoError := IoError) (map file_dict fs) = Ok (map read_file fs).
Proof.
  induction 1 as [|f fs [Hl Hp] Hfs IH]; [done|]. cbn [map parse_files]. rewrite IH. cbn [parse_file_dict convert_dict or_wrong_type acc_dict BencodeMut_access file_dict res_bind].
  unfold parse_file_dict, convert_dict, file_dict. cbn [acc_dict BencodeMut_access or_wrong_type res_bind].
  unfold as_multi_file, parse_length, lookup_and_convert_int, parse_md5sum, lookup_and_convert_bytes, parse_path_list, lookup_and_convert_list, convert_lookup.
  lookups. cbn. rewrite push_path_strs_built by done. cbn. by rewrite wrap_swrap.
Qed.

Lemma fill_info_single pl pieces f d : is_u64 pl -> Forall hash_sized pieces -> is_u64 (fst f) -> utf8_valid (concat (snd f)) = true ->
  bt_lookup PRIVATE_KEY d = None -> bt_lookup MD5SUM_KEY d = None ->
  exists d', fill_info (IoError := IoError) pl (concat pieces) None [f] d = Ok d' /\ forall h,
    info_of_dict (IoError := IoError) h d' = Ok (mkInfo h [mkMetaFile (fst f) (concat (snd f)) None] pieces pl None None).
Proof.
  intros Hpl Hps Hlen Hname Hpriv Hmd. eexists. split; [reflexivity|]. intros h.
  unfold info_of_dict, is_multi_file_torrent, as_single_file, parse_piece_length, parse_private, parse_pieces, parse_length, parse_md5sum, parse_name,
    lookup_and_convert_int, lookup_and_convert_bytes, lookup_and_convert_str, convert_lookup.
  lookups. rewrite Hpriv, Hmd. cbn. rewrite allocate_hashes by done. cbn. rewrite convert_built_str by done. cbn. by rewrite !wrap_swrap.
Qed.

Lemma fill_info_multi pl pieces (dir : list Z) fs d : is_u64 pl -> Forall hash_sized pieces -> Forall file_ok fs -> utf8_valid dir = true ->
  bt_lookup PRIVATE_KEY d = None -> bt_lookup LENGTH_KEY d = None ->
  exists d', fill_info (IoError := IoError) pl (concat pieces) (Some dir) fs d = Ok d' /\ forall h,
    info_of_dict (IoError := IoError) h d' = Ok (mkInfo h (map read_file fs) pieces pl None (Some (path_push [] dir))).
Proof.
  intros Hpl Hps Hfs Hdir Hpriv Hlen. eexists. split; [reflexivity|]. intros h.
  unfold info_of_dict, is_multi_file_torrent, parse_piece_length, parse_private, parse_pieces, parse_length, parse_name, parse_files_list,
    lookup_and_convert_int, lookup_and_convert_bytes, lookup_and_convert_str, lookup_and_convert_list, convert_lookup.
  lookups. rewrite Hpriv, Hlen. cbn. rewrite allocate_hashes by done. cbn. rewrite convert_built_str by done. cbn.
  rewrite parse_files_built by done. cbn. by rewrite wrap_swrap.
Qed.

End Reading.

(** * Torrent files: round trips

    A built torrent parses to what was set and to the hashes of its pieces; a parsed
    torrent that is encoded again keeps its pieces, lengths and paths, and loses the
    fields the encoder does not write. *)

(** ** Strings *)

Lemma utf8_valid_app a b : utf8_valid a = true -> utf8_valid b = true -> utf8_valid (a ++ b) = true.
Proof.
  intros Ha Hb. revert a Ha. apply utf8_valid_ind; [done| | | |]; cbn [app utf8_valid].
  - intros c s Hc _ IH. by rewrite (proj2 (Z.ltb_lt c 128)).
  - intros b0 b1 s E0 E1 C1 _ IH. by rewrite E0, E1, C1.
  - intros b0 b1 b2 s E0 E1 E2 C1 C2 _ IH. by rewrite E0, E1, E2, C1, C2.
  - intros b0 b1 b2 b3 s E0 E1 E2 E3 C1 C2 C3 _ IH. by rewrite E0, E1, E2, E3, C1, C2, C3.
Qed.
Lemma utf8_valid_concat l : Forall (fun s => utf8_valid s = true) l -> utf8_valid (concat l) = true.
Proof. induction 1; [done|]. cbn. by apply utf8_valid_app. Qed.

Lemma filter_split_length p : (length (concat (List.filter keep_part (split_sep p))) <= length p)%nat.
Proof.
  assert (Hle : forall l : list (list Z), (length (concat (List.filter keep_part l)) <= length (concat l))%nat).
  { induction l as [|s l IH]; cbn; [done|]. destruct (keep_part s); cbn; rewrite !length_app; lia. }
  etrans; [apply Hle|]. induction p as [|c p IH]; [done|]. cbn [split_sep length]. destruct (c =? MAIN_SEPARATOR); [cbn; lia|].
  destruct (split_sep p) as [|s rest]; cbn in *; lia.
Qed.

Lemma components_length p : (length (concat (components p)) <= S (length p))%nat.
Proof.
  unfold components. pose proof (filter_split_length p) as H. destruct (starts_with_sep p); [cbn; lia|].
  destruct (split_sep p) as [|s rest] eqn:E; [cbn; lia|]. case_bool_decide as Hs; [|lia]. subst s.
  change (List.filter keep_part (CUR_DIR :: rest)) with (List.filter keep_part rest) in H. cbn [concat CUR_DIR app length]. lia.
Qed.

Lemma elem_length_concat (s : list Z) l : s ∈ l -> (length s <= length (concat l))%nat.
Proof. induction 1 as [s l|s t l H IH]; cbn; rewrite length_app; lia. Qed.

(** The file entry of a path: its components, unchanged by the lossy conversion. *)
Lemma file_info_path len p : utf8_valid p = true -> file_info (len, p) = (len, components p).
Proof.
  intros Hv. unfold file_info. cbn. f_equal. apply components_valid in Hv. induction Hv as [|s l Hs Hl IH]; [done|]. cbn. by rewrite to_string_lossy_valid, IH.
Qed.

Definition path_ok (p : list Z) : Prop := utf8_valid p = true /\ Z.of_nat (length p) < 2 ^ 63 - 1.

Lemma components_str_ok p : path_ok p -> Forall str_ok (components p).
Proof.
  intros [Hv Hl]. apply Forall_forall. intros s Hs. split.
  - pose proof (components_valid p Hv) as Hc. rewrite Forall_forall in Hc. by apply Hc.
  - pose proof (elem_length_concat s _ Hs). pose proof (components_length p). lia.
Qed.

(** ** Dictionaries *)

Section Dicts.
Context {IoError : Type}.
Implicit Types (d : list (list Z * BencodeMut)).

Lemma set_or_remove_ok n k o d : Z.of_nat (length k) < 2 ^ 63 -> (forall v, o = Some v -> value_ok n v) -> dict_ok n d -> dict_ok n (set_or_remove k o d).
Proof. intros Hk Ho Hd. destruct o; cbn; [apply dict_ok_insert; auto|by apply dict_ok_remove]. Qed.
Lemma set_or_remove_sorted k o d : bt_sorted d -> bt_sorted (set_or_remove k o d).
Proof. intros Hs. destruct o; cbn; [by apply bt_insert_sorted|by apply bt_remove_sorted]. Qed.
Lemma lookup_set_eq k o d : bt_sorted d -> bt_lookup k (set_or_remove k o d) = o.
Proof. intros Hs. destruct o; cbn; [apply bt_lookup_insert_eq|by apply bt_lookup_remove_eq]. Qed.
Lemma lookup_set_ne k k' o d : k <> k' -> bt_lookup k' (set_or_remove k o d) = bt_lookup k' d.
Proof. intros Hk. destruct o; cbn; [by apply bt_lookup_insert_ne|by apply bt_lookup_remove_ne]. Qed.

Lemma file_dict_ok f : file_ok f -> value_ok 3 (file_dict f).
Proof.
  intros [Hl Hp]. apply value_ok_dict. apply dict_ok_insert; [done| |apply dict_ok_insert; [done|apply value_ok_int, swrap_i64|apply dict_ok_nil]].
  apply value_ok_list. apply Forall_map. eapply Forall_impl; [exact Hp|]. intros s [_ Hs]. by apply value_ok_bytes.
Qed.

Lemma fill_info_ok pl pieces dir fs d d' : fill_info (IoError := IoError) pl pieces dir fs d = Ok d' ->
  Z.of_nat (length pieces) < 2 ^ 63 -> (forall s, dir = Some s -> Z.of_nat (length s) < 2 ^ 63) -> Forall file_ok fs ->
  (forall f, fs = [f] -> Z.of_nat (length (concat (snd f))) < 2 ^ 63) -> dict_ok 4 d -> dict_ok 4 d'.
Proof.
  intros E Hp Hdir Hfs Hname Hd. unfold fill_info in E.
  assert (Hbase : dict_ok 4 (bt_insert PIECES_KEY (new_bytes pieces) (bt_insert PIECE_LENGTH_KEY (new_int (as_i64 pl)) d))).
  { apply dict_ok_insert; [done|by apply value_ok_bytes|]. apply dict_ok_insert; [done|apply value_ok_int, swrap_i64|done]. }
  assert (Hfiles : value_ok 4 (files_list fs)).
  { apply value_ok_list, Forall_map. eapply Forall_impl; [exact Hfs|]. apply file_dict_ok. }
  destruct dir as [s|]; [|destruct (1 <? length fs)%nat eqn:El].
  - injection E as <-. apply dict_ok_insert; [done|done|]. apply dict_ok_insert; [done|apply value_ok_bytes; by apply Hdir|done].
  - injection E as <-. apply dict_ok_insert; [done|done|]. apply dict_ok_insert; [done|by apply value_ok_bytes|done].
  - destruct fs as [|f [|g fs]]; [done| |done]. injection E as <-. apply dict_ok_insert; [done|apply value_ok_bytes; by apply Hname|].
    apply dict_ok_insert; [done|apply value_ok_int, swrap_i64|done].
Qed.

(** ** The root *)

Record settings : Type := mkSettings {
  st_trackers : option (list (list (list Z)));
  st_main_tracker : option (list Z);
  st_creation_date : option Z;
  st_comment : option (list Z);
  st_created_by : option (list Z)
}.

Record settings_ok (s : settings) : Prop := {
  so_trackers : forall l, st_trackers s = Some l -> Forall (Forall str_ok) l;
  so_main : forall t, st_main_tracker s = Some t -> str_ok t;
  so_date : forall n, st_creation_date s = Some n -> is_i64 n;
  so_comment : forall t, st_comment s = Some t -> str_ok t;
  so_created : forall t, st_created_by s = Some t -> str_ok t
}.

Definition root_of (s : settings) : list (list Z * BencodeMut) :=
  set_or_remove CREATED_BY_KEY (new_bytes <$> st_created_by s)
    (set_or_remove COMMENT_KEY (new_bytes <$> st_comment s)
      (set_or_remove CREATION_DATE_KEY (new_int <$> st_creation_date s)
        (set_or_remove ANNOUNCE_URL_KEY (new_bytes <$> st_main_tracker s)
          (set_or_remove ANNOUNCE_LIST_KEY (trackers_list <$> st_trackers s) [])))).

Lemma bytes_setting_ok n (o : option (list Z)) : (forall t, o = Some t -> str_ok t) -> forall v, new_bytes <$> o = Some v -> value_ok (S n) v.
Proof. intros Ho v. destruct o as [t|]; [|done]. intros [= <-]. apply value_ok_bytes. by apply Ho. Qed.

Lemma trackers_ok l : Forall (Forall str_ok) l -> value_ok 5 (trackers_list l).
Proof.
  intros Hl. apply value_ok_list, Forall_map. eapply Forall_impl; [exact Hl|]. intros g Hg. apply value_ok_list, Forall_map.
  eapply Forall_impl; [exact Hg|]. intros s [_ Hs]. by apply value_ok_bytes.
Qed.

Lemma root_ok s : settings_ok s -> dict_ok 5 (root_of s).
Proof.
  intros [Ht Hm Hd Hc Hb]. unfold root_of.
  repeat (apply set_or_remove_ok; [done| |]); [by apply bytes_setting_ok|by apply bytes_setting_ok| |by apply bytes_setting_ok| |apply dict_ok_nil].
  - destruct (st_creation_date s) as [n|]; [|done]. intros v [= <-]. apply value_ok_int. by apply Hd.
  - destruct (st_trackers s) as [l|]; [|done]. intros v [= <-]. apply trackers_ok. by apply Ht.
Qed.

Ltac root_lookup :=
  unfold root_of; repeat (rewrite lookup_set_ne by done);
  rewrite ?lookup_set_eq by (repeat apply set_or_remove_sorted; constructor).

Lemma convert_trackers l : Forall (Forall str_ok) l -> convert_announce_list (map (fun group => MList (map new_bytes group)) l) = l.
Proof.
  unfold convert_announce_list. induction 1 as [|g l Hg Hl IH]; [done|].
  change (omap acc_str (map new_bytes g) :: map (omap acc_str) (omap acc_list (map (fun group => MList (map new_bytes group)) l)) = g :: l).
  rewrite IH. f_equal. clear -Hg. induction Hg as [|t g [Ht _] Hg IH]; [done|]. cbn. rewrite Ht. cbn. by f_equal.
Qed.

#[local] Existing Instance MetainfoConverter.

Lemma read_bytes_setting k (o : option (list Z)) d : bt_lookup k d = new_bytes <$> o -> (forall t, o = Some t -> str_ok t) ->
  res_ok (lookup_and_convert_str (H := MetainfoConverter (IoError := IoError)) d k) = o.
Proof.
  intros Hk Ho. unfold lookup_and_convert_str, convert_lookup. rewrite Hk. destruct o as [t|]; [|done]. cbn [fmap option_fmap option_map res_bind].
  by rewrite convert_built_str by (by apply Ho).
Qed.

Lemma read_trackers s d : bt_lookup ANNOUNCE_LIST_KEY d = trackers_list <$> st_trackers s -> settings_ok s ->
  convert_announce_list <$> parse_announce_list (IoError := IoError) d = st_trackers s.
Proof.
  intros Hk [Ht _ _ _ _]. unfold parse_announce_list, lookup_and_convert_list, convert_lookup. rewrite Hk.
  destruct (st_trackers s) as [l|]; [|done]. cbn. by rewrite convert_trackers by (by apply Ht).
Qed.

Lemma read_date s d : bt_lookup CREATION_DATE_KEY d = new_int <$> st_creation_date s -> parse_creation_date (IoError := IoError) d = st_creation_date s.
Proof. intros Hk. unfold parse_creation_date, lookup_and_convert_int, convert_lookup. rewrite Hk. by destruct (st_creation_date s). Qed.

(** A root dictionary written by the builder parses to its settings, and its info is
    hashed from the text the info dictionary is encoded to. *)
Lemma parse_root sha1 s infod : settings_ok s -> dict_ok 4 infod ->
  Metainfo_from_bytes (IoError := IoError) sha1 (BencodeMut_encode (MDict (bt_insert INFO_KEY (MDict infod) (root_of s)))) =
  let? info := info_of_dict (ShaHash_from_bytes sha1 (BencodeMut_encode (MDict infod))) infod in
  Ok (mkMetainfo (st_comment s) (st_main_tracker s) (st_trackers s) None (st_created_by s) (st_creation_date s) info).
Proof.
  intros Hs Hi. set (root := bt_insert INFO_KEY (MDict infod) (root_of s)).
  assert (Hroot : dict_ok 5 root) by (apply dict_ok_insert; [done|by apply value_ok_dict|by apply root_ok]).
  destruct (decode_encoded_dict 5 root Hroot ltac:(vm_compute; lia)) as (rl & Hdec & Hf2 & _).
  unfold Metainfo_from_bytes, parse_meta_bytes. rewrite Hdec. cbn [map_err res_bind]. unfold parse_root_dict, convert_dict. cbn [acc_dict BencodeRef_access or_wrong_type res_bind].
  rewrite announce_list_erase. unfold parse_announce_url, parse_comment, parse_encoding, parse_created_by, parse_creation_date, parse_info_bencode.
  rewrite !lookup_str_erase, lookup_int_erase, (decoded_erase _ _ Hf2).
  pose proof (decoded_lookup _ _ INFO_KEY Hf2) as Hinfo. unfold root in Hinfo. rewrite bt_lookup_insert_eq in Hinfo. destruct Hinfo as (r & Hr & Her & Hbuf).
  unfold convert_lookup at 1. rewrite Hr. cbn [res_bind]. pose proof Hs as [Ht Hm Hd Hc Hb].
  rewrite (read_trackers s), (read_bytes_setting ANNOUNCE_URL_KEY (st_main_tracker s)), (read_bytes_setting COMMENT_KEY (st_comment s)),
    (read_bytes_setting CREATED_BY_KEY (st_created_by s)), (read_bytes_setting ENCODING_KEY None);
    try done; try (unfold root; rewrite bt_lookup_insert_ne by done; by root_lookup).
  fold (parse_creation_date (IoError := IoError) root). rewrite (read_date s) by (unfold root; rewrite bt_lookup_insert_ne by done; by root_lookup).
  unfold parse_info_dictionary. rewrite Hbuf. destruct (value_ok_dict 4 infod Hi) as [Hok _].
  assert (Henc : BencodeMut_encode (MDict infod) = enc (MDict infod)) by (unfold BencodeMut_encode; by rewrite encode_enc). rewrite Henc.
  destruct r as [| | |rd rb]; try done. cbn in Her. injection Her as Her. unfold parse_root_dict, convert_dict. cbn [acc_dict BencodeRef_access or_wrong_type res_bind].
  rewrite info_of_dict_erase. unfold erase_entries. by rewrite Her.
Qed.

Lemma parse_info_root sha1 infod : dict_ok 4 infod ->
  Info_from_bytes (IoError := IoError) sha1 (BencodeMut_encode (MDict infod)) =
  info_of_dict (ShaHash_from_bytes sha1 (BencodeMut_encode (MDict infod))) infod.
Proof.
  intros Hi. destruct (decode_encoded_dict 4 infod Hi ltac:(vm_compute; lia)) as (rl & Hdec & Hf2 & _).
  unfold Info_from_bytes, parse_info_bytes. rewrite Hdec. cbn [map_err res_bind]. unfold parse_info_dictionary, parse_root_dict, convert_dict.
  cbn [acc_dict BencodeRef_access or_wrong_type res_bind ref_buffer]. by rewrite info_of_dict_erase, (decoded_erase _ _ Hf2).
Qed.

End Dicts.
