(* ===== verification/MetainfoRoundtrip.v ===== *)
(** * Torrent files: built and encoded again *)

From S2P Require Import Prelude RustStd BTree Bencode BencodeGrammar BencodeCanon BencodeSpec Words UtilSha Paths BencodeAccess BencodeEntries Metainfo MetainfoHasher MetainfoHasherInv MetainfoHasherSpec MetainfoBuilder MetainfoFacts.

(** ** Building *)

(** A builder with every setting made. *)
Definition configure {IoError} (s : settings) (private : option bool) (piece_length : PieceLength) : res (MetaParseError IoError) MetainfoBuilder :=
  let? b := set_trackers (st_trackers s) MetainfoBuilder_new in
  let? b := set_main_tracker (st_main_tracker s) b in
  let? b := set_creation_date (st_creation_date s) b in
  let? b := set_comment (st_comment s) b in
  let? b := set_created_by (st_created_by s) b in
  let? b := set_private_flag private b in
  Ok (set_piece_length piece_length b).

(** The flag is inserted and, since there was none before, removed again. *)
Lemma configure_Ok IoError s private piece_length :
  configure (IoError := IoError) s private piece_length = Ok (mkMetainfoBuilder (MDict (root_of s)) (mkInfoBuilder (MDict []) piece_length)).
Proof. destruct private as [[]|]; reflexivity. Qed.

Section Building.
Context {A R IoError : Type} `{HR : Read R IoError} {RL : ReadLaws R IoError} `{HA : Accessor A R IoError}.
Context (sha1 : list Z -> list Z) (fuel : nat) (sched : nat -> nat).

Lemma total_len_Ok acc (fs : list FileInfo) : 0 <= acc -> Forall (fun f => 0 <= fst f) fs -> acc + foldr (fun f n => fst f + n) 0 fs < 2 ^ 64 ->
  total_len (IoError := IoError) acc fs = Ok (acc + foldr (fun f n => fst f + n) 0 fs).
Proof.
  intros Ha Hf. revert acc Ha. induction Hf as [|f fs Hf Hfs IH]; intros acc Ha Hs; cbn [foldr total_len] in *; [by rewrite Z.add_0_r|].
  assert (Hn : 0 <= foldr (fun f n => fst f + n) 0 fs) by (clear -Hfs; induction Hfs; cbn; lia).
  rewrite (proj2 (Z.ltb_lt _ _)) by lia. rewrite IH by lia. f_equal. lia.
Qed.

Lemma build_filled threads (accessor : A) opt_root opt pl entries hs d t : (0 < threads)%nat -> determine_piece_length (E := MetaParseError IoError) t opt = Ok pl ->
  access_metadata accessor = (entries, None) -> total_len (IoError := IoError) 0 (map file_info entries) = Ok t ->
  start_hasher_workers sha1 fuel sched accessor pl threads = Ok (numbered hs) ->
  fill_info (IoError := IoError) pl (map_pieces_list hs) (to_string_lossy <$> access_directory accessor) (map file_info entries) [] = Ok d ->
  build_with_accessor sha1 fuel sched threads accessor opt_root (MDict []) opt =
  match opt_root with
  | Some root => let? root := with_dict root (bt_insert INFO_KEY (MDict d)) in Ok (BencodeMut_encode root)
  | None => Ok (BencodeMut_encode (MDict d))
  end.
Proof.
  intros Ht Hopt Hm Hl Hh Hf. unfold build_with_accessor. rewrite (proj2 (Nat.eqb_neq threads 0)) by lia. rewrite Hm. cbn [res_bind]. rewrite Hl.
  cbn [res_bind]. rewrite Hopt. cbn [res_bind]. rewrite Hh. cbn [map_err res_bind]. rewrite snd_numbered, Hf. done.
Qed.

End Building.

Lemma chunks_count {X} n (l : list X) : (length (chunks n l) <= length l)%nat.
Proof.
  unfold chunks. generalize (length l) as k. intros k. revert l. induction k as [|k IH]; intros l; [done|]. destruct l; cbn [chunks_fuel length]; [lia|].
  apply le_n_S, IH.
Qed.

Lemma pieces_size sha1 n (l : list Z) : length (concat (map sha_bytes (map (ShaHash_from_bytes sha1) (chunks n l)))) = (20 * length (chunks n l))%nat /\
  Forall hash_sized (map sha_bytes (map (ShaHash_from_bytes sha1) (chunks n l))).
Proof.
  assert (Hp : Forall hash_sized (map sha_bytes (map (ShaHash_from_bytes sha1) (chunks n l)))).
  { rewrite map_map. apply Forall_map, Forall_true. intros c. apply length_digest. }
  split; [|done]. by rewrite length_concat_hashes, !length_map by done.
Qed.

(** Hashing a file in memory. *)
Lemma direct_hashes IoError sha1 fuel sched threads name contents pl : (0 < threads)%nat -> 0 < pl <= MAX_CAPACITY ->
  (hash_bound (R := Cursor) (IoError := IoError) [Compute contents] threads <= fuel)%nat ->
  start_hasher_workers (R := Cursor) (IoError := IoError) sha1 fuel sched (DirectAccessor_new name contents) pl threads =
  Ok (numbered (map (ShaHash_from_bytes sha1) (chunks (Z.to_nat pl) contents))).
Proof.
  intros Ht Hpl Hf. rewrite start_outcome by (done || lia). cbn [access_pieces DirectAccessor_accessor fst snd da_file_contents].
  change [Compute contents] with (map Compute [contents : Cursor]). rewrite accesses_chunks; [|lia|cbn; lia|by intros ? ? ?].
  cbn [default map concat]. unfold outcome. cbn [fst snd]. by rewrite app_nil_r.
Qed.

(** A setting of the piece length that can be used: the automatic ones always can. *)
Definition piece_length_ok (opt : PieceLength) : Prop := match opt with Custom len => 0 < len <= MAX_CAPACITY | _ => True end.

Lemma calculated_bounds {E} total max_pieces min_piece pl : calculate_piece_length (E := E) total max_pieces min_piece = Ok pl -> 0 < min_piece <= ALL_OPT_MAX_PIECE_LENGTH ->
  0 < pl <= ALL_OPT_MAX_PIECE_LENGTH.
Proof.
  intros E1 Hmin. unfold calculate_piece_length in E1. apply res_bind_Ok in E1 as (pot & _ & E1). injection E1 as <-.
  destruct (Z.ltb_spec min_piece pot), (Z.ltb_spec pot ALL_OPT_MAX_PIECE_LENGTH); unfold ALL_OPT_MAX_PIECE_LENGTH in *; lia.
Qed.

Lemma determined_bounds {E} total opt pl : determine_piece_length (E := E) total opt = Ok pl -> piece_length_ok opt -> 0 < pl <= MAX_CAPACITY.
Proof.
  intros E1 Ho. assert (Hm : ALL_OPT_MAX_PIECE_LENGTH <= MAX_CAPACITY) by (vm_compute; done). destruct opt as [| | |len]; cbn [determine_piece_length] in E1;
    [apply calculated_bounds in E1; [lia|by vm_compute]..|by injection E1 as <-].
Qed.

(** C10: A torrent built from a file in memory, with any settings, number of worker threads
    and schedule of them, parses back. The piece length is any positive one or one of the
    three computed from the size of the data, as long as the computation does not overflow.
    The settings are those that were made (except the private flag, which is never
    written), the file has its length, the pieces are the hashes of the consecutive chunks
    of the contents, and the info hash is the hash of the info dictionary the same data
    builds to. The texts of the settings are UTF-8 and the name is a path that is. *)
Theorem built_torrent_reads_back {IoError : Type} (sha1 : list Z -> list Z) (fuel : nat) (sched : nat -> nat) (threads : nat)
    (name contents : list Z) (opt : PieceLength) (pl : Z) (s : settings) (private : option bool) :
  (0 < threads)%nat -> piece_length_ok opt -> determine_piece_length (E := MetaParseError IoError) (Z.of_nat (length contents)) opt = Ok pl ->
  path_ok name -> 20 * (Z.of_nat (length contents) + 1) < 2 ^ 63 -> settings_ok s ->
  (hash_bound (R := Cursor) (IoError := IoError) [Compute contents] threads <= fuel)%nat ->
  exists b bytes info_bytes,
    configure (IoError := IoError) s private opt = Ok b /\
    MetainfoBuilder_build (R := Cursor) (IoError := IoError) sha1 fuel sched threads (DirectAccessor_new name contents) b = Ok bytes /\
    InfoBuilder_build (R := Cursor) (IoError := IoError) sha1 fuel sched threads (DirectAccessor_new name contents) (mb_info b) = Ok info_bytes /\
    Metainfo_from_bytes (IoError := IoError) sha1 bytes = Ok (mkMetainfo (st_comment s) (st_main_tracker s) (st_trackers s) None (st_created_by s) (st_creation_date s)
      (mkInfo (ShaHash_from_bytes sha1 info_bytes) [mkMetaFile (Z.of_nat (length contents)) (concat (components name)) None]
        (map (fun c => sha_bytes (ShaHash_from_bytes sha1 c)) (chunks (Z.to_nat pl) contents)) pl None None)).
Proof.
  intros Ht Hopt Epl Hname Hlen Hs Hfuel. pose proof (determined_bounds _ _ _ Epl Hopt) as Hpl. set (hs := map (ShaHash_from_bytes sha1) (chunks (Z.to_nat pl) contents)).
  pose proof (direct_hashes IoError sha1 fuel sched threads name contents pl Ht Hpl Hfuel) as Hhash. fold hs in Hhash.
  set (f := (Z.of_nat (length contents), components name)).
  assert (Hfi : map file_info [(Z.of_nat (length contents), name)] = [f]) by (cbn [map]; rewrite file_info_path; [done|apply Hname]).
  destruct (pieces_size sha1 (Z.to_nat pl) contents) as [Hpsize Hpieces]. fold hs in Hpsize, Hpieces.
  assert (Hu : is_u64 (Z.of_nat (length contents))) by (unfold in_unsigned; lia).
  destruct (fill_info_single (IoError := IoError) pl (map sha_bytes hs) f []) as (d & Hd & Hread);
    [unfold in_unsigned, MAX_CAPACITY in *; lia|done|done|by apply utf8_valid_concat, components_valid, Hname|done|done|].
  assert (Hok : dict_ok 4 d).
  { pose proof (chunks_count (Z.to_nat pl) contents). eapply fill_info_ok; [exact Hd|lia|done| | |apply dict_ok_nil].
    - constructor; [|constructor]. split; [apply Hu|by apply components_str_ok].
    - intros g [= <-]. pose proof (components_length name). destruct Hname. cbn. lia. }
  assert (Htl : total_len (IoError := IoError) 0 [f] = Ok (Z.of_nat (length contents))).
  { rewrite total_len_Ok; [cbn; f_equal; lia|done|repeat constructor; cbn; lia|cbn; lia]. }
  rewrite configure_Ok. do 3 eexists. split; [reflexivity|]. unfold MetainfoBuilder_build, InfoBuilder_build. cbn [mb_root mb_info ib_info ib_piece_length].
  pose proof (fun root => build_filled sha1 fuel sched threads (DirectAccessor_new name contents) root opt pl [(Z.of_nat (length contents), name)] hs d
    (Z.of_nat (length contents)) Ht Epl eq_refl ltac:(rewrite Hfi; exact Htl) Hhash ltac:(rewrite Hfi; exact Hd)) as Hbuild.
  rewrite !Hbuild. split; [reflexivity|]. split; [reflexivity|]. rewrite parse_root, Hread by done. cbn [res_bind]. unfold hs. by rewrite map_map.
Qed.

Definition sample_settings : settings :=
  mkSettings (Some [[bs "udp://a"]; [bs "udp://b"; bs "udp://c"]]) (Some (bs "udp://a")) (Some 1500000000) (Some (bs "c")) None.

Lemma sample_settings_ok : settings_ok sample_settings.
Proof.
  split; cbn; intros ? [= <-]; try (unfold in_signed; lia); repeat constructor.
Qed.

(** Pieces of sixteen bytes, and a piece length computed for transfer. *)
Lemma built_torrent_reads_back_witness :
  let data := bs "0123456789abcdefghijABCDEFGHIJKLMNOPQRSTU" in
  let reads_back opt pl pieces := exists b bytes info_bytes,
    configure (IoError := unit) sample_settings (Some true) opt = Ok b /\
    MetainfoBuilder_build (R := Cursor) (IoError := unit) (fun l => l) 600 (fun n => n) 2 (DirectAccessor_new (bs "f") data) b = Ok bytes /\
    InfoBuilder_build (R := Cursor) (IoError := unit) (fun l => l) 600 (fun n => n) 2 (DirectAccessor_new (bs "f") data) (mb_info b) = Ok info_bytes /\
    Metainfo_from_bytes (IoError := unit) (fun l => l) bytes = Ok (mkMetainfo (Some (bs "c")) (Some (bs "udp://a")) (Some [[bs "udp://a"]; [bs "udp://b"; bs "udp://c"]]) None None
      (Some 1500000000) (mkInfo (ShaHash_from_bytes (fun l => l) info_bytes) [mkMetaFile 41 (bs "f") None]
        (map (fun c => sha_bytes (ShaHash_from_bytes (fun l => l) c)) pieces) pl None None)) in
  reads_back (Custom 16) 16 [bs "0123456789abcdef"; bs "ghijABCDEFGHIJKL"; bs "MNOPQRSTU"] /\ reads_back OptTransfer 1024 [data].
Proof.
  intros data reads_back.
  split; [apply (built_torrent_reads_back (IoError := unit) (fun l => l) 600 (fun n => n) 2 (bs "f") data (Custom 16) 16 sample_settings (Some true))
         |apply (built_torrent_reads_back (IoError := unit) (fun l => l) 600 (fun n => n) 2 (bs "f") data OptTransfer 1024 sample_settings (Some true))];
    first [lia|exact sample_settings_ok|split; [reflexivity|vm_compute; reflexivity]|vm_compute; reflexivity|apply Nat.leb_le; vm_compute; reflexivity|exact I|unfold piece_length_ok, MAX_CAPACITY; lia].
Defined.

(** ** Parsed torrents *)

(** What parsing guarantees of an [Info]. *)
Record info_wf (info : Info) : Prop := {
  iw_piece_len : is_u64 (in_piece_len info);
  iw_pieces : Forall hash_sized (in_pieces info);
  iw_files : Forall (fun f => is_u64 (mf_len f) /\ utf8_valid (mf_path f) = true) (in_files info);
  iw_shape : match in_file_directory info with Some dir => utf8_valid dir = true | None => exists f, in_files info = [f] end
}.

Lemma path_push_nil p : path_push [] p = p.
Proof. unfold path_push. by destruct (starts_with_sep p). Qed.

Lemma path_push_valid p e : utf8_valid p = true -> utf8_valid e = true -> utf8_valid (path_push p e) = true.
Proof.
  intros Hp He. unfold path_push. destruct (starts_with_sep e); [done|]. destruct (_ || _); [by apply utf8_valid_app|].
  apply utf8_valid_app; [done|]. cbn. done.
Qed.

Section Parsed.
Context {IoError : Type}.
#[local] Existing Instance MetainfoConverter.
Implicit Types (d : list (list Z * BencodeRef)).

Lemma convert_str_valid (r : BencodeRef) k t : convert_str (H := MetainfoConverter (IoError := IoError)) r k = Ok t -> utf8_valid t = true.
Proof. unfold convert_str. cbn. unfold ref_str_ext. destruct r as [|b| |]; try done. cbn. by destruct (utf8_valid b) eqn:E; [intros [= <-]|]. Qed.

Lemma parse_length_u64 d n : parse_length (IoError := IoError) d = Ok n -> is_u64 n.
Proof. unfold parse_length. intros H. res_inv. by apply wrap_in_unsigned. Qed.

Lemma parse_name_valid d t : parse_name (IoError := IoError) d = Ok t -> utf8_valid t = true.
Proof. unfold parse_name, lookup_and_convert_str. intros H. res_inv. by eapply convert_str_valid. Qed.

Lemma push_path_strs_valid (l : list BencodeRef) p q : utf8_valid p = true -> push_path_strs (IoError := IoError) p l = Ok q -> utf8_valid q = true.
Proof.
  revert p. induction l as [|r l IH]; intros p Hp H; cbn [push_path_strs] in H; [by injection H as <-|]. apply res_bind_Ok in H as (t & Ht & H).
  eapply IH; [|exact H]. apply path_push_valid; [done|by eapply convert_str_valid].
Qed.

Lemma parse_files_wf (l : list BencodeRef) fs : parse_files (IoError := IoError) l = Ok fs ->
  Forall (fun f => is_u64 (mf_len f) /\ utf8_valid (mf_path f) = true) fs.
Proof.
  revert fs. induction l as [|r l IH]; intros fs H; cbn [parse_files] in H; [by injection H as <-|].
  apply res_bind_Ok in H as (d & _ & H). apply res_bind_Ok in H as (f & Hf & H). apply res_bind_Ok in H as (fs' & Hfs & [= <-]). constructor; [|by apply IH].
  unfold as_multi_file in Hf. apply res_bind_Ok in Hf as (n & Hn & Hf). apply res_bind_Ok in Hf as (pl & _ & Hf). apply res_bind_Ok in Hf as (p & Hp & [= <-]). cbn.
  split; [by eapply parse_length_u64|by eapply (push_path_strs_valid _ [])].
Qed.

Lemma copy_chunks_sized h l : length h = SHA_HASH_LEN -> Forall hash_sized (copy_chunks h l).
Proof.
  revert h. induction l as [|c l IH]; intros h Hh; cbn; [constructor|]. assert (length (zip_copy h c) = SHA_HASH_LEN) by (by rewrite length_zip_copy).
  constructor; [done|by apply IH].
Qed.

Lemma parsed_info_wf h d info : info_of_dict (IoError := IoError) h d = Ok info -> info_wf info.
Proof.
  unfold info_of_dict. intros H. apply res_bind_Ok in H as (pl & Hpl & H). apply res_bind_Ok in H as (ps & _ & H). apply res_bind_Ok in H as (bufs & Hb & H).
  assert (Hl : is_u64 pl) by (unfold parse_piece_length in Hpl; res_inv; by apply wrap_in_unsigned).
  assert (Hs : Forall hash_sized bufs).
  { unfold allocate_pieces in Hb. destruct (negb _); [done|]. injection Hb as <-. by apply copy_chunks_sized. }
  destruct (is_multi_file_torrent d).
  - apply res_bind_Ok in H as (dir & Hdir & H). apply res_bind_Ok in H as (fb & _ & H). apply res_bind_Ok in H as (fs & Hfs & [= <-]).
    split; cbn; [done|done|by eapply parse_files_wf|]. rewrite path_push_nil. by eapply parse_name_valid.
  - apply res_bind_Ok in H as (f & Hf & [= <-]). unfold as_single_file in Hf. apply res_bind_Ok in Hf as (n & Hn & Hf). apply res_bind_Ok in Hf as (name & Hname & [= <-]).
    split; cbn; [done|done| |by eexists]. repeat constructor; cbn; [by eapply parse_length_u64..|by eapply parse_name_valid].
Qed.

(** The strings and the date of a parsed torrent are values the encoder can write. *)
Lemma parsed_str k d t : mut_ok (MDict (erase_entries d)) -> res_ok (lookup_and_convert_str (H := MetainfoConverter (IoError := IoError)) d k) = Some t -> str_ok t.
Proof.
  intros Hok H. destruct (lookup_and_convert_str d k) as [t'| | |] eqn:E; try done. injection H as ->. unfold lookup_and_convert_str in E.
  apply res_bind_Ok in E as (r & Hr & Ht). split; [by eapply convert_str_valid|]. unfold convert_lookup in Hr. destruct (bt_lookup k d) as [r'|] eqn:El; [|done]. injection Hr as ->.
  inversion Hok as [| | |? _ _ Hv]; subst. assert (Hl : bt_lookup k (erase_entries d) = Some (ref_erase r)) by (by rewrite erase_lookup, El).
  apply bt_lookup_elem in Hl. rewrite Forall_forall in Hv. specialize (Hv _ Hl). cbn in Hv. unfold convert_str in Ht. cbn in Ht. unfold ref_str_ext in Ht.
  destruct r as [|b| |]; try done. cbn in Ht. destruct (utf8_valid b); [|done]. injection Ht as <-. by inversion Hv.
Qed.

Lemma parsed_date k d n : mut_ok (MDict (erase_entries d)) -> res_ok (lookup_and_convert_int (H := MetainfoConverter (IoError := IoError)) d k) = Some n -> is_i64 n.
Proof.
  intros Hok H. rewrite lookup_int_erase in H. unfold lookup_and_convert_int, convert_lookup in H.
  destruct (bt_lookup k (erase_entries d)) as [v|] eqn:El; [|done]. cbn in H. unfold convert_int in H. destruct v as [m| | |]; try done. injection H as ->.
  inversion Hok as [| | |? _ _ Hv]; subst. apply bt_lookup_elem in El. rewrite Forall_forall in Hv. specialize (Hv _ El). by inversion Hv.
Qed.

Lemma parsed_settings sha1 bytes m : Metainfo_from_bytes (IoError := IoError) sha1 bytes = Ok m ->
  settings_ok (mkSettings None (mi_announce m) (mi_creation_date m) (mi_comment m) (mi_created_by m)) /\ info_wf (mi_info m).
Proof.
  unfold Metainfo_from_bytes, parse_meta_bytes. intros H. apply res_bind_Ok in H as (root & Hr & H). apply map_err_Ok in Hr.
  apply decode_well_formed in Hr as [Hok _]. apply res_bind_Ok in H as (d & Hd & H). unfold parse_root_dict, convert_dict in Hd.
  destruct root as [| | |rd rb]; try done. injection Hd as ->. apply res_bind_Ok in H as (ib & _ & H). apply res_bind_Ok in H as (info & Hi & [= <-]).
  unfold parse_info_dictionary in Hi. apply res_bind_Ok in Hi as (d' & _ & Hi). split; [|by eapply parsed_info_wf].
  split; cbn; [done| | | |]; intros ? Hx; (by eapply parsed_str) || by eapply parsed_date.
Qed.

End Parsed.

(** ** Encoding again *)

Lemma collect_drop {X} n i (l : list X) : n = (length l - i)%nat -> SliceIter_collect n (mkSliceIter i l) = drop i l.
Proof.
  revert i. induction n as [|n IH]; intros i Hn; cbn [SliceIter_collect]; [by rewrite drop_ge by lia|]. unfold SliceIter_next. cbn.
  destruct (lookup_lt_is_Some_2 l i ltac:(lia)) as [x Hx]. rewrite Hx. rewrite IH by lia. rewrite (drop_S l x i) by done. by rewrite Nat.add_1_r.
Qed.
Lemma collect_all {X} (l : list X) : SliceIter_collect (length l) (SliceIter_new l) = l.
Proof. unfold SliceIter_new. by rewrite collect_drop by lia. Qed.

(** Precomputed hashes are taken over. *)
Lemma precomputed_hashes IoError sha1 (ps : list (list Z)) pl p : Forall hash_sized ps -> p = None \/ p = Some [] ->
  accesses_ref (R := Cursor) (IoError := IoError) sha1 pl None (map piece_access ps) p = (map mkShaHash ps, None).
Proof.
  intros Hps Hp. induction Hps as [|x ps Hx Hps IH]; [by destruct Hp as [-> | ->]|]. cbn [map accesses_ref piece_access]. rewrite IH.
  unfold ShaHash_from_hash. rewrite Hx, Nat.eqb_refl. cbn [negb]. by rewrite zip_copy_full by (by rewrite length_replicate).
Qed.

Lemma info_hashes IoError sha1 sched info pl : Forall hash_sized (in_pieces info) -> 0 <= pl <= MAX_CAPACITY ->
  start_hasher_workers (R := Cursor) (IoError := IoError) sha1 (encode_fuel info) sched info pl 1 = Ok (numbered (map mkShaHash (in_pieces info))).
Proof.
  intros Hps Hpl. rewrite start_outcome; [|lia|done|].
  - cbn [access_pieces Info_accessor fst snd]. unfold Info_pieces. rewrite collect_all, precomputed_hashes by auto. done.
  - cbn [access_pieces Info_accessor fst]. unfold Info_pieces. rewrite collect_all. unfold hash_bound, accesses_weight, encode_fuel.
    assert (sum_list_with (access_weight (R := Cursor) (IoError := IoError)) (map piece_access (in_pieces info)) = length (in_pieces info)) as ->; [|lia].
    clear. induction (in_pieces info) as [|x l IH]; cbn; lia.
Qed.

(** Sizes that the encoder can handle: those of allocated values, a sum of lengths that
    fits, a piece length that can be allocated, and a single file's name without
    separators. *)
Record reencodable (info : Info) : Prop := {
  re_piece_len : in_piece_len info <= MAX_CAPACITY;
  re_total : foldr (fun f n => mf_len f + n) 0 (in_files info) < 2 ^ 64;
  re_pieces : 20 * Z.of_nat (length (in_pieces info)) < 2 ^ 63;
  re_paths : Forall (fun f => Z.of_nat (length (mf_path f)) < 2 ^ 63 - 1) (in_files info);
  re_dir : forall dir, in_file_directory info = Some dir -> Z.of_nat (length dir) < 2 ^ 63;
  re_single : in_file_directory info = None -> Forall (fun f => no_sep (mf_path f)) (in_files info)
}.

(** What is kept: pieces, piece length, lengths, paths up to their spelling, directory.
    The private flag and the checksums are not. *)
Record same_torrent (info info' : Info) : Prop := {
  sa_pieces : in_pieces info' = in_pieces info;
  sa_piece_len : in_piece_len info' = in_piece_len info;
  sa_files : Forall2 (fun f f' => mf_len f' = mf_len f /\ path_eq (mf_path f') (mf_path f) /\ mf_md5sum f' = None) (in_files info) (in_files info');
  sa_dir : in_file_directory info' = in_file_directory info;
  sa_private : in_is_private info' = None
}.

Definition entry_of (f : MetaFile) : FileInfo := (mf_len f, components (mf_path f)).

Lemma entries_of fs : Forall (fun f => is_u64 (mf_len f) /\ utf8_valid (mf_path f) = true) fs ->
  map file_info (map (fun f => (mf_len f, mf_path f)) fs) = map entry_of fs.
Proof. induction 1 as [|f fs [_ Hv] Hfs IH]; [done|]. cbn [map]. by rewrite IH, file_info_path by done. Qed.

Lemma total_entries fs : foldr (fun (f : FileInfo) n => fst f + n) 0 (map entry_of fs) = foldr (fun f n => mf_len f + n) 0 fs.
Proof. induction fs as [|f fs IH]; [done|]. cbn. by rewrite IH. Qed.

Lemma entries_file_ok info : info_wf info -> reencodable info -> Forall file_ok (map entry_of (in_files info)).
Proof.
  intros Hwf Hre. apply Forall_map. pose proof (iw_files _ Hwf) as Hf. pose proof (re_paths _ Hre) as Hp. rewrite Forall_forall in Hf, Hp |- *.
  intros f Hin. destruct (Hf _ Hin) as [Hu Hv]. split; [done|]. apply components_str_ok. split; [done|by apply Hp].
Qed.

Lemma single_name_length info : reencodable info -> forall f : FileInfo, map entry_of (in_files info) = [f] -> Z.of_nat (length (concat (snd f))) < 2 ^ 63.
Proof.
  intros Hre f Hf. pose proof (re_paths _ Hre) as Hp. destruct (in_files info) as [|g [|? ?]]; try done. injection Hf as <-.
  apply Forall_cons in Hp as [Hp _]. pose proof (components_length (mf_path g)). cbn. lia.
Qed.

(** The info dictionary of a parsed torrent. *)
Lemma info_refilled IoError info : info_wf info -> reencodable info ->
  exists d, fill_info (IoError := IoError) (in_piece_len info) (map_pieces_list (map mkShaHash (in_pieces info))) (to_string_lossy <$> in_file_directory info)
      (map entry_of (in_files info)) [] = Ok d /\ dict_ok 4 d /\
    forall h, exists info', info_of_dict (IoError := IoError) h d = Ok info' /\ in_info_hash info' = h /\ same_torrent info info'.
Proof.
  intros Hwf Hre. pose proof (entries_file_ok info Hwf Hre) as Hok. pose proof Hwf as [Hpl Hps Hfs Hsh].
  unfold map_pieces_list. rewrite map_map. cbn [sha_bytes]. rewrite map_id.
  assert (Hsize : Z.of_nat (length (concat (in_pieces info))) < 2 ^ 63).
  { rewrite length_concat_hashes by done. unfold SHA_HASH_LEN. pose proof (re_pieces _ Hre). lia. }
  destruct (in_file_directory info) as [dir|] eqn:Edir.
  - cbn [fmap option_fmap option_map]. rewrite to_string_lossy_valid by done.
    destruct (fill_info_multi (IoError := IoError) (in_piece_len info) (in_pieces info) dir (map entry_of (in_files info)) []) as (d & Hd & Hread); try done.
    exists d. split; [done|]. split.
    + eapply fill_info_ok; [exact Hd|done| |done| |apply dict_ok_nil]. { intros s [= <-]. by apply (re_dir _ Hre). }
      by apply single_name_length.
    + intros h. eexists. split; [apply Hread|]. split; [done|]. split; cbn; [done|done| |by rewrite path_push_nil, Edir|done].
      clear. induction (in_files info) as [|f fs IH]; cbn; constructor; [|exact IH]. cbn. split_and!; [done| |done]. apply components_join.
  - destruct Hsh as [g Eg]. pose proof (re_single _ Hre Edir) as Hn. pose proof (single_name_length info Hre) as Hlen.
    rewrite Eg in Hok, Hfs, Hn, Hlen |- *. apply Forall_cons in Hn as [Hn _]. apply Forall_cons in Hfs as [[Hu Hv] _].
    assert (Hname : concat (components (mf_path g)) = mf_path g).
    { rewrite components_name by done. case_bool_decide as E; [by rewrite E|]. cbn. apply app_nil_r. }
    destruct (fill_info_single (IoError := IoError) (in_piece_len info) (in_pieces info) (entry_of g) []) as (d & Hd & Hread); try done; [by cbn; rewrite Hname|].
    exists d. split; [done|]. split; [by eapply fill_info_ok; [exact Hd|done|done|done|exact Hlen|apply dict_ok_nil]|].
    intros h. eexists. split; [apply Hread|]. split; [done|]. split; cbn; [done|done| |by rewrite Edir|done].
    rewrite Eg, Hname. constructor; [|constructor]. done.
Qed.

(** The private flag of the torrent is inserted and removed again. *)
Lemma metainfo_to_bytes_builds IoError sha1 sched m : Metainfo_to_bytes (IoError := IoError) sha1 sched m =
  res_unwrap (E := MetaParseError IoError) (build_with_accessor (R := Cursor) sha1 (encode_fuel (mi_info m)) sched 1 (mi_info m)
    (Some (MDict (root_of (mkSettings None (mi_announce m) (mi_creation_date m) (mi_comment m) (mi_created_by m))))) (MDict []) (Custom (in_piece_len (mi_info m)))).
Proof. unfold Metainfo_to_bytes. destruct (in_is_private (mi_info m)) as [[]|]; reflexivity. Qed.
Lemma info_to_bytes_builds IoError sha1 sched info : Info_to_bytes (IoError := IoError) sha1 sched info =
  res_unwrap (E := MetaParseError IoError) (build_with_accessor (R := Cursor) sha1 (encode_fuel info) sched 1 info None (MDict []) (Custom (in_piece_len info))).
Proof. unfold Info_to_bytes. destruct (in_is_private info) as [[]|]; reflexivity. Qed.

(** C11: A torrent that was parsed and is encoded again parses to the same torrent: comment,
    main tracker, creator and date, pieces and piece length, and every file's length and
    path are those of the first; the list of trackers, the encoding, the private flag and
    the checksums are lost. The info dictionary alone encodes to the same info, under the
    same info hash. The piece length is one that can be allocated, the lengths of the files
    add up to a 64-bit number, and the name of a single file has no separator in it. *)
Theorem reencoded_torrent_reads_back {IoError : Type} (sha1 : list Z -> list Z) (sched : nat -> nat) (bytes : list Z) (m : Metainfo) :
  Metainfo_from_bytes (IoError := IoError) sha1 bytes = Ok m -> reencodable (mi_info m) ->
  exists bytes' info_bytes m',
    Metainfo_to_bytes (IoError := IoError) sha1 sched m = Ok bytes' /\ Info_to_bytes (IoError := IoError) sha1 sched (mi_info m) = Ok info_bytes /\
    Metainfo_from_bytes (IoError := IoError) sha1 bytes' = Ok m' /\ Info_from_bytes (IoError := IoError) sha1 info_bytes = Ok (mi_info m') /\
    mi_comment m' = mi_comment m /\ mi_announce m' = mi_announce m /\ mi_created_by m' = mi_created_by m /\ mi_creation_date m' = mi_creation_date m /\
    mi_announce_list m' = None /\ mi_encoding m' = None /\ same_torrent (mi_info m) (mi_info m').
Proof.
  intros Hparse Hre. destruct (parsed_settings _ _ _ Hparse) as [Hset Hwf]. set (info := mi_info m) in *.
  destruct (info_refilled IoError info Hwf Hre) as (d & Hd & Hok & Hread).
  destruct (Hread (ShaHash_from_bytes sha1 (BencodeMut_encode (MDict d)))) as (info' & Hinfo & _ & Hsame).
  assert (Hpl : 0 <= in_piece_len info <= MAX_CAPACITY) by (pose proof (iw_piece_len _ Hwf) as [? _]; pose proof (re_piece_len _ Hre); lia).
  pose proof (info_hashes IoError sha1 sched info _ (iw_pieces _ Hwf) Hpl) as Hh.
  assert (Htl : total_len (IoError := IoError) 0 (map entry_of (in_files info)) = Ok (0 + foldr (fun (f : FileInfo) n => fst f + n) 0 (map entry_of (in_files info)))).
  { apply total_len_Ok; [done| |rewrite total_entries; apply (re_total _ Hre)]. apply Forall_map. eapply Forall_impl; [apply (iw_files _ Hwf)|]. by intros f [[? _] _]. }
  assert (Hmeta : access_metadata (A := Info) (R := Cursor) (IoError := IoError) info = (map (fun f => (mf_len f, mf_path f)) (in_files info), None)).
  { cbn. unfold Info_files. by rewrite collect_all. }
  pose proof (fun root => build_filled sha1 (encode_fuel info) sched 1 info root (Custom (in_piece_len info)) _ _ _ d _ ltac:(lia) eq_refl Hmeta
    ltac:(rewrite entries_of by apply (iw_files _ Hwf); exact Htl) Hh ltac:(rewrite entries_of by apply (iw_files _ Hwf); exact Hd)) as Hbuild.
  set (s := mkSettings None (mi_announce m) (mi_creation_date m) (mi_comment m) (mi_created_by m)) in *.
  exists (BencodeMut_encode (MDict (bt_insert INFO_KEY (MDict d) (root_of s)))), (BencodeMut_encode (MDict d)),
    (mkMetainfo (mi_comment m) (mi_announce m) None None (mi_created_by m) (mi_creation_date m) info').
  split_and!; try done.
  - by rewrite metainfo_to_bytes_builds, Hbuild.
  - by rewrite info_to_bytes_builds, Hbuild.
  - rewrite parse_root by done. by rewrite Hinfo.
  - rewrite parse_info_root by done. exact Hinfo.
Qed.

Definition sample_torrent : list Z :=
  bs "d8:announce3:url13:announce-listll3:uriee7:comment1:c4:infod5:filesld6:lengthi7e4:pathl1:a1:beed6:lengthi8e6:md5sum1:x4:pathl1:ceee4:name3:dir12:piece lengthi4e6:pieces20:012345678901234567897:privatei1eee".

Definition sample_info : Info :=
  mkInfo (mkShaHash (bs "d5:filesld6:lengthi7")) [mkMetaFile 7 (bs "a/b") None; mkMetaFile 8 (bs "c") (Some (bs "x"))] [bs "01234567890123456789"] 4 (Some true) (Some (bs "dir")).

Lemma reencoded_torrent_reads_back_witness :
  let m := mkMetainfo (Some (bs "c")) (Some (bs "url")) (Some [[bs "uri"]]) None None None sample_info in
  Metainfo_from_bytes (IoError := unit) (fun l => l) sample_torrent = Ok m /\
  exists bytes' info_bytes m',
    Metainfo_to_bytes (IoError := unit) (fun l => l) (fun n => n) m = Ok bytes' /\ Info_to_bytes (IoError := unit) (fun l => l) (fun n => n) sample_info = Ok info_bytes /\
    Metainfo_from_bytes (IoError := unit) (fun l => l) bytes' = Ok m' /\ Info_from_bytes (IoError := unit) (fun l => l) info_bytes = Ok (mi_info m') /\
    mi_comment m' = mi_comment m /\ mi_announce m' = mi_announce m /\ mi_created_by m' = mi_created_by m /\ mi_creation_date m' = mi_creation_date m /\
    mi_announce_list m' = None /\ mi_encoding m' = None /\ same_torrent sample_info (mi_info m').
Proof.
  intros m. assert (Hp : Metainfo_from_bytes (IoError := unit) (fun l => l) sample_torrent = Ok m) by (vm_compute; reflexivity). split; [exact Hp|].
  apply (reencoded_torrent_reads_back (IoError := unit) (fun l => l) (fun n => n) sample_torrent m Hp).
  split; cbn; try (unfold MAX_CAPACITY; lia); try done; [repeat constructor; cbn; lia|]. intros dir [= <-]. cbn. lia.
Defined.

(** ** Torrents that cannot be encoded *)

Lemma total_len_Panic IoError acc (fs : list FileInfo) : 0 <= acc < 2 ^ 64 -> Forall (fun f => 0 <= fst f) fs -> 2 ^ 64 <= acc + foldr (fun f n => fst f + n) 0 fs ->
  total_len (IoError := IoError) acc fs = Panic.
Proof.
  intros Ha Hf. revert acc Ha. induction Hf as [|f fs Hf Hfs IH]; intros acc Ha Hs; cbn [foldr total_len] in *; [lia|].
  destruct (Z.ltb_spec (acc + fst f) (2 ^ 64)); [|done]. apply IH; lia.
Qed.

(** Encoding a parsed torrent panics, instead of failing with an error, when its piece
    length cannot be allocated (a negative length in the file) or the sum of its lengths
    overflows. *)
Lemma reencoding_panics {IoError : Type} (sha1 : list Z -> list Z) (sched : nat -> nat) (bytes : list Z) (m : Metainfo) :
  Metainfo_from_bytes (IoError := IoError) sha1 bytes = Ok m ->
  MAX_CAPACITY < in_piece_len (mi_info m) \/ 2 ^ 64 <= foldr (fun f n => mf_len f + n) 0 (in_files (mi_info m)) ->
  Metainfo_to_bytes (IoError := IoError) sha1 sched m = Panic /\ Info_to_bytes (IoError := IoError) sha1 sched (mi_info m) = Panic.
Proof.
  intros Hparse Hbad. destruct (parsed_settings _ _ _ Hparse) as [_ Hwf]. rewrite metainfo_to_bytes_builds, info_to_bytes_builds. set (info := mi_info m) in *.
  assert (Hb : forall root, build_with_accessor (R := Cursor) (IoError := IoError) sha1 (encode_fuel info) sched 1 info root (MDict []) (Custom (in_piece_len info)) = Panic);
    [|by rewrite !Hb].
  intros root. unfold build_with_accessor. cbn [Nat.eqb access_metadata Info_accessor]. unfold Info_files. rewrite collect_all, entries_of by apply (iw_files _ Hwf). cbn [res_bind].
  assert (Hpos : Forall (fun f : FileInfo => 0 <= fst f) (map entry_of (in_files info))).
  { apply Forall_map. eapply Forall_impl; [apply (iw_files _ Hwf)|]. by intros f [[? _] _]. }
  destruct (Z.ltb_spec (0 + foldr (fun (f : FileInfo) n => fst f + n) 0 (map entry_of (in_files info))) (2 ^ 64)) as [Hlt|Hge].
  - rewrite total_len_Ok by done. cbn [res_bind determine_piece_length]. rewrite total_entries in Hlt. destruct Hbad as [Hbad|Hbad]; [|lia].
    unfold start_hasher_workers, PieceBuffers_new, PieceBuffer_new. cbn [calculate_total_buffers Nat.mul Nat.add TOTAL_BUFFERS_MULTIPLICATIVE TOTAL_BUFFERS_ADDITIVE].
    by rewrite (proj2 (Z.ltb_lt _ _)) by exact Hbad.
  - rewrite total_len_Panic by (done || lia). done.
Qed.

Lemma reencoding_panics_witness :
  let m := Metainfo_from_info (mkInfo (mkShaHash (bs "d6:lengthi1e4:name1:")) [mkMetaFile 1 (bs "f") None] [] (2 ^ 64 - 1) None None) in
  Metainfo_from_bytes (IoError := unit) (fun l => l) (bs "d4:infod6:lengthi1e4:name1:f12:piece lengthi-1e6:pieces0:ee") = Ok m /\
  Metainfo_to_bytes (IoError := unit) (fun l => l) (fun n => n) m = Panic.
Proof.
  intros m. assert (Hp : Metainfo_from_bytes (IoError := unit) (fun l => l) (bs "d4:infod6:lengthi1e4:name1:f12:piece lengthi-1e6:pieces0:ee") = Ok m) by (vm_compute; reflexivity).
  split; [exact Hp|]. apply (reencoding_panics (IoError := unit) (fun l => l) (fun n => n) _ m Hp). left. cbn. unfold MAX_CAPACITY. lia.
Defined.
