(* ===== verification/DiskRegions.v ===== *)
(** * Blocks in the files of a torrent

    Model of [disk/memory/block.rs] (the metadata) and
    [disk/tasks/helpers/piece_accessor.rs]: a block of a piece is mapped to regions
    of the torrent's files, through which it is read and written. The files are
    given by their contents, in the order of the info dictionary; [read_file] and
    [write_file] of the [FileSystem] trait act on the contents at an offset. The
    lengths in the info dictionary are the lengths of the files, which
    [validate_files_sizes] establishes; sizes and offsets are [nat]. *)

From S2P Require Import Prelude UtilSha.

(** ** Block metadata *)

Record BlockMetadata : Type := BlockMetadata_new {
  bm_info_hash : ShaHash;
  bm_piece_index : nat;
  bm_block_offset : nat;
  bm_block_length : nat
}.

Definition with_default_hash (piece_index block_offset block_length : nat) : BlockMetadata :=
  BlockMetadata_new (mkShaHash (replicate 20 0)) piece_index block_offset block_length.

(** ** File access *)

(** [FileSystem::read_file]: the bytes read, fewer at the end of the file. *)
Definition fs_read_file (contents : list Z) (offset len : nat) : list Z := take len (drop offset contents).

(** [FileSystem::write_file]; an offset past the end fills in zeroes. *)
Definition fs_write_file (contents : list Z) (offset : nat) (data : list Z) : list Z :=
  take offset contents ++ replicate (offset - length contents) 0 ++ data ++
  drop (offset + length data) contents.

(** A call of the closure: the file, the offset in it, the range of the buffer. *)
Record region : Type := mkRegion { rg_file : nat; rg_offset : nat; rg_begin : nat; rg_end : nat }.

(** The loop of [run_with_file_regions] from the file number [index] on. *)
Fixpoint file_regions (index : nat) (sizes : list nat)
    (total_bytes_to_skip total_bytes_accessed total_block_length : nat) : list region :=
  match sizes with
  | [] => []
  | total_file_size :: sizes =>
      let bytes_to_access := total_file_size in
      let min_bytes_to_skip := Nat.min total_bytes_to_skip bytes_to_access in
      let total_bytes_to_skip := (total_bytes_to_skip - min_bytes_to_skip)%nat in
      let bytes_to_access := (bytes_to_access - min_bytes_to_skip)%nat in
      if (0 <? bytes_to_access)%nat && (total_bytes_accessed <? total_block_length)%nat then
        let total_max_bytes_to_access := (total_block_length - total_bytes_accessed)%nat in
        let actual_bytes_to_access := Nat.min total_max_bytes_to_access bytes_to_access in
        let offset := (total_file_size - bytes_to_access)%nat in
        mkRegion index offset total_bytes_accessed (total_bytes_accessed + actual_bytes_to_access)
        :: file_regions (S index) sizes total_bytes_to_skip
             (total_bytes_accessed + actual_bytes_to_access) total_block_length
      else file_regions (S index) sizes total_bytes_to_skip total_bytes_accessed total_block_length
  end.

Definition run_with_file_regions (piece_length : nat) (sizes : list nat) (message : BlockMetadata)
    : list region :=
  let total_bytes_to_skip := (bm_piece_index message * piece_length + bm_block_offset message)%nat in
  let total_block_length := bm_block_length message in
  file_regions 0 sizes total_bytes_to_skip 0 total_block_length.

(** [&buf[begin..end]], which panics out of range. *)
Definition buffer_range {E} (buf : list Z) (b e : nat) : res E (list Z) :=
  if (b <=? e)%nat && (e <=? length buf)%nat then Ok (slice buf b e) else Panic.

Definition write_region (piece_buffer : list Z) (files : list (list Z)) (r : region)
    : res unit (list (list Z)) :=
  let? data := buffer_range piece_buffer (rg_begin r) (rg_end r) in
  let? contents := or_panic (files !! rg_file r) in
  Ok (<[rg_file r := fs_write_file contents (rg_offset r) data]> files).

Definition write_piece (piece_length : nat) (files : list (list Z)) (piece_buffer : list Z)
    (message : BlockMetadata) : res unit (list (list Z)) :=
  foldl (fun acc r => let? files := acc in write_region piece_buffer files r) (Ok files)
    (run_with_file_regions piece_length (map length files) message).

(** A region is read into its range of the buffer; a short read fails the assertion. *)
Definition read_region (files : list (list Z)) (piece_buffer : list Z) (r : region)
    : res unit (list Z) :=
  let? _ := buffer_range piece_buffer (rg_begin r) (rg_end r) in
  let? contents := or_panic (files !! rg_file r) in
  let bytes_read := fs_read_file contents (rg_offset r) (rg_end r - rg_begin r) in
  if negb (length bytes_read =? rg_end r - rg_begin r)%nat then Panic
  else Ok (take (rg_begin r) piece_buffer ++ bytes_read ++ drop (rg_end r) piece_buffer).

Definition read_piece (piece_length : nat) (files : list (list Z)) (piece_buffer : list Z)
    (message : BlockMetadata) : res unit (list Z) :=
  foldl (fun acc r => let? buf := acc in read_region files buf r) (Ok piece_buffer)
    (run_with_file_regions piece_length (map length files) message).

(** ** Facts *)

(** The result of overwriting the bytes of [l] from [i] on. *)
Definition splice {A} (l : list A) (i : nat) (d : list A) : list A :=
  take i l ++ d ++ drop (i + length d) l.

Lemma fs_write_file_splice c o d : (o <= length c)%nat -> fs_write_file c o d = splice c o d.
Proof. intros H. unfold fs_write_file, splice. by replace (o - length c)%nat with 0%nat by lia. Qed.

Lemma length_splice {A} (l : list A) i d : (i + length d <= length l)%nat -> length (splice l i d) = length l.
Proof. intros H. unfold splice. rewrite !length_app, length_take, length_drop. lia. Qed.

Lemma splice_nil {A} (l : list A) i : splice l i [] = l.
Proof. unfold splice. simpl. rewrite Nat.add_0_r. apply take_drop. Qed.

(** Overwriting a range that lies past the first part, or crosses its end. *)
Lemma splice_app_skip {A} (l k : list A) i d : (length l <= i)%nat ->
  splice (l ++ k) i d = l ++ splice k (i - length l) d.
Proof.
  intros H. unfold splice. rewrite take_app_ge, drop_app_ge, <- app_assoc by lia.
  do 4 f_equal. lia.
Qed.

Lemma splice_app_cross {A} (l k : list A) i d1 d2 : (i + length d1 = length l)%nat \/ d2 = [] /\ (i + length d1 <= length l)%nat ->
  splice (l ++ k) i (d1 ++ d2) = splice l i d1 ++ splice k 0 d2.
Proof.
  intros [H|[-> H]]; unfold splice; rewrite length_app.
  - rewrite take_app_le, drop_app_ge by lia. rewrite (drop_ge l) by lia. simpl.
    rewrite app_nil_r, <- !app_assoc. do 4 f_equal. lia.
  - simpl. rewrite Nat.add_0_r, app_nil_r, drop_0, take_app_le, drop_app_le, <- !app_assoc by lia. done.
Qed.

Lemma splice_splice {A} (l : list A) i d1 d2 : (i + length d1 <= length l)%nat ->
  splice (splice l i d1) (i + length d1) d2 = splice l i (d1 ++ d2).
Proof.
  intros H. unfold splice. rewrite length_app.
  rewrite take_app_ge by (rewrite length_take; lia).
  rewrite length_take, Nat.min_l by lia. replace (i + length d1 - i)%nat with (length d1) by lia.
  rewrite take_app_length. rewrite (app_assoc (take i l) d1), drop_app_ge, <- !app_assoc
    by (rewrite length_app, length_take; lia).
  rewrite length_app, length_take, Nat.min_l, drop_drop by lia. do 4 f_equal. lia.
Qed.

Lemma slice_adjacent {A} (l : list A) i j k : (i <= j <= k)%nat -> slice l i j ++ slice l j k = slice l i k.
Proof.
  intros [Hij Hjk]. unfold slice. replace (k - i)%nat with ((j - i) + (k - j))%nat by lia.
  rewrite <- take_take_drop, drop_drop. do 3 f_equal. lia.
Qed.

Lemma slice_nil {A} (l : list A) i : slice l i i = [].
Proof. unfold slice. by rewrite Nat.sub_diag. Qed.

(** One step of the loop, by whether the file holds bytes of the block. *)
Lemma file_regions_hit index size sizes skip acc total : (skip < size)%nat -> (acc < total)%nat ->
  let a := Nat.min (total - acc) (size - skip) in
  file_regions index (size :: sizes) skip acc total =
    mkRegion index skip acc (acc + a) :: file_regions (S index) sizes 0 (acc + a) total.
Proof.
  intros Hs Ha a. cbn [file_regions]. rewrite Nat.min_l by lia.
  destruct (Nat.ltb_spec 0 (size - skip)), (Nat.ltb_spec acc total); simpl; try lia.
  rewrite Nat.sub_diag. f_equal. f_equal. lia.
Qed.

Lemma file_regions_miss index size sizes skip acc total : (size <= skip)%nat \/ (total <= acc)%nat ->
  file_regions index (size :: sizes) skip acc total =
    file_regions (S index) sizes (skip - Nat.min skip size) acc total.
Proof.
  intros H. cbn [file_regions].
  destruct (Nat.ltb_spec 0 (size - Nat.min skip size)), (Nat.ltb_spec acc total); simpl; done || lia.
Qed.

(** The number of bytes of the block that the files hold. *)
Definition reachable (files : list (list Z)) (skip acc total : nat) : nat :=
  Nat.min (total - acc) (length (concat files) - skip).

Definition write_all (buf : list Z) (files : list (list Z)) (rs : list region) : res unit (list (list Z)) :=
  foldl (fun acc r => let? files := acc in write_region buf files r) (Ok files) rs.

Lemma write_all_cons buf files r rs :
  write_all buf files (r :: rs) = let? files := write_region buf files r in write_all buf files rs.
Proof.
  unfold write_all. simpl. destruct (write_region buf files r); [done|..];
    (induction rs as [|r' rs IH]; [done|exact IH]).
Qed.

Lemma write_region_at buf pre f rest skip b e : (b <= e <= length buf)%nat -> (skip <= length f)%nat ->
  write_region buf (pre ++ f :: rest) (mkRegion (length pre) skip b e) =
    Ok (pre ++ splice f skip (slice buf b e) :: rest).
Proof.
  intros Hb Hs. unfold write_region, buffer_range. cbn [rg_begin rg_end rg_file rg_offset].
  destruct (Nat.leb_spec b e), (Nat.leb_spec e (length buf)); try lia. cbn [andb res_bind].
  rewrite list_lookup_middle by done. cbn [or_panic res_bind]. rewrite fs_write_file_splice by done.
  f_equal. by rewrite insert_app_r_alt, Nat.sub_diag by lia.
Qed.

Lemma write_regions buf total : (total <= length buf)%nat -> forall rest pre skip acc,
  exists rest', write_all buf (pre ++ rest) (file_regions (length pre) (map length rest) skip acc total) =
    Ok (pre ++ rest') /\ map length rest' = map length rest /\
    concat rest' = splice (concat rest) skip (slice buf acc (acc + reachable rest skip acc total)).
Proof.
  intros Hbuf. induction rest as [|f rest IH]; intros pre skip acc.
  { exists []. unfold reachable. cbn. rewrite Nat.min_0_r, Nat.add_0_r. by rewrite slice_nil, splice_nil. }
  cbn [map].
  assert (Hpre : forall g, (pre ++ g :: rest) = ((pre ++ [g]) ++ rest) /\ S (length pre) = length (pre ++ [g])).
  { intros g. rewrite <- app_assoc, length_app. simpl. split; [done|lia]. }
  destruct (decide ((skip < length f)%nat /\ (acc < total)%nat)) as [[Hs Ha]|Hmiss].
  - rewrite file_regions_hit by done. set (a := Nat.min (total - acc) (length f - skip)).
    assert (Hla : length (slice buf acc (acc + a)) = a) by (rewrite length_slice; lia).
    rewrite write_all_cons, write_region_at by lia. cbn [res_bind].
    destruct (Hpre (splice f skip (slice buf acc (acc + a)))) as [-> ->].
    destruct (IH (pre ++ [splice f skip (slice buf acc (acc + a))]) 0%nat (acc + a)%nat) as (rest' & Hw & Hl & Hc).
    rewrite Hw. exists (splice f skip (slice buf acc (acc + a)) :: rest').
    rewrite <- app_assoc. split; [done|]. cbn [map concat]. rewrite Hl, Hc, length_splice by lia. split; [done|].
    set (n := reachable rest 0 (acc + a) total).
    assert (Hn : reachable (f :: rest) skip acc total = (a + n)%nat).
    { unfold n, reachable. cbn [concat]. rewrite length_app. lia. }
    rewrite Hn, Nat.add_assoc, <- (slice_adjacent buf acc (acc + a) (acc + a + n)) by lia.
    symmetry. apply splice_app_cross. rewrite Hla.
    destruct (decide (a = length f - skip)%nat) as [->|Hne]; [left; lia|right]. split; [|lia].
    assert (n = 0%nat) as -> by (unfold n, reachable; lia). rewrite Nat.add_0_r. apply slice_nil.
  - rewrite file_regions_miss by lia. destruct (Hpre f) as [-> ->].
    destruct (IH (pre ++ [f]) (skip - Nat.min skip (length f))%nat acc) as (rest' & Hw & Hl & Hc).
    rewrite Hw. exists (f :: rest'). rewrite <- app_assoc. split; [done|]. cbn [map concat].
    rewrite Hl, Hc. split; [done|].
    destruct (decide (length f <= skip)%nat) as [Hge|Hlt].
    + rewrite splice_app_skip by done. rewrite Nat.min_r by done. f_equal. f_equal. f_equal. f_equal.
      unfold reachable. cbn [concat]. rewrite length_app. lia.
    + assert (reachable (f :: rest) skip acc total = 0%nat) as -> by (unfold reachable; lia).
      assert (reachable rest (skip - Nat.min skip (length f)) acc total = 0%nat) as -> by (unfold reachable; lia).
      by rewrite Nat.add_0_r, slice_nil, !splice_nil.
Qed.

Definition read_all (files : list (list Z)) (buf : list Z) (rs : list region) : res unit (list Z) :=
  foldl (fun acc r => let? buf := acc in read_region files buf r) (Ok buf) rs.

Lemma read_all_cons files buf r rs :
  read_all files buf (r :: rs) = let? buf := read_region files buf r in read_all files buf rs.
Proof.
  unfold read_all. simpl. destruct (read_region files buf r); [done|..];
    (induction rs as [|r' rs IH]; [done|exact IH]).
Qed.

Lemma read_region_at buf pre f rest skip b e : (b <= e <= length buf)%nat -> (skip + (e - b) <= length f)%nat ->
  read_region (pre ++ f :: rest) buf (mkRegion (length pre) skip b e) =
    Ok (splice buf b (slice f skip (skip + (e - b)))).
Proof.
  intros Hb Hs. unfold read_region, buffer_range. cbn [rg_begin rg_end rg_file rg_offset].
  destruct (Nat.leb_spec b e), (Nat.leb_spec e (length buf)); try lia. cbn [andb res_bind].
  rewrite list_lookup_middle by done. cbn [or_panic res_bind].
  assert (Hr : fs_read_file f skip (e - b) = slice f skip (skip + (e - b))).
  { unfold fs_read_file, slice. f_equal. lia. }
  rewrite Hr, length_slice by lia. replace (skip + (e - b) - skip)%nat with (e - b)%nat by lia.
  rewrite Nat.eqb_refl. cbn [negb]. unfold splice. rewrite length_slice by lia. do 5 f_equal. lia.
Qed.

Lemma read_regions total : forall rest pre buf skip acc, (total <= length buf)%nat ->
  read_all (pre ++ rest) buf (file_regions (length pre) (map length rest) skip acc total) =
  Ok (splice buf acc (slice (concat rest) skip (skip + reachable rest skip acc total))).
Proof.
  induction rest as [|f rest IH]; intros pre buf skip acc Hbuf.
  { unfold reachable. cbn. by rewrite Nat.min_0_r, Nat.add_0_r, slice_nil, splice_nil. }
  cbn [map concat].
  assert (Hpre : (pre ++ f :: rest) = ((pre ++ [f]) ++ rest) /\ S (length pre) = length (pre ++ [f])).
  { rewrite <- app_assoc, length_app. simpl. split; [done|lia]. }
  destruct (decide ((skip < length f)%nat /\ (acc < total)%nat)) as [[Hs Ha]|Hmiss].
  - rewrite file_regions_hit by done. set (a := Nat.min (total - acc) (length f - skip)).
    rewrite read_all_cons, read_region_at by lia. cbn [res_bind].
    replace (acc + a - acc)%nat with a by lia.
    assert (Hla : length (slice f skip (skip + a)) = a) by (rewrite length_slice; lia).
    destruct Hpre as [-> ->]. rewrite IH by (rewrite length_splice; lia). f_equal.
    set (n := reachable rest 0 (acc + a) total).
    assert (Hn : reachable (f :: rest) skip acc total = (a + n)%nat).
    { unfold n, reachable. cbn [concat]. rewrite length_app. lia. }
    pose proof (splice_splice buf acc (slice f skip (skip + a)) (slice (concat rest) 0 (0 + n))) as Hss.
    rewrite Hla in Hss. rewrite Hss by lia. f_equal.
    rewrite Hn, Nat.add_assoc. unfold slice at 2 3. rewrite drop_app_le, Nat.sub_0_r, drop_0, Nat.add_0_l by lia.
    replace (skip + a + n - skip)%nat with (a + n)%nat by lia. unfold slice.
    replace (skip + a - skip)%nat with a by lia.
    destruct (decide (a = length f - skip)%nat) as [Ea|Hne].
    + rewrite take_ge by (rewrite length_drop; lia). rewrite take_app_ge by (rewrite length_drop; lia).
      rewrite length_drop. do 2 f_equal. lia.
    + assert (n = 0%nat) as -> by (unfold n, reachable; lia).
      rewrite Nat.add_0_r, take_app_le by (rewrite length_drop; lia). by rewrite take_0, app_nil_r.
  - rewrite file_regions_miss by lia. destruct Hpre as [-> ->]. rewrite IH by done. f_equal. f_equal.
    destruct (decide (length f <= skip)%nat) as [Hge|Hlt].
    + rewrite Nat.min_r by done. unfold slice. rewrite drop_app_ge by done.
      f_equal. unfold reachable. cbn [concat]. rewrite length_app. lia.
    + assert (reachable (f :: rest) skip acc total = 0%nat) as -> by (unfold reachable; lia).
      assert (reachable rest (skip - Nat.min skip (length f)) acc total = 0%nat) as -> by (unfold reachable; lia).
      by rewrite !Nat.add_0_r, !slice_nil.
Qed.

(** ** Properties *)

(** The position of a block in the torrent's data, and that the files hold all of it. *)
Definition block_start (piece_length : nat) (m : BlockMetadata) : nat :=
  (bm_piece_index m * piece_length + bm_block_offset m)%nat.
Definition block_inside (piece_length : nat) (files : list (list Z)) (m : BlockMetadata) : Prop :=
  (block_start piece_length m + bm_block_length m <= length (concat files))%nat.

(** The files of a torrent behave as one contiguous byte array. Writing a block
    overwrites exactly its bytes of the concatenated contents and keeps every
    file's length; reading a block fills the buffer with exactly its bytes, so a
    block that was written is read back. *)
Lemma piece_access_contiguous (piece_length : nat) (files : list (list Z)) (data buf : list Z)
    (m : BlockMetadata) :
  block_inside piece_length files m ->
  length data = bm_block_length m -> length buf = bm_block_length m ->
  exists files', write_piece piece_length files data m = Ok files' /\
    map length files' = map length files /\
    concat files' = splice (concat files) (block_start piece_length m) data /\
    read_piece piece_length files buf m =
      Ok (slice (concat files) (block_start piece_length m) (block_start piece_length m + bm_block_length m)) /\
    read_piece piece_length files' buf m = Ok data.
Proof.
  unfold block_inside. set (s := block_start piece_length m). set (n := bm_block_length m). intros Hin Hd Hb.
  assert (Hread : forall fs, length (concat fs) = length (concat files) ->
    read_piece piece_length fs buf m = Ok (slice (concat fs) s (s + n))).
  { intros fs Hl. etransitivity; [exact (read_regions n fs [] buf s 0 ltac:(lia))|].
    assert (reachable fs s 0 n = n) as -> by (unfold reachable; lia).
    unfold splice. rewrite length_slice by lia. simpl take. rewrite drop_ge by lia. by rewrite app_nil_r. }
  destruct (write_regions data n ltac:(lia) files [] s 0) as (files' & Hw & Hl & Hc).
  assert (Hn : reachable files s 0 n = n) by (unfold reachable; lia).
  assert (Hs : slice data 0 (0 + n) = data) by (unfold slice; rewrite drop_0, take_ge by lia; done).
  rewrite Hn, Hs in Hc. exists files'. split; [exact Hw|]. split; [done|]. split; [done|].
  split; [by apply Hread|]. rewrite Hread by (rewrite Hc, length_splice; lia). f_equal.
  rewrite Hc. unfold splice, slice. rewrite drop_app_ge by (rewrite length_take; lia).
  rewrite length_take, Nat.min_l, Nat.sub_diag, drop_0 by lia.
  by rewrite take_app_length' by lia.
Qed.

Lemma piece_access_contiguous_witness :
  let files := [[1; 2; 3]; []; [4; 5]; [6; 7; 8; 9]] in
  let m := with_default_hash 1 0 4 in
  exists files', write_piece 2 files [20; 30; 40; 50] m = Ok files' /\
    map length files' = map length files /\
    concat files' = splice (concat files) (block_start 2 m) [20; 30; 40; 50] /\
    read_piece 2 files [0; 0; 0; 0] m = Ok (slice (concat files) (block_start 2 m) (block_start 2 m + 4)) /\
    read_piece 2 files' [0; 0; 0; 0] m = Ok [20; 30; 40; 50].
Proof. intros files m. apply (piece_access_contiguous 2 files); [vm_compute; lia|reflexivity|reflexivity]. Defined.
