(* ===== verification/DiskFs.v ===== *)
(** * File systems

    The trait [FileSystem] of [disk/fs/mod.rs] as a class over the state of the file
    system, what it promises to the disk manager ([FileSystemLaws]), and the two
    implementations of the crate: [FileHandleCache] of [disk/fs/cache/file_handle.rs],
    shown to keep every promise of the file system it wraps, and [NativeFileSystem] of
    [disk/fs/native.rs]. The LRU cache of the crate [lru_cache] and the operating
    system's files are parameters. Stateful calls run in the monad [st], whose state
    survives errors and panics. *)

From stdpp Require Import gmap.
From S2P Require Import Prelude RustStd UtilSha Paths DiskRegions.

(** ** Stateful calls *)

Definition st (T E A : Type) : Type := T -> res E A * T.

Definition st_ret {T E A} (a : A) : st T E A := fun s => (Ok a, s).
Definition st_of {T E A} (r : res E A) : st T E A := fun s => (r, s).
Definition st_bind {T E A B} (m : st T E A) (k : A -> st T E B) : st T E B := fun s =>
  match m s with
  | (Ok a, s') => k a s'
  | (Err e, s') => (Err e, s')
  | (Panic, s') => (Panic, s')
  | (OutOfFuel, s') => (OutOfFuel, s')
  end.

Declare Scope st_scope.
Delimit Scope st_scope with st.
Notation "'let*' x := m 'in' k" := (st_bind m (fun x => k))
  (at level 10, x pattern, m at level 200, k at level 200,
   format "'[v' 'let*'  x  :=  m  'in'  '/' k ']'") : st_scope.
Open Scope st_scope.

(** A call on the second component of the state. *)
Definition st_snd {T U E A} (m : st T E A) : st (U * T) E A := fun '(u, s) => let '(r, s') := m s in (r, (u, s')).

(** A computation with another error type. *)
Definition st_map_err {T E E' A} (f : E -> E') (m : st T E A) : st T E' A := fun s => let '(r, s') := m s in (map_err r f, s').

Lemma st_bind_Ok {T E A B} (m : st T E A) (k : A -> st T E B) s b s'' :
  st_bind m k s = (Ok b, s'') <-> exists a s', m s = (Ok a, s') /\ k a s' = (Ok b, s'').
Proof. unfold st_bind. destruct (m s) as [[] s1]; split; intros; destruct_ex; simplify_eq; eauto. Qed.

Lemma st_snd_Ok {T U E A} (m : st T E A) (u u' : U) s a s' : st_snd m (u, s) = (Ok a, (u', s')) <-> m s = (Ok a, s') /\ u' = u.
Proof. unfold st_snd. destruct (m s) as [r s1]. split; [intros [= -> -> ->]; done|intros [[= -> ->] ->]; done]. Qed.

Lemma st_map_err_Ok {T E E' A} (f : E -> E') (m : st T E A) s a s' : st_map_err f m s = (Ok a, s') <-> m s = (Ok a, s').
Proof. unfold st_map_err. destruct (m s) as [r s1]. split; intros H; [destruct r; simplify_eq/=; done|by simplify_eq]. Qed.

Ltac st_inv := repeat match goal with
  | H : st_bind _ _ _ = (Ok _, _) |- _ =>
      let a := fresh "a" in let s := fresh "s" in let E := fresh "Hm" in apply st_bind_Ok in H as (a & s & E & H);
      lazymatch type of a with unit => destruct a | _ => idtac end
  | H : st_ret _ _ = (Ok _, _) |- _ => injection H as ? ?; subst
  | H : st_of _ _ = (Ok _, _) |- _ => injection H as ? ?; subst
  | H : st_map_err _ _ _ = (Ok _, _) |- _ => apply st_map_err_Ok in H
  end.

(** ** The trait *)

(** The state of a file system is [S]; a [File] is a handle, what it refers to is in the
    state. [read_file] gives the bytes put into a buffer of [n] bytes, [write_file] the
    number of bytes written. *)
Class FileSystem (S File IoError : Type) : Type := {
  open_file : list Z -> S -> (IoError + File) * S;
  sync_file : list Z -> S -> (IoError + unit) * S;
  file_size : File -> S -> (IoError + Z) * S;
  read_file : File -> Z -> nat -> S -> (IoError + list Z) * S;
  write_file : File -> Z -> list Z -> S -> (IoError + nat) * S
}.

(** A method called with [?]. *)
Definition io {S IoError A} (m : S -> (IoError + A) * S) : st S IoError A := fun s =>
  let '(r, s') := m s in (match r with inl e => Err e | inr a => Ok a end, s').

Lemma io_Ok {S IoError A} (m : S -> (IoError + A) * S) s a s' : io m s = (Ok a, s') <-> m s = (inr a, s').
Proof. unfold io. destruct (m s) as [[] s1]; split; intros; simplify_eq; done. Qed.

(** What a state means: the contents of the files by their canonical names, and the
    handles open for a path. *)
Class FsView (S File : Type) : Type := {
  fs_files : S -> gmap (list Z) (list Z);
  fs_name : list Z -> list Z;
  fs_ok : S -> Prop;
  handle_ok : S -> File -> list Z -> Prop
}.

(** What one call may do to the files, given the files before it. *)
Definition opened (files files' : gmap (list Z) (list Z)) (name : list Z) : Prop :=
  files' = match files !! name with Some _ => files | None => <[name := []]> files end.

(** The state stays well-formed and no handle is closed. *)
Definition keeps {S File} `{FsView S File} (s s' : S) : Prop := fs_ok s' /\ forall f q, handle_ok s f q -> handle_ok s' f q.

(** A file is created empty when it is opened first, reads give its bytes, writes put
    bytes into it, possibly fewer than asked for but not none; a call that fails changes
    no contents. *)
Class FileSystemLaws (S File IoError : Type) `{HF : FileSystem S File IoError} `{HV : FsView S File} : Prop := {
  same_path p q : path_eq p q -> fs_name p = fs_name q;
  handle_path f p q s : path_eq p q -> handle_ok s f p -> handle_ok s f q;
  handle_open f p s : fs_ok s -> handle_ok s f p -> is_Some (fs_files s !! fs_name p);
  open_law p s r s' : fs_ok s -> open_file p s = (r, s') -> keeps s s' /\
    match r with
    | inl _ => fs_files s' = fs_files s
    | inr f => handle_ok s' f p /\ opened (fs_files s) (fs_files s') (fs_name p)
    end;
  sync_law p s r s' : fs_ok s -> sync_file p s = (r, s') -> keeps s s' /\ fs_files s' = fs_files s;
  size_law f p s r s' : fs_ok s -> handle_ok s f p -> file_size f s = (r, s') -> keeps s s' /\ fs_files s' = fs_files s /\
    match r with inl _ => True | inr n => exists c, fs_files s !! fs_name p = Some c /\ n = Z.of_nat (length c) end;
  read_law f p o n s r s' : fs_ok s -> handle_ok s f p -> read_file f o n s = (r, s') -> keeps s s' /\ fs_files s' = fs_files s /\
    match r with
    | inl _ => True
    | inr d => (length d <= n)%nat /\ exists c, fs_files s !! fs_name p = Some c /\ d = fs_read_file c (Z.to_nat o) (length d)
    end;
  write_law f p o d s r s' : fs_ok s -> handle_ok s f p -> write_file f o d s = (r, s') -> keeps s s' /\
    match r with
    | inl _ => fs_files s' = fs_files s
    | inr n => (n <= length d)%nat /\ (d <> [] -> (0 < n)%nat) /\ exists c, fs_files s !! fs_name p = Some c /\
        fs_files s' = <[fs_name p := fs_write_file c (Z.to_nat o) (take n d)]> (fs_files s)
    end
}.

(** ** The cache of file handles *)

(** [lru_cache::LruCache<PathBuf, V>]. *)
Class LruCache (C V : Type) : Type := {
  lru_new : nat -> C;
  lru_get_mut : list Z -> C -> option V * C;
  lru_insert : list Z -> V -> C -> C;
  lru_clear : C -> C
}.

(** Its documentation: a map of which entries may be dropped at any insertion. *)
Class LruCacheLaws (C V : Type) `{HL : LruCache C V} : Type := {
  lru_entries : C -> list (list Z * V);
  lru_new_empty n : lru_entries (lru_new n) = [];
  lru_get_entry p c : match lru_get_mut p c with
    | (o, c') => lru_entries c' ⊆ lru_entries c /\
        match o with Some v => exists q, path_eq q p /\ (q, v) ∈ lru_entries c | None => True end
    end;
  lru_insert_entry p v c q w : (q, w) ∈ lru_entries (lru_insert p v c) -> path_eq q p /\ w = v \/ (q, w) ∈ lru_entries c;
  lru_clear_empty c : lru_entries (lru_clear c) = []
}.

Record FileHandleCache (C S : Type) : Type := mkFileHandleCache { fc_cache : C; fc_inner : S }.
Arguments mkFileHandleCache {C S} fc_cache fc_inner.
Arguments fc_cache {C S} f.
Arguments fc_inner {C S} f.

Section Cache.
Context {S File IoError C : Type} `{HF : FileSystem S File IoError} `{HL : LruCache C File}.

Definition FileHandleCache_new (inner : S) (capacity : nat) : FileHandleCache C S := mkFileHandleCache (lru_new capacity) inner.

(** [run_with_lock]. The mutexes of the cache and of the handles serialise the calls; a
    clone of the shared handle is the handle. *)
Definition run_with_lock {R} (call : C * S -> R * (C * S)) (s : FileHandleCache C S) : R * FileHandleCache C S :=
  let '(r, (c, i)) := call (fc_cache s, fc_inner s) in (r, mkFileHandleCache c i).

Definition cache_open_file (path : list Z) : FileHandleCache C S -> (IoError + File) * FileHandleCache C S :=
  run_with_lock (fun '(cache, fs) =>
    match lru_get_mut path cache with
    | (Some entry, cache) => (inr entry, (cache, fs))
    | (None, cache) =>
        match open_file path fs with
        | (inl e, fs) => (inl e, (cache, fs))
        | (inr file, fs) => (inr file, (lru_insert path file cache, fs))
        end
    end).

Definition cache_sync_file (path : list Z) (s : FileHandleCache C S) : (IoError + unit) * FileHandleCache C S :=
  let '(_, s) := run_with_lock (fun '(cache, fs) => (tt, (lru_clear cache, fs))) s in
  let '(r, i) := sync_file path (fc_inner s) in (r, mkFileHandleCache (fc_cache s) i).

(** The other methods lock the handle and pass it on. *)
Definition with_inner {R} (call : S -> R * S) (s : FileHandleCache C S) : R * FileHandleCache C S :=
  let '(r, i) := call (fc_inner s) in (r, mkFileHandleCache (fc_cache s) i).

#[export] Instance FileHandleCache_fs : FileSystem (FileHandleCache C S) File IoError := {
  open_file := cache_open_file;
  sync_file := cache_sync_file;
  file_size file := with_inner (file_size file);
  read_file file offset n := with_inner (read_file file offset n);
  write_file file offset buffer := with_inner (write_file file offset buffer)
}.

Context {HV : FsView S File} {LL : LruCacheLaws C File}.

(** The handles in the cache are open for their paths. *)
#[export] Instance FileHandleCache_view : FsView (FileHandleCache C S) File := {
  fs_files s := fs_files (fc_inner s);
  fs_name := fs_name;
  fs_ok s := fs_ok (fc_inner s) /\ forall p f, (p, f) ∈ lru_entries (fc_cache s) -> handle_ok (fc_inner s) f p;
  handle_ok s := handle_ok (fc_inner s)
}.
End Cache.

(** ** The native file system *)

Section Native.
Context {S File IoError : Type}.

(** What [std::fs] gives: [create_dir_all], opening for reading and writing with creation,
    the length in the metadata, and reading and writing at a position. *)
Class OsFiles : Type := {
  create_dir_all : list Z -> S -> (IoError + unit) * S;
  open_options : list Z -> S -> (IoError + File) * S;
  metadata_len : File -> S -> (IoError + Z) * S;
  seek_start : File -> Z -> S -> (IoError + unit) * S;
  file_read : File -> nat -> S -> (IoError + list Z) * S;
  file_write : File -> list Z -> S -> (IoError + nat) * S;
  invalid_input : list Z -> IoError
}.
Context {OS : OsFiles}.

Definition NO_PARENT : list Z := Eval vm_compute in bs "File Path Has No Parent".

(** [Path::parent]: none for the root and the empty path. *)
Definition has_parent (path : list Z) : bool := negb (bool_decide (components path = [])) && negb (bool_decide (components path = [ROOT_DIR])).
Definition parent (path : list Z) : list Z := foldl path_push [] (removelast (components path)).

Definition create_new_file (path : list Z) (s : S) : (IoError + File) * S :=
  if has_parent path then
    match create_dir_all (parent path) s with
    | (inl e, s) => (inl e, s)
    | (inr _, s) => open_options path s
    end
  else (inl (invalid_input NO_PARENT), s).

Definition combine_user_path (user_path current_dir : list Z) : list Z :=
  if starts_with_sep user_path then user_path
  else foldl path_push current_dir (components user_path).

Definition seek_then {A} (file : File) (offset : Z) (k : S -> (IoError + A) * S) (s : S) : (IoError + A) * S :=
  match seek_start file offset s with (inl e, s) => (inl e, s) | (inr _, s) => k s end.

Definition NativeFileSystem (current_dir : list Z) : FileSystem S File IoError := {|
  open_file path := create_new_file (combine_user_path path current_dir);
  sync_file _ s := (inr tt, s);
  file_size := metadata_len;
  read_file file offset n := seek_then file offset (file_read file n);
  write_file file offset buffer := seek_then file offset (file_write file buffer)
|}.
End Native.
Arguments OsFiles : clear implicits.

(** ** The cache keeps the promises *)

Section CacheLaws.
Context {S File IoError C : Type} `{HF : FileSystem S File IoError} `{HL : LruCache C File}.
Context {HV : FsView S File} {LL : LruCacheLaws C File} {FL : FileSystemLaws S File IoError}.
Implicit Types (s : FileHandleCache C S).

(** A call on the inner file system keeps the cached handles open. *)
Lemma keeps_inner s i : fs_ok s -> keeps (fc_inner s) i -> keeps s (mkFileHandleCache (fc_cache s) i).
Proof. intros [_ Hc] [Hok Hk]. split; [split; [done|]|done]. cbn. intros p f Hin. by apply Hk, Hc. Qed.

Lemma cache_open_law p s r s' : fs_ok s -> open_file p s = (r, s') -> keeps s s' /\
  match r with
  | inl _ => fs_files s' = fs_files s
  | inr f => handle_ok s' f p /\ opened (fs_files s) (fs_files s') (fs_name p)
  end.
Proof.
  destruct s as [c i]. intros [Hok Hc]. cbn [fc_cache fc_inner] in *. cbn. unfold cache_open_file, run_with_lock. cbn [fc_cache fc_inner].
  pose proof (lru_get_entry p c) as Hget. destruct (lru_get_mut p c) as [[f|] c'] eqn:Eg; destruct Hget as [Hsub Hf].
  - intros [= <- <-]. destruct Hf as (q & Hq & Hin). pose proof (handle_path f q p i Hq (Hc _ _ Hin)) as Hh.
    split; [split; [split; [done|cbn; auto]|done]|]. split; [done|]. cbn.
    apply (handle_open f p i) in Hh as [x Hx]; [|done]. unfold opened. by rewrite Hx.
  - destruct (open_file p i) as [[e|f] i'] eqn:Eo; intros [= <- <-]; destruct (open_law p i _ i' Hok Eo) as [[Hok' Hk] Hr]; cbn.
    + split; [split; [split; [done|]|done]|done]. cbn. intros q f Hin. by apply Hk, Hc, Hsub.
    + split; [split; [split; [done|]|done]|done]. cbn. intros q g [[Hq ->]|Hin]%lru_insert_entry; [|by apply Hk, Hc, Hsub].
      apply (handle_path f p q); [by symmetry|apply Hr].
Qed.

(** C29: caching file handles is transparent. A file system behind [FileHandleCache] keeps
    every promise of the file system it wraps: a file opened through the cache, whether
    the handle was cached or not, is open for that path, and sizes, reads, writes and
    synchronisation act on the same contents, whatever entries the cache drops. *)
Theorem file_handle_cache_lawful : FileSystemLaws (FileHandleCache C S) File IoError.
Proof.
  split; cbn -[keeps fs_ok].
  - apply same_path.
  - intros f p q s. apply handle_path.
  - intros f p s [Hok _]. by apply handle_open.
  - intros p s r s'. apply cache_open_law.
  - intros p s r s' [Hok Hc]. unfold cache_sync_file, run_with_lock. cbn. destruct (sync_file p (fc_inner s)) as [r' i'] eqn:Es. intros [= <- <-].
    destruct (sync_law _ _ _ _ Hok Es) as [[Hok' Hk] Hf]. split; [|done]. split; [split; [done|]|done]. cbn. intros q f Hin.
    rewrite lru_clear_empty in Hin. by apply elem_of_nil in Hin.
  - intros f p s r s' Hok Hh. unfold with_inner. destruct (file_size f (fc_inner s)) as [r' i'] eqn:Es. intros [= <- <-].
    destruct (size_law _ p _ _ _ (proj1 Hok) Hh Es) as [Hk Hr]. split; [by apply keeps_inner|done].
  - intros f p o n s r s' Hok Hh. unfold with_inner. destruct (read_file f o n (fc_inner s)) as [r' i'] eqn:Es. intros [= <- <-].
    destruct (read_law _ p _ _ _ _ _ (proj1 Hok) Hh Es) as [Hk Hr]. split; [by apply keeps_inner|done].
  - intros f p o d s r s' Hok Hh. unfold with_inner. destruct (write_file f o d (fc_inner s)) as [r' i'] eqn:Es. intros [= <- <-].
    destruct (write_law _ p _ _ _ _ _ (proj1 Hok) Hh Es) as [Hk Hr]. split; [by apply keeps_inner|done].
Qed.
End CacheLaws.

(** ** A file system in memory and a cache that satisfy the laws *)

Definition mem_name (p : list Z) : list Z := foldl path_push [] (components p).

#[export] Instance mem_fs : FileSystem (gmap (list Z) (list Z)) (list Z) unit := {
  open_file p s := (inr p, match s !! mem_name p with Some _ => s | None => <[mem_name p := []]> s end);
  sync_file _ s := (inr tt, s);
  file_size f s := (match s !! mem_name f with Some c => inr (Z.of_nat (length c)) | None => inl tt end, s);
  read_file f o n s := (match s !! mem_name f with Some c => inr (fs_read_file c (Z.to_nat o) n) | None => inl tt end, s);
  write_file f o d s := match s !! mem_name f with
                        | Some c => (inr (length d), <[mem_name f := fs_write_file c (Z.to_nat o) d]> s)
                        | None => (inl tt, s)
                        end
}.

#[export] Instance mem_view : FsView (gmap (list Z) (list Z)) (list Z) := {
  fs_files s := s;
  fs_name := mem_name;
  fs_ok _ := True;
  handle_ok s f p := mem_name f = mem_name p /\ is_Some (s !! mem_name p)
}.

Lemma mem_keeps (s s' : gmap (list Z) (list Z)) : (forall k, is_Some (s !! k) -> is_Some (s' !! k)) -> keeps s s'.
Proof. intros Hk. split; [done|]. intros f q [Hf Hs]. split; [done|by apply Hk]. Qed.
Lemma mem_insert_keeps (s : gmap (list Z) (list Z)) k c : keeps s (<[k := c]> s).
Proof. apply mem_keeps. intros k' Hk. destruct (decide (k' = k)) as [->|]; [by rewrite lookup_insert_eq|by rewrite lookup_insert_ne]. Qed.

Lemma fs_read_prefix c o n : fs_read_file c o n = fs_read_file c o (length (fs_read_file c o n)).
Proof. unfold fs_read_file. rewrite length_take. destruct (decide (n <= length (drop o c))%nat); [by rewrite Nat.min_l|]. rewrite Nat.min_r by lia. rewrite !take_ge by lia. done. Qed.

#[export] Instance mem_laws : FileSystemLaws (gmap (list Z) (list Z)) (list Z) unit.
Proof.
  split.
  - intros p q Hp. unfold fs_name. cbn. unfold mem_name. by rewrite Hp.
  - intros f p q s Hp [Hf Hs]. assert (mem_name p = mem_name q) as E by (unfold mem_name; by rewrite Hp). split; congruence.
  - intros f p s _ [_ Hs]. done.
  - intros p s r s' _ [= <- <-]. cbn. unfold opened. destruct (s !! mem_name p) as [c|] eqn:E; (split; [|split; [split; [done|]|done]]).
    + by apply mem_keeps.
    + by rewrite E.
    + apply mem_insert_keeps.
    + by rewrite lookup_insert_eq.
  - intros p s r s' _ [= <- <-]. split; [by apply mem_keeps|done].
  - intros f p s r s' _ [Hf Hs] [= <- <-]. cbn. rewrite Hf. destruct Hs as [c Hc]. rewrite Hc. split; [by apply mem_keeps|]. split; [done|]. eauto.
  - intros f p o n s r s' _ [Hf [c Hc]] [= <- <-]. cbn. rewrite Hf, Hc. split; [by apply mem_keeps|]. split; [done|]. split; [unfold fs_read_file; rewrite length_take; lia|].
    exists c. split; [done|]. apply fs_read_prefix.
  - intros f p o d s r s' _ [Hf [c Hc]]. cbn. rewrite Hf, Hc. intros [= <- <-]. split; [apply mem_insert_keeps|]. split; [done|]. split; [intros Hne; destruct d; [done|cbn; lia]|]. exists c. split; [done|]. by rewrite take_ge.
Qed.

(** The most recently used entries, first the last used. *)
Record Lru (V : Type) : Type := mkLru { lru_capacity : nat; lru_list : list (list Z * V) }.
Arguments mkLru {V} lru_capacity lru_list.
Arguments lru_capacity {V} l.
Arguments lru_list {V} l.

#[export] Instance lru_reference V : LruCache (Lru V) V := {
  lru_new n := mkLru n [];
  lru_get_mut p c := match List.filter (fun e => bool_decide (components e.1 = components p)) (lru_list c) with
                     | e :: _ => (Some e.2, mkLru (lru_capacity c) (e :: List.filter (fun e => negb (bool_decide (components e.1 = components p))) (lru_list c)))
                     | [] => (None, c)
                     end;
  lru_insert p v c := mkLru (lru_capacity c) (take (lru_capacity c) ((p, v) :: List.filter (fun e => negb (bool_decide (components e.1 = components p))) (lru_list c)));
  lru_clear c := mkLru (lru_capacity c) []
}.

#[export] Instance lru_reference_laws V : LruCacheLaws (Lru V) V.
Proof.
  refine {| lru_entries := lru_list |}; cbn; try done.
  - intros p c. destruct (List.filter _ _) as [|e l] eqn:E; [done|]. cbn.
    assert (He : In e (List.filter (fun e => bool_decide (components e.1 = components p)) (lru_list c))) by (rewrite E; by left).
    apply filter_In in He as [He Hp]. apply bool_decide_eq_true in Hp. split.
    + intros x [->|[Hx _]%list_elem_of_In%filter_In]%elem_of_cons; by apply list_elem_of_In.
    + exists e.1. split; [done|]. apply list_elem_of_In. by destruct e.
  - intros p v c q w Hin. apply elem_of_take in Hin as (i & Hi & _). apply list_elem_of_lookup_2 in Hi.
    apply elem_of_cons in Hi as [[= -> ->]|[Hx _]%list_elem_of_In%filter_In]; [by left|right; by apply list_elem_of_In].
Defined.

Lemma file_handle_cache_lawful_witness : FileSystemLaws (FileHandleCache (Lru (list Z)) (gmap (list Z) (list Z))) (list Z) unit.
Proof. apply file_handle_cache_lawful. Defined.

(** Two handles in a cache of one: the second opening drops the first, the data stays. *)
Example cache_sample :
  let s0 := FileHandleCache_new (C := Lru (list Z)) (∅ : gmap (list Z) (list Z)) 1 in
  let '(_, s1) := open_file [97] s0 in let '(_, s2) := write_file [97] 0 [1; 2] s1 in
  let '(_, s3) := open_file [98] s2 in let '(_, s4) := open_file [97; 47] s3 in
  fst (read_file [97] 1 4 s4) = inr [2] /\ map fst (lru_list (fc_cache s4)) = [[97; 47]].
Proof. vm_compute. done. Qed.
