(* ===== verification/DiskPieces.v ===== *)
(** * Bookkeeping of received blocks

    Model of the checker state of [disk/tasks/helpers/piece_checker.rs]: blocks are
    collected per piece, merged, and a piece whose blocks have merged into one is
    handed to a check that decides whether it is good. The hash map of pending
    blocks is a finite map, traversed in its [HashOrder]. The check ([read_piece] and the
    comparison of hashes, see [DiskManager]) is a stateful function argument that may
    fail or panic. Offsets and lengths are [nat]: they come from 32-bit message fields, so
    their sums do not overflow. *)

From stdpp Require Import gmap sorting.
From S2P Require Import Prelude RustStd UtilSha DiskRegions DiskFs.

(** ** State *)

Inductive PieceState : Type :=
| GoodPiece (piece_index : nat)
| BadPiece (piece_index : nat).

#[export] Instance PieceState_eq_dec : EqDecision PieceState.
Proof. solve_decision. Defined.
#[export] Instance PieceState_countable : Countable PieceState.
Proof.
  refine (inj_countable'
    (fun s => match s with GoodPiece n => (true, n) | BadPiece n => (false, n) end)
    (fun p => if p.1 then GoodPiece p.2 else BadPiece p.2) _).
  by intros [].
Defined.

#[export] Instance BlockMetadata_eq_dec : EqDecision BlockMetadata.
Proof. solve_decision. Defined.

Record PieceCheckerState : Type := mkPieceCheckerState {
  new_states : list PieceState;
  old_states : gset PieceState;
  pending_blocks : gmap nat (list BlockMetadata);
  total_blocks : nat;
  last_block_size : nat
}.

Definition PieceCheckerState_new (total_blocks last_block_size : nat) : PieceCheckerState :=
  mkPieceCheckerState [] ∅ ∅ total_blocks last_block_size.

Definition set_pending (s : PieceCheckerState) (p : gmap nat (list BlockMetadata)) : PieceCheckerState :=
  mkPieceCheckerState (new_states s) (old_states s) p (total_blocks s) (last_block_size s).

Definition add_pending_block (s : PieceCheckerState) (msg : BlockMetadata) : PieceCheckerState :=
  let messages := default [] (pending_blocks s !! bm_piece_index msg) in
  set_pending s (<[bm_piece_index msg := messages ++ [msg]]> (pending_blocks s)).

(** The states passed to the callback, in order, and the state after. *)
Definition run_with_diff (s : PieceCheckerState) : list PieceState * PieceCheckerState :=
  (new_states s,
   mkPieceCheckerState [] (foldl (fun old piece_state => {[piece_state]} ∪ old) (old_states s) (new_states s))
     (pending_blocks s) (total_blocks s) (last_block_size s)).

(** ** Merging *)

Definition merge_piece_messages (message_a message_b : BlockMetadata) : option BlockMetadata :=
  if bool_decide (bm_info_hash message_a <> bm_info_hash message_b)
     || bool_decide (bm_piece_index message_a <> bm_piece_index message_b) then None
  else
    let info_hash := bm_info_hash message_a in
    let piece_index := bm_piece_index message_a in
    let start_a := bm_block_offset message_a in
    let end_a := (start_a + bm_block_length message_a)%nat in
    let start_b := bm_block_offset message_b in
    let end_b := (start_b + bm_block_length message_b)%nat in
    if (start_a <=? start_b)%nat && (start_b <=? end_a)%nat then
      let end_to_take := Nat.max end_a end_b in
      let length := (end_to_take - start_a)%nat in
      Some (BlockMetadata_new info_hash piece_index start_a length)
    else if (start_b <=? start_a)%nat && (start_a <=? end_b)%nat then
      let end_to_take := Nat.max end_a end_b in
      let length := (end_to_take - start_b)%nat in
      Some (BlockMetadata_new info_hash piece_index start_b length)
    else None.

(** [messages.sort_by(|a, b| a.block_offset().cmp(&b.block_offset()))], stable. *)
Fixpoint insert_by_offset (m : BlockMetadata) (messages : list BlockMetadata) : list BlockMetadata :=
  match messages with
  | [] => [m]
  | m' :: rest =>
      if (bm_block_offset m <=? bm_block_offset m')%nat then m :: messages
      else m' :: insert_by_offset m rest
  end.
Definition sort_by_offset (messages : list BlockMetadata) : list BlockMetadata :=
  foldr insert_by_offset [] messages.

(** The [while] loop, on the messages from the last to the first: [actual_last] has
    been popped, the head of [before] is [second_last]. *)
Fixpoint merge_loop (actual_last : BlockMetadata) (before : list BlockMetadata) : list BlockMetadata :=
  match before with
  | [] => [actual_last]
  | second_last :: rest =>
      match merge_piece_messages second_last actual_last with
      | Some merged => merge_loop merged rest
      | None => actual_last :: second_last :: rest
      end
  end.

Definition merge_messages (messages : list BlockMetadata) : list BlockMetadata :=
  match rev (sort_by_offset messages) with
  | [] => []
  | actual_last :: before => rev (merge_loop actual_last before)
  end.

Definition merge_pieces (s : PieceCheckerState) : PieceCheckerState :=
  set_pending s (merge_messages <$> pending_blocks s).

(** ** Checking complete pieces *)

(** [total_blocks - 1] underflows when there are no pieces. *)
Definition piece_is_complete {E} (total_blocks last_block_size piece_length : nat)
    (messages : list BlockMetadata) : res E bool :=
  let is_single_message := (length messages =? 1)%nat in
  match messages with
  | [] => Ok false
  | message :: _ =>
      let is_piece_length := (bm_block_length message =? piece_length)%nat in
      if (total_blocks =? 0)%nat then Panic else
      let is_last_block := (bm_piece_index message =? total_blocks - 1)%nat in
      let is_last_block_length := (bm_block_length message =? last_block_size)%nat in
      Ok (is_single_message && (is_piece_length || (is_last_block && is_last_block_length)))
  end.

Section Check.
Context {T E : Type} {HO : HashOrder nat (list BlockMetadata)}.

(** [callback(&messages[0])]: whether the piece is good. *)
Variable callback : BlockMetadata -> st T E bool.

(** The body of the loop for the entry of one piece; an error ends the loop. *)
Definition check_entry (piece_length : nat) (key : nat) : st (PieceCheckerState * T) E unit := fun '(s, t) =>
  match pending_blocks s !! key with
  | None => (Ok tt, (s, t))
  | Some messages =>
      (let* complete := st_of (piece_is_complete (total_blocks s) (last_block_size s) piece_length messages) in
       match complete, messages with
       | true, message :: _ =>
           if bool_decide (GoodPiece (bm_piece_index message) ∈ old_states s) then st_ret tt else
           let* is_good := st_snd (callback message) in
           let state := if is_good : bool then GoodPiece (bm_piece_index message)
                        else BadPiece (bm_piece_index message) in
           fun '(s, t) =>
             (Ok tt, (mkPieceCheckerState (new_states s ++ [state]) (old_states s)
                        (<[key := []]> (pending_blocks s)) (total_blocks s) (last_block_size s), t))
       | _, _ => st_ret tt
       end) (s, t)
  end.

Fixpoint check_entries (piece_length : nat) (order : list nat) : st (PieceCheckerState * T) E unit :=
  match order with
  | [] => st_ret tt
  | key :: order =>
      let* _ := check_entry piece_length key in
      check_entries piece_length order
  end.

Definition run_with_whole_pieces (piece_length : nat) : st (PieceCheckerState * T) E unit := fun '(s, t) =>
  let s := merge_pieces s in
  check_entries piece_length (hash_entries (pending_blocks s)).*1 (s, t).
End Check.

(** ** The initial state of a torrent *)

Definition last_piece_size (piece_length : nat) (sizes : list nat) : nat := (sum_list sizes mod piece_length)%nat.

Definition fill_checker_state (piece_length : nat) (sizes : list nat) (s : PieceCheckerState)
    : PieceCheckerState :=
  let total_bytes := sum_list sizes in
  let full_pieces := (total_bytes / piece_length)%nat in
  let last_piece_size := last_piece_size piece_length sizes in
  let s := foldl (fun s piece_index => add_pending_block s (with_default_hash piece_index 0 piece_length))
             s (seq 0 full_pieces) in
  if negb (last_piece_size =? 0)%nat
  then add_pending_block s (with_default_hash full_pieces 0 last_piece_size)
  else s.

(** ** Facts about merging *)

(** The bytes of the piece a block holds, and those a list of blocks holds. *)
Definition holds (m : BlockMetadata) (x : nat) : Prop :=
  (bm_block_offset m <= x < bm_block_offset m + bm_block_length m)%nat.
Definition received (messages : list BlockMetadata) (x : nat) : Prop := exists m, m ∈ messages /\ holds m x.

(** A non-empty block of piece [p] that stays within its [size] bytes. *)
Definition block_of (p size : nat) (m : BlockMetadata) : Prop :=
  bm_piece_index m = p /\ (0 < bm_block_length m)%nat /\
  (bm_block_offset m + bm_block_length m <= size)%nat.

Lemma merge_piece_messages_spec a b m : merge_piece_messages a b = Some m ->
  (forall x, holds m x <-> holds a x \/ holds b x) /\
  (forall p size, block_of p size a -> block_of p size b -> block_of p size m).
Proof.
  unfold merge_piece_messages. destruct (bool_decide _ || _); [done|]. cbv zeta.
  destruct (Nat.leb_spec (bm_block_offset a) (bm_block_offset b)),
    (Nat.leb_spec (bm_block_offset b) (bm_block_offset a + bm_block_length a)),
    (Nat.leb_spec (bm_block_offset b) (bm_block_offset a)),
    (Nat.leb_spec (bm_block_offset a) (bm_block_offset b + bm_block_length b)); simpl; intros; simplify_eq;
    unfold holds, block_of; simpl; (split; [intros x; lia|]); intros p size (? & ? & ?) (? & ? & ?);
    repeat split; done || lia.
Qed.

Lemma received_cons m l x : received (m :: l) x <-> holds m x \/ received l x.
Proof.
  unfold received. setoid_rewrite elem_of_cons. naive_solver.
Qed.

Lemma merge_loop_spec before : forall last,
  (forall x, received (merge_loop last before) x <-> received (last :: before) x) /\
  (forall p size, Forall (block_of p size) (last :: before) ->
     Forall (block_of p size) (merge_loop last before)).
Proof.
  induction before as [|b before IH]; intros last; simpl; [done|].
  destruct (merge_piece_messages b last) as [m|] eqn:Em; [|done].
  apply merge_piece_messages_spec in Em as [Hh Hb]. destruct (IH m) as [IHh IHb]. split.
  - intros x. rewrite IHh, !received_cons, Hh. tauto.
  - intros p size Hf. inversion Hf as [|? ? Hl Hf']; inversion Hf'; subst. apply IHb. constructor; auto.
Qed.

Lemma insert_by_offset_perm m l : insert_by_offset m l ≡ₚ m :: l.
Proof.
  induction l as [|m' l IH]; simpl; [done|]. case_match; [done|]. rewrite IH. constructor.
Qed.

Lemma sort_by_offset_perm l : sort_by_offset l ≡ₚ l.
Proof. induction l as [|m l IH]; simpl; [done|]. by rewrite insert_by_offset_perm, IH. Qed.

Lemma received_perm l k x : l ≡ₚ k -> received l x <-> received k x.
Proof. intros H. unfold received. by setoid_rewrite H. Qed.

Lemma rev_perm {A} (l : list A) : rev l ≡ₚ l.
Proof. symmetry. apply Permutation_rev. Qed.

(** Merging keeps exactly the received bytes and stays within the piece. *)
Lemma merge_messages_spec l :
  (forall x, received (merge_messages l) x <-> received l x) /\
  (forall p size, Forall (block_of p size) l -> Forall (block_of p size) (merge_messages l)).
Proof.
  unfold merge_messages.
  assert (Hp : rev (sort_by_offset l) ≡ₚ l) by (by rewrite rev_perm, sort_by_offset_perm).
  destruct (rev (sort_by_offset l)) as [|last before].
  - apply Permutation_nil_l in Hp as <-. done.
  - destruct (merge_loop_spec before last) as [Hh Hb]. split.
    + intros x. by rewrite (received_perm _ _ x (rev_perm _)), Hh, (received_perm _ _ x Hp).
    + intros p size Hf. rewrite rev_perm. apply Hb. by rewrite Hp.
Qed.

(** ** A piece received in consecutive blocks *)

Fixpoint chain (h : ShaHash) (p start : nat) (lens : list nat) : list BlockMetadata :=
  match lens with
  | [] => []
  | n :: lens => BlockMetadata_new h p start n :: chain h p (start + n) lens
  end.

Lemma chain_snoc h p lens : forall start n,
  chain h p start (lens ++ [n]) = chain h p start lens ++ [BlockMetadata_new h p (start + sum_list lens) n].
Proof.
  induction lens as [|m lens IH]; intros start n; simpl.
  - by rewrite Nat.add_0_r.
  - rewrite IH. do 3 f_equal. f_equal. lia.
Qed.

Lemma chain_offset h p lens : forall start m, Forall (fun n => 0 < n)%nat lens ->
  m ∈ chain h p start lens -> (start <= bm_block_offset m)%nat.
Proof.
  induction lens as [|n lens IH]; intros start m Hpos Hin; [by apply elem_of_nil in Hin|]. inversion Hpos; subst.
  apply elem_of_cons in Hin as [->|Hin]; [simpl; lia|]. apply IH in Hin; [lia|done].
Qed.

Definition offset_le (a b : BlockMetadata) : Prop := (bm_block_offset a <= bm_block_offset b)%nat.

Lemma chain_sorted h p lens : forall start, Forall (fun n => 0 < n)%nat lens ->
  StronglySorted offset_le (chain h p start lens).
Proof.
  induction lens as [|n lens IH]; intros start Hpos; simpl; [constructor|]. inversion Hpos; subst.
  constructor; [auto|]. apply Forall_forall. intros m Hm%chain_offset; [|done]. unfold offset_le. simpl. lia.
Qed.

Lemma chain_offset_inj h p lens : forall start a b, Forall (fun n => 0 < n)%nat lens ->
  a ∈ chain h p start lens -> b ∈ chain h p start lens -> bm_block_offset a = bm_block_offset b -> a = b.
Proof.
  induction lens as [|n lens IH]; intros start a b Hpos Ha Hb E; [by apply elem_of_nil in Ha|]. inversion Hpos; subst.
  apply elem_of_cons in Ha as [->|Ha], Hb as [->|Hb]; [done|..|by eapply IH].
  - apply chain_offset in Hb; [|done]. simpl in E. lia.
  - apply chain_offset in Ha; [|done]. simpl in E. lia.
Qed.

Lemma insert_by_offset_sorted m l : StronglySorted offset_le l -> StronglySorted offset_le (insert_by_offset m l).
Proof.
  induction 1 as [|m' l Hs IH Hf]; simpl; [repeat constructor|].
  destruct (Nat.leb_spec (bm_block_offset m) (bm_block_offset m')).
  - constructor; [by constructor|]. constructor; [done|]. eapply Forall_impl; [done|].
    unfold offset_le. intros; lia.
  - constructor; [done|]. rewrite insert_by_offset_perm. constructor; [unfold offset_le; lia|done].
Qed.

Lemma sort_by_offset_sorted l : StronglySorted offset_le (sort_by_offset l).
Proof. induction l; simpl; [constructor|]. by apply insert_by_offset_sorted. Qed.

Lemma sort_by_offset_chain h p start lens msgs : Forall (fun n => 0 < n)%nat lens ->
  msgs ≡ₚ chain h p start lens -> sort_by_offset msgs = chain h p start lens.
Proof.
  intros Hpos Hperm. apply (StronglySorted_unique_strong offset_le).
  - intros a b Ha Hb H1 H2. unfold offset_le in *.
    apply (chain_offset_inj h p lens start); [done| |done|lia].
    by rewrite <- Hperm, <- sort_by_offset_perm.
  - apply sort_by_offset_sorted.
  - by apply chain_sorted.
  - by rewrite sort_by_offset_perm.
Qed.

Lemma sum_list_snoc l n : sum_list (l ++ [n]) = (sum_list l + n)%nat.
Proof. rewrite sum_list_with_app. simpl. unfold id. lia. Qed.

Lemma merge_loop_chain h p start lens : forall n,
  merge_loop (BlockMetadata_new h p (start + sum_list lens) n) (rev (chain h p start lens)) =
    [BlockMetadata_new h p start (sum_list lens + n)].
Proof.
  induction lens as [|m lens IH] using rev_ind; intros n; [by rewrite Nat.add_0_r|].
  rewrite chain_snoc, rev_app_distr. cbn [rev app merge_loop].
  rewrite sum_list_snoc.
  assert (Hm : merge_piece_messages (BlockMetadata_new h p (start + sum_list lens) m)
      (BlockMetadata_new h p (start + (sum_list lens + m)) n) =
    Some (BlockMetadata_new h p (start + sum_list lens) (m + n))).
  { unfold merge_piece_messages. cbn [bm_info_hash bm_piece_index bm_block_offset bm_block_length].
    rewrite !bool_decide_false by (intros Hne; by apply Hne). cbn [orb]. cbv zeta.
    rewrite (proj2 (Nat.leb_le _ _)), (proj2 (Nat.leb_le _ _)) by lia. cbn [andb]. do 2 f_equal. lia. }
  rewrite Hm, IH. do 2 f_equal. lia.
Qed.

Lemma merge_messages_chain h p lens msgs : lens <> [] -> Forall (fun n => 0 < n)%nat lens ->
  msgs ≡ₚ chain h p 0 lens -> merge_messages msgs = [BlockMetadata_new h p 0 (sum_list lens)].
Proof.
  intros Hne Hpos Hperm. unfold merge_messages. rewrite (sort_by_offset_chain h p 0 lens) by done.
  destruct lens as [|n lens _] using rev_ind; [done|].
  rewrite chain_snoc, rev_app_distr. cbn [rev app]. rewrite merge_loop_chain. cbn [rev app].
  by rewrite sum_list_snoc.
Qed.

(** ** Which pieces are checked *)

(** The size of piece [p] of a torrent. *)
Definition piece_size (s : PieceCheckerState) (piece_length p : nat) : nat :=
  if bool_decide (p = total_blocks s - 1 /\ last_block_size s <> 0)%nat then last_block_size s else piece_length.

(** Every pending block is a non-empty part of its piece. *)
Definition pending_ok (piece_length : nat) (s : PieceCheckerState) : Prop :=
  forall p messages, pending_blocks s !! p = Some messages ->
    Forall (block_of p (piece_size s piece_length p)) messages.

Lemma complete_whole {E} s piece_length p m rest : (last_block_size s < piece_length)%nat ->
  block_of p (piece_size s piece_length p) m ->
  piece_is_complete (E := E) (total_blocks s) (last_block_size s) piece_length (m :: rest) = Ok true ->
  rest = [] /\ bm_block_offset m = 0%nat /\ bm_block_length m = piece_size s piece_length p.
Proof.
  intros Hlast (Hp & Hpos & Hfit). unfold piece_is_complete. case_match; [done|]. intros Hc. injection Hc as Hc.
  destruct rest; [|done]. cbn [length Nat.eqb andb] in Hc. split; [done|].
  unfold piece_size in *. apply orb_true_iff in Hc as [Hc|Hc].
  - apply Nat.eqb_eq in Hc. case_bool_decide; lia.
  - apply andb_true_iff in Hc as [H1%Nat.eqb_eq H2%Nat.eqb_eq]. rewrite bool_decide_true in * by lia. lia.
Qed.

Section Checked.
Context {T E : Type} {HO : HashOrder nat (list BlockMetadata)} (callback : BlockMetadata -> st T E bool).
(** An invariant of the state the check works on. *)
Context (I : T -> Prop) (HI : forall m t r t', I t -> callback m t = (r, t') -> I t').

(** The state was reported for a piece all of whose bytes one pending block holds. *)
Definition justified (piece_length : nat) (s0 : PieceCheckerState) (state : PieceState) : Prop :=
  exists p m good t1 t2, pending_blocks s0 !! p = Some [m] /\ block_of p (piece_size s0 piece_length p) m /\
    bm_block_offset m = 0%nat /\ bm_block_length m = piece_size s0 piece_length p /\
    I t1 /\ callback m t1 = (Ok good, t2) /\ state = (if good : bool then GoodPiece p else BadPiece p).

(** Progress of the loop from the merged state [s0]. *)
Definition checked_from (piece_length : nat) (s0 s : PieceCheckerState) : Prop :=
  total_blocks s = total_blocks s0 /\ last_block_size s = last_block_size s0 /\ old_states s = old_states s0 /\
  (forall p messages, pending_blocks s !! p = Some messages -> messages <> [] ->
     pending_blocks s0 !! p = Some messages) /\
  exists added, new_states s = new_states s0 ++ added /\ Forall (justified piece_length s0) added.

(** One entry: nothing changes, or its piece is checked. *)
Lemma check_entry_cases piece_length key s t r s' t' : check_entry callback piece_length key (s, t) = (r, (s', t')) ->
  s' = s /\ t' = t \/
  exists messages m, pending_blocks s !! key = Some messages /\ head messages = Some m /\
    piece_is_complete (E := E) (total_blocks s) (last_block_size s) piece_length messages = Ok true /\
    GoodPiece (bm_piece_index m) ∉ old_states s /\ exists rb, callback m t = (rb, t') /\
    match rb with
    | Ok good => r = Ok tt /\ s' = mkPieceCheckerState
        (new_states s ++ [if good : bool then GoodPiece (bm_piece_index m) else BadPiece (bm_piece_index m)])
        (old_states s) (<[key := []]> (pending_blocks s)) (total_blocks s) (last_block_size s)
    | Err e => r = Err e /\ s' = s
    | Panic => r = Panic /\ s' = s
    | OutOfFuel => r = OutOfFuel /\ s' = s
    end.
Proof.
  unfold check_entry. destruct (pending_blocks s !! key) as [messages|] eqn:Hk; [|intros [= <- <- <-]; by left].
  unfold st_bind, st_of. destruct (piece_is_complete _ _ _ messages) as [[]| | |] eqn:Hc; try (intros [= <- <- <-]; by left).
  destruct messages as [|m rest]; [intros [= <- <- <-]; by left|]. case_bool_decide; [intros [= <- <- <-]; by left|].
  unfold st_snd. destruct (callback m t) as [rb t1] eqn:Hcb. intros H1. right. exists (m :: rest), m.
  destruct rb; injection H1 as <- <- <-; split_and!; try done; eexists; (split; [done|]); done.
Qed.

Lemma check_entry_from piece_length s0 key s t r s' t' :
  (last_block_size s0 < piece_length)%nat -> pending_ok piece_length s0 -> checked_from piece_length s0 s -> I t ->
  check_entry callback piece_length key (s, t) = (r, (s', t')) -> checked_from piece_length s0 s' /\ I t'.
Proof.
  intros Hlast Hok Hfrom Ht [[-> ->]|(messages & m & Hk & Hm & Hc & _ & rb & Hcb & Hr)]%check_entry_cases; [done|].
  assert (HIt := HI _ _ _ _ Ht Hcb). split; [|done]. destruct rb as [good|e| |]; destruct Hr as [-> ->]; try done.
  destruct Hfrom as (Htot & Hl & Ho & Hpend & added & Hnew & Hadd). destruct messages as [|? rest]; [done|]. injection Hm as ->.
  assert (Hm0 := Hpend _ _ Hk ltac:(done)). pose proof (Hok _ _ Hm0) as Hb. inversion Hb as [|? ? Hbm Hbr]; subst.
  rewrite Htot, Hl in Hc. destruct (complete_whole s0 piece_length key m rest Hlast Hbm Hc) as (-> & Hoff & Hlen).
  split; [done|]. split; [done|]. split; [done|]. split.
  - simpl. intros p messages Hp Hne. destruct (decide (p = key)) as [->|].
    + rewrite lookup_insert_eq in Hp. by simplify_eq.
    + rewrite lookup_insert_ne in Hp by done. by apply Hpend.
  - simpl. rewrite Hnew, <- app_assoc. eexists. split; [done|]. apply Forall_app. split; [done|].
    apply Forall_singleton. exists key, m, good, t, t'. rewrite (proj1 Hbm). by repeat (split; [assumption|]).
Qed.

Lemma check_entries_from piece_length s0 order : forall s t r s' t',
  (last_block_size s0 < piece_length)%nat -> pending_ok piece_length s0 -> checked_from piece_length s0 s -> I t ->
  check_entries callback piece_length order (s, t) = (r, (s', t')) -> checked_from piece_length s0 s' /\ I t'.
Proof.
  induction order as [|key order IH]; intros s t r s' t' Hlast Hok Hfrom Ht H; simpl in H; [by injection H as <- <- <-|].
  unfold st_bind in H. destruct (check_entry callback piece_length key (s, t)) as [r1 [s1 t1]] eqn:E1.
  apply (check_entry_from piece_length s0) in E1 as [Hfrom1 Ht1]; [|done..].
  destruct r1; [|injection H as <- <- <-; done..]. by eapply IH.
Qed.

Lemma merge_pieces_ok piece_length s : pending_ok piece_length s -> pending_ok piece_length (merge_pieces s).
Proof.
  intros Hok p messages Hp. simpl in Hp. rewrite lookup_fmap in Hp.
  destruct (pending_blocks s !! p) as [l|] eqn:El; [|done]. simpl in Hp. injection Hp as <-.
  by apply merge_messages_spec, Hok.
Qed.

Lemma run_whole_from piece_length s t r s' t' : (last_block_size s < piece_length)%nat -> pending_ok piece_length s -> I t ->
  run_with_whole_pieces callback piece_length (s, t) = (r, (s', t')) -> checked_from piece_length (merge_pieces s) s' /\ I t'.
Proof.
  intros Hlast Hok Ht. apply check_entries_from; [exact Hlast|by apply merge_pieces_ok| |done].
  repeat (split; [done|]). exists []. by rewrite app_nil_r.
Qed.

(** Only whole pieces are checked. Whatever order the pieces are visited in, whatever
    the check answers and whether or not it fails, a piece is reported only if every byte
    of it has been received; the check was given the block of the whole piece, in a state
    in which its invariant holds, and the report is its answer. *)
Lemma whole_pieces_sound (piece_length : nat) (s s' : PieceCheckerState) (t t' : T) (r : res E unit) :
  (last_block_size s < piece_length)%nat -> pending_ok piece_length s -> I t ->
  run_with_whole_pieces callback piece_length (s, t) = (r, (s', t')) ->
  exists added, new_states s' = new_states s ++ added /\
    Forall (fun state => exists p messages m good t1 t2,
      state = (if good : bool then GoodPiece p else BadPiece p) /\ I t1 /\ callback m t1 = (Ok good, t2) /\
      bm_piece_index m = p /\ bm_block_offset m = 0%nat /\ bm_block_length m = piece_size s piece_length p /\
      pending_blocks s !! p = Some messages /\
      forall x, (x < piece_size s piece_length p)%nat -> received messages x) added.
Proof.
  intros Hlast Hok Ht Hrun. apply run_whole_from in Hrun as [(_ & _ & _ & _ & added & Hnew & Hadd) _]; [|done..].
  exists added. split; [exact Hnew|]. eapply Forall_impl; [exact Hadd|].
  intros state (p & m & good & t1 & t2 & Hp & (Hidx & _) & Hoff & Hlen & Ht1 & Hcb & Hst).
  simpl in Hp. rewrite lookup_fmap in Hp. destruct (pending_blocks s !! p) as [l|] eqn:El; [|done].
  simpl in Hp. injection Hp as Hp. exists p, l, m, good, t1, t2. split_and!; try done.
  intros x Hx. apply (merge_messages_spec l). rewrite Hp. exists m. split; [left|].
  unfold holds. rewrite Hoff, Hlen. change (piece_size (merge_pieces s) piece_length p) with (piece_size s piece_length p). lia.
Qed.
End Checked.

(** A piece that arrives in consecutive blocks, in any order, merges into one
    block, which counts as complete exactly because it has the size of the piece. *)
Lemma piece_blocks_any_order (h : ShaHash) (p piece_length total last : nat) (lens : list nat)
    (messages : list BlockMetadata) :
  lens <> [] -> Forall (fun n => 0 < n)%nat lens -> messages ≡ₚ chain h p 0 lens -> (0 < total)%nat ->
  merge_messages messages = [BlockMetadata_new h p 0 (sum_list lens)] /\
  (piece_is_complete (E := unit) total last piece_length (merge_messages messages) = Ok true <->
   sum_list lens = piece_length \/ (p = total - 1 /\ sum_list lens = last)%nat).
Proof.
  intros Hne Hpos Hperm Ht. rewrite (merge_messages_chain h p lens) by done. split; [done|].
  unfold piece_is_complete. cbn [length Nat.eqb bm_block_length bm_piece_index].
  destruct (Nat.eqb_spec total 0); [lia|].
  destruct (Nat.eqb_spec (sum_list lens) piece_length), (Nat.eqb_spec p (total - 1)),
    (Nat.eqb_spec (sum_list lens) last); cbn [andb orb]; split; try done; tauto.
Qed.

Lemma piece_blocks_any_order_witness :
  let h := mkShaHash (replicate 20 3) in
  let messages := [BlockMetadata_new h 2 4 4; BlockMetadata_new h 2 0 4; BlockMetadata_new h 2 8 2] in
  merge_messages messages = [BlockMetadata_new h 2 0 10] /\
  (piece_is_complete (E := unit) 3 10 16 (merge_messages messages) = Ok true <->
   10%nat = 16%nat \/ (2 = 3 - 1 /\ 10 = 10)%nat).
Proof.
  intros h messages. apply (piece_blocks_any_order h 2 16 3 10 [4; 4; 2]%nat); [discriminate| | |lia].
  - repeat (constructor; [lia|]). constructor.
  - apply Permutation_swap.
Defined.

(** Two pieces of four bytes; the blocks of the first have all arrived. *)
Definition sample_checker : PieceCheckerState :=
  foldl add_pending_block (PieceCheckerState_new 2 0)
    [with_default_hash 0 2 2; with_default_hash 1 0 3; with_default_hash 0 0 2].

#[export] Instance pending_order : HashOrder nat (list BlockMetadata).
Proof. refine {| hash_entries := map_to_list |}. done. Defined.

(** A check that counts its calls. *)
Definition sample_check (_ : BlockMetadata) : st nat unit bool := fun n => (Ok true, S n).

Lemma whole_pieces_sound_witness :
  exists s' r, run_with_whole_pieces sample_check 4 (sample_checker, 0%nat) = (r, (s', 1%nat)) /\
  exists added, new_states s' = new_states sample_checker ++ added /\
    Forall (fun state => exists p messages m good t1 t2,
      state = (if good : bool then GoodPiece p else BadPiece p) /\ True /\ sample_check m t1 = (Ok good, t2) /\
      bm_piece_index m = p /\ bm_block_offset m = 0%nat /\ bm_block_length m = piece_size sample_checker 4 p /\
      pending_blocks sample_checker !! p = Some messages /\
      forall x, (x < piece_size sample_checker 4 p)%nat -> received messages x) added.
Proof.
  destruct (run_with_whole_pieces sample_check 4 (sample_checker, 0%nat)) as [r [s' t']] eqn:Hrun. exists s', r.
  assert (t' = 1%nat) as -> by (vm_compute in Hrun; by injection Hrun as _ _ <-). split; [done|].
  apply (whole_pieces_sound sample_check (fun _ => True) ltac:(done) 4 sample_checker s' 0%nat 1%nat r); [vm_compute; lia| |done|exact Hrun].
  intros p messages Hp. apply elem_of_map_to_list in Hp.
  vm_compute in Hp. repeat (apply elem_of_cons in Hp as [Hp|Hp]; [injection Hp as -> ->|]);
    [..|by apply elem_of_nil in Hp]; repeat (constructor; [vm_compute; lia|]); constructor.
Defined.

(** Merging works from the last block backwards and stops at the first gap between
    neighbours, so a block contained in an earlier one can keep a fully received
    piece from merging. *)
Example merge_stops_at_nested_block :
  merge_messages [with_default_hash 0 0 16; with_default_hash 0 4 4; with_default_hash 0 12 4] =
    [with_default_hash 0 0 16; with_default_hash 0 4 4; with_default_hash 0 12 4].
Proof. reflexivity. Qed.
