(* ===== verification/DiskManager.v ===== *)
(** * The disk manager

    Model of [disk/manager.rs], [disk/builder.rs], [disk/tasks/mod.rs],
    [disk/tasks/context.rs], [disk/error.rs], [disk/message/mod.rs] and of the file access
    of [disk/tasks/helpers]: torrents are added, removed and synchronised, blocks are
    loaded and processed by tasks over any [FileSystem], and a bounded sink accepts
    messages while the stream hands out the answers.

    A task is a sequence of steps: what it does under the lock of its torrent, and sending
    its answer. Adding a torrent holds no lock: checking its files, reporting the pieces
    found and inserting it are steps of their own. A step accesses the files of one torrent
    only; it stands for accesses that interleave with those to the files of others.
    Tasks, sinks and the stream interleave in any order. A panic ends its task; one under
    the lock of a torrent poisons the lock. The stream is kept as long as tasks run, so
    that sending succeeds. Pieces and blocks are indexed by [nat]; the products and sums of
    the sources that can exceed 64 bits panic. *)

From stdpp Require Import gmap.
From S2P Require Import Prelude RustStd UtilSha Paths Metainfo MetainfoHasher DiskRegions DiskFs DiskPieces.

(** ** Blocks, errors and messages *)

(** [Block] and [BlockMut]. *)
Record Block : Type := Block_new { bk_metadata : BlockMetadata; bk_data : list Z }.

Inductive BlockError (IoError : Type) : Type :=
| BlockIo (e : IoError)
| BlockInfoHashNotFound (hash : ShaHash).
Arguments BlockIo {IoError} e.
Arguments BlockInfoHashNotFound {IoError} hash.

Inductive TorrentError (IoError : Type) : Type :=
| TorrentBlock (e : BlockError IoError)
| TorrentIo (e : IoError)
| ExistingFileSizeCheck (file_path : list Z) (expected_size actual_size : Z)
| ExistingInfoHash (hash : ShaHash)
| TorrentInfoHashNotFound (hash : ShaHash).
Arguments TorrentBlock {IoError} e.
Arguments TorrentIo {IoError} e.
Arguments ExistingFileSizeCheck {IoError} file_path expected_size actual_size.
Arguments ExistingInfoHash {IoError} hash.
Arguments TorrentInfoHashNotFound {IoError} hash.

Inductive IDiskMessage : Type :=
| AddTorrent (file : Metainfo)
| RemoveTorrent (hash : ShaHash)
| SyncTorrent (hash : ShaHash)
| LoadBlock (block : Block)
| ProcessBlock (block : Block).

Inductive ODiskMessage (IoError : Type) : Type :=
| TorrentAdded (hash : ShaHash)
| TorrentRemoved (hash : ShaHash)
| TorrentSynced (hash : ShaHash)
| FoundGoodPiece (hash : ShaHash) (index : nat)
| FoundBadPiece (hash : ShaHash) (index : nat)
| BlockLoaded (block : Block)
| BlockProcessed (block : Block)
| TorrentFailed (hash : ShaHash) (e : TorrentError IoError)
| LoadBlockError (block : Block) (e : BlockError IoError)
| ProcessBlockError (block : Block) (e : BlockError IoError).
Arguments TorrentAdded {IoError} hash.
Arguments TorrentRemoved {IoError} hash.
Arguments TorrentSynced {IoError} hash.
Arguments FoundGoodPiece {IoError} hash index.
Arguments FoundBadPiece {IoError} hash index.
Arguments BlockLoaded {IoError} block.
Arguments BlockProcessed {IoError} block.
Arguments TorrentFailed {IoError} hash e.
Arguments LoadBlockError {IoError} block e.
Arguments ProcessBlockError {IoError} block e.

(** The result of a call as a value. *)
Definition st_catch {T E E' A} (m : st T E A) : st T E' (E + A) := fun s =>
  match m s with
  | (Ok a, s) => (Ok (inr a), s)
  | (Err e, s) => (Ok (inl e), s)
  | (Panic, s) => (Panic, s)
  | (OutOfFuel, s) => (OutOfFuel, s)
  end.

(** ** Access to the files of a torrent *)

Definition build_path (parent_directory : option (list Z)) (file : MetaFile) : list Z :=
  match parent_directory with
  | Some dir => path_push dir (mf_path file)
  | None => mf_path file
  end.

Definition piece_length (info : Info) : nat := Z.to_nat (in_piece_len info).
Definition file_sizes (info : Info) : list nat := map (fun file => Z.to_nat (mf_len file)) (in_files info).
Definition file_path (info : Info) (file : MetaFile) : list Z := build_path (in_file_directory info) file.

Section Access.
Context {S File IoError : Type} `{HF : FileSystem S File IoError}.

(** The closure is called with a buffer as its state. *)
Fixpoint for_regions (info : Info) (callback : File -> nat -> nat -> nat -> st (list Z * S) IoError unit) (rs : list region)
    : st (list Z * S) IoError unit :=
  match rs with
  | [] => st_ret tt
  | r :: rs =>
      let* file := st_of (or_panic (in_files info !! rg_file r)) in
      let* fs_file := st_snd (io (open_file (file_path info file))) in
      let* _ := callback fs_file (rg_offset r) (rg_begin r) (rg_end r) in
      for_regions info callback rs
  end.

(** The position of the block is computed in 64 bits. *)
Definition with_file_regions (info : Info) (message : BlockMetadata)
    (callback : File -> nat -> nat -> nat -> st (list Z * S) IoError unit) : st (list Z * S) IoError unit :=
  if 2 ^ 64 <=? Z.of_nat (bm_piece_index message * piece_length info + bm_block_offset message) then st_of Panic
  else for_regions info callback (run_with_file_regions (piece_length info) (file_sizes info) message).

(** A short read fails the assertion, after the bytes were put into the buffer. *)
Definition read_callback (file : File) (offset b e : nat) : st (list Z * S) IoError unit := fun '(piece_buffer, s) =>
  (let* _ := st_of (buffer_range piece_buffer b e) in
   let* bytes_read := st_snd (io (read_file file (Z.of_nat offset) (e - b))) in
   fun '(piece_buffer, s) =>
     let piece_buffer := splice piece_buffer b bytes_read in
     (if negb (length bytes_read =? e - b)%nat then Panic else Ok tt, (piece_buffer, s))) (piece_buffer, s).

Definition write_callback (file : File) (offset b e : nat) : st (list Z * S) IoError unit := fun '(piece_buffer, s) =>
  (let* data := st_of (buffer_range piece_buffer b e) in
   let* bytes_written := st_snd (io (write_file file (Z.of_nat offset) data)) in
   if negb (bytes_written =? e - b)%nat then st_of Panic else st_ret tt) (piece_buffer, s).

Definition accessor_read_piece (info : Info) (message : BlockMetadata) : st (list Z * S) IoError unit :=
  with_file_regions info message read_callback.
Definition accessor_write_piece (info : Info) (message : BlockMetadata) : st (list Z * S) IoError unit :=
  with_file_regions info message write_callback.

(** ** The checker *)

Context {HO : HashOrder nat (list BlockMetadata)} (sha1 : list Z -> list Z).

(** The closure of [calculate_diff]: the piece is read into the front of the buffer. *)
Definition check_piece (info : Info) (message : BlockMetadata) : st (list Z * S) IoError bool := fun '(piece_buffer, s) =>
  let n := bm_block_length message in
  if (length piece_buffer <? n)%nat then (Panic, (piece_buffer, s)) else
  let '(r, (front, s)) := accessor_read_piece info message (take n piece_buffer, s) in
  ((let? _ := r in
    let calculated_hash := ShaHash_from_bytes sha1 front in
    let? expected := or_panic (in_pieces info !! bm_piece_index message) in
    let? expected_hash := res_unwrap (ShaHash_from_hash expected) in
    Ok (bool_decide (calculated_hash = expected_hash))),
   (front ++ drop n piece_buffer, s)).

Definition calculate_diff (info : Info) : st (PieceCheckerState * S) IoError unit := fun '(cs, s) =>
  if MAX_CAPACITY <? in_piece_len info then (Panic, (cs, s)) else
  let piece_buffer := replicate (piece_length info) 0 in
  let '(r, (cs, (_, s))) := run_with_whole_pieces (check_piece info) (piece_length info) (cs, (piece_buffer, s)) in
  (r, (cs, s)).

(** [last_piece_size]: the sum and the division can panic. *)
Definition checked_last_piece_size {E} (info : Info) : res E nat :=
  if 2 ^ 64 <=? Z.of_nat (sum_list (file_sizes info)) then Panic
  else if (piece_length info =? 0)%nat then Panic
  else Ok (last_piece_size (piece_length info) (file_sizes info)).

Definition validate_file_size (info : Info) (file : MetaFile) : st S (TorrentError IoError) unit :=
  let path := file_path info file in
  let expected_size := mf_len file in
  let* fs_file := st_map_err TorrentIo (io (open_file path)) in
  let* actual_size := st_map_err TorrentIo (io (file_size fs_file)) in
  let size_matches := actual_size =? expected_size in
  let size_is_zero := actual_size =? 0 in
  if negb size_matches && size_is_zero then
    fun s => match write_file fs_file (expected_size - 1) [0] s with
             | (inl _, s) => (Panic, s)
             | (inr _, s) => (Ok tt, s)
             end
  else if negb size_matches then st_of (Err (ExistingFileSizeCheck path expected_size actual_size))
  else st_ret tt.

Fixpoint validate_files_sizes (info : Info) (files : list MetaFile) : st S (TorrentError IoError) unit :=
  match files with
  | [] => st_ret tt
  | file :: files => let* _ := validate_file_size info file in validate_files_sizes info files
  end.

Definition init_state (info : Info) : st S (TorrentError IoError) PieceCheckerState :=
  let total_blocks := length (in_pieces info) in
  let* last_piece_size := st_of (checked_last_piece_size info) in
  let checker_state := PieceCheckerState_new total_blocks last_piece_size in
  let* _ := validate_files_sizes info (in_files info) in
  let checker_state := fill_checker_state (piece_length info) (file_sizes info) checker_state in
  fun s =>
    let '(r, (checker_state, s)) := calculate_diff info (checker_state, s) in
    ((let? _ := map_err r TorrentIo in Ok checker_state), s).

(** ** The torrents of the manager *)

Record MetainfoState : Type := mkMetainfoState { ms_file : Metainfo; ms_state : PieceCheckerState; ms_poisoned : bool }.
Definition MetainfoState_new (file : Metainfo) (state : PieceCheckerState) : MetainfoState := mkMetainfoState file state false.

Record DiskManagerContext : Type := mkContext {
  dc_torrents : gmap ShaHash MetainfoState;
  dc_out : list (ODiskMessage IoError);
  dc_fs : S
}.
Definition DiskManagerContext_new (fs : S) : DiskManagerContext := mkContext ∅ [] fs.

Definition file_hash (file : Metainfo) : ShaHash := in_info_hash (mi_info file).

Definition insert_torrent (file : Metainfo) (state : PieceCheckerState) (c : DiskManagerContext) : bool * DiskManagerContext :=
  let hash := file_hash file in
  let hash_not_exists := negb (bool_decide (is_Some (dc_torrents c !! hash))) in
  (hash_not_exists,
   if hash_not_exists then mkContext (<[hash := MetainfoState_new file state]> (dc_torrents c)) (dc_out c) (dc_fs c) else c).

Definition remove_torrent (hash : ShaHash) (c : DiskManagerContext) : bool * DiskManagerContext :=
  match dc_torrents c !! hash with
  | Some _ => (true, mkContext (delete hash (dc_torrents c)) (dc_out c) (dc_fs c))
  | None => (false, c)
  end.

(** [update_torrent]: the result of the closure, if there is such a torrent. *)
Definition update_torrent {E A} (hash : ShaHash) (call : Metainfo -> st (PieceCheckerState * S) E A)
    : st DiskManagerContext E (option A) := fun c =>
  match dc_torrents c !! hash with
  | None => (Ok None, c)
  | Some state =>
      if ms_poisoned state then (Panic, c) else
      let '(r, (cs, s)) := call (ms_file state) (ms_state state, dc_fs c) in
      let poisoned := match r with Ok _ | Err _ => false | _ => true end in
      ((let? a := r in Ok (Some a)),
       mkContext (<[hash := mkMetainfoState (ms_file state) cs poisoned]> (dc_torrents c)) (dc_out c) s)
  end.

(** [blocking_sender.send]. *)
Definition send {E} (msgs : list (ODiskMessage IoError)) : st DiskManagerContext E unit := fun c =>
  (Ok tt, mkContext (dc_torrents c) (dc_out c ++ msgs) (dc_fs c)).

Definition piece_message (hash : ShaHash) (ignore_bad : bool) (state : PieceState) : option (ODiskMessage IoError) :=
  match state, ignore_bad with
  | GoodPiece index, _ => Some (FoundGoodPiece hash index)
  | BadPiece index, false => Some (FoundBadPiece hash index)
  | BadPiece _, true => None
  end.

(** [send_piece_diff]: the messages it sends and the state after. *)
Definition send_piece_diff (hash : ShaHash) (ignore_bad : bool) (cs : PieceCheckerState)
    : list (ODiskMessage IoError) * PieceCheckerState :=
  let '(states, cs) := run_with_diff cs in
  (omap (piece_message hash ignore_bad) states, cs).

(** ** The tasks *)

(** [execute_add_torrent] in three parts, which no lock holds together. The check: *)
Definition check_torrent (file : Metainfo) : st DiskManagerContext (TorrentError IoError) PieceCheckerState := fun c =>
  let '(r, s) := init_state (mi_info file) (dc_fs c) in
  (r, mkContext (dc_torrents c) (dc_out c) s).

(** the report of the pieces found, *)
Definition report_torrent (file : Metainfo) (cs : PieceCheckerState) : st DiskManagerContext (TorrentError IoError) PieceCheckerState :=
  let '(msgs, cs) := send_piece_diff (file_hash file) true cs in
  let* _ := send msgs in st_ret cs.

(** and the insertion. *)
Definition finish_add_torrent (file : Metainfo) (cs : PieceCheckerState) : st DiskManagerContext (TorrentError IoError) unit := fun c =>
  let '(inserted, c) := insert_torrent file cs c in
  (if inserted : bool then Ok tt else Err (ExistingInfoHash (file_hash file)), c).

Definition execute_add_torrent (file : Metainfo) : st DiskManagerContext (TorrentError IoError) unit :=
  let* init_state := check_torrent file in
  let* init_state := report_torrent file init_state in
  finish_add_torrent file init_state.

Definition execute_remove_torrent (hash : ShaHash) : st DiskManagerContext (TorrentError IoError) unit := fun c =>
  let '(removed, c) := remove_torrent hash c in
  (if removed : bool then Ok tt else Err (TorrentInfoHashNotFound hash), c).

(** The loop keeps the result of the last file. *)
Fixpoint sync_files {E} (info : Info) (files : list MetaFile) (sync_result : IoError + unit) : st (PieceCheckerState * S) E (IoError + unit) :=
  match files with
  | [] => st_ret sync_result
  | file :: files =>
      let* sync_result := st_catch (st_snd (io (sync_file (file_path info file)))) in
      sync_files info files sync_result
  end.

Definition execute_sync_torrent (hash : ShaHash) : st DiskManagerContext (TorrentError IoError) unit :=
  let* found := update_torrent hash (fun metainfo_file =>
    sync_files (mi_info metainfo_file) (in_files (mi_info metainfo_file)) (inr tt)) in
  st_of match found with
        | Some (inr _) => Ok tt
        | Some (inl e) => Err (TorrentIo e)
        | None => Err (TorrentInfoHashNotFound hash)
        end.

(** The block is changed in place, also when reading fails. *)
Definition execute_load_block (block : Block) : st DiskManagerContext (Block * BlockError IoError) Block :=
  let metadata := bk_metadata block in
  let* found := update_torrent (bm_info_hash metadata) (fun metainfo_file '(cs, s) =>
    let '(access_result, (buf, s)) := st_catch (accessor_read_piece (mi_info metainfo_file) metadata) (bk_data block, s) in
    ((let? r := access_result in Ok (r, Block_new metadata buf)), (cs, s))) in
  st_of match found with
        | Some (inr _, block) => Ok block
        | Some (inl e, block) => Err (block, BlockIo e)
        | None => Err (block, BlockInfoHashNotFound (bm_info_hash metadata))
        end.

(** Write the block, note it and check the pieces. *)
Definition write_and_check (info : Info) (block : Block) : st (PieceCheckerState * S) IoError unit := fun '(cs, s) =>
  let metadata := bk_metadata block in
  let '(written, (_, s)) := accessor_write_piece info metadata (bk_data block, s) in
  (let* _ := st_of written in
   let* _ := (fun '(cs, s) => (Ok tt, (add_pending_block cs metadata, s))) in
   calculate_diff info) (cs, s).

(** The differences are sent whether or not writing or checking failed. *)
Definition execute_process_block (block : Block) : st DiskManagerContext (BlockError IoError) unit :=
  let hash := bm_info_hash (bk_metadata block) in
  let* found := update_torrent hash (fun metainfo_file =>
    let* block_result := st_catch (write_and_check (mi_info metainfo_file) block) in
    fun '(cs, s) =>
      let '(msgs, cs) := send_piece_diff (file_hash metainfo_file) false cs in
      (Ok (block_result, msgs), (cs, s))) in
  match found with
  | Some (block_result, msgs) =>
      let* _ := send msgs in
      st_of match block_result with inr _ => Ok tt | inl e => Err (BlockIo e) end
  | None => st_of (Err (BlockInfoHashNotFound hash))
  end.

(** ** Tasks as steps *)

(** A task that was spawned, one about to report the pieces of its torrent or to insert it,
    one about to send its answer. *)
Inductive Task : Type :=
| TStart (msg : IDiskMessage)
| TReport (file : Metainfo) (state : PieceCheckerState)
| TInsert (file : Metainfo) (state : PieceCheckerState)
| TSend (out_msg : ODiskMessage IoError).

(** The answer to a call that returned; a panic ends the task. *)
Definition answer {E A} (m : st DiskManagerContext E A) (ok : A -> Task) (err : E -> Task) : st DiskManagerContext Empty_set (option Task) :=
  let* r := st_catch m in
  st_ret (Some match r with inr a => ok a | inl e => err e end).

(** [execute_on_pool]: one step of a task. Adding a torrent takes the steps of
    [execute_add_torrent], between which other tasks run. *)
Definition task_step (t : Task) : st DiskManagerContext Empty_set (option Task) :=
  match t with
  | TStart (AddTorrent file) =>
      answer (check_torrent file) (TReport file) (fun err => TSend (TorrentFailed (file_hash file) err))
  | TReport file state =>
      answer (report_torrent file state) (TInsert file) (fun err => TSend (TorrentFailed (file_hash file) err))
  | TInsert file state =>
      answer (finish_add_torrent file state) (fun _ => TSend (TorrentAdded (file_hash file))) (fun err => TSend (TorrentFailed (file_hash file) err))
  | TStart (RemoveTorrent hash) =>
      answer (execute_remove_torrent hash) (fun _ => TSend (TorrentRemoved hash)) (fun err => TSend (TorrentFailed hash err))
  | TStart (SyncTorrent hash) =>
      answer (execute_sync_torrent hash) (fun _ => TSend (TorrentSynced hash)) (fun err => TSend (TorrentFailed hash err))
  | TStart (LoadBlock block) =>
      answer (execute_load_block block) (fun block => TSend (BlockLoaded block)) (fun '(block, err) => TSend (LoadBlockError block err))
  | TStart (ProcessBlock block) =>
      answer (execute_process_block block) (fun _ => TSend (BlockProcessed block)) (fun err => TSend (ProcessBlockError block err))
  | TSend out_msg => let* _ := send [out_msg] in st_ret None
  end.

(** ** The manager *)

Record DiskManagerBuilder : Type := mkBuilder { pending_size : Z; completed_size : Z }.
Definition DEFAULT_PENDING_SIZE : Z := 10.
Definition DEFAULT_COMPLETED_SIZE : Z := 10.
Definition DiskManagerBuilder_new : DiskManagerBuilder := mkBuilder DEFAULT_PENDING_SIZE DEFAULT_COMPLETED_SIZE.
Definition with_sink_buffer_capacity (size : Z) (b : DiskManagerBuilder) : DiskManagerBuilder := mkBuilder size (completed_size b).
Definition with_stream_buffer_capacity (size : Z) (b : DiskManagerBuilder) : DiskManagerBuilder := mkBuilder (pending_size b) size.

(** The sinks share the counter; [dm_refusing] of them have counted a message they refuse
    and not taken it back yet. *)
Record DiskManager : Type := mkDiskManager {
  dm_context : DiskManagerContext;
  dm_max_capacity : Z;
  dm_cur_capacity : Z;
  dm_refusing : nat;
  dm_tasks : list Task
}.

(** The channel is unbounded: the stream's capacity is not used. *)
Definition DiskManager_from_builder (b : DiskManagerBuilder) (fs : S) : DiskManager :=
  mkDiskManager (DiskManagerContext_new fs) (pending_size b) 0 0 [].

(** [fetch_add] and [fetch_sub] wrap around. *)
Definition set_capacity (d : Z) (D : DiskManager) : DiskManager :=
  mkDiskManager (dm_context D) (dm_max_capacity D) (as_u64 (dm_cur_capacity D + d)) (dm_refusing D) (dm_tasks D).

(** [start_send] up to the answer of [try_submit_work]; a message that fits is spawned. *)
Definition sink_send (item : IDiskMessage) (D : DiskManager) : DiskManager :=
  let cur_capacity := dm_cur_capacity D in
  let D := set_capacity 1 D in
  if cur_capacity <? dm_max_capacity D then
    mkDiskManager (dm_context D) (dm_max_capacity D) (dm_cur_capacity D) (dm_refusing D) (dm_tasks D ++ [TStart item])
  else mkDiskManager (dm_context D) (dm_max_capacity D) (dm_cur_capacity D) (dm_refusing D + 1) (dm_tasks D).

(** The rest of [try_submit_work] for a message that does not fit: [start_send] fails. *)
Definition sink_take_back (D : DiskManager) : option DiskManager :=
  match dm_refusing D with
  | O => None
  | Datatypes.S n => let D := set_capacity (-1) D in
    Some (mkDiskManager (dm_context D) (dm_max_capacity D) (dm_cur_capacity D) n (dm_tasks D))
  end.

(** [start_send] of a sink nobody else interferes with. *)
Definition start_send (item : IDiskMessage) (D : DiskManager) : bool * DiskManager :=
  if dm_cur_capacity D <? dm_max_capacity D then (true, sink_send item D)
  else (false, default (sink_send item D) (sink_take_back (sink_send item D))).

Definition completes (m : ODiskMessage IoError) : bool :=
  match m with
  | TorrentAdded _ | TorrentRemoved _ | TorrentSynced _ | BlockLoaded _ | BlockProcessed _ => true
  | _ => false
  end.

(** [poll_next]: waits while there is no message. *)
Definition poll_next (D : DiskManager) : option (ODiskMessage IoError * DiskManager) :=
  match dc_out (dm_context D) with
  | [] => None
  | m :: out =>
      let c := dm_context D in
      let D := mkDiskManager (mkContext (dc_torrents c) out (dc_fs c)) (dm_max_capacity D) (dm_cur_capacity D) (dm_refusing D) (dm_tasks D) in
      Some (m, if completes m then set_capacity (-1) D else D)
  end.

(** The [i]th task runs for a step: whether it panicked. *)
Definition run_task (i : nat) (D : DiskManager) : option (bool * DiskManager) :=
  match dm_tasks D !! i with
  | None => None
  | Some t =>
      let '(r, c) := task_step t (dm_context D) in
      let tasks := match r with Ok (Some t) => <[i := t]> (dm_tasks D) | _ => delete i (dm_tasks D) end in
      Some (match r with Ok _ => false | _ => true end,
            mkDiskManager c (dm_max_capacity D) (dm_cur_capacity D) (dm_refusing D) tasks)
  end.
End Access.
Arguments DiskManagerContext S IoError : clear implicits.
Arguments DiskManager S IoError : clear implicits.
Arguments Task IoError : clear implicits.
