(* ===== verification/DiskManagerFacts.v ===== *)
(** * The disk manager: runs and the capacity of its sink *)

From stdpp Require Import gmap.
From S2P Require Import Prelude RustStd UtilSha Paths Metainfo MetainfoHasher DiskRegions DiskFs DiskPieces DiskManager.

Section Runs.
Context {S File IoError : Type} `{HF : FileSystem S File IoError}.
Context {HO : HashOrder nat (list BlockMetadata)} (sha1 : list Z -> list Z).
Implicit Types (D : DiskManager S IoError) (c : DiskManagerContext S IoError) (t : Task IoError).

(** What has happened in a run: the messages received from the stream and the number of
    tasks that panicked. *)
Record history : Type := mkHistory { hs_received : list (ODiskMessage IoError); hs_panicked : nat }.

(** The messages that may be sent in a state. *)
Context (sendable : IDiskMessage -> DiskManager S IoError -> Prop).

(** Any interleaving of sinks, tasks and the stream; fewer sinks refuse a message at the
    same time than the counter can hold. *)
Inductive dm_step : DiskManager S IoError -> history -> DiskManager S IoError -> history -> Prop :=
| step_send item D h : sendable item D -> Z.of_nat (dm_refusing D) + dm_max_capacity D + 1 < 2 ^ 64 -> dm_step D h (sink_send item D) h
| step_take_back D D' h : sink_take_back D = Some D' -> dm_step D h D' h
| step_task i D panicked D' h : run_task sha1 i D = Some (panicked, D') ->
    dm_step D h D' (mkHistory (hs_received h) (hs_panicked h + if panicked : bool then 1 else 0)%nat)
| step_poll D m D' h : poll_next D = Some (m, D') -> dm_step D h D' (mkHistory (hs_received h ++ [m]) (hs_panicked h)).

Inductive dm_run : DiskManager S IoError -> history -> DiskManager S IoError -> history -> Prop :=
| run_refl D h : dm_run D h D h
| run_step D h D1 h1 D2 h2 : dm_run D h D1 h1 -> dm_step D1 h1 D2 h2 -> dm_run D h D2 h2.

Definition no_history : history := mkHistory [] 0.

(** Error answers. *)
Definition fails (m : ODiskMessage IoError) : bool :=
  match m with TorrentFailed _ _ | LoadBlockError _ _ | ProcessBlockError _ _ => true | _ => false end.
Definition answers (m : ODiskMessage IoError) : bool := completes m || fails m.

Definition count (f : ODiskMessage IoError -> bool) (l : list (ODiskMessage IoError)) : nat := length (List.filter f l).

Lemma count_msgs_app f l k : count f (l ++ k) = (count f l + count f k)%nat.
Proof. unfold count. by rewrite List.filter_app, length_app. Qed.

(** ** What a step of a task sends *)

Definition piece_report (m : ODiskMessage IoError) : Prop := answers m = false.

(** A call that only reports pieces. *)
Definition reports {E A} (m : st (DiskManagerContext S IoError) E A) : Prop := forall c r c', m c = (r, c') ->
  exists l, dc_out c' = dc_out c ++ l /\ Forall piece_report l.

Lemma reports_same {E A} (m : st (DiskManagerContext S IoError) E A) : (forall c r c', m c = (r, c') -> dc_out c' = dc_out c) -> reports m.
Proof. intros H c r c' E'. exists []. rewrite app_nil_r. split; [by eapply H|constructor]. Qed.

Lemma reports_of {E A} (r : res E A) : reports (st_of r).
Proof. apply reports_same. by intros c r' c' [= _ <-]. Qed.

Lemma reports_seq {E A B} (m : st (DiskManagerContext S IoError) E A) (k : A -> st (DiskManagerContext S IoError) E B) :
  reports m -> (forall a, reports (k a)) -> reports (st_bind m k).
Proof.
  intros Hm Hk c r c'. unfold st_bind. destruct (m c) as [ra c1] eqn:E1. destruct (Hm _ _ _ E1) as (l & El & Hl).
  destruct ra as [a|e| |]; [|intros [= _ <-]; by exists l..]. intros E2. destruct (Hk a _ _ _ E2) as (l' & El' & Hl').
  exists (l ++ l'). rewrite El', El, app_assoc. split; [done|]. by apply Forall_app.
Qed.

Lemma reports_update {E A} hash (call : Metainfo -> st (PieceCheckerState * S) E A) : reports (update_torrent hash call).
Proof.
  apply reports_same. intros c r c'. unfold update_torrent. destruct (dc_torrents c !! hash) as [ms|]; [|by intros [= _ <-]].
  destruct (ms_poisoned ms); [by intros [= _ <-]|]. destruct (call _ _) as [r' [cs s]]. by intros [= _ <-].
Qed.

Lemma diff_reports hash ignore_bad cs : Forall piece_report (send_piece_diff (IoError := IoError) hash ignore_bad cs).1.
Proof.
  unfold send_piece_diff. cbn. induction (new_states cs) as [|st l IH]; [constructor|]. cbn. by destruct st, ignore_bad; cbn; try constructor.
Qed.

Lemma reports_send {E} msgs : Forall piece_report msgs -> reports (send (E := E) (S := S) msgs).
Proof. intros Hm c r c' [= _ <-]. by exists msgs. Qed.

Lemma reports_catch {E E' A} (m : st (DiskManagerContext S IoError) E A) : reports m -> reports (st_catch (E' := E') m).
Proof. intros Hm c r c'. unfold st_catch. destruct (m c) as [ra c1] eqn:E1. intros H. assert (c' = c1) as -> by (destruct ra; by simplify_eq). by apply (Hm _ _ _ E1). Qed.

Lemma reports_check file : reports (check_torrent sha1 file).
Proof. apply reports_same. intros c r c'. unfold check_torrent. destruct (init_state _ _ _) as [ri s]. by intros [= _ <-]. Qed.

Lemma reports_report file cs : reports (report_torrent (S := S) (IoError := IoError) file cs).
Proof.
  intros c r c'. unfold report_torrent. pose proof (diff_reports (file_hash file) true cs) as Hd. destruct (send_piece_diff _ true cs) as [msgs cs'].
  intros [= _ <-]. by exists msgs.
Qed.

(** [execute_process_block] on a torrent that is there. *)
Lemma process_found block c ms : let hash := bm_info_hash (bk_metadata block) in
  dc_torrents c !! hash = Some ms -> ms_poisoned ms = false ->
  execute_process_block sha1 block c =
    let '(r, (cs, s)) := write_and_check sha1 (mi_info (ms_file ms)) block (ms_state ms, dc_fs c) in
    let poison cs := mkContext (<[hash := mkMetainfoState (ms_file ms) cs true]> (dc_torrents c)) (dc_out c) s in
    let done_ cs msgs := mkContext (<[hash := mkMetainfoState (ms_file ms) cs false]> (dc_torrents c)) (dc_out c ++ msgs) s in
    let '(msgs, cs') := send_piece_diff (file_hash (ms_file ms)) false cs in
    match r with
    | Ok _ => (Ok tt, done_ cs' msgs)
    | Err e => (Err (BlockIo e), done_ cs' msgs)
    | Panic => (Panic, poison cs)
    | OutOfFuel => (OutOfFuel, poison cs)
    end.
Proof.
  intros hash Hl Hp. unfold execute_process_block. fold hash. unfold st_bind at 1. unfold update_torrent. rewrite Hl, Hp.
  unfold st_bind at 1. unfold st_catch. destruct (write_and_check _ _ _ _) as [r [cs s]]. destruct (send_piece_diff _ _ cs) as [msgs cs'] eqn:Ed.
  destruct r; cbn -[send_piece_diff]; rewrite ?Ed; done.
Qed.

Lemma process_missing block c : let hash := bm_info_hash (bk_metadata block) in
  (dc_torrents c !! hash = None -> execute_process_block sha1 block c = (Err (BlockInfoHashNotFound hash), c)) /\
  (forall ms, dc_torrents c !! hash = Some ms -> ms_poisoned ms = true -> execute_process_block sha1 block c = (Panic, c)).
Proof.
  intros hash. unfold execute_process_block. fold hash. unfold st_bind, update_torrent.
  split; [intros ->; done|]. intros ms -> ->. done.
Qed.

Lemma reports_process block : reports (execute_process_block sha1 block).
Proof.
  intros c r c'. set (hash := bm_info_hash (bk_metadata block)).
  destruct (dc_torrents c !! hash) as [ms|] eqn:El; [destruct (ms_poisoned ms) eqn:Ep|].
  - rewrite (proj2 (process_missing block c) ms El Ep). intros [= _ <-]. exists []. by rewrite app_nil_r.
  - rewrite (process_found block c ms El Ep). destruct (write_and_check _ _ _ _) as [rw [cs s]].
    pose proof (diff_reports (file_hash (ms_file ms)) false cs) as Hd. destruct (send_piece_diff _ false cs) as [msgs cs']. cbn in Hd.
    destruct rw; intros [= _ <-]; cbn; [by exists msgs..|exists []; by rewrite app_nil_r|exists []; by rewrite app_nil_r].
  - rewrite (proj1 (process_missing block c) El). intros [= _ <-]. exists []. by rewrite app_nil_r.
Qed.

Lemma reports_finish file cs : reports (finish_add_torrent (S := S) (IoError := IoError) file cs).
Proof. apply reports_same. intros c r c'. unfold finish_add_torrent, insert_torrent. case_bool_decide; intros [= _ <-]; done. Qed.

Lemma reports_remove hash : reports (execute_remove_torrent (S := S) (IoError := IoError) hash).
Proof. apply reports_same. intros c r c'. unfold execute_remove_torrent, remove_torrent. destruct (dc_torrents c !! hash); intros [= _ <-]; done. Qed.

(** ** Steps of tasks *)

(** A task that sends has an answer. *)
Definition task_ok t : Prop := match t with TSend m => answers m = true | _ => True end.

Lemma answer_step {E A} (m : st (DiskManagerContext S IoError) E A) ok err c r c' : reports m ->
  (forall a, task_ok (ok a)) -> (forall e, task_ok (err e)) -> answer m ok err c = (r, c') ->
  (exists l, dc_out c' = dc_out c ++ l /\ Forall piece_report l) /\ r <> Ok None /\ forall t, r = Ok (Some t) -> task_ok t.
Proof.
  intros Hm Hok Herr. unfold answer, st_bind. destruct (st_catch m c) as [ra c1] eqn:E1. apply (reports_catch m Hm) in E1.
  destruct ra as [[e|a]|[]| |]; intros [= <- <-]; split; try done; split; try done; intros t [= <-]; auto.
Qed.

Lemma task_step_out t c r c' : task_ok t -> task_step sha1 t c = (r, c') ->
  match t with
  | TSend m => r = Ok None /\ dc_out c' = dc_out c ++ [m]
  | _ => (exists l, dc_out c' = dc_out c ++ l /\ Forall piece_report l) /\ r <> Ok None /\ forall t', r = Ok (Some t') -> task_ok t'
  end.
Proof.
  intros Ht. destruct t as [[file|hash|hash|block|block]|file cs|file cs|m]; cbn [task_step]; [..|by intros [= <- <-]]; apply answer_step; try done.
  - apply reports_check.
  - apply reports_remove.
  - apply reports_seq; [apply reports_update|intros; apply reports_of].
  - apply reports_seq; [apply reports_update|intros; apply reports_of].
  - by intros [].
  - apply reports_process.
  - apply reports_report.
  - apply reports_finish.
Qed.

(** ** The capacity *)

(** The submissions that count: sinks about to refuse, running tasks, answers waiting, and
    for ever the error answers and the tasks that panicked. *)
Definition in_use D (h : history) : Z :=
  Z.of_nat (dm_refusing D + length (dm_tasks D) + count completes (dc_out (dm_context D)) +
            count fails (hs_received h ++ dc_out (dm_context D)) + hs_panicked h).
Definition leaked D (h : history) : Z := Z.of_nat (count fails (hs_received h ++ dc_out (dm_context D)) + hs_panicked h).

Definition capacity_inv D (h : history) : Prop :=
  dm_cur_capacity D = in_use D h /\ in_use D h <= dm_max_capacity D + Z.of_nat (dm_refusing D) < 2 ^ 64 /\ Forall task_ok (dm_tasks D).

Lemma count_reports f l : (forall m, f m = true -> answers m = true) -> Forall piece_report l -> count f l = 0%nat.
Proof.
  intros Hf Hl. unfold count. induction Hl as [|m l Hm _ IH]; [done|]. cbn. destruct (f m) eqn:E; [|done]. apply Hf in E. unfold piece_report in Hm. congruence.
Qed.
Lemma completes_answers m : completes m = true -> answers m = true.
Proof. unfold answers. by intros ->. Qed.
Lemma fails_answers m : fails m = true -> answers m = true.
Proof. unfold answers. intros ->. apply orb_true_r. Qed.

Lemma as_u64_small n : 0 <= n < 2 ^ 64 -> as_u64 n = n.
Proof. apply wrap_id. Qed.

Lemma send_capacity item D h : capacity_inv D h -> Z.of_nat (dm_refusing D) + dm_max_capacity D + 1 < 2 ^ 64 ->
  capacity_inv (sink_send item D) h /\ leaked (sink_send item D) h = leaked D h.
Proof.
  intros (Hc & Hm & Ht) Hs. unfold capacity_inv, sink_send, set_capacity, leaked, in_use in *. cbn [dm_cur_capacity dm_max_capacity].
  rewrite as_u64_small by lia.
  destruct (Z.ltb_spec (dm_cur_capacity D) (dm_max_capacity D)); cbn [dm_refusing dm_tasks dm_context dm_cur_capacity dm_max_capacity];
    rewrite ?length_app; cbn [length]; split_and!; try done; try lia. apply Forall_app. by repeat constructor.
Qed.

Lemma take_back_capacity D D' h : capacity_inv D h -> sink_take_back D = Some D' -> capacity_inv D' h /\ leaked D' h = leaked D h.
Proof.
  intros (Hc & Hm & Ht). unfold sink_take_back. destruct (dm_refusing D) as [|n] eqn:Er; [done|]. intros [= <-].
  unfold capacity_inv, set_capacity, leaked, in_use in *. cbn [dm_refusing dm_tasks dm_context dm_cur_capacity dm_max_capacity].
  rewrite as_u64_small by lia. split_and!; try done; lia.
Qed.

Lemma length_delete_task (l : list (Task IoError)) i t : l !! i = Some t -> length l = Datatypes.S (length (delete i l)).
Proof. intros H. pose proof (lookup_lt_Some _ _ _ H). rewrite length_delete by eauto. lia. Qed.

Lemma task_capacity i D p D' h : capacity_inv D h -> run_task sha1 i D = Some (p, D') ->
  let h' := mkHistory (hs_received h) (hs_panicked h + if p : bool then 1 else 0)%nat in
  capacity_inv D' h' /\ leaked D h <= leaked D' h'.
Proof.
  intros (Hc & Hm & Ht). unfold run_task. destruct (dm_tasks D !! i) as [t|] eqn:Et; [|done].
  assert (Hti : task_ok t) by (by eapply Forall_lookup_1). pose proof (length_delete_task _ _ _ Et) as Hlen.
  destruct (task_step sha1 t (dm_context D)) as [r c'] eqn:Es. pose proof (task_step_out t _ r c' Hti Es) as Hout. intros [= <- <-].
  unfold capacity_inv, leaked, in_use in *. cbn [dm_refusing dm_tasks dm_context dm_cur_capacity dm_max_capacity hs_received hs_panicked].
  rewrite count_msgs_app in *. assert (Hdel : Forall task_ok (delete i (dm_tasks D))).
  { apply Forall_forall. intros x Hx. rewrite Forall_forall in Ht. apply Ht. eapply elem_of_sublist; [exact Hx|apply sublist_delete]. }
  assert (Hsend : forall m, t = TSend m -> r = Ok None /\ dc_out c' = dc_out (dm_context D) ++ [m]) by (intros m ->; exact Hout).
  destruct t as [msg|file cs|file cs|m]; [..|destruct (Hsend m eq_refl) as [-> ->]];
    [destruct Hout as ((l & -> & Hl) & Hn & Hok)..|]; rewrite ?count_msgs_app.
  1-3: rewrite (count_reports completes l completes_answers Hl), (count_reports fails l fails_answers Hl);
    destruct r as [[t'|]|[]| |]; [|done|..]; rewrite ?length_insert; split_and!; try done; try lia; by apply Forall_insert; [|apply Hok].
  cbn [task_ok] in Hti. unfold count in *. cbn. destruct m; try done; cbn; split_and!; try done; lia.
Qed.

Lemma poll_capacity D m D' h : capacity_inv D h -> poll_next D = Some (m, D') ->
  let h' := mkHistory (hs_received h ++ [m]) (hs_panicked h) in capacity_inv D' h' /\ leaked D' h' = leaked D h.
Proof.
  intros (Hc & Hm & Ht). unfold poll_next. destruct (dc_out (dm_context D)) as [|m' out] eqn:Eo; [done|]. intros [= -> <-].
  unfold capacity_inv, leaked, in_use in *. rewrite Eo in *. cbn [hs_received hs_panicked].
  assert (Hcnt : count completes (m :: out) = ((if completes m then 1 else 0) + count completes out)%nat) by (unfold count; cbn; by destruct (completes m)).
  rewrite Hcnt in Hc, Hm. rewrite <- app_assoc in *. cbn [app] in *.
  destruct (completes m); unfold set_capacity; cbn [dm_refusing dm_tasks dm_context dm_cur_capacity dm_max_capacity dc_out];
    rewrite <- ?app_assoc; cbn [app]; rewrite ?as_u64_small by lia; split_and!; try done; lia.
Qed.

Lemma step_capacity D h D' h' : capacity_inv D h -> dm_step D h D' h' ->
  capacity_inv D' h' /\ leaked D h <= leaked D' h' /\ dm_max_capacity D' = dm_max_capacity D.
Proof.
  intros Hi Hs. assert (Hmax : dm_max_capacity D' = dm_max_capacity D).
  { destruct Hs as [item D h Hse Hb|D D' h E|i D p D' h E|D m D' h E].
    - unfold sink_send. by destruct (_ <? _).
    - unfold sink_take_back in E. destruct (dm_refusing D); [done|]. by injection E as <-.
    - unfold run_task in E. destruct (dm_tasks D !! i); [|done]. destruct (task_step sha1 _ _). by injection E as _ <-.
    - unfold poll_next in E. destruct (dc_out (dm_context D)); [done|]. injection E as _ <-. by destruct (completes _). }
  destruct Hs as [item D h _ Hb|D D' h E|i D p D' h E|D m D' h E].
  - destruct (send_capacity item D h Hi Hb) as [? ->]. done.
  - destruct (take_back_capacity D D' h Hi E) as [? ->]. done.
  - by destruct (task_capacity i D p D' h Hi E).
  - destruct (poll_capacity D m D' h Hi E) as [? ->]. done.
Qed.

Lemma run_capacity D h D' h' : capacity_inv D h -> dm_run D h D' h' ->
  capacity_inv D' h' /\ leaked D h <= leaked D' h' /\ dm_max_capacity D' = dm_max_capacity D.
Proof.
  intros Hi Hr. induction Hr as [D h|D h D1 h1 D2 h2 Hr IH Hs]; [done|]. destruct (IH Hi) as (Hi1 & Hl & Hm).
  destruct (step_capacity _ _ _ _ Hi1 Hs) as (Hi2 & Hl2 & Hm2). split; [done|]. split; [lia|congruence].
Qed.

(** The capacity of the disk manager is never given back for a failure. In every run,
    whatever sinks, tasks and the stream do in whatever order, the counter is the number of
    sinks about to refuse, running tasks, answers waiting in the stream, error answers ever
    given and tasks that panicked, and no more tasks run than the capacity. Once as many
    tasks have failed or panicked as there is capacity, every further message is refused. *)
Lemma disk_capacity_leaks (b : DiskManagerBuilder) (fs : S) D h :
  0 <= pending_size b < 2 ^ 64 -> dm_run (DiskManager_from_builder b fs) no_history D h ->
  dm_cur_capacity D = in_use D h /\ Z.of_nat (length (dm_tasks D)) <= pending_size b /\
  (pending_size b <= leaked D h -> forall D2 h2 item, dm_run D h D2 h2 ->
     fst (start_send item D2) = false /\ dm_tasks (sink_send item D2) = dm_tasks D2).
Proof.
  intros Hb Hr. assert (H0 : capacity_inv (DiskManager_from_builder b fs) no_history).
  { unfold capacity_inv, in_use. cbn. split_and!; try done; lia. }
  destruct (run_capacity _ _ _ _ H0 Hr) as (Hi & _ & Hmax). cbn in Hmax. destruct Hi as (Hc & Hm & Ht). split; [done|].
  split; [unfold in_use in Hm; lia|]. intros Hl D2 h2 item Hr2.
  destruct (run_capacity _ _ _ _ (conj Hc (conj Hm Ht)) Hr2) as ((Hc2 & Hm2 & Ht2) & Hl2 & Hmax2).
  assert (Hge : (dm_cur_capacity D2 <? dm_max_capacity D2) = false).
  { apply Z.ltb_ge. rewrite Hc2, Hmax2, Hmax. unfold leaked, in_use in *. lia. }
  unfold start_send, sink_send, set_capacity. cbn [dm_cur_capacity dm_max_capacity]. by rewrite Hge.
Qed.
End Runs.
