(* ===== verification/DiskManagerSpec.v ===== *)
(** * The disk manager: pieces on disk

    Over any lawful file system: the accessor acts on the contents of the torrent's files as
    [DiskRegions] does, so pieces are reported good or bad as their bytes on disk hash. *)

From stdpp Require Import gmap.
From S2P Require Import Prelude RustStd UtilSha Paths Metainfo MetainfoHasher DiskRegions DiskFs DiskPieces DiskManager DiskManagerFacts.

Section Access.
Context {S File IoError : Type} `{HF : FileSystem S File IoError} {HV : FsView S File} {FL : FileSystemLaws S File IoError}.
Implicit Types (s : S) (info : Info).

(** ** The contents of a torrent *)

Definition name_of info (f : MetaFile) : list Z := fs_name (S := S) (File := File) (file_path info f).
Definition names info : list (list Z) := map (name_of info) (in_files info).
Definition contents info (files : gmap (list Z) (list Z)) : list (list Z) := map (fun n => default [] (files !! n)) (names info).

(** The files are there with the lengths of the info dictionary. *)
Definition files_valid info (files : gmap (list Z) (list Z)) : Prop :=
  Forall2 (fun n size => exists c, files !! n = Some c /\ length c = size) (names info) (file_sizes info).

Lemma contents_sizes info files : files_valid info files -> map length (contents info files) = file_sizes info.
Proof. unfold files_valid, contents. induction 1 as [|n size ns ss (c & Hc & Hl) _ IH]; [done|]. cbn. by rewrite IH, Hc, <- Hl. Qed.

Lemma contents_lookup info files i f : in_files info !! i = Some f -> files_valid info files ->
  exists c, files !! name_of info f = Some c /\ contents info files !! i = Some c /\ file_sizes info !! i = Some (length c).
Proof.
  intros Hi Hv. assert (Hn : names info !! i = Some (name_of info f)) by (unfold names; rewrite list_lookup_fmap, Hi; done).
  destruct (Forall2_lookup_l _ _ _ _ _ Hv Hn) as (size & Hs & c & Hc & Hl). exists c. split; [done|]. split; [|by rewrite Hl].
  unfold contents. rewrite list_lookup_fmap, Hn. cbn. by rewrite Hc.
Qed.

(** A write to one of the files, whose names are distinct. *)
Lemma contents_insert info files i f c : NoDup (names info) -> in_files info !! i = Some f ->
  contents info (<[name_of info f := c]> files) = <[i := c]> (contents info files).
Proof.
  intros Hd Hi. assert (Hn : names info !! i = Some (name_of info f)) by (unfold names; rewrite list_lookup_fmap, Hi; done).
  apply list_eq. intros j. unfold contents. rewrite list_lookup_fmap. destruct (decide (j = i)) as [->|Hne].
  - rewrite Hn. cbn. rewrite lookup_insert_eq. rewrite list_lookup_insert_eq; [done|]. rewrite length_map. by eapply lookup_lt_Some.
  - rewrite list_lookup_insert_ne by done. rewrite list_lookup_fmap. destruct (names info !! j) as [n|] eqn:Hj; [|done]. cbn.
    rewrite lookup_insert_ne; [done|]. intros <-. apply Hne. by eapply NoDup_lookup.
Qed.

Lemma files_valid_ext info files files' : (forall n, n ∈ names info -> files' !! n = files !! n) -> files_valid info files -> files_valid info files'.
Proof.
  unfold files_valid. intros He Hv. induction Hv as [|n size ns ss (c & Hc & Hl) _ IH]; [constructor|]. constructor.
  - exists c. rewrite He by left. done.
  - apply IH. intros m Hm. apply He. by right.
Qed.
Lemma contents_ext info files files' : (forall n, n ∈ names info -> files' !! n = files !! n) -> contents info files' = contents info files.
Proof. intros He. unfold contents. apply map_ext_in. intros n Hn. by rewrite He by (by apply list_elem_of_In). Qed.

(** ** Regions *)

(** A region within its file and the buffer. *)
Definition region_ok (sizes : list nat) (total : nat) (r : region) : Prop :=
  (rg_begin r <= rg_end r <= total)%nat /\ exists size, sizes !! rg_file r = Some size /\ (rg_offset r + (rg_end r - rg_begin r) <= size)%nat.

Lemma file_regions_ok pre sizes : forall skip acc total, (acc <= total)%nat ->
  Forall (region_ok (pre ++ sizes) total) (file_regions (length pre) sizes skip acc total).
Proof.
  revert pre. induction sizes as [|size sizes IH]; intros pre skip acc total Ha; [constructor|].
  assert (Hs : forall skip' acc', (acc' <= total)%nat -> Forall (region_ok (pre ++ size :: sizes) total) (file_regions (Datatypes.S (length pre)) sizes skip' acc' total)).
  { intros skip' acc' Ha'. pose proof (IH (pre ++ [size]) skip' acc' total Ha') as H. rewrite <- app_assoc, length_app, Nat.add_comm in H. exact H. }
  destruct (decide ((skip < size)%nat /\ (acc < total)%nat)) as [[H1 H2]|Hm].
  - rewrite file_regions_hit by done. constructor; [|apply Hs; lia]. split; cbn [rg_begin rg_end rg_file rg_offset]; [lia|].
    exists size. rewrite list_lookup_middle by done. split; [done|lia].
  - rewrite file_regions_miss by lia. by apply Hs.
Qed.

(** An existing file is opened without changing any. *)
Lemma open_existing path s r s' c : fs_ok s -> fs_files s !! fs_name path = Some c -> open_file path s = (r, s') ->
  fs_ok s' /\ fs_files s' = fs_files s /\ match r with inr f => handle_ok s' f path | inl _ => True end.
Proof.
  intros Hok Hc Ho. destruct (open_law path s r s' Hok Ho) as [[Hok' _] Hr]. split; [done|]. destruct r as [e|f]; [done|].
  destruct Hr as [Hh Hop]. unfold opened in Hop. by rewrite Hc in Hop.
Qed.

Definition region_step info (callback : File -> nat -> nat -> nat -> st (list Z * S) IoError unit) (r : region) : st (list Z * S) IoError unit :=
  let* file := st_of (or_panic (in_files info !! rg_file r)) in
  let* fs_file := st_snd (io (open_file (file_path info file))) in
  callback fs_file (rg_offset r) (rg_begin r) (rg_end r).

Lemma for_regions_cons info callback r rs x : for_regions info callback (r :: rs) x =
  st_bind (region_step info callback r) (fun _ => for_regions info callback rs) x.
Proof.
  cbn [for_regions]. unfold region_step, st_bind, st_of. destruct (or_panic _) as [f| | |]; try done.
  destruct (st_snd _ x) as [[] ?]; done.
Qed.

(** Reading a region. *)
Lemma read_region_step info r buf s res buf' s' : fs_ok s -> files_valid info (fs_files s) -> region_ok (file_sizes info) (length buf) r ->
  region_step info read_callback r (buf, s) = (res, (buf', s')) ->
  fs_ok s' /\ fs_files s' = fs_files s /\ length buf' = length buf /\
  (res = Ok tt -> read_region (contents info (fs_files s)) buf r = Ok buf').
Proof.
  intros Hok Hv ((Hb & He) & size & Hsz & Hsize). unfold region_step. unfold st_bind at 1. cbn [st_of].
  destruct (in_files info !! rg_file r) as [f|] eqn:Ef; [|unfold file_sizes in Hsz; by rewrite list_lookup_fmap, Ef in Hsz].
  destruct (contents_lookup info (fs_files s) _ f Ef Hv) as (c & Hc & Hci & Hcs). cbn [or_panic].
  rewrite Hcs in Hsz. injection Hsz as <-. unfold st_bind at 1. unfold st_snd at 1, io at 1.
  destruct (open_file (file_path info f) s) as [ro s1] eqn:Eo. destruct (open_existing _ _ _ _ c Hok Hc Eo) as (Hok1 & Hf1 & Hh).
  destruct ro as [e|h]; [intros [= <- <- <-]; done|]. unfold read_callback. unfold buffer_range at 1.
  rewrite (proj2 (Nat.leb_le _ _)), (proj2 (Nat.leb_le _ _)) by lia. cbn [andb]. unfold st_bind, st_of. unfold st_snd, io.
  destruct (read_file h _ _ s1) as [rr s2] eqn:Er. destruct (read_law h _ _ _ _ _ _ Hok1 Hh Er) as ((Hok2 & _) & Hf2 & Hr).
  destruct rr as [e|d]; [intros [= <- <- <-]; by rewrite Hf2|]. destruct Hr as (Hl & c' & Hc' & Hd). intros [= <- <- <-].
  rewrite Hf1 in Hc'. assert (c' = c) as -> by (unfold name_of in Hc; congruence). rewrite Nat2Z.id in Hd.
  split_and!; [done|congruence|rewrite length_splice; lia|]. destruct (Nat.eqb_spec (length d) (rg_end r - rg_begin r)) as [El|]; [|done]. intros _.
  unfold read_region, buffer_range. rewrite (proj2 (Nat.leb_le _ _)), (proj2 (Nat.leb_le _ _)) by lia. cbn [andb res_bind]. rewrite Hci. cbn [or_panic res_bind].
  rewrite <- El, <- Hd, Nat.eqb_refl. cbn [negb]. unfold splice. do 4 f_equal. lia.
Qed.

(** Writing a region. *)
Lemma write_region_step info r buf s res buf' s' : NoDup (names info) -> fs_ok s -> files_valid info (fs_files s) ->
  region_ok (file_sizes info) (length buf) r -> region_step info write_callback r (buf, s) = (res, (buf', s')) ->
  fs_ok s' /\ files_valid info (fs_files s') /\ buf' = buf /\ (forall n, n ∉ names info -> fs_files s' !! n = fs_files s !! n) /\
  (res = Ok tt -> write_region buf (contents info (fs_files s)) r = Ok (contents info (fs_files s'))).
Proof.
  intros Hnd Hok Hv ((Hb & He) & size & Hsz & Hsize). unfold region_step. unfold st_bind at 1. cbn [st_of].
  destruct (in_files info !! rg_file r) as [f|] eqn:Ef; [|unfold file_sizes in Hsz; by rewrite list_lookup_fmap, Ef in Hsz].
  destruct (contents_lookup info (fs_files s) _ f Ef Hv) as (c & Hc & Hci & Hcs). cbn [or_panic].
  rewrite Hcs in Hsz. injection Hsz as <-. unfold st_bind at 1. unfold st_snd at 1, io at 1.
  destruct (open_file (file_path info f) s) as [ro s1] eqn:Eo. destruct (open_existing _ _ _ _ c Hok Hc Eo) as (Hok1 & Hf1 & Hh).
  destruct ro as [e|h]; [intros [= <- <- <-]; by rewrite Hf1|]. unfold write_callback. unfold buffer_range at 1.
  rewrite (proj2 (Nat.leb_le _ _)), (proj2 (Nat.leb_le _ _)) by lia. cbn [andb]. unfold st_bind, st_of. unfold st_snd, io.
  set (d := slice buf (rg_begin r) (rg_end r)). assert (Hld : length d = (rg_end r - rg_begin r)%nat) by (apply length_slice; lia).
  destruct (write_file h _ d s1) as [rr s2] eqn:Er. destruct (write_law h _ _ _ _ _ _ Hok1 Hh Er) as ((Hok2 & _) & Hr).
  destruct rr as [e|n]; [intros [= <- <- <-]; by rewrite Hr, Hf1|]. destruct Hr as (Hl & _ & c' & Hc' & Hf2). intros Hres.
  assert (buf' = buf /\ s' = s2) as [-> ->] by (destruct (negb _); by injection Hres).
  rewrite Hf1 in Hc', Hf2. assert (c' = c) as -> by (unfold name_of in Hc; congruence). rewrite Nat2Z.id in Hf2.
  fold (name_of info f) in Hf2. set (c2 := fs_write_file c (rg_offset r) (take n d)) in *.
  assert (Hc2 : length c2 = length c) by (unfold c2; rewrite fs_write_file_splice, length_splice; rewrite ?length_take; lia).
  split; [done|]. split; [|split; [done|split]].
  - rewrite Hf2. unfold files_valid in *. apply Forall2_same_length_lookup in Hv as [Hlen Hv]. apply Forall2_same_length_lookup. split; [done|].
    intros i n' size Hi Hs. destruct (Hv i n' size Hi Hs) as (c0 & Hc0 & Hl0). destruct (decide (n' = name_of info f)) as [->|].
    + exists c2. rewrite lookup_insert_eq. split; [done|]. congruence.
    + exists c0. by rewrite lookup_insert_ne.
  - intros m Hm. rewrite Hf2. rewrite lookup_insert_ne; [done|]. intros <-. apply Hm. unfold names. apply list_elem_of_fmap. exists f. split; [done|by eapply list_elem_of_lookup_2].
  - destruct (Nat.eqb_spec n (rg_end r - rg_begin r)) as [En|]; [|by intros ->]. intros _. rewrite Hf2, (contents_insert _ _ _ _ _ Hnd Ef).
    unfold write_region, buffer_range. rewrite (proj2 (Nat.leb_le _ _)), (proj2 (Nat.leb_le _ _)) by lia. cbn [andb res_bind]. rewrite Hci. cbn [or_panic res_bind].
    fold d. unfold c2. by rewrite take_ge by lia.
Qed.

(** ** Whole blocks *)

Lemma regions_ok info m (buf : list Z) : (bm_block_length m <= length buf)%nat ->
  Forall (region_ok (file_sizes info) (length buf)) (run_with_file_regions (piece_length info) (file_sizes info) m).
Proof.
  intros Hl. eapply Forall_impl; [apply (file_regions_ok [] (file_sizes info)); lia|].
  intros r ((H1 & H2) & size & H3 & H4). split; [lia|]. eauto.
Qed.

Lemma for_regions_read info rs : forall buf s r buf' s', fs_ok s -> files_valid info (fs_files s) ->
  Forall (region_ok (file_sizes info) (length buf)) rs -> for_regions info read_callback rs (buf, s) = (r, (buf', s')) ->
  fs_ok s' /\ fs_files s' = fs_files s /\ length buf' = length buf /\
  (r = Ok tt -> read_all (contents info (fs_files s)) buf rs = Ok buf').
Proof.
  induction rs as [|rg rs IH]; intros buf s r buf' s' Hok Hv Hrs; [intros [= <- <- <-]; done|]. inversion Hrs as [|? ? Hrg Hrest]; subst.
  rewrite for_regions_cons, read_all_cons. unfold st_bind. destruct (region_step info read_callback rg (buf, s)) as [r1 [buf1 s1]] eqn:E1.
  apply read_region_step in E1 as (Hok1 & Hf1 & Hl1 & Hr1); [|done..]. destruct r1 as [[]| | |]; [|intros [= <- <- <-]; by split_and!..].
  rewrite (Hr1 eq_refl). cbn [res_bind]. intros E2. rewrite <- Hl1 in Hrest. apply IH in E2 as (Hok2 & Hf2 & Hl2 & Hr2); [|done|by rewrite Hf1|done].
  rewrite Hf1 in Hf2, Hr2. rewrite Hl1 in Hl2. done.
Qed.

Lemma for_regions_write info rs : forall buf s r buf' s', NoDup (names info) -> fs_ok s -> files_valid info (fs_files s) ->
  Forall (region_ok (file_sizes info) (length buf)) rs -> for_regions info write_callback rs (buf, s) = (r, (buf', s')) ->
  fs_ok s' /\ files_valid info (fs_files s') /\ (forall n, n ∉ names info -> fs_files s' !! n = fs_files s !! n) /\
  (r = Ok tt -> write_all buf (contents info (fs_files s)) rs = Ok (contents info (fs_files s'))).
Proof.
  induction rs as [|rg rs IH]; intros buf s r buf' s' Hnd Hok Hv Hrs; [intros [= <- <- <-]; done|]. inversion Hrs as [|? ? Hrg Hrest]; subst.
  rewrite for_regions_cons, write_all_cons. unfold st_bind. destruct (region_step info write_callback rg (buf, s)) as [r1 [buf1 s1]] eqn:E1.
  apply write_region_step in E1 as (Hok1 & Hv1 & -> & Hn1 & Hr1); [|done..]. destruct r1 as [[]| | |]; [|intros [= <- <- <-]; by split_and!..].
  rewrite (Hr1 eq_refl). cbn [res_bind]. intros E2. apply IH in E2 as (Hok2 & Hv2 & Hn2 & Hr2); [|done..].
  split_and!; [done|done| |done]. intros n Hn. by rewrite Hn2, Hn1.
Qed.

(** The accessor reads what [DiskRegions.read_piece] reads from the contents. *)
Lemma accessor_read_ok info m buf s r buf' s' : fs_ok s -> files_valid info (fs_files s) -> (bm_block_length m <= length buf)%nat ->
  accessor_read_piece info m (buf, s) = (r, (buf', s')) ->
  fs_ok s' /\ fs_files s' = fs_files s /\ length buf' = length buf /\
  (r = Ok tt -> read_piece (piece_length info) (contents info (fs_files s)) buf m = Ok buf').
Proof.
  intros Hok Hv Hl. unfold accessor_read_piece, with_file_regions. destruct (2 ^ 64 <=? _); [intros [= <- <- <-]; done|].
  intros E. apply for_regions_read in E; [|done|done|by apply regions_ok]. unfold read_piece. rewrite (contents_sizes _ _ Hv). exact E.
Qed.

Lemma accessor_write_ok info m buf s r buf' s' : NoDup (names info) -> fs_ok s -> files_valid info (fs_files s) -> (bm_block_length m <= length buf)%nat ->
  accessor_write_piece info m (buf, s) = (r, (buf', s')) ->
  fs_ok s' /\ files_valid info (fs_files s') /\ (forall n, n ∉ names info -> fs_files s' !! n = fs_files s !! n) /\
  (r = Ok tt -> write_piece (piece_length info) (contents info (fs_files s)) buf m = Ok (contents info (fs_files s'))).
Proof.
  intros Hnd Hok Hv Hl. unfold accessor_write_piece, with_file_regions. destruct (2 ^ 64 <=? _); [intros [= <- <- <-]; done|].
  intros E. apply for_regions_write in E; [|done|done|done|by apply regions_ok]. unfold write_piece. rewrite (contents_sizes _ _ Hv). exact E.
Qed.

(** ** Checking a piece *)

Context {HO : HashOrder nat (list BlockMetadata)} (sha1 : list Z -> list Z).

(** The bytes of piece [p] on disk, and whether they hash to what the torrent says. *)
Definition piece_bytes info files (p size : nat) : list Z :=
  slice (concat (contents info files)) (p * piece_length info) (p * piece_length info + size).
Definition piece_verified info files (p size : nat) : Prop :=
  exists hash, in_pieces info !! p = Some hash /\ ShaHash_from_hash hash = Ok (ShaHash_from_bytes sha1 (piece_bytes info files p size)).

(** What the state of a check is while pieces are read. *)
Definition checking info files (t : list Z * S) : Prop :=
  fs_ok t.2 /\ fs_files t.2 = files /\ length t.1 = piece_length info.

Lemma read_piece_slice pl files buf m : block_inside pl files m -> length buf = bm_block_length m ->
  read_piece pl files buf m = Ok (slice (concat files) (block_start pl m) (block_start pl m + bm_block_length m)).
Proof.
  intros Hin Hb. unfold block_inside in Hin. set (n := bm_block_length m) in *.
  etransitivity; [exact (read_regions n files [] buf (block_start pl m) 0 ltac:(lia))|].
  assert (reachable files (block_start pl m) 0 n = n) as -> by (unfold reachable; lia).
  unfold splice. rewrite length_slice by lia. simpl take. rewrite drop_ge by lia. by rewrite app_nil_r.
Qed.

Lemma check_piece_keeps info files m t r t' : files_valid info files -> checking info files t -> check_piece sha1 info m t = (r, t') -> checking info files t'.
Proof.
  destruct t as [buf s], t' as [buf' s']. intros Hv (Hok & Hf & Hl). cbn [fst snd] in *. unfold check_piece.
  destruct (Nat.ltb_spec (length buf) (bm_block_length m)) as [|Hn]; [intros [= _ <- <-]; done|].
  destruct (accessor_read_piece info m (take (bm_block_length m) buf, s)) as [ra [front s1]] eqn:Ea. intros [= _ <- <-].
  apply accessor_read_ok in Ea as (Hok1 & Hf1 & Hl1 & _); [|done|by rewrite Hf|rewrite length_take; lia].
  split; [done|]. cbn [fst snd]. split; [congruence|]. rewrite length_app, Hl1, length_take, length_drop. lia.
Qed.

(** The answer of the check is whether the piece is verified. *)
Lemma check_piece_answer info files m t good t' : files_valid info files -> checking info files t ->
  bm_block_offset m = 0%nat -> block_inside (piece_length info) (contents info files) m ->
  check_piece sha1 info m t = (Ok good, t') -> good = true <-> piece_verified info files (bm_piece_index m) (bm_block_length m).
Proof.
  destruct t as [buf s], t' as [buf' s']. intros Hv (Hok & Hf & Hl) Hoff Hin. cbn [fst snd] in *. unfold check_piece.
  destruct (Nat.ltb_spec (length buf) (bm_block_length m)) as [|Hn]; [done|].
  destruct (accessor_read_piece info m (take (bm_block_length m) buf, s)) as [ra [front s1]] eqn:Ea. intros H. injection H as Hr _ _.
  apply accessor_read_ok in Ea as (_ & _ & _ & Hread); [|done|by rewrite Hf|rewrite length_take; lia].
  apply res_bind_Ok in Hr as ([] & -> & Hr). specialize (Hread eq_refl). rewrite Hf, read_piece_slice in Hread; [|done|rewrite length_take; lia].
  injection Hread as <-. apply res_bind_Ok in Hr as (hash & Hh & Hr). apply res_bind_Ok in Hr as (expected & He & Hr).
  injection Hr as <-. apply res_unwrap_Ok in He. rewrite bool_decide_eq_true. unfold piece_verified, piece_bytes.
  destruct (in_pieces info !! bm_piece_index m) as [hash'|]; [|done]. cbn [or_panic] in Hh. injection Hh as ->.
  unfold block_start. rewrite Hoff, Nat.add_0_r. split; [intros <-; by exists hash|]. intros (h' & [= <-] & Hs). congruence.
Qed.

(** ** Torrents *)

Definition total_size info : nat := sum_list (file_sizes info).

(** A torrent whose pieces cover its files. *)
Record torrent_ok (file : Metainfo) : Prop := {
  tor_piece_len : 0 < in_piece_len (mi_info file) <= MAX_CAPACITY;
  tor_lengths : Forall (fun f => 0 <= mf_len f) (in_files (mi_info file));
  tor_total : Z.of_nat (total_size (mi_info file)) < 2 ^ 64;
  tor_pieces : length (in_pieces (mi_info file)) = ((total_size (mi_info file) + piece_length (mi_info file) - 1) / piece_length (mi_info file))%nat;
  tor_names : NoDup (names (mi_info file))
}.

(** The size of a piece and the block that is all of it. *)
Definition size_of_piece info (p : nat) : nat := Nat.min (piece_length info) (total_size info - p * piece_length info).

Lemma total_contents info files : files_valid info files -> length (concat (contents info files)) = total_size info.
Proof.
  intros Hv. unfold total_size. rewrite <- (contents_sizes _ _ Hv). generalize (contents info files). induction l as [|c l IH]; [done|]. cbn. rewrite length_app, IH. done.
Qed.

Definition state_for info (cs : PieceCheckerState) : Prop :=
  total_blocks cs = length (in_pieces info) /\ last_block_size cs = last_piece_size (piece_length info) (file_sizes info).

Lemma piece_size_for file cs p : torrent_ok file -> state_for (mi_info file) cs -> (p < length (in_pieces (mi_info file)))%nat ->
  piece_size cs (piece_length (mi_info file)) p = size_of_piece (mi_info file) p.
Proof.
  intros Ht [Htot Hlast] Hp. pose proof (tor_pieces _ Ht) as Hn. destruct Ht as [[Hpl _] _ _ _ _]. unfold piece_size, size_of_piece. rewrite Htot, Hlast.
  unfold last_piece_size. fold (total_size (mi_info file)). set (pl := piece_length (mi_info file)) in *. set (tot := total_size (mi_info file)) in *.
  assert (0 < pl)%nat by (unfold pl, piece_length; lia). rewrite Hn in *. pose proof (Nat.div_mod_eq tot pl) as Hd. pose proof (Nat.mod_upper_bound tot pl ltac:(lia)) as Hm.
  set (q := (tot / pl)%nat) in *. set (rm := (tot mod pl)%nat) in *.
  assert (Hdiv : ((tot + pl - 1) / pl = if bool_decide (rm = 0) then q else q + 1)%nat).
  { case_bool_decide as Hr; symmetry; apply (Nat.div_unique _ _ _ (if decide (rm = 0)%nat then pl - 1 else rm - 1)%nat); destruct (decide (rm = 0)%nat); lia || nia. }
  rewrite Hdiv in *. case_bool_decide as Hr; case_bool_decide as Hc; nia.
Qed.

(** ** The checker on valid files *)

(** Every pending block is part of a piece of the torrent. *)
Definition blocks_ok info (cs : PieceCheckerState) : Prop := forall p messages, pending_blocks cs !! p = Some messages ->
  Forall (fun m => (p < length (in_pieces info))%nat /\ block_of p (size_of_piece info p) m) messages.

Definition checker_ok info (cs : PieceCheckerState) : Prop := state_for info cs /\ blocks_ok info cs.

(** A report that agrees with the files. *)
Definition report_ok info files (state : PieceState) : Prop :=
  match state with
  | GoodPiece p => piece_verified info files p (size_of_piece info p)
  | BadPiece p => (p < length (in_pieces info))%nat /\ ~ piece_verified info files p (size_of_piece info p)
  end.

Lemma Forall_and_l {A} (P Q : A -> Prop) l : Forall (fun x => P x /\ Q x) l -> Forall Q l.
Proof. intros Hl. eapply Forall_impl; [exact Hl|]. by intros x []. Qed.

Lemma checker_pending file cs : torrent_ok file -> checker_ok (mi_info file) cs -> pending_ok (piece_length (mi_info file)) cs.
Proof.
  intros Ht [Hs Hb] p messages Hp. pose proof (Hb p messages Hp) as Hm. apply Forall_forall. intros m Hin. rewrite Forall_forall in Hm.
  destruct (Hm m Hin) as [Hlt Hbl]. by rewrite (piece_size_for file cs p Ht Hs Hlt).
Qed.

Lemma merged_blocks info cs : checker_ok info cs -> checker_ok info (merge_pieces cs).
Proof.
  intros [Hs Hb]. split; [done|]. intros p messages Hp. cbn in Hp. rewrite lookup_fmap in Hp.
  destruct (pending_blocks cs !! p) as [l|] eqn:El; [|done]. cbn in Hp. injection Hp as <-. specialize (Hb p l El).
  destruct (decide (l = [])) as [->|Hne]; [constructor|]. destruct l as [|m0 l]; [done|]. inversion Hb as [|? ? [Hlt _] _]; subst.
  apply Forall_forall. intros m Hm. split; [done|]. destruct (merge_messages_spec (m0 :: l)) as [_ Hmb].
  specialize (Hmb p (size_of_piece info p) (Forall_and_l _ _ _ Hb)). rewrite Forall_forall in Hmb. by apply Hmb.
Qed.

Lemma last_size_lt file cs : torrent_ok file -> state_for (mi_info file) cs -> (last_block_size cs < piece_length (mi_info file))%nat.
Proof. intros Ht [_ ->]. destruct Ht as [[Hpl _] _ _ _ _]. unfold last_piece_size. apply Nat.mod_upper_bound. unfold piece_length. lia. Qed.

Lemma diff_checked file cs s r cs' s' : let info := mi_info file in
  torrent_ok file -> fs_ok s -> files_valid info (fs_files s) -> checker_ok info cs ->
  calculate_diff sha1 info (cs, s) = (r, (cs', s')) ->
  fs_ok s' /\ fs_files s' = fs_files s /\ checker_ok info cs' /\ old_states cs' = old_states cs /\
  exists added, new_states cs' = new_states cs ++ added /\ Forall (report_ok info (fs_files s)) added.
Proof.
  intros info Ht Hok Hv Hc. unfold calculate_diff. destruct (MAX_CAPACITY <? in_piece_len info).
  { intros [= <- <- <-]. split_and!; try done; try apply Hc. exists []. by rewrite app_nil_r. }
  destruct (run_with_whole_pieces _ _ _) as [rw [cs1 [buf1 s1]]] eqn:Er. intros [= <- <- <-].
  assert (HI : forall m t r t', checking info (fs_files s) t -> check_piece sha1 info m t = (r, t') -> checking info (fs_files s) t').
  { intros m t r' t' Hi. by apply check_piece_keeps. }
  apply (run_whole_from _ _ HI) in Er as [(Htot & Hlast & Hold & Hpend & added & Hnew & Hadd) (Hok1 & Hf1 & _)];
    [|eapply last_size_lt; [done|apply Hc]|by apply checker_pending|split_and!; [done|done|apply length_replicate]].
  pose proof (merged_blocks info cs Hc) as [Hms Hmb]. cbn [snd] in *.
  split_and!; [done|done| |done|].
  - split; [unfold state_for; by rewrite Htot, Hlast|]. intros p messages Hp. destruct (decide (messages = [])) as [->|Hne]; [constructor|]. apply Hmb, Hpend; done.
  - exists added. split; [done|]. eapply Forall_impl; [exact Hadd|]. intros state (p & m & good & t1 & t2 & Hp & Hbm & Hoff & Hlen & Hi & Hcb & ->).
    specialize (Hmb p _ Hp). apply Forall_cons in Hmb as [[Hlt Hbl] _]. pose proof (piece_size_for file _ p Ht Hms Hlt) as Hps. fold info in Hps. rewrite Hps in Hlen. destruct Hbl as (Hidx & Hpos & Hfit).
    assert (Hin : block_inside (piece_length info) (contents info (fs_files s)) m).
    { unfold block_inside, block_start. rewrite Hoff, Hidx, (total_contents _ _ Hv), Hlen. unfold size_of_piece in *. lia. }
    pose proof (check_piece_answer info (fs_files s) m t1 good t2 Hv Hi Hoff Hin Hcb) as Ha. rewrite Hidx, Hlen in Ha.
    destruct good; cbn; [by apply Ha|]. split; [done|]. by intros ?%Ha.
Qed.

(** A block of the torrent with its bytes. *)
Definition block_for info (b : Block) : Prop := let m := bk_metadata b in
  (bm_piece_index m < length (in_pieces info))%nat /\ block_of (bm_piece_index m) (size_of_piece info (bm_piece_index m)) m /\
  length (bk_data b) = bm_block_length m.

Lemma add_pending_ok info cs m : checker_ok info cs -> (bm_piece_index m < length (in_pieces info))%nat ->
  block_of (bm_piece_index m) (size_of_piece info (bm_piece_index m)) m -> checker_ok info (add_pending_block cs m).
Proof.
  intros [Hs Hb] Hlt Hbl. split; [done|]. intros p messages. cbn. destruct (decide (p = bm_piece_index m)) as [->|].
  - rewrite lookup_insert_eq. intros [= <-]. apply Forall_app. split; [|by apply Forall_singleton].
    destruct (pending_blocks cs !! bm_piece_index m) eqn:E; cbn [default from_option id]; [by apply Hb|apply Forall_nil_2].
  - rewrite lookup_insert_ne by done. apply Hb.
Qed.

(** Processing a block: pieces are reported as they are on disk afterwards. *)
Lemma write_and_check_ok file b cs s r cs' s' : let info := mi_info file in
  torrent_ok file -> fs_ok s -> files_valid info (fs_files s) -> checker_ok info cs -> block_for info b ->
  write_and_check sha1 info b (cs, s) = (r, (cs', s')) ->
  fs_ok s' /\ files_valid info (fs_files s') /\ (forall n, n ∉ names info -> fs_files s' !! n = fs_files s !! n) /\
  checker_ok info cs' /\ exists added, new_states cs' = new_states cs ++ added /\ Forall (report_ok info (fs_files s')) added.
Proof.
  intros info Ht Hok Hv Hc (Hlt & Hbl & Hlen). unfold write_and_check.
  destruct (accessor_write_piece info (bk_metadata b) (bk_data b, s)) as [rw [buf s1]] eqn:Ew.
  apply accessor_write_ok in Ew as (Hok1 & Hv1 & Hn1 & _); [|by apply tor_names|done|done|lia].
  unfold st_bind, st_of. destruct rw as [[]|e| |]; [|intros [= <- <- <-]; split_and!; try done; try apply Hc; exists []; by rewrite app_nil_r..].
  destruct (calculate_diff sha1 info _) as [rd [cs1 s2]] eqn:Ed. intros [= <- <- <-].
  apply (diff_checked file) in Ed as (Hok2 & Hf2 & Hc2 & _ & Had); [|done|done|done|by apply add_pending_ok]. rewrite Hf2. done.
Qed.

(** ** Adding a torrent *)

Lemma validate_file_ok info f s r s' : 0 <= mf_len f -> fs_ok s -> validate_file_size info f s = (r, s') ->
  fs_ok s' /\ (forall n, n <> name_of info f -> fs_files s' !! n = fs_files s !! n) /\
  (forall c, fs_files s !! name_of info f = Some c -> length c = Z.to_nat (mf_len f) -> fs_files s' !! name_of info f = Some c) /\
  (r = Ok tt -> exists c, fs_files s' !! name_of info f = Some c /\ length c = Z.to_nat (mf_len f)).
Proof.
  intros Hpos Hok. unfold validate_file_size, st_bind at 1. unfold st_map_err at 1, io at 1.
  destruct (open_file (file_path info f) s) as [ro s1] eqn:Eo. destruct (open_law _ _ _ _ Hok Eo) as [[Hok1 _] Hr].
  destruct ro as [e|h]; [intros [= <- <-]; by rewrite Hr|]. destruct Hr as [Hh Hop]. fold (name_of info f) in Hop. unfold opened in Hop.
  assert (Hf1 : (forall n, n <> name_of info f -> fs_files s1 !! n = fs_files s !! n) /\
    forall c, fs_files s !! name_of info f = Some c -> fs_files s1 !! name_of info f = Some c).
  { rewrite Hop. destruct (fs_files s !! name_of info f) as [c0|] eqn:E0; [|split; [intros n Hn; by apply lookup_insert_ne|done]].
    split; [done|congruence]. }
  destruct Hf1 as [Hother Hsame]. unfold st_bind, st_map_err, io. cbn [map_err].
  destruct (file_size h s1) as [rs s2] eqn:Es. destruct (size_law h _ _ _ _ Hok1 Hh Es) as ((Hok2 & Hk2) & Hf2 & Hsz).
  rewrite <- Hf2 in Hother, Hsame. destruct rs as [e|n]; cbn [map_err]; [intros [= <- <-]; split_and!; try done; intros c Hc _; by apply Hsame|].
  destruct Hsz as (c1 & Hc1 & ->). fold (name_of info f) in Hc1. rewrite <- Hf2 in Hc1.
  destruct (Z.eqb_spec (Z.of_nat (length c1)) (mf_len f)) as [Heq|Hne]; cbn [negb andb].
  - intros [= <- <-]. split_and!; try done; [intros c Hc _; by apply Hsame|]. intros _. exists c1. split; [done|lia].
  - destruct (Z.eqb_spec (Z.of_nat (length c1)) 0) as [H0|]; cbn [andb]; [|intros [= <- <-]; split_and!; try done; intros c Hc _; by apply Hsame].
    assert (c1 = []) as -> by (destruct c1; [done|cbn in H0; lia]). assert (0 < mf_len f) by (cbn in Hne; lia).
    destruct (write_file h (mf_len f - 1) [0] s2) as [rw s3] eqn:Ew. destruct (write_law h _ _ _ _ _ _ Hok2 (Hk2 _ _ Hh) Ew) as [[Hok3 _] Hw].
    destruct rw as [e|n]; [intros [= <- <-]; rewrite Hw; split_and!; try done; intros c Hc _; by apply Hsame|].
    destruct Hw as (Hn & Hn0 & c' & Hc' & Hf3). fold (name_of info f) in Hc', Hf3. rewrite Hc1 in Hc'. injection Hc' as <-. intros [= <- <-]. rewrite Hf3. split_and!; [done| | |].
    + intros m Hm. rewrite lookup_insert_ne by done. by apply Hother.
    + intros c Hc Hl. apply Hsame in Hc. rewrite Hc1 in Hc. injection Hc as <-. cbn in Hl. lia.
    + intros _. rewrite lookup_insert_eq. eexists. split; [done|]. assert (n = 1%nat) as -> by (cbn in Hn; specialize (Hn0 ltac:(done)); lia).
      unfold fs_write_file. rewrite !length_app, length_take, length_replicate, length_drop. cbn. lia.
Qed.

Lemma validate_files_ok info fl : forall s r s', Forall (fun f => 0 <= mf_len f) fl -> NoDup (map (name_of info) fl) -> fs_ok s ->
  validate_files_sizes info fl s = (r, s') ->
  fs_ok s' /\ (forall n, n ∉ map (name_of info) fl -> fs_files s' !! n = fs_files s !! n) /\
  (forall f c, f ∈ fl -> fs_files s !! name_of info f = Some c -> length c = Z.to_nat (mf_len f) -> fs_files s' !! name_of info f = Some c) /\
  (r = Ok tt -> Forall (fun f => exists c, fs_files s' !! name_of info f = Some c /\ length c = Z.to_nat (mf_len f)) fl).
Proof.
  induction fl as [|f fl IH]; intros s r s' Hpos Hnd Hok; cbn [validate_files_sizes].
  { intros [= <- <-]. split_and!; done. }
  apply Forall_cons in Hpos as [Hf Hpos]. cbn [map] in Hnd. apply NoDup_cons in Hnd as [Hni Hnd]. unfold st_bind.
  destruct (validate_file_size info f s) as [r1 s1] eqn:E1. apply validate_file_ok in E1 as (Hok1 & Ho1 & Hs1 & Hr1); [|done|done].
  assert (Hne : forall g, g ∈ fl -> name_of info g <> name_of info f).
  { intros g Hg He. apply Hni. rewrite <- He. by apply list_elem_of_fmap_2. }
  destruct r1 as [[]|e| |].
  2-4: intros [= <- <-]; split_and!; try done; [intros n [Hn _]%not_elem_of_cons; by apply Ho1|].
  2-4: intros g c [->|Hg]%elem_of_cons Hc Hl; [by apply Hs1|rewrite Ho1 by (by apply Hne); done].
  intros E2. apply IH in E2 as (Hok2 & Ho2 & Hs2 & Hr2); [|done..]. split_and!; [done| | |].
  - intros n [Hn1 Hn2]%not_elem_of_cons. by rewrite Ho2, Ho1.
  - intros g c [->|Hg]%elem_of_cons Hc Hl; [rewrite Ho2 by done; by apply Hs1|]. apply Hs2; [done| |done]. rewrite Ho1 by (by apply Hne). done.
  - intros Hr. constructor; [|by apply Hr2]. destruct (Hr1 eq_refl) as (c & Hc & Hl). exists c. rewrite Ho2 by done. done.
Qed.

Lemma valid_of_files info files : Forall (fun f => exists c, files !! name_of info f = Some c /\ length c = Z.to_nat (mf_len f)) (in_files info) ->
  files_valid info files.
Proof. unfold files_valid, names, file_sizes. induction 1; cbn; constructor; done. Qed.

Lemma valid_files_elim info files f : files_valid info files -> f ∈ in_files info ->
  exists c, files !! name_of info f = Some c /\ length c = Z.to_nat (mf_len f).
Proof.
  unfold files_valid, names, file_sizes. induction (in_files info) as [|g fl IH]; intros Hv Hf; [by apply elem_of_nil in Hf|].
  cbn in Hv. inversion Hv; subst. apply elem_of_cons in Hf as [->|Hf]; auto.
Qed.

Lemma add_blocks_ok info l : forall cs, checker_ok info cs ->
  Forall (fun m => (bm_piece_index m < length (in_pieces info))%nat /\ block_of (bm_piece_index m) (size_of_piece info (bm_piece_index m)) m) l ->
  checker_ok info (foldl add_pending_block cs l).
Proof. induction l as [|m l IH]; intros cs Hc Hl; [done|]. apply Forall_cons in Hl as [[Hlt Hb] Hl]. cbn. apply IH; [by apply add_pending_ok|done]. Qed.

(** The blocks noted for a new torrent are its pieces. *)
Definition whole_blocks info : list BlockMetadata :=
  map (fun p => with_default_hash p 0 (piece_length info)) (seq 0 (total_size info / piece_length info)) ++
  if negb (last_piece_size (piece_length info) (file_sizes info) =? 0)%nat
  then [with_default_hash (total_size info / piece_length info) 0 (last_piece_size (piece_length info) (file_sizes info))] else [].

Lemma foldl_map {A B C} (f : A -> C -> A) (g : B -> C) l : forall a, foldl f a (map g l) = foldl (fun a b => f a (g b)) a l.
Proof. induction l; intros a0; cbn; auto. Qed.

Lemma fill_blocks info cs : fill_checker_state (piece_length info) (file_sizes info) cs = foldl add_pending_block cs (whole_blocks info).
Proof.
  unfold fill_checker_state, whole_blocks. rewrite foldl_app, foldl_map. fold (total_size info). destruct (negb _); done.
Qed.

Lemma whole_blocks_ok file : let info := mi_info file in torrent_ok file ->
  Forall (fun m => (bm_piece_index m < length (in_pieces info))%nat /\ block_of (bm_piece_index m) (size_of_piece info (bm_piece_index m)) m) (whole_blocks info).
Proof.
  intros info Ht. pose proof (tor_pieces _ Ht) as Hn. fold info in Hn. destruct Ht as [[Hpl _] _ _ _ _]. fold info in Hpl. rewrite Hn. unfold whole_blocks, last_piece_size.
  fold (total_size info). unfold block_of, size_of_piece. set (pl := piece_length info) in *. set (tot := total_size info) in *.
  assert (0 < pl)%nat by (unfold pl, piece_length; lia). pose proof (Nat.div_mod_eq tot pl) as Hd. pose proof (Nat.mod_upper_bound tot pl ltac:(lia)) as Hm.
  set (q := (tot / pl)%nat) in *. set (rm := (tot mod pl)%nat) in *.
  assert (Hq : (q <= (tot + pl - 1) / pl)%nat) by (apply Nat.div_le_mono; lia).
  apply Forall_app. split.
  - apply Forall_forall. intros m (p & -> & Hp)%list_elem_of_fmap. apply elem_of_seq in Hp. cbn [bm_piece_index with_default_hash bm_block_length bm_block_offset]. split_and!; try done; nia.
  - destruct (Nat.eqb_spec rm 0); cbn [negb]; [constructor|]. apply Forall_singleton. cbn [bm_piece_index with_default_hash bm_block_length bm_block_offset].
    assert (q + 1 <= (tot + pl - 1) / pl)%nat.
    { apply (Nat.le_trans _ ((q * pl + pl) / pl)); [|apply Nat.div_le_mono; lia].
      replace (q * pl + pl)%nat with ((q + 1) * pl)%nat by lia. rewrite Nat.div_mul; lia. }
    split_and!; try done; try lia; nia.
Qed.

Lemma init_state_ok file s r s' : let info := mi_info file in torrent_ok file -> fs_ok s -> init_state sha1 info s = (r, s') ->
  fs_ok s' /\ (forall n, n ∉ names info -> fs_files s' !! n = fs_files s !! n) /\
  (files_valid info (fs_files s) -> forall n, fs_files s' !! n = fs_files s !! n) /\
  (forall cs, r = Ok cs -> files_valid info (fs_files s') /\ checker_ok info cs /\ Forall (report_ok info (fs_files s')) (new_states cs)).
Proof.
  intros info Ht Hok. unfold init_state. unfold st_bind at 1. cbn [st_of]. destruct (checked_last_piece_size info) as [lps| | |] eqn:El; [|intros [= <- <-]; done..].
  assert (lps = last_piece_size (piece_length info) (file_sizes info)) as ->.
  { unfold checked_last_piece_size in El. destruct (2 ^ 64 <=? _); [done|]. destruct (_ =? 0)%nat; [done|]. by injection El. }
  unfold st_bind. destruct (validate_files_sizes info (in_files info) s) as [rv s1] eqn:Ev.
  apply validate_files_ok in Ev as (Hok1 & Ho1 & Hs1 & Hr1); [|by apply tor_lengths|by apply tor_names|done].
  assert (Hsame : files_valid info (fs_files s) -> forall n, fs_files s1 !! n = fs_files s !! n).
  { intros Hv n. destruct (decide (n ∈ names info)) as [(f & -> & Hf)%list_elem_of_fmap|Hn]; [|by apply Ho1].
    destruct (valid_files_elim _ _ f Hv Hf) as (c & Hc & Hl). rewrite (Hs1 f c Hf Hc Hl). done. }
  destruct rv as [[]|e| |]; [|intros [= <- <-]; done..]. specialize (Hr1 eq_refl). apply valid_of_files in Hr1.
  destruct (calculate_diff sha1 info _) as [rd [cs s2]] eqn:Ed. intros [= <- <-]. rewrite fill_blocks in Ed.
  apply (diff_checked file) in Ed as (Hok2 & Hf2 & Hc2 & _ & added & Hnew & Hadd); [|done|done|done|].
  - rewrite Hf2. split_and!; [done|done|done|]. intros cs' Hcs. apply res_bind_Ok in Hcs as ([] & _ & [= <-]). split_and!; [done|done|].
    rewrite Hnew. apply Forall_app. split; [|done]. clear. assert (forall l cs0, new_states (foldl add_pending_block cs0 l) = new_states cs0) as -> by (induction l; intros; cbn; [done|]; rewrite IHl; done). constructor.
  - apply add_blocks_ok; [|by apply whole_blocks_ok]. split; [done|]. intros p messages Hp. cbn in Hp. by rewrite lookup_empty in Hp.
Qed.

(** ** All tasks of the manager *)

(** The torrents a client adds: one info dictionary per hash, no file in two torrents. *)
Class Torrents (Tor : Metainfo -> Prop) : Prop := {
  torrents_ok f : Tor f -> torrent_ok f;
  torrents_same f g : Tor f -> Tor g -> file_hash f = file_hash g -> mi_info f = mi_info g;
  torrents_apart f g n : Tor f -> Tor g -> file_hash f <> file_hash g -> n ∈ names (mi_info f) -> n ∉ names (mi_info g)
}.
Context (Tor : Metainfo -> Prop) {HT : Torrents Tor}.
Implicit Types (c : DiskManagerContext S IoError).

(** Blocks are parts of the pieces of their torrent. *)
Definition message_ok (msg : IDiskMessage) : Prop :=
  match msg with
  | AddTorrent file => Tor file
  | LoadBlock b | ProcessBlock b => forall file, Tor file -> file_hash file = bm_info_hash (bk_metadata b) -> block_for (mi_info file) b
  | _ => True
  end.

Abbreviation files_of c := (fs_files (dc_fs c)).

Definition torrent_state_ok c (file : Metainfo) (cs : PieceCheckerState) : Prop :=
  Tor file /\ files_valid (mi_info file) (files_of c) /\ checker_ok (mi_info file) cs /\ new_states cs = [].

Definition context_ok c : Prop := fs_ok (dc_fs c) /\ forall h ms, dc_torrents c !! h = Some ms ->
  Tor (ms_file ms) /\ file_hash (ms_file ms) = h /\ files_valid (mi_info (ms_file ms)) (files_of c) /\
  (ms_poisoned ms = false -> torrent_state_ok c (ms_file ms) (ms_state ms)).

(** The torrent a task is adding. *)
Definition adding (t : Task IoError) : option ShaHash :=
  match t with TStart (AddTorrent file) | TReport file _ | TInsert file _ => Some (file_hash file) | _ => None end.

(** A torrent is not added while it is there or being added. *)
Definition good_message (msg : IDiskMessage) (D : DiskManager S IoError) : Prop :=
  message_ok msg /\
  match msg with
  | AddTorrent file => dc_torrents (dm_context D) !! file_hash file = None /\ file_hash file ∉ omap adding (dm_tasks D)
  | _ => True
  end.

Definition task_state_ok c (t : Task IoError) : Prop :=
  match t with
  | TStart msg => message_ok msg
  | TReport file cs => Tor file /\ files_valid (mi_info file) (files_of c) /\ checker_ok (mi_info file) cs /\
      Forall (report_ok (mi_info file) (files_of c)) (new_states cs)
  | TInsert file cs => torrent_state_ok c file cs
  | TSend m => answers m = true
  end /\ forall h, adding t = Some h -> dc_torrents c !! h = None.

(** A report of a piece is true of the files. *)
Definition message_true files (m : ODiskMessage IoError) : Prop :=
  match m with
  | FoundGoodPiece h p => exists file, Tor file /\ file_hash file = h /\ piece_verified (mi_info file) files p (size_of_piece (mi_info file) p)
  | FoundBadPiece h p => exists file, Tor file /\ file_hash file = h /\ (p < length (in_pieces (mi_info file)))%nat /\
      ~ piece_verified (mi_info file) files p (size_of_piece (mi_info file) p)
  | _ => True
  end.

(** Valid files stay valid. *)
Definition keeps_valid c c' : Prop := forall g, Tor g -> files_valid (mi_info g) (files_of c) -> files_valid (mi_info g) (files_of c').

Lemma keeps_valid_same c c' : files_of c' = files_of c -> keeps_valid c c'.
Proof. unfold keeps_valid. by intros ->. Qed.

(** Torrents that are not there, but for [h0], stay so, and their files are not touched. *)
Definition keeps_others (h0 : option ShaHash) c c' : Prop := forall h, Some h <> h0 -> dc_torrents c !! h = None ->
  dc_torrents c' !! h = None /\ forall g, Tor g -> file_hash g = h -> forall n, n ∈ names (mi_info g) -> files_of c' !! n = files_of c !! n.

Lemma keeps_others_same h0 c c' : files_of c' = files_of c -> (forall h, Some h <> h0 -> dc_torrents c !! h = None -> dc_torrents c' !! h = None) -> keeps_others h0 c c'.
Proof. intros Hf Ht h Hh Hn. split; [by apply Ht|]. by rewrite Hf. Qed.

Lemma keeps_others_one h0 f c c' : Tor f -> (forall n, n ∉ names (mi_info f) -> files_of c' !! n = files_of c !! n) ->
  (forall h, dc_torrents c !! h = None -> dc_torrents c' !! h = None) -> Some (file_hash f) = h0 \/ is_Some (dc_torrents c !! file_hash f) -> keeps_others h0 c c'.
Proof.
  intros Hf Ho Ht Hown h Hh Hn. split; [by apply Ht|]. intros g Hg <- n Hin. apply Ho. apply (torrents_apart g f n Hg Hf); [|done].
  intros E. destruct Hown as [<-|[ms Hs]]; congruence.
Qed.

(** A report about untouched files stays true. *)
Lemma report_ok_ext info files files' state : (forall n, n ∈ names info -> files' !! n = files !! n) -> report_ok info files state -> report_ok info files' state.
Proof. intros He. unfold report_ok, piece_verified, piece_bytes. by rewrite (contents_ext _ _ _ He). Qed.

(** Only the files of [f] were touched. *)
Lemma keeps_valid_one f c c' : Tor f -> (forall n, n ∉ names (mi_info f) -> files_of c' !! n = files_of c !! n) ->
  (files_valid (mi_info f) (files_of c) -> files_valid (mi_info f) (files_of c')) -> keeps_valid c c'.
Proof.
  intros Hf Ho Hv g Hg Hgv. destruct (decide (file_hash g = file_hash f)) as [E|E].
  - rewrite (torrents_same g f Hg Hf E) in *. by apply Hv.
  - eapply files_valid_ext; [|exact Hgv]. intros n Hn. apply Ho. by apply (torrents_apart g f n Hg Hf E).
Qed.

Lemma state_ok_moves c c' file cs : keeps_valid c c' -> torrent_state_ok c file cs -> torrent_state_ok c' file cs.
Proof. intros Hk (H1 & H2 & H3). split; [done|]. split; [by apply Hk|done]. Qed.

(** The torrents are the same up to one. *)
Lemma context_ok_moves c c' : context_ok c -> fs_ok (dc_fs c') -> keeps_valid c c' ->
  (forall h ms, dc_torrents c' !! h = Some ms -> dc_torrents c !! h = Some ms \/
     (Tor (ms_file ms) /\ file_hash (ms_file ms) = h /\ files_valid (mi_info (ms_file ms)) (files_of c') /\
      (ms_poisoned ms = false -> torrent_state_ok c' (ms_file ms) (ms_state ms)))) -> context_ok c'.
Proof.
  intros [_ Hc] Hok Hk Ht. split; [done|]. intros h ms [Hl|Hl]%Ht; [|done]. destruct (Hc h ms Hl) as (H1 & H2 & H3 & H4).
  split_and!; [done|done|by apply Hk|]. intros Hp. eapply state_ok_moves; [done|]. by apply H4.
Qed.

(** What a step of a task guarantees. *)
Definition step_ok {E A} (h0 : option ShaHash) (m : st (DiskManagerContext S IoError) E A) (post : DiskManagerContext S IoError -> A -> Prop) c : Prop :=
  forall r c', m c = (r, c') -> context_ok c' /\ (keeps_valid c c' /\ keeps_others h0 c c') /\
    (exists l, dc_out c' = dc_out c ++ l /\ Forall (message_true (files_of c')) l) /\ forall a, r = Ok a -> post c' a.

Lemma diff_true file cs files ignore_bad : Tor file -> Forall (report_ok (mi_info file) files) (new_states cs) ->
  Forall (message_true files) (send_piece_diff (IoError := IoError) (file_hash file) ignore_bad cs).1.
Proof.
  intros Ht. unfold send_piece_diff. cbn. induction 1 as [|state l Hst _ IH]; [constructor|]. cbn.
  destruct state, ignore_bad; cbn in *; try done; constructor; try done; exists file; done.
Qed.

Lemma drained cs info : checker_ok info cs -> checker_ok info (run_with_diff cs).2 /\ new_states (run_with_diff cs).2 = [].
Proof. done. Qed.

Lemma check_step file c : context_ok c -> Tor file -> dc_torrents c !! file_hash file = None ->
  step_ok (Some (file_hash file)) (check_torrent sha1 file) (fun c' cs => task_state_ok c' (TReport file cs)) c.
Proof.
  intros Hc Ht Hnone r c'. unfold check_torrent. destruct (init_state sha1 (mi_info file) (dc_fs c)) as [ri s] eqn:Ei.
  apply init_state_ok in Ei as (Hok & Ho & Hs & Hr); [|by apply torrents_ok|apply Hc]. intros [= <- <-].
  set (c2 := mkContext (dc_torrents c) (dc_out c) s). assert (Hk : keeps_valid c c2).
  { apply (keeps_valid_one file); [done..|]. intros Hv. eapply files_valid_ext; [|exact Hv]. intros n _. by apply Hs. }
  split; [apply (context_ok_moves c); [done..|by left]|]. split; [split; [done|apply (keeps_others_one _ file); [done..|by left]]|].
  split; [exists []; by rewrite app_nil_r|]. intros cs E. destruct (Hr cs E) as (Hv & Hck & Hrep). split; [done|]. by intros h [= <-].
Qed.

Lemma report_step file cs c : context_ok c -> task_state_ok c (TReport file cs) ->
  step_ok (Some (file_hash file)) (report_torrent file cs) (fun c' cs => task_state_ok c' (TInsert file cs)) c.
Proof.
  intros Hc [(Ht & Hv & Hck & Hrep) Hn] r c'. unfold report_torrent. pose proof (diff_true file cs (files_of c) true Ht Hrep) as Hm.
  destruct (send_piece_diff (file_hash file) true cs) as [msgs cs'] eqn:Ed. intros [= <- <-]. split; [done|].
  split; [split; [by apply keeps_valid_same|by apply keeps_others_same]|]. split; [by exists msgs|]. intros a [= <-]. split; [|exact Hn]. by injection Ed as _ <-.
Qed.

Lemma silent_step {E A} h0 (m : st (DiskManagerContext S IoError) E A) c : context_ok c ->
  (forall r c', m c = (r, c') -> fs_ok (dc_fs c') /\ files_of c' = files_of c /\ dc_out c' = dc_out c /\
     forall h ms, dc_torrents c' !! h = Some ms -> dc_torrents c !! h = Some ms \/
       (exists ms0, dc_torrents c !! h = Some ms0 /\ ms_file ms = ms_file ms0 /\ (ms_poisoned ms = false -> ms_poisoned ms0 = false /\ ms_state ms = ms_state ms0)) \/
       (ms_poisoned ms = false /\ Some h = h0 /\ h = file_hash (ms_file ms) /\ torrent_state_ok c (ms_file ms) (ms_state ms))) ->
  step_ok h0 m (fun _ _ => True) c.
Proof.
  intros Hc Hm r c' E1. destruct (Hm r c' E1) as (Hok & Hf & Ho & Ht). pose proof (keeps_valid_same c c' Hf) as Hk.
  assert (Hot : keeps_others h0 c c').
  { apply keeps_others_same; [done|]. intros h Hh Hn. destruct (dc_torrents c' !! h) as [ms|] eqn:El; [|done]. apply Ht in El as [El|[(ms0 & El & _)|(_ & El & _)]]; congruence. }
  split; [|split; [done|split; [exists []; by rewrite app_nil_r, Ho|done]]]. apply (context_ok_moves c); [done..|].
  intros h ms [Hl|[(ms0 & Hl & Hfile & Hp)|(Hp & _ & -> & Hst)]]%Ht; [by left|right..].
  - destruct (proj2 Hc h ms0 Hl) as (H1 & H2 & H3 & H4). rewrite Hfile. split_and!; [done|done|by apply Hk|]. intros [Hp0 ->]%Hp. eapply state_ok_moves; [done|by apply H4].
  - pose proof Hst as (H1 & H2 & _). split_and!; [done|done|by apply Hk|]. intros _. by eapply state_ok_moves.
Qed.

(** A closure that only uses the file system without changing contents. *)
Lemma update_silent {E A} hash (call : Metainfo -> st (PieceCheckerState * S) E A) c :
  context_ok c -> (forall ms cs s r cs' s', dc_torrents c !! hash = Some ms -> fs_ok s -> fs_files s = files_of c ->
    call (ms_file ms) (cs, s) = (r, (cs', s')) -> fs_ok s' /\ fs_files s' = fs_files s /\ cs' = cs) ->
  forall r c', update_torrent hash call c = (r, c') -> fs_ok (dc_fs c') /\ files_of c' = files_of c /\ dc_out c' = dc_out c /\
    forall h ms, dc_torrents c' !! h = Some ms -> dc_torrents c !! h = Some ms \/
      exists ms0, dc_torrents c !! h = Some ms0 /\ ms_file ms = ms_file ms0 /\ (ms_poisoned ms = false -> ms_poisoned ms0 = false /\ ms_state ms = ms_state ms0).
Proof.
  intros Hc Hcall r c'. unfold update_torrent. destruct (dc_torrents c !! hash) as [ms|] eqn:El; [|intros [= <- <-]; split_and!; try done; [apply Hc|by left]].
  destruct (ms_poisoned ms) eqn:Ep; [intros [= <- <-]; split_and!; try done; [apply Hc|by left]|].
  destruct (call (ms_file ms) (ms_state ms, dc_fs c)) as [rc [cs s]] eqn:Ec. intros [= <- <-].
  destruct (Hcall ms _ _ _ _ _ eq_refl (proj1 Hc) eq_refl Ec) as (Hok & Hf & ->). cbn [dc_fs dc_out dc_torrents]. split_and!; [done|done|done|].
  intros h ms'. destruct (decide (h = hash)) as [->|]; [|rewrite lookup_insert_ne by done; by left].
  rewrite lookup_insert_eq. intros [= <-]. right. exists ms. done.
Qed.

Lemma sync_files_silent {E} info fl : forall sr (cs : PieceCheckerState) s (r : res E (IoError + unit)) cs' s', fs_ok s ->
  sync_files info fl sr (cs, s) = (r, (cs', s')) -> fs_ok s' /\ fs_files s' = fs_files s /\ cs' = cs.
Proof.
  induction fl as [|f fl IH]; intros sr cs s r cs' s' Hok; cbn [sync_files]; [by intros [= <- <- <-]|].
  unfold st_bind, st_catch, st_snd, io. destruct (sync_file (file_path info f) s) as [ry s1] eqn:Ey.
  destruct (sync_law _ _ _ _ Hok Ey) as [[Hok1 _] Hf1].
  destruct ry as [e|u]; intros (Hok2 & Hf2 & ->)%IH; try done; by rewrite Hf2, Hf1.
Qed.

(** A call that looks at what [update_torrent] found. *)
Lemma found_step {E A B} (m : st (DiskManagerContext S IoError) E A) (k : A -> res E B) c :
  step_ok None m (fun _ _ => True) c -> step_ok None (let* a := m in st_of (k a)) (fun _ _ => True) c.
Proof.
  intros Hm r c'. unfold st_bind, st_of. destruct (m c) as [ra c1] eqn:E1. destruct (Hm ra c1 E1) as (H1 & H2 & H3 & _).
  destruct ra; intros [= <- <-]; done.
Qed.

Lemma update_step {E A} hash (call : Metainfo -> st (PieceCheckerState * S) E A) c :
  context_ok c -> (forall ms cs s r cs' s', dc_torrents c !! hash = Some ms -> fs_ok s -> fs_files s = files_of c ->
    call (ms_file ms) (cs, s) = (r, (cs', s')) -> fs_ok s' /\ fs_files s' = fs_files s /\ cs' = cs) ->
  step_ok None (update_torrent hash call) (fun _ _ => True) c.
Proof.
  intros Hc Hcall. apply silent_step; [done|]. intros r c' E1. destruct (update_silent hash call c Hc Hcall r c' E1) as (H1 & H2 & H3 & H4).
  split_and!; [done..|]. intros h ms [Hl|Hl]%H4; eauto.
Qed.

Lemma load_step b c : context_ok c -> message_ok (LoadBlock b) -> step_ok None (execute_load_block b) (fun _ _ => True) c.
Proof.
  intros Hc Hb. apply found_step, update_step; [done|]. intros ms cs s r cs' s' Hl Hok Hf. destruct (proj2 Hc _ _ Hl) as (Htor & Hh & Hv & _).
  destruct (Hb _ Htor Hh) as (_ & _ & Hlen). unfold st_catch.
  destruct (accessor_read_piece (mi_info (ms_file ms)) (bk_metadata b) (bk_data b, s)) as [ra [buf s1]] eqn:Ea.
  apply accessor_read_ok in Ea as (Hok1 & Hf1 & _); [|done|by rewrite Hf|lia]. destruct ra; intros [= <- <- <-]; done.
Qed.

Lemma sync_step hash c : context_ok c -> step_ok None (execute_sync_torrent hash) (fun _ _ => True) c.
Proof. intros Hc. apply found_step, update_step; [done|]. intros ms cs s r cs' s' _ Hok _. by apply sync_files_silent. Qed.

Lemma remove_step hash c : context_ok c -> step_ok None (execute_remove_torrent hash) (fun _ _ => True) c.
Proof.
  intros Hc. apply silent_step; [done|]. intros r c'. unfold execute_remove_torrent, remove_torrent.
  destruct (dc_torrents c !! hash) as [ms|] eqn:El; intros [= <- <-]; cbn; (split_and!; [apply Hc|done|done|]); [|by left].
  intros h ms' Hl. left. destruct (decide (h = hash)) as [->|]; [by rewrite lookup_delete_eq in Hl|by rewrite lookup_delete_ne in Hl].
Qed.

Lemma finish_step file cs c : context_ok c -> torrent_state_ok c file cs -> step_ok (Some (file_hash file)) (finish_add_torrent file cs) (fun _ _ => True) c.
Proof.
  intros Hc Hst. apply silent_step; [done|]. intros r c'. unfold finish_add_torrent, insert_torrent.
  case_bool_decide as Hex; cbn [negb]; intros [= <- <-]; cbn; (split_and!; [apply Hc|done|done|]); [by left|].
  intros h ms. destruct (decide (h = file_hash file)) as [->|]; [|rewrite lookup_insert_ne by done; by left].
  rewrite lookup_insert_eq. intros [= <-]. right. by right.
Qed.

Lemma unchanged_ok {A} c (P : A -> Prop) (r : res (BlockError IoError) A) : context_ok c -> (forall a, r = Ok a -> P a) ->
  context_ok c /\ (keeps_valid c c /\ keeps_others None c c) /\ (exists l, dc_out c = dc_out c ++ l /\ Forall (message_true (files_of c)) l) /\ forall a, r = Ok a -> P a.
Proof. intros Hc Hp. split; [done|]. split; [split; [by apply keeps_valid_same|by apply keeps_others_same]|]. split; [exists []; by rewrite app_nil_r|done]. Qed.

Lemma process_step b c : context_ok c -> message_ok (ProcessBlock b) -> step_ok None (execute_process_block sha1 b) (fun _ _ => True) c.
Proof.
  intros Hc Hb r c'. set (hash := bm_info_hash (bk_metadata b)). destruct (dc_torrents c !! hash) as [ms|] eqn:El; [destruct (ms_poisoned ms) eqn:Ep|].
  - rewrite (proj2 (process_missing sha1 b c) ms El Ep). intros [= <- <-]. by apply unchanged_ok.
  - rewrite (process_found sha1 b c ms El Ep). destruct (proj2 Hc _ _ El) as (Htor & Hh & Hv & Hst). destruct (Hst Ep) as (_ & _ & Hck & Hnew).
    destruct (write_and_check sha1 _ b _) as [rw [cs s]] eqn:Ew. pose proof (Hb _ Htor Hh) as Hblock.
    apply (write_and_check_ok (ms_file ms)) in Ew as (Hok & Hv2 & Hn & Hck2 & added & Hadd & Hrep); [|by apply torrents_ok|apply Hc|done..].
    rewrite Hnew in Hadd. cbn [app] in Hadd. rewrite <- Hadd in Hrep. pose proof (diff_true (ms_file ms) cs (fs_files s) false Htor Hrep) as Hm.
    destruct (send_piece_diff (file_hash (ms_file ms)) false cs) as [msgs cs'] eqn:Ed. cbn [fst] in Hm.
    assert (Hcs : checker_ok (mi_info (ms_file ms)) cs' /\ new_states cs' = []) by (injection Ed as _ <-; done).
    assert (Hall : forall cs2 poisoned out, (poisoned = false -> checker_ok (mi_info (ms_file ms)) cs2 /\ new_states cs2 = []) ->
      let c2 := mkContext (<[hash := mkMetainfoState (ms_file ms) cs2 poisoned]> (dc_torrents c)) out s in context_ok c2 /\ (keeps_valid c c2 /\ keeps_others None c c2)).
    { intros cs2 poisoned out H2 c2. assert (Hk : keeps_valid c c2) by (by apply (keeps_valid_one (ms_file ms))).
      split; [|split; [done|]; apply (keeps_others_one _ (ms_file ms)); [done|done| |right; by rewrite Hh; eexists]; intros h Hn0; cbn; rewrite lookup_insert_ne; congruence].
      apply (context_ok_moves c); [done|done|done|]. cbn. intros h ms'. destruct (decide (h = hash)) as [->|]; [|rewrite lookup_insert_ne by done; by left].
      rewrite lookup_insert_eq. intros [= <-]. right. cbn. split_and!; [done..|]. intros Hp. destruct (H2 Hp). done. }
    destruct rw; intros [= <- <-]; [destruct (Hall cs' false (dc_out c ++ msgs) (fun _ => Hcs)) as [Ha Hk]..| |].
    1,2: split; [done|]; split; [done|]; split; [by exists msgs|done].
    1,2: destruct (Hall cs true (dc_out c) ltac:(done)) as [Ha Hk]; split; [done|]; split; [done|]; split; [exists []; by rewrite app_nil_r|done].
  - rewrite (proj1 (process_missing sha1 b c) El). intros [= <- <-]. by apply unchanged_ok.
Qed.

(** Every step of a task keeps the invariant, and what it reports is true of the files. *)
Lemma answer_ok {E A} (m : st (DiskManagerContext S IoError) E A) h0 ok err post c r c' : step_ok h0 m post c ->
  (forall c' a, post c' a -> task_state_ok c' (ok a)) -> (forall c' e, task_state_ok c' (err e)) -> answer m ok err c = (r, c') ->
  context_ok c' /\ (keeps_valid c c' /\ keeps_others h0 c c') /\ (exists l, dc_out c' = dc_out c ++ l /\ Forall (message_true (files_of c')) l) /\
  forall t, r = Ok (Some t) -> task_state_ok c' t.
Proof.
  intros Hm Hok Herr. unfold answer, st_bind, st_catch. destruct (m c) as [ra c1] eqn:E1. destruct (Hm ra c1 E1) as (H1 & H2 & H3 & H4).
  destruct ra as [a|e| |]; intros [= <- <-]; split; try done; split; try done; split; try done; intros t [= <-]; auto.
Qed.

Lemma task_step_ok t c r c' : context_ok c -> task_state_ok c t -> task_step sha1 t c = (r, c') ->
  context_ok c' /\ (keeps_valid c c' /\ keeps_others (adding t) c c') /\
  (exists l, dc_out c' = dc_out c ++ l /\ match t with TSend m => l = [m] | _ => Forall (message_true (files_of c')) l end) /\
  forall t', r = Ok (Some t') -> task_state_ok c' t'.
Proof.
  intros Hc [Ht Hn]. destruct t as [[file|hash|hash|b|b]|file cs|file cs|m]; cbn [task_step adding].
  - apply (answer_ok _ _ _ _ (fun c' cs => task_state_ok c' (TReport file cs))); [apply check_step; auto|done|by split].
  - apply (answer_ok _ _ _ _ (fun _ _ => True)); [by apply remove_step|by split|by split].
  - apply (answer_ok _ _ _ _ (fun _ _ => True)); [by apply sync_step|by split|by split].
  - apply (answer_ok _ _ _ _ (fun _ _ => True)); [by apply load_step|by split|by intros c2 []; split].
  - apply (answer_ok _ _ _ _ (fun _ _ => True)); [by apply process_step|by split|by split].
  - apply (answer_ok _ _ _ _ (fun c' cs => task_state_ok c' (TInsert file cs))); [by apply report_step|done|by split].
  - apply (answer_ok _ _ _ _ (fun _ _ => True)); [by apply finish_step|by split|by split].
  - intros [= <- <-]. split; [done|]. split; [split; [by apply keeps_valid_same|by apply keeps_others_same]|]. split; [by exists [m]|done].
Qed.

(** A step only goes on with the torrent it is adding. *)
Lemma task_step_adding t c c' t' : task_step sha1 t c = (Ok (Some t'), c') -> adding t' = adding t \/ adding t' = None.
Proof.
  destruct t as [[file|hash|hash|b|b]|file cs|file cs|m]; cbn [task_step]; [..|by intros [=]]; unfold answer, st_bind, st_catch;
    match goal with |- context [match ?m c with (_, _) => _ end] => destruct (m c) as [[a|e| |] c1] end; intros [= <- <-]; try (by left); try (by right).
  destruct e. by right.
Qed.

(** The torrents being added are different. *)
Definition manager_ok (D : DiskManager S IoError) : Prop :=
  context_ok (dm_context D) /\ Forall (task_state_ok (dm_context D)) (dm_tasks D) /\ NoDup (omap adding (dm_tasks D)).

Lemma insert_Permutation {A} (l : list A) i x t : l !! i = Some t -> <[i := x]> l ≡ₚ x :: delete i l.
Proof.
  revert i. induction l as [|y l IH]; intros [|i] E; try done. change (<[Datatypes.S i := x]> (y :: l)) with (y :: <[i := x]> l).
  change (delete (Datatypes.S i) (y :: l)) with (y :: delete i l). rewrite (IH i E). constructor.
Qed.

(** A task that waits while another runs. *)
Lemma task_waits h0 c c' t : keeps_valid c c' -> keeps_others h0 c c' -> (forall h, adding t = Some h -> Some h <> h0) -> task_state_ok c t -> task_state_ok c' t.
Proof.
  intros Hk Ho Hne [Ht Hn]. split; [|intros h Hh; by apply Ho; [apply Hne|apply Hn]]. destruct t as [msg|file cs|file cs|m]; cbn in *; [done| |by eapply state_ok_moves|done].
  destruct Ht as (Ht & Hv & Hck & Hrep). split_and!; [done|by apply Hk|done|]. destruct (Ho (file_hash file)) as [_ Hsame]; [by apply Hne|by apply Hn|].
  eapply Forall_impl; [exact Hrep|]. intros state. apply report_ok_ext. by apply Hsame.
Qed.

Lemma run_task_ok i D p D' : manager_ok D -> run_task sha1 i D = Some (p, D') -> manager_ok D' /\
  exists t l, dm_tasks D !! i = Some t /\ dc_out (dm_context D') = dc_out (dm_context D) ++ l /\
    match t with TSend m => l = [m] | _ => Forall (message_true (files_of (dm_context D'))) l end.
Proof.
  intros (Hc & Hts & Hnd). unfold run_task. destruct (dm_tasks D !! i) as [t|] eqn:Et; [|done]. pose proof (delete_Permutation _ _ _ Et) as Hp.
  destruct (task_step sha1 t (dm_context D)) as [r c'] eqn:Es. intros [= <- <-]. rewrite Hp in Hts, Hnd. apply Forall_cons in Hts as [Hti Hts].
  assert (Hadd : forall t', r = Ok (Some t') -> adding t' = adding t \/ adding t' = None) by (intros t' ->; by eapply task_step_adding).
  apply task_step_ok in Es as (Hc' & (Hk & Ho) & (l & El & Hl) & Hr); [|done..]. cbn [dm_context dm_tasks]. split; [|by exists t, l].
  assert (Hdel : Forall (task_state_ok c') (delete i (dm_tasks D)) /\ NoDup (omap adding (delete i (dm_tasks D)))).
  { split; [|cbn in Hnd; destruct (adding t); [by apply NoDup_cons in Hnd as [_ ?]|done]]. apply Forall_forall. intros t2 Hin. rewrite Forall_forall in Hts.
    eapply task_waits; [exact Hk|exact Ho| |by apply Hts]. intros h Hh E. cbn in Hnd. rewrite <- E in Hnd. apply NoDup_cons in Hnd as [Hni _].
    apply Hni, list_elem_of_omap. by exists t2. }
  destruct Hdel as [Hdel Hnd2]. split; [done|]. cbn [dm_context dm_tasks]. destruct r as [[t'|]|[]| |]; [|done..].
  rewrite (insert_Permutation _ _ t' t Et). split; [constructor; [by apply Hr|done]|]. cbn. destruct (Hadd t' eq_refl) as [->| ->]; [exact Hnd|exact Hnd2].
Qed.

Lemma submit_ok item D : manager_ok D -> good_message item D -> manager_ok (sink_send item D).
Proof.
  intros (Hc & Ht & Hnd) [Hm Hnew]. unfold sink_send, set_capacity. destruct (_ <? _); [|done]. split; [done|]. cbn [dm_context dm_tasks].
  rewrite <- Permutation_cons_append. split; [constructor; [|done]|].
  - split; [done|]. intros h. destruct item; cbn; try done. intros [= <-]. apply Hnew.
  - cbn. destruct item; cbn; try done. by constructor; [apply Hnew|].
Qed.

Lemma run_manager_ok D h D' h' : manager_ok D -> dm_run sha1 good_message D h D' h' -> manager_ok D'.
Proof.
  intros Hi Hr. induction Hr as [D h|D h D1 h1 D2 h2 Hr IH Hs]; [done|]. specialize (IH Hi). clear Hi Hr.
  destruct Hs as [item D1 h1 Hg _|D1 D2 h1 E|i D1 p D2 h1 E|D1 m D2 h1 E].
  - by apply submit_ok.
  - unfold sink_take_back in E. destruct (dm_refusing D1); [done|]. by injection E as <-.
  - by apply run_task_ok in E as [? _].
  - unfold poll_next in E. destruct (dc_out (dm_context D1)) as [|m' out]; [done|]. injection E as _ <-. by destruct (completes m').
Qed.

(** C13: the disk manager reports a piece as good or bad as it is on disk. In every run over a
    lawful file system, whatever sinks, tasks and the stream do in whatever order, whatever
    file operations fail and whatever tasks panic, when a step of a task reports
    [FoundGoodPiece] the bytes of that piece on disk hash to what the torrent says, and when
    it reports [FoundBadPiece] they do not; this also holds for the pieces an added torrent
    is found to have, which are reported in a later step than they are checked in, with
    other tasks running in between. Torrents have pieces that cover their files, no file is
    in two torrents, blocks lie in their pieces, and a torrent is not added while it is
    there or being added. *)
Theorem reported_pieces_are_on_disk (b : DiskManagerBuilder) (fs : S) D h i p D' :
  fs_ok fs -> dm_run sha1 good_message (DiskManager_from_builder b fs) no_history D h -> run_task sha1 i D = Some (p, D') ->
  (exists m, answers m = true /\ dc_out (dm_context D') = dc_out (dm_context D) ++ [m]) \/
  exists l, dc_out (dm_context D') = dc_out (dm_context D) ++ l /\ Forall (message_true (files_of (dm_context D'))) l.
Proof.
  intros Hok Hr E. assert (H0 : manager_ok (DiskManager_from_builder b fs)).
  { split; [|split; constructor]. split; [done|]. intros h0 ms Hl. cbn in Hl. by rewrite lookup_empty in Hl. }
  apply (run_manager_ok _ _ _ _ H0) in Hr. destruct (run_task_ok i D p D' Hr E) as (_ & t & l & Ht & Ho & Hl).
  destruct t as [msg|file cs|file cs|m]; [right; by exists l..|]. left. exists m. subst l. split; [|done]. exact (proj1 (Forall_lookup_1 _ _ _ _ (proj1 (proj2 Hr)) Ht)).
Qed.
End Access.
