(* ===== verification/DiskDownload.v ===== *)
(** * The disk manager: downloading a torrent

    Blocks that tile the pieces of a torrent, processed one after the other in any order,
    merge and are reported piece by piece, over a file system that does not fail. *)

From stdpp Require Import gmap sorting.
From S2P Require Import Prelude RustStd UtilSha Paths Metainfo MetainfoHasher DiskRegions DiskFs DiskPieces DiskManager DiskManagerFacts DiskManagerSpec.
From Stdlib Require Import Sorted.

(** ** How often a byte is covered *)

Definition holdsb (x : nat) (m : BlockMetadata) : bool := (bm_block_offset m <=? x)%nat && (x <? bm_block_offset m + bm_block_length m)%nat.
Definition cover (l : list BlockMetadata) (x : nat) : nat := length (List.filter (holdsb x) l).

Lemma holdsb_spec x m : holdsb x m = true <-> holds m x.
Proof. unfold holdsb, holds. rewrite andb_true_iff, Nat.leb_le, Nat.ltb_lt. lia. Qed.

Lemma cover_app l k x : cover (l ++ k) x = (cover l x + cover k x)%nat.
Proof. unfold cover. by rewrite List.filter_app, length_app. Qed.
Lemma cover_cons m l x : cover (m :: l) x = ((if holdsb x m then 1 else 0) + cover l x)%nat.
Proof. unfold cover. cbn. by destruct (holdsb x m). Qed.
Lemma cover_perm l k x : l ≡ₚ k -> cover l x = cover k x.
Proof. induction 1; rewrite ?cover_cons; lia. Qed.
Lemma cover_zero l x m : cover l x = 0%nat -> m ∈ l -> ~ holds m x.
Proof.
  intros Hc Hm Hh. apply holdsb_spec in Hh. unfold cover in Hc. apply length_zero_iff_nil in Hc.
  assert (In m (List.filter (holdsb x) l)) as Hin by (apply filter_In; split; [by apply list_elem_of_In|done]). by rewrite Hc in Hin.
Qed.
Lemma cover_pos l x : (0 < cover l x)%nat <-> received l x.
Proof.
  unfold received. split.
  - unfold cover. destruct (List.filter (holdsb x) l) as [|m k] eqn:E; cbn; [lia|]. intros _. exists m.
    assert (In m (List.filter (holdsb x) l)) as Hin by (rewrite E; by left). apply filter_In in Hin as [Hin Hh].
    split; [by apply list_elem_of_In|by apply holdsb_spec].
  - intros (m & Hm & Hh). destruct (decide (cover l x = 0%nat)) as [H0|]; [|lia]. by destruct (cover_zero l x m H0 Hm).
Qed.

(** ** Merging keeps the cover *)

Lemma merge_two_cover a b m x : merge_piece_messages a b = Some m -> (cover [a; b] x <= 1)%nat -> cover [m] x = cover [a; b] x.
Proof.
  intros Hm. rewrite !cover_cons. destruct (merge_piece_messages_spec a b m Hm) as [Hh _]. specialize (Hh x). rewrite <- !holdsb_spec in Hh.
  destruct (holdsb x a), (holdsb x b), (holdsb x m); cbn; intros Hle; try lia; exfalso; naive_solver.
Qed.
Lemma merge_two_hash a b m : merge_piece_messages a b = Some m -> bm_info_hash m = bm_info_hash a.
Proof. unfold merge_piece_messages. repeat case_match; intros; simplify_eq; done. Qed.

Lemma merge_loop_cover before : forall last, (forall x, (cover (last :: before) x <= 1)%nat) ->
  (forall x, cover (merge_loop last before) x = cover (last :: before) x) /\
  forall h, Forall (fun m => bm_info_hash m = h) (last :: before) -> Forall (fun m => bm_info_hash m = h) (merge_loop last before).
Proof.
  induction before as [|second rest IH]; intros last Hx; [done|]. cbn [merge_loop].
  destruct (merge_piece_messages second last) as [merged|] eqn:Em; [|done].
  assert (Hc : forall x, cover (merged :: rest) x = cover (last :: second :: rest) x).
  { intros x. specialize (Hx x). rewrite !cover_cons in *. pose proof (merge_two_cover _ _ _ x Em) as H. rewrite !cover_cons in H. cbn in H. lia. }
  destruct (IH merged) as [H1 H2]; [intros x; by rewrite Hc|]. split; [intros x; by rewrite H1, Hc|].
  intros h Hf. apply Forall_cons in Hf as [Hl [Hs Hr]%Forall_cons]. apply H2. constructor; [|done]. by rewrite (merge_two_hash _ _ _ Em).
Qed.

Lemma merge_messages_cover l : (forall x, (cover l x <= 1)%nat) -> (forall x, cover (merge_messages l) x = cover l x) /\
  forall h, Forall (fun m => bm_info_hash m = h) l -> Forall (fun m => bm_info_hash m = h) (merge_messages l).
Proof.
  intros Hx. unfold merge_messages. assert (Hp : rev (sort_by_offset l) ≡ₚ l) by (by rewrite rev_perm, sort_by_offset_perm).
  destruct (rev (sort_by_offset l)) as [|last before].
  - apply Permutation_nil_l in Hp as <-. done.
  - destruct (merge_loop_cover before last) as [H1 H2]; [intros x; by rewrite (cover_perm _ _ x Hp)|]. split.
    + intros x. by rewrite (cover_perm _ _ x (rev_perm _)), H1, (cover_perm _ _ x Hp).
    + intros h Hh. rewrite rev_perm. apply H2. by rewrite Hp.
Qed.

(** ** A covered piece merges *)

Lemma cover_chain h p lens : forall start x, cover (chain h p start lens) x = if decide (start <= x < start + sum_list lens)%nat then 1%nat else 0%nat.
Proof.
  induction lens as [|n lens IH]; intros start x; cbn [chain].
  - destruct (decide _); [cbn in *; lia|done].
  - rewrite cover_cons, IH. assert (Hs : sum_list (n :: lens) = (n + sum_list lens)%nat) by done. rewrite Hs. clear Hs. unfold holdsb. cbn [bm_block_offset bm_block_length].
    destruct (Nat.leb_spec start x), (Nat.ltb_spec x (start + n)); cbn [andb]; repeat destruct (decide _); lia.
Qed.

(** Sorted non-empty blocks that cover a range exactly once are consecutive. *)
Lemma sorted_cover_chain h p l : forall start size, StronglySorted offset_le l ->
  Forall (fun m => bm_info_hash m = h /\ bm_piece_index m = p /\ (0 < bm_block_length m)%nat) l ->
  (forall x, cover l x = if decide (start <= x < start + size)%nat then 1%nat else 0%nat) ->
  l = chain h p start (map bm_block_length l) /\ sum_list (map bm_block_length l) = size.
Proof.
  induction l as [|m l IH]; intros start size Hs Hf Hc.
  { split; [done|]. specialize (Hc start). cbn in Hc. destruct (decide _); [done|]. cbn. lia. }
  inversion Hs as [|? ? Hsl Hle]; subst. apply Forall_cons in Hf as [(Hh & Hp & Hpos) Hf].
  assert (Hin : forall m', m' ∈ m :: l -> (start <= bm_block_offset m')%nat /\ (bm_block_offset m' + bm_block_length m' <= start + size)%nat).
  { intros m' Hm'. assert (Hpos' : (0 < bm_block_length m')%nat) by (apply elem_of_cons in Hm' as [->|Hm']; [done|]; rewrite Forall_forall in Hf; by apply Hf).
    assert (Hx : forall x, holds m' x -> (start <= x < start + size)%nat).
    { intros x Hx. specialize (Hc x). destruct (decide _); [done|]. by destruct (cover_zero _ x m' Hc Hm'). }
    pose proof (Hx (bm_block_offset m') ltac:(unfold holds; lia)). pose proof (Hx (bm_block_offset m' + bm_block_length m' - 1)%nat ltac:(unfold holds; lia)). lia. }
  destruct (Hin m ltac:(left)) as [Hlo Hhi].
  assert (Hoff : bm_block_offset m = start).
  { assert (Hr : received (m :: l) start) by (apply cover_pos; rewrite Hc; destruct (decide _); lia). destruct Hr as (m' & Hm' & Hh').
    apply elem_of_cons in Hm' as [->|Hm']; [unfold holds in Hh'; lia|]. rewrite Forall_forall in Hle. specialize (Hle m' Hm'). unfold offset_le, holds in *. lia. }
  destruct (IH (start + bm_block_length m)%nat (size - bm_block_length m)%nat Hsl Hf) as [Hl Hsum].
  { intros x. specialize (Hc x). rewrite cover_cons in Hc. unfold holdsb in Hc. rewrite Hoff in Hc.
    destruct (Nat.leb_spec start x), (Nat.ltb_spec x (start + bm_block_length m)); cbn [andb] in Hc; repeat destruct (decide _); lia. }
  split.
  - cbn [map chain]. rewrite <- Hl. f_equal. destruct m; cbn in *; by subst.
  - cbn [map]. change (sum_list (bm_block_length m :: map bm_block_length l)) with (bm_block_length m + sum_list (map bm_block_length l))%nat. lia.
Qed.

Lemma covered_merges h p size l : (0 < size)%nat -> Forall (fun m => bm_info_hash m = h /\ bm_piece_index m = p /\ (0 < bm_block_length m)%nat) l ->
  (forall x, cover l x = if decide (x < size)%nat then 1%nat else 0%nat) -> merge_messages l = [BlockMetadata_new h p 0 size].
Proof.
  intros Hsize Hf Hc. destruct (sorted_cover_chain h p (sort_by_offset l) 0 size) as [Hl Hsum].
  - apply sort_by_offset_sorted.
  - by rewrite sort_by_offset_perm.
  - intros x. rewrite (cover_perm _ _ x (sort_by_offset_perm l)), Hc. repeat destruct (decide _); lia.
  - rewrite (merge_messages_chain h p (map bm_block_length (sort_by_offset l))); [by rewrite Hsum| | |].
    + intros Hn. rewrite Hn in Hsum. cbn in Hsum. lia.
    + apply Forall_map. rewrite sort_by_offset_perm. eapply Forall_impl; [exact Hf|]. by intros m (_ & _ & ?).
    + by rewrite <- Hl, sort_by_offset_perm.
Qed.

(** ** A file system that does not fail *)

Class ReliableFs (S File IoError : Type) `{HF : FileSystem S File IoError} `{HV : FsView S File} : Prop := {
  open_succeeds p s : fs_ok s -> exists f s', open_file p s = (inr f, s');
  size_succeeds f p s : fs_ok s -> handle_ok s f p -> exists n s', file_size f s = (inr n, s');
  read_succeeds f p o n s c : fs_ok s -> handle_ok s f p -> fs_files s !! fs_name p = Some c -> (Z.to_nat o + n <= length c)%nat ->
    exists d s', read_file f o n s = (inr d, s') /\ length d = n;
  write_succeeds f p o d s : fs_ok s -> handle_ok s f p -> exists s', write_file f o d s = (inr (length d), s')
}.

#[export] Instance mem_reliable : ReliableFs (gmap (list Z) (list Z)) (list Z) unit.
Proof.
  split.
  - intros p s _. by eexists _, _.
  - intros f p s _ [Hf [c Hc]]. cbn. rewrite Hf, Hc. by eexists _, _.
  - intros f p o n s c _ [Hf _] Hc Hl. cbn in *. rewrite Hf, Hc. eexists _, _. split; [done|]. unfold fs_read_file. rewrite length_take, length_drop. lia.
  - intros f p o d s _ [Hf [c Hc]]. cbn. rewrite Hf, Hc. by eexists.
Qed.

Section Reliable.
Context {S File IoError : Type} `{HF : FileSystem S File IoError} {HV : FsView S File} {FL : FileSystemLaws S File IoError} {RL : ReliableFs S File IoError}.
Implicit Types (s : S) (info : Info).

(** A region of valid files is accessed: the handle to its file. *)
Lemma region_opens info r (buf : list Z) s : fs_ok s -> files_valid info (fs_files s) -> region_ok (file_sizes info) (length buf) r ->
  exists f h s1 c, in_files info !! rg_file r = Some f /\ open_file (file_path info f) s = (inr h, s1) /\ fs_ok s1 /\
    handle_ok s1 h (file_path info f) /\ fs_files s1 !! name_of info f = Some c /\ (rg_offset r + (rg_end r - rg_begin r) <= length c)%nat.
Proof.
  intros Hok Hv (_ & size & Hsz & Hsize). destruct (in_files info !! rg_file r) as [f|] eqn:Ef; [|unfold file_sizes in Hsz; by rewrite list_lookup_fmap, Ef in Hsz].
  destruct (contents_lookup info (fs_files s) _ f Ef Hv) as (c & Hc & _ & Hcs). rewrite Hcs in Hsz. injection Hsz as <-.
  destruct (open_succeeds (file_path info f) s Hok) as (h & s1 & Eo). destruct (open_existing _ _ _ _ c Hok Hc Eo) as (Hok1 & Hf1 & Hh).
  exists f, h, s1, c. split_and!; try done. by rewrite Hf1.
Qed.

Lemma read_region_total info r buf s : fs_ok s -> files_valid info (fs_files s) -> region_ok (file_sizes info) (length buf) r ->
  exists x, region_step info read_callback r (buf, s) = (Ok tt, x).
Proof.
  intros Hok Hv Hr. destruct (region_opens info r buf s Hok Hv Hr) as (f & h & s1 & c & Ef & Eo & Hok1 & Hh & Hc & Hl). destruct Hr as ((Hb & He) & _).
  unfold region_step, st_bind, st_of, st_snd, io. rewrite Ef. cbn [or_panic]. rewrite Eo. unfold read_callback, st_bind, st_of, st_snd, io, buffer_range.
  rewrite (proj2 (Nat.leb_le _ _)), (proj2 (Nat.leb_le _ _)) by lia. cbn [andb].
  destruct (read_succeeds h (file_path info f) (Z.of_nat (rg_offset r)) (rg_end r - rg_begin r) s1 c Hok1 Hh Hc ltac:(lia)) as (d & s2 & Er & Hd).
  rewrite Er, Hd, Nat.eqb_refl. cbn. by eexists.
Qed.

Lemma write_region_total info r buf s : fs_ok s -> files_valid info (fs_files s) -> region_ok (file_sizes info) (length buf) r ->
  exists x, region_step info write_callback r (buf, s) = (Ok tt, x).
Proof.
  intros Hok Hv Hr. destruct (region_opens info r buf s Hok Hv Hr) as (f & h & s1 & c & Ef & Eo & Hok1 & Hh & Hc & Hl). destruct Hr as ((Hb & He) & _).
  unfold region_step, st_bind, st_of, st_snd, io. rewrite Ef. cbn [or_panic]. rewrite Eo. unfold write_callback, st_bind, st_of, st_snd, io, buffer_range.
  rewrite (proj2 (Nat.leb_le _ _)), (proj2 (Nat.leb_le _ _)) by lia. cbn [andb].
  destruct (write_succeeds h (file_path info f) (Z.of_nat (rg_offset r)) (slice buf (rg_begin r) (rg_end r)) s1 Hok1 Hh) as (s2 & Er).
  rewrite Er, length_slice, Nat.eqb_refl by lia. cbn. by eexists.
Qed.

Lemma for_read_total info rs : forall buf s, fs_ok s -> files_valid info (fs_files s) -> Forall (region_ok (file_sizes info) (length buf)) rs ->
  exists x, for_regions info read_callback rs (buf, s) = (Ok tt, x).
Proof.
  induction rs as [|r rs IH]; intros buf s Hok Hv Hrs; [by eexists|]. apply Forall_cons in Hrs as [Hr Hrs]. rewrite for_regions_cons. unfold st_bind.
  destruct (read_region_total info r buf s Hok Hv Hr) as [[buf1 s1] E1]. rewrite E1.
  destruct (read_region_step info r buf s _ _ _ Hok Hv Hr E1) as (Hok1 & Hf1 & Hl1 & _). apply IH; [done|by rewrite Hf1|by rewrite Hl1].
Qed.

Lemma for_write_total info rs : forall buf s, NoDup (names info) -> fs_ok s -> files_valid info (fs_files s) -> Forall (region_ok (file_sizes info) (length buf)) rs ->
  exists x, for_regions info write_callback rs (buf, s) = (Ok tt, x).
Proof.
  induction rs as [|r rs IH]; intros buf s Hnd Hok Hv Hrs; [by eexists|]. apply Forall_cons in Hrs as [Hr Hrs]. rewrite for_regions_cons. unfold st_bind.
  destruct (write_region_total info r buf s Hok Hv Hr) as [[buf1 s1] E1]. rewrite E1.
  destruct (write_region_step info r buf s _ _ _ Hnd Hok Hv Hr E1) as (Hok1 & Hv1 & -> & _). by apply IH.
Qed.

Context {HO : HashOrder nat (list BlockMetadata)} (sha1 : list Z -> list Z) (file : Metainfo) (Ht : torrent_ok file).
Abbreviation info := (mi_info file).
Abbreviation pl := (piece_length info).

(** The hashes of the torrent are hashes. *)
Context (Hhash : Forall (fun h => length h = SHA_HASH_LEN) (in_pieces info)).

(** A block of a piece is inside the data and its position fits 64 bits. *)
Lemma block_fits m : block_of (bm_piece_index m) (size_of_piece info (bm_piece_index m)) m ->
  (block_start pl m + bm_block_length m <= total_size info)%nat /\
  (2 ^ 64 <=? Z.of_nat (bm_piece_index m * pl + bm_block_offset m)) = false.
Proof.
  intros (_ & Hpos & Hfit). pose proof (tor_total _ Ht) as Htot. unfold size_of_piece, block_start in *. split; [lia|]. apply Z.leb_gt. lia.
Qed.

Lemma check_piece_total m t files : files_valid info files -> checking info files t -> (bm_piece_index m < length (in_pieces info))%nat ->
  block_of (bm_piece_index m) (size_of_piece info (bm_piece_index m)) m -> exists good t', check_piece sha1 info m t = (Ok good, t').
Proof.
  destruct t as [buf s]. intros Hv (Hok & Hf & Hl) Hlt Hb. cbn [fst snd] in *. destruct (block_fits m Hb) as [_ H64]. pose proof Hb as (_ & _ & Hfit).
  unfold check_piece. destruct (Nat.ltb_spec (length buf) (bm_block_length m)) as [Hn|Hn]; [unfold size_of_piece in Hfit; lia|].
  unfold accessor_read_piece, with_file_regions. rewrite H64.
  destruct (for_read_total info (run_with_file_regions pl (file_sizes info) m) (take (bm_block_length m) buf) s) as [[front s1] E1];
    [done|by rewrite Hf|apply regions_ok; rewrite length_take; lia|]. rewrite E1. cbn [res_bind].
  destruct (in_pieces info !! bm_piece_index m) as [h|] eqn:Eh; [|by apply lookup_ge_None in Eh; lia]. cbn [or_panic res_bind].
  rewrite (proj2 (ShaHash_from_hash_ok h (mkShaHash h))); [|split; [exact (Forall_lookup_1 _ _ _ _ Hhash Eh)|done]]. cbn. by eexists _, _.
Qed.

(** Writing a block puts its bytes in place. *)
Lemma write_piece_splice files (data : list Z) m : block_inside pl files m -> length data = bm_block_length m ->
  exists files', write_piece pl files data m = Ok files' /\ concat files' = splice (concat files) (block_start pl m) data.
Proof.
  intros Hin Hd. unfold block_inside in Hin. set (n := bm_block_length m) in *.
  destruct (write_regions data n ltac:(lia) files [] (block_start pl m) 0) as (files' & Hw & _ & Hc). exists files'. split; [exact Hw|].
  rewrite Hc. assert (reachable files (block_start pl m) 0 n = n) as -> by (unfold reachable; lia). f_equal. unfold slice. rewrite drop_0, take_ge by lia. done.
Qed.

Lemma write_total b s : fs_ok s -> files_valid info (fs_files s) -> block_for info b ->
  exists buf s', accessor_write_piece info (bk_metadata b) (bk_data b, s) = (Ok tt, (buf, s')) /\ fs_ok s' /\ files_valid info (fs_files s') /\
    concat (contents info (fs_files s')) = splice (concat (contents info (fs_files s))) (block_start pl (bk_metadata b)) (bk_data b).
Proof.
  intros Hok Hv (Hlt & Hb & Hlen). destruct (block_fits _ Hb) as [Hin H64].
  assert (exists x, accessor_write_piece info (bk_metadata b) (bk_data b, s) = (Ok tt, x)) as [[buf s'] Ew].
  { unfold accessor_write_piece, with_file_regions. rewrite H64. apply for_write_total; [by apply tor_names|done|done|apply regions_ok; lia]. }
  exists buf, s'. split; [done|]. apply accessor_write_ok in Ew as (Hok' & Hv' & _ & Hw); [|by apply tor_names|done|done|lia]. split_and!; [done|done|].
  destruct (write_piece_splice (contents info (fs_files s)) (bk_data b) (bk_metadata b)) as (files' & Hw' & Hc);
    [unfold block_inside; by rewrite (total_contents _ _ Hv)|done|]. specialize (Hw eq_refl). rewrite Hw' in Hw. by injection Hw as <-.
Qed.

(** ** One pass of the check *)

(** A piece that is not complete, so that it is passed over. *)
Definition idle (cs : PieceCheckerState) (k : nat) : Prop := forall messages, pending_blocks cs !! k = Some messages ->
  piece_is_complete (E := IoError) (total_blocks cs) (last_block_size cs) pl messages = Ok false.

Lemma check_idle cs k t : idle cs k -> check_entry (check_piece sha1 info) pl k (cs, t) = (Ok tt, (cs, t)).
Proof.
  intros Hi. unfold check_entry. destruct (pending_blocks cs !! k) as [messages|] eqn:E; [|done]. unfold st_bind, st_of. by rewrite (Hi messages E).
Qed.

Lemma check_all_idle cs order t : Forall (idle cs) order -> check_entries (check_piece sha1 info) pl order (cs, t) = (Ok tt, (cs, t)).
Proof. induction 1 as [|k order Hk _ IH]; [done|]. cbn [check_entries]. unfold st_bind. by rewrite (check_idle cs k t Hk). Qed.

Definition reported (cs : PieceCheckerState) (p : nat) (good : bool) : PieceCheckerState :=
  mkPieceCheckerState (new_states cs ++ [if good then GoodPiece p else BadPiece p]) (old_states cs) (<[p := []]> (pending_blocks cs)) (total_blocks cs) (last_block_size cs).

Lemma diff_idle cs s : (forall k, idle (merge_pieces cs) k) -> exists s', calculate_diff sha1 info (cs, s) = (Ok tt, (merge_pieces cs, s')) /\ s' = s.
Proof.
  intros Hi. pose proof (tor_piece_len _ Ht) as [_ Hmax]. exists s. split; [|done]. unfold calculate_diff. rewrite (proj2 (Z.ltb_ge _ _)) by done.
  unfold run_with_whole_pieces. rewrite check_all_idle; [done|]. apply Forall_forall. auto.
Qed.

Lemma order_split cs p m : pending_blocks cs !! p = Some [m] -> exists pre post, (hash_entries (pending_blocks cs)).*1 = pre ++ p :: post /\ p ∉ pre /\ p ∉ post.
Proof.
  intros Hp. assert (Hperm := hash_entries_perm (pending_blocks cs)). assert (Hnd : NoDup (hash_entries (pending_blocks cs)).*1) by (rewrite Hperm; apply NoDup_fst_map_to_list).
  assert (Hin : p ∈ (hash_entries (pending_blocks cs)).*1).
  { rewrite Hperm. apply list_elem_of_fmap. exists (p, [m]). split; [done|]. by apply elem_of_map_to_list. }
  apply list_elem_of_split in Hin as (pre & post & Eo). rewrite Eo in Hnd. exists pre, post. split; [done|].
  apply NoDup_app in Hnd as (_ & Hpre & Hpost). apply NoDup_cons in Hpost as [Hpost _]. split; [|done]. intros Hp'. apply (Hpre p Hp'). by left.
Qed.

Lemma diff_one cs s p m : let cs1 := merge_pieces cs in
  fs_ok s -> files_valid info (fs_files s) -> checker_ok info cs -> pending_blocks cs1 !! p = Some [m] -> bm_block_offset m = 0%nat -> bm_block_length m = size_of_piece info p ->
  piece_is_complete (E := IoError) (total_blocks cs) (last_block_size cs) pl [m] = Ok true -> GoodPiece p ∉ old_states cs ->
  (forall k, k <> p -> idle cs1 k) ->
  exists good s', calculate_diff sha1 info (cs, s) = (Ok tt, (reported cs1 p good, s')) /\ fs_ok s' /\ fs_files s' = fs_files s /\
    (good = true <-> piece_verified sha1 info (fs_files s) p (size_of_piece info p)).
Proof.
  intros cs1 Hok Hv Hc Hp Hoff Hlen Hcomp Hold Hi. pose proof (tor_piece_len _ Ht) as [_ Hmax].
  pose proof (proj2 (merged_blocks info cs Hc) p [m] Hp) as Hb. apply Forall_singleton in Hb as [Hlt Hb]. pose proof Hb as (Hidx & _ & _).
  set (t0 := (replicate pl 0, s)). assert (Ht0 : checking info (fs_files s) t0) by (split_and!; [done|done|apply length_replicate]).
  assert (Hcb : exists good t1, check_piece sha1 info m t0 = (Ok good, t1)) by (apply (check_piece_total m t0 (fs_files s)); rewrite ?Hidx; done). destruct Hcb as (good & t1 & Hcb).
  pose proof (check_piece_keeps sha1 info _ m t0 _ _ Hv Ht0 Hcb) as (Hok1 & Hf1 & _). exists good, t1.2.
  assert (Hin : block_inside pl (contents info (fs_files s)) m).
  { unfold block_inside, block_start. rewrite (total_contents _ _ Hv), Hoff, Hidx, Hlen. destruct Hb as (_ & Hpos & _). unfold size_of_piece in *. lia. }
  pose proof (check_piece_answer sha1 info _ m t0 good t1 Hv Ht0 Hoff Hin Hcb) as Hans. rewrite Hidx, Hlen in Hans. split_and!; [|done..].
  unfold calculate_diff. rewrite (proj2 (Z.ltb_ge _ _)) by done. unfold run_with_whole_pieces. fold cs1 t0.
  destruct (order_split cs1 p m Hp) as (pre & post & -> & Hpre & Hpost).
  assert (Happ : forall l k (x : PieceCheckerState * (list Z * S)), check_entries (check_piece sha1 info) pl (l ++ k) x =
    st_bind (check_entries (check_piece sha1 info) pl l) (fun _ => check_entries (check_piece sha1 info) pl k) x).
  { induction l as [|y l IHl]; intros k x; [done|]. cbn [app check_entries]. unfold st_bind at 1 3. unfold st_bind at 1.
    destruct (check_entry _ _ y x) as [[] x1]; done. }
  rewrite Happ. unfold st_bind. rewrite (check_all_idle cs1 pre t0); [|apply Forall_forall; intros k Hk; apply Hi; by intros ->].
  cbn [check_entries]. unfold st_bind at 1. assert (Hentry : check_entry (check_piece sha1 info) pl p (cs1, t0) = (Ok tt, (reported cs1 p good, t1))).
  { unfold check_entry. rewrite Hp. unfold st_bind, st_of. change (total_blocks cs1) with (total_blocks cs). change (last_block_size cs1) with (last_block_size cs).
    rewrite Hcomp. rewrite Hidx, bool_decide_false by done. unfold st_snd. rewrite Hcb. done. }
  rewrite Hentry. rewrite (check_all_idle (reported cs1 p good) post t1); [by destruct t1|]. apply Forall_forall. intros k Hk messages Hm.
  assert (k <> p) by (by intros ->). cbn in Hm. rewrite lookup_insert_ne in Hm by done. by apply (Hi k).
Qed.

(** A piece of which some byte is missing is not complete. *)
Lemma missing_idle cs k : (0 < length (in_pieces info))%nat -> checker_ok info cs ->
  (forall messages, pending_blocks cs !! k = Some messages -> messages <> [] -> exists x, (x < size_of_piece info k)%nat /\ ~ received messages x) -> idle cs k.
Proof.
  intros Hn Hc Hm messages Hl. destruct messages as [|m rest]; [done|]. destruct (Hm _ Hl ltac:(done)) as (x & Hx & Hr).
  pose proof (proj2 Hc k _ Hl) as Hb. apply Forall_cons in Hb as [[Hlt Hb] _]. pose proof (piece_size_for file cs k Ht (proj1 Hc) Hlt) as Hps.
  destruct (piece_is_complete (E := IoError) (total_blocks cs) (last_block_size cs) pl (m :: rest)) as [[]| | |] eqn:Ec; try done.
  2-4: unfold piece_is_complete in Ec; rewrite (proj1 (proj1 Hc)) in Ec; destruct (length (in_pieces info) =? 0)%nat eqn:E0; [apply Nat.eqb_eq in E0; lia|done].
  rewrite <- Hps in Hb. destruct (complete_whole cs pl k m rest (last_size_lt file cs Ht (proj1 Hc)) Hb Ec) as (-> & Hoff & Hlen).
  exfalso. apply Hr. exists m. split; [left|]. unfold holds. rewrite Hoff, Hlen, Hps. lia.
Qed.

(** No piece is empty. *)
Lemma piece_pos p : (p < length (in_pieces info))%nat -> (0 < size_of_piece info p)%nat.
Proof.
  pose proof (tor_pieces _ Ht) as Hn. pose proof (tor_piece_len _ Ht) as [Hpl _]. rewrite Hn. unfold size_of_piece. assert (0 < pl)%nat by (unfold piece_length; lia).
  intros Hp. assert (H1 : (pl * ((total_size info + pl - 1) / pl) <= total_size info + pl - 1)%nat) by (apply Nat.Div0.mul_div_le). nia.
Qed.

(** The block of a whole piece is complete. *)
Lemma whole_complete cs h p : state_for info cs -> (p < length (in_pieces info))%nat ->
  piece_is_complete (E := IoError) (total_blocks cs) (last_block_size cs) pl [BlockMetadata_new h p 0 (size_of_piece info p)] = Ok true.
Proof.
  intros Hs Hp. unfold piece_is_complete. rewrite (proj1 Hs). destruct (Nat.eqb_spec (length (in_pieces info)) 0); [lia|].
  cbn [length Nat.eqb bm_block_length bm_piece_index andb]. rewrite <- (piece_size_for file cs p Ht Hs Hp). unfold piece_size. rewrite (proj1 Hs).
  case_bool_decide as Hl; rewrite Nat.eqb_refl; [|done]. destruct Hl as [-> _]. rewrite Nat.eqb_refl. cbn. by rewrite orb_true_r.
Qed.

(** ** Adding the torrent *)

(** The files are absent, empty or of the right length. *)
Definition files_fit (files : gmap (list Z) (list Z)) (fl : list MetaFile) : Prop :=
  Forall (fun f => match files !! name_of info f with Some c => c = [] \/ length c = Z.to_nat (mf_len f) | None => True end) fl.

Lemma validate_file_total f s : 0 <= mf_len f -> fs_ok s -> files_fit (fs_files s) [f] -> exists s', validate_file_size info f s = (Ok tt, s').
Proof.
  intros Hpos Hok Hfit. apply Forall_inv in Hfit. unfold validate_file_size, st_bind, st_map_err, io.
  destruct (open_succeeds (file_path info f) s Hok) as (h & s1 & Eo). rewrite Eo. cbn [map_err].
  destruct (open_law _ _ _ _ Hok Eo) as [[Hok1 _] [Hh Hop]]. unfold opened in Hop. fold (name_of info f) in Hop.
  destruct (size_succeeds h _ s1 Hok1 Hh) as (n & s2 & Es). rewrite Es. cbn [map_err].
  destruct (size_law h _ _ _ _ Hok1 Hh Es) as ((Hok2 & Hk2) & _ & c & Hc & ->). fold (name_of info f) in Hc.
  assert (Hcase : c = [] \/ length c = Z.to_nat (mf_len f)).
  { revert Hc Hfit. rewrite Hop. destruct (fs_files s !! name_of info f) as [c0|] eqn:E; [rewrite E; intros [= <-] Hx; exact Hx|]. rewrite lookup_insert_eq. intros [= <-]. by left. }
  destruct (Z.eqb_spec (Z.of_nat (length c)) (mf_len f)) as [|Hne]; cbn [negb andb]; [by eexists|].
  destruct Hcase as [->|Hl]; [|lia]. change (Z.of_nat (length (@nil Z)) =? 0) with true. cbn iota beta.
  destruct (write_succeeds h (file_path info f) (mf_len f - 1) [0] s2 Hok2 (Hk2 _ _ Hh)) as (s3 & Ew). rewrite Ew. by eexists.
Qed.

Lemma validate_total fl : forall s, Forall (fun f => 0 <= mf_len f) fl -> NoDup (map (name_of info) fl) -> fs_ok s -> files_fit (fs_files s) fl ->
  exists s', validate_files_sizes info fl s = (Ok tt, s').
Proof.
  induction fl as [|f fl IH]; intros s Hpos Hnd Hok Hfit; [by eexists|]. apply Forall_cons in Hpos as [Hf Hpos], Hfit as [Hff Hfit].
  cbn [map] in Hnd. apply NoDup_cons in Hnd as [Hni Hnd]. cbn [validate_files_sizes]. unfold st_bind.
  destruct (validate_file_total f s Hf Hok ltac:(by constructor)) as (s1 & E1). rewrite E1.
  apply validate_file_ok in E1 as (Hok1 & Ho1 & _ & _); [|done|done]. apply IH; [done..|]. unfold files_fit in *. rewrite Forall_forall in *. intros g Hg.
  rewrite Ho1; [by apply Hfit|]. intros He. apply Hni. rewrite <- He. by apply list_elem_of_fmap_2.
Qed.

(** A state for a piece, as it is on disk. *)
Definition state_true files (k : nat) (state : PieceState) : Prop :=
  state = GoodPiece k /\ piece_verified sha1 info files k (size_of_piece info k) \/ state = BadPiece k /\ ~ piece_verified sha1 info files k (size_of_piece info k).

Lemma check_all_whole files order : forall cs t, files_valid info files -> checking info files t -> checker_ok info cs -> NoDup order ->
  Forall (fun k => (k < length (in_pieces info))%nat /\ pending_blocks cs !! k = Some [with_default_hash k 0 (size_of_piece info k)] /\ GoodPiece k ∉ old_states cs) order ->
  exists cs' t' added, check_entries (check_piece sha1 info) pl order (cs, t) = (Ok tt, (cs', t')) /\ checking info files t' /\
    new_states cs' = new_states cs ++ added /\ Forall2 (state_true files) order added /\ old_states cs' = old_states cs /\
    forall q, pending_blocks cs' !! q = if decide (q ∈ order) then Some [] else pending_blocks cs !! q.
Proof.
  induction order as [|k order IH]; intros cs t Hv Hck Hc Hnd Hall.
  { exists cs, t, []. rewrite app_nil_r. split_and!; done. }
  apply Forall_cons in Hall as [(Hlt & Hp & Hold) Hall]. apply NoDup_cons in Hnd as [Hni Hnd]. set (m := with_default_hash k 0 (size_of_piece info k)) in *.
  assert (Hbm : block_of (bm_piece_index m) (size_of_piece info (bm_piece_index m)) m) by (split; [done|]; split; [by apply piece_pos|done]).
  destruct (check_piece_total m t files Hv Hck Hlt Hbm) as (good & t1 & Ecb). pose proof (check_piece_keeps sha1 info files m t _ _ Hv Hck Ecb) as Hck1.
  assert (Hin : block_inside pl (contents info files) m).
  { unfold block_inside, block_start. rewrite (total_contents _ _ Hv). pose proof (piece_pos k Hlt). cbn. unfold size_of_piece in *. lia. }
  pose proof (check_piece_answer sha1 info files m t good t1 Hv Hck eq_refl Hin Ecb) as Hans. cbn [bm_piece_index bm_block_length m with_default_hash] in Hans.
  assert (Ee : check_entry (check_piece sha1 info) pl k (cs, t) = (Ok tt, (reported cs k good, t1))).
  { assert (Hw : piece_is_complete (E := IoError) (total_blocks cs) (last_block_size cs) pl [m] = Ok true) by exact (whole_complete cs _ k (proj1 Hc) Hlt).
    unfold check_entry. rewrite Hp. unfold st_bind, st_of. rewrite Hw. change (bm_piece_index m) with k.
    rewrite bool_decide_false by done. unfold st_snd. by rewrite Ecb. }
  destruct (IH (reported cs k good) t1 Hv Hck1) as (cs' & t' & added & E & Hck' & Hnew & Hadd & Ho & Hpd); [|done| |].
  - split; [apply Hc|]. intros q messages Hq. cbn in Hq. destruct (decide (q = k)) as [->|]; [rewrite lookup_insert_eq in Hq; by injection Hq as <-|]. rewrite lookup_insert_ne in Hq by done. by apply (proj2 Hc).
  - apply Forall_forall. intros q Hq. rewrite Forall_forall in Hall. destruct (Hall q Hq) as (H1 & H2 & H3). split_and!; [done| |done]. cbn. rewrite lookup_insert_ne; [done|]. intros <-. done.
  - exists cs', t', ((if good then GoodPiece k else BadPiece k) :: added). cbn [check_entries]. unfold st_bind. rewrite Ee, E. split_and!; try done.
    + rewrite Hnew. cbn. by rewrite <- app_assoc.
    + constructor; [|done]. destruct good; [left; split; [done|by apply Hans]|right; split; [done|]]. by intros ?%Hans.
    + intros q. rewrite Hpd. cbn. destruct (decide (q = k)) as [->|Hne].
      * rewrite lookup_insert_eq. rewrite (decide_True (P := k ∈ k :: order)) by left. by destruct (decide (k ∈ order)).
      * rewrite lookup_insert_ne by done. destruct (decide (q ∈ order)), (decide (q ∈ k :: order)); try done; set_solver.
Qed.

Definition whole_block (p : nat) : BlockMetadata := with_default_hash p 0 (size_of_piece info p).

Lemma whole_blocks_seq : whole_blocks info = map whole_block (seq 0 (length (in_pieces info))).
Proof.
  pose proof (tor_pieces _ Ht) as Hn. pose proof (tor_piece_len _ Ht) as [Hpl _]. rewrite Hn. unfold whole_blocks, last_piece_size, whole_block, size_of_piece. fold (total_size info).
  assert (0 < pl)%nat by (unfold piece_length; lia). set (tot := total_size info). pose proof (Nat.div_mod_eq tot pl) as Hd. pose proof (Nat.mod_upper_bound tot pl ltac:(lia)) as Hm.
  set (q := (tot / pl)%nat) in *. set (rm := (tot mod pl)%nat) in *.
  assert (Hfull : map (fun p => with_default_hash p 0 pl) (seq 0 q) = map (fun p => with_default_hash p 0 (Nat.min pl (tot - p * pl))) (seq 0 q)).
  { apply map_ext_in. intros p Hp%in_seq. f_equal. nia. }
  rewrite Hfull. destruct (Nat.eqb_spec rm 0) as [Hr|Hr]; cbn [negb].
  - rewrite app_nil_r. f_equal. f_equal. apply (Nat.div_unique _ _ _ (pl - 1)); lia.
  - assert (((tot + pl - 1) / pl)%nat = (q + 1)%nat) as -> by (symmetry; apply (Nat.div_unique _ _ _ (rm - 1)); lia).
    rewrite seq_app, map_app. cbn. do 2 f_equal. f_equal. lia.
Qed.

Lemma filled_pending n : forall cs, (forall p, pending_blocks cs !! p = None) ->
  let cs' := foldl add_pending_block cs (map whole_block (seq 0 n)) in
  new_states cs' = new_states cs /\ old_states cs' = old_states cs /\ total_blocks cs' = total_blocks cs /\ last_block_size cs' = last_block_size cs /\
  forall p, pending_blocks cs' !! p = if decide (p < n)%nat then Some [whole_block p] else None.
Proof.
  induction n as [|n IH]; intros cs Hp; [done|]. rewrite seq_S, map_app, foldl_app. destruct (IH cs Hp) as (H1 & H2 & H3 & H4 & H5). cbn [map foldl Nat.add].
  set (cs1 := foldl add_pending_block cs (map whole_block (seq 0 n))) in *. split_and!; try done. intros p. cbn. change (bm_piece_index (whole_block n)) with n. rewrite (H5 n).
  destruct (decide (n < n)%nat); [lia|]. cbn. destruct (decide (p = n)) as [->|Hne].
  - rewrite lookup_insert_eq. by destruct (decide (n < Datatypes.S n)%nat); [|lia].
  - rewrite lookup_insert_ne by done. rewrite H5. destruct (decide (p < n)%nat), (decide (p < Datatypes.S n)%nat); done || lia.
Qed.

(** The torrent is examined: every piece is checked. *)
Lemma init_total s : fs_ok s -> files_fit (fs_files s) (in_files info) ->
  exists cs s' order, init_state sha1 info s = (Ok cs, s') /\ fs_ok s' /\ files_valid info (fs_files s') /\ checker_ok info cs /\ old_states cs = ∅ /\
    (forall p, default [] (pending_blocks cs !! p) = []) /\ order ≡ₚ seq 0 (length (in_pieces info)) /\ Forall2 (state_true (fs_files s')) order (new_states cs).
Proof.
  intros Hok Hfit. pose proof (tor_piece_len _ Ht) as [Hpl Hmax]. destruct (validate_total (in_files info) s) as (s1 & Ev); [exact (tor_lengths _ Ht)|exact (tor_names _ Ht)|done|done|].
  pose proof Ev as Ev'. apply validate_files_ok in Ev' as (Hok1 & _ & _ & Hv1); [|exact (tor_lengths _ Ht)|exact (tor_names _ Ht)|done]. specialize (Hv1 eq_refl). apply valid_of_files in Hv1.
  set (cs0 := PieceCheckerState_new (length (in_pieces info)) (last_piece_size pl (file_sizes info))).
  assert (E0 : checked_last_piece_size (E := TorrentError IoError) info = Ok (last_piece_size pl (file_sizes info))).
  { unfold checked_last_piece_size. pose proof (tor_total _ Ht) as Htot. unfold total_size in Htot. rewrite (proj2 (Z.leb_gt _ _)) by done.
    destruct (Nat.eqb_spec pl 0); [unfold piece_length in *; lia|done]. }
  set (cs1 := foldl add_pending_block cs0 (map whole_block (seq 0 (length (in_pieces info))))).
  destruct (filled_pending (length (in_pieces info)) cs0) as (Hn & Ho & Htb & Hlb & Hp); [intros p; apply lookup_empty|]. fold cs1 in Hn, Ho, Htb, Hlb, Hp.
  assert (Hc1 : checker_ok info cs1).
  { unfold cs1. rewrite <- whole_blocks_seq. apply add_blocks_ok; [|by apply whole_blocks_ok]. split; [done|]. intros p messages Hq. unfold cs0 in Hq. cbn in Hq. by rewrite lookup_empty in Hq. }
  set (cs2 := merge_pieces cs1). assert (Hp2 : forall p, pending_blocks cs2 !! p = if decide (p < length (in_pieces info))%nat then Some [whole_block p] else None).
  { intros p. unfold cs2. cbn. rewrite lookup_fmap, Hp. by destruct (decide _). }
  set (order := (hash_entries (pending_blocks cs2)).*1). assert (Hperm : order ≡ₚ (map_to_list (pending_blocks cs2)).*1) by (unfold order; by rewrite hash_entries_perm).
  assert (Hnd : NoDup order) by (rewrite Hperm; apply NoDup_fst_map_to_list).
  assert (Hmem : forall k, k ∈ order <-> (k < length (in_pieces info))%nat).
  { intros k. rewrite Hperm, list_elem_of_fmap. split.
    - intros ([k' l] & -> & Hkl%elem_of_map_to_list). rewrite Hp2 in Hkl. cbn. by destruct (decide _).
    - intros Hk. exists (k, [whole_block k]). split; [done|]. apply elem_of_map_to_list. rewrite Hp2. by destruct (decide _). }
  destruct (check_all_whole (fs_files s1) order cs2 (replicate pl 0, s1)) as (cs' & t' & added & Ec & (Hok' & Hf' & _) & Hnew & Hadd & Hold & Hpend); [done| |by apply merged_blocks|done| |].
  { split_and!; [done|done|apply length_replicate]. }
  { apply Forall_forall. intros k Hk%Hmem. split_and!; [done|rewrite Hp2; by destruct (decide _)|]. unfold cs2. cbn. rewrite Ho. apply not_elem_of_empty. }
  assert (Ed : calculate_diff sha1 info (cs1, s1) = (Ok tt, (cs', t'.2))).
  { unfold calculate_diff. rewrite (proj2 (Z.ltb_ge _ _)) by done. unfold run_with_whole_pieces. fold cs2 order. rewrite Ec. by destruct t'. }
  exists cs', t'.2, order. split_and!.
  - unfold init_state, st_bind. cbn [st_of]. rewrite E0, Ev. fold cs0. rewrite fill_blocks, whole_blocks_seq. fold cs1. rewrite Ed. done.
  - done.
  - by rewrite Hf'.
  - apply (diff_checked sha1 file) in Ed; [apply Ed|done|done|done|done].
  - rewrite Hold. unfold cs2. cbn. by rewrite Ho.
  - intros p. rewrite Hpend. destruct (decide (p ∈ order)) as [|Hni]; [done|]. rewrite Hp2. destruct (decide _); [|done]. destruct Hni. by apply Hmem.
  - apply NoDup_Permutation; [done|apply NoDup_seq|]. intros k. rewrite Hmem, elem_of_seq. lia.
  - rewrite Hf', Hnew. unfold cs2. cbn. rewrite Hn. done.
Qed.

(** ** Processing the blocks of a torrent *)

(** The data the torrent describes. *)
Context (target : list Z) (Htarget : length target = total_size info).
Definition target_piece (p : nat) : list Z := slice target (p * pl) (p * pl + size_of_piece info p).
Context (Hverify : forall p h, in_pieces info !! p = Some h -> ShaHash_from_hash h = Ok (ShaHash_from_bytes sha1 (target_piece p))).

(** The pieces to download and how each is cut. *)
Context (todo : list nat) (Hnodup : NoDup todo) (Htodo : Forall (fun p => (p < length (in_pieces info))%nat) todo).
Context (lens : nat -> list nat) (Hlens : forall p, p ∈ todo -> Forall (fun n => 0 < n)%nat (lens p) /\ sum_list (lens p) = size_of_piece info p).
Abbreviation hash := (file_hash file).

Definition of_piece (p : nat) (l : list BlockMetadata) : list BlockMetadata := List.filter (fun m => (bm_piece_index m =? p)%nat) l.

(** Blocks of which no byte is in two. *)
Definition blocks_apart (l : list BlockMetadata) : Prop :=
  Forall (fun m => bm_info_hash m = hash /\ bm_piece_index m ∈ todo /\ block_of (bm_piece_index m) (size_of_piece info (bm_piece_index m)) m) l /\
  forall p x, p ∈ todo -> (cover (of_piece p l) x <= 1)%nat.

(** Whether every byte of a piece is in some block. *)
Definition all_there (p : nat) (l : list BlockMetadata) : bool := forallb (fun x => (1 <=? cover (of_piece p l) x)%nat) (seq 0 (size_of_piece info p)).

Lemma of_piece_app p l k : of_piece p (l ++ k) = of_piece p l ++ of_piece p k.
Proof. apply List.filter_app. Qed.
Lemma of_piece_one p m : of_piece p [m] = if (bm_piece_index m =? p)%nat then [m] else [].
Proof. done. Qed.
Lemma of_piece_other p l m : bm_piece_index m <> p -> of_piece p (l ++ [m]) = of_piece p l.
Proof. intros Hne. rewrite of_piece_app, of_piece_one. destruct (Nat.eqb_spec (bm_piece_index m) p); [done|]. apply app_nil_r. Qed.
Lemma of_piece_same l m : of_piece (bm_piece_index m) (l ++ [m]) = of_piece (bm_piece_index m) l ++ [m].
Proof. by rewrite of_piece_app, of_piece_one, Nat.eqb_refl. Qed.

Lemma all_there_spec p l : all_there p l = true <-> forall x, (x < size_of_piece info p)%nat -> (1 <= cover (of_piece p l) x)%nat.
Proof.
  unfold all_there. rewrite forallb_forall. split; intros H x Hx.
  - apply Nat.leb_le, H. apply in_seq. lia.
  - apply Nat.leb_le, H. apply in_seq in Hx. lia.
Qed.
Lemma not_all_there p l : all_there p l = false -> exists x, (x < size_of_piece info p)%nat /\ cover (of_piece p l) x = 0%nat.
Proof.
  intros Hf. destruct (decide (Forall (fun x => (1 <= cover (of_piece p l) x)%nat) (seq 0 (size_of_piece info p)))) as [Hall|Hex].
  - exfalso. assert (all_there p l = true); [|congruence]. apply all_there_spec. intros x Hx. rewrite Forall_forall in Hall. apply Hall, elem_of_seq. lia.
  - apply not_Forall_Exists in Hex; [|apply _]. apply Exists_exists in Hex as (x & Hx%elem_of_seq & Hc). exists x. unfold compose in Hc. lia.
Qed.

(** The bytes of the blocks are those of the target, the others are those of before. *)
Context (before : list Z).
Definition data_there (got : list BlockMetadata) (files : gmap (list Z) (list Z)) : Prop := forall x,
  (forall m, m ∈ got -> (block_start pl m <= x < block_start pl m + bm_block_length m)%nat -> concat (contents info files) !! x = target !! x) /\
  ((forall m, m ∈ got -> ~ (block_start pl m <= x < block_start pl m + bm_block_length m)%nat) -> concat (contents info files) !! x = before !! x).

(** The state after the blocks [got] have been processed. *)
Record downloaded (got : list BlockMetadata) (cs : PieceCheckerState) (s : S) : Prop := {
  dl_fs : fs_ok s;
  dl_files : files_valid info (fs_files s);
  dl_checker : checker_ok info cs;
  dl_new : new_states cs = [];
  dl_data : data_there got (fs_files s);
  dl_other : forall p, p ∉ todo -> default [] (pending_blocks cs !! p) = [];
  dl_done : forall p, p ∈ todo -> all_there p got = true -> default [] (pending_blocks cs !! p) = [];
  dl_open : forall p, p ∈ todo -> all_there p got = false -> GoodPiece p ∉ old_states cs /\
    Forall (fun m => bm_info_hash m = hash) (default [] (pending_blocks cs !! p)) /\
    forall x, cover (default [] (pending_blocks cs !! p)) x = cover (of_piece p got) x
}.

(** Reading back what was written. *)
Lemma splice_lookup (l d : list Z) i x : (i + length d <= length l)%nat ->
  splice l i d !! x = if decide (i <= x < i + length d)%nat then d !! (x - i)%nat else l !! x.
Proof.
  intros Hl. unfold splice. destruct (decide (x < i)%nat) as [Hlt|].
  - rewrite lookup_app_l by (rewrite length_take; lia). rewrite lookup_take_lt by lia. destruct (decide _); [lia|done].
  - rewrite lookup_app_r by (rewrite length_take; lia). rewrite length_take, Nat.min_l by lia. destruct (decide _).
    + by rewrite lookup_app_l by lia.
    + rewrite lookup_app_r by lia. rewrite lookup_drop. f_equal. lia.
Qed.

(** A block of the torrent with the bytes of the target. *)
Definition target_block (b : Block) : Prop := let m := bk_metadata b in
  bk_data b = slice target (block_start pl m) (block_start pl m + bm_block_length m).

Lemma apart_block_for got b : blocks_apart (got ++ [bk_metadata b]) -> target_block b -> block_for info b /\ bm_info_hash (bk_metadata b) = hash /\ bm_piece_index (bk_metadata b) ∈ todo.
Proof.
  intros [Hf _] Hb. apply Forall_app in Hf as [_ Hm]. apply Forall_singleton in Hm as (Hh & Hin & Hbl). split_and!; [|done|done].
  rewrite Forall_forall in Htodo. split; [by apply Htodo|]. split; [done|]. unfold target_block in Hb. rewrite Hb. destruct (block_fits _ Hbl) as [Hfit _].
  rewrite length_slice; lia.
Qed.

(** The piece of a new block was not complete before. *)
Lemma new_block_open got m : blocks_apart (got ++ [m]) -> bm_piece_index m ∈ todo -> all_there (bm_piece_index m) got = false.
Proof.
  intros [Hf Hc] Hin. destruct (all_there (bm_piece_index m) got) eqn:E; [|done]. exfalso. apply Forall_app in Hf as [_ Hm]. apply Forall_singleton in Hm as (_ & _ & _ & Hpos & Hfit).
  specialize (Hc _ (bm_block_offset m) Hin). rewrite of_piece_same, cover_app, cover_cons in Hc.
  assert (holdsb (bm_block_offset m) m = true) as Hh by (apply holdsb_spec; unfold holds; lia). rewrite Hh in Hc.
  apply all_there_spec with (x := bm_block_offset m) in E; lia.
Qed.

(** The pending blocks once the new block is noted. *)
Lemma pending_added got cs s m p : downloaded got cs s -> blocks_apart (got ++ [m]) -> p ∈ todo -> bm_piece_index m ∈ todo ->
  (all_there p got = true /\ p <> bm_piece_index m \/ all_there p got = false) ->
  let l := default [] (pending_blocks (add_pending_block cs m) !! p) in
  (all_there p got = true -> l = []) /\ (all_there p got = false -> GoodPiece p ∉ old_states cs /\
    Forall (fun m => bm_info_hash m = hash) l /\ forall x, cover l x = cover (of_piece p (got ++ [m])) x).
Proof.
  intros Hd Hap Hp Hm Hcase l. unfold l. cbn. destruct (decide (p = bm_piece_index m)) as [->|Hne].
  - rewrite lookup_insert_eq. cbn [default from_option id]. destruct Hcase as [[_ Hne]|Ho]; [done|]. rewrite Ho. split; [done|]. intros _.
    destruct (dl_open _ _ _ Hd _ Hp Ho) as (H1 & H2 & H3). split_and!; [done| |].
    + apply Forall_app. split; [done|]. apply Forall_singleton. destruct Hap as [Hf _]. apply Forall_app in Hf as [_ Hf]. by apply Forall_singleton in Hf as [? _].
    + intros x. by rewrite of_piece_same, !cover_app, H3.
  - rewrite lookup_insert_ne, of_piece_other by done. split; [by apply (dl_done _ _ _ Hd)|by apply (dl_open _ _ _ Hd)].
Qed.

Lemma data_written got b files files' : data_there got files -> files_valid info files -> block_for info b -> target_block b ->
  concat (contents info files') = splice (concat (contents info files)) (block_start pl (bk_metadata b)) (bk_data b) ->
  data_there (got ++ [bk_metadata b]) files'.
Proof.
  intros Hd Hv (_ & Hbl & Hlen) Hb Hc x. destruct (block_fits _ Hbl) as [Hfit _]. unfold target_block in Hb. set (m0 := bk_metadata b) in *.
  rewrite Hc, splice_lookup by (rewrite (total_contents _ _ Hv); lia). destruct (Hd x) as [Hin Hout]. split.
  - intros m Hm Hx. destruct (decide _) as [Hr|Hr].
    + rewrite Hb. unfold slice. rewrite lookup_take_lt by lia. rewrite lookup_drop. f_equal. lia.
    + apply elem_of_app in Hm as [Hm|Hm%list_elem_of_singleton]; [by apply (Hin m)|]. subst m. lia.
  - intros Hno. destruct (decide _) as [Hr|Hr]; [destruct (Hno m0); [set_solver|lia]|]. apply Hout. intros m Hm. apply Hno. set_solver.
Qed.

(** A piece of which all blocks are there is the piece of the target. *)
Lemma data_piece got files p : data_there got files -> files_valid info files -> (p < length (in_pieces info))%nat -> all_there p got = true ->
  piece_bytes info files p (size_of_piece info p) = target_piece p.
Proof.
  intros Hd Hv Hp Ha. unfold piece_bytes, target_piece, slice. replace (p * pl + size_of_piece info p - p * pl)%nat with (size_of_piece info p) by lia.
  apply list_eq. intros x. destruct (decide (x < size_of_piece info p)%nat) as [Hx|Hx].
  - rewrite !lookup_take_lt, !lookup_drop by lia. rewrite all_there_spec in Ha. specialize (Ha x Hx).
    assert (received (of_piece p got) x) as (m & Hm & Hh) by (apply cover_pos; lia). apply list_elem_of_In, filter_In in Hm as [Hm Hidx].
    apply Nat.eqb_eq in Hidx. apply (proj1 (Hd _) m); [by apply list_elem_of_In|]. unfold block_start, holds in *. rewrite Hidx. lia.
  - rewrite !lookup_take_ge by lia. done.
Qed.

Lemma merged_default cs p : default [] (pending_blocks (merge_pieces cs) !! p) = merge_messages (default [] (pending_blocks cs !! p)).
Proof. cbn. rewrite lookup_fmap. by destruct (pending_blocks cs !! p). Qed.

(** Pieces other than a completed one are passed over. *)
Lemma others_idle got cs s m k : downloaded got cs s -> blocks_apart (got ++ [m]) -> bm_piece_index m ∈ todo -> checker_ok info (add_pending_block cs m) ->
  (k = bm_piece_index m -> all_there k (got ++ [m]) = false) -> idle (merge_pieces (add_pending_block cs m)) k.
Proof.
  intros Hd Hap Hm Hck Hk. rewrite Forall_forall in Htodo. pose proof (Htodo _ Hm) as Hlt. apply missing_idle; [lia|by apply merged_blocks|].
  intros messages Hl Hne. assert (Hl' : default [] (pending_blocks (merge_pieces (add_pending_block cs m)) !! k) = messages) by (by rewrite Hl). rewrite merged_default in Hl'.
  destruct (decide (k ∈ todo)) as [Hin|Hni].
  - destruct (all_there k got) eqn:Ea.
    + destruct (decide (k = bm_piece_index m)) as [->|Hkm]; [by rewrite (new_block_open got m Hap Hm) in Ea|].
      destruct (pending_added got cs s m k Hd Hap Hin Hm (or_introl (conj Ea Hkm))) as [Hnil _]. rewrite (Hnil Ea) in Hl'. by subst messages.
    + destruct (pending_added got cs s m k Hd Hap Hin Hm (or_intror Ea)) as [_ Hopen]. destruct (Hopen Ea) as (_ & _ & Hcov).
      assert (Hmiss : all_there k (got ++ [m]) = false).
      { destruct (decide (k = bm_piece_index m)) as [->|Hkm]; [by apply Hk|]. unfold all_there in *. by rewrite of_piece_other. }
      apply not_all_there in Hmiss as (x & Hx & H0). exists x. split; [done|]. rewrite <- cover_pos, <- Hl'.
      rewrite (proj1 (merge_messages_cover _ (fun y => eq_ind_r (fun c => (c <= 1)%nat) (proj2 Hap k y Hin) (Hcov y)))), Hcov. lia.
  - exfalso. apply Hne. rewrite <- Hl'. cbn. rewrite lookup_insert_ne by (intros <-; done). by rewrite (dl_other _ _ _ Hd k Hni).
Qed.

(** What the loop leaves pending when no piece, or one, was complete. *)
Lemma downloaded_idle got cs s s' m : downloaded got cs s -> blocks_apart (got ++ [m]) -> bm_piece_index m ∈ todo ->
  all_there (bm_piece_index m) (got ++ [m]) = false -> checker_ok info (merge_pieces (add_pending_block cs m)) ->
  fs_ok s' -> files_valid info (fs_files s') -> data_there (got ++ [m]) (fs_files s') ->
  downloaded (got ++ [m]) (run_with_diff (merge_pieces (add_pending_block cs m))).2 s'.
Proof.
  intros Hd Hap Hm Hno Hck Hok Hv Hdata. assert (Hnew : new_states (merge_pieces (add_pending_block cs m)) = []) by apply (dl_new _ _ _ Hd).
  assert (Hall : forall q, q <> bm_piece_index m -> all_there q (got ++ [m]) = all_there q got) by (intros q Hq; unfold all_there; by rewrite of_piece_other).
  split; try done.
  - intros q Hq. change (default [] (pending_blocks (merge_pieces (add_pending_block cs m)) !! q) = []). rewrite merged_default. cbn.
    rewrite lookup_insert_ne by (intros <-; done). by rewrite (dl_other _ _ _ Hd q Hq).
  - intros q Hq Ha. destruct (decide (q = bm_piece_index m)) as [->|Hne]; [congruence|]. rewrite Hall in Ha by done.
    change (default [] (pending_blocks (merge_pieces (add_pending_block cs m)) !! q) = []). rewrite merged_default.
    destruct (pending_added got cs s m q Hd Hap Hq Hm (or_introl (conj Ha Hne))) as [Hnil _]. by rewrite (Hnil Ha).
  - intros q Hq Ha. assert (Hag : all_there q got = false) by (destruct (decide (q = bm_piece_index m)) as [->|Hne]; [by apply new_block_open|by rewrite <- Hall]).
    destruct (pending_added got cs s m q Hd Hap Hq Hm (or_intror Hag)) as [_ Hopen]. destruct (Hopen Hag) as (H1 & H2 & H3).
    change (old_states (run_with_diff (merge_pieces (add_pending_block cs m))).2) with (foldl (fun old st => {[st]} ∪ old) (old_states cs) (new_states cs)).
    rewrite (dl_new _ _ _ Hd). split; [done|]. change (pending_blocks (run_with_diff (merge_pieces (add_pending_block cs m))).2) with (pending_blocks (merge_pieces (add_pending_block cs m))).
    rewrite merged_default. destruct (merge_messages_cover (default [] (pending_blocks (add_pending_block cs m) !! q))) as [Hc Hh]; [intros x; rewrite H3; by apply (proj2 Hap)|].
    split; [by apply Hh|]. intros x. by rewrite Hc, H3.
Qed.

Lemma downloaded_reported got cs s s' m : downloaded got cs s -> blocks_apart (got ++ [m]) -> bm_piece_index m ∈ todo ->
  checker_ok info (merge_pieces (add_pending_block cs m)) -> fs_ok s' -> files_valid info (fs_files s') -> data_there (got ++ [m]) (fs_files s') ->
  all_there (bm_piece_index m) (got ++ [m]) = true ->
  downloaded (got ++ [m]) (run_with_diff (reported (merge_pieces (add_pending_block cs m)) (bm_piece_index m) true)).2 s'.
Proof.
  intros Hd Hap Hm Hck Hok Hv Hdata Hyes. set (cs3 := merge_pieces (add_pending_block cs m)) in *. set (p := bm_piece_index m) in *.
  assert (Hall : forall q, q <> p -> all_there q (got ++ [m]) = all_there q got) by (intros q Hq; unfold all_there; by rewrite of_piece_other).
  assert (Hpend : forall q, default [] (pending_blocks (run_with_diff (reported cs3 p true)).2 !! q) = if decide (q = p) then [] else default [] (pending_blocks cs3 !! q)).
  { intros q. cbn. destruct (decide (q = p)) as [->|]; [by rewrite lookup_insert_eq|by rewrite lookup_insert_ne]. }
  assert (Hold : old_states (run_with_diff (reported cs3 p true)).2 = {[GoodPiece p]} ∪ old_states cs).
  { cbn. rewrite (dl_new _ _ _ Hd). done. }
  split; try done.
  - split; [apply Hck|]. intros q messages Hq. cbn in Hq. destruct (decide (q = p)) as [->|]; [rewrite lookup_insert_eq in Hq; by injection Hq as <-|].
    rewrite lookup_insert_ne in Hq by done. by apply (proj2 Hck).
  - intros q Hq. rewrite Hpend. destruct (decide (q = p)); [done|]. unfold cs3. rewrite merged_default. cbn. rewrite lookup_insert_ne by (intros <-; done). by rewrite (dl_other _ _ _ Hd q Hq).
  - intros q Hq Ha. rewrite Hpend. destruct (decide (q = p)) as [->|Hne]; [done|]. rewrite Hall in Ha by done. unfold cs3. rewrite merged_default.
    destruct (pending_added got cs s m q Hd Hap Hq Hm (or_introl (conj Ha Hne))) as [Hnil _]. by rewrite (Hnil Ha).
  - intros q Hq Ha. destruct (decide (q = p)) as [->|Hne]; [congruence|]. rewrite Hall in Ha by done. rewrite Hpend, Hold. destruct (decide (q = p)); [done|].
    destruct (pending_added got cs s m q Hd Hap Hq Hm (or_intror Ha)) as [_ Hopen]. destruct (Hopen Ha) as (H1 & H2 & H3). split; [set_solver|]. unfold cs3. rewrite merged_default.
    destruct (merge_messages_cover (default [] (pending_blocks (add_pending_block cs m) !! q))) as [Hc Hh]; [intros x; rewrite H3; by apply (proj2 Hap)|].
    split; [by apply Hh|]. intros x. by rewrite Hc, H3.
Qed.

(** The pending blocks of a piece that is all there merge into the whole piece. *)
Lemma whole_pending got cs s m : downloaded got cs s -> blocks_apart (got ++ [m]) -> bm_piece_index m ∈ todo -> checker_ok info (add_pending_block cs m) ->
  all_there (bm_piece_index m) (got ++ [m]) = true ->
  pending_blocks (merge_pieces (add_pending_block cs m)) !! bm_piece_index m =
    Some [BlockMetadata_new hash (bm_piece_index m) 0 (size_of_piece info (bm_piece_index m))].
Proof.
  intros Hd Hap Hm Hck Hyes. set (p := bm_piece_index m) in *. pose proof (new_block_open got m Hap Hm) as Hopen.
  destruct (pending_added got cs s m p Hd Hap Hm Hm (or_intror Hopen)) as [_ Ho]. destruct (Ho Hopen) as (_ & Hh & Hcov).
  assert (Hp : exists l, pending_blocks (add_pending_block cs m) !! p = Some l /\ default [] (pending_blocks (add_pending_block cs m) !! p) = l).
  { cbn. rewrite lookup_insert_eq. by eexists. }
  destruct Hp as (l & El & Ed). rewrite Ed in Hh, Hcov. cbn. rewrite lookup_fmap. cbn in El. rewrite El. cbn. f_equal.
  pose proof (proj2 Hck p l El) as Hb. pose proof Hap as [Hall Hle]. apply Forall_app in Hall as [_ Hsm]. apply Forall_singleton in Hsm as (_ & _ & _ & Hpos & Hfit).
  assert (Hin : forall m', m' ∈ l -> bm_info_hash m' = hash /\ block_of p (size_of_piece info p) m').
  { intros m' Hm'. rewrite Forall_forall in Hh, Hb. split; [by apply Hh|by apply Hb]. }
  apply covered_merges.
  - fold p in Hfit. lia.
  - apply Forall_forall. intros m' Hm'. destruct (Hin m' Hm') as (? & ? & ? & ?). done.
  - intros x. rewrite Hcov. specialize (Hle p x Hm). rewrite all_there_spec in Hyes. destruct (decide _) as [Hx|Hx]; [specialize (Hyes x Hx); lia|].
    destruct (decide (cover (of_piece p (got ++ [m])) x = 0%nat)) as [|Hne]; [done|]. exfalso.
    assert (received l x) as (m' & Hm' & Hh') by (apply cover_pos; rewrite Hcov; lia). destruct (Hin m' Hm') as (_ & _ & _ & Hf'). unfold holds in Hh'. lia.
Qed.

Lemma process_downloaded got cs s b : let m := bk_metadata b in let p := bm_piece_index m in
  downloaded got cs s -> blocks_apart (got ++ [m]) -> target_block b ->
  exists cs' s', write_and_check sha1 info b (cs, s) = (Ok tt, (cs', s')) /\
    new_states cs' = (if all_there p (got ++ [m]) then [GoodPiece p] else []) /\ downloaded (got ++ [m]) (run_with_diff cs').2 s'.
Proof.
  intros m p Hd Hap Hb. destruct (apart_block_for got b Hap Hb) as (Hbf & Hh & Hin). fold m p in Hh, Hin.
  destruct (write_total b s (dl_fs _ _ _ Hd) (dl_files _ _ _ Hd) Hbf) as (buf & s1 & Ew & Hok1 & Hv1 & Hc1).
  assert (Hdata : data_there (got ++ [m]) (fs_files s1)) by (eapply data_written; [exact (dl_data _ _ _ Hd)|exact (dl_files _ _ _ Hd)|done..]).
  assert (Hck : checker_ok info (add_pending_block cs m)) by (apply add_pending_ok; [exact (dl_checker _ _ _ Hd)|apply Hbf..]).
  pose proof (merged_blocks info _ Hck) as Hckm. unfold write_and_check. fold m in Ew. fold m. rewrite Ew. unfold st_bind, st_of.
  destruct (all_there p (got ++ [m])) eqn:Ea.
  - pose proof (whole_pending got cs s m Hd Hap Hin Hck Ea) as Hp. fold p in Hp. pose proof (proj1 Hbf) as Hlt. fold m p in Hlt.
    destruct (dl_open _ _ _ Hd p Hin (new_block_open got m Hap Hin)) as (Hng & _ & _).
    destruct (diff_one (add_pending_block cs m) s1 p (BlockMetadata_new hash p 0 (size_of_piece info p))) as (good & s2 & Ed & Hok2 & Hf2 & Hg); try done.
    + apply whole_complete; [apply Hck|done].
    + intros k Hk. apply (others_idle got cs s m k); try done.
    + assert (good = true) as ->.
      { apply Hg. destruct (in_pieces info !! p) as [h|] eqn:Eh; [|by apply lookup_ge_None in Eh; lia]. exists h. split; [done|].
        rewrite (data_piece (got ++ [m]) (fs_files s1) p Hdata Hv1 Hlt Ea). by apply Hverify. }
      rewrite Ed. eexists _, _. split; [done|]. split.
      * cbn. rewrite (dl_new _ _ _ Hd). done.
      * apply (downloaded_reported got cs s); try done; by rewrite ?Hf2.
  - destruct (diff_idle (add_pending_block cs m) s1) as (s2 & Ed & ->).
    + intros k. apply (others_idle got cs s m k); try done. intros ->. done.
    + rewrite Ed. eexists _, _. split; [done|]. split; [apply (dl_new _ _ _ Hd)|]. by apply (downloaded_idle got cs s).
Qed.

(** Process one block after the other. *)
Fixpoint process_all (bs : list Block) : st (DiskManagerContext S IoError) (BlockError IoError) unit :=
  match bs with
  | [] => st_ret tt
  | b :: bs => let* _ := execute_process_block sha1 b in process_all bs
  end.

Definition good_reports (ps : list nat) : list (ODiskMessage IoError) := map (FoundGoodPiece hash) ps.

Lemma filter_split (f g : nat -> bool) (x : nat) l : NoDup l -> x ∈ l -> f x = false -> g x = true -> (forall y, y <> x -> f y = g y) ->
  List.filter g l ≡ₚ x :: List.filter f l.
Proof.
  intros Hnd Hin Hf Hg Hfg. induction l as [|y l IH]; [by apply elem_of_nil in Hin|]. apply NoDup_cons in Hnd as [Hni Hnd]. cbn.
  destruct (decide (y = x)) as [->|Hne].
  - rewrite Hf, Hg. constructor. assert (List.filter g l = List.filter f l) as -> by (apply List.filter_ext_in; intros z Hz; symmetry; apply Hfg; intros ->; by apply Hni, list_elem_of_In). done.
  - apply elem_of_cons in Hin as [->|Hin]; [done|]. rewrite (Hfg y Hne). destruct (g y); [rewrite IH by done; by constructor|by apply IH].
Qed.

Lemma process_all_ok bs : forall got cs s c, downloaded got cs s -> dc_fs c = s -> dc_torrents c !! hash = Some (mkMetainfoState file cs false) ->
  blocks_apart (got ++ map bk_metadata bs) -> Forall target_block bs ->
  exists c' cs' msgs, process_all bs c = (Ok tt, c') /\ downloaded (got ++ map bk_metadata bs) cs' (dc_fs c') /\ dc_out c' = dc_out c ++ msgs /\
    good_reports (List.filter (fun p => all_there p (got ++ map bk_metadata bs)) todo) ≡ₚ msgs ++ good_reports (List.filter (fun p => all_there p got) todo).
Proof.
  induction bs as [|b bs IH]; intros got cs s c Hd Hs Hl Hap Hb.
  { exists c, cs, []. cbn. rewrite !app_nil_r, Hs. done. }
  apply Forall_cons in Hb as [Hb Hbs]. cbn [map] in *. set (m := bk_metadata b) in *. set (p := bm_piece_index m) in *.
  assert (Hap1 : blocks_apart (got ++ [m])).
  { destruct Hap as [Hf Hc]. replace (got ++ m :: map bk_metadata bs) with ((got ++ [m]) ++ map bk_metadata bs) in * by (by rewrite <- app_assoc).
    apply Forall_app in Hf as [Hf _]. split; [done|]. intros q x Hq. specialize (Hc q x Hq). rewrite of_piece_app, cover_app in Hc. lia. }
  destruct (process_downloaded got cs s b Hd Hap1 Hb) as (cs1 & s1 & Ew & Hnew & Hd1). fold m p in Hnew, Hd1.
  destruct (apart_block_for got b Hap1 Hb) as (_ & Hh & Hin). fold m p in Hh, Hin.
  set (c1 := mkContext (<[hash := mkMetainfoState file (run_with_diff cs1).2 false]> (dc_torrents c))
    (dc_out c ++ good_reports (if all_there p (got ++ [m]) then [p] else [])) s1).
  assert (Ep : execute_process_block sha1 b c = (Ok tt, c1)).
  { rewrite (process_found sha1 b c (mkMetainfoState file cs false)); [|by fold m; rewrite Hh|done]. cbn [ms_file ms_state]. rewrite Hs, Ew. fold m. rewrite Hh.
    unfold c1, send_piece_diff, run_with_diff. cbn [fst snd]. rewrite Hnew. by destruct (all_there p (got ++ [m])). }
  destruct (IH (got ++ [m]) (run_with_diff cs1).2 s1 c1) as (c' & cs' & msgs & E & Hd' & Ho & Hm);
    [done|done|unfold c1; cbn; by rewrite lookup_insert_eq|by rewrite <- app_assoc|done|].
  exists c', cs', (good_reports (if all_there p (got ++ [m]) then [p] else []) ++ msgs). cbn [process_all]. unfold st_bind. rewrite Ep, E.
  rewrite <- app_assoc in Hd', Hm. cbn [app] in Hd', Hm. split_and!; [done|done|by rewrite Ho, app_assoc|]. rewrite Hm, <- app_assoc.
  rewrite (Permutation_app_comm (good_reports _) (msgs ++ _)), <- app_assoc. apply Permutation_app_head.
  pose proof (new_block_open got m Hap1 Hin) as Hold. fold p in Hold.
  assert (Hother : forall q, q <> p -> all_there q got = all_there q (got ++ [m])) by (intros q Hq; unfold all_there; by rewrite of_piece_other).
  destruct (all_there p (got ++ [m])) eqn:Ea.
  - unfold good_reports. rewrite (filter_split _ _ p todo Hnodup Hin Hold Ea Hother). cbn. by rewrite Permutation_app_comm.
  - cbn [good_reports map]. rewrite app_nil_r. erewrite List.filter_ext_in; [done|]. intros q _. cbn. destruct (decide (q = p)) as [->|]; [congruence|symmetry; by apply Hother].
Qed.

(** ** Blocks that tile the pieces *)

Definition tiles : list BlockMetadata := concat (map (fun p => chain hash p 0 (lens p)) todo).

Lemma chain_in q start ns m : m ∈ chain hash q start ns -> bm_info_hash m = hash /\ bm_piece_index m = q /\
  (Forall (fun n => 0 < n)%nat ns -> (0 < bm_block_length m)%nat /\ (bm_block_offset m + bm_block_length m <= start + sum_list ns)%nat).
Proof.
  revert start. induction ns as [|n ns IH]; intros start Hm; [by apply elem_of_nil in Hm|]. cbn [chain] in Hm.
  assert (Hs : sum_list (n :: ns) = (n + sum_list ns)%nat) by done. rewrite Hs. apply elem_of_cons in Hm as [->|Hm].
  - cbn. split_and!; try done. intros [Hn _]%Forall_cons. lia.
  - destruct (IH _ Hm) as (H1 & H2 & H3). split_and!; try done. intros [_ Hn]%Forall_cons. destruct (H3 Hn). lia.
Qed.

Lemma of_piece_chain p q start ns : of_piece p (chain hash q start ns) = if decide (q = p) then chain hash q start ns else [].
Proof.
  revert start. induction ns as [|n ns IH]; intros start; [by destruct (decide _)|]. unfold of_piece in *. cbn. rewrite IH.
  destruct (Nat.eqb_spec q p), (decide (q = p)); done.
Qed.

Lemma of_piece_concat ps p : NoDup ps -> of_piece p (concat (map (fun p => chain hash p 0 (lens p)) ps)) = if decide (p ∈ ps) then chain hash p 0 (lens p) else [].
Proof.
  induction ps as [|q ps IH]; intros Hnd; cbn [map concat]; [by destruct (decide _) as [Hp|]; [apply elem_of_nil in Hp|]|].
  apply NoDup_cons in Hnd as [Hni Hnd]. rewrite of_piece_app, of_piece_chain, IH by done.
  destruct (decide (q = p)) as [->|Hne].
  - rewrite (decide_True (P := p ∈ p :: ps)) by left. by destruct (decide (p ∈ ps)); [|rewrite app_nil_r].
  - destruct (decide (p ∈ ps)) as [Hin|Hnin]; [by rewrite decide_True by (by right)|]. by rewrite decide_False by (by intros [?|?]%elem_of_cons).
Qed.

Lemma of_piece_perm p l k : l ≡ₚ k -> of_piece p l ≡ₚ of_piece p k.
Proof.
  unfold of_piece. induction 1 as [|x l k _ IH|x y l|l k j _ IH1 _ IH2]; cbn; [done|destruct (_ =? _)%nat; [by constructor|done]| |by rewrite IH1].
  repeat destruct (_ =? _)%nat; try done. constructor.
Qed.

Lemma tiled_cover l p x : l ≡ₚ tiles -> p ∈ todo -> cover (of_piece p l) x = if decide (x < size_of_piece info p)%nat then 1%nat else 0%nat.
Proof.
  intros Hl Hp. rewrite (cover_perm _ _ x (of_piece_perm p _ _ Hl)). unfold tiles. rewrite of_piece_concat by done. destruct (decide (p ∈ todo)); [|done].
  rewrite cover_chain, (proj2 (Hlens p Hp)). cbn. repeat destruct (decide _); lia.
Qed.

Lemma tiled_apart l : l ≡ₚ tiles -> blocks_apart l.
Proof.
  intros Hl. split; [|intros p x Hp; rewrite (tiled_cover l p x Hl Hp); destruct (decide _); lia]. rewrite Hl. unfold tiles.
  apply Forall_concat, Forall_map, Forall_forall. intros p Hp. apply Forall_forall. intros m Hm. destruct (Hlens p Hp) as [Hpos Hsum].
  destruct (chain_in p 0 (lens p) m Hm) as (Hh & Hidx & Hb). destruct (Hb Hpos) as [Hb1 Hb2]. rewrite Hidx. rewrite Hsum in Hb2. done.
Qed.

Lemma tiled_there l p : l ≡ₚ tiles -> p ∈ todo -> all_there p l = true.
Proof. intros Hl Hp. apply all_there_spec. intros x Hx. rewrite (tiled_cover l p x Hl Hp). destruct (decide _); lia. Qed.

(** A piece of which no block is processed stays as it is. *)
Lemma kept_piece l files files1 p : l ≡ₚ tiles -> p ∉ todo -> before = concat (contents info files1) -> data_there l files ->
  piece_bytes info files p (size_of_piece info p) = piece_bytes info files1 p (size_of_piece info p).
Proof.
  intros Hl Hp Hb Hd. unfold piece_bytes, slice. replace (p * pl + size_of_piece info p - p * pl)%nat with (size_of_piece info p) by lia.
  apply list_eq. intros x. destruct (decide (x < size_of_piece info p)%nat) as [Hx|Hx]; [|by rewrite !lookup_take_ge by lia].
  rewrite !lookup_take_lt, !lookup_drop by lia. rewrite <- Hb. apply (proj2 (Hd _)). intros m Hm Hr. destruct (tiled_apart l Hl) as [Hf _]. rewrite Forall_forall in Hf.
  destruct (Hf m Hm) as (_ & Hin & _ & Hpos & Hfit). assert (bm_piece_index m <> p) by (intros <-; done). unfold block_start, size_of_piece in *. nia.
Qed.

(** The torrent has been added: nothing is pending and nothing to download is known as good. *)
Record ready (cs : PieceCheckerState) (s : S) : Prop := {
  rd_fs : fs_ok s;
  rd_files : files_valid info (fs_files s);
  rd_checker : checker_ok info cs;
  rd_new : new_states cs = [];
  rd_pending : forall p, default [] (pending_blocks cs !! p) = [];
  rd_todo : forall p, p ∈ todo -> GoodPiece p ∉ old_states cs
}.

Lemma ready_downloaded cs s : ready cs s -> before = concat (contents info (fs_files s)) -> downloaded [] cs s.
Proof.
  intros [H1 H2 H3 H4 H5 H6] Hb. split; try done.
  - intros x. split; [by intros m ?%elem_of_nil|]. intros _. by rewrite Hb.
  - intros p Hp _. split; [by apply H6|]. rewrite H5. split; [constructor|done].
Qed.

(** Processing all blocks, in any order. *)
Lemma download_all cs c bs : ready cs (dc_fs c) -> before = concat (contents info (fs_files (dc_fs c))) ->
  dc_torrents c !! hash = Some (mkMetainfoState file cs false) ->
  map bk_metadata bs ≡ₚ tiles -> Forall target_block bs ->
  exists c' msgs, process_all bs c = (Ok tt, c') /\ files_valid info (fs_files (dc_fs c')) /\ dc_out c' = dc_out c ++ msgs /\ msgs ≡ₚ good_reports todo /\
    data_there (map bk_metadata bs) (fs_files (dc_fs c')).
Proof.
  intros Hr Hbe Hl Hbs Htb. destruct (process_all_ok bs [] cs (dc_fs c) c) as (c' & cs' & msgs & E & Hd & Ho & Hm); [by apply ready_downloaded|done|done|by apply tiled_apart|done|].
  exists c', msgs. split_and!; [done|apply (dl_files _ _ _ Hd)|done| |apply (dl_data _ _ _ Hd)]. cbn [app] in Hm.
  assert (Hf1 : List.filter (fun p => all_there p (map bk_metadata bs)) todo = todo).
  { clear Hm. assert (Hall : forall p, p ∈ todo -> all_there p (map bk_metadata bs) = true) by (intros; by apply tiled_there).
    revert Hall. generalize todo. intros l. induction l as [|p l IH]; intros Hall; [done|]. cbn. rewrite Hall by left. f_equal. apply IH. intros q Hq. apply Hall. by right. }
  assert (Hf2 : List.filter (fun p => all_there p []) todo = []).
  { clear Hm Hf1. assert (Hnone : forall p, p ∈ todo -> all_there p [] = false).
    { intros p Hp. destruct (all_there p []) eqn:Ea; [|done]. exfalso. rewrite all_there_spec in Ea.
      assert (Hpos : (0 < size_of_piece info p)%nat) by (apply (piece_pos p); rewrite Forall_forall in Htodo; by apply Htodo).
      specialize (Ea 0%nat Hpos). cbn in Ea. lia. }
    revert Hnone. generalize todo. intros l. induction l as [|p l IH]; intros Hnone; [done|]. cbn. rewrite Hnone by left. apply IH. intros q Hq. apply Hnone. by right. }
  rewrite Hf1, Hf2 in Hm. cbn in Hm. rewrite app_nil_r in Hm. by symmetry.
Qed.
End Reliable.

Section Download.
Context {S File IoError : Type} `{HF : FileSystem S File IoError} {HV : FsView S File} {FL : FileSystemLaws S File IoError} {RL : ReliableFs S File IoError}.
Context {HO : HashOrder nat (list BlockMetadata)} (sha1 : list Z -> list Z).

Definition verified (file : Metainfo) (s : S) (p : nat) : Prop := piece_verified sha1 (mi_info file) (fs_files s) p (size_of_piece (mi_info file) p).

Definition good_of (states : list PieceState) : list nat := omap (fun st => match st with GoodPiece p => Some p | BadPiece _ => None end) states.

Lemma diff_good (hash : ShaHash) states : omap (piece_message (IoError := IoError) hash true) states = map (FoundGoodPiece hash) (good_of states).
Proof. unfold good_of. induction states as [|[p|p] l IH]; [done|..]; cbn; by rewrite IH. Qed.

Lemma good_of_elem states p : p ∈ good_of states <-> GoodPiece p ∈ states.
Proof. unfold good_of. rewrite list_elem_of_omap. split; [intros ([q|q] & H1 & H2); by simplify_eq|]. intros H. by exists (GoodPiece p). Qed.

Lemma good_of_true file files order states : NoDup order -> Forall2 (state_true sha1 file files) order states ->
  NoDup (good_of states) /\ forall p, p ∈ good_of states <-> p ∈ order /\ piece_verified sha1 (mi_info file) files p (size_of_piece (mi_info file) p).
Proof.
  intros Hnd Hf. induction Hf as [|k state order states Hk _ IH]; [split; [constructor|]; intros p; split; [by intros ?%elem_of_nil|by intros [?%elem_of_nil _]]|].
  apply NoDup_cons in Hnd as [Hni Hnd]. destruct (IH Hnd) as [IH1 IH2]. destruct Hk as [[-> Hv]|[-> Hv]]; cbn.
  - split; [constructor; [by intros [? _]%IH2|done]|]. intros p. rewrite !elem_of_cons. unfold good_of in IH2. rewrite IH2. naive_solver.
  - split; [done|]. intros p. unfold good_of in IH2. rewrite elem_of_cons, IH2. naive_solver.
Qed.

Lemma old_after (states : list PieceState) x : forall old : gset PieceState, x ∈ foldl (fun old st => {[st]} ∪ old) old states <-> x ∈ states \/ x ∈ old.
Proof. induction states as [|st l IH]; intros old; cbn; [set_solver|]. rewrite IH. set_solver. Qed.

(** The state right after the torrent was added. *)
Lemma add_torrent_ready file c : torrent_ok file -> Forall (fun h => length h = SHA_HASH_LEN) (in_pieces (mi_info file)) ->
  fs_ok (dc_fs c) -> files_fit file (fs_files (dc_fs c)) (in_files (mi_info file)) -> dc_torrents c !! file_hash file = None ->
  exists c1 cs good, execute_add_torrent sha1 file c = (Ok tt, c1) /\ dc_out c1 = dc_out c ++ map (FoundGoodPiece (file_hash file)) good /\ NoDup good /\
    (forall p, p ∈ good <-> (p < length (in_pieces (mi_info file)))%nat /\ verified file (dc_fs c1) p) /\
    dc_torrents c1 !! file_hash file = Some (mkMetainfoState file cs false) /\
    forall todo, (forall p, p ∈ todo -> p ∉ good) -> ready file todo cs (dc_fs c1).
Proof.
  intros Ht Hh Hok Hfit Hnone. destruct (init_total sha1 file Ht Hh (dc_fs c) Hok Hfit) as (cs & s & order & Ei & Hok1 & Hv1 & Hc1 & Hold & Hpend & Hperm & Hst).
  assert (Hnd : NoDup order) by (rewrite Hperm; apply NoDup_seq). destruct (good_of_true file (fs_files s) order (new_states cs) Hnd Hst) as [Hng Hg].
  exists (mkContext (<[file_hash file := mkMetainfoState file (run_with_diff cs).2 false]> (dc_torrents c)) (dc_out c ++ map (FoundGoodPiece (file_hash file)) (good_of (new_states cs))) s),
    (run_with_diff cs).2, (good_of (new_states cs)). split_and!.
  - unfold execute_add_torrent, st_bind, check_torrent. rewrite Ei. unfold report_torrent, send_piece_diff. cbn [run_with_diff]. rewrite diff_good.
    unfold st_bind, send, st_ret, finish_add_torrent, insert_torrent. cbn. rewrite Hnone. case_bool_decide as Hx; [by destruct Hx|]. done.
  - done.
  - done.
  - intros p. rewrite Hg, Hperm, elem_of_seq. unfold verified. cbn. split; intros [? ?]; split; (done || lia).
  - cbn. by rewrite lookup_insert_eq.
  - intros todo Htodo. split; try done. intros p Hp. cbn. rewrite old_after, Hold. intros [Hin|Hin]; [|set_solver]. apply (Htodo p Hp). by apply good_of_elem.
Qed.

(** C12: a torrent is downloaded. Over a file system that does not fail, adding a torrent whose
    files are absent, empty or of their full length succeeds and reports exactly the pieces
    whose bytes already hash right; processing, in any order, blocks that tile the other
    pieces with the torrent's data succeeds for every block and reports every one of these
    pieces good once and nothing else; then the bytes of these pieces are the torrent's data and
    every piece on disk hashes right. *)
Theorem torrent_is_downloaded (file : Metainfo) (target : list Z) (c : DiskManagerContext S IoError) :
  torrent_ok file -> length target = total_size (mi_info file) ->
  (forall p h, in_pieces (mi_info file) !! p = Some h -> ShaHash_from_hash h = Ok (ShaHash_from_bytes sha1 (target_piece file target p))) ->
  fs_ok (dc_fs c) -> files_fit file (fs_files (dc_fs c)) (in_files (mi_info file)) -> dc_torrents c !! file_hash file = None ->
  exists c1 good, execute_add_torrent sha1 file c = (Ok tt, c1) /\ dc_out c1 = dc_out c ++ map (FoundGoodPiece (file_hash file)) good /\ NoDup good /\
    (forall p, p ∈ good <-> (p < length (in_pieces (mi_info file)))%nat /\ verified file (dc_fs c1) p) /\
    forall todo lens bs, NoDup todo -> (forall p, p ∈ todo <-> (p < length (in_pieces (mi_info file)))%nat /\ p ∉ good) ->
      (forall p, p ∈ todo -> Forall (fun n => 0 < n)%nat (lens p) /\ sum_list (lens p) = size_of_piece (mi_info file) p) ->
      map bk_metadata bs ≡ₚ tiles file todo lens -> Forall (target_block file target) bs ->
      exists c2 msgs, process_all sha1 bs c1 = (Ok tt, c2) /\ dc_out c2 = dc_out c1 ++ msgs /\ msgs ≡ₚ map (FoundGoodPiece (file_hash file)) todo /\
        (forall p, p ∈ todo -> piece_bytes (mi_info file) (fs_files (dc_fs c2)) p (size_of_piece (mi_info file) p) = target_piece file target p) /\
        forall p, (p < length (in_pieces (mi_info file)))%nat -> verified file (dc_fs c2) p.
Proof.
  intros Ht Hlen Hver Hok Hfit Hnone. assert (Hh : Forall (fun h => length h = SHA_HASH_LEN) (in_pieces (mi_info file))).
  { apply Forall_lookup. intros p h Hp. by apply Hver, ShaHash_from_hash_ok in Hp as [? _]. }
  destruct (add_torrent_ready file c Ht Hh Hok Hfit Hnone) as (c1 & cs & good & Ea & Ho & Hnd & Hgood & Hl & Hready).
  exists c1, good. split_and!; [done..|]. intros todo lens bs Hndt Htodo Hlens Hbs Htb.
  assert (Hlt : Forall (fun p => (p < length (in_pieces (mi_info file)))%nat) todo) by (apply Forall_forall; intros p Hp; by apply Htodo).
  set (before := concat (contents (mi_info file) (fs_files (dc_fs c1)))).
  destruct (download_all sha1 file Ht Hh target Hlen Hver todo Hndt Hlt lens Hlens before cs c1 bs) as (c2 & msgs & E & Hv2 & Ho2 & Hm & Hdata); [|done..|].
  { apply Hready. intros p Hp. by apply Htodo. }
  assert (Hbytes : forall p, p ∈ todo -> piece_bytes (mi_info file) (fs_files (dc_fs c2)) p (size_of_piece (mi_info file) p) = target_piece file target p).
  { intros p Hp. apply (data_piece file target Hlen before (map bk_metadata bs)); [done|done|by apply Htodo|]. by apply (tiled_there file target Hlen todo Hndt lens Hlens). }
  exists c2, msgs. split_and!; [done..|]. intros p Hp. destruct (decide (p ∈ todo)) as [Hin|Hni].
  - destruct (in_pieces (mi_info file) !! p) as [h|] eqn:Eh; [|by apply lookup_ge_None in Eh; lia]. exists h. split; [done|]. rewrite Hbytes by done. by apply Hver.
  - assert (Hg : p ∈ good) by (destruct (decide (p ∈ good)); [done|]; destruct Hni; by apply Htodo). apply Hgood in Hg as [_ (h & Eh & Hh')]. exists h. split; [done|].
    rewrite Hh'. do 2 f_equal. symmetry. by apply (kept_piece file target Hlen todo Hndt lens Hlens before (map bk_metadata bs)).
Qed.

(** ** Blocks that do harm *)

Lemma regions_past sizes : forall index skip total, (sum_list sizes <= skip)%nat -> file_regions index sizes skip 0 total = [].
Proof.
  induction sizes as [|size sizes IH]; intros index skip total Hs; [done|]. assert (E : sum_list (size :: sizes) = (size + sum_list sizes)%nat) by done.
  rewrite file_regions_miss by (left; lia). apply IH. lia.
Qed.

Section Foreign.
Context (file : Metainfo) (Ht : torrent_ok file) (Hhash : Forall (fun h => length h = SHA_HASH_LEN) (in_pieces (mi_info file))).
Context (m : BlockMetadata) (Hout : (0 < length (in_pieces (mi_info file)) <= bm_piece_index m)%nat) (Hlen : bm_block_length m = piece_length (mi_info file)).
Abbreviation info := (mi_info file).
Abbreviation p := (bm_piece_index m).

(** The block waits to be checked among blocks of the torrent. *)
Definition foreign_waits (cs : PieceCheckerState) : Prop :=
  state_for info cs /\ pending_blocks cs !! p = Some [m] /\ GoodPiece p ∉ old_states cs /\
  forall q messages, q <> p -> pending_blocks cs !! q = Some messages -> Forall (fun x => (q < length (in_pieces info))%nat /\ block_of q (size_of_piece info q) x) messages.

Lemma completeness_answers (cs : PieceCheckerState) messages : state_for info cs ->
  exists b, piece_is_complete (E := IoError) (total_blocks cs) (last_block_size cs) (piece_length info) messages = Ok b.
Proof. intros [Hs _]. unfold piece_is_complete. destruct (Nat.eqb_spec (total_blocks cs) 0); [lia|destruct messages; eexists; reflexivity]. Qed.

(** The other pieces are checked and leave it waiting. *)
Lemma other_checked cs files t q : files_valid info files -> checking info files t -> foreign_waits cs -> q <> p ->
  exists cs' t', check_entry (check_piece sha1 info) (piece_length info) q (cs, t) = (Ok tt, (cs', t')) /\ foreign_waits cs' /\ checking info files t'.
Proof.
  intros Hv Hi Hw Hq. pose proof Hw as (Hs & Hp & Hg & Ho). unfold check_entry. destruct (pending_blocks cs !! q) as [messages|] eqn:Eq; [|by exists cs, t].
  destruct (completeness_answers cs messages Hs) as [b Eb]. unfold st_bind at 1, st_of at 1. rewrite Eb. destruct b; [|by exists cs, t]. destruct messages as [|x rest]; [by exists cs, t|].
  case_bool_decide; [by exists cs, t|]. pose proof (Ho q _ Hq Eq) as Hx. apply Forall_cons in Hx as [[Hlt Hb] _]. pose proof Hb as (Hxi & _). subst q.
  destruct (check_piece_total sha1 file Ht Hhash x t files Hv Hi Hlt Hb) as (good & t' & Ec). unfold st_bind, st_snd. rewrite Ec. eexists _, t'. split; [done|].
  split; [|by eapply check_piece_keeps]. split_and!; [done|cbn; by rewrite lookup_insert_ne|done|]. cbn. intros q messages Hqp [[<- <-]|[_ E]]%lookup_insert_Some; [constructor|by eapply Ho].
Qed.

(** Its own piece is taken for complete, and the hash is missing. *)
Lemma foreign_checked cs files t : (2 ^ 64 <=? Z.of_nat (p * piece_length info + bm_block_offset m)) = false ->
  run_with_file_regions (piece_length info) (file_sizes info) m = [] -> checking info files t -> foreign_waits cs ->
  exists x, check_entry (check_piece sha1 info) (piece_length info) p (cs, t) = (Panic, x).
Proof.
  intros H64 Hreg (_ & _ & Hl) (Hs & Hp & Hg & _). destruct t as [buf s0]. cbn [fst] in Hl. unfold check_entry. rewrite Hp. unfold st_bind at 1, st_of at 1.
  assert (Hcomp : piece_is_complete (E := IoError) (total_blocks cs) (last_block_size cs) (piece_length info) [m] = Ok true).
  { unfold piece_is_complete. rewrite (proj1 Hs). destruct (Nat.eqb_spec (length (in_pieces info)) 0); [lia|]. cbn [length Nat.eqb andb]. by rewrite Hlen, Nat.eqb_refl. }
  rewrite Hcomp, bool_decide_false by done. unfold st_bind at 1, st_snd at 1. unfold check_piece at 1. rewrite Hlen, Hl, Nat.ltb_irrefl.
  unfold accessor_read_piece, with_file_regions. rewrite H64, Hreg. cbn [for_regions st_ret res_bind]. rewrite (proj2 (lookup_ge_None _ _)) by apply Hout. cbn. by eexists.
Qed.

Lemma foreign_entries files : (2 ^ 64 <=? Z.of_nat (p * piece_length info + bm_block_offset m)) = false ->
  run_with_file_regions (piece_length info) (file_sizes info) m = [] -> files_valid info files ->
  forall order cs t, p ∈ order -> checking info files t -> foreign_waits cs -> exists x, check_entries (check_piece sha1 info) (piece_length info) order (cs, t) = (Panic, x).
Proof.
  intros H64 Hreg Hv. induction order as [|q order IH]; intros cs t Hin Hi Hw; [by apply elem_of_nil in Hin|]. cbn [check_entries]. unfold st_bind. destruct (decide (q = p)) as [->|Hq].
  - destruct (foreign_checked cs files t H64 Hreg Hi Hw) as [x ->]. by eexists.
  - destruct (other_checked cs files t q Hv Hi Hw Hq) as (cs' & t' & -> & Hw' & Hi'). apply IH; [|done..]. by apply elem_of_cons in Hin as [?|?].
Qed.

Lemma foreign_added cs : checker_ok info cs -> GoodPiece p ∉ old_states cs -> foreign_waits (merge_pieces (add_pending_block cs m)).
Proof.
  intros Hc Hg. pose proof (merged_blocks info cs Hc) as [_ Hmb]. pose proof Hc as [Hs Hb].
  assert (Hnone : default [] (pending_blocks cs !! p) = []).
  { destruct (pending_blocks cs !! p) as [[|x l]|] eqn:E; [done| |done]. specialize (Hb _ _ E). apply Forall_cons in Hb as [[Hlt _] _]. lia. }
  split_and!; [done| |done|].
  - cbn. by rewrite lookup_fmap, lookup_insert_eq, Hnone.
  - intros q messages Hq E. apply (Hmb q messages). cbn in E |- *. rewrite lookup_fmap, lookup_insert_ne in E by done. by rewrite lookup_fmap.
Qed.
End Foreign.

Lemma foreign_panics file cs s b : let info := mi_info file in let m := bk_metadata b in
  torrent_ok file -> Forall (fun h => length h = SHA_HASH_LEN) (in_pieces info) -> fs_ok s -> files_valid info (fs_files s) -> checker_ok info cs ->
  GoodPiece (bm_piece_index m) ∉ old_states cs -> (0 < length (in_pieces info) <= bm_piece_index m)%nat ->
  bm_block_length m = piece_length info -> exists x, write_and_check sha1 info b (cs, s) = (Panic, x).
Proof.
  intros info m Ht Hh Hok Hv Hc Hg Hout Hlen. set (p := bm_piece_index m) in *. unfold write_and_check, accessor_write_piece, with_file_regions. fold m p.
  destruct (2 ^ 64 <=? _) eqn:E64; [unfold st_bind, st_of; by eexists|].
  assert (Hpl : (0 < piece_length info)%nat) by (pose proof (tor_piece_len _ Ht); unfold piece_length, info; lia).
  assert (Htot : (total_size info <= p * piece_length info)%nat).
  { pose proof (tor_pieces _ Ht) as Hp. fold info in Hp. rewrite Hp in Hout. pose proof (Nat.div_mod_eq (total_size info + piece_length info - 1) (piece_length info)) as Hd.
    pose proof (Nat.mod_upper_bound (total_size info + piece_length info - 1) (piece_length info) ltac:(lia)). nia. }
  assert (Hreg : run_with_file_regions (piece_length info) (file_sizes info) m = []) by (apply regions_past; fold (total_size info); fold p; lia).
  rewrite Hreg. cbn [for_regions]. unfold st_bind, st_of, st_ret. unfold calculate_diff. pose proof (tor_piece_len _ Ht) as [_ Hmax]. fold info in Hmax. rewrite (proj2 (Z.ltb_ge _ _)) by done.
  pose proof (foreign_added file m Hout Hlen cs Hc Hg) as Hw. unfold run_with_whole_pieces. set (cs1 := merge_pieces (add_pending_block cs m)) in *.
  destruct (order_split cs1 p m (proj1 (proj2 Hw))) as (pre & post & -> & _ & _).
  destruct (foreign_entries file Ht Hh m Hout Hlen (fs_files s) E64 Hreg Hv (pre ++ p :: post) cs1 (replicate (piece_length info) 0, s)) as [[cs2 [buf2 s2]] E];
    [set_solver|split_and!; [done|done|apply length_replicate]|done|]. fold info in E. rewrite E. by eexists.
Qed.

(** C35: one block beyond the end of a torrent disables it. At any time of a download over a
    file system that does not fail (the torrent's files are there with their lengths, the
    blocks noted so far lie in its pieces, the hashes of its pieces have twenty bytes),
    processing a block of the size of a piece whose index is no piece of the torrent panics
    while the torrent is locked: in every later state in which the torrent was not removed,
    processing and loading any of its blocks and synchronising it panic too, without an
    answer. *)
Theorem foreign_block_poisons_torrent (file : Metainfo) (cs : PieceCheckerState) (c : DiskManagerContext S IoError) (b : Block) :
  torrent_ok file -> Forall (fun h => length h = SHA_HASH_LEN) (in_pieces (mi_info file)) ->
  fs_ok (dc_fs c) -> files_valid (mi_info file) (fs_files (dc_fs c)) -> checker_ok (mi_info file) cs -> GoodPiece (bm_piece_index (bk_metadata b)) ∉ old_states cs ->
  dc_torrents c !! file_hash file = Some (mkMetainfoState file cs false) -> bm_info_hash (bk_metadata b) = file_hash file ->
  (0 < length (in_pieces (mi_info file)) <= bm_piece_index (bk_metadata b))%nat -> bm_block_length (bk_metadata b) = piece_length (mi_info file) ->
  exists c', execute_process_block sha1 b c = (Panic, c') /\ dc_out c' = dc_out c /\
    forall c2, dc_torrents c2 !! file_hash file = dc_torrents c' !! file_hash file ->
      (forall b2, bm_info_hash (bk_metadata b2) = file_hash file ->
         execute_process_block sha1 b2 c2 = (Panic, c2) /\ execute_load_block b2 c2 = (Panic, c2)) /\
      execute_sync_torrent (file_hash file) c2 = (Panic, c2).
Proof.
  intros Ht Hhs Hok Hv Hc Hg Hl Hh Hn Hlen. destruct (foreign_panics file cs (dc_fs c) b Ht Hhs Hok Hv Hc Hg Hn Hlen) as ([cs' s'] & Ew).
  assert (Ep := process_found sha1 b c (mkMetainfoState file cs false)). rewrite Hh in Ep. specialize (Ep Hl eq_refl). cbn [ms_file ms_state] in Ep. rewrite Ew in Ep.
  destruct (send_piece_diff (file_hash file) false cs') as [msgs cs2]. eexists. split; [exact Ep|]. split; [done|]. cbn [dc_torrents]. rewrite lookup_insert_eq.
  intros c2 Hl2. split.
  - intros b2 Hh2. split; [apply (proj2 (process_missing sha1 b2 c2) (mkMetainfoState file cs' true)); [by rewrite Hh2|done]|].
    unfold execute_load_block, st_bind, update_torrent. by rewrite Hh2, Hl2.
  - unfold execute_sync_torrent, st_bind, update_torrent. by rewrite Hl2.
Qed.

(** A block of a good piece is passed over. *)
Lemma check_good_skip info (cs : PieceCheckerState) m k (t : list Z * S) : (forall q, default [] (pending_blocks cs !! q) = []) -> GoodPiece (bm_piece_index m) ∈ old_states cs ->
  (0 < total_blocks cs)%nat ->
  let cs1 := merge_pieces (add_pending_block cs m) in check_entry (check_piece sha1 info) (piece_length info) k (cs1, t) = (Ok tt, (cs1, t)).
Proof.
  intros Hp Hg Hn cs1. unfold check_entry. destruct (pending_blocks cs1 !! k) as [l|] eqn:El; [|done].
  assert (Hl : l = if decide (k = bm_piece_index m) then [m] else []).
  { assert (Hd : default [] (pending_blocks cs1 !! k) = l) by (by rewrite El). unfold cs1 in Hd. rewrite merged_default in Hd. cbn in Hd. rewrite <- Hd.
    destruct (decide (k = bm_piece_index m)) as [->|]; [rewrite lookup_insert_eq|rewrite lookup_insert_ne by done]; cbn; by rewrite Hp. }
  destruct (decide (k = bm_piece_index m)); subst l; [|done]. unfold st_bind, st_of. destruct (piece_is_complete _ _ _ [m]) as [[]| | |] eqn:Ec; [|done|..].
  - by rewrite bool_decide_true.
  - unfold piece_is_complete in Ec. by destruct (_ =? 0)%nat.
  - unfold piece_is_complete in Ec. destruct (Nat.eqb_spec (total_blocks cs1) 0); [|done]. change (total_blocks cs1) with (total_blocks cs) in *. lia.
  - unfold piece_is_complete in Ec. by destruct (_ =? 0)%nat.
Qed.

(** A good piece can be overwritten. Once a piece is known as good, a block of it with
    any bytes is written over it and answered as processed, and neither this nor any check
    of the same state reports the piece again. *)
Lemma good_piece_is_overwritten (file : Metainfo) (cs : PieceCheckerState) (c : DiskManagerContext S IoError) (b : Block) :
  torrent_ok file -> ready file [] cs (dc_fs c) -> dc_torrents c !! file_hash file = Some (mkMetainfoState file cs false) ->
  bm_info_hash (bk_metadata b) = file_hash file -> block_for (mi_info file) b -> GoodPiece (bm_piece_index (bk_metadata b)) ∈ old_states cs ->
  exists c' cs', execute_process_block sha1 b c = (Ok tt, c') /\ dc_out c' = dc_out c /\
    dc_torrents c' !! file_hash file = Some (mkMetainfoState file cs' false) /\ GoodPiece (bm_piece_index (bk_metadata b)) ∈ old_states cs' /\
    concat (contents (mi_info file) (fs_files (dc_fs c'))) =
      splice (concat (contents (mi_info file) (fs_files (dc_fs c)))) (block_start (piece_length (mi_info file)) (bk_metadata b)) (bk_data b).
Proof.
  intros Ht Hr Hl Hh Hb Hg. set (m := bk_metadata b) in *. set (info := mi_info file) in *.
  destruct (write_total file Ht b (dc_fs c) (rd_fs _ _ _ _ Hr) (rd_files _ _ _ _ Hr) Hb) as (buf & s1 & Ew & Hok1 & Hv1 & Hc1). fold m info in Ew, Hc1.
  set (cs1 := merge_pieces (add_pending_block cs m)). assert (Hn : (0 < total_blocks cs)%nat) by (rewrite (proj1 (proj1 (rd_checker _ _ _ _ Hr))); pose proof (proj1 Hb); fold info; lia).
  assert (Hall : forall order t, check_entries (check_piece sha1 info) (piece_length info) order (cs1, t) = (Ok tt, (cs1, t))).
  { induction order as [|k order IH]; intros t; [done|]. cbn [check_entries]. unfold st_bind, cs1. rewrite (check_good_skip info cs m k t (rd_pending _ _ _ _ Hr) Hg Hn). apply IH. }
  assert (Ewc : write_and_check sha1 info b (cs, dc_fs c) = (Ok tt, (cs1, s1))).
  { unfold write_and_check. fold m. rewrite Ew. unfold st_bind, st_of, calculate_diff. pose proof (tor_piece_len _ Ht) as [_ Hmax]. fold info in Hmax. rewrite (proj2 (Z.ltb_ge _ _)) by done.
    unfold run_with_whole_pieces. fold cs1. by rewrite Hall. }
  assert (Ep := process_found sha1 b c (mkMetainfoState file cs false)). fold m in Ep. rewrite Hh in Ep. specialize (Ep Hl eq_refl). cbn [ms_file ms_state] in Ep. fold info in Ep. rewrite Ewc in Ep.
  assert (Hnew : new_states cs1 = []) by apply (rd_new _ _ _ _ Hr). unfold send_piece_diff, run_with_diff in Ep. rewrite Hnew in Ep. cbn in Ep. rewrite app_nil_r in Ep.
  eexists _, _. split; [exact Ep|]. split; [done|]. split; [cbn; by rewrite lookup_insert_eq|]. split; [done|]. exact Hc1.
Qed.
End Download.

(** ** A torrent of two files *)

(** A stand-in for the digest: the first twenty bytes. *)
Definition sample_digest (b : list Z) : list Z := take SHA_HASH_LEN (b ++ replicate SHA_HASH_LEN 0).
Definition sample_target : list Z := [1; 2; 3; 4; 5; 6; 7].
Definition sample_torrent : Metainfo := Metainfo_from_info (mkInfo (mkShaHash (replicate 20 9))
  [mkMetaFile 3 [97] None; mkMetaFile 4 [98] None] [sample_digest [1; 2; 3; 4]; sample_digest [5; 6; 7]] 4 None (Some [100])).
Definition sample_hash : ShaHash := file_hash sample_torrent.
Definition sample_disk : DiskManagerContext (gmap (list Z) (list Z)) unit := DiskManagerContext_new ∅.
Definition sample_block (p o : nat) (data : list Z) : Block := Block_new (BlockMetadata_new sample_hash p o (length data)) data.

Lemma sample_torrent_ok : torrent_ok (HV := mem_view) sample_torrent.
Proof.
  split; [vm_compute; split; [reflexivity|discriminate]| |vm_compute; reflexivity|reflexivity|].
  - repeat constructor; vm_compute; discriminate.
  - apply (bool_decide_unpack _). vm_compute. reflexivity.
Qed.

Lemma sample_hashes p h : in_pieces (mi_info sample_torrent) !! p = Some h ->
  ShaHash_from_hash h = Ok (ShaHash_from_bytes sample_digest (target_piece sample_torrent sample_target p)).
Proof. destruct p as [|[|p]]; intros E; vm_compute in E; [injection E as <-; reflexivity..|discriminate]. Qed.

(** Adding the torrent and processing its blocks. *)
Example sample_download :
  let '(r1, c1) := execute_add_torrent sample_digest sample_torrent sample_disk in
  let '(r2, c2) := process_all sample_digest [sample_block 0 2 [3; 4]; sample_block 1 0 [5; 6; 7]; sample_block 0 0 [1; 2]] c1 in
  r1 = Ok tt /\ r2 = Ok tt /\ dc_out c2 = [FoundGoodPiece sample_hash 1; FoundGoodPiece sample_hash 0] /\
  contents (mi_info sample_torrent) (dc_fs c2) = [[1; 2; 3]; [4; 5; 6; 7]].
Proof. vm_compute. done. Qed.

Lemma torrent_is_downloaded_witness :
  exists c1 good, execute_add_torrent sample_digest sample_torrent sample_disk = (Ok tt, c1) /\ dc_out c1 = [] ++ map (FoundGoodPiece sample_hash) good /\ NoDup good /\
    (forall p, p ∈ good <-> (p < 2)%nat /\ verified sample_digest sample_torrent (dc_fs c1) p) /\
    forall todo lens bs, NoDup todo -> (forall p, p ∈ todo <-> (p < 2)%nat /\ p ∉ good) ->
      (forall p, p ∈ todo -> Forall (fun n => 0 < n)%nat (lens p) /\ sum_list (lens p) = size_of_piece (mi_info sample_torrent) p) ->
      map bk_metadata bs ≡ₚ tiles sample_torrent todo lens -> Forall (target_block sample_torrent sample_target) bs ->
      exists c2 msgs, process_all sample_digest bs c1 = (Ok tt, c2) /\ dc_out c2 = dc_out c1 ++ msgs /\ msgs ≡ₚ map (FoundGoodPiece sample_hash) todo /\
        (forall p, p ∈ todo -> piece_bytes (mi_info sample_torrent) (fs_files (dc_fs c2)) p (size_of_piece (mi_info sample_torrent) p) = target_piece sample_torrent sample_target p) /\
        forall p, (p < 2)%nat -> verified sample_digest sample_torrent (dc_fs c2) p.
Proof.
  apply (torrent_is_downloaded sample_digest sample_torrent sample_target sample_disk);
    [apply sample_torrent_ok|reflexivity|apply sample_hashes|exact I|repeat constructor|reflexivity].
Defined.

(** The same torrent with its data on disk. *)
Definition sample_seeded : DiskManagerContext (gmap (list Z) (list Z)) unit :=
  DiskManagerContext_new (<[mem_name [100; 47; 97] := [1; 2; 3]]> (<[mem_name [100; 47; 98] := [4; 5; 6; 7]]> ∅)).

Lemma sample_added (c : DiskManagerContext (gmap (list Z) (list Z)) unit) c1 cs : execute_add_torrent sample_digest sample_torrent c = (Ok tt, c1) ->
  dc_torrents c !! sample_hash = None -> files_fit sample_torrent (dc_fs c) (in_files (mi_info sample_torrent)) ->
  dc_torrents c1 !! sample_hash = Some (mkMetainfoState sample_torrent cs false) -> forall todo, Forall (fun p => 2 <= p)%nat todo -> ready sample_torrent todo cs (dc_fs c1).
Proof.
  intros Ea Hn Hf Hl todo Htodo. destruct (add_torrent_ready sample_digest sample_torrent c) as (c1' & cs' & good & Ea' & _ & _ & Hg & Hl' & Hr);
    [apply sample_torrent_ok|repeat constructor|exact I|exact Hf|exact Hn|]. rewrite Ea in Ea'. injection Ea' as <-. unfold sample_hash in Hl. rewrite Hl in Hl'. injection Hl' as <-.
  apply Hr. intros p Hp Hpg. apply Hg in Hpg as [Hlt _]. rewrite Forall_forall in Htodo. specialize (Htodo p Hp). change (p < 2)%nat in Hlt. lia.
Qed.

(** A block of the second piece has arrived in part. *)
Definition sample_partly : DiskManagerContext (gmap (list Z) (list Z)) unit :=
  (process_all sample_digest [sample_block 1 0 [5]] (execute_add_torrent sample_digest sample_torrent sample_disk).2).2.

Lemma sample_partly_checker cs : dc_torrents sample_partly !! sample_hash = Some (mkMetainfoState sample_torrent cs false) ->
  checker_ok (mi_info sample_torrent) cs /\ GoodPiece 5 ∉ old_states cs.
Proof.
  intros El. assert (Hb : bool_decide (map_Forall (fun p messages => Forall (fun m => (p < 2)%nat /\ block_of p (size_of_piece (mi_info sample_torrent) p) m) messages) (pending_blocks cs)) = true /\
    state_for (mi_info sample_torrent) cs /\ bool_decide (GoodPiece 5 ∉ old_states cs) = true) by (vm_compute in El; injection El as <-; split; [vm_compute; reflexivity|split; [split; reflexivity|vm_compute; reflexivity]]).
  destruct Hb as (Hb & Hs & Hg). apply bool_decide_eq_true_1 in Hb, Hg. split; [split; [exact Hs|exact Hb]|exact Hg].
Qed.

Lemma foreign_block_poisons_torrent_witness : let b := sample_block 5 0 [8; 8; 8; 8] in
  exists c', execute_process_block sample_digest b sample_partly = (Panic, c') /\ dc_out c' = dc_out sample_partly /\
    forall c2, dc_torrents c2 !! sample_hash = dc_torrents c' !! sample_hash ->
      (forall b2, bm_info_hash (bk_metadata b2) = sample_hash -> execute_process_block sample_digest b2 c2 = (Panic, c2) /\ execute_load_block b2 c2 = (Panic, c2)) /\
      execute_sync_torrent sample_hash c2 = (Panic, c2).
Proof.
  intros b. destruct (dc_torrents sample_partly !! sample_hash) as [[file cs poisoned]|] eqn:El; [|vm_compute in El; discriminate].
  assert (file = sample_torrent /\ poisoned = false) as [-> ->] by (vm_compute in El; injection El as <- _ <-; done). destruct (sample_partly_checker cs El) as [Hc Hg].
  apply (foreign_block_poisons_torrent sample_digest sample_torrent cs sample_partly b);
    [apply sample_torrent_ok|repeat constructor|exact I| |exact Hc|exact Hg|exact El|reflexivity|vm_compute; lia|reflexivity].
  repeat constructor; eexists; split; vm_compute; reflexivity.
Defined.

Lemma good_piece_is_overwritten_witness :
  let c1 := (execute_add_torrent sample_digest sample_torrent sample_seeded).2 in let b := sample_block 0 1 [66] in
  exists c' cs', execute_process_block sample_digest b c1 = (Ok tt, c') /\ dc_out c' = dc_out c1 /\
    dc_torrents c' !! sample_hash = Some (mkMetainfoState sample_torrent cs' false) /\ GoodPiece 0 ∈ old_states cs' /\
    concat (contents (mi_info sample_torrent) (fs_files (dc_fs c'))) = splice (concat (contents (mi_info sample_torrent) (fs_files (dc_fs c1)))) 1 [66].
Proof.
  intros c1 b. destruct (dc_torrents c1 !! sample_hash) as [[file cs poisoned]|] eqn:El; [|vm_compute in El; discriminate].
  assert (file = sample_torrent /\ poisoned = false /\ GoodPiece 0 ∈ old_states cs) as (-> & -> & Hg).
  { vm_compute in El. injection El as <- <- <-. split; [done|]. split; [done|]. apply (bool_decide_unpack _). vm_compute. reflexivity. }
  apply (good_piece_is_overwritten sample_digest sample_torrent cs c1 b); [apply sample_torrent_ok| |exact El|reflexivity|vm_compute; lia|exact Hg].
  apply (sample_added sample_seeded); [reflexivity|reflexivity| |exact El|constructor]. repeat constructor; right; reflexivity.
Defined.

(** ** Runs of the manager *)

#[export] Instance sample_torrents : Torrents (HV := mem_view) (fun f => f = sample_torrent).
Proof. split; [intros f ->; apply sample_torrent_ok|by intros f g -> ->|by intros f g n -> ->]. Qed.

Definition sample_manager : DiskManager (gmap (list Z) (list Z)) unit := DiskManager_from_builder (with_sink_buffer_capacity 1 DiskManagerBuilder_new) (dc_fs sample_seeded).

(** One step of the first task. *)
Definition run_first (D : DiskManager (gmap (list Z) (list Z)) unit) : DiskManager (gmap (list Z) (list Z)) unit :=
  match run_task sample_digest 0 D with Some (_, D) => D | None => D end.

Lemma reported_pieces_are_on_disk_witness :
  let D := run_first (sink_send (AddTorrent sample_torrent) sample_manager) in
  exists D', run_task sample_digest 0 D = Some (false, D') /\ dc_out (dm_context D') = [FoundGoodPiece sample_hash 1; FoundGoodPiece sample_hash 0] /\
  ((exists m, answers m = true /\ dc_out (dm_context D') = dc_out (dm_context D) ++ [m]) \/
   exists l, dc_out (dm_context D') = dc_out (dm_context D) ++ l /\ Forall (message_true sample_digest (fun f => f = sample_torrent) (fs_files (dc_fs (dm_context D')))) l).
Proof.
  intros D. destruct (run_task sample_digest 0 D) as [[p D']|] eqn:E; [|vm_compute in E; discriminate]. exists D'.
  assert (p = false /\ dc_out (dm_context D') = [FoundGoodPiece sample_hash 1; FoundGoodPiece sample_hash 0]) as [-> Ho] by (vm_compute in E; injection E as <- <-; vm_compute; done).
  split; [done|]. split; [exact Ho|].
  apply (reported_pieces_are_on_disk sample_digest (fun f => f = sample_torrent) (with_sink_buffer_capacity 1 DiskManagerBuilder_new) (dc_fs sample_seeded) D no_history 0 false D'); [exact I| |exact E].
  eapply run_step; [eapply run_step; [apply run_refl|]|].
  - apply (step_send _ _ (AddTorrent sample_torrent)); [split; [reflexivity|split; [reflexivity|by intros ?%elem_of_nil]]|vm_compute; reflexivity].
  - apply (step_task _ _ 0 _ false). reflexivity.
Defined.

(** Adding a torrent again while it is there reports what is no longer true: the torrent
    with its data is added; it is added again, and after the check a block overwrites the
    first piece; the piece is then still reported as good. *)
Definition sample_again : DiskManager (gmap (list Z) (list Z)) unit :=
  let D := run_first (run_first (run_first (run_first (sink_send (AddTorrent sample_torrent) (DiskManager_from_builder DiskManagerBuilder_new (dc_fs sample_seeded)))))) in
  let D := run_first (sink_send (AddTorrent sample_torrent) D) in
  let D := sink_send (ProcessBlock (sample_block 0 0 [66])) D in
  match run_task sample_digest 1 D with Some (_, D) => D | None => D end.

Example duplicate_add_reports_stale_piece :
  dc_out (dm_context (run_first sample_again)) = dc_out (dm_context sample_again) ++ [FoundGoodPiece sample_hash 1; FoundGoodPiece sample_hash 0] /\
  piece_bytes (mi_info sample_torrent) (dc_fs (dm_context (run_first sample_again))) 0 4 = [66; 2; 3; 4].
Proof. vm_compute. done. Qed.

(** A torrent that is not there is removed: with a capacity of one, nothing is accepted after. *)
Definition sample_failed : DiskManager (gmap (list Z) (list Z)) unit :=
  run_first (run_first (sink_send (RemoveTorrent sample_hash) sample_manager)).

Lemma disk_capacity_leaks_witness :
  dm_cur_capacity sample_failed = 1 /\ Z.of_nat (length (dm_tasks sample_failed)) <= 1 /\
  (1 <= leaked sample_failed no_history -> forall D2 h2 item, dm_run sample_digest (fun _ _ => True) sample_failed no_history D2 h2 ->
     fst (start_send item D2) = false /\ dm_tasks (sink_send item D2) = dm_tasks D2).
Proof.
  assert (Hr : dm_run sample_digest (fun _ _ => True) sample_manager no_history sample_failed no_history).
  { eapply run_step; [eapply run_step; [eapply run_step; [apply run_refl|]|]|].
    - apply (step_send _ _ (RemoveTorrent sample_hash)); [done|vm_compute; reflexivity].
    - apply (step_task _ _ 0 _ false). reflexivity.
    - apply (step_task _ _ 0 _ false). reflexivity. }
  destruct (disk_capacity_leaks sample_digest (fun _ _ => True) (with_sink_buffer_capacity 1 DiskManagerBuilder_new) (dc_fs sample_seeded) sample_failed no_history) as (_ & H2 & H3); [vm_compute; done|exact Hr|].
  split; [reflexivity|]. split; [exact H2|exact H3].
Defined.

Example sample_leak : leaked sample_failed no_history = 1.
Proof. reflexivity. Qed.
