(* ===== verification/PeerManager.v ===== *)
(** * The peer manager

    Model of [peer/manager]: the peers and their equality, the configuration, the sink and
    the stream of the manager and the two threads of a peer ([task_split.rs]). The threads,
    the sinks and the stream share the map of peers behind a lock, one channel out, and the
    codec of each peer behind a lock; a step of a thread is what it does under such a lock
    or between two messages, and steps interleave in any order. What [try_lock] answers
    when another thread holds the lock, what a read yields and whether a write succeeds are
    arguments. A panic under a lock poisons it. The stream is kept, so that sending on the
    channel out succeeds. Log lines do nothing but for the one that slices the bytes read,
    which can panic when logging is enabled. The single-threaded variant of a peer's thread
    is not used by the crate. *)

From stdpp Require Import gmap.
From S2P Require Import Prelude RustStd UtilSha UtilConvert Nom PeerMessage Handshake.

(** ** Peers *)

Record PeerInfo : Type := PeerInfo_new { pi_addr : SocketAddr; pi_pid : ShaHash; pi_hash : ShaHash; pi_ext : Extensions }.

(** Equality and hashing leave out the extensions. *)
Definition PeerKey : Type := SocketAddr * ShaHash * ShaHash.
Definition peer_key (p : PeerInfo) : PeerKey := (pi_addr p, pi_pid p, pi_hash p).
Definition PeerInfo_eq (a b : PeerInfo) : bool := bool_decide (peer_key a = peer_key b).

(** [HashSet<PeerInfo>]: inserting a peer that is there keeps the old one. *)
Definition PeerSet : Type := gmap PeerKey PeerInfo.
Definition peers_insert (p : PeerInfo) (s : PeerSet) : PeerSet := match s !! peer_key p with Some _ => s | None => <[peer_key p := p]> s end.
Definition peers_remove (p : PeerInfo) (s : PeerSet) : PeerSet := delete (peer_key p) s.
Definition peers_iter {HO : HashOrder PeerKey PeerInfo} (s : PeerSet) : list PeerInfo := map snd (hash_entries s).

(** ** Configuration *)

Definition DEFAULT_PEER_CAPACITY : Z := 1000.
Definition DEFAULT_SINK_BUFFER_CAPACITY : Z := 100.
Definition DEFAULT_STREAM_BUFFER_CAPACITY : Z := 100.
Definition DEFAULT_HEARTBEAT_INTERVAL_MILLIS : Z := 1 * 60 * 1000.
Definition DEFAULT_HEARTBEAT_TIMEOUT_MILLIS : Z := 2 * 60 * 1000.

(** Durations in milliseconds. *)
Record PeerManagerBuilder : Type := mkPeerBuilder {
  pb_peer : Z; pb_sink_buffer : Z; pb_stream_buffer : Z; pb_heartbeat_interval : Z; pb_heartbeat_timeout : Z }.
Definition PeerManagerBuilder_new : PeerManagerBuilder :=
  mkPeerBuilder DEFAULT_PEER_CAPACITY DEFAULT_SINK_BUFFER_CAPACITY DEFAULT_STREAM_BUFFER_CAPACITY DEFAULT_HEARTBEAT_INTERVAL_MILLIS DEFAULT_HEARTBEAT_TIMEOUT_MILLIS.
Definition with_peer_capacity (capacity : Z) (b : PeerManagerBuilder) : PeerManagerBuilder :=
  mkPeerBuilder capacity (pb_sink_buffer b) (pb_stream_buffer b) (pb_heartbeat_interval b) (pb_heartbeat_timeout b).
Definition peer_with_sink_buffer_capacity (capacity : Z) (b : PeerManagerBuilder) : PeerManagerBuilder :=
  mkPeerBuilder (pb_peer b) capacity (pb_stream_buffer b) (pb_heartbeat_interval b) (pb_heartbeat_timeout b).
Definition peer_with_stream_buffer_capacity (capacity : Z) (b : PeerManagerBuilder) : PeerManagerBuilder :=
  mkPeerBuilder (pb_peer b) (pb_sink_buffer b) capacity (pb_heartbeat_interval b) (pb_heartbeat_timeout b).
Definition with_heartbeat_interval (interval : Z) (b : PeerManagerBuilder) : PeerManagerBuilder :=
  mkPeerBuilder (pb_peer b) (pb_sink_buffer b) (pb_stream_buffer b) interval (pb_heartbeat_timeout b).
Definition with_heartbeat_timeout (timeout : Z) (b : PeerManagerBuilder) : PeerManagerBuilder :=
  mkPeerBuilder (pb_peer b) (pb_sink_buffer b) (pb_stream_buffer b) (pb_heartbeat_interval b) timeout.

(** ** Messages *)

(** The socket of [AddPeer] is the environment of the peer's threads. *)
Inductive IPeerManagerMessage : Type :=
| AddPeer (info : PeerInfo)
| RemovePeer (info : PeerInfo)
| SendMessage (info : PeerInfo) (mid : Z) (m : PeerWireProtocolMessage).

Inductive OPeerManagerMessage : Type :=
| PeerAdded (info : PeerInfo)
| PeerRemoved (info : PeerInfo)
| SentMessage (info : PeerInfo) (mid : Z)
| ReceivedMessage (info : PeerInfo) (m : PeerWireProtocolMessage)
| PeerDisconnect (info : PeerInfo)
| PeerError (info : PeerInfo) (e : PeerIoError).

(** ** State *)

(** The writing thread: before its first message, in its loop, and ended (its receiver is
    dropped). *)
Inductive WriterState : Type := WriterStart | WriterLoop | WriterEnded.
#[export] Instance WriterState_eq_dec : EqDecision WriterState.
Proof. solve_decision. Defined.

(** The threads of a peer. [th_queue] is the channel to the writing thread, [th_sender]
    whether its sender is in the map; [th_unread] are the bytes the reading thread has not
    parsed. *)
Record PeerThreads : Type := mkThreads {
  th_info : PeerInfo;
  th_queue : list IPeerManagerMessage;
  th_sender : bool;
  th_writer : WriterState;
  th_reader : bool;
  th_codec : PeerWireMessageCodec;
  th_codec_poisoned : bool;
  th_unread : list Z;
  th_written : list Z
}.

Record PeerManager : Type := mkPeerManager {
  pm_build : PeerManagerBuilder;
  pm_peers : gmap PeerKey nat;
  pm_poisoned : bool;
  pm_threads : list PeerThreads;
  pm_out : list OPeerManagerMessage;
  pm_opt_pending : option OPeerManagerMessage
}.
Definition PeerManager_from_builder (b : PeerManagerBuilder) : PeerManager := mkPeerManager b ∅ false [] [] None.

Definition pm_poison (pm : PeerManager) : PeerManager :=
  mkPeerManager (pm_build pm) (pm_peers pm) true (pm_threads pm) (pm_out pm) (pm_opt_pending pm).
Definition pm_set_threads (l : list PeerThreads) (pm : PeerManager) : PeerManager :=
  mkPeerManager (pm_build pm) (pm_peers pm) (pm_poisoned pm) l (pm_out pm) (pm_opt_pending pm).
Definition pm_set_pending (o : option OPeerManagerMessage) (pm : PeerManager) : PeerManager :=
  mkPeerManager (pm_build pm) (pm_peers pm) (pm_poisoned pm) (pm_threads pm) (pm_out pm) o.
Definition pm_set_out (out : list OPeerManagerMessage) (pm : PeerManager) : PeerManager :=
  mkPeerManager (pm_build pm) (pm_peers pm) (pm_poisoned pm) (pm_threads pm) out (pm_opt_pending pm).

Definition th_push (m : IPeerManagerMessage) (t : PeerThreads) : PeerThreads :=
  mkThreads (th_info t) (th_queue t ++ [m]) (th_sender t) (th_writer t) (th_reader t) (th_codec t) (th_codec_poisoned t) (th_unread t) (th_written t).
Definition th_drop_sender (t : PeerThreads) : PeerThreads :=
  mkThreads (th_info t) (th_queue t) false (th_writer t) (th_reader t) (th_codec t) (th_codec_poisoned t) (th_unread t) (th_written t).

(** ** The sink *)

(** [task_split::run_peer]: the threads and the sender of their channel. [clone_ok] is
    whether [peer.try_clone()] succeeds; otherwise the [unwrap] panics. *)
Definition run_peer (clone_ok : bool) (info : PeerInfo) : option PeerThreads :=
  if clone_ok then Some (mkThreads info [] true WriterStart true PeerWireMessageCodec_new false [] []) else None.

(** [while let Ok(mut guard) = self.peers.try_lock() { call(..); break; }]: without the lock
    nothing is done. The first result is whether the call panicked. *)
Definition run_with_lock_sink (contended : bool) (call : PeerManager -> option PeerManager) (pm : PeerManager) : bool * PeerManager :=
  if contended || pm_poisoned pm then (false, pm)
  else match call pm with Some pm => (false, pm) | None => (true, pm_poison pm) end.

(** [peers.get_mut(&info).unwrap().send(item).expect(..)]. *)
Definition send_to_peer (info : PeerInfo) (item : IPeerManagerMessage) (pm : PeerManager) : option PeerManager :=
  match pm_peers pm !! peer_key info with
  | None => None
  | Some id =>
      match pm_threads pm !! id with
      | None => None
      | Some t =>
          if bool_decide (th_writer t = WriterEnded) then None
          else Some (pm_set_threads (<[id := th_push item t]> (pm_threads pm)) pm)
      end
  end.

Definition add_peer (clone_ok : bool) (info : PeerInfo) (pm : PeerManager) : option PeerManager :=
  if pb_peer (pm_build pm) <=? Z.of_nat (size (pm_peers pm)) then None
  else match pm_peers pm !! peer_key info with
       | Some _ => None
       | None =>
           match run_peer clone_ok info with
           | None => None
           | Some t =>
               Some (mkPeerManager (pm_build pm) (<[peer_key info := length (pm_threads pm)]> (pm_peers pm)) (pm_poisoned pm)
                       (pm_threads pm ++ [t]) (pm_out pm) (pm_opt_pending pm))
           end
       end.

Definition peer_send (contended clone_ok : bool) (item : IPeerManagerMessage) (pm : PeerManager) : bool * PeerManager :=
  match item with
  | AddPeer info => run_with_lock_sink contended (add_peer clone_ok info) pm
  | RemovePeer info => run_with_lock_sink contended (send_to_peer info (RemovePeer info)) pm
  | SendMessage info mid m => run_with_lock_sink contended (send_to_peer info (SendMessage info mid m)) pm
  end.

(** ** The stream *)

(** The peer a message takes out of the map. *)
Definition removed_peer (m : OPeerManagerMessage) : option PeerInfo :=
  match m with PeerRemoved info | PeerDisconnect info | PeerError info _ => Some info | _ => None end.

(** A poll that has a message: the message passed on and whether the call panicked. Without
    the lock the message is stashed. Removing the entry drops its sender. *)
Definition run_with_lock_poll (contended : bool) (m : OPeerManagerMessage) (info : PeerInfo) (pm : PeerManager) : option OPeerManagerMessage * bool * PeerManager :=
  if contended || pm_poisoned pm then (None, false, pm_set_pending (Some m) pm)
  else match pm_peers pm !! peer_key info with
       | None => (None, true, pm_poison pm)
       | Some id =>
           (Some m, false,
            mkPeerManager (pm_build pm) (delete (peer_key info) (pm_peers pm)) (pm_poisoned pm)
              (alter th_drop_sender id (pm_threads pm)) (pm_out pm) (pm_opt_pending pm))
       end.

(** [None] is a poll that waits for a message. *)
Definition peer_poll (contended : bool) (pm : PeerManager) : option (option OPeerManagerMessage * bool * PeerManager) :=
  let next := match pm_opt_pending pm, pm_out pm with
              | Some m, _ => Some (m, pm_set_pending None pm)
              | None, m :: out => Some (m, pm_set_out out pm)
              | None, [] => None
              end in
  match next with
  | None => None
  | Some (m, pm) =>
      Some (match removed_peer m with
            | Some info => run_with_lock_poll contended m info pm
            | None => (Some m, false, pm)
            end)
  end.

(** ** The threads of a peer *)

Section Threads.
Context `{Nom}.

Definition th_set_writer (w : WriterState) (queue : list IPeerManagerMessage) (t : PeerThreads) : PeerThreads :=
  mkThreads (th_info t) queue (th_sender t) w (th_reader t) (th_codec t) (th_codec_poisoned t) (th_unread t) (th_written t).

(** A round of the writing thread. [write_ok] is whether cloning the socket and writing
    succeed; otherwise, or when the message cannot be encoded, the thread panics with the
    codec locked. A poisoned codec lets it wait for ever: [None]. *)
Definition writer_step (write_ok : bool) (t : PeerThreads) : option (list OPeerManagerMessage * PeerThreads) :=
  match th_writer t with
  | WriterStart => Some ([PeerAdded (th_info t)], th_set_writer WriterLoop (th_queue t) t)
  | WriterEnded => None
  | WriterLoop =>
      match th_queue t with
      | SendMessage info mid m :: queue =>
          if th_codec_poisoned t then None
          else
            match codec_write_bytes m (th_codec t) with
            | (Ok bytes, c) =>
                if write_ok then
                  Some ([SentMessage info mid],
                        mkThreads (th_info t) queue (th_sender t) WriterLoop (th_reader t) c false (th_unread t) (th_written t ++ bytes))
                else Some ([], mkThreads (th_info t) queue (th_sender t) WriterEnded (th_reader t) (th_codec t) true (th_unread t) (th_written t))
            | _ => Some ([], mkThreads (th_info t) queue (th_sender t) WriterEnded (th_reader t) (th_codec t) true (th_unread t) (th_written t))
            end
      | RemovePeer info :: queue => Some ([PeerRemoved info], th_set_writer WriterEnded queue t)
      | AddPeer _ :: queue => Some ([], th_set_writer WriterEnded queue t)
      | [] => if th_sender t then None else Some ([PeerDisconnect (th_info t)], th_set_writer WriterEnded [] t)
      end
  end.

(** [while let Ok(msg) = msg_codec.parse_bytes(..)]: the messages passed on, and what is left
    unless it panics. *)
Fixpoint reader_loop (fuel : nat) (data : list Z) (c : PeerWireMessageCodec) : list PeerWireProtocolMessage * option (list Z * PeerWireMessageCodec) :=
  match fuel with
  | O => ([], None)
  | S fuel =>
      match codec_parse_bytes data c with
      | (Ok msg, c) =>
          let message_size := PeerWireProtocolMessage_message_size msg in
          if (message_size <=? length data)%nat then
            let '(msgs, rest) := reader_loop fuel (drop message_size data) c in (msg :: msgs, rest)
          else ([], None)
      | (Err _, c) => ([], Some (data, c))
      | _ => ([], None)
      end
  end.

(** A round of the reading thread that reads [received] (nothing when the read fails); a
    panic of the parser poisons the codec and ends it, and so does, when logging is enabled
    ([log_info]), the log line that slices the first four bytes. A message has at least four
    bytes, so that the rounds of the loop are fewer than the bytes. *)
Definition reader_step (log_info : bool) (received : list Z) (t : PeerThreads) : option (list OPeerManagerMessage * PeerThreads) :=
  if negb (th_reader t) || th_codec_poisoned t then None
  else
    let data := th_unread t ++ take (READ_BUFFER_LEN - length (th_unread t)) received in
    let '(msgs, rest) := if log_info && (length data <? 4)%nat then ([], None) else reader_loop (S (length data)) data (th_codec t) in
    Some (map (ReceivedMessage (th_info t)) msgs,
          match rest with
          | Some (rest, c) => mkThreads (th_info t) (th_queue t) (th_sender t) (th_writer t) true c false rest (th_written t)
          | None => mkThreads (th_info t) (th_queue t) (th_sender t) (th_writer t) false (th_codec t) true (th_unread t) (th_written t)
          end).

(** A step of a thread of the [id]th peer. *)
Definition run_thread (step : PeerThreads -> option (list OPeerManagerMessage * PeerThreads)) (id : nat) (pm : PeerManager)
    : option (list OPeerManagerMessage * PeerManager) :=
  match pm_threads pm !! id with
  | None => None
  | Some t =>
      match step t with
      | None => None
      | Some (msgs, t) => Some (msgs, pm_set_out (pm_out pm ++ msgs) (pm_set_threads (<[id := t]> (pm_threads pm)) pm))
      end
  end.
End Threads.
