(* ===== verification/PeerManagerSpec.v ===== *)
(** * The peer manager: properties

    Over all interleavings of sinks, the stream and the threads of the peers: every message
    a peer's thread accepts is answered once and in order, the stream hands out the answers
    in order and never panics; and how one misuse of the sink stops the manager for good. *)

From stdpp Require Import gmap.
From S2P Require Import Prelude RustStd UtilSha UtilConvert Nom PeerMessage Handshake PeerManager.

Section Runs.
Context `{Nom}.
Implicit Types (pm : PeerManager) (t : PeerThreads).

(** The bound of the reader's loop is never reached: more fuel changes nothing. *)
Lemma reader_loop_fuel fuel : forall fuel' data c, (length data < fuel)%nat -> (length data < fuel')%nat -> reader_loop fuel data c = reader_loop fuel' data c.
Proof.
  induction fuel as [|fuel IH]; intros [|fuel'] data c Hf Hf'; try lia. cbn [reader_loop]. destruct (codec_parse_bytes data c) as [[msg|er| |] c']; try done.
  set (n := PeerWireProtocolMessage_message_size msg). assert (Hn : (4 <= n)%nat) by (unfold n, PeerWireProtocolMessage_message_size, MESSAGE_LENGTH_LEN_BYTES; lia).
  destruct (Nat.leb_spec n (length data)); [|done]. by rewrite (IH fuel') by (rewrite length_drop; lia).
Qed.

(** ** Runs *)

Definition item_peer (item : IPeerManagerMessage) : PeerInfo := match item with AddPeer p | RemovePeer p | SendMessage p _ _ => p end.

(** The thread that accepts a message. *)
Definition taken (contended : bool) (item : IPeerManagerMessage) pm : list (nat * IPeerManagerMessage) :=
  if contended || pm_poisoned pm then []
  else match item with
       | AddPeer _ => []
       | _ => match send_to_peer (item_peer item) item pm, pm_peers pm !! peer_key (item_peer item) with
              | Some _, Some id => [(id, item)]
              | _, _ => []
              end
       end.

(** What happened: the messages the threads took, those they sent, and those the stream
    handed out. *)
Record history : Type := mkHistory {
  hs_taken : list (nat * IPeerManagerMessage);
  hs_sent : list (nat * OPeerManagerMessage);
  hs_polled : list OPeerManagerMessage
}.

Inductive peer_step : PeerManager -> history -> PeerManager -> history -> Prop :=
| step_send contended clone_ok item pm h p pm' : peer_send contended clone_ok item pm = (p, pm') ->
    peer_step pm h pm' (mkHistory (hs_taken h ++ taken contended item pm) (hs_sent h) (hs_polled h))
| step_poll contended pm h r p pm' : peer_poll contended pm = Some (r, p, pm') ->
    peer_step pm h pm' (mkHistory (hs_taken h) (hs_sent h) (hs_polled h ++ option_list r))
| step_write write_ok id pm h msgs pm' : run_thread (writer_step write_ok) id pm = Some (msgs, pm') ->
    peer_step pm h pm' (mkHistory (hs_taken h) (hs_sent h ++ map (pair id) msgs) (hs_polled h))
| step_read log_info received id pm h msgs pm' : run_thread (reader_step log_info received) id pm = Some (msgs, pm') ->
    peer_step pm h pm' (mkHistory (hs_taken h) (hs_sent h ++ map (pair id) msgs) (hs_polled h)).

Inductive peer_run : PeerManager -> history -> PeerManager -> history -> Prop :=
| peer_run_refl pm h : peer_run pm h pm h
| peer_run_step pm h pm1 h1 pm2 h2 : peer_run pm h pm1 h1 -> peer_step pm1 h1 pm2 h2 -> peer_run pm h pm2 h2.

Definition no_history : history := mkHistory [] [] [].

(** ** The map of peers and the messages that remove from it *)

Definition removals (l : list OPeerManagerMessage) : list PeerKey := omap (fun m => peer_key <$> removed_peer m) l.
Definition waiting pm : list OPeerManagerMessage := option_list (pm_opt_pending pm) ++ pm_out pm.

Lemma removals_app l k : removals (l ++ k) = removals l ++ removals k.
Proof. apply omap_app. Qed.

(** An item of a peer's channel. *)
Definition item_for (p : PeerInfo) (item : IPeerManagerMessage) : Prop :=
  peer_key (item_peer item) = peer_key p /\ match item with AddPeer _ => False | _ => True end.

Record pm_ok pm : Prop := {
  po_map k id : pm_peers pm !! k = Some id -> exists t, pm_threads pm !! id = Some t /\ peer_key (th_info t) = k /\ th_sender t = true;
  po_sender id t : pm_threads pm !! id = Some t -> th_sender t = true -> pm_peers pm !! peer_key (th_info t) = Some id;
  po_dropped id t : pm_threads pm !! id = Some t -> th_sender t = false -> th_writer t = WriterEnded;
  po_queue id t : pm_threads pm !! id = Some t -> Forall (item_for (th_info t)) (th_queue t);
  po_once : NoDup (removals (waiting pm));
  po_ended k : k ∈ removals (waiting pm) -> exists id t, pm_peers pm !! k = Some id /\ pm_threads pm !! id = Some t /\ th_writer t = WriterEnded
}.

(** A step that replaces a thread and sends messages. *)
Lemma pm_ok_thread pm id t t' msgs : pm_ok pm -> pm_threads pm !! id = Some t ->
  th_info t' = th_info t -> th_sender t' = th_sender t -> (th_writer t = WriterEnded -> th_writer t' = WriterEnded) -> Forall (item_for (th_info t)) (th_queue t') ->
  (removals msgs = [] \/ removals msgs = [peer_key (th_info t)] /\ th_writer t <> WriterEnded /\ th_writer t' = WriterEnded) ->
  pm_ok (pm_set_out (pm_out pm ++ msgs) (pm_set_threads (<[id := t']> (pm_threads pm)) pm)).
Proof.
  intros [Hm Hs Hd Hq Ho He] Ht Hi Hse Hw Hqt Hr. pose proof (lookup_lt_Some _ _ _ Ht) as Hlt.
  assert (Hlook : forall id2 t2, <[id := t']> (pm_threads pm) !! id2 = Some t2 -> (id2 = id /\ t2 = t') \/ pm_threads pm !! id2 = Some t2).
  { intros id2 t2 [(-> & -> & _)|[_ Hx]]%list_lookup_insert_Some; [by left|by right]. }
  assert (Hend : forall k id2 t2, pm_peers pm !! k = Some id2 -> pm_threads pm !! id2 = Some t2 -> th_writer t2 = WriterEnded ->
    exists id3 t3, pm_peers pm !! k = Some id3 /\ <[id := t']> (pm_threads pm) !! id3 = Some t3 /\ th_writer t3 = WriterEnded).
  { intros k id2 t2 Hk H2 Hw2. exists id2. destruct (decide (id = id2)) as [<-|Hne].
    - exists t'. rewrite list_lookup_insert_eq by done. rewrite Ht in H2. injection H2 as <-. auto.
    - exists t2. rewrite list_lookup_insert_ne by done. auto. }
  split; cbn [pm_set_out pm_set_threads pm_peers pm_threads].
  - intros k id2 Hk. destruct (Hm _ _ Hk) as (t2 & H2 & Hk2 & Hs2). destruct (decide (id = id2)) as [<-|Hne].
    + exists t'. rewrite list_lookup_insert_eq by done. rewrite Ht in H2. injection H2 as <-. by rewrite Hi, Hse.
    + exists t2. by rewrite list_lookup_insert_ne.
  - intros id2 t2 [[-> ->]|H2]%Hlook; [rewrite Hi, Hse; by apply Hs|by apply Hs].
  - intros id2 t2 [[-> ->]|H2]%Hlook; [rewrite Hse; intros Hx; by apply Hw, (Hd id t)|by apply (Hd id2)].
  - intros id2 t2 [[-> ->]|H2]%Hlook; [by rewrite Hi|by apply (Hq id2)].
  - unfold waiting in *. cbn [pm_set_out pm_set_threads pm_opt_pending pm_out]. rewrite app_assoc, removals_app. destruct Hr as [->|(-> & Hne & _)]; [by rewrite app_nil_r|].
    apply NoDup_app. split; [done|]. split; [|apply NoDup_singleton]. intros k Hk ->%list_elem_of_singleton. destruct (He _ Hk) as (id2 & t2 & Hk2 & H2 & Hw2).
    destruct (th_sender t) eqn:Es; [|by destruct Hne; apply (Hd id)]. rewrite (Hs id t Ht Es) in Hk2. injection Hk2 as <-. rewrite Ht in H2. by injection H2 as <-.
  - unfold waiting in *. cbn [pm_set_out pm_set_threads pm_opt_pending pm_out]. rewrite app_assoc, removals_app. intros k [Hk|Hk]%elem_of_app.
    + destruct (He _ Hk) as (id2 & t2 & Hk2 & H2 & Hw2). by eapply Hend.
    + destruct Hr as [Hr|(Hr & Hne & Hw')]; rewrite Hr in Hk; [by apply elem_of_nil in Hk|]. apply list_elem_of_singleton in Hk as ->.
      destruct (th_sender t) eqn:Es; [|by destruct Hne; apply (Hd id)]. exists id, t'. rewrite list_lookup_insert_eq by done. by rewrite (Hs id t Ht Es).
Qed.

(** ** Answers *)

Definition is_send (item : IPeerManagerMessage) : Prop := match item with SendMessage _ _ _ => True | _ => False end.
Definition ack (item : IPeerManagerMessage) : OPeerManagerMessage :=
  match item with AddPeer p => PeerAdded p | RemovePeer p => PeerRemoved p | SendMessage p mid _ => SentMessage p mid end.
Definition is_received (m : OPeerManagerMessage) : bool := match m with ReceivedMessage _ _ => true | _ => false end.

Definition of_thread {A} (id : nat) (l : list (nat * A)) : list A := map snd (filter (fun x => x.1 = id) l).
(** What the writing thread of a peer sent. *)
Definition written_by (id : nat) (l : list (nat * OPeerManagerMessage)) : list OPeerManagerMessage := List.filter (fun m => negb (is_received m)) (of_thread id l).

Lemma of_thread_app {A} id (l k : list (nat * A)) : of_thread id (l ++ k) = of_thread id l ++ of_thread id k.
Proof. unfold of_thread. by rewrite filter_app, map_app. Qed.
Lemma of_thread_same {A} id (msgs : list A) : of_thread id (map (pair id) msgs) = msgs.
Proof. unfold of_thread. induction msgs as [|m msgs IH]; [done|]. cbn [map]. rewrite filter_cons_True by done. cbn. by f_equal. Qed.
Lemma of_thread_other {A} id id2 (msgs : list A) : id2 <> id -> of_thread id2 (map (pair id) msgs) = [].
Proof. intros Hne. unfold of_thread. induction msgs as [|m msgs IH]; [done|]. cbn [map]. rewrite filter_cons_False by done. done. Qed.
Lemma of_thread_none {A} id (l : list (nat * A)) n : Forall (fun x => x.1 < n)%nat l -> (n <= id)%nat -> of_thread id l = [].
Proof.
  intros Hl Hn. unfold of_thread. induction Hl as [|x l Hx Hl IH]; [done|]. rewrite filter_cons_False by lia. done.
Qed.
Lemma written_by_app id l k : written_by id (l ++ k) = written_by id l ++ written_by id k.
Proof. unfold written_by. by rewrite of_thread_app, List.filter_app. Qed.

(** The answers to the messages [done] a writing thread has taken from its channel: it
    announces itself, acknowledges what it wrote, and ends with a removal or a failure. *)
Definition thread_answers t (done : list IPeerManagerMessage) (out : list OPeerManagerMessage) : Prop :=
  match th_writer t with
  | WriterStart => done = [] /\ out = []
  | WriterLoop => Forall is_send done /\ out = PeerAdded (th_info t) :: map ack done
  | WriterEnded => exists sends item, done = sends ++ [item] /\ Forall is_send sends /\
      (~ is_send item /\ out = PeerAdded (th_info t) :: map ack done \/
       is_send item /\ out = PeerAdded (th_info t) :: map ack sends /\ th_codec_poisoned t = true)
  end.

Record answers_ok pm (h : history) : Prop := {
  an_stream : map snd (hs_sent h) = hs_polled h ++ waiting pm;
  an_thread id t : pm_threads pm !! id = Some t -> exists done, of_thread id (hs_taken h) = done ++ th_queue t /\ thread_answers t done (written_by id (hs_sent h));
  an_taken : Forall (fun x => x.1 < length (pm_threads pm))%nat (hs_taken h);
  an_sent : Forall (fun x => x.1 < length (pm_threads pm))%nat (hs_sent h)
}.

Lemma answers_thread pm h id t t' msgs : answers_ok pm h -> pm_threads pm !! id = Some t ->
  (forall done out, thread_answers t done out -> exists done', done ++ th_queue t = done' ++ th_queue t' /\ thread_answers t' done' (out ++ List.filter (fun m => negb (is_received m)) msgs)) ->
  answers_ok (pm_set_out (pm_out pm ++ msgs) (pm_set_threads (<[id := t']> (pm_threads pm)) pm)) (mkHistory (hs_taken h) (hs_sent h ++ map (pair id) msgs) (hs_polled h)).
Proof.
  intros [Hst Hth Hta Hse] Ht Hstep. pose proof (lookup_lt_Some _ _ _ Ht) as Hlt. split; cbn [pm_set_out pm_set_threads pm_threads hs_taken hs_sent hs_polled].
  - rewrite map_app, Hst, map_map. cbn. rewrite map_id. unfold waiting. cbn [pm_opt_pending pm_out]. by rewrite <- !app_assoc.
  - intros id2 t2 [(<- & <- & _)|[Hne H2]]%list_lookup_insert_Some.
    + destruct (Hth id t Ht) as (done & Hd & Ha). destruct (Hstep _ _ Ha) as (done' & Hd' & Ha'). exists done'. rewrite Hd, Hd'. split; [done|].
      rewrite written_by_app. unfold written_by at 2. by rewrite of_thread_same.
    + destruct (Hth id2 t2 H2) as (done & Hd & Ha). exists done. split; [done|]. rewrite written_by_app. unfold written_by at 2. rewrite of_thread_other by done. cbn. by rewrite app_nil_r.
  - by rewrite length_insert.
  - rewrite length_insert. apply Forall_app. split; [done|]. apply Forall_map, Forall_forall. intros m _. exact Hlt.
Qed.

(** ** The threads *)

Lemma writer_ok write_ok id pm h msgs pm' : pm_ok pm -> answers_ok pm h -> run_thread (writer_step write_ok) id pm = Some (msgs, pm') ->
  pm_ok pm' /\ answers_ok pm' (mkHistory (hs_taken h) (hs_sent h ++ map (pair id) msgs) (hs_polled h)).
Proof.
  intros Hok Han E. unfold run_thread in E. destruct (pm_threads pm !! id) as [t|] eqn:Et; [|done]. pose proof (po_queue _ Hok _ _ Et) as Hq.
  assert (Hsnd : th_writer t <> WriterEnded -> th_sender t = true) by (intros Hw; destruct (th_sender t) eqn:Es; [done|]; by destruct Hw; apply (po_dropped _ Hok id)).
  destruct (writer_step write_ok t) as [[msgs' t']|] eqn:Ew; [|done]. injection E as <- <-. unfold writer_step in Ew.
  destruct (th_writer t) eqn:Hw; [|destruct (th_queue t) as [|[p|p|p mid m] queue] eqn:Hqueue|done].
  - injection Ew as <- <-. split; [apply (pm_ok_thread pm id t); [done| done| done| done| by cbn; congruence| done | by left]|]. apply (answers_thread pm h id t); [done..|]. intros done out. unfold thread_answers. rewrite Hw. intros [-> ->].
    exists []. split; [done|]. split; [constructor|done].
  - by rewrite Hsnd in Ew.
  - apply Forall_cons in Hq as [[_ Hx] _]. done.
  - injection Ew as <- <-. apply Forall_cons in Hq as [[Hx _] Hq]. split.
    + apply (pm_ok_thread pm id t); [done..|]. right. cbn in *. rewrite Hx. by rewrite Hw.
    + apply (answers_thread pm h id t); [done..|]. intros done out. unfold thread_answers. rewrite Hw, Hqueue. intros [Hf ->]. exists (done ++ [RemovePeer p]). split; [by rewrite <- app_assoc|].
      cbn [th_writer th_set_writer]. exists done, (RemovePeer p). split; [done|]. split; [done|]. left. split; [by intros []|]. cbn. by rewrite map_app.
  - destruct (th_codec_poisoned t) eqn:Hp; [done|]. apply Forall_cons in Hq as [_ Hq].
    assert (Hfail : forall t2, t2 = mkThreads (th_info t) queue (th_sender t) WriterEnded (th_reader t) (th_codec t) true (th_unread t) (th_written t) ->
      pm_ok (pm_set_out (pm_out pm ++ []) (pm_set_threads (<[id := t2]> (pm_threads pm)) pm)) /\
      answers_ok (pm_set_out (pm_out pm ++ []) (pm_set_threads (<[id := t2]> (pm_threads pm)) pm)) (mkHistory (hs_taken h) (hs_sent h ++ map (pair id) []) (hs_polled h))).
    { intros t2 ->. split; [apply (pm_ok_thread pm id t); [done| done| done| done| by cbn; congruence| done | by left]|]. apply (answers_thread pm h id t); [done..|]. intros done out. unfold thread_answers. rewrite Hw, Hqueue. intros [Hf ->].
      exists (done ++ [SendMessage p mid m]). split; [by rewrite <- app_assoc|]. cbn [th_writer]. exists done, (SendMessage p mid m). split; [done|]. split; [done|]. right.
      split; [done|]. split; [by rewrite app_nil_r|done]. }
    destruct (codec_write_bytes m (th_codec t)) as [[bytes|er| |] c]; [destruct write_ok|..]; injection Ew as <- <-; [|by apply Hfail..].
    split; [apply (pm_ok_thread pm id t); [done| done| done| done| by cbn; congruence| done | by left]|]. apply (answers_thread pm h id t); [done..|]. intros done out. unfold thread_answers. rewrite Hw, Hqueue. intros [Hf ->].
    exists (done ++ [SendMessage p mid m]). split; [by rewrite <- app_assoc|]. cbn [th_writer]. split; [apply Forall_app; split; [done|by repeat constructor]|]. cbn. by rewrite map_app.
Qed.

Lemma reader_ok log_info received id pm h msgs pm' : pm_ok pm -> answers_ok pm h -> run_thread (reader_step log_info received) id pm = Some (msgs, pm') ->
  pm_ok pm' /\ answers_ok pm' (mkHistory (hs_taken h) (hs_sent h ++ map (pair id) msgs) (hs_polled h)).
Proof.
  intros Hok Han E. unfold run_thread in E. destruct (pm_threads pm !! id) as [t|] eqn:Et; [|done]. pose proof (po_queue _ Hok _ _ Et) as Hq.
  destruct (reader_step log_info received t) as [[msgs' t']|] eqn:Ew; [|done]. injection E as <- <-. unfold reader_step in Ew. destruct (negb (th_reader t) || th_codec_poisoned t) eqn:Hp; [done|].
  apply orb_false_elim in Hp as [_ Hp]. destruct (if _ : bool then _ else _) as [got rest]. injection Ew as <- <-.
  assert (Hrem : removals (map (ReceivedMessage (th_info t)) got) = []) by (induction got as [|? ? IH]; [done|exact IH]).
  assert (Hfil : List.filter (fun m => negb (is_received m)) (map (ReceivedMessage (th_info t)) got) = []) by (clear; induction got; done).
  split; [apply (pm_ok_thread pm id t); [done|done|by destruct rest as [[]|]..|by left]|]. apply (answers_thread pm h id t); [done..|]. intros done out Ha. exists done. rewrite Hfil, app_nil_r.
  split; [by destruct rest as [[]|]|]. unfold thread_answers in *. destruct rest as [[rest c]|]; cbn [th_writer th_info th_codec_poisoned]; destruct (th_writer t); try done.
  - destruct Ha as (sends & item & Hd & Hf & [Ho|(_ & _ & Hx)]); [|by rewrite Hp in Hx]. exists sends, item. auto.
  - destruct Ha as (sends & item & Hd & Hf & [Ho|(_ & _ & Hx)]); [|by rewrite Hp in Hx]. exists sends, item. auto.
Qed.

(** ** The sink *)

(** The invariant only reads the map, the threads and the removals that wait. *)
Lemma pm_ok_same pm pm' : pm_ok pm -> pm_peers pm' = pm_peers pm -> pm_threads pm' = pm_threads pm -> removals (waiting pm') = removals (waiting pm) -> pm_ok pm'.
Proof. intros [Hm Hs Hd Hq Ho He] Hp Ht Hr. by split; rewrite ?Hp, ?Ht, ?Hr. Qed.

Lemma answers_same pm pm' h : answers_ok pm h -> pm_threads pm' = pm_threads pm -> waiting pm' = waiting pm -> answers_ok pm' h.
Proof. intros [Hst Hth Hta Hse] Ht Hw. by split; rewrite ?Ht, ?Hw. Qed.

Lemma push_ok pm h id t item : pm_ok pm -> answers_ok pm h -> pm_threads pm !! id = Some t -> item_for (th_info t) item ->
  let pm' := pm_set_threads (<[id := th_push item t]> (pm_threads pm)) pm in
  pm_ok pm' /\ answers_ok pm' (mkHistory (hs_taken h ++ [(id, item)]) (hs_sent h) (hs_polled h)).
Proof.
  intros Hok Han Ht Hi pm'. pose proof (lookup_lt_Some _ _ _ Ht) as Hlt. split.
  - apply (pm_ok_same (pm_set_out (pm_out pm ++ []) pm')); [|done|done|by unfold waiting; cbn; rewrite app_nil_r].
    apply (pm_ok_thread pm id t); [done..| |by left]. cbn. apply Forall_app. split; [by apply (po_queue _ Hok id)|constructor; [exact Hi|constructor]].
  - destruct Han as [Hst Hth Hta Hse]. split; cbn [pm' pm_set_threads pm_threads hs_taken hs_sent hs_polled]; rewrite ?length_insert; [done| |apply Forall_app; split; [done|constructor; [exact Hlt|constructor]]|done].
    intros id2 t2 [(<- & <- & _)|[Hne H2]]%list_lookup_insert_Some.
    + destruct (Hth id t Ht) as (done & Hd & Ha). exists done. split; [|exact Ha]. rewrite of_thread_app, Hd. unfold of_thread at 1. rewrite filter_cons_True by done. cbn. by rewrite <- app_assoc.
    + destruct (Hth id2 t2 H2) as (done & Hd & Ha). exists done. split; [|exact Ha]. rewrite of_thread_app, Hd. unfold of_thread at 1. rewrite filter_cons_False by done. cbn. by rewrite app_nil_r.
Qed.

Lemma added_ok pm h clone_ok info pm' : pm_ok pm -> answers_ok pm h -> add_peer clone_ok info pm = Some pm' -> pm_ok pm' /\ answers_ok pm' h.
Proof.
  intros [Hm Hs Hd Hq Ho He] [Hst Hth Hta Hse] E. unfold add_peer in E. destruct (_ <=? _); [done|]. destruct (pm_peers pm !! peer_key info) eqn:Ek; [done|].
  unfold run_peer in E. destruct clone_ok; [|done]. injection E as <-. set (t0 := mkThreads info _ _ _ _ _ _ _ _).
  assert (Hnew : forall id2 t2, (pm_threads pm ++ [t0]) !! id2 = Some t2 -> pm_threads pm !! id2 = Some t2 \/ id2 = length (pm_threads pm) /\ t2 = t0).
  { intros id2 t2 [Hx|[Hle [Hx <-]%list_lookup_singleton_Some]]%lookup_app_Some; [by left|right]. split; [lia|done]. }
  split.
  - split; cbn [pm_peers pm_threads].
    + intros k id [[<- <-]|[Hne Hk]]%lookup_insert_Some; [exists t0; split; [|done]; by apply list_lookup_middle|].
      destruct (Hm _ _ Hk) as (t & Ht & Hx). exists t. split; [by apply lookup_app_l_Some|done].
    + intros id t [Ht|[-> ->]]%Hnew Hse'; [|by apply lookup_insert_eq]. pose proof (Hs _ _ Ht Hse') as Hx. rewrite lookup_insert_ne; [done|]. intros Heq. by rewrite Heq, Hx in Ek.
    + intros id t [Ht|[-> ->]]%Hnew; [by apply (Hd id)|done].
    + intros id t [Ht|[-> ->]]%Hnew; [by apply (Hq id)|constructor].
    + done.
    + intros k (id & t & Hk & Ht & Hw)%He. exists id, t. split; [|split; [by apply lookup_app_l_Some|done]]. rewrite lookup_insert_ne; [done|]. intros Heq. by rewrite Heq, Hk in Ek.
  - split; cbn [pm_threads]; [done| |by eapply Forall_impl; [done|]; cbn; intros x Hx; rewrite length_app; cbn; lia..].
    intros id t [Ht|[-> ->]]%Hnew; [by apply Hth|]. exists []. unfold written_by. by rewrite !(of_thread_none _ _ (length (pm_threads pm))).
Qed.

Lemma sent_ok contended clone_ok item pm h p pm' : pm_ok pm -> answers_ok pm h -> peer_send contended clone_ok item pm = (p, pm') ->
  pm_ok pm' /\ answers_ok pm' (mkHistory (hs_taken h ++ taken contended item pm) (hs_sent h) (hs_polled h)).
Proof.
  intros Hok Han E. unfold taken. assert (Heta : mkHistory (hs_taken h ++ []) (hs_sent h) (hs_polled h) = h) by (rewrite app_nil_r; by destruct h).
  assert (Hpo : pm_ok (pm_poison pm) /\ answers_ok (pm_poison pm) h) by (split; [by apply (pm_ok_same pm)|by apply (answers_same pm)]).
  assert (Hsnd : forall it, match it with AddPeer _ => False | _ => True end -> run_with_lock_sink contended (send_to_peer (item_peer it) it) pm = (p, pm') ->
    pm_ok pm' /\ answers_ok pm' (mkHistory (hs_taken h ++ (if contended || pm_poisoned pm then [] else match send_to_peer (item_peer it) it pm, pm_peers pm !! peer_key (item_peer it) with Some _, Some id => [(id, it)] | _, _ => [] end)) (hs_sent h) (hs_polled h))).
  { intros it Hit. unfold run_with_lock_sink. destruct (_ || _); [injection 1 as _ <-; by rewrite Heta|]. unfold send_to_peer.
    destruct (pm_peers pm !! _) as [id|] eqn:Ek; [|injection 1 as _ <-; by rewrite Heta]. destruct (po_map _ Hok _ _ Ek) as (t & Ht & Hk & _). rewrite Ht.
    case_bool_decide; injection 1 as _ <-; [by rewrite Heta|]. by apply push_ok. }
  destruct item as [info|info|info mid m]; cbn [peer_send] in E; [|by apply (Hsnd (RemovePeer info))|by apply (Hsnd (SendMessage info mid m))].
  replace (if _ : bool then _ else _) with (@nil (nat * IPeerManagerMessage)) by (by destruct (_ || _)). rewrite Heta. unfold run_with_lock_sink in E. destruct (_ || _); [by injection E as _ <-|].
  destruct (add_peer clone_ok info pm) eqn:Ea; injection E as _ <-; [by eapply added_ok|done].
Qed.

(** ** The stream *)

(** Taking a removed peer out of the map. *)
Lemma removed_ok pm pm1 m info id : pm_ok pm -> pm_peers pm1 = pm_peers pm -> pm_threads pm1 = pm_threads pm -> waiting pm = m :: waiting pm1 -> removed_peer m = Some info ->
  pm_peers pm !! peer_key info = Some id ->
  pm_ok (mkPeerManager (pm_build pm1) (delete (peer_key info) (pm_peers pm)) (pm_poisoned pm1) (alter th_drop_sender id (pm_threads pm)) (pm_out pm1) (pm_opt_pending pm1)).
Proof.
  intros [Hm Hs Hd Hq Ho He] Hp1 Ht1 Hwait Hrem Hid. assert (Hr : removals (waiting pm) = peer_key info :: removals (waiting pm1)) by (rewrite Hwait; cbn; by rewrite Hrem).
  rewrite Hr in Ho, He. apply NoDup_cons in Ho as [Hnin Ho]. destruct (He (peer_key info)) as (? & t0 & Hx & Ht0 & Hw0); [by left|]. rewrite Hid in Hx. injection Hx as <-.
  destruct (Hm _ _ Hid) as (? & Hx & Hk0 & Hs0). rewrite Ht0 in Hx. injection Hx as <-.
  assert (Hother : forall k id2, delete (peer_key info) (pm_peers pm) !! k = Some id2 -> pm_peers pm !! k = Some id2 /\ id2 <> id).
  { intros k id2 [Hne Hk]%lookup_delete_Some. split; [done|]. intros ->. destruct (Hm _ _ Hk) as (t2 & H2 & Hk2 & _). rewrite Ht0 in H2. injection H2 as <-. congruence. }
  assert (Hlook : forall id2 t2, alter th_drop_sender id (pm_threads pm) !! id2 = Some t2 -> id2 = id /\ t2 = th_drop_sender t0 \/ id2 <> id /\ pm_threads pm !! id2 = Some t2).
  { intros id2 t2. destruct (decide (id = id2)) as [<-|Hne]; [rewrite list_lookup_alter_eq, Ht0; injection 1 as <-; by left|rewrite list_lookup_alter_ne by done; by right]. }
  split; cbn [pm_peers pm_threads].
  - intros k id2 [Hk Hne]%Hother. destruct (Hm _ _ Hk) as (t2 & H2 & Hx). exists t2. by rewrite list_lookup_alter_ne.
  - intros id2 t2 [[-> ->]|[Hne H2]]%Hlook Hs2; [done|]. pose proof (Hs _ _ H2 Hs2) as Hx. rewrite lookup_delete_ne; [done|]. intros Heq. rewrite <- Heq, Hid in Hx. by injection Hx as <-.
  - intros id2 t2 [[-> ->]|[Hne H2]]%Hlook; [done|by apply (Hd id2)].
  - intros id2 t2 [[-> ->]|[Hne H2]]%Hlook; [exact (Hq id t0 Ht0)|by apply (Hq id2)].
  - done.
  - intros k Hk. change (k ∈ removals (waiting pm1)) in Hk. destruct (He k) as (id2 & t2 & Hk2 & H2 & Hw2); [by right|].
    assert (Hd2 : delete (peer_key info) (pm_peers pm) !! k = Some id2) by (rewrite lookup_delete_ne; [done|intros <-; by apply Hnin]).
    exists id2, t2. split; [done|]. apply Hother in Hd2 as [_ Hne]. by rewrite list_lookup_alter_ne.
Qed.

Lemma answers_polled pm pm' h r : answers_ok pm h -> waiting pm = option_list r ++ waiting pm' ->
  (forall id t', pm_threads pm' !! id = Some t' -> exists t, pm_threads pm !! id = Some t /\ (t' = t \/ t' = th_drop_sender t)) -> length (pm_threads pm') = length (pm_threads pm) ->
  answers_ok pm' (mkHistory (hs_taken h) (hs_sent h) (hs_polled h ++ option_list r)).
Proof.
  intros [Hst Hth Hta Hse] Hw Ht Hl. split; cbn [hs_taken hs_sent hs_polled]; rewrite ?Hl; [by rewrite Hst, Hw, <- app_assoc| |done|done].
  intros id t' (t & H2 & [->| ->])%Ht; exact (Hth id t H2).
Qed.

Lemma polled_ok contended pm h r p pm' : pm_ok pm -> answers_ok pm h -> peer_poll contended pm = Some (r, p, pm') ->
  p = false /\ pm_ok pm' /\ answers_ok pm' (mkHistory (hs_taken h) (hs_sent h) (hs_polled h ++ option_list r)) /\
  forall m info, r = Some m -> removed_peer m = Some info -> pm_peers pm' !! peer_key info = None.
Proof.
  intros Hok Han E. unfold peer_poll in E.
  assert (Hnext : exists m pm1, waiting pm = m :: waiting pm1 /\ pm_peers pm1 = pm_peers pm /\ pm_threads pm1 = pm_threads pm /\ pm_opt_pending pm1 = None /\
    (match removed_peer m with Some info => run_with_lock_poll contended m info pm1 | None => (Some m, false, pm1) end) = (r, p, pm')).
  { destruct (pm_opt_pending pm) as [m|] eqn:Ep; [|destruct (pm_out pm) as [|m out] eqn:Eo; [done|]]; injection E as E.
    - exists m, (pm_set_pending None pm). unfold waiting at 1. by rewrite Ep.
    - exists m, (pm_set_out out pm). unfold waiting at 1. rewrite Ep, Eo. cbn. unfold waiting. cbn. by rewrite Ep. }
  clear E. destruct Hnext as (m & pm1 & Hw & Hp1 & Ht1 & Hpend & E). assert (Hkeep : forall id t', pm_threads pm1 !! id = Some t' -> exists t, pm_threads pm !! id = Some t /\ (t' = t \/ t' = th_drop_sender t)).
  { rewrite Ht1. intros id t' Hx. exists t'. auto. }
  destruct (removed_peer m) as [info|] eqn:Erem.
  2:{ injection E as <- <- <-. split; [done|]. split; [apply (pm_ok_same pm); [done..|]; rewrite Hw; cbn; by rewrite Erem|]. split; [apply (answers_polled pm); [done..|by rewrite Ht1]|].
      intros ? info [= <-]. congruence. }
  unfold run_with_lock_poll in E. destruct (_ || _).
  - injection E as <- <- <-. assert (Hw1 : waiting (pm_set_pending (Some m) pm1) = waiting pm) by (rewrite Hw; unfold waiting; cbn; by rewrite Hpend).
    split; [done|]. split; [by apply (pm_ok_same pm); [..|rewrite Hw1]|]. split; [|done]. apply (answers_polled pm); [done..|by cbn; rewrite Ht1].
  - rewrite Hp1, Ht1 in E. destruct (po_ended _ Hok (peer_key info)) as (id & t & Hid & Ht & Hwr); [rewrite Hw; cbn; rewrite Erem; by left|]. rewrite Hid in E. injection E as <- <- <-.
    split; [done|]. split; [by eapply removed_ok|]. split.
    + apply (answers_polled pm); [done|exact Hw| |by cbn; rewrite length_alter]. cbn [pm_threads]. intros id2 t2. destruct (decide (id = id2)) as [<-|Hne].
      * rewrite list_lookup_alter_eq, Ht. injection 1 as <-. eauto.
      * rewrite list_lookup_alter_ne by done. eauto.
    + intros ? info2 [= <-] Hx. rewrite Erem in Hx. injection Hx as <-. cbn. apply lookup_delete_eq.
Qed.

(** ** Properties *)

Lemma peer_run_ok b pm h : peer_run (PeerManager_from_builder b) no_history pm h -> pm_ok pm /\ answers_ok pm h.
Proof.
  intros Hrun. remember (PeerManager_from_builder b) as pm0 eqn:E0. remember no_history as h0 eqn:Eh. induction Hrun as [pm h|pm h pm1 h1 pm2 h2 _ IH Hstep]; subst.
  - split; [split|split]; cbn; try done; try constructor; intros k Hk; by apply elem_of_nil in Hk.
  - destruct IH as [Hok Han]; [done..|]. destruct Hstep; [by eapply sent_ok|by eapply polled_ok in Han as (_ & ? & ? & _)|by eapply writer_ok|by eapply reader_ok].
Qed.

(** C14: In every interleaving of the sinks, the stream and the threads of the peers, the
    stream hands out what the threads sent in the order they sent it, and what it has not
    handed out is still waiting; the thread of a peer announces the peer first, then
    answers the messages given to it one by one and in order, until it ends: with the
    answer to a removal, or without an answer on a message that could not be written,
    which leaves the codec of the peer poisoned. Polling never panics, and after the
    message that removes a peer is handed out the peer is out of the map. *)
Theorem peer_messages_are_answered b pm h : peer_run (PeerManager_from_builder b) no_history pm h ->
  map snd (hs_sent h) = hs_polled h ++ waiting pm /\
  (forall id t, pm_threads pm !! id = Some t ->
     exists done, of_thread id (hs_taken h) = done ++ th_queue t /\ thread_answers t done (written_by id (hs_sent h))) /\
  (forall contended r p pm', peer_poll contended pm = Some (r, p, pm') ->
     p = false /\ forall m info, r = Some m -> removed_peer m = Some info -> pm_peers pm' !! peer_key info = None).
Proof.
  intros [Hok Han]%peer_run_ok. destruct Han as [Hst Hth Hta Hse]. split; [done|]. split; [done|]. intros contended r p pm' E.
  eapply (polled_ok contended pm h) in E as (Hp & _ & _ & Hr); [done|done|by split].
Qed.

(** Messages that the sink answers with a panic. *)
Definition misuse (clone_ok : bool) (item : IPeerManagerMessage) pm : Prop :=
  match item with
  | AddPeer info => pb_peer (pm_build pm) <= Z.of_nat (size (pm_peers pm)) \/ is_Some (pm_peers pm !! peer_key info) \/ clone_ok = false
  | RemovePeer info | SendMessage info _ _ =>
      pm_peers pm !! peer_key info = None \/ exists id t, pm_peers pm !! peer_key info = Some id /\ pm_threads pm !! id = Some t /\ th_writer t = WriterEnded
  end.

Lemma misuse_poisons clone_ok item pm : misuse clone_ok item pm -> pm_poisoned pm = false -> peer_send false clone_ok item pm = (true, pm_poison pm).
Proof.
  intros Hm Hp. assert (Hsend : forall info it, (pm_peers pm !! peer_key info = None \/ exists id t, pm_peers pm !! peer_key info = Some id /\ pm_threads pm !! id = Some t /\ th_writer t = WriterEnded) ->
    send_to_peer info it pm = None).
  { intros info it [Hx|(id & t & Hx & Ht & Hw)]; unfold send_to_peer; rewrite Hx; [done|]. rewrite Ht. by rewrite bool_decide_eq_true_2. }
  destruct item; cbn [peer_send misuse] in *; unfold run_with_lock_sink; rewrite Hp; cbn [orb]; [|by rewrite Hsend..].
  unfold add_peer. destruct (Z.leb_spec (pb_peer (pm_build pm)) (Z.of_nat (size (pm_peers pm)))); [done|]. destruct Hm as [?|[[x ->]| ->]]; [lia|done|]. by destruct (pm_peers pm !! _).
Qed.

Lemma poisoned_step pm h pm' h' : peer_step pm h pm' h' -> pm_poisoned pm = true -> pm_poisoned pm' = true /\ pm_peers pm' = pm_peers pm.
Proof.
  intros Hstep Hp. destruct Hstep as [contended clone_ok item pm h p pm' E|contended pm h r p pm' E|ok id pm h msgs pm' E|log_info received id pm h msgs pm' E].
  - destruct item; unfold peer_send, run_with_lock_sink in E; rewrite Hp, orb_true_r in E; by injection E as _ <-.
  - unfold peer_poll, run_with_lock_poll in E. destruct (pm_opt_pending pm); [|destruct (pm_out pm); [done|]]; injection E as E; destruct (removed_peer _); cbn in E; rewrite ?Hp, ?orb_true_r in E; by injection E as _ _ <-.
  - unfold run_thread in E. destruct (_ !! id); [|done]. destruct (writer_step _ _) as [[]|]; [|done]. by injection E as _ <-.
  - unfold run_thread in E. destruct (_ !! id); [|done]. destruct (reader_step _ _ _) as [[]|]; [|done]. by injection E as _ <-.
Qed.

(** C36: Adding a peer that is known, one too many or one whose socket cannot be cloned, or a
    message to a peer that is unknown or whose thread has ended (also between the answer to
    a removal and the poll of it), panics under the lock of the map. The lock is then poisoned for good: whatever the
    threads do afterwards, no peer enters or leaves the map, every message given to a sink
    is lost without a sign, and the stream returns nothing for the first removal and
    stashes it again, so that no later message is ever handed out. *)
Theorem sink_misuse_stops_manager clone_ok item pm : misuse clone_ok item pm -> pm_poisoned pm = false ->
  peer_send false clone_ok item pm = (true, pm_poison pm) /\
  forall h pm' h', peer_run (pm_poison pm) h pm' h' ->
    pm_peers pm' = pm_peers pm /\
    (forall contended clone_ok it, peer_send contended clone_ok it pm' = (false, pm')) /\
    (forall contended m rest info, waiting pm' = m :: rest -> removed_peer m = Some info ->
       exists pm'', peer_poll contended pm' = Some (None, false, pm'') /\ waiting pm'' = waiting pm').
Proof.
  intros Hm Hp. split; [by apply misuse_poisons|]. intros h pm' h' Hrun.
  assert (Hpois : pm_poisoned pm' = true /\ pm_peers pm' = pm_peers pm).
  { remember (pm_poison pm) as pm0 eqn:E0. induction Hrun as [pm1 h1|pm1 h1 pm2 h2 pm3 h3 _ IH Hstep]; [by subst|]. destruct IH as [Hx Hy]; [done|]. apply poisoned_step in Hstep as [? ->]; done. }
  destruct Hpois as [Hx Hy]. split; [done|]. split.
  - intros contended clone_ok' it. destruct it; unfold peer_send, run_with_lock_sink; by rewrite Hx, orb_true_r.
  - intros contended m rest info Hw Hr. unfold peer_poll, run_with_lock_poll. unfold waiting in Hw. destruct (pm_opt_pending pm') as [m'|] eqn:Ep; [|destruct (pm_out pm') as [|m' out] eqn:Eo; [done|]];
      injection Hw as -> Hrest; rewrite Hr; cbn; rewrite Hx, orb_true_r; eexists; (split; [done|]); unfold waiting; cbn; by rewrite ?Ep, ?Eo.
Qed.
End Runs.

(** ** Witnesses *)

(** A schedule, executed; an event that has to wait does nothing. *)
Inductive peer_event : Type := EvSend (contended clone_ok : bool) (item : IPeerManagerMessage) | EvPoll (contended : bool) | EvWrite (write_ok : bool) (id : nat) | EvRead (log_info : bool) (received : list Z) (id : nat).

Definition peer_exec `{Nom} (s : PeerManager * history) (ev : peer_event) : PeerManager * history :=
  let '(pm, h) := s in
  match ev with
  | EvSend contended clone_ok item => ((peer_send contended clone_ok item pm).2, mkHistory (hs_taken h ++ taken contended item pm) (hs_sent h) (hs_polled h))
  | EvPoll contended => match peer_poll contended pm with Some (r, _, pm') => (pm', mkHistory (hs_taken h) (hs_sent h) (hs_polled h ++ option_list r)) | None => s end
  | EvWrite write_ok id => match run_thread (writer_step write_ok) id pm with Some (msgs, pm') => (pm', mkHistory (hs_taken h) (hs_sent h ++ map (pair id) msgs) (hs_polled h)) | None => s end
  | EvRead log_info received id => match run_thread (reader_step log_info received) id pm with Some (msgs, pm') => (pm', mkHistory (hs_taken h) (hs_sent h ++ map (pair id) msgs) (hs_polled h)) | None => s end
  end.

Lemma peer_exec_run `{Nom} evs : forall s0 s, peer_run s0.1 s0.2 s.1 s.2 -> peer_run s0.1 s0.2 (foldl peer_exec s evs).1 (foldl peer_exec s evs).2.
Proof.
  induction evs as [|ev evs IH]; intros s0 [pm h] Hrun; [done|]. apply IH. destruct ev as [contended clone_ok item|contended|ok id|log_info received id]; cbn [peer_exec].
  - apply (peer_run_step _ _ pm h); [done|]. destruct (peer_send contended clone_ok item pm) as [p pm'] eqn:E. by apply (step_send _ clone_ok _ _ _ p).
  - destruct (peer_poll contended pm) as [[[r p] pm']|] eqn:E; [|done]. apply (peer_run_step _ _ pm h); [done|]. by eapply step_poll.
  - destruct (run_thread _ id pm) as [[msgs pm']|] eqn:E; [|done]. apply (peer_run_step _ _ pm h); [done|]. by eapply step_write.
  - destruct (run_thread _ id pm) as [[msgs pm']|] eqn:E; [|done]. apply (peer_run_step _ _ pm h); [done|]. by eapply step_read.
Qed.

Definition one_peer : PeerInfo := PeerInfo_new (V4 (SocketAddrV4_new (Ipv4Addr_new 10 0 0 7) 6881)) (mkShaHash (replicate 20 1)) (mkShaHash (replicate 20 2)) Extensions_new.

(** A peer is added, sent a message, sends one, and is removed while the stream misses the
    lock once. *)
Definition one_peer_events : list peer_event :=
  [EvSend false true (AddPeer one_peer); EvWrite true 0; EvSend false true (SendMessage one_peer 7 Choke); EvSend false true (RemovePeer one_peer); EvPoll false; EvWrite true 0;
   EvRead true [0; 0; 0; 0; 0] 0; EvWrite true 0; EvPoll false; EvPoll false; EvPoll true; EvPoll false].

Definition one_peer_end : PeerManager * history := foldl (peer_exec (H := nom_reference)) (PeerManager_from_builder PeerManagerBuilder_new, no_history) one_peer_events.

Lemma peer_messages_are_answered_witness :
  hs_polled one_peer_end.2 = [PeerAdded one_peer; SentMessage one_peer 7; ReceivedMessage one_peer KeepAlive; PeerRemoved one_peer] /\
  map snd (hs_sent one_peer_end.2) = hs_polled one_peer_end.2 ++ waiting one_peer_end.1.
Proof.
  split; [vm_compute; reflexivity|]. eapply (peer_messages_are_answered (H := nom_reference) PeerManagerBuilder_new).
  apply (peer_exec_run (H := nom_reference) one_peer_events (PeerManager_from_builder PeerManagerBuilder_new, no_history)). apply peer_run_refl.
Defined.

(** A second removal of a peer whose thread has ended but whose first removal has not been
    polled. *)
Definition removed_peer_state : PeerManager :=
  (foldl (peer_exec (H := nom_reference)) (PeerManager_from_builder PeerManagerBuilder_new, no_history)
     [EvSend false true (AddPeer one_peer); EvWrite true 0; EvSend false true (RemovePeer one_peer); EvPoll false; EvWrite true 0]).1.

Lemma sink_misuse_stops_manager_witness :
  peer_send false true (RemovePeer one_peer) removed_peer_state = (true, pm_poison removed_peer_state) /\
  exists pm'', peer_poll false (pm_poison removed_peer_state) = Some (None, false, pm'') /\ waiting pm'' = [PeerRemoved one_peer].
Proof.
  destruct (sink_misuse_stops_manager (H := nom_reference) true (RemovePeer one_peer) removed_peer_state) as [Hpanic Hlater]; [|reflexivity|].
  { right. eexists 0%nat, _. split; [vm_compute; reflexivity|]. split; reflexivity. }
  split; [exact Hpanic|]. destruct (Hlater no_history _ _ (peer_run_refl _ _)) as (_ & _ & Hpoll).
  destruct (Hpoll false (PeerRemoved one_peer) [] one_peer) as (pm'' & E & Hw); [reflexivity|reflexivity|]. exists pm''. split; [exact E|]. rewrite Hw. reflexivity.
Defined.
