(* ===== verification/Select.v ===== *)
(** * Piece selection: modules that talk about peers, extensions and pieces

    Model of [select/base], [select/error.rs], [select/extended], [select/discovery/mod.rs], [select/discovery/error.rs],
    [select/revelation] and [select/uber.rs]: the negotiation of extended messages, the
    module that reveals pieces to peers, and the module that multiplexes messages over the
    others. A discovery module is anything with the operations of [DiscoveryTrait]; a
    list of boxed modules is a list of a type with an instance (a sum type where they
    differ). [res unit] is the outcome of a call that may panic, the errors it returns are
    a sum. A [Duration] is its nanoseconds. The bit set of the crate [bit_set] is the class
    [BitSet] with its laws. *)

From stdpp Require Import gmap.
From S2P Require Import Prelude RustStd BTree Bencode UtilSha UtilConvert TrackerMessage PeerMessage Handshake Metainfo PeerManager.

(** ** Messages and errors *)

Inductive ControlMessage : Type :=
| CtlAddTorrent (m : Metainfo)
| CtlRemoveTorrent (m : Metainfo)
| PeerConnected (info : PeerInfo)
| PeerDisconnected (info : PeerInfo)
| CtlTick (duration : Z).

Inductive DiscoveryError : Type :=
| DiscoveryInvalidMessage (info : PeerInfo) (message : list Z)
| DiscoveryMetainfoExists (hash : ShaHash)
| DiscoveryMetainfoNotExists (hash : ShaHash).

Inductive IDiscoveryMessage : Type :=
| DiscoveryControl (c : ControlMessage)
| DownloadMetainfo (hash : ShaHash)
| ReceivedUtMetadataMessage (info : PeerInfo) (m : UtMetadataMessage).

Inductive ODiscoveryMessage : Type :=
| SendDhtAnnounce (hash : ShaHash)
| SendUdpTrackerAnnounce (hash : ShaHash) (addr : SocketAddr) (state : ClientState)
| SendUtMetadataMessage (info : PeerInfo) (m : UtMetadataMessage)
| DownloadedMetainfo (m : Metainfo).

Inductive IExtendedMessage : Type :=
| ExtendedControl (c : ControlMessage)
| RecievedExtendedMessage (info : PeerInfo) (m : ExtendedMessage).

Inductive OExtendedMessage : Type := SendExtendedMessage (info : PeerInfo) (m : ExtendedMessage).

Record ExtendedPeerInfo : Type := ExtendedPeerInfo_new { ep_ours : option ExtendedMessage; ep_theirs : option ExtendedMessage }.
Definition update_ours (m : ExtendedMessage) (e : ExtendedPeerInfo) : ExtendedPeerInfo := ExtendedPeerInfo_new (Some m) (ep_theirs e).
Definition update_theirs (m : ExtendedMessage) (e : ExtendedPeerInfo) : ExtendedPeerInfo := ExtendedPeerInfo_new (ep_ours e) (Some m).

(** ** Discovery modules *)

(** [ExtendedListener] and [Run]; [run_poll] takes the random number it may draw. *)
Class DiscoveryTrait (M : Type) : Type := {
  extend : PeerInfo -> ExtendedMessageBuilder -> M -> ExtendedMessageBuilder;
  on_update : PeerInfo -> ExtendedPeerInfo -> M -> res unit M;
  run_send : IDiscoveryMessage -> M -> res unit ((DiscoveryError + option IDiscoveryMessage) * M);
  run_poll : Z -> M -> res unit (option (DiscoveryError + ODiscoveryMessage) * M)
}.

(** ** The extended module *)

Record ExtendedModule : Type := mkExtendedModule {
  em_builder : ExtendedMessageBuilder;
  em_peers : gmap PeerKey ExtendedPeerInfo;
  em_out_queue : list OExtendedMessage
}.
Definition ExtendedModule_new (builder : ExtendedMessageBuilder) : ExtendedModule := mkExtendedModule builder ∅ [].

Section Uber.
Context {HO1 : HashOrder ExtendedType Z} {HO2 : HashOrder (list Z) BencodeMut}.
Context {M : Type} `{DiscoveryTrait M}.

(** [for d_module in d_modules { d_module.on_update(..) }]. *)
Fixpoint update_all (info : PeerInfo) (e : ExtendedPeerInfo) (d_modules : list M) : res unit (list M) :=
  match d_modules with
  | [] => Ok []
  | d :: d_modules =>
      let? d := on_update info e d in
      let? d_modules := update_all info e d_modules in
      Ok (d :: d_modules)
  end.

Definition process_message (message : IExtendedMessage) (d_modules : list M) (em : ExtendedModule) : res unit (ExtendedModule * list M) :=
  match message with
  | ExtendedControl (PeerConnected info) =>
      let builder := foldl (fun builder d => extend info builder d) (em_builder em) d_modules in
      let ext_message := ExtendedMessage_from_builder builder in
      let ext_peer_info := ExtendedPeerInfo_new (Some ext_message) None in
      let? d_modules := update_all info ext_peer_info d_modules in
      Ok (mkExtendedModule (em_builder em) (<[peer_key info := ext_peer_info]> (em_peers em))
            (em_out_queue em ++ [SendExtendedMessage info ext_message]), d_modules)
  | ExtendedControl (PeerDisconnected info) =>
      Ok (mkExtendedModule (em_builder em) (delete (peer_key info) (em_peers em)) (em_out_queue em), d_modules)
  | RecievedExtendedMessage info ext_message =>
      match em_peers em !! peer_key info with
      | Some e =>
          let e := update_theirs ext_message e in
          let? d_modules := update_all info e d_modules in
          Ok (mkExtendedModule (em_builder em) (<[peer_key info := e]> (em_peers em)) (em_out_queue em), d_modules)
      | None => Ok (em, d_modules)
      end
  | ExtendedControl _ => Ok (em, d_modules)
  end.

Definition extended_poll (em : ExtendedModule) : option OExtendedMessage * ExtendedModule :=
  match em_out_queue em with
  | [] => (None, em)
  | m :: q => (Some m, mkExtendedModule (em_builder em) (em_peers em) q)
  end.

(** ** The uber module *)

Inductive IUberMessage : Type :=
| UberControl (c : ControlMessage)
| UberExtended (m : IExtendedMessage)
| UberDiscovery (m : IDiscoveryMessage).

Inductive OUberMessage : Type :=
| UberSendExtended (m : OExtendedMessage)
| UberSendDiscovery (m : ODiscoveryMessage).

(** [UberError] only links [DiscoveryError]. *)
Inductive UberError : Type := UberDiscoveryError (e : DiscoveryError).

Inductive ModuleState : Type := StateExtended | StateDiscovery (index : nat).

Record UberModule : Type := mkUber {
  um_extended : option ExtendedModule;
  um_discovery : list M;
  um_last_sink_state : option ModuleState;
  um_last_stream_state : option ModuleState
}.

Record UberModuleBuilder : Type := mkUberBuilder { ub_ext_builder : option ExtendedMessageBuilder; ub_discovery : list M }.
Definition UberModuleBuilder_new : UberModuleBuilder := mkUberBuilder None [].
Definition with_extended_builder (b : option ExtendedMessageBuilder) (u : UberModuleBuilder) : UberModuleBuilder := mkUberBuilder b (ub_discovery u).
Definition with_discovery_module (m : M) (u : UberModuleBuilder) : UberModuleBuilder := mkUberBuilder (ub_ext_builder u) (ub_discovery u ++ [m]).
Definition UberModule_from_builder (b : UberModuleBuilder) : UberModule :=
  mkUber (ExtendedModule_new <$> ub_ext_builder b) (ub_discovery b) None None.

Definition next_state (u : UberModule) (state : option ModuleState) : option ModuleState :=
  let discovery := if (length (um_discovery u) =? 0)%nat then None else Some (StateDiscovery 0) in
  match state with
  | None => if bool_decide (is_Some (um_extended u)) then Some StateExtended else discovery
  | Some StateExtended => discovery
  | Some (StateDiscovery index) => if (index + 1 <? length (um_discovery u))%nat then Some (StateDiscovery (index + 1)) else None
  end.

Fixpoint loop_states {R} (fuel : nat) (is_sink : bool) (result : UberError + option R)
    (get_next_state : UberModule -> option ModuleState) (assign_state : UberModule -> option ModuleState -> UberModule)
    (logic : UberModule -> ModuleState -> res unit ((UberError + option R) * UberModule)) (u : UberModule)
    : res unit ((UberError + option R) * UberModule) :=
  match fuel with
  | O => OutOfFuel
  | S fuel =>
      match get_next_state u with
      | None => Ok (result, assign_state u None)
      | Some state =>
          let? (result, u) := logic u state in
          let should_continue := match result with
                                 | inr v => is_sink || bool_decide (v = None)
                                 | inl _ => false
                                 end in
          if should_continue then loop_states fuel is_sink result get_next_state assign_state logic (assign_state u (Some state))
          else Ok (result, u)
      end
  end.

Definition set_sink_state (u : UberModule) (s : option ModuleState) : UberModule := mkUber (um_extended u) (um_discovery u) s (um_last_stream_state u).
Definition set_stream_state (u : UberModule) (s : option ModuleState) : UberModule := mkUber (um_extended u) (um_discovery u) (um_last_sink_state u) s.
Definition set_discovery (u : UberModule) (index : nat) (d : M) : UberModule :=
  mkUber (um_extended u) (<[index := d]> (um_discovery u)) (um_last_sink_state u) (um_last_stream_state u).

Definition send_extended (message : IExtendedMessage) (u : UberModule) : res unit ((UberError + option unit) * UberModule) :=
  match um_extended u with
  | Some em =>
      let? (em, d_modules) := process_message message (um_discovery u) em in
      Ok (inr None, mkUber (Some em) d_modules (um_last_sink_state u) (um_last_stream_state u))
  | None => Ok (inr None, u)
  end.

Definition send_discovery (index : nat) (message : IDiscoveryMessage) (u : UberModule) : res unit ((UberError + option unit) * UberModule) :=
  let? d := or_panic (um_discovery u !! index) in
  let? (r, d) := run_send message d in
  Ok (match r with inl e => inl (UberDiscoveryError e) | inr v => inr ((fun _ => tt) <$> v) end, set_discovery u index d).

Definition sink_logic (message : IUberMessage) (u : UberModule) (state : ModuleState) : res unit ((UberError + option unit) * UberModule) :=
  match state, message with
  | StateExtended, UberControl control => send_extended (ExtendedControl control) u
  | StateExtended, UberExtended extended => send_extended extended u
  | StateDiscovery index, UberControl control => send_discovery index (DiscoveryControl control) u
  | StateDiscovery index, UberDiscovery discovery => send_discovery index discovery u
  | _, _ => Ok (inr None, u)
  end.

(** Each module is visited at most once. *)
Definition uber_fuel (u : UberModule) : nat := length (um_discovery u) + 2.

Definition start_sink_state (message : IUberMessage) (u : UberModule) : res unit ((UberError + option unit) * UberModule) :=
  loop_states (uber_fuel u) true (inr None) (fun u => next_state u (um_last_sink_state u)) set_sink_state (sink_logic message) u.

(** [draw index] is the random number of the module at [index]. *)
Definition stream_logic (draw : nat -> Z) (u : UberModule) (state : ModuleState) : res unit ((UberError + option OUberMessage) * UberModule) :=
  match state with
  | StateExtended =>
      match um_extended u with
      | Some em =>
          let '(m, em) := extended_poll em in
          Ok (inr (UberSendExtended <$> m), mkUber (Some em) (um_discovery u) (um_last_sink_state u) (um_last_stream_state u))
      | None => Ok (inr None, u)
      end
  | StateDiscovery index =>
      let? d := or_panic (um_discovery u !! index) in
      let? (r, d) := run_poll (draw index) d in
      Ok (match r with
          | Some (inr m) => inr (Some (UberSendDiscovery m))
          | Some (inl e) => inl (UberDiscoveryError e)
          | None => inr None
          end, set_discovery u index d)
  end.

Definition poll_stream_state (draw : nat -> Z) (u : UberModule) : res unit ((UberError + option OUberMessage) * UberModule) :=
  loop_states (uber_fuel u) false (inr None) (fun u => next_state u (um_last_stream_state u)) set_stream_state (stream_logic draw) u.

Definition UberModule_send (item : IUberMessage) (u : UberModule) : res unit ((UberError + option unit) * UberModule) := start_sink_state item u.
Definition UberModule_poll (draw : nat -> Z) (u : UberModule) : res unit ((UberError + option OUberMessage) * UberModule) := poll_stream_state draw u.
End Uber.
Arguments UberModule M : clear implicits.
Arguments UberModuleBuilder M : clear implicits.

(** ** Revealing pieces *)

(** [BitSet<u8>] of the crate [bit_set]; [storage] are the blocks of its [BitVec]. *)
Class BitSet (S : Type) : Type := {
  bit_default : S;
  bit_reserve_len_exact : nat -> S -> S;
  bit_insert : nat -> S -> S;
  bit_contains : nat -> S -> bool;
  bit_is_empty : S -> bool;
  bit_storage : S -> list Z
}.

(** Bit [i] is bit [i mod 8], from the right, of block [i / 8]. *)
Class BitSetLaws (S : Type) `{BitSet S} : Prop := {
  default_contains i : bit_contains i bit_default = false;
  reserve_contains i n s : bit_contains i (bit_reserve_len_exact n s) = bit_contains i s;
  insert_contains i j s : bit_contains i (bit_insert j s) = (i =? j)%nat || bit_contains i s;
  is_empty_contains s : bit_is_empty s = true <-> forall i, bit_contains i s = false;
  storage_ok s : bytes_ok (bit_storage s);
  storage_contains i s : bit_contains i s = Z.testbit (default 0 (bit_storage s !! (i / 8)%nat)) (Z.of_nat (i mod 8))
}.

Inductive RevealError : Type :=
| RevealInvalidMessage (info : PeerInfo) (message : list Z)
| RevealMetainfoExists (hash : ShaHash)
| RevealMetainfoNotExists (hash : ShaHash)
| RevealPieceOutOfRange (hash : ShaHash) (index : Z).

Inductive IRevealMessage : Type :=
| RevealControl (c : ControlMessage)
| RevealFoundGoodPiece (hash : ShaHash) (index : Z)
| ReceivedBitField (info : PeerInfo) (m : BitFieldMessage)
| ReceivedHave (info : PeerInfo) (m : HaveMessage).

Inductive ORevealMessage : Type :=
| SendBitField (info : PeerInfo) (m : BitFieldMessage)
| SendHave (info : PeerInfo) (m : HaveMessage).

(** One step of the loop over the bits of a byte; shifting a byte drops its highest bit. *)
Definition reverse_step (b : Z * Z) : Z * Z :=
  let '(reversed_byte, byte) := b in
  (Z.lor (as_u8 (Z.shiftl reversed_byte 1)) (Z.land byte 1), Z.shiftr byte 1).
Definition reverse_byte (byte : Z) : Z := fst (Nat.iter 8 reverse_step (0, byte)).
Definition insert_reversed_bits (bytes slice : list Z) : list Z := bytes ++ map reverse_byte slice.

Section Honest.
Context {S : Type} `{BitSet S} {HO : HashOrder PeerKey PeerInfo}.

Record PeersInfo : Type := mkPeersInfo { pe_num_pieces : nat; pe_status : S; pe_peers : PeerSet }.

Record HonestRevealModule : Type := mkHonest {
  hr_torrents : gmap ShaHash PeersInfo;
  hr_out_queue : list ORevealMessage;
  hr_out_bytes : list Z
}.
Definition HonestRevealModule_new : HonestRevealModule := mkHonest ∅ [] [].
Abbreviation Answer := (option (RevealError + IRevealMessage)).

Definition reveal_add_torrent (m : Metainfo) (h : HonestRevealModule) : Answer * HonestRevealModule :=
  let info_hash := in_info_hash (mi_info m) in
  match hr_torrents h !! info_hash with
  | Some _ => (Some (inl (RevealMetainfoExists info_hash)), h)
  | None =>
      let num_pieces := length (in_pieces (mi_info m)) in
      let piece_set := bit_reserve_len_exact num_pieces bit_default in
      (None, mkHonest (<[info_hash := mkPeersInfo num_pieces piece_set ∅]> (hr_torrents h)) (hr_out_queue h) (hr_out_bytes h))
  end.

Definition reveal_remove_torrent (m : Metainfo) (h : HonestRevealModule) : Answer * HonestRevealModule :=
  let info_hash := in_info_hash (mi_info m) in
  match hr_torrents h !! info_hash with
  | None => (Some (inl (RevealMetainfoNotExists info_hash)), h)
  | Some _ => (None, mkHonest (delete info_hash (hr_torrents h)) (hr_out_queue h) (hr_out_bytes h))
  end.

(** [out_bytes.split_off(0)] takes all bytes out of the shared buffer. *)
Definition reveal_add_peer (peer : PeerInfo) (h : HonestRevealModule) : Answer * HonestRevealModule :=
  match hr_torrents h !! pi_hash peer with
  | None => (Some (inl (RevealMetainfoNotExists (pi_hash peer))), h)
  | Some pe =>
      let pe := mkPeersInfo (pe_num_pieces pe) (pe_status pe) (peers_insert peer (pe_peers pe)) in
      let torrents := <[pi_hash peer := pe]> (hr_torrents h) in
      if bit_is_empty (pe_status pe) then (None, mkHonest torrents (hr_out_queue h) (hr_out_bytes h))
      else
        let out_bytes := insert_reversed_bits (hr_out_bytes h) (bit_storage (pe_status pe)) in
        let bitfield_bytes := drop 0 out_bytes in
        (None, mkHonest torrents (hr_out_queue h ++ [SendBitField peer (BitFieldMessage_new bitfield_bytes)]) (take 0 out_bytes))
  end.

Definition reveal_remove_peer (peer : PeerInfo) (h : HonestRevealModule) : Answer * HonestRevealModule :=
  match hr_torrents h !! pi_hash peer with
  | None => (Some (inl (RevealMetainfoNotExists (pi_hash peer))), h)
  | Some pe =>
      (None, mkHonest (<[pi_hash peer := mkPeersInfo (pe_num_pieces pe) (pe_status pe) (peers_remove peer (pe_peers pe))]> (hr_torrents h))
               (hr_out_queue h) (hr_out_bytes h))
  end.

Definition insert_piece (hash : ShaHash) (index : Z) (h : HonestRevealModule) : Answer * HonestRevealModule :=
  match hr_torrents h !! hash with
  | None => (Some (inl (RevealMetainfoNotExists hash)), h)
  | Some pe =>
      if Z.of_nat (pe_num_pieces pe) <=? index then (Some (inl (RevealPieceOutOfRange hash index)), h)
      else
        let haves := map (fun peer => SendHave peer (HaveMessage_new (as_u32 index))) (peers_iter (pe_peers pe)) in
        (None, mkHonest (<[hash := mkPeersInfo (pe_num_pieces pe) (bit_insert (Z.to_nat index) (pe_status pe)) (pe_peers pe)]> (hr_torrents h))
                 (hr_out_queue h ++ haves) (hr_out_bytes h))
  end.

Definition reveal_send (item : IRevealMessage) (h : HonestRevealModule) : Answer * HonestRevealModule :=
  match item with
  | RevealControl (CtlAddTorrent m) => reveal_add_torrent m h
  | RevealControl (CtlRemoveTorrent m) => reveal_remove_torrent m h
  | RevealControl (PeerConnected info) => reveal_add_peer info h
  | RevealControl (PeerDisconnected info) => reveal_remove_peer info h
  | RevealFoundGoodPiece hash index => insert_piece hash index h
  | RevealControl (CtlTick _) | ReceivedBitField _ _ | ReceivedHave _ _ => (None, h)
  end.

Definition reveal_poll (h : HonestRevealModule) : option ORevealMessage * HonestRevealModule :=
  match hr_out_queue h with
  | [] => (None, h)
  | m :: q => (Some m, mkHonest (hr_torrents h) q (hr_out_bytes h))
  end.
End Honest.
Arguments PeersInfo S : clear implicits.
Arguments HonestRevealModule S : clear implicits.

Example reverse_sample : map reverse_byte [1; 6; 255; 128] = [128; 96; 255; 1].
Proof. reflexivity. Qed.
