(* ===== verification/SelectSpec.v ===== *)
(** * Piece selection: properties

    The module that reveals pieces tells every connected peer exactly the pieces it has,
    over all histories; the uber module passes a message to its modules in order, and what
    it does after an error. *)

From stdpp Require Import gmap.
From S2P Require Import Prelude RustStd BTree Bencode UtilSha UtilConvert TrackerMessage TrackerMessageSpec PeerMessage PeerMessageSpec Handshake Metainfo PeerManager Select.

(** ** What a message tells a peer *)

Inductive reveal_event : Type := Input (m : IRevealMessage) | Output (m : ORevealMessage).

Definition reveal_dest (o : ORevealMessage) : PeerInfo := match o with SendBitField p _ | SendHave p _ => p end.

(** The pieces of a message, as a peer reads them. *)
Definition told_pieces (o : ORevealMessage) : list Z :=
  match o with
  | SendHave _ m => [have_index m]
  | SendBitField _ m => match BitFieldMessage_iter m with Ok l => map have_index l | _ => [] end
  end.
Definition tells (k : PeerKey) (i : nat) (o : ORevealMessage) : Prop := peer_key (reveal_dest o) = k /\ Z.of_nat i ∈ told_pieces o.

(** The messages since the peer connected for the last time. *)
Definition since_step (k : PeerKey) (acc : list ORevealMessage) (e : reveal_event) : list ORevealMessage :=
  match e with
  | Input (RevealControl (PeerConnected p)) => if decide (peer_key p = k) then [] else acc
  | Input _ => acc
  | Output o => acc ++ [o]
  end.
Definition since (k : PeerKey) (log : list reveal_event) : list ORevealMessage := foldl (since_step k) [] log.

Lemma since_outputs k log item new : since k (log ++ Input item :: map Output new) = since_step k (since k log) (Input item) ++ new.
Proof.
  unfold since. rewrite foldl_app. cbn [foldl]. generalize (since_step k (foldl (since_step k) [] log) (Input item)).
  induction new as [|o new IH]; intros acc; cbn; [by rewrite app_nil_r|]. by rewrite IH, <- app_assoc.
Qed.

(** What the inputs of a history say of a torrent: the number of its pieces, the pieces
    found since it was added, and the peers connected to it. *)
Record Known : Type := mkKnown { kn_pieces : nat; kn_found : gset nat; kn_peers : gset PeerKey }.

Definition known_input (hash : ShaHash) (item : IRevealMessage) (acc : option Known) : option Known :=
  match item, acc with
  | RevealControl (CtlAddTorrent m), None => if decide (in_info_hash (mi_info m) = hash) then Some (mkKnown (length (in_pieces (mi_info m))) ∅ ∅) else None
  | RevealControl (CtlRemoveTorrent m), Some t => if decide (in_info_hash (mi_info m) = hash) then None else acc
  | RevealControl (PeerConnected p), Some t => if decide (pi_hash p = hash) then Some (mkKnown (kn_pieces t) (kn_found t) ({[peer_key p]} ∪ kn_peers t)) else acc
  | RevealControl (PeerDisconnected p), Some t => if decide (pi_hash p = hash) then Some (mkKnown (kn_pieces t) (kn_found t) (kn_peers t ∖ {[peer_key p]})) else acc
  | RevealFoundGoodPiece hash' index, Some t =>
      if decide (hash' = hash /\ index < Z.of_nat (kn_pieces t)) then Some (mkKnown (kn_pieces t) ({[Z.to_nat index]} ∪ kn_found t) (kn_peers t)) else acc
  | _, _ => acc
  end.
Definition known_step (hash : ShaHash) (acc : option Known) (e : reveal_event) : option Known :=
  match e with Input item => known_input hash item acc | Output _ => acc end.
Definition known (hash : ShaHash) (log : list reveal_event) : option Known := foldl (known_step hash) None log.

Lemma known_outputs hash log item new : known hash (log ++ Input item :: map Output new) = known_input hash item (known hash log).
Proof.
  unfold known. rewrite foldl_app. cbn [foldl known_step]. generalize (known_input hash item (foldl (known_step hash) None log)).
  induction new as [|o new IH]; intros acc; cbn; [done|]. apply IH.
Qed.

(** The torrent an input is about. *)
Definition input_hash (item : IRevealMessage) : option ShaHash :=
  match item with
  | RevealControl (CtlAddTorrent m) | RevealControl (CtlRemoveTorrent m) => Some (in_info_hash (mi_info m))
  | RevealControl (PeerConnected p) | RevealControl (PeerDisconnected p) => Some (pi_hash p)
  | RevealFoundGoodPiece hash _ => Some hash
  | _ => None
  end.

Lemma known_other hash item acc : input_hash item <> Some hash -> known_input hash item acc = acc.
Proof.
  intros Hne. unfold known_input. destruct item as [[m|m|p|p|d]|h index|p m|p m], acc as [t|]; cbn in Hne; try done; destruct (decide _) as [E|]; try done;
    [congruence..|]. destruct E as [-> _]. congruence.
Qed.

(** ** Reversed bits *)

Lemma reverse_byte_spec b : is_u8 b -> is_u8 (reverse_byte b) /\
  forall j, (j < 8)%nat -> Z.testbit (reverse_byte b) (7 - Z.of_nat j) = Z.testbit b (Z.of_nat j).
Proof.
  intros Hb. assert (Hall : forallb (fun b => (0 <=? reverse_byte (Z.of_nat b)) && (reverse_byte (Z.of_nat b) <? 256) &&
    forallb (fun j => Bool.eqb (Z.testbit (reverse_byte (Z.of_nat b)) (7 - Z.of_nat j)) (Z.testbit (Z.of_nat b) (Z.of_nat j))) (seq 0 8)) (seq 0 256) = true)
    by (vm_compute; reflexivity).
  rewrite forallb_forall in Hall. specialize (Hall (Z.to_nat b)). rewrite in_seq in Hall. unfold in_unsigned in Hb. specialize (Hall ltac:(lia)).
  rewrite Z2Nat.id in Hall by lia. rewrite !andb_true_iff in Hall. destruct Hall as [[H0 H1] Hj]. split; [unfold in_unsigned; lia|].
  intros j Hlt. rewrite forallb_forall in Hj. apply Bool.eqb_prop, Hj, in_seq. lia.
Qed.

Section Honest.
Context {S : Type} `{BitSetLaws S} {HO : HashOrder PeerKey PeerInfo}.
Implicit Types (h : HonestRevealModule S) (pe : PeersInfo S).

Lemma reversed_bits s i : bit_is_set (map reverse_byte (bit_storage s)) i = bit_contains i s.
Proof.
  rewrite storage_contains. unfold bit_is_set. rewrite list_lookup_fmap. destruct (bit_storage s !! (i / 8)%nat) as [b|] eqn:E; cbn [fmap option_fmap option_map default from_option id]; [|by rewrite Z.testbit_0_l].
  apply reverse_byte_spec; [exact (Forall_lookup_1 _ _ _ _ (storage_ok s) E)|apply Nat.mod_upper_bound; lia].
Qed.

(** A peer reads the pieces of the set from the bit field. *)
Lemma bitfield_tells p s i : (forall j, bit_contains j s = true -> Z.of_nat j < 2 ^ 32) ->
  tells (peer_key p) i (SendBitField p (BitFieldMessage_new (map reverse_byte (bit_storage s)))) <-> bit_contains i s = true.
Proof.
  intros Hs. unfold tells, told_pieces. cbn [reveal_dest]. set (bytes := map reverse_byte (bit_storage s)).
  assert (Hok : bytes_ok bytes) by (apply Forall_map; eapply Forall_impl; [apply storage_ok|intros b; apply reverse_byte_spec]).
  unfold BitFieldMessage_iter. cbn [bitfield]. rewrite (iter_collect_spec bytes Hok (8 * length bytes)) by lia.
  rewrite map_map, list_elem_of_fmap. cbn. split.
  - intros [_ (j & Hj & Hin)]. apply list_elem_of_In, filter_In in Hin as [_ Hin]. unfold bytes in Hin. rewrite reversed_bits in Hin.
    rewrite wrap_id in Hj by (specialize (Hs j Hin); unfold in_unsigned; lia). by replace i with j by lia.
  - intros Hi. split; [done|]. exists i. split; [specialize (Hs i Hi); rewrite wrap_id; [done|unfold in_unsigned; lia]|].
    apply list_elem_of_In, filter_In. split; [|unfold bytes; by rewrite reversed_bits]. apply in_seq.
    rewrite <- reversed_bits in Hi. fold bytes in Hi. unfold bit_is_set in Hi. destruct (bytes !! (i / 8)%nat) eqn:E; [|done].
    apply lookup_lt_Some in E. pose proof (Nat.div_mod_eq i 8). pose proof (Nat.mod_upper_bound i 8). lia.
Qed.

(** ** Histories *)

Definition reveal_ok (item : IRevealMessage) : Prop :=
  match item with
  | RevealControl (CtlAddTorrent m) => Z.of_nat (length (in_pieces (mi_info m))) <= 2 ^ 32
  | RevealFoundGoodPiece _ index => 0 <= index
  | _ => True
  end.

(** The messages a call queues. *)
Definition queued h h' : list ORevealMessage := drop (length (hr_out_queue h)) (hr_out_queue h').

Inductive reveal_run : HonestRevealModule S -> list reveal_event -> Prop :=
| reveal_start : reveal_run HonestRevealModule_new []
| reveal_sent h log item a h' : reveal_run h log -> reveal_ok item -> reveal_send item h = (a, h') ->
    reveal_run h' (log ++ Input item :: map Output (queued h h'))
| reveal_polled h log o h' : reveal_run h log -> reveal_poll h = (o, h') -> reveal_run h' log.

(** A torrent, what its peers were told and what the history says of it. *)
Record revealed (log : list reveal_event) (hash : ShaHash) pe (t : Known) : Prop := {
  rv_pieces : kn_pieces t = pe_num_pieces pe;
  rv_num : Z.of_nat (pe_num_pieces pe) <= 2 ^ 32;
  rv_found i : bit_contains i (pe_status pe) = true <-> i ∈ kn_found t;
  rv_range i : i ∈ kn_found t -> (i < pe_num_pieces pe)%nat;
  rv_key k p : pe_peers pe !! k = Some p -> peer_key p = k /\ pi_hash p = hash;
  rv_peers : kn_peers t = dom (pe_peers pe : gmap PeerKey PeerInfo);
  rv_told k p i : pe_peers pe !! k = Some p -> Exists (tells k i) (since k log) <-> i ∈ kn_found t
}.
Definition reveal_inv h (log : list reveal_event) : Prop :=
  hr_out_bytes h = [] /\ forall hash, option_Forall2 (revealed log hash) (hr_torrents h !! hash) (known hash log).

Lemma inv_torrent h log hash pe : reveal_inv h log -> hr_torrents h !! hash = Some pe -> exists t, known hash log = Some t /\ revealed log hash pe t.
Proof. intros [_ Hi] E. specialize (Hi hash). rewrite E in Hi. inversion Hi; subst. eauto. Qed.
Lemma inv_no_torrent h log hash : reveal_inv h log -> hr_torrents h !! hash = None -> known hash log = None.
Proof. intros [_ Hi] E. specialize (Hi hash). rewrite E in Hi. by inversion Hi. Qed.

(** An event that tells the peers of a torrent nothing. *)
Lemma revealed_keep log item new hash pe t : revealed log hash pe t ->
  (forall p, item = RevealControl (PeerConnected p) -> pi_hash p <> hash) -> Forall (fun o => pi_hash (reveal_dest o) <> hash) new ->
  revealed (log ++ Input item :: map Output new) hash pe t.
Proof.
  intros [Hp0 Hn Hf Hs Hk Hd0 Ht] Hitem Hnew. split; [done..|]. intros k p i Hp. rewrite since_outputs, Exists_app, <- (Ht k p i Hp). destruct (Hk _ _ Hp) as [<- Hh].
  assert (E : since_step (peer_key p) (since (peer_key p) log) (Input item) = since (peer_key p) log).
  { destruct item as [[]| | |]; try done. cbn. destruct (decide _) as [E|]; [|done]. destruct (Hitem _ eq_refl). unfold peer_key in E. congruence. }
  rewrite E. split; [intros [?|Hx]; [done|]|by left]. apply Exists_exists in Hx as (o & Ho & [Hd _]). rewrite Forall_forall in Hnew.
  destruct (Hnew o Ho). unfold peer_key in Hd. congruence.
Qed.

Lemma queued_same h h' : hr_out_queue h' = hr_out_queue h -> queued h h' = [].
Proof. intros E. unfold queued. rewrite E. apply drop_all. Qed.
Lemma queued_app h h' new : hr_out_queue h' = hr_out_queue h ++ new -> queued h h' = new.
Proof. intros E. unfold queued. rewrite E. apply drop_app_length. Qed.

(** A call that only changes the entry of the torrent it is about. *)
Lemma inv_update h h' log item new hash : reveal_inv h log -> hr_out_bytes h' = [] -> hr_out_queue h' = hr_out_queue h ++ new ->
  (forall hash2, hash2 <> hash -> hr_torrents h' !! hash2 = hr_torrents h !! hash2) -> input_hash item = Some hash ->
  Forall (fun o => pi_hash (reveal_dest o) = hash) new ->
  option_Forall2 (revealed (log ++ Input item :: map Output new) hash) (hr_torrents h' !! hash) (known_input hash item (known hash log)) ->
  reveal_inv h' (log ++ Input item :: map Output (queued h h')).
Proof.
  intros [_ Hi] Hb Hq Ht Hitem Hnew Hpe. split; [done|]. rewrite (queued_app _ _ _ Hq). intros hash2. rewrite known_outputs.
  destruct (decide (hash2 = hash)) as [->|Hne]; [done|]. rewrite Ht, known_other by congruence. specialize (Hi hash2).
  destruct Hi; constructor. apply revealed_keep; [done|intros p ->; cbn in Hitem; congruence|]. eapply Forall_impl; [exact Hnew|]. by intros o ->.
Qed.

(** A call that changes nothing. *)
Lemma inv_keep h log item : reveal_inv h log -> (forall hash, known_input hash item (known hash log) = known hash log) ->
  (forall p, item = RevealControl (PeerConnected p) -> hr_torrents h !! pi_hash p = None) ->
  reveal_inv h (log ++ Input item :: map Output (queued h h)).
Proof.
  intros [Hb Hi] Hk Hitem. split; [done|]. rewrite queued_same by done. intros hash. rewrite known_outputs, Hk. specialize (Hi hash).
  destruct (hr_torrents h !! hash) as [pe|] eqn:E; inversion Hi; subst; constructor. apply revealed_keep; [done| |constructor].
  intros p Ep <-. by rewrite (Hitem p Ep) in E.
Qed.

(** An input about a torrent that is not there is refused. *)
Lemma inv_refused h log item hash : reveal_inv h log -> input_hash item = Some hash -> hr_torrents h !! hash = None ->
  (forall m, item <> RevealControl (CtlAddTorrent m)) -> reveal_inv h (log ++ Input item :: map Output (queued h h)).
Proof.
  intros Hi Hitem Et Hadd. apply inv_keep; [done| |intros p ->; cbn in Hitem; congruence]. intros hash2.
  destruct (decide (hash2 = hash)) as [->|Hne]; [|apply known_other; congruence]. rewrite (inv_no_torrent _ _ _ Hi Et).
  destruct item as [[m|m|p|p|d]| | |]; try done. by destruct (Hadd m).
Qed.

Lemma peers_insert_lookup p (s : PeerSet) k q : peers_insert p s !! k = Some q -> s !! k = Some q \/ k = peer_key p /\ q = p /\ s !! k = None.
Proof.
  unfold peers_insert. destruct (s !! peer_key p) eqn:E; [by left|]. intros [[<- <-]|[_ ?]]%lookup_insert_Some; [by right|by left].
Qed.

Lemma peers_insert_dom p (s : PeerSet) : dom (peers_insert p s : gmap PeerKey PeerInfo) = {[peer_key p]} ∪ dom (s : gmap PeerKey PeerInfo).
Proof.
  unfold peers_insert. destruct (s !! peer_key p) eqn:E; [|apply dom_insert_L]. apply elem_of_dom_2 in E. set_solver.
Qed.

Lemma peers_iter_elem p (s : PeerSet) : p ∈ peers_iter s <-> exists k, s !! k = Some p.
Proof.
  unfold peers_iter. rewrite list_elem_of_fmap. setoid_rewrite (hash_entries_perm s). split.
  - intros ([k q] & -> & Hin). exists k. by apply elem_of_map_to_list.
  - intros [k Hk]. exists (k, p). split; [done|]. by apply elem_of_map_to_list.
Qed.

Lemma inv_connected h log peer : reveal_inv h log ->
  reveal_inv (snd (reveal_add_peer peer h)) (log ++ Input (RevealControl (PeerConnected peer)) :: map Output (queued h (snd (reveal_add_peer peer h)))).
Proof.
  intros Hi. unfold reveal_add_peer. destruct (hr_torrents h !! pi_hash peer) as [pe|] eqn:Et; [|by eapply inv_refused].
  destruct (inv_torrent _ _ _ _ Hi Et) as (t & Et2 & [Hp0 Hn Hf Hs Hk Hd0 Ht]). cbn [pe_status pe_num_pieces].
  assert (Hrev : forall new, (forall i, Exists (tells (peer_key peer) i) new <-> bit_contains i (pe_status pe) = true) -> Forall (fun o => reveal_dest o = peer) new ->
    revealed (log ++ Input (RevealControl (PeerConnected peer)) :: map Output new) (pi_hash peer)
      (mkPeersInfo (pe_num_pieces pe) (pe_status pe) (peers_insert peer (pe_peers pe))) (mkKnown (kn_pieces t) (kn_found t) ({[peer_key peer]} ∪ kn_peers t))).
  { intros new Hnew Hdest. split; cbn [pe_num_pieces pe_peers pe_status kn_pieces kn_found kn_peers]; [done..| | |].
    - intros k p. intros [?|(-> & -> & _)]%peers_insert_lookup; [by apply Hk|done].
    - rewrite Hd0. symmetry. apply peers_insert_dom.
    - intros k p i Hl. rewrite since_outputs, Exists_app. cbn [since_step]. apply peers_insert_lookup in Hl as [Hl|(-> & -> & _)].
      + destruct (decide (peer_key peer = k)) as [<-|Hne]; [rewrite Exists_nil, Hnew, Hf; naive_solver|]. rewrite (Ht k p i Hl). split; [|by left].
        intros [?|Hx]; [done|]. apply Exists_exists in Hx as (o & Ho & [Hd _]). rewrite Forall_forall in Hdest. by rewrite (Hdest o Ho) in Hd.
      + rewrite decide_True, Exists_nil, Hnew, Hf by done. naive_solver. }
  destruct (bit_is_empty (pe_status pe)) eqn:Ee; cbn [snd].
  - eapply (inv_update _ _ _ _ [] _ Hi); [apply Hi|by rewrite app_nil_r|intros ? ?; by apply lookup_insert_ne|done|constructor|].
    cbn [known_input hr_torrents]. rewrite lookup_insert_eq, Et2, decide_True by done. constructor. apply Hrev; [|constructor].
    intros i. rewrite Exists_nil, (proj1 (is_empty_contains _) Ee i). done.
  - eapply (inv_update _ _ _ _ [_] _ Hi); [done|done|intros ? ?; by apply lookup_insert_ne|done|by repeat constructor|].
    cbn [known_input hr_torrents]. rewrite lookup_insert_eq, Et2, decide_True by done. constructor. apply Hrev; [|by repeat constructor].
    intros i. rewrite Exists_cons, Exists_nil, (proj1 Hi), drop_0. unfold insert_reversed_bits. cbn [app].
    rewrite bitfield_tells by (intros j Hj; apply Hf, Hs in Hj; lia). naive_solver.
Qed.

(** The have messages of a piece tell the connected peers of it. *)
Lemma haves_tell pe hash k p i index : (forall k p, pe_peers pe !! k = Some p -> peer_key p = k /\ pi_hash p = hash) -> pe_peers pe !! k = Some p -> 0 <= index < 2 ^ 32 ->
  Exists (tells k i) (map (fun peer => SendHave peer (HaveMessage_new (as_u32 index))) (peers_iter (pe_peers pe))) <-> i = Z.to_nat index.
Proof.
  intros Hk Hp Hx. assert (Hw : as_u32 index = index) by (apply wrap_id; unfold in_unsigned; lia). rewrite Hw, Exists_exists. split.
  - intros (o & Ho & [Hd Hin]). apply list_elem_of_fmap in Ho as (q & -> & _). cbn in Hin. apply list_elem_of_singleton in Hin. lia.
  - intros ->. exists (SendHave p (HaveMessage_new index)). split; [apply list_elem_of_fmap; exists p; split; [done|apply peers_iter_elem; by exists k]|].
    split; [by apply Hk|]. cbn. apply list_elem_of_singleton. lia.
Qed.

Lemma inv_piece h log hash index : reveal_inv h log -> 0 <= index ->
  reveal_inv (snd (insert_piece hash index h)) (log ++ Input (RevealFoundGoodPiece hash index) :: map Output (queued h (snd (insert_piece hash index h)))).
Proof.
  intros Hi Hge. unfold insert_piece. destruct (hr_torrents h !! hash) as [pe|] eqn:Et; [|by eapply inv_refused].
  destruct (inv_torrent _ _ _ _ Hi Et) as (t & Et2 & [Hp0 Hn Hf Hs Hk Hd0 Ht]). destruct (Z.leb_spec (Z.of_nat (pe_num_pieces pe)) index).
  { cbn [snd]. apply inv_keep; [done| |done]. intros hash2. destruct (decide (hash2 = hash)) as [->|]; [|apply known_other; cbn; congruence].
    cbn [known_input]. rewrite Et2, decide_False; [done|lia]. }
  cbn [snd]. eapply inv_update; [exact Hi|apply Hi|reflexivity|intros ? ?; by apply lookup_insert_ne|done| |].
  { apply Forall_map, Forall_forall. intros p [k Hp]%peers_iter_elem. by apply (Hk k p). }
  cbn [known_input hr_torrents]. rewrite lookup_insert_eq, Et2, decide_True by (split; [done|lia]). constructor.
  split; cbn [pe_num_pieces pe_status pe_peers kn_pieces kn_found kn_peers]; [done|done| | |done|done|].
  - intros i. rewrite insert_contains, orb_true_iff, Hf, Nat.eqb_eq. set_solver.
  - intros i. rewrite elem_of_union, elem_of_singleton. intros [->|Hx]; [lia|by apply Hs].
  - intros k p i Hp. rewrite since_outputs, Exists_app. cbn [since_step]. rewrite (Ht k p i Hp), (haves_tell pe hash k p i index Hk Hp) by lia. set_solver.
Qed.

Lemma inv_added h log m : reveal_inv h log -> Z.of_nat (length (in_pieces (mi_info m))) <= 2 ^ 32 ->
  reveal_inv (snd (reveal_add_torrent m h)) (log ++ Input (RevealControl (CtlAddTorrent m)) :: map Output (queued h (snd (reveal_add_torrent m h)))).
Proof.
  intros Hi Hok. unfold reveal_add_torrent. destruct (hr_torrents h !! in_info_hash (mi_info m)) eqn:Et.
  { destruct (inv_torrent _ _ _ _ Hi Et) as (t & Et2 & _). apply inv_keep; [done| |done]. intros hash2.
    destruct (decide (Some hash2 = input_hash (RevealControl (CtlAddTorrent m)))) as [[= ->]|]; [|apply known_other; congruence]. cbn [known_input]. by rewrite Et2. }
  eapply (inv_update _ _ _ _ [] _ Hi); [apply Hi|by rewrite app_nil_r|intros ? ?; by apply lookup_insert_ne|done|constructor|].
  cbn [snd known_input hr_torrents]. rewrite lookup_insert_eq, (inv_no_torrent _ _ _ Hi Et), decide_True by done. constructor.
  split; cbn [pe_num_pieces pe_status pe_peers kn_pieces kn_found kn_peers]; [done|done| |set_solver|by intros k p ?%lookup_empty_Some|symmetry; apply dom_empty_L|by intros k p i ?%lookup_empty_Some].
  intros i. rewrite reserve_contains, default_contains. set_solver.
Qed.

Lemma inv_sent h log item a h' : reveal_inv h log -> reveal_ok item -> reveal_send item h = (a, h') ->
  reveal_inv h' (log ++ Input item :: map Output (queued h h')).
Proof.
  intros Hi Hok E. assert (h' = snd (reveal_send item h)) as -> by (by rewrite E). clear E a.
  destruct item as [[m|m|p|p|d]|hash index|p m|p m]; cbn [reveal_send].
  - by apply inv_added.
  - unfold reveal_remove_torrent. destruct (hr_torrents h !! in_info_hash (mi_info m)) eqn:Et; [|by eapply inv_refused]. destruct (inv_torrent _ _ _ _ Hi Et) as (t & Et2 & _).
    eapply (inv_update _ _ _ _ [] _ Hi); [apply Hi|by rewrite app_nil_r|intros ? ?; by apply lookup_delete_ne|done|constructor|].
    cbn [snd known_input hr_torrents]. rewrite lookup_delete_eq, Et2, decide_True by done. constructor.
  - by apply inv_connected.
  - unfold reveal_remove_peer. destruct (hr_torrents h !! pi_hash p) as [pe|] eqn:Et; [|by eapply inv_refused]. destruct (inv_torrent _ _ _ _ Hi Et) as (t & Et2 & Hrev).
    destruct (revealed_keep log (RevealControl (PeerDisconnected p)) [] _ _ _ Hrev ltac:(done) ltac:(constructor)) as [Hp0 Hn Hf Hs Hk Hd0 Ht].
    eapply (inv_update _ _ _ _ [] _ Hi); [apply Hi|by rewrite app_nil_r|intros ? ?; by apply lookup_insert_ne|done|constructor|].
    cbn [snd known_input hr_torrents]. rewrite lookup_insert_eq, Et2, decide_True by done. constructor.
    split; cbn [pe_num_pieces pe_status pe_peers kn_pieces kn_found kn_peers]; unfold peers_remove;
      [done..|intros k q [_ Hl]%lookup_delete_Some; by apply Hk|rewrite Hd0; symmetry; apply dom_delete_L|intros k q i [_ Hl]%lookup_delete_Some; by eapply Ht].
  - by apply inv_keep.
  - by apply inv_piece.
  - by apply inv_keep.
  - by apply inv_keep.
Qed.

(** C17: the module reveals exactly the pieces that were found. In every history of
    torrents added and removed, peers connecting and leaving and pieces found: for every
    torrent that is there and every peer connected to it, by the inputs of the history, the
    messages queued for the peer since it connected (a bit field, read by the peer's own
    iterator, and have messages) tell it a piece exactly if that piece was reported found,
    with an index in the range of the torrent, since the torrent was added. Torrents have at
    most 2^32 pieces. *)
Theorem revealed_pieces_are_exact h log hash t k i : reveal_run h log -> known hash log = Some t -> k ∈ kn_peers t ->
  Exists (tells k i) (since k log) <-> i ∈ kn_found t.
Proof.
  intros Hr Ht Hp. assert (Hi : reveal_inv h log).
  { clear Ht Hp. induction Hr as [|h log item a h' Hr IH Hok E|h log o h' Hr IH E]; [|by eapply inv_sent|].
    - split; [done|]. intros hash'. unfold HonestRevealModule_new. cbn [hr_torrents]. rewrite lookup_empty. constructor.
    - unfold reveal_poll in E. destruct (hr_out_queue h); by injection E as _ <-. }
  destruct (hr_torrents h !! hash) as [pe|] eqn:E; [|by rewrite (inv_no_torrent _ _ _ Hi E) in Ht].
  destruct (inv_torrent _ _ _ _ Hi E) as (t' & Et & Hrev). rewrite Ht in Et. injection Et as <-.
  rewrite (rv_peers _ _ _ _ Hrev), elem_of_dom in Hp. destruct Hp as [p Hp]. exact (rv_told _ _ _ _ Hrev k p i Hp).
Qed.
End Honest.

(** ** A bit set of bytes *)

Definition set_bit (i : nat) (l : list Z) : list Z :=
  let l := l ++ replicate (i / 8 + 1 - length l) 0 in
  match l !! (i / 8)%nat with Some b => <[(i / 8)%nat := Z.lor b (2 ^ Z.of_nat (i mod 8))]> l | None => l end.

#[export] Instance byte_bits : BitSet {l : list Z | bytes_ok l}.
Proof.
  refine {| bit_default := exist _ [] (Forall_nil_2 _); bit_reserve_len_exact _ s := s;
    bit_insert i s := exist _ (set_bit i (proj1_sig s)) _;
    bit_contains i s := Z.testbit (default 0 (proj1_sig s !! (i / 8)%nat)) (Z.of_nat (i mod 8));
    bit_is_empty s := forallb (fun b => b =? 0) (proj1_sig s); bit_storage s := proj1_sig s |}.
  destruct s as [l Hl]. cbn [proj1_sig]. unfold set_bit.
  assert (Hl' : bytes_ok (l ++ replicate (i / 8 + 1 - length l) 0)) by (apply Forall_app; split; [done|]; by apply Forall_replicate).
  destruct (_ !! _) as [b|] eqn:E; [|done]. apply Forall_insert; [done|].
  pose proof (Forall_lookup_1 _ _ _ _ Hl' E) as Hb. unfold in_unsigned in *. pose proof (Nat.mod_upper_bound i 8 ltac:(lia)).
  split; [apply Z.lor_nonneg; lia|]. destruct (Z.eq_dec (Z.lor b (2 ^ Z.of_nat (i mod 8))) 0) as [->|]; [lia|]. apply Z.log2_lt_pow2.
  - assert (0 <= Z.lor b (2 ^ Z.of_nat (i mod 8))) by (apply Z.lor_nonneg; lia). lia.
  - rewrite Z.log2_lor by lia. apply Z.max_lub_lt; [|rewrite Z.log2_pow2; lia]. destruct (Z.eq_dec b 0) as [->|]; [cbn; lia|]. apply Z.log2_lt_pow2; lia.
Defined.

Lemma set_bit_lookup i j l : default 0 (set_bit j l !! (i / 8)%nat) = if decide (i / 8 = j / 8)%nat then Z.lor (default 0 (l !! (j / 8)%nat)) (2 ^ Z.of_nat (j mod 8)) else default 0 (l !! (i / 8)%nat).
Proof.
  unfold set_bit. set (l2 := l ++ replicate (j / 8 + 1 - length l) 0).
  assert (Hpad : forall n, default 0 (l2 !! n) = default 0 (l !! n)).
  { intros n. unfold l2. destruct (decide (n < length l)%nat); [by rewrite lookup_app_l|]. rewrite lookup_app_r, (proj2 (lookup_ge_None l n)) by lia.
    destruct (replicate _ _ !! _) as [b|] eqn:E; [|done]. by apply lookup_replicate in E as [-> _]. }
  assert (Hlen : (j / 8 < length l2)%nat) by (unfold l2; rewrite length_app, length_replicate; lia).
  destruct (lookup_lt_is_Some_2 _ _ Hlen) as [b Eb]. rewrite Eb. specialize (Hpad (j / 8)%nat) as Hj. rewrite Eb in Hj. cbn [default from_option id] in Hj.
  destruct (decide (i / 8 = j / 8)%nat) as [->|Hne]; [rewrite list_lookup_insert_eq by done; cbn [default from_option id]; by rewrite Hj|].
  rewrite list_lookup_insert_ne by done. apply Hpad.
Qed.

#[export] Instance byte_bits_laws : BitSetLaws {l : list Z | bytes_ok l}.
Proof.
  split; cbn [bit_contains byte_bits bit_default bit_reserve_len_exact bit_insert bit_is_empty bit_storage proj1_sig]; [intros i; apply Z.testbit_0_l|done| | |intros [l Hl]; exact Hl|done].
  - intros i j [l Hl]. cbn [proj1_sig]. rewrite set_bit_lookup. destruct (decide _) as [E|E].
    + rewrite Z.lor_spec, Z.pow2_bits_eqb, <- E, orb_comm by lia. f_equal. pose proof (Nat.div_mod_eq i 8). pose proof (Nat.div_mod_eq j 8).
      destruct (Nat.eqb_spec i j) as [->|]; [apply Z.eqb_refl|]. apply Z.eqb_neq. lia.
    + destruct (Nat.eqb_spec i j) as [->|]; done.
  - intros [l Hl]. cbn [proj1_sig]. rewrite forallb_forall. split.
    + intros Hz i. destruct (l !! (i / 8)%nat) as [b|] eqn:E; cbn [default from_option id]; [|apply Z.testbit_0_l].
      apply list_elem_of_lookup_2, list_elem_of_In, Hz, Z.eqb_eq in E as ->. apply Z.testbit_0_l.
    + intros Hz b Hb. apply list_elem_of_In, list_elem_of_lookup in Hb as [n Hn]. apply Z.eqb_eq. pose proof (Forall_lookup_1 _ _ _ _ Hl Hn) as Hu.
      unfold in_unsigned in Hu. destruct (Z.eq_dec b 0) as [|Hne]; [done|]. assert (Hlog : 0 <= Z.log2 b < 8) by (split; [apply Z.log2_nonneg|apply Z.log2_lt_pow2; lia]).
      specialize (Hz (8 * n + Z.to_nat (Z.log2 b))%nat). rewrite Nat.mul_comm, Nat.div_add_l, Nat.div_small, Nat.add_0_r, Hn in Hz by lia. cbn [default from_option id] in Hz.
      rewrite Nat.add_comm, Nat.Div0.mod_add, Nat.mod_small, Z2Nat.id, Z.bit_log2 in Hz by lia. done.
Qed.

(** A history: the torrent is added, a piece found, a peer connects, another piece found. *)
Definition sample_hash : ShaHash := mkShaHash (replicate 20 7).
Definition sample_peer : PeerInfo := PeerInfo_new (V4 (SocketAddrV4_new (Ipv4Addr_new 10 0 0 1) 6881)) (mkShaHash (replicate 20 1)) sample_hash Extensions_new.
Definition sample_metainfo : Metainfo := Metainfo_from_info (mkInfo sample_hash [] (replicate 12 (replicate 20 0)) 16 None None).
Definition sample_items : list IRevealMessage :=
  [RevealControl (CtlAddTorrent sample_metainfo); RevealFoundGoodPiece sample_hash 3; RevealControl (PeerConnected sample_peer); RevealFoundGoodPiece sample_hash 9].

Fixpoint play {S} `{BitSet S} {HO : HashOrder PeerKey PeerInfo} (items : list IRevealMessage) (h : HonestRevealModule S) (log : list reveal_event)
    : HonestRevealModule S * list reveal_event :=
  match items with
  | [] => (h, log)
  | item :: items => let h' := snd (reveal_send item h) in play items h' (log ++ Input item :: map Output (queued h h'))
  end.

Lemma play_run {S} `{BitSet S} {HO : HashOrder PeerKey PeerInfo} items : forall (h : HonestRevealModule S) log, reveal_run h log -> Forall reveal_ok items ->
  reveal_run (fst (play items h log)) (snd (play items h log)).
Proof.
  induction items as [|item items IH]; intros h log Hr Hok; [done|]. apply Forall_cons in Hok as [Ho Hok]. cbn [play].
  apply IH; [|done]. apply (reveal_sent h log item (fst (reveal_send item h))); [done|done|]. by destruct (reveal_send item h).
Qed.

Definition sample_reveal : HonestRevealModule {l : list Z | bytes_ok l} * list reveal_event := play sample_items HonestRevealModule_new [].

Lemma revealed_pieces_are_exact_witness : exists t : Known,
  known sample_hash (snd sample_reveal) = Some t /\
  Exists (tells (peer_key sample_peer) 3) (since (peer_key sample_peer) (snd sample_reveal)) /\
  Exists (tells (peer_key sample_peer) 9) (since (peer_key sample_peer) (snd sample_reveal)) /\
  ~ Exists (tells (peer_key sample_peer) 4) (since (peer_key sample_peer) (snd sample_reveal)).
Proof.
  assert (Hr : reveal_run (fst sample_reveal) (snd sample_reveal)) by (apply play_run; [constructor|repeat constructor; vm_compute; congruence]).
  exists (mkKnown 12 ({[9%nat]} ∪ ({[3%nat]} ∪ ∅)) ({[peer_key sample_peer]} ∪ ∅)). assert (Ht : known sample_hash (snd sample_reveal) = Some (mkKnown 12 ({[9%nat]} ∪ ({[3%nat]} ∪ ∅)) ({[peer_key sample_peer]} ∪ ∅))) by (vm_compute; reflexivity).
  assert (Hp : peer_key sample_peer ∈ ({[peer_key sample_peer]} ∪ ∅ : gset PeerKey)) by (apply elem_of_union_l, elem_of_singleton_2; reflexivity).
  split; [exact Ht|]. pose proof (fun i => revealed_pieces_are_exact _ _ _ _ (peer_key sample_peer) i Hr Ht Hp) as Hex. cbn [kn_found] in Hex.
  split; [apply Hex, elem_of_union_r, elem_of_union_l, elem_of_singleton_2; reflexivity|].
  split; [apply Hex, elem_of_union_l, elem_of_singleton_2; reflexivity|]. intros Hx%Hex. apply (bool_decide_pack _) in Hx. vm_compute in Hx. exact Hx.
Defined.

(** ** The uber module *)

Section Uber.
Context {HO1 : HashOrder ExtendedType Z} {HO2 : HashOrder (list Z) BencodeMut} {M : Type} `{DiscoveryTrait M}.
Implicit Types (ds : list M) (ext : option ExtendedModule).

(** What a discovery module gets of a message. *)
Definition discovery_message (item : IUberMessage) : option IDiscoveryMessage :=
  match item with UberControl c => Some (DiscoveryControl c) | UberDiscovery m => Some m | UberExtended _ => None end.
Definition send_one (item : IUberMessage) (d : M) : res unit ((DiscoveryError + option IDiscoveryMessage) * M) :=
  match discovery_message item with Some m => run_send m d | None => Ok (inr None, d) end.
Definition accepts (item : IUberMessage) (d d' : M) : Prop := exists v, send_one item d = Ok (inr v, d').

(** What the extended module does with it. *)
Definition extended_message (item : IUberMessage) : option IExtendedMessage :=
  match item with UberControl c => Some (ExtendedControl c) | UberExtended m => Some m | UberDiscovery _ => None end.
Definition extended_phase (item : IUberMessage) ext ds : res unit (option ExtendedModule * list M) :=
  match ext, extended_message item with
  | Some em, Some m => let? (em, ds) := process_message m ds em in Ok (Some em, ds)
  | _, _ => Ok (ext, ds)
  end.

(** The state with which the module at [n] is next. *)
Definition state_before ext (n : nat) : option ModuleState :=
  match n with O => if bool_decide (is_Some ext) then Some StateExtended else None | Datatypes.S n => Some (StateDiscovery n) end.

Lemma next_before ext ds s stream n : (n <= length ds)%nat ->
  next_state (mkUber ext ds s stream) (state_before ext n) = if (n <? length ds)%nat then Some (StateDiscovery n) else None.
Proof.
  intros Hn. unfold state_before, next_state. cbn [um_discovery um_extended]. destruct n as [|n].
  - case_bool_decide; by destruct ds.
  - by rewrite Nat.add_1_r.
Qed.

Lemma discovery_logic item ext pre d post s stream r d' : send_one item d = Ok (r, d') ->
  sink_logic item (mkUber ext (pre ++ d :: post) s stream) (StateDiscovery (length pre)) =
  Ok (match r with inl e => inl (UberDiscoveryError e) | inr v => inr ((fun _ => tt) <$> v) end, mkUber ext (pre ++ d' :: post) s stream).
Proof.
  unfold send_one. intros E. destruct item; cbn [discovery_message sink_logic] in *; [|by injection E as <- <-|];
    unfold send_discovery; cbn [um_discovery]; rewrite list_lookup_middle by done; cbn [or_panic res_bind]; rewrite E; cbn [res_bind];
    unfold set_discovery; cbn [um_discovery um_extended um_last_sink_state um_last_stream_state]; rewrite <- (Nat.add_0_r (length pre)), insert_app_r; done.
Qed.

Abbreviation sink_loop item fuel result u :=
  (loop_states fuel true result (fun x => next_state x (um_last_sink_state x)) set_sink_state (sink_logic item) u).

(** One round of the loop. *)
Lemma sink_round item ext pre d post stream r d' fuel (result : UberError + option unit) : send_one item d = Ok (r, d') ->
  sink_loop item (Datatypes.S fuel) result (mkUber ext (pre ++ d :: post) (state_before ext (length pre)) stream) =
  match r with
  | inl e => Ok (inl (UberDiscoveryError e), mkUber ext (pre ++ d' :: post) (state_before ext (length pre)) stream)
  | inr v => sink_loop item fuel (inr ((fun _ => tt) <$> v)) (mkUber ext ((pre ++ [d']) ++ post) (state_before ext (length (pre ++ [d']))) stream)
  end.
Proof.
  intros E. cbn [loop_states um_last_sink_state]. rewrite next_before by (rewrite length_app; cbn; lia).
  rewrite (proj2 (Nat.ltb_lt _ _)) by (rewrite length_app; cbn; lia). rewrite (discovery_logic _ _ _ _ _ _ _ _ _ E). cbn [res_bind].
  destruct r as [e|v]; [done|]. cbn [orb]. unfold set_sink_state at 2. cbn [um_extended um_discovery um_last_stream_state].
  rewrite length_app, Nat.add_comm, <- app_assoc. done.
Qed.

(** The rest of the modules. *)
Lemma sink_rest item ext stream rest rest' : Forall2 (accepts item) rest rest' -> forall pre fuel v, (length rest < fuel)%nat ->
  exists v', sink_loop item fuel (inr v) (mkUber ext (pre ++ rest) (state_before ext (length pre)) stream) = Ok (inr v', mkUber ext (pre ++ rest') None stream).
Proof.
  induction 1 as [|d d' rest rest' [w Hd] Hr IH]; intros pre [|fuel] v Hf; cbn [length] in Hf; try lia.
  - cbn [loop_states um_last_sink_state]. rewrite app_nil_r, next_before, Nat.ltb_irrefl by done. by exists v.
  - rewrite (sink_round _ _ _ _ _ _ _ _ _ _ Hd). destruct (IH (pre ++ [d']) fuel ((fun _ => tt) <$> w) ltac:(lia)) as [v' ->].
    exists v'. by rewrite <- app_assoc.
Qed.

Lemma sink_stops item ext stream mid mid' d d' e post : Forall2 (accepts item) mid mid' -> send_one item d = Ok (inl e, d') -> forall pre fuel v, (length mid < fuel)%nat ->
  sink_loop item fuel (inr v) (mkUber ext (pre ++ mid ++ d :: post) (state_before ext (length pre)) stream) =
  Ok (inl (UberDiscoveryError e), mkUber ext ((pre ++ mid') ++ d' :: post) (state_before ext (length (pre ++ mid'))) stream).
Proof.
  intros Hm Hd. induction Hm as [|x x' mid mid' [w Hx] Hm IH]; intros pre [|fuel] v Hf; cbn [length] in Hf; try lia.
  - cbn [app]. rewrite (sink_round _ _ _ _ _ _ _ _ _ _ Hd). by rewrite app_nil_r.
  - cbn [app]. rewrite (sink_round _ _ _ _ _ _ _ _ _ _ Hx). rewrite (IH (pre ++ [x']) fuel _ ltac:(lia)). by rewrite <- !app_assoc.
Qed.

(** The extended module comes first. *)
Lemma sink_extended item ext ds stream ext' ds' fuel (v : option unit) : extended_phase item ext ds = Ok (ext', ds') ->
  sink_loop item ((if bool_decide (is_Some ext) then 1 else 0) + fuel) (inr v) (mkUber ext ds None stream) =
  sink_loop item fuel (inr (if bool_decide (is_Some ext) then None else v)) (mkUber ext' ds' (state_before ext' 0) stream).
Proof.
  unfold extended_phase. destruct ext as [em|]; [|by intros [= <- <-]].
  intros E. rewrite (bool_decide_true (is_Some (Some em))) by done. cbn [Nat.add loop_states um_last_sink_state]. unfold next_state at 1. cbn [um_extended]. rewrite bool_decide_true by done.
  destruct item; cbn [extended_message sink_logic] in *; unfold send_extended; cbn [um_extended um_discovery];
    try (destruct (process_message _ ds em) as [[em' ds2]| | |]; [|done..]); cbn [res_bind] in *; injection E as <- <-; done.
Qed.

Lemma update_all_length info e ds ds' : update_all info e ds = Ok ds' -> length ds' = length ds.
Proof.
  revert ds'. induction ds as [|d ds IH]; cbn; intros ds' E; [by injection E as <-|]. destruct (on_update info e d); cbn in E; try done.
  destruct (update_all info e ds); cbn in E; try done. injection E as <-. cbn. f_equal. by apply IH.
Qed.

Lemma extended_phase_length item ext ds ext' ds' : extended_phase item ext ds = Ok (ext', ds') -> length ds' = length ds.
Proof.
  unfold extended_phase. destruct ext as [em|]; [|by intros [= _ <-]]. destruct (extended_message item) as [m|]; [|by intros [= _ <-]].
  intros E. destruct (process_message m ds em) as [[em' ds2]| | |] eqn:Ep; try done. injection E as _ <-. unfold process_message in Ep.
  destruct m as [[]|info x]; try (by injection Ep as _ <-).
  - destruct (update_all _ _ ds) eqn:Eu; try done. injection Ep as _ <-. by eapply update_all_length.
  - destruct (em_peers em !! peer_key info); [|by injection Ep as _ <-]. destruct (update_all _ _ ds) eqn:Eu; try done. injection Ep as _ <-. by eapply update_all_length.
Qed.

Lemma send_phase item (u : UberModule M) ext' ds : um_last_sink_state u = None -> extended_phase item (um_extended u) (um_discovery u) = Ok (ext', ds) ->
  exists fuel v, (length ds < fuel)%nat /\
    UberModule_send item u = sink_loop item fuel (inr v) (mkUber ext' ds (state_before ext' 0) (um_last_stream_state u)).
Proof.
  intros Hn E. pose proof (extended_phase_length _ _ _ _ _ E) as Hl. destruct u as [ext ds0 sink stream]. cbn [um_last_sink_state um_extended um_discovery um_last_stream_state] in *. subst sink.
  unfold UberModule_send, start_sink_state, uber_fuel. cbn [um_discovery].
  set (n := if bool_decide (is_Some ext) then 1%nat else 0%nat). assert (Hx : (n <= 1)%nat) by (unfold n; case_bool_decide; lia).
  exists (length ds0 + 2 - n)%nat. eexists. split; [lia|]. replace (length ds0 + 2)%nat with (n + (length ds0 + 2 - n))%nat at 1 by lia. by apply sink_extended.
Qed.

(** C38: the uber module delivers a message to all its modules, in order. When the last
    message was accepted by all modules (or there was none), sending one that every module
    accepts lets the extended module process it (which updates the discovery modules), then
    every discovery module exactly once, in order, and leaves the module ready for the next
    message. *)
Theorem uber_delivers_in_order (u : UberModule M) (item : IUberMessage) ext' ds ds' : um_last_sink_state u = None ->
  extended_phase item (um_extended u) (um_discovery u) = Ok (ext', ds) -> Forall2 (accepts item) ds ds' ->
  exists v, UberModule_send item u = Ok (inr v, mkUber ext' ds' None (um_last_stream_state u)).
Proof.
  intros Hn He Hd. destruct (send_phase item u ext' ds Hn He) as (fuel & v & Hf & ->). exact (sink_rest item ext' _ ds ds' Hd [] fuel v Hf).
Qed.

(** An error of a module makes the modules before it miss the next message. When a
    discovery module refuses a message, the modules after it do not get it, and the next
    message is only delivered to the refusing module and those after it: neither the
    extended module nor the earlier discovery modules see it. *)
Lemma uber_error_skips_modules (u : UberModule M) (item : IUberMessage) ext' pre pre' d d' e post : um_last_sink_state u = None ->
  extended_phase item (um_extended u) (um_discovery u) = Ok (ext', pre ++ d :: post) -> Forall2 (accepts item) pre pre' -> send_one item d = Ok (inl e, d') ->
  exists u1, UberModule_send item u = Ok (inl (UberDiscoveryError e), u1) /\ um_extended u1 = ext' /\ um_discovery u1 = pre' ++ d' :: post /\
    forall item2 rest', Forall2 (accepts item2) (d' :: post) rest' ->
      exists v, UberModule_send item2 u1 = Ok (inr v, mkUber ext' (pre' ++ rest') None (um_last_stream_state u)).
Proof.
  intros Hn He Hp Hd. destruct (send_phase item u _ _ Hn He) as (fuel & v & Hf & ->). rewrite length_app in Hf.
  eexists. split; [exact (sink_stops item ext' _ pre pre' d d' e post Hp Hd [] fuel v ltac:(lia))|]. cbn [app]. split; [done|]. split; [done|].
  intros item2 rest' Hr. unfold UberModule_send, start_sink_state. apply sink_rest; [done|]. unfold uber_fuel. cbn [um_discovery]. rewrite length_app. lia.
Qed.
End Uber.
