(* ===== verification/UtMetadata.v ===== *)
(** * Piece selection: metadata exchange

    Model of [select/discovery/ut_metadata.rs]: the discovery module that downloads the
    info dictionary of a torrent from peers in pieces of 16 KiB and serves that of known
    torrents. Maps are walked in their [HashOrder]; the random number that selects a peer
    is an argument. Encoding an [Info] ([Info_to_bytes]) runs a hashing thread whose
    schedule is [sched]. *)

From stdpp Require Import gmap.
From S2P Require Import Prelude RustStd BTree Bencode UtilSha UtilConvert PeerMessage Metainfo MetainfoHasher MetainfoBuilder PeerManager Select.

Definition REQUEST_TIMEOUT_MILLIS : Z := 5000.
Definition NANOS_PER_MILLI : Z := 1000000.
Definition MAX_REQUEST_SIZE : Z := 16 * 1024.
Definition MAX_ACTIVE_REQUESTS : Z := 100.
Definition MAX_PEER_REQUESTS : nat := 100.

(** ** Data *)

Record PendingInfo : Type := mkPending { pd_messages : list UtMetadataRequestMessage; pd_left : nat; pd_bytes : list Z }.
Record ActiveRequest : Type := mkActiveRequest { aq_left : Z; aq_message : UtMetadataRequestMessage; aq_sent_to : PeerInfo }.
Record PeerRequest : Type := mkPeerRequest { pq_send_to : PeerInfo; pq_request : UtMetadataRequestMessage }.
Record ActivePeers : Type := mkActivePeers { ap_peers : PeerSet; ap_metadata_size : Z }.

Record UtMetadataModule : Type := mkUt {
  ut_completed_map : gmap ShaHash (list Z);
  ut_pending_map : gmap ShaHash (option PendingInfo);
  ut_active_requests : list ActiveRequest;
  ut_active_peers : gmap ShaHash ActivePeers;
  ut_peer_requests : list PeerRequest
}.
Definition UtMetadataModule_new : UtMetadataModule := mkUt ∅ ∅ [] ∅ [].

Definition ut_set_completed f (u : UtMetadataModule) : UtMetadataModule :=
  mkUt (f (ut_completed_map u)) (ut_pending_map u) (ut_active_requests u) (ut_active_peers u) (ut_peer_requests u).
Definition ut_set_pending f (u : UtMetadataModule) : UtMetadataModule :=
  mkUt (ut_completed_map u) (f (ut_pending_map u)) (ut_active_requests u) (ut_active_peers u) (ut_peer_requests u).
Definition ut_set_requests f (u : UtMetadataModule) : UtMetadataModule :=
  mkUt (ut_completed_map u) (ut_pending_map u) (f (ut_active_requests u)) (ut_active_peers u) (ut_peer_requests u).
Definition ut_set_peers f (u : UtMetadataModule) : UtMetadataModule :=
  mkUt (ut_completed_map u) (ut_pending_map u) (ut_active_requests u) (f (ut_active_peers u)) (ut_peer_requests u).
Definition ut_set_peer_requests f (u : UtMetadataModule) : UtMetadataModule :=
  mkUt (ut_completed_map u) (ut_pending_map u) (ut_active_requests u) (ut_active_peers u) (f (ut_peer_requests u)).

Definition generate_active_request (message : UtMetadataRequestMessage) (peer : PeerInfo) : ActiveRequest :=
  mkActiveRequest (REQUEST_TIMEOUT_MILLIS * NANOS_PER_MILLI) message peer.

(** [vec![0u8; size]] panics over the maximal capacity. *)
Definition pending_info_from_metadata_size (metadata_size : Z) : res unit PendingInfo :=
  let cast_metadata_size := as_u64 metadata_size in
  if MAX_CAPACITY <? cast_metadata_size then Panic else
  let bytes := replicate (Z.to_nat cast_metadata_size) 0 in
  let num_pieces := Z.to_nat (if negb (cast_metadata_size mod MAX_REQUEST_SIZE =? 0) then cast_metadata_size / MAX_REQUEST_SIZE + 1
                              else cast_metadata_size / MAX_REQUEST_SIZE) in
  let messages := map (fun index => UtMetadataRequestMessage_new (Z.of_nat index)) (seq 0 num_pieces) in
  Ok (mkPending messages num_pieces bytes).

Section Module.
Context {HOS : HashOrder ShaHash (option PendingInfo)} {HOP : HashOrder PeerKey PeerInfo}.
Context (sha1 : list Z -> list Z) (sched : nat -> nat).
Abbreviation Answer := ((DiscoveryError + option IDiscoveryMessage) * UtMetadataModule)%type.

(** ** Control messages *)

Definition ut_add_torrent (m : Metainfo) (u : UtMetadataModule) : res unit Answer :=
  let info_hash := in_info_hash (mi_info m) in
  match ut_completed_map u !! info_hash with
  | Some _ => Ok (inl (DiscoveryMetainfoExists info_hash), u)
  | None =>
      let? info_bytes := res_unwrap (Info_to_bytes (IoError := unit) sha1 sched (mi_info m)) in
      Ok (inr None, ut_set_completed <[info_hash := info_bytes]> u)
  end.

Definition ut_remove_torrent (m : Metainfo) (u : UtMetadataModule) : Answer :=
  let info_hash := in_info_hash (mi_info m) in
  match ut_completed_map u !! info_hash with
  | None => (inl (DiscoveryMetainfoNotExists info_hash), u)
  | Some _ => (inr None, ut_set_completed (delete info_hash) u)
  end.

Definition ut_add_peer (info : PeerInfo) (ext_info : ExtendedPeerInfo) (u : UtMetadataModule) : Answer :=
  let our_support := mbind (fun m => query_id m UtMetadataType) (ep_ours ext_info) in
  let they_support := mbind (fun m => query_id m UtMetadataType) (ep_theirs ext_info) in
  let opt_metadata_size := mbind metadata_size (ep_theirs ext_info) in
  match our_support, they_support, opt_metadata_size with
  | Some _, Some _, Some metadata_size =>
      let active := default (mkActivePeers ∅ metadata_size) (ut_active_peers u !! pi_hash info) in
      (inr None, ut_set_peers <[pi_hash info := mkActivePeers (peers_insert info (ap_peers active)) (ap_metadata_size active)]> u)
  | _, _, _ => (inr None, u)
  end.

Definition ut_remove_peer (info : PeerInfo) (u : UtMetadataModule) : Answer :=
  match ut_active_peers u !! pi_hash info with
  | Some active =>
      let peers := peers_remove info (ap_peers active) in
      (inr None, ut_set_peers (if bool_decide (peers = ∅) then delete (pi_hash info)
                               else <[pi_hash info := mkActivePeers peers (ap_metadata_size active)]>) u)
  | None => (inr None, u)
  end.

(** [active_requests.retain(..)]: an expired request goes back to its download and its peer
    is dropped. *)
Fixpoint retain_requests (duration : Z) (requests : list ActiveRequest) (u : UtMetadataModule) : list ActiveRequest * UtMetadataModule :=
  match requests with
  | [] => ([], u)
  | request :: requests =>
      if aq_left request <? duration then
        let hash := pi_hash (aq_sent_to request) in
        let u := ut_set_peers (alter (fun active => mkActivePeers (peers_remove (aq_sent_to request) (ap_peers active)) (ap_metadata_size active)) hash) u in
        let u := ut_set_pending (alter (fmap (fun pending => mkPending (pd_messages pending ++ [aq_message request]) (pd_left pending) (pd_bytes pending))) hash) u in
        retain_requests duration requests u
      else
        let '(kept, u) := retain_requests duration requests u in (request :: kept, u)
  end.

Definition apply_tick (duration : Z) (u : UtMetadataModule) : Answer :=
  let '(kept, u) := retain_requests duration (ut_active_requests u) u in
  let kept := map (fun request => mkActiveRequest (aq_left request - duration) (aq_message request) (aq_sent_to request)) kept in
  (inr None, ut_set_requests (fun _ => kept) u).

Definition download_metainfo (hash : ShaHash) (u : UtMetadataModule) : Answer :=
  match ut_pending_map u !! hash with
  | Some _ => (inr None, u)
  | None => (inr None, ut_set_pending <[hash := None]> u)
  end.

(** ** Messages of peers *)

Definition recv_request (info : PeerInfo) (request : UtMetadataRequestMessage) (u : UtMetadataModule) : Answer :=
  if (length (ut_peer_requests u) =? MAX_PEER_REQUESTS)%nat then (inr (Some (ReceivedUtMetadataMessage info (MetaRequest request))), u)
  else (inr None, ut_set_peer_requests (fun q => q ++ [mkPeerRequest info request]) u).

(** Subtracting from no pieces left and a slice that starts past the end panic; writing to
    a slice copies what fits. *)
Definition write_piece_data (data : UtMetadataDataMessage) (pending : PendingInfo) : res unit PendingInfo :=
  let data_offset := as_u64 (md_piece data) * MAX_REQUEST_SIZE in
  if 2 ^ 64 <=? data_offset then Panic else
  match pd_left pending with
  | O => Panic
  | S n =>
      if Z.of_nat (length (pd_bytes pending)) <? data_offset then Panic else
      let offset := Z.to_nat data_offset in
      Ok (mkPending (pd_messages pending) n (take offset (pd_bytes pending) ++ zip_copy (drop offset (pd_bytes pending)) (md_data data)))
  end.

Definition recv_data (info : PeerInfo) (data : UtMetadataDataMessage) (u : UtMetadataModule) : res unit Answer :=
  match position (fun request => PeerInfo_eq (aq_sent_to request) info && (mrq_piece (aq_message request) =? md_piece data)) (ut_active_requests u) with
  | Some index =>
      let u := ut_set_requests (swap_remove index) u in
      match ut_pending_map u !! pi_hash info with
      | Some (Some pending) =>
          let? pending := write_piece_data data pending in
          Ok (inr None, ut_set_pending <[pi_hash info := Some pending]> u)
      | _ => Ok (inr None, u)
      end
  | None => Ok (inr None, u)
  end.

Definition recv_reject (info : PeerInfo) (reject : UtMetadataRejectMessage) (u : UtMetadataModule) : Answer := (inr None, u).

(** ** After every message *)

Definition has_ready_requests (opt_pending : option PendingInfo) : bool :=
  match opt_pending with Some pending => negb (length (pd_messages pending) =? 0)%nat | None => false end.

(** One entry of the walk over [pending_map]. *)
Definition initialize_entry (active_peers : gmap ShaHash ActivePeers) (hash : ShaHash) (opt_pending : option PendingInfo) : res unit (option PendingInfo) :=
  match opt_pending with
  | Some pending => Ok (Some pending)
  | None =>
      match active_peers !! hash with
      | Some active => let? pending := pending_info_from_metadata_size (ap_metadata_size active) in Ok (Some pending)
      | None => Ok None
      end
  end.

Fixpoint initialize_entries (entries : list (ShaHash * option PendingInfo)) (available : bool) (u : UtMetadataModule) : res unit (bool * UtMetadataModule) :=
  match entries with
  | [] => Ok (available, u)
  | (hash, opt_pending) :: entries =>
      let? opt_pending := initialize_entry (ut_active_peers u) hash opt_pending in
      initialize_entries entries (available || has_ready_requests opt_pending) (ut_set_pending <[hash := opt_pending]> u)
  end.
Definition initialize_pending (u : UtMetadataModule) : res unit (bool * UtMetadataModule) := initialize_entries (hash_entries (ut_pending_map u)) false u.

(** A finished download with the wrong hash starts again. *)
Definition should_reset (expected_hash : ShaHash) (opt_pending : option PendingInfo) : bool :=
  match opt_pending with
  | Some pending => (pd_left pending =? 0)%nat && negb (bool_decide (ShaHash_from_bytes sha1 (pd_bytes pending) = expected_hash))
  | None => false
  end.
Definition finished (expected_hash : ShaHash) (opt_pending : option PendingInfo) : bool :=
  match opt_pending with
  | Some pending => (pd_left pending =? 0)%nat && bool_decide (ShaHash_from_bytes sha1 (pd_bytes pending) = expected_hash)
  | None => false
  end.

Fixpoint validate_entries (entries : list (ShaHash * option PendingInfo)) (completed : bool) (u : UtMetadataModule) : bool * UtMetadataModule :=
  match entries with
  | [] => (completed, u)
  | (hash, opt_pending) :: entries =>
      validate_entries entries (completed || finished hash opt_pending) (if should_reset hash opt_pending then ut_set_pending <[hash := None]> u else u)
  end.
Definition validate_downloaded (u : UtMetadataModule) : bool * UtMetadataModule := validate_entries (hash_entries (ut_pending_map u)) false u.

(** The answers of the two are no longer used. *)
Definition check_stream_unblock (u : UtMetadataModule) : res unit UtMetadataModule :=
  let? (_, u) := initialize_pending u in
  let '(_, u) := validate_downloaded u in
  Ok u.

Definition ut_send (item : IDiscoveryMessage) (u : UtMetadataModule) : res unit Answer :=
  let? (start_send, u) := match item with
    | DiscoveryControl (CtlAddTorrent m) => ut_add_torrent m u
    | DiscoveryControl (CtlRemoveTorrent m) => Ok (ut_remove_torrent m u)
    | DiscoveryControl (PeerConnected _) => Ok (inr None, u)
    | DiscoveryControl (PeerDisconnected info) => Ok (ut_remove_peer info u)
    | DiscoveryControl (CtlTick duration) => Ok (apply_tick duration u)
    | DownloadMetainfo hash => Ok (download_metainfo hash u)
    | ReceivedUtMetadataMessage info (MetaRequest msg) => Ok (recv_request info msg u)
    | ReceivedUtMetadataMessage info (MetaData msg) => recv_data info msg u
    | ReceivedUtMetadataMessage info (MetaReject msg) => Ok (recv_reject info msg u)
    end in
  let? u := check_stream_unblock u in
  Ok (start_send, u).

(** ** What the module sends *)

Abbreviation Yield := (option (DiscoveryError + ODiscoveryMessage) * UtMetadataModule)%type.

Definition is_completed (entry : ShaHash * option PendingInfo) : bool :=
  match snd entry with Some pending => (pd_left pending =? 0)%nat | None => false end.

Fixpoint retrieve_completed (fuel : nat) (u : UtMetadataModule) : res unit Yield :=
  match fuel with
  | O => OutOfFuel
  | S fuel =>
      match List.find is_completed (hash_entries (ut_pending_map u)) with
      | None => Ok (None, u)
      | Some (completed_hash, _) =>
          let? opt_completed := or_panic (ut_pending_map u !! completed_hash) in
          let? completed := or_panic opt_completed in
          let u := ut_set_peers (delete completed_hash) (ut_set_pending (delete completed_hash) u) in
          match Info_from_bytes (IoError := unit) sha1 (pd_bytes completed) with
          | Ok info => Ok (Some (inr (DownloadedMetainfo (Metainfo_from_info info))), u)
          | Err _ => retrieve_completed fuel u
          | Panic => Panic
          | OutOfFuel => OutOfFuel
          end
      end
  end.
(** Each call takes an entry out of [pending_map]. *)
Definition retrieve_completed_download (u : UtMetadataModule) : res unit Yield := retrieve_completed (S (size (ut_pending_map u))) u.

Definition has_active_peers (hash : ShaHash) (u : UtMetadataModule) : bool :=
  match ut_active_peers u !! hash with Some active => negb (bool_decide (ap_peers active = ∅)) | None => false end.

Fixpoint request_from (draw : Z) (entries : list (ShaHash * option PendingInfo)) (u : UtMetadataModule) : res unit Yield :=
  match entries with
  | [] => Ok (None, u)
  | (hash, opt_pending) :: entries =>
      if has_ready_requests opt_pending && has_active_peers hash u then
        let? pending := or_panic opt_pending in
        let? active := or_panic (ut_active_peers u !! hash) in
        let active_peers := peers_iter (ap_peers active) in
        if (length active_peers =? 0)%nat then Panic else
        let? selected_peer := or_panic (active_peers !! Z.to_nat (draw mod Z.of_nat (length active_peers))) in
        let? selected_message := or_panic (last (pd_messages pending)) in
        let pending := mkPending (removelast (pd_messages pending)) (pd_left pending) (pd_bytes pending) in
        Ok (Some (inr (SendUtMetadataMessage selected_peer (MetaRequest selected_message))),
            ut_set_requests (fun l => l ++ [generate_active_request selected_message selected_peer]) (ut_set_pending <[hash := Some pending]> u))
      else request_from draw entries u
  end.
Definition retrieve_piece_request (draw : Z) (u : UtMetadataModule) : res unit Yield := request_from draw (hash_entries (ut_pending_map u)) u.

Fixpoint respond (requests : list PeerRequest) (u : UtMetadataModule) : res unit Yield :=
  match requests with
  | [] => Ok (None, ut_set_peer_requests (fun _ => []) u)
  | request :: requests =>
      let piece := mrq_piece (pq_request request) in
      let start := as_u64 piece * MAX_REQUEST_SIZE in
      let end_ := start + MAX_REQUEST_SIZE in
      if 2 ^ 64 <=? end_ then Panic else
      match ut_completed_map u !! pi_hash (pq_send_to request) with
      | Some data =>
          let len := Z.of_nat (length data) in
          if (start <=? len) && (end_ <=? len) then
            let info_slice := slice data (Z.to_nat start) (Z.to_nat end_) in
            let message := UtMetadataDataMessage_new piece (Z.of_nat (length info_slice)) info_slice in
            Ok (Some (inr (SendUtMetadataMessage (pq_send_to request) (MetaData message))), ut_set_peer_requests (fun _ => requests) u)
          else respond requests u
      | None => respond requests u
      end
  end.
Definition retrieve_piece_response (u : UtMetadataModule) : res unit Yield := respond (ut_peer_requests u) u.

Definition ut_poll (draw : Z) (u : UtMetadataModule) : res unit Yield :=
  let? (r, u) := retrieve_completed_download u in
  match r with
  | Some _ => Ok (r, u)
  | None =>
      let? (r, u) := retrieve_piece_request draw u in
      match r with
      | Some _ => Ok (r, u)
      | None => retrieve_piece_response u
      end
  end.

(** ** The module as a discovery module *)

Definition ut_extend (info : PeerInfo) (builder : ExtendedMessageBuilder) (u : UtMetadataModule) : ExtendedMessageBuilder :=
  with_extended_type UtMetadataType (Some 5) builder.
Definition ut_on_update (info : PeerInfo) (extended : ExtendedPeerInfo) (u : UtMetadataModule) : res unit UtMetadataModule :=
  match ut_add_peer info extended u with (inr _, u) => Ok u | (inl _, _) => Panic end.

#[export] Instance UtMetadata_discovery : DiscoveryTrait UtMetadataModule := {
  extend := ut_extend;
  on_update := ut_on_update;
  run_send := ut_send;
  run_poll := ut_poll
}.
End Module.
