(* ===== verification/UtMetadataSpec.v ===== *)
(** * Piece selection: properties of the metadata exchange

    The invariant of the module over all histories: every piece of a download is either
    waiting to be requested or requested, so that data never panics and a finished download
    has the hash asked for; what is served; a download from honest peers completes; and two
    ways in which it fails. *)

From stdpp Require Import gmap.
From S2P Require Import Prelude RustStd BTree Bencode BencodeFacts BencodeSpec UtilSha UtilConvert TrackerMessage TrackerMessageSpec BencodeAccess PeerMessage Handshake Metainfo MetainfoHasher MetainfoBuilder PeerManager Select SelectSpec UtMetadata.

(** ** Reading an info dictionary *)

(** Parsing a decoded dictionary succeeds or fails with an error. *)
Definition returns {E A} (r : res E A) : Prop := match r with Ok _ | Err _ => True | _ => False end.

Lemma bind_returns {E A B} (m : res E A) (k : A -> res E B) : returns m -> (forall a, returns (k a)) -> returns (res_bind m k).
Proof. destruct m; cbn; auto. Qed.

Ltac converts := unfold parse_path_str, parse_file_dict, parse_root_dict, parse_pieces, parse_name, parse_files_list, parse_path_list,
    lookup_and_convert_int, lookup_and_convert_bytes, lookup_and_convert_str, lookup_and_convert_list, convert_lookup;
  try (match goal with |- context [bt_lookup ?k ?d] => destruct (bt_lookup k d) end; cbn [res_bind]; [|exact I]);
  unfold convert_int, convert_bytes, convert_str, convert_list, convert_dict;
  first [exact I|match goal with |- returns (or_wrong_type ?o _ _) => by destruct o end].

Section Reading.
Context {B} `{BRefAccess B}.

Lemma push_path_strs_returns (l : list B) : forall p, returns (push_path_strs (IoError := unit) p l).
Proof.
  induction l as [|x l IH]; intros p; cbn [push_path_strs]; [done|]. apply bind_returns; [|intros a; apply IH]. converts.
Qed.

Lemma as_multi_file_returns (d : list (list Z * B)) : returns (as_multi_file (IoError := unit) d).
Proof.
  unfold as_multi_file, parse_length, parse_path_list. repeat (apply bind_returns; [|intros ?]); try done; try apply push_path_strs_returns;
    converts.
Qed.

Lemma parse_files_returns (l : list B) : returns (parse_files (IoError := unit) l).
Proof.
  induction l as [|x l IH]; cbn [parse_files]; [done|]. apply bind_returns; [converts|intros d].
  apply bind_returns; [apply as_multi_file_returns|intros f]. by apply bind_returns.
Qed.

Lemma info_of_dict_returns h (d : list (list Z * B)) : returns (info_of_dict (IoError := unit) h d).
Proof.
  unfold info_of_dict. apply bind_returns; [|intros piece_len].
  { unfold parse_piece_length. apply bind_returns; [|done]. converts. }
  apply bind_returns; [converts|intros pieces].
  apply bind_returns; [unfold allocate_pieces; by destruct (negb _)|intros buffers]. destruct (is_multi_file_torrent d).
  - apply bind_returns; [converts|intros dir]. apply bind_returns; [converts|intros fs]. apply bind_returns; [apply parse_files_returns|done].
  - apply bind_returns; [|done]. unfold as_single_file, parse_length, parse_name. repeat (apply bind_returns; [|intros ?]); try done;
      converts.
Qed.
End Reading.

Lemma info_of_dict_hash {B} `{BRefAccess B} h (d : list (list Z * B)) info : info_of_dict (IoError := unit) h d = Ok info -> in_info_hash info = h.
Proof. unfold info_of_dict. intros E. res_inv. destruct (is_multi_file_torrent d); by res_inv. Qed.

Lemma decode_not_fuel bytes opts : BencodeRef_decode bytes opts <> OutOfFuel.
Proof.
  unfold BencodeRef_decode. destruct (decode _ _ _ _ _) as [[r n]| | |] eqn:E; cbn; try done; [by destruct (_ && _)|].
  apply (proj1 (decode_total_all (decode_fuel bytes) bytes opts)) in E; [done|lia|unfold decode_fuel; lia].
Qed.

(** An info that was read has the hash of its bytes; only the decoder can panic. *)
Lemma info_from_bytes_cases sha1 bytes :
  match Info_from_bytes (IoError := unit) sha1 bytes with
  | Ok info => in_info_hash info = ShaHash_from_bytes sha1 bytes
  | Err _ => True
  | Panic => BencodeRef_decode bytes BDecodeOpt_default = Panic
  | OutOfFuel => False
  end.
Proof.
  unfold Info_from_bytes, parse_info_bytes. destruct (BencodeRef_decode bytes BDecodeOpt_default) as [r|e| |] eqn:E; cbn [map_err res_bind]; try done.
  2: { by apply decode_not_fuel in E. }
  apply BencodeRef_decode_Ok in E as (n & Hd & Hn). rewrite (Hn eq_refl) in Hd. apply decode_buffer in Hd. rewrite slice_0, take_ge in Hd by done.
  unfold parse_info_dictionary. rewrite Hd. destruct (parse_root_dict r) as [d|e| |] eqn:Er; cbn [res_bind]; try done;
    try (unfold parse_root_dict, convert_dict in Er; by destruct (acc_dict r)).
  pose proof (info_of_dict_returns (ShaHash_from_bytes sha1 bytes) d) as Hx. destruct (info_of_dict _ d) as [info| | |] eqn:Ei; try done. exact (info_of_dict_hash _ _ _ Ei).
Qed.

(** ** The invariant *)

(** The pieces requested for a download. *)
Definition active_of (h : ShaHash) (l : list ActiveRequest) : list Z :=
  map (fun r => mrq_piece (aq_message r)) (filter (fun r => pi_hash (aq_sent_to r) = h) l).

Lemma active_of_app h l k : active_of h (l ++ k) = active_of h l ++ active_of h k.
Proof. unfold active_of. by rewrite filter_app, map_app. Qed.
Lemma active_of_cons h r l : active_of h (r :: l) = (if decide (pi_hash (aq_sent_to r) = h) then [mrq_piece (aq_message r)] else []) ++ active_of h l.
Proof. unfold active_of. rewrite filter_cons. by destruct (decide _). Qed.
#[export] Instance active_of_perm h : Proper (Permutation ==> Permutation) (active_of h).
Proof. intros l k E. unfold active_of. by rewrite E. Qed.

Definition piece_in (bytes : list Z) (i : Z) : Prop := 0 <= i /\ i * MAX_REQUEST_SIZE <= Z.of_nat (length bytes).

(** Every piece left is to be requested or requested. *)
Record pending_ok (active : list Z) (p : PendingInfo) : Prop := {
  pk_left : pd_left p = (length (pd_messages p) + length active)%nat;
  pk_messages : Forall (fun m => piece_in (pd_bytes p) (mrq_piece m)) (pd_messages p);
  pk_active : Forall (piece_in (pd_bytes p)) active;
  pk_size : Z.of_nat (length (pd_bytes p)) <= MAX_CAPACITY
}.

#[export] Instance pending_ok_perm : Proper (Permutation ==> eq ==> iff) pending_ok.
Proof. intros l k E p q <-. split; intros [H1 H2 H3 H4]; split; try done; (by rewrite <- E) || (by rewrite E). Qed.

Definition request_ok (i : Z) : Prop := 0 <= i < 2 ^ 50 - 1.

Section Inv.
Context {HOS : HashOrder ShaHash (option PendingInfo)} {HOP : HashOrder PeerKey PeerInfo} (sha1 : list Z -> list Z) (sched : nat -> nat).
(** The hashes asked for, and the encoded info dictionaries of the torrents added. *)
Context (wanted : ShaHash -> Prop) (added : ShaHash -> list Z -> Prop).
Implicit Types (u : UtMetadataModule) (l : list ActiveRequest).

(** The invariant of a module whose active requests are [l]. *)
Record ut_ok u l : Prop := {
  uo_wanted h : is_Some (ut_pending_map u !! h) -> wanted h;
  uo_pending h p : ut_pending_map u !! h = Some (Some p) -> pending_ok (active_of h l) p;
  uo_idle h : (forall p, ut_pending_map u !! h <> Some (Some p)) -> active_of h l = [];
  uo_peers h a : ut_active_peers u !! h = Some a -> 0 <= ap_metadata_size a <= MAX_CAPACITY /\ forall k p, ap_peers a !! k = Some p -> pi_hash p = h;
  uo_requests : Forall (fun r => request_ok (mrq_piece (pq_request r))) (ut_peer_requests u);
  uo_completed h bytes : ut_completed_map u !! h = Some bytes -> added h bytes
}.
Definition ut_inv u : Prop := ut_ok u (ut_active_requests u).
(** After a message, a finished download has the hash asked for. *)
Definition ut_checked u : Prop := forall h p, ut_pending_map u !! h = Some (Some p) -> pd_left p = 0%nat -> ShaHash_from_bytes sha1 (pd_bytes p) = h.

(** A download changes together with its requests. *)
Lemma ut_ok_update u l l' h o : ut_ok u l -> (forall h2, h2 <> h -> active_of h2 l' ≡ₚ active_of h2 l) -> wanted h ->
  match o with Some p => pending_ok (active_of h l') p | None => active_of h l' = [] end -> ut_ok (ut_set_pending <[h := o]> u) l'.
Proof.
  intros [Hw Hp Hi Hpe Hr Hc] Hl Hwh Ho. split; cbn [ut_set_pending ut_pending_map ut_active_peers ut_peer_requests ut_completed_map]; try done.
  - intros h2. destruct (decide (h = h2)) as [->|]; [done|]. rewrite lookup_insert_ne by done. apply Hw.
  - intros h2 p. destruct (decide (h = h2)) as [<-|]; [rewrite lookup_insert_eq; by intros [= ->]|]. rewrite lookup_insert_ne by done. intros Hx.
    rewrite (Hl h2) by done. by apply Hp.
  - intros h2. destruct (decide (h = h2)) as [<-|]; [rewrite lookup_insert_eq; intros Hx; destruct o as [p|]; [by destruct (Hx p)|done]|].
    rewrite lookup_insert_ne by done. intros Hx. apply Permutation_nil. by rewrite (Hl h2), (Hi h2 Hx).
Qed.

(** Dropping an idle download. *)
Lemma ut_ok_delete u l h : ut_ok u l -> active_of h l = [] -> ut_ok (ut_set_pending (delete h) u) l.
Proof.
  intros [Hw Hp Hi Hpe Hr Hc] Hl. split; cbn [ut_set_pending ut_pending_map ut_active_peers ut_peer_requests ut_completed_map]; try done.
  - intros h2 [x [_ Hx]%lookup_delete_Some]. apply Hw. by exists x.
  - intros h2 p [_ Hx]%lookup_delete_Some. by apply Hp.
  - intros h2 Hx. destruct (decide (h = h2)) as [<-|]; [done|]. apply Hi. intros p Hy. apply (Hx p). by rewrite lookup_delete_ne.
Qed.

Lemma ut_ok_peers u l f : ut_ok u l ->
  (forall h a, f (ut_active_peers u) !! h = Some a -> 0 <= ap_metadata_size a <= MAX_CAPACITY /\ forall k p, ap_peers a !! k = Some p -> pi_hash p = h) ->
  ut_ok (ut_set_peers f u) l.
Proof. by intros [Hw Hp Hi Hpe Hr Hc] Hf. Qed.

(** ** After every message *)

Lemma fresh_pending size : 0 <= size <= MAX_CAPACITY -> exists p, pending_info_from_metadata_size size = Ok p /\ pending_ok [] p.
Proof.
  intros Hs. unfold pending_info_from_metadata_size. assert (Hu : as_u64 size = size) by (apply wrap_id; unfold in_unsigned, MAX_CAPACITY in *; lia). rewrite Hu.
  rewrite (proj2 (Z.ltb_ge _ _)) by lia. eexists. split; [done|]. split; cbn [pd_left pd_messages pd_bytes].
  - by rewrite length_map, length_seq, Nat.add_0_r.
  - apply Forall_map, Forall_seq. intros j Hj. unfold piece_in. cbn [mrq_piece UtMetadataRequestMessage_new]. rewrite length_replicate, Z2Nat.id by lia.
    assert (Hm : 0 < MAX_REQUEST_SIZE) by (unfold MAX_REQUEST_SIZE; lia). pose proof (Z.div_mod size MAX_REQUEST_SIZE ltac:(lia)). pose proof (Z.mod_pos_bound size MAX_REQUEST_SIZE Hm).
    assert (0 <= size / MAX_REQUEST_SIZE) by (apply Z.div_pos; lia). split; [lia|].
    assert (Z.of_nat j <= size / MAX_REQUEST_SIZE) by (destruct (negb _); lia). nia.
  - constructor.
  - rewrite length_replicate. lia.
Qed.

(** A walk over the map sees each of its entries once. *)
Definition entries_of u (es : list (ShaHash * option PendingInfo)) : Prop := NoDup (es.*1) /\ Forall (fun e => ut_pending_map u !! e.1 = Some e.2) es.

Lemma hash_entries_of u : entries_of u (hash_entries (ut_pending_map u)).
Proof.
  split; [rewrite (hash_entries_perm (ut_pending_map u)); apply NoDup_fst_map_to_list|]. rewrite (hash_entries_perm (ut_pending_map u)).
  apply Forall_forall. intros [h o] Hin. by apply elem_of_map_to_list.
Qed.

Lemma entries_of_set u h o es : entries_of u ((h, o) :: es) -> forall o', entries_of (ut_set_pending <[h := o']> u) es.
Proof.
  intros [Hn Hf] o'. cbn in Hn. apply NoDup_cons in Hn as [Hnin Hn]. apply Forall_cons in Hf as [_ Hf]. split; [done|]. rewrite Forall_forall in Hf |- *.
  intros [h2 o2] Hin. cbn. rewrite lookup_insert_ne; [by apply (Hf (h2, o2))|]. intros ->. apply Hnin, list_elem_of_fmap. by exists (h2, o2).
Qed.
Lemma entries_of_tail u e es : entries_of u (e :: es) -> entries_of u es.
Proof. intros [Hn Hf]. cbn in Hn. apply NoDup_cons in Hn as [_ Hn]. by apply Forall_cons in Hf as [_ Hf]. Qed.

Lemma set_pending_same u h o : ut_pending_map u !! h = Some o -> ut_set_pending <[h := o]> u = u.
Proof. intros E. destruct u as [c pm r a q]. cbn [ut_pending_map] in E. unfold ut_set_pending. cbn [ut_completed_map ut_pending_map ut_active_requests ut_active_peers ut_peer_requests].
  by rewrite (fin_maps.insert_id pm h o E). Qed.

Lemma initialize_ok es : forall u b, ut_inv u -> entries_of u es -> exists b' u', initialize_entries es b u = Ok (b', u') /\ ut_inv u'.
Proof.
  induction es as [|[h o] es IH]; intros u b Hu He; cbn [initialize_entries]; [by eexists _, _|].
  pose proof (proj2 He) as Hf. apply Forall_cons in Hf as [Hh _]. cbn in Hh.
  assert (Hx : exists o', initialize_entry (ut_active_peers u) h o = Ok o' /\ ut_inv (ut_set_pending <[h := o']> u)).
  { unfold initialize_entry. destruct o as [p|]; [exists (Some p); by rewrite set_pending_same|].
    destruct (ut_active_peers u !! h) as [a|] eqn:Ea; [|exists None; by rewrite set_pending_same].
    destruct (uo_peers _ _ Hu _ _ Ea) as [Hs _]. destruct (fresh_pending _ Hs) as (p & -> & Hp). exists (Some p). split; [done|].
    unfold ut_inv. cbn [ut_set_pending ut_active_requests]. apply (ut_ok_update u (ut_active_requests u)); [done|done|eapply uo_wanted; [done|by rewrite Hh]|].
    rewrite (uo_idle _ _ Hu h); [done|]. intros q Hq. rewrite Hh in Hq. discriminate. }
  destruct Hx as (o' & -> & Hu'). cbn [res_bind]. apply IH; [done|]. by apply (entries_of_set u h o).
Qed.

Lemma validate_ok es : forall u b, ut_inv u -> entries_of u es ->
  let u' := snd (validate_entries sha1 es b u) in ut_inv u' /\
  forall h p, ut_pending_map u' !! h = Some (Some p) -> ut_pending_map u !! h = Some (Some p) /\
    (h ∈ es.*1 -> pd_left p = 0%nat -> ShaHash_from_bytes sha1 (pd_bytes p) = h).
Proof.
  induction es as [|[h o] es IH]; intros u b Hu He; cbn [validate_entries]; [split; [done|]; intros h p Hp; split; [done|by intros ?%elem_of_nil]|].
  pose proof (proj2 He) as Hf. apply Forall_cons in Hf as [Hh _]. cbn in Hh. destruct (should_reset sha1 h o) eqn:Er.
  - assert (Hu' : ut_inv (ut_set_pending <[h := None]> u)).
    { apply (ut_ok_update u (ut_active_requests u)); [done|done|eapply uo_wanted; [done|by rewrite Hh]|]. unfold should_reset in Er. destruct o as [p|]; [|done].
      apply andb_prop in Er as [Hz _]. apply Nat.eqb_eq in Hz. pose proof (pk_left _ _ (uo_pending _ _ Hu _ _ Hh)) as Hk. apply length_zero_iff_nil. cbn [ut_set_pending ut_active_requests]. lia. }
    specialize (IH (ut_set_pending <[h := None]> u) (b || finished sha1 h o) Hu' (entries_of_set _ _ _ _ He None)) as [Hi Hc]. split; [done|].
    intros h2 p Hp. destruct (Hc h2 p Hp) as [Hl Hx]. cbn in Hl. apply lookup_insert_Some in Hl as [[_ ?]|[Hne Hl]]; [done|]. split; [done|].
    cbn. intros [->|Hin]%elem_of_cons; [done|by apply Hx].
  - specialize (IH u (b || finished sha1 h o) Hu (entries_of_tail _ _ _ He)) as [Hi Hc]. split; [done|]. intros h2 p Hp. destruct (Hc h2 p Hp) as [Hl Hx]. split; [done|].
    cbn. intros [->|Hin]%elem_of_cons; [|by apply Hx]. intros Hz. rewrite Hh in Hl. injection Hl as ->. cbn in Er. rewrite Hz in Er. cbn in Er.
    by apply negb_false_iff, bool_decide_eq_true in Er.
Qed.

Lemma check_ok u : ut_inv u -> exists u', check_stream_unblock sha1 u = Ok u' /\ ut_inv u' /\ ut_checked u'.
Proof.
  intros Hu. unfold check_stream_unblock, initialize_pending. destruct (initialize_ok _ u false Hu (hash_entries_of u)) as (b & u1 & -> & Hu1). cbn [res_bind].
  pose proof (validate_ok _ u1 false Hu1 (hash_entries_of u1)) as Hv. unfold validate_downloaded. destruct (validate_entries _ _ _ _) as [b2 u2]. cbn in Hv.
  eexists. split; [done|]. destruct Hv as [Hi Hc]. split; [done|]. intros h p Hp. destruct (Hc h p Hp) as [Hl Hx]. apply Hx.
  rewrite (hash_entries_perm (ut_pending_map u1)). apply list_elem_of_fmap. exists (h, Some p). split; [done|]. by apply elem_of_map_to_list.
Qed.

(** ** Messages *)

Definition size_ok (e : ExtendedPeerInfo) : Prop := forall m s, ep_theirs e = Some m -> metadata_size m = Some s -> 0 <= s <= MAX_CAPACITY.

Lemma add_peer_ok info e u : ut_inv u -> size_ok e -> exists u', ut_on_update info e u = Ok u' /\ ut_inv u' /\ ut_pending_map u' = ut_pending_map u.
Proof.
  intros Hu He. unfold ut_on_update, ut_add_peer. destruct (mbind _ (ep_ours e)); [|by exists u]. destruct (mbind _ (ep_theirs e)); [|by exists u].
  destruct (mbind metadata_size (ep_theirs e)) as [s|] eqn:Es; [|by exists u]. eexists. split; [done|]. split; [|done]. apply ut_ok_peers; [done|].
  assert (Hs : 0 <= s <= MAX_CAPACITY) by (destruct (ep_theirs e) as [m|] eqn:Em; cbn in Es; [by apply (He m s)|done]).
  intros h a [[<- <-]|[_ Ha]]%lookup_insert_Some; [|by apply (uo_peers _ _ Hu)]. cbn [ap_metadata_size ap_peers].
  destruct (ut_active_peers u !! pi_hash info) as [b|] eqn:Eb; cbn [default from_option id ap_metadata_size ap_peers].
  - destruct (uo_peers _ _ Hu _ _ Eb) as [Hb Hk]. split; [done|]. intros k p [Hp|(_ & -> & _)]%peers_insert_lookup; [by apply (Hk k)|done].
  - split; [done|]. intros k p [Hp%lookup_empty_Some|(_ & -> & _)]%peers_insert_lookup; done.
Qed.

Lemma remove_peer_ok info u : ut_inv u -> ut_inv (snd (ut_remove_peer info u)).
Proof.
  intros Hu. unfold ut_remove_peer. destruct (ut_active_peers u !! pi_hash info) as [b|] eqn:Eb; [|done]. apply ut_ok_peers; [done|].
  intros h a. case_bool_decide; [intros [_ Ha]%lookup_delete_Some; by apply (uo_peers _ _ Hu)|]. intros [[<- <-]|[_ Ha]]%lookup_insert_Some; [|by apply (uo_peers _ _ Hu)].
  destruct (uo_peers _ _ Hu _ _ Eb) as [Hb Hk]. split; [done|]. cbn [ap_peers]. unfold peers_remove. intros k p [_ Hp]%lookup_delete_Some. by apply (Hk k).
Qed.

Lemma add_torrent_ok m bytes u : ut_inv u -> Info_to_bytes (IoError := unit) sha1 sched (mi_info m) = Ok bytes -> added (in_info_hash (mi_info m)) bytes ->
  exists r u', ut_add_torrent sha1 sched m u = Ok (r, u') /\ ut_inv u'.
Proof.
  intros Hu Hb Ha. unfold ut_add_torrent. destruct (ut_completed_map u !! _); [by eexists _, _|]. rewrite Hb. cbn [res_unwrap res_bind]. eexists _, _. split; [done|].
  destruct Hu as [Hw Hp Hi Hpe Hr Hc]. split; try done. cbn. intros h b [[<- <-]|[_ Hx]]%lookup_insert_Some; [done|by apply Hc].
Qed.

Lemma remove_torrent_ok m u : ut_inv u -> ut_inv (snd (ut_remove_torrent m u)).
Proof.
  intros [Hw Hp Hi Hpe Hr Hc]. unfold ut_remove_torrent. destruct (ut_completed_map u !! _); split; try done. cbn. intros h b [_ Hx]%lookup_delete_Some. by apply Hc.
Qed.

Lemma download_ok h u : ut_inv u -> wanted h -> ut_inv (snd (download_metainfo h u)).
Proof.
  intros Hu Hw. unfold download_metainfo. destruct (ut_pending_map u !! h) eqn:E; [done|]. apply (ut_ok_update u (ut_active_requests u)); [done..|].
  apply (uo_idle _ _ Hu). by rewrite E.
Qed.

Lemma recv_request_ok info q u : ut_inv u -> request_ok (mrq_piece q) -> ut_inv (snd (recv_request info q u)).
Proof.
  intros [Hw Hp Hi Hpe Hr Hc] Hq. unfold recv_request. destruct (_ =? _)%nat; split; try done. cbn. apply Forall_app. split; [done|]. by apply Forall_singleton.
Qed.

Lemma retain_ok d requests : forall u acc kept u', ut_ok u (acc ++ requests) -> retain_requests d requests u = (kept, u') -> ut_ok u' (acc ++ kept).
Proof.
  induction requests as [|r requests IH]; intros u acc kept u' Hu E; cbn [retain_requests] in E; [by injection E as <- <-|]. destruct (aq_left r <? d).
  - eapply IH; [|exact E]. set (h := pi_hash (aq_sent_to r)) in *.
    assert (Hpieces : active_of h (acc ++ r :: requests) ≡ₚ mrq_piece (aq_message r) :: active_of h (acc ++ requests)).
    { rewrite !active_of_app, active_of_cons. rewrite decide_True by done. cbn [app]. by rewrite Permutation_middle. }
    assert (Hother : forall h2, h2 <> h -> active_of h2 (acc ++ requests) ≡ₚ active_of h2 (acc ++ r :: requests)).
    { intros h2 Hne. rewrite !active_of_app, active_of_cons. by rewrite decide_False by done. }
    destruct (ut_pending_map u !! h) as [[p|]|] eqn:Ep.
    2, 3: exfalso; assert (Hnil : active_of h (acc ++ r :: requests) = []) by (apply (uo_idle _ _ Hu); by rewrite Ep); rewrite Hnil in Hpieces; by apply Permutation_nil_cons in Hpieces.
    set (u1 := ut_set_peers _ u). assert (Hu1 : ut_ok u1 (acc ++ r :: requests)).
    { apply ut_ok_peers; [done|]. intros h2 a Ha. apply lookup_alter_Some in Ha as [(-> & b & Hb & ->)|[_ Ha]]; [|by apply (uo_peers _ _ Hu)].
      destruct (uo_peers _ _ Hu _ _ Hb) as [? Hk]. split; [done|]. cbn [ap_peers]. unfold peers_remove. intros k q [_ Hq]%lookup_delete_Some. by apply (Hk k). }
    assert (Halter : forall g : option PendingInfo -> option PendingInfo, ut_set_pending (alter g h) u1 = ut_set_pending <[h := g (Some p)]> u1).
    { intros g. unfold ut_set_pending, u1. cbn. f_equal. apply map_eq. intros h2. destruct (decide (h = h2)) as [<-|].
      - by rewrite lookup_alter_eq, lookup_insert_eq, Ep.
      - by rewrite lookup_alter_ne, lookup_insert_ne. }
    rewrite Halter. apply (ut_ok_update _ (acc ++ r :: requests)); [done|done|by eapply uo_wanted; [exact Hu|rewrite Ep]|].
    pose proof (uo_pending _ _ Hu _ _ Ep) as Hok. rewrite Hpieces in Hok. destruct Hok as [Hl Hm Ha Hs]. apply Forall_cons in Ha as [Ha1 Ha].
    split; cbn; [rewrite length_app; cbn in *; lia|apply Forall_app; split; [done|by apply Forall_singleton]|done|done].
  - destruct (retain_requests d requests u) as [k2 u2] eqn:Er. injection E as <- <-. specialize (IH u (acc ++ [r]) k2 u2). rewrite <- !app_assoc in IH. by apply IH.
Qed.

Lemma tick_ok d u : ut_inv u -> ut_inv (snd (apply_tick d u)).
Proof.
  intros Hu. unfold apply_tick. destruct (retain_requests d (ut_active_requests u) u) as [kept u'] eqn:E. pose proof (retain_ok d _ u [] kept u' Hu E) as Hk. cbn [app] in Hk.
  unfold ut_inv. cbn [snd ut_set_requests ut_active_requests]. set (k2 := map _ kept).
  assert (Ha : forall h, active_of h k2 = active_of h kept).
  { intros h. unfold k2. clear. induction kept as [|r kept IH]; [done|]. cbn [map]. rewrite !active_of_cons. cbn [aq_sent_to aq_message]. by rewrite IH. }
  destruct Hk as [Hw Hp Hi Hpe Hr Hc]. split; try done; intros h; rewrite Ha; [apply Hp|apply Hi].
Qed.

Lemma write_piece_ok data p active : pending_ok (md_piece data :: active) p ->
  exists p', write_piece_data data p = Ok p' /\ pending_ok active p' /\ pd_left p = S (pd_left p') /\ pd_messages p' = pd_messages p.
Proof.
  intros [Hl Hm Ha Hs]. apply Forall_cons in Ha as [[Hd1 Hd2] Ha]. unfold MAX_CAPACITY, MAX_REQUEST_SIZE in *. unfold write_piece_data, MAX_REQUEST_SIZE.
  rewrite wrap_id by (unfold in_unsigned; lia). rewrite (proj2 (Z.leb_gt _ _)) by lia. cbn [length] in Hl. destruct (pd_left p) as [|n] eqn:En; [lia|].
  rewrite (proj2 (Z.ltb_ge _ _)) by lia. eexists. split; [done|].
  assert (Hlen : length (take (Z.to_nat (md_piece data * (16 * 1024))) (pd_bytes p) ++ zip_copy (drop (Z.to_nat (md_piece data * (16 * 1024))) (pd_bytes p)) (md_data data)) = length (pd_bytes p)).
  { rewrite length_app, length_zip_copy, <- length_app. by rewrite take_drop. }
  split; [|done]. split; cbn [pd_left pd_messages pd_bytes]; [lia| | |by rewrite Hlen]; unfold piece_in in *; by rewrite Hlen.
Qed.

Lemma recv_data_ok info data u : ut_inv u -> exists r u', recv_data info data u = Ok (r, u') /\ ut_inv u'.
Proof.
  intros Hu. unfold recv_data. destruct (position _ (ut_active_requests u)) as [i|] eqn:Ei; [|by eexists _, _].
  apply position_Some in Ei as (r & Hsplit & Hm & _ & Hlt).
  assert (Hr : ut_active_requests u !! i = Some r) by (rewrite Hsplit, list_lookup_middle; [done|rewrite length_take; lia]). clear Hsplit Hlt.
  apply andb_prop in Hm as [He Hpc]. unfold PeerInfo_eq in He. apply bool_decide_eq_true in He. apply Z.eqb_eq in Hpc.
  assert (Hh : pi_hash (aq_sent_to r) = pi_hash info) by (unfold peer_key in He; congruence). pose proof (swap_remove_perm _ _ _ Hr) as Hperm.
  set (l' := swap_remove i (ut_active_requests u)) in *. set (h := pi_hash info) in *.
  assert (Hpieces : active_of h (ut_active_requests u) ≡ₚ md_piece data :: active_of h l') by (rewrite Hperm, active_of_cons, decide_True, Hpc by done; done).
  assert (Hother : forall h2, h2 <> h -> active_of h2 l' ≡ₚ active_of h2 (ut_active_requests u)) by (intros h2 Hne; rewrite Hperm, active_of_cons, decide_False; [done|congruence]).
  cbn [ut_set_requests ut_pending_map]. destruct (ut_pending_map u !! h) as [[p|]|] eqn:Ep.
  2, 3: exfalso; assert (Hnil : active_of h (ut_active_requests u) = []) by (apply (uo_idle _ _ Hu); by rewrite Ep); rewrite Hnil in Hpieces; by apply Permutation_nil_cons in Hpieces.
  pose proof (uo_pending _ _ Hu _ _ Ep) as Hok. rewrite Hpieces in Hok. destruct (write_piece_ok data p _ Hok) as (p' & -> & Hp' & _). cbn [res_bind]. eexists _, _. split; [done|].
  assert (Hx : ut_ok (ut_set_pending <[h := Some p']> u) l').
  { apply (ut_ok_update u (ut_active_requests u)); [done|done|eapply uo_wanted; [done|by rewrite Ep]|done]. }
  destruct Hx as [Hw1 Hp1 Hi1 Hpe1 Hr1 Hc1]. by split.
Qed.

Definition item_ok (item : IDiscoveryMessage) : Prop :=
  match item with
  | DiscoveryControl (CtlAddTorrent m) => exists bytes, Info_to_bytes (IoError := unit) sha1 sched (mi_info m) = Ok bytes /\ added (in_info_hash (mi_info m)) bytes
  | DownloadMetainfo h => wanted h
  | ReceivedUtMetadataMessage _ (MetaRequest q) => request_ok (mrq_piece q)
  | _ => True
  end.

Lemma send_ok item u : ut_inv u -> item_ok item -> exists r u', ut_send sha1 sched item u = Ok (r, u') /\ ut_inv u' /\ ut_checked u'.
Proof.
  intros Hu Hi. unfold ut_send.
  match goal with |- context [res_bind ?m _] => assert (Hop : exists r u1, m = Ok (r, u1) /\ ut_inv u1) end.
  { destruct item as [[m|m|p|p|d]|h|p [q|q|q]]; cbn in Hi.
    - destruct Hi as (bytes & Hb & Ha). by eapply add_torrent_ok.
    - pose proof (remove_torrent_ok m u Hu) as Hx. destruct (ut_remove_torrent m u) as [r u1]. by eexists _, _.
    - by eexists _, _.
    - pose proof (remove_peer_ok p u Hu) as Hx. destruct (ut_remove_peer p u) as [r u1]. by eexists _, _.
    - pose proof (tick_ok d u Hu) as Hx. destruct (apply_tick d u) as [r u1]. by eexists _, _.
    - pose proof (download_ok h u Hu Hi) as Hx. destruct (download_metainfo h u) as [r u1]. by eexists _, _.
    - pose proof (recv_request_ok p q u Hu Hi) as Hx. destruct (recv_request p q u) as [r u1]. by eexists _, _.
    - by apply recv_data_ok.
    - by eexists _, _. }
  destruct Hop as (r & u1 & -> & Hu1). cbn [res_bind]. destruct (check_ok u1 Hu1) as (u2 & -> & Hu2 & Hc). cbn [res_bind]. by eexists _, _.
Qed.

(** ** Polling *)

(** What is served of an encoded info dictionary. *)
Definition served (bytes : list Z) (d : UtMetadataDataMessage) : Prop :=
  0 <= md_piece d /\ (md_piece d + 1) * MAX_REQUEST_SIZE <= Z.of_nat (length bytes) /\
  md_data d = slice bytes (Z.to_nat (md_piece d * MAX_REQUEST_SIZE)) (Z.to_nat ((md_piece d + 1) * MAX_REQUEST_SIZE)).

Definition yield_ok (m : ODiscoveryMessage) : Prop :=
  match m with
  | DownloadedMetainfo m => wanted (in_info_hash (mi_info m))
  | SendUtMetadataMessage p (MetaRequest _) => wanted (pi_hash p)
  | SendUtMetadataMessage p (MetaData d) => exists bytes, added (pi_hash p) bytes /\ served bytes d
  | _ => False
  end.
Definition yields_ok (r : option (DiscoveryError + ODiscoveryMessage)) : Prop := match r with Some (inr m) => yield_ok m | Some (inl _) => False | None => True end.

Lemma find_entry {A} (f : A -> bool) (l : list A) x : List.find f l = Some x -> x ∈ l /\ f x = true.
Proof. intros E. apply find_some in E as [Hin Hf]. by apply list_elem_of_In in Hin. Qed.

Lemma pending_entry u h o : (h, o) ∈ hash_entries (ut_pending_map u) -> ut_pending_map u !! h = Some o.
Proof. rewrite (hash_entries_perm (ut_pending_map u)). by intros ?%elem_of_map_to_list. Qed.

Definition parseable : Prop := forall bytes, wanted (ShaHash_from_bytes sha1 bytes) -> BencodeRef_decode bytes BDecodeOpt_default <> Panic.

Lemma completed_ok fuel : forall u, parseable -> ut_inv u -> ut_checked u -> (size (ut_pending_map u) < fuel)%nat ->
  exists r u', retrieve_completed sha1 fuel u = Ok (r, u') /\ ut_inv u' /\ ut_checked u' /\ yields_ok r.
Proof.
  induction fuel as [|fuel IH]; intros u Hpar Hu Hc Hf; [lia|]. cbn [retrieve_completed].
  destruct (List.find is_completed (hash_entries (ut_pending_map u))) as [[h o]|] eqn:Ef; [|by eexists _, _].
  apply find_entry in Ef as [Hin%pending_entry Hz]. rewrite Hin. cbn [or_panic res_bind]. destruct o as [p|]; [|done]. cbn [or_panic res_bind]. apply Nat.eqb_eq in Hz. cbn [snd] in Hz.
  pose proof (Hc h p Hin Hz) as Hhash. set (u1 := ut_set_peers _ _).
  assert (Hu1 : ut_inv u1).
  { apply ut_ok_peers; [apply ut_ok_delete; [done|]|].
    - pose proof (pk_left _ _ (uo_pending _ _ Hu _ _ Hin)) as Hl. apply length_zero_iff_nil. unfold u1. cbn [ut_set_peers ut_set_pending ut_active_requests]. lia.
    - intros h2 a [_ Ha]%lookup_delete_Some. by apply (uo_peers _ _ Hu). }
  assert (Hc1 : ut_checked u1) by (intros h2 q; unfold u1; cbn [ut_set_peers ut_set_pending ut_pending_map]; intros [_ Hq]%lookup_delete_Some; by apply Hc).
  pose proof (uo_wanted _ _ Hu h ltac:(by rewrite Hin)) as Hw. pose proof (info_from_bytes_cases sha1 (pd_bytes p)) as Hi.
  destruct (Info_from_bytes sha1 (pd_bytes p)) as [info|e| |] eqn:Ei.
  - eexists _, _. split; [done|]. split; [done|]. split; [done|]. cbn. rewrite Hi, Hhash. done.
  - apply IH; [done..|]. unfold u1. cbn [ut_set_peers ut_set_pending ut_pending_map]. rewrite map_size_delete, Hin. assert (size (ut_pending_map u) <> 0%nat) by (apply map_size_ne_0_lookup; by exists h; rewrite Hin). lia.
  - exfalso. apply (Hpar (pd_bytes p)); [by rewrite Hhash|done].
  - done.
Qed.

Lemma request_ok_from draw es : forall u, ut_inv u -> ut_checked u -> Forall (fun e => ut_pending_map u !! e.1 = Some e.2) es ->
  exists r u', request_from draw es u = Ok (r, u') /\ ut_inv u' /\ ut_checked u' /\ yields_ok r.
Proof.
  induction es as [|[h o] es IH]; intros u Hu Hc He; cbn [request_from]; [by eexists _, _|]. apply Forall_cons in He as [Hh He]. cbn in Hh.
  destruct (has_ready_requests o && has_active_peers h u) eqn:Er; [|by apply IH]. apply andb_prop in Er as [Hready Hact].
  destruct o as [p|]; [|done]. cbn [or_panic res_bind has_ready_requests] in *. unfold has_active_peers in Hact. destruct (ut_active_peers u !! h) as [a|] eqn:Ea; [|done]. cbn [or_panic res_bind].
  apply negb_true_iff, bool_decide_eq_false in Hact. apply negb_true_iff, Nat.eqb_neq in Hready.
  assert (Hlen : length (peers_iter (ap_peers a)) <> 0%nat).
  { unfold peers_iter. rewrite length_map, (hash_entries_perm (ap_peers a)). rewrite length_map_to_list. by apply map_size_non_empty_iff. }
  rewrite (proj2 (Nat.eqb_neq _ _)) by done.
  set (n := length (peers_iter (ap_peers a))) in *. assert (Hmod := Z.mod_pos_bound draw (Z.of_nat n)). assert (Hi : (Z.to_nat (draw `mod` Z.of_nat n) < n)%nat) by lia.
  destruct (lookup_lt_is_Some_2 _ _ Hi) as [q Hq]. rewrite Hq. cbn [or_panic res_bind].
  destruct (last (pd_messages p)) as [m|] eqn:Em; [|apply last_None in Em; by rewrite Em in Hready]. cbn [or_panic res_bind]. apply last_Some in Em as [ms Em].
  assert (Hqh : pi_hash q = h) by (apply list_elem_of_lookup_2, peers_iter_elem in Hq as [k Hk]; by apply (uo_peers _ _ Hu _ _ Ea) in Hk).
  eexists _, _. split; [done|]. split; [|split].
  - unfold ut_inv. cbn [ut_set_requests ut_set_pending ut_active_requests]. set (l' := ut_active_requests u ++ _).
    assert (Hx : ut_ok (ut_set_pending <[h := Some (mkPending (removelast (pd_messages p)) (pd_left p) (pd_bytes p))]> u) l').
    { apply (ut_ok_update u (ut_active_requests u)); [done| |eapply uo_wanted; [done|by rewrite Hh]|].
      - intros h2 Hne. unfold l'. rewrite active_of_app, active_of_cons, decide_False by (cbn; congruence). by rewrite app_nil_r.
      - destruct (uo_pending _ _ Hu _ _ Hh) as [Hl Hm Ha Hs]. unfold l'. rewrite active_of_app, active_of_cons, decide_True by (cbn; congruence). cbn [active_of filter map].
        rewrite Em in Hl, Hm |- *. rewrite removelast_last. apply Forall_app in Hm as [Hm Hm1]. apply Forall_cons in Hm1 as [Hm1 _].
        split; cbn [pd_left pd_messages pd_bytes]; [rewrite Hl, !length_app; cbn; lia|done| |done]. rewrite app_nil_r. apply Forall_app. split; [done|]. constructor; [exact Hm1|constructor]. }
    destruct Hx as [Hw1 Hp1 Hi1 Hpe1 Hr1 Hc1]. by split.
  - intros h2 p2. cbn [ut_set_requests ut_set_pending ut_pending_map]. intros [[<- [= <-]]|[_ Hx]]%lookup_insert_Some; [by apply (Hc h p)|by apply Hc].
  - cbn. rewrite Hqh. eapply uo_wanted; [done|by rewrite Hh].
Qed.

Lemma respond_ok requests : forall u, ut_inv u -> ut_checked u -> Forall (fun r => request_ok (mrq_piece (pq_request r))) requests ->
  exists r u', respond requests u = Ok (r, u') /\ ut_inv u' /\ ut_checked u' /\ yields_ok r.
Proof.
  assert (Hset : forall u q, ut_inv u -> Forall (fun r => request_ok (mrq_piece (pq_request r))) q -> ut_inv (ut_set_peer_requests (fun _ => q) u)).
  { intros u q [Hw Hp Hi Hpe Hr Hc] Hq. by split. }
  induction requests as [|r requests IH]; intros u Hu Hc Hr; cbn [respond]; [eexists _, _; split; [done|]; split; [by apply Hset|done]|].
  apply Forall_cons in Hr as [[Hr0 Hr1] Hr]. set (i := mrq_piece (pq_request r)) in *. assert (Hi : as_u64 i = i) by (apply wrap_id; unfold in_unsigned; lia). rewrite Hi.
  unfold MAX_REQUEST_SIZE. rewrite (proj2 (Z.leb_gt _ _)) by lia. destruct (ut_completed_map u !! pi_hash (pq_send_to r)) as [data|] eqn:Ed; [|by apply IH].
  destruct (_ && _) eqn:Eb; [|by apply IH]. apply andb_prop in Eb as [_ Hend]. apply Z.leb_le in Hend. eexists _, _. split; [done|]. split; [by apply Hset|]. split; [done|].
  cbn. exists data. split; [by apply (uo_completed _ _ Hu)|]. unfold served, MAX_REQUEST_SIZE. cbn [md_piece md_data UtMetadataDataMessage_new]. split; [done|]. split; [lia|]. f_equal. lia.
Qed.

Lemma poll_ok draw u : parseable -> ut_inv u -> ut_checked u -> exists r u', ut_poll sha1 draw u = Ok (r, u') /\ ut_inv u' /\ ut_checked u' /\ yields_ok r.
Proof.
  intros Hpar Hu Hc. unfold ut_poll, retrieve_completed_download. destruct (completed_ok (S (size (ut_pending_map u))) u Hpar Hu Hc ltac:(lia)) as (r & u1 & -> & Hu1 & Hc1 & Hr). cbn [res_bind].
  destruct r as [m|]; [by eexists _, _|]. unfold retrieve_piece_request.
  destruct (request_ok_from draw (hash_entries (ut_pending_map u1)) u1 Hu1 Hc1 (proj2 (hash_entries_of u1))) as (r & u2 & -> & Hu2 & Hc2 & Hr2). cbn [res_bind].
  destruct r as [m|]; [by eexists _, _|]. by apply respond_ok; [..|apply (uo_requests _ _ Hu2)].
Qed.

(** ** Histories *)

Inductive ut_event : Type :=
| EvSend (item : IDiscoveryMessage)
| EvUpdate (info : PeerInfo) (e : ExtendedPeerInfo)
| EvPoll (draw : Z).

Definition ut_step (e : ut_event) u : res unit (list ODiscoveryMessage * UtMetadataModule) :=
  match e with
  | EvSend item => let? (_, u) := ut_send sha1 sched item u in Ok ([], u)
  | EvUpdate info e => let? u := ut_on_update info e u in Ok ([], u)
  | EvPoll draw => let? (r, u) := ut_poll sha1 draw u in Ok (match r with Some (inr m) => [m] | _ => [] end, u)
  end.

Fixpoint ut_exec (es : list ut_event) u : res unit (list ODiscoveryMessage * UtMetadataModule) :=
  match es with
  | [] => Ok ([], u)
  | e :: es =>
      let? (o, u) := ut_step e u in
      let? (os, u) := ut_exec es u in
      Ok (o ++ os, u)
  end.

Definition event_ok (e : ut_event) : Prop := match e with EvSend item => item_ok item | EvUpdate _ e => size_ok e | EvPoll _ => True end.

Lemma exec_ok es : forall u, parseable -> ut_inv u -> ut_checked u -> Forall event_ok es ->
  exists outs u', ut_exec es u = Ok (outs, u') /\ ut_inv u' /\ ut_checked u' /\ Forall yield_ok outs.
Proof.
  induction es as [|e es IH]; intros u Hpar Hu Hc He; cbn [ut_exec]; [by eexists _, _|]. apply Forall_cons in He as [He Hes].
  assert (Hs : exists o u1, ut_step e u = Ok (o, u1) /\ ut_inv u1 /\ ut_checked u1 /\ Forall yield_ok o).
  { destruct e as [item|info e|draw]; cbn [ut_step].
    - destruct (send_ok item u Hu He) as (r & u1 & -> & Hu1 & Hc1). cbn. by eexists _, _.
    - destruct (add_peer_ok info e u Hu He) as (u1 & -> & Hu1 & Hp). cbn. eexists _, _. split; [done|]. split; [done|]. split; [|done]. unfold ut_checked. by rewrite Hp.
    - destruct (poll_ok draw u Hpar Hu Hc) as (r & u1 & -> & Hu1 & Hc1 & Hr). cbn [res_bind]. eexists _, _. split; [done|]. split; [done|]. split; [done|].
      destruct r as [[|m]|]; try done. by apply Forall_singleton. }
  destruct Hs as (o & u1 & -> & Hu1 & Hc1 & Ho). cbn [res_bind]. destruct (IH u1 Hpar Hu1 Hc1 Hes) as (os & u2 & -> & Hu2 & Hc2 & Hos). cbn [res_bind].
  eexists _, _. split; [done|]. split; [done|]. split; [done|]. by apply Forall_app.
Qed.

Lemma new_ok : ut_inv UtMetadataModule_new /\ ut_checked UtMetadataModule_new.
Proof.
  split; [|intros h p; cbn; by rewrite lookup_empty]. split; try done; cbn; intros h; [rewrite lookup_empty; by intros []|by rewrite lookup_empty..].
Qed.
End Inv.

Section Properties.
Context {HOS : HashOrder ShaHash (option PendingInfo)} {HOP : HashOrder PeerKey PeerInfo} (sha1 : list Z -> list Z) (sched : nat -> nat).

(** What a history asks for and adds. *)
Definition asked (es : list ut_event) (h : ShaHash) : Prop := EvSend (DownloadMetainfo h) ∈ es.
Definition added_in (es : list ut_event) (h : ShaHash) (bytes : list Z) : Prop :=
  exists m, EvSend (DiscoveryControl (CtlAddTorrent m)) ∈ es /\ in_info_hash (mi_info m) = h /\ Info_to_bytes (IoError := unit) sha1 sched (mi_info m) = Ok bytes.

(** The torrents added can be encoded, the sizes peers announce are not negative and the
    pieces they ask for can be multiplied by the size of a piece. *)
Definition input_ok (e : ut_event) : Prop :=
  match e with
  | EvSend (DiscoveryControl (CtlAddTorrent m)) => exists bytes, Info_to_bytes (IoError := unit) sha1 sched (mi_info m) = Ok bytes
  | EvSend (ReceivedUtMetadataMessage _ (MetaRequest q)) => request_ok (mrq_piece q)
  | EvUpdate _ e => size_ok e
  | _ => True
  end.

Lemma inputs_ok es : Forall input_ok es -> Forall (event_ok sha1 sched (asked es) (added_in es)) es.
Proof.
  intros Hf. apply Forall_forall. intros e He. rewrite Forall_forall in Hf. specialize (Hf e He).
  destruct e as [[[m|m|p|p|d]|h|p [q|q|q]]|p e|draw]; try done. destruct Hf as [bytes Hb]. exists bytes. split; [done|]. by exists m.
Qed.

(** C15: metadata exchange is safe. In every history of control messages, messages of
    peers (any data, in any order, of any length), extended messages and polls no call
    panics, provided that added torrents can be encoded, announced sizes are neither
    negative nor too large to allocate, pieces asked for are numbers below 2^50 - 1 and the
    decoder does not panic on bytes whose hash was asked for; the module only reports metainfo whose hash was asked for; it only asks peers
    of torrents asked for; and what it serves is a whole piece of the encoded info
    dictionary of a torrent that was added. *)
Theorem metadata_exchange_is_safe (es : list ut_event) : Forall input_ok es ->
  (forall bytes, asked es (ShaHash_from_bytes sha1 bytes) -> BencodeRef_decode bytes BDecodeOpt_default <> Panic) ->
  exists outs u, ut_exec sha1 sched es UtMetadataModule_new = Ok (outs, u) /\ Forall (yield_ok (asked es) (added_in es)) outs.
Proof.
  intros Hf Hp. destruct (new_ok sha1 (asked es) (added_in es)) as [Hu Hc].
  destruct (exec_ok sha1 sched (asked es) (added_in es) es _ Hp Hu Hc (inputs_ok es Hf)) as (outs & u & E & _ & _ & Ho). by exists outs, u.
Qed.

(** Only the last phase of a poll sends data. *)
Lemma completed_sends fuel : forall u r u', retrieve_completed sha1 fuel u = Ok (r, u') ->
  (r = None \/ exists m, r = Some (inr (DownloadedMetainfo m))) /\ ut_completed_map u' = ut_completed_map u /\ ut_peer_requests u' = ut_peer_requests u.
Proof.
  induction fuel as [|fuel IH]; intros u r u' E; cbn [retrieve_completed] in E; [done|].
  destruct (List.find _ _) as [[h o]|]; [|injection E as <- <-; by split; [left|]].
  destruct (ut_pending_map u !! h) as [o2|]; [|done]. cbn [or_panic res_bind] in E. destruct o2 as [p|]; [|done]. cbn [or_panic res_bind] in E.
  destruct (Info_from_bytes sha1 (pd_bytes p)); try done; [injection E as <- <-; split; [right; by eexists|done]|]. by apply IH in E.
Qed.

Lemma request_sends draw es : forall u r u', request_from draw es u = Ok (r, u') ->
  match r with None => ut_completed_map u' = ut_completed_map u /\ ut_peer_requests u' = ut_peer_requests u | Some x => exists p m, x = inr (SendUtMetadataMessage p (MetaRequest m)) end.
Proof.
  induction es as [|[h o] es IH]; intros u r u' E; cbn [request_from] in E; [by injection E as <- <-|]. destruct (_ && _); [|by apply IH].
  destruct o as [p|]; [|done]. cbn [or_panic res_bind] in E. destruct (ut_active_peers u !! h) as [a|]; [|done]. cbn [or_panic res_bind] in E. destruct (_ =? 0)%nat; [done|].
  destruct (peers_iter (ap_peers a) !! _) as [q|]; [|done]. cbn [or_panic res_bind] in E. destruct (last (pd_messages p)) as [m|]; [|done]. injection E as <- <-. by eexists _, _.
Qed.

Lemma respond_sends requests : forall u p d u', Forall (fun r => request_ok (mrq_piece (pq_request r))) requests -> respond requests u = Ok (Some (inr (SendUtMetadataMessage p (MetaData d))), u') ->
  exists bytes, ut_completed_map u !! pi_hash p = Some bytes /\ served bytes d.
Proof.
  induction requests as [|r requests IH]; intros u p d u' Hr E; cbn [respond] in E; [done|]. apply Forall_cons in Hr as [[Hr0 Hr1] Hr]. revert E.
  set (i := mrq_piece (pq_request r)) in *. assert (Hi : as_u64 i = i) by (apply wrap_id; unfold in_unsigned; lia). rewrite Hi. unfold MAX_REQUEST_SIZE.
  rewrite (proj2 (Z.leb_gt _ _)) by lia. destruct (ut_completed_map u !! pi_hash (pq_send_to r)) as [data|] eqn:Ed; [|by apply IH].
  destruct (_ && _) eqn:Eb; [|by apply IH]. apply andb_prop in Eb as [_ Hend%Z.leb_le]. intros [= <- <- _]. exists data. split; [done|].
  unfold served, MAX_REQUEST_SIZE. cbn [md_piece md_data UtMetadataDataMessage_new]. split; [done|]. split; [lia|]. f_equal. lia.
Qed.

(** C37: the last piece of an info dictionary is not served. Data that a poll sends is a
    whole piece of the dictionary stored for the torrent: the piece at its end is never
    sent unless its length is a multiple of 16 KiB, and a dictionary shorter than that is not served at all. *)
Theorem last_metadata_piece_is_not_served (u u' : UtMetadataModule) (draw : Z) (p : PeerInfo) (d : UtMetadataDataMessage) :
  Forall (fun r => request_ok (mrq_piece (pq_request r))) (ut_peer_requests u) ->
  ut_poll sha1 draw u = Ok (Some (inr (SendUtMetadataMessage p (MetaData d))), u') ->
  exists bytes, ut_completed_map u !! pi_hash p = Some bytes /\ served bytes d /\ md_piece d < Z.of_nat (length bytes) / MAX_REQUEST_SIZE.
Proof.
  intros Hr E. unfold ut_poll, retrieve_completed_download in E. destruct (retrieve_completed _ _ u) as [[r1 u1]| | |] eqn:E1; try done. cbn [res_bind] in E.
  apply completed_sends in E1 as ([->|[m ->]] & Hc1 & Hr1); [|done]. unfold retrieve_piece_request in E. destruct (request_from _ _ u1) as [[r2 u2]| | |] eqn:E2; try done. cbn [res_bind] in E.
  apply request_sends in E2. destruct r2 as [x|]; [destruct E2 as (? & ? & ->); done|]. destruct E2 as [Hc2 Hr2]. unfold retrieve_piece_response in E. rewrite Hr2, Hr1 in E.
  destruct (respond_sends _ _ _ _ _ Hr E) as (bytes & Hb & Hs). rewrite Hc2, Hc1 in Hb. exists bytes. split; [done|]. split; [done|]. destruct Hs as (Hd0 & Hlen & _).
  assert (0 < MAX_REQUEST_SIZE) by (unfold MAX_REQUEST_SIZE; lia). apply Z.lt_le_trans with (md_piece d + 1); [lia|]. apply Z.div_le_lower_bound; lia.
Qed.

(** ** A download from honest peers *)

Definition honest_data (target : list Z) (m : UtMetadataRequestMessage) : UtMetadataDataMessage :=
  UtMetadataDataMessage_new (mrq_piece m) (Z.of_nat (length target))
    (slice target (Z.to_nat (mrq_piece m * MAX_REQUEST_SIZE)) (Z.to_nat ((mrq_piece m + 1) * MAX_REQUEST_SIZE))).

(** Every request is answered with the piece; the pieces requested. *)
Fixpoint honest_rounds (target : list Z) (draws : list Z) (u : UtMetadataModule) : res unit (list Z * UtMetadataModule) :=
  match draws with
  | [] => Ok ([], u)
  | draw :: draws =>
      let? (r, u) := ut_poll sha1 draw u in
      match r with
      | Some (inr (SendUtMetadataMessage q (MetaRequest m))) =>
          let? (_, u) := ut_send sha1 sched (ReceivedUtMetadataMessage q (MetaData (honest_data target m))) u in
          let? (pieces, u) := honest_rounds target draws u in
          Ok (mrq_piece m :: pieces, u)
      | _ => Ok ([], u)
      end
  end.

Context (target : list Z) (Hlen : Z.of_nat (length target) <= MAX_CAPACITY).
Abbreviation h := (ShaHash_from_bytes sha1 target).

(** [n] pieces are left, the others are there. *)
Record downloading (n : nat) (u : UtMetadataModule) : Prop := {
  dl_pending : exists bytes, ut_pending_map u = {[h := Some (mkPending (map (fun i => UtMetadataRequestMessage_new (Z.of_nat i)) (seq 0 n)) n bytes)]} /\
    length bytes = length target /\ drop (Z.to_nat (Z.of_nat n * MAX_REQUEST_SIZE)) bytes = drop (Z.to_nat (Z.of_nat n * MAX_REQUEST_SIZE)) target;
  dl_requests : ut_active_requests u = [];
  dl_peers : exists a, ut_active_peers u !! h = Some a /\ ap_peers a <> ∅ /\ forall k p, ap_peers a !! k = Some p -> pi_hash p = h
}.

Lemma hash_entries_single (o : option PendingInfo) : hash_entries ({[h := o]} : gmap ShaHash (option PendingInfo)) = [(h, o)].
Proof.
  pose proof (hash_entries_perm ({[h := o]} : gmap ShaHash (option PendingInfo))) as Hp. rewrite map_to_list_singleton in Hp. by apply Permutation_singleton_r in Hp.
Qed.

Lemma seq_requests_last n : map (fun i => UtMetadataRequestMessage_new (Z.of_nat i)) (seq 0 (S n)) =
  map (fun i => UtMetadataRequestMessage_new (Z.of_nat i)) (seq 0 n) ++ [UtMetadataRequestMessage_new (Z.of_nat n)].
Proof. by rewrite seq_S, map_app. Qed.

Lemma zip_copy_prefix (dst src : list Z) : (length src <= length dst)%nat -> zip_copy dst src = src ++ drop (length src) dst.
Proof.
  revert src. induction dst as [|x dst IH]; intros [|y src] Hl; cbn in *; try done; [lia|]. f_equal. apply IH. lia.
Qed.

(** Writing a piece of the target. *)
Lemma write_target n bytes : (0 < n)%nat -> Z.of_nat n * MAX_REQUEST_SIZE < Z.of_nat (length target) + MAX_REQUEST_SIZE -> length bytes = length target ->
  drop (Z.to_nat (Z.of_nat n * MAX_REQUEST_SIZE)) bytes = drop (Z.to_nat (Z.of_nat n * MAX_REQUEST_SIZE)) target ->
  let off := Z.to_nat (Z.of_nat (n - 1) * MAX_REQUEST_SIZE) in
  let data := slice target off (Z.to_nat (Z.of_nat n * MAX_REQUEST_SIZE)) in
  let bytes' := take off bytes ++ zip_copy (drop off bytes) data in
  length bytes' = length target /\ drop off bytes' = drop off target.
Proof.
  intros Hn Hb Hl Hd off data bytes'. set (top := Z.to_nat (Z.of_nat n * MAX_REQUEST_SIZE)) in *.
  assert (Hoff : (off <= length target /\ off <= top)%nat) by (unfold off, top, MAX_REQUEST_SIZE in *; lia).
  assert (Hdata : length data = (min top (length target) - off)%nat) by (unfold data, slice; rewrite length_take, length_drop; lia).
  assert (Hbytes : drop off bytes' = drop off target).
  { unfold bytes'. rewrite drop_app_length' by (rewrite length_take; lia). rewrite zip_copy_prefix by (rewrite length_drop; lia). rewrite drop_drop, Hdata.
    rewrite <- (take_drop (top - off) (drop off target)). unfold data, slice. f_equal. rewrite drop_drop. replace (off + (top - off))%nat with top by lia.
    destruct (decide (top <= length target)%nat); [by replace (off + (min top (length target) - off))%nat with top by lia|].
    rewrite !drop_ge by lia. done. }
  split; [|done]. unfold bytes'. rewrite length_app, length_zip_copy, <- length_app, take_drop. done.
Qed.

Lemma request_round n u draw : downloading (S n) u -> exists q u1,
  ut_poll sha1 draw u = Ok (Some (inr (SendUtMetadataMessage q (MetaRequest (UtMetadataRequestMessage_new (Z.of_nat n))))), u1) /\
  pi_hash q = h /\ ut_active_requests u1 = [generate_active_request (UtMetadataRequestMessage_new (Z.of_nat n)) q] /\ ut_active_peers u1 = ut_active_peers u /\
  exists bytes, ut_pending_map u1 = {[h := Some (mkPending (map (fun i => UtMetadataRequestMessage_new (Z.of_nat i)) (seq 0 n)) (S n) bytes)]} /\
    length bytes = length target /\ drop (Z.to_nat (Z.of_nat (S n) * MAX_REQUEST_SIZE)) bytes = drop (Z.to_nat (Z.of_nat (S n) * MAX_REQUEST_SIZE)) target.
Proof.
  intros [(bytes & Hpm & Hl & Hd) Hr (a & Ha & Hne & Hq)]. unfold ut_poll, retrieve_completed_download. cbn [retrieve_completed].
  rewrite Hpm, hash_entries_single. cbn [List.find is_completed snd pd_left Nat.eqb res_bind]. unfold retrieve_piece_request. rewrite Hpm, hash_entries_single.
  cbn [request_from]. unfold has_ready_requests, has_active_peers. cbn [pd_messages]. rewrite length_map, length_seq, Ha, bool_decide_false by done. cbn [negb Nat.eqb andb or_panic res_bind].
  assert (Hlen0 : length (peers_iter (ap_peers a)) <> 0%nat).
  { unfold peers_iter. rewrite length_map, (hash_entries_perm (ap_peers a)). rewrite length_map_to_list. by apply map_size_non_empty_iff. }
  rewrite (proj2 (Nat.eqb_neq _ _)) by done. set (k := length (peers_iter (ap_peers a))) in *. assert (Hmod := Z.mod_pos_bound draw (Z.of_nat k)).
  assert (Hi : (Z.to_nat (draw `mod` Z.of_nat k) < k)%nat) by lia. destruct (lookup_lt_is_Some_2 _ _ Hi) as [q Eq]. rewrite Eq. cbn [or_panic res_bind pd_messages].
  rewrite seq_requests_last, last_snoc, removelast_last. cbn [or_panic res_bind pd_left pd_bytes]. eexists q, _. split; [done|].
  cbn [ut_set_requests ut_set_pending ut_active_requests ut_active_peers ut_pending_map]. rewrite Hr, Hpm, insert_singleton_eq. split; [|split; [done|split; [done|by exists bytes]]].
  apply list_elem_of_lookup_2, peers_iter_elem in Eq as [kk Hk]. by apply (Hq kk).
Qed.

(** After a message, a lone download that is not finished with the wrong hash stays. *)
Lemma check_single u p : ut_pending_map u = {[h := Some p]} -> (pd_left p = 0%nat -> pd_bytes p = target) -> check_stream_unblock sha1 u = Ok u.
Proof.
  intros Hpm Hz. unfold check_stream_unblock, initialize_pending. rewrite Hpm, hash_entries_single. cbn [initialize_entries initialize_entry res_bind].
  rewrite set_pending_same by (by rewrite Hpm, lookup_singleton_eq). unfold validate_downloaded. rewrite Hpm, hash_entries_single. cbn [validate_entries should_reset].
  destruct (Nat.eqb_spec (pd_left p) 0) as [E|]; [|done]. rewrite (Hz E), bool_decide_true by done. done.
Qed.

(** One that waits for a peer stays, too. *)
Lemma check_waiting u : ut_pending_map u = {[h := None]} -> ut_active_peers u !! h = None -> check_stream_unblock sha1 u = Ok u.
Proof.
  intros Hpm Ha. unfold check_stream_unblock, initialize_pending. rewrite Hpm, hash_entries_single. cbn [initialize_entries initialize_entry]. rewrite Ha. cbn [res_bind].
  rewrite set_pending_same by (by rewrite Hpm, lookup_singleton_eq). unfold validate_downloaded. by rewrite Hpm, hash_entries_single.
Qed.

(** One whose peer announced the size starts. *)
Lemma check_starts u a p : ut_pending_map u = {[h := None]} -> ut_active_peers u !! h = Some a -> pending_info_from_metadata_size (ap_metadata_size a) = Ok p ->
  (pd_left p = 0%nat -> pd_bytes p = target) -> check_stream_unblock sha1 u = Ok (ut_set_pending <[h := Some p]> u).
Proof.
  intros Hpm Ha Hp Hz. unfold check_stream_unblock, initialize_pending. rewrite Hpm, hash_entries_single. cbn [initialize_entries initialize_entry]. rewrite Ha, Hp. cbn [res_bind].
  set (u' := ut_set_pending _ u). assert (Hpm' : ut_pending_map u' = {[h := Some p]}) by (unfold u'; cbn [ut_set_pending ut_pending_map]; by rewrite Hpm, insert_singleton_eq).
  unfold validate_downloaded. rewrite Hpm', hash_entries_single. cbn [validate_entries should_reset].
  destruct (Nat.eqb_spec (pd_left p) 0) as [E|]; [|done]. rewrite (Hz E), bool_decide_true by done. done.
Qed.

Lemma data_round n u draw : downloading (S n) u -> Z.of_nat n * MAX_REQUEST_SIZE < Z.of_nat (length target) -> exists q u1 r u2,
  ut_poll sha1 draw u = Ok (Some (inr (SendUtMetadataMessage q (MetaRequest (UtMetadataRequestMessage_new (Z.of_nat n))))), u1) /\
  ut_send sha1 sched (ReceivedUtMetadataMessage q (MetaData (honest_data target (UtMetadataRequestMessage_new (Z.of_nat n))))) u1 = Ok (r, u2) /\ downloading n u2.
Proof.
  intros Hdl Hn. destruct (request_round n u draw Hdl) as (q & u1 & Epoll & Hq & Hr & Hpe & bytes & Hpm & Hl & Hd). exists q, u1.
  destruct (write_target (S n) bytes ltac:(lia) ltac:(lia) Hl Hd) as [Hl' Hd']. replace (S n - 1)%nat with n in Hl', Hd' by lia.
  set (off := Z.to_nat (Z.of_nat n * MAX_REQUEST_SIZE)) in *. set (bytes' := take off bytes ++ _) in *.
  set (p' := mkPending (map (fun i => UtMetadataRequestMessage_new (Z.of_nat i)) (seq 0 n)) n bytes').
  assert (Erecv : recv_data q (honest_data target (UtMetadataRequestMessage_new (Z.of_nat n))) u1 = Ok (inr None, ut_set_pending <[h := Some p']> (ut_set_requests (fun _ => []) u1))).
  { unfold recv_data. rewrite Hr. cbn [position generate_active_request aq_sent_to aq_message]. unfold PeerInfo_eq. rewrite bool_decide_true by done. cbn [mrq_piece UtMetadataRequestMessage_new md_piece honest_data UtMetadataDataMessage_new].
    rewrite Z.eqb_refl. cbn [andb]. unfold ut_set_requests at 1. cbn [ut_pending_map]. rewrite Hpm, Hq, lookup_singleton_eq. unfold write_piece_data. cbn [md_piece md_data honest_data UtMetadataDataMessage_new mrq_piece UtMetadataRequestMessage_new pd_left pd_bytes pd_messages].
    assert (Hbound : Z.of_nat n < 2 ^ 64 /\ Z.of_nat n * MAX_REQUEST_SIZE < 2 ^ 64) by (unfold MAX_CAPACITY, MAX_REQUEST_SIZE in *; lia).
    rewrite wrap_id by (unfold in_unsigned; lia). rewrite (proj2 (Z.leb_gt _ _)) by apply Hbound. rewrite (proj2 (Z.ltb_ge _ _)) by (rewrite Hl; lia). cbn [res_bind].
    replace (Z.of_nat n + 1) with (Z.of_nat (S n)) by lia. unfold ut_set_requests. rewrite Hr. reflexivity. }
  unfold ut_send. cbn [res_bind]. rewrite Erecv. cbn [res_bind].
  set (u2 := ut_set_pending _ _). assert (Hpm2 : ut_pending_map u2 = {[h := Some p']}) by (unfold u2; cbn [ut_set_pending ut_set_requests ut_pending_map]; by rewrite Hpm, insert_singleton_eq).
  rewrite (check_single u2 p' Hpm2). 2: { unfold p'. cbn [pd_left pd_bytes]. intros ->. unfold off in Hd'. by rewrite !drop_0 in Hd'. }
  cbn [res_bind]. exists (inr None), u2. split; [exact Epoll|]. split; [done|]. split; [by exists bytes'|done|]. unfold u2. cbn [ut_set_pending ut_set_requests ut_active_peers]. rewrite Hpe. apply (dl_peers _ _ Hdl).
Qed.

Lemma honest_rounds_ok draws : forall u, downloading (length draws) u -> Z.of_nat (length draws) * MAX_REQUEST_SIZE < Z.of_nat (length target) + MAX_REQUEST_SIZE ->
  exists u', honest_rounds target draws u = Ok (map Z.of_nat (rev (seq 0 (length draws))), u') /\ downloading 0 u'.
Proof.
  induction draws as [|draw draws IH]; intros u Hdl Hn; cbn [length honest_rounds] in *; [by exists u|].
  destruct (data_round (length draws) u draw Hdl ltac:(lia)) as (q & u1 & r & u2 & -> & E2 & Hdl2). cbn [res_bind]. rewrite E2. cbn [res_bind].
  destruct (IH u2 Hdl2 ltac:(unfold MAX_REQUEST_SIZE in *; lia)) as (u3 & -> & Hdl3). cbn [res_bind]. exists u3. split; [|done]. rewrite seq_S, rev_app_distr. done.
Qed.

(** The piece count of the source. *)
Definition num_pieces (size : Z) : nat := Z.to_nat (if negb (size mod MAX_REQUEST_SIZE =? 0) then size / MAX_REQUEST_SIZE + 1 else size / MAX_REQUEST_SIZE).

Lemma num_pieces_bounds size : 0 <= size -> size <= Z.of_nat (num_pieces size) * MAX_REQUEST_SIZE < size + MAX_REQUEST_SIZE.
Proof.
  intros Hs. unfold num_pieces. assert (Hm : 0 < MAX_REQUEST_SIZE) by (unfold MAX_REQUEST_SIZE; lia). pose proof (Z.div_mod size MAX_REQUEST_SIZE ltac:(lia)).
  pose proof (Z.mod_pos_bound size MAX_REQUEST_SIZE Hm). assert (0 <= size / MAX_REQUEST_SIZE) by (apply Z.div_pos; lia).
  destruct (Z.eqb_spec (size mod MAX_REQUEST_SIZE) 0); cbn [negb]; rewrite Z2Nat.id by lia; nia.
Qed.

(** Both sides support the exchange and the peer announces a size. *)
Definition offers (e : ExtendedPeerInfo) (size : Z) : Prop :=
  (exists m id, ep_ours e = Some m /\ query_id m UtMetadataType = Some id) /\
  (exists m id, ep_theirs e = Some m /\ query_id m UtMetadataType = Some id /\ metadata_size m = Some size).

Lemma add_peer_offers info e size u : offers e size ->
  ut_add_peer info e u = (inr None, ut_set_peers <[pi_hash info := mkActivePeers (peers_insert info (ap_peers (default (mkActivePeers ∅ size) (ut_active_peers u !! pi_hash info))))
    (ap_metadata_size (default (mkActivePeers ∅ size) (ut_active_peers u !! pi_hash info)))]> u).
Proof.
  intros [(m & i & Hm & Hi) (m2 & i2 & Hm2 & Hi2 & Hs)]. unfold ut_add_peer. rewrite Hm, Hm2. cbn [mbind option_bind]. by rewrite Hi, Hi2, Hs.
Qed.

Lemma start_downloading peer e : pi_hash peer = h -> offers e (Z.of_nat (length target)) ->
  exists u, ut_exec sha1 sched [EvSend (DownloadMetainfo h); EvUpdate peer e; EvSend (DiscoveryControl (CtlTick 0))] UtMetadataModule_new = Ok ([], u) /\
    downloading (num_pieces (Z.of_nat (length target))) u.
Proof.
  intros Hh He. set (none := {[h := None]} : gmap ShaHash (option PendingInfo)). set (size := Z.of_nat (length target)) in *.
  assert (E1 : ut_send sha1 sched (DownloadMetainfo h) UtMetadataModule_new = Ok (inr None, mkUt ∅ none [] ∅ [])).
  { unfold ut_send, download_metainfo. cbn [UtMetadataModule_new ut_pending_map]. rewrite lookup_empty. cbn [res_bind].
    assert (Eu : ut_set_pending <[h := None]> UtMetadataModule_new = mkUt ∅ none [] ∅ []) by (unfold ut_set_pending, none; f_equal; apply insert_empty).
    rewrite Eu, check_waiting; [done|done|]. cbn [ut_active_peers]. apply lookup_empty. }
  set (a := mkActivePeers (peers_insert peer ∅) size). set (u2 := mkUt ∅ none [] {[h := a]} []).
  assert (E2 : ut_on_update peer e (mkUt ∅ none [] ∅ []) = Ok u2).
  { unfold ut_on_update. rewrite (add_peer_offers _ _ _ _ He). cbn [ut_active_peers]. rewrite Hh, lookup_empty. cbn [default from_option id ap_peers ap_metadata_size].
    unfold ut_set_peers, u2, a. cbn [ut_completed_map ut_pending_map ut_active_requests ut_active_peers ut_peer_requests]. by rewrite insert_empty. }
  set (n := num_pieces size). set (p := mkPending (map (fun i => UtMetadataRequestMessage_new (Z.of_nat i)) (seq 0 n)) n (replicate (Z.to_nat size) 0)).
  set (u3 := mkUt ∅ {[h := Some p]} [] {[h := a]} []).
  assert (Ef : pending_info_from_metadata_size size = Ok p).
  { unfold pending_info_from_metadata_size. rewrite wrap_id by (unfold in_unsigned, MAX_CAPACITY, size in *; lia). by rewrite (proj2 (Z.ltb_ge _ _)) by done. }
  pose proof (num_pieces_bounds size ltac:(lia)) as Hnp. fold n in Hnp.
  assert (Hdrop : drop (Z.to_nat (Z.of_nat n * MAX_REQUEST_SIZE)) (replicate (Z.to_nat size) 0) = drop (Z.to_nat (Z.of_nat n * MAX_REQUEST_SIZE)) target)
    by (rewrite !drop_ge; [done|unfold size in *; lia|rewrite length_replicate; lia]).
  assert (E3 : ut_send sha1 sched (DiscoveryControl (CtlTick 0)) u2 = Ok (inr None, u3)).
  { assert (Et : apply_tick 0 u2 = (inr None, u2)) by done. unfold ut_send. rewrite Et. cbn [res_bind]. rewrite (check_starts u2 a p); [|done|apply lookup_singleton_eq|exact Ef|].
    - cbn [res_bind]. unfold u2, u3, ut_set_pending, none. cbn [ut_completed_map ut_pending_map ut_active_requests ut_active_peers ut_peer_requests]. by rewrite insert_singleton_eq.
    - cbn [pd_left pd_bytes p]. intros Hz. rewrite Hz in Hdrop. by rewrite !drop_0 in Hdrop. }
  exists u3. cbn [ut_exec ut_step]. rewrite E1. cbn [res_bind app]. rewrite E2. cbn [res_bind app]. rewrite E3. split; [done|]. split; [|done|].
  - exists (replicate (Z.to_nat size) 0). split; [done|]. split; [rewrite length_replicate; unfold size; lia|done].
  - exists a. split; [apply lookup_singleton_eq|]. split; [|intros k q [Hq%lookup_empty_Some|(_ & -> & _)]%peers_insert_lookup; done]. cbn [ap_peers a]. unfold peers_insert.
    destruct (_ !! peer_key peer) eqn:E; [by apply lookup_empty_Some in E|apply insert_non_empty].
Qed.

(** C16: metadata is downloaded. A module asked for the info dictionary of a hash, with a
    peer that announces its size, requests every piece once, the last one first, and when
    each is answered with the bytes of the dictionary, whatever random numbers are drawn,
    the next poll reports its metainfo. *)
Theorem metadata_is_downloaded (info : Info) (peer : PeerInfo) (e : ExtendedPeerInfo) (draws : list Z) (draw : Z) :
  Info_from_bytes (IoError := unit) sha1 target = Ok info -> pi_hash peer = h -> offers e (Z.of_nat (length target)) -> length draws = num_pieces (Z.of_nat (length target)) ->
  exists u1 u2 u3, ut_exec sha1 sched [EvSend (DownloadMetainfo h); EvUpdate peer e; EvSend (DiscoveryControl (CtlTick 0))] UtMetadataModule_new = Ok ([], u1) /\
    honest_rounds target draws u1 = Ok (map Z.of_nat (rev (seq 0 (length draws))), u2) /\
    ut_poll sha1 draw u2 = Ok (Some (inr (DownloadedMetainfo (Metainfo_from_info info))), u3).
Proof.
  intros Hinfo Hh He Hd. destruct (start_downloading peer e Hh He) as (u1 & E1 & Hdl). rewrite <- Hd in Hdl.
  destruct (honest_rounds_ok draws u1 Hdl) as (u2 & E2 & Hdl2); [rewrite Hd; apply num_pieces_bounds; lia|]. exists u1, u2.
  destruct Hdl2 as [(bytes & Hpm & Hl & Hb) _ _]. change (Z.to_nat (Z.of_nat 0 * MAX_REQUEST_SIZE)) with 0%nat in Hb. rewrite !drop_0 in Hb. subst bytes.
  eexists. split; [exact E1|]. split; [exact E2|]. unfold ut_poll, retrieve_completed_download. cbn [retrieve_completed]. rewrite Hpm, hash_entries_single.
  cbn [List.find is_completed snd pd_left Nat.eqb]. rewrite lookup_singleton_eq. cbn [or_panic res_bind pd_bytes]. rewrite Hinfo. done.
Qed.
End Properties.

(** ** A negative size *)

Section Negative.
Context {HOS : HashOrder ShaHash (option PendingInfo)} {HOP : HashOrder PeerKey PeerInfo} (sha1 : list Z -> list Z) (sched : nat -> nat).

Definition waits_for_negative (h : ShaHash) (u : UtMetadataModule) : Prop :=
  ut_pending_map u !! h = Some None /\ exists a, ut_active_peers u !! h = Some a /\ -2 ^ 63 <= ap_metadata_size a < 0.

Lemma negative_size_panics size : -2 ^ 63 <= size < 0 -> pending_info_from_metadata_size size = Panic.
Proof.
  intros Hs. unfold pending_info_from_metadata_size, wrap. rewrite <- (Z_mod_plus_full size 1 (2 ^ 64)), Z.mod_small by lia.
  rewrite (proj2 (Z.ltb_lt _ _)) by (unfold MAX_CAPACITY; lia). done.
Qed.

Lemma initialize_panics h a es : forall b u, (h, None) ∈ es -> ut_active_peers u !! h = Some a -> -2 ^ 63 <= ap_metadata_size a < 0 -> initialize_entries es b u = Panic.
Proof.
  induction es as [|[h2 o] es IH]; intros b u Hin Ha Hs; [by apply elem_of_nil in Hin|]. cbn [initialize_entries]. apply elem_of_cons in Hin as [[= -> <-]|Hin].
  - cbn [initialize_entry]. rewrite Ha, negative_size_panics by done. done.
  - assert (Hentry : initialize_entry (ut_active_peers u) h2 o = Panic \/ exists o', initialize_entry (ut_active_peers u) h2 o = Ok o').
    { unfold initialize_entry. destruct o as [p|]; [right; by eexists|]. destruct (_ !! h2) as [c|]; [|right; by eexists]. unfold pending_info_from_metadata_size.
      destruct (_ <? _); [by left|right; by eexists]. }
    destruct Hentry as [->|[o' ->]]; [done|]. cbn [res_bind]. by apply IH.
Qed.

Lemma retain_waits h d l : forall u kept u', waits_for_negative h u -> retain_requests d l u = (kept, u') -> waits_for_negative h u'.
Proof.
  induction l as [|r l IH]; intros u kept u' Hu E; cbn [retain_requests] in E; [by injection E as <- <-|]. destruct (aq_left r <? d).
  - eapply IH; [|exact E]. destruct Hu as (Hp & a & Ha & Hs). unfold waits_for_negative. cbn [ut_set_pending ut_set_peers ut_pending_map ut_active_peers].
    destruct (decide (pi_hash (aq_sent_to r) = h)) as [->|Hne].
    + rewrite !lookup_alter_eq, Hp, Ha. cbn. split; [done|]. by eexists.
    + rewrite !lookup_alter_ne by done. split; [done|]. by exists a.
  - destruct (retain_requests d l u) as [k2 u2] eqn:Er. injection E as <- <-. by eapply IH.
Qed.

(** A peer that announces a negative size makes the module panic. While a download
    waits for its size, an extended message with a negative one is taken up, and the next
    tick of the clock panics. *)
Lemma negative_metadata_size_panics (u : UtMetadataModule) (peer : PeerInfo) (e : ExtendedPeerInfo) (size duration : Z) :
  ut_pending_map u !! pi_hash peer = Some None -> ut_active_peers u !! pi_hash peer = None -> offers e size -> -2 ^ 63 <= size < 0 ->
  exists u', ut_on_update peer e u = Ok u' /\ ut_send sha1 sched (DiscoveryControl (CtlTick duration)) u' = Panic.
Proof.
  intros Hp Ha He Hs. unfold ut_on_update. rewrite (add_peer_offers _ _ _ _ He), Ha. cbn [default from_option id ap_peers ap_metadata_size]. eexists. split; [done|].
  set (u1 := ut_set_peers _ u). assert (Hw : waits_for_negative (pi_hash peer) u1).
  { split; [done|]. eexists. unfold u1. cbn [ut_set_peers ut_active_peers]. by rewrite lookup_insert_eq. }
  unfold ut_send, apply_tick. destruct (retain_requests duration (ut_active_requests u1) u1) as [kept u2] eqn:Er. cbn [res_bind].
  apply (retain_waits (pi_hash peer)) in Er as (Hp2 & a & Ha2 & Hs2); [|done]. unfold check_stream_unblock, initialize_pending.
  cbn [ut_set_requests ut_pending_map]. erewrite initialize_panics; [done| |exact Ha2|done].
  rewrite (hash_entries_perm (ut_pending_map u2)). by apply elem_of_map_to_list.
Qed.
End Negative.

(** ** A small torrent *)

Definition sample_target : list Z := Eval vm_compute in bs "d6:lengthi3e4:name1:f12:piece lengthi4e6:pieces20:01234567890123456789e".
Definition sample_sha1 (b : list Z) : list Z := if bool_decide (b = sample_target) then replicate 20 7 else replicate 20 1.
Definition sample_ours : ExtendedMessage := mkExtended {[UtMetadataType := 5]} None None None None None None None [].
Definition sample_ext (size : Z) : ExtendedPeerInfo :=
  ExtendedPeerInfo_new (Some sample_ours) (Some (mkExtended {[UtMetadataType := 3]} None None None None None None (Some size) [])).
Definition sample_torrent : Metainfo := Metainfo_from_info (mkInfo sample_hash [mkMetaFile 3 (bs "f") None] [bs "01234567890123456789"] 4 None None).

Lemma sample_offers size : offers (sample_ext size) size.
Proof. split; eexists _, _; by split_and?. Qed.

(** Only the sample has its hash. *)
Lemma sample_sha1_target bytes : ShaHash_from_bytes sample_sha1 bytes = sample_hash -> bytes = sample_target.
Proof. unfold ShaHash_from_bytes, sample_sha1. case_bool_decide; [done|]. intros E. vm_compute in E. discriminate. Qed.

Definition sample_history : list ut_event :=
  [EvSend (DiscoveryControl (CtlAddTorrent sample_torrent)); EvSend (DownloadMetainfo sample_hash); EvUpdate sample_peer (sample_ext 71); EvSend (DiscoveryControl (CtlTick 0)); EvPoll 4;
   EvSend (ReceivedUtMetadataMessage sample_peer (MetaRequest (UtMetadataRequestMessage_new 0)));
   EvSend (ReceivedUtMetadataMessage sample_peer (MetaData (UtMetadataDataMessage_new 0 71 sample_target))); EvPoll 0; EvPoll 0].

Lemma metadata_exchange_is_safe_witness : exists outs u,
  ut_exec sample_sha1 (fun n => n) sample_history UtMetadataModule_new = Ok (outs, u) /\
  Forall (yield_ok (asked sample_history) (added_in sample_sha1 (fun n => n) sample_history)) outs.
Proof.
  apply (metadata_exchange_is_safe sample_sha1 (fun n => n)).
  - unfold sample_history. repeat (apply Forall_cons_2); try exact I; [eexists; vm_compute; reflexivity| |vm_compute; split; congruence|constructor].
    intros m s [= <-] [= <-]. vm_compute. split; congruence.
  - intros bytes Ha. assert (E : ShaHash_from_bytes sample_sha1 bytes = sample_hash).
    { unfold asked, sample_history in Ha. repeat (apply elem_of_cons in Ha as [Ha|Ha]); try discriminate Ha; [|by apply elem_of_nil in Ha].
      exact (f_equal (fun e => match e with EvSend (DownloadMetainfo h) => h | _ => sample_hash end) Ha). }
    apply sample_sha1_target in E as ->. vm_compute. congruence.
Defined.

Example sample_history_outs : exists u, ut_exec sample_sha1 (fun n => n) sample_history UtMetadataModule_new =
  Ok ([SendUtMetadataMessage sample_peer (MetaRequest (UtMetadataRequestMessage_new 0));
       DownloadedMetainfo (Metainfo_from_info (mkInfo sample_hash [mkMetaFile 3 (bs "f") None] [bs "01234567890123456789"] 4 None None))], u).
Proof. eexists. vm_compute. reflexivity. Qed.

Lemma metadata_is_downloaded_witness : exists info u1 u2 u3,
  ut_exec sample_sha1 (fun n => n) [EvSend (DownloadMetainfo sample_hash); EvUpdate sample_peer (sample_ext 71); EvSend (DiscoveryControl (CtlTick 0))] UtMetadataModule_new = Ok ([], u1) /\
  honest_rounds sample_sha1 (fun n => n) sample_target [5] u1 = Ok ([0], u2) /\
  ut_poll sample_sha1 9 u2 = Ok (Some (inr (DownloadedMetainfo (Metainfo_from_info info))), u3).
Proof.
  destruct (Info_from_bytes (IoError := unit) sample_sha1 sample_target) as [info| | |] eqn:E; [|vm_compute in E; discriminate..]. exists info.
  assert (Hlen : Z.of_nat (length sample_target) <= MAX_CAPACITY) by (vm_compute; congruence).
  exact (metadata_is_downloaded sample_sha1 (fun n => n) sample_target Hlen info sample_peer (sample_ext 71) [5] 9 E eq_refl (sample_offers 71) eq_refl).
Defined.

Lemma last_metadata_piece_is_not_served_witness : exists p d u' bytes,
  let u := mkUt {[sample_hash := bytes]} ∅ [] ∅ [mkPeerRequest sample_peer (UtMetadataRequestMessage_new 0)] in
  ut_poll sample_sha1 0 u = Ok (Some (inr (SendUtMetadataMessage p (MetaData d))), u') /\ served bytes d /\ md_piece d < Z.of_nat (length bytes) / MAX_REQUEST_SIZE.
Proof.
  set (bytes := replicate (Z.to_nat 20000) 0).
  set (u := mkUt {[sample_hash := bytes]} ∅ [] ∅ [mkPeerRequest sample_peer (UtMetadataRequestMessage_new 0)]).
  assert (Hnil : hash_entries (∅ : gmap ShaHash (option PendingInfo)) = []) by reflexivity.
  assert (E : exists d u', ut_poll sample_sha1 0 u = Ok (Some (inr (SendUtMetadataMessage sample_peer (MetaData d))), u')).
  { unfold ut_poll, retrieve_completed_download. cbn [retrieve_completed u ut_pending_map]. rewrite Hnil. cbn [List.find res_bind]. unfold retrieve_piece_request, u. cbn [ut_pending_map].
    rewrite Hnil. cbn [request_from res_bind]. unfold retrieve_piece_response, u. cbn [ut_peer_requests respond pq_request pq_send_to mrq_piece UtMetadataRequestMessage_new ut_completed_map].
    change (pi_hash sample_peer) with sample_hash. rewrite lookup_singleton_eq. unfold bytes. rewrite length_replicate. eexists _, _. reflexivity. }
  destruct E as (d & u' & E). assert (Hr : Forall (fun r => request_ok (mrq_piece (pq_request r))) (ut_peer_requests u)) by (constructor; [unfold request_ok; cbn; lia|constructor]).
  destruct (last_metadata_piece_is_not_served sample_sha1 u u' 0 sample_peer d Hr E) as (b & Hb & Hs). cbn [u ut_completed_map] in Hb. change (pi_hash sample_peer) with sample_hash in Hb.
  rewrite lookup_singleton_eq in Hb. injection Hb as <-. exists sample_peer, d, u', bytes. split; [exact E|exact Hs].
Defined.

Lemma negative_metadata_size_panics_witness : exists u',
  ut_on_update sample_peer (sample_ext (-1)) (mkUt ∅ {[sample_hash := None]} [] ∅ []) = Ok u' /\ ut_send sample_sha1 (fun n => n) (DiscoveryControl (CtlTick 1)) u' = Panic.
Proof.
  apply (negative_metadata_size_panics sample_sha1 (fun n => n) _ sample_peer (sample_ext (-1)) (-1) 1); [reflexivity|reflexivity|apply sample_offers|lia].
Defined.

(** ** The uber module with the metadata module *)

#[export] Instance sample_discovery : DiscoveryTrait UtMetadataModule := UtMetadata_discovery sample_sha1 (fun n => n).
Definition sample_uber : UberModule UtMetadataModule :=
  UberModule_from_builder (with_discovery_module UtMetadataModule_new (with_extended_builder (Some ExtendedMessageBuilder_new) UberModuleBuilder_new)).

Definition sample_connected : IUberMessage := UberControl (PeerConnected sample_peer).
Definition sample_phase : option ExtendedModule * list UtMetadataModule :=
  match extended_phase sample_connected (um_extended sample_uber) (um_discovery sample_uber) with Ok x => x | _ => (None, []) end.

Definition sent {M} `{DiscoveryTrait M} (item : IUberMessage) (d : M) : option M := match send_one item d with Ok (inr _, d') => Some d' | _ => None end.
Lemma all_sent {M} `{DiscoveryTrait M} item (ds : list M) : forallb (fun d => match sent item d with Some _ => true | None => false end) ds = true -> Forall2 (accepts item) ds (omap (sent item) ds).
Proof.
  induction ds as [|d ds IH]; cbn [forallb omap list_omap]; [constructor|]. intros [Hd Hds]%andb_prop. unfold sent in *. destruct (send_one item d) as [[[e|v] d']| | |] eqn:E; try done.
  constructor; [by exists v|by apply IH].
Qed.

Lemma uber_delivers_in_order_witness : exists v, UberModule_send sample_connected sample_uber = Ok (inr v, mkUber (fst sample_phase) (omap (sent sample_connected) (snd sample_phase)) None None).
Proof.
  apply (uber_delivers_in_order sample_uber sample_connected (fst sample_phase) (snd sample_phase)); [reflexivity| |apply all_sent; vm_compute; reflexivity].
  assert (Hok : match extended_phase sample_connected (um_extended sample_uber) (um_discovery sample_uber) with Ok _ => true | _ => false end = true) by (vm_compute; reflexivity).
  unfold sample_phase. destruct (extended_phase _ _ _) as [[ext ds]| | |]; [reflexivity|discriminate Hok..].
Defined.

(** The torrent is added twice: the peer that connects next gets no extended message. *)
Lemma uber_error_skips_modules_witness : exists u u1 e v u2,
  UberModule_send (UberControl (CtlAddTorrent sample_torrent)) sample_uber = Ok (inr None, u) /\
  UberModule_send (UberControl (CtlAddTorrent sample_torrent)) u = Ok (inl (UberDiscoveryError e), u1) /\
  UberModule_send (UberControl (PeerConnected sample_peer)) u1 = Ok (inr v, u2) /\ um_extended u2 = um_extended sample_uber.
Proof.
  destruct (UberModule_send (UberControl (CtlAddTorrent sample_torrent)) sample_uber) as [[r u]| | |] eqn:E0; [|vm_compute in E0; discriminate..].
  assert (Hr : r = inr None /\ um_last_sink_state u = None /\ um_extended u = um_extended sample_uber /\ um_last_stream_state u = None /\
    exists d e, um_discovery u = [d] /\ send_one (UberControl (CtlAddTorrent sample_torrent)) d = Ok (inl e, d) /\ accepts (UberControl (PeerConnected sample_peer)) d d).
  { vm_compute in E0. injection E0 as <- <-. split_and!; [reflexivity..|]. eexists _, _. split; [reflexivity|]. split; [vm_compute; reflexivity|]. eexists. vm_compute. reflexivity. }
  destruct Hr as (-> & Hs & Hx & _ & d & e & Hd & He & Ha). exists u.
  assert (Hph : extended_phase (UberControl (CtlAddTorrent sample_torrent)) (um_extended u) (um_discovery u) = Ok (um_extended sample_uber, [] ++ d :: [])) by (rewrite Hx, Hd; reflexivity).
  destruct (uber_error_skips_modules u _ _ [] [] d d e [] Hs Hph ltac:(constructor) He) as (u1 & E1 & Hx1 & _ & Hnext).
  destruct (Hnext (UberControl (PeerConnected sample_peer)) [d] ltac:(by repeat constructor)) as [v Hv]. exists u1, e, v. eexists. split_and!; [reflexivity|exact E1|exact Hv|reflexivity].
Defined.
