(* ===== verification/Magnet.v ===== *)
(** * Magnet links

    Model of [magnet/mod.rs]: parsing the info hash of a topic and gathering the parameters
    of a link. The [url] and [base32] crates are parameters. Strings are lists of bytes;
    slicing one inside a character panics. *)

From stdpp Require Import gmap.
From S2P Require Import Prelude RustStd UtilSha.

(** ** Numbers and slices *)

(** [char::to_digit(radix)]. *)
Definition to_digit (radix c : Z) : option Z :=
  let v := if (48 <=? c) && (c <=? 57) then c - 48
           else if (97 <=? c) && (c <=? 122) then c - 87
           else if (65 <=? c) && (c <=? 90) then c - 55
           else radix in
  if v <? radix then Some v else None.

Fixpoint uint_digits (bits radix acc : Z) (s : list Z) : option Z :=
  match s with
  | [] => Some acc
  | c :: s =>
      d ← to_digit radix c;
      if acc * radix + d <? 2 ^ bits then uint_digits bits radix (acc * radix + d) s else None
  end.

(** [from_str_radix] of an unsigned integer: a leading [+] is accepted. *)
Definition uint_from_str_radix (bits radix : Z) (s : list Z) : option Z :=
  match s with
  | [] => None
  | c :: rest => if c =? ASCII_PLUS then (match rest with [] => None | _ => uint_digits bits radix 0 rest end) else uint_digits bits radix 0 s
  end.

Definition is_char_boundary (s : list Z) (i : nat) : bool :=
  match s !! i with Some b => negb (utf8_cont b) | None => (i =? length s)%nat end.

(** [&s[a..b]]. *)
Definition str_slice (a b : nat) (s : list Z) : option (list Z) :=
  if (a <=? b)%nat && is_char_boundary s a && is_char_boundary s b then Some (take (b - a) (drop a s)) else None.

(** ** The crates *)

(** [url_query_pairs] is [None] for an address without a query. *)
Class UrlCrate : Type := {
  Url : Type;
  url_parse : list Z -> option Url;
  url_scheme : Url -> list Z;
  url_query_pairs : Url -> option (list (list Z * list Z))
}.

(** [base32] with the alphabet of RFC 4648 and padding. *)
Class Base32Crate : Type := {
  base32_encode : list Z -> list Z;
  base32_decode : list Z -> option (list Z)
}.

(** Five bytes are eight characters, and decoding inverts the encoding of whole groups. *)
Class Base32Laws `{Base32Crate} : Prop := {
  base32_length b : (length b mod 5 = 0)%nat -> length (base32_encode b) = (length b / 5 * 8)%nat;
  base32_ascii b : bytes_ok b -> Forall (fun c => 0 <= c < 128) (base32_encode b);
  base32_roundtrip b : (length b mod 5 = 0)%nat -> bytes_ok b -> base32_decode (base32_encode b) = Some b
}.

Definition URN_BTIH : list Z := Eval vm_compute in bs "urn:btih:".
Definition MAGNET : list Z := Eval vm_compute in bs "magnet".
Definition DN : list Z := Eval vm_compute in bs "dn".
Definition XL : list Z := Eval vm_compute in bs "xl".
Definition XT : list Z := Eval vm_compute in bs "xt".
Definition AS : list Z := Eval vm_compute in bs "as".
Definition XS : list Z := Eval vm_compute in bs "xs".
Definition KT : list Z := Eval vm_compute in bs "kt".
Definition MT : list Z := Eval vm_compute in bs "mt".
Definition TR : list Z := Eval vm_compute in bs "tr".

(** ** Topics *)

Inductive Topic : Type := BitTorrentInfoHash (h : ShaHash).

Definition starts_with (p s : list Z) : bool := bool_decide (take (length p) s = p).

(** [for i in 0..20]: [None] is [return None]. *)
Fixpoint hex_loop (n i : nat) (s hash : list Z) : res unit (option (list Z)) :=
  match n with
  | O => Ok (Some hash)
  | S n =>
      let j := (9 + 2 * i)%nat in
      match str_slice j (j + 2) s with
      | None => Panic
      | Some p =>
          match uint_from_str_radix 8 16 p with
          | Some byte => hex_loop n (S i) s (hash ++ [byte])
          | None => Ok None
          end
      end
  end.

Definition topic_of_hash (hash : list Z) : option Topic :=
  match ShaHash_from_hash hash with Ok h => Some (BitTorrentInfoHash h) | _ => None end.

Definition Topic_parse `{Base32Crate} (s : list Z) : res unit (option Topic) :=
  if starts_with URN_BTIH s && (length s =? 9 + 40)%nat then
    match hex_loop 20 0 s [] with
    | Ok hash => Ok (hash ≫= topic_of_hash)
    | _ => Panic
    end
  else if starts_with URN_BTIH s && (length s =? 9 + 32)%nat then
    match str_slice 9 (length s) s with
    | Some rest => Ok (base32_decode rest ≫= topic_of_hash)
    | None => Panic
    end
  else Ok None.

(** ** Links *)

Record MagnetLink : Type := mkMagnet {
  display_name : option (list Z);
  exact_length : option Z;
  exact_topic : option Topic;
  acceptable_source : list (list Z);
  exact_source : list (list Z);
  keyword_topic : list (list Z);
  manifest_topic : option (list Z);
  address_tracker : list (list Z)
}.
Definition MagnetLink_default : MagnetLink := mkMagnet None None None [] [] [] None [].

Definition get_info_hash (l : MagnetLink) : option ShaHash :=
  match exact_topic l with Some (BitTorrentInfoHash h) => Some h | None => None end.

Section Parse.
Context `{UrlCrate, Base32Crate}.

(** The body of the loop over the parameters. *)
Definition gather (l : MagnetLink) (kv : list Z * list Z) : res unit MagnetLink :=
  let '(k, v) := kv in
  let '(mkMagnet dn xl xt sources xs kt mt tr) := l in
  if decide (k = DN) then Ok (mkMagnet (Some v) xl xt sources xs kt mt tr)
  else if decide (k = XL) then Ok (mkMagnet dn (match uint_from_str_radix 64 10 v with Some n => Some n | None => xl end) xt sources xs kt mt tr)
  else if decide (k = XT) then
    match Topic_parse v with
    | Ok t => Ok (mkMagnet dn xl (match t with Some t => Some t | None => xt end) sources xs kt mt tr)
    | _ => Panic
    end
  else if decide (k = AS) then Ok (mkMagnet dn xl xt (sources ++ [v]) xs kt mt tr)
  else if decide (k = XS) then Ok (mkMagnet dn xl xt sources (xs ++ [v]) kt mt tr)
  else if decide (k = KT) then Ok (mkMagnet dn xl xt sources xs (kt ++ [v]) mt tr)
  else if decide (k = MT) then Ok (mkMagnet dn xl xt sources xs kt (Some v) tr)
  else if decide (k = TR) then Ok (mkMagnet dn xl xt sources xs kt mt (tr ++ [v]))
  else Ok l.

Fixpoint gather_all (l : MagnetLink) (pairs : list (list Z * list Z)) : res unit MagnetLink :=
  match pairs with
  | [] => Ok l
  | kv :: pairs => match gather l kv with Ok l => gather_all l pairs | _ => Panic end
  end.

Definition MagnetLink_parse (s : list Z) : res unit (option MagnetLink) :=
  match url_parse s with
  | None => Ok None
  | Some url =>
      if negb (bool_decide (url_scheme url = MAGNET)) then Ok None
      else match url_query_pairs url with
           | None => Ok None
           | Some pairs => match gather_all MagnetLink_default pairs with Ok l => Ok (Some l) | _ => Panic end
           end
  end.
End Parse.

(** ** What a link says *)

Section Spec.
Context `{UrlCrate, Base32Laws}.
Implicit Types (pairs : list (list Z * list Z)) (l : MagnetLink) (k v s x : list Z).

(** The values of a parameter, in order. *)
Definition values k pairs : list (list Z) := map snd (filter (fun kv => kv.1 = k) pairs).

Definition topic_value v : option Topic := match Topic_parse v with Ok t => t | _ => None end.

(** The link a list of parameters describes: the last value counts where there is one. *)
Definition link_of pairs : MagnetLink :=
  mkMagnet (last (values DN pairs)) (last (omap (uint_from_str_radix 64 10) (values XL pairs))) (last (omap topic_value (values XT pairs)))
    (values AS pairs) (values XS pairs) (values KT pairs) (last (values MT pairs)) (values TR pairs).

Lemma values_snoc k pairs k' v : values k (pairs ++ [(k', v)]) = values k pairs ++ (if decide (k' = k) then [v] else []).
Proof. unfold values. rewrite filter_app, map_app. f_equal. destruct (decide (k' = k)); [by rewrite filter_cons_True|by rewrite filter_cons_False]. Qed.

Lemma gather_spec pairs k v : (k = XT -> exists t, Topic_parse v = Ok t) -> gather (link_of pairs) (k, v) = Ok (link_of (pairs ++ [(k, v)])).
Proof.
  intros Ht. unfold gather, link_of. rewrite !values_snoc.
  destruct (decide (k = DN)) as [->|]; [cbn; by rewrite ?app_nil_r, last_snoc|].
  destruct (decide (k = XL)) as [->|]; [cbn; rewrite ?app_nil_r, omap_app; cbn; destruct (uint_from_str_radix 64 10 v); by rewrite ?last_snoc, ?app_nil_r|].
  destruct (decide (k = XT)) as [->|]; [destruct (Ht eq_refl) as [t Et]; rewrite Et; cbn; rewrite ?app_nil_r, omap_app; cbn; unfold topic_value at 3; rewrite Et; destruct t; by rewrite ?last_snoc, ?app_nil_r|].
  destruct (decide (k = AS)) as [->|]; [cbn; by rewrite ?app_nil_r|]. destruct (decide (k = XS)) as [->|]; [cbn; by rewrite ?app_nil_r|].
  destruct (decide (k = KT)) as [->|]; [cbn; by rewrite ?app_nil_r|]. destruct (decide (k = MT)) as [->|]; [cbn; by rewrite ?app_nil_r, last_snoc|].
  destruct (decide (k = TR)) as [->|]; [cbn; by rewrite ?app_nil_r|]. by rewrite ?app_nil_r.
Qed.

Lemma gather_all_spec pairs : forall pre, Forall (fun v => exists t, Topic_parse v = Ok t) (values XT pairs) -> gather_all (link_of pre) pairs = Ok (link_of (pre ++ pairs)).
Proof.
  induction pairs as [|[k v] pairs IH]; intros pre Hp; cbn [gather_all]; [by rewrite app_nil_r|].
  assert (Hsplit : (k = XT -> exists t, Topic_parse v = Ok t) /\ Forall (fun v => exists t, Topic_parse v = Ok t) (values XT pairs)).
  { unfold values in *. destruct (decide (k = XT)); [rewrite filter_cons_True in Hp by done; apply Forall_cons in Hp as [? ?]; by split|rewrite filter_cons_False in Hp by done; by split]. }
  rewrite gather_spec, IH by apply Hsplit. by rewrite <- app_assoc.
Qed.

(** ** Spellings of a topic *)

(** Two hexadecimal digits of either case for each byte. *)
Fixpoint hex_spells x (bytes : list Z) : Prop :=
  match x, bytes with
  | [], [] => True
  | a :: b :: x, c :: bytes => (exists hi lo, to_digit 16 a = Some hi /\ to_digit 16 b = Some lo /\ c = 16 * hi + lo) /\ hex_spells x bytes
  | _, _ => False
  end.

Definition topic_spelled (h : ShaHash) v : Prop :=
  (exists x, v = URN_BTIH ++ x /\ hex_spells x (sha_bytes h)) \/ v = URN_BTIH ++ base32_encode (sha_bytes h).

Lemma to_digit_ascii c d : to_digit 16 c = Some d -> 0 <= d < 16 /\ 48 <= c < 128.
Proof. unfold to_digit. repeat case_match; intros [= <-]; lia. Qed.

Lemma boundary_ascii s i c : s !! i = Some c -> c < 128 -> is_char_boundary s i = true.
Proof. intros E Hc. unfold is_char_boundary. rewrite E. unfold utf8_cont, in_range. lia. Qed.
Lemma boundary_end s : is_char_boundary s (length s) = true.
Proof. unfold is_char_boundary. by rewrite lookup_ge_None_2, Nat.eqb_refl. Qed.

Lemma hex_spells_length x bytes : hex_spells x bytes -> length x = (2 * length bytes)%nat.
Proof. revert x. induction bytes as [|c bytes IH]; intros [|a [|b x]]; cbn; try done. intros [_ Hx%IH]. lia. Qed.

Lemma hex_loop_spec bytes : forall i pre x hash, length pre = (9 + 2 * i)%nat -> hex_spells x bytes -> hex_loop (length bytes) i (pre ++ x) hash = Ok (Some (hash ++ bytes)).
Proof.
  induction bytes as [|c bytes IH]; intros i pre x hash Hl Hx; [cbn; by rewrite app_nil_r|]. destruct x as [|a [|b x]]; try done.
  destruct Hx as [(h & l & Ha & Hb & ->) Hx]. destruct (to_digit_ascii _ _ Ha) as [Hh Ha']. destruct (to_digit_ascii _ _ Hb) as [Hl' Hb']. cbn [length hex_loop]. rewrite <- Hl.
  assert (Hslice : str_slice (length pre) (length pre + 2) (pre ++ a :: b :: x) = Some [a; b]).
  { unfold str_slice. rewrite (boundary_ascii _ (length pre) a) by (try lia; by rewrite list_lookup_middle).
    replace (is_char_boundary _ (length pre + 2)) with true.
    - rewrite (proj2 (Nat.leb_le _ _)) by lia. cbn [andb]. rewrite drop_app_length. by replace (length pre + 2 - length pre)%nat with 2%nat by lia.
    - symmetry. destruct x as [|d x]; [replace (length pre + 2)%nat with (length (pre ++ [a; b])) by (rewrite length_app; cbn; lia); apply boundary_end|].
      destruct x as [|e x], bytes as [|c bytes]; try done. destruct Hx as [(h2 & l2 & Hd & _) _]. destruct (to_digit_ascii _ _ Hd).
      apply (boundary_ascii _ _ d); [|lia]. rewrite lookup_app_r by lia. by replace (length pre + 2 - length pre)%nat with 2%nat by lia. }
  rewrite Hslice. assert (Hbyte : uint_from_str_radix 8 16 [a; b] = Some (16 * h + l)).
  { unfold uint_from_str_radix, ASCII_PLUS. rewrite (proj2 (Z.eqb_neq a 43)) by lia. cbn [uint_digits]. rewrite Ha. cbn. rewrite (proj2 (Z.ltb_lt _ _)) by lia. rewrite Hb. cbn.
    rewrite (proj2 (Z.ltb_lt _ _)) by lia. f_equal. lia. }
  rewrite Hbyte. replace (pre ++ a :: b :: x) with ((pre ++ [a; b]) ++ x) by (by rewrite <- app_assoc). rewrite (IH (S i)); [by rewrite <- app_assoc|rewrite length_app; cbn; lia|done].
Qed.

Lemma starts_with_app p s : starts_with p (p ++ s) = true.
Proof. unfold starts_with. rewrite take_app_length. by apply bool_decide_eq_true. Qed.

Lemma topic_of_sha h : sha_ok h -> topic_of_hash (sha_bytes h) = Some (BitTorrentInfoHash h).
Proof. intros [Hl Hb]. unfold topic_of_hash. rewrite (proj2 (ShaHash_from_hash_ok _ _) (conj Hl eq_refl)). by destruct h. Qed.

(** A topic in either spelling is read back. *)
Lemma Topic_parse_spelled h v : sha_ok h -> topic_spelled h v -> Topic_parse v = Ok (Some (BitTorrentInfoHash h)).
Proof.
  intros Hh Hv. pose proof Hh as [Hl Hb]. unfold Topic_parse, SHA_HASH_LEN in *. destruct Hv as [(x & -> & Hx)| ->].
  - pose proof (hex_spells_length _ _ Hx) as Hlen. rewrite Hl in Hlen. rewrite starts_with_app, length_app, Hlen. cbn [length URN_BTIH Nat.add Nat.mul Nat.eqb andb].
    rewrite <- Hl. rewrite (hex_loop_spec (sha_bytes h) 0 URN_BTIH x []) by done. cbn. by rewrite topic_of_sha.
  - assert (Hlen : length (base32_encode (sha_bytes h)) = 32%nat) by (rewrite base32_length; by rewrite Hl). rewrite starts_with_app, length_app, Hlen.
    cbn [length URN_BTIH Nat.add Nat.eqb andb]. assert (Hslice : str_slice 9 41 (URN_BTIH ++ base32_encode (sha_bytes h)) = Some (base32_encode (sha_bytes h))).
    { pose proof (base32_ascii (sha_bytes h) Hb) as Ha. unfold str_slice. replace 41%nat with (length (URN_BTIH ++ base32_encode (sha_bytes h))) by (rewrite length_app, Hlen; done).
      rewrite boundary_end. destruct (base32_encode (sha_bytes h)) as [|c rest]; [done|]. apply Forall_cons in Ha as [Hc _]. rewrite (boundary_ascii _ 9 c) by (done || lia).
      rewrite length_app. cbn [length URN_BTIH Nat.add Nat.leb andb]. f_equal. change 9%nat with (length URN_BTIH) at 2. rewrite drop_app_length. apply take_ge. cbn. lia. }
    rewrite Hslice, base32_roundtrip by (done || by rewrite Hl). cbn. by rewrite topic_of_sha.
Qed.

(** ** Decimal lengths *)

Lemma uint_digits_horner bits d : forall acc, Forall is_digit d -> 0 <= acc -> horner acc d < 2 ^ bits -> uint_digits bits 10 acc d = Some (horner acc d).
Proof.
  induction d as [|c d IH]; intros acc Hd Hacc Hb; [done|]. apply Forall_cons in Hd as [Hc Hd]. cbn [uint_digits horner] in *.
  assert (Hdig : to_digit 10 c = Some (c - 48)) by (unfold to_digit, is_digit in *; repeat case_match; first [done|lia]).
  rewrite Hdig. cbn. pose proof (horner_ge (acc * 10 + (c - 48)) d Hd) as Hge. unfold is_digit in Hc. rewrite (proj2 (Z.ltb_lt _ _)) by lia. apply IH; [done|lia|done].
Qed.

Lemma usize_reads_back n : 0 <= n < 2 ^ 64 -> uint_from_str_radix 64 10 (usize_to_string n) = Some n.
Proof.
  intros Hn. pose proof (usize_to_string_digits n) as Hd. pose proof (horner_usize_to_string n Hn) as Hh. assert (Hne : usize_to_string n <> []) by apply dec_digits_nonempty.
  unfold uint_from_str_radix. destruct (usize_to_string n) as [|c d] eqn:E; [done|]. assert (is_digit c) by (by inversion Hd). unfold is_digit, ASCII_PLUS in *.
  rewrite (proj2 (Z.eqb_neq c 43)) by lia. rewrite uint_digits_horner; [by rewrite Hh|done|lia|lia].
Qed.

(** ** Links *)

Definition link_ok l : Prop :=
  match exact_length l with Some n => 0 <= n < 2 ^ 64 | None => True end /\ match exact_topic l with Some (BitTorrentInfoHash h) => sha_ok h | None => True end.

(** Parameters that spell a link: in any order that keeps the order of the values of one
    parameter, among parameters of other names and topics of other kinds. *)
Definition link_spelled l pairs : Prop :=
  values DN pairs = option_list (display_name l) /\
  values XL pairs = option_list (usize_to_string <$> exact_length l) /\
  (exists before after, values XT pairs = before ++ after /\
     match exact_topic l with
     | Some (BitTorrentInfoHash h) => exists v after', after = v :: after' /\ topic_spelled h v /\ Forall (fun w => starts_with URN_BTIH w = false) (before ++ after')
     | None => Forall (fun w => starts_with URN_BTIH w = false) (before ++ after)
     end) /\
  values AS pairs = acceptable_source l /\ values XS pairs = exact_source l /\ values KT pairs = keyword_topic l /\
  values MT pairs = option_list (manifest_topic l) /\ values TR pairs = address_tracker l.

Lemma other_topics vs : Forall (fun w => starts_with URN_BTIH w = false) vs -> Forall (fun v => exists t, Topic_parse v = Ok t) vs /\ omap topic_value vs = [].
Proof.
  induction 1 as [|w vs Hw Hvs [IH1 IH2]]; [done|]. assert (Ew : Topic_parse w = Ok None) by (unfold Topic_parse; by rewrite Hw). split; [constructor; eauto|].
  cbn. unfold topic_value at 1. by rewrite Ew.
Qed.

Lemma link_topics l pairs : link_ok l -> link_spelled l pairs -> Forall (fun v => exists t, Topic_parse v = Ok t) (values XT pairs) /\ last (omap topic_value (values XT pairs)) = exact_topic l.
Proof.
  intros [_ Hok] (_ & _ & (before & after & -> & Ht) & _). destruct (exact_topic l) as [[h]|].
  - destruct Ht as (v & after' & -> & Hv & [Hb Ha]%Forall_app). apply Topic_parse_spelled in Hv; [|done]. apply other_topics in Hb as [Hb1 Hb2]. apply other_topics in Ha as [Ha1 Ha2].
    split; [apply Forall_app; split; [done|]; constructor; eauto|]. rewrite omap_app, Hb2. cbn. unfold topic_value at 1. rewrite Hv. by rewrite Ha2.
  - apply other_topics in Ht as [Ht1 Ht2]. split; [done|]. by rewrite Ht2.
Qed.

(** C39: A magnet link whose parameters spell a name, a length below 2^64, an info hash in
    hexadecimal of either case or in base 32, sources, keywords, a manifest and trackers,
    in any order and among unknown parameters and topics of other kinds, is read back as
    exactly these. *)
Theorem magnet_link_reads_back s url pairs l :
  url_parse s = Some url -> url_scheme url = MAGNET -> url_query_pairs url = Some pairs -> link_ok l -> link_spelled l pairs ->
  MagnetLink_parse s = Ok (Some l).
Proof.
  intros Es Eu Ep Hok Hsp. destruct (link_topics _ _ Hok Hsp) as [Hpar Htop]. unfold MagnetLink_parse. rewrite Es, Eu, bool_decide_eq_true_2, Ep by done. cbn [negb].
  change MagnetLink_default with (link_of []). rewrite gather_all_spec by done. cbn [app]. destruct Hsp as (Hdn & Hxl & _ & Has & Hxs & Hkt & Hmt & Htr). destruct Hok as [Hlen _].
  unfold link_of. rewrite Htop, Hdn, Hxl, Has, Hxs, Hkt, Hmt, Htr. destruct l as [dn xl xt sources xs kt mt tr]. cbn [display_name exact_length exact_topic acceptable_source exact_source keyword_topic manifest_topic address_tracker] in *. do 2 f_equal. f_equal.
  - by destruct dn.
  - destruct xl as [n|]; [|done]. change (last (option_list (uint_from_str_radix 64 10 (usize_to_string n))) = Some n). by rewrite usize_reads_back.
  - by destruct mt.
Qed.
End Spec.

(** ** Witnesses *)

(** Base 32 of whole groups of five bytes. *)
Definition b32_char (v : Z) : Z := if v <? 26 then 65 + v else 24 + v.
Definition b32_value (c : Z) : option Z := if (65 <=? c) && (c <=? 90) then Some (c - 65) else if (50 <=? c) && (c <=? 55) then Some (c - 24) else None.

Fixpoint b32_encode (b : list Z) : list Z :=
  match b with
  | b1 :: b2 :: b3 :: b4 :: b5 :: rest =>
      map b32_char [b1 / 8; b1 mod 8 * 4 + b2 / 64; b2 / 2 mod 32; b2 mod 2 * 16 + b3 / 16; b3 mod 16 * 2 + b4 / 128; b4 / 4 mod 32; b4 mod 4 * 8 + b5 / 32; b5 mod 32] ++ b32_encode rest
  | _ => []
  end.
Fixpoint b32_groups (q : list Z) : option (list Z) :=
  match q with
  | [] => Some []
  | q1 :: q2 :: q3 :: q4 :: q5 :: q6 :: q7 :: q8 :: rest =>
      b ← b32_groups rest;
      Some (q1 * 8 + q2 / 4 :: q2 mod 4 * 64 + q3 * 2 + q4 / 16 :: q4 mod 16 * 16 + q5 / 2 :: q5 mod 2 * 128 + q6 * 4 + q7 / 8 :: q7 mod 8 * 32 + q8 :: b)
  | _ => None
  end.

#[local] Instance b32_reference : Base32Crate := {| base32_encode := b32_encode; base32_decode := fun s => mapM b32_value s ≫= b32_groups |}.

(** Induction over groups of five. *)
Lemma five_ind (P : list Z -> Prop) : P [] -> (forall b1 b2 b3 b4 b5 b, P b -> P (b1 :: b2 :: b3 :: b4 :: b5 :: b)) ->
  (forall b, (0 < length b < 5)%nat -> P b) -> forall b, P b.
Proof.
  intros H0 H5 Hs b. remember (length b) as n eqn:En. revert b En. induction n as [n IH] using lt_wf_ind. intros b ->.
  destruct b as [|b1 [|b2 [|b3 [|b4 [|b5 b]]]]]; [done|by apply Hs; cbn; lia..|]. apply H5, (IH (length b)); [cbn; lia|done].
Qed.

Lemma b32_value_char v : 0 <= v < 32 -> b32_value (b32_char v) = Some v.
Proof. intros Hv. unfold b32_value, b32_char. repeat case_match; f_equal; lia. Qed.
Lemma b32_char_ascii v : 0 <= v < 32 -> 0 <= b32_char v < 128.
Proof. unfold b32_char. case_match; lia. Qed.

#[local] Instance b32_laws : Base32Laws.
Proof.
  split; cbn [base32_encode base32_decode b32_reference].
  - intros b. induction b as [|b1 b2 b3 b4 b5 b IH|b Hb] using five_ind; intros Hm; [done| |].
    + change (length (b1 :: b2 :: b3 :: b4 :: b5 :: b)) with (5 + length b)%nat in *. cbn [b32_encode]. rewrite length_app. cbn [map length].
      replace (5 + length b)%nat with (length b + 1 * 5)%nat in * by lia. rewrite Nat.Div0.mod_add in Hm. rewrite Nat.div_add, IH by done. lia.
    + rewrite Nat.mod_small in Hm by lia. lia.
  - intros b. induction b as [|b1 b2 b3 b4 b5 b IH|b Hb] using five_ind; intros Hok; [constructor| |by destruct b as [|? [|? [|? [|? [|]]]]]; cbn in *; try lia; constructor].
    cbn [b32_encode]. repeat apply Forall_cons in Hok as [? Hok]. unfold in_unsigned in *. apply Forall_app. split; [|by apply IH]. apply Forall_map.
    repeat (constructor; [apply b32_char_ascii; Z.to_euclidean_division_equations; lia|]). constructor.
  - intros b. induction b as [|b1 b2 b3 b4 b5 b IH|b Hb] using five_ind; intros Hm Hok; [done| |rewrite Nat.mod_small in Hm by lia; lia].
    change (length (b1 :: b2 :: b3 :: b4 :: b5 :: b)) with (5 + length b)%nat in Hm. replace (5 + length b)%nat with (length b + 1 * 5)%nat in Hm by lia. rewrite Nat.Div0.mod_add in Hm.
    repeat apply Forall_cons in Hok as [? Hok]. specialize (IH Hm Hok). unfold in_unsigned in *. cbn [b32_encode map app mapM]. rewrite !b32_value_char by (Z.to_euclidean_division_equations; lia). cbn.
    destruct (mapM b32_value (b32_encode b)) as [q|] eqn:Eq; cbn in IH |- *; [|done]. rewrite IH. cbn. repeat f_equal; Z.to_euclidean_division_equations; lia.
Qed.

(** An address that is its own list of parameters. *)
Definition sample_url : UrlCrate := {|
  Url := unit;
  url_parse := fun s => if decide (s = MAGNET) then Some tt else None;
  url_scheme := fun _ => MAGNET;
  url_query_pairs := fun _ => Some [(XT, bs "urn:ed2k:354B15E68FB8F36D7CD88FF94116CDC1"); (XL, bs "10826029"); (TR, bs "udp://tracker");
                                    (XT, bs "urn:btih:d9be6909325D28912f400fcb324005dd5861e49F"); (bs "x.pe", bs "10.0.0.1:80"); (DN, bs "wiki"); (TR, bs "udp://other")]
|}.


Definition sample_link : MagnetLink :=
  mkMagnet (Some (bs "wiki")) (Some 10826029)
    (Some (BitTorrentInfoHash (mkShaHash [217; 190; 105; 9; 50; 93; 40; 145; 47; 64; 15; 203; 50; 64; 5; 221; 88; 97; 228; 159]))) [] [] [] None [bs "udp://tracker"; bs "udp://other"].

Lemma magnet_link_reads_back_witness : MagnetLink_parse (H := sample_url) MAGNET = Ok (Some sample_link).
Proof.
  eapply (magnet_link_reads_back (H := sample_url)); [reflexivity..| |].
  - split; [cbn; lia|]. split; [reflexivity|]. apply (bool_decide_unpack _). vm_compute. exact I.
  - split; [reflexivity|]. split; [reflexivity|]. split; [|repeat split; reflexivity].
    exists [bs "urn:ed2k:354B15E68FB8F36D7CD88FF94116CDC1"], [bs "urn:btih:d9be6909325D28912f400fcb324005dd5861e49F"]. split; [reflexivity|].
    eexists _, []. split; [reflexivity|]. split; [|repeat constructor]. left. exists (bs "d9be6909325D28912f400fcb324005dd5861e49F"). split; [reflexivity|].
    cbn [hex_spells sha_bytes bs]. repeat (split; [eexists _, _; split; [reflexivity|split; reflexivity]|]). exact I.
Defined.

(** The spelling in base 32. *)
Example base32_topic : Topic_parse (bs "urn:btih:QHQXPYWMACKDWKP47RRVIV7VOURXFE5Q") =
  Ok (Some (BitTorrentInfoHash (mkShaHash [129; 225; 119; 226; 204; 0; 148; 59; 41; 252; 252; 99; 84; 87; 245; 117; 35; 114; 147; 176]))).
Proof. vm_compute. reflexivity. Qed.

(** A topic of 49 bytes with a character across two pairs makes the parser panic. *)
Example straddling_topic_panics : Topic_parse (URN_BTIH ++ [48; 195; 169] ++ replicate 37 48) = Panic.
Proof. vm_compute. reflexivity. Qed.

(** A sign is accepted as the first of two digits. *)
Example signed_topic : Topic_parse (URN_BTIH ++ concat (replicate 20 [43; 49])) = Ok (Some (BitTorrentInfoHash (mkShaHash (replicate 20 1)))).
Proof. vm_compute. reflexivity. Qed.
